(* ===== verification/_CoqProject ===== *)
-Q . S2P
Prelude.v
Sums.v
Bitops.v
Bitmap.v
ListHead.v
Plist.v
Sort.v
MergeSort.v
ListSort.v
Cpumask.v
Cpupri.v
Cpudl.v
Siphash.v
Math64.v
Pelt.v
Loadavg.v
Ctype.v
Kstrtox.v
Rbtree.v
RbtreeTree.v
RbtreeInsert.v
RbtreeErase.v
RbtreeUnlink.v
RbtreeIter.v
RbtreeFind.v
RbtreeFrame.v
CfsWeight.v
CfsQueue.v
CfsTimeline.v
CfsPick.v
CfsSlice.v
CfsBandwidth.v
CfsClass.v
CfsRun.v
CfsSteps.v
CfsMachine.v
RtArray.v
RtBandwidth.v
RtQueue.v
RtInvariant.v
RtSteps.v
RtEntity.v
RtTree.v
RtClass.v
RtRun.v
RtAccount.v
Deadline.v
DeadlineBw.v
DeadlineServer.v
TgTree.v
TgAdmission.v
TgQuota.v
Resource.v
ResourceTree.v
ResourceOps.v
ResourceAdjust.v
ResourceSpec.v
ResourceAlloc.v
ResourceSplit.v
MemblockTypes.v
MemblockRegions.v
MemblockIter.v
MemblockRange.v
MemblockSpec.v
MemblockAlloc.v
MemblockApi.v
