(* ===== verification/Prelude.v ===== *)
(** * A verified model of the kernel analyser's core

    The repository builds parts of the Linux kernel as a user-space program, so that
    their algorithms can be run and watched.  This library models the parts that carry
    the algorithms, translated function by function from the C sources, and proves what
    makes them correct.

    ** The program's parts and how they interact

    At the bottom are containers and arithmetic: bit searches and bitmaps, linked lists,
    priority lists, red-black trees, sorting, 64-bit arithmetic, hashing and parsing.  On
    top of them are the scheduler's classes: the fair class keeps its tasks in a
    red-black tree and charges them weighted time, the real-time class keeps a tree of
    run queues with bitmaps and lists and tells the root domain its priority through
    cpupri, the deadline class admits reservations and enforces them with budgets, and
    finds CPUs through cpudl.  Load tracking and the load average observe the run queues.
    The memory side is the boot allocator memblock and the tree of address ranges that
    drivers claim.  The models follow these calls: the theorems of a class are proved from
    those of the containers it uses.

    ** Conventions

    - A [w]-bit unsigned integer is a [Z], and every operation that can leave the range
      is followed by the wrap-around of its type ([u32], [u64], [s32], [s64], [u8], ...).
      [phys_addr_t] has 32 bits, [unsigned long] 64, as in include/test/config.h.
    - Code that can go wrong returns [res]: [Ok] or a [Fault] (an access outside an array
      or through a pointer that is no node, a failed BUG_ON, or too little fuel).  A
      theorem of the form "... = Ok ..." thus also says that nothing outside an array is
      touched, that no check fires and that the loops end.  Warnings, statistics and the
      printing have no effect on the state and are left out.
    - Loops that are not structural take fuel.  The operations pass a bound computed from
      the data (the number of regions, of resources, of array slots, of nodes of a tree or a
      list, of entities and run queues, of bits of a counter), and the theorems show that
      it is never used up.
    - State is passed explicitly: structures linked by pointers are maps from addresses to
      records, so that sharing is represented.  Where the source shares memory between
      CPUs, an operation is a sequence of steps ([set_steps] of Cpupri.v, [step] of
      Loadavg.v), so that interleavings can be quantified over.  The operations of a class
      run under the lock of the run queue and are steps of a machine.
    - Allocation, user memory, callbacks, clocks and timers are parameters of the
      definitions; the timer of DeadlineBw.v is an interface with its documented laws.

    ** The files and the sources they model

    - Prelude.v: integers, faults, the [res] monad and its notation, tactics, list lemmas.
      Sums.v: sums over finite maps, for counters that are kept up to date.
    - Bitops.v: include/asm-generic/bitops (__ffs, __fls, fls, fls64) and lib/find_bit.c.
    - Bitmap.v: bit updates of non-atomic.h, lib/bitmap.c, include/linux/bitmap.h.
    - ListHead.v: include/linux/list.h as pointer assignments.  Plist.v: lib/plist.c and
      include/linux/plist.h on top of it.
    - Sort.v: lib/sort.c, the heapsort on a byte array with its word and byte swaps, and
      the same sort over abstract elements.
    - ListSort.v: lib/list_sort.c, the bottom-up merge sort, as loads and stores on the memory
      of ListHead.v; MergeSort.v: the same algorithm on sequences, which it refines.
    - Cpumask.v: lib/cpumask.c and include/linux/cpumask.h on top of Bitmap.v.
    - Cpupri.v, Cpudl.v: kernel/sched/cpupri.c and cpudeadline.c, the structures by which
      the real-time and deadline classes find a CPU; both use Cpumask.v.
    - Siphash.v: lib/siphash.c and include/linux/siphash.h.
    - Math64.v: include/linux/math64.h.
    - Pelt.v: kernel/sched/pelt.c and pelt.h, per-entity load tracking, on Math64.v.
    - Loadavg.v: kernel/sched/loadavg.c, the global load average.
    - Ctype.v, Kstrtox.v: lib/ctype.c and lib/kstrtox.c.
    - Rbtree.v: lib/rbtree.c and include/linux/rbtree.h, rbtree_augmented.h on a memory of
      nodes; RbtreeTree.v: pure trees, zippers and the correspondence; RbtreeInsert.v,
      RbtreeErase.v, RbtreeUnlink.v, RbtreeIter.v, RbtreeFind.v, RbtreeFrame.v: the
      operations against the pure trees.
    - kernel/sched/fair.c and the weights of core.c: CfsWeight.v (weights and virtual
      time), CfsQueue.v (the state and the operations on the timeline), CfsTimeline.v
      (their correctness), CfsPick.v (choice and fairness), CfsSlice.v (slices and
      placement), CfsBandwidth.v (accounting and bandwidth pools), CfsClass.v (the
      operations of the class), CfsRun.v, CfsSteps.v, CfsMachine.v (the invariant and the
      class as a machine).
    - kernel/sched/rt.c: RtArray.v (priority arrays), RtBandwidth.v (budgets and
      borrowing), RtQueue.v (the state of a CPU and the operations), RtInvariant.v (what
      queues and counters have to do with the entities), RtSteps.v and RtEntity.v (one
      entity is queued or dequeued), RtTree.v (the passes over a path of the tree),
      RtClass.v (whole operations, picking, throttling), RtRun.v (rotation, the theorems,
      a concrete CPU), RtAccount.v (charging, the period timer, the tick).
    - kernel/sched/deadline.c and the policy changes of core.c: Deadline.v (parameters,
      admission, rules), DeadlineBw.v (utilisation as tasks come, block, wake and leave),
      DeadlineServer.v (budgets and deadlines).
    - TgTree.v: the walk over the tree of task groups in core.c; TgAdmission.v: the
      admission of real-time bandwidth in rt.c; TgQuota.v: the check of quotas in core.c.
    - kernel/resource.c and include/linux/ioport.h: Resource.v (the state and the
      operations), ResourceTree.v (the invariant of the tree; wrapping and unwrapping a
      run of siblings), ResourceOps.v (requests, releases, insertions), ResourceAdjust.v
      (changing a range), ResourceSpec.v (the promises, searches), ResourceAlloc.v (the
      allocator), ResourceSplit.v (reserving what is free).
    - MemblockTypes.v, MemblockRegions.v, MemblockIter.v, MemblockRange.v,
      MemblockSpec.v, MemblockAlloc.v, MemblockApi.v: mm/memblock.c and
      include/linux/memblock.h, the boot-time allocator: the region arrays and their
      operations, the iterators over intersections, adding, removing, isolating and
      growing, the abstract specification, the allocator, and the limits and queries.

    ** What the theorems show

    - memblock: a region array is sorted, disjoint and merged, and denotes a partial map
      from addresses to attributes; adding, removing and changing flags or nodes are the
      corresponding updates of that map (a refinement), any sequence of operations is free
      of faults, the iterators yield exactly the maximal free ranges, an allocation
      returns the highest free range that fits and reserves it, and allocating then
      freeing gives back the map; error paths and the defects found are theorems too.
    - linked lists and priority lists: every operation, and any sequence of them, refines
      the operation on sequences; a priority list is sorted and first in, first out.
    - red-black trees: insertion and erasure keep the colour and height rules and the
      order, iteration and search are those of the sequence, and no other node is touched.
    - fair class: timelines refine sorted sequences, the leftmost task is chosen unless a
      buddy is close enough, time is charged in proportion to weights with stated
      rounding, scheduling charges the task that ran, puts it back and changes nothing else,
      bandwidth is conserved, and the invariant of the class holds in every state its
      machine reaches, with wrapping virtual times.
    - real-time class: queueing, dequeueing, throttling and rotation keep the invariant of
      the tree of run queues (lists, bitmaps, counters, priorities, the CPU's priority and
      overload in the root domain), put tasks where they belong and fire no BUG_ON; the
      task picked is first among the most urgent ones; budgets are conserved by
      borrowing, charging, the period timer and CPUs that come and go.  Charging and the
      period timer throttle and release exactly the queues whose time is over or under
      their budget; the tick rotates a round-robin task when its slice is used up and
      another one waits.
    - task groups: the walk visits every group once, parents first; new real-time
      bandwidth is accepted exactly when the whole tree still fits, and a refused request
      changes nothing; quotas are accepted exactly when limits nest down the tree.  Both
      hold for run times below 2^44 units, beyond which the ratios overflow: the examples
      [rt_ratio_overflows] and [cfs_ratio_overflows] show what then happens.
    - resource tree: siblings are sorted, disjoint and inside their parent after every
      operation; requests and insertions succeed exactly when nothing is in the way,
      removal undoes insertion, the allocator returns the lowest range that fits despite
      32-bit wrap-around, and reserving with splits covers the whole range and ends.
    - deadline class: the bandwidth admitted never exceeds the limit and is accounted
      exactly, with the threads of the frequency governor outside the account; a server never gets more than its budget per period, the wake-up rule and
      replenishment keep deadlines in range, and the reclaiming rule is the stated one.
    - sorting: both sorts terminate within their fuel and return a sorted permutation; the
      list sort is stable, restores the links in both directions and follows no null pointer.
    - bit searches, bitmaps and CPU masks: each is the set operation or search it stands
      for, within the size of the bitmap.
    - cpupri and cpudl: the structures are consistent after every operation, the searches
      return exactly the CPUs they promise, and a search that races with an update never
      misses a CPU that was eligible throughout.
    - siphash: the buffer and integer hashes equal a reference definition of SipHash-c-d.
    - load tracking: decay is accurate to 3 units, sums never exceed their limit and
      averages their weight; the utilisation can overshoot by one unit.  The load average
      conserves the count of active tasks under any interleaving, catches up with missed
      intervals and converges at the stated geometric rate.
    - arithmetic and parsing: multiplication by halves equals 128-bit multiplication;
      string conversion equals its specification, including which error is reported, and
      parses back every printed number.

    ** Not modelled

    Of the scheduler: context switches, wake-ups and the life of a task in
    kernel/sched/core.c, the topology code, moving tasks between CPUs in all classes
    (load balancing, pushing and pulling), the throttling of fair queues, the shares and
    the creation of groups, and the sysctl and cgroup files.  The indexed trees
    (maple_tree.c, xarray.c, radix-tree.c) rely on tagged pointers under RCU; workqueues,
    RCU and the device model run on thread stubs and callbacks.  The trace-event and
    option parsers are vendored; the front end, the printing and the debug files are I/O. *)

(** * Shared definitions: machine integers, faults, list lemmas, automation *)

From Stdlib Require Export ZArith Lia.
From stdpp Require Export base tactics option list numbers decidable.
Export list_basics.list list_relations.list list_monad.list list_misc.list.

Open Scope Z_scope.

(** ** Machine integers

    A [w]-bit unsigned value is a [Z] in [0, 2^w); every C operation that can
    leave the range is followed by the wrap-around of its type. *)

Definition u32 (x : Z) : Z := x mod 4294967296.
Definition u64 (x : Z) : Z := x mod 18446744073709551616.

(** Conversion to the signed 32-bit and 64-bit types (two's complement). *)
Definition s32 (x : Z) : Z :=
  let y := u32 x in if y <? 2147483648 then y else y - 4294967296.
Definition s64 (x : Z) : Z :=
  let y := u64 x in if y <? 9223372036854775808 then y else y - 18446744073709551616.

Lemma u32_small x : 0 <= x < 4294967296 -> u32 x = x.
Proof. apply Z.mod_small. Qed.

Lemma u64_small x : 0 <= x < 18446744073709551616 -> u64 x = x.
Proof. apply Z.mod_small. Qed.

Lemma s64_near x d : u64 x = u64 d -> - 2 ^ 63 <= d < 2 ^ 63 -> s64 x = d.
Proof.
  intros E0 Hd. unfold s64. rewrite E0. unfold u64. destruct (Z.lt_ge_cases d 0) as [H|H].
  - replace (d mod 18446744073709551616) with (d + 18446744073709551616)
      by (symmetry; rewrite <- (Z.mod_add d 1) by lia; rewrite Z.mod_small; lia).
    destruct (Z.ltb_spec (d + 18446744073709551616) 9223372036854775808); lia.
  - rewrite Z.mod_small by lia. destruct (Z.ltb_spec d 9223372036854775808); lia.
Qed.

Lemma s64_small x : - 2 ^ 63 <= x < 2 ^ 63 -> s64 x = x.
Proof. intros H. apply s64_near; [reflexivity|exact H]. Qed.

Lemma u32_range x : 0 <= u32 x < 4294967296.
Proof. apply Z.mod_pos_bound; lia. Qed.

Lemma u64_range x : 0 <= u64 x < 18446744073709551616.
Proof. apply Z.mod_pos_bound; lia. Qed.

Lemma u32_add_l x y : u32 (u32 x + y) = u32 (x + y).
Proof. unfold u32. apply Zplus_mod_idemp_l. Qed.

Lemma u32_add_r x y : u32 (x + u32 y) = u32 (x + y).
Proof. unfold u32. apply Zplus_mod_idemp_r. Qed.

Lemma u32_sub_l x y : u32 (u32 x - y) = u32 (x - y).
Proof. unfold u32. apply Zminus_mod_idemp_l. Qed.

Lemma u32_sub_r x y : u32 (x - u32 y) = u32 (x - y).
Proof. unfold u32. apply Zminus_mod_idemp_r. Qed.

Lemma u32_u32 x : u32 (u32 x) = u32 x.
Proof. unfold u32. by rewrite Z.mod_mod. Qed.

(** Errno values returned by the modelled functions. *)
Definition ENOMEM : Z := 12.
Definition EBUSY : Z := 16.
Definition ENODEV : Z := 19.
Definition EINVAL : Z := 22.
Definition ERANGE : Z := 34.

(** The run time of an unlimited reservation. *)
Definition RUNTIME_INF : Z := 18446744073709551615.

(** Why an entity is enqueued or dequeued. *)
Definition ENQUEUE_WAKEUP : Z := 1.
Definition DEQUEUE_SAVE : Z := 2.
Definition DEQUEUE_MOVE : Z := 4.

(** ** Faults

    [BugOn] is a [BUG_ON] whose condition holds, [OutOfBounds] an access past
    the live part of an array, [NoFuel] a loop cut short by its fuel, [NotModelled] a
    branch of the code that is outside the model.  The
    theorems show that well-formed states reach none of them. *)

Inductive fault := BugOn | OutOfBounds | NoFuel | NotModelled.

Inductive res (A : Type) :=
| Ok (a : A)
| Fault (f : fault).
Arguments Ok {A} a.
Arguments Fault {A} f.

Definition res_bind {A B} (m : res A) (k : A -> res B) : res B :=
  match m with
  | Ok a => k a
  | Fault f => Fault f
  end.

Declare Scope res_scope.
Delimit Scope res_scope with res.
Notation "x <-- m ; k" := (res_bind m (fun x => k))
  (at level 20, m at level 100, k at level 200, right associativity) : res_scope.
Notation "' p <-- m ; k" := (res_bind m (fun p => k))
  (at level 20, p pattern, m at level 100, k at level 200, right associativity) : res_scope.

(** An array read [a[i]] on the live part [l] of an array. *)
Definition array_get {A} (l : list A) (i : nat) : res A :=
  match l !! i with
  | Some x => Ok x
  | None => Fault OutOfBounds
  end.

Lemma array_get_Some {A} (l : list A) i x : l !! i = Some x -> array_get l i = Ok x.
Proof. intros H. unfold array_get. by rewrite H. Qed.

(** An array write [a[i] = x]. *)
Definition array_set {A} (l : list A) (i : nat) (x : A) : res (list A) :=
  if (i <? length l)%nat then Ok (<[i := x]> l) else Fault OutOfBounds.

Lemma array_set_ok {A} (l : list A) i x : (i < length l)%nat -> array_set l i x = Ok (<[i := x]> l).
Proof. intros H. unfold array_set. by destruct (Nat.ltb_spec i (length l)); [|lia]. Qed.

(** ** Automation *)

Create HintDb kernel discriminated.

(** [zbool] turns the boolean integer tests of the code into propositions. *)
Ltac zbool :=
  repeat match goal with
  | H : (_ <? _) = true |- _ => apply Z.ltb_lt in H
  | H : (_ <? _) = false |- _ => apply Z.ltb_ge in H
  | H : (_ <=? _) = true |- _ => apply Z.leb_le in H
  | H : (_ <=? _) = false |- _ => apply Z.leb_gt in H
  | H : (_ =? _) = true |- _ => apply Z.eqb_eq in H
  | H : (_ =? _) = false |- _ => apply Z.eqb_neq in H
  | H : andb _ _ = true |- _ => apply andb_true_iff in H; destruct H
  | H : orb _ _ = false |- _ => apply orb_false_iff in H; destruct H
  | H : negb _ = true |- _ => apply negb_true_iff in H
  | H : negb _ = false |- _ => apply negb_false_iff in H
  end.

(** [zcase] splits on the integer tests of the goal, innermost scrutinee first. *)
Ltac zcase1 :=
  match goal with
  | |- context [?a <? ?b] => destruct (Z.ltb_spec a b)
  | |- context [?a <=? ?b] => destruct (Z.leb_spec a b)
  | |- context [?a =? ?b] => destruct (Z.eqb_spec a b)
  end.
Ltac zcase := repeat (zcase1; try lia).

(** [wrap] removes the wrap-arounds that lia proves are in range. *)
Ltac wrap := repeat (rewrite u32_small by lia); repeat (rewrite u64_small by lia).

(** [res_inv] inverts a successful computation one bind at a time. *)
Ltac res_inv H :=
  match type of H with
  | res_bind ?m _ = Ok _ => let E := fresh "E" in destruct m eqn:E; simpl in H; [|discriminate H]
  end.

(** ** Bit operations *)

(** Or-ing into the zero low bits is addition. *)
Lemma lor_low m q y : 0 <= m -> 0 <= y < 2 ^ m -> Z.lor (q * 2 ^ m) y = q * 2 ^ m + y.
Proof.
  intros Hm Hy. assert (E : Z.land (q * 2 ^ m) y = 0).
  { apply Z.bits_inj'. intros i Hi. rewrite Z.land_spec, Z.bits_0. destruct (Z.lt_ge_cases i m).
    - by rewrite Z.mul_pow2_bits_low by lia.
    - destruct (Z.eq_dec y 0) as [->|Hne]; [by rewrite Z.bits_0, andb_false_r|].
      rewrite (Z.bits_above_log2 y i), andb_false_r; [done|lia|].
      apply (Z.lt_le_trans _ m); [|done]. apply Z.log2_lt_pow2; lia. }
  rewrite <- Z.lxor_lor by done. symmetry. by apply Z.add_nocarry_lxor.
Qed.

Lemma lor_add m X y : 0 <= m -> X mod 2 ^ m = 0 -> 0 <= y < 2 ^ m -> Z.lor X y = X + y.
Proof.
  intros Hm HX Hy. pose proof (Z.div_mod X (2 ^ m)) as E. rewrite HX in E.
  assert (0 < 2 ^ m) by (apply Z.pow_pos_nonneg; lia).
  replace X with (X / 2 ^ m * 2 ^ m) by lia. by apply lor_low.
Qed.

(** ** Lists *)

Section lists.
Context {A : Type}.
Implicit Types l : list A.

Lemma lookup_app_mid l1 x l2 : (l1 ++ x :: l2) !! length l1 = Some x.
Proof. by apply list_lookup_middle. Qed.

Lemma lookup_app_mid_S l1 x y l2 : (l1 ++ x :: y :: l2) !! S (length l1) = Some y.
Proof.
  rewrite (cons_middle x), app_assoc.
  apply list_lookup_middle. rewrite length_app; simpl; lia.
Qed.

Lemma take_app_len l1 l2 : take (length l1) (l1 ++ l2) = l1.
Proof. by rewrite take_app_length. Qed.

Lemma drop_app_len l1 l2 : drop (length l1) (l1 ++ l2) = l2.
Proof. by rewrite drop_app_length. Qed.

Lemma insert_app_mid l1 x y l2 : <[length l1 := y]> (l1 ++ x :: l2) = l1 ++ y :: l2.
Proof. rewrite insert_app_r_alt by lia. by rewrite Nat.sub_diag. Qed.

Lemma delete_app_mid l1 x l2 : delete (length l1) (l1 ++ x :: l2) = l1 ++ l2.
Proof. by apply delete_middle. Qed.
End lists.
