(* ===== verification/Sums.v ===== *)
(** * Sums over finite maps

    The counters of a run queue or of a root domain are sums over its entities, kept up to
    date one entity at a time. *)

From stdpp Require Import gmap.
From S2P Require Import Prelude.
Local Open Scope Z_scope.

Definition sumq {A} (F : A -> Z) (m : gmap Z A) : Z := map_fold (fun _ r acc => F r + acc) 0 m.

Lemma sumq_insert {A} (F : A -> Z) m q r' : m !! q = None -> sumq F (<[q := r']> m) = F r' + sumq F m.
Proof. intros H. unfold sumq. rewrite map_fold_insert_L; [done| |done]. intros. lia. Qed.

Lemma sumq_update {A} (F : A -> Z) m q r r' : m !! q = Some r -> sumq F (<[q := r']> m) = sumq F m - F r + F r'.
Proof.
  intros H. rewrite <- (insert_delete_id m q r) at 2 by done. rewrite <- insert_delete_eq.
  rewrite !sumq_insert by apply lookup_delete_eq. lia.
Qed.

Lemma sumq_nonneg {A} (F : A -> Z) m : (forall r, 0 <= F r) -> 0 <= sumq F m.
Proof. intros HF. unfold sumq. apply (map_fold_weak_ind (fun v _ => 0 <= v)); [lia|]. intros q r m' v _ Hv. specialize (HF r). lia. Qed.

Lemma sumq_le {A} (F : A -> Z) (m : gmap Z A) c : (forall x a, m !! x = Some a -> F a <= c) -> 0 <= c -> sumq F m <= c * Z.of_nat (size m).
Proof.
  intros HF Hc. unfold sumq. induction m as [|x a m Hx Hf IH] using map_first_key_ind; [rewrite map_fold_empty, map_size_empty; lia|].
  rewrite map_fold_insert_first_key, map_size_insert_None by done. specialize (HF x a (lookup_insert_eq _ _ _)) as H1.
  assert (map_fold (fun _ r acc => F r + acc) 0 m <= c * Z.of_nat (size m)); [|lia].
  apply IH. intros y e Hy. apply (HF y). rewrite lookup_insert_ne; [done|congruence].
Qed.

Lemma sumq_nonneg_on {A} (F : A -> Z) (m : gmap Z A) : (forall x a, m !! x = Some a -> 0 <= F a) -> 0 <= sumq F m.
Proof.
  intros HF. unfold sumq. induction m as [|x a m Hx Hf IH] using map_first_key_ind; [by rewrite map_fold_empty|].
  rewrite map_fold_insert_first_key by done. specialize (HF x a (lookup_insert_eq _ _ _)) as H1.
  assert (0 <= map_fold (fun _ r acc => F r + acc) 0 m); [|lia]. apply IH. intros y e Hy. apply (HF y). rewrite lookup_insert_ne; [done|congruence].
Qed.

Lemma sumq_part {A} (F : A -> Z) (m : gmap Z A) x a : (forall y a, m !! y = Some a -> 0 <= F a) -> m !! x = Some a -> F a <= sumq F m.
Proof.
  intros HF Hx. rewrite <- (insert_delete_id m x a) by done. rewrite sumq_insert by apply lookup_delete_eq.
  assert (0 <= sumq F (delete x m)); [|lia]. apply sumq_nonneg_on.
  intros y a' Hy. apply lookup_delete_Some in Hy as [_ Hy]. by eapply HF.
Qed.

Lemma sumq_mono {A} (F G : A -> Z) (m : gmap Z A) : (forall x a, m !! x = Some a -> F a <= G a) -> sumq F m <= sumq G m.
Proof.
  intros HF. unfold sumq. induction m as [|x a m Hx Hf IH] using map_first_key_ind; [by rewrite !map_fold_empty|].
  rewrite !map_fold_insert_first_key by done. specialize (HF x a (lookup_insert_eq _ _ _)) as H1.
  assert (map_fold (fun _ r acc => F r + acc) 0 m <= map_fold (fun _ r acc => G r + acc) 0 m); [|lia].
  apply IH. intros y b Hy. apply (HF y). rewrite lookup_insert_ne; [done|congruence].
Qed.

Lemma sumq_scale {A} (c : Z) (F : A -> Z) (m : gmap Z A) : sumq (fun a => c * F a) m = c * sumq F m.
Proof.
  unfold sumq. induction m as [|x a m Hx Hf IH] using map_first_key_ind; [rewrite !map_fold_empty; lia|].
  rewrite !map_fold_insert_first_key by done. lia.
Qed.

Lemma sumq_zero {A} (F : A -> Z) (m : gmap Z A) : (forall x a, m !! x = Some a -> F a = 0) -> sumq F m = 0.
Proof.
  intros HF. apply Z.le_antisymm.
  - rewrite <- (Z.mul_0_l (Z.of_nat (size m))). apply sumq_le; [|lia]. intros x a Hx. rewrite (HF x a Hx). lia.
  - apply sumq_nonneg_on. intros x a Hx. rewrite (HF x a Hx). lia.
Qed.
