(* ===== verification/Bitops.v ===== *)
(** * Bit searches and bitmaps (include/asm-generic/bitops, lib/find_bit.c, lib/bitmap.c)

    A word is a [Z] in [0, 2^64); a bitmap is the list of its words, and [bit]
    is its abstract view.  The searches return the first (last) position of
    their range that satisfies the predicate they look for; the set operations
    act pointwise on the bits. *)

From S2P Require Import Prelude.
Local Open Scope res_scope.

Definition BITS_PER_LONG : Z := 64.
Definition word_max : Z := 18446744073709551615.

(** ** Bits of a word *)

(** One conditional halving of [__ffs]. *)
Definition ffs_step (mask w : Z) (s : Z * Z) : Z * Z :=
  let '(num, word) := s in
  if Z.land word mask =? 0 then (num + w, Z.shiftr word w) else (num, word).

Definition __ffs (word : Z) : Z :=
  let s := ffs_step 4294967295 32 (0, word) in
  let s := ffs_step 65535 16 s in
  let s := ffs_step 255 8 s in
  let s := ffs_step 15 4 s in
  let s := ffs_step 3 2 s in
  if Z.land s.2 1 =? 0 then s.1 + 1 else s.1.

(** [ffz(x)] is [__ffs(~x)]. *)
Definition ffz (word : Z) : Z := __ffs (u64 (Z.lnot word)).

(** One conditional halving of [__fls]; the mask is [~0ul << (64 - w)]. *)
Definition fls_step (w : Z) (s : Z * Z) : Z * Z :=
  let '(num, word) := s in
  if Z.land word (u64 (Z.shiftl word_max (BITS_PER_LONG - w))) =? 0
  then (num - w, u64 (Z.shiftl word w)) else (num, word).

Definition __fls (word : Z) : Z :=
  let s := fls_step 32 (BITS_PER_LONG - 1, word) in
  let s := fls_step 16 s in
  let s := fls_step 8 s in
  let s := fls_step 4 s in
  let s := fls_step 2 s in
  if Z.land s.2 (u64 (Z.shiftl word_max (BITS_PER_LONG - 1))) =? 0 then s.1 - 1 else s.1.

Definition fls64 (x : Z) : Z := if x =? 0 then 0 else __fls x + 1.

(** [fls] on [unsigned int]: the same halving on 32 bits, with [x] and [r]. *)
Definition fls32_step (mask w : Z) (s : Z * Z) : Z * Z :=
  let '(r, x) := s in
  if Z.land x mask =? 0 then (r - w, u32 (Z.shiftl x w)) else (r, x).

Definition fls (x : Z) : Z :=
  if x =? 0 then 0
  else
    let s := fls32_step 4294901760 16 (32, x) in
    let s := fls32_step 4278190080 8 s in
    let s := fls32_step 4026531840 4 s in
    let s := fls32_step 3221225472 2 s in
    let s := fls32_step 2147483648 1 s in
    s.1.

(** ** Bitmaps *)

Definition BITMAP_FIRST_WORD_MASK (start : Z) : Z :=
  u64 (Z.shiftl word_max (Z.land start (BITS_PER_LONG - 1))).
Definition BITMAP_LAST_WORD_MASK (nbits : Z) : Z :=
  if negb (nbits mod BITS_PER_LONG =? 0) then u64 (Z.shiftl 1 (nbits mod BITS_PER_LONG)) - 1 else word_max.
Definition BITS_TO_LONGS (nbits : Z) : Z := (nbits + BITS_PER_LONG - 1) / BITS_PER_LONG.

Definition get_word (a : list Z) (i : Z) : res Z := array_get a (Z.to_nat i).

(** [tmp = addr1[i]; if (addr2) tmp &= addr2[i]; tmp ^= invert;] *)
Definition fetch (addr1 : list Z) (addr2 : option (list Z)) (invert i : Z) : res Z :=
  w1 <-- get_word addr1 i;
  w <-- match addr2 with
        | Some a2 => w2 <-- get_word a2 i; Ok (Z.land w1 w2)
        | None => Ok w1
        end;
  Ok (Z.lxor w invert).

(** [while (!tmp)], one word at a time. *)
Fixpoint find_loop (fuel : nat) (addr1 : list Z) (addr2 : option (list Z)) (nbits start invert tmp : Z)
  : res Z :=
  match fuel with
  | O => Fault NoFuel
  | S fuel =>
    if tmp =? 0 then
      let start := start + BITS_PER_LONG in
      if nbits <=? start then Ok nbits
      else
        tmp <-- fetch addr1 addr2 invert (start / BITS_PER_LONG);
        find_loop fuel addr1 addr2 nbits start invert tmp
    else Ok (Z.min (start + __ffs tmp) nbits)
  end.

(** At most one pass for each word of the bitmap, and one more. *)
Definition _find_next_bit (addr1 : list Z) (addr2 : option (list Z)) (nbits start invert : Z) : res Z :=
  if nbits <=? start then Ok nbits
  else
    tmp <-- fetch addr1 addr2 invert (start / BITS_PER_LONG);
    let tmp := Z.land tmp (BITMAP_FIRST_WORD_MASK start) in
    let start := Z.land start (Z.lnot (BITS_PER_LONG - 1)) in
    find_loop (S (length addr1)) addr1 addr2 nbits start invert tmp.

(** [size] is never a compile-time constant in the out-of-line functions, so
    their single-word shortcut is not taken. *)
Definition find_next_bit (addr : list Z) (size offset : Z) : res Z :=
  _find_next_bit addr None size offset 0.
Definition find_next_zero_bit (addr : list Z) (size offset : Z) : res Z :=
  _find_next_bit addr None size offset word_max.
Definition find_next_and_bit (addr1 addr2 : list Z) (size offset : Z) : res Z :=
  _find_next_bit addr1 (Some addr2) size offset 0.

(** [for (idx = 0; idx * BITS_PER_LONG < size; idx++)] *)
Fixpoint first_loop (fuel : nat) (search : Z -> option Z) (addr : list Z) (size idx : Z) : res Z :=
  match fuel with
  | O => Fault NoFuel
  | S fuel =>
    if idx * BITS_PER_LONG <? size then
      w <-- get_word addr idx;
      match search w with
      | Some i => Ok (Z.min (idx * BITS_PER_LONG + i) size)
      | None => first_loop fuel search addr size (idx + 1)
      end
    else Ok size
  end.

Definition find_first_bit (addr : list Z) (size : Z) : res Z :=
  first_loop (S (length addr)) (fun w => if negb (w =? 0) then Some (__ffs w) else None) addr size 0.
Definition find_first_zero_bit (addr : list Z) (size : Z) : res Z :=
  first_loop (S (length addr)) (fun w => if negb (w =? word_max) then Some (ffz w) else None) addr size 0.

(** [do ... while (idx--)]: from word [n - 1 = idx] down to word 0. *)
Fixpoint last_loop (n : nat) (addr : list Z) (size val : Z) : res Z :=
  match n with
  | O => Ok size
  | S idx =>
    w <-- array_get addr idx;
    let val := Z.land val w in
    if negb (val =? 0) then Ok (Z.of_nat idx * BITS_PER_LONG + __fls val)
    else last_loop idx addr size word_max
  end.

Definition find_last_bit (addr : list Z) (size : Z) : res Z :=
  if negb (size =? 0) then
    last_loop (S (Z.to_nat ((size - 1) / BITS_PER_LONG))) addr size (BITMAP_LAST_WORD_MASK size)
  else Ok size.

(** ** Bits of a word: correctness *)

Definition word (w : Z) : Prop := 0 <= w < 18446744073709551616.

(** The lowest set bit. *)
Definition lowest_bit (w i : Z) : Prop :=
  0 <= i /\ Z.testbit w i = true /\ forall j, 0 <= j < i -> Z.testbit w j = false.

Lemma mod_pow2_bits w n : 0 <= n -> w mod 2 ^ n = 0 <-> forall j, 0 <= j < n -> Z.testbit w j = false.
Proof.
  intros Hn. split.
  - intros E j Hj. rewrite <- (Z.mod_pow2_bits_low w n j) by lia. rewrite E. apply Z.bits_0.
  - intros H. apply Z.bits_inj'. intros j Hj. rewrite Z.bits_0.
    destruct (Z.lt_ge_cases j n); [rewrite Z.mod_pow2_bits_low by lia; apply H; lia|].
    apply Z.mod_pow2_bits_high. lia.
Qed.

(** [ffs_state w n s]: the halvings so far have dropped [s.1] zero bits and the
    low [n] bits of the rest are not all zero. *)
Definition ffs_state (w n : Z) (s : Z * Z) : Prop :=
  0 <= s.1 /\ s.2 = Z.shiftr w s.1 /\ (forall j, 0 <= j < s.1 -> Z.testbit w j = false)
  /\ s.2 mod 2 ^ n <> 0.

Lemma ffs_step_ok w n s :
  0 < n -> ffs_state w (n + n) s -> ffs_state w n (ffs_step (Z.ones n) n s).
Proof.
  destruct s as [num word]. intros Hn (H0&E&Hlow&Hnz). simpl in *. unfold ffs_step.
  rewrite Z.land_ones by lia. destruct (Z.eqb_spec (word mod 2 ^ n) 0) as [Ez|Ez]; [|done].
  repeat split; simpl.
  - lia.
  - rewrite E, Z.shiftr_shiftr by lia. done.
  - intros j Hj. destruct (Z.lt_ge_cases j num); [apply Hlow; lia|].
    assert (Hb : Z.testbit word (j - num) = false) by (apply (mod_pow2_bits word n); [lia|done|lia]).
    rewrite E, Z.shiftr_spec in Hb by lia. by replace (j - num + num) with j in Hb by lia.
  - intros Ez'. apply Hnz. apply mod_pow2_bits; [lia|]. intros j Hj.
    destruct (Z.lt_ge_cases j n); [apply (mod_pow2_bits word n); [lia|done|lia]|].
    assert (Hb : Z.testbit (Z.shiftr word n) (j - n) = false) by (apply (mod_pow2_bits _ n); [lia|done|lia]).
    rewrite Z.shiftr_spec in Hb by lia. by replace (j - n + n) with j in Hb by lia.
Qed.

Lemma ffs_ok w : word w -> w <> 0 -> lowest_bit w (__ffs w) /\ __ffs w < 64.
Proof.
  unfold word. intros Hw Hnz. assert (S0 : ffs_state w (32 + 32) (0, w)).
  { repeat split; simpl; [lia|intros; lia|]. change (2 ^ 64) with 18446744073709551616. rewrite Z.mod_small; lia. }
  apply ffs_step_ok, (ffs_step_ok w 16), (ffs_step_ok w 8), (ffs_step_ok w 4), (ffs_step_ok w 2) in S0; [|lia..].
  change (Z.ones 32) with 4294967295 in S0. change (Z.ones 16) with 65535 in S0. change (Z.ones 8) with 255 in S0.
  change (Z.ones 4) with 15 in S0. change (Z.ones 2) with 3 in S0.
  unfold __ffs. destruct (ffs_step 3 2 _) as [num x]. apply (ffs_step_ok w 1) in S0; [|lia].
  change (Z.ones 1) with 1 in S0. unfold ffs_step in S0. simpl.
  assert (K : forall i x, ffs_state w 1 (i, x) -> lowest_bit w i).
  { intros i y (?&E&Hlow&Hodd). simpl in *. split; [done|]. split; [|done].
    destruct (Z.testbit w i) eqn:Et; [done|]. exfalso. apply Hodd. apply (mod_pow2_bits y 1); [lia|].
    intros j Hj. assert (j = 0) as -> by lia. by rewrite E, Z.shiftr_spec, Z.add_0_l by lia. }
  assert (L : forall i, lowest_bit w i -> i < 64).
  { intros i (?&Hb&_). destruct (Z.lt_ge_cases i 64); [done|].
    rewrite (Z.bits_above_log2 w i) in Hb; [done|lia|].
    apply (Z.lt_le_trans _ 64); [|done]. apply Z.log2_lt_pow2; [lia|]. change (2 ^ 64) with 18446744073709551616. lia. }
  destruct (Z.land x 1 =? 0); apply K in S0; auto.
Qed.

Lemma lowest_bit_unique w i j : lowest_bit w i -> lowest_bit w j -> i = j.
Proof.
  intros (Hi&Bi&Li) (Hj&Bj&Lj). destruct (Z.lt_total i j) as [H|[H|H]]; [|done|].
  - by rewrite Lj in Bi by lia.
  - by rewrite Li in Bj by lia.
Qed.

(** *** The highest set bit *)

Lemma shifted_mask n : 0 <= n <= 64 -> u64 (Z.shiftl word_max n) = 2 ^ 64 - 2 ^ n.
Proof.
  intros H. unfold u64, word_max. rewrite Z.shiftl_mul_pow2 by lia.
  change 18446744073709551616 with (2 ^ 64). change 18446744073709551615 with (2 ^ 64 - 1).
  replace ((2 ^ 64 - 1) * 2 ^ n) with (2 ^ 64 - 2 ^ n + (2 ^ n - 1) * 2 ^ 64) by lia.
  rewrite Z.mod_add by lia. apply Z.mod_small. assert (2 ^ n <= 2 ^ 64) by (apply Z.pow_le_mono_r; lia).
  assert (0 < 2 ^ n) by (apply Z.pow_pos_nonneg; lia). lia.
Qed.

Lemma high_mask_zero w n : word w -> 0 <= n <= 64 ->
  Z.land w (u64 (Z.shiftl word_max n)) = 0 <-> w < 2 ^ n.
Proof.
  unfold word. intros Hw Hn. assert (Ep : 0 < 2 ^ n) by (apply Z.pow_pos_nonneg; lia).
  assert (E : Z.land w (u64 (Z.shiftl word_max n)) = 2 ^ n * (w / 2 ^ n)).
  { rewrite shifted_mask by lia. replace (2 ^ 64 - 2 ^ n) with (Z.lnot (Z.ones n) mod 2 ^ 64).
    - rewrite <- Z.land_ones, (Z.land_comm (Z.lnot _)), Z.land_assoc, Z.land_ones by lia.
      rewrite (Z.mod_small w) by (change (2 ^ 64) with 18446744073709551616; lia).
      rewrite <- Z.ldiff_land, Z.ldiff_ones_r, Z.shiftl_mul_pow2, Z.shiftr_div_pow2 by lia. lia.
    - rewrite Z.ones_equiv. unfold Z.lnot. replace (Z.pred (- Z.pred (2 ^ n))) with (2 ^ 64 - 2 ^ n + (-1) * 2 ^ 64) by lia.
      rewrite Z.mod_add by lia. apply Z.mod_small. assert (2 ^ n <= 2 ^ 64) by (apply Z.pow_le_mono_r; lia). lia. }
  rewrite E. pose proof (Z.div_mod w (2 ^ n)). pose proof (Z.mod_pos_bound w (2 ^ n)). split; intros.
  - lia.
  - rewrite Z.div_small by lia. lia.
Qed.

(** [fls_state w n s]: the word has been shifted up by [63 - s.1] without losing
    bits and is at least [2^(64 - n)]. *)
Definition fls_state (w n : Z) (s : Z * Z) : Prop :=
  word s.2 /\ 2 ^ (64 - n) <= s.2 /\ Z.log2 s.2 - (63 - s.1) = Z.log2 w.

Lemma fls_step_ok w n s :
  0 < n <= 32 -> fls_state w (n + n) s -> fls_state w n (fls_step n s).
Proof.
  destruct s as [num x]. unfold fls_state, fls_step, BITS_PER_LONG. simpl. intros Hn (Hw&Hge&Hlog).
  assert (Hpos : 0 < 2 ^ (64 - (n + n))) by (apply Z.pow_pos_nonneg; lia).
  destruct (Z.eqb_spec (Z.land x (u64 (Z.shiftl word_max (64 - n)))) 0) as [E|E];
    rewrite high_mask_zero in E by (done || lia); unfold word in *; simpl; [|repeat split; lia].
  assert (Hlt : x * 2 ^ n < 18446744073709551616).
  { change 18446744073709551616 with (2 ^ 64). replace 64 with (64 - n + n) by lia.
    rewrite Z.pow_add_r by lia. apply Z.mul_lt_mono_pos_r; lia. }
  assert (0 < 2 ^ n) by (apply Z.pow_pos_nonneg; lia).
  rewrite Z.shiftl_mul_pow2 by lia. rewrite u64_small by lia. unfold word. repeat split; try lia.
  - replace (64 - n) with (64 - (n + n) + n) by lia. rewrite Z.pow_add_r by lia. apply Z.mul_le_mono_nonneg_r; lia.
  - rewrite Z.log2_mul_pow2 by lia. lia.
Qed.

Lemma fls_ok w : word w -> w <> 0 -> __fls w = Z.log2 w.
Proof.
  unfold word. intros Hw Hnz. assert (S0 : fls_state w (32 + 32) (63, w)).
  { unfold fls_state, word. simpl. repeat split; lia. }
  apply fls_step_ok, (fls_step_ok w 16), (fls_step_ok w 8), (fls_step_ok w 4), (fls_step_ok w 2) in S0; [|lia..].
  unfold __fls. change (BITS_PER_LONG - 1) with 63. destruct (fls_step 2 _) as [num x]. simpl.
  apply (fls_step_ok w 1) in S0; [|lia]. unfold fls_step, BITS_PER_LONG in S0.
  assert (K : forall i y, fls_state w 1 (i, y) -> i = Z.log2 w).
  { intros i y ((?&?)&Hge&Hlog). simpl in *. change (2 ^ (64 - 1)) with (2 ^ 63) in Hge.
    assert (Z.log2 y = 63); [|lia]. apply Z.log2_unique; [lia|]. split; [lia|].
    change (2 ^ Z.succ 63) with 18446744073709551616. lia. }
  change (64 - 1) with 63 in S0. destruct (Z.land x _ =? 0); by apply K in S0.
Qed.

(** ** Searching a bitmap: correctness *)

Definition bit (a : list Z) (i : Z) : bool :=
  Z.testbit (nth (Z.to_nat (i / 64)) a 0) (i mod 64).

(** A bitmap of words that has room for [nbits] bits. *)
Definition bitmap (a : list Z) (nbits : Z) : Prop :=
  Forall word a /\ 0 <= nbits <= 64 * Z.of_nat (length a).

(** [r] is the first position of [lo, hi) that satisfies [P], or [hi]. *)
Definition first_in (P : Z -> bool) (lo hi r : Z) : Prop :=
  lo <= r <= hi /\ (r < hi -> P r = true) /\ forall i, lo <= i < r -> P i = false.

Lemma word_bit_high w i : word w -> 64 <= i -> Z.testbit w i = false.
Proof.
  unfold word. intros Hw Hi. destruct (Z.eq_dec w 0) as [->|Hne]; [apply Z.bits_0|].
  apply Z.bits_above_log2; [lia|]. apply (Z.lt_le_trans _ 64); [|lia].
  apply Z.log2_lt_pow2; [lia|]. change (2 ^ 64) with 18446744073709551616. lia.
Qed.

Lemma word_bits w : (forall i, 64 <= i -> Z.testbit w i = false) -> 0 <= w -> word w.
Proof.
  intros H Hw. split; [done|]. destruct (Z.eq_dec w 0) as [->|Hne]; [lia|].
  change 18446744073709551616 with (2 ^ 64). apply Z.log2_lt_pow2; [lia|].
  destruct (Z.lt_ge_cases (Z.log2 w) 64) as [?|Hge]; [done|]. specialize (H _ Hge).
  rewrite Z.bit_log2 in H by lia. done.
Qed.

Lemma word_land w1 w2 : word w1 -> 0 <= w2 -> word (Z.land w1 w2).
Proof.
  intros H1 H2. apply word_bits; [|apply Z.land_nonneg; auto].
  intros i Hi. by rewrite Z.land_spec, (word_bit_high w1) by done.
Qed.

Lemma bit_split j i : 0 <= j -> 0 <= i < 64 -> (64 * j + i) / 64 = j /\ (64 * j + i) mod 64 = i.
Proof. intros. split; [symmetry; apply (Z.div_unique _ _ _ i)|symmetry; apply (Z.mod_unique _ _ j)]; lia. Qed.

Lemma get_word_ok a j : Forall word a -> 0 <= j < Z.of_nat (length a) ->
  exists w, get_word a j = Ok w /\ word w /\ forall i, 0 <= i < 64 -> Z.testbit w i = bit a (64 * j + i).
Proof.
  intros Ha Hj. destruct (lookup_lt_is_Some_2 a (Z.to_nat j) ltac:(lia)) as [w Ew].
  exists w. split; [by apply array_get_Some|]. split; [by eapply Forall_lookup_1|].
  intros i Hi. unfold bit. destruct (bit_split j i) as [-> ->]; [lia|done|].
  by rewrite (nth_lookup_Some _ _ _ _ Ew).
Qed.

(** What a search with a second bitmap and an inversion mask looks for. *)
Definition wanted (a1 : list Z) (a2 : option (list Z)) (invert i : Z) : bool :=
  xorb (bit a1 i && from_option (fun a => bit a i) true a2) (negb (invert =? 0)).

Lemma fetch_ok a1 a2 invert j :
  Forall word a1 -> (forall a, a2 = Some a -> Forall word a /\ length a = length a1) ->
  invert = 0 \/ invert = word_max -> 0 <= j < Z.of_nat (length a1) ->
  exists w, fetch a1 a2 invert j = Ok w /\ word w
    /\ forall i, 0 <= i < 64 -> Z.testbit w i = wanted a1 a2 invert (64 * j + i).
Proof.
  intros H1 H2 Hinv Hj. unfold fetch, wanted.
  assert (Hones : forall i, 0 <= i < 64 -> Z.testbit invert i = negb (invert =? 0)).
  { intros i Hi. destruct Hinv as [->| ->]; [apply Z.bits_0|].
    change word_max with (Z.ones 64). rewrite Z.ones_spec_low by lia. done. }
  assert (Hhigh : forall w, word w -> word (Z.lxor w invert)).
  { intros w Hw. apply word_bits; [|apply Z.lxor_nonneg; unfold word in Hw; destruct Hinv as [->| ->]; unfold word_max; lia].
    intros i Hi. rewrite Z.lxor_spec, (word_bit_high w) by done.
    destruct Hinv as [->| ->]; [by rewrite Z.bits_0|]. change word_max with (Z.ones 64). by rewrite Z.ones_spec_high by lia. }
  destruct (get_word_ok a1 j H1 Hj) as (w1&->&W1&B1). cbn [res_bind]. destruct a2 as [a2|].
  - destruct (H2 a2 eq_refl) as [Ha2 Hlen].
    destruct (get_word_ok a2 j Ha2 ltac:(lia)) as (w2&->&W2&B2). cbn [res_bind].
    eexists. split; [done|]. split; [apply Hhigh, word_land; [done|apply W2]|].
    intros i Hi. rewrite Z.lxor_spec, Z.land_spec, B1, B2, Hones by done. done.
  - cbn [res_bind]. eexists. split; [done|]. split; [by apply Hhigh|].
    intros i Hi. rewrite Z.lxor_spec, B1, Hones by done. simpl. by rewrite andb_true_r.
Qed.

Section next_bit.
Context (a1 : list Z) (a2 : option (list Z)) (nbits invert : Z).
Context (H1 : bitmap a1 nbits) (H2 : forall a, a2 = Some a -> Forall word a /\ length a = length a1).
Context (Hinv : invert = 0 \/ invert = word_max).
Let P := wanted a1 a2 invert.

Lemma find_loop_ok fuel lo start tmp :
  0 <= lo < nbits -> start mod 64 = 0 -> 0 <= start < nbits ->
  word tmp -> (forall i, 0 <= i < 64 -> Z.testbit tmp i = (lo <=? start + i) && P (start + i)) ->
  (forall i, lo <= i < start -> P i = false) -> Z.of_nat (length a1) - start / 64 < Z.of_nat fuel ->
  lo <= start + 63 ->
  exists r, find_loop fuel a1 a2 nbits start invert tmp = Ok r /\ first_in P lo nbits r.
Proof.
  destruct H1 as [Ha Hn]. revert start tmp.
  induction fuel as [|fuel IH]; intros start tmp Hlo Hmod Hst Hw Hb Hbefore Hf Hin.
  { exfalso. pose proof (Z.div_mod start 64). lia. }
  pose proof (Z.div_mod start 64 ltac:(lia)) as Ediv. cbn [find_loop]. unfold BITS_PER_LONG.
  destruct (Z.eqb_spec tmp 0) as [->|Hnz].
  - assert (Hz : forall i, lo <= i < start + 64 -> P i = false).
    { intros i Hi. destruct (Z.lt_ge_cases i start); [apply Hbefore; lia|].
      specialize (Hb (i - start) ltac:(lia)). rewrite Z.bits_0 in Hb. replace (start + (i - start)) with i in Hb by lia.
      revert Hb. destruct (Z.leb_spec lo i); [done|lia]. }
    destruct (Z.leb_spec nbits (start + 64)).
    + exists nbits. split; [done|]. split; [lia|]. split; [lia|]. intros i Hi. apply Hz. lia.
    + assert (Eq : (start + 64) / 64 = start / 64 + 1) by (replace (start + 64) with (start + 1 * 64) by lia; apply Z.div_add; lia).
      destruct (fetch_ok a1 a2 invert ((start + 64) / 64) Ha H2 Hinv ltac:(lia)) as (w&->&Ww&Bw).
      cbn [res_bind]. apply IH; auto; try lia.
      * rewrite <- Z.add_mod_idemp_r, Z.mod_same, Z.add_0_r by lia. done.
      * intros i Hi. rewrite Bw by done. unfold P. replace (64 * ((start + 64) / 64) + i) with (start + 64 + i) by lia.
        destruct (Z.leb_spec lo (start + 64 + i)); [done|lia].
  - destruct (ffs_ok tmp Hw Hnz) as ((H0&Hset&Hlow)&H64). eexists. split; [done|].
    assert (Hr : lo <= start + __ffs tmp /\ P (start + __ffs tmp) = true).
    { rewrite Hb in Hset by lia. revert Hset. zcase; done. }
    split; [lia|]. split.
    + intros. replace (Z.min (start + __ffs tmp) nbits) with (start + __ffs tmp) by lia. apply Hr.
    + intros i Hi. destruct (Z.lt_ge_cases i start); [apply Hbefore; lia|].
      specialize (Hlow (i - start) ltac:(lia)). rewrite Hb in Hlow by lia. replace (start + (i - start)) with i in Hlow by lia.
      revert Hlow. destruct (Z.leb_spec lo i); [done|lia].
Qed.

Lemma first_mask_bit start i : 0 <= start -> 0 <= i < 64 ->
  Z.testbit (BITMAP_FIRST_WORD_MASK start) i = (start mod 64 <=? i).
Proof.
  intros Hs Hi. unfold BITMAP_FIRST_WORD_MASK, BITS_PER_LONG. change (64 - 1) with (Z.ones 6).
  rewrite Z.land_ones by lia. change (2 ^ 6) with 64. pose proof (Z.mod_pos_bound start 64 ltac:(lia)).
  unfold u64. change 18446744073709551616 with (2 ^ 64). rewrite Z.mod_pow2_bits_low by lia.
  rewrite Z.shiftl_spec by lia. destruct (Z.leb_spec (start mod 64) i).
  - change word_max with (Z.ones 64). apply Z.ones_spec_low. lia.
  - apply Z.testbit_neg_r. lia.
Qed.

Lemma round_down_64 start : 0 <= start -> Z.land start (Z.lnot (BITS_PER_LONG - 1)) = 64 * (start / 64).
Proof.
  intros. change (BITS_PER_LONG - 1) with (Z.ones 6).
  rewrite <- Z.ldiff_land, Z.ldiff_ones_r, Z.shiftl_mul_pow2, Z.shiftr_div_pow2 by lia. change (2 ^ 6) with 64. lia.
Qed.

Lemma find_next_ok start : 0 <= start < nbits ->
  exists r, _find_next_bit a1 a2 nbits start invert = Ok r /\ first_in P start nbits r.
Proof.
  intros Hst. pose proof H1 as [Ha Hn]. unfold _find_next_bit. destruct (Z.leb_spec nbits start); [lia|].
  pose proof (Z.div_mod start 64 ltac:(lia)) as Ed. pose proof (Z.mod_pos_bound start 64 ltac:(lia)).
  unfold BITS_PER_LONG at 1.
  destruct (fetch_ok a1 a2 invert (start / 64) Ha H2 Hinv ltac:(lia)) as (w&->&Ww&Bw). cbn [res_bind].
  rewrite round_down_64 by lia.
  assert (Ediv : 64 * (start / 64) / 64 = start / 64) by (rewrite Z.mul_comm; apply Z.div_mul; lia).
  apply find_loop_ok; try lia.
  - rewrite Z.mul_comm. apply Z.mod_mul. lia.
  - apply word_land; [done|]. apply u64_range.
  - intros i Hi. rewrite Z.land_spec, Bw, first_mask_bit by lia. rewrite andb_comm. f_equal. zcase; done.
Qed.
End next_bit.

Lemma bitmap_words a nbits :
  forallb (fun w => (0 <=? w) && (w <? 18446744073709551616)) a && (0 <=? nbits)
  && (nbits <=? 64 * Z.of_nat (length a)) = true -> bitmap a nbits.
Proof.
  intros H. zbool. split; [|lia]. apply List.Forall_forall. intros w Hw.
  eapply forallb_forall in H; [|exact Hw]. zbool. done.
Qed.

Lemma first_in_ext P Q lo hi r : (forall i, P i = Q i) -> first_in P lo hi r -> first_in Q lo hi r.
Proof. intros E (?&HP&HN). split; [done|]. split; intros; rewrite <- E; auto. Qed.

Lemma find_next_bit_ok a nbits offset : bitmap a nbits -> 0 <= offset < nbits ->
  exists r, find_next_bit a nbits offset = Ok r /\ first_in (bit a) offset nbits r.
Proof.
  intros Ha Ho. destruct (find_next_ok a None nbits 0) with (start := offset) as (r&E&F); auto; [done|].
  exists r. split; [done|]. eapply first_in_ext; [|exact F].
  intros i. unfold wanted. simpl. by rewrite andb_true_r, xorb_false_r.
Qed.

Lemma find_next_zero_bit_ok a nbits offset : bitmap a nbits -> 0 <= offset < nbits ->
  exists r, find_next_zero_bit a nbits offset = Ok r /\ first_in (fun i => negb (bit a i)) offset nbits r.
Proof.
  intros Ha Ho. destruct (find_next_ok a None nbits word_max) with (start := offset) as (r&E&F); auto; [done|].
  exists r. split; [done|]. eapply first_in_ext; [|exact F].
  intros i. unfold wanted. simpl. by rewrite andb_true_r, xorb_true_r.
Qed.

Lemma find_next_and_bit_ok a b nbits offset :
  bitmap a nbits -> bitmap b nbits -> length a = length b -> 0 <= offset < nbits ->
  exists r, find_next_and_bit a b nbits offset = Ok r /\ first_in (fun i => bit a i && bit b i) offset nbits r.
Proof.
  intros Ha Hb Hlen Ho. destruct (find_next_ok a (Some b) nbits 0) with (start := offset) as (r&E&F); auto.
  { intros c [= <-]. split; [apply Hb|done]. }
  exists r. split; [done|]. eapply first_in_ext; [|exact F].
  intros i. unfold wanted. simpl. by rewrite xorb_false_r.
Qed.

(** [find_next_bit], [find_next_zero_bit] and [find_next_and_bit] return the
    first set bit, clear bit or common bit at or after the offset, and the size
    when there is none; they read no word outside the bitmaps. *)
Theorem find_next_correct a b nbits offset :
  bitmap a nbits -> bitmap b nbits -> length a = length b -> 0 <= offset < nbits ->
  (exists r, find_next_bit a nbits offset = Ok r /\ first_in (bit a) offset nbits r)
  /\ (exists r, find_next_zero_bit a nbits offset = Ok r /\ first_in (fun i => negb (bit a i)) offset nbits r)
  /\ (exists r, find_next_and_bit a b nbits offset = Ok r
        /\ first_in (fun i => bit a i && bit b i) offset nbits r).
Proof.
  auto using find_next_bit_ok, find_next_zero_bit_ok, find_next_and_bit_ok.
Qed.

Lemma find_next_correct_witness :
  (exists r, find_next_bit [0; 5] 100 3 = Ok r /\ first_in (bit [0; 5]) 3 100 r)
  /\ (exists r, find_next_zero_bit [0; 5] 100 3 = Ok r /\ first_in (fun i => negb (bit [0; 5] i)) 3 100 r)
  /\ (exists r, find_next_and_bit [0; 5] [8; 4] 100 3 = Ok r
        /\ first_in (fun i => bit [0; 5] i && bit [8; 4] i) 3 100 r).
Proof.
  apply find_next_correct; [by apply bitmap_words|by apply bitmap_words|done|lia].
Defined.

(** *** First and last bit *)

Lemma first_loop_ok P search a nbits fuel idx :
  bitmap a nbits -> 0 <= idx -> Z.of_nat (length a) - idx < Z.of_nat fuel ->
  (forall j w, get_word a j = Ok w -> 0 <= j ->
     match search w with
     | Some i => 0 <= i < 64 /\ P (64 * j + i) = true /\ forall k, 0 <= k < i -> P (64 * j + k) = false
     | None => forall k, 0 <= k < 64 -> P (64 * j + k) = false
     end) ->
  (forall i, 0 <= i < 64 * idx -> P i = false) -> idx = 0 \/ 64 * (idx - 1) < nbits ->
  exists r, first_loop fuel search a nbits idx = Ok r /\ first_in P 0 nbits r.
Proof.
  intros [Ha Hn]. revert idx. induction fuel as [|fuel IH]; intros idx Hidx Hf Hs Hbefore Hle; cbn [first_loop];
    unfold BITS_PER_LONG in *.
  { exfalso. lia. }
  destruct (Z.ltb_spec (idx * 64) nbits) as [Hlt|Hge].
  - destruct (get_word_ok a idx Ha ltac:(lia)) as (w&Ew&_). rewrite Ew. cbn [res_bind]. specialize (Hs idx w Ew Hidx) as Hw.
    destruct (search w) as [i|].
    + destruct Hw as (Hi&HP&Hlow). eexists. split; [done|]. split; [lia|]. split.
      * intros. by replace (Z.min (idx * 64 + i) nbits) with (64 * idx + i) by lia.
      * intros k Hk. destruct (Z.lt_ge_cases k (64 * idx)); [apply Hbefore; lia|].
        replace k with (64 * idx + (k - 64 * idx)) by lia. apply Hlow. lia.
    + apply IH; auto; try lia. intros i Hi. destruct (Z.lt_ge_cases i (64 * idx)); [apply Hbefore; lia|].
      replace i with (64 * idx + (i - 64 * idx)) by lia. apply Hw. lia.
  - exists nbits. split; [done|]. split; [lia|]. split; [lia|]. intros i Hi. apply Hbefore. lia.
Qed.

Lemma find_first_ok a nbits : bitmap a nbits ->
  exists r, find_first_bit a nbits = Ok r /\ first_in (bit a) 0 nbits r.
Proof.
  intros H. apply first_loop_ok; auto; try lia. intros j w Ew Hj.
  assert (Hlen : j < Z.of_nat (length a)).
  { unfold get_word, array_get in Ew. destruct (a !! Z.to_nat j) eqn:E; [|done]. apply lookup_lt_Some in E. lia. }
  destruct (get_word_ok a j (proj1 H) ltac:(lia)) as (w'&Ew'&Ww&Bw). rewrite Ew in Ew'. injection Ew' as <-.
  destruct (Z.eqb_spec w 0) as [->|Hnz]; cbn [negb].
  - intros k Hk. rewrite <- Bw by lia. apply Z.bits_0.
  - destruct (ffs_ok w Ww Hnz) as ((?&Hset&Hlow)&?). rewrite <- Bw by lia. repeat split; auto.
    intros k Hk. rewrite <- Bw by lia. by apply Hlow.
Qed.

Lemma lnot_word w : word w -> word (u64 (Z.lnot w)) /\ forall i, 0 <= i < 64 -> Z.testbit (u64 (Z.lnot w)) i = negb (Z.testbit w i).
Proof.
  intros Hw. split; [apply u64_range|]. intros i Hi. unfold u64. change 18446744073709551616 with (2 ^ 64).
  rewrite Z.mod_pow2_bits_low by lia. apply Z.lnot_spec. lia.
Qed.

Lemma find_first_zero_ok a nbits : bitmap a nbits ->
  exists r, find_first_zero_bit a nbits = Ok r /\ first_in (fun i => negb (bit a i)) 0 nbits r.
Proof.
  intros H. apply first_loop_ok; auto; try lia. intros j w Ew Hj.
  assert (Hlen : j < Z.of_nat (length a)).
  { unfold get_word, array_get in Ew. destruct (a !! Z.to_nat j) eqn:E; [|done]. apply lookup_lt_Some in E. lia. }
  destruct (get_word_ok a j (proj1 H) ltac:(lia)) as (w'&Ew'&Ww&Bw). rewrite Ew in Ew'. injection Ew' as <-.
  destruct (lnot_word w Ww) as [Wn Bn]. destruct (Z.eqb_spec w word_max) as [->|Hnz]; cbn [negb].
  - intros k Hk. rewrite <- Bw by lia. change word_max with (Z.ones 64). by rewrite Z.ones_spec_low by lia.
  - assert (Hn0 : u64 (Z.lnot w) <> 0).
    { unfold word, word_max, u64, Z.lnot in *. intros E. apply Hnz.
      replace (Z.pred (- w)) with (18446744073709551615 - w + (-1) * 18446744073709551616) in E by lia.
      rewrite Z.mod_add, Z.mod_small in E; lia. }
    unfold ffz. destruct (ffs_ok _ Wn Hn0) as ((?&Hset&Hlow)&?). rewrite <- Bw by lia.
    rewrite Bn in Hset by lia. repeat split; auto.
    intros k Hk. rewrite <- Bw, <- Bn by lia. by apply Hlow.
Qed.

(** [r] is the last position below [hi] that satisfies [P]. *)
Definition last_in (P : Z -> bool) (hi r : Z) : Prop :=
  0 <= r < hi /\ P r = true /\ forall i, r < i < hi -> P i = false.

Lemma last_mask_bits nbits : 0 < nbits -> word (BITMAP_LAST_WORD_MASK nbits)
  /\ forall i, 0 <= i < 64 -> Z.testbit (BITMAP_LAST_WORD_MASK nbits) i = (64 * ((nbits - 1) / 64) + i <? nbits).
Proof.
  intros Hn. unfold BITMAP_LAST_WORD_MASK, BITS_PER_LONG. pose proof (Z.mod_pos_bound nbits 64 ltac:(lia)).
  pose proof (Z.div_mod nbits 64 ltac:(lia)). pose proof (Z.div_mod (nbits - 1) 64 ltac:(lia)).
  pose proof (Z.mod_pos_bound (nbits - 1) 64 ltac:(lia)).
  destruct (Z.eqb_spec (nbits mod 64) 0) as [E|E]; cbn [negb].
  - split; [done|]. intros i Hi. change word_max with (Z.ones 64). rewrite Z.ones_spec_low by lia.
    symmetry. apply Z.ltb_lt. lia.
  - assert (2 ^ (nbits mod 64) <= 2 ^ 63) by (apply Z.pow_le_mono_r; lia).
    assert (0 < 2 ^ (nbits mod 64)) by (apply Z.pow_pos_nonneg; lia).
    rewrite Z.shiftl_1_l, u64_small by (change (2 ^ 63) with 9223372036854775808 in *; lia).
    rewrite Z.sub_1_r, <- Z.ones_equiv. split.
    { unfold word. rewrite Z.ones_equiv. change (2 ^ 63) with 9223372036854775808 in *. lia. }
    intros i Hi. destruct (Z.ltb_spec (64 * ((nbits - 1) / 64) + i) nbits).
    + apply Z.ones_spec_low. lia.
    + apply Z.ones_spec_high. lia.
Qed.

Lemma last_loop_ok a nbits n val :
  bitmap a nbits -> word val -> Z.of_nat n <= Z.of_nat (length a) -> 64 * (Z.of_nat n - 1) < nbits ->
  (forall i, 0 <= i < 64 -> 64 * (Z.of_nat n - 1) + i < nbits -> Z.testbit val i = true) ->
  (forall i, 0 <= i < 64 -> nbits <= 64 * (Z.of_nat n - 1) + i -> Z.testbit val i = false) ->
  (forall i, 64 * Z.of_nat n <= i < nbits -> bit a i = false) ->
  exists r, last_loop n a nbits val = Ok r
    /\ (last_in (bit a) nbits r \/ (r = nbits /\ forall i, 0 <= i < nbits -> bit a i = false)).
Proof.
  intros [Ha Hn]. revert val. induction n as [|n IH]; intros val Wv Hlen Htop Hin Hout Habove; cbn [last_loop].
  { exists nbits. split; [done|]. right. split; [done|]. intros i Hi. apply Habove. lia. }
  destruct (get_word_ok a (Z.of_nat n) Ha ltac:(lia)) as (w&Ew&Ww&Bw). unfold get_word in Ew. rewrite Nat2Z.id in Ew.
  rewrite Ew. cbn [res_bind]. replace (Z.of_nat (S n) - 1) with (Z.of_nat n) in * by lia. unfold BITS_PER_LONG.
  destruct (Z.eqb_spec (Z.land val w) 0) as [Ez|Hnz]; cbn [negb].
  - assert (Hz : forall i, 64 * Z.of_nat n <= i < nbits -> bit a i = false).
    { intros i Hi. destruct (Z.lt_ge_cases i (64 * Z.of_nat (S n))); [|apply Habove; lia].
      replace i with (64 * Z.of_nat n + (i - 64 * Z.of_nat n)) by lia. rewrite <- Bw by lia.
      pose proof (Z.land_spec val w (i - 64 * Z.of_nat n)) as E. rewrite Ez, Z.bits_0, Hin in E by lia. done. }
    apply IH; [done|lia|lia| |intros; lia|exact Hz].
    intros i Hi _. change word_max with (Z.ones 64). apply Z.ones_spec_low. lia.
  - assert (Wl : word (Z.land val w)) by (apply word_land; [done|apply Ww]).
    rewrite (fls_ok _ Wl Hnz). assert (Hpos : 0 < Z.land val w) by (unfold word in Wl; lia).
    pose proof (Z.log2_nonneg (Z.land val w)). set (l := Z.log2 (Z.land val w)) in *.
    assert (Hbit : Z.testbit (Z.land val w) l = true) by (apply Z.bit_log2; lia).
    assert (Hl : l < 64).
    { destruct (Z.lt_ge_cases l 64); [done|]. by rewrite word_bit_high in Hbit. }
    rewrite Z.land_spec in Hbit. apply andb_true_iff in Hbit as [Bv Bw'].
    eexists. split; [done|]. left. rewrite (Z.mul_comm (Z.of_nat n)). split; [|split].
    + split; [lia|]. destruct (Z.lt_ge_cases (64 * Z.of_nat n + l) nbits); [done|].
      by rewrite Hout in Bv by lia.
    + rewrite <- Bw by lia. done.
    + intros i Hi. destruct (Z.lt_ge_cases i (64 * Z.of_nat (S n))); [|apply Habove; lia].
      replace i with (64 * Z.of_nat n + (i - 64 * Z.of_nat n)) by lia. rewrite <- Bw by lia.
      assert (E : Z.testbit (Z.land val w) (i - 64 * Z.of_nat n) = false) by (apply Z.bits_above_log2; fold l; lia).
      rewrite Z.land_spec, Hin in E by lia. done.
Qed.

Lemma find_last_ok a nbits : bitmap a nbits ->
  exists r, find_last_bit a nbits = Ok r
    /\ (last_in (bit a) nbits r \/ (r = nbits /\ forall i, 0 <= i < nbits -> bit a i = false)).
Proof.
  intros H. pose proof H as [Ha Hn]. unfold find_last_bit. destruct (Z.eqb_spec nbits 0) as [->|Hnz]; cbn [negb].
  { exists 0. split; [done|]. right. split; [done|]. intros; lia. }
  destruct (last_mask_bits nbits ltac:(lia)) as [Wm Bm]. unfold BITS_PER_LONG.
  pose proof (Z.div_mod (nbits - 1) 64 ltac:(lia)). pose proof (Z.mod_pos_bound (nbits - 1) 64 ltac:(lia)).
  set (q := (nbits - 1) / 64) in *. assert (Eq : Z.of_nat (S (Z.to_nat q)) = q + 1) by lia.
  apply last_loop_ok; rewrite ?Eq; auto; try lia; intros i Hi ?;
    rewrite Bm by done; replace (q + 1 - 1) with q in * by lia.
  - by apply Z.ltb_lt.
  - by apply Z.ltb_ge.
Qed.

(** [find_first_bit] and [find_first_zero_bit] return the first set (clear)
    bit below the size or the size, and [find_last_bit] the last set bit or the
    size when no bit is set. *)
Theorem find_first_last_correct a nbits :
  bitmap a nbits ->
  (exists r, find_first_bit a nbits = Ok r /\ first_in (bit a) 0 nbits r)
  /\ (exists r, find_first_zero_bit a nbits = Ok r /\ first_in (fun i => negb (bit a i)) 0 nbits r)
  /\ (exists r, find_last_bit a nbits = Ok r
        /\ (last_in (bit a) nbits r \/ (r = nbits /\ forall i, 0 <= i < nbits -> bit a i = false))).
Proof. intros H. auto using find_first_ok, find_first_zero_ok, find_last_ok. Qed.

Lemma find_first_last_correct_witness :
  (exists r, find_first_bit [0; 5] 100 = Ok r /\ first_in (bit [0; 5]) 0 100 r)
  /\ (exists r, find_first_zero_bit [0; 5] 100 = Ok r /\ first_in (fun i => negb (bit [0; 5] i)) 0 100 r)
  /\ (exists r, find_last_bit [0; 5] 100 = Ok r
        /\ (last_in (bit [0; 5]) 100 r \/ (r = 100 /\ forall i, 0 <= i < 100 -> bit [0; 5] i = false))).
Proof. apply find_first_last_correct. by apply bitmap_words. Defined.
