(* ===== verification/Bitmap.v ===== *)
(** * Bitmap operations (lib/bitmap.c, include/linux/bitmap.h, include/asm-generic/bitops)

    Single-bit updates and the set operations on bitmaps, word by word with the
    last word masked.  Each is shown to act on the bits as its set operation. *)

From S2P Require Import Prelude Bitops.
Local Open Scope res_scope.

(** ** Single bits *)

Definition BIT_MASK (nr : Z) : Z := u64 (Z.shiftl 1 (nr mod BITS_PER_LONG)).
Definition BIT_WORD (nr : Z) : Z := nr / BITS_PER_LONG.

(** Update the word that holds bit [nr] and return its old value of the bit. *)
Definition update_bit (f : Z -> Z -> Z) (nr : Z) (a : list Z) : res (bool * list Z) :=
  old <-- get_word a (BIT_WORD nr);
  a' <-- array_set a (Z.to_nat (BIT_WORD nr)) (f old (BIT_MASK nr));
  Ok (negb (Z.land old (BIT_MASK nr) =? 0), a').

Definition clear_mask (old mask : Z) : Z := Z.land old (u64 (Z.lnot mask)).

Definition test_and_set_bit (nr : Z) (a : list Z) : res (bool * list Z) := update_bit Z.lor nr a.
Definition test_and_clear_bit (nr : Z) (a : list Z) : res (bool * list Z) := update_bit clear_mask nr a.
Definition test_and_change_bit (nr : Z) (a : list Z) : res (bool * list Z) := update_bit Z.lxor nr a.
Definition set_bit (nr : Z) (a : list Z) : res (list Z) := '(_, a) <-- update_bit Z.lor nr a; Ok a.
Definition clear_bit (nr : Z) (a : list Z) : res (list Z) := '(_, a) <-- update_bit clear_mask nr a; Ok a.
Definition change_bit (nr : Z) (a : list Z) : res (list Z) := '(_, a) <-- update_bit Z.lxor nr a; Ok a.

(** [1UL & (addr[BIT_WORD(nr)] >> (nr & (BITS_PER_LONG - 1)))] *)
Definition test_bit (nr : Z) (a : list Z) : res bool :=
  w <-- get_word a (BIT_WORD nr);
  Ok (negb (Z.land 1 (Z.shiftr w (Z.land nr (BITS_PER_LONG - 1))) =? 0)).

(** ** Set operations *)

(** [for (k = 0; k < lim; k++) result |= (dst[k] = f(bitmap1[k], bitmap2[k]));]
    The loop reads and writes word [k] only, so [dst] may be one of the sources. *)
Fixpoint op_loop (f : Z -> Z -> Z) (n k : nat) (dst a b : list Z) (result : Z) : res (list Z * Z) :=
  match n with
  | O => Ok (dst, result)
  | S n =>
    w1 <-- array_get a k;
    w2 <-- array_get b k;
    dst <-- array_set dst k (f w1 w2);
    op_loop f n (S k) dst a b (Z.lor result (f w1 w2))
  end.

Definition bitmap_op (f : Z -> Z -> Z) (dst a b : list Z) (bits : Z) : res (bool * list Z) :=
  let lim := Z.to_nat (bits / BITS_PER_LONG) in
  '(dst, result) <-- op_loop f lim 0 dst a b 0;
  if negb (bits mod BITS_PER_LONG =? 0) then
    w1 <-- array_get a lim;
    w2 <-- array_get b lim;
    let w := Z.land (f w1 w2) (BITMAP_LAST_WORD_MASK bits) in
    dst <-- array_set dst lim w;
    Ok (negb (Z.lor result w =? 0), dst)
  else Ok (negb (result =? 0), dst).

Definition andnot (w1 w2 : Z) : Z := Z.land w1 (u64 (Z.lnot w2)).

Definition __bitmap_and : list Z -> list Z -> list Z -> Z -> res (bool * list Z) := bitmap_op Z.land.
Definition __bitmap_andnot : list Z -> list Z -> list Z -> Z -> res (bool * list Z) := bitmap_op andnot.

Definition __bitmap_or (dst a b : list Z) (bits : Z) : res (list Z) :=
  '(dst, _) <-- op_loop Z.lor (Z.to_nat (BITS_TO_LONGS bits)) 0 dst a b 0;
  Ok dst.

(** The scanning loops: [bad] stops at a full word, [diff] gives the bits to
    look at in the masked last word. *)
Fixpoint scan_loop (bad : Z -> Z -> bool) (n k : nat) (a b : list Z) : res bool :=
  match n with
  | O => Ok false
  | S n =>
    w1 <-- array_get a k;
    w2 <-- array_get b k;
    if bad w1 w2 then Ok true else scan_loop bad n (S k) a b
  end.

Definition bitmap_scan (bad : Z -> Z -> bool) (diff : Z -> Z -> Z) (a b : list Z) (bits : Z) : res bool :=
  let lim := Z.to_nat (bits / BITS_PER_LONG) in
  found <-- scan_loop bad lim 0 a b;
  if (found : bool) then Ok true
  else if negb (bits mod BITS_PER_LONG =? 0) then
    w1 <-- array_get a lim;
    w2 <-- array_get b lim;
    Ok (negb (Z.land (diff w1 w2) (BITMAP_LAST_WORD_MASK bits) =? 0))
  else Ok false.

Definition __bitmap_equal (a b : list Z) (bits : Z) : res bool :=
  d <-- bitmap_scan (fun w1 w2 => negb (w1 =? w2)) Z.lxor a b bits; Ok (negb d).
Definition __bitmap_intersects (a b : list Z) (bits : Z) : res bool :=
  bitmap_scan (fun w1 w2 => negb (Z.land w1 w2 =? 0)) Z.land a b bits.
Definition __bitmap_subset (a b : list Z) (bits : Z) : res bool :=
  d <-- bitmap_scan (fun w1 w2 => negb (andnot w1 w2 =? 0)) andnot a b bits; Ok (negb d).

(** [bitmap_zero] and [bitmap_fill] with a size that is not a constant. *)
Fixpoint memset_words (n k : nat) (w : Z) (dst : list Z) : res (list Z) :=
  match n with
  | O => Ok dst
  | S n => dst <-- array_set dst k w; memset_words n (S k) w dst
  end.

Definition bitmap_zero (dst : list Z) (nbits : Z) : res (list Z) :=
  memset_words (Z.to_nat (BITS_TO_LONGS nbits)) 0 0 dst.

Definition bitmap_fill (dst : list Z) (nbits : Z) : res (list Z) :=
  let nlongs := Z.to_nat (BITS_TO_LONGS nbits) in
  dst <-- memset_words (nlongs - 1) 0 word_max dst;
  array_set dst (nlongs - 1) (BITMAP_LAST_WORD_MASK nbits).

Definition bitmap_empty (src : list Z) (nbits : Z) : res bool :=
  r <-- find_first_bit src nbits; Ok (r =? nbits).
Definition bitmap_full (src : list Z) (nbits : Z) : res bool :=
  r <-- find_first_zero_bit src nbits; Ok (r =? nbits).

(** [bitmap_clear]: whole words, the first one from [start] on, then the rest. *)
Fixpoint clear_loop (fuel : nat) (map : list Z) (p : nat) (size len bits_to_clear mask : Z) : res (list Z) :=
  match fuel with
  | O => Fault NoFuel
  | S fuel =>
    if 0 <=? len - bits_to_clear then
      w <-- array_get map p;
      map <-- array_set map p (andnot w mask);
      clear_loop fuel map (S p) size (len - bits_to_clear) BITS_PER_LONG word_max
    else if negb (len =? 0) then
      let mask := Z.land mask (BITMAP_LAST_WORD_MASK size) in
      w <-- array_get map p;
      array_set map p (andnot w mask)
    else Ok map
  end.

Definition bitmap_clear (map : list Z) (start len : Z) : res (list Z) :=
  clear_loop (S (S (length map))) map (Z.to_nat (BIT_WORD start)) (start + len) len
    (BITS_PER_LONG - start mod BITS_PER_LONG) (BITMAP_FIRST_WORD_MASK start).

(** ** Iteration: [for_each_set_bit] *)

Fixpoint set_bits_loop (fuel : nat) (addr : list Z) (size b : Z) : res (list Z) :=
  match fuel with
  | O => Fault NoFuel
  | S fuel =>
    if b <? size then
      next <-- find_next_bit addr size (b + 1);
      rest <-- set_bits_loop fuel addr size next;
      Ok (b :: rest)
    else Ok []
  end.

Definition for_each_set_bit (addr : list Z) (size : Z) : res (list Z) :=
  b <-- find_first_bit addr size;
  set_bits_loop (S (Z.to_nat size)) addr size b.

(** ** Bits after a word update *)

Lemma bit_insert a k w i : (k < length a)%nat -> 0 <= i ->
  bit (<[k := w]> a) i = if i / 64 =? Z.of_nat k then Z.testbit w (i mod 64) else bit a i.
Proof.
  intros Hk Hi. unfold bit. rewrite <- !nth_default_eq. unfold nth_default.
  assert (E : forall (l : list Z) n, nth_error l n = l !! n) by (intros l; induction l; intros []; simpl; auto).
  rewrite !E. destruct (Z.eqb_spec (i / 64) (Z.of_nat k)) as [Ek|Ek].
  - rewrite Ek, Nat2Z.id, list_lookup_insert_eq by done. done.
  - rewrite list_lookup_insert_ne; [done|]. assert (0 <= i / 64) by (apply Z.div_pos; lia). lia.
Qed.

Lemma word_at a k : Forall word a -> (k < length a)%nat ->
  exists w, array_get a k = Ok w /\ word w /\ forall i, 0 <= i < 64 -> Z.testbit w i = bit a (64 * Z.of_nat k + i).
Proof.
  intros Ha Hk. destruct (get_word_ok a (Z.of_nat k) Ha ltac:(lia)) as (w&E&W&B).
  unfold get_word in E. rewrite Nat2Z.id in E. eauto.
Qed.

Lemma bit_of_word k i : i / 64 = Z.of_nat k -> 64 * Z.of_nat k + i mod 64 = i.
Proof. intros E. pose proof (Z.div_mod i 64). lia. Qed.

Lemma array_set_words a k w : Forall word a -> word w -> (k < length a)%nat ->
  array_set a k w = Ok (<[k := w]> a) /\ Forall word (<[k := w]> a) /\ length (<[k := w]> a) = length a.
Proof.
  intros Ha Hw Hk. split; [by apply array_set_ok|]. split; [by apply Forall_insert|]. apply length_insert.
Qed.

Lemma div64_between i k : 0 <= i -> i / 64 = Z.of_nat k <-> 64 * Z.of_nat k <= i < 64 * Z.of_nat k + 64.
Proof. intros Hi. pose proof (Z.div_mod i 64). pose proof (Z.mod_pos_bound i 64). split; intros; lia. Qed.

(** A word that is zero has no bit set, and conversely. *)
Lemma word_zero w : word w -> w = 0 <-> forall i, 0 <= i < 64 -> Z.testbit w i = false.
Proof.
  intros Hw. split; [intros -> i _; apply Z.bits_0|]. intros H. apply Z.bits_inj'. intros i Hi. rewrite Z.bits_0.
  destruct (Z.lt_ge_cases i 64); [apply H; lia|by apply word_bit_high].
Qed.

(** ** Pointwise operations *)

(** [f] computes [fb] on the 64 bits of its operands. *)
Definition bitwise (f : Z -> Z -> Z) (fb : bool -> bool -> bool) : Prop :=
  forall w1 w2, word w1 -> word w2 ->
    word (f w1 w2) /\ forall i, 0 <= i < 64 -> Z.testbit (f w1 w2) i = fb (Z.testbit w1 i) (Z.testbit w2 i).

Lemma bitwise_and : bitwise Z.land andb.
Proof. intros w1 w2 H1 H2. split; [apply word_land; [done|apply H2]|]. intros. apply Z.land_spec. Qed.

Lemma bitwise_or : bitwise Z.lor orb.
Proof.
  intros w1 w2 H1 H2. split; [|intros; apply Z.lor_spec]. apply word_bits; [|apply Z.lor_nonneg; split; [apply H1|apply H2]].
  intros i Hi. by rewrite Z.lor_spec, !word_bit_high.
Qed.

Lemma bitwise_xor : bitwise Z.lxor xorb.
Proof.
  intros w1 w2 H1 H2. split; [|intros; apply Z.lxor_spec].
  apply word_bits; [|apply Z.lxor_nonneg; split; intros; [apply H2|apply H1]].
  intros i Hi. by rewrite Z.lxor_spec, !word_bit_high.
Qed.

Lemma bitwise_andnot : bitwise andnot (fun x y => x && negb y).
Proof.
  intros w1 w2 H1 H2. destruct (lnot_word w2 H2) as [Hn Bn]. split; [apply word_land; [done|apply Hn]|].
  intros i Hi. unfold andnot. by rewrite Z.land_spec, Bn.
Qed.

(** A value that is 0 exactly when no bit of the range is set. *)
Lemma nonzero_exists (F : Z -> bool) bits v :
  (v = 0 <-> forall i, 0 <= i < bits -> F i = false) ->
  (negb (v =? 0) = true <-> exists i, 0 <= i < bits /\ F i = true).
Proof.
  intros Hv. destruct (Z.eqb_spec v 0) as [->|Hnz]; cbn [negb].
  - split; [done|]. intros (i&Hi&E). by rewrite (proj1 Hv eq_refl i Hi) in E.
  - split; [|done]. intros _.
    destruct (decide (Exists (fun i => F (Z.of_nat i) = true) (seq 0 (Z.to_nat bits)))) as [Hex|Hno].
    + apply Exists_exists in Hex as (i&Hin&E). apply elem_of_seq in Hin. exists (Z.of_nat i). split; [lia|done].
    + exfalso. apply Hnz, Hv. intros i Hi. destruct (F i) eqn:E; [|done]. exfalso. apply Hno. apply Exists_exists.
      exists (Z.to_nat i). split; [apply elem_of_seq; lia|]. by rewrite Z2Nat.id by lia.
Qed.

Section pointwise.
Context (f : Z -> Z -> Z) (fb : bool -> bool -> bool) (Hf : bitwise f fb).
Context (a b : list Z) (Wa : Forall word a) (Wb : Forall word b).
Let F i := fb (bit a i) (bit b i).

Lemma op_word k w1 w2 : array_get a k = Ok w1 -> array_get b k = Ok w2 ->
  (k < length a)%nat -> (k < length b)%nat ->
  word (f w1 w2) /\ forall i, 0 <= i -> i / 64 = Z.of_nat k -> Z.testbit (f w1 w2) (i mod 64) = F i.
Proof.
  intros E1 E2 L1 L2. destruct (word_at a k Wa L1) as (v1&E1'&W1&B1). rewrite E1 in E1'. injection E1' as <-.
  destruct (word_at b k Wb L2) as (v2&E2'&W2&B2). rewrite E2 in E2'. injection E2' as <-.
  destruct (Hf w1 w2 W1 W2) as [Ww Bw]. split; [done|]. intros i Hi Ek.
  pose proof (Z.mod_pos_bound i 64 ltac:(lia)). rewrite Bw, B1, B2 by lia. by rewrite bit_of_word.
Qed.

Lemma op_loop_ok n k dst result :
  Forall word dst -> 0 <= result -> (k + n <= length dst)%nat -> (k + n <= length a)%nat -> (k + n <= length b)%nat ->
  exists dst' r, op_loop f n k dst a b result = Ok (dst', r)
    /\ Forall word dst' /\ length dst' = length dst /\ 0 <= r
    /\ (forall i, 0 <= i -> bit dst' i = if (64 * Z.of_nat k <=? i) && (i <? 64 * Z.of_nat (k + n)) then F i else bit dst i)
    /\ (r = 0 <-> result = 0 /\ forall i, 64 * Z.of_nat k <= i < 64 * Z.of_nat (k + n) -> F i = false).
Proof.
  revert k dst result. induction n as [|n IH]; intros k dst result Hd Hr L1 L2 L3; cbn [op_loop].
  { exists dst, result. repeat split; auto; try tauto; [|intros; lia]. intros i Hi. zcase; done. }
  destruct (word_at a k Wa ltac:(lia)) as (w1&E1&W1&_). destruct (word_at b k Wb ltac:(lia)) as (w2&E2&W2&_).
  destruct (op_word k w1 w2 E1 E2 ltac:(lia) ltac:(lia)) as [Ww Bw]. rewrite E1, E2. cbn [res_bind].
  destruct (array_set_words dst k (f w1 w2) Hd Ww ltac:(lia)) as (->&Hd'&Ld). cbn [res_bind].
  destruct (IH (S k) (<[k := f w1 w2]> dst) (Z.lor result (f w1 w2))) as (dst'&r&->&W'&L'&R'&B'&Z'); auto; try lia.
  { apply Z.lor_nonneg. split; [done|apply Ww]. }
  exists dst', r. split; [done|]. split; [done|]. split; [congruence|]. split; [done|]. split.
  - intros i Hi. rewrite B', bit_insert by (done || lia). pose proof (div64_between i k Hi).
    specialize (Bw i Hi). destruct (Z.eqb_spec (i / 64) (Z.of_nat k)); [rewrite Bw by done|]; zcase; done.
  - rewrite Z'. rewrite Z.lor_eq_0_iff. split.
    + intros [[-> Hz] H]. split; [done|]. intros i Hi. destruct (Z.lt_ge_cases i (64 * Z.of_nat (S k))); [|apply H; lia].
      rewrite <- Bw; [|lia|apply div64_between; lia]. rewrite Hz. apply Z.bits_0.
    + intros [-> H]. split; [|intros i Hi; apply H; lia]. split; [done|]. apply word_zero; [done|]. intros i Hi.
      specialize (H (64 * Z.of_nat k + i) ltac:(lia)). rewrite <- Bw in H; [|lia|apply div64_between; lia].
      by destruct (bit_split (Z.of_nat k) i) as [_ <-]; [lia|lia|].
Qed.

(** The last, partial word: masked to the bits below [bits]. *)
Lemma last_word bits :
  0 < bits mod 64 -> 0 <= bits <= 64 * Z.of_nat (length a) -> bits <= 64 * Z.of_nat (length b) ->
  let q := Z.to_nat (bits / 64) in
  exists w1 w2, array_get a q = Ok w1 /\ array_get b q = Ok w2
    /\ let w := Z.land (f w1 w2) (BITMAP_LAST_WORD_MASK bits) in
       word w /\ (forall i, 0 <= i -> i / 64 = Z.of_nat q -> Z.testbit w (i mod 64) = F i && (i <? bits))
       /\ (w = 0 <-> forall i, 64 * Z.of_nat q <= i < bits -> F i = false).
Proof.
  intros E0 La Lb q. pose proof (Z.div_mod bits 64 ltac:(lia)) as Ediv. pose proof (Z.mod_pos_bound bits 64 ltac:(lia)).
  assert (Eq : Z.of_nat q = bits / 64) by (unfold q; apply Z2Nat.id; apply Z.div_pos; lia). rewrite Eq.
  destruct (word_at a q Wa ltac:(lia)) as (w1&E1&_). destruct (word_at b q Wb ltac:(lia)) as (w2&E2&_).
  destruct (op_word q w1 w2 E1 E2 ltac:(lia) ltac:(lia)) as [Ww Bw]. rewrite Eq in Bw.
  exists w1, w2. split; [done|]. split; [done|]. destruct (last_mask_bits bits ltac:(lia)) as [Wm Bm].
  assert (Eq1 : (bits - 1) / 64 = bits / 64) by (symmetry; apply (Z.div_unique _ _ _ (bits mod 64 - 1)); lia).
  rewrite Eq1 in Bm. set (w := Z.land (f w1 w2) (BITMAP_LAST_WORD_MASK bits)).
  assert (Wl : word w) by (apply word_land; [done|apply Wm]).
  assert (Bl : forall i, 0 <= i -> i / 64 = bits / 64 -> Z.testbit w (i mod 64) = F i && (i <? bits)).
  { intros i Hi Ei. unfold w. pose proof (Z.mod_pos_bound i 64 ltac:(lia)). pose proof (Z.div_mod i 64 ltac:(lia)).
    rewrite Z.land_spec, Bw, Bm by lia. f_equal. f_equal. lia. }
  split; [done|]. split; [done|]. split.
  - intros Hw i Hi. specialize (Bl i ltac:(lia)). rewrite Hw, Z.bits_0 in Bl.
    destruct (Z.ltb_spec i bits); [|lia]. rewrite andb_true_r in Bl. symmetry. apply Bl.
    rewrite <- Eq. apply div64_between; lia.
  - intros Hz. apply word_zero; [done|]. intros j Hj. destruct (bit_split (bits / 64) j ltac:(lia) Hj) as [Eq' Em].
    specialize (Bl (64 * (bits / 64) + j) ltac:(lia) Eq'). rewrite Em in Bl. rewrite Bl.
    destruct (Z.ltb_spec (64 * (bits / 64) + j) bits); [|apply andb_false_r]. by rewrite Hz by lia.
Qed.

Lemma bitmap_op_ok dst bits :
  bitmap dst bits -> bitmap a bits -> bitmap b bits ->
  exists ret dst', bitmap_op f dst a b bits = Ok (ret, dst') /\ Forall word dst' /\ length dst' = length dst
    /\ (forall i, 0 <= i < bits -> bit dst' i = F i)
    /\ (ret = true <-> exists i, 0 <= i < bits /\ F i = true).
Proof.
  intros [Hd Ld] [_ La] [_ Lb]. unfold bitmap_op, BITS_PER_LONG.
  pose proof (Z.div_mod bits 64 ltac:(lia)) as Ediv. pose proof (Z.mod_pos_bound bits 64 ltac:(lia)).
  assert (Eq : Z.of_nat (0 + Z.to_nat (bits / 64)) = bits / 64) by (simpl; apply Z2Nat.id; apply Z.div_pos; lia).
  destruct (op_loop_ok (Z.to_nat (bits / 64)) 0 dst 0) as (dst1&r&->&W1&L1&R1&B1&Z1); auto; [lia..|].
  cbn [res_bind]. rewrite Eq in *. simpl in Eq.
  destruct (Z.eqb_spec (bits mod 64) 0) as [E0|E0]; cbn [negb].
  - exists (negb (r =? 0)), dst1. split; [done|]. split; [done|]. split; [done|]. split.
    + intros i Hi. rewrite B1 by lia. zcase; done.
    + apply nonzero_exists. rewrite Z1. split; [intros [_ Hz] i Hi; apply Hz; lia|].
      intros Hz. split; [done|]. intros i Hi. apply Hz. lia.
  - destruct (last_word bits) as (w1&w2&->&->&Wl&Bl&Zl); [lia..|]. rewrite Eq in Bl, Zl. cbn [res_bind].
    set (w := Z.land (f w1 w2) (BITMAP_LAST_WORD_MASK bits)) in *.
    destruct (array_set_words dst1 (Z.to_nat (bits / 64)) w W1 Wl ltac:(lia)) as (->&W2&L2). cbn [res_bind].
    eexists _, _. split; [done|]. split; [done|]. split; [congruence|]. split.
    + intros i Hi. rewrite bit_insert by lia. rewrite Eq. destruct (Z.eqb_spec (i / 64) (bits / 64)) as [Ei|Ei].
      * rewrite Bl by lia. destruct (Z.ltb_spec i bits); [apply andb_true_r|lia].
      * rewrite B1 by lia. pose proof (div64_between i (Z.to_nat (bits / 64)) ltac:(lia)). rewrite Eq in *. zcase; done.
    + apply nonzero_exists. rewrite Z.lor_eq_0_iff, Z1, Zl. split.
      * intros [[_ Hz] Hw] i Hi. destruct (Z.lt_ge_cases i (64 * (bits / 64))); [apply Hz|apply Hw]; lia.
      * intros Hz. repeat split; auto; intros i Hi; apply Hz; lia.
Qed.

Lemma scan_loop_ok bad n k :
  (forall w1 w2, word w1 -> word w2 -> bad w1 w2 = negb (f w1 w2 =? 0)) ->
  (k + n <= length a)%nat -> (k + n <= length b)%nat ->
  exists r, scan_loop bad n k a b = Ok r
    /\ (r = false <-> forall i, 64 * Z.of_nat k <= i < 64 * Z.of_nat (k + n) -> F i = false).
Proof.
  intros Hbad. revert k. induction n as [|n IH]; intros k L1 L2; cbn [scan_loop].
  { exists false. split; [done|]. split; [intros; lia|done]. }
  destruct (word_at a k Wa ltac:(lia)) as (w1&E1&W1&_). destruct (word_at b k Wb ltac:(lia)) as (w2&E2&W2&_).
  destruct (op_word k w1 w2 E1 E2 ltac:(lia) ltac:(lia)) as [Ww Bw]. rewrite E1, E2. cbn [res_bind].
  rewrite Hbad by done.
  assert (Hz : f w1 w2 = 0 <-> forall i, 64 * Z.of_nat k <= i < 64 * Z.of_nat (S k) -> F i = false).
  { split.
    - intros Ez i Hi. rewrite <- Bw; [|lia|apply div64_between; lia]. rewrite Ez. apply Z.bits_0.
    - intros Hall. apply word_zero; [done|]. intros j Hj. destruct (bit_split (Z.of_nat k) j ltac:(lia) Hj) as [Eq Em].
      rewrite <- Em, Bw by (done || lia). apply Hall. lia. }
  destruct (Z.eqb_spec (f w1 w2) 0) as [Ez|Ez]; cbn [negb].
  - destruct (IH (S k)) as (r&->&Hr); [lia|lia|]. exists r. split; [done|]. rewrite Hr. split; intros Hall i Hi.
    + destruct (Z.lt_ge_cases i (64 * Z.of_nat (S k))); [apply Hz; [done|lia]|apply Hall; lia].
    + apply Hall. lia.
  - exists true. split; [done|]. split; [done|]. intros Hall. exfalso. apply Ez, Hz. intros i Hi. apply Hall. lia.
Qed.

Lemma bitmap_scan_ok bad bits :
  (forall w1 w2, word w1 -> word w2 -> bad w1 w2 = negb (f w1 w2 =? 0)) ->
  bitmap a bits -> bitmap b bits ->
  exists r, bitmap_scan bad f a b bits = Ok r
    /\ (r = true <-> exists i, 0 <= i < bits /\ F i = true).
Proof.
  intros Hbad [_ La] [_ Lb]. unfold bitmap_scan, BITS_PER_LONG.
  pose proof (Z.div_mod bits 64 ltac:(lia)) as Ediv. pose proof (Z.mod_pos_bound bits 64 ltac:(lia)).
  assert (Eq : Z.of_nat (Z.to_nat (bits / 64)) = bits / 64) by (apply Z2Nat.id; apply Z.div_pos; lia).
  destruct (scan_loop_ok bad (Z.to_nat (bits / 64)) 0 Hbad) as (r&->&Hr); [lia|lia|]. cbn [res_bind].
  simpl Nat.add in Hr. rewrite Eq in Hr. assert (Hall : forall r', (r' = false <-> forall i, 0 <= i < bits -> F i = false) ->
    (r' = true <-> exists i, 0 <= i < bits /\ F i = true)).
  { intros r' Hr'. rewrite <- (nonzero_exists F bits (Z.b2z r')); [by destruct r'|]. rewrite <- Hr'. by destruct r'. }
  destruct r.
  - exists true. split; [done|]. apply Hall. split; [done|]. intros Hz. apply Hr. intros i Hi. apply Hz. lia.
  - destruct (Z.eqb_spec (bits mod 64) 0) as [E0|E0]; cbn [negb].
    + exists false. split; [done|]. apply Hall. split; [|done]. intros _ i Hi. apply Hr; [done|lia].
    + destruct (last_word bits) as (w1&w2&->&->&Wl&Bl&Zl); [lia..|]. rewrite Eq in Zl. cbn [res_bind].
      eexists. split; [done|]. apply nonzero_exists. rewrite Zl. split; intros Hz i Hi.
      * destruct (Z.lt_ge_cases i (64 * (bits / 64))); [apply Hr; [done|lia]|apply Hz; lia].
      * apply Hz. lia.
Qed.
End pointwise.

(** ** What the operations do to the bits *)

Lemma bit_mask_spec nr : 0 <= nr ->
  word (BIT_MASK nr) /\ forall j, 0 <= j < 64 -> Z.testbit (BIT_MASK nr) j = (j =? nr mod 64).
Proof.
  intros Hn. unfold BIT_MASK, BITS_PER_LONG. pose proof (Z.mod_pos_bound nr 64 ltac:(lia)).
  assert (2 ^ (nr mod 64) <= 2 ^ 63) by (apply Z.pow_le_mono_r; lia).
  assert (0 < 2 ^ (nr mod 64)) by (apply Z.pow_pos_nonneg; lia). change (2 ^ 63) with 9223372036854775808 in *.
  rewrite Z.shiftl_1_l, u64_small by lia. split; [unfold word; lia|]. intros j Hj.
  rewrite Z.pow2_bits_eqb by lia. apply Z.eqb_sym.
Qed.

Lemma update_bit_ok f fb a nbits nr :
  bitwise f fb -> (forall x, fb x false = x) -> bitmap a nbits -> 0 <= nr < nbits ->
  exists a', update_bit f nr a = Ok (bit a nr, a') /\ bitmap a' nbits
    /\ forall i, 0 <= i -> bit a' i = if i =? nr then fb (bit a nr) true else bit a i.
Proof.
  intros Hf Hid [Ha Hn] Hnr. unfold update_bit, BIT_WORD, BITS_PER_LONG.
  pose proof (Z.div_mod nr 64 ltac:(lia)) as Ed. pose proof (Z.mod_pos_bound nr 64 ltac:(lia)).
  destruct (get_word_ok a (nr / 64) Ha ltac:(lia)) as (w&->&Ww&Bw). cbn [res_bind].
  destruct (bit_mask_spec nr ltac:(lia)) as [Wm Bm]. destruct (Hf w _ Ww Wm) as [Wf Bf].
  destruct (array_set_words a (Z.to_nat (nr / 64)) (f w (BIT_MASK nr)) Ha Wf ltac:(lia)) as (->&Ha'&L). cbn [res_bind].
  assert (Eold : negb (Z.land w (BIT_MASK nr) =? 0) = bit a nr).
  { rewrite Ed at 2. rewrite <- Bw by lia. destruct (Z.testbit w (nr mod 64)) eqn:Et.
    - apply negb_true_iff, Z.eqb_neq. intros E. pose proof (Z.land_spec w (BIT_MASK nr) (nr mod 64)) as Es.
      rewrite E, Z.bits_0, Et, Bm, Z.eqb_refl in Es by lia. done.
    - apply negb_false_iff, Z.eqb_eq. apply word_zero; [apply word_land; [done|apply Wm]|]. intros j Hj.
      rewrite Z.land_spec, Bm by done. destruct (Z.eqb_spec j (nr mod 64)) as [->|]; [by rewrite Et|apply andb_false_r]. }
  rewrite Eold. eexists. split; [done|]. split; [split; [done|by rewrite L]|]. intros i Hi.
  rewrite bit_insert by lia. rewrite Z2Nat.id by lia. pose proof (Z.mod_pos_bound i 64 ltac:(lia)).
  pose proof (Z.div_mod i 64 ltac:(lia)) as Ei.
  destruct (Z.eqb_spec (i / 64) (nr / 64)) as [Eq|Eq].
  - rewrite Bf, Bm, Bw by lia. rewrite <- Eq. replace (64 * (i / 64) + i mod 64) with i by lia.
    destruct (Z.eqb_spec (i mod 64) (nr mod 64)), (Z.eqb_spec i nr) as [->|]; try lia; auto.
  - destruct (Z.eqb_spec i nr) as [->|]; [lia|done].
Qed.

Lemma update_bit_length f nr a b a' : update_bit f nr a = Ok (b, a') -> length a' = length a.
Proof.
  unfold update_bit, array_set. intros E. res_inv E. destruct (_ <? _)%nat; [|done]. simpl in E.
  injection E as _ <-. apply length_insert.
Qed.

Lemma bitwise_clear : bitwise clear_mask (fun x y => x && negb y).
Proof. exact bitwise_andnot. Qed.

Lemma test_bit_ok a nbits nr : bitmap a nbits -> 0 <= nr < nbits -> test_bit nr a = Ok (bit a nr).
Proof.
  intros Ha Hnr. unfold test_bit, BIT_WORD, BITS_PER_LONG. destruct Ha as [Ha Hn]. pose proof (Z.div_mod nr 64 ltac:(lia)) as Ed.
  pose proof (Z.mod_pos_bound nr 64 ltac:(lia)). destruct (get_word_ok a (nr / 64) Ha ltac:(lia)) as (w&->&Ww&Bw).
  cbn [res_bind]. f_equal. change (64 - 1) with (Z.ones 6). rewrite (Z.land_ones nr) by lia. change (2 ^ 6) with 64.
  rewrite Ed at 2. rewrite <- Bw by lia. rewrite Z.land_comm. change 1 with (Z.ones 1). rewrite Z.land_ones by lia.
  rewrite <- (Z.add_0_l (nr mod 64)) at 2. rewrite <- Z.shiftr_spec by lia. rewrite Z.bit0_odd, <- Z.bit0_mod.
  rewrite <- Z.bit0_odd. by destruct (Z.testbit _ 0).
Qed.

(** the single-bit operations return the old value of the bit, set it to 1,
    0 or its negation, and leave every other bit alone. *)
Theorem single_bit_correct a nbits nr :
  bitmap a nbits -> 0 <= nr < nbits ->
  (exists a', test_and_set_bit nr a = Ok (bit a nr, a') /\ bitmap a' nbits
     /\ forall i, 0 <= i -> bit a' i = (i =? nr) || bit a i)
  /\ (exists a', test_and_clear_bit nr a = Ok (bit a nr, a') /\ bitmap a' nbits
     /\ forall i, 0 <= i -> bit a' i = negb (i =? nr) && bit a i)
  /\ (exists a', test_and_change_bit nr a = Ok (bit a nr, a') /\ bitmap a' nbits
     /\ forall i, 0 <= i -> bit a' i = xorb (i =? nr) (bit a i))
  /\ test_bit nr a = Ok (bit a nr).
Proof.
  intros Ha Hnr. split; [|split; [|split]].
  - destruct (update_bit_ok _ _ a nbits nr bitwise_or) as (a'&E&B&H); auto; [apply orb_false_r|].
    exists a'. split; [done|]. split; [done|]. intros i Hi. rewrite H by done.
    destruct (i =? nr); [apply orb_true_r|done].
  - destruct (update_bit_ok _ _ a nbits nr bitwise_clear) as (a'&E&B&H); auto; [apply andb_true_r|].
    exists a'. split; [done|]. split; [done|]. intros i Hi. rewrite H by done.
    destruct (i =? nr); [apply andb_false_r|done].
  - destruct (update_bit_ok _ _ a nbits nr bitwise_xor) as (a'&E&B&H); auto; [apply xorb_false_r|].
    exists a'. split; [done|]. split; [done|]. intros i Hi. rewrite H by done.
    destruct (Z.eqb_spec i nr) as [->|]; [apply xorb_comm|by destruct (bit a i)].
  - by eapply test_bit_ok.
Qed.

Lemma single_bit_correct_witness :
  (exists a', test_and_set_bit 70 [0; 5] = Ok (bit [0; 5] 70, a') /\ bitmap a' 100
     /\ forall i, 0 <= i -> bit a' i = (i =? 70) || bit [0; 5] i)
  /\ (exists a', test_and_clear_bit 70 [0; 5] = Ok (bit [0; 5] 70, a') /\ bitmap a' 100
     /\ forall i, 0 <= i -> bit a' i = negb (i =? 70) && bit [0; 5] i)
  /\ (exists a', test_and_change_bit 70 [0; 5] = Ok (bit [0; 5] 70, a') /\ bitmap a' 100
     /\ forall i, 0 <= i -> bit a' i = xorb (i =? 70) (bit [0; 5] i))
  /\ test_bit 70 [0; 5] = Ok (bit [0; 5] 70).
Proof. apply single_bit_correct; [by apply bitmap_words|lia]. Defined.

Lemma bits_to_longs bits : 0 <= bits -> bits <= 64 * BITS_TO_LONGS bits < bits + 64.
Proof.
  intros H. unfold BITS_TO_LONGS, BITS_PER_LONG. pose proof (Z.div_mod (bits + 64 - 1) 64 ltac:(lia)).
  pose proof (Z.mod_pos_bound (bits + 64 - 1) 64 ltac:(lia)). lia.
Qed.

(** [__bitmap_and], [__bitmap_andnot] and [__bitmap_or] compute intersection,
    difference and union on the bits of the range, and the first two tell
    whether the result has a bit set. *)
Theorem bitmap_set_operations_correct dst a b bits :
  bitmap dst bits -> bitmap a bits -> bitmap b bits ->
  (exists ret d, __bitmap_and dst a b bits = Ok (ret, d)
     /\ (forall i, 0 <= i < bits -> bit d i = bit a i && bit b i)
     /\ (ret = true <-> exists i, 0 <= i < bits /\ bit a i && bit b i = true))
  /\ (exists ret d, __bitmap_andnot dst a b bits = Ok (ret, d)
     /\ (forall i, 0 <= i < bits -> bit d i = bit a i && negb (bit b i))
     /\ (ret = true <-> exists i, 0 <= i < bits /\ bit a i && negb (bit b i) = true))
  /\ (exists d, __bitmap_or dst a b bits = Ok d
     /\ forall i, 0 <= i < bits -> bit d i = bit a i || bit b i).
Proof.
  intros Hd Ha Hb. split; [|split].
  - destruct (bitmap_op_ok _ _ bitwise_and a b (proj1 Ha) (proj1 Hb) dst bits) as (r&d&?&_&_&?&?); eauto.
  - destruct (bitmap_op_ok _ _ bitwise_andnot a b (proj1 Ha) (proj1 Hb) dst bits) as (r&d&?&_&_&?&?); eauto.
  - destruct Hd as [Wd Ld], Ha as [Wa La], Hb as [Wb Lb]. unfold __bitmap_or. pose proof (bits_to_longs bits ltac:(lia)).
    destruct (op_loop_ok _ _ bitwise_or a b Wa Wb (Z.to_nat (BITS_TO_LONGS bits)) 0 dst 0)
      as (d&r&->&_&_&_&B&_); auto; [lia..|]. cbn [res_bind]. exists d. split; [done|].
    intros i Hi. rewrite B by lia. simpl. zcase; done.
Qed.

Lemma bitmap_set_operations_correct_witness :
  (exists ret d, __bitmap_and [0; 0] [3; 5] [9; 4] 100 = Ok (ret, d)
     /\ (forall i, 0 <= i < 100 -> bit d i = bit [3; 5] i && bit [9; 4] i)
     /\ (ret = true <-> exists i, 0 <= i < 100 /\ bit [3; 5] i && bit [9; 4] i = true))
  /\ (exists ret d, __bitmap_andnot [0; 0] [3; 5] [9; 4] 100 = Ok (ret, d)
     /\ (forall i, 0 <= i < 100 -> bit d i = bit [3; 5] i && negb (bit [9; 4] i))
     /\ (ret = true <-> exists i, 0 <= i < 100 /\ bit [3; 5] i && negb (bit [9; 4] i) = true))
  /\ (exists d, __bitmap_or [0; 0] [3; 5] [9; 4] 100 = Ok d
     /\ forall i, 0 <= i < 100 -> bit d i = bit [3; 5] i || bit [9; 4] i).
Proof. apply bitmap_set_operations_correct; by apply bitmap_words. Defined.

Lemma xor_eq_zero w1 w2 : word w1 -> word w2 -> negb (w1 =? w2) = negb (Z.lxor w1 w2 =? 0).
Proof.
  intros _ _. f_equal. destruct (Z.eqb_spec (Z.lxor w1 w2) 0) as [E|E].
  - apply Z.lxor_eq in E as ->. apply Z.eqb_refl.
  - apply Z.eqb_neq. intros ->. by rewrite Z.lxor_nilpotent in E.
Qed.

(** [__bitmap_equal], [__bitmap_intersects], [__bitmap_subset],
    [bitmap_empty] and [bitmap_full] decide the set relations they are named
    after on the bits of the range, whatever the unused bits of the last word. *)
Theorem bitmap_relations_correct a b bits :
  bitmap a bits -> bitmap b bits ->
  (exists r, __bitmap_equal a b bits = Ok r /\ (r = true <-> forall i, 0 <= i < bits -> bit a i = bit b i))
  /\ (exists r, __bitmap_intersects a b bits = Ok r
        /\ (r = true <-> exists i, 0 <= i < bits /\ bit a i && bit b i = true))
  /\ (exists r, __bitmap_subset a b bits = Ok r
        /\ (r = true <-> forall i, 0 <= i < bits -> bit a i = true -> bit b i = true))
  /\ (exists r, bitmap_empty a bits = Ok r /\ (r = true <-> forall i, 0 <= i < bits -> bit a i = false))
  /\ (exists r, bitmap_full a bits = Ok r /\ (r = true <-> forall i, 0 <= i < bits -> bit a i = true)).
Proof.
  intros Ha Hb.
  assert (Hneg : forall (F : Z -> bool) r, (r = true <-> exists i, 0 <= i < bits /\ F i = true) ->
            (negb r = true <-> forall i, 0 <= i < bits -> F i = false)).
  { intros F r Hr. destruct r; simpl.
    - split; [done|]. destruct (proj1 Hr eq_refl) as (i&Hi&E). intros Hall. by rewrite Hall in E.
    - split; [|done]. intros _ i Hi. destruct (F i) eqn:E; [|done]. symmetry. apply Hr. by exists i. }
  assert (Hfirst : forall (F : Z -> bool) r, first_in F 0 bits r ->
            ((r =? bits) = true <-> forall i, 0 <= i < bits -> F i = false)).
  { intros F r (Hr&HP&HN). rewrite Z.eqb_eq. split; [intros ->; done|]. intros Hall.
    destruct (Z.eq_dec r bits); [done|]. exfalso. rewrite Hall in HP by lia. assert (false = true) by (apply HP; lia). done. }
  split; [|split; [|split; [|split]]].
  - destruct (bitmap_scan_ok _ _ bitwise_xor a b (proj1 Ha) (proj1 Hb) _ bits xor_eq_zero Ha Hb) as (r&E&Hr).
    unfold __bitmap_equal. rewrite E. cbn [res_bind]. eexists. split; [done|]. rewrite (Hneg _ _ Hr).
    split; intros H i Hi; specialize (H i Hi); destruct (bit a i), (bit b i); done.
  - by apply (bitmap_scan_ok _ _ bitwise_and a b (proj1 Ha) (proj1 Hb) (fun w1 w2 => negb (Z.land w1 w2 =? 0)) bits).
  - destruct (bitmap_scan_ok _ _ bitwise_andnot a b (proj1 Ha) (proj1 Hb) (fun w1 w2 => negb (andnot w1 w2 =? 0)) bits)
      as (r&E&Hr); auto.
    unfold __bitmap_subset. rewrite E. cbn [res_bind]. eexists. split; [done|]. rewrite (Hneg _ _ Hr).
    split; intros H i Hi; specialize (H i Hi); destruct (bit a i), (bit b i); simpl in *; intuition congruence.
  - destruct (find_first_ok a bits Ha) as (r&E&F). unfold bitmap_empty. rewrite E. cbn [res_bind]. eexists.
    split; [done|]. by apply Hfirst.
  - destruct (find_first_zero_ok a bits Ha) as (r&E&F). unfold bitmap_full. rewrite E. cbn [res_bind]. eexists.
    split; [done|]. rewrite (Hfirst _ _ F). by setoid_rewrite negb_false_iff.
Qed.

Lemma bitmap_relations_correct_witness :
  (exists r, __bitmap_equal [3; 5] [9; 4] 100 = Ok r
     /\ (r = true <-> forall i, 0 <= i < 100 -> bit [3; 5] i = bit [9; 4] i))
  /\ (exists r, __bitmap_intersects [3; 5] [9; 4] 100 = Ok r
        /\ (r = true <-> exists i, 0 <= i < 100 /\ bit [3; 5] i && bit [9; 4] i = true))
  /\ (exists r, __bitmap_subset [3; 5] [9; 4] 100 = Ok r
        /\ (r = true <-> forall i, 0 <= i < 100 -> bit [3; 5] i = true -> bit [9; 4] i = true))
  /\ (exists r, bitmap_empty [3; 5] 100 = Ok r /\ (r = true <-> forall i, 0 <= i < 100 -> bit [3; 5] i = false))
  /\ (exists r, bitmap_full [3; 5] 100 = Ok r /\ (r = true <-> forall i, 0 <= i < 100 -> bit [3; 5] i = true)).
Proof. apply bitmap_relations_correct; by apply bitmap_words. Defined.

(** *** Clearing a run of bits *)

Lemma andnot_word a p mask : Forall word a -> word mask -> (p < length a)%nat ->
  exists w, array_get a p = Ok w /\ array_set a p (andnot w mask) = Ok (<[p := andnot w mask]> a)
    /\ Forall word (<[p := andnot w mask]> a)
    /\ forall i, 0 <= i -> bit (<[p := andnot w mask]> a) i
                            = bit a i && negb ((i / 64 =? Z.of_nat p) && Z.testbit mask (i mod 64)).
Proof.
  intros Ha Hm Hp. destruct (word_at a p Ha Hp) as (w&E&Ww&Bw). exists w. split; [done|].
  destruct (bitwise_andnot w mask Ww Hm) as [Wn Bn].
  destruct (array_set_words a p _ Ha Wn Hp) as (->&Wa&_). split; [done|]. split; [done|].
  intros i Hi. rewrite bit_insert by done. pose proof (Z.mod_pos_bound i 64 ltac:(lia)).
  destruct (Z.eqb_spec (i / 64) (Z.of_nat p)) as [Ek|Ek]; simpl; [|by rewrite andb_true_r].
  rewrite Bn, Bw by lia. by rewrite bit_of_word.
Qed.

Lemma clear_loop_ok fuel map p size len todo mask lo :
  Forall word map -> word mask -> 0 <= len -> 0 < todo <= 64 ->
  lo + todo = 64 * Z.of_nat p + 64 -> 64 * Z.of_nat p <= lo -> size = lo + len ->
  size <= 64 * Z.of_nat (length map) ->
  (forall i, 0 <= i < 64 -> Z.testbit mask i = (lo <=? 64 * Z.of_nat p + i)) ->
  (length map - p < fuel)%nat ->
  exists map', clear_loop fuel map p size len todo mask = Ok map' /\ Forall word map' /\ length map' = length map
    /\ forall i, 0 <= i -> bit map' i = bit map i && negb ((lo <=? i) && (i <? size)).
Proof.
  revert map p len todo mask lo. induction fuel as [|fuel IH]; intros map p len todo mask lo Hm Wk Hl Ht Elo Hlo Es Hs Bk Hf; [lia|].
  cbn [clear_loop]. unfold BITS_PER_LONG. destruct (Z.leb_spec 0 (len - todo)) as [Hge|Hlt].
  - destruct (andnot_word map p mask Hm Wk ltac:(lia)) as (w&->&E2&Wm&B). cbn [res_bind]. rewrite E2. cbn [res_bind].
    destruct (IH (<[p := andnot w mask]> map) (S p) (len - todo) 64 word_max (64 * Z.of_nat (S p)))
      as (map'&->&W'&L'&B'); rewrite ?length_insert in *; auto; try done; try lia.
    { intros i Hi. change word_max with (Z.ones 64). rewrite Z.ones_spec_low by lia. symmetry. apply Z.leb_le. lia. }
    exists map'. split; [done|]. split; [done|]. split; [done|]. intros i Hi. rewrite B', B by done.
    pose proof (Z.mod_pos_bound i 64 ltac:(lia)). pose proof (Z.div_mod i 64 ltac:(lia)). rewrite Bk by lia.
    pose proof (div64_between i p Hi). destruct (bit map i); [|done]. cbn [andb].
    destruct (Z.eqb_spec (i / 64) (Z.of_nat p)) as [Ek|Ek]; zcase; simpl; lia || done.
  - destruct (Z.eqb_spec len 0) as [->|Hnz]; cbn [negb].
    { exists map. repeat split; auto. intros i Hi. zcase; simpl; by rewrite ?andb_true_r. }
    destruct (last_mask_bits size ltac:(lia)) as [Wl Bl].
    assert (Eq : (size - 1) / 64 = Z.of_nat p) by (apply div64_between; lia). rewrite Eq in Bl.
    destruct (andnot_word map p (Z.land mask (BITMAP_LAST_WORD_MASK size)) Hm) as (w&->&E2&Wm&B);
      [apply word_land; [done|apply Wl]|lia|]. cbn [res_bind]. rewrite E2. eexists. split; [done|]. split; [done|].
    split; [apply length_insert|]. intros i Hi. rewrite B by done.
    pose proof (Z.mod_pos_bound i 64 ltac:(lia)). pose proof (Z.div_mod i 64 ltac:(lia)).
    rewrite Z.land_spec, Bk, Bl by lia. pose proof (div64_between i p Hi). destruct (bit map i); [|done]. cbn [andb].
    destruct (Z.eqb_spec (i / 64) (Z.of_nat p)) as [Ek|Ek]; zcase; simpl; lia || done.
Qed.

(** [bitmap_clear] clears exactly the bits [start, start + len). *)
Theorem bitmap_clear_correct map start len :
  Forall word map -> 0 <= start -> 0 <= len -> start + len <= 64 * Z.of_nat (length map) ->
  exists map', bitmap_clear map start len = Ok map' /\ Forall word map' /\ length map' = length map
    /\ forall i, 0 <= i -> bit map' i = bit map i && negb ((start <=? i) && (i <? start + len)).
Proof.
  intros Hm Hs Hl Hend. unfold bitmap_clear, BIT_WORD, BITS_PER_LONG.
  pose proof (Z.mod_pos_bound start 64 ltac:(lia)). pose proof (Z.div_mod start 64 ltac:(lia)).
  assert (Eq : Z.of_nat (Z.to_nat (start / 64)) = start / 64) by (apply Z2Nat.id; apply Z.div_pos; lia).
  apply clear_loop_ok; rewrite ?Eq; auto; try lia; [apply u64_range|].
  intros i Hi. rewrite first_mask_bit by lia. zcase; done.
Qed.

Lemma bitmap_clear_correct_witness :
  exists map', bitmap_clear [word_max; word_max; 7] 60 70 = Ok map' /\ Forall word map'
    /\ length map' = length [word_max; word_max; 7]
    /\ forall i, 0 <= i -> bit map' i = bit [word_max; word_max; 7] i && negb ((60 <=? i) && (i <? 60 + 70)).
Proof. apply bitmap_clear_correct; [by apply (bitmap_words _ 192)|lia|lia|simpl; lia]. Defined.
