(* ===== verification/ListHead.v ===== *)
(** * Doubly linked lists (include/linux/list.h)

    A list is a circle of nodes: the head and its entries, each with the addresses of its two
    neighbours.  The operations below are pointer assignments in the order of the source; the
    theorems say which lists a memory holds before and after. *)

From stdpp Require Import gmap list.
From S2P Require Import Prelude.
Local Open Scope Z_scope.
Local Open Scope res_scope.

(** The [next] and the [prev] field of every node. *)
Record list_mem := mk_lists { nexts : gmap Z Z; prevs : gmap Z Z }.

Definition LIST_POISON1 : Z := 256.
Definition LIST_POISON2 : Z := 512.

Definition get_next (m : list_mem) (x : Z) : res Z := match nexts m !! x with Some v => Ok v | None => Fault OutOfBounds end.
Definition get_prev (m : list_mem) (x : Z) : res Z := match prevs m !! x with Some v => Ok v | None => Fault OutOfBounds end.
Definition set_next (m : list_mem) (x v : Z) : res list_mem :=
  match nexts m !! x with Some _ => Ok (mk_lists (<[x := v]> (nexts m)) (prevs m)) | None => Fault OutOfBounds end.
Definition set_prev (m : list_mem) (x v : Z) : res list_mem :=
  match prevs m !! x with Some _ => Ok (mk_lists (nexts m) (<[x := v]> (prevs m))) | None => Fault OutOfBounds end.

(** ** The operations *)

Definition INIT_LIST_HEAD (m : list_mem) (list : Z) : res list_mem :=
  m <-- set_next m list list; set_prev m list list.

Definition __list_add (m : list_mem) (new prev next : Z) : res list_mem :=
  m <-- set_prev m next new; m <-- set_next m new next; m <-- set_prev m new prev; set_next m prev new.

Definition list_add (m : list_mem) (new head : Z) : res list_mem := n <-- get_next m head; __list_add m new head n.
Definition list_add_tail (m : list_mem) (new head : Z) : res list_mem := p <-- get_prev m head; __list_add m new p head.

Definition __list_del (m : list_mem) (prev next : Z) : res list_mem := m <-- set_prev m next prev; set_next m prev next.

Definition __list_del_entry (m : list_mem) (entry : Z) : res list_mem :=
  p <-- get_prev m entry; n <-- get_next m entry; __list_del m p n.

Definition list_del (m : list_mem) (entry : Z) : res list_mem :=
  m <-- __list_del_entry m entry; m <-- set_next m entry LIST_POISON1; set_prev m entry LIST_POISON2.

Definition list_replace (m : list_mem) (old new : Z) : res list_mem :=
  n <-- get_next m old; m <-- set_next m new n; m <-- set_prev m n new;
  p <-- get_prev m old; m <-- set_prev m new p; set_next m p new.

Definition list_replace_init (m : list_mem) (old new : Z) : res list_mem := m <-- list_replace m old new; INIT_LIST_HEAD m old.

Definition list_del_init (m : list_mem) (entry : Z) : res list_mem := m <-- __list_del_entry m entry; INIT_LIST_HEAD m entry.
Definition list_move (m : list_mem) (list head : Z) : res list_mem := m <-- __list_del_entry m list; list_add m list head.
Definition list_move_tail (m : list_mem) (list head : Z) : res list_mem := m <-- __list_del_entry m list; list_add_tail m list head.

Definition list_is_first (m : list_mem) (list head : Z) : res bool := p <-- get_prev m list; Ok (p =? head).
Definition list_is_last (m : list_mem) (list head : Z) : res bool := n <-- get_next m list; Ok (n =? head).
Definition list_empty (m : list_mem) (head : Z) : res bool := n <-- get_next m head; Ok (n =? head).
Definition list_empty_careful (m : list_mem) (head : Z) : res bool :=
  n <-- get_next m head; p <-- get_prev m head; Ok ((n =? head) && (n =? p)).
Definition list_is_singular (m : list_mem) (head : Z) : res bool :=
  n <-- get_next m head; p <-- get_prev m head; Ok (negb (n =? head) && (n =? p)).

(** The store of [next] is commented out in the source. *)
Definition list_del_init_careful (m : list_mem) (entry : Z) : res list_mem :=
  m <-- __list_del_entry m entry; set_prev m entry entry.

Definition list_rotate_left (m : list_mem) (head : Z) : res list_mem :=
  e <-- list_empty m head;
  if (e : bool) then Ok m else first <-- get_next m head; list_move_tail m first head.

Definition list_rotate_to_front (m : list_mem) (list head : Z) : res list_mem := list_move_tail m head list.

Definition __list_cut_position (m : list_mem) (list head entry : Z) : res list_mem :=
  new_first <-- get_next m entry;
  n <-- get_next m head; m <-- set_next m list n; m <-- set_prev m n list;
  m <-- set_prev m list entry; m <-- set_next m entry list;
  m <-- set_next m head new_first; set_prev m new_first head.

Definition list_cut_position (m : list_mem) (list head entry : Z) : res list_mem :=
  e <-- list_empty m head;
  if (e : bool) then Ok m
  else
    s <-- list_is_singular m head; n <-- get_next m head;
    if s && (negb (n =? entry) && negb (head =? entry)) then Ok m
    else if entry =? head then INIT_LIST_HEAD m list
    else __list_cut_position m list head entry.

Definition list_cut_before (m : list_mem) (list head entry : Z) : res list_mem :=
  n <-- get_next m head;
  if n =? entry then INIT_LIST_HEAD m list
  else
    m <-- set_next m list n; m <-- set_prev m n list;
    p <-- get_prev m entry; m <-- set_prev m list p; m <-- set_next m p list;
    m <-- set_next m head entry; set_prev m entry head.

Definition __list_splice (m : list_mem) (list prev next : Z) : res list_mem :=
  first <-- get_next m list; last <-- get_prev m list;
  m <-- set_prev m first prev; m <-- set_next m prev first;
  m <-- set_next m last next; set_prev m next last.

Definition list_splice (m : list_mem) (list head : Z) : res list_mem :=
  e <-- list_empty m list; if (e : bool) then Ok m else n <-- get_next m head; __list_splice m list head n.
Definition list_splice_tail (m : list_mem) (list head : Z) : res list_mem :=
  e <-- list_empty m list; if (e : bool) then Ok m else p <-- get_prev m head; __list_splice m list p head.
Definition list_splice_init (m : list_mem) (list head : Z) : res list_mem :=
  e <-- list_empty m list;
  if (e : bool) then Ok m else n <-- get_next m head; m <-- __list_splice m list head n; INIT_LIST_HEAD m list.
Definition list_splice_tail_init (m : list_mem) (list head : Z) : res list_mem :=
  e <-- list_empty m list;
  if (e : bool) then Ok m else p <-- get_prev m head; m <-- __list_splice m list p head; INIT_LIST_HEAD m list.

(** The loop of [list_for_each]: the entries from [pos] up to [head]. *)
Fixpoint walk (fuel : nat) (m : list_mem) (pos head : Z) : res (list Z) :=
  if pos =? head then Ok []
  else match fuel with
       | O => Fault NoFuel
       | S fuel => n <-- get_next m pos; l <-- walk fuel m n head; Ok (pos :: l)
       end.
Definition list_for_each (m : list_mem) (head : Z) : res (list Z) :=
  n <-- get_next m head; walk (size (nexts m)) m n head.

(** ** Chains and circles *)

Definition link (m : list_mem) (x y : Z) : Prop := nexts m !! x = Some y /\ prevs m !! y = Some x.

Fixpoint links (m : list_mem) (c : list Z) : Prop :=
  match c with
  | x :: c' => match c' with y :: _ => link m x y /\ links m c' | [] => True end
  | [] => True
  end.

(** The nodes [c], each linked to the next and the last to the first. *)
Definition circle (m : list_mem) (c : list Z) : Prop := match c with x :: l => links m (x :: l ++ [x]) | [] => True end.

Lemma links_split m a x b : links m (a ++ x :: b) <-> links m (a ++ [x]) /\ links m (x :: b).
Proof.
  induction a as [|y a IH]; [cbn; tauto|]. destruct a as [|z a]; [cbn; tauto|]. cbn in *. tauto.
Qed.

Lemma links_pair m a x y b : links m (a ++ x :: y :: b) <-> links m (a ++ [x]) /\ link m x y /\ links m (y :: b).
Proof. rewrite links_split. cbn. tauto. Qed.

Lemma links_snoc m a x y : links m (a ++ [x; y]) <-> links m (a ++ [x]) /\ link m x y.
Proof. rewrite links_split. cbn. tauto. Qed.

(** A circle may be entered at any node. *)
Lemma circle_rotate m a b : circle m (a ++ b) <-> circle m (b ++ a).
Proof.
  destruct a as [|x a]; [by rewrite app_nil_r|]. destruct b as [|y b]; [by rewrite app_nil_r|]. cbn [app circle].
  rewrite <- !app_assoc. cbn [app]. change (x :: a ++ y :: b ++ [x]) with ((x :: a) ++ y :: b ++ [x]). change (y :: b ++ x :: a ++ [y]) with ((y :: b) ++ x :: a ++ [y]).
  rewrite (links_split m (x :: a) y), (links_split m (y :: b) x). cbn [app]. tauto.
Qed.

(** Where a circle closes: its last node [p] and its first node [n]. *)
Lemma circle_close m n b a p : n :: b = a ++ [p] -> circle m (n :: b) <-> links m (n :: b) /\ link m p n.
Proof.
  intros E. cbn [circle]. rewrite (app_comm_cons b [n] n), E, <- app_assoc. cbn [app]. by rewrite links_snoc.
Qed.

Lemma links_frame m m' a p n b : n :: b = a ++ [p] -> (forall z, z ∈ a -> nexts m' !! z = nexts m !! z) -> (forall z, z ∈ b -> prevs m' !! z = prevs m !! z) ->
  links m (n :: b) -> links m' (n :: b).
Proof.
  revert n b. induction a as [|x a IH]; intros n b E Hn Hp HL; [injection E as -> ->; done|].
  injection E as -> ->. destruct a as [|y a]; cbn in *.
  - destruct HL as [[L1 L2] _]. split; [|done]. split; [rewrite Hn by (apply elem_of_cons; auto); done|rewrite Hp by (apply elem_of_cons; auto); done].
  - destruct HL as [[L1 L2] HL]. split.
    + split; [rewrite Hn by (apply elem_of_cons; auto); done|rewrite Hp by (apply elem_of_cons; auto); done].
    + apply (IH y (a ++ [p])); [done|intros z Hz; apply Hn; apply elem_of_cons; auto|intros z Hz; apply Hp; apply elem_of_cons; auto|done].
Qed.

Lemma circle_frame m m' c : (forall z, z ∈ c -> nexts m' !! z = nexts m !! z /\ prevs m' !! z = prevs m !! z) -> circle m c -> circle m' c.
Proof.
  destruct c as [|x l]; [done|]. intros H. cbn [circle]. apply (links_frame m m' (x :: l) x x (l ++ [x])); [done|intros z Hz; by apply H|].
  intros z Hz. apply H. apply elem_of_app in Hz as [Hz|Hz]; [by apply elem_of_cons; auto|]. apply list_elem_of_singleton in Hz as ->. apply elem_of_cons; auto.
Qed.

(** The neighbours of a node of a circle. *)
Lemma circle_neighbours m x l : circle m (x :: l) -> exists n p, link m x n /\ link m p x /\ n = default x (head l) /\ p = default x (last l).
Proof.
  intros HC. exists (default x (head l)), (default x (last l)). split; [|split; [|done]].
  - cbn in HC. destruct l; cbn in *; tauto.
  - destruct l as [|y l _] using rev_ind; [cbn in *; tauto|]. rewrite last_snoc. cbn [from_option].
    apply (circle_close m x (l ++ [y]) (x :: l) y) in HC; tauto.
Qed.

(** Every node of a circle is allocated. *)
Lemma circle_alloc m c z : circle m c -> z ∈ c -> is_Some (nexts m !! z) /\ is_Some (prevs m !! z).
Proof.
  intros HC Hz. apply list_elem_of_split in Hz as (a & b & ->). apply circle_rotate in HC. cbn [app] in HC.
  apply circle_neighbours in HC as (n & p & [L1 _] & [_ L2] & _). eauto.
Qed.

(** *** The writes *)

Definition put_next (x v : Z) (m : list_mem) : list_mem := mk_lists (<[x := v]> (nexts m)) (prevs m).
Definition put_prev (x v : Z) (m : list_mem) : list_mem := mk_lists (nexts m) (<[x := v]> (prevs m)).

Lemma set_next_ok m x v : is_Some (nexts m !! x) -> set_next m x v = Ok (put_next x v m).
Proof. intros [w E]. unfold set_next. by rewrite E. Qed.
Lemma set_prev_ok m x v : is_Some (prevs m !! x) -> set_prev m x v = Ok (put_prev x v m).
Proof. intros [w E]. unfold set_prev. by rewrite E. Qed.

(** Lookups through the writes of an operation. *)
Ltac lookups :=
  cbn [put_next put_prev nexts prevs];
  repeat first [rewrite lookup_insert_eq | rewrite lookup_insert_ne by congruence].

(** [m'] differs from [m] in the nodes [l] at most, and has the same nodes. *)
Record outside (l : list Z) (m m' : list_mem) : Prop := {
  os_next z : z ∉ l -> nexts m' !! z = nexts m !! z; os_prev z : z ∉ l -> prevs m' !! z = prevs m !! z;
  os_alloc z : (is_Some (nexts m' !! z) <-> is_Some (nexts m !! z)) /\ (is_Some (prevs m' !! z) <-> is_Some (prevs m !! z)) }.

Lemma outside_put_next l m x v : x ∈ l -> is_Some (nexts m !! x) -> outside l m (put_next x v m).
Proof.
  intros Hx Ha. split; intros z; [intros Hz; assert (x <> z) by (by intros ->); lookups; done|done|]. split; [|done].
  destruct (Z.eq_dec x z) as [->|]; lookups; [|done]. split; [done|eauto].
Qed.

Lemma outside_put_prev l m x v : x ∈ l -> is_Some (prevs m !! x) -> outside l m (put_prev x v m).
Proof.
  intros Hx Ha. split; intros z; [done|intros Hz; assert (x <> z) by (by intros ->); lookups; done|]. split; [done|].
  destruct (Z.eq_dec x z) as [->|]; lookups; [|done]. split; [done|eauto].
Qed.

Lemma outside_refl l m : outside l m m.
Proof. by split. Qed.

Lemma outside_trans l m m1 m2 : outside l m m1 -> outside l m1 m2 -> outside l m m2.
Proof.
  intros [A1 A2 A3] [B1 B2 B3]. split; intros z; [intros Hz; by rewrite B1, A1|intros Hz; by rewrite B2, A2|].
  destruct (A3 z), (B3 z). tauto.
Qed.

Lemma outside_weaken l l' m m' : (forall z, z ∈ l -> z ∈ l') -> outside l m m' -> outside l' m m'.
Proof. intros Hl [A1 A2 A3]. split; [intros z Hz; apply A1; auto|intros z Hz; apply A2; auto|done]. Qed.

Lemma circle_outside l m m' c : outside l m m' -> (forall z, z ∈ c -> z ∉ l) -> circle m c -> circle m' c.
Proof. intros [A1 A2 _] Hc. apply circle_frame. intros z Hz. split; [apply A1|apply A2]; by apply Hc. Qed.

(** A run of writes to nodes of [l], given that they are allocated. *)
Ltac writes :=
  repeat (first [rewrite set_next_ok by (lookups; first [done|by eexists]) | rewrite set_prev_ok by (lookups; first [done|by eexists])]; cbn [res_bind]).
Ltac outsides :=
  repeat (eapply outside_trans; [|first [apply outside_put_next | apply outside_put_prev]; [|lookups; first [done|by eexists]]]); try apply outside_refl.

(** An insertion where a circle closes. *)
Lemma add_circle m new n b a p : n :: b = a ++ [p] -> circle m (n :: b) -> NoDup (n :: b) -> new ∉ n :: b -> is_Some (nexts m !! new) -> is_Some (prevs m !! new) ->
  exists m', __list_add m new p n = Ok m' /\ circle m' (n :: b ++ [new]) /\ outside (new :: n :: b) m m'.
Proof.
  intros E HC ND Hnew An Ap. assert (Hp : p ∈ n :: b) by (rewrite E; apply elem_of_app; right; by apply list_elem_of_singleton).
  assert (Hn : n ∈ n :: b) by (apply elem_of_cons; auto). assert (N1 : new <> n) by (by intros ->). assert (N2 : new <> p) by (by intros ->).
  destruct (circle_alloc m _ n HC Hn) as [An1 Ap1]. destruct (circle_alloc m _ p HC Hp) as [An2 Ap2].
  exists (put_next p new (put_prev new p (put_next new n (put_prev n new m)))). split; [|split].
  - unfold __list_add. writes. done.
  - set (m' := put_next _ _ _). apply (circle_close m' n (b ++ [new]) (n :: b) new); [done|].
    apply (circle_close m n b a p E) in HC as [HL Hl]. split; [|unfold m', link; lookups; done].
    rewrite app_comm_cons, E, <- app_assoc. cbn [app]. apply links_snoc. split; [|unfold m', link; lookups; done].
    rewrite <- E. apply (links_frame m m' a p n b E); [| |done]; intros z Hz; unfold m'.
    + rewrite E in ND, Hnew. apply NoDup_app in ND as (_ & ND & _). assert (z <> p) by (intros ->; apply (ND p Hz); by apply list_elem_of_singleton).
      assert (z <> new) by (intros ->; apply Hnew, elem_of_app; auto). lookups. done.
    + apply NoDup_cons in ND as [ND _]. assert (z <> n) by (by intros ->). assert (z <> new) by (intros ->; apply Hnew, elem_of_cons; auto). lookups. done.
  - outsides; rewrite elem_of_cons; auto.
Qed.

(** A removal of the node [x] between [p] and [n]; [x] itself is not written. *)
Lemma del_circle m x n b a p : n :: b = a ++ [p] -> circle m (x :: n :: b) -> NoDup (x :: n :: b) ->
  exists m', __list_del_entry m x = Ok m' /\ circle m' (n :: b) /\ outside (n :: b) m m'.
Proof.
  intros E HC ND. assert (Hp : p ∈ n :: b) by (rewrite E; apply elem_of_app; right; by apply list_elem_of_singleton).
  assert (Hn : n ∈ n :: b) by (apply elem_of_cons; auto).
  destruct (circle_alloc m _ n HC ltac:(apply elem_of_cons; auto)) as [An1 Ap1]. destruct (circle_alloc m _ p HC ltac:(apply elem_of_cons; auto)) as [An2 Ap2].
  destruct (circle_neighbours m x (n :: b) HC) as (n' & p' & [L1 _] & [_ L2] & En & Ep). rewrite E, last_snoc in Ep. cbn in En, Ep. subst n' p'.
  exists (put_next p n (put_prev n p m)). split; [|split].
  - unfold __list_del_entry, get_prev, get_next, __list_del. rewrite L1, L2. cbn [res_bind]. writes. done.
  - set (m' := put_next _ _ _). apply (circle_close m' n b a p E). split; [|unfold m', link; lookups; done].
    apply (circle_close m x (n :: b) (x :: a) p) in HC as [HL _]; [|by rewrite E]. apply NoDup_cons in ND as [_ ND].
    apply (links_frame m m' a p n b E); [| |cbn in HL; tauto]; intros z Hz; unfold m'.
    + rewrite E in ND. apply NoDup_app in ND as (_ & ND & _). assert (z <> p) by (intros ->; apply (ND p Hz); by apply list_elem_of_singleton). lookups. done.
    + apply NoDup_cons in ND as [ND _]. assert (z <> n) by (by intros ->). lookups. done.
  - outsides; done.
Qed.

Lemma init_circle m x : is_Some (nexts m !! x) -> is_Some (prevs m !! x) -> exists m', INIT_LIST_HEAD m x = Ok m' /\ circle m' [x] /\ outside [x] m m'.
Proof.
  intros An Ap. exists (put_prev x x (put_next x x m)). split; [|split].
  - unfold INIT_LIST_HEAD. writes. done.
  - cbn. split; [|done]. split; lookups; done.
  - outsides; apply elem_of_cons; auto.
Qed.

(** The two sides of a duplicate-free list that ends in [p] and starts with [n]. *)
Lemma ends {n b a p} : n :: b = a ++ [p] -> NoDup (n :: b) -> (n ∈ n :: b) /\ (p ∈ n :: b) /\ (n ∉ b) /\ (p ∉ a) /\ (forall z : Z, z ∈ a -> z ∈ n :: b) /\ (forall z : Z, z ∈ b -> z ∈ n :: b).
Proof.
  intros E ND. split; [apply elem_of_cons; auto|]. split; [rewrite E; apply elem_of_app; right; by apply list_elem_of_singleton|].
  split; [by apply NoDup_cons in ND as [ND _]|]. split.
  - rewrite E in ND. apply NoDup_app in ND as (_ & ND & _). intros Hp. apply (ND p Hp). by apply list_elem_of_singleton.
  - split; intros z Hz; [rewrite E; apply elem_of_app; auto|apply elem_of_cons; auto].
Qed.

Lemma snoc_exists (n : Z) b : exists a p, n :: b = a ++ [p].
Proof. destruct (exists_last (l := n :: b)) as (a & p & E); [done|]. by exists a, p. Qed.

(** The nodes of one circle, less its head, go where another one closes. *)
Lemma splice_circle m n b a p lst f c d l : n :: b = a ++ [p] -> f :: c = d ++ [l] -> circle m (n :: b) -> circle m (lst :: f :: c) ->
  NoDup (n :: b) -> NoDup (lst :: f :: c) -> (forall z, z ∈ n :: b -> z ∉ lst :: f :: c) ->
  exists m', __list_splice m lst p n = Ok m' /\ circle m' (n :: b ++ f :: c) /\ outside (n :: b ++ f :: c) m m'.
Proof.
  intros E1 E2 C1 C2 N1 N2 HD. destruct (ends E1 N1) as (H1 & H2 & H3 & H4 & H5 & H6). assert (N2' := N2). apply NoDup_cons in N2' as [Hlst N2'].
  destruct (ends E2 N2') as (K1 & K2 & K3 & K4 & K5 & K6).
  destruct (circle_neighbours m lst (f :: c) C2) as (f' & l' & [L1 _] & [_ L2] & Ef & El). rewrite E2, last_snoc in El. cbn in Ef, El. subst f' l'.
  assert (HD' : forall z y, z ∈ n :: b -> y ∈ f :: c -> z <> y) by (intros z y Hz Hy ->; apply (HD y Hz); apply elem_of_cons; auto).
  destruct (circle_alloc m _ n C1 H1) as [An1 Ap1]. destruct (circle_alloc m _ p C1 H2) as [An2 Ap2].
  destruct (circle_alloc m _ f C2 ltac:(apply elem_of_cons; auto)) as [An3 Ap3]. destruct (circle_alloc m _ l C2 ltac:(apply elem_of_cons; auto)) as [An4 Ap4].
  pose proof (HD' n f H1 K1). pose proof (HD' p l H2 K2). pose proof (HD' p f H2 K1). pose proof (HD' n l H1 K2).
  exists (put_prev n l (put_next l n (put_next p f (put_prev f p m)))). split; [|split].
  - unfold __list_splice, get_next, get_prev. rewrite L1, L2. cbn [res_bind]. writes. done.
  - set (m' := put_prev _ _ _). apply (circle_close m n b a p E1) in C1 as [S1 _]. apply (circle_close m lst (f :: c) (lst :: d) l) in C2 as [S2 _]; [|by rewrite E2].
    apply (circle_close m' n (b ++ f :: c) ((n :: b) ++ d) l); [by rewrite <- app_assoc, <- E2|]. split; [|unfold m', link; lookups; done].
    rewrite app_comm_cons, E1, <- app_assoc. cbn [app]. apply links_pair. split; [rewrite <- E1|split; [unfold m', link; lookups; done|]].
    + apply (links_frame m m' a p n b E1); [| |done]; intros z Hz; unfold m'.
      * assert (z <> p) by (by intros ->). assert (z <> l) by (apply HD'; auto). lookups. done.
      * assert (z <> n) by (by intros ->). assert (z <> f) by (apply HD'; auto). lookups. done.
    + apply (links_frame m m' d l f c E2); [| |cbn in S2; tauto]; intros z Hz; unfold m'.
      * assert (z <> l) by (by intros ->). assert (p <> z) by (apply HD'; auto). lookups. done.
      * assert (z <> f) by (by intros ->). assert (n <> z) by (apply HD'; auto). lookups. done.
  - outsides; rewrite app_comm_cons; apply elem_of_app; auto.
Qed.

(** Another node takes the place of one. *)
Lemma replace_circle m old new c : circle m (old :: c) -> NoDup (old :: c) -> new ∉ old :: c -> is_Some (nexts m !! new) -> is_Some (prevs m !! new) ->
  exists m', list_replace m old new = Ok m' /\ circle m' (new :: c) /\ outside (new :: old :: c) m m'.
Proof.
  intros HC ND Hnew An Ap. assert (N0 : new <> old) by (intros ->; apply Hnew, elem_of_cons; auto).
  destruct (circle_neighbours m old c HC) as (n & p & [L1 _] & [_ L2] & En & Ep). unfold list_replace, get_next, get_prev. rewrite L1. cbn [res_bind].
  destruct c as [|y b].
  - cbn in En, Ep. subst n p. exists (put_next new new (put_prev new new (put_prev old new (put_next new old m)))). split; [|split].
    + rewrite set_next_ok by done. cbn [res_bind]. rewrite set_prev_ok by (lookups; by eexists). cbn [res_bind]. lookups. cbn [res_bind]. writes. done.
    + cbn. split; [|done]. split; lookups; done.
    + outsides; rewrite !elem_of_cons; auto.
  - destruct (snoc_exists y b) as (a & q & E). rewrite E, last_snoc in Ep. cbn in En, Ep. subst n p.
    assert (ND' := ND). apply NoDup_cons in ND' as [Hold ND']. destruct (ends E ND') as (H1 & H2 & H3 & H4 & H5 & H6).
    assert (old <> y) by (by intros ->). assert (old <> q) by (by intros ->).
    assert (N1 : forall z, z ∈ y :: b -> new <> z) by (intros z Hz ->; apply Hnew, elem_of_cons; auto). pose proof (N1 y H1). pose proof (N1 q H2).
    destruct (circle_alloc m _ y HC ltac:(apply elem_of_cons; auto)) as [An1 Ap1]. destruct (circle_alloc m _ q HC ltac:(apply elem_of_cons; auto)) as [An2 Ap2].
    exists (put_next q new (put_prev new q (put_prev y new (put_next new y m)))). split; [|split].
    + rewrite set_next_ok by done. cbn [res_bind]. rewrite set_prev_ok by (lookups; done). lookups. cbn [res_bind]. lookups. rewrite L2. cbn [res_bind]. writes. done.
    + set (m' := put_next _ _ _). apply (circle_close m' new (y :: b) (new :: a) q); [by rewrite E|]. split; [|unfold m', link; lookups; done].
      apply (circle_close m old (y :: b) (old :: a) q) in HC as [HL _]; [|by rewrite E]. cbn [links] in HL |- *. split; [unfold m', link; lookups; done|].
      apply (links_frame m m' a q y b E); [| |tauto]; intros z Hz; unfold m'.
      * assert (z <> q) by (by intros ->). pose proof (N1 z ltac:(auto)). lookups. done.
      * assert (z <> y) by (by intros ->). pose proof (N1 z ltac:(auto)). lookups. done.
    + assert (forall z, z ∈ y :: b -> z ∈ new :: old :: y :: b) by (intros z Hz; do 2 (apply elem_of_cons; right); done).
      outsides; auto; apply elem_of_cons; auto.
Qed.

(** A circle is cut after the node [x]: what comes before goes to the head [lst]. *)
Lemma cut_circle m lst hd l1 x l2 : circle m (hd :: l1 ++ x :: l2) -> NoDup (hd :: l1 ++ x :: l2) -> lst ∉ hd :: l1 ++ x :: l2 ->
  is_Some (nexts m !! lst) -> is_Some (prevs m !! lst) ->
  exists m', __list_cut_position m lst hd x = Ok m' /\ circle m' (lst :: l1 ++ [x]) /\ circle m' (hd :: l2) /\ outside (lst :: hd :: l1 ++ x :: l2) m m'.
Proof.
  intros HC ND Hlst An Ap. assert (Hx : x ∈ hd :: l1 ++ x :: l2) by (rewrite elem_of_cons, elem_of_app, elem_of_cons; auto).
  assert (C0 := HC). apply (circle_rotate m (hd :: l1) (x :: l2)) in C0. cbn [app] in C0.
  destruct (circle_neighbours _ _ _ C0) as (nf & _ & [Lx _] & _ & Enf & _). destruct (circle_neighbours _ _ _ HC) as (f & _ & [Lh _] & _ & Ef & _).
  assert (Ec : exists c, f :: c = l1 ++ [x]) by (destruct l1 as [|y l1]; cbn in Ef; subst f; eauto). destruct Ec as [c Ec].
  assert (Hhd : NoDup (l1 ++ x :: l2) /\ hd ∉ l1 ++ x :: l2) by (apply NoDup_cons in ND; tauto). destruct Hhd as [ND1 Hhd].
  assert (HNx : NoDup (l1 ++ [x]) /\ NoDup l2 /\ (forall z, z ∈ l1 ++ [x] -> z ∉ l2)).
  { rewrite cons_middle, app_assoc in ND1. apply NoDup_app in ND1 as (? & ? & ?). auto. }
  destruct HNx as (NA & NB & NAB). rewrite <- Ec in NA. destruct (ends Ec NA) as (F1 & F2 & F3 & F4 & F5 & F6).
  assert (In1 : forall z, z ∈ f :: c -> z ∈ l1 ++ x :: l2) by (intros z; rewrite Ec, !elem_of_app, !elem_of_cons, elem_of_nil; tauto).
  assert (In2 : forall z, z ∈ l2 -> z ∈ l1 ++ x :: l2) by (intros z; rewrite !elem_of_app, elem_of_cons; tauto).
  assert (Nh : forall z, z ∈ l1 ++ x :: l2 -> hd <> z /\ lst <> z) by (intros z Hz; split; intros ->; [done|apply Hlst, elem_of_cons; auto]).
  destruct (Nh f (In1 f F1)) as [? ?], (Nh x (In1 x F2)) as [? ?]. assert (lst <> hd) by (intros ->; apply Hlst, elem_of_cons; auto).
  assert (Hnf : l2 = [] /\ nf = hd \/ exists d, l2 = nf :: d) by (destruct l2; cbn in Enf; subst nf; eauto).
  assert (Anf : nf ∈ hd :: l1 ++ x :: l2) by (destruct Hnf as [[_ ->]|[d ->]]; rewrite elem_of_cons; [auto|right; apply In2, elem_of_cons; auto]).
  assert (Nnf : lst <> nf /\ (forall z, z ∈ f :: c -> z <> nf)).
  { split; [intros ->; done|]. intros z Hz ->. destruct Hnf as [[_ ->]|[d ->]]; [by destruct (Nh hd (In1 _ Hz))|]. rewrite Ec in Hz. apply (NAB _ Hz), elem_of_cons; auto. }
  destruct Nnf as [Nn1 Nn2]. pose proof (Nn2 f F1).
  destruct (circle_alloc m _ hd HC ltac:(apply elem_of_cons; auto)) as [A1 A2]. destruct (circle_alloc m _ x HC Hx) as [A3 A4].
  destruct (circle_alloc m _ f HC ltac:(apply elem_of_cons; right; auto)) as [A5 A6]. destruct (circle_alloc m _ nf HC Anf) as [A7 A8].
  exists (put_prev nf hd (put_next hd nf (put_next x lst (put_prev lst x (put_prev f lst (put_next lst f m)))))). split; [|split; [|split]].
  - unfold __list_cut_position, get_next. rewrite Lx, Lh. cbn [res_bind]. writes. done.
  - set (m' := put_prev _ _ _). rewrite <- Ec. apply (circle_close m' lst (f :: c) (lst :: l1) x); [by rewrite Ec|]. split; [|unfold m', link; lookups; done].
    cbn [links]. split; [unfold m', link; lookups; done|]. apply (links_frame m m' l1 x f c Ec).
    + intros z Hz. destruct (Nh z (In1 z (F5 z Hz))). assert (z <> x) by (by intros ->). unfold m'. lookups. done.
    + intros z Hz. destruct (Nh z (In1 z (F6 z Hz))). assert (z <> f) by (by intros ->). pose proof (Nn2 z (F6 z Hz)). unfold m'. lookups. done.
    + rewrite Ec. cbn [circle] in HC. change (hd :: (l1 ++ x :: l2) ++ [hd]) with ([hd] ++ (l1 ++ x :: l2) ++ [hd]) in HC.
      rewrite <- (app_assoc l1), app_assoc in HC. cbn [app] in HC. rewrite app_comm_cons in HC. apply links_split in HC as [HC _]. cbn [app] in HC.
      destruct l1; cbn in HC |- *; tauto.
  - set (m' := put_prev _ _ _). destruct Hnf as [[-> ->]|[d ->]]; [cbn; split; [unfold m', link; lookups; done|done]|].
    destruct (snoc_exists nf d) as (d' & q & Ed). destruct (ends Ed NB) as (G1 & G2 & G3 & G4 & G5 & G6).
    apply (circle_close m hd (l1 ++ x :: nf :: d) (hd :: l1 ++ x :: d') q) in HC as [HL [Lq1 Lq2]]; [|rewrite Ed; cbn; by rewrite <- app_assoc].
    destruct (Nh q (In2 q G2)), (Nh nf (In2 nf G1)). assert (Nx : forall z, z ∈ nf :: d -> z <> x /\ z <> f).
    { intros z Hz. split; intros ->; [apply (NAB x); [rewrite <- Ec|]|apply (NAB f); [rewrite <- Ec|]]; done. }
    destruct (Nx q G2). apply (circle_close m' hd (nf :: d) (hd :: d') q); [by rewrite Ed|]. split; [|unfold m', link; lookups; done].
    cbn [links]. split; [unfold m', link; lookups; done|]. apply (links_frame m m' d' q nf d Ed).
    + intros z Hz. destruct (Nh z (In2 z (G5 z Hz))), (Nx z (G5 z Hz)). unfold m'. lookups. done.
    + intros z Hz. destruct (Nh z (In2 z (G6 z Hz))), (Nx z (G6 z Hz)). assert (z <> nf) by (by intros ->). unfold m'. lookups. done.
    + rewrite app_comm_cons in HL. apply links_pair in HL. tauto.
  - assert (W : forall z, z ∈ hd :: l1 ++ x :: l2 -> z ∈ lst :: hd :: l1 ++ x :: l2) by (intros z Hz; apply elem_of_cons; auto).
    outsides; try (by apply W); try (apply elem_of_cons; auto; fail); apply W, elem_of_cons; auto.
Qed.

(** ** The lists a memory holds *)

(** [L] maps the heads to their entries; no node is on two lists. *)
Record holds (m : list_mem) (L : gmap Z (list Z)) : Prop := {
  ho_circle hd l : L !! hd = Some l -> circle m (hd :: l); ho_nodup hd l : L !! hd = Some l -> NoDup (hd :: l);
  ho_disjoint hd l hd' l' z : L !! hd = Some l -> L !! hd' = Some l' -> z ∈ hd :: l -> z ∈ hd' :: l' -> hd = hd' }.

Definition unused (L : gmap Z (list Z)) (x : Z) : Prop := forall hd l, L !! hd = Some l -> x ∉ hd :: l.
Definition allocated (m : list_mem) (x : Z) : Prop := is_Some (nexts m !! x) /\ is_Some (prevs m !! x).

Lemma holds_forget m L hd : holds m L -> holds m (delete hd L).
Proof.
  intros [H1 H2 H3]. split.
  - intros h l Hl. apply lookup_delete_Some in Hl as [_ Hl]. by apply H1.
  - intros h l Hl. apply lookup_delete_Some in Hl as [_ Hl]. by apply H2.
  - intros h l h' l' z Hl Hl'. apply lookup_delete_Some in Hl as [_ Hl], Hl' as [_ Hl']. by apply (H3 h l h' l').
Qed.

Lemma unused_forget m L hd l z : holds m L -> L !! hd = Some l -> z ∈ hd :: l -> unused (delete hd L) z.
Proof.
  intros [_ _ H3] Hl Hz h l' Hl' Hz'. apply lookup_delete_Some in Hl' as [Hne Hl']. apply Hne. by apply (H3 hd l h l' z).
Qed.

(** The nodes of one list, and unused ones, are rearranged. *)
Lemma holds_put m m' L hd l F l' : holds m L -> L !! hd = Some l -> (forall z, z ∈ F -> unused L z) -> outside (F ++ hd :: l) m m' ->
  circle m' (hd :: l') -> NoDup (hd :: l') -> (forall z, z ∈ l' -> z ∈ F ++ l) -> holds m' (<[hd := l']> L).
Proof.
  intros [H1 H2 H3] Hl HF HO HC HN Hl'.
  assert (Hoff : forall h k z, L !! h = Some k -> h <> hd -> z ∈ h :: k -> z ∉ F ++ hd :: l).
  { intros h k z Hk Hne Hz Hc. apply elem_of_app in Hc as [Hc|Hc]; [by apply (HF z Hc h k)|]. apply Hne. by apply (H3 h k hd l z). }
  assert (Hin : forall z, z ∈ hd :: l' -> z ∈ F ++ hd :: l).
  { intros z Hz. apply elem_of_cons in Hz as [->|Hz]; [apply elem_of_app; right; apply elem_of_cons; auto|].
    apply Hl', elem_of_app in Hz as [Hz|Hz]; apply elem_of_app; [auto|right; apply elem_of_cons; auto]. }
  split.
  - intros h k Hk. apply lookup_insert_Some in Hk as [[<- <-]|[Hne Hk]]; [done|]. apply (circle_outside _ m m' _ HO); [|by apply H1]. intros z Hz. by apply (Hoff h k).
  - intros h k Hk. apply lookup_insert_Some in Hk as [[<- <-]|[Hne Hk]]; [done|]. by apply H2.
  - intros h k h' k' z Hk Hk' Hz Hz'. apply lookup_insert_Some in Hk as [[<- <-]|[Hne Hk]], Hk' as [[<- <-]|[Hne' Hk']]; [done| | |by apply (H3 h k h' k' z)].
    + exfalso. apply (Hoff h' k' z); auto.
    + exfalso. apply (Hoff h k z); auto.
Qed.

(** Nodes that form a circle of their own become a list. *)
Lemma holds_new m L hd l : holds m L -> circle m (hd :: l) -> NoDup (hd :: l) -> (forall z, z ∈ hd :: l -> unused L z) -> holds m (<[hd := l]> L).
Proof.
  intros [H1 H2 H3] HC HN HF. split.
  - intros h k Hk. apply lookup_insert_Some in Hk as [[<- <-]|[Hne Hk]]; [done|by apply H1].
  - intros h k Hk. apply lookup_insert_Some in Hk as [[<- <-]|[Hne Hk]]; [done|by apply H2].
  - intros h k h' k' z Hk Hk' Hz Hz'. apply lookup_insert_Some in Hk as [[<- <-]|[Hne Hk]], Hk' as [[<- <-]|[Hne' Hk']]; [done| | |by apply (H3 h k h' k' z)].
    + by destruct (HF z Hz h' k').
    + by destruct (HF z Hz' h k).
Qed.

(** Memory outside the lists does not matter. *)
Lemma holds_outside m m' L F : holds m L -> outside F m m' -> (forall z, z ∈ F -> unused L z) -> holds m' L.
Proof.
  intros [H1 H2 H3] HO HF. split; [|done|done]. intros hd l Hl. apply (circle_outside _ m m' _ HO); [|by apply H1]. intros z Hz Hc. by apply (HF z Hc hd l).
Qed.

Lemma holds_alloc m L hd l z : holds m L -> L !! hd = Some l -> z ∈ hd :: l -> allocated m z.
Proof. intros H Hl Hz. apply (circle_alloc m (hd :: l)); [by apply (ho_circle _ _ H)|done]. Qed.

Lemma outside_allocated F m m' z : outside F m m' -> allocated m' z <-> allocated m z.
Proof. intros [_ _ A]. unfold allocated. destruct (A z). tauto. Qed.

(** A circle may be entered at any of its nodes. *)
Lemma holds_rekey m L hd l1 x l2 : holds m L -> L !! hd = Some (l1 ++ x :: l2) -> holds m (<[x := l2 ++ hd :: l1]> (delete hd L)).
Proof.
  intros H Hl. assert (P : hd :: l1 ++ x :: l2 ≡ₚ x :: l2 ++ hd :: l1) by (rewrite <- (Permutation_middle l1), <- (Permutation_middle l2), (Permutation_app_comm l1); constructor).
  apply holds_new; [by apply holds_forget| | |].
  - apply (circle_rotate m (hd :: l1) (x :: l2)), (ho_circle _ _ H _ _ Hl).
  - rewrite <- P. exact (ho_nodup _ _ H _ _ Hl).
  - intros z Hz. apply (unused_forget m L hd _ z H Hl). by rewrite P.
Qed.

(** ** What the reads return *)

Section Reads.
Context {m : list_mem} {L : gmap Z (list Z)} (H : holds m L).

Lemma holds_next {hd l} : L !! hd = Some l -> get_next m hd = Ok (default hd (head l)).
Proof.
  intros Hl. destruct (circle_neighbours _ _ _ (ho_circle _ _ H _ _ Hl)) as (n & p & [L1 _] & _ & -> & _).
  unfold get_next. by rewrite L1.
Qed.

Lemma holds_prev {hd l} : L !! hd = Some l -> get_prev m hd = Ok (default hd (last l)).
Proof.
  intros Hl. destruct (circle_neighbours _ _ _ (ho_circle _ _ H _ _ Hl)) as (n & p & _ & [_ L2] & _ & ->).
  unfold get_prev. by rewrite L2.
Qed.

Lemma head_ne {hd l} : L !! hd = Some l -> hd ∉ l.
Proof. intros Hl. by apply NoDup_cons, (ho_nodup _ _ H _ _ Hl). Qed.

Lemma holds_empty {hd l} : L !! hd = Some l -> list_empty m hd = Ok (bool_decide (l = [])).
Proof.
  intros Hl. unfold list_empty. rewrite (holds_next Hl). cbn [res_bind]. f_equal. pose proof (head_ne Hl) as Hn.
  destruct l as [|x l]; [apply Z.eqb_refl|]. cbn. apply Z.eqb_neq. intros ->. apply Hn, elem_of_cons; auto.
Qed.

Lemma holds_singular {hd l} : L !! hd = Some l -> list_is_singular m hd = Ok (bool_decide (length l = 1%nat)).
Proof.
  intros Hl. unfold list_is_singular. rewrite (holds_next Hl), (holds_prev Hl). cbn [res_bind]. f_equal. pose proof (ho_nodup _ _ H _ _ Hl) as HN.
  destruct l as [|x l]; [cbn; by rewrite Z.eqb_refl|]. apply NoDup_cons in HN as [Hn HN]. apply NoDup_cons in HN as [Hx _]. cbn [head from_option id].
  assert (x <> hd) by (intros ->; apply Hn, elem_of_cons; auto). rewrite (proj2 (Z.eqb_neq x hd)) by done. cbn [negb andb].
  destruct l as [|y l _] using rev_ind; [cbn; by rewrite Z.eqb_refl|]. rewrite app_comm_cons, last_snoc. cbn [from_option id].
  rewrite bool_decide_eq_false_2 by (cbn; rewrite length_app; cbn; lia). apply Z.eqb_neq. intros ->. apply Hx, elem_of_app; right. by apply list_elem_of_singleton.
Qed.

(** The node after an entry: the next entry or the head. *)
Lemma holds_entry_next {hd l1 x l2} : L !! hd = Some (l1 ++ x :: l2) -> get_next m x = Ok (default hd (head l2)).
Proof.
  intros Hl. pose proof (holds_rekey m L hd l1 x l2 H Hl) as H'.
  destruct (circle_neighbours m x (l2 ++ hd :: l1)) as (n & p & [L1 _] & _ & -> & _); [apply (ho_circle _ _ H'); apply lookup_insert_eq|].
  unfold get_next. rewrite L1. by destruct l2.
Qed.

Lemma holds_entry_prev {hd l1 x l2} : L !! hd = Some (l1 ++ x :: l2) -> get_prev m x = Ok (default hd (last l1)).
Proof.
  intros Hl. pose proof (holds_rekey m L hd l1 x l2 H Hl) as H'.
  destruct (circle_neighbours m x (l2 ++ hd :: l1)) as (n & p & _ & [_ L2] & _ & ->); [apply (ho_circle _ _ H'); apply lookup_insert_eq|].
  unfold get_prev. rewrite L2. destruct l1 as [|y l1 _] using rev_ind; [by rewrite last_snoc|]. by rewrite app_comm_cons, app_assoc, !last_snoc.
Qed.

(** Following the next pointers from an entry meets the rest of the list, then the head. *)
Lemma walk_ok {hd l1 l2} fuel : L !! hd = Some (l1 ++ l2) -> (length l2 <= fuel)%nat -> walk fuel m (default hd (head l2)) hd = Ok l2.
Proof.
  revert l1 l2. induction fuel as [|fuel IH]; intros l1 l2 Hl Hf; (destruct l2 as [|x l2]; [cbn; by rewrite Z.eqb_refl|]); [cbn in Hf; lia|].
  cbn [head from_option id walk]. assert (x <> hd) by (intros ->; apply (head_ne Hl), elem_of_app; right; apply elem_of_cons; auto).
  rewrite (proj2 (Z.eqb_neq x hd)) by done. rewrite (holds_entry_next Hl). cbn [res_bind].
  rewrite (IH (l1 ++ [x]) l2); [done|by rewrite <- app_assoc|cbn in Hf; lia].
Qed.

(** There are more nodes than entries. *)
Lemma holds_size {hd l} : L !! hd = Some l -> (length l < size (nexts m))%nat.
Proof.
  intros Hl. pose proof (ho_nodup _ _ H _ _ Hl) as HN. assert (E : length (hd :: l) = S (length l)) by done. revert E.
  rewrite <- (size_dom (D := gset Z)), <- (size_list_to_set (C := gset Z) (hd :: l) HN). intros E. cut (size (list_to_set (hd :: l) : gset Z) <= size (dom (nexts m)))%nat; [lia|].
  apply subseteq_size. intros z Hz. apply elem_of_list_to_set in Hz. apply elem_of_dom. by apply (circle_alloc m (hd :: l) z (ho_circle _ _ H _ _ Hl)).
Qed.

Lemma for_each_ok {hd l} : L !! hd = Some l -> list_for_each m hd = Ok l.
Proof.
  intros Hl. unfold list_for_each. rewrite (holds_next Hl). cbn [res_bind]. apply (walk_ok (l1 := [])); [done|]. pose proof (holds_size Hl). lia.
Qed.

Lemma holds_first_last {hd l1 x l2} : L !! hd = Some (l1 ++ x :: l2) -> list_is_first m x hd = Ok (bool_decide (l1 = [])) /\ list_is_last m x hd = Ok (bool_decide (l2 = [])).
Proof.
  intros Hl. unfold list_is_first, list_is_last. rewrite (holds_entry_prev Hl), (holds_entry_next Hl). cbn [res_bind]. pose proof (head_ne Hl) as Hn. rewrite elem_of_app, elem_of_cons in Hn.
  split; f_equal.
  - destruct l1 as [|y l1 _] using rev_ind; [apply Z.eqb_refl|]. rewrite last_snoc, bool_decide_eq_false_2 by (by destruct l1). apply Z.eqb_neq. cbn.
    intros ->. apply Hn. left. apply elem_of_app; right. by apply list_elem_of_singleton.
  - destruct l2 as [|y l2]; [apply Z.eqb_refl|]. cbn. apply Z.eqb_neq. intros ->. apply Hn. right; right. apply elem_of_cons; auto.
Qed.
End Reads.

(** ** The operations on lists *)

Definition same_nodes (m m' : list_mem) : Prop := forall z, allocated m' z <-> allocated m z.

(** [r], run on [m], succeeds and leaves the lists [L']. *)
Definition runs (r : res list_mem) (m : list_mem) (L' : gmap Z (list Z)) : Prop := exists m', r = Ok m' /\ holds m' L' /\ same_nodes m m'.

Lemma outside_same F m m' : outside F m m' -> same_nodes m m'.
Proof. intros HO z. by apply (outside_allocated F). Qed.

Lemma runs_ret m L : holds m L -> runs (Ok m) m L.
Proof. intros H. by exists m. Qed.

Lemma runs_bind r m L1 L2 k : runs r m L1 -> (forall m1, holds m1 L1 -> same_nodes m m1 -> runs (k m1) m1 L2) -> runs (res_bind r k) m L2.
Proof.
  intros (m1 & -> & H1 & S1) Hk. destruct (Hk m1 H1 S1) as (m2 & E2 & H2 & S2). exists m2. split; [done|]. split; [done|]. intros z. by rewrite (S2 z).
Qed.

Section Steps.
Context {m : list_mem} {L : gmap Z (list Z)} (H : holds m L).

Lemma init_step x : unused L x -> allocated m x -> runs (INIT_LIST_HEAD m x) m (<[x := []]> L).
Proof.
  intros Hu [An Ap]. destruct (init_circle m x An Ap) as (m' & E & HC & HO). exists m'. split; [done|]. split; [|by apply (outside_same [x])].
  assert (HF : forall z, z ∈ [x] -> unused L z) by (intros z Hz; by apply list_elem_of_singleton in Hz as ->).
  apply holds_new; [by apply (holds_outside m m' L [x])|done|apply NoDup_singleton|done].
Qed.

(** An unused node enters a list. *)
Lemma entry_step r new hd l l' : L !! hd = Some l -> unused L new -> l' ≡ₚ new :: l ->
  (exists m', r = Ok m' /\ circle m' (hd :: l') /\ outside (new :: hd :: l) m m') -> runs r m (<[hd := l']> L).
Proof.
  intros Hl Hu P (m' & E & HC & HO). exists m'. split; [done|]. split; [|by apply (outside_same _ _ _ HO)].
  apply (holds_put m m' L hd l [new]); try done.
  - intros z Hz. by apply list_elem_of_singleton in Hz as ->.
  - rewrite P, perm_swap. apply NoDup_cons. split; [by apply Hu|exact (ho_nodup _ _ H _ _ Hl)].
  - intros z. by rewrite P.
Qed.

Lemma add_tail_step new hd l : L !! hd = Some l -> unused L new -> allocated m new -> runs (list_add_tail m new hd) m (<[hd := l ++ [new]]> L).
Proof.
  intros Hl Hu [An Ap]. apply (entry_step _ new hd l); [done|done|by rewrite Permutation_app_comm|].
  unfold list_add_tail. rewrite (holds_prev H Hl). cbn [res_bind]. assert (HC := ho_circle _ _ H _ _ Hl). assert (HN := ho_nodup _ _ H _ _ Hl).
  destruct (snoc_exists hd l) as (a & p & E). replace (default hd (last l)) with p; [apply (add_circle m new hd l a p); try done; by apply Hu|].
  destruct l as [|y l _] using rev_ind; [destruct a as [|? [|]]; cbn in *; congruence|]. rewrite last_snoc, app_comm_cons in *. by apply app_inj_tail in E as [_ ->].
Qed.

Lemma add_step new hd l : L !! hd = Some l -> unused L new -> allocated m new -> runs (list_add m new hd) m (<[hd := new :: l]> L).
Proof.
  intros Hl Hu [An Ap]. apply (entry_step _ new hd l); [done|done|done|].
  unfold list_add. rewrite (holds_next H Hl). cbn [res_bind]. assert (HC := ho_circle _ _ H _ _ Hl). assert (HN := ho_nodup _ _ H _ _ Hl).
  pose proof (Hu hd l Hl) as Hn. destruct l as [|n b]; [by apply (add_circle m new hd [] [] hd)|]. cbn [head from_option id].
  assert (P : n :: b ++ [hd] ≡ₚ hd :: n :: b) by (rewrite app_comm_cons; apply Permutation_app_comm).
  destruct (add_circle m new n (b ++ [hd]) (n :: b) hd) as (m' & E & HC' & HO); [done|by apply (circle_rotate m [hd] (n :: b))|by rewrite P|by rewrite P|done|done|].
  exists m'. split; [done|]. split; [|apply (outside_weaken (new :: n :: b ++ [hd])); [intros z; by rewrite P|done]].
  rewrite <- app_assoc in HC'. by apply (circle_rotate m' (n :: b) [hd; new]) in HC'.
Qed.

(** An entry leaves its list; its own pointers stay as they were. *)
Lemma del_step x hd l1 l2 : L !! hd = Some (l1 ++ x :: l2) -> runs (__list_del_entry m x) m (<[hd := l1 ++ l2]> L).
Proof.
  intros Hl. assert (HC := ho_circle _ _ H _ _ Hl). assert (HN := ho_nodup _ _ H _ _ Hl).
  apply (circle_rotate m (hd :: l1) (x :: l2)) in HC. cbn [app] in HC.
  assert (P : x :: l2 ++ hd :: l1 ≡ₚ hd :: l1 ++ x :: l2) by (rewrite <- (Permutation_middle l2), (Permutation_app_comm l2), perm_swap; constructor; apply Permutation_middle).
  assert (Q : l2 ++ hd :: l1 ≡ₚ hd :: l1 ++ l2) by (rewrite <- (Permutation_middle l2); constructor; apply Permutation_app_comm).
  destruct (l2 ++ hd :: l1) as [|n b] eqn:E; [by destruct l2|]. destruct (snoc_exists n b) as (a & p & Ea).
  destruct (del_circle m x n b a p Ea HC) as (m' & Er & HC' & HO); [by rewrite P|]. exists m'. split; [done|]. split; [|by apply (outside_same _ _ _ HO)].
  apply (holds_put m m' L hd (l1 ++ x :: l2) []); try done; [by intros z ?%elem_of_nil| | | |].
  - apply (outside_weaken (n :: b)); [|done]. intros z Hz. rewrite <- P. by apply elem_of_cons; right.
  - rewrite <- E in HC'. by apply (circle_rotate m' l2 (hd :: l1)) in HC'.
  - rewrite <- P in HN. apply NoDup_cons in HN as [_ HN]. by rewrite <- Q.
  - intros z. cbn [app]. rewrite !elem_of_app, elem_of_cons. tauto.
Qed.

Lemma removed_unused x hd l1 l2 : L !! hd = Some (l1 ++ x :: l2) -> unused (<[hd := l1 ++ l2]> L) x.
Proof.
  intros Hl h k Hk Hz. assert (HN := ho_nodup _ _ H _ _ Hl). assert (Hx : x ∈ hd :: l1 ++ x :: l2) by (rewrite elem_of_cons, elem_of_app, elem_of_cons; auto).
  apply lookup_insert_Some in Hk as [[<- <-]|[Hne Hk]]; [|by apply Hne, (ho_disjoint _ _ H hd (l1 ++ x :: l2) h k x)].
  rewrite <- Permutation_middle, perm_swap in HN. by apply NoDup_cons in HN as [HN _].
Qed.

Lemma entry_alloc x hd l1 l2 : L !! hd = Some (l1 ++ x :: l2) -> allocated m x.
Proof. intros Hl. apply (holds_alloc m L hd _ x H Hl). rewrite elem_of_cons, elem_of_app, elem_of_cons. auto. Qed.

(** The entries of [lst] join another list, where it is cut into [a] and [b]; the head [lst] is left as it was. *)
Lemma splice_step lst hd f c a b : L !! lst = Some (f :: c) -> L !! hd = Some (a ++ b) -> lst <> hd ->
  runs (__list_splice m lst (default hd (last a)) (default hd (head b))) m (<[hd := a ++ (f :: c) ++ b]> (delete lst L)).
Proof.
  intros Hs Hl Hne. assert (HC := ho_circle _ _ H _ _ Hl). assert (HC2 := ho_circle _ _ H _ _ Hs). assert (HN := ho_nodup _ _ H _ _ Hl). assert (HN2 := ho_nodup _ _ H _ _ Hs).
  apply (circle_rotate m (hd :: a) b) in HC. assert (P : b ++ hd :: a ≡ₚ hd :: a ++ b) by (rewrite <- (Permutation_middle b), (Permutation_app_comm b); done).
  assert (HD : forall z, z ∈ hd :: a ++ b -> z ∉ lst :: f :: c) by (intros z Hz Hz'; apply Hne; by apply (ho_disjoint _ _ H lst (f :: c) hd (a ++ b) z)).
  destruct (snoc_exists f c) as (d & q & Ed). rewrite <- P in HN.
  assert (Ex : exists n e e', b ++ hd :: a = n :: e /\ n :: e = e' ++ [default hd (last a)] /\ n = default hd (head b)).
  { destruct b as [|n b]; destruct a as [|y a _] using rev_ind.
    - by exists hd, [], []. 
    - exists hd, (a ++ [y]), (hd :: a). rewrite last_snoc. done.
    - exists n, (b ++ [hd]), (n :: b). done.
    - exists n, (b ++ hd :: a ++ [y]), (n :: b ++ hd :: a). rewrite last_snoc. split; [done|]. split; [cbn; by rewrite <- app_assoc|done]. }
  destruct Ex as (n & e & e' & Ee & Ee' & En). rewrite Ee in HC, HN, P. rewrite <- En.
  destruct (splice_circle m n e e' _ lst f c d q Ee' Ed HC HC2 HN HN2) as (m' & Er & HC' & HO); [intros z; rewrite P; apply HD|].
  assert (Q : n :: e ++ f :: c ≡ₚ (f :: c) ++ hd :: a ++ b) by (rewrite app_comm_cons, P; apply Permutation_app_comm).
  exists m'. split; [done|]. split; [|by apply (outside_same _ _ _ HO)].
  apply (holds_put m m' (delete lst L) hd (a ++ b) (f :: c)).
  - by apply holds_forget.
  - by rewrite lookup_delete_ne.
  - intros z Hz. apply (unused_forget m L lst (f :: c) z H Hs). by apply elem_of_cons; right.
  - apply (outside_weaken (n :: e ++ f :: c)); [|done]. intros z. by rewrite Q.
  - rewrite app_comm_cons, <- Ee, <- app_assoc in HC'. apply (circle_rotate m' b) in HC'. by rewrite <- !app_assoc in HC'.
  - apply NoDup_cons in HN2 as [Hn2 HN2]. replace (hd :: a ++ (f :: c) ++ b) with ((hd :: a) ++ (f :: c) ++ b) by done.
    rewrite (Permutation_app_comm (f :: c)), app_assoc. change ((hd :: a) ++ b) with (hd :: a ++ b). rewrite <- P. apply NoDup_app. split; [done|]. split; [|done].
    intros z Hz Hc. rewrite P in Hz. apply (HD z Hz). by apply elem_of_cons; right.
  - intros z. rewrite !elem_of_app. tauto.
Qed.

(** Another node takes the place of a head, an entry ([replace_entry_step]) by re-entering the circle there. *)
Lemma replace_head_step old new l : L !! old = Some l -> unused L new -> allocated m new -> runs (list_replace m old new) m (<[new := l]> (delete old L)).
Proof.
  intros Hl Hu [An Ap]. assert (HC := ho_circle _ _ H _ _ Hl). assert (HN := ho_nodup _ _ H _ _ Hl).
  destruct (replace_circle m old new l HC HN (Hu _ _ Hl) An Ap) as (m' & E & HC' & HO). exists m'. split; [done|]. split; [|by apply (outside_same _ _ _ HO)].
  assert (HF : forall z, z ∈ new :: old :: l -> unused (delete old L) z).
  { intros z Hz. apply elem_of_cons in Hz as [->|Hz]; [|by apply (unused_forget m L old l)]. intros h k Hk. apply lookup_delete_Some in Hk as [_ Hk]. by apply Hu. }
  apply holds_new; [|done| |].
  - apply (holds_outside m m' _ (new :: old :: l)); [by apply holds_forget|done|done].
  - apply NoDup_cons in HN as [_ HN]. apply NoDup_cons. split; [|done]. intros Hc. apply (Hu _ _ Hl), elem_of_cons; auto.
  - intros z Hz. apply HF. rewrite !elem_of_cons in *. tauto.
Qed.

(** A list is cut after the entry [x]. *)
Lemma cut_step lst hd l1 x l2 : L !! hd = Some (l1 ++ x :: l2) -> unused L lst -> allocated m lst ->
  runs (__list_cut_position m lst hd x) m (<[lst := l1 ++ [x]]> (<[hd := l2]> L)).
Proof.
  intros Hl Hu [An Ap]. assert (HC := ho_circle _ _ H _ _ Hl). assert (HN := ho_nodup _ _ H _ _ Hl).
  destruct (cut_circle m lst hd l1 x l2 HC HN (Hu _ _ Hl) An Ap) as (m' & E & HC1 & HC2 & HO). exists m'. split; [done|]. split; [|by apply (outside_same _ _ _ HO)].
  assert (HN' : NoDup (l1 ++ [x]) /\ NoDup (hd :: l2) /\ (forall z, z ∈ l1 ++ [x] -> z ∉ hd :: l2)).
  { rewrite cons_middle, app_assoc in HN. apply NoDup_cons in HN as [Hh HN]. apply NoDup_app in HN as (N1 & N3 & N2). split; [done|]. rewrite elem_of_app in Hh.
    split; [apply NoDup_cons; tauto|]. intros z Hz Hc. apply elem_of_cons in Hc as [->|Hc]; [tauto|by apply (N3 z)]. }
  destruct HN' as (N1 & N2 & N3). apply holds_new; [|done| |].
  - apply (holds_put m m' L hd (l1 ++ x :: l2) [lst]); try done.
    + intros z Hz. by apply list_elem_of_singleton in Hz as ->.
    + intros z. rewrite !elem_of_app, !elem_of_cons. tauto.
  - apply NoDup_cons. split; [|done]. intros Hc. apply (Hu _ _ Hl). rewrite elem_of_app, list_elem_of_singleton in Hc. rewrite elem_of_cons, elem_of_app, elem_of_cons. tauto.
  - intros z Hz h k Hk. apply elem_of_cons in Hz as [->|Hz].
    + apply lookup_insert_Some in Hk as [[<- <-]|[_ Hk]]; [|by apply Hu]. intros Hc. apply (Hu _ _ Hl). apply elem_of_cons in Hc. rewrite elem_of_cons, elem_of_app, elem_of_cons. tauto.
    + apply lookup_insert_Some in Hk as [[<- <-]|[Hne Hk]]; [by apply N3|]. intros Hc. apply Hne. apply (ho_disjoint _ _ H hd (l1 ++ x :: l2) h k z Hl Hk); [|done].
      rewrite elem_of_app, list_elem_of_singleton in Hz. rewrite elem_of_cons, elem_of_app, elem_of_cons. tauto.
Qed.
End Steps.

(** ** The operations as one machine *)

Inductive lop :=
| Init (x : Z) | Add (new hd : Z) | AddTail (new hd : Z) | Del (x : Z) | DelInit (x : Z) | Move (x hd : Z) | MoveTail (x hd : Z)
| RotateLeft (hd : Z) | RotateToFront (x hd : Z) | Splice (lst hd : Z) | SpliceTail (lst hd : Z) | SpliceInit (lst hd : Z) | SpliceTailInit (lst hd : Z)
| CutPosition (lst hd x : Z) | CutBefore (lst hd x : Z) | Replace (old new : Z) | ReplaceInit (old new : Z).

Definition run_op (m : list_mem) (o : lop) : res list_mem :=
  match o with
  | Init x => INIT_LIST_HEAD m x
  | Add new hd => list_add m new hd
  | AddTail new hd => list_add_tail m new hd
  | Del x => list_del m x
  | DelInit x => list_del_init m x
  | Move x hd => list_move m x hd
  | MoveTail x hd => list_move_tail m x hd
  | RotateLeft hd => list_rotate_left m hd
  | RotateToFront x hd => list_rotate_to_front m x hd
  | Splice lst hd => list_splice m lst hd
  | SpliceTail lst hd => list_splice_tail m lst hd
  | SpliceInit lst hd => list_splice_init m lst hd
  | SpliceTailInit lst hd => list_splice_tail_init m lst hd
  | CutPosition lst hd x => list_cut_position m lst hd x
  | CutBefore lst hd x => list_cut_before m lst hd x
  | Replace old new => list_replace m old new
  | ReplaceInit old new => list_replace_init m old new
  end.

Fixpoint run_ops (m : list_mem) (os : list lop) : res list_mem :=
  match os with o :: os => m <-- run_op m o; run_ops m os | [] => Ok m end.

(** A node that is on no list, or the head of an empty one. *)
Definition detached (L : gmap Z (list Z)) (x : Z) : Prop := L !! x = Some [] \/ unused L x.

(** What each operation means for the lists, when its arguments are what the source expects; [A] are the nodes that exist. *)
Inductive lspec (A : Z -> Prop) (L : gmap Z (list Z)) : lop -> gmap Z (list Z) -> Prop :=
| sp_init x : A x -> detached L x -> lspec A L (Init x) (<[x := []]> L)
| sp_add new hd l : A new -> detached L new -> new <> hd -> L !! hd = Some l -> lspec A L (Add new hd) (<[hd := new :: l]> (delete new L))
| sp_add_tail new hd l : A new -> detached L new -> new <> hd -> L !! hd = Some l -> lspec A L (AddTail new hd) (<[hd := l ++ [new]]> (delete new L))
| sp_del x hd l1 l2 : L !! hd = Some (l1 ++ x :: l2) -> lspec A L (Del x) (<[hd := l1 ++ l2]> L)
| sp_del_init x hd l1 l2 : L !! hd = Some (l1 ++ x :: l2) -> lspec A L (DelInit x) (<[x := []]> (<[hd := l1 ++ l2]> L))
| sp_move x hd l1 l2 hd' l : L !! hd = Some (l1 ++ x :: l2) -> <[hd := l1 ++ l2]> L !! hd' = Some l -> lspec A L (Move x hd') (<[hd' := x :: l]> (<[hd := l1 ++ l2]> L))
| sp_move_tail x hd l1 l2 hd' l : L !! hd = Some (l1 ++ x :: l2) -> <[hd := l1 ++ l2]> L !! hd' = Some l -> lspec A L (MoveTail x hd') (<[hd' := l ++ [x]]> (<[hd := l1 ++ l2]> L))
| sp_rotate_left_nil hd : L !! hd = Some [] -> lspec A L (RotateLeft hd) L
| sp_rotate_left hd x l : L !! hd = Some (x :: l) -> lspec A L (RotateLeft hd) (<[hd := l ++ [x]]> L)
| sp_rotate_to_front x hd l1 l2 : L !! hd = Some (l1 ++ x :: l2) -> lspec A L (RotateToFront x hd) (<[hd := x :: l2 ++ l1]> L)
| sp_splice_nil o lst hd : o ∈ [Splice lst hd; SpliceTail lst hd; SpliceInit lst hd; SpliceTailInit lst hd] -> L !! lst = Some [] -> lspec A L o L
| sp_splice lst hd f c l : L !! lst = Some (f :: c) -> L !! hd = Some l -> lst <> hd -> lspec A L (Splice lst hd) (<[hd := f :: c ++ l]> (delete lst L))
| sp_splice_tail lst hd f c l : L !! lst = Some (f :: c) -> L !! hd = Some l -> lst <> hd -> lspec A L (SpliceTail lst hd) (<[hd := l ++ f :: c]> (delete lst L))
| sp_splice_init lst hd f c l : L !! lst = Some (f :: c) -> L !! hd = Some l -> lst <> hd -> lspec A L (SpliceInit lst hd) (<[lst := []]> (<[hd := f :: c ++ l]> L))
| sp_splice_tail_init lst hd f c l : L !! lst = Some (f :: c) -> L !! hd = Some l -> lst <> hd -> lspec A L (SpliceTailInit lst hd) (<[lst := []]> (<[hd := l ++ f :: c]> L))
| sp_cut_nil lst hd x : L !! hd = Some [] -> lspec A L (CutPosition lst hd x) L
| sp_cut_head lst hd f l : A lst -> detached L lst -> L !! hd = Some (f :: l) -> lspec A L (CutPosition lst hd hd) (<[lst := []]> L)
| sp_cut lst hd l1 x l2 : A lst -> detached L lst -> L !! hd = Some (l1 ++ x :: l2) -> lspec A L (CutPosition lst hd x) (<[lst := l1 ++ [x]]> (<[hd := l2]> L))
| sp_cut_before lst hd l1 l2 : A lst -> detached L lst -> lst <> hd -> L !! hd = Some (l1 ++ l2) -> lspec A L (CutBefore lst hd (default hd (head l2))) (<[lst := l1]> (<[hd := l2]> L))
| sp_replace_head old new l : A new -> detached L new -> new <> old -> L !! old = Some l -> lspec A L (Replace old new) (<[new := l]> (delete old L))
| sp_replace old new hd l1 l2 : A new -> detached L new -> new <> hd -> L !! hd = Some (l1 ++ old :: l2) -> lspec A L (Replace old new) (<[hd := l1 ++ new :: l2]> (delete new L))
| sp_replace_init_head old new l : A new -> detached L new -> new <> old -> L !! old = Some l -> lspec A L (ReplaceInit old new) (<[old := []]> (<[new := l]> L))
| sp_replace_init old new hd l1 l2 : A new -> detached L new -> new <> hd -> L !! hd = Some (l1 ++ old :: l2) ->
    lspec A L (ReplaceInit old new) (<[old := []]> (<[hd := l1 ++ new :: l2]> (delete new L))).

Inductive lspecs (A : Z -> Prop) : gmap Z (list Z) -> list lop -> gmap Z (list Z) -> Prop :=
| sps_nil L : lspecs A L [] L
| sps_cons L o L1 os L2 : lspec A L o L1 -> lspecs A L1 os L2 -> lspecs A L (o :: os) L2.

(** Equality of maps built by a few updates of the same one. *)
Ltac maps := apply map_eq; intros ?; repeat first [rewrite lookup_insert | rewrite lookup_delete]; repeat case_decide; simplify_eq; first [done | congruence | idtac].

Section Refinement.
Context {A : Z -> Prop} {m : list_mem} {L : gmap Z (list Z)} (H : holds m L) (HA : forall x, A x -> allocated m x).

(** A detached node can be taken off the books. *)
Lemma detached_forget x : detached L x -> holds m (delete x L) /\ unused (delete x L) x.
Proof.
  intros Hd. split; [by apply holds_forget|]. destruct Hd as [Hl|Hu].
  - apply (unused_forget m L x [] x H Hl), elem_of_cons; auto.
  - intros h l Hl. apply lookup_delete_Some in Hl as [_ Hl]. by apply Hu.
Qed.

Lemma detached_other x hd y l : detached L x -> L !! hd = Some (y :: l) -> x <> hd.
Proof. intros [Hx|Hx] Hl ->; [congruence|]. apply (Hx _ _ Hl), elem_of_cons; auto. Qed.

Lemma entry_not_head x hd l1 l2 : L !! hd = Some (l1 ++ x :: l2) -> L !! x = None /\ x <> hd.
Proof.
  intros Hl. assert (Hx : x ∈ l1 ++ x :: l2) by (rewrite elem_of_app, elem_of_cons; auto). assert (x <> hd) by (intros ->; by apply (head_ne H Hl)). split; [|done].
  destruct (L !! x) as [l|] eqn:E; [|done]. assert (hd = x); [|congruence]. apply (ho_disjoint _ _ H hd (l1 ++ x :: l2) x l x Hl E); apply elem_of_cons; auto.
Qed.

Lemma runs_mono r L1 L2 : runs r m L1 -> (forall m', holds m' L1 -> holds m' L2) -> runs r m L2.
Proof. intros (m' & E & H1 & S1) HL. exists m'. auto. Qed.

Lemma runs_init x : A x -> detached L x -> runs (INIT_LIST_HEAD m x) m (<[x := []]> L).
Proof. intros Hx Hd. destruct (detached_forget x Hd) as [H' Hu]. rewrite <- insert_delete_eq. apply (init_step H' x Hu (HA x Hx)). Qed.

Lemma runs_add new hd l : A new -> detached L new -> new <> hd -> L !! hd = Some l -> runs (list_add m new hd) m (<[hd := new :: l]> (delete new L)).
Proof. intros Hx Hd Hne Hl. destruct (detached_forget new Hd) as [H' Hu]. apply (add_step H' new hd l); [by rewrite lookup_delete_ne|done|auto]. Qed.

Lemma runs_add_tail new hd l : A new -> detached L new -> new <> hd -> L !! hd = Some l -> runs (list_add_tail m new hd) m (<[hd := l ++ [new]]> (delete new L)).
Proof. intros Hx Hd Hne Hl. destruct (detached_forget new Hd) as [H' Hu]. apply (add_tail_step H' new hd l); [by rewrite lookup_delete_ne|done|auto]. Qed.

Lemma runs_del x hd l1 l2 : L !! hd = Some (l1 ++ x :: l2) -> runs (list_del m x) m (<[hd := l1 ++ l2]> L).
Proof.
  intros Hl. eapply runs_bind; [by apply (del_step H x hd l1 l2)|]. intros m1 H1 S1.
  assert (Ha : allocated m1 x) by (by apply S1, (entry_alloc H x hd l1 l2)). destruct Ha as [An Ap].
  exists (put_prev x LIST_POISON2 (put_next x LIST_POISON1 m1)). split; [writes; done|].
  assert (HO : outside [x] m1 (put_prev x LIST_POISON2 (put_next x LIST_POISON1 m1))) by (outsides; by apply list_elem_of_singleton).
  split; [|by apply (outside_same [x])]. apply (holds_outside m1 _ _ [x] H1 HO). intros z Hz. apply list_elem_of_singleton in Hz as ->. by apply (removed_unused H).
Qed.

Lemma runs_del_init x hd l1 l2 : L !! hd = Some (l1 ++ x :: l2) -> runs (list_del_init m x) m (<[x := []]> (<[hd := l1 ++ l2]> L)).
Proof.
  intros Hl. eapply runs_bind; [by apply (del_step H x hd l1 l2)|]. intros m1 H1 S1.
  apply (init_step H1); [by apply (removed_unused H)|by apply S1, (entry_alloc H x hd l1 l2)].
Qed.

Lemma runs_move x hd l1 l2 hd' l : L !! hd = Some (l1 ++ x :: l2) -> <[hd := l1 ++ l2]> L !! hd' = Some l -> runs (list_move m x hd') m (<[hd' := x :: l]> (<[hd := l1 ++ l2]> L)).
Proof.
  intros Hl Hl'. eapply runs_bind; [by apply (del_step H x hd l1 l2)|]. intros m1 H1 S1.
  apply (add_step H1); [done|by apply (removed_unused H)|by apply S1, (entry_alloc H x hd l1 l2)].
Qed.

Lemma runs_move_tail x hd l1 l2 hd' l : L !! hd = Some (l1 ++ x :: l2) -> <[hd := l1 ++ l2]> L !! hd' = Some l -> runs (list_move_tail m x hd') m (<[hd' := l ++ [x]]> (<[hd := l1 ++ l2]> L)).
Proof.
  intros Hl Hl'. eapply runs_bind; [by apply (del_step H x hd l1 l2)|]. intros m1 H1 S1.
  apply (add_tail_step H1); [done|by apply (removed_unused H)|by apply S1, (entry_alloc H x hd l1 l2)].
Qed.

Lemma runs_rotate_left hd l : L !! hd = Some l -> runs (list_rotate_left m hd) m (<[hd := match l with x :: l => l ++ [x] | [] => [] end]> L).
Proof.
  intros Hl. unfold list_rotate_left. rewrite (holds_empty H Hl). cbn [res_bind]. destruct l as [|x l]; cbn [bool_decide].
  - rewrite bool_decide_eq_true_2 by done. rewrite insert_id by done. by apply runs_ret.
  - rewrite bool_decide_eq_false_2 by done. rewrite (holds_next H Hl). cbn [head from_option id res_bind].
    rewrite <- (insert_insert_eq L hd (l ++ [x]) l). apply (runs_move_tail x hd [] l hd l Hl). apply lookup_insert_eq.
Qed.

Lemma runs_rotate_to_front x hd l1 l2 : L !! hd = Some (l1 ++ x :: l2) -> runs (list_rotate_to_front m x hd) m (<[hd := x :: l2 ++ l1]> L).
Proof.
  intros Hl. destruct (entry_not_head x hd l1 l2 Hl) as [Hx Hne]. pose proof (holds_rekey m L hd l1 x l2 H Hl) as H'. unfold list_rotate_to_front, list_move_tail.
  eapply runs_bind; [apply (del_step H' hd x l2 l1); apply lookup_insert_eq|]. intros m1 H1 S1.
  destruct (add_tail_step H1 hd x (l2 ++ l1)) as (m2 & E & H2 & S2).
  - apply lookup_insert_eq.
  - apply (removed_unused H'), lookup_insert_eq.
  - apply S1, (holds_alloc m L hd _ hd H Hl), elem_of_cons; auto.
  - exists m2. split; [done|]. split; [|done]. pose proof (holds_rekey m2 _ x (l2 ++ l1) hd [] H2 (lookup_insert_eq _ _ _)) as H3.
    replace (<[hd := x :: l2 ++ l1]> L) with (<[hd := [] ++ x :: l2 ++ l1]> (delete x (<[x := (l2 ++ l1) ++ [hd]]> (<[x := l2 ++ l1]> (<[x := l2 ++ hd :: l1]> (delete hd L)))))); [done|maps].
Qed.

(** The four splices: where the entries go, and whether the old head is initialised. *)
Lemma runs_splice lst hd f c l : L !! lst = Some (f :: c) -> L !! hd = Some l -> lst <> hd ->
  runs (list_splice m lst hd) m (<[hd := f :: c ++ l]> (delete lst L)) /\ runs (list_splice_tail m lst hd) m (<[hd := l ++ f :: c]> (delete lst L)).
Proof.
  intros Hs Hl Hne. unfold list_splice, list_splice_tail. rewrite (holds_empty H Hs), (holds_next H Hl), (holds_prev H Hl). cbn [res_bind].
  rewrite bool_decide_eq_false_2 by done. split.
  - apply (splice_step H lst hd f c [] l); done.
  - rewrite <- (app_nil_r (f :: c)). apply (splice_step H lst hd f c l []); [done|by rewrite app_nil_r|done].
Qed.

Lemma spliced_init r lst hd l l' : runs r m (<[hd := l']> (delete lst L)) -> L !! lst = Some l -> lst <> hd -> (forall z, z ∈ l' -> z <> lst) ->
  runs (m <-- r; INIT_LIST_HEAD m lst) m (<[lst := []]> (<[hd := l']> L)).
Proof.
  intros HR Hs Hne Hl'. replace (<[lst := []]> (<[hd := l']> L)) with (<[lst := []]> (<[hd := l']> (delete lst L))) by maps.
  eapply runs_bind; [exact HR|]. intros m1 H1 S1. apply (init_step H1); [|by apply S1, (holds_alloc m L lst l lst H Hs), elem_of_cons; auto].
  intros h k Hk Hz. apply lookup_insert_Some in Hk as [[<- <-]|[_ Hk]].
  - apply elem_of_cons in Hz as [->|Hz]; [done|]. by apply (Hl' lst).
  - by apply (unused_forget m L lst l lst H Hs ltac:(apply elem_of_cons; auto) h k).
Qed.

Lemma runs_splice_init lst hd f c l : L !! lst = Some (f :: c) -> L !! hd = Some l -> lst <> hd ->
  runs (list_splice_init m lst hd) m (<[lst := []]> (<[hd := f :: c ++ l]> L)) /\ runs (list_splice_tail_init m lst hd) m (<[lst := []]> (<[hd := l ++ f :: c]> L)).
Proof.
  intros Hs Hl Hne. destruct (runs_splice lst hd f c l Hs Hl Hne) as [R1 R2].
  assert (N : forall z, z ∈ f :: c \/ z ∈ l -> z <> lst).
  { intros z [Hz|Hz] ->; [by apply (head_ne H Hs)|]. apply Hne. apply (ho_disjoint _ _ H lst (f :: c) hd l lst Hs Hl); apply elem_of_cons; auto. }
  unfold list_splice, list_splice_tail, list_splice_init, list_splice_tail_init in *. rewrite (holds_empty H Hs), (holds_next H Hl), (holds_prev H Hl) in *. cbn [res_bind] in *.
  rewrite bool_decide_eq_false_2 in * by done. split; apply (spliced_init _ lst hd (f :: c)); try done; intros z; rewrite app_comm_cons || idtac; rewrite elem_of_app; intros Hz; apply N; tauto.
Qed.

Lemma splice_nil_runs o lst hd : o ∈ [Splice lst hd; SpliceTail lst hd; SpliceInit lst hd; SpliceTailInit lst hd] -> L !! lst = Some [] -> runs (run_op m o) m L.
Proof.
  intros Ho Hs. rewrite !elem_of_cons, elem_of_nil in Ho. destruct Ho as [->|[->|[->|[->|[]]]]]; cbn [run_op];
    unfold list_splice, list_splice_tail, list_splice_init, list_splice_tail_init; rewrite (holds_empty H Hs); by apply runs_ret.
Qed.

Lemma runs_cut_raw lst hd l1 x l2 : A lst -> detached L lst -> L !! hd = Some (l1 ++ x :: l2) -> runs (__list_cut_position m lst hd x) m (<[lst := l1 ++ [x]]> (<[hd := l2]> L)).
Proof.
  intros Hx Hd Hl. destruct (detached_forget lst Hd) as [H' Hu].
  assert (Hne : lst <> hd) by (destruct (l1 ++ x :: l2) as [|y k] eqn:E; [by destruct l1|by apply (detached_other lst hd y k)]).
  replace (<[lst := l1 ++ [x]]> (<[hd := l2]> L)) with (<[lst := l1 ++ [x]]> (<[hd := l2]> (delete lst L))) by maps.
  apply (cut_step H'); [by rewrite lookup_delete_ne|done|auto].
Qed.

Lemma runs_cut lst hd l1 x l2 : A lst -> detached L lst -> L !! hd = Some (l1 ++ x :: l2) -> runs (list_cut_position m lst hd x) m (<[lst := l1 ++ [x]]> (<[hd := l2]> L)).
Proof.
  intros Hx Hd Hl. unfold list_cut_position. rewrite (holds_empty H Hl), (holds_singular H Hl), (holds_next H Hl). cbn [res_bind].
  rewrite bool_decide_eq_false_2 by (by destruct l1). destruct (entry_not_head x hd l1 l2 Hl) as [_ Hne].
  rewrite (proj2 (Z.eqb_neq x hd)) by done. destruct (bool_decide (length (l1 ++ x :: l2) = 1%nat)) eqn:E; [|by apply runs_cut_raw].
  apply bool_decide_eq_true_1 in E. rewrite length_app in E. destruct l1; [|cbn in E; lia]. cbn [app head from_option id]. rewrite Z.eqb_refl. by apply (runs_cut_raw lst hd [] x l2).
Qed.

Lemma runs_cut_head lst hd f l : A lst -> detached L lst -> L !! hd = Some (f :: l) -> runs (list_cut_position m lst hd hd) m (<[lst := []]> L).
Proof.
  intros Hx Hd Hl. unfold list_cut_position. rewrite (holds_empty H Hl), (holds_singular H Hl), (holds_next H Hl). cbn [res_bind].
  rewrite bool_decide_eq_false_2 by done. rewrite Z.eqb_refl. rewrite !andb_false_r. by apply runs_init.
Qed.

(** Cutting before a node is cutting after its predecessor. *)
Lemma cut_before_eq lst hd l1 y l2 : L !! hd = Some (l1 ++ y :: l2) -> list_cut_before m lst hd (default hd (head l2)) = __list_cut_position m lst hd y.
Proof.
  intros Hl. unfold list_cut_before, __list_cut_position. rewrite (holds_entry_next H Hl), (holds_next H Hl). cbn [res_bind].
  set (n := default hd (head (l1 ++ y :: l2))). set (e := default hd (head l2)). assert (HN := ho_nodup _ _ H _ _ Hl).
  assert (Hne : n <> e).
  { assert (Hn : n ∈ l1 ++ [y]) by (unfold n; destruct l1; cbn; apply elem_of_cons; auto). intros ->. apply NoDup_cons in HN as [Hh HN].
    rewrite cons_middle, app_assoc in HN. apply NoDup_app in HN as (_ & HN & _). unfold e in Hn. destruct l2 as [|z l2]; cbn in Hn.
    - apply Hh. rewrite cons_middle, app_assoc. apply elem_of_app; auto.
    - apply (HN z Hn), elem_of_cons; auto. }
  rewrite (proj2 (Z.eqb_neq n e)) by done. unfold set_next at 1 4. destruct (nexts m !! lst); [|done]. cbn [res_bind].
  assert (Ep : prevs m !! e = Some y).
  { assert (Ep : get_prev m e = Ok y); [|unfold get_prev in Ep; destruct (prevs m !! e); congruence]. unfold e. destruct l2 as [|w l2]; cbn.
    - rewrite (holds_prev H Hl). by rewrite last_snoc.
    - rewrite cons_middle, app_assoc in Hl. rewrite (holds_entry_prev H Hl). by rewrite last_snoc. }
  unfold set_prev at 1 4. cbn [prevs nexts]. destruct (prevs m !! n); [|done]. cbn [res_bind]. unfold get_prev. cbn [prevs]. rewrite lookup_insert_ne by done. by rewrite Ep.
Qed.

Lemma runs_cut_before lst hd l1 l2 : A lst -> detached L lst -> lst <> hd -> L !! hd = Some (l1 ++ l2) -> runs (list_cut_before m lst hd (default hd (head l2))) m (<[lst := l1]> (<[hd := l2]> L)).
Proof.
  intros Hx Hd Hne Hl. destruct l1 as [|y l1 _] using rev_ind.
  - unfold list_cut_before. rewrite (holds_next H Hl). cbn [res_bind app]. rewrite Z.eqb_refl, (insert_id L) by done. by apply runs_init.
  - rewrite <- app_assoc in Hl. rewrite (cut_before_eq lst hd l1 y l2 Hl). by apply runs_cut_raw.
Qed.

Lemma runs_replace_head old new l : A new -> detached L new -> new <> old -> L !! old = Some l -> runs (list_replace m old new) m (<[new := l]> (delete old L)).
Proof.
  intros Hx Hd Hne Hl. destruct (detached_forget new Hd) as [H' Hu].
  replace (<[new := l]> (delete old L)) with (<[new := l]> (delete old (delete new L))) by maps.
  apply (replace_head_step H'); [by rewrite lookup_delete_ne|done|auto].
Qed.

Lemma runs_replace old new hd l1 l2 : A new -> detached L new -> new <> hd -> L !! hd = Some (l1 ++ old :: l2) -> runs (list_replace m old new) m (<[hd := l1 ++ new :: l2]> (delete new L)).
Proof.
  intros Hx Hd Hne Hl. destruct (entry_not_head old hd l1 l2 Hl) as [Ho Hoh]. destruct (detached_forget new Hd) as [H' Hu].
  assert (Hl' : delete new L !! hd = Some (l1 ++ old :: l2)) by (by rewrite lookup_delete_ne). pose proof (holds_rekey m _ hd l1 old l2 H' Hl') as H''.
  assert (Hno : new <> old) by (intros ->; apply (Hu _ _ Hl'); rewrite elem_of_cons, elem_of_app, elem_of_cons; auto).
  eapply runs_mono; [apply (replace_head_step H'' old new (l2 ++ hd :: l1)); [apply lookup_insert_eq| |auto]|].
  - intros h k Hk Hz. apply lookup_insert_Some in Hk as [[<- <-]|[_ Hk]].
    + apply (Hu _ _ Hl'). rewrite !elem_of_cons, !elem_of_app, !elem_of_cons in *. tauto.
    + apply lookup_delete_Some in Hk as [_ Hk]. by apply (Hu h k).
  - intros m' Hm. apply (holds_rekey m' _ new l2 hd l1) in Hm; [|apply lookup_insert_eq].
    replace (<[hd := l1 ++ new :: l2]> (delete new L)) with (<[hd := l1 ++ new :: l2]> (delete new (<[new := l2 ++ hd :: l1]> (delete old (<[old := l2 ++ hd :: l1]> (delete hd (delete new L))))))); [done|maps].
Qed.

Lemma runs_replace_init_head old new l : A new -> detached L new -> new <> old -> L !! old = Some l -> runs (list_replace_init m old new) m (<[old := []]> (<[new := l]> L)).
Proof.
  intros Hx Hd Hne Hl. apply (spliced_init _ old new l); [by apply runs_replace_head|done|by auto|]. intros z Hz ->. by apply (head_ne H Hl).
Qed.

Lemma runs_replace_init old new hd l1 l2 : A new -> detached L new -> new <> hd -> L !! hd = Some (l1 ++ old :: l2) ->
  runs (list_replace_init m old new) m (<[old := []]> (<[hd := l1 ++ new :: l2]> (delete new L))).
Proof.
  intros Hx Hd Hne Hl. eapply runs_bind; [by apply (runs_replace old new hd l1 l2)|]. intros m1 H1 S1. apply (init_step H1); [|by apply S1, (entry_alloc H old hd l1 l2)].
  pose proof (removed_unused H old hd l1 l2 Hl) as Hu. destruct (detached_forget new Hd) as [H' Hnu].
  assert (Hno : old <> new) by (intros ->; apply (Hnu hd (l1 ++ new :: l2)); [by rewrite lookup_delete_ne|rewrite elem_of_cons, elem_of_app, elem_of_cons; auto]).
  intros h k Hk Hz. apply lookup_insert_Some in Hk as [[<- <-]|[Hh Hk]].
  - apply (Hu hd (l1 ++ l2)); [apply lookup_insert_eq|]. rewrite !elem_of_cons, !elem_of_app, !elem_of_cons in *. tauto.
  - apply lookup_delete_Some in Hk as [_ Hk]. apply (Hu h k); [by rewrite lookup_insert_ne|done].
Qed.

Lemma lspec_runs o L' : lspec A L o L' -> runs (run_op m o) m L'.
Proof.
  destruct 1; cbn [run_op].
  - by apply runs_init.
  - by apply runs_add.
  - by apply runs_add_tail.
  - by apply runs_del.
  - by apply runs_del_init.
  - by apply (runs_move x hd l1 l2 hd' l).
  - by apply (runs_move_tail x hd l1 l2 hd' l).
  - rewrite <- (insert_id L hd []) by done. by apply (runs_rotate_left hd []).
  - by apply (runs_rotate_left hd (x :: l)).
  - by apply runs_rotate_to_front.
  - by apply (splice_nil_runs o lst hd).
  - by apply (proj1 (runs_splice lst hd f c l ltac:(done) ltac:(done) ltac:(done))).
  - by apply (proj2 (runs_splice lst hd f c l ltac:(done) ltac:(done) ltac:(done))).
  - by apply (proj1 (runs_splice_init lst hd f c l ltac:(done) ltac:(done) ltac:(done))).
  - by apply (proj2 (runs_splice_init lst hd f c l ltac:(done) ltac:(done) ltac:(done))).
  - unfold list_cut_position. rewrite (holds_empty H (l := [])) by done. by apply runs_ret.
  - by apply (runs_cut_head lst hd f l).
  - by apply runs_cut.
  - by apply runs_cut_before.
  - by apply runs_replace_head.
  - by apply runs_replace.
  - by apply runs_replace_init_head.
  - by apply runs_replace_init.
Qed.
End Refinement.

Lemma lspecs_run A m L os L' : lspecs A L os L' -> holds m L -> (forall x, A x -> allocated m x) -> runs (run_ops m os) m L'.
Proof.
  intros HS. revert m. induction HS as [L|L o L1 os L2 HO _ IH]; intros m H HA; [by apply runs_ret|].
  cbn [run_ops]. eapply runs_bind; [by apply (lspec_runs H HA o L1)|]. intros m1 H1 S1. apply IH; [done|]. intros x Hx. by apply S1, HA.
Qed.

(** ** Circles without a head

    A priority list strings the first node of each priority on a circle that has no head: it is known by
    whichever of its nodes comes first. *)

Definition circ (L : gmap Z (list Z)) (c : list Z) : Prop := match c with x :: l => L !! x = Some l | [] => True end.

(** [r] runs, changes no list outside the nodes [ks], and reaches lists of which [Q] holds. *)
Definition runs_to (r : res list_mem) (m : list_mem) (L : gmap Z (list Z)) (ks : list Z) (Q : gmap Z (list Z) -> Prop) : Prop :=
  exists m' L', r = Ok m' /\ holds m' L' /\ same_nodes m m' /\ (forall k, k ∉ ks -> L' !! k = L !! k) /\ Q L'.

Lemma runs_to_intro r m L ks (Q : gmap Z (list Z) -> Prop) L' : runs r m L' -> (forall k, k ∉ ks -> L' !! k = L !! k) -> Q L' -> runs_to r m L ks Q.
Proof. intros (m' & E & H & S) HK HQ. by exists m', L'. Qed.

Lemma runs_to_bind r m L ks Q k ks' (Q' : gmap Z (list Z) -> Prop) : runs_to r m L ks Q -> (forall z, z ∈ ks -> z ∈ ks') ->
  (forall m1 L1, holds m1 L1 -> same_nodes m m1 -> (forall z, z ∉ ks -> L1 !! z = L !! z) -> Q L1 -> runs_to (k m1) m1 L1 ks' Q') -> runs_to (res_bind r k) m L ks' Q'.
Proof.
  intros (m1 & L1 & -> & H1 & S1 & K1 & Q1) HK Hk. destruct (Hk m1 L1 H1 S1 K1 Q1) as (m2 & L2 & E2 & H2 & S2 & K2 & Q2). exists m2, L2.
  split; [done|]. split; [done|]. split; [intros z; by rewrite (S2 z)|]. split; [|done]. intros z Hz. rewrite K2 by done. apply K1. auto.
Qed.

Lemma runs_to_mono r m L ks ks' (Q Q' : gmap Z (list Z) -> Prop) : runs_to r m L ks Q -> (forall z, z ∈ ks -> z ∈ ks') -> (forall L', (forall z, z ∉ ks -> L' !! z = L !! z) -> Q L' -> Q' L') -> runs_to r m L ks' Q'.
Proof. intros (m1 & L1 & E & H1 & S1 & K1 & Q1) HK HQ. exists m1, L1. split; [done|]. split; [done|]. split; [done|]. split; [|by apply HQ]. intros z Hz. apply K1. auto. Qed.

Lemma runs_to_ret m L ks (Q : gmap Z (list Z) -> Prop) : holds m L -> Q L -> runs_to (Ok m) m L ks Q.
Proof. intros H HQ. by exists m, L. Qed.

Section Circles.
Context {m : list_mem} {L : gmap Z (list Z)} (H : holds m L).

Lemma circ_nodup c : circ L c -> NoDup c.
Proof. destruct c as [|x l]; [constructor|]. apply (ho_nodup _ _ H). Qed.

Lemma circ_next a y b : circ L (a ++ y :: b) -> get_next m y = Ok (default (default y (head a)) (head b)).
Proof. destruct a as [|x a]; cbn; intros Hc; [by rewrite (holds_next H Hc)|by rewrite (holds_entry_next H Hc)]. Qed.

Lemma circ_empty a y b : circ L (a ++ y :: b) -> list_empty m y = Ok (bool_decide (a ++ b = [])).
Proof.
  intros Hc. pose proof (circ_nodup _ Hc) as HN. unfold list_empty. rewrite (circ_next a y b Hc). cbn [res_bind]. f_equal. rewrite <- Permutation_middle in HN.
  apply NoDup_cons in HN as [HN _]. destruct b as [|z b]; [destruct a as [|x a]|]; cbn; [apply Z.eqb_refl| |].
  - apply Z.eqb_neq. intros ->. apply HN, elem_of_cons; auto.
  - rewrite bool_decide_eq_false_2 by (by destruct a). apply Z.eqb_neq. intros ->. apply HN, elem_of_app; right. apply elem_of_cons; auto.
Qed.

Lemma alone x : L !! x = Some [] -> allocated m x /\ detached L x.
Proof. intros Hx. split; [apply (holds_alloc m L x [] x H Hx), elem_of_cons; auto|by left]. Qed.

(** A circle whose first node is known can be known by any other. *)
Lemma circ_known a y b : circ L (a ++ y :: b) -> exists L', holds m L' /\ L' !! y = Some (b ++ a) /\ (forall k, k ∉ a ++ y :: b -> L' !! k = L !! k).
Proof.
  destruct a as [|x a]; cbn; intros Hc; [exists L; by rewrite app_nil_r|].
  exists (<[y := b ++ x :: a]> (delete x L)). split; [by apply holds_rekey|]. split; [apply lookup_insert_eq|].
  intros k Hk. rewrite elem_of_cons, elem_of_app, elem_of_cons in Hk. rewrite lookup_insert_ne, lookup_delete_ne by (intros ->; tauto). done.
Qed.
End Circles.

(** The same, for the lists an operation reaches. *)
Lemma runs_to_known r m L ks a y b Q : runs_to r m L ks (fun L' => L' !! y = Some (b ++ a) /\ Q L') -> (forall z, z ∈ a ++ y :: b -> z ∈ ks) ->
  (forall L1 L2, (forall z, z ∉ a ++ y :: b -> L2 !! z = L1 !! z) -> Q L1 -> Q L2) -> runs_to r m L ks (fun L' => circ L' (a ++ y :: b) /\ Q L').
Proof.
  intros (m' & L' & E & H' & S' & K' & [Hy HQ]) HK HQQ. destruct a as [|x a]; [exists m', L'; by rewrite app_nil_r in Hy|].
  pose proof (holds_rekey m' L' y b x a H' Hy) as H''. exists m', (<[x := a ++ y :: b]> (delete y L')). split; [done|]. split; [done|]. split; [done|].
  assert (Ho : forall z, z ∉ (x :: a) ++ y :: b -> <[x := a ++ y :: b]> (delete y L') !! z = L' !! z).
  { intros z Hz. cbn in Hz. rewrite elem_of_cons, elem_of_app, elem_of_cons in Hz. rewrite lookup_insert_ne, lookup_delete_ne by (intros ->; tauto). done. }
  split; [|split; [cbn; apply lookup_insert_eq|by apply (HQQ L')]]. intros k Hk. rewrite Ho by auto. auto.
Qed.

Section CircleSteps.
Context {m : list_mem} {L : gmap Z (list Z)} (H : holds m L).

(** A lone node joins a circle, before or after one of its nodes. *)
Lemma circ_join r new c y b a k : circ L c -> c = a ++ y :: b -> L !! new = Some [] -> new ∉ c -> k ≡ₚ new :: b ++ a ->
  (forall L', holds m L' -> L' !! y = Some (b ++ a) -> detached L' new -> runs r m (<[y := k]> (delete new L'))) ->
  runs_to r m L (new :: c) (fun L' => L' !! y = Some k).
Proof.
  intros Hc -> Hnew Hn Hk Hr. destruct (circ_known H a y b Hc) as (L' & H' & Hy & Ho).
  apply (runs_to_intro _ _ _ _ _ (<[y := k]> (delete new L'))); [apply Hr; [done|done|left; by rewrite Ho]| |apply lookup_insert_eq].
  intros z Hz. rewrite elem_of_cons in Hz. rewrite lookup_insert_ne, lookup_delete_ne; [apply Ho; tauto|intros ->; tauto|].
  intros ->. apply Hz. right. apply elem_of_app; right. apply elem_of_cons; auto.
Qed.

Lemma circ_add_before new a y b : circ L (a ++ y :: b) -> L !! new = Some [] -> new ∉ a ++ y :: b ->
  runs_to (list_add_tail m new y) m L (new :: a ++ y :: b) (fun L' => circ L' (a ++ new :: y :: b)).
Proof.
  intros Hc Hnew Hn. destruct (alone H new Hnew) as [Ha _]. assert (Hy : new <> y) by (intros ->; apply Hn, elem_of_app; right; apply elem_of_cons; auto).
  assert (E : a ++ new :: y :: b = (a ++ [new]) ++ y :: b) by (by rewrite <- app_assoc). rewrite E.
  eapply runs_to_mono; [apply (runs_to_known _ _ _ _ (a ++ [new]) y b (fun _ => True)); [|rewrite <- E|]| |]; [|..|intros z Hz; exact Hz|intros L' _ [Hl _]; exact Hl].
  - eapply runs_to_mono; [eapply (circ_join _ new _ y b a (b ++ a ++ [new]) Hc)| |]; [done|done|done| | |done|by intros].
    + by rewrite app_assoc, Permutation_app_comm.
    + intros L' H' Hy' Hd. rewrite app_assoc. by apply (runs_add_tail (A := allocated m) H').
  - intros z. rewrite !elem_of_app, !elem_of_cons, elem_of_app, !elem_of_cons. tauto.
  - done.
Qed.

Lemma circ_add_last new f r : circ L (f :: r) -> L !! new = Some [] -> new ∉ f :: r -> runs_to (list_add_tail m new f) m L (new :: f :: r) (fun L' => circ L' (f :: r ++ [new])).
Proof.
  intros Hc Hnew Hn. destruct (alone H new Hnew) as [Ha _]. assert (Hy : new <> f) by (intros ->; apply Hn, elem_of_cons; auto).
  eapply (circ_join _ new (f :: r) f r [] (r ++ [new]) Hc); [done|done|done|by rewrite app_nil_r, Permutation_app_comm|].
  intros L' H' Hy' Hd. rewrite app_nil_r in Hy'. by apply (runs_add_tail (A := allocated m) H').
Qed.

Lemma circ_add_after new a y b : circ L (a ++ y :: b) -> L !! new = Some [] -> new ∉ a ++ y :: b ->
  runs_to (list_add m new y) m L (new :: a ++ y :: b) (fun L' => circ L' (a ++ y :: new :: b)).
Proof.
  intros Hc Hnew Hn. destruct (alone H new Hnew) as [Ha _]. assert (Hy : new <> y) by (intros ->; apply Hn, elem_of_app; right; apply elem_of_cons; auto).
  eapply runs_to_mono; [apply (runs_to_known _ _ _ _ a y (new :: b) (fun _ => True))| |]; [|..|intros z Hz; exact Hz|intros L' _ [Hl _]; exact Hl].
  - eapply runs_to_mono; [eapply (circ_join _ new _ y b a (new :: b ++ a) Hc)| |]; [done|done|done|done| |done|by intros].
    intros L' H' Hy' Hd. by apply (runs_add (A := allocated m) H').
  - intros z. rewrite !elem_of_app, !elem_of_cons, elem_of_app, !elem_of_cons. tauto.
  - done.
Qed.

(** A node leaves a circle that has others. *)
Lemma circ_del a y b : circ L (a ++ y :: b) -> a ++ b <> [] -> runs_to (list_del_init m y) m L (a ++ y :: b) (fun L' => circ L' (a ++ b) /\ L' !! y = Some []).
Proof.
  intros Hc Hne. destruct a as [|x a]; cbn [app] in *.
  - destruct b as [|z b]; [done|]. cbn in Hc. pose proof (holds_rekey m L y [] z b H Hc) as H'.
    apply (runs_to_intro _ _ _ _ _ (<[y := []]> (<[z := b ++ []]> (<[z := b ++ [y]]> (delete y L))))).
    + apply (runs_del_init H' y z b []). apply lookup_insert_eq.
    + intros k Hk. rewrite !elem_of_cons in Hk. rewrite !lookup_insert_ne, lookup_delete_ne by (intros ->; tauto). done.
    + assert (y <> z) by (intros ->; apply (head_ne H Hc), elem_of_cons; auto). cbn. rewrite lookup_insert_ne, !lookup_insert_eq, app_nil_r by done. done.
  - apply (runs_to_intro _ _ _ _ _ (<[y := []]> (<[x := a ++ b]> L))).
    + by apply (runs_del_init H).
    + intros k Hk. rewrite elem_of_cons, elem_of_app, elem_of_cons in Hk. rewrite !lookup_insert_ne by (intros ->; tauto). done.
    + assert (y <> x) by (intros ->; apply (head_ne H Hc), elem_of_app; right; apply elem_of_cons; auto). cbn. rewrite lookup_insert_ne, !lookup_insert_eq by done. done.
Qed.
End CircleSteps.

(** C32: the list operations implement lists.  A memory holds the lists [L] (a head with its entries, no node on
    two of them); any sequence of insertions, removals, moves, rotations, splices, cuts and replacements, each
    used as its contract allows, runs without touching a node that does not exist and leaves exactly the lists
    the same operations on plain sequences give.  Walking a list from its head then meets its entries in order
    and stops, and the tests for an empty list, a single entry, the first and the last entry tell the truth. *)
Theorem list_ops_refine A m L os L' : holds m L -> (forall x, A x -> allocated m x) -> lspecs A L os L' ->
  exists m', run_ops m os = Ok m' /\ holds m' L' /\
    forall hd l, L' !! hd = Some l -> list_for_each m' hd = Ok l /\ list_empty m' hd = Ok (bool_decide (l = [])) /\ list_is_singular m' hd = Ok (bool_decide (length l = 1%nat)) /\
      forall l1 x l2, l = l1 ++ x :: l2 -> list_is_first m' x hd = Ok (bool_decide (l1 = [])) /\ list_is_last m' x hd = Ok (bool_decide (l2 = [])).
Proof.
  intros H HA HS. destruct (lspecs_run A m L os L' HS H HA) as (m' & E & H' & _). exists m'. split; [done|]. split; [done|].
  intros hd l Hl. split; [by apply (for_each_ok H')|]. split; [by apply (holds_empty H')|]. split; [by apply (holds_singular H')|].
  intros l1 x l2 ->. by apply (holds_first_last H').
Qed.

(** Six nodes of uninitialised memory. *)
Definition six_nodes : list_mem := let g := list_to_map ((fun i => (i, 0)) <$> [1; 2; 3; 4; 5; 6]) in mk_lists g g.

Lemma holds_none m : holds m ∅.
Proof. by split. Qed.

(** The nodes of a list that is written out are not [x]. *)
Ltac detach := repeat match goal with Hk : _ !! _ = Some _ |- _ => apply lookup_insert_Some in Hk as [[<- <-]|[_ Hk]] || apply lookup_delete_Some in Hk as [_ Hk] || (rewrite lookup_empty in Hk; discriminate) end; (split; [lia|repeat constructor; lia]).

Lemma list_ops_refine_witness : exists m', run_ops six_nodes [Init 1; Add 3 1; AddTail 4 1; Init 2; Add 5 2; SpliceTailInit 2 1; RotateLeft 1; DelInit 4; CutPosition 2 1 5; ReplaceInit 5 6] = Ok m' /\
  list_for_each m' 2 = Ok [6] /\ list_for_each m' 1 = Ok [3].
Proof.
  destruct (list_ops_refine (fun x => 1 <= x <= 6) six_nodes ∅ [Init 1; Add 3 1; AddTail 4 1; Init 2; Add 5 2; SpliceTailInit 2 1; RotateLeft 1; DelInit 4; CutPosition 2 1 5; ReplaceInit 5 6]
    (<[5 := []]> (<[2 := [6]]> (delete 6 (<[2 := [5]]> (<[1 := [3]]> (<[4 := []]> (<[1 := [5; 3]]> (<[1 := [4; 5; 3]]>
       (<[2 := []]> (<[1 := [3; 4; 5]]> (<[2 := [5]]> (delete 5 (<[2 := []]> (<[1 := [3; 4]]> (delete 4 (<[1 := [3]]> (delete 3 (<[1 := []]> ∅)))))))))))))))))))
    as (m' & E & _ & HL).
  - apply holds_none.
  - intros x Hx. assert (Hc : x = 1 \/ x = 2 \/ x = 3 \/ x = 4 \/ x = 5 \/ x = 6) by lia. unfold allocated, six_nodes; cbn.
    destruct Hc as [->|[->|[->|[->|[->| ->]]]]]; split; by eexists.
  - assert (U : forall x L, (forall hd l, L !! hd = Some l -> x <> hd /\ Forall (fun y => x <> y) l) -> detached L x).
    { intros x L HU. right. intros hd l Hl Hc. destruct (HU hd l Hl) as [U1 U2]. apply elem_of_cons in Hc as [->|Hc]; [done|]. rewrite Forall_forall in U2. by apply (U2 x Hc). }
    eapply sps_cons; [apply sp_init; [lia|apply U; intros hd l Hk; detach]|].
    eapply sps_cons; [apply sp_add; [lia|apply U; intros hd l Hk; detach|lia|reflexivity]|].
    eapply sps_cons; [apply sp_add_tail; [lia|apply U; intros hd l Hk; detach|lia|reflexivity]|].
    eapply sps_cons; [apply sp_init; [lia|apply U; intros hd l Hk; detach]|].
    eapply sps_cons; [apply sp_add; [lia|apply U; intros hd l Hk; detach|lia|reflexivity]|].
    eapply sps_cons; [eapply (sp_splice_tail_init _ _ 2 1 5 [] [3; 4]); [reflexivity|reflexivity|lia]|].
    eapply sps_cons; [apply (sp_rotate_left _ _ 1 3 [4; 5]); reflexivity|].
    eapply sps_cons; [apply (sp_del_init _ _ 4 1 [] [5; 3]); reflexivity|].
    eapply sps_cons; [apply (sp_cut _ _ 2 1 [] 5 [3]); [lia|left; reflexivity|reflexivity]|].
    eapply sps_cons; [apply (sp_replace_init _ _ 5 6 2 [] []); [lia|apply U; intros hd l Hk; detach|lia|reflexivity]|].
    apply sps_nil.
  - exists m'. split; [exact E|]. split; apply HL; reflexivity.
Defined.

(** [list_del_init_careful] does not reset the entry it removes: a concurrent [list_empty_careful] on the entry, which it
    is meant to synchronise with, still finds it on a list. *)
Example list_del_init_careful_not_empty :
  (m <-- run_ops six_nodes [Init 1; Add 2 1]; m <-- list_del_init_careful m 2; list_empty_careful m 2) = Ok false /\
  (m <-- run_ops six_nodes [Init 1; Add 2 1]; m <-- list_del_init m 2; list_empty_careful m 2) = Ok true.
Proof. by vm_compute. Qed.
