(* ===== verification/Plist.v ===== *)
(** * Priority lists (lib/plist.c, include/linux/plist.h)

    A priority list keeps its nodes sorted by priority on the [node_list] of its head; the first node of every
    priority is also on a circle, the [prio_list], along which an insertion looks for its place.  The operations
    are built from those of ListHead.v as the source builds them. *)

From stdpp Require Import gmap list sorting.
From S2P Require Import Prelude ListHead.
Local Open Scope Z_scope.
Local Open Scope res_scope.

(** The list nodes of the memory, and the priority of every [struct plist_node]. *)
Record plist_mem := mk_plist { lists : list_mem; prios : gmap Z Z }.
Definition with_lists (pm : plist_mem) (m : list_mem) : plist_mem := mk_plist m (prios pm).

(** [struct plist_node]: an int and two list nodes; [struct plist_head]: one list node. *)
Definition prio_list (node : Z) : Z := node + 8.
Definition node_list (node : Z) : Z := node + 24.
Definition prio_entry (a : Z) : Z := a - 8.
Definition node_entry (a : Z) : Z := a - 24.

Definition get_prio (pm : plist_mem) (node : Z) : res Z := match prios pm !! node with Some p => Ok p | None => Fault OutOfBounds end.

(** ** The operations *)

Definition plist_head_init (pm : plist_mem) (head : Z) : res plist_mem := m <-- INIT_LIST_HEAD (lists pm) head; Ok (with_lists pm m).

Definition plist_node_init (pm : plist_mem) (node prio : Z) : res plist_mem :=
  match prios pm !! node with
  | Some _ =>
      m <-- INIT_LIST_HEAD (lists pm) (prio_list node); m <-- INIT_LIST_HEAD m (node_list node);
      Ok (mk_plist m (<[node := prio]> (prios pm)))
  | None => Fault OutOfBounds
  end.

Definition plist_head_empty (pm : plist_mem) (head : Z) : res bool := list_empty (lists pm) head.
Definition plist_node_empty (pm : plist_mem) (node : Z) : res bool := list_empty (lists pm) (node_list node).
Definition plist_first (pm : plist_mem) (head : Z) : res Z := a <-- get_next (lists pm) head; Ok (node_entry a).
Definition plist_last (pm : plist_mem) (head : Z) : res Z := a <-- get_prev (lists pm) head; Ok (node_entry a).
Definition plist_next (pm : plist_mem) (pos : Z) : res Z := a <-- get_next (lists pm) (node_list pos); Ok (node_entry a).
Definition plist_prev (pm : plist_mem) (pos : Z) : res Z := a <-- get_prev (lists pm) (node_list pos); Ok (node_entry a).
Definition plist_for_each (pm : plist_mem) (head : Z) : res (list Z) := l <-- list_for_each (lists pm) head; Ok (node_entry <$> l).

(** The loop of [plist_add] over the firsts of each priority: where it stops, the node before, and the place in the node list. *)
Fixpoint plist_add_loop (fuel : nat) (pm : plist_mem) (prio first iter : Z) (prev : option Z) (node_next : Z) : res (Z * option Z * Z) :=
  match fuel with
  | O => Fault NoFuel
  | S fuel =>
      q <-- get_prio pm iter;
      if prio <? q then Ok (iter, prev, node_list iter)
      else
        a <-- get_next (lists pm) (prio_list iter);
        if prio_entry a =? first then Ok (prio_entry a, Some iter, node_next)
        else plist_add_loop fuel pm prio first (prio_entry a) (Some iter) node_next
  end.

Definition plist_add (pm : plist_mem) (node head : Z) : res plist_mem :=
  warn1 <-- plist_node_empty pm node; warn2 <-- list_empty (lists pm) (prio_list node);
  e <-- plist_head_empty pm head;
  if (e : bool) then m <-- list_add_tail (lists pm) (node_list node) head; Ok (with_lists pm m)
  else
    first <-- plist_first pm head; prio <-- get_prio pm node;
    '(iter, prev, node_next) <-- plist_add_loop (size (nexts (lists pm))) pm prio first first None head;
    new_prio <-- match prev with None => Ok true | Some pv => q <-- get_prio pm pv; Ok (negb (q =? prio)) end;
    m <-- (if (new_prio : bool) then list_add_tail (lists pm) (prio_list node) (prio_list iter) else Ok (lists pm));
    m <-- list_add_tail m (node_list node) node_next; Ok (with_lists pm m).

(** The first half of [plist_del]: a node that is on the circle of firsts hands its place to the next node of its priority, if any. *)
Definition plist_del_prio (m : list_mem) (node head : Z) : res list_mem :=
  e <-- list_empty m (prio_list node);
  if (e : bool) then Ok m
  else
    a <-- get_next m (node_list node);
    m <-- (if a =? head then Ok m
           else e <-- list_empty m (prio_list (node_entry a)); if (e : bool) then list_add m (prio_list (node_entry a)) (prio_list node) else Ok m);
    list_del_init m (prio_list node).

Definition plist_del (pm : plist_mem) (node head : Z) : res plist_mem :=
  m <-- plist_del_prio (lists pm) node head; m <-- list_del_init m (node_list node); Ok (with_lists pm m).

(** The loop of [plist_requeue]: the first node after [iter] of another priority, or the head. *)
Fixpoint plist_requeue_loop (fuel : nat) (pm : plist_mem) (prio iter head : Z) : res Z :=
  match fuel with
  | O => Fault NoFuel
  | S fuel =>
      a <-- get_next (lists pm) (node_list iter);
      if a =? head then Ok head
      else q <-- get_prio pm (node_entry a); if prio =? q then plist_requeue_loop fuel pm prio (node_entry a) head else Ok a
  end.

Definition plist_requeue (pm : plist_mem) (node head : Z) : res plist_mem :=
  e <-- plist_head_empty pm head; if (e : bool) then Fault BugOn else
  e <-- plist_node_empty pm node; if (e : bool) then Fault BugOn else
  last <-- plist_last pm head; if node =? last then Ok pm else
  iter <-- plist_next pm node; p <-- get_prio pm node; q <-- get_prio pm iter;
  if negb (p =? q) then Ok pm
  else
    pm <-- plist_del pm node head;
    node_next <-- plist_requeue_loop (size (nexts (lists pm))) pm p iter head;
    m <-- list_add_tail (lists pm) (node_list node) node_next; Ok (with_lists pm m).

(** ** The specification: a sorted sequence *)

Section Spec.
Context (p : Z -> Z).

(** Insertion behind the nodes of the same priority. *)
Fixpoint pinsert (x : Z) (l : list Z) : list Z :=
  match l with [] => [x] | y :: l' => if p x <? p y then x :: l else y :: pinsert x l' end.

Definition premove (x : Z) (l : list Z) : list Z := filter (fun y => y <> x) l.

(** The nodes whose predecessor has another priority, after a node of priority [q]. *)
Fixpoint heads (q : option Z) (l : list Z) : list Z :=
  match l with [] => [] | x :: l' => if decide (q = Some (p x)) then heads q l' else x :: heads (Some (p x)) l' end.
Definition firsts (l : list Z) : list Z := heads None l.

Definition lastp (q : option Z) (l : list Z) : option Z := match last l with Some x => Some (p x) | None => q end.

Definition psorted (l : list Z) : Prop := StronglySorted (fun a b => p a <= p b) l.

Lemma lastp_cons q x l : lastp q (x :: l) = lastp (Some (p x)) l.
Proof. unfold lastp. rewrite last_cons. by destruct (last l). Qed.

Lemma heads_app q l1 l2 : heads q (l1 ++ l2) = heads q l1 ++ heads (lastp q l1) l2.
Proof.
  revert q. induction l1 as [|x l1 IH]; intros q; [done|]. rewrite lastp_cons. cbn. case_decide as E; rewrite IH; [by rewrite E|done].
Qed.

Lemma heads_last q l : lastp q l = match last (heads q l) with Some f => Some (p f) | None => q end.
Proof.
  revert q. induction l as [|x l IH]; intros q; [done|]. rewrite lastp_cons. cbn. case_decide as E; [rewrite <- E; apply IH|].
  rewrite last_cons, IH. by destruct (last (heads _ l)).
Qed.

Lemma heads_sub q l x : x ∈ heads q l -> x ∈ l.
Proof. revert q. induction l as [|y l IH]; intros q; [done|]. cbn. case_decide; rewrite !elem_of_cons; [right; eauto|intros [->|Hx]; [auto|right; eauto]]. Qed.

Lemma heads_length q l : (length (heads q l) <= length l)%nat.
Proof. revert q. induction l as [|x l IH]; intros q; [done|]. cbn. case_decide; cbn; [specialize (IH q)|specialize (IH (Some (p x)))]; lia. Qed.

Lemma firsts_cons x l : firsts (x :: l) = x :: heads (Some (p x)) l.
Proof. done. Qed.

(** The priority before a node matters only if it is the node's own. *)
Lemma heads_other q q' l : (forall y, head l = Some y -> q <> Some (p y) /\ q' <> Some (p y)) -> heads q l = heads q' l.
Proof. destruct l as [|y l]; [done|]. intros Hy. destruct (Hy y eq_refl). cbn. by rewrite !decide_False. Qed.

Lemma psorted_app l1 l2 : psorted (l1 ++ l2) <-> psorted l1 /\ psorted l2 /\ (forall a b, a ∈ l1 -> b ∈ l2 -> p a <= p b).
Proof.
  unfold psorted. rewrite StronglySorted_app. tauto.
Qed.

Lemma lastp_le l q x : psorted (l ++ [x]) -> lastp None l = Some q -> q <= p x.
Proof.
  rewrite psorted_app. intros (_ & _ & HS). unfold lastp. destruct (last l) as [y|] eqn:E; [|done]. intros [= <-].
  apply HS; [by apply last_Some_elem_of|by apply list_elem_of_singleton].
Qed.

(** An insertion cuts a sorted sequence in two. *)
Lemma pinsert_split x l : psorted l -> exists l1 l2, l = l1 ++ l2 /\ pinsert x l = l1 ++ x :: l2 /\ (forall y, y ∈ l1 -> p y <= p x) /\ (forall y, y ∈ l2 -> p x < p y).
Proof.
  intros HS. induction l as [|y l IH]; [exists [], []; split; [done|]; split; [done|]; split; intros z Hz; by apply elem_of_nil in Hz|].
  apply StronglySorted_cons in HS as [HF HS]. cbn. rewrite Forall_forall in HF. destruct (Z.ltb_spec (p x) (p y)).
  - exists [], (y :: l). split; [done|]. split; [done|]. split; [intros z Hz; by apply elem_of_nil in Hz|]. intros z Hz. apply elem_of_cons in Hz as [->|Hz]; [done|]. pose proof (HF z Hz). lia.
  - destruct (IH HS) as (l1 & l2 & -> & E & H1 & H2). exists (y :: l1), l2. rewrite E. split; [done|]. split; [done|]. split; [|done].
    intros z Hz. apply elem_of_cons in Hz as [->|Hz]; [lia|auto].
Qed.

Lemma pinsert_at x l1 l2 : (forall y, y ∈ l1 -> p y <= p x) -> (forall y, y ∈ l2 -> p x < p y) -> pinsert x (l1 ++ l2) = l1 ++ x :: l2.
Proof.
  intros H1 H2. induction l1 as [|y l1 IH]; cbn.
  - destruct l2 as [|y l2]; [done|]. cbn. by rewrite (proj2 (Z.ltb_lt _ _)) by (apply H2, elem_of_cons; auto).
  - rewrite (proj2 (Z.ltb_ge _ _)) by (apply H1, elem_of_cons; auto). rewrite IH; [done|]. intros z Hz. apply H1, elem_of_cons; auto.
Qed.

Lemma pinsert_sorted x l : psorted l -> psorted (pinsert x l).
Proof.
  intros HS. destruct (pinsert_split x l HS) as (l1 & l2 & -> & -> & H1 & H2). apply psorted_app in HS as (S1 & S2 & S3). apply psorted_app. split; [done|].
  split; [constructor; [done|apply Forall_forall; intros y Hy; specialize (H2 y Hy); lia]|]. intros a b Ha Hb. apply elem_of_cons in Hb as [->|Hb]; auto.
Qed.

(** Within a priority the order is that of arrival. *)
Lemma pinsert_fifo q x l : psorted l -> filter (fun y => p y = q) (pinsert x l) = filter (fun y => p y = q) l ++ (if decide (p x = q) then [x] else []).
Proof.
  intros HS. destruct (pinsert_split x l HS) as (l1 & l2 & -> & -> & H1 & H2). rewrite !filter_app, filter_cons. case_decide as E; [|by rewrite app_nil_r].
  assert (F : filter (fun y => p y = q) l2 = []); [|by rewrite F, app_nil_r]. clear HS. induction l2 as [|y l2 IH]; [done|].
  rewrite filter_cons_False; [apply IH; intros z Hz; apply H2, elem_of_cons; auto|]. pose proof (H2 y ltac:(apply elem_of_cons; auto)). lia.
Qed.

Lemma premove_eq x l1 l2 : NoDup (l1 ++ x :: l2) -> premove x (l1 ++ x :: l2) = l1 ++ l2.
Proof.
  intros HN. unfold premove. assert (F : forall l : list Z, x ∉ l -> filter (fun y => y <> x) l = l).
  { induction l as [|y l IH]; [done|]. rewrite elem_of_cons. intros Hx. rewrite filter_cons_True by (intros ->; tauto). f_equal. apply IH. tauto. }
  rewrite filter_app, filter_cons_False by tauto. rewrite <- Permutation_middle in HN. apply NoDup_cons in HN as [HN _]. rewrite elem_of_app in HN.
  rewrite !F by tauto. done.
Qed.
End Spec.

(** ** The representation *)

(** The memory holds, under [head], the sequence [l] of nodes out of [N]; the first nodes of each priority are on one
    circle and every other node is alone on its [prio_list]; the nodes of [N] not on the list are alone on both. *)
Record rep (p : Z -> Z) (N : list Z) (hd : Z) (pm : plist_mem) (L : gmap Z (list Z)) (l : list Z) : Prop := {
  rp_holds : holds (lists pm) L;
  rp_list : L !! hd = Some (node_list <$> l);
  rp_prio x : x ∈ N -> prios pm !! x = Some (p x);
  rp_in x : x ∈ l -> x ∈ N;
  rp_sorted : psorted p l;
  rp_circ : circ L (prio_list <$> firsts p l);
  rp_single x : x ∈ N -> x ∉ firsts p l -> L !! prio_list x = Some [];
  rp_free x : x ∈ N -> x ∉ l -> L !! node_list x = Some [];
  rp_apart x y : x ∈ N -> y ∈ N -> node_list x <> prio_list y;
  rp_head x : x ∈ N -> node_list x <> hd /\ prio_list x <> hd }.

(** Lists of other owners stay. *)
Definition frame (N : list Z) (hd : Z) (L L' : gmap Z (list Z)) : Prop :=
  forall k, k <> hd -> (forall x, x ∈ N -> k <> node_list x /\ k <> prio_list x) -> L' !! k = L !! k.

Lemma elem_of_node x (l : list Z) : node_list x ∈ node_list <$> l <-> x ∈ l.
Proof. rewrite list_elem_of_fmap. split; [intros (y & E & Hy); unfold node_list in E; by replace x with y by lia|intros Hx; by exists x]. Qed.
Lemma elem_of_prio x (l : list Z) : prio_list x ∈ prio_list <$> l <-> x ∈ l.
Proof. rewrite list_elem_of_fmap. split; [intros (y & E & Hy); unfold prio_list in E; by replace x with y by lia|intros Hx; by exists x]. Qed.

Section Rep.
Context {p : Z -> Z} {N : list Z} {hd : Z} {pm : plist_mem} {L : gmap Z (list Z)} {l : list Z} (R : rep p N hd pm L l).

Lemma rep_nodup : NoDup l.
Proof. pose proof (ho_nodup _ _ (rp_holds _ _ _ _ _ _ R) _ _ (rp_list _ _ _ _ _ _ R)) as HN. apply NoDup_cons in HN as [_ HN]. by apply NoDup_fmap_1 in HN. Qed.

Lemma rep_firsts_nodup : NoDup (firsts p l).
Proof. eapply (NoDup_fmap_1 prio_list), (circ_nodup (rp_holds _ _ _ _ _ _ R)), (rp_circ _ _ _ _ _ _ R). Qed.

Lemma rep_prio x : x ∈ N -> get_prio pm x = Ok (p x).
Proof. intros Hx. unfold get_prio. by rewrite (rp_prio _ _ _ _ _ _ R x Hx). Qed.

Lemma rep_firsts_in x : x ∈ firsts p l -> x ∈ N.
Proof. intros Hx. by eapply (rp_in _ _ _ _ _ _ R), heads_sub. Qed.

Lemma prio_entry_list x : prio_entry (prio_list x) = x.
Proof. unfold prio_entry, prio_list. lia. Qed.
Lemma node_entry_list x : node_entry (node_list x) = x.
Proof. unfold node_entry, node_list. lia. Qed.

(** The walk along the firsts, those of [a] having at most the priority [q] and those of [b] more. *)
Lemma plist_add_loop_ok fuel q a0 a b prev nn first : firsts p l = a0 ++ a ++ b -> a ++ b <> [] -> head (firsts p l) = Some first ->
  (forall y, y ∈ a -> p y <= q) -> (forall y, head b = Some y -> q < p y) -> (length a < fuel)%nat ->
  plist_add_loop fuel pm q first (default first (head (a ++ b))) prev nn =
    Ok (default first (head b), match last a with Some z => Some z | None => prev end, match b with y :: _ => node_list y | [] => nn end).
Proof.
  revert a0 a prev. induction fuel as [|fuel IH]; intros a0 a prev Ef Hne Hf Ha Hb Hfu; [lia|].
  assert (Hin : forall y, y ∈ a ++ b -> y ∈ N) by (intros y Hy; apply rep_firsts_in; rewrite Ef; apply elem_of_app; auto).
  destruct a as [|z a]; cbn [app].
  - destruct b as [|y b]; [done|]. cbn [head from_option id plist_add_loop]. rewrite (rep_prio y) by (apply Hin, elem_of_cons; auto). cbn [res_bind last].
    rewrite (proj2 (Z.ltb_lt q (p y))) by (by apply Hb). done.
  - cbn [head from_option id plist_add_loop]. rewrite (rep_prio z) by (apply Hin, elem_of_cons; auto). cbn [res_bind]. rewrite (proj2 (Z.ltb_ge q (p z))) by (apply Ha, elem_of_cons; auto).
    pose proof (rp_circ _ _ _ _ _ _ R) as HC. rewrite Ef, fmap_app in HC. cbn [app fmap list_fmap] in HC. rewrite (circ_next (rp_holds _ _ _ _ _ _ R) _ _ _ HC). cbn [res_bind].
    assert (Efirst : default (prio_list z) (head (prio_list <$> a0)) = prio_list first) by (rewrite Ef in Hf; destruct a0; cbn in *; congruence). rewrite Efirst.
    destruct (a ++ b) as [|w r] eqn:Er; cbn [fmap list_fmap head from_option id].
    + apply app_nil in Er as [-> ->]. rewrite prio_entry_list, Z.eqb_refl. done.
    + rewrite prio_entry_list. assert (w <> first).
      { intros ->. pose proof rep_firsts_nodup as HN. rewrite Ef in HN, Hf. destruct a0 as [|f a0]; cbn in *; injection Hf as ->.
        - apply NoDup_cons in HN as [HN _]. apply HN. rewrite Er. apply elem_of_cons; auto.
        - apply NoDup_cons in HN as [HN _]. apply HN. rewrite Er, elem_of_app, !elem_of_cons. auto. }
      rewrite (proj2 (Z.eqb_neq w first)) by done. specialize (IH (a0 ++ [z]) a (Some z)). rewrite Er in IH. cbn [head from_option id] in IH.
      rewrite IH; [|by rewrite Ef, <- app_assoc; cbn; rewrite Er|done|done|intros y Hy; apply Ha, elem_of_cons; auto|done|cbn in Hfu; lia].
      rewrite last_cons. by destruct (last a).
Qed.

(** *** Insertion *)

Section Add.
Context {x : Z} {l1 l2 : list Z} (El : l = l1 ++ l2) (HxN : x ∈ N) (Hxl : x ∉ l) (Hl1 : forall y, y ∈ l1 -> p y <= p x) (Hl2 : forall y, y ∈ l2 -> p x < p y).

Lemma lastp_bound q : lastp p None l1 = Some q -> q <= p x.
Proof. unfold lastp. destruct (last l1) as [y|] eqn:E; [|done]. intros [= <-]. apply Hl1. by apply last_Some_elem_of. Qed.

Lemma firsts_cut : firsts p l = firsts p l1 ++ firsts p l2.
Proof.
  unfold firsts. rewrite El, heads_app. f_equal. apply heads_other. intros y Hy. split; [|done]. intros E. apply lastp_bound in E. assert (p x < p y) by (apply Hl2; by apply head_Some_elem_of). lia.
Qed.

Lemma firsts_add : firsts p (l1 ++ x :: l2) = if decide (lastp p None l1 = Some (p x)) then firsts p l else firsts p l1 ++ x :: firsts p l2.
Proof.
  unfold firsts at 1. rewrite heads_app. cbn [heads]. assert (E : forall q, q <= p x -> heads p (Some q) l2 = firsts p l2).
  { intros q Hq. apply heads_other. intros y Hy. split; [|done]. intros [= Eq]. assert (p x < p y) by (apply Hl2; by apply head_Some_elem_of). lia. }
  case_decide as D; [rewrite D, firsts_cut, E by lia; done|]. by rewrite E by lia.
Qed.

Lemma firsts_add_perm y : y ∈ firsts p l -> y ∈ firsts p (l1 ++ x :: l2).
Proof. rewrite firsts_add. case_decide; [done|]. rewrite firsts_cut, !elem_of_app, elem_of_cons. tauto. Qed.

(** The circle of firsts gains the node unless its priority is there already. *)
Lemma add_prio_ok first : head (firsts p l) = Some first ->
  runs_to (if decide (lastp p None l1 = Some (p x)) then Ok (lists pm) else list_add_tail (lists pm) (prio_list x) (prio_list (default first (head l2)))) (lists pm) L
    (prio_list <$> firsts p (l1 ++ x :: l2)) (fun L' => circ L' (prio_list <$> firsts p (l1 ++ x :: l2))).
Proof.
  intros Hf. pose proof (rp_holds _ _ _ _ _ _ R) as H. pose proof (rp_circ _ _ _ _ _ _ R) as HC. rewrite firsts_add. case_decide as D; [by apply runs_to_ret|].
  assert (Hx : x ∉ firsts p l) by (intros Hx; by eapply Hxl, heads_sub). pose proof (rp_single _ _ _ _ _ _ R x HxN Hx) as Hsx.
  assert (Hx' : prio_list x ∉ prio_list <$> firsts p l) by (by rewrite elem_of_prio). rewrite firsts_cut in HC, Hx', Hf. rewrite fmap_app in HC, Hx' |- *. cbn [fmap list_fmap].
  assert (W : forall z a b, z ∈ prio_list x :: a ++ b -> z ∈ a ++ prio_list x :: b) by (intros z a b; rewrite Permutation_middle; done).
  destruct l2 as [|y r]; cbn [head from_option id].
  - rewrite app_nil_r in Hf. destruct (firsts p l1) as [|f fs]; [done|]. injection Hf as ->. rewrite app_nil_r in HC, Hx'. cbn [fmap list_fmap app] in *.
    eapply runs_to_mono; [apply (circ_add_last H _ _ _ HC Hsx Hx')| |by intros]. intros z Hz. rewrite app_comm_cons. apply W. by rewrite app_nil_r.
  - rewrite firsts_cons in *. cbn [fmap list_fmap] in *. eapply runs_to_mono; [apply (circ_add_before H _ _ _ _ HC Hsx Hx')| |by intros]. intros z. apply W.
Qed.

(** The node list gains the node before the first one of a larger priority. *)
Lemma add_node_ok m1 L1 : holds m1 L1 -> (forall k, k ∉ prio_list <$> firsts p (l1 ++ x :: l2) -> L1 !! k = L !! k) ->
  runs_to (list_add_tail m1 (node_list x) (match l2 with y :: _ => node_list y | [] => hd end)) m1 L1
    (hd :: (node_list <$> (l1 ++ x :: l2))) (fun L' => circ L' (hd :: (node_list <$> (l1 ++ x :: l2)))).
Proof.
  intros H1 HK. assert (Hin : forall y, y ∈ firsts p (l1 ++ x :: l2) -> y ∈ N).
  { intros y Hy. apply heads_sub in Hy. rewrite elem_of_app, elem_of_cons in Hy. destruct Hy as [Hy|[->|Hy]]; [|done|]; apply (rp_in _ _ _ _ _ _ R); rewrite El; apply elem_of_app; auto. }
  assert (HC : circ L1 (hd :: (node_list <$> l))).
  { cbn. rewrite HK; [apply (rp_list _ _ _ _ _ _ R)|]. rewrite list_elem_of_fmap. intros (y & E & Hy). by apply (rp_head _ _ _ _ _ _ R y (Hin y Hy)). }
  assert (Hs : L1 !! node_list x = Some []).
  { rewrite HK; [by apply (rp_free _ _ _ _ _ _ R)|]. rewrite list_elem_of_fmap. intros (y & E & Hy). by apply (rp_apart _ _ _ _ _ _ R x y HxN (Hin y Hy)). }
  assert (Hx : node_list x ∉ hd :: (node_list <$> l)).
  { rewrite elem_of_cons, elem_of_node. intros [E|Hc]; [by destruct (rp_head _ _ _ _ _ _ R x HxN)|done]. }
  rewrite El, !fmap_app in *. cbn [fmap list_fmap] in *.
  assert (W : forall z a b, z ∈ node_list x :: hd :: a ++ b -> z ∈ hd :: a ++ node_list x :: b) by (intros z a b; rewrite perm_swap, Permutation_middle; done).
  destruct l2 as [|y r]; cbn [fmap list_fmap] in *.
  - rewrite app_nil_r in *. eapply runs_to_mono; [apply (circ_add_last H1 _ _ _ HC Hs Hx)| |by intros]. intros z Hz. apply W. by rewrite app_nil_r.
  - rewrite app_comm_cons in HC, Hx. eapply runs_to_mono; [apply (circ_add_before H1 _ _ _ _ HC Hs Hx)| |by intros]. intros z. apply W.
Qed.

Lemma add_finish m1 L1 : holds m1 L1 -> (forall k, k ∉ prio_list <$> firsts p (l1 ++ x :: l2) -> L1 !! k = L !! k) -> circ L1 (prio_list <$> firsts p (l1 ++ x :: l2)) ->
  exists m2 L2, list_add_tail m1 (node_list x) (match l2 with y :: _ => node_list y | [] => hd end) = Ok m2 /\ rep p N hd (with_lists pm m2) L2 (l1 ++ x :: l2) /\ frame N hd L L2.
Proof.
  intros H1 K1 C1. destruct (add_node_ok m1 L1 H1 K1) as (m2 & L2 & E2 & H2 & _ & K2 & C2).
  assert (Hin : forall y, y ∈ l1 ++ x :: l2 -> y ∈ N).
  { intros y Hy. rewrite elem_of_app, elem_of_cons in Hy. destruct Hy as [Hy|[->|Hy]]; [|done|]; apply (rp_in _ _ _ _ _ _ R); rewrite El; apply elem_of_app; auto. }
  assert (Hfin : forall y, y ∈ firsts p (l1 ++ x :: l2) -> y ∈ N) by (intros y Hy; by eapply Hin, heads_sub).
  assert (KP : forall y, y ∈ N -> L2 !! prio_list y = L1 !! prio_list y).
  { intros y Hy. apply K2. rewrite elem_of_cons, list_elem_of_fmap. intros [E|(z & E & Hz)]; [by destruct (rp_head _ _ _ _ _ _ R y Hy)|by apply (rp_apart _ _ _ _ _ _ R z y (Hin z Hz) Hy)]. }
  exists m2, L2. split; [done|]. split; [split|].
  - done.
  - done.
  - apply (rp_prio _ _ _ _ _ _ R).
  - done.
  - pose proof (rp_sorted _ _ _ _ _ _ R) as HS. rewrite El in HS. apply psorted_app in HS as (S1 & S2 & S3). apply psorted_app. split; [done|].
    split; [constructor; [done|apply Forall_forall; intros y Hy; specialize (Hl2 y Hy); lia]|]. intros a b Ha Hb. apply elem_of_cons in Hb as [->|Hb]; auto.
  - destruct (firsts p (l1 ++ x :: l2)) as [|f fs] eqn:Ef; [done|]. cbn in C1 |- *. rewrite KP; [done|]. apply Hfin, elem_of_cons; auto.
  - intros y Hy Hny. rewrite KP by done. rewrite K1 by (by rewrite elem_of_prio). apply (rp_single _ _ _ _ _ _ R); [done|]. intros Hc. by apply Hny, firsts_add_perm.
  - intros y Hy Hny. rewrite K2, K1.
    + apply (rp_free _ _ _ _ _ _ R); [done|]. intros Hc. apply Hny. rewrite El in Hc. rewrite elem_of_app, elem_of_cons. apply elem_of_app in Hc. tauto.
    + rewrite list_elem_of_fmap. intros (z & E & Hz). by apply (rp_apart _ _ _ _ _ _ R y z Hy (Hfin z Hz)).
    + rewrite elem_of_cons, elem_of_node. intros [E|Hc]; [by destruct (rp_head _ _ _ _ _ _ R y Hy)|done].
  - apply (rp_apart _ _ _ _ _ _ R).
  - apply (rp_head _ _ _ _ _ _ R).
  - intros k Hk HkN. rewrite K2, K1; [done| |].
    + rewrite list_elem_of_fmap. intros (z & -> & Hz). by destruct (HkN z (Hfin z Hz)).
    + rewrite elem_of_cons, list_elem_of_fmap. intros [E|(z & -> & Hz)]; [done|]. by destruct (HkN z (Hin z Hz)).
Qed.
End Add.

Lemma plist_add_ok x : x ∈ N -> x ∉ l -> exists pm' L', plist_add pm x hd = Ok pm' /\ rep p N hd pm' L' (pinsert p x l) /\ frame N hd L L'.
Proof.
  intros HxN Hxl. pose proof (rp_holds _ _ _ _ _ _ R) as H. pose proof (rp_list _ _ _ _ _ _ R) as HL. pose proof (rp_sorted _ _ _ _ _ _ R) as HS.
  assert (Hx : x ∉ firsts p l) by (intros Hx; by eapply Hxl, heads_sub). pose proof (rp_single _ _ _ _ _ _ R x HxN Hx) as Hsx. pose proof (rp_free _ _ _ _ _ _ R x HxN Hxl) as Hfx.
  destruct (pinsert_split p x l HS) as (l1 & l2 & El & -> & Hl1 & Hl2).
  unfold plist_add, plist_node_empty, plist_head_empty. rewrite (holds_empty H Hsx), (holds_empty H Hfx), (holds_empty H HL). cbn [res_bind].
  assert (E0 : l = [] \/ exists f r, l = f :: r) by (clear; destruct l; eauto). destruct E0 as [E0|(f & r & E0)].
  - rewrite E0. rewrite bool_decide_eq_true_2 by done. assert (El' := El). rewrite E0 in El'. symmetry in El'. apply app_nil in El' as [-> ->].
    destruct (add_finish El HxN Hxl Hl1 Hl2 (lists pm) L H ltac:(done) Hsx) as (m2 & L2 & E2 & R2 & F2). cbn [res_bind] in *. rewrite E2. by exists (with_lists pm m2), L2.
  - rewrite bool_decide_eq_false_2 by (by rewrite E0). unfold plist_first. rewrite (holds_next H HL). replace (head (node_list <$> l)) with (Some (node_list f)) by (by rewrite E0). cbn [res_bind fmap list_fmap head from_option id]. rewrite node_entry_list, (rep_prio x HxN). cbn [res_bind].
    assert (Hh : head (firsts p l) = Some f) by (by rewrite E0). pose proof (firsts_cut El Hl1 Hl2) as Ef. assert (Hne : firsts p l1 ++ firsts p l2 <> []) by (rewrite <- Ef, E0; done).
    assert (Hlen : (length (firsts p l1) < size (nexts (lists pm)))%nat).
    { pose proof (holds_size H HL) as Hsz. rewrite length_fmap, El in Hsz. rewrite length_app in Hsz. pose proof (heads_length p None l1). unfold firsts. lia. }
    assert (Eh : default f (head (firsts p l1 ++ firsts p l2)) = f) by (by rewrite <- Ef, Hh).
    pose proof (plist_add_loop_ok (size (nexts (lists pm))) (p x) [] (firsts p l1) (firsts p l2) None hd f Ef Hne Hh) as HLp.
    rewrite Eh in HLp. rewrite HLp; clear HLp; [|intros y Hy; by eapply Hl1, heads_sub|intros y Hy; apply Hl2; by eapply heads_sub, head_Some_elem_of|done]. cbn [res_bind].
    destruct (add_prio_ok El HxN Hxl Hl1 Hl2 f Hh) as (m1 & L1 & E1 & H1 & _ & K1 & C1).
    destruct (add_finish El HxN Hxl Hl1 Hl2 m1 L1 H1 K1 C1) as (m2 & L2 & E2 & R2 & F2). exists (with_lists pm m2), L2. split; [|done].
    assert (Ec : match match last (firsts p l1) with Some z => Some z | None => None end with None => Ok true | Some pv => q <-- get_prio pm pv; Ok (negb (q =? p x)) end
      = Ok (if decide (lastp p None l1 = Some (p x)) then false else true)).
    { rewrite (heads_last p None l1). fold (firsts p l1). destruct (last (firsts p l1)) as [z|] eqn:Ez; [|by rewrite decide_False].
      rewrite (rep_prio z) by (apply rep_firsts_in; rewrite Ef; apply elem_of_app; left; by apply last_Some_elem_of). cbn [res_bind].
      destruct (decide (Some (p z) = Some (p x))) as [D|D]; [injection D as ->; by rewrite Z.eqb_refl|]. rewrite (proj2 (Z.eqb_neq _ _)); [done|]. congruence. }
    rewrite Ec. cbn [res_bind]. replace (default f (head (firsts p l2))) with (default f (head l2)) by (by destruct l2).
    replace (match firsts p l2 with y :: _ => node_list y | [] => hd end) with (match l2 with y :: _ => node_list y | [] => hd end) by (by destruct l2).
    destruct (decide (lastp p None l1 = Some (p x))); rewrite E1; cbn [res_bind]; rewrite E2; done.
Qed.

(** *** Removal *)

Section Del.
Context {x : Z} {l1 l2 : list Z} (El : l = l1 ++ x :: l2).

Lemma del_in : (x ∈ N) /\ (x ∉ l1 ++ l2) /\ (forall y, y ∈ l1 ++ l2 -> y ∈ N).
Proof.
  pose proof rep_nodup as HN. rewrite El, <- Permutation_middle in HN. apply NoDup_cons in HN as [HN _].
  split; [|split; [done|]]; [|intros y Hy]; apply (rp_in _ _ _ _ _ _ R); rewrite El, elem_of_app, elem_of_cons; [auto|]. apply elem_of_app in Hy. tauto.
Qed.

Lemma firsts_del_same : lastp p None l1 = Some (p x) -> firsts p l = firsts p (l1 ++ l2) /\ x ∉ firsts p l.
Proof.
  intros E. assert (Ef : firsts p l = firsts p (l1 ++ l2)) by (unfold firsts; rewrite El, !heads_app; cbn [heads]; by rewrite decide_True). split; [done|].
  rewrite Ef. intros Hc. apply heads_sub in Hc. by apply del_in.
Qed.

(** The next node takes over as the first of its priority. *)
Lemma firsts_del_next n r : lastp p None l1 <> Some (p x) -> l2 = n :: r -> p n = p x ->
  firsts p l = firsts p l1 ++ x :: heads p (Some (p x)) r /\ firsts p (l1 ++ l2) = firsts p l1 ++ n :: heads p (Some (p x)) r.
Proof.
  intros E -> En. unfold firsts. rewrite El, !heads_app. cbn [heads]. rewrite En. rewrite decide_False by done. rewrite decide_True by done. rewrite decide_False by done. done.
Qed.

Lemma firsts_del_gone : lastp p None l1 <> Some (p x) -> (forall n, head l2 = Some n -> p n <> p x) ->
  firsts p l = firsts p l1 ++ x :: heads p (Some (p x)) l2 /\ firsts p (l1 ++ l2) = firsts p l1 ++ heads p (Some (p x)) l2.
Proof.
  intros E Hn. unfold firsts. rewrite El, !heads_app. cbn [heads]. rewrite decide_False by done. split; [done|]. f_equal. apply heads_other.
  intros y Hy. assert (Hyx : p x < p y).
  { pose proof (rp_sorted _ _ _ _ _ _ R) as HS. rewrite El in HS. apply psorted_app in HS as (_ & HS & _). apply StronglySorted_cons in HS as [HF _]. rewrite Forall_forall in HF.
    pose proof (HF y (head_Some_elem_of _ _ Hy)). specialize (Hn y Hy). cbn in *. lia. }
  split; [|intros [= E']; lia]. intros E'. pose proof (lastp_le p l1 (p y) x) as HL. assert (p y <= p x); [|lia]. apply HL; [|done].
  pose proof (rp_sorted _ _ _ _ _ _ R) as HS. rewrite El, (cons_middle x), app_assoc in HS. by apply psorted_app in HS as (HS & _).
Qed.

Lemma next_cases : (exists n r, l2 = n :: r /\ p n = p x) \/ (forall n, head l2 = Some n -> p n <> p x).
Proof. clear. destruct l2 as [|n r]; [by right|]. destruct (decide (p n = p x)); [left; eauto|right; by intros ? [= <-]]. Qed.

Lemma firsts_del_sub y : y ∈ firsts p l -> y = x \/ y ∈ firsts p (l1 ++ l2).
Proof.
  destruct (decide (lastp p None l1 = Some (p x))) as [E|E]; [destruct (firsts_del_same E) as [-> _]; auto|]. destruct next_cases as [(n & r & E2 & En)|Hn].
  - destruct (firsts_del_next n r E E2 En) as [-> ->]. rewrite !elem_of_app, !elem_of_cons. tauto.
  - destruct (firsts_del_gone E Hn) as [-> ->]. rewrite !elem_of_app, elem_of_cons. tauto.
Qed.

Lemma next_node : get_next (lists pm) (node_list x) = Ok (default hd (node_list <$> head l2)).
Proof.
  pose proof (rp_list _ _ _ _ _ _ R) as HL. rewrite El, fmap_app in HL. cbn [fmap list_fmap] in HL. rewrite (holds_entry_next (rp_holds _ _ _ _ _ _ R) HL). by destruct l2.
Qed.

Lemma del_prio_ok : runs_to (plist_del_prio (lists pm) x hd) (lists pm) L (prio_list <$> (x :: firsts p (l1 ++ l2))) (fun L' => circ L' (prio_list <$> firsts p (l1 ++ l2)) /\ L' !! prio_list x = Some []).
Proof.
  pose proof (rp_holds _ _ _ _ _ _ R) as H. pose proof (rp_circ _ _ _ _ _ _ R) as HC. destruct del_in as (HxN & Hx & Hin). unfold plist_del_prio.
  destruct (decide (lastp p None l1 = Some (p x))) as [E|E].
  - destruct (firsts_del_same E) as [Ef Hxf]. pose proof (rp_single _ _ _ _ _ _ R x HxN Hxf) as Hs. rewrite (holds_empty H Hs), bool_decide_eq_true_2 by done. cbn [res_bind].
    apply runs_to_ret; [done|]. by rewrite <- Ef.
  - destruct next_cases as [(n & r & E2 & En)|Hn].
    + destruct (firsts_del_next n r E E2 En) as [Ef Ef']. rewrite Ef, fmap_app in HC. cbn [fmap list_fmap] in HC. rewrite (circ_empty H _ _ _ HC). cbn [res_bind].
      assert (HnN : n ∈ N) by (apply Hin; rewrite E2, elem_of_app, elem_of_cons; auto).
      assert (Hnf : n ∉ firsts p l).
      { pose proof rep_nodup as HN. rewrite El, E2 in HN. rewrite Ef, elem_of_app, elem_of_cons. rewrite <- !Permutation_middle in HN. apply NoDup_cons in HN as [N1 HN]. apply NoDup_cons in HN as [N2 _].
        rewrite elem_of_cons, elem_of_app in N1. rewrite elem_of_app in N2. intros [Hc|[->|Hc]]; [apply heads_sub in Hc; tauto|tauto|apply heads_sub in Hc; tauto]. }
      pose proof (rp_single _ _ _ _ _ _ R n HnN Hnf) as Hs. rewrite fmap_cons, Ef', !fmap_app, !fmap_cons.
      destruct (bool_decide _) eqn:B.
      * apply bool_decide_eq_true_1, app_nil in B as [B1 B2]. rewrite B1, B2 in *. apply runs_to_ret; [done|]. done.
      * rewrite next_node, E2. cbn [res_bind head fmap option_fmap option_map from_option id].
        rewrite (proj2 (Z.eqb_neq (node_list n) hd)) by (by apply (rp_head _ _ _ _ _ _ R)). rewrite node_entry_list, (holds_empty H Hs), bool_decide_eq_true_2 by done. cbn [res_bind].
        assert (Hnc : prio_list n ∉ (prio_list <$> firsts p l1) ++ prio_list x :: (prio_list <$> heads p (Some (p x)) r)).
        { intros Hc. apply Hnf. rewrite <- elem_of_prio, Ef, fmap_app. done. }
        eapply runs_to_bind; [apply (circ_add_after H _ _ _ _ HC Hs Hnc)| |].
        -- intros z. rewrite !elem_of_cons, !elem_of_app, !elem_of_cons. tauto.
        -- intros m1 L1 H1 _ _ C1. eapply runs_to_mono; [apply (circ_del H1 _ _ _ C1); by destruct (prio_list <$> firsts p l1)| |by intros].
           intros z. rewrite !elem_of_cons, !elem_of_app, !elem_of_cons. tauto.
    + destruct (firsts_del_gone E Hn) as [Ef Ef']. rewrite Ef, fmap_app in HC. cbn [fmap list_fmap] in HC. rewrite (circ_empty H _ _ _ HC). cbn [res_bind]. rewrite fmap_cons, Ef', !fmap_app.
      destruct (bool_decide _) eqn:B.
      * apply bool_decide_eq_true_1, app_nil in B as [B1 B2]. rewrite B1, B2 in *. by apply runs_to_ret.
      * apply bool_decide_eq_false_1 in B. rewrite next_node. cbn [res_bind].
        assert (Es : (if default hd (node_list <$> head l2) =? hd then Ok (lists pm)
           else e <-- list_empty (lists pm) (prio_list (node_entry (default hd (node_list <$> head l2))));
                if (e : bool) then list_add (lists pm) (prio_list (node_entry (default hd (node_list <$> head l2)))) (prio_list x) else Ok (lists pm)) = Ok (lists pm)).
        { destruct l2 as [|n r] eqn:E2; [cbn; by rewrite Z.eqb_refl|]. cbn [head fmap option_fmap option_map from_option id]. rewrite node_entry_list.
          assert (HnN : n ∈ N) by (apply Hin; rewrite elem_of_app, elem_of_cons; auto). rewrite (proj2 (Z.eqb_neq (node_list n) hd)) by (by apply (rp_head _ _ _ _ _ _ R)).
          cbn [heads] in HC. rewrite decide_False in HC by (intros [= E']; by apply (Hn n)). cbn [fmap list_fmap] in HC.
          rewrite (cons_middle (prio_list x)), app_assoc in HC. rewrite (circ_empty H _ _ _ HC). cbn [res_bind]. by rewrite bool_decide_eq_false_2 by (by destruct (prio_list <$> firsts p l1)). }
        rewrite Es. cbn [res_bind]. eapply runs_to_mono; [apply (circ_del H _ _ _ HC); done| |by intros].
        intros z. rewrite !elem_of_cons, !elem_of_app, !elem_of_cons. tauto.
Qed.

Lemma plist_del_ok : exists pm' L', plist_del pm x hd = Ok pm' /\ rep p N hd pm' L' (l1 ++ l2) /\ frame N hd L L' /\ prios pm' = prios pm.
Proof.
  destruct del_in as (HxN & Hx & Hin). destruct del_prio_ok as (m1 & L1 & E1 & H1 & _ & K1 & C1 & S1). unfold plist_del. rewrite E1. cbn [res_bind].
  assert (Hfin : forall y, y ∈ firsts p (l1 ++ l2) -> y ∈ N) by (intros y Hy; by eapply Hin, heads_sub).
  assert (Hk1 : forall y, y ∈ x :: firsts p (l1 ++ l2) -> y ∈ N) by (intros y Hy; apply elem_of_cons in Hy as [->|Hy]; auto).
  assert (KN : forall y, y ∈ N -> L1 !! node_list y = L !! node_list y).
  { intros y Hy. apply K1. rewrite list_elem_of_fmap. intros (z & E & Hz). by apply (rp_apart _ _ _ _ _ _ R y z Hy (Hk1 z Hz)). }
  assert (HC : circ L1 ((hd :: (node_list <$> l1)) ++ node_list x :: (node_list <$> l2))).
  { pose proof (rp_list _ _ _ _ _ _ R) as HL. rewrite El, fmap_app in HL. cbn. rewrite K1; [done|]. rewrite list_elem_of_fmap. intros (z & E & Hz). by destruct (rp_head _ _ _ _ _ _ R z (Hk1 z Hz)). }
  destruct (circ_del H1 _ _ _ HC) as (m2 & L2 & E2 & H2 & _ & K2 & C2 & S2); [done|]. rewrite E2. cbn [res_bind]. exists (with_lists pm m2), L2.
  assert (Hall : forall z, z ∈ l1 ++ x :: l2 -> z ∈ N) by (rewrite <- El; apply (rp_in _ _ _ _ _ _ R)).
  assert (K2' : forall k, k <> hd -> (forall z, z ∈ l1 ++ x :: l2 -> k <> node_list z) -> L2 !! k = L1 !! k).
  { intros k Hk Hz. apply K2. cbn. rewrite elem_of_cons. intros [->|Hc]; [done|]. rewrite <- (fmap_cons node_list), <- fmap_app, list_elem_of_fmap in Hc. destruct Hc as (z & -> & Hz'). by apply (Hz z). }
  assert (KP : forall y, y ∈ N -> L2 !! prio_list y = L1 !! prio_list y).
  { intros y Hy. apply K2'; [by apply (rp_head _ _ _ _ _ _ R)|]. intros z Hz E. by apply (rp_apart _ _ _ _ _ _ R z y (Hall z Hz) Hy). }
  split; [done|]. split; [split|split; [|done]].
  - done.
  - rewrite fmap_app. done.
  - apply (rp_prio _ _ _ _ _ _ R).
  - done.
  - pose proof (rp_sorted _ _ _ _ _ _ R) as HS. rewrite El in HS. apply psorted_app in HS as (T1 & T2 & T3). apply StronglySorted_cons in T2 as [_ T2].
    apply psorted_app. split; [done|]. split; [done|]. intros a b Ha Hb. apply T3; [done|]. apply elem_of_cons; auto.
  - destruct (firsts p (l1 ++ l2)) as [|f fs] eqn:Ef; [done|]. cbn in C1 |- *. rewrite KP; [done|]. apply Hfin, elem_of_cons; auto.
  - intros y Hy Hny. rewrite KP by done. destruct (decide (y = x)) as [->|Hyx]; [done|]. rewrite K1 by (rewrite elem_of_prio, elem_of_cons; tauto).
    apply (rp_single _ _ _ _ _ _ R); [done|]. intros Hc. by destruct (firsts_del_sub y Hc).
  - intros y Hy Hny. destruct (decide (y = x)) as [->|Hyx]; [done|].
    assert (Hnl : y ∉ l1 ++ x :: l2) by (rewrite elem_of_app, elem_of_cons; rewrite elem_of_app in Hny; tauto).
    rewrite K2', KN by (first [done | by apply (rp_head _ _ _ _ _ _ R) | intros z Hz E; apply Hnl; unfold node_list in E; by replace y with z by lia]).
    apply (rp_free _ _ _ _ _ _ R); [done|]. by rewrite El.
  - apply (rp_apart _ _ _ _ _ _ R).
  - apply (rp_head _ _ _ _ _ _ R).
  - intros k Hk HkN. rewrite K2', K1; [done| |done|].
    + rewrite list_elem_of_fmap. intros (z & -> & Hz). by destruct (HkN z (Hk1 z Hz)).
    + intros z Hz ->. by destruct (HkN z (Hall z Hz)).
Qed.
End Del.

(** *** Moving behind the nodes of the same priority *)

Lemma node_circ x l1 l2 : l = l1 ++ x :: l2 -> circ L ((hd :: (node_list <$> l1)) ++ node_list x :: (node_list <$> l2)).
Proof. intros El. pose proof (rp_list _ _ _ _ _ _ R) as HL. rewrite El, fmap_app in HL. exact HL. Qed.

Lemma requeue_loop_ok fuel q a n r1 r2 : l = a ++ n :: r1 ++ r2 -> (forall y, y ∈ r1 -> p y = q) -> (forall y, head r2 = Some y -> p y <> q) -> (length r1 < fuel)%nat ->
  plist_requeue_loop fuel pm q n hd = Ok (match r2 with y :: _ => node_list y | [] => hd end).
Proof.
  revert a n r1. induction fuel as [|fuel IH]; intros a n r1 El H1 H2 Hf; [lia|]. cbn [plist_requeue_loop]. rewrite (next_node El). cbn [res_bind].
  assert (Hin : forall y, y ∈ r1 ++ r2 -> y ∈ N) by (intros y Hy; apply (rp_in _ _ _ _ _ _ R); rewrite El; apply elem_of_app; right; apply elem_of_cons; auto).
  destruct r1 as [|z r1]; cbn [app head fmap option_fmap option_map from_option id].
  - destruct r2 as [|y r2]; cbn [head fmap option_fmap option_map from_option id]; [by rewrite Z.eqb_refl|]. assert (HyN : y ∈ N) by (apply Hin, elem_of_cons; auto).
    rewrite (proj2 (Z.eqb_neq (node_list y) hd)) by (by apply (rp_head _ _ _ _ _ _ R)). rewrite node_entry_list, (rep_prio y HyN). cbn [res_bind].
    rewrite (proj2 (Z.eqb_neq q (p y))); [done|]. intros ->. by apply (H2 y).
  - assert (HzN : z ∈ N) by (apply Hin, elem_of_cons; auto). rewrite (proj2 (Z.eqb_neq (node_list z) hd)) by (by apply (rp_head _ _ _ _ _ _ R)).
    rewrite node_entry_list, (rep_prio z HzN). cbn [res_bind]. rewrite (H1 z) by (apply elem_of_cons; auto). rewrite Z.eqb_refl.
    apply (IH (a ++ [n]) z r1); [by rewrite El, <- app_assoc|intros y Hy; apply H1, elem_of_cons; auto|done|cbn in Hf; lia].
Qed.

(** The nodes of priority [q] at the front of a sequence. *)
Lemma prio_run q (r : list Z) : exists r1 r2, r = r1 ++ r2 /\ (forall y, y ∈ r1 -> p y = q) /\ (forall y, head r2 = Some y -> p y <> q).
Proof.
  induction r as [|y r IH]; [exists [], []; split; [done|]; split; [intros y Hy; by apply elem_of_nil in Hy|done]|].
  destruct (decide (p y = q)) as [E|E].
  - destruct IH as (r1 & r2 & -> & H1 & H2). exists (y :: r1), r2. split; [done|]. split; [|done]. intros z Hz. apply elem_of_cons in Hz as [->|Hz]; auto.
  - exists [], (y :: r). split; [done|]. split; [intros z Hz; by apply elem_of_nil in Hz|by intros ? [= <-]].
Qed.
End Rep.

Lemma requeue_place {p x l1 n r1 r2} : psorted p (l1 ++ x :: n :: r1 ++ r2) -> p n = p x -> (forall y, y ∈ r1 -> p y = p x) -> (forall y, head r2 = Some y -> p y <> p x) ->
  (forall y, y ∈ l1 ++ n :: r1 -> p y <= p x) /\ (forall y, y ∈ r2 -> p x < p y).
Proof.
  intros HS En H1 H2. apply psorted_app in HS as (_ & HS & H3). apply StronglySorted_cons in HS as [HF HS]. rewrite Forall_forall in HF. split.
  - intros y. rewrite elem_of_app, elem_of_cons. intros [Hy|[->|Hy]]; [|lia|by rewrite H1]. apply H3; [done|]. apply elem_of_cons; auto.
  - destruct r2 as [|z r2]; [intros y Hy; by apply elem_of_nil in Hy|].
    assert (Hz : p x < p z) by (specialize (H2 z eq_refl); assert (p x <= p z); [apply HF; rewrite elem_of_cons, elem_of_app, elem_of_cons; auto|lia]).
    intros y Hy. apply elem_of_cons in Hy as [->|Hy]; [done|]. apply StronglySorted_cons in HS as [_ HS]. fold (psorted p (r1 ++ z :: r2)) in HS. apply psorted_app in HS as (_ & HS & _).
    apply StronglySorted_cons in HS as [HF' _]. rewrite Forall_forall in HF'. specialize (HF' y Hy). cbn in HF'. lia.
Qed.

Lemma plist_requeue_ok {p N hd pm L l} (R : rep p N hd pm L l) x : x ∈ l ->
  exists pm' L', plist_requeue pm x hd = Ok pm' /\ rep p N hd pm' L' (pinsert p x (premove x l)) /\ frame N hd L L'.
Proof.
  intros Hx. apply list_elem_of_split in Hx as (l1 & l2 & El). pose proof (rp_holds _ _ _ _ _ _ R) as H. pose proof (rp_list _ _ _ _ _ _ R) as HL. pose proof (rp_sorted _ _ _ _ _ _ R) as HS.
  destruct (del_in R El) as (HxN & Hx & Hin). pose proof (rep_nodup R) as HND. rewrite El in HS.
  assert (Epr : premove x l = l1 ++ l2) by (rewrite El; apply (premove_eq p x l1 l2); by rewrite El in HND). rewrite Epr.
  assert (Hl1 : forall y, y ∈ l1 -> p y <= p x) by (apply psorted_app in HS as (_ & _ & H3); intros y Hy; apply H3; [done|apply elem_of_cons; auto]).
  assert (Hsame : (forall y, y ∈ l2 -> p x < p y) -> pinsert p x (l1 ++ l2) = l) by (intros Hl2; by rewrite pinsert_at, El).
  unfold plist_requeue, plist_head_empty, plist_node_empty. rewrite (holds_empty H HL), bool_decide_eq_false_2 by (rewrite El; by destruct l1). cbn [res_bind].
  rewrite (circ_empty H _ _ _ (node_circ R x l1 l2 El)), bool_decide_eq_false_2 by done. cbn [res_bind]. unfold plist_last. rewrite (holds_prev H HL). cbn [res_bind].
  destruct l2 as [|n r].
  - replace (last (node_list <$> l)) with (Some (node_list x)) by (rewrite El, fmap_app; cbn [fmap list_fmap]; by rewrite last_snoc). cbn [from_option id]. rewrite node_entry_list, Z.eqb_refl. exists pm, L. rewrite Hsame by (intros y Hy; by apply elem_of_nil in Hy). done.
  - assert (Elast : exists z, last (node_list <$> l) = Some (node_list z) /\ z <> x).
    { destruct (last (n :: r)) as [z|] eqn:Ez; [|by apply last_None in Ez]. exists z. rewrite El, fmap_app, last_app, !fmap_cons, last_cons, <- fmap_cons, fmap_last, Ez. split; [done|].
      intros ->. apply Hx, elem_of_app; right. by apply last_Some_elem_of. }
    destruct Elast as (z & -> & Hzx). cbn [from_option id]. rewrite node_entry_list, (proj2 (Z.eqb_neq x z)) by done.
    unfold plist_next. rewrite (next_node R El). cbn [head fmap option_fmap option_map from_option id res_bind]. rewrite node_entry_list.
    assert (HnN : n ∈ N) by (apply Hin; rewrite elem_of_app, elem_of_cons; auto). rewrite (rep_prio R x HxN), (rep_prio R n HnN). cbn [res_bind].
    destruct (Z.eqb_spec (p x) (p n)) as [En|En]; cbn [negb].
    + destruct (plist_del_ok R El) as (pm1 & L1 & E1 & R1 & F1 & _). rewrite E1. cbn [res_bind]. destruct (prio_run (p := p) (p x) r) as (r1 & r2 & -> & H1 & H2).
      rewrite (requeue_loop_ok R1 _ (p x) l1 n r1 r2); [|done|done|done|].
      2: { pose proof (holds_size (rp_holds _ _ _ _ _ _ R1) (rp_list _ _ _ _ _ _ R1)) as Hsz. rewrite length_fmap, length_app in Hsz. cbn in Hsz. rewrite length_app in Hsz. lia. }
      cbn [res_bind]. destruct (requeue_place HS (eq_sym En) H1 H2) as [P1 P2].
      assert (El' : l1 ++ n :: r1 ++ r2 = (l1 ++ n :: r1) ++ r2) by (by rewrite <- app_assoc).
      assert (Ef : firsts p ((l1 ++ n :: r1) ++ x :: r2) = firsts p (l1 ++ n :: r1 ++ r2)).
      { rewrite (firsts_add El' P1 P2), decide_True; [done|]. unfold lastp. destruct (last (l1 ++ n :: r1)) as [w|] eqn:Ew; [|apply last_None in Ew; by destruct l1].
        rewrite last_app in Ew. destruct (last (n :: r1)) as [w'|] eqn:Ew'; [|by apply last_None in Ew']. injection Ew as ->.
        apply last_Some_elem_of, elem_of_cons in Ew' as [->|Hw]; [congruence|]. by rewrite H1. }
      destruct (add_finish R1 El' HxN Hx P1 P2 (lists pm1) L1 (rp_holds _ _ _ _ _ _ R1)) as (m2 & L2 & E2 & R2 & F2); [done|rewrite Ef; apply (rp_circ _ _ _ _ _ _ R1)|].
      rewrite E2. cbn [res_bind]. exists (with_lists pm1 m2), L2. split; [done|]. rewrite El', pinsert_at by done. split; [done|]. intros k Hk HkN. by rewrite F2, F1.
    + exists pm, L. split; [done|]. split; [|done]. rewrite Hsame; [done|]. intros y Hy.
      apply psorted_app in HS as (_ & HS & _). apply StronglySorted_cons in HS as [HF HS]. apply StronglySorted_cons in HS as [HF' _]. rewrite Forall_forall in HF, HF'.
      pose proof (HF n ltac:(apply elem_of_cons; auto)) as Hn. cbn in Hn. apply elem_of_cons in Hy as [->|Hy]; [lia|]. specialize (HF' y Hy). cbn in HF'. lia.
Qed.

(** ** The operations as one machine *)

Inductive plop := PAdd (x : Z) | PDel (x : Z) | PRequeue (x : Z).

Definition run_plop (pm : plist_mem) (hd : Z) (o : plop) : res plist_mem :=
  match o with PAdd x => plist_add pm x hd | PDel x => plist_del pm x hd | PRequeue x => plist_requeue pm x hd end.
Fixpoint run_plops (pm : plist_mem) (hd : Z) (os : list plop) : res plist_mem :=
  match os with o :: os => pm <-- run_plop pm hd o; run_plops pm hd os | [] => Ok pm end.

(** The same operations on a sequence, and when they may be used. *)
Definition spec_plop (p : Z -> Z) (l : list Z) (o : plop) : list Z :=
  match o with PAdd x => pinsert p x l | PDel x => premove x l | PRequeue x => pinsert p x (premove x l) end.
Definition plop_ok (N l : list Z) (o : plop) : Prop := match o with PAdd x => x ∈ N /\ x ∉ l | PDel x | PRequeue x => x ∈ l end.
Fixpoint plops_ok (p : Z -> Z) (N l : list Z) (os : list plop) : Prop :=
  match os with o :: os => plop_ok N l o /\ plops_ok p N (spec_plop p l o) os | [] => True end.

Lemma plop_step {p N hd pm L l} (R : rep p N hd pm L l) o : plop_ok N l o -> exists pm' L', run_plop pm hd o = Ok pm' /\ rep p N hd pm' L' (spec_plop p l o) /\ frame N hd L L'.
Proof.
  destruct o as [x|x|x]; cbn.
  - intros [HN Hl]. by apply (plist_add_ok R).
  - intros Hx. pose proof (rep_nodup R) as HND. apply list_elem_of_split in Hx as (l1 & l2 & El). destruct (plist_del_ok R El) as (pm' & L' & E & R' & F & _).
    exists pm', L'. rewrite El in HND |- *. by rewrite (premove_eq p).
  - by apply (plist_requeue_ok R).
Qed.

Lemma plops_run {p N hd} os pm L l : rep p N hd pm L l -> plops_ok p N l os ->
  exists pm' L', run_plops pm hd os = Ok pm' /\ rep p N hd pm' L' (fold_left (spec_plop p) os l) /\ frame N hd L L'.
Proof.
  revert pm L l. induction os as [|o os IH]; intros pm L l R; cbn; [by exists pm, L|]. intros [Ho Hos]. destruct (plop_step R o Ho) as (pm1 & L1 & -> & R1 & F1).
  destruct (IH pm1 L1 _ R1 Hos) as (pm2 & L2 & E2 & R2 & F2). exists pm2, L2. split; [done|]. split; [done|]. intros k Hk HkN. by rewrite F2, F1.
Qed.

(** *** Initialisation *)

(** The structures do not overlap. *)
Definition layout (N : list Z) (hd : Z) : Prop :=
  (forall x y, x ∈ N -> y ∈ N -> x <> y -> x + 40 <= y \/ y + 40 <= x) /\ (forall x, x ∈ N -> hd + 16 <= x \/ x + 40 <= hd).

Fixpoint init_nodes (pm : plist_mem) (p : Z -> Z) (N : list Z) : res plist_mem :=
  match N with x :: N => pm <-- plist_node_init pm x (p x); init_nodes pm p N | [] => Ok pm end.
Definition init_plist (pm : plist_mem) (hd : Z) (p : Z -> Z) (N : list Z) : res plist_mem := pm <-- plist_head_init pm hd; init_nodes pm p N.

(** What has been initialised so far: the head and the nodes [D], each alone on its lists. *)
Record inited (p : Z -> Z) (hd : Z) (D : list Z) (pm : plist_mem) (L : gmap Z (list Z)) : Prop := {
  in_holds : holds (lists pm) L;
  in_keys k : is_Some (L !! k) <-> k = hd \/ exists x, x ∈ D /\ (k = prio_list x \/ k = node_list x);
  in_alone k l : L !! k = Some l -> l = [];
  in_prio x : x ∈ D -> prios pm !! x = Some (p x) }.

Lemma inited_unused p hd D pm L k : inited p hd D pm L -> k <> hd -> (forall x, x ∈ D -> k <> prio_list x /\ k <> node_list x) -> unused L k.
Proof.
  intros I Hk HD h l Hl Hc. assert (HS : is_Some (L !! h)) by eauto. rewrite (in_alone _ _ _ _ _ I h l Hl) in Hc. apply list_elem_of_singleton in Hc as ->.
  apply (in_keys _ _ _ _ _ I) in HS as [->|(x & Hx & [->| ->])]; [done| |]; by destruct (HD x Hx).
Qed.

Lemma init_node_ok p hd N D pm L x : layout N hd -> (forall y, y ∈ x :: D -> y ∈ N) -> x ∉ D -> inited p hd D pm L -> is_Some (prios pm !! x) -> allocated (lists pm) (prio_list x) -> allocated (lists pm) (node_list x) ->
  exists pm', plist_node_init pm x (p x) = Ok pm' /\ same_nodes (lists pm) (lists pm') /\ (forall y, is_Some (prios pm !! y) -> is_Some (prios pm' !! y)) /\ inited p hd (x :: D) pm' (<[node_list x := []]> (<[prio_list x := []]> L)).
Proof.
  intros [HL1 HL2] HN Hx I [v Hv] A1 A2. assert (HxN : x ∈ N) by (apply HN, elem_of_cons; auto). pose proof (HL2 x HxN) as Hhd.
  assert (Hsep : forall y, y ∈ D -> x + 40 <= y \/ y + 40 <= x) by (intros y Hy; apply HL1; [done|apply HN, elem_of_cons; auto|by intros ->]).
  unfold plist_node_init. rewrite Hv. pose proof (in_holds _ _ _ _ _ I) as H.
  destruct (init_step H (prio_list x)) as (m1 & E1 & H1 & S1); [|done|].
  { apply (inited_unused p hd D pm L _ I); [unfold prio_list; lia|]. intros y Hy. specialize (Hsep y Hy). unfold prio_list, node_list. lia. }
  rewrite E1. cbn [res_bind]. destruct (init_step H1 (node_list x)) as (m2 & E2 & H2 & S2); [|by apply S1|].
  { intros h l Hl Hc. apply lookup_insert_Some in Hl as [[<- <-]|[_ Hl]].
    - apply list_elem_of_singleton in Hc. unfold prio_list, node_list in Hc. lia.
    - revert h l Hl Hc. apply (inited_unused p hd D pm L _ I); [unfold node_list; lia|]. intros y Hy. specialize (Hsep y Hy). unfold prio_list, node_list. lia. }
  rewrite E2. cbn [res_bind]. eexists. split; [done|]. cbn [lists prios]. split; [intros z; by rewrite (S2 z), (S1 z)|].
  split; [intros y; rewrite lookup_insert_is_Some'; auto|]. split; cbn [lists prios].
  - done.
  - intros k. rewrite !lookup_insert_is_Some', (in_keys _ _ _ _ _ I). setoid_rewrite elem_of_cons. split.
    + intros [<-|[<-|[->|(y & Hy & Hk)]]]; [right; exists x; auto|right; exists x; auto|auto|right; exists y; auto].
    + intros [->|(y & [->|Hy] & [->| ->])]; [auto|auto|auto|right; right; right; exists y; auto|right; right; right; exists y; auto].
  - intros k l Hk. apply lookup_insert_Some in Hk as [[_ <-]|[_ Hk]]; [done|]. apply lookup_insert_Some in Hk as [[_ <-]|[_ Hk]]; [done|]. by apply (in_alone _ _ _ _ _ I k).
  - intros y Hy. apply elem_of_cons in Hy as [->|Hy]; [apply lookup_insert_eq|]. rewrite lookup_insert_ne by (by intros ->). by apply (in_prio _ _ _ _ _ I).
Qed.

Lemma init_nodes_ok p hd N : layout N hd -> forall M D pm L, NoDup M -> (forall y, y ∈ M -> y ∉ D) -> (forall y, y ∈ M \/ y ∈ D -> y ∈ N) -> inited p hd D pm L ->
  (forall y, y ∈ M -> is_Some (prios pm !! y) /\ allocated (lists pm) (prio_list y) /\ allocated (lists pm) (node_list y)) ->
  exists pm' L' D', init_nodes pm p M = Ok pm' /\ inited p hd D' pm' L' /\ (forall y, y ∈ D' <-> y ∈ M \/ y ∈ D).
Proof.
  intros HL. induction M as [|x M IH]; intros D pm L HND HD HN I HA; [exists pm, L, D; split; [done|]; split; [done|]; intros y; rewrite elem_of_nil; tauto|].
  apply NoDup_cons in HND as [Hx HND]. destruct (HA x ltac:(apply elem_of_cons; auto)) as (A0 & A1 & A2). cbn [init_nodes].
  destruct (init_node_ok p hd N D pm L x HL) as (pm1 & E1 & S1 & P1 & I1); try done.
  { intros y Hy. apply HN. rewrite elem_of_cons in *. tauto. }
  { apply HD, elem_of_cons; auto. }
  rewrite E1. cbn [res_bind]. edestruct (IH (x :: D) pm1) as (pm2 & L2 & D2 & E2 & I2 & HD2); [done| | |exact I1| |].
  - intros y Hy. rewrite elem_of_cons. intros [->|Hc]; [done|]. apply (HD y); [|done]. apply elem_of_cons; auto.
  - intros y Hy. apply HN. rewrite elem_of_cons in *. tauto.
  - intros y Hy. destruct (HA y ltac:(apply elem_of_cons; auto)) as (B0 & B1 & B2). split; [by apply P1|]. split; by apply S1.
  - exists pm2, L2, D2. split; [done|]. split; [done|]. intros y. rewrite HD2, !elem_of_cons. tauto.
Qed.

Lemma init_plist_ok p N hd pm : NoDup N -> layout N hd -> allocated (lists pm) hd ->
  (forall x, x ∈ N -> is_Some (prios pm !! x) /\ allocated (lists pm) (prio_list x) /\ allocated (lists pm) (node_list x)) ->
  exists pm' L, init_plist pm hd p N = Ok pm' /\ rep p N hd pm' L [].
Proof.
  intros HND HL Hhd HA. unfold init_plist, plist_head_init. destruct (init_step (holds_none (lists pm)) hd) as (m1 & E1 & H1 & S1); [intros h l Hl; by rewrite lookup_empty in Hl|done|].
  rewrite E1. cbn [res_bind]. destruct (init_nodes_ok p hd N HL N [] (with_lists pm m1) (<[hd := []]> ∅) HND) as (pm' & L & D & E & I & HD).
  - intros y _ Hy. by apply elem_of_nil in Hy.
  - intros y. rewrite elem_of_nil. tauto.
  - split; cbn [lists with_lists prios]; [done| | |intros y Hy; by apply elem_of_nil in Hy].
    + intros k. rewrite lookup_insert_is_Some', lookup_empty. split; [intros [->|[v Hv]]; [auto|done]|]. intros [->|(x & Hx & _)]; [auto|by apply elem_of_nil in Hx].
    + intros k l Hk. apply lookup_insert_Some in Hk as [[_ <-]|[_ Hk]]; [done|by rewrite lookup_empty in Hk].
  - intros y Hy. destruct (HA y Hy) as (B0 & B1 & B2). split; [done|]. split; by apply S1.
  - exists pm', L. split; [done|]. assert (HDN : forall y, y ∈ D <-> y ∈ N) by (intros y; rewrite HD, elem_of_nil; tauto).
    assert (HA' : forall k, k = hd \/ (exists x, x ∈ N /\ (k = prio_list x \/ k = node_list x)) -> L !! k = Some []).
    { intros k Hk. assert (HS : is_Some (L !! k)) by (apply (in_keys _ _ _ _ _ I); setoid_rewrite HDN; done). destruct HS as [l Hl]. by rewrite Hl, (in_alone _ _ _ _ _ I k l Hl). }
    destruct HL as [HL1 HL2]. split.
    + apply (in_holds _ _ _ _ _ I).
    + apply HA'; auto.
    + intros x Hx. apply (in_prio _ _ _ _ _ I). by apply HDN.
    + intros x Hx. by apply elem_of_nil in Hx.
    + constructor.
    + done.
    + intros x Hx _. apply HA'. right; exists x; auto.
    + intros x Hx _. apply HA'. right; exists x; auto.
    + intros x y Hx Hy. destruct (decide (x = y)) as [->|Hne]; [unfold node_list, prio_list; lia|]. specialize (HL1 x y Hx Hy Hne). unfold node_list, prio_list. lia.
    + intros x Hx. specialize (HL2 x Hx). unfold node_list, prio_list. lia.
Qed.

(** C33: a priority list is a sequence sorted by priority, in order of arrival within a priority.  The head and the nodes [N],
    in memory that does not overlap, are initialised; any sequence of additions of nodes that are off the list, and of
    removals and requeueings of nodes on it, then runs without a fault, without a failed BUG_ON and within the fuel of
    its loops.  It leaves the nodes of the sequence that insertion behind the nodes of no larger priority gives:
    iterating reads it back, the first and the last node and the emptiness test are those of the sequence. *)
Theorem plist_refines p N hd pm os : NoDup N -> layout N hd -> allocated (lists pm) hd ->
  (forall x, x ∈ N -> is_Some (prios pm !! x) /\ allocated (lists pm) (prio_list x) /\ allocated (lists pm) (node_list x)) -> plops_ok p N [] os ->
  exists pm', (pm <-- init_plist pm hd p N; run_plops pm hd os) = Ok pm' /\
    let l := fold_left (spec_plop p) os [] in
    plist_for_each pm' hd = Ok l /\ psorted p l /\ plist_head_empty pm' hd = Ok (bool_decide (l = [])) /\
    (forall x, head l = Some x -> plist_first pm' hd = Ok x) /\ (forall x, last l = Some x -> plist_last pm' hd = Ok x).
Proof.
  intros HND HL Hhd HA Hos. destruct (init_plist_ok p N hd pm HND HL Hhd HA) as (pm0 & L0 & -> & R0). cbn [res_bind].
  destruct (plops_run os pm0 L0 [] R0 Hos) as (pm' & L' & E & R & _). exists pm'. split; [done|]. cbv zeta. set (l := fold_left _ _ _) in *.
  pose proof (rp_holds _ _ _ _ _ _ R) as H. pose proof (rp_list _ _ _ _ _ _ R) as Hl. split; [|split; [exact (rp_sorted _ _ _ _ _ _ R)|split; [|split]]].
  - unfold plist_for_each. rewrite (for_each_ok H Hl). cbn [res_bind]. f_equal. generalize l. intros k. induction k as [|x k IH]; [done|]. rewrite !fmap_cons, node_entry_list. by f_equal.
  - unfold plist_head_empty. rewrite (holds_empty H Hl). f_equal. apply bool_decide_ext. by destruct l.
  - intros x Hx. unfold plist_first. rewrite (holds_next H Hl). destruct l; [done|]. injection Hx as ->. cbn. by rewrite node_entry_list.
  - intros x Hx. unfold plist_last. rewrite (holds_prev H Hl), fmap_last, Hx. cbn. by rewrite node_entry_list.
Qed.

(** Three nodes of priorities 5, 7, 5 and a head, uninitialised. *)
Definition three_plist : plist_mem :=
  let g := list_to_map ((fun i => (i, 0)) <$> [16; 108; 124; 208; 224; 308; 324]) in mk_plist (mk_lists g g) (list_to_map ((fun i => (i, 0)) <$> [100; 200; 300])).
Definition three_prio (x : Z) : Z := if x =? 200 then 7 else 5.

Lemma plist_refines_witness : exists pm', (pm <-- init_plist three_plist 16 three_prio [100; 200; 300]; run_plops pm 16 [PAdd 200; PAdd 100; PAdd 300; PRequeue 100; PDel 200; PAdd 200]) = Ok pm' /\
  plist_for_each pm' 16 = Ok [300; 100; 200].
Proof.
  destruct (plist_refines three_prio [100; 200; 300] 16 three_plist [PAdd 200; PAdd 100; PAdd 300; PRequeue 100; PDel 200; PAdd 200]) as (pm' & E & Hl & _).
  - apply (bool_decide_unpack _). by vm_compute.
  - split; [intros x y Hx Hy Hne|intros x Hx]; rewrite !elem_of_cons, elem_of_nil in *; lia.
  - split; by eexists.
  - intros x Hx. rewrite !elem_of_cons, elem_of_nil in Hx. destruct Hx as [->|[->|[->|[]]]]; (split; [by eexists|]; split; split; by eexists).
  - cbn. repeat match goal with |- _ /\ _ => split | |- True => exact I | |- _ => apply (bool_decide_unpack _); by vm_compute end.
  - exists pm'. split; [exact E|]. exact Hl.
Defined.
