(* ===== verification/Sort.v ===== *)
(** * Heapsort (lib/sort.c)

    [sort_r] sorts an array in place with byte offsets, a comparison function
    and a swap function.  The loops are written over an abstract memory with a
    comparison and a swap of two offsets, and instantiated twice: on the bytes of
    the array, with the word- and byte-wise swaps of the source, and on the list
    of its elements.  The first refines the second; on elements the result is
    sorted and a permutation of the input. *)

From S2P Require Import Prelude.
From Stdlib Require Import Permutation Sorted.
Local Open Scope res_scope.

(** ** The algorithm over an abstract memory *)

(** [parent]: the offset of the parent of the heap element at offset [i]; [size]
    is subtracted once more when [i - size] is an odd multiple of it. *)
Definition parent (i lsbit size : Z) : Z :=
  let i := u64 (i - size) in
  let i := u64 (i - Z.land size (u64 (- Z.land i lsbit))) in
  i / 2.

Section algorithm.
Context {M : Type}.
(** [do_cmp(base + x, base + y) >= 0] and [do_swap(base + x, base + y)]. *)
Context (cmp_ge : M -> Z -> Z -> res bool) (do_swap : M -> Z -> Z -> res M).
Context (size lsbit : Z).

(** [for (b = a; c = 2*b + size, (d = c + size) < n;)]: the path to a leaf; the
    final [b] includes the special case of a last leaf without a sibling. *)
Fixpoint sift_path (fuel : nat) (m : M) (n b : Z) : res Z :=
  match fuel with
  | O => Fault NoFuel
  | S fuel =>
    let c := u64 (2 * b + size) in
    let d := u64 (c + size) in
    if d <? n then
      ge <-- cmp_ge m c d;
      sift_path fuel m n (if (ge : bool) then c else d)
    else if d =? n then Ok c else Ok b
  end.

(** [while (b != a && do_cmp(base + a, base + b) >= 0) b = parent(b);] *)
Fixpoint backtrack (fuel : nat) (m : M) (a b : Z) : res Z :=
  match fuel with
  | O => Fault NoFuel
  | S fuel =>
    if b =? a then Ok b
    else
      ge <-- cmp_ge m a b;
      if (ge : bool) then backtrack fuel m a (parent b lsbit size) else Ok b
  end.

(** [while (b != a) { b = parent(b); do_swap(base + b, base + c); }] *)
Fixpoint shift_in (fuel : nat) (m : M) (a b c : Z) : res M :=
  match fuel with
  | O => Fault NoFuel
  | S fuel =>
    if b =? a then Ok m
    else
      let b := parent b lsbit size in
      m <-- do_swap m b c;
      shift_in fuel m a b c
  end.

(** Sift the element at [a] down into the heap below [n]. *)
Definition sift (fuel : nat) (m : M) (a n : Z) : res M :=
  b <-- sift_path fuel m n a;
  b <-- backtrack fuel m a b;
  shift_in fuel m a b b.

(** The outer [for (;;)]: build the heap down to [a = 0], then extract. *)
Fixpoint sort_loop (fuel depth : nat) (m : M) (a n : Z) : res M :=
  match fuel with
  | O => Fault NoFuel
  | S fuel =>
    if negb (a =? 0) then
      let a := u64 (a - size) in
      m <-- sift depth m a n;
      sort_loop fuel depth m a n
    else
      let n := u64 (n - size) in
      if negb (n =? 0) then
        m <-- do_swap m 0 n;
        m <-- sift depth m a n;
        sort_loop fuel depth m a n
      else Ok m
  end.
End algorithm.

(** [n = num * size, a = (num/2) * size]; at most [num/2] sifts build the heap and
    [num] extractions empty it, and no path has more than [num] nodes. *)
Definition sort_r_on {M} (cmp_ge : M -> Z -> Z -> res bool) (do_swap : M -> Z -> Z -> res M)
    (num size : Z) (m : M) : res M :=
  let n := u64 (num * size) in
  let a := u64 (num / 2 * size) in
  let lsbit := u32 (Z.land size (u64 (- size))) in
  if a =? 0 then Ok m
  else sort_loop cmp_ge do_swap size lsbit (Z.to_nat (num / 2 + num + 1)) (S (Z.to_nat num)) m a n.

(** ** Bytes *)

(** Exchange [w] bytes at offsets [x] and [y]: a load of both and two stores. *)
Definition exchange (m : list Z) (x y : nat) (w : nat) : res (list Z) :=
  if (x + w <=? length m)%nat && (y + w <=? length m)%nat then
    let t := take w (drop x m) in
    let m1 := take x m ++ take w (drop y m) ++ drop (x + w) m in
    Ok (take y m1 ++ t ++ drop (y + w) m1)
  else Fault OutOfBounds.

(** [do { ... (n -= w) ... } while (n);]: chunks of [w] bytes from the end. *)
Fixpoint swap_words (fuel : nat) (w : nat) (m : list Z) (a b n : nat) : res (list Z) :=
  match fuel with
  | O => Fault NoFuel
  | S fuel =>
    if (n <? w)%nat then Fault OutOfBounds
    else
      let n := (n - w)%nat in
      m <-- exchange m (a + n) (b + n) w;
      if (n =? 0)%nat then Ok m else swap_words fuel w m a b n
  end.

Definition swap_words_64 (m : list Z) (a b n : nat) : res (list Z) := swap_words (S n) 8 m a b n.
Definition swap_words_32 (m : list Z) (a b n : nat) : res (list Z) := swap_words (S n) 4 m a b n.
Definition swap_bytes (m : list Z) (a b n : nat) : res (list Z) := swap_words (S n) 1 m a b n.

(** [is_aligned]: word loads need the size and the base address aligned. *)
Definition is_aligned (base size align : Z) : bool :=
  let lsbits := Z.land (Z.lor (Z.land size 255) (Z.land base 255)) 255 in
  Z.land lsbits (align - 1) =? 0.

(** The swap [sort_r] uses for an array at address [base] without a swap function. *)
Definition default_swap (base size : Z) (m : list Z) (x y : Z) : res (list Z) :=
  if is_aligned base size 8 then swap_words_64 m (Z.to_nat x) (Z.to_nat y) (Z.to_nat size)
  else if is_aligned base size 4 then swap_words_32 m (Z.to_nat x) (Z.to_nat y) (Z.to_nat size)
  else swap_bytes m (Z.to_nat x) (Z.to_nat y) (Z.to_nat size).

(** The bytes of the element at an offset. *)
Definition chunk (size : Z) (m : list Z) (x : Z) : res (list Z) :=
  if (Z.to_nat x + Z.to_nat size <=? length m)%nat then Ok (take (Z.to_nat size) (drop (Z.to_nat x) m))
  else Fault OutOfBounds.

Definition bytes_ge (cmp : list Z -> list Z -> Z) (size : Z) (m : list Z) (x y : Z) : res bool :=
  u <-- chunk size m x;
  v <-- chunk size m y;
  Ok (0 <=? cmp u v).

(** [sort_r] on the bytes of an array at address [base], with the swap function
    of the caller or, without one, the built-in swap. *)
Definition sort_r (swap_func : option (list Z -> Z -> Z -> res (list Z))) (cmp : list Z -> list Z -> Z)
    (base num size : Z) (m : list Z) : res (list Z) :=
  sort_r_on (bytes_ge cmp size)
    (match swap_func with Some f => f | None => default_swap base size end) num size m.

(** ** Elements *)

Definition elem_ge {A} (cmp : A -> A -> Z) (size : Z) (l : list A) (x y : Z) : res bool :=
  u <-- array_get l (Z.to_nat (x / size));
  v <-- array_get l (Z.to_nat (y / size));
  Ok (0 <=? cmp u v).

Definition swap_elems {A} (l : list A) (i j : nat) : res (list A) :=
  u <-- array_get l i;
  v <-- array_get l j;
  Ok (<[j := u]> (<[i := v]> l)).

Definition elem_swap {A} (size : Z) (l : list A) (x y : Z) : res (list A) :=
  swap_elems l (Z.to_nat (x / size)) (Z.to_nat (y / size)).

(** [sort_r] on the elements of an array. *)
Definition sort_elems {A} (cmp : A -> A -> Z) (size : Z) (l : list A) : res (list A) :=
  sort_r_on (elem_ge cmp size) (elem_swap size) (Z.of_nat (length l)) size l.

(** ** The parent of an element *)

(** A positive number is an odd multiple of its lowest set bit. *)
Lemma odd_part size : 0 < size -> exists k q, 0 <= k /\ size = 2 ^ k * (2 * q + 1) /\ 0 <= q.
Proof.
  intros H. assert (Hs : 0 <= size) by lia. revert H. pattern size. apply (Z_lt_induction _); [|done].
  clear size Hs. intros x IH Hx. destruct (Z.Even_or_Odd x) as [[y ->]|[y ->]].
  - destruct (IH y) as (k&q&Hk&->&Hq); [lia|lia|]. exists (k + 1), q. rewrite Z.pow_add_r by lia. repeat split; lia.
  - exists 0, y. repeat split; lia.
Qed.

(** Masking with [-2^k] keeps the multiple of [2^k] below. *)
Lemma land_neg_pow2 x k : 0 <= x < 2 ^ 64 -> 0 <= k <= 63 -> Z.land x (u64 (- 2 ^ k)) = 2 ^ k * (x / 2 ^ k).
Proof.
  intros Hx Hk. unfold u64. change 18446744073709551616 with (2 ^ 64).
  rewrite <- (Z.land_ones (- 2 ^ k) 64), (Z.land_comm (- 2 ^ k)), Z.land_assoc, Z.land_ones, Z.mod_small by lia.
  replace (- 2 ^ k) with (Z.lnot (Z.ones k)) by (rewrite Z.ones_equiv; unfold Z.lnot; lia).
  rewrite <- Z.ldiff_land, Z.ldiff_ones_r, Z.shiftl_mul_pow2, Z.shiftr_div_pow2 by lia. lia.
Qed.

Lemma lsbit_spec size k q :
  0 <= k -> 0 <= q -> size = 2 ^ k * (2 * q + 1) -> size < 4294967296 ->
  u32 (Z.land size (u64 (- size))) = 2 ^ k.
Proof.
  intros Hk Hq E Hs. assert (0 < 2 ^ k) by (apply Z.pow_pos_nonneg; lia).
  assert (Hkk : k < 32).
  { destruct (Z.lt_ge_cases k 32); [done|]. assert (2 ^ 32 <= 2 ^ k) by (apply Z.pow_le_mono_r; lia).
    change (2 ^ 32) with 4294967296 in *. nia. }
  assert (El : Z.land size (u64 (- size)) = 2 ^ k).
  { apply Z.bits_inj'. intros j Hj. rewrite Z.land_spec, Z.pow2_bits_eqb by lia. unfold u64.
    change 18446744073709551616 with (2 ^ 64).
    replace (- size) with (Z.lnot (size - 1)) by (unfold Z.lnot; lia).
    assert (E1 : size = Z.shiftl (2 * q + 1) k) by (rewrite Z.shiftl_mul_pow2 by lia; lia).
    assert (E2 : size - 1 = Z.lor (Z.shiftl (2 * q) k) (Z.ones k)).
    { pose proof (Z.add_lor_land (Z.shiftl (2 * q) k) (Z.ones k)) as El.
      rewrite Z.land_ones, Z.shiftl_mul_pow2, Z.mod_mul, Z.ones_equiv in El by lia. rewrite Z.shiftl_mul_pow2, Z.ones_equiv by lia. lia. }
    destruct (Z.lt_ge_cases j 64) as [H64|H64].
    - rewrite Z.mod_pow2_bits_low by lia. rewrite Z.lnot_spec by lia. rewrite E2, Z.lor_spec. rewrite E1 at 1.
      rewrite !Z.shiftl_spec by lia.
      destruct (Z.lt_total j k) as [Hjk|[->|Hjk]].
      + rewrite !(Z.testbit_neg_r _ (j - k)) by lia. destruct (Z.eqb_spec k j); [lia|done].
      + rewrite Z.sub_diag, Z.testbit_odd_0, Z.testbit_even_0, Z.ones_spec_high, Z.eqb_refl by lia. done.
      + rewrite Z.ones_spec_high by lia. replace (j - k) with (Z.succ (j - k - 1)) by lia.
        rewrite Z.testbit_odd_succ, Z.testbit_even_succ by lia. destruct (Z.eqb_spec k j); [lia|].
        by destruct (Z.testbit q (j - k - 1)).
    - rewrite Z.mod_pow2_bits_high by lia. rewrite andb_false_r. symmetry. apply Z.eqb_neq. lia. }
  rewrite El. apply u32_small. assert (2 ^ k <= 2 ^ 31) by (apply Z.pow_le_mono_r; lia). lia.
Qed.

Lemma land_pow2_bit x k : 0 <= k -> Z.land x (2 ^ k) = if Z.testbit x k then 2 ^ k else 0.
Proof.
  intros Hk. apply Z.bits_inj'. intros j Hj. rewrite Z.land_spec, Z.pow2_bits_eqb by lia.
  destruct (Z.eqb_spec k j) as [->|Hne].
  - rewrite andb_true_r. destruct (Z.testbit x j) eqn:E; [by rewrite Z.pow2_bits_true by lia|by rewrite Z.bits_0].
  - rewrite andb_false_r. destruct (Z.testbit x k); [by rewrite Z.pow2_bits_false by lia|by rewrite Z.bits_0].
Qed.

Lemma parent_index j size :
  0 < size < 4294967296 -> 1 <= j -> j * size < 18446744073709551616 ->
  parent (j * size) (u32 (Z.land size (u64 (- size)))) size = (j - 1) / 2 * size.
Proof.
  intros Hs Hj Hmax. destruct (odd_part size) as (k&q&Hk&E&Hq); [lia|].
  rewrite (lsbit_spec size k q) by (done || lia). unfold parent.
  assert (Hp : 0 < 2 ^ k) by (apply Z.pow_pos_nonneg; lia).
  assert (Hkk : k <= 63).
  { destruct (Z.le_gt_cases k 63); [done|]. assert (2 ^ 64 <= 2 ^ k) by (apply Z.pow_le_mono_r; lia).
    change (2 ^ 64) with 18446744073709551616 in *. nia. }
  assert (E1 : u64 (j * size - size) = (j - 1) * size) by (rewrite u64_small; nia).
  rewrite E1, land_pow2_bit by lia.
  assert (Eb : Z.testbit ((j - 1) * size) k = Z.odd (j - 1)).
  { rewrite E. replace ((j - 1) * (2 ^ k * (2 * q + 1))) with ((j - 1) * (2 * q + 1) * 2 ^ k) by lia.
    rewrite Z.mul_pow2_bits, Z.sub_diag, Z.bit0_odd, Z.odd_mul by lia.
    replace (2 * q + 1) with (1 + 2 * q) by lia. rewrite Z.odd_add_mul_2. apply andb_true_r. }
  rewrite Eb. destruct (Z.odd (j - 1)) eqn:Eo.
  - rewrite land_neg_pow2 by (change (2 ^ 64) with 18446744073709551616; lia).
    assert (Ed : 2 ^ k * (size / 2 ^ k) = size) by (rewrite E, (Z.mul_comm (2 ^ k) (2 * q + 1)), Z.div_mul by lia; lia).
    rewrite Ed. apply Z.odd_spec in Eo as [p Ep]. replace j with (2 * p + 2) in * by lia.
    replace ((2 * p + 2 - 1) * size - size) with (p * size * 2) by lia.
    rewrite u64_small by nia. rewrite Z.div_mul by lia. f_equal. apply (Z.div_unique _ _ _ 1); lia.
  - change (u64 (- 0)) with 0. rewrite Z.land_0_r, Z.sub_0_r, u64_small by nia.
    assert (Ee : Z.even (j - 1) = true) by (rewrite <- Z.negb_odd, Eo; done). apply Z.even_spec in Ee as [p Ep].
    replace (j - 1) with (2 * p) by lia. replace (2 * p * size) with (p * size * 2) by lia.
    rewrite (Z.mul_comm 2 p), !Z.div_mul by lia. done.
Qed.

(** ** Sifting on elements *)

Definition is_child (b c : nat) : Prop := c = (2 * b + 1)%nat \/ c = (2 * b + 2)%nat.

(** A downward path: each node is a child of the one before. *)
Fixpoint chain (b : nat) (ps : list nat) : Prop :=
  match ps with
  | [] => True
  | c :: ps => is_child b c /\ chain c ps
  end.

Lemma last_cons {X} (ps : list X) c b : List.last (c :: ps) b = List.last ps c.
Proof.
  revert c b. induction ps as [|x ps IH]; intros c b; [done|]. change (List.last (x :: ps) b = List.last (x :: ps) c).
  by rewrite !IH.
Qed.

Lemma chain_snoc b ps p : chain b (ps ++ [p]) <-> chain b ps /\ is_child (List.last ps b) p.
Proof.
  revert b. induction ps as [|c ps IH]; intros b; [simpl; tauto|]. rewrite last_cons. simpl. rewrite IH. tauto.
Qed.

Lemma chain_gt b ps p : chain b ps -> p ∈ ps -> (b < p)%nat.
Proof.
  revert b. induction ps as [|c ps IH]; intros b H Hin; [by apply elem_of_nil in Hin|].
  destruct H as [[->| ->] H]; apply elem_of_cons in Hin as [->|Hin]; try lia; specialize (IH _ H Hin); lia.
Qed.

Lemma last_snoc {X} (ps : list X) p d : List.last (ps ++ [p]) d = p.
Proof. apply List.last_last. Qed.

Lemma child_parent b c : is_child b c -> (Z.of_nat c - 1) / 2 = Z.of_nat b.
Proof.
  intros [->| ->]; [symmetry; apply (Z.div_unique _ _ _ 0)|symmetry; apply (Z.div_unique _ _ _ 1)]; lia.
Qed.

(** What the algorithm needs of a memory: it represents a list of elements, two
    offsets compare as the elements there and a swap exchanges them. *)
Class SortMem {A M : Type} (cmp : A -> A -> Z) (size : Z)
    (cmp_ge : M -> Z -> Z -> res bool) (do_swap : M -> Z -> Z -> res M) (repr : M -> list A -> Prop) : Prop := {
  mem_cmp m l i j x y : repr m l -> l !! i = Some x -> l !! j = Some y ->
    cmp_ge m (Z.of_nat i * size) (Z.of_nat j * size) = Ok (0 <=? cmp x y);
  mem_swap m l i j l' : repr m l -> swap_elems l i j = Ok l' ->
    exists m', do_swap m (Z.of_nat i * size) (Z.of_nat j * size) = Ok m' /\ repr m' l'
}.

Section elements.
Context {A M : Type} (cmp : A -> A -> Z) (size : Z).
Context (cmp_ge : M -> Z -> Z -> res bool) (do_swap : M -> Z -> Z -> res M) (repr : M -> list A -> Prop).
Context `{Hmem : !SortMem cmp size cmp_ge do_swap repr}.
Context (Hsize : 0 < size < 4294967296).

Definition ge (x y : A) : Prop := 0 <= cmp x y.

Context (Htotal : forall x y, ge x y \/ ge y x).
Context (Htrans : forall x y z, ge x y -> ge y z -> ge x z).

(** The comparison of two positions of a list. *)
Definition gel (l : list A) (i j : nat) : Prop :=
  forall x y, l !! i = Some x -> l !! j = Some y -> ge x y.

Abbreviation off i := (Z.of_nat i * size).
Abbreviation lsb := (u32 (Z.land size (u64 (- size)))).

(** The child of [b] that the path goes to. *)
Definition best_child (l : list A) (n b c : nat) : Prop :=
  is_child b c /\ (c < n)%nat /\ forall j, is_child b j -> (j < n)%nat -> gel l c j.

(** The whole path from [b] to a leaf. *)
Fixpoint down (l : list A) (n b : nat) (ps : list nat) : Prop :=
  match ps with
  | [] => (n <= 2 * b + 1)%nat
  | c :: ps => best_child l n b c /\ down l n c ps
  end.

Lemma down_chain l n b ps : down l n b ps -> chain b ps /\ Forall (fun p => (p < n)%nat) ps.
Proof.
  revert b. induction ps as [|c ps IH]; intros b H; simpl; [done|]. destruct H as [(?&?&_) H].
  destruct (IH _ H). auto.
Qed.

Lemma gel_refl l i : gel l i i.
Proof. intros x y E1 E2. rewrite E1 in E2. injection E2 as <-. by destruct (Htotal x x). Qed.

(** The array fits in half the address space, so no offset wraps. *)
Definition fits_mem (n : nat) : Prop := (2 * Z.of_nat n + 2) * size <= 18446744073709551616.

Lemma sift_path_ok fuel m l n b :
  repr m l -> fits_mem n -> (n <= length l)%nat -> (b < n)%nat -> (n - b <= fuel)%nat ->
  exists ps, down l n b ps
    /\ sift_path cmp_ge size fuel m (off n) (off b) = Ok (off (List.last ps b)).
Proof.
  unfold fits_mem. intros Hr Hm Hl. revert b. induction fuel as [|fuel IH]; intros b Hb Hf; [lia|]. cbn [sift_path].
  assert (Ec : u64 (2 * off b + size) = off (2 * b + 1)) by (rewrite u64_small; nia).
  assert (Ed : u64 (off (2 * b + 1) + size) = off (2 * b + 2)) by (rewrite u64_small; nia).
  rewrite Ec, Ed.
  assert (Hlt : forall i j, (off i <? off j) = (i <? j)%nat).
  { intros i j. destruct (Nat.ltb_spec i j); [apply Z.ltb_lt|apply Z.ltb_ge]; nia. }
  assert (Heq : forall i j, (off i =? off j) = (i =? j)%nat).
  { intros i j. destruct (Nat.eqb_spec i j) as [->|]; [apply Z.eqb_refl|apply Z.eqb_neq; nia]. }
  rewrite Hlt, Heq. destruct (Nat.ltb_spec (2 * b + 2) n) as [Hd|Hd].
  - destruct (lookup_lt_is_Some_2 l (2 * b + 1) ltac:(lia)) as [x Ex].
    destruct (lookup_lt_is_Some_2 l (2 * b + 2) ltac:(lia)) as [y Ey].
    rewrite (mem_cmp m l _ _ x y Hr Ex Ey). cbn [res_bind].
    destruct (Z.leb_spec 0 (cmp x y)) as [Hge|Hlt'].
    + destruct (IH (2 * b + 1)%nat) as (ps&Hdn&E); [lia|lia|]. exists ((2 * b + 1)%nat :: ps). rewrite E. split.
      * split; [|done]. split; [by left|]. split; [lia|]. intros j [->| ->] _; [apply gel_refl|].
        intros x' y' E1 E2. rewrite Ex in E1. rewrite Ey in E2. simplify_eq. exact Hge.
      * by rewrite last_cons.
    + destruct (IH (2 * b + 2)%nat) as (ps&Hdn&E); [lia|lia|]. exists ((2 * b + 2)%nat :: ps). rewrite E. split.
      * split; [|done]. split; [by right|]. split; [lia|]. intros j [->| ->] _; [|apply gel_refl].
        intros x' y' E1 E2. rewrite Ey in E1. rewrite Ex in E2. injection E1 as <-. injection E2 as <-.
        destruct (Htotal x y) as [H|H]; [unfold ge in H; lia|done].
      * by rewrite last_cons.
  - destruct (Nat.eqb_spec (2 * b + 2) n) as [He|Hne].
    + exists [(2 * b + 1)%nat]. split; [|done]. split; [|simpl; lia]. split; [by left|]. split; [lia|].
      intros j [->| ->] Hj; [apply gel_refl|lia].
    + exists []. split; [simpl; lia|done].
Qed.

Lemma parent_off b c : is_child b c -> fits_mem c -> parent (off c) lsb size = off b.
Proof.
  unfold fits_mem. intros Hc Hm. rewrite parent_index; [by rewrite (child_parent b c)|done| |nia].
  destruct Hc as [->| ->]; lia.
Qed.

Lemma off_eqb i j : (off i =? off j) = (i =? j)%nat.
Proof. destruct (Nat.eqb_spec i j) as [->|]; [apply Z.eqb_refl|apply Z.eqb_neq; nia]. Qed.

Lemma chain_last_ne a ps p : chain a (ps ++ [p]) -> p <> a.
Proof. intros H ->. pose proof (chain_gt a (ps ++ [a]) a H). rewrite elem_of_app, list_elem_of_singleton in H0. lia. Qed.

Lemma fits_mono i j : (i <= j)%nat -> fits_mem j -> fits_mem i.
Proof. unfold fits_mem. nia. Qed.

Lemma backtrack_ok fuel m l n a ps :
  repr m l -> fits_mem n -> (n <= length l)%nat -> (a < n)%nat -> chain a ps -> Forall (fun p => (p < n)%nat) ps ->
  (length ps < fuel)%nat ->
  exists ps1 ps2, ps = ps1 ++ ps2
    /\ backtrack cmp_ge size lsb fuel m (off a) (off (List.last ps a)) = Ok (off (List.last ps1 a))
    /\ (ps1 <> [] -> gel l (List.last ps1 a) a) /\ Forall (fun p => gel l a p) ps2.
Proof.
  intros Hr Hm Hl Ha. revert fuel. induction ps as [|p ps IH] using rev_ind; intros fuel Hc Hn Hf;
    (destruct fuel as [|fuel]; [lia|]); cbn [backtrack].
  { exists [], []. simpl. rewrite Z.eqb_refl. split; [done|]. split; [done|]. by split. }
  rewrite last_snoc, off_eqb. pose proof (chain_last_ne _ _ _ Hc). destruct (Nat.eqb_spec p a); [done|].
  apply chain_snoc in Hc as [Hc Hp]. apply Forall_app in Hn as [Hn Hpn]. apply Forall_cons in Hpn as [Hpn _].
  destruct (lookup_lt_is_Some_2 l a ltac:(lia)) as [x Ex]. destruct (lookup_lt_is_Some_2 l p ltac:(lia)) as [y Ey].
  rewrite (mem_cmp m l _ _ x y Hr Ex Ey). cbn [res_bind]. destruct (Z.leb_spec 0 (cmp x y)) as [Hge|Hlt].
  - rewrite (parent_off (List.last ps a) p) by (done || (apply (fits_mono _ n); [lia|done])).
    rewrite length_app in Hf. simpl in Hf.
    destruct (IH fuel) as (ps1&ps2&->&E&H1&H2); [done|done|lia|]. exists ps1, (ps2 ++ [p]). split; [by rewrite app_assoc|].
    split; [done|]. split; [done|]. apply Forall_app. split; [done|]. apply Forall_singleton.
    intros x' y' E1 E2. rewrite Ex in E1. rewrite Ey in E2. simplify_eq. exact Hge.
  - exists (ps ++ [p]), []. rewrite app_nil_r, last_snoc. repeat split; auto. intros _ y' x' E1 E2.
    rewrite Ey in E1. rewrite Ex in E2. simplify_eq. destruct (Htotal x' y') as [H'|H']; [unfold ge in H'; lia|done].
Qed.

(** *** Shifting the sifted element into place *)

(** The nodes above the end of a path, bottom up: the swaps of [shift_in]. *)
Fixpoint above_nodes (a : nat) (ps : list nat) : list nat :=
  match ps with
  | [] => []
  | p :: ps => above_nodes p ps ++ [a]
  end.

Fixpoint swaps (l : list A) (c : nat) (qs : list nat) : res (list A) :=
  match qs with
  | [] => Ok l
  | q :: qs => l <-- swap_elems l q c; swaps l c qs
  end.

Lemma swaps_app l c qs1 qs2 : swaps l c (qs1 ++ qs2) = (l' <-- swaps l c qs1; swaps l' c qs2).
Proof. revert l. induction qs1 as [|q qs1 IH]; intros l; simpl; [done|]. destruct (swap_elems l q c); simpl; auto. Qed.

Lemma above_nodes_snoc a ps p : above_nodes a (ps ++ [p]) = List.last ps a :: above_nodes a ps.
Proof.
  revert a. induction ps as [|q ps IH]; intros a; [done|]. rewrite last_cons. simpl. by rewrite IH.
Qed.

Lemma shift_in_swaps fuel m l n a ps c l' :
  repr m l -> fits_mem n -> chain a ps -> Forall (fun p => (p < n)%nat) ps -> (length ps < fuel)%nat ->
  swaps l c (above_nodes a ps) = Ok l' ->
  exists m', shift_in do_swap size lsb fuel m (off a) (off (List.last ps a)) (off c) = Ok m' /\ repr m' l'.
Proof.
  intros Hr Hm. revert fuel m l Hr. induction ps as [|p ps IH] using rev_ind; intros fuel m l Hr Hc Hn Hf E;
    (destruct fuel as [|fuel]; [lia|]); cbn [shift_in].
  { simpl in *. rewrite Z.eqb_refl. injection E as <-. eauto. }
  rewrite last_snoc, off_eqb. rewrite above_nodes_snoc in E. pose proof (chain_last_ne _ _ _ Hc).
  destruct (Nat.eqb_spec p a); [done|].
  apply chain_snoc in Hc as [Hc Hp]. apply Forall_app in Hn as [Hn Hpn]. apply Forall_cons in Hpn as [Hpn _].
  rewrite (parent_off (List.last ps a) p) by (done || (apply (fits_mono _ n); [lia|done])).
  cbn [swaps] in E. res_inv E. destruct (mem_swap _ _ _ _ _ Hr E0) as (m1&->&Hr1). cbn [res_bind].
  rewrite length_app in Hf. simpl in Hf. apply (IH fuel m1 a0); auto. lia.
Qed.

Lemma swap_perm (l l' : list A) i j : swap_elems l i j = Ok l' -> l' ≡ₚ l.
Proof.
  unfold swap_elems, array_get. destruct (l !! i) as [u|] eqn:Ei; [|done]. destruct (l !! j) as [v|] eqn:Ej; [|done].
  cbn [res_bind]. intros [= <-]. destruct (decide (i = j)) as [->|Hne].
  - rewrite list_insert_insert_eq. simplify_eq. by rewrite list_insert_id.
  - apply Permutation_inj. split; [by rewrite !length_insert|].
    exists (fun k => if decide (k = i) then j else if decide (k = j) then i else k). split.
    { intros x y. repeat case_decide; congruence. }
    intros k. pose proof (lookup_lt_Some _ _ _ Ei). pose proof (lookup_lt_Some _ _ _ Ej).
    destruct (decide (k = i)) as [->|Hki]; [|destruct (decide (k = j)) as [->|Hkj]].
    + rewrite list_lookup_insert_ne, list_lookup_insert_eq by (done || lia). done.
    + rewrite list_lookup_insert_eq by (rewrite length_insert; lia). done.
    + by rewrite !list_lookup_insert_ne by done.
Qed.

Lemma swaps_perm l c qs l' : swaps l c qs = Ok l' -> l' ≡ₚ l.
Proof.
  revert l. induction qs as [|q qs IH]; intros l E; cbn [swaps] in E; [by injection E as <-|].
  res_inv E. rewrite (IH _ E). by eapply swap_perm.
Qed.

(** The values of the path move up one step and [v] takes the place of the last. *)
Fixpoint shiftv (l : list A) (a : nat) (ps : list nat) (v : A) : list A :=
  match ps with
  | [] => <[a := v]> l
  | p :: ps => match l !! p with
               | Some x => shiftv (<[a := x]> l) p ps v
               | None => l
               end
  end.

Lemma shiftv_insert l q x a ps v :
  q ∉ a :: ps -> shiftv (<[q := x]> l) a ps v = <[q := x]> (shiftv l a ps v).
Proof.
  revert l a. induction ps as [|p ps IH]; intros l a Hq; simpl.
  - apply list_insert_insert_ne. intros ->. apply Hq. by left.
  - assert (q <> a /\ q <> p) as [Hqa Hqp].
    { split; intros ->; apply Hq; [by left|right; by left]. }
    rewrite list_lookup_insert_ne by done. destruct (l !! p); [|done].
    rewrite list_insert_insert_ne by done. apply IH. intros Hin. apply Hq. by right.
Qed.

Lemma shiftv_value l a ps v v' :
  chain a ps -> (a < length l)%nat -> Forall (fun p => (p < length l)%nat) ps ->
  shiftv l a ps v = <[List.last ps a := v]> (shiftv l a ps v') /\ length (shiftv l a ps v) = length l.
Proof.
  revert l a. induction ps as [|p ps IH]; intros l a Hc Ha Hl; simpl shiftv.
  - simpl. by rewrite list_insert_insert_eq, length_insert.
  - destruct Hc as [_ Hc]. apply Forall_cons in Hl as [Hp Hl].
    destruct (lookup_lt_is_Some_2 l p Hp) as [x ->]. rewrite last_cons.
    destruct (IH (<[a := x]> l) p Hc) as [E1 E2]; rewrite ?length_insert; auto.
    by rewrite length_insert in E2.
Qed.

Lemma shiftv_above l a ps v i :
  chain a ps -> (i < a)%nat -> shiftv l a ps v !! i = l !! i.
Proof.
  revert l a. induction ps as [|p ps IH]; intros l a Hc Hi; simpl.
  - apply list_lookup_insert_ne. lia.
  - destruct Hc as [Hp Hc]. destruct (l !! p); [|done]. assert (a < p)%nat by (destruct Hp; lia).
    rewrite IH by (done || lia). apply list_lookup_insert_ne. lia.
Qed.

Lemma swaps_shiftv l a ps v :
  ps <> [] -> chain a ps -> (a < length l)%nat -> Forall (fun p => (p < length l)%nat) ps -> l !! a = Some v ->
  swaps l (List.last ps a) (above_nodes a ps) = Ok (shiftv l a ps v).
Proof.
  revert a v. induction ps as [|p ps IH]; intros a v Hne Hc Ha Hl Ev; [done|].
  rewrite last_cons. pose proof Hc as [Hp Hc']. apply Forall_cons in Hl as [Hpl Hl].
  destruct (lookup_lt_is_Some_2 l p Hpl) as [x Ex]. simpl. rewrite Ex, swaps_app.
  assert (Hap : (a < p)%nat) by (destruct Hp; lia).
  destruct ps as [|q ps].
  - simpl. unfold swap_elems. rewrite (array_get_Some _ _ _ Ev), (array_get_Some _ _ _ Ex). done.
  - rewrite (IH p x) by done. cbn [res_bind swaps]. set (c := List.last (q :: ps) p). set (l1 := shiftv l p (q :: ps) x).
    destruct (shiftv_value l p (q :: ps) x x Hc' Hpl Hl) as [E1 L1]. fold l1 c in E1, L1.
    assert (Hcl : (p < c < length l)%nat).
    { unfold c. assert (Hin : List.last (q :: ps) p ∈ q :: ps).
      { destruct (exists_last (l := q :: ps)) as (ps'&y&->); [done|]. rewrite last_snoc. apply elem_of_app. right. by left. }
      split; [by apply (chain_gt p (q :: ps))|]. by eapply Forall_forall in Hl. }
    assert (Ea : l1 !! a = Some v) by (unfold l1; rewrite shiftv_above; done).
    assert (Ec : l1 !! c = Some x) by (rewrite E1; apply list_lookup_insert_eq; lia).
    unfold swap_elems. rewrite (array_get_Some _ _ _ Ea), (array_get_Some _ _ _ Ec). cbn [res_bind]. f_equal.
    rewrite shiftv_insert.
    2:{ intros Hin. apply elem_of_cons in Hin as [->|Hin]; [lia|]. apply (chain_gt p) in Hin; [lia|done]. }
    destruct (shiftv_value l p (q :: ps) v x Hc' Hpl Hl) as [-> _]. fold l1 c.
    apply list_insert_insert_ne. lia.
Qed.

(** *** The heap after a sift *)

(** Nodes from [lo] on compare at least their children below [n]. *)
Definition heap (l : list A) (lo n : nat) : Prop :=
  forall i j, (lo <= i)%nat -> (j < n)%nat -> is_child i j -> gel l i j.

(** A heap but for the node [a], where [v] is to be placed. *)
Definition hole (l : list A) (lo n a : nat) (v : A) : Prop :=
  (forall i j, (lo <= i)%nat -> (j < n)%nat -> is_child i j -> i <> a -> j <> a -> gel l i j)
  /\ (forall i j, (lo <= i)%nat -> is_child i a -> is_child a j -> (j < n)%nat -> gel l i j)
  /\ (forall i x, (lo <= i)%nat -> is_child i a -> l !! i = Some x -> ge x v).

Lemma child_lt b c : is_child b c -> (b < c)%nat.
Proof. intros [->| ->]; lia. Qed.

Lemma child_unique b b' c : is_child b c -> is_child b' c -> b = b'.
Proof. unfold is_child. lia. Qed.

Lemma gel_insert l a x i j : i <> a -> j <> a -> gel (<[a := x]> l) i j <-> gel l i j.
Proof. intros. unfold gel. by rewrite !list_lookup_insert_ne by done. Qed.

(** The steps of a path go to best children. *)
Fixpoint best_path (l : list A) (n b : nat) (ps : list nat) : Prop :=
  match ps with
  | [] => True
  | c :: ps => best_child l n b c /\ best_path l n c ps
  end.

Lemma best_path_insert l n a x b ps : (a <= b)%nat -> best_path l n b ps -> best_path (<[a := x]> l) n b ps.
Proof.
  revert b. induction ps as [|c ps IH]; intros b Hab H; [done|]. destruct H as [(Hc&Hcn&Hbest) H].
  pose proof (child_lt _ _ Hc). split; [|apply IH; [lia|done]]. split; [done|]. split; [done|]. intros j Hj Hjn.
  pose proof (child_lt _ _ Hj). apply gel_insert; [lia|lia|]. by apply Hbest.
Qed.

Lemma hole_step l lo n a c x v :
  hole l lo n a v -> (lo <= a)%nat -> best_child l n a c -> l !! c = Some x -> ge x v ->
  (a < length l)%nat -> hole (<[a := x]> l) lo n c v.
Proof.
  intros (H1&H2&H3) Hlo (Hc&Hcn&Hbest) Ex Hv Hal. pose proof (child_lt _ _ Hc) as Hac. split; [|split].
  - intros i j Hi Hj Hij Hic Hjc. destruct (decide (i = a)) as [->|Hia].
    + pose proof (child_lt _ _ Hij). intros u w E1 E2. rewrite list_lookup_insert_eq in E1 by done. injection E1 as <-.
      rewrite list_lookup_insert_ne in E2 by lia. by eapply (Hbest j).
    + destruct (decide (j = a)) as [->|Hja].
      * intros u w E1 E2. rewrite list_lookup_insert_eq in E2 by done. injection E2 as <-.
        rewrite list_lookup_insert_ne in E1 by done. by eapply (H2 i c).
      * apply gel_insert; [done|done|]. by apply H1.
  - intros i j Hi Hic Hcj Hj. rewrite (child_unique _ _ _ Hic Hc). pose proof (child_lt _ _ Hcj).
    intros u w E1 E2. rewrite list_lookup_insert_eq in E1 by done. injection E1 as <-.
    rewrite list_lookup_insert_ne in E2 by lia. eapply (H1 c j); eauto; lia.
  - intros i u Hi Hic E. rewrite (child_unique _ _ _ Hic Hc), list_lookup_insert_eq in E by done. by injection E as <-.
Qed.

Lemma shiftv_heap l lo n a ps v :
  hole l lo n a v -> (lo <= a)%nat -> (a < length l)%nat -> best_path l n a ps ->
  Forall (fun p => exists x, l !! p = Some x /\ ge x v) ps ->
  (forall j y, is_child (List.last ps a) j -> (j < n)%nat -> l !! j = Some y -> ge v y) ->
  heap (shiftv l a ps v) lo n.
Proof.
  revert l a. induction ps as [|c ps IH]; intros l a Hh Hlo Ha Hb Hv Hend; simpl.
  - destruct Hh as (H1&_&H3). intros i j Hi Hj Hij. pose proof (child_lt _ _ Hij).
    destruct (decide (i = a)) as [->|Hia].
    + intros u w E1 E2. rewrite list_lookup_insert_eq in E1 by done. injection E1 as <-.
      rewrite list_lookup_insert_ne in E2 by lia. by apply (Hend j).
    + destruct (decide (j = a)) as [->|Hja]; [|apply gel_insert; auto].
      intros u w E1 E2. rewrite list_lookup_insert_eq in E2 by done. injection E2 as <-.
      rewrite list_lookup_insert_ne in E1 by done. by apply (H3 i).
  - destruct Hb as [Hc Hb]. apply Forall_cons in Hv as [(x&Ex&Hx) Hv]. rewrite Ex.
    pose proof (child_lt _ _ (proj1 Hc)) as Hac. rewrite last_cons in Hend.
    assert (Hgt : forall p, p ∈ ps -> (c < p)%nat).
    { intros p Hin. apply (chain_gt c ps p); [|done]. clear -Hb. revert c Hb. induction ps as [|q ps IHp]; intros c Hb; [done|].
      destruct Hb as [(?&_) Hb]. split; [done|]. by apply IHp. }
    apply IH.
    + by apply hole_step.
    + lia.
    + rewrite length_insert. by apply lookup_lt_Some in Ex.
    + apply best_path_insert; [lia|done].
    + apply Forall_forall. intros p Hin. pose proof (Hgt p Hin). eapply Forall_forall in Hv as (y&Ey&Hy); [|done].
      exists y. split; [|done]. by rewrite list_lookup_insert_ne by lia.
    + intros j y Hj Hjn E. pose proof (child_lt _ _ Hj).
      assert (c <= List.last ps c)%nat.
      { destruct ps as [|q ps']; [done|]. destruct (exists_last (l := q :: ps')) as (ps''&z&Ez); [done|].
        rewrite Ez, last_snoc. apply Nat.lt_le_incl, Hgt. rewrite Ez. apply elem_of_app. right. by left. }
      rewrite list_lookup_insert_ne in E by lia. by apply (Hend j).
Qed.

Lemma down_split l n a ps1 ps2 : down l n a (ps1 ++ ps2) ->
  best_path l n a ps1 /\ down l n (List.last ps1 a) ps2.
Proof.
  revert a. induction ps1 as [|c ps1 IH]; intros a H; [done|]. rewrite last_cons. destruct H as [Hc H].
  destruct (IH _ H). by split.
Qed.

(** Values do not grow along a path below the root of a heap. *)
Lemma path_ge l n a ps v :
  heap l (S a) n -> (n <= length l)%nat -> chain a ps -> Forall (fun p => (p < n)%nat) ps ->
  (ps <> [] -> forall x, l !! List.last ps a = Some x -> ge x v) ->
  Forall (fun p => exists x, l !! p = Some x /\ ge x v) ps.
Proof.
  intros Hh Hn. induction ps as [|p ps IH] using rev_ind; intros Hc Hp Hlast; [done|].
  rewrite last_snoc in Hlast. specialize (Hlast ltac:(by destruct ps)).
  apply chain_snoc in Hc as [Hc Hch]. apply Forall_app in Hp as [Hp Hpn]. apply Forall_cons in Hpn as [Hpn _].
  destruct (lookup_lt_is_Some_2 l p ltac:(lia)) as [y Ey].
  apply Forall_app. split; [|constructor; [eauto|done]]. apply IH; auto. intros Hne x Ex.
  destruct (exists_last Hne) as (ps'&q&->). rewrite last_snoc in *.
  apply Htrans with y; [|auto]. eapply (Hh q p); eauto.
  apply (chain_gt a _ q Hc). apply elem_of_app. right. by left.
Qed.

Lemma shiftv_from l n a ps v i x :
  chain a ps -> Forall (fun p => (p < n)%nat) ps -> (a < n)%nat -> (n <= length l)%nat -> l !! a = Some v ->
  shiftv l a ps v !! i = Some x -> (i < n)%nat -> exists i', (i' < n)%nat /\ l !! i' = Some x.
Proof.
  intros Hc Hp Ha Hn Ev. assert (K : forall l0 a0, chain a0 ps -> (a0 < n)%nat -> length l0 = length l ->
    (forall i x, l0 !! i = Some x -> (i < n)%nat -> exists i', (i' < n)%nat /\ l !! i' = Some x) ->
    forall i x, shiftv l0 a0 ps v !! i = Some x -> (i < n)%nat -> exists i', (i' < n)%nat /\ l !! i' = Some x).
  { clear Hc i x. induction ps as [|p ps IH]; intros l0 a0 Hc Ha0 Hlen Hl0 i x E Hi; simpl in E.
    - destruct (decide (i = a0)) as [->|]; [|rewrite list_lookup_insert_ne in E by done; eauto].
      rewrite list_lookup_insert_eq in E by lia. injection E as <-. eauto.
    - destruct Hc as [_ Hc]. apply Forall_cons in Hp as [Hpn Hp].
      destruct (l0 !! p) as [y|] eqn:Ey; [|eauto].
      eapply (IH Hp (<[a0 := y]> l0) p); eauto; [by rewrite length_insert|].
      intros i' x' E' Hi'. destruct (decide (i' = a0)) as [->|]; [|rewrite list_lookup_insert_ne in E' by done; eauto].
      rewrite list_lookup_insert_eq in E' by lia. injection E' as <-. eauto. }
  intros E Hi. eapply (K l a); eauto.
Qed.

Lemma shiftv_outside l n a ps v i :
  chain a ps -> Forall (fun p => (p < n)%nat) ps -> (a < n)%nat -> (n <= i)%nat -> shiftv l a ps v !! i = l !! i.
Proof.
  intros Hc Hp Ha Hi. revert l a Hc Ha. induction ps as [|p ps IH]; intros l a Hc Ha; simpl.
  - apply list_lookup_insert_ne. lia.
  - destruct Hc as [_ Hc]. apply Forall_cons in Hp as [Hpn Hp]. destruct (l !! p); [|done].
    rewrite IH by done. apply list_lookup_insert_ne. lia.
Qed.

Lemma chain_length n a ps : chain a ps -> Forall (fun p => (p < n)%nat) ps -> (a < n)%nat -> (length ps + a < n)%nat.
Proof.
  revert a. induction ps as [|p ps IH]; intros a Hc Hp Ha; simpl; [done|]. destruct Hc as [H Hc].
  apply Forall_cons in Hp as [Hpn Hp]. pose proof (child_lt _ _ H). specialize (IH _ Hc Hp Hpn). lia.
Qed.

(** Sifting restores the heap at [a] and moves elements below [n] only. *)
Lemma sift_ok fuel m l a n :
  repr m l -> fits_mem n -> heap l (S a) n -> (a < n)%nat -> (n <= length l)%nat -> (n <= fuel)%nat ->
  exists m' l', sift cmp_ge do_swap size lsb fuel m (off a) (off n) = Ok m' /\ repr m' l'
    /\ heap l' a n /\ length l' = length l /\ l' ≡ₚ l
    /\ (forall i, (n <= i)%nat -> l' !! i = l !! i)
    /\ (forall i x, l' !! i = Some x -> (i < n)%nat -> exists i', (i' < n)%nat /\ l !! i' = Some x).
Proof.
  intros Hr Hm Hh Ha Hn Hf. unfold sift.
  destruct (sift_path_ok fuel m l n a) as (ps&Hd&->); auto; [lia|]. cbn [res_bind].
  destruct (down_chain _ _ _ _ Hd) as [Hc Hp]. pose proof (chain_length _ _ _ Hc Hp Ha).
  destruct (backtrack_ok fuel m l n a ps) as (ps1&ps2&->&->&Hlt&Hge); auto; [lia|]. cbn [res_bind].
  destruct (down_split _ _ _ _ _ Hd) as [Hb Hd2].
  assert (Hc1 : chain a ps1).
  { clear -Hb. revert a Hb. induction ps1 as [|q ps IHp]; intros a Hb; [done|]. destruct Hb as [(?&_) Hb]. split; [done|]. by apply IHp. }
  apply Forall_app in Hp as [Hp1 Hp2]. rewrite length_app in *.
  destruct (lookup_lt_is_Some_2 l a ltac:(lia)) as [v Ev].
  assert (Hl1 : Forall (fun p => (p < length l)%nat) ps1) by (eapply Forall_impl; [exact Hp1|]; simpl; lia).
  assert (Es : swaps l (List.last ps1 a) (above_nodes a ps1) = Ok (shiftv l a ps1 v)).
  { destruct ps1 as [|q ps1]; [simpl; by rewrite list_insert_id|]. apply swaps_shiftv; auto. lia. }
  destruct (shift_in_swaps fuel m l n a ps1 (List.last ps1 a) _ Hr Hm Hc1 Hp1 ltac:(lia) Es) as (m'&Em&Hr').
  exists m', (shiftv l a ps1 v). split; [done|]. split; [done|].
  destruct (shiftv_value l a ps1 v v Hc1 ltac:(lia) Hl1) as [_ Hlen].
  split; [|split; [done|split; [by eapply swaps_perm|split]]].
  - apply shiftv_heap; auto; [|lia| |].
    + split; [|split]; [intros i j Hi Hj Hij Hia _; apply Hh; auto; lia|intros i j Hi Hia; pose proof (child_lt _ _ Hia); lia
        |intros i x Hi Hia; pose proof (child_lt _ _ Hia); lia].
    + apply (path_ge l n a ps1 v); auto. intros Hne x Ex. by apply (Hlt Hne).
    + intros j y Hj Hjn Ey. destruct ps2 as [|q ps2]; [simpl in Hd2; destruct Hj; lia|].
      destruct Hd2 as [(Hq&Hqn&Hbest) _]. apply Forall_cons in Hge as [Hge _].
      destruct (lookup_lt_is_Some_2 l q ltac:(lia)) as [z Ez].
      apply Htrans with z; [by apply Hge|]. by apply (Hbest j).
  - intros i Hi. by apply (shiftv_outside l n).
  - intros i x E Hi. by eapply (shiftv_from l n a ps1).
Qed.

(** *** Building the heap and extracting from it *)

(** The elements from [n] on are sorted and not below any element before them. *)
Definition tail_ok (l : list A) (n : nat) : Prop :=
  forall i j, (i < j)%nat -> (n <= j)%nat -> gel l j i.

Lemma heap_root l n i : heap l 0 n -> (n <= length l)%nat -> (i < n)%nat -> gel l 0 i.
Proof.
  intros Hh Hn. induction (lt_wf i) as [i _ IH]. intros Hi. destruct (decide (i = 0)%nat) as [->|Hi0]; [apply gel_refl|].
  assert (exists p, is_child p i) as [p Hp].
  { destruct (Nat.Even_or_Odd i) as [[q ->]|[q ->]]; [exists (q - 1)%nat|exists q]; unfold is_child; lia. }
  pose proof (child_lt _ _ Hp). destruct (lookup_lt_is_Some_2 l p ltac:(lia)) as [z Ez].
  intros x y Ex Ey. apply Htrans with z; [eapply (IH p); eauto; lia|eapply (Hh p i); eauto; lia].
Qed.

(** The state after the root has been swapped with the last element [n - 1]. *)
Lemma extract_swap (l : list A) n u v :
  (2 <= n <= length l)%nat -> l !! 0%nat = Some u -> l !! (n - 1)%nat = Some v ->
  let l1 := <[(n - 1)%nat := u]> (<[0%nat := v]> l) in
  swap_elems l 0 (n - 1) = Ok l1 /\ length l1 = length l
  /\ l1 !! 0%nat = Some v /\ l1 !! (n - 1)%nat = Some u
  /\ (forall k, k <> 0%nat -> k <> (n - 1)%nat -> l1 !! k = l !! k) /\ l1 ≡ₚ l.
Proof.
  intros Hn Eu Ev l1. assert (E : swap_elems l 0 (n - 1) = Ok l1).
  { unfold swap_elems. by rewrite (array_get_Some _ _ _ Eu), (array_get_Some _ _ _ Ev). }
  split; [done|].
  unfold l1 at 1 2 3 4. rewrite !length_insert. split; [done|].
  split; [rewrite list_lookup_insert_ne, list_lookup_insert_eq by lia; done|].
  split; [apply list_lookup_insert_eq; rewrite length_insert; lia|].
  split; [intros k ??; by rewrite !list_lookup_insert_ne by done|]. by eapply swap_perm.
Qed.

Lemma extract_ok depth m l n :
  repr m l -> fits_mem n -> heap l 0 n -> tail_ok l n -> (2 <= n <= length l)%nat -> (n <= depth)%nat ->
  exists m1 m2 l2, do_swap m 0 (off (n - 1)) = Ok m1
    /\ sift cmp_ge do_swap size lsb depth m1 0 (off (n - 1)) = Ok m2 /\ repr m2 l2
    /\ heap l2 0 (n - 1) /\ tail_ok l2 (n - 1) /\ length l2 = length l /\ l2 ≡ₚ l.
Proof.
  intros Hr Hm Hh Ht Hn Hd.
  destruct (lookup_lt_is_Some_2 l 0 ltac:(lia)) as [u Eu]. destruct (lookup_lt_is_Some_2 l (n - 1) ltac:(lia)) as [v Ev].
  destruct (extract_swap l n u v Hn Eu Ev) as (Esw&L1&Hk0&Hk1&Hk&P1).
  set (l1 := <[(n - 1)%nat := u]> (<[0%nat := v]> l)) in *.
  destruct (mem_swap _ _ _ _ _ Hr Esw) as (m1&Em1&Hr1). change (off 0) with 0 in Em1.
  destruct (sift_ok depth m1 l1 0 (n - 1) Hr1) as (m2&l2&E2&Hr2&H2&L2&P2&Hout&Hfrom); [by apply (fits_mono _ n); [lia|]| |lia..|].
  { intros i j Hi Hj Hij. pose proof (child_lt _ _ Hij). intros x y Ex Ey. rewrite Hk in Ex, Ey by lia.
    eapply (Hh i j); eauto; lia. }
  exists m1, m2, l2. split; [done|]. split; [done|]. split; [done|]. split; [done|].
  split; [|split; [lia|by rewrite P2]].
  assert (Hin : forall i y, l2 !! i = Some y -> (i < n - 1)%nat -> exists i', (i' < n)%nat /\ l !! i' = Some y).
  { intros i y Ey Hi. destruct (Hfrom i y Ey Hi) as (i'&Hi'&Ey'). destruct (decide (i' = 0)%nat) as [->|].
    - exists (n - 1)%nat. split; [lia|congruence].
    - exists i'. rewrite Hk in Ey' by lia. split; [lia|done]. }
  intros i j Hij Hj x y Ex Ey. rewrite Hout in Ex by lia. destruct (decide (i < n - 1)%nat) as [Hi|Hi].
  - destruct (Hin i y Ey Hi) as (i'&Hi'&Ey'). destruct (decide (j = n - 1)%nat) as [->|].
    + rewrite Hk1 in Ex. injection Ex as <-. eapply (heap_root l n i'); eauto; lia.
    + rewrite Hk in Ex by lia. eapply (Ht i' j); eauto; lia.
  - rewrite Hout in Ey by lia. rewrite Hk in Ex by lia. destruct (decide (i = n - 1)%nat) as [->|].
    + rewrite Hk1 in Ey. injection Ey as <-. eapply (Ht 0%nat j); eauto; lia.
    + rewrite Hk in Ey by lia. eapply (Ht i j); eauto; lia.
Qed.

Lemma sort_loop_ok fuel depth m l a n :
  repr m l -> fits_mem (length l) -> heap l a n -> tail_ok l n -> (a <= n)%nat -> (1 <= n <= length l)%nat ->
  (n <= depth)%nat -> (a + n <= fuel)%nat ->
  exists m' l', sort_loop cmp_ge do_swap size lsb fuel depth m (off a) (off n) = Ok m' /\ repr m' l'
    /\ l' ≡ₚ l /\ forall i j, (i <= j)%nat -> gel l' j i.
Proof.
  revert m l a n. induction fuel as [|fuel IH]; intros m l a n Hr Hm Hh Ht Han Hn Hd Hf; [lia|]. cbn [sort_loop].
  assert (Hmn : fits_mem n) by (by apply (fits_mono _ (length l)); [lia|]).
  assert (E0 : forall i, (off i =? 0) = (i =? 0)%nat) by (intros i; rewrite <- (off_eqb i 0); done).
  assert (Em : forall i, (1 <= i <= length l)%nat -> u64 (off i - size) = off (i - 1)).
  { intros i Hi. rewrite u64_small; unfold fits_mem in Hm; nia. }
  rewrite E0. destruct (Nat.eqb_spec a 0) as [->|Ha0]; cbn [negb].
  - rewrite Em, E0 by lia. destruct (Nat.eqb_spec (n - 1) 0) as [Hn1|Hn1]; cbn [negb].
    + exists m, l. split; [done|]. split; [done|]. split; [done|]. intros i j Hij. destruct (decide (i = j)) as [->|]; [apply gel_refl|].
      apply Ht; lia.
    + destruct (extract_ok depth m l n) as (m1&m2&l2&->&E2&Hr2&H2&T2&L2&P2); auto; [lia|]. cbn [res_bind].
      change (off 0) with 0. rewrite E2. cbn [res_bind].
      destruct (IH m2 l2 0%nat (n - 1)%nat) as (m'&l'&E'&R'&P'&S'); auto; try lia; [by rewrite L2|].
      exists m', l'. split; [done|]. split; [done|]. split; [by rewrite P'|done].
  - rewrite Em by lia.
    destruct (sift_ok depth m l (a - 1) n) as (m2&l2&E2&Hr2&H2&L2&P2&Hout&Hfrom); auto; try lia.
    { by replace (S (a - 1)) with a by lia. }
    rewrite E2. cbn [res_bind].
    destruct (IH m2 l2 (a - 1)%nat n) as (m'&l'&E'&R'&P'&S'); auto; try lia; [by rewrite L2| |].
    { intros i j Hij Hj x y Ex Ey. rewrite Hout in Ex by lia. destruct (decide (i < n)%nat) as [Hi|Hi].
      - destruct (Hfrom i y Ey Hi) as (i'&Hi'&Ey'). eapply (Ht i' j); eauto; lia.
      - rewrite Hout in Ey by lia. eapply (Ht i j); eauto. }
    exists m', l'. split; [done|]. split; [done|]. split; [by rewrite P'|done].
Qed.
End elements.

(** ** Sorting over any memory *)

Lemma sort_r_on_ok {A M} (cmp : A -> A -> Z) size cmp_ge do_swap (repr : M -> list A -> Prop)
    `{!SortMem cmp size cmp_ge do_swap repr} m l :
  (forall x y, 0 <= cmp x y \/ 0 <= cmp y x) ->
  (forall x y z, 0 <= cmp x y -> 0 <= cmp y z -> 0 <= cmp x z) ->
  0 < size < 4294967296 -> (2 * Z.of_nat (length l) + 2) * size <= 18446744073709551616 -> repr m l ->
  exists m' l', sort_r_on cmp_ge do_swap (Z.of_nat (length l)) size m = Ok m' /\ repr m' l'
    /\ l' ≡ₚ l /\ forall i j x y, (i <= j)%nat -> l' !! i = Some x -> l' !! j = Some y -> 0 <= cmp y x.
Proof.
  intros Htot Htr Hs Hm Hr. unfold sort_r_on. set (num := length l).
  pose proof (Z.div_mod (Z.of_nat num) 2 ltac:(lia)). pose proof (Z.mod_pos_bound (Z.of_nat num) 2 ltac:(lia)).
  set (h := Z.to_nat (Z.of_nat num / 2)). assert (Eh : Z.of_nat num / 2 = Z.of_nat h) by lia. rewrite Eh in *.
  fold num in Hm. rewrite (u64_small (Z.of_nat h * size)), (u64_small (Z.of_nat num * size)) by nia. destruct (Z.eqb_spec (Z.of_nat h * size) 0) as [E0|E0].
  { exists m, l. split; [done|]. split; [done|]. split; [done|]. intros i j x y Hij Ex Ey.
    pose proof (lookup_lt_Some _ _ _ Ey). fold num in H1. assert (i = j) as -> by nia. rewrite Ex in Ey. injection Ey as <-. by destruct (Htot x x). }
  destruct (sort_loop_ok cmp size cmp_ge do_swap repr Hs Htot Htr
              (Z.to_nat (Z.of_nat h + Z.of_nat num + 1)) (S (Z.to_nat (Z.of_nat num))) m l h num)
    as (m'&l'&E&Hr'&P&Hsort); auto; try lia; try nia.
  - intros i j Hi Hj Hij. pose proof (child_lt _ _ Hij). destruct Hij; lia.
  - intros i j Hij Hj x y Ex. apply lookup_lt_Some in Ex. fold num in Ex. lia.
  - exists m', l'. split; [done|]. split; [done|]. split; [done|]. intros i j x y Hij Ex Ey. by eapply (Hsort i j).
Qed.

(** *** The elements themselves *)

#[export] Instance elems_mem {A} (cmp : A -> A -> Z) size (Hs : 0 < size) :
  SortMem cmp size (elem_ge cmp size) (elem_swap size) (@eq (list A)).
Proof.
  split.
  - intros m l i j x y -> Ex Ey. unfold elem_ge. rewrite !Z.div_mul, !Nat2Z.id by lia.
    by rewrite (array_get_Some _ _ _ Ex), (array_get_Some _ _ _ Ey).
  - intros m l i j l' -> E. unfold elem_swap. rewrite !Z.div_mul, !Nat2Z.id by lia. eauto.
Qed.

(** [sort_r] on the elements of an array, with a comparison that is a total
    preorder, terminates and leaves a sorted permutation of the array. *)
Theorem sort_elems_correct {A} (cmp : A -> A -> Z) size (l : list A) :
  (forall x y, 0 <= cmp x y \/ 0 <= cmp y x) ->
  (forall x y z, 0 <= cmp x y -> 0 <= cmp y z -> 0 <= cmp x z) ->
  0 < size < 4294967296 -> (2 * Z.of_nat (length l) + 2) * size <= 18446744073709551616 ->
  exists l', sort_elems cmp size l = Ok l' /\ l' ≡ₚ l
    /\ forall i j x y, (i <= j)%nat -> l' !! i = Some x -> l' !! j = Some y -> 0 <= cmp y x.
Proof.
  intros Htot Htr Hs Hm. pose proof (elems_mem cmp size (proj1 Hs)).
  destruct (sort_r_on_ok cmp size (elem_ge cmp size) (elem_swap size) eq l l) as (m'&l'&E&->&P&S); eauto.
Qed.

Lemma sort_elems_correct_witness :
  exists l', sort_elems (fun x y => x - y) 12 [5; 3; 9; 1; 7] = Ok l' /\ l' ≡ₚ [5; 3; 9; 1; 7]
    /\ forall i j x y, (i <= j)%nat -> l' !! i = Some x -> l' !! j = Some y -> 0 <= y - x.
Proof. apply (sort_elems_correct (fun x y => x - y)); intros; simpl; lia. Defined.

(** *** The bytes of the array *)

(** The memory is the concatenation of chunks of [size] bytes. *)
Definition bytes_of (size : Z) (m : list Z) (l : list (list Z)) : Prop :=
  m = concat l /\ Forall (fun c => length c = Z.to_nat size) l.

Lemma lookup_splice {X} (m t : list X) x k :
  (x + length t <= length m)%nat ->
  (take x m ++ t ++ drop (x + length t) m) !! k
  = if decide (x <= k < x + length t)%nat then t !! (k - x)%nat else m !! k.
Proof.
  intros H. destruct (decide (k < x)%nat).
  - rewrite lookup_app_l by (rewrite length_take; lia). rewrite lookup_take_lt by lia. case_decide; [lia|done].
  - rewrite lookup_app_r by (rewrite length_take; lia). rewrite length_take, Nat.min_l by lia.
    destruct (decide (k < x + length t)%nat).
    + rewrite lookup_app_l by lia. case_decide; [done|lia].
    + rewrite lookup_app_r by lia. rewrite lookup_drop. case_decide; [lia|]. f_equal. lia.
Qed.

(** The address that ends up at [k] when [n] bytes at [a] and [b] are exchanged. *)
Definition exch (a b n k : nat) : nat :=
  if decide (a <= k < a + n)%nat then (b + (k - a))%nat
  else if decide (b <= k < b + n)%nat then (a + (k - b))%nat else k.

Definition apart (a b n : nat) : Prop := (a + n <= b)%nat \/ (b + n <= a)%nat \/ a = b.

Lemma exchange_ok m a b w :
  (a + w <= length m)%nat -> (b + w <= length m)%nat -> apart a b w ->
  exists m', exchange m a b w = Ok m' /\ length m' = length m /\ forall k, m' !! k = m !! exch a b w k.
Proof.
  intros Ha Hb Hap. unfold exchange. destruct (Nat.leb_spec (a + w) (length m)); [|lia].
  destruct (Nat.leb_spec (b + w) (length m)); [|lia]. simpl.
  set (t := take w (drop a m)). set (u := take w (drop b m)).
  assert (Lt : length t = w) by (unfold t; rewrite length_take, length_drop; lia).
  assert (Lu : length u = w) by (unfold u; rewrite length_take, length_drop; lia).
  set (m1 := take a m ++ u ++ drop (a + w) m).
  assert (L1 : length m1 = length m) by (unfold m1; rewrite !length_app, length_take, length_drop; lia).
  eexists. split; [done|]. split; [rewrite !length_app, length_take, length_drop; lia|]. intros k.
  pose proof (lookup_splice m1 t b k ltac:(lia)) as E. rewrite Lt in E. rewrite E.
  pose proof (lookup_splice m u a k ltac:(lia)) as E1. rewrite Lu in E1. fold m1 in E1. rewrite E1.
  assert (Lk : forall x v, (v < w)%nat -> take w (drop x m) !! v = m !! (x + v)%nat).
  { intros x v Hv. by rewrite lookup_take_lt, lookup_drop by lia. }
  unfold exch, apart, t, u in *. repeat case_decide; try lia; rewrite ?Lk by lia; try done; f_equal; lia.
Qed.

Lemma swap_words_ok fuel w m a b n :
  (0 < w)%nat -> (0 < n)%nat -> (exists q, n = q * w)%nat -> (n < fuel)%nat ->
  (a + n <= length m)%nat -> (b + n <= length m)%nat -> apart a b n ->
  exists m', swap_words fuel w m a b n = Ok m' /\ length m' = length m /\ forall k, m' !! k = m !! exch a b n k.
Proof.
  intros Hw. revert m n. induction fuel as [|fuel IH]; intros m n Hn [q Eq] Hf La Lb Hap; [lia|]. cbn [swap_words].
  destruct q as [|q]; [lia|]. assert (Hq : n = (q * w + w)%nat) by lia.
  destruct (Nat.ltb_spec n w); [lia|]. replace (n - w)%nat with (q * w)%nat by lia.
  destruct (exchange_ok m (a + q * w) (b + q * w) w) as (m1&->&L1&E1); [lia|lia|unfold apart in *; lia|]. cbn [res_bind].
  destruct (Nat.eqb_spec (q * w) 0) as [Ez|Ez].
  - exists m1. split; [done|]. split; [done|]. intros k. rewrite E1. f_equal. unfold exch. repeat case_decide; lia.
  - destruct (IH m1 (q * w)%nat) as (m2&->&L2&E2); [lia|by exists q|lia|lia|lia|unfold apart in *; lia|].
    exists m2. split; [done|]. split; [lia|]. intros k. rewrite E2, E1. f_equal.
    unfold exch, apart in *. repeat case_decide; lia.
Qed.

Lemma lookup_concat (l : list (list Z)) s k : (0 < s)%nat -> Forall (fun c => length c = s) l ->
  concat l !! k = (l !! (k / s)%nat) ≫= (fun c => c !! (k mod s)%nat).
Proof.
  intros Hs Hl. revert k. induction Hl as [|c l Hc Hl IH]; intros k; simpl; [done|].
  destruct (decide (k < s)%nat) as [Hk|Hk].
  - rewrite lookup_app_l by lia. by rewrite Nat.div_small, Nat.mod_small by lia.
  - rewrite lookup_app_r by lia. rewrite Hc, IH.
    assert (E1 : (k / s = S ((k - s) / s))%nat).
    { pose proof (Nat.div_add_l 1 s (k - s) ltac:(lia)) as E. replace (1 * s + (k - s))%nat with k in E by lia. lia. }
    assert (E2 : (k mod s = (k - s) mod s)%nat).
    { pose proof (Nat.Div0.mod_add (k - s) 1 s) as E. replace (k - s + 1 * s)%nat with k in E by lia. done. }
    by rewrite E1, E2.
Qed.

Lemma length_concat_chunks (l : list (list Z)) s :
  Forall (fun c => length c = s) l -> length (concat l) = (length l * s)%nat.
Proof. induction 1 as [|c l Hc Hl IH]; simpl; [done|]. rewrite length_app. lia. Qed.

Lemma aligned_divides base size k : 0 <= k <= 8 -> 0 <= size ->
  is_aligned base size (2 ^ k) = true -> size mod 2 ^ k = 0.
Proof.
  intros Hk Hs H. unfold is_aligned in H. apply Z.eqb_eq in H.
  rewrite Z.sub_1_r, <- Z.ones_equiv in H. rewrite <- Z.land_ones by lia.
  apply Z.bits_inj'. intros i Hi. rewrite Z.bits_0, Z.land_spec.
  destruct (Z.lt_ge_cases i k); [|rewrite Z.ones_spec_high by lia; apply andb_false_r].
  assert (Hb : Z.testbit 0 i = false) by apply Z.bits_0. rewrite <- H in Hb.
  change 255 with (Z.ones 8) in Hb. rewrite !Z.land_spec, Z.lor_spec, !Z.land_spec in Hb.
  rewrite !(Z.ones_spec_low 8 i), !(Z.ones_spec_low k i), !andb_true_r in Hb by lia.
  apply orb_false_iff in Hb as [-> _]. done.
Qed.

Lemma default_swap_ok base size m x y :
  0 < size -> (x + Z.to_nat size <= length m)%nat -> (y + Z.to_nat size <= length m)%nat ->
  apart x y (Z.to_nat size) ->
  exists m', default_swap base size m (Z.of_nat x) (Z.of_nat y) = Ok m' /\ length m' = length m
    /\ forall k, m' !! k = m !! exch x y (Z.to_nat size) k.
Proof.
  intros Hs Hx Hy Hap. unfold default_swap, swap_words_64, swap_words_32, swap_bytes. rewrite !Nat2Z.id.
  assert (Hdiv : forall w, 0 < w -> size mod w = 0 -> exists q, (Z.to_nat size = q * Z.to_nat w)%nat).
  { intros w Hw E. exists (Z.to_nat (size / w)). pose proof (Z.div_mod size w ltac:(lia)).
    assert (0 <= size / w) by (apply Z.div_pos; lia). rewrite <- Z2Nat.inj_mul by lia. f_equal. lia. }
  destruct (is_aligned base size 8) eqn:E8; [|destruct (is_aligned base size 4) eqn:E4].
  - apply (aligned_divides base size 3) in E8; [|lia|lia]. apply Hdiv in E8 as [q E8]; [|lia].
    apply swap_words_ok; [lia|lia|by exists q|lia|done|done|done].
  - apply (aligned_divides base size 2) in E4; [|lia|lia]. apply Hdiv in E4 as [q E4]; [|lia].
    apply swap_words_ok; [lia|lia|by exists q|lia|done|done|done].
  - apply swap_words_ok; [lia|lia|exists (Z.to_nat size); lia|lia|done|done|done].
Qed.

Lemma bytes_swap (size : Z) (l l' : list (list Z)) (m' : list Z) i j :
  0 < size -> Forall (fun c => length c = Z.to_nat size) l -> swap_elems l i j = Ok l' ->
  length m' = length (concat l) ->
  (forall k, m' !! k = concat l !! exch (i * Z.to_nat size) (j * Z.to_nat size) (Z.to_nat size) k) ->
  m' = concat l' /\ Forall (fun c => length c = Z.to_nat size) l'.
Proof.
  intros Hs Hl E Hlen Hm. set (s := Z.to_nat size) in *. assert (Hs0 : (0 < s)%nat) by lia.
  unfold swap_elems, array_get in E.
  destruct (l !! i) as [u|] eqn:Eu; [|done]. destruct (l !! j) as [v|] eqn:Ev; [|done]. injection E as <-.
  pose proof (lookup_lt_Some _ _ _ Eu). pose proof (lookup_lt_Some _ _ _ Ev).
  assert (Hl' : Forall (fun c => length c = s) (<[j := u]> (<[i := v]> l))).
  { apply Forall_insert; [apply Forall_insert; [done|]|].
    - exact (Forall_lookup_1 _ _ _ _ Hl Ev).
    - exact (Forall_lookup_1 _ _ _ _ Hl Eu). }
  split; [|done]. apply list_eq. intros k. rewrite Hm, !(lookup_concat _ s) by done.
  pose proof (Nat.div_mod_eq k s) as Ek. pose proof (Nat.mod_upper_bound k s ltac:(lia)).
  assert (Hin : forall q, (q * s <= k < q * s + s)%nat <-> (k / s = q)%nat).
  { intros q. split; [|intros <-; nia]. intros. symmetry. apply (Nat.div_unique k s q (k - q * s)); nia. }
  assert (Hmv : forall p q, (k / s = p)%nat -> ((q * s + (k - p * s)) / s = q /\ (q * s + (k - p * s)) mod s = k mod s)%nat).
  { intros p q <-. replace (k - k / s * s)%nat with (k mod s)%nat by nia. split.
    - symmetry. apply (Nat.div_unique _ _ _ (k mod s)%nat); nia.
    - symmetry. apply (Nat.mod_unique _ _ q); nia. }
  unfold exch. destruct (decide (i * s <= k < i * s + s)%nat) as [Hi|Hi].
  - apply Hin in Hi. destruct (Hmv i j Hi) as [-> ->]. rewrite Ev, Hi. destruct (decide (i = j)) as [->|].
    + rewrite list_lookup_insert_eq by (rewrite length_insert; lia). congruence.
    + by rewrite list_lookup_insert_ne, list_lookup_insert_eq by (done || lia).
  - destruct (decide (j * s <= k < j * s + s)%nat) as [Hj|Hj].
    + apply Hin in Hj. destruct (Hmv j i Hj) as [-> ->]. rewrite Eu, Hj.
      by rewrite list_lookup_insert_eq by (rewrite length_insert; lia).
    + rewrite Hin in Hi, Hj. by rewrite !list_lookup_insert_ne by done.
Qed.

#[export] Instance bytes_mem (cmp : list Z -> list Z -> Z) base size (Hs : 0 < size) :
  SortMem cmp size (bytes_ge cmp size) (default_swap base size) (bytes_of size).
Proof.
  assert (Hpos : forall (l : list (list Z)) i, Forall (fun c => length c = Z.to_nat size) l -> (i < length l)%nat ->
            (i * Z.to_nat size + Z.to_nat size <= length (concat l))%nat).
  { intros l i Hl Hi. rewrite (length_concat_chunks l (Z.to_nat size)) by done. nia. }
  assert (Eoff : forall i, Z.of_nat i * size = Z.of_nat (i * Z.to_nat size)) by lia.
  split.
  - intros m l i j x y [-> Hl] Ex Ey. unfold bytes_ge, chunk.
    assert (Hch : forall i x, l !! i = Some x ->
      (if (Z.to_nat (Z.of_nat i * size) + Z.to_nat size <=? length (concat l))%nat
       then Ok (take (Z.to_nat size) (drop (Z.to_nat (Z.of_nat i * size)) (concat l))) else Fault OutOfBounds) = Ok x).
    { intros q c Ec. pose proof (Hpos l q Hl (lookup_lt_Some _ _ _ Ec)). rewrite Eoff, Nat2Z.id.
      destruct (Nat.leb_spec (q * Z.to_nat size + Z.to_nat size) (length (concat l))); [|lia]. f_equal.
      assert (Lc : length c = Z.to_nat size) by (by eapply (Forall_lookup_1 _ _ _ _ Hl)).
      apply list_eq. intros k. destruct (decide (k < Z.to_nat size)%nat).
      - rewrite lookup_take_lt, lookup_drop, (lookup_concat _ (Z.to_nat size)) by (done || lia).
        rewrite Nat.div_add_l, Nat.div_small, Nat.add_0_r, Ec by lia. simpl.
        by rewrite Nat.add_comm, Nat.Div0.mod_add, Nat.mod_small by lia.
      - rewrite lookup_take_ge by lia. symmetry. apply lookup_ge_None_2. lia. }
    by rewrite (Hch i x Ex), (Hch j y Ey).
  - intros m l i j l' [-> Hl] E. assert (Hij : (i < length l /\ j < length l)%nat).
    { unfold swap_elems, array_get in E. destruct (l !! i) eqn:Ei; [|done]. destruct (l !! j) eqn:Ej; [|done].
      split; by eapply lookup_lt_Some. }
    rewrite !Eoff. destruct (default_swap_ok base size (concat l) (i * Z.to_nat size) (j * Z.to_nat size)) as (m'&->&L&Em);
      [done|apply Hpos; [done|lia]|apply Hpos; [done|lia]|destruct (Nat.lt_total i j) as [?|[->|?]]; unfold apart; nia|].
    exists m'. split; [done|]. by apply (bytes_swap size l l' m' i j).
Qed.

(** C39: [sort_r] without a swap function, run on the bytes of an array whatever
    its alignment, leaves the bytes of a sorted permutation of its elements. *)
Theorem sort_r_bytes_correct (cmp : list Z -> list Z -> Z) base size (l : list (list Z)) :
  (forall x y, 0 <= cmp x y \/ 0 <= cmp y x) ->
  (forall x y z, 0 <= cmp x y -> 0 <= cmp y z -> 0 <= cmp x z) ->
  0 < size < 4294967296 -> (2 * Z.of_nat (length l) + 2) * size <= 18446744073709551616 ->
  Forall (fun c => length c = Z.to_nat size) l ->
  exists l', sort_r None cmp base (Z.of_nat (length l)) size (concat l) = Ok (concat l') /\ l' ≡ₚ l
    /\ forall i j x y, (i <= j)%nat -> l' !! i = Some x -> l' !! j = Some y -> 0 <= cmp y x.
Proof.
  intros Htot Htr Hs Hm Hl. pose proof (bytes_mem cmp base size (proj1 Hs)).
  destruct (sort_r_on_ok cmp size (bytes_ge cmp size) (default_swap base size) (bytes_of size) (concat l) l)
    as (m'&l'&E&[-> _]&P&S); eauto. by split.
Qed.

(** Three elements of three bytes, compared by their first byte. *)
Definition sample : list (list Z) := [[5; 0; 1]; [3; 0; 2]; [9; 0; 3]].
Definition first_byte (x y : list Z) : Z := nth 0 x 0 - nth 0 y 0.

Lemma sort_r_bytes_correct_witness :
  exists l', sort_r None first_byte 4096 (Z.of_nat (length sample)) 3 (concat sample) = Ok (concat l')
    /\ l' ≡ₚ sample
    /\ forall i j x y, (i <= j)%nat -> l' !! i = Some x -> l' !! j = Some y -> 0 <= first_byte y x.
Proof.
  apply (sort_r_bytes_correct first_byte 4096 3 sample);
    [unfold first_byte; intros; lia|unfold first_byte; intros; lia|lia|simpl; lia|by repeat constructor].
Defined.
