(* ===== verification/MergeSort.v ===== *)
(** * Bottom-up merge sort of a sequence

    The abstract algorithm of lib/list_sort.c: what [list_sort] does in terms of the sequences of nodes that its lists
    hold.  A null-terminated list is the sequence of its nodes, and the list of pending sublists a sequence of those
    sequences, newest first; a sublist that is missing is a fault.  The result is the stable sort of the input, and the pending sublists
    have the sizes the counter prescribes, so none is ever missing.  ListSort.v shows that the pointer operations do this. *)

From S2P Require Import Prelude.
From Stdlib Require Import Permutation.
Local Open Scope res_scope.

Section MergeSort.
Context {A : Type} (cmp : A -> A -> Z).

(** The merge of two sequences: when the heads are equal the one of [a] goes first. *)
Fixpoint merged (a : list A) : list A -> list A :=
  fix merge_a (b : list A) : list A :=
    match a, b with
    | [], _ => b
    | _, [] => a
    | x :: a', y :: b' => if cmp x y <=? 0 then x :: merged a' b else y :: merge_a b'
    end.

(** The sublists of the trailing ones of the counter: those passed over, those after them, and the bits that remain. *)
Fixpoint seq_skip (fuel : nat) (bits : Z) (passed pending : list (list A))
  : res (list (list A) * list (list A) * Z) :=
  match fuel with
  | O => Fault NoFuel
  | S fuel =>
    if Z.odd bits then
      match pending with
      | [] => Fault OutOfBounds
      | p :: pending => seq_skip fuel (Z.shiftr bits 1) (passed ++ [p]) pending
      end
    else Ok (passed, pending, bits)
  end.

(** One round: the merge that the counter, of 64 bits, indicates, then one more element. *)
Definition seq_round (count : Z) (pending : list (list A)) (x : A) : res (list (list A)) :=
  '(passed, rest, bits) <-- seq_skip 65 count [] pending;
  rest <-- (if negb (bits =? 0) then
              match rest with
              | a :: b :: rest => Ok (merged b a :: rest)
              | _ => Fault OutOfBounds
              end
            else Ok rest);
  Ok ([x] :: passed ++ rest).

Fixpoint seq_rounds (list_ : list A) (count : Z) (pending : list (list A)) : res (list (list A)) :=
  match list_ with
  | [] => Ok pending
  | x :: list_ =>
    pending <-- seq_round count pending x;
    seq_rounds list_ (u64 (count + 1)) pending
  end.

(** The end of the input: merge the pending sublists, oldest last. *)
Fixpoint seq_pending (list_ : list A) (pending : list (list A)) : res (list A) :=
  match pending with
  | [] => Fault OutOfBounds
  | [p] => Ok (merged p list_)
  | p :: pending => seq_pending (merged p list_) pending
  end.

Definition seq_sort (l : list A) : res (list A) :=
  match l with
  | [] => Ok l
  | [_] => Ok l
  | _ =>
    pending <-- seq_rounds l 0 [];
    match pending with
    | [] => Fault OutOfBounds
    | p :: pending => seq_pending p pending
    end
  end.

(** ** Merging is stable *)

Definition le (x y : A) : Prop := cmp x y <= 0.

Context (Htotal : forall x y, le x y \/ le y x).
Context (Htrans : forall x y z, le x y -> le y z -> le x z).

(** Elements that compare equal to [x]. *)
Definition same (x y : A) : bool := (cmp x y <=? 0) && (cmp y x <=? 0).

Fixpoint sorted (l : list A) : Prop :=
  match l with
  | [] => True
  | x :: l => Forall (le x) l /\ sorted l
  end.

(** [r] is the stable sort of [l]: sorted, a permutation, and with equal
    elements in the order they have in [l]. *)
Definition stable_sort_of (l r : list A) : Prop :=
  sorted r /\ r ≡ₚ l /\ forall x, List.filter (same x) r = List.filter (same x) l.

Lemma merged_nil_r a : merged a [] = a.
Proof. by destruct a. Qed.

Lemma merged_heads x a y b :
  merged (x :: a) (y :: b) = if cmp x y <=? 0 then x :: merged a (y :: b) else y :: merged (x :: a) b.
Proof. done. Qed.

Lemma merged_perm a b : merged a b ≡ₚ a ++ b.
Proof.
  revert b. induction a as [|x a IHa]; intros b; [by destruct b|].
  induction b as [|y b IHb]; [by rewrite merged_nil_r, app_nil_r|]. rewrite merged_heads.
  destruct (cmp x y <=? 0); [by rewrite IHa|]. rewrite IHb. by rewrite <- (Permutation_middle (x :: a)).
Qed.

Lemma merged_sorted a b : sorted a -> sorted b -> sorted (merged a b).
Proof.
  revert b. induction a as [|x a IHa]; intros b Ha Hb; [by destruct b|].
  induction b as [|y b IHb]; [by rewrite merged_nil_r|]. rewrite merged_heads. destruct Ha as [Hx Ha], Hb as [Hy Hb].
  destruct (Z.leb_spec (cmp x y) 0) as [Hle|Hgt].
  - split; [|apply IHa; [done|by split]]. rewrite merged_perm. apply Forall_app. split; [done|]. constructor; [done|].
    eapply Forall_impl; [exact Hy|]. intros z Hz. by apply Htrans with y.
  - split; [|apply IHb; done]. assert (Hyx : le y x) by (destruct (Htotal x y) as [H|H]; [unfold le in H; lia|done]).
    rewrite merged_perm. apply Forall_app. split; [|done]. constructor; [done|].
    eapply Forall_impl; [exact Hx|]. intros z Hz. by apply Htrans with x.
Qed.

Lemma merged_filter z a b : sorted a -> sorted b ->
  List.filter (same z) (merged a b) = List.filter (same z) a ++ List.filter (same z) b.
Proof.
  revert b. induction a as [|x a IHa]; intros b Ha Hb; [by destruct b|].
  induction b as [|y b IHb]; [by rewrite merged_nil_r, app_nil_r|]. rewrite merged_heads. destruct Ha as [Hx Ha], Hb as [Hy Hb].
  destruct (Z.leb_spec (cmp x y) 0) as [Hle|Hgt].
  - simpl. rewrite IHa by (done || by split). by destruct (same z x).
  - cbn [List.filter]. rewrite IHb by done. cbn [List.filter]. destruct (same z y) eqn:Ezy; [|done].
    (* no element of [x :: a] is equal to [z]: all are above [y] *)
    assert (Hno : forall w, le x w -> same z w = false).
    { intros w Hw. destruct (same z w) eqn:Ezw; [|done]. unfold same in *. zbool.
      exfalso. assert (H' : le x y); [|unfold le in H'; lia].
      apply Htrans with w; [done|]. apply Htrans with z; done. }
    assert (Hnil : List.filter (same z) (x :: a) = []).
    { cbn [List.filter]. rewrite Hno by (by destruct (Htotal x x)). clear -Hx Hno.
      induction Hx as [|w a Hw Hx IH]; [done|]. simpl. by rewrite Hno. }
    cbn [List.filter] in Hnil. rewrite Hnil. done.
Qed.

Lemma merged_stable l1 r1 l2 r2 :
  stable_sort_of l1 r1 -> stable_sort_of l2 r2 -> stable_sort_of (l1 ++ l2) (merged r1 r2).
Proof.
  intros (S1&P1&F1) (S2&P2&F2). split; [by apply merged_sorted|]. split; [by rewrite merged_perm, P1, P2|].
  intros x. by rewrite merged_filter, F1, F2, List.filter_app.
Qed.

(** ** The sizes of the pending sublists

    [sizes e s p]: the sizes, from [s] on, when the remaining bits of the counter
    are [p] and the bit below them is [e].  A set bit has one sublist of its size
    if the bit below is set, a clear bit below a set one has one more. *)
Fixpoint sizes (e : bool) (s : nat) (p : positive) : list nat :=
  match p with
  | xH => if e then [s] else []
  | xI p => (if e then [s] else []) ++ sizes true (2 * s) p
  | xO p => (if e then [s; s] else [s]) ++ sizes false (2 * s) p
  end.

Definition pending_sizes (count : Z) : list nat :=
  match count with Zpos p => sizes true 1 p | _ => [] end.

(** The sizes after the merge of a round. *)
Fixpoint merged_sizes (s : nat) (p : positive) : list nat :=
  match p with
  | xH => [s]
  | xI p => s :: merged_sizes (2 * s) p
  | xO p => (2 * s)%nat :: sizes false (2 * s) p
  end.

Lemma sizes_true s p : sizes true s p = s :: sizes false s p.
Proof. by destruct p. Qed.

Lemma sizes_succ s p : sizes true s (Pos.succ p) = s :: merged_sizes s p.
Proof.
  revert s. induction p as [p IH|p IH|]; intros s; [|by change (Pos.succ p~0) with (p~1)%positive; cbn; rewrite sizes_true|done].
  change (Pos.succ p~1) with ((Pos.succ p)~0)%positive. cbn [sizes merged_sizes app].
  specialize (IH (2 * s)%nat). rewrite sizes_true in IH. f_equal. f_equal. by injection IH.
Qed.

(** [pending] holds the stable sorts of consecutive runs of [l], newest first. *)
Definition runs_of (pending : list (list A)) (l : list A) : Prop :=
  exists runs, Forall2 stable_sort_of runs pending /\ concat (rev runs) = l.

Lemma stable_length l r : stable_sort_of l r -> length r = length l.
Proof. intros (_&P&_). by apply Permutation_length. Qed.

(** The round's search and merge keep the runs and give the merged sizes. *)
Lemma round_ok fuel p s passed pending runs :
  Forall2 stable_sort_of runs pending -> map length pending = sizes true s p ->
  (Pos.size_nat p < fuel)%nat ->
  exists pre rest bits rest' runs',
    seq_skip fuel (Zpos p) passed pending = Ok (passed ++ pre, rest, bits)
    /\ (if negb (bits =? 0) then match rest with a :: b :: r => Ok (merged b a :: r) | _ => Fault OutOfBounds end else Ok rest)
       = Ok rest'
    /\ Forall2 stable_sort_of runs' (pre ++ rest') /\ concat (rev runs') = concat (rev runs)
    /\ map length (pre ++ rest') = merged_sizes s p.
Proof.
  revert fuel s passed pending runs. induction p as [p IH|p IH|]; intros fuel s passed pending runs Hr Hs Hf;
    (destruct fuel as [|fuel]; [simpl in Hf; lia|]); cbn [seq_skip Z.odd].
  - destruct pending as [|q pending]; [done|]. cbn [sizes app map] in Hs. injection Hs as Hq Hs.
    apply Forall2_cons_inv_r in Hr as (r&runs1&Hrq&Hr&->). change (Z.shiftr (Z.pos p~1) 1) with (Z.pos p).
    destruct (IH fuel (2 * s)%nat (passed ++ [q]) pending runs1) as (pre&rest&bits&rest'&runs'&E1&E2&F&C&L); auto; [simpl in Hf; lia|].
    exists (q :: pre), rest, bits, rest', (r :: runs'). rewrite E1, <- app_assoc. split; [done|]. split; [done|].
    split; [by constructor|]. split; [simpl; by rewrite !concat_app, C|]. simpl. by rewrite L, Hq.
  - destruct pending as [|a [|b pending]]; [done|done|]. cbn [sizes app map] in Hs. injection Hs as Ha Hb Hs.
    apply Forall2_cons_inv_r in Hr as (ra&runs1&Hra&Hr&->). apply Forall2_cons_inv_r in Hr as (rb&runs2&Hrb&Hr&->).
    exists [], (a :: b :: pending), (Z.pos p~0), (merged b a :: pending), ((rb ++ ra) :: runs2). rewrite app_nil_r.
    split; [done|]. split; [done|]. split; [constructor; [by apply merged_stable|done]|].
    split; [simpl; rewrite !concat_app; simpl; by rewrite !app_nil_r, <- app_assoc|].
    simpl. rewrite merged_perm, length_app, Ha, Hb, Hs. f_equal. lia.
  - destruct pending as [|q [|? ?]]; [done| |done]. cbn [sizes map] in Hs. injection Hs as Hq.
    exists [q], [], 0, [], runs. change (Z.shiftr 1 1) with 0. destruct fuel as [|fuel]; [simpl in Hf; lia|].
    cbn [seq_skip Z.odd]. repeat split; auto. simpl. by rewrite Hq.
Qed.

Lemma seq_round_ok count pending l x :
  0 <= count < 18446744073709551616 -> runs_of pending l -> map length pending = pending_sizes count ->
  exists pending', seq_round count pending x = Ok pending' /\ runs_of pending' (l ++ [x])
    /\ map length pending' = pending_sizes (count + 1).
Proof.
  intros Hc (runs&Hr&El) Hs. unfold seq_round.
  assert (Hx : stable_sort_of [x] [x]) by (split; [by split|]; split; done).
  destruct count as [|p|p]; [| |lia].
  - destruct pending; [|done]. apply Forall2_nil_inv_r in Hr as ->. exists [[x]]. split; [done|]. split; [|done].
    exists [[x]]. split; [by constructor|]. by rewrite <- El.
  - assert (Hsz : (Pos.size_nat p < 65)%nat).
    { pose proof (Pos.size_nat_monotone p (2 ^ 64 - 1)%positive) as Hmono.
      assert (Hlt : (p < 2 ^ 64 - 1)%positive \/ p = (2 ^ 64 - 1)%positive) by lia.
      destruct Hlt as [Hlt| ->]; [specialize (Hmono Hlt)|]; vm_compute (Pos.size_nat (2 ^ 64 - 1)) in *; lia. }
    destruct (round_ok 65 p 1 [] pending runs Hr Hs Hsz) as (pre&rest&bits&rest'&runs'&->&E2&F&C&L).
    cbn [res_bind]. rewrite E2. cbn [res_bind app]. eexists. split; [done|]. split.
    + exists ([x] :: runs'). split; [by constructor|]. simpl. by rewrite concat_app, C, El.
    + change (Z.pos p + 1) with (Z.pos (p + 1)). rewrite Pos.add_1_r. cbn [pending_sizes map length].
      by rewrite L, sizes_succ.
Qed.

Lemma seq_rounds_ok l count pending done_ :
  0 <= count -> count + Z.of_nat (length l) < 18446744073709551616 ->
  runs_of pending done_ -> map length pending = pending_sizes count ->
  exists pending', seq_rounds l count pending = Ok pending' /\ runs_of pending' (done_ ++ l)
    /\ map length pending' = pending_sizes (count + Z.of_nat (length l)).
Proof.
  revert count pending done_. induction l as [|x l IH]; intros count pending done_ Hc Hl Hr Hs; cbn [seq_rounds].
  { exists pending. rewrite app_nil_r, Z.add_0_r. auto. }
  simpl length in Hl. destruct (seq_round_ok count pending done_ x) as (p'&->&Hr'&Hs'); auto; [lia|]. cbn [res_bind].
  rewrite u64_small by lia. destruct (IH (count + 1) p' (done_ ++ [x])) as (p''&->&Hr''&Hs''); auto; [lia|lia|].
  exists p''. split; [done|]. rewrite <- app_assoc in Hr''. split; [done|]. rewrite Hs''. f_equal. simpl length. lia.
Qed.

Lemma seq_pending_ok list_ run pending l :
  stable_sort_of run list_ -> runs_of pending l -> pending <> [] ->
  exists r, seq_pending list_ pending = Ok r /\ stable_sort_of (l ++ run) r.
Proof.
  revert list_ run l. induction pending as [|p pending IH]; intros list_ run l Hrun (runs&Hr&El) Hne; [done|].
  apply Forall2_cons_inv_r in Hr as (r0&runs1&Hr0&Hr&->). simpl in El. rewrite concat_app in El. simpl in El.
  rewrite app_nil_r in El. pose proof (merged_stable _ _ _ _ Hr0 Hrun) as Hm. destruct pending as [|q pending].
  - apply Forall2_nil_inv_r in Hr as ->. eexists. split; [done|]. by rewrite <- El.
  - change (seq_pending list_ (p :: q :: pending)) with (seq_pending (merged p list_) (q :: pending)).
    destruct (IH (merged p list_) (r0 ++ run) (concat (rev runs1))) as (r&->&Hres); [done|by exists runs1|done|].
    exists r. split; [done|]. by rewrite <- El, <- app_assoc.
Qed.

Lemma seq_sort_ok l :
  Z.of_nat (length l) < 18446744073709551616 -> exists r, seq_sort l = Ok r /\ stable_sort_of l r.
Proof.
  intros Hl. destruct l as [|x [|y l]].
  { exists []. repeat split; auto. } { exists [x]. repeat split; auto. }
  unfold seq_sort. destruct (seq_rounds_ok (x :: y :: l) 0 [] []) as (pending&->&(runs&Hr&El)&Hs); auto; [lia|by exists []|].
  cbn [res_bind]. assert (Hlen : exists p q rest, pending = p :: q :: rest).
  { destruct pending as [|p [|q rest]]; [| |eauto]; simpl length in Hs; rewrite Z.add_0_l in Hs;
      replace (Z.of_nat (S (S (length l)))) with (Z.pos (Pos.of_nat (S (S (length l))))) in Hs by lia; cbn [pending_sizes] in Hs;
      exfalso; destruct (Pos.of_nat (S (S (length l)))) as [p'|p'|] eqn:Ep; try lia; simpl in Hs; try done;
      destruct p'; simpl in Hs; try done; rewrite ?sizes_true in Hs; done. }
  destruct Hlen as (p&q&rest&->). apply Forall2_cons_inv_r in Hr as (r0&runs1&Hr0&Hr&->).
  simpl in El. rewrite concat_app in El. simpl in El. rewrite app_nil_r in El.
  destruct (seq_pending_ok p r0 (q :: rest) (concat (rev runs1))) as (r&->&Hres); [done|by exists runs1|done|].
  exists r. split; [done|]. by rewrite <- El.
Qed.
End MergeSort.

(** After [n] rounds the pending sublists have exactly the sizes that the
    bits of the counter prescribe: powers of two, at most two of each, growing. *)
Lemma seq_rounds_sizes {A} (cmp : A -> A -> Z) (l : list A) :
  (forall x y, cmp x y <= 0 \/ cmp y x <= 0) ->
  (forall x y z, cmp x y <= 0 -> cmp y z <= 0 -> cmp x z <= 0) ->
  Z.of_nat (length l) < 18446744073709551616 ->
  exists pending, seq_rounds cmp l 0 [] = Ok pending
    /\ map length pending = pending_sizes (Z.of_nat (length l)).
Proof.
  intros Htot Htr Hl. destruct (seq_rounds_ok cmp Htot Htr l 0 [] []) as (pending&E&_&Hs); auto; [lia|by exists []|].
  exists pending. by rewrite Z.add_0_l in Hs.
Qed.

Lemma seq_rounds_sizes_witness :
  exists pending, seq_rounds (fun x y => x - y) [3; 1; 4; 1; 5; 9; 2] 0 [] = Ok pending
    /\ map length pending = pending_sizes (Z.of_nat (length [3; 1; 4; 1; 5; 9; 2])).
Proof. apply seq_rounds_sizes; [intros; lia|intros; lia|simpl; lia]. Defined.
