(* ===== verification/ListSort.v ===== *)
(** * Stable list sort (lib/list_sort.c)

    [list_sort] sorts a circular list in place: it cuts the circle into a null-terminated list, keeps a [prev]-linked list
    of sorted null-terminated sublists, and relinks both directions in the last merge.  The functions below are its loads and stores on
    the memory of ListHead.v, in the order of the source; an access to an address that is no node, such as NULL, is a fault, and so is a
    call of the comparison with NULL.  They are shown to do on the nodes what the algorithm of MergeSort.v does on
    sequences. *)

From stdpp Require Import gmap list.
From S2P Require Import Prelude ListHead MergeSort.
Local Open Scope Z_scope.
Local Open Scope res_scope.

Definition NULL : Z := 0.

Section ListSort.
(** The callback, on the addresses of two nodes: it reads what the nodes are embedded in, which the sort does not write. *)
Context (cmp : Z -> Z -> Z).

Definition call_cmp (a b : Z) : res Z := if (a =? NULL) || (b =? NULL) then Fault OutOfBounds else Ok (cmp a b).

(** ** The operations *)

(** [*tail = v] in [merge], where [tail] is the address of the local [head] ([None]) or of [x->next] ([Some x]). *)
Definition store_tail (head : Z) (m : list_mem) (tail : option Z) (v : Z) : res (Z * list_mem) :=
  match tail with
  | None => Ok (v, m)
  | Some x => m <-- set_next m x v; Ok (head, m)
  end.

Fixpoint list_merge_loop (fuel : nat) (m : list_mem) (head : Z) (tail : option Z) (a b : Z) : res (Z * list_mem) :=
  match fuel with
  | O => Fault NoFuel
  | S fuel =>
    c <-- call_cmp a b;
    if c <=? 0 then
      '(head, m) <-- store_tail head m tail a;
      let tail := Some a in
      a <-- get_next m a;
      if a =? NULL then store_tail head m tail b else list_merge_loop fuel m head tail a b
    else
      '(head, m) <-- store_tail head m tail b;
      let tail := Some b in
      b <-- get_next m b;
      if b =? NULL then store_tail head m tail a else list_merge_loop fuel m head tail a b
  end.

(** [head] is not initialised; it is written before it is read. *)
Definition merge (m : list_mem) (a b : Z) : res (Z * list_mem) := list_merge_loop (size (nexts m)) m NULL None a b.

(** The first loop of [merge_final]: the memory, [tail] and [b] at its end. *)
Fixpoint final_loop (fuel : nat) (m : list_mem) (tail a b : Z) : res (list_mem * Z * Z) :=
  match fuel with
  | O => Fault NoFuel
  | S fuel =>
    c <-- call_cmp a b;
    if c <=? 0 then
      m <-- set_next m tail a; m <-- set_prev m a tail;
      let tail := a in
      a <-- get_next m a;
      if a =? NULL then Ok (m, tail, b) else final_loop fuel m tail a b
    else
      m <-- set_next m tail b; m <-- set_prev m b tail;
      let tail := b in
      b <-- get_next m b;
      if b =? NULL then Ok (m, tail, a) else final_loop fuel m tail a b
  end.

(** The loop over the rest of [b]; [count] has 8 bits and calls the comparison when it wraps. *)
Fixpoint final_rest (fuel : nat) (m : list_mem) (count tail b : Z) : res (list_mem * Z) :=
  match fuel with
  | O => Fault NoFuel
  | S fuel =>
    let count := (count + 1) mod 2 ^ 8 in
    _ <-- (if count =? 0 then call_cmp b b else Ok 0);
    m <-- set_prev m b tail;
    let tail := b in
    b <-- get_next m b;
    if b =? NULL then Ok (m, tail) else final_rest fuel m count tail b
  end.

Definition merge_final (m : list_mem) (head a b : Z) : res list_mem :=
  '(m, tail, b) <-- final_loop (size (nexts m)) m head a b;
  m <-- set_next m tail b;
  '(m, tail) <-- final_rest (size (nexts m)) m 0 tail b;
  m <-- set_next m tail head;
  set_prev m head tail.

(** [*tail] and [*tail = v] in [list_sort], where [tail] is the address of the local [pending] ([None]) or of [x->prev]. *)
Definition load_pending (m : list_mem) (pending : Z) (tail : option Z) : res Z :=
  match tail with None => Ok pending | Some x => get_prev m x end.
Definition store_pending (m : list_mem) (pending : Z) (tail : option Z) (v : Z) : res (list_mem * Z) :=
  match tail with None => Ok (m, v) | Some x => m <-- set_prev m x v; Ok (m, pending) end.

(** The search of the least significant clear bit; [bits] has 64. *)
Fixpoint skip_ones (fuel : nat) (m : list_mem) (pending : Z) (tail : option Z) (bits : Z) : res (option Z * Z) :=
  match fuel with
  | O => Fault NoFuel
  | S fuel =>
    if Z.odd bits then x <-- load_pending m pending tail; skip_ones fuel m pending (Some x) (Z.shiftr bits 1)
    else Ok (tail, bits)
  end.

(** One round of the [do] loop, but for the counter: the indicated merge, then one more element. *)
Definition sort_round (m : list_mem) (pending list_ count : Z) : res (list_mem * Z * Z) :=
  '(tail, bits) <-- skip_ones 65 m pending None count;
  '(m, pending) <--
    (if negb (bits =? 0) then
       a <-- load_pending m pending tail; b <-- get_prev m a;
       '(a, m) <-- merge m b a;
       p <-- get_prev m b; m <-- set_prev m a p;
       store_pending m pending tail a
     else Ok (m, pending));
  m <-- set_prev m list_ pending;
  let pending := list_ in
  list_ <-- get_next m list_;
  m <-- set_next m pending NULL;
  Ok (m, pending, list_).

Fixpoint sort_rounds (fuel : nat) (m : list_mem) (pending list_ count : Z) : res (list_mem * Z) :=
  match fuel with
  | O => Fault NoFuel
  | S fuel =>
    '(m, pending, list_) <-- sort_round m pending list_ count;
    if list_ =? NULL then Ok (m, pending) else sort_rounds fuel m pending list_ (u64 (count + 1))
  end.

(** The end of the input: the merges of the pending sublists, up to the last. *)
Fixpoint merge_pending (fuel : nat) (m : list_mem) (head pending list_ : Z) : res list_mem :=
  match fuel with
  | O => Fault NoFuel
  | S fuel =>
    next <-- get_prev m pending;
    if next =? NULL then merge_final m head pending list_
    else '(list_, m) <-- merge m pending list_; merge_pending fuel m head next list_
  end.

Definition list_sort (m : list_mem) (head : Z) : res list_mem :=
  list_ <-- get_next m head;
  p <-- get_prev m head;
  if list_ =? p then Ok m
  else
    p <-- get_prev m head; m <-- set_next m p NULL;
    '(m, pending) <-- sort_rounds (size (nexts m)) m NULL list_ 0;
    let list_ := pending in
    pending <-- get_prev m pending;
    merge_pending (size (nexts m)) m head pending list_.

(** ** Null-terminated lists *)

Definition node (m : list_mem) (z : Z) : Prop := is_Some (nexts m !! z) /\ is_Some (prevs m !! z).
Definition nodes (m : list_mem) (l : list Z) : Prop := Forall (node m) l.

(** From [x] on, the [next] pointers lead through the nodes [l] to NULL. *)
Fixpoint nlist (m : list_mem) (x : Z) (l : list Z) : Prop :=
  match l with
  | [] => x = NULL
  | y :: l => x = y /\ y <> NULL /\ exists n, nexts m !! y = Some n /\ nlist m n l
  end.

(** From [x] on, the [prev] pointers lead through the first nodes of the sublists [ps] to NULL. *)
Fixpoint sublists (m : list_mem) (x : Z) (ps : list (list Z)) : Prop :=
  match ps with
  | [] => x = NULL
  | p :: ps => p <> [] /\ nlist m x p /\ exists n, prevs m !! x = Some n /\ sublists m n ps
  end.

Lemma nlist_frame m m' x l : (forall z, z ∈ l -> nexts m' !! z = nexts m !! z) -> nlist m x l -> nlist m' x l.
Proof.
  revert x. induction l as [|y l IH]; intros x Hz; [done|]. intros (->&Hy&n&En&Hn). split; [done|]. split; [done|]. exists n.
  rewrite Hz by (apply elem_of_cons; auto). split; [done|]. apply IH; [|done]. intros z ?. apply Hz, elem_of_cons. auto.
Qed.

Lemma nlist_head m x l : nlist m x l -> l <> [] -> x ∈ l /\ x <> NULL.
Proof. destruct l as [|y l]; [done|]. intros (->&Hy&_) _. split; [apply elem_of_cons; auto|done]. Qed.

Lemma sublists_frame m m' x ps : (forall z, z ∈ concat ps -> nexts m' !! z = nexts m !! z /\ prevs m' !! z = prevs m !! z) -> sublists m x ps -> sublists m' x ps.
Proof.
  revert x. induction ps as [|p ps IH]; intros x Hz; [done|]. intros (Hp&Hl&n&En&Hn). cbn [concat] in Hz. split; [done|].
  split; [eapply nlist_frame; [|exact Hl]; intros z ?; apply Hz, elem_of_app; auto|]. exists n. destruct (nlist_head _ _ _ Hl Hp) as [Hx _].
  split; [rewrite (proj2 (Hz x ltac:(apply elem_of_app; auto))); done|]. apply IH; [|done]. intros z ?. apply Hz, elem_of_app. auto.
Qed.

Lemma node_outside l m m' z : outside l m m' -> node m' z <-> node m z.
Proof. intros [_ _ H]. unfold node. destruct (H z). tauto. Qed.

Lemma nodes_outside l m m' l' : outside l m m' -> nodes m' l' <-> nodes m l'.
Proof. intros HO. unfold nodes. rewrite !Forall_forall. split; intros H z Hz; apply (node_outside l m m' z HO); auto. Qed.

(** The nodes of a list are not more than those of the memory. *)
Lemma nodes_size m l : NoDup l -> nodes m l -> (length l <= size (nexts m))%nat.
Proof.
  intros Hn Hl. rewrite <- (size_list_to_set (C := gset Z) l Hn), <- (size_dom (D := gset Z) (nexts m)). apply subseteq_size.
  intros z Hz. apply elem_of_list_to_set in Hz. apply elem_of_dom. eapply Forall_forall in Hl; [|exact Hz]. apply Hl.
Qed.

Lemma call_cmp_ok a b : a <> NULL -> b <> NULL -> call_cmp a b = Ok (cmp a b).
Proof. intros Ha Hb. unfold call_cmp. by rewrite (proj2 (Z.eqb_neq _ _) Ha), (proj2 (Z.eqb_neq _ _) Hb). Qed.

Lemma get_next_ok m x n : nexts m !! x = Some n -> get_next m x = Ok n.
Proof. unfold get_next. by intros ->. Qed.
Lemma get_prev_ok m x n : prevs m !! x = Some n -> get_prev m x = Ok n.
Proof. unfold get_prev. by intros ->. Qed.

(** ** Merging *)

(** The variable [tail] points to holds [v]; [head] is changed only through it. *)
Definition tail_is (head : Z) (tail : option Z) (head' : Z) (m' : list_mem) (v : Z) : Prop :=
  match tail with None => head' = v | Some t => head' = head /\ nexts m' !! t = Some v end.
Definition tail_free (m : list_mem) (tail : option Z) (l : list Z) : Prop :=
  match tail with None => True | Some t => (t ∉ l) /\ is_Some (nexts m !! t) end.
Definition tail_list (tail : option Z) : list Z := match tail with None => [] | Some t => [t] end.

Lemma store_tail_ok head m tail v l : tail_free m tail l ->
  exists head' m', store_tail head m tail v = Ok (head', m') /\ tail_is head tail head' m' v /\ outside (tail_list tail) m m' /\ prevs m' = prevs m /\ (forall z, z ∈ l -> nexts m' !! z = nexts m !! z).
Proof.
  destruct tail as [t|]; cbn; [|intros _; exists v, m; split; [done|]; split; [done|]; split; [apply outside_refl|done]].
  intros [Ht Ha]. rewrite set_next_ok by done. cbn [res_bind]. exists head, (put_next t v m). split; [done|]. split; [split; [done|]; lookups; done|].
  split; [apply outside_put_next; [by apply list_elem_of_singleton|done]|]. split; [done|]. intros z Hz. assert (t <> z) by (by intros ->). lookups. done.
Qed.

(** One node [x] is taken from its list, before the rest [R] is merged by [rec]. *)
Lemma take_ok m head tail x lx y ly R (rec : list_mem -> Z -> Z -> res (Z * list_mem)) :
  nlist m x (x :: lx) -> nlist m y ly -> NoDup (x :: lx ++ ly) -> tail_free m tail (x :: lx ++ ly) -> (lx = [] -> R = ly) ->
  (forall m1 head1 n, lx <> [] -> nlist m1 n lx -> nlist m1 y ly -> tail_free m1 (Some x) (lx ++ ly) ->
     exists head2 m2 h, rec m1 head1 n = Ok (head2, m2) /\ tail_is head1 (Some x) head2 m2 h /\ nlist m2 h R /\ outside (x :: lx ++ ly) m1 m2 /\ prevs m2 = prevs m1) ->
  exists head' m', ('(head, m) <-- store_tail head m tail x; n <-- get_next m x; if n =? NULL then store_tail head m (Some x) y else rec m head n) = Ok (head', m') /\
    tail_is head tail head' m' x /\ nlist m' x (x :: R) /\ outside (tail_list tail ++ x :: lx ++ ly) m m' /\ prevs m' = prevs m.
Proof.
  intros (_&Hx&n&En&Hn) Hy ND Hf Hnil Hrec. destruct (store_tail_ok head m tail x _ Hf) as (h1&m1&E1&Ht1&HO1&Hp1&Hk1). rewrite E1. cbn [res_bind].
  assert (En1 : nexts m1 !! x = Some n) by (rewrite Hk1; [done|set_solver]). rewrite (get_next_ok _ _ _ En1). cbn [res_bind]. apply NoDup_cons in ND as [Hxn ND].
  assert (Hf1 : tail_free m1 (Some x) (lx ++ ly)) by (split; [done|by eexists]).
  assert (Hn1 : nlist m1 n lx) by (eapply nlist_frame; [|exact Hn]; intros z ?; apply Hk1; set_solver).
  assert (Hy1 : nlist m1 y ly) by (eapply nlist_frame; [|exact Hy]; intros z ?; apply Hk1; set_solver).
  assert (H2 : exists h2 m2 v, (if n =? NULL then store_tail h1 m1 (Some x) y else rec m1 h1 n) = Ok (h2, m2) /\ tail_is h1 (Some x) h2 m2 v /\ nlist m2 v R /\ outside (x :: lx ++ ly) m1 m2 /\ prevs m2 = prevs m1).
  { destruct lx as [|x' lx].
    - rewrite (Hnil eq_refl). cbn in Hn. rewrite Hn. cbn [Z.eqb NULL]. destruct (store_tail_ok h1 m1 (Some x) y _ Hf1) as (h2&m2&E2&Ht2&HO2&Hp2&Hk2).
      exists h2, m2, y. split; [exact E2|]. split; [done|]. split; [eapply nlist_frame; [exact Hk2|done]|]. split; [eapply outside_weaken; [|exact HO2]; set_solver|done].
    - destruct (nlist_head _ _ _ Hn1) as [_ Hnn]; [done|]. rewrite (proj2 (Z.eqb_neq _ _) Hnn). by apply Hrec. }
  destruct H2 as (h2&m2&v&->&[-> Hv]&HR&HO2&Hp2). exists h1, m2. split; [done|]. split; [|split; [|split; [|congruence]]].
  - destruct tail as [t|]; [|done]. destruct Ht1 as [-> Ht1]. split; [done|]. destruct Hf as [Hft _]. rewrite (os_next _ _ _ HO2) by done. done.
  - split; [done|]. split; [done|]. by exists v.
  - eapply outside_trans; (eapply outside_weaken; [|eassumption]); set_solver.
Qed.

Lemma list_merge_loop_ok fuel m head tail a b la lb : nlist m a la -> nlist m b lb -> la <> [] -> lb <> [] -> NoDup (la ++ lb) -> tail_free m tail (la ++ lb) ->
  (length (la ++ lb) <= fuel)%nat ->
  exists head' m' h, list_merge_loop fuel m head tail a b = Ok (head', m') /\ tail_is head tail head' m' h /\ nlist m' h (merged cmp la lb) /\
    outside (tail_list tail ++ la ++ lb) m m' /\ prevs m' = prevs m.
Proof.
  revert m head tail a b la lb. induction fuel as [|fuel IH]; intros m head tail a b la lb Ha Hb Na Nb ND Hf Hlen; [destruct la; [done|cbn in Hlen; lia]|].
  destruct (nlist_head _ _ _ Ha Na) as [_ Hna], (nlist_head _ _ _ Hb Nb) as [_ Hnb]. cbn [list_merge_loop]. rewrite call_cmp_ok by done. cbn [res_bind].
  destruct la as [|a' la], lb as [|b' lb]; [done..|]. assert (a' = a) as -> by (by destruct Ha). assert (b' = b) as -> by (by destruct Hb). rewrite merged_heads. destruct (cmp a b <=? 0).
  - destruct (take_ok m head tail a la b (b :: lb) (merged cmp la (b :: lb)) (fun m h n => list_merge_loop fuel m h (Some a) n b)) as (h'&m'&E&Ht&HR&HO&Hp); [done..|by intros ->| |].
    { intros m1 h1 n Nl Hn1 Hb1 Hf1. apply NoDup_cons in ND as [_ ND]. by apply IH; [..|cbn in Hlen; lia]. }
    exists h', m', a. split; [exact E|]. done.
  - assert (P : a :: la ++ b :: lb ≡ₚ b :: lb ++ a :: la) by (rewrite (Permutation_app_comm lb (a :: la)); symmetry; apply (Permutation_middle (a :: la))).
    destruct (take_ok m head tail b lb a (a :: la) (merged cmp (a :: la) lb) (fun m h n => list_merge_loop fuel m h (Some b) a n)) as (h'&m'&E&Ht&HR&HO&Hp); [done..|by rewrite <- P| | | |].
    { destruct tail; [|done]. destruct Hf as [Hf1 Hf2]. split; [|done]. set_solver. }
    { intros ->. by rewrite merged_nil_r. }
    { intros m1 h1 n Nl Hn1 Ha1 [Hf1 Hf1']. assert (ND2 : NoDup (b :: lb ++ a :: la)) by by rewrite <- P. apply NoDup_cons in ND2 as [_ ND2].
      destruct (IH m1 h1 (Some b) a n (a :: la) lb) as (h2&m2&v&E2&Ht2&HR2&HO2&Hp2); try done; [by rewrite Permutation_app_comm|split; [set_solver|done]|cbn in *; rewrite length_app in *; cbn in *; lia|].
      exists h2, m2, v. do 3 (split; [done|]). split; [|done]. eapply outside_weaken; [|exact HO2]. set_solver. }
    exists h', m', b. split; [exact E|]. do 2 (split; [done|]). split; [|done]. eapply outside_weaken; [|exact HO]. set_solver.
Qed.

(** [merge] merges two null-terminated lists in place; the [prev] pointers are as before. *)
Lemma merge_ok m a b la lb : nlist m a la -> nlist m b lb -> la <> [] -> lb <> [] -> NoDup (la ++ lb) -> nodes m (la ++ lb) ->
  exists h m', merge m a b = Ok (h, m') /\ nlist m' h (merged cmp la lb) /\ outside (la ++ lb) m m' /\ prevs m' = prevs m.
Proof.
  intros Ha Hb Na Nb ND Hn. destruct (list_merge_loop_ok (size (nexts m)) m NULL None a b la lb) as (h'&m'&h&E&Ht&HR&HO&Hp); try done; [by apply nodes_size|].
  cbn in Ht. subst h'. by exists h, m'.
Qed.

(** ** The final merge *)

(** What the final merge does behind the node [t]: [R] is linked to it in both directions, [tail] is the last node. *)
Record relinked (m m' : list_mem) (t : Z) (R l : list Z) (tail : Z) : Prop := {
  rl_links : links m' (t :: R); rl_last : last R = Some tail; rl_outside : outside (t :: l) m m'; rl_prev : prevs m' !! t = prevs m !! t }.

(** Linking [x] behind [t] in front of what is relinked behind [x]. *)
Lemma relinked_cons m m' t x R l l' tail : x <> t -> t ∉ l -> (forall z, z ∈ x :: l -> z ∈ l') -> node m t -> node m x ->
  relinked (put_prev x t (put_next t x m)) m' x R l tail -> R <> [] -> relinked m m' t (x :: R) l' tail.
Proof.
  intros Hx Ht Hl [Nt1 Nt2] [Nx1 Nx2] [L1 L2 L3 L4] HR. assert (Htl : t ∉ x :: l) by set_solver. split.
  - cbn. split; [|exact L1]. split; [rewrite (os_next _ _ _ L3) by done|rewrite L4]; lookups; done.
  - destruct R as [|r R]; [done|]. exact L2.
  - eapply outside_trans; [|eapply outside_weaken; [|exact L3]; set_solver]. eapply outside_trans; [apply (outside_put_next _ m t x); [set_solver|done]|].
    apply outside_put_prev; [apply elem_of_cons; right; apply Hl; set_solver|lookups; done].
  - rewrite (os_prev _ _ _ L3) by done. lookups. done.
Qed.

(** The loop over the rest changes [prev] pointers only. *)
Lemma final_rest_ok rest fuel m count t b : nlist m b rest -> rest <> [] -> NoDup (t :: rest) -> nodes m rest -> nexts m !! t = Some b -> (length rest <= fuel)%nat ->
  exists m' tail, final_rest fuel m count t b = Ok (m', tail) /\ relinked m m' t rest rest tail.
Proof.
  revert fuel m count t b. induction rest as [|y rest IH]; intros fuel m count t b Hb Hne ND Hn Et Hlen; [done|]. destruct fuel as [|fuel]; [cbn in Hlen; lia|].
  destruct Hb as (->&Hy&n&En&Hr). apply Forall_cons in Hn as [[Hy1 Hy2] Hn]. cbn [final_rest].
  assert (Ec : (if (count + 1) mod 2 ^ 8 =? 0 then call_cmp y y else Ok 0) = Ok (if (count + 1) mod 2 ^ 8 =? 0 then cmp y y else 0)) by (destruct (_ =? 0); [by apply call_cmp_ok|done]).
  rewrite Ec. cbn [res_bind]. rewrite set_prev_ok by done. cbn [res_bind]. set (m1 := put_prev y t m).
  rewrite (get_next_ok m1 y n) by done. cbn [res_bind]. apply NoDup_cons in ND as [Ht ND].
  assert (Hyt : y <> t) by (intros ->; apply Ht; set_solver). assert (O1 : outside (t :: y :: rest) m m1) by (apply outside_put_prev; [set_solver|done]). destruct rest as [|z rest].
  - cbn in Hr. subst n. cbn [Z.eqb NULL]. exists m1, y. split; [done|]. split; [|done|done|unfold m1; lookups; done].
    cbn. split; [|done]. split; [exact Et|]. unfold m1. lookups. done.
  - destruct (nlist_head _ _ _ Hr) as [_ Hnn]; [done|]. rewrite (proj2 (Z.eqb_neq _ _) Hnn).
    destruct (IH fuel m1 ((count + 1) mod 2 ^ 8) y n) as (m'&tail&E&[L1 L2 L3 L4]); try done; [by apply (nlist_frame m)|by apply (nodes_outside _ _ _ _ O1)|cbn in *; lia|].
    exists m', tail. split; [exact E|]. split; [|exact L2| |].
    + split; [|exact L1]. split; [rewrite (os_next _ _ _ L3) by done; exact Et|]. rewrite L4. unfold m1. lookups. done.
    + eapply outside_trans; [exact O1|]. eapply outside_weaken; [|exact L3]. set_solver.
    + rewrite (os_prev _ _ _ L3) by done. unfold m1. lookups. done.
Qed.

(** After the first loop: the rest of [b] is linked behind [tail]. *)
Definition finish (m : list_mem) (tail b : Z) : res (list_mem * Z) :=
  m <-- set_next m tail b; final_rest (size (nexts m)) m 0 tail b.

Lemma finish_links m t b rest : nlist m b rest -> rest <> [] -> NoDup (t :: rest) -> nodes m (t :: rest) ->
  exists m' tail, finish m t b = Ok (m', tail) /\ relinked m m' t rest rest tail.
Proof.
  intros Hb Hne ND Hn. apply Forall_cons in Hn as [[Ht1 Ht2] Hn]. unfold finish. rewrite set_next_ok by done. cbn [res_bind]. set (m1 := put_next t b m).
  assert (O1 : outside (t :: rest) m m1) by (apply outside_put_next; [set_solver|done]). assert (Hn1 : nodes m1 rest) by by apply (nodes_outside _ _ _ _ O1).
  pose proof ND as [Htn ND1]%NoDup_cons. destruct (final_rest_ok rest (size (nexts m1)) m1 0 t b) as (m'&tail&E&[L1 L2 L3 L4]); try done.
  - eapply nlist_frame; [|exact Hb]. intros z Hz. assert (t <> z) by (by intros ->). unfold m1. lookups. done.
  - unfold m1. lookups. done.
  - by apply nodes_size.
  - exists m', tail. split; [exact E|]. split; [done|done| |exact L4]. by eapply outside_trans.
Qed.

(** One node [x] of a list goes behind [t]. *)
Lemma link_step m t x lx y ly R (rec : list_mem -> Z -> res (list_mem * Z)) : nlist m x (x :: lx) -> nlist m y ly -> ly <> [] -> NoDup (t :: x :: lx ++ ly) -> nodes m (t :: x :: lx ++ ly) ->
  R <> [] -> (lx = [] -> R = ly) ->
  (forall m1 n, lx <> [] -> nlist m1 n lx -> nlist m1 y ly -> nodes m1 (x :: lx ++ ly) -> exists m2 tail, rec m1 n = Ok (m2, tail) /\ relinked m1 m2 x R (lx ++ ly) tail) ->
  exists m' tail, (m <-- set_next m t x; m <-- set_prev m x t; n <-- get_next m x; if n =? NULL then finish m x y else rec m n) = Ok (m', tail) /\ relinked m m' t (x :: R) (x :: lx ++ ly) tail.
Proof.
  intros (_&Hx&n&En&Hn) Hy Ny ND HN NR Hnil Hrec. pose proof HN as [Nt [Nx _]%Forall_cons]%Forall_cons. pose proof ND as [Ht [Hxn ND1]%NoDup_cons]%NoDup_cons.
  assert (Hxt : x <> t) by set_solver. rewrite set_next_ok by apply Nt. cbn [res_bind]. rewrite set_prev_ok by apply Nx. cbn [res_bind]. set (m1 := put_prev x t (put_next t x m)).
  assert (Hk : forall z, z ∈ x :: lx ++ ly -> nexts m1 !! z = nexts m !! z) by (intros z Hz; assert (t <> z) by (by intros ->); unfold m1; lookups; done).
  assert (O1 : outside (t :: [x]) m m1) by (eapply outside_trans; [apply (outside_put_next _ m t x); [set_solver|apply Nt]|apply outside_put_prev; [set_solver|apply Nx]]).
  rewrite (get_next_ok m1 x n) by (rewrite Hk; [done|set_solver]). cbn [res_bind]. assert (HN1 : nodes m1 (x :: lx ++ ly)) by (apply (nodes_outside _ _ _ _ O1); by apply Forall_cons in HN as [_ ?]).
  assert (Hn1 : nlist m1 n lx) by (eapply nlist_frame; [|exact Hn]; intros z ?; apply Hk; set_solver).
  assert (Hy1 : nlist m1 y ly) by (eapply nlist_frame; [|exact Hy]; intros z ?; apply Hk; set_solver).
  assert (H2 : exists m2 tail, (if n =? NULL then finish m1 x y else rec m1 n) = Ok (m2, tail) /\ relinked m1 m2 x R (lx ++ ly) tail).
  { destruct lx as [|x' lx].
    - rewrite (Hnil eq_refl). cbn in Hn. rewrite Hn. cbn [Z.eqb NULL app]. apply finish_links; try done. by apply NoDup_cons.
    - destruct (nlist_head _ _ _ Hn1) as [_ Hnn]; [done|]. rewrite (proj2 (Z.eqb_neq _ _) Hnn). by apply Hrec. }
  destruct H2 as (m2&tail&->&HR). exists m2, tail. split; [done|]. apply (relinked_cons m m2 t x R (lx ++ ly)); try done. set_solver.
Qed.

(** The two loops together. *)
Definition final_both (fuel : nat) (m : list_mem) (t a b : Z) : res (list_mem * Z) := '(m, tail, b) <-- final_loop fuel m t a b; finish m tail b.

Lemma final_step m t x y (k : list_mem -> Z -> res (list_mem * Z * Z)) :
  ('(m, tail, b) <-- (m <-- set_next m t x; m <-- set_prev m x t; n <-- get_next m x; if n =? NULL then Ok (m, x, y) else k m n); finish m tail b) =
  (m <-- set_next m t x; m <-- set_prev m x t; n <-- get_next m x; if n =? NULL then finish m x y else '(m, tail, b) <-- k m n; finish m tail b).
Proof.
  destruct (set_next m t x) as [m1|]; [cbn [res_bind]|done]. destruct (set_prev m1 x t) as [m2|]; [cbn [res_bind]|done]. destruct (get_next m2 x) as [n|]; [cbn [res_bind]|done].
  by destruct (n =? NULL).
Qed.

Lemma final_both_ok fuel m t a b la lb : nlist m a la -> nlist m b lb -> la <> [] -> lb <> [] -> NoDup (t :: la ++ lb) -> nodes m (t :: la ++ lb) -> (length (la ++ lb) <= fuel)%nat ->
  exists m' tail, final_both fuel m t a b = Ok (m', tail) /\ relinked m m' t (merged cmp la lb) (la ++ lb) tail.
Proof.
  revert m t a b la lb. induction fuel as [|fuel IH]; intros m t a b la lb Ha Hb Na Nb ND HN Hlen; [destruct la; [done|cbn in Hlen; lia]|].
  destruct (nlist_head _ _ _ Ha Na) as [_ Hna], (nlist_head _ _ _ Hb Nb) as [_ Hnb]. unfold final_both. cbn [final_loop]. rewrite call_cmp_ok by done. cbn [res_bind].
  destruct la as [|a' la], lb as [|b' lb]; [done..|]. assert (a' = a) as -> by (by destruct Ha). assert (b' = b) as -> by (by destruct Hb). rewrite merged_heads.
  assert (NM : forall l1 l2, l1 <> [] -> merged cmp l1 l2 <> []) by (intros [|] [|] ?; [done..|rewrite merged_heads; by destruct (_ <=? 0)]). destruct (cmp a b <=? 0).
  - rewrite final_step. apply (link_step m t a la b (b :: lb) _ (fun m n => final_both fuel m a n b)); try done; [destruct la; [done|by apply NM]|by intros ->|].
    intros m1 n Nl Hn1 Hb1 HN1. apply NoDup_cons in ND as [_ ND]. by apply IH; [..|cbn in Hlen; lia].
  - assert (P : a :: la ++ b :: lb ≡ₚ b :: lb ++ a :: la) by (rewrite (Permutation_app_comm lb (a :: la)); symmetry; apply (Permutation_middle (a :: la))).
    rewrite final_step. destruct (link_step m t b lb a (a :: la) (merged cmp (a :: la) lb) (fun m n => final_both fuel m b a n)) as (m'&tail&E&[L1 L2 L3 L4]);
      try done; [by rewrite <- P|unfold nodes; by rewrite <- P|by apply NM|intros ->; by rewrite merged_nil_r| |].
    + intros m1 n Nl Hn1 Ha1 HN1. assert (ND2 : NoDup (b :: lb ++ a :: la)) by (rewrite <- P; by apply NoDup_cons in ND as [_ ?]).
      destruct (IH m1 b a n (a :: la) lb) as (m2&tail&E2&[K1 K2 K3 K4]); try done.
      * by rewrite (Permutation_app_comm (a :: la)).
      * unfold nodes. by rewrite (Permutation_app_comm (a :: la)).
      * cbn in *. rewrite length_app in *. cbn in *. lia.
      * exists m2, tail. split; [done|]. split; [done|done| |done]. eapply outside_weaken; [|exact K3]. set_solver.
    + exists m', tail. split; [exact E|]. split; [done|done| |done]. eapply outside_weaken; [|exact L3]. set_solver.
Qed.

Lemma merge_final_both m head a b : merge_final m head a b =
  ('(m, tail) <-- final_both (size (nexts m)) m head a b; m <-- set_next m tail head; set_prev m head tail).
Proof.
  unfold merge_final, final_both, finish. destruct (final_loop _ _ _ _ _) as [[[m1 t] c]|]; [cbn [res_bind]|done]. destruct (set_next m1 t c) as [m2|]; [cbn [res_bind]|done].
  by destruct (final_rest _ _ _ _ _) as [[]|].
Qed.

(** [merge_final] merges the two lists behind the list head, as a circle. *)
Lemma merge_final_ok m head a b la lb : nlist m a la -> nlist m b lb -> la <> [] -> lb <> [] -> NoDup (head :: la ++ lb) -> nodes m (head :: la ++ lb) ->
  exists m', merge_final m head a b = Ok m' /\ circle m' (head :: merged cmp la lb) /\ outside (head :: la ++ lb) m m'.
Proof.
  intros Ha Hb Na Nb ND HN. rewrite merge_final_both. destruct (final_both_ok (size (nexts m)) m head a b la lb) as (m1&tail&->&[L1 L2 L3 L4]); try done.
  { apply NoDup_cons in ND as [_ ND]. apply Forall_cons in HN as [_ HN]. by apply nodes_size. }
  cbn [res_bind]. apply last_Some in L2 as [R0 E0]. assert (ND1 : NoDup (head :: merged cmp la lb)) by by rewrite merged_perm.
  assert (Htl : tail ∈ la ++ lb) by (rewrite <- (merged_perm cmp), E0; set_solver). assert (HN1 : nodes m1 (head :: la ++ lb)) by by apply (nodes_outside _ _ _ _ L3).
  assert (Ht : node m1 tail) by (unfold nodes in HN1; rewrite Forall_forall in HN1; apply HN1; set_solver). pose proof HN1 as [Hh _]%Forall_cons.
  rewrite set_next_ok by apply Ht. cbn [res_bind]. rewrite set_prev_ok by apply Hh. eexists. split; [done|]. split.
  - set (m2 := put_prev _ _ _). apply (circle_close m2 head _ (head :: R0) tail); [by rewrite E0|]. split; [|unfold m2, link; split; lookups; done].
    apply (links_frame m1 m2 (head :: R0) tail head); [by rewrite E0|..|exact L1]; intros z Hz; unfold m2.
    + assert (z <> tail). { intros ->. rewrite E0, app_comm_cons in ND1. apply NoDup_app in ND1 as (_&ND1&_). apply (ND1 tail Hz). set_solver. } lookups. done.
    + assert (z <> head) by (intros ->; by apply NoDup_cons in ND1 as [? _]). lookups. done.
  - eapply outside_trans; [exact L3|]. eapply outside_trans; [apply (outside_put_next _ m1 tail head); [set_solver|apply Ht]|]. apply outside_put_prev; [set_solver|apply Hh].
Qed.

(** ** The pending sublists *)

(** Where the search stops after the sublists [pre]: at the [prev] pointer of the first node of the last of them. *)
Definition tail_of (tail : option Z) (pre : list (list Z)) : option Z := match last pre with Some p => Some (hd NULL p) | None => tail end.

Lemma tail_of_cons tail p pre : tail_of tail (p :: pre) = tail_of (Some (hd NULL p)) pre.
Proof. unfold tail_of. destruct pre as [|q pre]; [done|]. change (last (p :: q :: pre)) with (last (q :: pre)). destruct (last (q :: pre)) eqn:E; [done|]. by apply last_None in E. Qed.

Lemma nlist_hd m x l : nlist m x l -> hd NULL l = x.
Proof. by destruct l as [|y l]; [|intros [-> _]]. Qed.

Lemma skip_refines fuel m pending tail bits passed ps x passed' rest bits' : load_pending m pending tail = Ok x -> sublists m x ps -> seq_skip fuel bits passed ps = Ok (passed', rest, bits') ->
  exists pre x', passed' = passed ++ pre /\ ps = pre ++ rest /\ skip_ones fuel m pending tail bits = Ok (tail_of tail pre, bits') /\
    load_pending m pending (tail_of tail pre) = Ok x' /\ sublists m x' rest.
Proof.
  revert tail bits passed ps x. induction fuel as [|fuel IH]; intros tail bits passed ps x Hx Hps; [done|]. cbn [seq_skip skip_ones]. destruct (Z.odd bits).
  - destruct ps as [|p ps]; [done|]. intros E. destruct Hps as (Hp&Hl&n&En&Hn). rewrite Hx. cbn [res_bind].
    destruct (IH (Some x) (Z.shiftr bits 1) (passed ++ [p]) ps n) as (pre&x'&->&->&E1&E2&Hr); [by apply get_prev_ok|done|done|].
    exists (p :: pre), x'. rewrite tail_of_cons, (nlist_hd _ _ _ Hl), <- app_assoc. done.
  - intros [= <- <- <-]. exists [], x. by rewrite app_nil_r.
Qed.

Lemma tail_in m x pre rest t : sublists m x (pre ++ rest) -> tail_of None pre = Some t -> t ∈ concat pre.
Proof.
  revert x. induction pre as [|p pre IH]; intros x; [done|]. intros (Hp&Hl&n&En&Hn). rewrite tail_of_cons. cbn [concat]. destruct pre as [|p' pre].
  - intros [= <-]. rewrite (nlist_hd _ _ _ Hl). destruct (nlist_head _ _ _ Hl Hp). set_solver.
  - rewrite tail_of_cons in *. intros Ht. specialize (IH n Hn Ht). set_solver.
Qed.

(** The sublists behind [pre] are replaced, by a store to the [prev] pointer where it ends. *)
Lemma sublists_splice m m' x pre rest rest' v : sublists m x (pre ++ rest) -> sublists m' v rest' -> NoDup (concat pre) ->
  (forall z, z ∈ concat pre -> nexts m' !! z = nexts m !! z) -> (forall z, z ∈ concat pre -> Some z <> tail_of None pre -> prevs m' !! z = prevs m !! z) ->
  (forall t, tail_of None pre = Some t -> prevs m' !! t = Some v) -> sublists m' (match tail_of None pre with None => v | Some _ => x end) (pre ++ rest').
Proof.
  revert x. induction pre as [|p pre IH]; intros x Hps Hv ND Hn Hp Ht; [done|]. destruct Hps as (Np&Hl&n&En&Hr). cbn [concat] in *.
  rewrite tail_of_cons, (nlist_hd _ _ _ Hl) in *. assert (Hx : x ∈ p) by by apply (nlist_head _ _ _ Hl). apply NoDup_app in ND as (_&Hdis&ND).
  assert (Hl' : nlist m' x p) by (eapply nlist_frame; [|exact Hl]; intros z ?; apply Hn; set_solver). destruct pre as [|p' pre].
  - cbn. split; [done|]. split; [done|]. exists v. split; [by apply Ht|done].
  - rewrite tail_of_cons in *. cbn [app sublists]. destruct (tail_of (Some (hd NULL p')) pre) as [t|] eqn:Et; [|unfold tail_of in Et; by destruct (last pre)].
    split; [done|]. split; [done|]. assert (Htin : t ∈ concat (p' :: pre)) by (apply (tail_in m n _ rest); [exact Hr|by rewrite tail_of_cons]).
    exists n. split; [rewrite Hp; [done|set_solver|intros [= ->]; by apply (Hdis t)]|].
    apply (IH n); try done; [intros z ?; apply Hn; set_solver|intros z ? ?; apply Hp; [set_solver|done]].
Qed.

Lemma store_pending_ok m pending tail v : (forall t, tail = Some t -> is_Some (prevs m !! t)) ->
  exists m', store_pending m pending tail v = Ok (m', match tail with None => v | Some _ => pending end) /\ nexts m' = nexts m /\
    (forall z, Some z <> tail -> prevs m' !! z = prevs m !! z) /\ (forall t, tail = Some t -> prevs m' !! t = Some v) /\ outside (tail_list tail) m m'.
Proof.
  intros Ht. destruct tail as [t|]; cbn; [|exists m; do 4 (split; [done|]); apply outside_refl]. rewrite set_prev_ok by by apply Ht. cbn [res_bind].
  exists (put_prev t v m). do 2 (split; [done|]). split; [intros z Hz; lookups; done|]. split; [intros t' [= <-]; lookups; done|].
  apply outside_put_prev; [by apply list_elem_of_singleton|by apply Ht].
Qed.

(** The merge of a round. *)
Lemma indicated_ok m pending pre la lb rest xa : sublists m pending (pre ++ la :: lb :: rest) -> load_pending m pending (tail_of None pre) = Ok xa -> sublists m xa (la :: lb :: rest) ->
  NoDup (concat (pre ++ la :: lb :: rest)) -> nodes m (concat (pre ++ la :: lb :: rest)) ->
  exists m' pending', (a <-- load_pending m pending (tail_of None pre); b <-- get_prev m a; '(a, m) <-- merge m b a; p <-- get_prev m b; m <-- set_prev m a p; store_pending m pending (tail_of None pre) a)
    = Ok (m', pending') /\ sublists m' pending' (pre ++ merged cmp lb la :: rest) /\ outside (concat (pre ++ la :: lb :: rest)) m m'.
Proof.
  intros Hps -> (Na&Ha&b&Eb&Nb&Hb&p&Ep&Hr) ND HN. cbn [res_bind]. rewrite (get_prev_ok _ _ _ Eb). cbn [res_bind]. rewrite concat_app in *. cbn [concat] in *.
  apply NoDup_app in ND as (ND1&Hd1&ND2). rewrite app_assoc in ND2. apply NoDup_app in ND2 as (ND2&Hd2&ND3). apply Forall_app in HN as [HN1 HN2].
  assert (HNab : nodes m (lb ++ la)) by (unfold nodes in *; rewrite (Permutation_app_comm lb la); rewrite app_assoc in HN2; by apply Forall_app in HN2 as [? _]).
  destruct (merge_ok m b xa lb la) as (h&m1&->&Hh&HO1&Hp1); [done..|by rewrite (Permutation_app_comm lb la)|done|]. cbn [res_bind].
  rewrite (get_prev_ok m1 b p) by by rewrite Hp1. cbn [res_bind]. assert (Nm : merged cmp lb la <> []) by (intros E0; pose proof (merged_perm cmp lb la) as P; rewrite E0 in P; apply Permutation_nil_l in P; by destruct lb).
  assert (Hhin : h ∈ lb ++ la) by (rewrite <- (merged_perm cmp); by apply (nlist_head _ _ _ Hh)).
  assert (Nh : is_Some (prevs m1 !! h)) by (rewrite Hp1; unfold nodes in HNab; rewrite Forall_forall in HNab; by apply HNab). rewrite set_prev_ok by done. cbn [res_bind]. set (m2 := put_prev h p m1).
  assert (Htin : forall t, tail_of None pre = Some t -> t ∈ concat pre) by (intros t; by apply (tail_in m pending _ (la :: lb :: rest))).
  assert (Hth : forall t, tail_of None pre = Some t -> t <> h) by (intros t Ht ->; apply (Hd1 h (Htin h Ht)); set_solver).
  destruct (store_pending_ok m2 pending (tail_of None pre) h) as (m3&->&Hn3&Hp3&Ht3&HO3).
  { intros t Ht. unfold m2. pose proof (Hth t Ht). lookups. rewrite Hp1. unfold nodes in HN1. rewrite Forall_forall in HN1. by apply HN1, Htin. }
  assert (Hn : forall z, z ∉ lb ++ la -> nexts m3 !! z = nexts m !! z) by (intros z Hz; rewrite Hn3; unfold m2; lookups; by apply HO1).
  assert (Hpv : forall z, Some z <> tail_of None pre -> z <> h -> prevs m3 !! z = prevs m !! z) by (intros z Hz ?; rewrite Hp3 by done; unfold m2; lookups; by rewrite Hp1).
  eexists m3, _. split; [done|]. split.
  - apply (sublists_splice m m3 pending pre (la :: lb :: rest)); try done.
    + split; [done|]. split; [apply (nlist_frame m1); [intros z _; by rewrite Hn3|done]|]. exists p. split; [rewrite Hp3 by (intros E0; by apply (Hth h)); unfold m2; lookups; done|].
      eapply sublists_frame; [|exact Hr]. intros z Hz. split; [apply Hn; intros H; apply (Hd2 z); set_solver|]. apply Hpv; [intros E0; apply (Hd1 z (Htin z (eq_sym E0))); set_solver|].
      intros ->. apply (Hd2 h); set_solver.
    + intros z Hz. apply Hn. intros H. apply (Hd1 z Hz). set_solver.
    + intros z Hz Ht. apply Hpv; [done|]. intros ->. apply (Hd1 h Hz). set_solver.
  - eapply outside_trans; [eapply outside_weaken; [|exact HO1]; set_solver|]. eapply outside_trans; [apply (outside_put_prev _ m1 h p); [set_solver|done]|].
    eapply outside_weaken; [|exact HO3]. intros z. destruct (tail_of None pre) as [t|] eqn:Et; cbn; [|set_solver]. specialize (Htin t eq_refl). set_solver.
Qed.

(** ** The rounds *)

Lemma round_refines m pending list_ count ps x li ps' : sublists m pending ps -> nlist m list_ (x :: li) -> NoDup (concat ps ++ x :: li) -> nodes m (concat ps ++ x :: li) ->
  seq_round cmp count ps x = Ok ps' ->
  exists m' pending' list', sort_round m pending list_ count = Ok (m', pending', list') /\ sublists m' pending' ps' /\ nlist m' list' li /\
    outside (concat ps ++ [x]) m m' /\ concat ps' ≡ₚ concat ps ++ [x].
Proof.
  intros Hps Hl ND HN Eq. unfold seq_round in Eq. destruct (seq_skip _ _ _ _) as [[[passed rest] bits]|] eqn:Es; [cbn [res_bind] in Eq|done].
  destruct (skip_refines 65 m pending None count [] ps pending _ _ _ eq_refl Hps Es) as (pre&xa&->&->&E1&E2&Hr). unfold sort_round. rewrite E1. cbn [res_bind]. cbn [app] in Eq.
  pose proof ND as (ND1&Hdis&ND2)%NoDup_app. pose proof HN as [HN1 HN2]%Forall_app.
  assert (H1 : exists m1 pending1 qs, (if negb (bits =? 0) then a <-- load_pending m pending (tail_of None pre); b <-- get_prev m a; '(a, m) <-- merge m b a; p <-- get_prev m b; m <-- set_prev m a p;
      store_pending m pending (tail_of None pre) a else Ok (m, pending)) = Ok (m1, pending1) /\ sublists m1 pending1 qs /\ outside (concat (pre ++ rest)) m m1 /\ concat qs ≡ₚ concat (pre ++ rest) /\ ps' = [x] :: qs).
  { destruct (bits =? 0); cbn [negb] in *.
    - injection Eq as <-. exists m, pending, (pre ++ rest). split; [done|]. split; [done|]. split; [apply outside_refl|done].
    - destruct rest as [|la [|lb rest]]; [done..|]. cbn [res_bind] in Eq. injection Eq as <-. destruct (indicated_ok m pending pre la lb rest xa) as (m1&pending1&E3&Hs&HO); [done..|].
      exists m1, pending1, (pre ++ merged cmp lb la :: rest). split; [exact E3|]. do 2 (split; [done|]). split; [|done]. rewrite !concat_app. cbn [concat].
      by rewrite merged_perm, (Permutation_app_comm lb la), <- app_assoc. }
  destruct H1 as (m1&pending1&qs&->&Hs&HO&P&->). cbn [res_bind]. destruct Hl as (->&Hx&n&En&Hn). apply NoDup_cons in ND2 as [Hxl ND2].
  assert (Hxq : x ∉ concat (pre ++ rest)) by (intros H; apply (Hdis x H); clear; set_solver). apply Forall_cons in HN2 as [Nx _]. pose proof (proj2 (node_outside _ _ _ x HO) Nx) as [Nx1 Nx2].
  assert (Hk : forall z, z ∈ x :: li -> nexts m1 !! z = nexts m !! z) by (intros z Hz; apply HO; intros H; by apply (Hdis z)).
  rewrite set_prev_ok by done. cbn [res_bind]. rewrite (get_next_ok (put_prev x pending1 m1) x n) by (cbn; rewrite Hk; [done|clear; set_solver]). cbn [res_bind]. rewrite set_next_ok by done. cbn [res_bind].
  eexists _, x, n. split; [done|]. split; [|split; [|split]].
  - split; [done|]. split; [split; [done|]; split; [done|]; exists NULL; split; [lookups; done|done]|]. exists pending1. split; [lookups; done|].
    eapply sublists_frame; [|exact Hs]. intros z Hz. assert (z <> x) by (intros ->; rewrite P in Hz; done). lookups. done.
  - eapply nlist_frame; [|exact Hn]. intros z Hz. assert (z <> x) by (by intros ->). lookups. apply Hk, elem_of_cons. by right.
  - eapply outside_trans; [eapply outside_weaken; [|exact HO]; clear; set_solver|]. eapply outside_trans; [apply (outside_put_prev _ m1 x pending1); [clear; set_solver|done]|]. apply outside_put_next; [clear; set_solver|done].
  - cbn [concat app]. rewrite P. apply Permutation_cons_append.
Qed.

Lemma rounds_refine fuel m pending list_ count ps x li ps' : sublists m pending ps -> nlist m list_ (x :: li) -> NoDup (concat ps ++ x :: li) -> nodes m (concat ps ++ x :: li) ->
  seq_rounds cmp (x :: li) count ps = Ok ps' -> (length (x :: li) <= fuel)%nat ->
  exists m' pending', sort_rounds fuel m pending list_ count = Ok (m', pending') /\ sublists m' pending' ps' /\ outside (concat ps ++ x :: li) m m' /\ concat ps' ≡ₚ concat ps ++ x :: li.
Proof.
  revert fuel m pending list_ count ps x. induction li as [|y li IH]; intros fuel m pending list_ count ps x Hps Hl ND HN Eq Hlen; (destruct fuel as [|fuel]; [cbn in Hlen; lia|]);
    cbn [seq_rounds sort_rounds] in *; destruct (seq_round cmp count ps x) as [qs|] eqn:Er; [|done| |done]; cbn [res_bind] in Eq;
    destruct (round_refines m pending list_ count ps x _ qs Hps Hl ND HN Er) as (m1&pending1&n&->&Hs&Hn&HO&P); cbn [res_bind].
  - injection Eq as <-. cbn in Hn. subst n. cbn [Z.eqb NULL]. by exists m1, pending1.
  - destruct (nlist_head _ _ _ Hn) as [_ Hnn]; [done|]. rewrite (proj2 (Z.eqb_neq _ _) Hnn). assert (P2 : concat qs ++ y :: li ≡ₚ concat ps ++ x :: y :: li) by by rewrite P, <- app_assoc.
    destruct (IH fuel m1 pending1 n (u64 (count + 1)) qs y) as (m2&pending2&->&Hs2&HO2&P3); try done; [by rewrite P2|unfold nodes; rewrite P2; by apply (nodes_outside _ _ _ _ HO)|cbn in *; lia|].
    exists m2, pending2. split; [done|]. split; [done|]. split; [|by rewrite P3, P2]. eapply outside_trans; (eapply outside_weaken; [|eassumption]); [clear; set_solver|intros z; by rewrite P2].
Qed.

(** ** The end of the input *)

Lemma pending_refines fuel m head pending list_ ps ll r : sublists m pending ps -> nlist m list_ ll -> ll <> [] -> NoDup (head :: concat ps ++ ll) -> nodes m (head :: concat ps ++ ll) ->
  seq_pending cmp ll ps = Ok r -> (length ps <= fuel)%nat ->
  exists m', merge_pending fuel m head pending list_ = Ok m' /\ circle m' (head :: r) /\ outside (head :: concat ps ++ ll) m m'.
Proof.
  revert fuel m pending list_ ll. induction ps as [|p ps IH]; intros fuel m pending list_ ll Hps Hl Nl ND HN Eq Hlen; [done|]. destruct fuel as [|fuel]; [cbn in Hlen; lia|].
  destruct Hps as (Np&Hp&n&En&Hn). cbn [merge_pending]. rewrite (get_prev_ok _ _ _ En). cbn [res_bind]. destruct ps as [|q ps].
  - cbn in Hn. subst n. cbn [Z.eqb NULL]. cbn in Eq. injection Eq as <-. cbn [concat] in *. rewrite app_nil_r in *. by apply merge_final_ok.
  - pose proof Hn as (Nq&Hq&_). destruct (nlist_head _ _ _ Hq Nq) as [_ Hnn]. rewrite (proj2 (Z.eqb_neq _ _) Hnn).
    change (seq_pending cmp ll (p :: q :: ps)) with (seq_pending cmp (merged cmp p ll) (q :: ps)) in Eq. set (cs := concat (q :: ps)) in *.
    assert (P : concat (p :: q :: ps) ++ ll ≡ₚ cs ++ p ++ ll) by (change (concat (p :: q :: ps)) with (p ++ cs); by rewrite (Permutation_app_comm p cs), app_assoc).
    assert (ND1 : NoDup (head :: cs ++ p ++ ll)) by by rewrite <- P. assert (HN1 : nodes m (head :: cs ++ p ++ ll)) by (unfold nodes; by rewrite <- P).
    pose proof ND1 as [_ (_&Hdis&ND2)%NoDup_app]%NoDup_cons. pose proof HN1 as [_ [_ HN2]%Forall_app]%Forall_cons.
    destruct (merge_ok m pending list_ p ll) as (h&m1&->&Hh&HO&Hp1); [done..|]. cbn [res_bind].
    assert (Hs1 : sublists m1 n (q :: ps)) by (eapply sublists_frame; [|exact Hn]; intros z Hz; rewrite Hp1; split; [apply HO; by apply Hdis|done]).
    assert (Nm : merged cmp p ll <> []) by (intros E0; pose proof (merged_perm cmp p ll) as P1; rewrite E0 in P1; apply Permutation_nil_l in P1; by destruct p).
    destruct (IH fuel m1 n h (merged cmp p ll)) as (m2&->&HC&HO2); try done; [by rewrite merged_perm|unfold nodes; rewrite merged_perm; by apply (nodes_outside _ _ _ _ HO)|cbn in *; lia|].
    exists m2. split; [done|]. split; [done|]. eapply outside_trans; (eapply outside_weaken; [|eassumption]); intros z; rewrite ?merged_perm, P; clear; set_solver.
Qed.

(** The circle cut open is a null-terminated list. *)
Lemma cut_nlist m l p : links m (l ++ [p]) -> NoDup (l ++ [p]) -> NULL ∉ l ++ [p] -> nlist (put_next p NULL m) (hd p l) (l ++ [p]).
Proof.
  induction l as [|x l IH]; intros HL ND Hnull; cbn [app hd].
  - split; [done|]. split; [set_solver|]. exists NULL. split; [lookups; done|done].
  - cbn [app] in *. apply NoDup_cons in ND as [Hx ND]. split; [done|]. split; [set_solver|]. exists (hd p l). assert (x <> p) by set_solver. lookups.
    destruct l as [|y l]; cbn in HL; destruct HL as [[L1 _] HL]; (split; [done|]); apply IH; try done; set_solver.
Qed.

Lemma sublists_length m x ps : sublists m x ps -> (length ps <= length (concat ps))%nat.
Proof.
  revert x. induction ps as [|p ps IH]; intros x; [done|]. intros (Np&_&n&_&Hn). specialize (IH n Hn). cbn [concat length]. rewrite length_app. destruct p; [done|]. cbn. lia.
Qed.

(** [list_sort] leaves the circle of the nodes that the abstract algorithm returns. *)
Lemma sort_refines m head l r : circle m (head :: l) -> NoDup (head :: l) -> NULL ∉ l -> seq_sort cmp l = Ok r ->
  exists m', list_sort m head = Ok m' /\ circle m' (head :: r) /\ outside (head :: l) m m'.
Proof.
  intros HC ND Hnull Eq. assert (HN : nodes m (head :: l)) by (apply Forall_forall; intros z Hz; by apply (circle_alloc m (head :: l))).
  unfold list_sort. destruct (circle_neighbours m head l HC) as (n&p&[L1 _]&[_ L2]&En&Ep). rewrite (get_next_ok _ _ _ L1), (get_prev_ok _ _ _ L2). cbn [res_bind].
  destruct l as [|x [|y l]]; [cbn in En, Ep; subst n p; rewrite Z.eqb_refl; injection Eq as <-; exists m; split; [done|]; split; [done|apply outside_refl]..|].
  destruct (exists_last (l := x :: y :: l)) as (l0&q&E0); [done|]. rewrite E0, last_snoc in Ep. cbn in En, Ep. subst n p. pose proof ND as [Hh ND1]%NoDup_cons. pose proof HN as [_ HN1]%Forall_cons.
  assert (Hq : q ∈ y :: l) by (destruct l0 as [|x0 l0]; [done|]; injection E0 as _ E0; rewrite E0; clear; set_solver). assert (Hxq : x <> q) by (intros ->; by apply NoDup_cons in ND1 as [? _]).
  rewrite (proj2 (Z.eqb_neq _ _) Hxq). assert (Nq : is_Some (nexts m !! q)) by (unfold nodes in HN1; rewrite Forall_forall in HN1; apply HN1; by right). rewrite set_next_ok by done. cbn [res_bind].
  set (m1 := put_next q NULL m). assert (O1 : outside (x :: y :: l) m m1) by (apply outside_put_next; [by right|done]).
  assert (Hl1 : nlist m1 x (x :: y :: l)).
  { cbn [circle] in HC. change (head :: (x :: y :: l) ++ [head]) with ([head] ++ (x :: y :: l) ++ [head]) in HC. rewrite E0 in *. rewrite <- app_assoc in HC. cbn [app] in HC.
    rewrite app_comm_cons, (links_split m (head :: l0) q) in HC. destruct HC as [HC _]. replace x with (hd q l0) by (by destruct l0; injection E0). apply cut_nlist; try done. cbn in HC. destruct l0; cbn in *; tauto. }
  unfold seq_sort in Eq. destruct (seq_rounds cmp (x :: y :: l) 0 []) as [ps|] eqn:Er; [cbn [res_bind] in Eq|done].
  destruct (rounds_refine (size (nexts m1)) m1 NULL x 0 [] x (y :: l) ps) as (m2&pending&->&Hs&HO2&P); try done; [by apply (nodes_outside _ _ _ _ O1)|apply nodes_size; [done|by apply (nodes_outside _ _ _ _ O1)]|].
  cbn [res_bind concat app] in *. destruct ps as [|ll ps]; [done|]. destruct Hs as (Nl&Hll&n&En&Hn). rewrite (get_prev_ok _ _ _ En). cbn [res_bind].
  assert (P2 : concat ps ++ ll ≡ₚ x :: y :: l) by by rewrite Permutation_app_comm. assert (HN2 : nodes m2 (head :: x :: y :: l)) by (apply (nodes_outside _ _ _ _ HO2); by apply (nodes_outside _ _ _ _ O1)).
  destruct (pending_refines (size (nexts m2)) m2 head n pending ps ll r) as (m3&->&HC3&HO3); try done; [by rewrite P2|unfold nodes; by rewrite P2| |].
  { etransitivity; [by eapply sublists_length|]. etransitivity; [|apply (nodes_size m2 (x :: y :: l)); [done|by apply Forall_cons in HN2 as [_ ?]]]. rewrite <- P2, length_app. lia. }
  exists m3. split; [done|]. split; [done|]. apply (outside_trans _ m m1); [eapply outside_weaken; [|exact O1]; clear; set_solver|]. apply (outside_trans _ m1 m2); (eapply outside_weaken; [|eassumption]); [clear; set_solver|].
  intros z. by rewrite P2.
Qed.
End ListSort.

(** C40: [list_sort] with a comparison that is a total preorder sorts a circular list in place: no access is through a null
    pointer or outside the nodes, the comparison is never called with NULL, every loop ends, and when it returns the same
    head is on a circle, linked in both directions, of the stable sort of the entries: sorted, a permutation, and with
    entries that compare equal in their original order.  Nothing outside the nodes of the list is written. *)
Theorem list_sort_correct (cmp : Z -> Z -> Z) (m : list_mem) (head : Z) (l : list Z) :
  (forall x y, cmp x y <= 0 \/ cmp y x <= 0) -> (forall x y z, cmp x y <= 0 -> cmp y z <= 0 -> cmp x z <= 0) ->
  circle m (head :: l) -> NoDup (head :: l) -> NULL ∉ l -> Z.of_nat (length l) < 18446744073709551616 ->
  exists m' r, list_sort cmp m head = Ok m' /\ circle m' (head :: r) /\ stable_sort_of cmp l r /\ outside (head :: l) m m'.
Proof.
  intros Htot Htr HC ND Hnull Hlen. destruct (seq_sort_ok cmp Htot Htr l Hlen) as (r&Er&Hr).
  destruct (sort_refines cmp m head l r HC ND Hnull Er) as (m'&E&HC'&HO). by exists m', r.
Qed.

(** Five nodes with keys, two of them twice. *)
Definition key (x : Z) : Z := match x with 10 => 3 | 20 => 1 | 30 => 3 | 40 => 2 | 50 => 1 | _ => 0 end.
Definition by_key (x y : Z) : Z := key x - key y.
Definition five : list_mem :=
  mk_lists {[ 1 := 10; 10 := 20; 20 := 30; 30 := 40; 40 := 50; 50 := 1 ]} {[ 1 := 50; 10 := 1; 20 := 10; 30 := 20; 40 := 30; 50 := 40 ]}.
Example five_sorted : (m <-- list_sort by_key five 1; list_for_each m 1) = Ok [20; 50; 40; 10; 30].
Proof. vm_compute. reflexivity. Qed.

Lemma list_sort_correct_witness : exists m' r, list_sort by_key five 1 = Ok m' /\ circle m' (1 :: r) /\ stable_sort_of by_key [10; 20; 30; 40; 50] r /\ outside [1; 10; 20; 30; 40; 50] five m'.
Proof.
  apply (list_sort_correct by_key five 1 [10; 20; 30; 40; 50]).
  - intros x y. unfold by_key. lia.
  - intros x y z. unfold by_key. lia.
  - repeat split; vm_compute; reflexivity.
  - apply (bool_decide_unpack _). vm_compute. exact I.
  - apply (bool_decide_unpack _). vm_compute. exact I.
  - cbn. lia.
Defined.
