(* ===== verification/Cpumask.v ===== *)
(** * CPU masks (lib/cpumask.c, include/linux/cpumask.h)

    A [struct cpumask] is a bitmap of [NR_CPUS] bits.  The iterators are modelled
    as the list of CPUs their loop body runs for and shown to visit the members of
    the mask exactly once, in ascending order or rotated to start at a given CPU. *)

From S2P Require Import Prelude Bitops Bitmap.
Local Open Scope res_scope.

Definition NR_CPUS : Z := 4.
Definition nr_cpu_ids : Z := NR_CPUS.
Definition nr_cpumask_bits : Z := NR_CPUS.

Definition cpumask_first (srcp : list Z) : res Z := find_first_bit srcp nr_cpumask_bits.
Definition cpumask_last (srcp : list Z) : res Z := find_last_bit srcp nr_cpumask_bits.
Definition cpumask_next (n : Z) (srcp : list Z) : res Z := find_next_bit srcp nr_cpumask_bits (n + 1).
Definition cpumask_next_zero (n : Z) (srcp : list Z) : res Z := find_next_zero_bit srcp nr_cpumask_bits (n + 1).
Definition cpumask_next_and (n : Z) (src1p src2p : list Z) : res Z :=
  find_next_and_bit src1p src2p nr_cpumask_bits (n + 1).

Definition cpumask_any (srcp : list Z) : res Z := cpumask_first srcp.
Definition cpumask_first_and (src1p src2p : list Z) : res Z := cpumask_next_and (-1) src1p src2p.
Definition cpumask_any_and (mask1 mask2 : list Z) : res Z := cpumask_first_and mask1 mask2.

Definition cpumask_set_cpu (cpu : Z) (dstp : list Z) : res (list Z) := set_bit cpu dstp.
Definition cpumask_clear_cpu (cpu : Z) (dstp : list Z) : res (list Z) := clear_bit cpu dstp.
Definition cpumask_test_cpu (cpu : Z) (srcp : list Z) : res bool := test_bit cpu srcp.
Definition cpumask_and (dstp src1p src2p : list Z) : res (bool * list Z) :=
  __bitmap_and dstp src1p src2p nr_cpumask_bits.

(** [kzalloc] of [cpumask_size()] bytes: a mask with no CPU. *)
Definition cpumask_zeroed : list Z := replicate (Z.to_nat (BITS_TO_LONGS NR_CPUS)) 0.

(** [for_each_cpu]: the CPUs after [cpu] the body runs for. *)
Fixpoint for_each_cpu_from (fuel : nat) (cpu : Z) (mask : list Z) : res (list Z) :=
  match fuel with
  | O => Fault NoFuel
  | S fuel =>
    cpu <-- cpumask_next cpu mask;
    if cpu <? nr_cpu_ids then
      rest <-- for_each_cpu_from fuel cpu mask;
      Ok (cpu :: rest)
    else Ok []
  end.

Definition cpu_fuel : nat := S (Z.to_nat NR_CPUS).

Definition for_each_cpu (mask : list Z) : res (list Z) := for_each_cpu_from cpu_fuel (-1) mask.

Fixpoint for_each_cpu_and_from (fuel : nat) (cpu : Z) (mask1 mask2 : list Z) : res (list Z) :=
  match fuel with
  | O => Fault NoFuel
  | S fuel =>
    cpu <-- cpumask_next_and cpu mask1 mask2;
    if cpu <? nr_cpu_ids then
      rest <-- for_each_cpu_and_from fuel cpu mask1 mask2;
      Ok (cpu :: rest)
    else Ok []
  end.

Definition for_each_cpu_and (mask1 mask2 : list Z) : res (list Z) :=
  for_each_cpu_and_from cpu_fuel (-1) mask1 mask2.

(** [for_each_cpu(i, mask) if (i != cpu) break; return i;] *)
Fixpoint any_but_loop (fuel : nat) (i : Z) (mask : list Z) (cpu : Z) : res Z :=
  match fuel with
  | O => Fault NoFuel
  | S fuel =>
    i <-- cpumask_next i mask;
    if i <? nr_cpu_ids then
      if negb (i =? cpu) then Ok i else any_but_loop fuel i mask cpu
    else Ok i
  end.

Definition cpumask_any_but (mask : list Z) (cpu : Z) : res Z := any_but_loop cpu_fuel (-1) mask cpu.

(** The [again:] loop of [cpumask_next_wrap]; each jump back sets [wrap] and
    restarts at -1, so it is taken at most once when [start] is in range. *)
Fixpoint next_wrap_loop (fuel : nat) (n : Z) (mask : list Z) (start : Z) (wrap : bool) : res Z :=
  match fuel with
  | O => Fault NoFuel
  | S fuel =>
    next <-- cpumask_next n mask;
    if wrap && (n <? start) && (start <=? next) then Ok nr_cpumask_bits
    else if nr_cpumask_bits <=? next then next_wrap_loop fuel (-1) mask start true
    else Ok next
  end.

Definition cpumask_next_wrap (n : Z) (mask : list Z) (start : Z) (wrap : bool) : res Z :=
  next_wrap_loop 2 n mask start wrap.

Fixpoint wrap_from (fuel : nat) (cpu : Z) (mask : list Z) (start : Z) : res (list Z) :=
  match fuel with
  | O => Fault NoFuel
  | S fuel =>
    if cpu <? nr_cpumask_bits then
      next <-- cpumask_next_wrap cpu mask start true;
      rest <-- wrap_from fuel next mask start;
      Ok (cpu :: rest)
    else Ok []
  end.

Definition for_each_cpu_wrap (mask : list Z) (start : Z) : res (list Z) :=
  cpu <-- cpumask_next_wrap (start - 1) mask start false;
  wrap_from cpu_fuel cpu mask start.

(** ** What a mask means *)

(** A well-formed mask, and the list of CPUs from [lo] to [hi - 1] it holds. *)
Definition cpumask (a : list Z) : Prop := Forall word a /\ length a = Z.to_nat (BITS_TO_LONGS NR_CPUS).

Definition cpus_in (P : Z -> bool) (lo hi : Z) : list Z := filter (fun i => P i = true) (seqZ lo (hi - lo)).

Lemma cpumask_bitmap a : cpumask a -> bitmap a NR_CPUS.
Proof. intros [H1 H2]. split; [done|]. rewrite H2. by vm_compute. Qed.
#[export] Hint Resolve cpumask_bitmap : kernel.

Lemma cpumask_zeroed_ok : cpumask cpumask_zeroed /\ forall i, bit cpumask_zeroed i = false.
Proof.
  split; [split; [by repeat constructor|done]|]. intros i. unfold bit.
  destruct (Z.to_nat (i / 64)) as [|[]]; apply Z.bits_0.
Qed.

Lemma cpus_in_nil P hi : cpus_in P hi hi = [].
Proof. unfold cpus_in. by rewrite Z.sub_diag. Qed.

Lemma cpus_in_cons P lo hi : lo < hi ->
  cpus_in P lo hi = (if P lo then [lo] else []) ++ cpus_in P (lo + 1) hi.
Proof.
  intros H. unfold cpus_in. rewrite (seqZ_cons lo) by lia.
  replace (Z.pred (hi - lo)) with (hi - (lo + 1)) by lia. rewrite filter_cons. change (Z.succ lo) with (lo + 1).
  by destruct (P lo); destruct (decide _).
Qed.

Lemma cpus_in_elem P lo hi i : i ∈ cpus_in P lo hi <-> lo <= i < hi /\ P i = true.
Proof. unfold cpus_in. rewrite list_elem_of_filter, elem_of_seqZ. intuition lia. Qed.

Lemma cpus_in_first P lo hi r : first_in P lo hi r ->
  cpus_in P lo hi = if r <? hi then r :: cpus_in P (r + 1) hi else [].
Proof.
  intros ([Hlo Hhi]&Hr&Hno). remember (Z.to_nat (r - lo)) as n eqn:En. revert lo Hlo Hno En.
  induction n as [|n IH]; intros lo Hlo Hno En.
  - assert (r = lo) as -> by lia. destruct (Z.ltb_spec lo hi) as [L|L].
    + by rewrite cpus_in_cons, Hr.
    + assert (lo = hi) as -> by lia. apply cpus_in_nil.
  - rewrite cpus_in_cons, Hno by lia. apply IH; [lia|intros; apply Hno; lia|lia].
Qed.

Lemma cpus_in_ext P Q lo hi : (forall i, lo <= i < hi -> P i = Q i) -> cpus_in P lo hi = cpus_in Q lo hi.
Proof.
  remember (Z.to_nat (hi - lo)) as n eqn:En. revert lo En. induction n as [|n IH]; intros lo En H.
  - unfold cpus_in. replace (seqZ lo (hi - lo)) with (@nil Z); [done|]. symmetry. apply seqZ_nil. lia.
  - rewrite !(cpus_in_cons _ lo), H by lia. f_equal. apply IH; [lia|]. intros; apply H; lia.
Qed.

(** Adding a CPU to a set that does not hold it adds one to its size. *)
Lemma cpus_in_add P cpu lo hi : lo <= cpu < hi -> P cpu = false ->
  length (cpus_in (fun i => (i =? cpu) || P i) lo hi) = S (length (cpus_in P lo hi)).
Proof.
  remember (Z.to_nat (hi - lo)) as n eqn:En. revert lo En. induction n as [|n IH]; intros lo En Hc HP; [lia|].
  rewrite !(cpus_in_cons _ lo) by lia. rewrite !length_app. destruct (Z.eqb_spec lo cpu) as [->|Hne].
  - rewrite HP. cbn [orb length Nat.add]. do 2 f_equal. apply cpus_in_ext. intros i Hi.
    by destruct (Z.eqb_spec i cpu); [lia|].
  - rewrite IH by (lia || done). destruct (P lo); simpl; lia.
Qed.

(** Removing a member takes one off the size. *)
Lemma cpus_in_del P cpu lo hi : lo <= cpu < hi -> P cpu = true ->
  length (cpus_in P lo hi) = S (length (cpus_in (fun i => negb (i =? cpu) && P i) lo hi)).
Proof.
  intros Hc HP. rewrite <- (cpus_in_add _ cpu) by (by rewrite ?Z.eqb_refl || lia).
  f_equal. apply cpus_in_ext. intros i Hi. destruct (Z.eqb_spec i cpu) as [->|]; [by rewrite HP|done].
Qed.

(** ** The searches *)

Section masks.
Context (a : list Z) (Ha : cpumask a).

Lemma cpumask_next_ok n : -1 <= n < NR_CPUS ->
  exists r, cpumask_next n a = Ok r /\ first_in (bit a) (n + 1) NR_CPUS r.
Proof.
  intros Hn. destruct (Z.eq_dec (n + 1) NR_CPUS) as [E|E].
  - exists NR_CPUS. unfold cpumask_next, find_next_bit, _find_next_bit, nr_cpumask_bits. rewrite E, Z.leb_refl.
    split; [done|]. unfold first_in. split; [lia|]. split; intros; lia.
  - destruct (find_next_bit_ok a NR_CPUS (n + 1)) as (r&?&?); [auto with kernel|lia|]. eauto.
Qed.

Lemma for_each_cpu_from_ok fuel n : -1 <= n < NR_CPUS -> NR_CPUS - n <= Z.of_nat fuel ->
  for_each_cpu_from fuel n a = Ok (cpus_in (bit a) (n + 1) NR_CPUS).
Proof.
  revert n. induction fuel as [|fuel IH]; intros n Hn Hf; [lia|]. cbn [for_each_cpu_from].
  destruct (cpumask_next_ok n Hn) as (r&->&Hr). cbn [res_bind]. rewrite (cpus_in_first _ _ _ _ Hr).
  unfold nr_cpu_ids. destruct (Z.ltb_spec r NR_CPUS); [|done]. destruct Hr as [? _].
  by rewrite IH by lia.
Qed.

Lemma for_each_cpu_ok : for_each_cpu a = Ok (cpus_in (bit a) 0 NR_CPUS).
Proof. by apply for_each_cpu_from_ok. Qed.

Lemma any_but_loop_ok fuel n cpu : -1 <= n < NR_CPUS -> NR_CPUS - n <= Z.of_nat fuel ->
  exists r, any_but_loop fuel n a cpu = Ok r /\ first_in (fun i => bit a i && negb (i =? cpu)) (n + 1) NR_CPUS r.
Proof.
  revert n. induction fuel as [|fuel IH]; intros n Hn Hf; [lia|]. cbn [any_but_loop].
  destruct (cpumask_next_ok n Hn) as (r&->&(Hb&Hr&Hno)). cbn [res_bind]. unfold nr_cpu_ids.
  destruct (Z.ltb_spec r NR_CPUS) as [L|L].
  - specialize (Hr L). destruct (Z.eqb_spec r cpu) as [->|Hne]; cbn [negb].
    + destruct (IH cpu) as (r'&->&(Hb'&Hr'&Hno')); [lia|lia|]. exists r'. split; [done|].
      split; [lia|]. split; [done|]. intros i Hi. destruct (Z.eq_dec i cpu) as [->|Hic].
      { by rewrite Z.eqb_refl, andb_false_r. }
      destruct (Z.lt_ge_cases i cpu); [by rewrite Hno by lia|apply Hno'; lia].
    + exists r. split; [done|]. split; [lia|]. split; [|intros i Hi; by rewrite Hno].
      intros _. rewrite Hr. by destruct (Z.eqb_spec r cpu).
  - exists r. split; [done|]. split; [lia|]. split; [lia|]. intros i Hi. by rewrite Hno.
Qed.

(** The members still to visit after [cpu] on a tour that starts at [start]. *)
Definition wrap_rest (start cpu : Z) : list Z :=
  if start <=? cpu then cpus_in (bit a) (cpu + 1) NR_CPUS ++ cpus_in (bit a) 0 start
  else cpus_in (bit a) (cpu + 1) start.

(** [r] is the head of the list of CPUs [l], or the end mark. *)
Definition wrap_head (start : Z) (l : list Z) (r : Z) : Prop :=
  0 <= r /\ l = if r <? NR_CPUS then r :: wrap_rest start r else [].

Lemma next_wrap_low fuel n start : -1 <= n < start -> 0 <= start < NR_CPUS ->
  exists r, next_wrap_loop (S fuel) n a start true = Ok r /\ wrap_head start (cpus_in (bit a) (n + 1) start) r.
Proof.
  intros Hn Hs. cbn [next_wrap_loop]. destruct (cpumask_next_ok n) as (r&->&(Hb&Hr&Hno)); [lia|].
  cbn [res_bind]. destruct (Z.ltb_spec n start) as [_|]; [|lia]. cbn [andb]. unfold nr_cpumask_bits, wrap_head.
  destruct (Z.leb_spec start r) as [L|L].
  - exists NR_CPUS. split; [done|]. split; [lia|]. rewrite Z.ltb_irrefl.
    rewrite (cpus_in_first _ _ _ start), Z.ltb_irrefl; [done|]. split; [lia|]. split; [lia|].
    intros; apply Hno; lia.
  - destruct (Z.leb_spec NR_CPUS r); [lia|]. exists r. split; [done|]. split; [lia|].
    rewrite (cpus_in_first _ _ start r).
    + unfold wrap_rest. destruct (Z.ltb_spec r start), (Z.ltb_spec r NR_CPUS), (Z.leb_spec start r); try lia. done.
    + split; [lia|]. split; [intros; apply Hr; lia|done].
Qed.

Lemma next_wrap_high n start wrap : start - 1 <= n < NR_CPUS -> 0 <= start < NR_CPUS ->
  wrap && (n <? start) = false ->
  exists r, cpumask_next_wrap n a start wrap = Ok r
    /\ wrap_head start (cpus_in (bit a) (n + 1) NR_CPUS ++ cpus_in (bit a) 0 start) r.
Proof.
  intros Hn Hs Hw. unfold cpumask_next_wrap. cbn [next_wrap_loop].
  destruct (cpumask_next_ok n) as (r&->&Hf); [lia|]. cbn [res_bind]. rewrite Hw. cbn [andb].
  rewrite (cpus_in_first _ _ _ _ Hf). destruct Hf as [Hb _]. unfold nr_cpumask_bits.
  destruct (Z.leb_spec NR_CPUS r) as [L|L], (Z.ltb_spec r NR_CPUS); try lia.
  - destruct (Z.eq_dec start 0) as [->|Hnz].
    + exists NR_CPUS. split; [|split; [lia|by rewrite cpus_in_nil, Z.ltb_irrefl]].
      destruct (cpumask_next_ok (-1)) as (r'&->&Hf'); [lia|]. cbn. destruct Hf' as [? _].
      by destruct (Z.leb_spec 0 r'); [|lia].
    + apply (next_wrap_low 0 (-1) start); lia.
  - exists r. split; [done|]. split; [lia|]. destruct (Z.ltb_spec r NR_CPUS); [|lia].
    unfold wrap_rest. destruct (Z.leb_spec start r); [done|lia].
Qed.

Lemma next_wrap_step cpu start : 0 <= cpu < NR_CPUS -> 0 <= start < NR_CPUS ->
  exists r, cpumask_next_wrap cpu a start true = Ok r /\ wrap_head start (wrap_rest start cpu) r.
Proof.
  intros Hc Hs. unfold wrap_rest. destruct (Z.leb_spec start cpu).
  - apply next_wrap_high; [lia|lia|]. by destruct (Z.ltb_spec cpu start); [lia|].
  - apply next_wrap_low; lia.
Qed.

Lemma wrap_from_ok fuel start l r : 0 <= start < NR_CPUS -> wrap_head start l r -> (length l < fuel)%nat ->
  wrap_from fuel r a start = Ok l.
Proof.
  intros Hs. revert l r. induction fuel as [|fuel IH]; intros l r [Hr ->] Hf; [lia|]. cbn [wrap_from].
  change nr_cpumask_bits with NR_CPUS. destruct (Z.ltb_spec r NR_CPUS) as [L|L]; [|done].
  destruct (next_wrap_step r start) as (r'&->&Hh); [lia|done|]. cbn [res_bind].
  rewrite (IH _ _ Hh); [done|]. simpl in Hf. lia.
Qed.

Lemma cpus_in_length P lo hi : lo <= hi -> Z.of_nat (length (cpus_in P lo hi)) <= hi - lo.
Proof.
  intros. unfold cpus_in. pose proof (length_filter (fun i => P i = true) (seqZ lo (hi - lo))) as H'.
  rewrite length_seqZ in H'. lia.
Qed.

Lemma for_each_cpu_wrap_ok start : 0 <= start < NR_CPUS ->
  for_each_cpu_wrap a start = Ok (cpus_in (bit a) start NR_CPUS ++ cpus_in (bit a) 0 start).
Proof.
  intros Hs. unfold for_each_cpu_wrap.
  destruct (next_wrap_high (start - 1) start false) as (r&->&Hh); [lia|lia|done|]. cbn [res_bind].
  replace (start - 1 + 1) with start in Hh by lia. apply wrap_from_ok; [done|done|].
  rewrite length_app. pose proof (cpus_in_length (bit a) start NR_CPUS). pose proof (cpus_in_length (bit a) 0 start).
  unfold cpu_fuel. lia.
Qed.
End masks.

Lemma cpumask_next_and_ok a b n : cpumask a -> cpumask b -> -1 <= n < NR_CPUS ->
  exists r, cpumask_next_and n a b = Ok r /\ first_in (fun i => bit a i && bit b i) (n + 1) NR_CPUS r.
Proof.
  intros Ha Hb Hn. destruct (Z.eq_dec (n + 1) NR_CPUS) as [E|E].
  - exists NR_CPUS. unfold cpumask_next_and, find_next_and_bit, _find_next_bit, nr_cpumask_bits. rewrite E, Z.leb_refl.
    split; [done|]. unfold first_in. split; [lia|]. split; intros; lia.
  - destruct (find_next_and_bit_ok a b NR_CPUS (n + 1)) as (r&?&?); [auto with kernel..| |lia|eauto].
    destruct Ha, Hb; congruence.
Qed.

Lemma for_each_cpu_and_ok a b : cpumask a -> cpumask b ->
  for_each_cpu_and a b = Ok (cpus_in (fun i => bit a i && bit b i) 0 NR_CPUS).
Proof.
  intros Ha Hb. assert (H : forall fuel n, -1 <= n < NR_CPUS -> NR_CPUS - n <= Z.of_nat fuel ->
    for_each_cpu_and_from fuel n a b = Ok (cpus_in (fun i => bit a i && bit b i) (n + 1) NR_CPUS)).
  { induction fuel as [|fuel IH]; intros n Hn Hf; [lia|]. cbn [for_each_cpu_and_from].
    destruct (cpumask_next_and_ok a b n Ha Hb Hn) as (r&->&Hr). cbn [res_bind]. rewrite (cpus_in_first _ _ _ _ Hr).
    unfold nr_cpu_ids. destruct (Z.ltb_spec r NR_CPUS); [|done]. destruct Hr as [? _]. by rewrite IH by lia. }
  by apply H.
Qed.

(** [for_each_cpu] and [for_each_cpu_and] run their body exactly for the members
    of the mask (of both masks) in ascending order; [for_each_cpu_wrap] runs it once
    for every member, starting at [start] and wrapping around; [cpumask_any_but]
    returns the first member other than [cpu], or [nr_cpu_ids]. *)
Theorem cpumask_iterators_correct a b start cpu :
  cpumask a -> cpumask b -> 0 <= start < NR_CPUS ->
  for_each_cpu a = Ok (cpus_in (bit a) 0 NR_CPUS)
  /\ for_each_cpu_and a b = Ok (cpus_in (fun i => bit a i && bit b i) 0 NR_CPUS)
  /\ for_each_cpu_wrap a start = Ok (cpus_in (bit a) start NR_CPUS ++ cpus_in (bit a) 0 start)
  /\ exists r, cpumask_any_but a cpu = Ok r
       /\ first_in (fun i => bit a i && negb (i =? cpu)) 0 nr_cpu_ids r.
Proof.
  intros Ha Hb Hs. split; [by apply for_each_cpu_ok|]. split; [by apply for_each_cpu_and_ok|].
  split; [by apply for_each_cpu_wrap_ok|]. by apply any_but_loop_ok.
Qed.

Lemma cpumask_iterators_correct_witness :
  for_each_cpu [13] = Ok (cpus_in (bit [13]) 0 NR_CPUS)
  /\ for_each_cpu_and [13] [6] = Ok (cpus_in (fun i => bit [13] i && bit [6] i) 0 NR_CPUS)
  /\ for_each_cpu_wrap [13] 3 = Ok (cpus_in (bit [13]) 3 NR_CPUS ++ cpus_in (bit [13]) 0 3)
  /\ exists r, cpumask_any_but [13] 0 = Ok r
       /\ first_in (fun i => bit [13] i && negb (i =? 0)) 0 nr_cpu_ids r.
Proof. apply cpumask_iterators_correct; [by split; [repeat constructor|].. | done]. Defined.

(** The single-CPU updates, and [cpumask_and], on the members. *)
Lemma cpumask_set_cpu_ok a cpu : cpumask a -> 0 <= cpu < NR_CPUS ->
  exists a', cpumask_set_cpu cpu a = Ok a' /\ cpumask a' /\ forall i, 0 <= i -> bit a' i = (i =? cpu) || bit a i.
Proof.
  intros Ha Hc. destruct (update_bit_ok Z.lor orb a NR_CPUS cpu) as (a'&E&Hb&B);
    [apply bitwise_or|by intros []|auto with kernel|done|].
  exists a'. unfold cpumask_set_cpu, set_bit. rewrite E. split; [done|]. split.
  - split; [apply Hb|]. rewrite <- (proj2 Ha). by eapply update_bit_length.
  - intros i Hi. rewrite B by done. destruct (Z.eqb_spec i cpu); [by rewrite orb_true_r|done].
Qed.

Lemma cpumask_clear_cpu_ok a cpu : cpumask a -> 0 <= cpu < NR_CPUS ->
  exists a', cpumask_clear_cpu cpu a = Ok a' /\ cpumask a'
    /\ forall i, 0 <= i -> bit a' i = negb (i =? cpu) && bit a i.
Proof.
  intros Ha Hc. destruct (update_bit_ok clear_mask (fun x y => x && negb y) a NR_CPUS cpu) as (a'&E&Hb&B);
    [apply bitwise_clear|by intros []|auto with kernel|done|].
  exists a'. unfold cpumask_clear_cpu, clear_bit. rewrite E. split; [done|]. split.
  - split; [apply Hb|]. rewrite <- (proj2 Ha). by eapply update_bit_length.
  - intros i Hi. rewrite B by done. by destruct (Z.eqb_spec i cpu); [rewrite andb_false_r|].
Qed.

Lemma cpumask_and_ok d a b : cpumask d -> cpumask a -> cpumask b ->
  exists ret d', cpumask_and d a b = Ok (ret, d') /\ cpumask d'
    /\ (forall i, 0 <= i < NR_CPUS -> bit d' i = bit a i && bit b i)
    /\ (ret = true <-> exists i, 0 <= i < NR_CPUS /\ bit a i && bit b i = true).
Proof.
  intros Hd Ha Hb. destruct (bitmap_op_ok Z.land andb bitwise_and a b (proj1 Ha) (proj1 Hb) d NR_CPUS)
    as (ret&d'&E&W&L&B&R); [auto with kernel..|].
  exists ret, d'. split; [exact E|]. split; [|split; [exact B|exact R]]. split; [done|]. rewrite L. apply Hd.
Qed.

Lemma cpumask_test_cpu_ok a cpu : cpumask a -> 0 <= cpu < NR_CPUS -> cpumask_test_cpu cpu a = Ok (bit a cpu).
Proof. intros Ha Hc. apply (test_bit_ok a NR_CPUS); auto with kernel. Qed.
