(* ===== verification/Cpupri.v ===== *)
(** * CPU priority management (kernel/sched/cpupri.c, kernel/sched/cpupri.h)

    A two dimensional bitmap: for each of the 102 priority levels the mask and the
    number of the CPUs at that level, and for each CPU its level.  [cpupri_set] is
    modelled as the sequence of its memory accesses, so that the states a
    concurrent [cpupri_find] can observe are the prefixes of that sequence. *)

From S2P Require Import Prelude Bitops Bitmap Cpumask.
Local Open Scope res_scope.

Definition MAX_RT_PRIO : Z := 100.
Definition MAX_PRIO : Z := 140.
Definition CPUPRI_NR_PRIORITIES : Z := MAX_RT_PRIO + 2.
Definition CPUPRI_INVALID : Z := -1.
Definition CPUPRI_IDLE : Z := 0.
Definition CPUPRI_NORMAL : Z := 1.

Record cpupri_vec := mk_vec { count : Z; mask : list Z }.
Record cpupri := mk_cpupri { pri_to_cpu : list cpupri_vec; cpu_to_pri : list Z }.

(** The fields of [struct task_struct] the component reads. *)
Record task := mk_task { prio : Z; cpus_ptr : list Z }.

Definition convert_prio (prio : Z) : Z :=
  if prio =? CPUPRI_INVALID then CPUPRI_INVALID
  else if prio =? MAX_PRIO then CPUPRI_IDLE
  else if MAX_RT_PRIO <=? prio then CPUPRI_NORMAL
  else MAX_RT_PRIO - prio + 1.

(** One iteration of the loop of [cpupri_find], given what it reads of the level:
    the count, then the mask for [cpumask_any_and], then the mask again for
    [cpumask_and].  [false] is [continue]; the mask returned is the caller's
    [lowest_mask] after the iteration. *)
Definition find_level (rd : Z * list Z * list Z) (p : task) (lowest_mask : option (list Z))
  : res (bool * option (list Z)) :=
  let '(cnt, mask1, mask2) := rd in
  if cnt =? 0 then Ok (false, lowest_mask)
  else
    c <-- cpumask_any_and (cpus_ptr p) mask1;
    if nr_cpu_ids <=? c then Ok (false, lowest_mask)
    else
      match lowest_mask with
      | Some lm =>
        '(_, lm) <-- cpumask_and lm (cpus_ptr p) mask2;
        c <-- cpumask_any lm;
        if nr_cpu_ids <=? c then Ok (false, Some lm) else Ok (true, Some lm)
      | None => Ok (true, None)
      end.

(** [for (idx = 0; idx < task_pri; idx++)], with [n] iterations left; [rd idx] is
    what the loop reads of level [idx]. *)
Fixpoint find_levels (rd : nat -> res (Z * list Z * list Z)) (n idx : nat) (p : task)
  (lowest_mask : option (list Z)) : res (bool * option (list Z)) :=
  match n with
  | O => Ok (false, lowest_mask)
  | S n =>
    v <-- rd idx;
    '(hit, lowest_mask) <-- find_level v p lowest_mask;
    if hit then Ok (true, lowest_mask) else find_levels rd n (S idx) p lowest_mask
  end.

Definition find_with (rd : nat -> res (Z * list Z * list Z)) (p : task) (lowest_mask : option (list Z))
  : res (bool * option (list Z)) :=
  let task_pri := convert_prio (prio p) in
  if CPUPRI_NR_PRIORITIES <=? task_pri then Fault BugOn
  else find_levels rd (Z.to_nat task_pri) 0 p lowest_mask.

(** The reads of level [idx] from three states of the structure. *)
Definition read_level (cp1 cp2 cp3 : cpupri) (idx : nat) : res (Z * list Z * list Z) :=
  v1 <-- array_get (pri_to_cpu cp1) idx;
  v2 <-- array_get (pri_to_cpu cp2) idx;
  v3 <-- array_get (pri_to_cpu cp3) idx;
  Ok (count v1, mask v2, mask v3).

Definition cpupri_find (cp : cpupri) (p : task) (lowest_mask : option (list Z)) : res (bool * option (list Z)) :=
  find_with (read_level cp cp cp) p lowest_mask.

(** The memory accesses of [cpupri_set]. *)
Inductive set_step :=
| MaskSet (pri : Z)
| CountInc (pri : Z)
| CountDec (pri : Z)
| MaskClear (pri : Z)
| CurrSet (pri : Z).

Definition on_vec (f : cpupri_vec -> res cpupri_vec) (pri : Z) (cp : cpupri) : res cpupri :=
  vec <-- array_get (pri_to_cpu cp) (Z.to_nat pri);
  vec <-- f vec;
  vecs <-- array_set (pri_to_cpu cp) (Z.to_nat pri) vec;
  Ok (mk_cpupri vecs (cpu_to_pri cp)).

Definition run_step (cpu : Z) (s : set_step) (cp : cpupri) : res cpupri :=
  match s with
  | MaskSet pri => on_vec (fun v => m <-- cpumask_set_cpu cpu (mask v); Ok (mk_vec (count v) m)) pri cp
  | CountInc pri => on_vec (fun v => Ok (mk_vec (s32 (count v + 1)) (mask v))) pri cp
  | CountDec pri => on_vec (fun v => Ok (mk_vec (s32 (count v - 1)) (mask v))) pri cp
  | MaskClear pri => on_vec (fun v => m <-- cpumask_clear_cpu cpu (mask v); Ok (mk_vec (count v) m)) pri cp
  | CurrSet pri =>
    pris <-- array_set (cpu_to_pri cp) (Z.to_nat cpu) pri;
    Ok (mk_cpupri (pri_to_cpu cp) pris)
  end.

Fixpoint run_steps (cpu : Z) (l : list set_step) (cp : cpupri) : res cpupri :=
  match l with
  | [] => Ok cp
  | s :: l => cp <-- run_step cpu s cp; run_steps cpu l cp
  end.

(** The accesses of [cpupri_set] in program order: the new level is published
    before the old one is withdrawn. *)
Definition set_steps (oldpri newpri : Z) : list set_step :=
  if newpri =? oldpri then []
  else
    (if negb (newpri =? CPUPRI_INVALID) then [MaskSet newpri; CountInc newpri] else [])
    ++ (if negb (oldpri =? CPUPRI_INVALID) then [CountDec oldpri; MaskClear oldpri] else [])
    ++ [CurrSet newpri].

Definition cpupri_set (cp : cpupri) (cpu newpri : Z) : res cpupri :=
  oldpri <-- array_get (cpu_to_pri cp) (Z.to_nat cpu);
  let newpri := convert_prio newpri in
  if CPUPRI_NR_PRIORITIES <=? newpri then Fault BugOn
  else run_steps cpu (set_steps oldpri newpri) cp.

(** [cpupri_init].  [alloc k] tells whether the [k]-th allocation succeeds (the
    masks are 0 to 101, [cpu_to_pri] is 102).  A failure returns [-ENOMEM] and the
    list of the masks freed by the [cleanup:] loop, in its order. *)
Section init.
Context (alloc : nat -> bool) (cpu_possible_mask : list Z).

Fixpoint init_vecs (n i : nat) : list cpupri_vec * nat :=
  match n with
  | O => ([], i)
  | S n =>
    if alloc i then
      let '(vecs, j) := init_vecs n (S i) in (mk_vec 0 cpumask_zeroed :: vecs, j)
    else ([], i)
  end.

(** [for (i--; i >= 0; i--) free_cpumask_var(cp->pri_to_cpu[i].mask);] *)
Fixpoint cleanup_loop (i : nat) : list nat :=
  match i with
  | O => []
  | S i => i :: cleanup_loop i
  end.

Fixpoint set_invalid (cpus : list Z) (pris : list Z) : res (list Z) :=
  match cpus with
  | [] => Ok pris
  | i :: cpus => pris <-- array_set pris (Z.to_nat i) CPUPRI_INVALID; set_invalid cpus pris
  end.

Definition cpupri_init : res (Z * option cpupri * list nat) :=
  let '(vecs, i) := init_vecs (Z.to_nat CPUPRI_NR_PRIORITIES) 0 in
  if (i <? Z.to_nat CPUPRI_NR_PRIORITIES)%nat then Ok (- ENOMEM, None, cleanup_loop i)
  else if alloc i then
    cpus <-- for_each_cpu cpu_possible_mask;
    pris <-- set_invalid cpus (replicate (Z.to_nat nr_cpu_ids) 0);
    Ok (0, Some (mk_cpupri vecs pris), [])
  else Ok (- ENOMEM, None, cleanup_loop i).
End init.

(** [cpupri_cleanup]: [cpu_to_pri] (numbered 102), then the masks in ascending order. *)
Definition cpupri_cleanup : list nat :=
  Z.to_nat CPUPRI_NR_PRIORITIES :: seq 0 (Z.to_nat CPUPRI_NR_PRIORITIES).

(** ** The invariant *)

(** The level of a CPU, and whether a possible CPU is at level [l]. *)
Definition pri_of (cp : cpupri) (c : Z) : Z := nth (Z.to_nat c) (cpu_to_pri cp) CPUPRI_INVALID.

Definition at_level (possible : list Z) (cp : cpupri) (l c : Z) : bool := bit possible c && (pri_of cp c =? l).

(** The vector of a level holds the CPUs of [P]: its mask and their number. *)
Definition vec_holds (v : cpupri_vec) (P : Z -> bool) : Prop :=
  cpumask (mask v) /\ (forall c, 0 <= c < NR_CPUS -> bit (mask v) c = P c)
  /\ count v = Z.of_nat (length (cpus_in P 0 NR_CPUS)).

Record cpupri_ok (possible : list Z) (cp : cpupri) : Prop := mk_cpupri_ok {
  ok_levels : length (pri_to_cpu cp) = Z.to_nat CPUPRI_NR_PRIORITIES;
  ok_cpus : length (cpu_to_pri cp) = Z.to_nat NR_CPUS;
  ok_range : forall c, 0 <= c < NR_CPUS -> -1 <= pri_of cp c < CPUPRI_NR_PRIORITIES;
  ok_vecs : forall l v, pri_to_cpu cp !! l = Some v -> vec_holds v (at_level possible cp (Z.of_nat l))
}.

(** ** Searching *)

(** A level hits exactly when a CPU allowed for the task is in the mask read. *)
Definition reads_ok (v : Z * list Z * list Z) : Prop := let '(_, m1, m2) := v in cpumask m1 /\ cpumask m2.

Definition lowest_ok (lm : option (list Z)) : Prop := match lm with Some lm => cpumask lm | None => True end.

Lemma any_and_ok a b : cpumask a -> cpumask b ->
  exists c, cpumask_any_and a b = Ok c
    /\ ((nr_cpu_ids <=? c) = false <-> exists i, 0 <= i < NR_CPUS /\ bit a i && bit b i = true).
Proof.
  intros Ha Hb. destruct (cpumask_next_and_ok a b (-1) Ha Hb) as (c&E&(Hc&Hhit&Hno)); [done|].
  exists c. split; [done|]. unfold nr_cpu_ids. destruct (Z.leb_spec NR_CPUS c) as [L|L].
  - split; [done|]. intros (i&Hi&B). rewrite Hno in B by lia. done.
  - split; [|done]. intros _. exists c. split; [lia|]. by apply Hhit.
Qed.

Lemma cpumask_any_ok a : cpumask a ->
  exists c, cpumask_any a = Ok c /\ ((nr_cpu_ids <=? c) = false <-> exists i, 0 <= i < NR_CPUS /\ bit a i = true).
Proof.
  intros Ha. destruct (find_first_ok a NR_CPUS) as (c&E&(Hc&Hhit&Hno)); [auto with kernel|].
  exists c. split; [done|]. unfold nr_cpu_ids. destruct (Z.leb_spec NR_CPUS c) as [L|L].
  - split; [done|]. intros (i&Hi&B). rewrite Hno in B by lia. done.
  - split; [|done]. intros _. exists c. split; [lia|]. by apply Hhit.
Qed.

(** An iteration returns, keeps the caller's mask well formed, and hits when a CPU
    is in both masks it read of a level with a nonzero count. *)
Lemma find_level_ok cnt m1 m2 p lm :
  cpumask m1 -> cpumask m2 -> cpumask (cpus_ptr p) -> lowest_ok lm ->
  exists hit lm', find_level (cnt, m1, m2) p lm = Ok (hit, lm') /\ lowest_ok lm'
    /\ (forall c, cnt <> 0 -> 0 <= c < NR_CPUS -> bit (cpus_ptr p) c = true -> bit m1 c = true -> bit m2 c = true -> hit = true)
    /\ (m1 = m2 -> hit = true <-> cnt <> 0 /\ exists c, 0 <= c < NR_CPUS /\ bit (cpus_ptr p) c && bit m1 c = true)
    /\ (m1 = m2 -> hit = false -> lm' = lm)
    /\ (hit = true -> forall l, lm' = Some l -> forall c, 0 <= c < NR_CPUS -> bit l c = bit (cpus_ptr p) c && bit m2 c)
    /\ (lm' = None <-> lm = None).
Proof.
  intros H1 H2 Hp Hl. unfold find_level. destruct (Z.eqb_spec cnt 0) as [->|Hcnt].
  { exists false, lm. split_and!; auto; try done. intros _. split; [done|]. by intros []. }
  destruct (any_and_ok (cpus_ptr p) m1 Hp H1) as (c&->&Hc). cbn [res_bind].
  destruct (nr_cpu_ids <=? c) eqn:Ec.
  { exists false, lm. split_and!; auto; try done.
    - intros c' _ ? B1 B2 _. exfalso. discriminate (proj2 Hc). exists c'. by rewrite B1, B2.
    - intros _. split; [done|]. intros [_ Hex]. by apply Hc in Hex. }
  pose proof (proj1 Hc eq_refl) as Hex. destruct lm as [lm|].
  - destruct (cpumask_and_ok lm (cpus_ptr p) m2 Hl Hp H2) as (r&lm'&->&Hlm&B&_). cbn [res_bind].
    destruct (cpumask_any_ok lm' Hlm) as (c2&->&Hc2). cbn [res_bind].
    assert (Hhit : (exists i, 0 <= i < NR_CPUS /\ bit (cpus_ptr p) i && bit m2 i = true) -> (nr_cpu_ids <=? c2) = false).
    { intros (i&Hi&Bi). apply Hc2. exists i. split; [done|]. by rewrite B. }
    destruct (nr_cpu_ids <=? c2) eqn:Ec2; eexists _, _; (split; [done|]); split_and!; auto; try done.
    + intros c' _ ? B1 _ B2. exfalso. discriminate Hhit. exists c'. by rewrite B1, B2.
    + intros <-. by apply Hhit in Hex.
    + intros <-. by apply Hhit in Hex.
    + intros _ l [= <-]. done.
  - exists true, None. split_and!; auto; done.
Qed.

Lemma find_levels_hit rd n idx p lm k c :
  (forall i, (idx <= i < idx + n)%nat -> exists v, rd i = Ok v /\ reads_ok v) ->
  cpumask (cpus_ptr p) -> lowest_ok lm -> (idx <= k < idx + n)%nat ->
  0 <= c < NR_CPUS -> bit (cpus_ptr p) c = true ->
  (forall cnt m1 m2, rd k = Ok (cnt, m1, m2) -> cnt <> 0 /\ bit m1 c = true /\ bit m2 c = true) ->
  exists lm', find_levels rd n idx p lm = Ok (true, lm').
Proof.
  revert idx lm. induction n as [|n IH]; intros idx lm Hrd Hp Hl Hk Hc Bc Hat; [lia|]. cbn [find_levels].
  destruct (Hrd idx) as ([[cnt m1] m2]&E&R1&R2); [lia|]. rewrite E. cbn [res_bind].
  destruct (find_level_ok cnt m1 m2 p lm) as (hit&lm'&->&Hl'&Hhit&_); auto. cbn [res_bind].
  destruct hit; [eauto|]. destruct (Nat.eq_dec k idx) as [->|Hne].
  - destruct (Hat _ _ _ E) as (?&?&?). by specialize (Hhit c ltac:(done) Hc Bc ltac:(done) ltac:(done)).
  - apply IH; auto; [|lia]. intros i Hi. apply Hrd. lia.
Qed.

Section find.
Context (possible : list Z) (cp : cpupri) (p : task).
Context (Hcp : cpupri_ok possible cp) (Hp : cpumask (cpus_ptr p)).

(** The CPUs of level [l] the task may run on. *)
Definition eligible (l c : Z) : Prop := 0 <= c < NR_CPUS /\ bit (cpus_ptr p) c && at_level possible cp l c = true.

(** What a search that starts at level [lo] promises below level [hi]. *)
Definition found (lo hi : Z) (lm : option (list Z)) (hit : bool) (lm' : option (list Z)) : Prop :=
  if hit then
    exists l, lo <= l < hi /\ (exists c, eligible l c) /\ (forall l' c, lo <= l' < l -> ~ eligible l' c)
      /\ (lm' = None <-> lm = None)
      /\ forall m, lm' = Some m ->
           forall c, 0 <= c < NR_CPUS -> bit m c = bit (cpus_ptr p) c && at_level possible cp l c
  else lm' = lm /\ forall l c, lo <= l < hi -> ~ eligible l c.

Lemma count_zero v l : pri_to_cpu cp !! l = Some v -> (exists c, eligible (Z.of_nat l) c) -> count v <> 0.
Proof.
  intros E (c&Hc&B). destruct (ok_vecs _ _ Hcp _ _ E) as (_&_&->). apply andb_true_iff in B as [_ B].
  assert (Hin : c ∈ cpus_in (at_level possible cp (Z.of_nat l)) 0 NR_CPUS) by (by apply cpus_in_elem).
  destruct (cpus_in _ _ _); [by apply not_elem_of_nil in Hin|simpl; lia].
Qed.

Lemma find_levels_ok n idx lm : (idx + n <= Z.to_nat CPUPRI_NR_PRIORITIES)%nat -> lowest_ok lm ->
  exists hit lm', find_levels (read_level cp cp cp) n idx p lm = Ok (hit, lm')
    /\ found (Z.of_nat idx) (Z.of_nat (idx + n)) lm hit lm'.
Proof.
  revert idx lm. induction n as [|n IH]; intros idx lm Hn Hl; cbn [find_levels].
  { exists false, lm. split; [done|]. split; [done|]. intros; lia. }
  destruct (lookup_lt_is_Some_2 (pri_to_cpu cp) idx) as [v Ev]; [rewrite (ok_levels _ _ Hcp); lia|].
  unfold read_level at 1. rewrite (array_get_Some _ _ _ Ev). cbn [res_bind].
  destruct (ok_vecs _ _ Hcp _ _ Ev) as (Hm&Bm&_).
  assert (Hel : (exists c, 0 <= c < NR_CPUS /\ bit (cpus_ptr p) c && bit (mask v) c = true) <-> exists c, eligible (Z.of_nat idx) c).
  { split; intros (c&Hc&B); exists c; split; auto; [by rewrite <- Bm|by rewrite Bm]. }
  destruct (find_level_ok (count v) (mask v) (mask v) p lm) as (hit&lm'&->&Hl'&_&Hhit&Hmiss&Hmask&Hnone); auto.
  specialize (Hhit eq_refl). cbn [res_bind]. destruct hit.
  - exists true, lm'. split; [done|]. exists (Z.of_nat idx). split; [lia|]. split; [by apply Hel, Hhit|].
    split; [intros; lia|]. split; [done|]. intros m Em c Hc. rewrite (Hmask eq_refl m Em c Hc). by rewrite Bm.
  - specialize (Hmiss eq_refl eq_refl) as ->.
    assert (Hno : forall c, ~ eligible (Z.of_nat idx) c).
    { intros c Hc. assert (Hex : exists c, eligible (Z.of_nat idx) c) by eauto.
      pose proof (count_zero _ _ Ev Hex). apply Hel in Hex. discriminate (proj2 Hhit (conj H Hex)). }
    destruct (IH (S idx) lm) as (hit&lm'&->&F); [lia|done|]. exists hit, lm'. split; [done|].
    assert (Hlo : forall l c, Z.of_nat idx <= l < Z.of_nat (S idx) -> ~ eligible l c).
    { intros l c Hlt. by replace l with (Z.of_nat idx) by lia. }
    replace (idx + S n)%nat with (S idx + n)%nat by lia. destruct hit.
    + destruct F as (l&Hb&Hex&Hmin&Hrest). exists l. split; [lia|]. split; [done|]. split; [|done].
      intros l' c Hb'. destruct (Z.lt_ge_cases l' (Z.of_nat (S idx))); [apply Hlo; lia|apply Hmin; lia].
    + destruct F as [-> Hall]. split; [done|]. intros l' c Hb'.
      destruct (Z.lt_ge_cases l' (Z.of_nat (S idx))); [apply Hlo; lia|apply Hall; lia].
Qed.
End find.

Lemma convert_prio_range q : -1 <= q -> -1 <= convert_prio q < CPUPRI_NR_PRIORITIES.
Proof. unfold convert_prio, CPUPRI_NR_PRIORITIES, CPUPRI_INVALID, CPUPRI_IDLE, CPUPRI_NORMAL, MAX_PRIO, MAX_RT_PRIO. zcase; lia. Qed.

(** [cpupri_find] returns 1 exactly when some CPU the task may run on is at a level
    below the task's, and the mask it fills in then holds exactly the allowed CPUs of the
    lowest such level; otherwise it returns 0 and leaves the mask alone. *)
Theorem cpupri_find_correct possible cp p lm :
  cpupri_ok possible cp -> cpumask (cpus_ptr p) -> lowest_ok lm -> -1 <= prio p ->
  exists hit lm', cpupri_find cp p lm = Ok (hit, lm')
    /\ found possible cp p 0 (convert_prio (prio p)) lm hit lm'.
Proof.
  intros Hcp Hp Hl Hq. unfold cpupri_find, find_with. pose proof (convert_prio_range _ Hq) as Hr.
  destruct (Z.leb_spec CPUPRI_NR_PRIORITIES (convert_prio (prio p))); [lia|].
  destruct (find_levels_ok possible cp p Hcp Hp (Z.to_nat (convert_prio (prio p))) 0 lm) as (hit&lm'&E&F); [lia|done|].
  exists hit, lm'. split; [done|]. destruct (Z.eq_dec (convert_prio (prio p)) (-1)) as [Em|Hm].
  - rewrite Em in *. destruct hit; [destruct F as (l&?&_); lia|]. destruct F as [-> F].
    split; [done|]. intros; lia.
  - by rewrite Nat.add_0_l, Z2Nat.id in F by lia.
Qed.

(** ** Updating *)

(** What one access does to the count and to the membership of a CPU at level [l]. *)
Definition step_count (l : Z) (s : set_step) (n : Z) : Z :=
  match s with
  | CountInc q => if l =? q then s32 (n + 1) else n
  | CountDec q => if l =? q then s32 (n - 1) else n
  | _ => n
  end.

Definition step_bit (cpu l c : Z) (s : set_step) (b : bool) : bool :=
  match s with
  | MaskSet q => if l =? q then (c =? cpu) || b else b
  | MaskClear q => if l =? q then negb (c =? cpu) && b else b
  | _ => b
  end.

Definition step_pris (cpu : Z) (s : set_step) (pris : list Z) : list Z :=
  match s with CurrSet q => <[Z.to_nat cpu := q]> pris | _ => pris end.

Definition step_level (s : set_step) : Z :=
  match s with
  | MaskSet q | CountInc q | CountDec q | MaskClear q => q
  | CurrSet _ => 0
  end.

(** The part of the invariant that holds between two accesses of an update. *)
Definition shape_ok (cp : cpupri) : Prop :=
  length (pri_to_cpu cp) = Z.to_nat CPUPRI_NR_PRIORITIES /\ length (cpu_to_pri cp) = Z.to_nat NR_CPUS
  /\ forall l v, pri_to_cpu cp !! l = Some v -> cpumask (mask v).

Lemma cpupri_ok_shape possible cp : cpupri_ok possible cp -> shape_ok cp.
Proof.
  intros [? ? ? Hv]. split_and!; auto. intros l v E. apply (Hv _ _ E).
Qed.

(** [cp'] is [cp] with the counts and members of each level changed by [fc] and [fb]. *)
Definition changed (cp cp' : cpupri) (fc : Z -> Z -> Z) (fb : Z -> Z -> bool -> bool) : Prop :=
  shape_ok cp' /\ forall l v, pri_to_cpu cp !! l = Some v ->
    exists v', pri_to_cpu cp' !! l = Some v' /\ count v' = fc (Z.of_nat l) (count v)
      /\ forall c, 0 <= c -> bit (mask v') c = fb (Z.of_nat l) c (bit (mask v) c).

Lemma on_vec_ok f q cp v v' : shape_ok cp -> pri_to_cpu cp !! Z.to_nat q = Some v -> f v = Ok v' -> cpumask (mask v') ->
  exists cp', on_vec f q cp = Ok cp' /\ shape_ok cp' /\ cpu_to_pri cp' = cpu_to_pri cp
    /\ pri_to_cpu cp' = <[Z.to_nat q := v']> (pri_to_cpu cp).
Proof.
  intros (L1&L2&Hm) E Ef Hv. unfold on_vec. rewrite (array_get_Some _ _ _ E). cbn [res_bind]. rewrite Ef. cbn [res_bind].
  rewrite array_set_ok by (by eapply lookup_lt_Some). cbn [res_bind]. eexists. split; [done|]. split; [|done].
  split; [cbn; by rewrite length_insert|]. split; [done|]. cbn [pri_to_cpu]. intros l w Ew.
  destruct (decide (l = Z.to_nat q)) as [->|Hne].
  - rewrite list_lookup_insert_eq in Ew by (by eapply lookup_lt_Some). by injection Ew as <-.
  - rewrite list_lookup_insert_ne in Ew by done. eauto.
Qed.

(** The level [l] of the array is the level [q] written, or another one. *)
Lemma changed_insert cp cp' q v v' (fc : Z -> Z -> Z) (fb : Z -> Z -> bool -> bool) :
  0 <= q -> shape_ok cp' -> pri_to_cpu cp !! Z.to_nat q = Some v -> pri_to_cpu cp' = <[Z.to_nat q := v']> (pri_to_cpu cp) ->
  count v' = fc q (count v) -> (forall c, 0 <= c -> bit (mask v') c = fb q c (bit (mask v) c)) ->
  (forall l n, l <> q -> fc l n = n) -> (forall l c b, l <> q -> fb l c b = b) ->
  changed cp cp' fc fb.
Proof.
  intros Hq Hs E E' Hc Hb Fc Fb. split; [done|]. intros l w Ew. rewrite E'.
  destruct (decide (l = Z.to_nat q)) as [->|Hne].
  - rewrite E in Ew. injection Ew as <-. exists v'. rewrite Z2Nat.id by lia.
    split; [|done]. apply list_lookup_insert_eq. by eapply lookup_lt_Some.
  - exists w. rewrite list_lookup_insert_ne by done. split; [done|].
    assert (Z.of_nat l <> q) by lia. split; [by rewrite Fc|]. intros. by rewrite Fb.
Qed.

Lemma run_step_ok cpu s cp : shape_ok cp -> 0 <= cpu < NR_CPUS -> 0 <= step_level s < CPUPRI_NR_PRIORITIES ->
  exists cp', run_step cpu s cp = Ok cp' /\ cpu_to_pri cp' = step_pris cpu s (cpu_to_pri cp)
    /\ changed cp cp' (fun l => step_count l s) (fun l c => step_bit cpu l c s).
Proof.
  intros Hs Hc Hl. pose proof Hs as (L1&L2&Hm).
  destruct (lookup_lt_is_Some_2 (pri_to_cpu cp) (Z.to_nat (step_level s))) as [v Ev]; [rewrite L1; lia|].
  pose proof (Hm _ _ Ev) as Hv.
  destruct s as [q|q|q|q|q]; cbn [step_level] in *; cbn [run_step step_pris step_count step_bit].
  - destruct (cpumask_set_cpu_ok (mask v) cpu) as (m&Em&Wm&Bm); auto.
    edestruct (on_vec_ok (fun v => m <-- cpumask_set_cpu cpu (mask v); Ok (mk_vec (count v) m)) q)
      as (cp'&->&Hs'&?&E'); [done..|by rewrite Em|done|]. exists cp'. split; [done|]. split; [done|].
    eapply (changed_insert _ _ q v); [lia|done|done|exact E'|..]; simpl; intros; rewrite ?Z.eqb_refl; auto; by zcase.
  - edestruct (on_vec_ok (fun v => Ok (mk_vec (s32 (count v + 1)) (mask v))) q) as (cp'&->&Hs'&?&E'); [done..|].
    exists cp'. split; [done|]. split; [done|].
    eapply (changed_insert _ _ q v); [lia|done|done|exact E'|..]; simpl; intros; rewrite ?Z.eqb_refl; auto; by zcase.
  - edestruct (on_vec_ok (fun v => Ok (mk_vec (s32 (count v - 1)) (mask v))) q) as (cp'&->&Hs'&?&E'); [done..|].
    exists cp'. split; [done|]. split; [done|].
    eapply (changed_insert _ _ q v); [lia|done|done|exact E'|..]; simpl; intros; rewrite ?Z.eqb_refl; auto; by zcase.
  - destruct (cpumask_clear_cpu_ok (mask v) cpu) as (m&Em&Wm&Bm); auto.
    edestruct (on_vec_ok (fun v => m <-- cpumask_clear_cpu cpu (mask v); Ok (mk_vec (count v) m)) q)
      as (cp'&->&Hs'&?&E'); [done..|by rewrite Em|done|]. exists cp'. split; [done|]. split; [done|].
    eapply (changed_insert _ _ q v); [lia|done|done|exact E'|..]; simpl; intros; rewrite ?Z.eqb_refl; auto; by zcase.
  - rewrite array_set_ok by lia. cbn [res_bind]. eexists. split; [done|]. split; [done|].
    split; [split_and!; cbn; [done|by rewrite length_insert|done]|]. intros l w Ew. exists w. done.
Qed.

Lemma run_steps_ok cpu l cp : shape_ok cp -> 0 <= cpu < NR_CPUS ->
  Forall (fun s => 0 <= step_level s < CPUPRI_NR_PRIORITIES) l ->
  exists cp', run_steps cpu l cp = Ok cp' /\ cpu_to_pri cp' = foldl (fun p s => step_pris cpu s p) (cpu_to_pri cp) l
    /\ changed cp cp' (fun q n => foldl (fun n s => step_count q s n) n l)
         (fun q c b => foldl (fun b s => step_bit cpu q c s b) b l).
Proof.
  intros Hs Hc. revert cp Hs. induction l as [|s l IH]; intros cp Hs Hl; cbn [run_steps foldl].
  { exists cp. split; [done|]. split; [done|]. split; [done|]. intros l v E. by exists v. }
  apply Forall_cons in Hl as [H1 Hl]. destruct (run_step_ok cpu s cp Hs Hc H1) as (cp1&->&P1&(Hs1&C1)). cbn [res_bind].
  destruct (IH cp1 Hs1 Hl) as (cp2&->&P2&(Hs2&C2)). exists cp2. split; [done|]. split; [by rewrite P2, P1|].
  split; [done|]. intros q v Ev. destruct (C1 _ _ Ev) as (v1&E1&N1&B1). destruct (C2 _ _ E1) as (v2&E2&N2&B2).
  exists v2. split; [done|]. split; [by rewrite N2, N1|]. intros c Hcc. by rewrite B2, B1.
Qed.

Lemma set_steps_levels old new : -1 <= old < CPUPRI_NR_PRIORITIES -> -1 <= new < CPUPRI_NR_PRIORITIES ->
  Forall (fun s => 0 <= step_level s < CPUPRI_NR_PRIORITIES) (set_steps old new).
Proof.
  intros Ho Hn. unfold set_steps, CPUPRI_INVALID. assert (0 < CPUPRI_NR_PRIORITIES) by done.
  destruct (Z.eqb_spec new old); [done|]. destruct (Z.eqb_spec new (-1)), (Z.eqb_spec old (-1)); cbn [negb app];
    repeat constructor; simpl; lia.
Qed.

Lemma set_steps_count old new l n : 0 <= l -> new <> old ->
  foldl (fun n s => step_count l s n) n (set_steps old new)
  = if l =? new then s32 (n + 1) else if l =? old then s32 (n - 1) else n.
Proof.
  intros Hl Hne. unfold set_steps, CPUPRI_INVALID. destruct (Z.eqb_spec new old); [done|].
  destruct (Z.eqb_spec new (-1)), (Z.eqb_spec old (-1)); cbn [negb app foldl step_count]; zcase; done.
Qed.

Lemma set_steps_bit cpu old new l c b : 0 <= l -> new <> old ->
  foldl (fun b s => step_bit cpu l c s b) b (set_steps old new)
  = if l =? new then (c =? cpu) || b else if l =? old then negb (c =? cpu) && b else b.
Proof.
  intros Hl Hne. unfold set_steps, CPUPRI_INVALID. destruct (Z.eqb_spec new old); [done|].
  destruct (Z.eqb_spec new (-1)), (Z.eqb_spec old (-1)); cbn [negb app foldl step_bit];
    destruct (Z.eqb_spec l new), (Z.eqb_spec l old); try lia; done.
Qed.

Lemma set_steps_pris cpu old new pris : new <> old ->
  foldl (fun p s => step_pris cpu s p) pris (set_steps old new) = <[Z.to_nat cpu := new]> pris.
Proof.
  intros Hne. unfold set_steps. destruct (Z.eqb_spec new old); [done|].
  by destruct (new =? CPUPRI_INVALID), (old =? CPUPRI_INVALID).
Qed.

Lemma pri_of_lookup cp c q : cpu_to_pri cp !! Z.to_nat c = Some q -> pri_of cp c = q.
Proof. intros E. unfold pri_of. by rewrite (nth_lookup_Some _ _ _ _ E). Qed.

Lemma s32_count n : 0 <= n <= NR_CPUS -> s32 n = n.
Proof. unfold NR_CPUS, s32. intros. rewrite u32_small by lia. zcase; lia. Qed.

(** Moving [cpu] from level [old] to level [new] changes the size of level [l] by one. *)
Lemma move_count P cpu old new l : 0 <= cpu < NR_CPUS -> new <> old -> P cpu = (old =? l) ->
  let n := Z.of_nat (length (cpus_in P 0 NR_CPUS)) in
  (if l =? new then s32 (n + 1) else if l =? old then s32 (n - 1) else n)
  = Z.of_nat (length (cpus_in (fun c => if c =? cpu then new =? l else P c) 0 NR_CPUS)).
Proof.
  intros Hc Hne HP n. pose proof (cpus_in_length P 0 NR_CPUS ltac:(done)) as Hlen. destruct (Z.eqb_spec l new) as [En|En].
  - assert (Ho : P cpu = false) by (rewrite HP; apply Z.eqb_neq; lia).
    pose proof (cpus_in_add P cpu 0 NR_CPUS Hc Ho) as Hadd.
    pose proof (cpus_in_length (fun i => (i =? cpu) || P i) 0 NR_CPUS ltac:(done)). rewrite s32_count by lia.
    rewrite (cpus_in_ext (fun c => if c =? cpu then _ else _) (fun i => (i =? cpu) || P i)); [lia|].
    intros i Hi. destruct (i =? cpu); [|done]. rewrite <- En. apply Z.eqb_refl.
  - destruct (Z.eqb_spec l old) as [Eol|Eol].
    + assert (Ho : P cpu = true) by (rewrite HP; apply Z.eqb_eq; lia).
      pose proof (cpus_in_del P cpu 0 NR_CPUS Hc Ho) as Hdel. rewrite s32_count by lia.
      rewrite (cpus_in_ext (fun c => if c =? cpu then _ else _) (fun i => negb (i =? cpu) && P i)); [lia|].
      intros i Hi. destruct (Z.eqb_spec i cpu); [|done]. simpl. apply Z.eqb_neq. lia.
    + unfold n. do 2 f_equal. apply cpus_in_ext. intros i Hi. destruct (Z.eqb_spec i cpu) as [->|]; [|done].
      rewrite HP. zcase; done.
Qed.

(** The invariant after moving [cpu] from level [old] to [new], from the effect on
    each level of the array. *)
Lemma move_ok possible cp cp' cpu old new :
  cpupri_ok possible cp -> 0 <= cpu < NR_CPUS -> bit possible cpu = true -> pri_of cp cpu = old ->
  -1 <= new < CPUPRI_NR_PRIORITIES -> new <> old ->
  cpu_to_pri cp' = <[Z.to_nat cpu := new]> (cpu_to_pri cp) ->
  changed cp cp' (fun l n => if l =? new then s32 (n + 1) else if l =? old then s32 (n - 1) else n)
    (fun l c b => if l =? new then (c =? cpu) || b else if l =? old then negb (c =? cpu) && b else b) ->
  cpupri_ok possible cp'.
Proof.
  intros [L1 L2 Hr Hv] Hc Hp Eo Hn Hne Ep [(L1'&_&Hm) Hch].
  assert (Hpri : forall c, 0 <= c < NR_CPUS -> pri_of cp' c = if c =? cpu then new else pri_of cp c).
  { intros c Hcc. unfold pri_of. rewrite Ep. destruct (Z.eqb_spec c cpu) as [->|Hcne].
    - apply nth_lookup_Some, list_lookup_insert_eq. lia.
    - rewrite <- !nth_default_eq. unfold nth_default.
      assert (E : forall (l : list Z) n, nth_error l n = l !! n) by (intros l; induction l; intros []; simpl; auto).
      rewrite !E, list_lookup_insert_ne by lia. done. }
  assert (Hat : forall l c, 0 <= c < NR_CPUS -> at_level possible cp' l c = if c =? cpu then new =? l else at_level possible cp l c).
  { intros l c Hcc. unfold at_level. rewrite Hpri by done. destruct (Z.eqb_spec c cpu) as [->|]; [by rewrite Hp|done]. }
  split.
  - done.
  - by rewrite Ep, length_insert.
  - intros c Hcc. rewrite Hpri by done. destruct (c =? cpu); auto.
  - intros l v' Ev'. destruct (lookup_lt_is_Some_2 (pri_to_cpu cp) l) as [v Ev].
    { apply lookup_lt_Some in Ev'. lia. }
    destruct (Hv _ _ Ev) as (Hmv&Bv&Cv). destruct (Hch _ _ Ev) as (w&Ew&Cw&Bw). rewrite Ev' in Ew. injection Ew as <-.
    split; [by eapply Hm|].
    pose proof (cpus_in_length (at_level possible cp (Z.of_nat l)) 0 NR_CPUS ltac:(done)) as Hlen.
    assert (Hself : at_level possible cp (Z.of_nat l) cpu = (old =? Z.of_nat l)) by (unfold at_level; by rewrite Hp, Eo).
    split.
    + intros c Hcc. rewrite Bw, Bv, Hat by lia. destruct (Z.eqb_spec c cpu) as [->|Hcne]; [rewrite Hself|];
        zcase; subst; try lia; by destruct (at_level _ _ _ _).
    + rewrite Cw, Cv. rewrite (cpus_in_ext (at_level possible cp' (Z.of_nat l)) _ 0 NR_CPUS (Hat (Z.of_nat l))).
      by apply move_count.
Qed.

Lemma cpupri_set_ok possible cp cpu q :
  cpupri_ok possible cp -> 0 <= cpu < NR_CPUS -> bit possible cpu = true -> -1 <= q ->
  exists cp', cpupri_set cp cpu q = Ok cp' /\ cpupri_ok possible cp'
    /\ cpu_to_pri cp' = <[Z.to_nat cpu := convert_prio q]> (cpu_to_pri cp).
Proof.
  intros Hcp Hc Hp Hq. pose proof (convert_prio_range q Hq) as Hr. pose proof (ok_range _ _ Hcp cpu Hc) as Hold.
  destruct (lookup_lt_is_Some_2 (cpu_to_pri cp) (Z.to_nat cpu)) as [old Eo]; [rewrite (ok_cpus _ _ Hcp); lia|].
  rewrite (pri_of_lookup _ _ _ Eo) in Hold. unfold cpupri_set. rewrite (array_get_Some _ _ _ Eo). cbn [res_bind].
  destruct (Z.leb_spec CPUPRI_NR_PRIORITIES (convert_prio q)); [lia|].
  destruct (Z.eq_dec (convert_prio q) old) as [E|Hne].
  - exists cp. unfold set_steps. rewrite E, Z.eqb_refl. split; [done|]. split; [done|]. by rewrite list_insert_id.
  - destruct (run_steps_ok cpu (set_steps old (convert_prio q)) cp) as (cp'&->&Ep&Hch);
      [by eapply cpupri_ok_shape|done|by apply set_steps_levels|].
    rewrite set_steps_pris in Ep by done. exists cp'. split; [done|]. split; [|done].
    eapply (move_ok possible cp cp' cpu old (convert_prio q)); auto; [by apply pri_of_lookup|].
    destruct Hch as [Hs Hch]. split; [done|]. intros l v Ev. destruct (Hch _ _ Ev) as (v'&?&Cv&Bv). exists v'.
    split; [done|]. split; [rewrite Cv; apply set_steps_count; lia || done|].
    intros c Hcc. rewrite Bv by done. apply set_steps_bit; lia || done.
Qed.

(** [cpupri_set] never faults on a well-formed structure, moves the CPU to the level
    of its new priority, and keeps the invariant: every level's mask holds exactly the
    possible CPUs at that level and its count is their number. *)
Theorem cpupri_set_correct possible cp cpu newpri :
  cpupri_ok possible cp -> 0 <= cpu < NR_CPUS -> bit possible cpu = true -> -1 <= newpri ->
  exists cp', cpupri_set cp cpu newpri = Ok cp' /\ cpupri_ok possible cp'
    /\ cpu_to_pri cp' = <[Z.to_nat cpu := convert_prio newpri]> (cpu_to_pri cp).
Proof. apply cpupri_set_ok. Qed.

(** ** A search concurrent with an update *)

(** A schedule gives, for each level, the states the three reads of the level see:
    how many accesses of the update were done.  The reads happen in program order. *)
Definition schedule_ok (t : nat -> nat * nat * nat) : Prop :=
  forall i, let '(a, b, c) := t i in (a <= b <= c)%nat /\ (c <= (t (S i)).1.1)%nat.

Definition racing_read (cpu old new : Z) (cp : cpupri) (t : nat -> nat * nat * nat) (idx : nat)
  : res (Z * list Z * list Z) :=
  let '(a, b, c) := t idx in
  cp1 <-- run_steps cpu (take a (set_steps old new)) cp;
  cp2 <-- run_steps cpu (take b (set_steps old new)) cp;
  cp3 <-- run_steps cpu (take c (set_steps old new)) cp;
  read_level cp1 cp2 cp3 idx.

Lemma schedule_mono t i j : schedule_ok t -> (i < j)%nat -> ((t i).2 <= (t j).1.1)%nat.
Proof.
  intros Ht Hij. induction j as [|j IH]; [lia|]. pose proof (Ht j) as Hj. destruct (t j) as [[a b] c] eqn:E.
  destruct (Nat.eq_dec i j) as [->|Hne]; [rewrite E; simpl in *; lia|]. specialize (IH ltac:(lia)). simpl in *; lia.
Qed.

Section race.
Context (possible : list Z) (cp : cpupri) (cpu old new : Z).
Context (Hcp : cpupri_ok possible cp) (Hcpu : 0 <= cpu < NR_CPUS) (Hposs : bit possible cpu = true).
Context (Hold : pri_of cp cpu = old) (Hlt : 0 <= old < new) (Hnew : new < CPUPRI_NR_PRIORITIES).

Lemma prefix_ok k : exists cp', run_steps cpu (take k (set_steps old new)) cp = Ok cp'
  /\ changed cp cp' (fun q n => foldl (fun n s => step_count q s n) n (take k (set_steps old new)))
       (fun q c b => foldl (fun b s => step_bit cpu q c s b) b (take k (set_steps old new))).
Proof.
  destruct (run_steps_ok cpu (take k (set_steps old new)) cp) as (cp'&?&_&?);
    [by eapply cpupri_ok_shape|done|apply Forall_take, set_steps_levels; lia|eauto].
Qed.

Lemma racing_read_ok t idx : (idx < Z.to_nat CPUPRI_NR_PRIORITIES)%nat ->
  exists v a b c, pri_to_cpu cp !! idx = Some v /\ t idx = (a, b, c)
    /\ exists m1 m2, racing_read cpu old new cp t idx
         = Ok (foldl (fun n s => step_count (Z.of_nat idx) s n) (count v) (take a (set_steps old new)), m1, m2)
       /\ cpumask m1 /\ cpumask m2
       /\ bit m1 cpu = foldl (fun x s => step_bit cpu (Z.of_nat idx) cpu s x) (bit (mask v) cpu) (take b (set_steps old new))
       /\ bit m2 cpu = foldl (fun x s => step_bit cpu (Z.of_nat idx) cpu s x) (bit (mask v) cpu) (take c (set_steps old new)).
Proof.
  intros Hi. destruct (lookup_lt_is_Some_2 (pri_to_cpu cp) idx) as [v Ev]; [by rewrite (ok_levels _ _ Hcp)|].
  unfold racing_read. destruct (t idx) as [[a b] c] eqn:Et. exists v, a, b, c. split; [done|]. split; [done|].
  destruct (prefix_ok a) as (cp1&->&[S1 C1]), (prefix_ok b) as (cp2&->&[S2 C2]), (prefix_ok c) as (cp3&->&[S3 C3]).
  destruct (C1 _ _ Ev) as (v1&E1&N1&_), (C2 _ _ Ev) as (v2&E2&_&B2), (C3 _ _ Ev) as (v3&E3&_&B3).
  cbn [res_bind]. unfold read_level. rewrite !(array_get_Some _ _ _ E1), !(array_get_Some _ _ _ E2), !(array_get_Some _ _ _ E3).
  cbn [res_bind]. rewrite N1. eexists _, _. split; [done|].
  split_and!; [by apply S2 in E2|by apply S3 in E3|apply B2; lia|apply B3; lia].
Qed.

Lemma set_steps_raise :
  set_steps old new = [MaskSet new; CountInc new; CountDec old; MaskClear old; CurrSet new].
Proof. unfold set_steps, CPUPRI_INVALID. zcase. done. Qed.

(** Before the old level's count is decremented, the CPU is seen there. *)
Lemma seen_at_old k v : (k <= 2)%nat -> pri_to_cpu cp !! Z.to_nat old = Some v ->
  foldl (fun n s => step_count old s n) (count v) (take k (set_steps old new)) <> 0
  /\ foldl (fun x s => step_bit cpu old cpu s x) (bit (mask v) cpu) (take k (set_steps old new)) = true.
Proof.
  intros Hk Ev. destruct (ok_vecs _ _ Hcp _ _ Ev) as (_&Bv&Cv). rewrite Z2Nat.id in Bv, Cv by lia.
  assert (Hself : at_level possible cp old cpu = true) by (unfold at_level; by rewrite Hposs, Hold, Z.eqb_refl).
  pose proof (cpus_in_del _ cpu 0 NR_CPUS Hcpu Hself) as Hdel.
  rewrite set_steps_raise, Bv, Hself by done. assert (count v <> 0) by lia.
  destruct k as [|[|[|k]]]; [..|lia]; cbn [take foldl step_count step_bit]; zcase; done.
Qed.

(** Once the new level's count is incremented, the CPU is seen there. *)
Lemma seen_at_new k v : (2 <= k)%nat -> pri_to_cpu cp !! Z.to_nat new = Some v ->
  foldl (fun n s => step_count new s n) (count v) (take k (set_steps old new)) <> 0
  /\ foldl (fun x s => step_bit cpu new cpu s x) (bit (mask v) cpu) (take k (set_steps old new)) = true.
Proof.
  intros Hk Ev. destruct (ok_vecs _ _ Hcp _ _ Ev) as (_&Bv&Cv). rewrite Z2Nat.id in Bv, Cv by lia.
  assert (Hs : s32 (count v + 1) <> 0).
  { pose proof (cpus_in_length (at_level possible cp new) 0 NR_CPUS ltac:(done)) as Hlen. unfold NR_CPUS in *.
    unfold s32. rewrite u32_small by lia. zcase; lia. }
  rewrite set_steps_raise. destruct k as [|[|[|[|[|k]]]]]; try lia; cbn [take foldl step_count step_bit];
    rewrite ?firstn_nil; cbn [foldl step_count step_bit]; zcase; rewrite ?Z.eqb_refl; done.
Qed.

Lemma race_hit t p lm : schedule_ok t -> cpumask (cpus_ptr p) -> bit (cpus_ptr p) cpu = true -> lowest_ok lm ->
  -1 <= prio p -> new < convert_prio (prio p) ->
  exists lm', find_with (racing_read cpu old new cp t) p lm = Ok (true, lm').
Proof.
  intros Ht Hp Bp Hl Hq Htask. pose proof (convert_prio_range _ Hq) as Hr. unfold find_with.
  destruct (Z.leb_spec CPUPRI_NR_PRIORITIES (convert_prio (prio p))); [lia|].
  assert (Hk : exists k, (0 <= k < 0 + Z.to_nat (convert_prio (prio p)))%nat /\ forall cnt m1 m2,
    racing_read cpu old new cp t k = Ok (cnt, m1, m2) -> cnt <> 0 /\ bit m1 cpu = true /\ bit m2 cpu = true).
  { pose proof (schedule_mono t (Z.to_nat old) (Z.to_nat new) Ht ltac:(lia)) as Hmono.
    pose proof (Ht (Z.to_nat old)) as Ho. pose proof (Ht (Z.to_nat new)) as Hn.
    destruct (racing_read_ok t (Z.to_nat old)) as (v&a&b&c&Ev&Et&m1&m2&Er&_&_&B1&B2); [lia|].
    destruct (racing_read_ok t (Z.to_nat new)) as (v'&a'&b'&c'&Ev'&Et'&m1'&m2'&Er'&_&_&B1'&B2'); [lia|].
    rewrite Et in Ho, Hmono. rewrite Et' in Hn, Hmono. cbn in Hmono. rewrite Z2Nat.id in B1, B2, B1', B2', Er, Er' by lia.
    destruct (Nat.le_gt_cases c 2) as [Hc|Hc].
    - exists (Z.to_nat old). split; [lia|]. intros cnt n1 n2 E. rewrite E in Er. injection Er as -> -> ->.
      rewrite B1, B2. split_and!; eapply seen_at_old; eauto; lia.
    - exists (Z.to_nat new). split; [lia|]. intros cnt n1 n2 E. rewrite E in Er'. injection Er' as -> -> ->.
      rewrite B1', B2'. split_and!; eapply seen_at_new; eauto; lia. }
  destruct Hk as (k&Hk&Hat). apply (find_levels_hit _ _ _ _ _ k cpu); auto.
  intros i Hi. destruct (racing_read_ok t i) as (v&a&b&c&_&_&m1&m2&E&W1&W2&_); [lia|]. eexists. split; [exact E|done].
Qed.
End race.

(** C29: a search that races with [cpupri_set] raising the priority of a CPU the task may
    run on, both levels being below the task's, never misses that CPU: whatever points
    of the update its reads fall at, [cpupri_find] returns 1. *)
Theorem cpupri_find_race possible cp cpu old new t p lm :
  cpupri_ok possible cp -> 0 <= cpu < NR_CPUS -> bit possible cpu = true ->
  pri_of cp cpu = old -> 0 <= old < new -> new < convert_prio (prio p) -> -1 <= prio p ->
  cpumask (cpus_ptr p) -> bit (cpus_ptr p) cpu = true -> lowest_ok lm -> schedule_ok t ->
  exists lm', find_with (racing_read cpu old new cp t) p lm = Ok (true, lm').
Proof.
  intros. pose proof (convert_prio_range (prio p)). eapply (race_hit possible); eauto. lia.
Qed.

(** ** Initialisation *)

Lemma init_vecs_ok alloc n i : (forall k, (i <= k < i + n)%nat -> alloc k = true) ->
  init_vecs alloc n i = (replicate n (mk_vec 0 cpumask_zeroed), (i + n)%nat).
Proof.
  revert i. induction n as [|n IH]; intros i H; cbn [init_vecs replicate]; [by rewrite Nat.add_0_r|].
  rewrite H, IH by (intros; try apply H; lia). by rewrite Nat.add_succ_r.
Qed.

Lemma init_vecs_fail alloc n i k : (i <= k < i + n)%nat -> (forall j, (i <= j < k)%nat -> alloc j = true) -> alloc k = false ->
  (init_vecs alloc n i).2 = k.
Proof.
  revert i. induction n as [|n IH]; intros i Hk H Hf; [lia|]. cbn [init_vecs].
  destruct (Nat.eq_dec i k) as [->|Hne]; [by rewrite Hf|]. rewrite H by lia.
  specialize (IH (S i) ltac:(lia) ltac:(intros; apply H; lia) Hf). by destruct (init_vecs alloc n (S i)).
Qed.

Lemma cleanup_loop_rev i : cleanup_loop i = rev (seq 0 i).
Proof. induction i as [|i IH]; [done|]. rewrite seq_S, rev_app_distr. simpl. by f_equal. Qed.

Lemma set_invalid_ok cpus pris : Forall (fun c => 0 <= c < Z.of_nat (length pris)) cpus ->
  exists pris', set_invalid cpus pris = Ok pris' /\ length pris' = length pris
    /\ forall c, 0 <= c -> nth (Z.to_nat c) pris' CPUPRI_INVALID
                       = if bool_decide (c ∈ cpus) then CPUPRI_INVALID else nth (Z.to_nat c) pris CPUPRI_INVALID.
Proof.
  revert pris. induction cpus as [|i cpus IH]; intros pris H; cbn [set_invalid].
  { exists pris. split; [done|]. split; [done|]. intros. by rewrite bool_decide_eq_false_2 by (apply not_elem_of_nil). }
  apply Forall_cons in H as [Hi H]. rewrite array_set_ok by lia. cbn [res_bind].
  destruct (IH (<[Z.to_nat i := CPUPRI_INVALID]> pris)) as (pris'&->&L&E); [by rewrite length_insert|].
  rewrite length_insert in L. exists pris'. split; [done|]. split; [done|]. intros c Hc. rewrite E by done.
  destruct (decide (c ∈ cpus)) as [Hin|Hin].
  { rewrite !bool_decide_eq_true_2; auto. by apply list_elem_of_further. }
  rewrite (bool_decide_eq_false_2 (c ∈ cpus)) by done. destruct (Z.eq_dec c i) as [->|Hne].
  - rewrite bool_decide_eq_true_2 by (apply list_elem_of_here). apply nth_lookup_Some, list_lookup_insert_eq. lia.
  - rewrite bool_decide_eq_false_2 by (by intros [?|?]%elem_of_cons).
    assert (Hn : forall (l : list Z) n, nth_error l n = l !! n) by (intros l; induction l; intros []; simpl; auto).
    rewrite <- !nth_default_eq. unfold nth_default. rewrite !Hn, list_lookup_insert_ne by lia. done.
Qed.

Lemma cpupri_init_ok alloc possible : cpumask possible ->
  (forall k, (k <= Z.to_nat CPUPRI_NR_PRIORITIES)%nat -> alloc k = true) ->
  exists cp, cpupri_init alloc possible = Ok (0, Some cp, []) /\ cpupri_ok possible cp
    /\ forall c, 0 <= c < NR_CPUS -> bit possible c = true -> pri_of cp c = CPUPRI_INVALID.
Proof.
  intros Hp Ha. unfold cpupri_init. rewrite init_vecs_ok by (intros; apply Ha; lia). rewrite Nat.add_0_l, Nat.ltb_irrefl, Ha by lia.
  rewrite for_each_cpu_ok by done. cbn [res_bind].
  destruct (set_invalid_ok (cpus_in (bit possible) 0 NR_CPUS) (replicate (Z.to_nat nr_cpu_ids) 0)) as (pris&->&L&E).
  { apply Forall_forall. intros c Hc. apply cpus_in_elem in Hc. rewrite length_replicate. unfold nr_cpu_ids in *. lia. }
  cbn [res_bind]. rewrite length_replicate in L.
  assert (Hpri : forall c, 0 <= c < NR_CPUS -> bit possible c = true -> nth (Z.to_nat c) pris CPUPRI_INVALID = CPUPRI_INVALID).
  { intros c Hc B. rewrite E, bool_decide_eq_true_2 by (lia || by apply cpus_in_elem). done. }
  eexists. split; [done|]. split; [|done]. split; [by cbn; rewrite length_replicate|done| |].
  - intros c Hc. unfold pri_of. cbn [cpu_to_pri]. rewrite E by lia. assert (1 < CPUPRI_NR_PRIORITIES) by done.
    destruct (bool_decide _); [unfold CPUPRI_INVALID; lia|].
    rewrite (nth_lookup_Some _ _ _ 0); [lia|]. apply lookup_replicate_2. unfold nr_cpu_ids. lia.
  - cbn [pri_to_cpu]. intros l v Ev. apply lookup_replicate in Ev as [-> _]. destruct cpumask_zeroed_ok as [W B].
    assert (Hno : forall c, 0 <= c < NR_CPUS -> at_level possible (mk_cpupri (replicate (Z.to_nat CPUPRI_NR_PRIORITIES) (mk_vec 0 cpumask_zeroed)) pris) (Z.of_nat l) c = false).
    { intros c Hc. unfold at_level. destruct (bit possible c) eqn:Bp; [|done]. unfold pri_of. cbn [cpu_to_pri]. rewrite Hpri by done.
      apply Z.eqb_neq. unfold CPUPRI_INVALID. lia. }
    split; [done|]. split; [intros c Hc; cbn; by rewrite B, Hno|]. cbn [count].
    rewrite (cpus_in_ext _ (fun _ => false)) by done. done.
Qed.

(** [cpupri_init] either builds a well-formed structure with every possible CPU
    invalid, or returns [-ENOMEM] after freeing exactly the masks it had allocated. *)
Theorem cpupri_init_correct alloc possible : cpumask possible ->
  ((forall k, (k <= Z.to_nat CPUPRI_NR_PRIORITIES)%nat -> alloc k = true) ->
   exists cp, cpupri_init alloc possible = Ok (0, Some cp, []) /\ cpupri_ok possible cp
     /\ forall c, 0 <= c < NR_CPUS -> bit possible c = true -> pri_of cp c = CPUPRI_INVALID)
  /\ (forall k, (k <= Z.to_nat CPUPRI_NR_PRIORITIES)%nat -> (forall j, (j < k)%nat -> alloc j = true) -> alloc k = false ->
      cpupri_init alloc possible = Ok (- ENOMEM, None, rev (seq 0 k))).
Proof.
  intros Hp. split; [by apply cpupri_init_ok|]. intros k Hk Hb Hf. unfold cpupri_init.
  destruct (Nat.eq_dec k (Z.to_nat CPUPRI_NR_PRIORITIES)) as [->|Hne].
  - rewrite init_vecs_ok by (intros; apply Hb; lia). rewrite Nat.add_0_l, Nat.ltb_irrefl, Hf. by rewrite cleanup_loop_rev.
  - assert (H : (init_vecs alloc (Z.to_nat CPUPRI_NR_PRIORITIES) 0).2 = k).
    { apply init_vecs_fail; [lia|intros; apply Hb; lia|done]. }
    destruct (init_vecs _ _ _) as [vecs i]. simpl in H. subst i.
    destruct (Nat.ltb_spec k (Z.to_nat CPUPRI_NR_PRIORITIES)); [|lia]. by rewrite cleanup_loop_rev.
Qed.

(** ** A concrete structure *)

Definition all_cpus : list Z := [15].

(** The structure after initialisation, and with CPU 1 idle and CPU 2 at RT priority 10. *)
Definition cpupri_boot : cpupri := mk_cpupri (replicate 102 (mk_vec 0 [0])) [-1; -1; -1; -1].

Definition cpupri_boot2 : cpupri :=
  match (cp <-- cpupri_set cpupri_boot 1 140; cpupri_set cp 2 89) with Ok cp => cp | Fault _ => cpupri_boot end.

Lemma all_cpus_ok : cpumask all_cpus.
Proof. by split; [repeat constructor|]. Qed.

Lemma cpupri_boot_ok : cpupri_ok all_cpus cpupri_boot.
Proof.
  destruct (cpupri_init_ok (fun _ => true) all_cpus all_cpus_ok (fun _ _ => eq_refl)) as (cp&E&H&_).
  vm_compute in E. injection E as <-. exact H.
Qed.

Lemma cpupri_boot2_ok : cpupri_ok all_cpus cpupri_boot2.
Proof.
  destruct (cpupri_set_ok all_cpus cpupri_boot 1 140) as (cp&E1&H1&_); [apply cpupri_boot_ok|done|done|done|].
  destruct (cpupri_set_ok all_cpus cp 2 89) as (cp'&E2&H2&_); [done|done|done|done|].
  unfold cpupri_boot2. rewrite E1. cbn [res_bind]. by rewrite E2.
Qed.

Lemma cpupri_find_correct_witness :
  exists hit lm', cpupri_find cpupri_boot2 (mk_task 50 [14]) (Some [0]) = Ok (hit, lm')
    /\ found all_cpus cpupri_boot2 (mk_task 50 [14]) 0 (convert_prio 50) (Some [0]) hit lm'.
Proof.
  apply (cpupri_find_correct all_cpus cpupri_boot2 (mk_task 50 [14]) (Some [0]));
    [apply cpupri_boot2_ok|by split; [repeat constructor|]..|done].
Defined.

Lemma cpupri_set_correct_witness :
  exists cp', cpupri_set cpupri_boot2 1 20 = Ok cp' /\ cpupri_ok all_cpus cp'
    /\ cpu_to_pri cp' = <[Z.to_nat 1 := convert_prio 20]> (cpu_to_pri cpupri_boot2).
Proof. apply cpupri_set_correct; [apply cpupri_boot2_ok|done|done|done]. Defined.

Lemma cpupri_find_race_witness :
  exists lm', find_with (racing_read 1 0 41 cpupri_boot2 (fun i => (3, 3, 3)%nat)) (mk_task 50 [14]) (Some [0]) = Ok (true, lm').
Proof.
  apply (cpupri_find_race all_cpus); try done; [apply cpupri_boot2_ok|by split; [repeat constructor|]..].
Defined.

Lemma cpupri_init_correct_witness :
  ((forall k, (k <= Z.to_nat CPUPRI_NR_PRIORITIES)%nat -> (fun k => k <? 5)%nat k = true) ->
   exists cp, cpupri_init (fun k => k <? 5)%nat all_cpus = Ok (0, Some cp, []) /\ cpupri_ok all_cpus cp
     /\ forall c, 0 <= c < NR_CPUS -> bit all_cpus c = true -> pri_of cp c = CPUPRI_INVALID)
  /\ (forall k, (k <= Z.to_nat CPUPRI_NR_PRIORITIES)%nat -> (forall j, (j < k)%nat -> (fun k => k <? 5)%nat j = true) ->
      (fun k => k <? 5)%nat k = false ->
      cpupri_init (fun k => k <? 5)%nat all_cpus = Ok (- ENOMEM, None, rev (seq 0 k))).
Proof. apply (cpupri_init_correct (fun k => k <? 5)%nat all_cpus), all_cpus_ok. Defined.
