(* ===== verification/Cpudl.v ===== *)
(** * CPU deadline management (kernel/sched/cpudeadline.c, kernel/sched/cpudeadline.h)

    A max-heap of the CPUs that run deadline tasks, keyed by deadline.  Slot [i] of
    the array [elements] holds the CPU and the deadline of heap node [i], and the
    [idx] field of element [c] holds the heap position of CPU [c], so the array is
    two maps inverse of each other laid over the same memory. *)

From S2P Require Import Prelude Bitops Bitmap Cpumask.
Local Open Scope res_scope.

Definition IDX_INVALID : Z := -1.

Record cpudl_item := mk_item { dl : Z; cpu : Z; idx : Z }.
Record cpudl := mk_cpudl { size : Z; free_cpus : list Z; elements : list cpudl_item }.

(** include/linux/sched/deadline.h: comparison of deadlines that may wrap. *)
Definition dl_time_before (a b : Z) : bool := s64 (u64 (a - b)) <? 0.

Definition parent (i : Z) : Z := Z.shiftr (i - 1) 1.
Definition left_child (i : Z) : Z := Z.shiftl i 1 + 1.
Definition right_child (i : Z) : Z := Z.shiftl i 1 + 2.

(** Accesses [elements[i]] with an [int] index. *)
Definition elem (cp : cpudl) (i : Z) : res cpudl_item :=
  if i <? 0 then Fault OutOfBounds else array_get (elements cp) (Z.to_nat i).

Definition set_elem (cp : cpudl) (i : Z) (e : cpudl_item) : res cpudl :=
  if i <? 0 then Fault OutOfBounds
  else es <-- array_set (elements cp) (Z.to_nat i) e; Ok (mk_cpudl (size cp) (free_cpus cp) es).

(** [elements[i].cpu = c; elements[i].dl = d;] *)
Definition set_slot (cp : cpudl) (i c d : Z) : res cpudl :=
  e <-- elem cp i; set_elem cp i (mk_item d c (idx e)).

(** [elements[c].idx = i;] *)
Definition set_idx (cp : cpudl) (c i : Z) : res cpudl :=
  e <-- elem cp c; set_elem cp c (mk_item (dl e) (cpu e) i).

(** [elements[i].cpu = c; elements[i].dl = d; elements[elements[i].cpu].idx = i;] *)
Definition put (cp : cpudl) (i c d : Z) : res cpudl :=
  cp <-- set_slot cp i c d; set_idx cp c i.

(** The choice of [largest] in an iteration of [cpudl_heapify_down]. *)
Definition pick_largest (cp : cpudl) (i orig_dl : Z) : res Z :=
  let l := left_child i in
  let r := right_child i in
  '(largest, largest_dl) <--
    (if l <? size cp then
       el <-- elem cp l;
       Ok (if dl_time_before orig_dl (dl el) then (l, dl el) else (i, orig_dl))
     else Ok (i, orig_dl));
  if r <? size cp then
    er <-- elem cp r;
    Ok (if dl_time_before largest_dl (dl er) then r else largest)
  else Ok largest.

Fixpoint down_loop (fuel : nat) (cp : cpudl) (i orig_cpu orig_dl : Z) : res cpudl :=
  match fuel with
  | O => Fault NoFuel
  | S fuel =>
    largest <-- pick_largest cp i orig_dl;
    if largest =? i then put cp i orig_cpu orig_dl
    else
      e <-- elem cp largest;
      cp <-- put cp i (cpu e) (dl e);
      down_loop fuel cp largest orig_cpu orig_dl
  end.

Definition heap_fuel (cp : cpudl) : nat := S (length (elements cp)).

Definition cpudl_heapify_down (cp : cpudl) (i : Z) : res cpudl :=
  e <-- elem cp i;
  if size cp <=? left_child i then Ok cp
  else down_loop (heap_fuel cp) cp i (cpu e) (dl e).

(** The [do ... while (idx != 0)] loop of [cpudl_heapify_up]. *)
Fixpoint up_loop (fuel : nat) (cp : cpudl) (i orig_cpu orig_dl : Z) : res cpudl :=
  match fuel with
  | O => Fault NoFuel
  | S fuel =>
    let p := parent i in
    e <-- elem cp p;
    if dl_time_before orig_dl (dl e) then put cp i orig_cpu orig_dl
    else
      cp <-- put cp i (cpu e) (dl e);
      if negb (p =? 0) then up_loop fuel cp p orig_cpu orig_dl
      else put cp p orig_cpu orig_dl
  end.

Definition cpudl_heapify_up (cp : cpudl) (i : Z) : res cpudl :=
  e <-- elem cp i;
  if i =? 0 then Ok cp else up_loop (heap_fuel cp) cp i (cpu e) (dl e).

Definition cpudl_heapify (cp : cpudl) (i : Z) : res cpudl :=
  up <-- (if 0 <? i then
            ep <-- elem cp (parent i);
            e <-- elem cp i;
            Ok (dl_time_before (dl ep) (dl e))
          else Ok false);
  if (up : bool) then cpudl_heapify_up cp i else cpudl_heapify_down cp i.

Definition cpudl_maximum (cp : cpudl) : res Z := e <-- elem cp 0; Ok (cpu e).

(** [cpudl_find] for a task with deadline [deadline] and allowed CPUs [cpus_ptr]:
    the result, and the caller's [later_mask] afterwards. *)
Definition cpudl_find (cp : cpudl) (deadline : Z) (cpus_ptr : list Z) (later_mask : option (list Z))
  : res (bool * option (list Z)) :=
  '(free, later_mask) <--
    match later_mask with
    | Some lm => '(r, lm) <-- cpumask_and lm (free_cpus cp) cpus_ptr; Ok (r, Some lm)
    | None => Ok (false, None)
    end;
  if (free : bool) then Ok (true, later_mask)
  else
    best_cpu <-- cpudl_maximum cp;
    allowed <-- cpumask_test_cpu best_cpu cpus_ptr;
    e <-- elem cp 0;
    if allowed && dl_time_before deadline (dl e) then
      match later_mask with
      | Some lm => lm <-- cpumask_set_cpu best_cpu lm; Ok (true, Some lm)
      | None => Ok (true, None)
      end
    else Ok (false, later_mask).

Definition set_size (cp : cpudl) (n : Z) : cpudl := mk_cpudl n (free_cpus cp) (elements cp).
Definition set_free (cp : cpudl) (m : list Z) : cpudl := mk_cpudl (size cp) m (elements cp).

Definition cpudl_clear (cp : cpudl) (c : Z) : res cpudl :=
  e <-- elem cp c;
  let old_idx := idx e in
  if old_idx =? IDX_INVALID then Ok cp
  else
    last <-- elem cp (size cp - 1);
    let new_cpu := cpu last in
    cp <-- set_slot cp old_idx new_cpu (dl last);
    let cp := set_size cp (size cp - 1) in
    cp <-- set_idx cp new_cpu old_idx;
    cp <-- set_idx cp c IDX_INVALID;
    cp <-- cpudl_heapify cp old_idx;
    m <-- cpumask_set_cpu c (free_cpus cp);
    Ok (set_free cp m).

Definition cpudl_set (cp : cpudl) (c d : Z) : res cpudl :=
  e <-- elem cp c;
  let old_idx := idx e in
  if old_idx =? IDX_INVALID then
    let new_idx := size cp in
    let cp := set_size cp (size cp + 1) in
    cp <-- set_slot cp new_idx c d;
    cp <-- set_idx cp c new_idx;
    cp <-- cpudl_heapify_up cp new_idx;
    m <-- cpumask_clear_cpu c (free_cpus cp);
    Ok (set_free cp m)
  else
    eo <-- elem cp old_idx;
    cp <-- set_elem cp old_idx (mk_item d (cpu eo) (idx eo));
    cpudl_heapify cp old_idx.

Definition cpudl_set_freecpu (cp : cpudl) (c : Z) : res cpudl :=
  m <-- cpumask_set_cpu c (free_cpus cp); Ok (set_free cp m).

Definition cpudl_clear_freecpu (cp : cpudl) (c : Z) : res cpudl :=
  m <-- cpumask_clear_cpu c (free_cpus cp); Ok (set_free cp m).

(** [cpudl_init]; the two booleans are the outcomes of the two allocations, the
    list the allocations freed on the error path (0 is [elements]). *)
Fixpoint invalidate (cpus : list Z) (cp : cpudl) : res cpudl :=
  match cpus with
  | [] => Ok cp
  | c :: cpus => cp <-- set_idx cp c IDX_INVALID; invalidate cpus cp
  end.

Definition cpudl_init (alloc_elements alloc_mask : bool) (cpu_possible_mask : list Z)
  : res (Z * option cpudl * list nat) :=
  if negb alloc_elements then Ok (- ENOMEM, None, [])
  else if negb alloc_mask then Ok (- ENOMEM, None, [0%nat])
  else
    let cp := mk_cpudl 0 cpumask_zeroed (replicate (Z.to_nat nr_cpu_ids) (mk_item 0 0 0)) in
    cpus <-- for_each_cpu cpu_possible_mask;
    cp <-- invalidate cpus cp;
    Ok (0, Some cp, []).

(** [cpudl_cleanup]: the allocations it frees, the mask (numbered 1) first. *)
Definition cpudl_cleanup : list nat := [1%nat; 0%nat].

(** ** Binary heaps over a function of keys

    [j] is a child of [p] when [j = 2p + 1] or [j = 2p + 2]. *)

Definition child (p j : Z) : Prop := 0 <= p /\ (j = 2 * p + 1 \/ j = 2 * p + 2).

Definition heap (k : Z -> Z) (n : Z) : Prop := forall p j, child p j -> j < n -> k j <= k p.

(** Every edge that does not touch [i] is ordered, and so are the children of [i]
    against the parent of [i]. *)
Definition weak_heap (k : Z -> Z) (n i : Z) : Prop :=
  (forall p j, child p j -> j < n -> j <> i -> p <> i -> k j <= k p)
  /\ (forall p j, child p i -> child i j -> j < n -> k j <= k p).

Definition below_ok (k : Z -> Z) (n i : Z) : Prop := forall j, child i j -> j < n -> k j <= k i.
Definition above_ok (k : Z -> Z) (i : Z) : Prop := forall p, child p i -> k i <= k p.

Definition swapf {A} (k : Z -> A) (i j m : Z) : A := if m =? i then k j else if m =? j then k i else k m.

Lemma weak_heap_heap k n i : weak_heap k n i -> below_ok k n i -> above_ok k i -> heap k n.
Proof.
  intros [H _] Hb Ha p j Hc Hj. destruct (Z.eq_dec p i) as [->|]; [by apply Hb|].
  destruct (Z.eq_dec j i) as [->|]; [by apply Ha|by apply H].
Qed.

Lemma child_parent_unique p q j : child p j -> child q j -> p = q.
Proof. unfold child. lia. Qed.

Lemma sift_down_step k n i c : weak_heap k n i -> child i c -> c < n -> k i < k c ->
  (forall j, child i j -> j < n -> k j <= k c) ->
  weak_heap (swapf k i c) n c /\ above_ok (swapf k i c) c.
Proof.
  intros [H1 H2] Hc Hn Hlt Hmax. unfold swapf.
  assert (c <> i) by (unfold child in Hc; lia). split; [split|].
  - intros p j Hpj Hj Hjc Hpc. destruct (Z.eqb_spec j i) as [Eji|], (Z.eqb_spec j c), (Z.eqb_spec p i) as [Epi|], (Z.eqb_spec p c);
      try lia; subst; auto; by apply H2.
  - intros p j Hpc Hcj Hj. assert (p = i) as -> by (by eapply child_parent_unique).
    rewrite Z.eqb_refl. destruct (Z.eqb_spec j i) as [->|]; [unfold child in *; lia|].
    destruct (Z.eqb_spec j c) as [->|]; [unfold child in *; lia|]. apply H1; auto.
  - intros p Hpc. assert (p = i) as -> by (by eapply child_parent_unique).
    rewrite !Z.eqb_refl. destruct (Z.eqb_spec c i); lia.
Qed.

Lemma sift_up_step k n i p : weak_heap k n i -> below_ok k n i -> child p i -> i < n -> k p <= k i ->
  weak_heap (swapf k i p) n p /\ below_ok (swapf k i p) n p.
Proof.
  intros [H1 H2] Hb Hp Hn Hle. unfold swapf. assert (p <> i) by (unfold child in Hp; lia).
  assert (Hedge : forall q, child q p -> k p <= k q).
  { intros q Hq. apply H1; auto; unfold child in *; lia. }
  assert (Hsib : forall j, child p j -> j < n -> j <> i -> k j <= k p) by (intros; by apply H1).
  split; [split|].
  - intros q j Hqj Hj Hjp Hqp. destruct (Z.eqb_spec j i) as [Eji|], (Z.eqb_spec j p), (Z.eqb_spec q i) as [Eqi|], (Z.eqb_spec q p);
      try lia; subst; auto; try by apply H2.
    destruct Hqp. by eapply child_parent_unique.
  - intros q j Hqp Hpj Hj. pose proof (Hedge q Hqp).
    destruct (Z.eqb_spec q i) as [->|]; [unfold child in *; lia|]. destruct (Z.eqb_spec q p) as [->|]; [unfold child in *; lia|].
    destruct (Z.eqb_spec j i) as [->|]; [lia|]. destruct (Z.eqb_spec j p) as [->|]; [unfold child in *; lia|].
    specialize (Hsib j Hpj Hj ltac:(done)). lia.
  - intros j Hpj Hj. rewrite Z.eqb_refl. destruct (Z.eqb_spec p i); [lia|].
    destruct (Z.eqb_spec j i) as [->|]; [lia|]. destruct (Z.eqb_spec j p) as [->|]; [unfold child in *; lia|].
    specialize (Hsib j Hpj Hj ltac:(done)). lia.
Qed.

(** ** The array as two maps *)

Definition el (cp : cpudl) (i : Z) : cpudl_item := nth (Z.to_nat i) (elements cp) (mk_item 0 0 IDX_INVALID).
Definition len (cp : cpudl) : Z := Z.of_nat (length (elements cp)).

(** [cp'] is [cp] with other contents of the array. *)
Definition same_frame (cp cp' : cpudl) : Prop :=
  size cp' = size cp /\ free_cpus cp' = free_cpus cp /\ len cp' = len cp.

Lemma same_frame_trans cp1 cp2 cp3 : same_frame cp1 cp2 -> same_frame cp2 cp3 -> same_frame cp1 cp3.
Proof. unfold same_frame. intuition congruence. Qed.

Lemma elem_ok cp i : 0 <= i < len cp -> elem cp i = Ok (el cp i).
Proof.
  unfold len. intros H. unfold elem. destruct (Z.ltb_spec i 0); [lia|].
  destruct (lookup_lt_is_Some_2 (elements cp) (Z.to_nat i)) as [e E]; [lia|].
  rewrite (array_get_Some _ _ _ E). unfold el. by rewrite (nth_lookup_Some _ _ _ _ E).
Qed.

Lemma nth_insert {A} (l : list A) i j x d : (i < length l)%nat ->
  nth j (<[i := x]> l) d = if (j =? i)%nat then x else nth j l d.
Proof.
  intros Hi. rewrite <- !nth_default_eq. unfold nth_default.
  assert (E : forall (l : list A) n, nth_error l n = l !! n) by (intros l'; induction l'; intros []; simpl; auto).
  rewrite !E. destruct (Nat.eqb_spec j i) as [->|Hne]; [by rewrite list_lookup_insert_eq|by rewrite list_lookup_insert_ne].
Qed.

Lemma set_elem_ok cp i e : 0 <= i < len cp ->
  exists cp', set_elem cp i e = Ok cp' /\ same_frame cp cp'
    /\ forall m, 0 <= m -> el cp' m = if m =? i then e else el cp m.
Proof.
  unfold len. intros H. unfold set_elem. destruct (Z.ltb_spec i 0); [lia|]. rewrite array_set_ok by lia. cbn [res_bind].
  eexists. split; [done|]. split; [unfold same_frame, len; cbn; by rewrite length_insert|].
  intros m Hm. unfold el. cbn [elements]. rewrite nth_insert by lia.
  destruct (Nat.eqb_spec (Z.to_nat m) (Z.to_nat i)), (Z.eqb_spec m i); lia || done.
Qed.

Lemma set_slot_ok cp i c d : 0 <= i < len cp ->
  exists cp', set_slot cp i c d = Ok cp' /\ same_frame cp cp'
    /\ forall m, 0 <= m -> el cp' m = if m =? i then mk_item d c (idx (el cp i)) else el cp m.
Proof. intros H. unfold set_slot. rewrite elem_ok by done. by apply set_elem_ok. Qed.

Lemma set_idx_ok cp c i : 0 <= c < len cp ->
  exists cp', set_idx cp c i = Ok cp' /\ same_frame cp cp'
    /\ forall m, 0 <= m -> el cp' m = mk_item (dl (el cp m)) (cpu (el cp m)) (if m =? c then i else idx (el cp m)).
Proof.
  intros H. unfold set_idx. rewrite elem_ok by done. cbn [res_bind].
  destruct (set_elem_ok cp c (mk_item (dl (el cp c)) (cpu (el cp c)) i) H) as (cp'&->&F&E).
  exists cp'. split; [done|]. split; [done|]. intros m Hm. rewrite E by done.
  destruct (Z.eqb_spec m c) as [->|]; [done|]. by destruct (el cp m).
Qed.

(** The three assignments of a heap move, field by field. *)
Definition put_spec (cp : cpudl) (i c d : Z) (cp' : cpudl) : Prop :=
  same_frame cp cp' /\ forall m, 0 <= m ->
    el cp' m = mk_item (if m =? i then d else dl (el cp m)) (if m =? i then c else cpu (el cp m))
                 (if m =? c then i else idx (el cp m)).

Lemma put_ok cp i c d : 0 <= i < len cp -> 0 <= c < len cp ->
  exists cp', put cp i c d = Ok cp' /\ put_spec cp i c d cp'.
Proof.
  intros Hi Hc. unfold put. destruct (set_slot_ok cp i c d Hi) as (cp1&->&F1&E1). cbn [res_bind].
  destruct (set_idx_ok cp1 c i) as (cp2&->&F2&E2); [destruct F1 as (_&_&->); done|]. exists cp2. split; [done|].
  split; [by eapply same_frame_trans|]. intros m Hm. rewrite E2, E1 by done.
  destruct (Z.eqb_spec m i) as [->|]; done.
Qed.

(** The heap seen as a function from positions to (deadline, CPU). *)
Section view.
Context (n : Z) (idx0 : Z -> Z).
Implicit Types sl : Z -> Z * Z.

(** The array holds [sl], except that node [h] is a hole: its content is in the
    local variables, and the index of its CPU is not yet written.  CPUs outside
    the heap have index [idx0]. *)
Record hole (sl : Z -> Z * Z) (h : Z) (cp : cpudl) : Prop := mk_hole {
  h_size : size cp = n /\ n <= len cp;
  h_range : forall j, 0 <= j < n -> 0 <= (sl j).2 < len cp;
  h_inj : forall j k, 0 <= j < n -> 0 <= k < n -> (sl j).2 = (sl k).2 -> j = k;
  h_slot : forall j, 0 <= j < n -> j <> h -> dl (el cp j) = (sl j).1 /\ cpu (el cp j) = (sl j).2;
  h_idx : forall j, 0 <= j < n -> j <> h -> idx (el cp (sl j).2) = j;
  h_out : forall c, 0 <= c < len cp -> (forall j, 0 <= j < n -> (sl j).2 <> c) -> idx (el cp c) = idx0 c
}.

(** No position is a hole. *)
Definition view sl cp : Prop := hole sl (-1) cp.

Lemma view_hole sl h cp : view sl cp -> hole sl h cp.
Proof. intros [? ? ? Hs Hi ?]. split; auto; intros j Hj _; [apply Hs|apply Hi]; lia. Qed.

Lemma hole_full sl h cp : hole sl h cp -> 0 <= h < n ->
  dl (el cp h) = (sl h).1 -> cpu (el cp h) = (sl h).2 -> idx (el cp (sl h).2) = h -> view sl cp.
Proof.
  intros [? ? ? Hs Hi ?] Hh Ed Ec Ei. split; auto; intros j Hj _; destruct (Z.eq_dec j h) as [->|]; auto.
Qed.

(** Filling the hole. *)
Lemma hole_put sl h cp : hole sl h cp -> 0 <= h < n ->
  exists cp', put cp h (sl h).2 (sl h).1 = Ok cp' /\ same_frame cp cp' /\ view sl cp'.
Proof.
  intros H Hh. pose proof H as [[Hsz Hn] Hr Hinj Hs Hi Ho]. destruct (put_ok cp h (sl h).2 (sl h).1) as (cp'&->&(F&E)); [lia|auto|].
  exists cp'. split; [done|]. split; [done|]. pose proof F as (F1&F2&F3). split; rewrite ?F3; auto.
  - by rewrite F1.
  - intros j Hj _. rewrite E by lia. cbn. destruct (Z.eqb_spec j h) as [->|]; [done|by apply Hs].
  - intros j Hj _. pose proof (Hr j Hj). rewrite E by lia. cbn. destruct (Z.eqb_spec (sl j).2 (sl h).2) as [Eq|Hne].
    + by apply Hinj in Eq.
    + apply Hi; [done|]. by intros ->.
  - intros c Hc Hno. rewrite E by lia. cbn. destruct (Z.eqb_spec c (sl h).2) as [->|]; [by destruct (Hno h)|by apply Ho].
Qed.

(** Moving node [j] into the hole moves the hole to [j]. *)
Lemma hole_pull sl h j cp : hole sl h cp -> 0 <= h < n -> 0 <= j < n -> j <> h ->
  exists cp', put cp h (cpu (el cp j)) (dl (el cp j)) = Ok cp' /\ same_frame cp cp' /\ hole (swapf sl h j) j cp'.
Proof.
  intros H Hh Hj Hne. pose proof H as [[Hsz Hn] Hr Hinj Hs Hi Ho]. destruct (Hs j Hj Hne) as [-> ->].
  destruct (put_ok cp h (sl j).2 (sl j).1) as (cp'&->&(F&E)); [lia|auto|].
  exists cp'. split; [done|]. split; [done|]. pose proof F as (F1&F2&F3). unfold swapf. split; rewrite ?F3.
  - by rewrite F1.
  - intros m Hm. zcase; auto.
  - intros a b Ha Hb. zcase; subst; intros Eq; apply Hinj in Eq; lia || done.
  - intros m Hm Hmj. rewrite E by lia. cbn. destruct (Z.eqb_spec m h) as [->|]; [done|].
    destruct (Z.eqb_spec m j); [lia|by apply Hs].
  - intros m Hm Hmj. destruct (Z.eqb_spec m h) as [->|Hmh].
    + rewrite E by (pose proof (Hr j Hj); lia). cbn. by rewrite Z.eqb_refl.
    + destruct (Z.eqb_spec m j); [lia|]. rewrite E by (pose proof (Hr m Hm); lia). cbn.
      destruct (Z.eqb_spec (sl m).2 (sl j).2) as [Eq|]; [by apply Hinj in Eq|by apply Hi].
  - intros c Hc Hno. rewrite E by lia. cbn. destruct (Z.eqb_spec c (sl j).2) as [->|].
    + destruct (Hno h Hh). by rewrite Z.eqb_refl.
    + apply Ho; [done|]. intros m Hm Em. destruct (Z.eq_dec m h) as [->|Hmh].
      * apply (Hno j Hj). rewrite Z.eqb_refl. by destruct (Z.eqb_spec j h).
      * destruct (Z.eq_dec m j) as [->|Hmj]; [done|]. apply (Hno m Hm). zcase; done.
Qed.
End view.

(** ** Deadlines in a window

    Deadlines are compared by the sign of their difference, which is an order on any
    set of deadlines that fits in half the 64-bit range.  [base] is the start of the
    window and [key] the distance from it. *)

Section order.
Context (base : Z).

Definition key (d : Z) : Z := u64 (d - base).
Definition in_window (d : Z) : Prop := key d < 9223372036854775808.

Lemma key_range d : 0 <= key d < 18446744073709551616.
Proof. apply u64_range. Qed.

Lemma dl_time_before_key a b : in_window a -> in_window b -> dl_time_before a b = (key a <? key b).
Proof.
  unfold in_window. intros Ha Hb. pose proof (key_range a). pose proof (key_range b).
  unfold dl_time_before, s64. assert (E : u64 (u64 (a - b)) = u64 (key a - key b)).
  { unfold key, u64. rewrite Z.mod_mod by lia. rewrite <- Zminus_mod. f_equal. lia. }
  rewrite E. destruct (Z.ltb_spec (key a) (key b)) as [L|L].
  - replace (u64 (key a - key b)) with (key a - key b + 18446744073709551616).
    + destruct (Z.ltb_spec (key a - key b + 18446744073709551616) 9223372036854775808); [lia|]. apply Z.ltb_lt. lia.
    + unfold u64. apply (Z.mod_unique _ _ (-1)); lia.
  - rewrite u64_small by lia. destruct (Z.ltb_spec (key a - key b) 9223372036854775808); [|lia]. apply Z.ltb_ge. lia.
Qed.

(** ** Sifting *)

Section sift.
Context (n : Z) (idx0 : Z -> Z).
Implicit Types sl : Z -> Z * Z.

Definition keys sl (j : Z) : Z := key (sl j).1.
Definition windowed sl : Prop := forall j, 0 <= j < n -> in_window (sl j).1.

(** The same pairs, at other positions. *)
Definition same_set sl sl' : Prop :=
  forall x, (exists j, 0 <= j < n /\ sl j = x) <-> (exists j, 0 <= j < n /\ sl' j = x).

Lemma same_set_refl sl : same_set sl sl.
Proof. done. Qed.

Lemma same_set_trans sl1 sl2 sl3 : same_set sl1 sl2 -> same_set sl2 sl3 -> same_set sl1 sl3.
Proof. intros H1 H2 x. by rewrite (H1 x). Qed.

Lemma same_set_swap sl i j : 0 <= i < n -> 0 <= j < n -> same_set sl (swapf sl i j).
Proof.
  assert (H : forall sl' x, 0 <= i < n -> 0 <= j < n -> (exists m, 0 <= m < n /\ sl' m = x) ->
                exists m, 0 <= m < n /\ swapf sl' i j m = x).
  { intros sl' x Hi Hj (m&Hm&<-). unfold swapf. destruct (Z.eq_dec m i) as [->|Hmi].
    - exists j. split; [done|]. rewrite Z.eqb_refl. by destruct (Z.eqb_spec j i) as [->|].
    - destruct (Z.eq_dec m j) as [->|Hmj]; [exists i; by rewrite Z.eqb_refl|].
      exists m. split; [done|]. zcase; done. }
  intros Hi Hj x. split; [by apply H|]. intros (m&Hm&E).
  destruct (H (swapf sl i j) x Hi Hj) as (m'&Hm'&E'); [eauto|]. exists m'. split; [done|]. rewrite <- E'.
  unfold swapf. rewrite !Z.eqb_refl. destruct (Z.eqb_spec m' i), (Z.eqb_spec m' j), (Z.eqb_spec i j), (Z.eqb_spec j i); subst; lia || done.
Qed.

Lemma windowed_swap sl i j : 0 <= i < n -> 0 <= j < n -> windowed sl -> windowed (swapf sl i j).
Proof. intros Hi Hj H m Hm. unfold swapf. zcase; by apply H. Qed.

Lemma keys_swap sl i j m : keys (swapf sl i j) m = swapf (keys sl) i j m.
Proof. unfold keys, swapf. zcase; done. Qed.

Lemma weak_heap_ext k k' i : (forall m, k' m = k m) -> weak_heap k n i -> weak_heap k' n i.
Proof. intros E [H1 H2]. split; intros; rewrite !E; eauto. Qed.

Lemma left_child_spec i : 0 <= i -> left_child i = 2 * i + 1 /\ right_child i = 2 * i + 2.
Proof. intros. unfold left_child, right_child. rewrite Z.shiftl_mul_pow2 by lia. lia. Qed.

Lemma parent_spec i : 0 < i -> child (parent i) i.
Proof.
  intros H. unfold parent, child. rewrite Z.shiftr_div_pow2 by lia. change (2 ^ 1) with 2.
  pose proof (Z.div_mod (i - 1) 2 ltac:(lia)). pose proof (Z.mod_pos_bound (i - 1) 2 ltac:(lia)). lia.
Qed.

(** What an iteration of the downward sift selects. *)
Lemma pick_largest_ok sl i cp : hole n idx0 sl i cp -> 0 <= i < n -> windowed sl ->
  exists largest, pick_largest cp i (sl i).1 = Ok largest
    /\ ((largest = i /\ below_ok (keys sl) n i)
        \/ (child i largest /\ largest < n /\ keys sl i < keys sl largest
            /\ forall j, child i j -> j < n -> keys sl j <= keys sl largest)).
Proof.
  intros H Hi Hw. pose proof H as [[Hsz Hn] _ _ Hs _ _]. unfold pick_largest, below_ok, child, keys.
  destruct (left_child_spec i) as [-> ->]; [lia|]. rewrite Hsz.
  assert (Hbef : forall j k, 0 <= j < n -> 0 <= k < n -> dl_time_before (sl j).1 (sl k).1 = (key (sl j).1 <? key (sl k).1)).
  { intros. apply dl_time_before_key; by apply Hw. }
  destruct (Z.ltb_spec (2 * i + 1) n) as [L|L].
  - rewrite elem_ok by lia. cbn [res_bind]. rewrite (proj1 (Hs (2 * i + 1) ltac:(lia) ltac:(lia))), Hbef by lia.
    destruct (Z.ltb_spec (2 * i + 2) n) as [R|R].
    + rewrite elem_ok by lia. cbn [res_bind]. rewrite (proj1 (Hs (2 * i + 2) ltac:(lia) ltac:(lia))).
      destruct (Z.ltb_spec (key (sl i).1) (key (sl (2 * i + 1)).1)); rewrite Hbef by lia; eexists; (split; [done|]).
      * destruct (Z.ltb_spec (key (sl (2 * i + 1)).1) (key (sl (2 * i + 2)).1)); right; split_and!; try lia;
          intros j Hc Hj; assert (j = 2 * i + 1 \/ j = 2 * i + 2) as [->| ->] by lia; lia.
      * destruct (Z.ltb_spec (key (sl i).1) (key (sl (2 * i + 2)).1)); [right|left]; split_and!; try lia;
          intros j Hc; try intros Hj; assert (j = 2 * i + 1 \/ j = 2 * i + 2) as [->| ->] by lia; lia.
    + assert (Hone : forall j, 0 <= i /\ (j = 2 * i + 1 \/ j = 2 * i + 2) -> j < n -> j = 2 * i + 1) by lia.
      destruct (Z.ltb_spec (key (sl i).1) (key (sl (2 * i + 1)).1)); eexists; (split; [done|]); [right|left];
        split_and!; try lia; intros j Hc Hj; rewrite (Hone j Hc Hj); lia.
  - cbn [res_bind]. destruct (Z.ltb_spec (2 * i + 2) n); [lia|]. eexists. split; [done|]. left. split; [done|]. intros; lia.
Qed.

(** The result of sifting: the same pairs, in heap order, no hole left. *)
Definition sifted sl (cp cp' : cpudl) : Prop :=
  same_frame cp cp' /\ exists sl', view n idx0 sl' cp' /\ heap (keys sl') n /\ same_set sl sl' /\ windowed sl'.

Lemma down_loop_ok fuel sl i cp : hole n idx0 sl i cp -> 0 <= i < n -> windowed sl ->
  weak_heap (keys sl) n i -> above_ok (keys sl) i -> n - i <= Z.of_nat fuel ->
  exists cp', down_loop fuel cp i (sl i).2 (sl i).1 = Ok cp' /\ sifted sl cp cp'.
Proof.
  revert sl i cp. induction fuel as [|fuel IH]; intros sl i cp H Hi Hw Hweak Habove Hf; [lia|]. cbn [down_loop].
  destruct (pick_largest_ok sl i cp H Hi Hw) as (c&->&Hc). cbn [res_bind]. destruct Hc as [[-> Hb]|(Hc&Hcn&Hlt&Hmax)].
  - rewrite Z.eqb_refl. destruct (hole_put n idx0 sl i cp H Hi) as (cp'&->&F&Hv). exists cp'. split; [done|].
    split; [done|]. exists sl. split; [done|]. split; [by eapply weak_heap_heap|]. split; [apply same_set_refl|done].
  - assert (Hci : 0 <= c < n /\ i < c) by (unfold child in Hc; lia).
    destruct (Z.eqb_spec c i); [lia|]. rewrite elem_ok by (destruct (h_size _ _ _ _ _ H); lia). cbn [res_bind].
    destruct (hole_pull n idx0 sl i c cp H Hi ltac:(lia) ltac:(lia)) as (cp1&->&F1&H1). cbn [res_bind].
    destruct (sift_down_step (keys sl) n i c Hweak Hc Hcn Hlt Hmax) as [Hw1 Ha1].
    destruct (IH (swapf sl i c) c cp1 H1) as (cp2&E2&F2&sl2&V2&Hp2&S2&W2); [lia|by apply windowed_swap; [lia..|]| | |lia|].
    { eapply weak_heap_ext; [|exact Hw1]. apply keys_swap. }
    { intros p Hp. rewrite !keys_swap. by apply Ha1. }
    assert (Ec : swapf sl i c c = sl i) by (unfold swapf; destruct (Z.eqb_spec c i); [lia|by rewrite Z.eqb_refl]).
    rewrite Ec in E2. exists cp2. split; [done|]. split; [by eapply same_frame_trans|]. exists sl2. split; [done|].
    split; [done|]. split; [|done]. eapply same_set_trans; [|exact S2]. apply same_set_swap; lia.
Qed.

Lemma up_loop_ok fuel sl i cp : hole n idx0 sl i cp -> 0 < i < n -> windowed sl ->
  weak_heap (keys sl) n i -> below_ok (keys sl) n i -> i <= Z.of_nat fuel ->
  exists cp', up_loop fuel cp i (sl i).2 (sl i).1 = Ok cp' /\ sifted sl cp cp'.
Proof.
  revert sl i cp. induction fuel as [|fuel IH]; intros sl i cp H Hi Hw Hweak Hbelow Hf; [lia|]. cbn [up_loop].
  pose proof (parent_spec i ltac:(lia)) as Hp. set (p := parent i) in *.
  assert (Hpi : 0 <= p < i) by (unfold child in Hp; lia). pose proof H as [[Hsz Hn] _ _ Hs _ _].
  rewrite elem_ok by lia. cbn [res_bind].
  assert (Ed : dl_time_before (sl i).1 (dl (el cp p)) = (key (sl i).1 <? key (sl p).1)).
  { rewrite (proj1 (Hs p ltac:(lia) ltac:(lia))). apply dl_time_before_key; apply Hw; lia. }
  rewrite Ed. destruct (Z.ltb_spec (key (sl i).1) (key (sl p).1)) as [L|L].
  - destruct (hole_put n idx0 sl i cp H ltac:(lia)) as (cp'&->&F&Hv). exists cp'. split; [done|].
    split; [done|]. exists sl. split; [done|]. split; [|split; [apply same_set_refl|done]].
    eapply weak_heap_heap; eauto. intros q Hq. rewrite (child_parent_unique _ _ _ Hq Hp). unfold keys. lia.
  - destruct (hole_pull n idx0 sl i p cp H ltac:(lia) ltac:(lia) ltac:(lia)) as (cp1&->&F1&H1). cbn [res_bind].
    destruct (sift_up_step (keys sl) n i p Hweak Hbelow Hp ltac:(lia) L) as [Hw1 Hb1].
    assert (Ep : swapf sl i p p = sl i) by (unfold swapf; destruct (Z.eqb_spec p i); [lia|by rewrite Z.eqb_refl]).
    assert (Hw' : windowed (swapf sl i p)) by (apply windowed_swap; [lia..|done]).
    assert (Hweak' : weak_heap (keys (swapf sl i p)) n p) by (eapply weak_heap_ext; [|exact Hw1]; apply keys_swap).
    assert (Hb' : below_ok (keys (swapf sl i p)) n p) by (intros j Hc Hj; rewrite !keys_swap; by apply Hb1).
    assert (Hset : same_set sl (swapf sl i p)) by (apply same_set_swap; lia).
    destruct (Z.eqb_spec p 0) as [Ez|Hnz]; cbn [negb].
    + destruct (hole_put n idx0 (swapf sl i p) p cp1 H1 ltac:(lia)) as (cp2&E2&F2&Hv). rewrite Ep in E2. exists cp2. split; [done|].
      split; [by eapply same_frame_trans|]. exists (swapf sl i p). split; [done|]. split; [|by split].
      eapply weak_heap_heap; eauto. intros q Hq. unfold child in Hq. lia.
    + destruct (IH (swapf sl i p) p cp1 H1) as (cp2&E2&F2&sl2&V2&Hp2&S2&W2); [lia|done..|lia|].
      rewrite Ep in E2. exists cp2. split; [done|]. split; [by eapply same_frame_trans|]. exists sl2.
      split; [done|]. split; [done|]. split; [by eapply same_set_trans|done].
Qed.

Lemma heapify_up_ok sl i cp : view n idx0 sl cp -> 0 <= i < n -> windowed sl ->
  weak_heap (keys sl) n i -> below_ok (keys sl) n i ->
  exists cp', cpudl_heapify_up cp i = Ok cp' /\ sifted sl cp cp'.
Proof.
  intros H Hi Hw Hweak Hb. pose proof H as [[Hsz Hn] _ _ Hs _ _]. unfold cpudl_heapify_up. rewrite elem_ok by lia.
  cbn [res_bind]. destruct (Z.eqb_spec i 0) as [->|Hne].
  - exists cp. split; [done|]. split; [done|]. exists sl. split; [done|]. split; [|split; [apply same_set_refl|done]].
    eapply weak_heap_heap; eauto. intros p Hp. unfold child in Hp. lia.
  - destruct (Hs i Hi ltac:(lia)) as [-> ->]. apply up_loop_ok; auto using view_hole; [lia|]. unfold heap_fuel, len in *. lia.
Qed.

Lemma heapify_down_ok sl i cp : view n idx0 sl cp -> 0 <= i < n -> windowed sl ->
  weak_heap (keys sl) n i -> above_ok (keys sl) i ->
  exists cp', cpudl_heapify_down cp i = Ok cp' /\ sifted sl cp cp'.
Proof.
  intros H Hi Hw Hweak Ha. pose proof H as [[Hsz Hn] _ _ Hs _ _]. unfold cpudl_heapify_down. rewrite elem_ok by lia.
  cbn [res_bind]. destruct (left_child_spec i) as [-> _]; [lia|]. destruct (Z.leb_spec (size cp) (2 * i + 1)).
  - exists cp. split; [done|]. split; [done|]. exists sl. split; [done|]. split; [|split; [apply same_set_refl|done]].
    eapply weak_heap_heap; eauto. intros j Hj. unfold child in Hj. lia.
  - destruct (Hs i Hi ltac:(lia)) as [-> ->]. apply down_loop_ok; auto using view_hole. unfold heap_fuel, len in *. lia.
Qed.

Lemma heapify_ok sl i cp : view n idx0 sl cp -> 0 <= i < n -> windowed sl -> weak_heap (keys sl) n i ->
  exists cp', cpudl_heapify cp i = Ok cp' /\ sifted sl cp cp'.
Proof.
  intros H Hi Hw Hweak. pose proof H as [[Hsz Hn] _ _ Hs _ _]. unfold cpudl_heapify. destruct (Z.ltb_spec 0 i) as [L|L].
  - pose proof (parent_spec i L) as Hp. assert (Hpi : 0 <= parent i < i) by (unfold child in Hp; lia).
    rewrite !elem_ok by lia. cbn [res_bind].
    rewrite (proj1 (Hs i Hi ltac:(lia))), (proj1 (Hs (parent i) ltac:(lia) ltac:(lia))).
    rewrite dl_time_before_key by (apply Hw; lia). destruct (Z.ltb_spec (key (sl (parent i)).1) (key (sl i).1)) as [Lt|Ge].
    + apply heapify_up_ok; auto. intros j Hj Hjn. destruct Hweak as [_ H2]. specialize (H2 _ _ Hp Hj Hjn).
      unfold keys in *. lia.
    + apply heapify_down_ok; auto. intros q Hq. by rewrite (child_parent_unique _ _ _ Hq Hp).
  - cbn [res_bind]. apply heapify_down_ok; auto. intros q Hq. unfold child in Hq. lia.
Qed.
End sift.

(** [cpudl_heapify] on the position just past the heap does nothing. *)
Lemma heapify_noop cp i : 0 <= i -> size cp <= i < len cp ->
  (forall p, child p i -> dl_time_before (dl (el cp p)) (dl (el cp i)) = false) -> cpudl_heapify cp i = Ok cp.
Proof.
  intros Hi Hs Hp. unfold cpudl_heapify. destruct (Z.ltb_spec 0 i) as [L|L].
  - pose proof (parent_spec i L) as Hc. rewrite !elem_ok by (unfold child in Hc; lia). cbn [res_bind]. rewrite (Hp _ Hc).
    unfold cpudl_heapify_down. rewrite elem_ok by lia. cbn [res_bind]. destruct (left_child_spec i) as [-> _]; [lia|].
    by destruct (Z.leb_spec (size cp) (2 * i + 1)); [|lia].
  - cbn [res_bind]. unfold cpudl_heapify_down. rewrite elem_ok by lia. cbn [res_bind].
    destruct (left_child_spec i) as [-> _]; [lia|]. by destruct (Z.leb_spec (size cp) (2 * i + 1)); [|lia].
Qed.

Lemma heap_update k k' n i : heap k n -> (forall m, m <> i -> k' m = k m) -> weak_heap k' n i.
Proof.
  intros H E. split.
  - intros p j Hc Hj Hji Hpi. rewrite !E by done. by apply H.
  - intros p j Hp Hc Hj. rewrite !E by (unfold child in *; lia).
    transitivity (k i); apply H; auto. unfold child in *; lia.
Qed.

(** ** The invariant and the abstract content *)

(** CPUs outside the heap: the possible ones have an invalid index, the others keep
    the zero they were allocated with. *)
Definition out_idx (possible : list Z) (c : Z) : Z := if bit possible c then IDX_INVALID else 0.

Record cpudl_ok (possible : list Z) (cp : cpudl) : Prop := mk_cpudl_ok {
  dl_frame : 0 <= size cp /\ len cp = NR_CPUS /\ cpumask (free_cpus cp);
  dl_heap : exists sl, view (size cp) (out_idx possible) sl cp /\ heap (keys sl) (size cp) /\ windowed (size cp) sl
              /\ forall j, 0 <= j < size cp -> bit possible (sl j).2 = true
}.

(** CPU [c] is in the heap with deadline [d]. *)
Definition holds (cp : cpudl) (d c : Z) : Prop :=
  exists j, 0 <= j < size cp /\ dl (el cp j) = d /\ cpu (el cp j) = c.

Lemma holds_view n idx0 sl cp d c : view n idx0 sl cp -> holds cp d c <-> exists j, 0 <= j < n /\ sl j = (d, c).
Proof.
  intros [[Hsz _] _ _ Hs _ _]. unfold holds. rewrite Hsz. split; intros (j&Hj&E); exists j; (split; [done|]).
  - destruct (Hs j Hj ltac:(lia)) as [Ed Ec]. destruct E as [<- <-]. rewrite Ed, Ec. by destruct (sl j).
  - destruct (Hs j Hj ltac:(lia)) as [-> ->]. by rewrite E.
Qed.

(** A CPU is in the heap, at the position its index says, or its index is [idx0]. *)
Lemma lookup_idx n idx0 sl cp c : view n idx0 sl cp -> 0 <= c < len cp ->
  (exists j, 0 <= j < n /\ (sl j).2 = c /\ idx (el cp c) = j)
  \/ ((forall j, 0 <= j < n -> (sl j).2 <> c) /\ idx (el cp c) = idx0 c).
Proof.
  intros [_ _ _ _ Hi Ho] Hc.
  destruct (decide (Exists (fun j => (sl j).2 = c) (seqZ 0 n))) as [Hex|Hno].
  - left. apply Exists_exists in Hex as (j&Hj&E). apply elem_of_seqZ in Hj. exists j. split; [lia|]. split; [done|].
    rewrite <- E. apply Hi; lia.
  - right. assert (Hall : forall j, 0 <= j < n -> (sl j).2 <> c).
    { intros j Hj E. apply Hno, Exists_exists. exists j. split; [apply elem_of_seqZ; lia|done]. }
    split; [done|]. by apply Ho.
Qed.

(** A heap that misses a CPU is not full. *)
Lemma not_full n idx0 sl cp c : 0 <= n -> view n idx0 sl cp -> 0 <= c < len cp ->
  (forall j, 0 <= j < n -> (sl j).2 <> c) -> n < len cp.
Proof.
  intros Hn [_ Hr Hinj _ _ _] Hc Hno.
  assert (Hsub : c :: map (fun j => (sl j).2) (seqZ 0 n) ⊆+ seqZ 0 (len cp)).
  { apply NoDup_submseteq.
    - apply NoDup_cons. split.
      + intros Hin. apply list_elem_of_fmap in Hin as (j&E&Hj). apply elem_of_seqZ in Hj. by apply (Hno j ltac:(lia)).
      + apply NoDup_fmap_2_strong; [|apply NoDup_seqZ]. intros j k Hj Hk. apply elem_of_seqZ in Hj, Hk.
        intros E. apply Hinj; [lia|lia|done].
    - intros x [->|Hin]%elem_of_cons; apply elem_of_seqZ; [lia|].
      apply list_elem_of_fmap in Hin as (j&->&Hj). apply elem_of_seqZ in Hj. specialize (Hr j ltac:(lia)). lia. }
  apply submseteq_length in Hsub. cbn in Hsub. rewrite length_map, !length_seqZ in Hsub. lia.
Qed.

Definition updf {A} (f : Z -> A) (i : Z) (x : A) (m : Z) : A := if m =? i then x else f m.

(** Writing a deadline into node [i]. *)
Lemma view_set_dl n idx0 sl cp i d : view n idx0 sl cp -> 0 <= i < n ->
  exists cp', set_elem cp i (mk_item d (cpu (el cp i)) (idx (el cp i))) = Ok cp' /\ same_frame cp cp'
    /\ view n idx0 (updf sl i (d, (sl i).2)) cp'.
Proof.
  intros [[Hsz Hn] Hr Hinj Hs Hi Ho] Hin.
  destruct (set_elem_ok cp i (mk_item d (cpu (el cp i)) (idx (el cp i)))) as (cp'&->&F&E); [lia|].
  exists cp'. split; [done|]. split; [done|]. pose proof F as (F1&F2&F3).
  assert (E2 : forall m, (updf sl i (d, (sl i).2) m).2 = (sl m).2) by (intros m; unfold updf; by destruct (Z.eqb_spec m i) as [->|]).
  assert (Eidx : forall c, 0 <= c -> idx (el cp' c) = idx (el cp c)) by (intros c Hc; rewrite E by done; by destruct (Z.eqb_spec c i) as [->|]).
  split; rewrite ?F3.
  - by rewrite F1.
  - intros j Hj. rewrite E2. auto.
  - intros j k Hj Hk. rewrite !E2. auto.
  - intros j Hj Hne. unfold updf. rewrite E by lia. destruct (Z.eqb_spec j i) as [->|]; [|by apply Hs].
    cbn. split; [done|]. by apply Hs.
  - intros j Hj Hne. rewrite E2, Eidx by (pose proof (Hr j Hj); lia). by apply Hi.
  - intros c Hc Hno. rewrite Eidx by lia. apply Ho; [done|]. intros j Hj. rewrite <- E2. by apply Hno.
Qed.

(** Appending a CPU that is not in the heap. *)
Lemma view_append n idx0 sl cp c d : view n idx0 sl cp -> 0 <= n < len cp -> 0 <= c < len cp ->
  (forall j, 0 <= j < n -> (sl j).2 <> c) ->
  exists cp1 cp2, set_slot (set_size cp (n + 1)) n c d = Ok cp1 /\ set_idx cp1 c n = Ok cp2
    /\ same_frame (set_size cp (n + 1)) cp2 /\ view (n + 1) idx0 (updf sl n (d, c)) cp2.
Proof.
  intros [[Hsz Hn] Hr Hinj Hs Hi Ho] Hnl Hc Hno. assert (L : len (set_size cp (n + 1)) = len cp) by done.
  destruct (set_slot_ok (set_size cp (n + 1)) n c d) as (cp1&->&F1&E1); [lia|].
  destruct (set_idx_ok cp1 c n) as (cp2&E&F2&E2); [destruct F1 as (_&_&->); lia|].
  exists cp1, cp2. split; [done|]. split; [done|]. assert (F : same_frame (set_size cp (n + 1)) cp2) by (by eapply same_frame_trans).
  split; [done|]. pose proof F as (Fs&_&Fl). rewrite L in Fl.
  assert (El : forall m, 0 <= m -> el cp2 m = mk_item (if m =? n then d else dl (el cp m)) (if m =? n then c else cpu (el cp m))
                                             (if m =? c then n else idx (el cp m))).
  { intros m Hm. rewrite E2, E1 by done. change (el (set_size cp (n + 1))) with (el cp). by destruct (Z.eqb_spec m n) as [->|]. }
  unfold updf. split; rewrite ?Fl.
  - rewrite Fs. cbn. lia.
  - intros j Hj. destruct (Z.eqb_spec j n); [done|]. apply Hr. lia.
  - intros j k Hj Hk. destruct (Z.eqb_spec j n), (Z.eqb_spec k n); cbn; intros Eq; subst; try done.
    + by destruct (Hno k ltac:(lia)).
    + by destruct (Hno j ltac:(lia)).
    + apply Hinj; [lia..|done].
  - intros j Hj _. rewrite El by lia. cbn. destruct (Z.eqb_spec j n); [done|]. apply Hs; lia.
  - intros j Hj _. destruct (Z.eqb_spec j n) as [->|]; cbn.
    + rewrite El by lia. cbn. by rewrite Z.eqb_refl.
    + pose proof (Hr j ltac:(lia)). rewrite El by lia. cbn. destruct (Z.eqb_spec (sl j).2 c) as [Eq|]; [by destruct (Hno j ltac:(lia))|].
      apply Hi; lia.
  - intros x Hx Hout. assert (x <> c) by (intros ->; specialize (Hout n ltac:(lia)); rewrite Z.eqb_refl in Hout; done).
    rewrite El by lia. cbn. destruct (Z.eqb_spec x c); [done|]. apply Ho; [done|]. intros j Hj Eq.
    apply (Hout j ltac:(lia)). by destruct (Z.eqb_spec j n); [lia|].
Qed.

(** From a sifted heap back to the invariant. *)
Lemma sifted_ok possible n sl cp cp' : 0 <= n -> len cp = NR_CPUS -> cpumask (free_cpus cp) ->
  sifted n (out_idx possible) sl cp cp' -> (forall j, 0 <= j < n -> bit possible (sl j).2 = true) ->
  cpudl_ok possible cp' /\ size cp' = n /\ free_cpus cp' = free_cpus cp
  /\ forall d c, holds cp' d c <-> exists j, 0 <= j < n /\ sl j = (d, c).
Proof.
  intros Hn Hl Hm ((Fs&Ff&Fl)&sl'&V&Hh&Hset&Hw) Hp. assert (Es : size cp' = n) by (apply V).
  split; [|split; [done|split; [done|]]].
  - split; [by rewrite Es, Fl, Ff|]. rewrite Es. exists sl'. split; [done|]. split; [done|]. split; [done|].
    intros j Hj. destruct (proj2 (Hset (sl' j))) as (k&Hk&<-); [eauto|]. by apply Hp.
  - intros d c. rewrite (holds_view _ _ _ _ d c V). symmetry. apply Hset.
Qed.

Lemma set_free_ok possible cp m : cpudl_ok possible cp -> cpumask m ->
  cpudl_ok possible (set_free cp m) /\ forall d c, holds (set_free cp m) d c <-> holds cp d c.
Proof.
  intros [(H1&H2&_) (sl&V&Hh&Hw&Hp)] Hm. split; [|done]. split; [done|]. exists sl. split; [|done].
  destruct V as [? ? ? ? ? ?]. by split.
Qed.

(** The pairs of a view with one deadline replaced, or one pair appended. *)
Lemma content_update n idx0 sl cp i d d' c' : view n idx0 sl cp -> 0 <= i < n ->
  (exists j, 0 <= j < n /\ updf sl i (d, (sl i).2) j = (d', c'))
  <-> if c' =? (sl i).2 then d' = d else exists j, 0 <= j < n /\ sl j = (d', c').
Proof.
  intros V Hi. pose proof (h_inj _ _ _ _ _ V) as Hinj. unfold updf. destruct (Z.eqb_spec c' (sl i).2) as [->|Hne]; split.
  - intros (j&Hj&E). destruct (Z.eqb_spec j i) as [->|Hji]; [congruence|]. destruct Hji. apply Hinj; [done|done|]. by rewrite E.
  - intros ->. exists i. split; [done|]. by rewrite Z.eqb_refl.
  - intros (j&Hj&E). destruct (Z.eqb_spec j i) as [->|Hji]; [congruence|eauto].
  - intros (j&Hj&E). exists j. split; [done|]. destruct (Z.eqb_spec j i) as [->|]; [|done]. by rewrite E in Hne.
Qed.

Lemma content_append (sl : Z -> Z * Z) n c d d' c' : 0 <= n -> (forall j, 0 <= j < n -> (sl j).2 <> c) ->
  (exists j, 0 <= j < n + 1 /\ updf sl n (d, c) j = (d', c'))
  <-> if c' =? c then d' = d else exists j, 0 <= j < n /\ sl j = (d', c').
Proof.
  intros Hn Hno. unfold updf. destruct (Z.eqb_spec c' c) as [->|Hne]; split.
  - intros (j&Hj&E). destruct (Z.eqb_spec j n); [congruence|]. destruct (Hno j ltac:(lia)). by rewrite E.
  - intros ->. exists n. split; [lia|]. by rewrite Z.eqb_refl.
  - intros (j&Hj&E). destruct (Z.eqb_spec j n); [congruence|]. exists j. split; [lia|done].
  - intros (j&Hj&E). exists j. split; [lia|]. by destruct (Z.eqb_spec j n); [lia|].
Qed.

(** What an update of the deadline of [c] to [d] promises. *)
Definition set_result (possible : list Z) (cp cp' : cpudl) (c d : Z) (free : Z -> bool) : Prop :=
  cpudl_ok possible cp'
  /\ (forall d' c', holds cp' d' c' <-> if c' =? c then d' = d else holds cp d' c')
  /\ forall i, 0 <= i -> bit (free_cpus cp') i = free i.

Section ops.
Context (possible : list Z) (cp : cpudl) (c : Z) (sl : Z -> Z * Z).
Context (Hsz : 0 <= size cp) (Hl : len cp = NR_CPUS) (Hm : cpumask (free_cpus cp)).
Context (V : view (size cp) (out_idx possible) sl cp) (Hh : heap (keys sl) (size cp)).
Context (Hw : windowed (size cp) sl) (Hp : forall j, 0 <= j < size cp -> bit possible (sl j).2 = true).
Context (Hc : 0 <= c < NR_CPUS) (Bc : bit possible c = true).

Lemma set_present i d : 0 <= i < size cp -> (sl i).2 = c -> in_window d ->
  exists cp1 cp2, set_elem cp i (mk_item d (cpu (el cp i)) (idx (el cp i))) = Ok cp1
    /\ cpudl_heapify cp1 i = Ok cp2 /\ set_result possible cp cp2 c d (bit (free_cpus cp)).
Proof.
  intros Hi Ec Hd. destruct (view_set_dl (size cp) (out_idx possible) sl cp i d V Hi) as (cp1&->&F1&V1).
  set (sl1 := updf sl i (d, (sl i).2)) in *.
  destruct (heapify_ok (size cp) (out_idx possible) sl1 i cp1 V1 Hi) as (cp2&E2&S2).
  { intros j Hj. unfold sl1, updf. destruct (j =? i); [done|by apply Hw]. }
  { apply (heap_update (keys sl) _ _ i Hh). intros m Hne. unfold keys, sl1, updf. by destruct (Z.eqb_spec m i). }
  destruct F1 as (F1&F2&F3).
  destruct (sifted_ok possible (size cp) sl1 cp1 cp2) as (Hok&_&Ef&Hcont); [done|by rewrite F3|by rewrite F2|done| |].
  { intros j Hj. unfold sl1, updf. destruct (Z.eqb_spec j i) as [->|]; [|by apply Hp]. cbn. by rewrite Ec. }
  exists cp1, cp2. split; [done|]. split; [done|]. split; [done|]. split; [|intros; by rewrite Ef, F2].
  intros d' c'. rewrite Hcont. unfold sl1. rewrite (content_update _ _ _ _ i d d' c' V Hi), Ec.
  destruct (c' =? c); [done|]. symmetry. apply (holds_view _ _ _ _ d' c' V).
Qed.

Lemma set_absent d : (forall j, 0 <= j < size cp -> (sl j).2 <> c) -> in_window d ->
  exists cp1 cp2 cp3 m, set_slot (set_size cp (size cp + 1)) (size cp) c d = Ok cp1 /\ set_idx cp1 c (size cp) = Ok cp2
    /\ cpudl_heapify_up cp2 (size cp) = Ok cp3 /\ cpumask_clear_cpu c (free_cpus cp3) = Ok m
    /\ set_result possible cp (set_free cp3 m) c d (fun i => negb (i =? c) && bit (free_cpus cp) i).
Proof.
  intros Hno Hd. pose proof (not_full _ _ _ _ c Hsz V ltac:(lia) Hno) as Hlt.
  destruct (view_append (size cp) (out_idx possible) sl cp c d V ltac:(lia) ltac:(lia) Hno) as (cp1&cp2&->&E2&F2&V2).
  set (sl1 := updf sl (size cp) (d, c)) in *.
  assert (Hw1 : windowed (size cp + 1) sl1).
  { intros j Hj. unfold sl1, updf. destruct (Z.eqb_spec j (size cp)); [done|apply Hw; lia]. }
  destruct (heapify_up_ok (size cp + 1) (out_idx possible) sl1 (size cp) cp2 V2) as (cp3&E3&S3); [lia|done| | |].
  { split; [|intros p j _ Hj Hjn; unfold child in Hj; lia]. intros p j Hcj Hj Hji Hpi.
    unfold keys, sl1, updf. destruct (Z.eqb_spec j (size cp)), (Z.eqb_spec p (size cp)); try done. apply Hh; [done|lia]. }
  { intros j Hj Hjn. unfold child in Hj. lia. }
  destruct F2 as (F1&F2&F3). cbn in F2, F3.
  destruct (sifted_ok possible (size cp + 1) sl1 cp2 cp3) as (Hok&_&Ef&Hcont); [lia|by rewrite F3|by rewrite F2|done| |].
  { intros j Hj. unfold sl1, updf. destruct (Z.eqb_spec j (size cp)); [done|apply Hp; lia]. }
  destruct (cpumask_clear_cpu_ok (free_cpus cp3) c) as (m&E4&Wm&Bm); [apply Hok|done|].
  destruct (set_free_ok possible cp3 m Hok Wm) as [Hok' Hh'].
  exists cp1, cp2, cp3, m. split_and!; try done.
  split; [done|]. split; [|intros i Hi; cbn; by rewrite Bm, Ef, F2].
  intros d' c'. rewrite Hh', Hcont. unfold sl1. rewrite content_append by done.
  destruct (c' =? c); [done|]. symmetry. apply (holds_view _ _ _ _ d' c' V).
Qed.
End ops.

Lemma cpudl_set_ok possible cp c d : cpudl_ok possible cp -> 0 <= c < NR_CPUS -> bit possible c = true -> in_window d ->
  exists cp', cpudl_set cp c d = Ok cp' /\ set_result possible cp cp' c d
    (fun i => if idx (el cp c) =? IDX_INVALID then negb (i =? c) && bit (free_cpus cp) i else bit (free_cpus cp) i).
Proof.
  intros [(Hsz&Hl&Hm) (sl&V&Hh&Hw&Hp)] Hc Bc Hd. unfold cpudl_set. rewrite elem_ok by lia. cbn [res_bind].
  pose proof (h_size _ _ _ _ _ V) as [_ Hfit].
  destruct (lookup_idx (size cp) (out_idx possible) sl cp c V ltac:(lia)) as [(i&Hi&Ec&Ei)|[Hno Ei]].
  - rewrite Ei. destruct (Z.eqb_spec i IDX_INVALID); [unfold IDX_INVALID in *; lia|]. rewrite elem_ok by lia. cbn [res_bind].
    destruct (set_present possible cp c sl Hsz Hl Hm V Hh Hw Hp Bc i d Hi Ec Hd) as (cp1&cp2&->&E2&R). cbn [res_bind]. eauto.
  - unfold out_idx in Ei. rewrite Bc in Ei. rewrite Ei, Z.eqb_refl.
    destruct (set_absent possible cp c sl Hsz Hl Hm V Hh Hw Hp Hc Bc d Hno Hd) as (cp1&cp2&cp3&m&->&E2&E3&E4&R).
    cbn [res_bind]. rewrite E2. cbn [res_bind]. rewrite E3. cbn [res_bind]. rewrite E4. cbn [res_bind]. eauto.
Qed.

(** Overwriting node [i] with the last node and dropping the last position. *)
Lemma view_remove n idx0 sl cp i : view n idx0 sl cp -> 0 <= i < n -> idx0 (sl i).2 = IDX_INVALID ->
  let x := sl (n - 1) in
  exists cp1 cp2 cp3, set_slot cp i x.2 x.1 = Ok cp1 /\ set_idx (set_size cp1 (n - 1)) x.2 i = Ok cp2
    /\ set_idx cp2 (sl i).2 IDX_INVALID = Ok cp3 /\ same_frame (set_size cp (n - 1)) cp3
    /\ view (n - 1) idx0 (updf sl i x) cp3
    /\ forall j, 0 <= j < n -> dl (el cp3 j) = (updf sl i x j).1.
Proof.
  intros [[Hsz Hn] Hr Hinj Hs Hi Ho] Hin Hout x. pose proof (Hr (n - 1) ltac:(lia)) as Hx. pose proof (Hr i Hin) as Hc. fold x in Hx.
  destruct (set_slot_ok cp i x.2 x.1) as (cp1&->&F1&E1); [lia|]. pose proof F1 as (F1s&F1f&F1l).
  destruct (set_idx_ok (set_size cp1 (n - 1)) x.2 i) as (cp2&E&F2&E2); [change (len (set_size cp1 (n - 1))) with (len cp1); lia|].
  pose proof F2 as (F2s&F2f&F2l). change (len (set_size cp1 (n - 1))) with (len cp1) in F2l.
  destruct (set_idx_ok cp2 (sl i).2 IDX_INVALID) as (cp3&E'&F3&E3); [lia|]. pose proof F3 as (F3s&F3f&F3l).
  exists cp1, cp2, cp3. split; [done|]. split; [done|]. split; [done|].
  assert (El : forall m, 0 <= m -> el cp3 m = mk_item (if m =? i then x.1 else dl (el cp m)) (if m =? i then x.2 else cpu (el cp m))
    (if m =? (sl i).2 then IDX_INVALID else if m =? x.2 then i else idx (el cp m))).
  { intros m Hm. rewrite E3, E2 by done. change (el (set_size cp1 (n - 1))) with (el cp1). rewrite E1 by done.
    cbn. by destruct (Z.eqb_spec m i) as [->|]. }
  assert (Hl3 : len cp3 = len cp) by lia. split.
  { split; [rewrite F3s, F2s; done|]. split; [rewrite F3f, F2f; done|]. change (len (set_size cp (n - 1))) with (len cp). done. }
  assert (Hlast : forall j, 0 <= j < n - 1 -> (sl j).2 <> x.2) by (intros j Hj Eq; apply Hinj in Eq; lia).
  split.
  - unfold updf. split; rewrite ?Hl3.
    + rewrite F3s, F2s. cbn. lia.
    + intros j Hj. destruct (j =? i); [done|apply Hr; lia].
    + intros j k Hj Hk. destruct (Z.eqb_spec j i), (Z.eqb_spec k i); intros Eq; subst; try done;
        [by destruct (Hlast k)|by destruct (Hlast j)|apply Hinj; lia || done].
    + intros j Hj _. rewrite El by lia. cbn. destruct (Z.eqb_spec j i); [done|apply Hs; lia].
    + intros j Hj _. destruct (Z.eqb_spec j i) as [->|Hji].
      * rewrite El by lia. cbn. destruct (Z.eqb_spec x.2 (sl i).2) as [Eq|]; [by destruct (Hlast i)|]. by rewrite Z.eqb_refl.
      * pose proof (Hr j ltac:(lia)). rewrite El by lia. cbn. destruct (Z.eqb_spec (sl j).2 (sl i).2) as [Eq|]; [apply Hinj in Eq; lia|].
        destruct (Z.eqb_spec (sl j).2 x.2) as [Eq|]; [by destruct (Hlast j)|apply Hi; lia].
    + intros y Hy Hno. rewrite El by lia. cbn. destruct (Z.eqb_spec y (sl i).2) as [->|Hyc]; [done|].
      assert (Hyx : y <> x.2).
      { intros ->. destruct (Z.eq_dec i (n - 1)) as [->|]; [by destruct Hyc|].
        apply (Hno i ltac:(lia)). by rewrite Z.eqb_refl. }
      destruct (Z.eqb_spec y x.2); [done|]. apply Ho; [done|]. intros j Hj Eq. destruct (Z.eq_dec j (n - 1)) as [->|]; [by subst|].
      apply (Hno j ltac:(lia)). destruct (Z.eqb_spec j i) as [->|]; [by subst|done].
  - intros j Hj. rewrite El by lia. cbn. unfold updf. destruct (j =? i); [done|apply Hs; lia].
Qed.

Lemma content_remove n idx0 sl cp i d' c' : view n idx0 sl cp -> 0 <= i < n ->
  (exists j, 0 <= j < n - 1 /\ updf sl i (sl (n - 1)) j = (d', c'))
  <-> c' <> (sl i).2 /\ exists j, 0 <= j < n /\ sl j = (d', c').
Proof.
  intros V Hi. pose proof (h_inj _ _ _ _ _ V) as Hinj. unfold updf. split.
  - intros (j&Hj&E). destruct (Z.eqb_spec j i) as [->|Hji].
    + split; [|exists (n - 1); split; [lia|done]]. intros ->.
      assert (n - 1 = i) by (apply Hinj; [lia|lia|by rewrite E]). lia.
    + split; [|exists j; split; [lia|done]]. intros ->. destruct Hji. apply Hinj; [lia|lia|by rewrite E].
  - intros (Hne&j&Hj&E). destruct (Z.eq_dec j (n - 1)) as [->|Hjn].
    + exists i. assert (i <> n - 1) by (intros ->; by rewrite E in Hne). split; [lia|]. by rewrite Z.eqb_refl.
    + exists j. split; [lia|]. destruct (Z.eqb_spec j i) as [->|]; [by rewrite E in Hne|done].
Qed.

(** What removing [c] promises. *)
Definition clear_result (possible : list Z) (cp cp' : cpudl) (c : Z) (free : Z -> bool) : Prop :=
  cpudl_ok possible cp' /\ (forall d' c', holds cp' d' c' <-> c' <> c /\ holds cp d' c')
  /\ forall i, 0 <= i -> bit (free_cpus cp') i = free i.

Lemma remove_sifted n idx0 sl cp cp3 i : view n idx0 sl cp -> heap (keys sl) n -> windowed n sl -> 0 <= i < n ->
  same_frame (set_size cp (n - 1)) cp3 -> view (n - 1) idx0 (updf sl i (sl (n - 1))) cp3 ->
  (forall j, 0 <= j < n -> dl (el cp3 j) = (updf sl i (sl (n - 1)) j).1) ->
  exists cp4, cpudl_heapify cp3 i = Ok cp4 /\ sifted (n - 1) idx0 (updf sl i (sl (n - 1))) cp3 cp4.
Proof.
  intros V Hh Hw Hi (Fs&_&Fl) V3 Hdl. pose proof (h_size _ _ _ _ _ V) as [_ Hfit].
  assert (Hw3 : windowed (n - 1) (updf sl i (sl (n - 1)))).
  { intros j Hj. unfold updf. destruct (j =? i); apply Hw; lia. }
  assert (Hh3 : heap (keys sl) (n - 1)) by (intros p j Hc Hj; apply Hh; [done|lia]).
  destruct (Z.eq_dec i (n - 1)) as [Ei|Hne].
  - exists cp3. assert (Eq : forall j, updf sl i (sl (n - 1)) j = sl j) by (intros j; unfold updf; by destruct (Z.eqb_spec j i) as [->|]; [rewrite Ei|]).
    split.
    + apply heapify_noop; [lia|change (len (set_size cp (n - 1))) with (len cp) in Fl; rewrite Fs; cbn; lia|].
      intros p Hp. assert (0 <= p < n) by (unfold child in Hp; lia). rewrite !Hdl, !Eq by lia.
      rewrite dl_time_before_key by (apply Hw; lia). apply Z.ltb_ge. apply (Hh p i Hp). lia.
    + split; [done|]. eexists. split; [exact V3|]. split; [|split; [done|exact Hw3]].
      intros p j Hc Hj. unfold keys. rewrite !Eq. by apply Hh3.
  - apply heapify_ok; [done|lia|done|]. apply (heap_update (keys sl) _ _ i Hh3). intros m Hm. unfold keys, updf.
    by destruct (Z.eqb_spec m i).
Qed.

Lemma cpudl_clear_ok possible cp c : cpudl_ok possible cp -> 0 <= c < NR_CPUS -> bit possible c = true ->
  exists cp', cpudl_clear cp c = Ok cp' /\ clear_result possible cp cp' c
    (fun i => if idx (el cp c) =? IDX_INVALID then bit (free_cpus cp) i else (i =? c) || bit (free_cpus cp) i).
Proof.
  intros Hcp Hc Bc. pose proof Hcp as [(Hsz&Hl&Hm) (sl&V&Hh&Hw&Hp)]. unfold cpudl_clear. rewrite elem_ok by lia. cbn [res_bind].
  pose proof V as [[_ Hfit] _ _ Hs _ _].
  destruct (lookup_idx (size cp) (out_idx possible) sl cp c V ltac:(lia)) as [(i&Hi&Ec&Ei)|[Hno Ei]].
  - rewrite Ei. destruct (Z.eqb_spec i IDX_INVALID); [unfold IDX_INVALID in *; lia|]. rewrite elem_ok by lia. cbn [res_bind].
    destruct (Hs (size cp - 1) ltac:(lia) ltac:(lia)) as [-> ->].
    destruct (view_remove (size cp) (out_idx possible) sl cp i V Hi) as (cp1&cp2&cp3&E1&E2&E3&F&V3&Hdl).
    { rewrite Ec. unfold out_idx. by rewrite Bc. }
    rewrite E1. cbn [res_bind]. assert (Es : size cp1 = size cp).
    { destruct (set_slot_ok cp i (sl (size cp - 1)).2 (sl (size cp - 1)).1) as (cp1'&E1'&(F0&_)&_); [lia|]. congruence. }
    rewrite Es, E2. cbn [res_bind]. rewrite <- Ec, E3. cbn [res_bind].
    destruct (remove_sifted _ _ _ _ _ _ V Hh Hw Hi F V3 Hdl) as (cp4&->&S4). cbn [res_bind]. destruct F as (F1&F2&F3). cbn in F2.
    destruct (sifted_ok possible (size cp - 1) _ cp3 cp4 ltac:(lia) ltac:(by rewrite F3) ltac:(by rewrite F2) S4) as (Hok&_&Ef&Hcont).
    { intros j Hj. unfold updf. destruct (j =? i); apply Hp; lia. }
    destruct (cpumask_set_cpu_ok (free_cpus cp4) (sl i).2) as (m&->&Wm&Bm); [apply Hok|by rewrite Ec|]. cbn [res_bind].
    destruct (set_free_ok possible cp4 m Hok Wm) as [Hok' Hh']. eexists. split; [done|]. split; [done|].
    split; [|intros j Hj; cbn; by rewrite Bm, Ef, F2]. intros d' c'. rewrite Hh', Hcont, (content_remove _ _ _ _ _ d' c' V Hi).
    by rewrite (holds_view _ _ _ _ d' c' V).
  - unfold out_idx in Ei. rewrite Bc in Ei. rewrite Ei, Z.eqb_refl. exists cp. split; [done|]. split; [done|]. split; [|done].
    intros d' c'. split; [|by intros []]. intros H. split; [|done]. intros ->. apply (holds_view _ _ _ _ d' c V) in H as (j&Hj&E).
    apply (Hno j Hj). by rewrite E.
Qed.

(** ** Searching *)

Lemma cpudl_heap_root k n j : heap k n -> 0 <= j < n -> k j <= k 0.
Proof.
  intros Hh. remember (Z.to_nat j) as f eqn:Ef. revert j Ef.
  induction f as [f IH] using lt_wf_ind. intros j Ef Hj. destruct (Z.eq_dec j 0) as [->|Hne]; [lia|].
  pose proof (parent_spec j ltac:(lia)) as Hp. assert (0 <= parent j < j) by (unfold child in Hp; lia).
  transitivity (k (parent j)); [apply Hh; [done|lia]|]. apply (IH (Z.to_nat (parent j))); lia.
Qed.

(** [c0] has the latest deadline [d0] of the heap. *)
Definition latest (cp : cpudl) (d0 c0 : Z) : Prop :=
  holds cp d0 c0 /\ forall d c, holds cp d c -> key d <= key d0.

Lemma root_latest possible cp : cpudl_ok possible cp -> 0 < size cp ->
  latest cp (dl (el cp 0)) (cpu (el cp 0)) /\ in_window (dl (el cp 0)) /\ 0 <= cpu (el cp 0) < NR_CPUS.
Proof.
  intros [(Hsz&Hl&_) (sl&V&Hh&Hw&_)] Hn. pose proof V as [_ Hr _ Hs _ _]. destruct (Hs 0 ltac:(lia) ltac:(lia)) as [Ed Ec].
  rewrite Ed, Ec. split; [|split; [apply Hw; lia|rewrite <- Hl; apply Hr; lia]]. split.
  - apply (holds_view _ _ _ _ _ _ V). exists 0. split; [lia|]. by destruct (sl 0).
  - intros d c H. apply (holds_view _ _ _ _ _ _ V) in H as (j&Hj&E). pose proof (cpudl_heap_root _ _ j Hh Hj) as Hle.
    unfold keys in Hle. by rewrite E in Hle.
Qed.

(** The two outcomes of a search: free CPUs the task may run on, or the CPU with the
    latest deadline when that is after the task's and the task may run there. *)
Definition find_result (cp : cpudl) (deadline : Z) (cpus : list Z) (lm : option (list Z)) (hit : bool)
  (lm' : option (list Z)) : Prop :=
  let free i := bit (free_cpus cp) i && bit cpus i in
  (lm <> None /\ hit = true /\ (exists i, 0 <= i < NR_CPUS /\ free i = true)
   /\ exists m, lm' = Some m /\ forall i, 0 <= i < NR_CPUS -> bit m i = free i)
  \/ ((lm = None \/ forall i, 0 <= i < NR_CPUS -> free i = false)
      /\ exists d0 c0, latest cp d0 c0 /\ hit = bit cpus c0 && (key deadline <? key d0)
         /\ (lm' = None <-> lm = None)
         /\ forall m, lm' = Some m -> forall i, 0 <= i < NR_CPUS -> bit m i = hit && (i =? c0)).

Lemma cpudl_find_ok possible cp deadline cpus lm : cpudl_ok possible cp -> 0 < size cp -> in_window deadline ->
  cpumask cpus -> (forall m, lm = Some m -> cpumask m) ->
  exists hit lm', cpudl_find cp deadline cpus lm = Ok (hit, lm') /\ find_result cp deadline cpus lm hit lm'.
Proof.
  intros Hcp Hn Hd Hcpus Hlm. pose proof Hcp as [(_&Hl&Hm) _]. destruct (root_latest _ _ Hcp Hn) as (Hlat&Hw0&Hc0).
  set (d0 := dl (el cp 0)) in *. set (c0 := cpu (el cp 0)) in *.
  assert (Hroot : elem cp 0 = Ok (el cp 0)) by (apply elem_ok; rewrite Hl; done).
  unfold cpudl_find, cpudl_maximum, find_result. rewrite Hroot. cbn [res_bind]. fold c0 d0.
  rewrite cpumask_test_cpu_ok by done. cbn [res_bind]. rewrite dl_time_before_key by done. destruct lm as [lm|]; cbn [res_bind].
  - destruct (cpumask_and_ok lm (free_cpus cp) cpus) as (ret&m&->&Wm&Bm&Rm); [by apply Hlm|done|done|]. cbn [res_bind].
    destruct ret.
    + exists true, (Some m). split; [done|]. left. split; [done|]. split; [done|]. split; [by apply Rm|]. eauto.
    + assert (Hno : forall i, 0 <= i < NR_CPUS -> bit (free_cpus cp) i && bit cpus i = false).
      { intros i Hi. destruct (bit (free_cpus cp) i && bit cpus i) eqn:E; [|done]. discriminate (proj2 Rm). eauto. }
      destruct (bit cpus c0 && (key deadline <? key d0)) eqn:Eh.
      * destruct (cpumask_set_cpu_ok m c0 Wm Hc0) as (m'&->&_&Bm'). cbn [res_bind]. exists true, (Some m'). split; [done|].
        right. split; [by right|]. exists d0, c0. split; [done|]. split; [done|]. split; [done|].
        intros m2 [= <-] i Hi. rewrite Bm', Bm, Hno by lia. apply orb_false_r.
      * exists false, (Some m). split; [done|]. right. split; [by right|]. exists d0, c0. split; [done|]. split; [done|].
        split; [done|]. intros m2 [= <-] i Hi. by rewrite Bm, Hno.
  - destruct (bit cpus c0 && (key deadline <? key d0)) eqn:Eh; eexists _, None; (split; [done|]); right;
      (split; [by left|]); exists d0, c0; split_and!; try done; apply Hlat.
Qed.
End order.

(** ** Correctness of the operations *)

(** C31: [cpudl_set] keeps the heap order and the two maps inverse of each other, gives
    the CPU its new deadline whether it was in the heap or not, keeps every other
    entry, and takes a CPU that enters the heap out of the free mask. *)
Theorem cpudl_set_correct base possible cp c d :
  cpudl_ok base possible cp -> 0 <= c < NR_CPUS -> bit possible c = true -> in_window base d ->
  exists cp', cpudl_set cp c d = Ok cp' /\ set_result base possible cp cp' c d
    (fun i => if idx (el cp c) =? IDX_INVALID then negb (i =? c) && bit (free_cpus cp) i else bit (free_cpus cp) i).
Proof. apply cpudl_set_ok. Qed.

(** [cpudl_clear] removes exactly the given CPU from the heap, wherever it is,
    keeps the invariant, and marks the CPU free; on a CPU that is not in the heap it
    does nothing. *)
Theorem cpudl_clear_correct base possible cp c :
  cpudl_ok base possible cp -> 0 <= c < NR_CPUS -> bit possible c = true ->
  exists cp', cpudl_clear cp c = Ok cp' /\ clear_result base possible cp cp' c
    (fun i => if idx (el cp c) =? IDX_INVALID then bit (free_cpus cp) i else (i =? c) || bit (free_cpus cp) i).
Proof. apply cpudl_clear_ok. Qed.

(** [cpudl_find] on a non-empty heap reports the free CPUs the task may run on when
    there are any, and otherwise the CPU with the latest deadline, exactly when the task
    may run there and its own deadline is earlier. *)
Theorem cpudl_find_correct base possible cp deadline cpus lm :
  cpudl_ok base possible cp -> 0 < size cp -> in_window base deadline ->
  cpumask cpus -> (forall m, lm = Some m -> cpumask m) ->
  exists hit lm', cpudl_find cp deadline cpus lm = Ok (hit, lm') /\ find_result base cp deadline cpus lm hit lm'.
Proof. apply cpudl_find_ok. Qed.

(** ** Initialisation *)

Lemma invalidate_ok cpus cp : Forall (fun c => 0 <= c < len cp) cpus ->
  exists cp', invalidate cpus cp = Ok cp' /\ same_frame cp cp'
    /\ forall m, 0 <= m -> idx (el cp' m) = if bool_decide (m ∈ cpus) then IDX_INVALID else idx (el cp m).
Proof.
  revert cp. induction cpus as [|c cpus IH]; intros cp H; cbn [invalidate].
  { exists cp. split; [done|]. split; [done|]. intros. by rewrite bool_decide_eq_false_2 by (apply not_elem_of_nil). }
  apply Forall_cons in H as [Hc H]. destruct (set_idx_ok cp c IDX_INVALID Hc) as (cp1&->&F1&E1). cbn [res_bind].
  destruct (IH cp1) as (cp2&->&F2&E2); [by rewrite (proj2 (proj2 F1))|]. exists cp2. split; [done|].
  split; [by eapply same_frame_trans|]. intros m Hm. rewrite E2, E1 by done. cbn. destruct (decide (m ∈ cpus)) as [Hin|Hin].
  - rewrite !bool_decide_eq_true_2; auto. by apply list_elem_of_further.
  - rewrite (bool_decide_eq_false_2 (m ∈ cpus)) by done. destruct (Z.eqb_spec m c) as [->|Hne].
    + by rewrite bool_decide_eq_true_2 by (apply list_elem_of_here).
    + by rewrite bool_decide_eq_false_2 by (by intros [?|?]%elem_of_cons).
Qed.

Lemma cpudl_init_ok base possible : cpumask possible ->
  exists cp, cpudl_init true true possible = Ok (0, Some cp, []) /\ cpudl_ok base possible cp /\ size cp = 0.
Proof.
  intros Hp. unfold cpudl_init. cbn [negb]. rewrite for_each_cpu_ok by done. cbn [res_bind].
  set (cp0 := mk_cpudl _ _ _). assert (Hl : len cp0 = NR_CPUS) by done.
  destruct (invalidate_ok (cpus_in (bit possible) 0 NR_CPUS) cp0) as (cp&->&(Fs&Ff&Fl)&E).
  { apply Forall_forall. intros c Hc. apply cpus_in_elem in Hc. rewrite Hl. lia. }
  cbn [res_bind]. exists cp. split; [done|]. split; [|done]. split.
  - rewrite Fs, Fl, Ff. split; [done|]. split; [done|]. apply cpumask_zeroed_ok.
  - rewrite Fs. exists (fun _ => (0, 0)). split; [|split; [|split]]; try (intros ?; unfold child; cbn; intros; lia).
    + split; cbn; try (intros; lia).
      * split; [done|]. rewrite Fl. done.
      * intros c Hc _. rewrite E by lia. unfold out_idx. destruct (bit possible c) eqn:B.
        -- rewrite bool_decide_eq_true_2; [done|]. apply cpus_in_elem. split; [lia|done].
        -- rewrite bool_decide_eq_false_2 by (rewrite cpus_in_elem, B; by intros []). unfold el.
           rewrite (nth_lookup_Some _ _ _ (mk_item 0 0 0)); [done|]. apply lookup_replicate_2. rewrite Fl, Hl in Hc. unfold nr_cpu_ids. lia.
Qed.

(** ** A concrete heap *)

Definition cpudl_boot : cpudl :=
  mk_cpudl 0 [0] [mk_item 0 0 (-1); mk_item 0 0 (-1); mk_item 0 0 (-1); mk_item 0 0 (-1)].

Definition cpudl_boot3 : cpudl :=
  match (cp <-- cpudl_set cpudl_boot 1 100; cp <-- cpudl_set cp 2 300; cpudl_set cp 3 200) with
  | Ok cp => cp
  | Fault _ => cpudl_boot
  end.

Definition every_cpu : list Z := [15].

Lemma every_cpu_ok : cpumask every_cpu.
Proof. by split; [repeat constructor|]. Qed.

Lemma cpudl_boot_ok : cpudl_ok 0 every_cpu cpudl_boot.
Proof.
  destruct (cpudl_init_ok 0 every_cpu every_cpu_ok) as (cp&E&H&_). vm_compute in E. injection E as <-. exact H.
Qed.

Lemma cpudl_boot3_ok : cpudl_ok 0 every_cpu cpudl_boot3.
Proof.
  destruct (cpudl_set_ok 0 every_cpu cpudl_boot 1 100) as (cp1&E1&(H1&_)); [apply cpudl_boot_ok|done|done|done|].
  destruct (cpudl_set_ok 0 every_cpu cp1 2 300) as (cp2&E2&(H2&_)); [done|done|done|done|].
  destruct (cpudl_set_ok 0 every_cpu cp2 3 200) as (cp3&E3&(H3&_)); [done|done|done|done|].
  unfold cpudl_boot3. rewrite E1. cbn [res_bind]. rewrite E2. cbn [res_bind]. by rewrite E3.
Qed.

Lemma cpudl_set_correct_witness :
  exists cp', cpudl_set cpudl_boot3 1 400 = Ok cp' /\ set_result 0 every_cpu cpudl_boot3 cp' 1 400
    (fun i => if idx (el cpudl_boot3 1) =? IDX_INVALID then negb (i =? 1) && bit (free_cpus cpudl_boot3) i
              else bit (free_cpus cpudl_boot3) i).
Proof. apply cpudl_set_correct; [apply cpudl_boot3_ok|done|done|done]. Defined.

Lemma cpudl_clear_correct_witness :
  exists cp', cpudl_clear cpudl_boot3 2 = Ok cp' /\ clear_result 0 every_cpu cpudl_boot3 cp' 2
    (fun i => if idx (el cpudl_boot3 2) =? IDX_INVALID then bit (free_cpus cpudl_boot3) i
              else (i =? 2) || bit (free_cpus cpudl_boot3) i).
Proof. apply cpudl_clear_correct; [apply cpudl_boot3_ok|done|done]. Defined.

Lemma cpudl_find_correct_witness :
  exists hit lm', cpudl_find cpudl_boot3 250 [6] (Some [0]) = Ok (hit, lm')
    /\ find_result 0 cpudl_boot3 250 [6] (Some [0]) hit lm'.
Proof.
  apply (cpudl_find_correct 0 every_cpu); [apply cpudl_boot3_ok|done|done|by split; [repeat constructor|]|].
  intros m [= <-]. by split; [repeat constructor|].
Defined.
