(* ===== verification/Siphash.v ===== *)
(** * SipHash (lib/siphash.c, include/linux/siphash.h)

    SipHash-2-4 and, on 64-bit, SipHash-1-3 under the name hsiphash.  The buffer
    hashes and the hashes of one to four integers are separate code; all are shown
    equal to one reference definition on the little-endian bytes of their input. *)

From S2P Require Import Prelude.
Local Open Scope res_scope.

(** ** The code *)

(** include/linux/bitops.h *)
Definition rol64 (word shift : Z) : Z :=
  Z.lor (u64 (Z.shiftl word (Z.land shift 63))) (Z.shiftr word (Z.land (u32 (- shift)) 63)).

Record siphash_key_t := mk_key { key0 : Z; key1 : Z }.

Definition siphash_key_is_zero (key : siphash_key_t) : bool := Z.lor (key0 key) (key1 key) =? 0.

(** The local variables [v0] to [v3]. *)
Record vars := mk_vars { v0 : Z; v1 : Z; v2 : Z; v3 : Z }.

Definition SIPHASH_CONST_0 : Z := 0x736f6d6570736575.
Definition SIPHASH_CONST_1 : Z := 0x646f72616e646f6d.
Definition SIPHASH_CONST_2 : Z := 0x6c7967656e657261.
Definition SIPHASH_CONST_3 : Z := 0x7465646279746573.

(** [SIPHASH_PERMUTATION(v0, v1, v2, v3)], one assignment after the other. *)
Definition SIPROUND (v : vars) : vars :=
  let '(mk_vars a b c d) := v in
  let a := u64 (a + b) in let b := rol64 b 13 in let b := Z.lxor b a in let a := rol64 a 32 in
  let c := u64 (c + d) in let d := rol64 d 16 in let d := Z.lxor d c in
  let a := u64 (a + d) in let d := rol64 d 21 in let d := Z.lxor d a in
  let c := u64 (c + b) in let b := rol64 b 17 in let b := Z.lxor b c in let c := rol64 c 32 in
  mk_vars a b c d.

(** [PREAMBLE(len)]: the variables and [b]. *)
Definition PREAMBLE (len : Z) (key : siphash_key_t) : vars * Z :=
  (mk_vars (Z.lxor SIPHASH_CONST_0 (key0 key)) (Z.lxor SIPHASH_CONST_1 (key1 key))
           (Z.lxor SIPHASH_CONST_2 (key0 key)) (Z.lxor SIPHASH_CONST_3 (key1 key)),
   u64 (Z.shiftl len 56)).

Definition xor_v0 (v : vars) (m : Z) : vars := mk_vars (Z.lxor (v0 v) m) (v1 v) (v2 v) (v3 v).
Definition xor_v2 (v : vars) (m : Z) : vars := mk_vars (v0 v) (v1 v) (Z.lxor (v2 v) m) (v3 v).
Definition xor_v3 (v : vars) (m : Z) : vars := mk_vars (v0 v) (v1 v) (v2 v) (Z.lxor (v3 v) m).

Definition POSTAMBLE (v : vars) (b : Z) : Z :=
  let v := SIPROUND (SIPROUND (xor_v3 v b)) in
  let v := xor_v2 (xor_v0 v b) 0xff in
  let v := SIPROUND (SIPROUND (SIPROUND (SIPROUND v))) in
  Z.lxor (Z.lxor (v0 v) (v1 v)) (Z.lxor (v2 v) (v3 v)).

Definition HPOSTAMBLE (v : vars) (b : Z) : Z :=
  let v := SIPROUND (xor_v3 v b) in
  let v := xor_v2 (xor_v0 v b) 0xff in
  let v := SIPROUND (SIPROUND (SIPROUND v)) in
  u32 (Z.lxor (Z.lxor (v0 v) (v1 v)) (Z.lxor (v2 v) (v3 v))).

(** A little-endian load of [n] bytes at offset [off] of the buffer
    ([le64_to_cpup], [get_unaligned_le64] and their 32 and 16 bit versions). *)
Fixpoint le_combine (l : list Z) : Z :=
  match l with
  | [] => 0
  | b :: l => b + 256 * le_combine l
  end.

Definition load_le (n : nat) (data : list Z) (off : nat) : res Z :=
  if (off + n <=? length data)%nat then Ok (le_combine (take n (drop off data))) else Fault OutOfBounds.

(** [v3 ^= m; SIPROUND; SIPROUND; v0 ^= m;] and its one-round version. *)
Definition absorb2 (v : vars) (m : Z) : vars := xor_v0 (SIPROUND (SIPROUND (xor_v3 v m))) m.
Definition absorb1 (v : vars) (m : Z) : vars := xor_v0 (SIPROUND (xor_v3 v m)) m.

(** [for (; data != end; data += sizeof(u64))] with its body [absorb]. *)
Fixpoint word_loop (fuel : nat) (absorb : vars -> Z -> vars) (buf : list Z) (data end_ : nat) (v : vars)
  : res (nat * vars) :=
  match fuel with
  | O => Fault NoFuel
  | S fuel =>
    if (data =? end_)%nat then Ok (data, v)
    else m <-- load_le 8 buf data; word_loop fuel absorb buf (data + 8) end_ (absorb v m)
  end.

(** The [switch (left)] with its fall-throughs; [p4] and [p2] are the pointers the
    32 and 16 bit loads use. *)
Definition tail_switch (left : Z) (buf : list Z) (end_ p4 p2 : nat) (b : Z) : res Z :=
  b <-- (if left =? 7 then x <-- array_get buf (end_ + 6); Ok (Z.lor b (u64 (Z.shiftl x 48))) else Ok b);
  b <-- (if 6 <=? left then x <-- array_get buf (end_ + 5); Ok (Z.lor b (u64 (Z.shiftl x 40))) else Ok b);
  b <-- (if 5 <=? left then x <-- array_get buf (end_ + 4); Ok (Z.lor b (u64 (Z.shiftl x 32))) else Ok b);
  if 4 <=? left then x <-- load_le 4 buf p4; Ok (Z.lor b x)
  else
    b <-- (if left =? 3 then x <-- array_get buf (end_ + 2); Ok (Z.lor b (u64 (Z.shiftl x 16))) else Ok b);
    if 2 <=? left then x <-- load_le 2 buf p2; Ok (Z.lor b x)
    else if left =? 1 then x <-- array_get buf end_; Ok (Z.lor b x)
    else Ok b.

(** The four buffer hashes; the aligned ones load the tail through [data], the
    unaligned ones through [end]. *)
Definition buffer_hash (absorb : vars -> Z -> vars) (finish : vars -> Z -> Z) (aligned : bool)
  (buf : list Z) (key : siphash_key_t) : res Z :=
  let len := Z.of_nat (length buf) in
  let end_ := Z.to_nat (len - len mod 8) in
  let left := Z.land len 7 in
  let '(v, b) := PREAMBLE len key in
  '(data, v) <-- word_loop (S (length buf)) absorb buf 0 end_ v;
  let p := if aligned then data else end_ in
  b <-- tail_switch left buf end_ p p b;
  Ok (finish v b).

Definition __siphash_aligned : list Z -> siphash_key_t -> res Z := buffer_hash absorb2 POSTAMBLE true.
Definition __siphash_unaligned : list Z -> siphash_key_t -> res Z := buffer_hash absorb2 POSTAMBLE false.
Definition __hsiphash_aligned : list Z -> siphash_key_t -> res Z := buffer_hash absorb1 HPOSTAMBLE true.
Definition __hsiphash_unaligned : list Z -> siphash_key_t -> res Z := buffer_hash absorb1 HPOSTAMBLE false.

Definition siphash_1u64 (first : Z) (key : siphash_key_t) : Z :=
  let '(v, b) := PREAMBLE 8 key in POSTAMBLE (absorb2 v first) b.

Definition siphash_2u64 (first second : Z) (key : siphash_key_t) : Z :=
  let '(v, b) := PREAMBLE 16 key in POSTAMBLE (absorb2 (absorb2 v first) second) b.

Definition siphash_3u64 (first second third : Z) (key : siphash_key_t) : Z :=
  let '(v, b) := PREAMBLE 24 key in POSTAMBLE (absorb2 (absorb2 (absorb2 v first) second) third) b.

Definition siphash_4u64 (first second third forth : Z) (key : siphash_key_t) : Z :=
  let '(v, b) := PREAMBLE 32 key in
  POSTAMBLE (absorb2 (absorb2 (absorb2 (absorb2 v first) second) third) forth) b.

Definition siphash_1u32 (first : Z) (key : siphash_key_t) : Z :=
  let '(v, b) := PREAMBLE 4 key in POSTAMBLE v (Z.lor b first).

(** [(u64)second << 32 | first] *)
Definition combined (first second : Z) : Z := Z.lor (u64 (Z.shiftl second 32)) first.

Definition siphash_3u32 (first second third : Z) (key : siphash_key_t) : Z :=
  let '(v, b) := PREAMBLE 12 key in POSTAMBLE (absorb2 v (combined first second)) (Z.lor b third).

Definition siphash_2u32 (a b : Z) (key : siphash_key_t) : Z := siphash_1u64 (combined a b) key.
Definition siphash_4u32 (a b c d : Z) (key : siphash_key_t) : Z := siphash_2u64 (combined a b) (combined c d) key.

Definition hsiphash_1u32 (first : Z) (key : siphash_key_t) : Z :=
  let '(v, b) := PREAMBLE 4 key in HPOSTAMBLE v (Z.lor b first).

Definition hsiphash_2u32 (first second : Z) (key : siphash_key_t) : Z :=
  let '(v, b) := PREAMBLE 8 key in HPOSTAMBLE (absorb1 v (combined first second)) b.

Definition hsiphash_3u32 (first second third : Z) (key : siphash_key_t) : Z :=
  let '(v, b) := PREAMBLE 12 key in HPOSTAMBLE (absorb1 v (combined first second)) (Z.lor b third).

Definition hsiphash_4u32 (first second third forth : Z) (key : siphash_key_t) : Z :=
  let '(v, b) := PREAMBLE 16 key in
  HPOSTAMBLE (absorb1 (absorb1 v (combined first second)) (combined third forth)) b.

(** [___siphash_aligned]; [const] tells whether the compiler knows the length. *)
Definition ___siphash_aligned (const : bool) (buf : list Z) (key : siphash_key_t) : res Z :=
  let len := Z.of_nat (length buf) in
  if const && (len =? 4) then x <-- load_le 4 buf 0; Ok (siphash_1u32 x key)
  else if const && (len =? 8) then x <-- load_le 8 buf 0; Ok (siphash_1u64 x key)
  else if const && (len =? 16) then
    x <-- load_le 8 buf 0; y <-- load_le 8 buf 8; Ok (siphash_2u64 x y key)
  else if const && (len =? 24) then
    x <-- load_le 8 buf 0; y <-- load_le 8 buf 8; z <-- load_le 8 buf 16; Ok (siphash_3u64 x y z key)
  else if const && (len =? 32) then
    x <-- load_le 8 buf 0; y <-- load_le 8 buf 8; z <-- load_le 8 buf 16; w <-- load_le 8 buf 24;
    Ok (siphash_4u64 x y z w key)
  else __siphash_aligned buf key.

Definition siphash (const : bool) (buf : list Z) (key : siphash_key_t) : res Z := ___siphash_aligned const buf key.

Definition ___hsiphash_aligned (const : bool) (buf : list Z) (key : siphash_key_t) : res Z :=
  let len := Z.of_nat (length buf) in
  if const && (len =? 4) then x <-- load_le 4 buf 0; Ok (hsiphash_1u32 x key)
  else if const && (len =? 8) then
    x <-- load_le 4 buf 0; y <-- load_le 4 buf 4; Ok (hsiphash_2u32 x y key)
  else if const && (len =? 12) then
    x <-- load_le 4 buf 0; y <-- load_le 4 buf 4; z <-- load_le 4 buf 8; Ok (hsiphash_3u32 x y z key)
  else if const && (len =? 16) then
    x <-- load_le 4 buf 0; y <-- load_le 4 buf 4; z <-- load_le 4 buf 8; w <-- load_le 4 buf 12;
    Ok (hsiphash_4u32 x y z w key)
  else __hsiphash_aligned buf key.

Definition hsiphash (const : bool) (buf : list Z) (key : siphash_key_t) : res Z := ___hsiphash_aligned const buf key.

(** ** The reference definition

    SipHash-c-d on a byte string: full little-endian words are absorbed with [c]
    rounds each, then a last word made of the remaining bytes and the length, then
    [d] rounds close the state. *)

Definition sip_compress (c : nat) (v : vars) (m : Z) : vars := xor_v0 (Nat.iter c SIPROUND (xor_v3 v m)) m.

Fixpoint sip_absorb (n : nat) (c : nat) (msg : list Z) (v : vars) : vars :=
  match n with
  | O => v
  | S n => sip_absorb n c (drop 8 msg) (sip_compress c v (le_combine (take 8 msg)))
  end.

Definition sip_last (msg : list Z) : Z :=
  let len := Z.of_nat (length msg) in
  le_combine (drop (8 * (length msg / 8)) msg) + 2 ^ 56 * (len mod 256).

Definition sip_ref (c d : nat) (msg : list Z) (key : siphash_key_t) : Z :=
  let v := mk_vars (Z.lxor SIPHASH_CONST_0 (key0 key)) (Z.lxor SIPHASH_CONST_1 (key1 key))
                   (Z.lxor SIPHASH_CONST_2 (key0 key)) (Z.lxor SIPHASH_CONST_3 (key1 key)) in
  let v := sip_absorb (length msg / 8) c msg v in
  let v := sip_compress c v (sip_last msg) in
  let v := Nat.iter d SIPROUND (xor_v2 v 0xff) in
  Z.lxor (Z.lxor (v0 v) (v1 v)) (Z.lxor (v2 v) (v3 v)).

(** The test vector of the SipHash paper: key 00..0f, message 00..0e. *)
Example siphash_paper_vector :
  __siphash_aligned (seqZ 0 15) (mk_key 0x0706050403020100 0x0f0e0d0c0b0a0908) = Ok 0xa129ca6149be45e5.
Proof. vm_compute. reflexivity. Qed.

(** ** Little-endian bytes *)

Definition bytes (l : list Z) : Prop := Forall (fun b => 0 <= b < 256) l.

Fixpoint le_split (n : nat) (w : Z) : list Z :=
  match n with
  | O => []
  | S n => w mod 256 :: le_split n (w / 256)
  end.

Lemma le_split_length n w : length (le_split n w) = n.
Proof. revert w. induction n as [|n IH]; intros w; simpl; auto. Qed.

Lemma le_split_bytes n w : bytes (le_split n w).
Proof.
  revert w. induction n as [|n IH]; intros w; simpl; constructor; [|apply IH]. apply Z.mod_pos_bound. lia.
Qed.

Lemma le_combine_range l : bytes l -> 0 <= le_combine l < 256 ^ Z.of_nat (length l).
Proof.
  induction 1 as [|b l Hb _ IH]; cbn [le_combine length]; [lia|]. rewrite Nat2Z.inj_succ, Z.pow_succ_r by lia. lia.
Qed.

Lemma le_combine_app l1 l2 : le_combine (l1 ++ l2) = le_combine l1 + 256 ^ Z.of_nat (length l1) * le_combine l2.
Proof.
  induction l1 as [|b l1 IH]; cbn [le_combine app length]; [lia|]. rewrite IH, Nat2Z.inj_succ, Z.pow_succ_r by lia. lia.
Qed.

Lemma le_combine_split n w : 0 <= w < 256 ^ Z.of_nat n -> le_combine (le_split n w) = w.
Proof.
  revert w. induction n as [|n IH]; intros w Hw; cbn [le_combine le_split]; [simpl in Hw; lia|].
  rewrite Nat2Z.inj_succ, Z.pow_succ_r in Hw by lia. rewrite IH; [pose proof (Z.div_mod w 256); lia|].
  split; [apply Z.div_pos; lia|]. apply Z.div_lt_upper_bound; lia.
Qed.

Lemma shl_small x k m : 0 <= x < 2 ^ m -> 0 <= k -> 0 <= m -> m + k <= 64 -> u64 (Z.shiftl x k) = x * 2 ^ k.
Proof.
  intros Hx Hk Hm Hs. rewrite Z.shiftl_mul_pow2 by lia. apply u64_small.
  assert (2 ^ m * 2 ^ k <= 2 ^ 64) by (rewrite <- Z.pow_add_r by lia; apply Z.pow_le_mono_r; lia).
  assert (0 < 2 ^ k) by (apply Z.pow_pos_nonneg; lia). change (2 ^ 64) with 18446744073709551616 in *. nia.
Qed.

Lemma load_le_drop n buf off off' : (off <= length buf)%nat ->
  load_le n buf (off + off') = load_le n (drop off buf) off'.
Proof.
  intros H. unfold load_le. rewrite length_drop, drop_drop.
  by destruct (Nat.leb_spec (off + off' + n) (length buf)), (Nat.leb_spec (off' + n) (length buf - off)); [|lia|lia|].
Qed.

Lemma array_get_drop {A} (buf : list A) off i : array_get buf (off + i) = array_get (drop off buf) i.
Proof. unfold array_get. by rewrite lookup_drop. Qed.

(** ** The buffer hashes *)

Lemma word_loop_ok fuel c absorb buf n data v :
  (forall v m, absorb v m = sip_compress c v m) -> (data + 8 * n <= length buf)%nat -> (n < fuel)%nat ->
  word_loop fuel absorb buf data (data + 8 * n) v = Ok ((data + 8 * n)%nat, sip_absorb n c (drop data buf) v).
Proof.
  intros Ha. revert data n v. induction fuel as [|fuel IH]; intros data n v Hl Hf; [lia|]. cbn [word_loop].
  destruct n as [|n]; [by rewrite Nat.mul_0_r, Nat.add_0_r, Nat.eqb_refl|].
  destruct (Nat.eqb_spec data (data + 8 * S n)); [lia|]. unfold load_le. destruct (Nat.leb_spec (data + 8) (length buf)); [|lia].
  cbn [res_bind]. replace (data + 8 * S n)%nat with (data + 8 + 8 * n)%nat by lia. rewrite IH by lia.
  cbn [sip_absorb]. by rewrite Ha, drop_drop.
Qed.

(** Evaluate the tests on constants. *)
Ltac eval_tests :=
  repeat match goal with
  | |- context [Z.of_nat ?n] => let v := eval vm_compute in (Z.of_nat n) in change (Z.of_nat n) with v
  end;
  repeat match goal with
  | |- context [?a =? ?b] => let v := eval vm_compute in (a =? b) in change (a =? b) with v
  | |- context [?a <=? ?b] => let v := eval vm_compute in (a <=? b) in change (a <=? b) with v
  end.

(** Turn every or of disjoint bit fields into a sum, innermost first. *)
Ltac lor_adds :=
  repeat change (2 ^ 56) with 72057594037927936; repeat change (2 ^ 48) with 281474976710656;
  repeat change (2 ^ 40) with 1099511627776; repeat change (2 ^ 32) with 4294967296;
  repeat change (2 ^ 16) with 65536;
  repeat match goal with
  | |- context [Z.lor ?X ?y] =>
    lazymatch X with
    | context [Z.lor _ _] => fail
    | _ => first [ rewrite (lor_add 56 X y) by (change (2 ^ 56) with 72057594037927936; Z.div_mod_to_equations; lia)
                 | rewrite (lor_add 48 X y) by (change (2 ^ 48) with 281474976710656; Z.div_mod_to_equations; lia)
                 | rewrite (lor_add 40 X y) by (change (2 ^ 40) with 1099511627776; Z.div_mod_to_equations; lia)
                 | rewrite (lor_add 32 X y) by (change (2 ^ 32) with 4294967296; Z.div_mod_to_equations; lia)
                 | rewrite (lor_add 16 X y) by (change (2 ^ 16) with 65536; Z.div_mod_to_equations; lia) ]
    end
  end.

(** The switch adds the remaining bytes to the word that holds the length. *)
Lemma tail_switch_ok buf end_ q :
  bytes buf -> (end_ <= length buf)%nat -> (length buf - end_ < 8)%nat ->
  tail_switch (Z.of_nat (length buf - end_)) buf end_ end_ end_ (q * 2 ^ 56)
  = Ok (le_combine (drop end_ buf) + 2 ^ 56 * q).
Proof.
  intros Hb Hle Hlt. unfold tail_switch. rewrite !array_get_drop.
  replace (array_get buf end_) with (array_get (drop end_ buf) 0) by (rewrite <- array_get_drop; by rewrite Nat.add_0_r).
  replace (load_le 4 buf end_) with (load_le 4 (drop end_ buf) 0) by (rewrite <- load_le_drop by done; by rewrite Nat.add_0_r).
  replace (load_le 2 buf end_) with (load_le 2 (drop end_ buf) 0) by (rewrite <- load_le_drop by done; by rewrite Nat.add_0_r).
  rewrite <- length_drop in *. assert (Ht : bytes (drop end_ buf)) by (by apply Forall_drop).
  remember (drop end_ buf) as t eqn:Et. clear Et Hb Hle buf end_.
  assert (Hs : forall x k, 0 <= x < 256 -> 0 <= k <= 56 -> u64 (Z.shiftl x k) = x * 2 ^ k).
  { intros x k Hx Hk. apply (shl_small x k 8); lia. }
  do 8 (try (destruct t as [|? t]; [|apply Forall_cons in Ht as [? Ht]]));
    try (exfalso; simpl in Hlt; lia);
    cbn [length]; unfold array_get, load_le; cbn -[Z.lor Z.shiftl u64 Z.pow Z.mul Z.add]; rewrite ?Hs by lia;
    eval_tests; cbn [res_bind]; lor_adds; f_equal; lia.
Qed.

(** The closing rounds of SipHash-c-d after the last word. *)
Definition sip_out (d : nat) (v : vars) : Z :=
  let v := Nat.iter d SIPROUND (xor_v2 v 0xff) in
  Z.lxor (Z.lxor (v0 v) (v1 v)) (Z.lxor (v2 v) (v3 v)).

Local Opaque SIPROUND.

Lemma absorb2_ok v m : absorb2 v m = sip_compress 2 v m.
Proof. reflexivity. Qed.

Lemma absorb1_ok v m : absorb1 v m = sip_compress 1 v m.
Proof. reflexivity. Qed.

Lemma POSTAMBLE_ok v b : POSTAMBLE v b = sip_out 4 (sip_compress 2 v b).
Proof. reflexivity. Qed.

Lemma HPOSTAMBLE_ok v b : HPOSTAMBLE v b = u32 (sip_out 3 (sip_compress 1 v b)).
Proof. reflexivity. Qed.

Lemma length_word len : u64 (Z.shiftl len 56) = len mod 256 * 2 ^ 56.
Proof.
  rewrite Z.shiftl_mul_pow2 by lia. unfold u64. change 18446744073709551616 with (256 * 2 ^ 56). by rewrite Zmult_mod_distr_r.
Qed.

Lemma buffer_split (buf : list Z) : let len := Z.of_nat (length buf) in
  Z.to_nat (len - len mod 8) = (8 * (length buf / 8))%nat
  /\ Z.land len 7 = Z.of_nat (length buf - 8 * (length buf / 8)) /\ (length buf - 8 * (length buf / 8) < 8)%nat
  /\ (8 * (length buf / 8) <= length buf)%nat.
Proof.
  intros len. pose proof (Nat.div_mod_eq (length buf) 8) as E. pose proof (Nat.mod_upper_bound (length buf) 8 ltac:(lia)) as B.
  assert (Em : len mod 8 = Z.of_nat (length buf mod 8)) by (unfold len; by rewrite Nat2Z.inj_mod).
  change 7 with (Z.ones 3). rewrite Z.land_ones by lia. change (2 ^ 3) with 8. rewrite Em. unfold len. lia.
Qed.

Lemma buffer_hash_ok c d absorb finish (g : Z -> Z) aligned buf key :
  (forall v m, absorb v m = sip_compress c v m) ->
  (forall v b, finish v b = g (sip_out d (sip_compress c v b))) -> bytes buf ->
  buffer_hash absorb finish aligned buf key = Ok (g (sip_ref c d buf key)).
Proof.
  intros Ha Hf Hb. destruct (buffer_split buf) as (E1&E2&E3&E4). unfold buffer_hash, PREAMBLE. rewrite E1, E2, length_word.
  rewrite (word_loop_ok _ c absorb buf (length buf / 8) 0) by (done || lia). cbn [res_bind]. rewrite Nat.add_0_l.
  replace (if aligned then _ else _) with (8 * (length buf / 8))%nat by (by destruct aligned).
  rewrite tail_switch_ok by done. cbn [res_bind]. by rewrite Hf.
Qed.

(** ** The integer hashes *)

Lemma combined_split a b : 0 <= a < 2 ^ 32 -> 0 <= b < 2 ^ 32 ->
  combined a b = le_combine (le_split 4 a ++ le_split 4 b) /\ combined a b = a + 2 ^ 32 * b.
Proof.
  intros Ha Hb. assert (E : combined a b = a + 2 ^ 32 * b).
  { unfold combined. rewrite (shl_small b 32 32) by lia. rewrite lor_low by lia. lia. }
  split; [|done]. rewrite E, le_combine_app, le_split_length, !le_combine_split by done. done.
Qed.

Lemma combined_range a b : 0 <= a < 2 ^ 32 -> 0 <= b < 2 ^ 32 -> 0 <= combined a b < 2 ^ 64.
Proof. intros Ha Hb. destruct (combined_split a b Ha Hb) as [_ ->]. change (2 ^ 64) with (2 ^ 32 * 2 ^ 32). nia. Qed.

(** Hashing a list of full words and a tail of at most seven bytes. *)
Lemma sip_ref_words c d (ws : list Z) (tail : list Z) key :
  Forall (fun w => 0 <= w < 2 ^ 64) ws -> (length tail < 8)%nat ->
  let msg := concat (map (le_split 8) ws) ++ tail in
  sip_ref c d msg key
  = sip_out d (sip_compress c
      (foldl (sip_compress c) (PREAMBLE 0 key).1 ws) (le_combine tail + 2 ^ 56 * (Z.of_nat (length msg) mod 256))).
Proof.
  intros Hws Ht msg. assert (L : length msg = (8 * length ws + length tail)%nat).
  { unfold msg. rewrite length_app. f_equal. clear. induction ws as [|w ws IH]; [done|].
    cbn [map concat length]. rewrite length_app, le_split_length, IH. lia. }
  assert (Ed : (length msg / 8)%nat = length ws).
  { rewrite L. symmetry. apply (Nat.div_unique _ 8 _ (length tail)); lia. }
  assert (Habs : forall v, sip_absorb (length ws) c msg v = foldl (sip_compress c) v ws).
  { unfold msg. clear - Hws. induction Hws as [|w ws Hw _ IH]; intros v; [done|]. cbn [length sip_absorb map concat foldl].
    rewrite <- app_assoc. rewrite drop_app_length' by (by rewrite le_split_length).
    rewrite take_app_length' by (by rewrite le_split_length). rewrite le_combine_split by done. apply IH. }
  unfold sip_ref. cbv zeta. rewrite Ed, Habs. unfold sip_last. rewrite Ed. unfold sip_out. repeat f_equal; unfold msg;
    rewrite drop_app_length'; try done; clear; induction ws as [|w ws IH]; try done;
    cbn [map concat length]; rewrite length_app, le_split_length, <- IH; lia.
Qed.

Local Opaque sip_out sip_compress.

Definition le_words (ws : list Z) : list Z := concat (map (le_split 8) ws).
Definition le_halves (ws : list Z) : list Z := concat (map (le_split 4) ws).

Lemma le_split_app n m a b : 0 <= a < 256 ^ Z.of_nat n ->
  le_split n a ++ le_split m b = le_split (n + m) (a + 256 ^ Z.of_nat n * b).
Proof.
  revert a. induction n as [|n IH]; intros a Ha.
  { simpl in Ha. assert (a = 0) as -> by lia. cbn [le_split app Nat.add]. f_equal. simpl Z.of_nat. lia. }
  rewrite Nat2Z.inj_succ, Z.pow_succ_r in * by lia. cbn [le_split app Nat.add].
  replace (a + 256 * 256 ^ Z.of_nat n * b) with (a + 256 ^ Z.of_nat n * b * 256) by lia.
  rewrite Z.mod_add, Z.div_add by lia. rewrite IH; [done|]. split; [apply Z.div_pos; lia|]. apply Z.div_lt_upper_bound; lia.
Qed.

Lemma halves_word a b : 0 <= a < 2 ^ 32 -> 0 <= b < 2 ^ 32 -> le_split 4 a ++ le_split 4 b = le_split 8 (combined a b).
Proof.
  intros Ha Hb. rewrite (le_split_app 4 4) by done. destruct (combined_split a b Ha Hb) as [_ ->]. done.
Qed.

(** The three shapes of the integer hashes: full words, one half word, two half
    words joined and one left. *)
Lemma hash_words c d ws key : Forall (fun w => 0 <= w < 2 ^ 64) ws -> (length ws < 32)%nat ->
  sip_ref c d (le_words ws) key
  = sip_out d (sip_compress c (foldl (sip_compress c) (PREAMBLE 0 key).1 ws) (u64 (Z.shiftl (8 * Z.of_nat (length ws)) 56))).
Proof.
  intros Hws Hl. pose proof (sip_ref_words c d ws [] key Hws ltac:(simpl; lia)) as E. rewrite app_nil_r in E.
  unfold le_words. cbv zeta in E. rewrite E. do 2 f_equal. rewrite length_word. cbn [le_combine].
  assert (L : length (concat (map (le_split 8) ws)) = (8 * length ws)%nat).
  { clear. induction ws as [|w ws IH]; [done|]. cbn [map concat length]. rewrite length_app, le_split_length, IH. lia. }
  rewrite L. replace (Z.of_nat (8 * length ws)) with (8 * Z.of_nat (length ws)) by lia. lia.
Qed.

Lemma hash_words_half c d ws h key : Forall (fun w => 0 <= w < 2 ^ 64) ws -> (length ws < 31)%nat -> 0 <= h < 2 ^ 32 ->
  sip_ref c d (le_words ws ++ le_split 4 h) key
  = sip_out d (sip_compress c (foldl (sip_compress c) (PREAMBLE 0 key).1 ws)
      (Z.lor (u64 (Z.shiftl (8 * Z.of_nat (length ws) + 4) 56)) h)).
Proof.
  intros Hws Hl Hh. pose proof (sip_ref_words c d ws (le_split 4 h) key Hws ltac:(rewrite le_split_length; lia)) as E.
  unfold le_words. cbv zeta in E. rewrite E. do 2 f_equal. rewrite length_word, le_combine_split by done.
  assert (L : length (concat (map (le_split 8) ws) ++ le_split 4 h) = (8 * length ws + 4)%nat).
  { rewrite length_app, le_split_length. f_equal. clear. induction ws as [|w ws IH]; [done|].
    cbn [map concat length]. rewrite length_app, le_split_length, IH. lia. }
  rewrite L. replace (Z.of_nat (8 * length ws + 4)) with (8 * Z.of_nat (length ws) + 4) by lia.
  rewrite lor_low by lia. lia.
Qed.

Lemma le_halves_2 a b : 0 <= a < 2 ^ 32 -> 0 <= b < 2 ^ 32 -> le_halves [a; b] = le_words [combined a b].
Proof. intros. unfold le_halves, le_words. cbn [map concat]. rewrite app_assoc, halves_word by done. by rewrite app_nil_r. Qed.

Lemma le_halves_3 a b c : 0 <= a < 2 ^ 32 -> 0 <= b < 2 ^ 32 ->
  le_halves [a; b; c] = le_words [combined a b] ++ le_split 4 c.
Proof.
  intros. unfold le_halves, le_words. cbn [map concat]. rewrite app_assoc, halves_word by done. by rewrite !app_nil_r.
Qed.

Lemma le_halves_4 a b c d : 0 <= a < 2 ^ 32 -> 0 <= b < 2 ^ 32 -> 0 <= c < 2 ^ 32 -> 0 <= d < 2 ^ 32 ->
  le_halves [a; b; c; d] = le_words [combined a b; combined c d].
Proof.
  intros. unfold le_halves, le_words. cbn [map concat]. rewrite app_assoc, halves_word by done.
  rewrite (app_assoc (le_split 4 c)), halves_word by done. by rewrite !app_nil_r.
Qed.

Ltac word_list := repeat first [done | apply List.Forall_cons; [lia|] | simpl; lia].

Lemma siphash_integers_ok a b c d key :
  (0 <= a < 2 ^ 64 -> 0 <= b < 2 ^ 64 -> 0 <= c < 2 ^ 64 -> 0 <= d < 2 ^ 64 ->
   siphash_1u64 a key = sip_ref 2 4 (le_words [a]) key
   /\ siphash_2u64 a b key = sip_ref 2 4 (le_words [a; b]) key
   /\ siphash_3u64 a b c key = sip_ref 2 4 (le_words [a; b; c]) key
   /\ siphash_4u64 a b c d key = sip_ref 2 4 (le_words [a; b; c; d]) key)
  /\ (0 <= a < 2 ^ 32 -> 0 <= b < 2 ^ 32 -> 0 <= c < 2 ^ 32 -> 0 <= d < 2 ^ 32 ->
   siphash_1u32 a key = sip_ref 2 4 (le_halves [a]) key
   /\ siphash_2u32 a b key = sip_ref 2 4 (le_halves [a; b]) key
   /\ siphash_3u32 a b c key = sip_ref 2 4 (le_halves [a; b; c]) key
   /\ siphash_4u32 a b c d key = sip_ref 2 4 (le_halves [a; b; c; d]) key
   /\ hsiphash_1u32 a key = u32 (sip_ref 1 3 (le_halves [a]) key)
   /\ hsiphash_2u32 a b key = u32 (sip_ref 1 3 (le_halves [a; b]) key)
   /\ hsiphash_3u32 a b c key = u32 (sip_ref 1 3 (le_halves [a; b; c]) key)
   /\ hsiphash_4u32 a b c d key = u32 (sip_ref 1 3 (le_halves [a; b; c; d]) key)).
Proof.
  split; intros Ha Hb Hc Hd.
  - split_and!; rewrite hash_words by word_list;
      unfold siphash_1u64, siphash_2u64, siphash_3u64, siphash_4u64, PREAMBLE; cbv beta iota;
      rewrite POSTAMBLE_ok; repeat rewrite absorb2_ok; reflexivity.
  - pose proof (combined_range a b Ha Hb). pose proof (combined_range c d Hc Hd).
    rewrite !le_halves_2, !le_halves_3, !le_halves_4 by done.
    change (le_halves [a]) with (le_words [] ++ le_split 4 a ++ []). rewrite app_nil_r.
    unfold siphash_2u32, siphash_4u32, siphash_1u64, siphash_2u64, siphash_1u32, siphash_3u32, hsiphash_1u32, hsiphash_2u32,
      hsiphash_3u32, hsiphash_4u32, PREAMBLE. cbv beta iota.
    rewrite !POSTAMBLE_ok, !HPOSTAMBLE_ok. repeat rewrite absorb2_ok. repeat rewrite absorb1_ok.
    split_and!; rewrite ?hash_words_half, ?hash_words by word_list; reflexivity.
Qed.

(** the hashes of one to four 64-bit or 32-bit integers are the same hashes of the
    integers' little-endian bytes. *)
Theorem siphash_integers_correct a b c d key :
  (0 <= a < 2 ^ 64 -> 0 <= b < 2 ^ 64 -> 0 <= c < 2 ^ 64 -> 0 <= d < 2 ^ 64 ->
   siphash_1u64 a key = sip_ref 2 4 (le_words [a]) key
   /\ siphash_2u64 a b key = sip_ref 2 4 (le_words [a; b]) key
   /\ siphash_3u64 a b c key = sip_ref 2 4 (le_words [a; b; c]) key
   /\ siphash_4u64 a b c d key = sip_ref 2 4 (le_words [a; b; c; d]) key)
  /\ (0 <= a < 2 ^ 32 -> 0 <= b < 2 ^ 32 -> 0 <= c < 2 ^ 32 -> 0 <= d < 2 ^ 32 ->
   siphash_1u32 a key = sip_ref 2 4 (le_halves [a]) key
   /\ siphash_2u32 a b key = sip_ref 2 4 (le_halves [a; b]) key
   /\ siphash_3u32 a b c key = sip_ref 2 4 (le_halves [a; b; c]) key
   /\ siphash_4u32 a b c d key = sip_ref 2 4 (le_halves [a; b; c; d]) key
   /\ hsiphash_1u32 a key = u32 (sip_ref 1 3 (le_halves [a]) key)
   /\ hsiphash_2u32 a b key = u32 (sip_ref 1 3 (le_halves [a; b]) key)
   /\ hsiphash_3u32 a b c key = u32 (sip_ref 1 3 (le_halves [a; b; c]) key)
   /\ hsiphash_4u32 a b c d key = u32 (sip_ref 1 3 (le_halves [a; b; c; d]) key)).
Proof. apply siphash_integers_ok. Qed.

Lemma siphash_integers_correct_witness :
  (0 <= 1 < 2 ^ 64 -> 0 <= 2 < 2 ^ 64 -> 0 <= 3 < 2 ^ 64 -> 0 <= 4 < 2 ^ 64 ->
   siphash_1u64 1 (mk_key 5 6) = sip_ref 2 4 (le_words [1]) (mk_key 5 6)
   /\ siphash_2u64 1 2 (mk_key 5 6) = sip_ref 2 4 (le_words [1; 2]) (mk_key 5 6)
   /\ siphash_3u64 1 2 3 (mk_key 5 6) = sip_ref 2 4 (le_words [1; 2; 3]) (mk_key 5 6)
   /\ siphash_4u64 1 2 3 4 (mk_key 5 6) = sip_ref 2 4 (le_words [1; 2; 3; 4]) (mk_key 5 6))
  /\ siphash_1u32 1 (mk_key 5 6) = sip_ref 2 4 (le_halves [1]) (mk_key 5 6).
Proof.
  destruct (siphash_integers_correct 1 2 3 4 (mk_key 5 6)) as [H1 H2]. split; [exact H1|].
  destruct H2 as [H _]; [lia..|exact H].
Defined.

(** ** The dispatch on a known length *)

Lemma le_split_combine l : bytes l -> le_split (length l) (le_combine l) = l.
Proof.
  induction 1 as [|b l Hb _ IH]; cbn [length le_split le_combine]; [done|].
  replace (b + 256 * le_combine l) with (b + le_combine l * 256) by lia.
  rewrite Z.mod_add, Z.div_add, Z.mod_small, Z.div_small by lia. by rewrite Z.add_0_l, IH.
Qed.

(** A buffer of [m] chunks of [n] bytes, read chunk by chunk. *)
Lemma load_le_chunk n buf off : bytes buf -> (off + n <= length buf)%nat ->
  exists x, load_le n buf off = Ok x /\ 0 <= x < 256 ^ Z.of_nat n /\ le_split n x = take n (drop off buf).
Proof.
  intros Hb Hl. unfold load_le. destruct (Nat.leb_spec (off + n) (length buf)); [|lia].
  eexists. split; [done|]. assert (Hc : bytes (take n (drop off buf))) by (by apply Forall_take, Forall_drop).
  assert (Ln : length (take n (drop off buf)) = n) by (rewrite length_take, length_drop; lia).
  pose proof (le_combine_range _ Hc) as R. pose proof (le_split_combine _ Hc) as S. by rewrite Ln in R, S.
Qed.

(** Consecutive chunks put together are the buffer. *)
Lemma chunk_next n (buf : list Z) off off' : off' = (off + n)%nat ->
  take n (drop off buf) ++ drop off' buf = drop off buf.
Proof. intros ->. rewrite <- drop_drop. apply take_drop. Qed.

(** Reading a buffer whose length is known, [n] bytes at a time. *)
Ltac read_chunk n off :=
  let x := fresh "x" in let E := fresh "E" in let R := fresh "R" in let S := fresh "S" in
  match goal with Hb : bytes ?buf |- _ =>
    destruct (load_le_chunk n buf off Hb ltac:(lia)) as (x&E&R&S); rewrite E; cbn [res_bind]
  end.

Lemma drop_all (buf : list Z) n : length buf = n -> drop n buf = [].
Proof. intros <-. apply drop_ge. done. Qed.

(** [buf] is the concatenation of the chunks just read, [n] bytes each. *)
Ltac join_chunks n k1 k2 k3 k4 :=
  match goal with |- _ = ?buf =>
    unfold le_words, le_halves; cbn [map concat];
    repeat match goal with S : le_split _ _ = _ |- _ => rewrite S; clear S end;
    rewrite <- (drop_all buf (length buf)) by done;
    try rewrite (chunk_next n buf k4) by lia; try rewrite (chunk_next n buf k3) by lia;
    try rewrite (chunk_next n buf k2) by lia; rewrite (chunk_next n buf k1) by lia; apply drop_0
  end.

Lemma siphash_dispatch const buf key : bytes buf -> siphash const buf key = Ok (sip_ref 2 4 buf key).
Proof.
  intros Hb. unfold siphash, ___siphash_aligned.
  assert (Hgen : __siphash_aligned buf key = Ok (sip_ref 2 4 buf key)).
  { apply (buffer_hash_ok 2 4 absorb2 POSTAMBLE (fun x => x)); [apply absorb2_ok|apply POSTAMBLE_ok|done]. }
  destruct const; [|done]. cbn [andb].
  destruct (Z.eqb_spec (Z.of_nat (length buf)) 4) as [L|_]; [|destruct (Z.eqb_spec (Z.of_nat (length buf)) 8) as [L|_];
    [|destruct (Z.eqb_spec (Z.of_nat (length buf)) 16) as [L|_]; [|destruct (Z.eqb_spec (Z.of_nat (length buf)) 24) as [L|_];
    [|destruct (Z.eqb_spec (Z.of_nat (length buf)) 32) as [L|_]; [|done]]]]].
  - read_chunk 4%nat 0%nat. destruct (siphash_integers_ok x 0 0 0 key) as [_ H]. destruct H as (->&_); [done..|].
    do 2 f_equal. join_chunks 4%nat 0%nat 4%nat 8%nat 12%nat.
  - read_chunk 8%nat 0%nat. destruct (siphash_integers_ok x 0 0 0 key) as [H _]. destruct H as (->&_); [done..|].
    do 2 f_equal. join_chunks 8%nat 0%nat 8%nat 16%nat 24%nat.
  - read_chunk 8%nat 0%nat. read_chunk 8%nat 8%nat. destruct (siphash_integers_ok x x0 0 0 key) as [H _].
    destruct H as (_&->&_); [done..|]. do 2 f_equal. join_chunks 8%nat 0%nat 8%nat 16%nat 24%nat.
  - read_chunk 8%nat 0%nat. read_chunk 8%nat 8%nat. read_chunk 8%nat 16%nat. destruct (siphash_integers_ok x x0 x1 0 key) as [H _].
    destruct H as (_&_&->&_); [done..|]. do 2 f_equal. join_chunks 8%nat 0%nat 8%nat 16%nat 24%nat.
  - read_chunk 8%nat 0%nat. read_chunk 8%nat 8%nat. read_chunk 8%nat 16%nat. read_chunk 8%nat 24%nat.
    destruct (siphash_integers_ok x x0 x1 x2 key) as [H _]. destruct H as (_&_&_&->); [done..|]. do 2 f_equal.
    join_chunks 8%nat 0%nat 8%nat 16%nat 24%nat.
Qed.

Lemma hsiphash_dispatch const buf key : bytes buf -> hsiphash const buf key = Ok (u32 (sip_ref 1 3 buf key)).
Proof.
  intros Hb. unfold hsiphash, ___hsiphash_aligned.
  assert (Hgen : __hsiphash_aligned buf key = Ok (u32 (sip_ref 1 3 buf key))).
  { apply (buffer_hash_ok 1 3 absorb1 HPOSTAMBLE u32); [apply absorb1_ok|apply HPOSTAMBLE_ok|done]. }
  destruct const; [|done]. cbn [andb].
  destruct (Z.eqb_spec (Z.of_nat (length buf)) 4) as [L|_]; [|destruct (Z.eqb_spec (Z.of_nat (length buf)) 8) as [L|_];
    [|destruct (Z.eqb_spec (Z.of_nat (length buf)) 12) as [L|_]; [|destruct (Z.eqb_spec (Z.of_nat (length buf)) 16) as [L|_]; [|done]]]].
  - read_chunk 4%nat 0%nat. destruct (siphash_integers_ok x 0 0 0 key) as [_ H]. destruct H as (_&_&_&_&->&_); [done..|].
    do 3 f_equal. join_chunks 4%nat 0%nat 4%nat 8%nat 12%nat.
  - read_chunk 4%nat 0%nat. read_chunk 4%nat 4%nat. destruct (siphash_integers_ok x x0 0 0 key) as [_ H].
    destruct H as (_&_&_&_&_&->&_); [done..|]. do 3 f_equal. join_chunks 4%nat 0%nat 4%nat 8%nat 12%nat.
  - read_chunk 4%nat 0%nat. read_chunk 4%nat 4%nat. read_chunk 4%nat 8%nat. destruct (siphash_integers_ok x x0 x1 0 key) as [_ H].
    destruct H as (_&_&_&_&_&_&->&_); [done..|]. do 3 f_equal. join_chunks 4%nat 0%nat 4%nat 8%nat 12%nat.
  - read_chunk 4%nat 0%nat. read_chunk 4%nat 4%nat. read_chunk 4%nat 8%nat. read_chunk 4%nat 12%nat.
    destruct (siphash_integers_ok x x0 x1 x2 key) as [_ H]. destruct H as (_&_&_&_&_&_&_&->); [done..|]. do 3 f_equal.
    join_chunks 4%nat 0%nat 4%nat 8%nat 12%nat.
Qed.

(** C34: hashing a buffer, aligned or not, is SipHash-2-4 of its bytes, and hsiphash is
    SipHash-1-3 truncated to 32 bits, for every length; the entry points that pick an
    integer hash when the length is known at compile time compute the same values. *)
Theorem siphash_buffer_correct const buf key : bytes buf ->
  __siphash_aligned buf key = Ok (sip_ref 2 4 buf key)
  /\ __siphash_unaligned buf key = Ok (sip_ref 2 4 buf key)
  /\ __hsiphash_aligned buf key = Ok (u32 (sip_ref 1 3 buf key))
  /\ __hsiphash_unaligned buf key = Ok (u32 (sip_ref 1 3 buf key))
  /\ siphash const buf key = Ok (sip_ref 2 4 buf key)
  /\ hsiphash const buf key = Ok (u32 (sip_ref 1 3 buf key)).
Proof.
  intros Hb. split; [|split; [|split; [|split; [|split]]]].
  - apply (buffer_hash_ok 2 4 absorb2 POSTAMBLE (fun x => x)); [apply absorb2_ok|apply POSTAMBLE_ok|done].
  - apply (buffer_hash_ok 2 4 absorb2 POSTAMBLE (fun x => x)); [apply absorb2_ok|apply POSTAMBLE_ok|done].
  - apply (buffer_hash_ok 1 3 absorb1 HPOSTAMBLE u32); [apply absorb1_ok|apply HPOSTAMBLE_ok|done].
  - apply (buffer_hash_ok 1 3 absorb1 HPOSTAMBLE u32); [apply absorb1_ok|apply HPOSTAMBLE_ok|done].
  - by apply siphash_dispatch.
  - by apply hsiphash_dispatch.
Qed.

Lemma siphash_buffer_correct_witness :
  __siphash_aligned [1; 2; 3] (mk_key 5 6) = Ok (sip_ref 2 4 [1; 2; 3] (mk_key 5 6))
  /\ __siphash_unaligned [1; 2; 3] (mk_key 5 6) = Ok (sip_ref 2 4 [1; 2; 3] (mk_key 5 6))
  /\ __hsiphash_aligned [1; 2; 3] (mk_key 5 6) = Ok (u32 (sip_ref 1 3 [1; 2; 3] (mk_key 5 6)))
  /\ __hsiphash_unaligned [1; 2; 3] (mk_key 5 6) = Ok (u32 (sip_ref 1 3 [1; 2; 3] (mk_key 5 6)))
  /\ siphash true [1; 2; 3] (mk_key 5 6) = Ok (sip_ref 2 4 [1; 2; 3] (mk_key 5 6))
  /\ hsiphash true [1; 2; 3] (mk_key 5 6) = Ok (u32 (sip_ref 1 3 [1; 2; 3] (mk_key 5 6))).
Proof. apply siphash_buffer_correct. repeat (apply List.Forall_cons; [lia|]). apply List.Forall_nil. Defined.

