(* ===== verification/Math64.v ===== *)
(** * 64-bit multiplication and division (include/linux/math64.h)

    The divisions of a 64-bit machine, and the multiply-and-shift helpers in both of
    the forms the header has: on a 128-bit type, and on 32-bit halves, where a 64-bit
    value is a union of its [low] and [high] words. *)

From S2P Require Import Prelude.

(** The members [l.low] and [l.high] of the union, and writing one of them. *)
Definition low (x : Z) : Z := x mod 4294967296.
Definition high (x : Z) : Z := x / 4294967296.
Definition join (hi lo : Z) : Z := hi * 4294967296 + lo.
Definition set_high (x hi : Z) : Z := join (u32 hi) (low x).
Definition set_low (x lo : Z) : Z := join (high x) (u32 lo).

Definition div_u64_rem (dividend divisor : Z) : Z * Z := (dividend / divisor, u32 (dividend mod divisor)).
(** The signed division of C rounds towards zero. *)
Definition div_s64_rem (dividend divisor : Z) : Z * Z := (Z.quot dividend divisor, Z.rem dividend divisor).
Definition div64_u64_rem (dividend divisor : Z) : Z * Z := (dividend / divisor, dividend mod divisor).
Definition div64_u64 (dividend divisor : Z) : Z := dividend / divisor.
Definition div64_s64 (dividend divisor : Z) : Z := Z.quot dividend divisor.
Definition div_u64 (dividend divisor : Z) : Z := (div_u64_rem dividend divisor).1.
Definition div_s64 (dividend divisor : Z) : Z := (div_s64_rem dividend divisor).1.

(** The subtraction loop; it does not end when the divisor is 0. *)
Fixpoint iter_loop (fuel : nat) (dividend divisor ret : Z) : res (Z * Z) :=
  match fuel with
  | O => Fault NoFuel
  | S fuel =>
    if divisor <=? dividend then iter_loop fuel (dividend - divisor) divisor (u32 (ret + 1))
    else Ok (ret, dividend)
  end.

Definition __iter_div_u64_rem (fuel : nat) (dividend divisor : Z) : res (Z * Z) := iter_loop fuel dividend divisor 0.

Definition mul_u32_u32 (a b : Z) : Z := u64 (a * b).

(** With [unsigned __int128]. *)
Definition mul_u64_u32_shr_int128 (a mul shift : Z) : Z := u64 (Z.shiftr (a * mul) shift).
Definition mul_u64_u64_shr_int128 (a mul shift : Z) : Z := u64 (Z.shiftr (a * mul) shift).

(** Without it. *)
Definition mul_u64_u32_shr (a mul shift : Z) : Z :=
  let al := u32 a in
  let ah := u32 (Z.shiftr a 32) in
  let ret := Z.shiftr (mul_u32_u32 al mul) shift in
  if negb (ah =? 0) then u64 (ret + u64 (Z.shiftl (mul_u32_u32 ah mul) (32 - shift))) else ret.

Definition mul_u64_u64_shr (a0 b0 shift : Z) : Z :=
  let rl := mul_u32_u32 (low a0) (low b0) in
  let rm := mul_u32_u32 (low a0) (high b0) in
  let rn := mul_u32_u32 (high a0) (low b0) in
  let rh := mul_u32_u32 (high a0) (high b0) in
  let c := u64 (high rl + low rm + low rn) in
  let rl := set_high rl c in
  let c := u64 (Z.shiftr c 32 + high rm + high rn + low rh) in
  let rh := set_low rh c in
  let rh := set_high rh (u64 (Z.shiftr c 32 + high rh)) in
  if shift =? 0 then rl
  else if shift <? 64 then Z.lor (Z.shiftr rl shift) (u64 (Z.shiftl rh (64 - shift)))
  else Z.shiftr rh (Z.land shift 63).

(** [do_div(n, base)]: the quotient stays in [n], the remainder is the result. *)
Definition do_div (n base : Z) : Z * Z := (n / base, u32 (n mod base)).

Definition mul_u64_u32_div (a mul divisor : Z) : Z :=
  let rl := mul_u32_u32 (low a) mul in
  let rh := u64 (mul_u32_u32 (high a) mul + high rl) in
  let '(rh, rem) := do_div rh divisor in
  let rl := set_high rl rem in
  let '(rl, _) := do_div rl divisor in
  set_high rl (low rh).

Definition DIV64_U64_ROUND_UP (ll d : Z) : Z := div64_u64 (u64 (u64 (ll + d) - 1)) d.
Definition DIV64_U64_ROUND_CLOSEST (dividend divisor : Z) : Z := div64_u64 (u64 (dividend + divisor / 2)) divisor.

(** ** Halves *)

Lemma join_split x : x = join (high x) (low x).
Proof. unfold join, high, low. pose proof (Z.div_mod x 4294967296). lia. Qed.

Lemma low_range x : 0 <= low x < 4294967296.
Proof. apply Z.mod_pos_bound. lia. Qed.

Lemma high_range x : 0 <= x < 18446744073709551616 -> 0 <= high x < 4294967296.
Proof. intros H. unfold high. split; [apply Z.div_pos; lia|apply Z.div_lt_upper_bound; lia]. Qed.

Lemma mul32_ok a b : 0 <= a < 4294967296 -> 0 <= b < 4294967296 ->
  mul_u32_u32 a b = a * b /\ 0 <= a * b <= 18446744065119617025.
Proof. intros Ha Hb. unfold mul_u32_u32. rewrite u64_small; nia. Qed.

Lemma high_join h l : 0 <= l < 4294967296 -> high (join h l) = h.
Proof. intros H. unfold high, join. rewrite Z.div_add_l, Z.div_small; lia. Qed.

Lemma low_join h l : 0 <= l < 4294967296 -> low (join h l) = l.
Proof. intros H. unfold low, join. rewrite Z.add_comm, Z.mod_add, Z.mod_small; lia. Qed.

(** The limb multiplication leaves the 128-bit product in two words. *)
Lemma limbs a b : 0 <= a < 18446744073709551616 -> 0 <= b < 18446744073709551616 ->
  let rl := mul_u32_u32 (low a) (low b) in
  let rm := mul_u32_u32 (low a) (high b) in
  let rn := mul_u32_u32 (high a) (low b) in
  let rh := mul_u32_u32 (high a) (high b) in
  let c := u64 (high rl + low rm + low rn) in
  let c' := u64 (Z.shiftr c 32 + high rm + high rn + low rh) in
  let lo := set_high rl c in
  let hi := set_high (set_low rh c') (u64 (Z.shiftr c' 32 + high (set_low rh c'))) in
  hi * 18446744073709551616 + lo = a * b /\
  0 <= lo < 18446744073709551616 /\ 0 <= hi < 18446744073709551616.
Proof.
  intros Ha Hb. pose proof (join_split a) as Ea. pose proof (join_split b) as Eb.
  pose proof (low_range a). pose proof (low_range b). pose proof (high_range a Ha). pose proof (high_range b Hb).
  set (al := low a) in *. set (ah := high a) in *. set (bl := low b) in *. set (bh := high b) in *.
  destruct (mul32_ok al bl) as [-> R1]; [done..|]. destruct (mul32_ok al bh) as [-> R2]; [done..|].
  destruct (mul32_ok ah bl) as [-> R3]; [done..|]. destruct (mul32_ok ah bh) as [-> R4]; [done..|].
  pose proof (join_split (al * bl)) as E1. pose proof (join_split (al * bh)) as E2.
  pose proof (join_split (ah * bl)) as E3. pose proof (join_split (ah * bh)) as E4.
  pose proof (low_range (al * bl)). pose proof (low_range (al * bh)).
  pose proof (low_range (ah * bl)). pose proof (low_range (ah * bh)).
  pose proof (high_range (al * bl)). pose proof (high_range (al * bh)).
  pose proof (high_range (ah * bl)). pose proof (high_range (ah * bh)).
  assert (P : a * b = ah * bh * 18446744073709551616 + (al * bh + ah * bl) * 4294967296 + al * bl)
    by (rewrite Ea, Eb; unfold join; ring).
  assert (Pb : a * b < 18446744073709551616 * 18446744073709551616) by (apply Z.mul_lt_mono_nonneg; lia).
  clearbody al ah bl bh. generalize dependent (a * b). intros p P Pb. clear Ea Eb Ha Hb a b.
  cbv zeta. generalize dependent (al * bl). intros ll. intros. generalize dependent (al * bh). intros lm. intros.
  generalize dependent (ah * bl). intros ln. intros. generalize dependent (ah * bh). intros lh. intros.
  unfold set_low, set_high. rewrite !Z.shiftr_div_pow2 by lia. change (2 ^ 32) with 4294967296.
  fold (high (u64 (high ll + low lm + low ln))).
  rewrite (u64_small (high ll + low lm + low ln)) by lia.
  remember (high ll + low lm + low ln) as c eqn:Dc. assert (Hc : 0 <= c < 18446744073709551616) by lia.
  pose proof (join_split c) as Ec. pose proof (low_range c). pose proof (high_range c Hc).
  rewrite (u64_small (high c + high lm + high ln + low lh)) by lia.
  remember (high c + high lm + high ln + low lh) as d eqn:Dd. assert (Hd : 0 <= d < 18446744073709551616) by lia.
  pose proof (join_split d) as Ed. pose proof (low_range d). pose proof (high_range d Hd).
  fold (high d). change (u32 c) with (low c). change (u32 d) with (low d).
  rewrite high_join, low_join by lia. unfold join in *.
  assert (Hhd : high d + high lh < 4294967296) by lia.
  rewrite (u64_small (high d + high lh)), (u32_small (high d + high lh)) by lia.
  repeat split; lia.
Qed.

(** The final shift of the two words. *)
Lemma shr128 hi lo s : 0 <= lo < 18446744073709551616 -> 0 <= hi < 18446744073709551616 -> 0 <= s < 128 ->
  (if s =? 0 then lo
   else if s <? 64 then Z.lor (Z.shiftr lo s) (u64 (Z.shiftl hi (64 - s)))
   else Z.shiftr hi (Z.land s 63)) = u64 (Z.shiftr (hi * 18446744073709551616 + lo) s).
Proof.
  intros Hl Hh Hs. rewrite !Z.shiftr_div_pow2 by (try apply Z.land_nonneg; lia).
  destruct (Z.eqb_spec s 0) as [->|H0].
  { rewrite Z.div_1_r. unfold u64. rewrite Z.add_comm, Z.mod_add, Z.mod_small; lia. }
  destruct (Z.ltb_spec s 64) as [H|H].
  - assert (0 < 2 ^ s) by lia. assert (0 < 2 ^ (64 - s)) by lia.
    assert (Ep : 18446744073709551616 = 2 ^ (64 - s) * 2 ^ s)
      by (rewrite <- Z.pow_add_r by lia; by replace (64 - s + s) with 64 by lia).
    rewrite Z.shiftl_mul_pow2 by lia. unfold u64.
    rewrite Ep at 2. rewrite Z.mul_assoc, Z.div_add_l by lia.
    assert (Hr : 0 <= lo / 2 ^ s < 2 ^ (64 - s)).
    { split; [apply Z.div_pos; lia|]. apply Z.div_lt_upper_bound; lia. }
    assert (Em : (hi * 2 ^ (64 - s)) mod 18446744073709551616 = (hi mod 2 ^ s) * 2 ^ (64 - s)).
    { rewrite Ep, (Z.mul_comm (2 ^ (64 - s)) (2 ^ s)). apply Z.mul_mod_distr_r; lia. }
    rewrite Em, Z.lor_comm, lor_low by lia.
    rewrite <- Zplus_mod_idemp_l, Em. symmetry. apply Z.mod_small.
    pose proof (Z.mod_pos_bound hi (2 ^ s)). nia.
  - change 63 with (Z.ones 6). rewrite Z.land_ones by lia.
    replace (s mod 2 ^ 6) with (s - 64) by (apply (Z.mod_unique_pos _ _ 1); lia).
    replace s with (64 + (s - 64)) at 2 by lia. rewrite Z.pow_add_r by lia. assert (0 < 2 ^ (s - 64)) by lia.
    change (2 ^ 64) with 18446744073709551616. rewrite <- Z.div_div, Z.div_add_l, (Z.div_small lo) by lia.
    rewrite Z.add_0_r, u64_small; [done|]. split; [apply Z.div_pos; lia|].
    apply Z.div_lt_upper_bound; nia.
Qed.

Lemma mul_u64_u64_shr_ok a b s : 0 <= a < 18446744073709551616 -> 0 <= b < 18446744073709551616 -> 0 <= s < 128 ->
  mul_u64_u64_shr a b s = mul_u64_u64_shr_int128 a b s.
Proof.
  intros Ha Hb Hs. destruct (limbs a b Ha Hb) as (E&Hl&Hh). unfold mul_u64_u64_shr, mul_u64_u64_shr_int128.
  cbv zeta in E, Hl, Hh. rewrite <- E. by apply shr128.
Qed.

Lemma mul_u64_u32_shr_ok a m s : 0 <= a < 18446744073709551616 -> 0 <= m < 4294967296 -> 0 <= s <= 32 ->
  mul_u64_u32_shr a m s = mul_u64_u32_shr_int128 a m s.
Proof.
  intros Ha Hm Hs. unfold mul_u64_u32_shr, mul_u64_u32_shr_int128.
  assert (Eh : Z.shiftr a 32 = high a) by by rewrite Z.shiftr_div_pow2.
  pose proof (low_range a). pose proof (high_range a Ha). rewrite Eh, (u32_small (high a)) by lia.
  change (u32 a) with (low a). pose proof (join_split a) as Ea. set (al := low a) in *. set (ah := high a) in *.
  destruct (mul32_ok al m) as [-> R1]; [done..|]. destruct (mul32_ok ah m) as [-> R2]; [done..|].
  assert (0 < 2 ^ s) by lia. assert (0 < 2 ^ (32 - s)) by lia.
  assert (Ep : 4294967296 = 2 ^ (32 - s) * 2 ^ s) by (rewrite <- Z.pow_add_r by lia; by replace (32 - s + s) with 32 by lia).
  rewrite Z.shiftl_mul_pow2, !Z.shiftr_div_pow2 by lia.
  replace (a * m / 2 ^ s) with (al * m / 2 ^ s + ah * m * 2 ^ (32 - s)).
  2: { rewrite Ea at 1. unfold join. rewrite Ep.
       replace ((ah * (2 ^ (32 - s) * 2 ^ s) + al) * m) with (ah * m * 2 ^ (32 - s) * 2 ^ s + al * m) by ring.
       rewrite Z.div_add_l by lia. lia. }
  destruct (Z.eqb_spec ah 0) as [E0|E0]; simpl.
  - rewrite E0. simpl. rewrite Z.add_0_r, u64_small; [done|].
    split; [apply Z.div_pos; lia|]. apply Z.div_lt_upper_bound; nia.
  - unfold u64. by rewrite Zplus_mod_idemp_r.
Qed.

Lemma mul_u64_u32_div_ok a m d : 0 <= a < 18446744073709551616 -> 0 <= m < 4294967296 -> 0 < d < 4294967296 ->
  mul_u64_u32_div a m d = u64 (a * m / d).
Proof.
  intros Ha Hm Hd. unfold mul_u64_u32_div, do_div.
  pose proof (low_range a). pose proof (high_range a Ha). pose proof (join_split a) as Ea.
  set (al := low a) in *. set (ah := high a) in *.
  destruct (mul32_ok al m) as [-> R1]; [done..|]. destruct (mul32_ok ah m) as [-> R2]; [done..|].
  pose proof (join_split (al * m)) as E1. pose proof (low_range (al * m)). pose proof (high_range (al * m)).
  rewrite (u64_small (ah * m + high (al * m))) by lia. set (t := ah * m + high (al * m)).
  assert (Ht : 0 <= t) by (unfold t; lia).
  pose proof (Z.div_mod t d ltac:(lia)) as Dt. pose proof (Z.mod_pos_bound t d ltac:(lia)).
  assert (Em : a * m = t * 4294967296 + low (al * m)) by (unfold t, join in *; nia).
  unfold set_high. rewrite (u32_small (t mod d)) by lia. rewrite (u32_small (t mod d)) by lia.
  set (n := join (t mod d) (low (al * m))).
  assert (Hn : 0 <= n < d * 4294967296) by (unfold n, join; nia).
  assert (Hq : 0 <= n / d < 4294967296) by (split; [apply Z.div_pos; lia|apply Z.div_lt_upper_bound; lia]).
  assert (Eq : a * m / d = t / d * 4294967296 + n / d).
  { rewrite Em. unfold n, join. rewrite <- Z.div_add_l by lia. f_equal. lia. }
  rewrite Eq. unfold join, u64.
  assert (El : low (n / d) = n / d) by (apply Z.mod_small; lia). rewrite El. clear El.
  change (u32 (low (t / d))) with (low (low (t / d))). pose proof (join_split (t / d)) as Ej.
  pose proof (low_range (t / d)). unfold join in Ej.
  assert (El : low (low (t / d)) = low (t / d)) by (apply Z.mod_small; lia). rewrite El.
  apply (Z.mod_unique_pos _ _ (high (t / d))); lia.
Qed.

Lemma iter_loop_ok fuel n d ret : 0 < d -> 0 <= n -> 0 <= ret -> (Z.to_nat (n / d) < fuel)%nat ->
  iter_loop fuel n d (u32 ret) = Ok (u32 (ret + n / d), n mod d).
Proof.
  intros Hd. revert n ret. induction fuel as [|fuel IH]; intros n ret Hn Hr Hf; [lia|]. simpl.
  destruct (Z.leb_spec d n) as [H|H].
  - assert (E : n / d = (n - d) / d + 1).
    { replace n with (n - d + 1 * d) at 1 by lia. by rewrite Z.div_add by lia. }
    assert (0 <= (n - d) / d) by (apply Z.div_pos; lia).
    rewrite u32_add_l, IH by lia. do 2 f_equal; [f_equal; lia|].
    replace n with (n - d + 1 * d) at 2 by lia. by rewrite Z.mod_add by lia.
  - rewrite Z.div_small, Z.mod_small by lia. by rewrite Z.add_0_r.
Qed.

(** the multiplications on 32-bit halves give the bits of the 128-bit product: the
    64x64 and 64x32 multiply-and-shift are equal to their [__int128] versions, the
    multiply-and-divide is the quotient of the exact product, and the subtraction loop
    computes quotient and remainder within as many rounds as the quotient. *)
Theorem math64_correct a b m s t d fuel :
  0 <= a < 2 ^ 64 -> 0 <= b < 2 ^ 64 -> 0 <= m < 2 ^ 32 -> 0 <= s < 128 -> 0 <= t <= 32 -> 0 < d < 2 ^ 32 ->
  (Z.to_nat (a / d) < fuel)%nat ->
  mul_u64_u64_shr a b s = mul_u64_u64_shr_int128 a b s /\
  mul_u64_u32_shr a m t = mul_u64_u32_shr_int128 a m t /\
  mul_u64_u32_div a m d = u64 (a * m / d) /\
  __iter_div_u64_rem fuel a d = Ok (u32 (a / d), a mod d).
Proof.
  intros Ha Hb Hm Hs Ht Hd Hf. split; [by apply mul_u64_u64_shr_ok|]. split; [by apply mul_u64_u32_shr_ok|].
  split; [by apply mul_u64_u32_div_ok|]. by apply (iter_loop_ok fuel a d 0); lia.
Qed.

Lemma math64_correct_witness :
  mul_u64_u64_shr 0xfedcba9876543210 0xffffffffffffffff 64 = 0xfedcba987654320f /\
  mul_u64_u32_div 0xfedcba9876543210 4294967295 4294967291 = 0xfedcba9c71c71c85.
Proof.
  destruct (math64_correct 0xfedcba9876543210 0xffffffffffffffff 4294967295 64 32 4294967291
    (S (Z.to_nat (0xfedcba9876543210 / 4294967291)))) as (E1&_&E2&_);
    [lia|lia|lia|lia|lia|lia|apply Nat.lt_succ_diag_r|].
  rewrite E1, E2. split; vm_compute; reflexivity.
Defined.
