(* ===== verification/Pelt.v ===== *)
(** * Per-entity load tracking (kernel/sched/pelt.c, kernel/sched/pelt.h, sched-pelt.h)

    A [sched_avg] keeps geometric sums of the time an entity was runnable and running,
    in periods of 1024us decayed by y with y^32 = 1/2, and averages derived from them.
    Time stamps are in ns and wrap at 64 bits. *)

From S2P Require Import Prelude Math64.

Definition runnable_avg_yN_inv : list Z := [
  0xffffffff; 0xfa83b2da; 0xf5257d14; 0xefe4b99a; 0xeac0c6e6; 0xe5b906e6;
  0xe0ccdeeb; 0xdbfbb796; 0xd744fcc9; 0xd2a81d91; 0xce248c14; 0xc9b9bd85;
  0xc5672a10; 0xc12c4cc9; 0xbd08a39e; 0xb8fbaf46; 0xb504f333; 0xb123f581;
  0xad583ee9; 0xa9a15ab4; 0xa5fed6a9; 0xa2704302; 0x9ef5325f; 0x9b8d39b9;
  0x9837f050; 0x94f4efa8; 0x91c3d373; 0x8ea4398a; 0x8b95c1e3; 0x88980e80;
  0x85aac367; 0x82cd8698 ].

Definition LOAD_AVG_PERIOD : Z := 32.
Definition LOAD_AVG_MAX : Z := 47742.
Definition SCHED_CAPACITY_SHIFT : Z := 10.
Definition SCHED_CAPACITY_SCALE : Z := 1024.

Record util_est := mk_util_est { enqueued : Z; ewma : Z }.

Record sched_avg := mk_avg {
  last_update_time : Z; load_sum : Z; runnable_load_sum : Z; util_sum : Z; period_contrib : Z;
  load_avg : Z; runnable_load_avg : Z; util_avg : Z; sa_util_est : util_est }.

Definition set_last_update_time (sa : sched_avg) (t : Z) : sched_avg :=
  mk_avg t (load_sum sa) (runnable_load_sum sa) (util_sum sa) (period_contrib sa)
         (load_avg sa) (runnable_load_avg sa) (util_avg sa) (sa_util_est sa).

Definition set_sums (sa : sched_avg) (l r u : Z) : sched_avg :=
  mk_avg (last_update_time sa) l r u (period_contrib sa)
         (load_avg sa) (runnable_load_avg sa) (util_avg sa) (sa_util_est sa).

Definition set_period_contrib (sa : sched_avg) (c : Z) : sched_avg :=
  mk_avg (last_update_time sa) (load_sum sa) (runnable_load_sum sa) (util_sum sa) c
         (load_avg sa) (runnable_load_avg sa) (util_avg sa) (sa_util_est sa).

Definition set_avgs (sa : sched_avg) (l r u : Z) : sched_avg :=
  mk_avg (last_update_time sa) (load_sum sa) (runnable_load_sum sa) (util_sum sa) (period_contrib sa)
         l r u (sa_util_est sa).

Definition set_enqueued (sa : sched_avg) (e : Z) : sched_avg :=
  mk_avg (last_update_time sa) (load_sum sa) (runnable_load_sum sa) (util_sum sa) (period_contrib sa)
         (load_avg sa) (runnable_load_avg sa) (util_avg sa) (mk_util_est e (ewma (sa_util_est sa))).

(** The index is below the period, the length of the table. *)
Definition yN_inv (n : Z) : Z := nth (Z.to_nat n) runnable_avg_yN_inv 0.

Definition decay_load (val n : Z) : Z :=
  if val =? 0 then 0
  else if LOAD_AVG_PERIOD * 63 <? n then 0
  else
    let local_n := u32 n in
    let '(val, local_n) :=
      if LOAD_AVG_PERIOD <=? local_n
      then (Z.shiftr val (local_n / LOAD_AVG_PERIOD), local_n mod LOAD_AVG_PERIOD)
      else (val, local_n) in
    mul_u64_u32_shr val (yN_inv local_n) 32.

Definition __accumulate_pelt_segments (periods d1 d3 : Z) : Z :=
  let c3 := d3 in
  let c1 := u32 (decay_load d1 periods) in
  let c2 := u32 (u64 (LOAD_AVG_MAX - decay_load LOAD_AVG_MAX periods - 1024)) in
  u32 (c1 + c2 + c3).

(** Returns the number of periods crossed, truncated to 32 bits. *)
Definition accumulate_sum (delta : Z) (sa : sched_avg) (load runnable running : Z) : Z * sched_avg :=
  let contrib := u32 delta in
  let delta := u64 (delta + period_contrib sa) in
  let periods := delta / 1024 in
  let '(sa, delta, contrib) :=
    if negb (periods =? 0) then
      let sa := set_sums sa (decay_load (load_sum sa) periods) (decay_load (runnable_load_sum sa) periods)
                            (u32 (decay_load (util_sum sa) periods)) in
      let delta := delta mod 1024 in
      (sa, delta, __accumulate_pelt_segments periods (u32 (1024 - period_contrib sa)) (u32 delta))
    else (sa, delta, contrib) in
  let sa := set_period_contrib sa (u32 delta) in
  let l := if negb (load =? 0) then u64 (load_sum sa + u64 (load * contrib)) else load_sum sa in
  let r := if negb (runnable =? 0) then u64 (runnable_load_sum sa + u64 (runnable * contrib))
           else runnable_load_sum sa in
  let u := if negb (running =? 0) then u32 (util_sum sa + u32 (Z.shiftl contrib SCHED_CAPACITY_SHIFT))
           else util_sum sa in
  (u32 periods, set_sums sa l r u).

Definition ___update_load_sum (now : Z) (sa : sched_avg) (load runnable running : Z) : Z * sched_avg :=
  let delta := u64 (now - last_update_time sa) in
  if s64 delta <? 0 then (0, set_last_update_time sa now)
  else
    let delta := Z.shiftr delta 10 in
    if delta =? 0 then (0, sa)
    else
      let sa := set_last_update_time sa (u64 (last_update_time sa + u64 (Z.shiftl delta 10))) in
      let '(runnable, running) := if load =? 0 then (0, 0) else (runnable, running) in
      let '(periods, sa) := accumulate_sum delta sa load runnable running in
      (if periods =? 0 then 0 else 1, sa).

Definition ___update_load_avg (sa : sched_avg) (load runnable : Z) : sched_avg :=
  let divider := u32 (LOAD_AVG_MAX - 1024 + period_contrib sa) in
  set_avgs sa (div_u64 (u64 (load * load_sum sa)) divider)
              (div_u64 (u64 (runnable * runnable_load_sum sa)) divider)
              (util_sum sa / divider).

(** ** The entities *)

Definition scale_load_down (w : Z) : Z := Z.shiftr w 10.

Record sched_entity := mk_se { se_avg : sched_avg; se_load_weight : Z; se_runnable_weight : Z; se_on_rq : Z }.
Record cfs_rq := mk_cfs { cfs_avg : sched_avg; cfs_load_weight : Z; cfs_runnable_weight : Z; cfs_curr : bool }.

Definition se_weight (se : sched_entity) : Z := scale_load_down (se_load_weight se).
Definition se_runnable (se : sched_entity) : Z := scale_load_down (se_runnable_weight se).

Definition set_se_avg (se : sched_entity) (sa : sched_avg) : sched_entity :=
  mk_se sa (se_load_weight se) (se_runnable_weight se) (se_on_rq se).

Definition UTIL_AVG_UNCHANGED : Z := 1.

Definition cfs_se_util_change (sa : sched_avg) : sched_avg :=
  let e := enqueued (sa_util_est sa) in
  if Z.land e UTIL_AVG_UNCHANGED =? 0 then sa
  else set_enqueued sa (u32 (Z.land e (Z.lnot UTIL_AVG_UNCHANGED))).

Definition __update_load_avg_blocked_se (now : Z) (se : sched_entity) : Z * sched_entity :=
  let '(ret, sa) := ___update_load_sum now (se_avg se) 0 0 0 in
  if negb (ret =? 0) then (1, set_se_avg se (___update_load_avg sa (se_weight se) (se_runnable se)))
  else (0, set_se_avg se sa).

Definition bool_to_Z (b : bool) : Z := if b then 1 else 0.

(** [curr] tells whether [cfs_rq->curr == se]. *)
Definition __update_load_avg_se (now : Z) (curr : bool) (se : sched_entity) : Z * sched_entity :=
  let on := bool_to_Z (negb (se_on_rq se =? 0)) in
  let '(ret, sa) := ___update_load_sum now (se_avg se) on on (bool_to_Z curr) in
  if negb (ret =? 0) then
    (1, set_se_avg se (cfs_se_util_change (___update_load_avg sa (se_weight se) (se_runnable se))))
  else (0, set_se_avg se sa).

Definition __update_load_avg_cfs_rq (now : Z) (rq : cfs_rq) : Z * cfs_rq :=
  let upd sa := mk_cfs sa (cfs_load_weight rq) (cfs_runnable_weight rq) (cfs_curr rq) in
  let '(ret, sa) := ___update_load_sum now (cfs_avg rq) (scale_load_down (cfs_load_weight rq))
                      (scale_load_down (cfs_runnable_weight rq)) (bool_to_Z (cfs_curr rq)) in
  if negb (ret =? 0) then (1, upd (___update_load_avg sa 1 1)) else (0, upd sa).

(** The fields of [struct rq] the tracking uses; [rq_curr] is [None] for a NULL
    current task, else whether it is the idle task. *)
Record rq := mk_rq {
  rq_clock : Z; rq_clock_task : Z; clock_pelt : Z; lost_idle_time : Z;
  rq_cfs : cfs_rq; avg_rt : sched_avg; avg_dl : sched_avg; avg_irq : sched_avg; rq_curr : option bool }.

Definition set_avg_rt (r : rq) (sa : sched_avg) : rq :=
  mk_rq (rq_clock r) (rq_clock_task r) (clock_pelt r) (lost_idle_time r) (rq_cfs r) sa (avg_dl r) (avg_irq r) (rq_curr r).
Definition set_avg_dl (r : rq) (sa : sched_avg) : rq :=
  mk_rq (rq_clock r) (rq_clock_task r) (clock_pelt r) (lost_idle_time r) (rq_cfs r) (avg_rt r) sa (avg_irq r) (rq_curr r).
Definition set_avg_irq (r : rq) (sa : sched_avg) : rq :=
  mk_rq (rq_clock r) (rq_clock_task r) (clock_pelt r) (lost_idle_time r) (rq_cfs r) (avg_rt r) (avg_dl r) sa (rq_curr r).
Definition set_clock_pelt (r : rq) (t : Z) : rq :=
  mk_rq (rq_clock r) (rq_clock_task r) t (lost_idle_time r) (rq_cfs r) (avg_rt r) (avg_dl r) (avg_irq r) (rq_curr r).
Definition set_lost_idle_time (r : rq) (t : Z) : rq :=
  mk_rq (rq_clock r) (rq_clock_task r) (clock_pelt r) t (rq_cfs r) (avg_rt r) (avg_dl r) (avg_irq r) (rq_curr r).

Definition update_rt_rq_load_avg (now : Z) (r : rq) (running : Z) : Z * rq :=
  let '(ret, sa) := ___update_load_sum now (avg_rt r) (u64 running) (u64 running) running in
  if negb (ret =? 0) then (1, set_avg_rt r (___update_load_avg sa 1 1)) else (0, set_avg_rt r sa).

Definition update_dl_rq_load_avg (now : Z) (r : rq) (running : Z) : Z * rq :=
  let '(ret, sa) := ___update_load_sum now (avg_dl r) (u64 running) (u64 running) running in
  if negb (ret =? 0) then (1, set_avg_dl r (___update_load_avg sa 1 1)) else (0, set_avg_dl r sa).

Definition cap_scale (v s : Z) : Z := Z.shiftr (u64 (v * s)) SCHED_CAPACITY_SHIFT.
Definition arch_scale_freq_capacity : Z := SCHED_CAPACITY_SCALE.
Definition arch_scale_cpu_capacity : Z := SCHED_CAPACITY_SCALE.

Definition update_irq_load_avg (r : rq) (running : Z) : Z * rq :=
  let running := cap_scale running arch_scale_freq_capacity in
  let running := cap_scale running arch_scale_cpu_capacity in
  let '(ret1, sa) := ___update_load_sum (u64 (rq_clock r - running)) (avg_irq r) 0 0 0 in
  let '(ret2, sa) := ___update_load_sum (rq_clock r) sa 1 1 1 in
  let ret := ret1 + ret2 in
  if negb (ret =? 0) then (ret, set_avg_irq r (___update_load_avg sa 1 1)) else (ret, set_avg_irq r sa).

Definition update_rq_clock_pelt (r : rq) (delta : Z) : rq :=
  match rq_curr r with
  | None => set_clock_pelt r (rq_clock_task r)
  | Some true => set_clock_pelt r (rq_clock_task r)
  | Some false =>
    let delta := s64 (cap_scale delta arch_scale_cpu_capacity) in
    let delta := s64 (cap_scale delta arch_scale_freq_capacity) in
    set_clock_pelt r (u64 (clock_pelt r + delta))
  end.

Definition update_idle_rq_clock_pelt (r : rq) : rq :=
  let divider := u32 (Z.shiftl (LOAD_AVG_MAX - 1024) SCHED_CAPACITY_SHIFT - LOAD_AVG_MAX) in
  let util := util_sum (cfs_avg (rq_cfs r)) in
  let util := u32 (util + util_sum (avg_rt r)) in
  let util := u32 (util + util_sum (avg_dl r)) in
  if divider <=? util
  then set_lost_idle_time r (u64 (lost_idle_time r + u64 (rq_clock_task r - clock_pelt r)))
  else r.

Definition rq_clock_pelt (r : rq) : Z := u64 (clock_pelt r - lost_idle_time r).

(** ** Decay *)

(** The table holds y^i with y^32 = 1/2 in 32 fractional bits, from below and less than
    two units off (compared through 32nd powers). *)
Definition table_ok (i : Z) : bool :=
  (0 <? yN_inv i) && (yN_inv i <? 2 ^ 32) &&
  (yN_inv i ^ 32 * 2 ^ i <=? (2 ^ 32) ^ 32) && ((2 ^ 32) ^ 32 <=? (yN_inv i + 2) ^ 32 * 2 ^ i).

Lemma seqZ_all (P : Z -> bool) m n : forallb P (seqZ m n) = true -> forall i, m <= i < m + n -> P i = true.
Proof. intros H i Hi. rewrite forallb_forall in H. apply H, list_elem_of_In, elem_of_seqZ. lia. Qed.

Lemma table_spec i : 0 <= i < 32 ->
  0 < yN_inv i < 2 ^ 32 /\ yN_inv i ^ 32 * 2 ^ i <= (2 ^ 32) ^ 32 <= (yN_inv i + 2) ^ 32 * 2 ^ i.
Proof.
  intros Hi. assert (H : table_ok i = true) by (apply (seqZ_all table_ok 0 32); [vm_compute; reflexivity|lia]).
  unfold table_ok in H. zbool. lia.
Qed.

(** The decay as one quotient. *)
Definition decay (v n : Z) : Z := if 2016 <? n then 0 else v / 2 ^ (n / 32) * yN_inv (n mod 32) / 2 ^ 32.

Lemma decay_load_ok v n : 0 <= v < 2 ^ 64 -> 0 <= n -> decay_load v n = decay v n.
Proof.
  intros Hv Hn. unfold decay_load, decay, LOAD_AVG_PERIOD. change (32 * 63) with 2016.
  destruct (Z.eqb_spec v 0) as [->|Hv0].
  { destruct (2016 <? n); [done|]. by rewrite Zdiv_0_l. }
  destruct (Z.ltb_spec 2016 n) as [H|H]; [done|]. rewrite u32_small by lia. cbv zeta.
  assert (E : (if 32 <=? n then (Z.shiftr v (n / 32), n mod 32) else (v, n)) = (v / 2 ^ (n / 32), n mod 32)).
  { destruct (Z.leb_spec 32 n).
    - by rewrite Z.shiftr_div_pow2 by (apply Z.div_pos; lia).
    - by rewrite (Z.div_small n), (Z.mod_small n), Z.div_1_r by lia. }
  rewrite E. pose proof (Z.mod_pos_bound n 32). destruct (table_spec (n mod 32)) as [Ht _]; [lia|].
  assert (0 < 2 ^ (n / 32)) by (apply Z.pow_pos_nonneg; [lia|apply Z.div_pos; lia]).
  assert (Hq : 0 <= v / 2 ^ (n / 32) < 2 ^ 64).
  { split; [apply Z.div_pos; lia|]. apply Z.div_lt_upper_bound; [lia|nia]. }
  rewrite mul_u64_u32_shr_ok by (try done; lia). unfold mul_u64_u32_shr_int128.
  rewrite Z.shiftr_div_pow2, u64_small; [done| |lia].
  split; [apply Z.div_pos; nia|]. apply Z.div_lt_upper_bound; [lia|nia].
Qed.

(** For a given number of periods the decay is a shift and a multiplication, or 0. *)
Lemma decay_shape n : 0 <= n ->
  (forall v, decay v n = 0) \/
  exists p y, 0 < p /\ 0 < y < 2 ^ 32 /\ forall v, decay v n = v / p * y / 2 ^ 32.
Proof.
  intros Hn. unfold decay. destruct (2016 <? n); [by left|right].
  exists (2 ^ (n / 32)), (yN_inv (n mod 32)). split; [apply Z.pow_pos_nonneg; [lia|apply Z.div_pos; lia]|].
  split; [|done]. apply table_spec. apply Z.mod_pos_bound. lia.
Qed.

Lemma decay_nonneg v n : 0 <= v -> 0 <= n -> 0 <= decay v n.
Proof.
  intros Hv Hn. destruct (decay_shape n Hn) as [->|(p&y&Hp&Hy&->)]; [lia|].
  apply Z.div_pos; [|lia]. apply Z.mul_nonneg_nonneg; [apply Z.div_pos; lia|lia].
Qed.

Lemma div_superadd a b c : 0 < c -> a / c + b / c <= (a + b) / c.
Proof.
  intros Hc. apply Z.div_le_lower_bound; [done|].
  pose proof (Z.mul_div_le a c Hc). pose proof (Z.mul_div_le b c Hc). lia.
Qed.

Lemma decay_mono a b n : 0 <= a <= b -> 0 <= n -> decay a n <= decay b n.
Proof.
  intros H Hn. destruct (decay_shape n Hn) as [E|(p&y&Hp&Hy&E)]; rewrite !E; [lia|].
  apply Z.div_le_mono; [lia|]. apply Z.mul_le_mono_nonneg_r; [lia|]. apply Z.div_le_mono; lia.
Qed.

(** Rounding down never creates load: parts decay to at most what their sum decays to. *)
Lemma decay_superadd a b n : 0 <= n -> decay a n + decay b n <= decay (a + b) n.
Proof.
  intros Hn. destruct (decay_shape n Hn) as [E|(p&y&Hp&Hy&E)]; rewrite !E; [lia|].
  etransitivity; [apply div_superadd; lia|]. apply Z.div_le_mono; [lia|].
  rewrite <- Z.mul_add_distr_r. apply Z.mul_le_mono_nonneg_r; [lia|]. by apply div_superadd.
Qed.

Lemma decay_scale w a n : 0 <= w -> 0 <= n -> w * decay a n <= decay (w * a) n.
Proof.
  intros Hw Hn. revert w Hw. apply natlike_ind.
  - rewrite !Z.mul_0_l. by apply decay_nonneg.
  - intros w Hw IH. rewrite !Z.mul_succ_l. etransitivity; [|apply decay_superadd; nia]. lia.
Qed.

Lemma decay_le v n : 0 <= v -> 0 <= n -> decay v n <= v.
Proof.
  intros Hv Hn. destruct (decay_shape n Hn) as [->|(p&y&Hp&Hy&->)]; [lia|].
  assert (Hq : v / p <= v) by (apply Z.div_le_upper_bound; nia).
  assert (0 <= v / p) by (apply Z.div_pos; lia).
  apply Z.div_le_upper_bound; [lia|]. nia.
Qed.

Lemma pow_split n : 0 <= n -> 2 ^ n = (2 ^ (n / 32)) ^ 32 * 2 ^ (n mod 32).
Proof.
  intros Hn. pose proof (Z.mod_pos_bound n 32). assert (0 <= n / 32) by (apply Z.div_pos; lia).
  rewrite <- Z.pow_mul_r, <- Z.pow_add_r by lia. f_equal. pose proof (Z.div_mod n 32). lia.
Qed.

(** The two roundings down cost less than 3 when the table entry is less than two units
    of T off; the 32nd powers keep y^i out of the statement. *)
Lemma decay_bounds t v p y i :
  t = 4294967296 -> 0 <= v < 2 ^ 31 -> 0 < p -> 0 < y < t -> 0 < i -> y ^ 32 * i <= t ^ 32 <= (y + 2) ^ 32 * i ->
  (v / p * y / t) ^ 32 * (p ^ 32 * i) <= v ^ 32 <= (v / p * y / t + 3) ^ 32 * (p ^ 32 * i).
Proof.
  intros Et Hv Hp Hy Hi Hyt.
  assert (F : exists f d, v / p = f /\ f * y / t = d /\ 0 <= f /\ 0 <= d /\ 0 <= d * t <= f * y /\
    0 <= f * p <= v /\ v <= (f + 1) * p /\ 0 <= (f + 1) * (y + 2) <= (d + 3) * t).
  { clear Hi Hyt. exists (v / p), (v / p * y / t).
    pose proof (Z.div_mod v p ltac:(lia)) as Dv. pose proof (Z.mod_pos_bound v p Hp).
    assert (Hf : 0 <= v / p < 2 ^ 31) by (split; [apply Z.div_pos; lia|apply Z.div_lt_upper_bound; nia]).
    set (f := v / p) in *. clearbody f.
    pose proof (Z.div_mod (f * y) t ltac:(lia)) as Dd. pose proof (Z.mod_pos_bound (f * y) t ltac:(lia)).
    assert (0 <= f * y / t) by (apply Z.div_pos; nia). set (d := f * y / t) in *. clearbody d. subst t.
    repeat split; nia. }
  destruct F as (f&d&->&->&Hf&Hd&Hdt&Hfp&Hv1&Hfy). assert (Ht0 : 0 < t) by (clear Hyt; lia). destruct Hv as [Hv0 _]. clear Et. destruct Hyt as [Hl Hu].
  assert (Ht : 0 < t ^ 32) by by apply Z.pow_pos_nonneg.
  assert (Hpi : 0 <= p ^ 32 * i) by (apply Z.mul_nonneg_nonneg; [apply Z.pow_nonneg|]; by apply Z.lt_le_incl).
  split; apply (Z.mul_le_mono_pos_r _ _ (t ^ 32)); try done.
  - transitivity ((f * p) ^ 32 * (y ^ 32 * i)).
    + replace ((f * p) ^ 32 * (y ^ 32 * i)) with ((f * y) ^ 32 * (p ^ 32 * i)) by (rewrite !Z.pow_mul_l; ring).
      replace (d ^ 32 * (p ^ 32 * i) * t ^ 32) with ((d * t) ^ 32 * (p ^ 32 * i)) by (rewrite Z.pow_mul_l; ring).
      apply Z.mul_le_mono_nonneg_r; [done|]. apply Z.pow_le_mono_l; tauto.
    + apply Z.mul_le_mono_nonneg; [apply Z.pow_nonneg; tauto|apply Z.pow_le_mono_l; tauto| |done].
      apply Z.mul_nonneg_nonneg; [apply Z.pow_nonneg|]; apply Z.lt_le_incl; tauto.
  - transitivity (((f + 1) * p) ^ 32 * ((y + 2) ^ 32 * i)).
    + apply Z.mul_le_mono_nonneg; [apply Z.pow_nonneg; tauto|apply Z.pow_le_mono_l; tauto|by apply Z.lt_le_incl|done].
    + replace (((f + 1) * p) ^ 32 * ((y + 2) ^ 32 * i)) with (((f + 1) * (y + 2)) ^ 32 * (p ^ 32 * i))
        by (rewrite !Z.pow_mul_l; ring).
      replace ((d + 3) ^ 32 * (p ^ 32 * i) * t ^ 32) with (((d + 3) * t) ^ 32 * (p ^ 32 * i))
        by (rewrite Z.pow_mul_l; ring).
      apply Z.mul_le_mono_nonneg_r; [done|]. apply Z.pow_le_mono_l; tauto.
Qed.

(** [decay_load] approximates val * y^n, with y^32 = 1/2, from below and by less than
    3: the 32nd power of its result is at most val^32 / 2^n and the 32nd power of its
    result plus 3 is at least that, for every 31-bit value and any number of periods. *)
Theorem decay_load_accurate v n : 0 <= v < 2 ^ 31 -> 0 <= n ->
  decay_load v n ^ 32 * 2 ^ n <= v ^ 32 <= (decay_load v n + 3) ^ 32 * 2 ^ n.
Proof.
  intros Hv Hn. rewrite decay_load_ok by lia. unfold decay. destruct (Z.ltb_spec 2016 n) as [H|H].
  - split; [apply Z.pow_nonneg; lia|]. etransitivity; [apply (Z.pow_le_mono_l v (2 ^ 31) 32); lia|].
    rewrite <- Z.pow_mul_r by lia. transitivity (2 ^ n); [apply Z.pow_le_mono_r; lia|].
    pose proof (Z.pow_pos_nonneg 2 n). assert (1 <= 3 ^ 32) by lia. nia.
  - rewrite (pow_split n Hn). pose proof (Z.mod_pos_bound n 32 ltac:(lia)) as Hm.
    apply (decay_bounds (2 ^ 32)); [done|done|apply Z.pow_pos_nonneg; [|apply Z.div_pos]; lia| | |].
    + by apply table_spec.
    + apply Z.pow_pos_nonneg; lia.
    + destruct (table_spec _ Hm) as [_ Ht]. exact Ht.
Qed.

Lemma decay_load_accurate_witness : decay_load 47742 32 = 23870 /\
  decay_load 47742 32 ^ 32 * 2 ^ 32 <= 47742 ^ 32 <= (decay_load 47742 32 + 3) ^ 32 * 2 ^ 32.
Proof. split; [vm_compute; reflexivity|apply (decay_load_accurate 47742 32); lia]. Defined.

(** ** The sums stay below their limit *)

(** What the limit of a sum at full load is, given the position in the current period;
    rounding lets weighted sums exceed it by [SLACK] units of weight. *)
Definition divider (sa : sched_avg) : Z := LOAD_AVG_MAX - 1024 + period_contrib sa.
Definition SLACK : Z := 47.

Definition segments_ok (p : Z) : bool :=
  (decay LOAD_AVG_MAX p + 1024 <=? LOAD_AVG_MAX) &&
  ((LOAD_AVG_MAX + SLACK) * yN_inv (p mod 32) <=? (decay LOAD_AVG_MAX p + SLACK) * 2 ^ 32 * 2 ^ (p / 32)).

Lemma segments_checked p : 1 <= p <= 2016 -> segments_ok p = true.
Proof. intros Hp. apply (seqZ_all segments_ok 1 2016); [vm_compute; reflexivity|lia]. Qed.

Lemma decay_max p : 1 <= p -> 0 <= decay LOAD_AVG_MAX p <= LOAD_AVG_MAX - 1024.
Proof.
  intros Hp. split; [apply decay_nonneg; unfold LOAD_AVG_MAX; lia|].
  destruct (Z.le_gt_cases p 2016) as [H|H].
  - pose proof (segments_checked p) as Hs. unfold segments_ok in Hs.
    apply andb_true_iff in Hs as [Hs _]; [|lia]. apply Z.leb_le in Hs. lia.
  - unfold decay. destruct (Z.ltb_spec 2016 p); [unfold LOAD_AVG_MAX|]; lia.
Qed.

Lemma decay_weighted w p : 0 <= w -> 1 <= p ->
  decay (w * (LOAD_AVG_MAX + SLACK)) p <= w * (decay LOAD_AVG_MAX p + SLACK).
Proof.
  intros Hw Hp. destruct (Z.le_gt_cases p 2016) as [H|H].
  2: { unfold decay. destruct (Z.ltb_spec 2016 p); [unfold SLACK|]; lia. }
  pose proof (segments_checked p ltac:(lia)) as Hs. unfold segments_ok in Hs.
  apply andb_true_iff in Hs as [_ Hs]. apply Z.leb_le in Hs. revert Hs.
  generalize (decay LOAD_AVG_MAX p + SLACK). intros m Hs. unfold decay.
  destruct (Z.ltb_spec 2016 p); [lia|]. pose proof (Z.mod_pos_bound p 32).
  destruct (table_spec (p mod 32)) as [Hy _]; [lia|].
  assert (Hq : 0 < 2 ^ (p / 32)) by (apply Z.pow_pos_nonneg; [lia|apply Z.div_pos; lia]).
  set (y := yN_inv _) in *. set (q := 2 ^ (p / 32)) in *. clearbody y q.
  set (M := LOAD_AVG_MAX + SLACK) in *.
  apply Z.div_le_upper_bound; [lia|].
  assert (E : w * M / q * q <= w * M) by (rewrite Z.mul_comm; by apply Z.mul_div_le).
  assert (0 <= w * M) by (unfold M, LOAD_AVG_MAX, SLACK; lia).
  apply (Z.mul_le_mono_pos_r _ _ q); [done|].
  transitivity (w * M * y); [nia|]. nia.
Qed.

(** One step of a sum whose weights are at most [W]. *)
Lemma sum_step W w s b p d3 : 0 <= w <= W -> 0 <= b <= 1024 -> 1 <= p -> 0 <= d3 ->
  0 <= s <= W * (LOAD_AVG_MAX - b + SLACK) ->
  let c := decay b p + (LOAD_AVG_MAX - decay LOAD_AVG_MAX p - 1024) + d3 in
  0 <= decay s p + w * c <= W * (LOAD_AVG_MAX - 1024 + d3 + SLACK).
Proof.
  intros Hw Hb Hp Hd Hs c. pose proof (decay_max p Hp). pose proof (decay_nonneg b p).
  pose proof (decay_nonneg s p). assert (Hc : 0 <= c) by (unfold c; lia). split; [nia|].
  assert (Hle : decay s p + W * decay b p <= W * (decay LOAD_AVG_MAX p + SLACK)).
  { etransitivity; [|apply decay_weighted; lia].
    transitivity (decay (W * (LOAD_AVG_MAX - b + SLACK)) p + decay (W * b) p).
    - apply Z.add_le_mono; [apply decay_mono; lia|apply decay_scale; lia].
    - etransitivity; [apply decay_superadd; lia|]. apply Z.eq_le_incl. f_equal. lia. }
  unfold c. nia.
Qed.

(** With unit weights the limit holds exactly. *)
Lemma unit_step w s b p d3 : 0 <= w <= 1 -> 0 <= b <= 1024 -> 1 <= p -> 0 <= d3 ->
  0 <= s <= LOAD_AVG_MAX - b ->
  let c := decay b p + (LOAD_AVG_MAX - decay LOAD_AVG_MAX p - 1024) + d3 in
  decay s p + w * c <= LOAD_AVG_MAX - 1024 + d3.
Proof.
  intros Hw Hb Hp Hd Hs c. pose proof (decay_max p Hp). pose proof (decay_nonneg b p).
  assert (Hle : decay s p + decay b p <= decay LOAD_AVG_MAX p).
  { etransitivity; [apply decay_superadd; lia|]. apply decay_mono; lia. }
  unfold c. nia.
Qed.

Record avg_ok (W : Z) (sa : sched_avg) : Prop := mk_avg_ok {
  ao_time : 0 <= last_update_time sa < 2 ^ 64;
  ao_contrib : 0 <= period_contrib sa < 1024;
  ao_load : 0 <= load_sum sa <= W * (divider sa + SLACK);
  ao_runnable : 0 <= runnable_load_sum sa <= W * (divider sa + SLACK);
  ao_util : 0 <= util_sum sa <= 1024 * (divider sa + SLACK) }.

(** Every weight the scheduler uses is far below this. *)
Definition weight_ok (W : Z) : Prop := 0 <= W /\ W * (LOAD_AVG_MAX + SLACK) < 2 ^ 64.

(** The time since the start of the period, and the part of it the step adds. *)
Definition contrib_of (delta pc : Z) : Z :=
  let p := (delta + pc) / 1024 in
  if p =? 0 then delta
  else decay (1024 - pc) p + (LOAD_AVG_MAX - decay LOAD_AVG_MAX p - 1024) + (delta + pc) mod 1024.

Definition decayed (x delta pc : Z) : Z :=
  let p := (delta + pc) / 1024 in if p =? 0 then x else decay x p.

Definition step_sum (x w delta pc : Z) : Z := decayed x delta pc + w * contrib_of delta pc.

(** One step keeps a weighted sum in its bound. *)
Lemma step_sum_ok W w x delta pc : 0 <= w <= W -> 0 <= pc < 1024 -> 0 <= delta ->
  0 <= x <= W * (LOAD_AVG_MAX - 1024 + pc + SLACK) ->
  0 <= step_sum x w delta pc <= W * (LOAD_AVG_MAX - 1024 + (delta + pc) mod 1024 + SLACK).
Proof.
  intros Hw Hpc Hd Hx. unfold step_sum, decayed, contrib_of.
  pose proof (Z.div_mod (delta + pc) 1024). pose proof (Z.mod_pos_bound (delta + pc) 1024).
  destruct (Z.eqb_spec ((delta + pc) / 1024) 0) as [E|E]; [nia|].
  assert (0 <= (delta + pc) / 1024) by (apply Z.div_pos; lia). apply sum_step; lia.
Qed.

Lemma step_sum_unit w x delta pc : 0 <= w <= 1 -> 0 <= pc < 1024 -> 0 <= delta ->
  0 <= x <= LOAD_AVG_MAX - 1024 + pc ->
  step_sum x w delta pc <= LOAD_AVG_MAX - 1024 + (delta + pc) mod 1024.
Proof.
  intros Hw Hpc Hd Hx. unfold step_sum, decayed, contrib_of.
  pose proof (Z.div_mod (delta + pc) 1024). pose proof (Z.mod_pos_bound (delta + pc) 1024).
  destruct (Z.eqb_spec ((delta + pc) / 1024) 0) as [E|E]; [nia|].
  assert (0 <= (delta + pc) / 1024) by (apply Z.div_pos; lia). apply unit_step; lia.
Qed.

(** ** What one update does *)

Definition running_weight (running : Z) : Z := if running =? 0 then 0 else 1024.

Definition advance_sums (sa : sched_avg) (delta load runnable running : Z) : sched_avg :=
  let pc := period_contrib sa in
  mk_avg (last_update_time sa) (step_sum (load_sum sa) load delta pc)
         (step_sum (runnable_load_sum sa) runnable delta pc)
         (step_sum (util_sum sa) (running_weight running) delta pc) ((delta + pc) mod 1024)
         (load_avg sa) (runnable_load_avg sa) (util_avg sa) (sa_util_est sa).

Lemma contrib_range delta pc : 0 <= delta -> 0 <= pc < 1024 -> 0 <= contrib_of delta pc < 65536.
Proof.
  intros Hd Hpc. unfold contrib_of. pose proof (Z.div_mod (delta + pc) 1024).
  pose proof (Z.mod_pos_bound (delta + pc) 1024).
  destruct (Z.eqb_spec ((delta + pc) / 1024) 0) as [E|E]; [lia|].
  assert (0 <= (delta + pc) / 1024) by (apply Z.div_pos; lia).
  pose proof (decay_max ((delta + pc) / 1024)). pose proof (decay_nonneg (1024 - pc) ((delta + pc) / 1024)).
  pose proof (decay_le (1024 - pc) ((delta + pc) / 1024)). unfold LOAD_AVG_MAX in *. lia.
Qed.

Lemma decayed_range x delta pc : 0 <= x -> 0 <= delta -> 0 <= pc -> 0 <= decayed x delta pc <= x.
Proof.
  intros Hx Hd Hpc. unfold decayed. destruct (_ =? 0); [lia|].
  assert (0 <= (delta + pc) / 1024) by (apply Z.div_pos; lia). split; [by apply decay_nonneg|by apply decay_le].
Qed.

Lemma segments_eq p d1 d3 : 1 <= p -> 0 <= d1 <= 1024 -> 0 <= d3 < 1024 ->
  __accumulate_pelt_segments p d1 d3 = decay d1 p + (LOAD_AVG_MAX - decay LOAD_AVG_MAX p - 1024) + d3.
Proof.
  intros Hp H1 H3. unfold __accumulate_pelt_segments.
  rewrite !decay_load_ok by (unfold LOAD_AVG_MAX; lia). pose proof (decay_max p Hp).
  pose proof (decay_nonneg d1 p). pose proof (decay_le d1 p). unfold LOAD_AVG_MAX in *. cbv zeta.
  rewrite (u32_small (decay d1 p)), u64_small, (u32_small (_ - _ - 1024)), u32_small by lia. lia.
Qed.

(** The accumulation as three phases: the contribution and the decayed sums, then the
    additions. *)
Lemma accumulate_phases delta sa load runnable running : 0 <= delta < 2 ^ 54 -> 0 <= period_contrib sa < 1024 ->
  0 <= load_sum sa < 2 ^ 64 -> 0 <= runnable_load_sum sa < 2 ^ 64 -> 0 <= util_sum sa < 2 ^ 32 ->
  let pc := period_contrib sa in
  let c := contrib_of delta pc in
  let l := decayed (load_sum sa) delta pc in
  let r := decayed (runnable_load_sum sa) delta pc in
  let u := decayed (util_sum sa) delta pc in
  accumulate_sum delta sa load runnable running =
  (u32 ((delta + pc) / 1024),
   mk_avg (last_update_time sa)
     (if negb (load =? 0) then u64 (l + u64 (load * c)) else l)
     (if negb (runnable =? 0) then u64 (r + u64 (runnable * c)) else r)
     (if negb (running =? 0) then u32 (u + u32 (Z.shiftl c 10)) else u)
     ((delta + pc) mod 1024) (load_avg sa) (runnable_load_avg sa) (util_avg sa) (sa_util_est sa)).
Proof.
  intros Hd Hpc Hl Hr Hu. cbv zeta. unfold accumulate_sum, contrib_of, decayed. cbv zeta.
  set (pc := period_contrib sa) in *. rewrite (u64_small (delta + pc)) by lia.
  pose proof (Z.div_mod (delta + pc) 1024). pose proof (Z.mod_pos_bound (delta + pc) 1024).
  destruct (Z.eqb_spec ((delta + pc) / 1024) 0) as [E|E]; simpl negb; cbv iota zeta.
  - rewrite (Z.mod_small (delta + pc)), (u32_small delta), (u32_small (delta + pc)) by lia. reflexivity.
  - assert (Hp : 1 <= (delta + pc) / 1024) by (pose proof (Z.div_pos (delta + pc) 1024); lia).
    cbn [period_contrib set_sums]. fold pc. rewrite (u32_small (1024 - pc)), (u32_small ((delta + pc) mod 1024)) by lia.
    rewrite segments_eq by lia. rewrite !decay_load_ok by lia.
    pose proof (decay_le (util_sum sa) ((delta + pc) / 1024)).
    pose proof (decay_nonneg (util_sum sa) ((delta + pc) / 1024)).
    rewrite (u32_small (decay (util_sum sa) _)) by lia. reflexivity.
Qed.

Lemma sum_bound W sa : weight_ok W -> 0 <= period_contrib sa < 1024 ->
  W * (divider sa + SLACK) < 2 ^ 64.
Proof. intros [H1 H2] H. unfold divider, SLACK, LOAD_AVG_MAX in *. nia. Qed.

(** An addition that stays in its bound does not wrap. *)
Lemma add_weighted (s w c : Z) : 0 <= s -> 0 <= w -> 0 <= c -> s + w * c < 2 ^ 64 ->
  (if negb (w =? 0) then u64 (s + u64 (w * c)) else s) = s + w * c.
Proof.
  intros Hs Hw Hc H. destruct (Z.eqb_spec w 0) as [->|Hne]; simpl; [lia|].
  rewrite (u64_small (w * c)), u64_small by nia. done.
Qed.

Lemma accumulate_sum_ok W delta sa load runnable running : weight_ok W -> avg_ok W sa ->
  0 <= delta < 2 ^ 54 -> 0 <= load <= W -> 0 <= runnable <= W ->
  accumulate_sum delta sa load runnable running =
    (u32 ((delta + period_contrib sa) / 1024), advance_sums sa delta load runnable running) /\
  avg_ok W (advance_sums sa delta load runnable running).
Proof.
  intros HW Hok Hd Hl Hr. pose proof (sum_bound W sa HW (ao_contrib _ _ Hok)) as Hb.
  destruct Hok as [At Ac Al Ar Au]. set (pc := period_contrib sa) in *.
  assert (Hu : divider sa + SLACK <= 47788) by (unfold divider, SLACK, LOAD_AVG_MAX; fold pc; lia).
  unfold divider in Al, Ar, Au. fold pc in Al, Ar, Au.
  pose proof (step_sum_ok W load (load_sum sa) delta pc) as Sl.
  pose proof (step_sum_ok W runnable (runnable_load_sum sa) delta pc) as Sr.
  pose proof (step_sum_ok 1024 (running_weight running) (util_sum sa) delta pc) as Su.
  assert (Hrw : 0 <= running_weight running <= 1024) by (unfold running_weight; destruct (_ =? _); lia).
  assert (Hm : 0 <= (delta + pc) mod 1024 < 1024) by (apply Z.mod_pos_bound; lia).
  assert (Hb' : W * (LOAD_AVG_MAX - 1024 + (delta + pc) mod 1024 + SLACK) < 2 ^ 64)
    by (destruct HW; unfold LOAD_AVG_MAX, SLACK in *; nia).
  split.
  2: { split; cbn [advance_sums last_update_time period_contrib load_sum runnable_load_sum util_sum]; try done;
       unfold divider; cbn [advance_sums period_contrib]; fold pc; [apply Sl|apply Sr|apply Su]; lia. }
  pose proof (contrib_range delta pc ltac:(lia) ltac:(lia)) as Hc.
  pose proof (decayed_range (load_sum sa) delta pc). pose proof (decayed_range (runnable_load_sum sa) delta pc).
  pose proof (decayed_range (util_sum sa) delta pc).
  rewrite accumulate_phases by (unfold divider in *; fold pc; lia). unfold advance_sums. fold pc. cbv zeta.
  unfold step_sum in Sl, Sr, Su |- *.
  rewrite !add_weighted by lia. do 2 f_equal. unfold running_weight in *. revert Su Hrw.
  destruct (Z.eqb_spec running 0); simpl negb; cbv iota; intros Su _; [lia|]. rewrite Z.shiftl_mul_pow2 by lia. change (2 ^ 10) with 1024.
  unfold LOAD_AVG_MAX, SLACK in Su, Au. rewrite (u32_small (_ * 1024)), u32_small by lia. lia.
Qed.

Lemma advance_unit sa delta load runnable running : 0 <= period_contrib sa < 1024 -> 0 <= delta ->
  0 <= load <= 1 -> 0 <= runnable <= 1 ->
  0 <= load_sum sa <= divider sa -> 0 <= runnable_load_sum sa <= divider sa ->
  let sa' := advance_sums sa delta load runnable running in
  load_sum sa' <= divider sa' /\ runnable_load_sum sa' <= divider sa'.
Proof.
  intros Hpc Hd Hl Hr Sl Sr. cbv zeta. unfold divider in *. cbn [advance_sums load_sum runnable_load_sum period_contrib].
  split; by apply step_sum_unit.
Qed.

(** The update in terms of the elapsed time. *)
Definition elapsed (now : Z) (sa : sched_avg) : Z := u64 (now - last_update_time sa).

Definition zero_if (load x : Z) : Z := if load =? 0 then 0 else x.

Lemma update_load_sum_eq W now sa load runnable running : weight_ok W -> avg_ok W sa ->
  0 <= now < 2 ^ 64 -> 0 <= load <= W -> 0 <= runnable <= W ->
  let d := elapsed now sa in
  ___update_load_sum now sa load runnable running =
    if 2 ^ 63 <=? d then (0, set_last_update_time sa now)
    else if d <? 1024 then (0, sa)
    else (if u32 ((d / 1024 + period_contrib sa) / 1024) =? 0 then 0 else 1,
          advance_sums (set_last_update_time sa (u64 (now - d mod 1024))) (d / 1024) load
                       (zero_if load runnable) (zero_if load running)).
Proof.
  intros HW Hok Hnow Hl Hr. cbv zeta. unfold ___update_load_sum. fold (elapsed now sa).
  assert (Hd : 0 <= elapsed now sa < 2 ^ 64) by apply u64_range. set (d := elapsed now sa) in *.
  assert (Es : (s64 d <? 0) = (2 ^ 63 <=? d)).
  { unfold s64. rewrite u64_small by done. change 9223372036854775808 with (2 ^ 63).
    destruct (Z.ltb_spec d (2 ^ 63)), (Z.leb_spec (2 ^ 63) d); lia. }
  rewrite Es. destruct (Z.leb_spec (2 ^ 63) d) as [H|H]; [done|].
  rewrite Z.shiftr_div_pow2 by lia. change (2 ^ 10) with 1024.
  pose proof (Z.div_mod d 1024). pose proof (Z.mod_pos_bound d 1024).
  assert (Hq : 0 <= d / 1024 < 2 ^ 54) by (split; [apply Z.div_pos|apply Z.div_lt_upper_bound]; lia).
  destruct (Z.ltb_spec d 1024) as [Hs|Hs].
  { rewrite (Z.div_small d 1024) by lia. done. }
  destruct (Z.eqb_spec (d / 1024) 0); [lia|].
  assert (Et : u64 (last_update_time sa + u64 (Z.shiftl (d / 1024) 10)) = u64 (now - d mod 1024)).
  { rewrite Z.shiftl_mul_pow2 by lia. change (2 ^ 10) with 1024. rewrite (u64_small (_ * 1024)) by lia.
    unfold u64. replace (d / 1024 * 1024) with (d - d mod 1024) by lia.
    replace (last_update_time sa + (d - d mod 1024)) with (d + (last_update_time sa - d mod 1024)) by lia.
    unfold d at 1, elapsed, u64. rewrite Zplus_mod_idemp_l. f_equal. lia. }
  rewrite Et. set (sa1 := set_last_update_time sa _).
  assert (Hok1 : avg_ok W sa1) by (destruct Hok; split; try done; apply u64_range).
  assert (Hz : 0 <= zero_if load runnable <= W) by (unfold zero_if; destruct (_ =? _); lia).
  destruct (accumulate_sum_ok W (d / 1024) sa1 load (zero_if load runnable) (zero_if load running) HW Hok1) as [E _]; try done.
  assert (Ep : (if load =? 0 then (0, 0) else (runnable, running)) = (zero_if load runnable, zero_if load running))
    by (unfold zero_if; by destruct (load =? 0)).
  rewrite Ep, E. reflexivity.
Qed.

Lemma update_load_sum_inv W now sa load runnable running : weight_ok W -> avg_ok W sa ->
  0 <= now < 2 ^ 64 -> 0 <= load <= W -> 0 <= runnable <= W ->
  avg_ok W (___update_load_sum now sa load runnable running).2.
Proof.
  intros HW Hok Hnow Hl Hr. rewrite (update_load_sum_eq W) by done.
  destruct (_ <=? _); [by destruct Hok; split|]. destruct (_ <? _); [done|]. simpl.
  pose proof (u64_range (now - last_update_time sa)).
  eapply (accumulate_sum_ok W); try done.
  - destruct Hok; split; try done. apply u64_range.
  - unfold elapsed. split; [apply Z.div_pos; lia|apply Z.div_lt_upper_bound; lia].
  - unfold zero_if. destruct (_ =? _); lia.
Qed.

(** one update of the sums.  If time went backwards only the time stamp moves; less
    than 1024ns are left for the next update; otherwise the sums decay by the periods
    crossed and the time is added, without overflow, the time stamp stays less than
    1024ns behind the clock, the position in the period is right, and the sums stay
    below their limit for the largest weight used. *)
Theorem update_load_sum_correct W now sa load runnable running : weight_ok W -> avg_ok W sa ->
  0 <= now < 2 ^ 64 -> 0 <= load <= W -> 0 <= runnable <= W ->
  let d := elapsed now sa in
  let '(ret, sa') := ___update_load_sum now sa load runnable running in
  avg_ok W sa' /\
  (2 ^ 63 <= d -> ret = 0 /\ sa' = set_last_update_time sa now) /\
  (d < 1024 -> ret = 0 /\ sa' = sa) /\
  (1024 <= d < 2 ^ 63 ->
     elapsed now sa' = d mod 1024 /\
     period_contrib sa' = (d / 1024 + period_contrib sa) mod 1024 /\
     (ret = 1 <-> (d / 1024 + period_contrib sa) / 1024 mod 2 ^ 32 <> 0) /\
     load_sum sa' = step_sum (load_sum sa) load (d / 1024) (period_contrib sa)).
Proof.
  intros HW Hok Hnow Hl Hr. cbv zeta.
  pose proof (update_load_sum_inv W now sa load runnable running HW Hok Hnow Hl Hr) as Hinv.
  rewrite (update_load_sum_eq W) in Hinv |- * by done. set (d := elapsed now sa) in *.
  destruct (Z.leb_spec (2 ^ 63) d); [split; [done|split; [done|split; intros; lia]]|].
  destruct (Z.ltb_spec d 1024); [split; [done|split; [intros; lia|split; [done|intros; lia]]]|].
  split; [done|]. split; [intros; lia|]. split; [intros; lia|]. intros _. split; [|split; [done|split; [split|done]]].
  - unfold elapsed. cbn [advance_sums set_last_update_time last_update_time]. unfold u64.
    rewrite Zminus_mod_idemp_r. replace (now - (now - d mod 1024)) with (d mod 1024) by lia.
    apply Z.mod_small. pose proof (Z.mod_pos_bound d 1024). lia.
  - unfold u32. destruct (Z.eqb_spec ((d / 1024 + period_contrib sa) / 1024 mod 4294967296) 0); [done|intros _; done].
  - unfold u32. intros Hne. by destruct (Z.eqb_spec ((d / 1024 + period_contrib sa) / 1024 mod 4294967296) 0).
Qed.

(** ** The averages *)

Lemma update_load_avg_ok W sa w r : avg_ok W sa ->
  0 <= load_sum sa <= divider sa -> 0 <= runnable_load_sum sa <= divider sa ->
  0 <= w < 2 ^ 48 -> 0 <= r < 2 ^ 48 ->
  let sa' := ___update_load_avg sa w r in
  0 <= load_avg sa' <= w /\ 0 <= runnable_load_avg sa' <= r /\ 0 <= util_avg sa' <= 1025.
Proof.
  intros [At Ac Al Ar Au] Hl Hr Hw Hrw. cbv zeta. unfold ___update_load_avg.
  fold (divider sa). assert (Hd : 46718 <= divider sa < 47742) by (unfold divider, LOAD_AVG_MAX; lia).
  rewrite (u32_small (divider sa)) by lia. cbn [set_avgs load_avg runnable_load_avg util_avg].
  unfold div_u64, div_u64_rem; simpl fst.
  rewrite !u64_small by nia. unfold SLACK in Au.
  assert (util_sum sa / divider sa < 1026) by (apply Z.div_lt_upper_bound; lia).
  repeat split; try (apply Z.div_pos; nia); [apply Z.div_le_upper_bound; nia..|lia].
Qed.

(** A task: its sums carry unit weights, so they keep to the limit exactly. *)
Record se_ok (se : sched_entity) : Prop := mk_se_ok {
  so_avg : avg_ok 1 (se_avg se);
  so_load : load_sum (se_avg se) <= divider (se_avg se);
  so_runnable : runnable_load_sum (se_avg se) <= divider (se_avg se);
  so_weight : 0 <= se_weight se < 2 ^ 48 /\ 0 <= se_runnable se < 2 ^ 48 }.

Lemma unit_weight : weight_ok 1.
Proof. unfold weight_ok, LOAD_AVG_MAX, SLACK. lia. Qed.

Lemma unit_zero : 0 <= 0 <= 1.
Proof. lia. Qed.

Lemma se_sum_ok now se on running ret sa : se_ok se -> 0 <= now < 2 ^ 64 -> 0 <= on <= 1 ->
  ___update_load_sum now (se_avg se) on on running = (ret, sa) ->
  avg_ok 1 sa /\ 0 <= load_sum sa <= divider sa /\ 0 <= runnable_load_sum sa <= divider sa /\ (ret = 0 \/ ret = 1).
Proof.
  intros [Ha Hl Hr Hw] Hn Hon E. pose proof (update_load_sum_inv 1 now (se_avg se) on on running unit_weight Ha Hn Hon Hon) as Hi.
  rewrite E in Hi. simpl in Hi. split; [done|].
  assert (Hsum : load_sum sa <= divider sa /\ runnable_load_sum sa <= divider sa /\ (ret = 0 \/ ret = 1)).
  2: { destruct Hi. repeat split; try lia; tauto. }
  rewrite (update_load_sum_eq 1) in E by (done || apply unit_weight).
  pose proof (u64_range (now - last_update_time (se_avg se))).
  destruct (_ <=? _); [injection E as <- <-; repeat split; [done|done|by left]|].
  destruct (_ <? _); [injection E as <- <-; repeat split; [done|done|by left]|].
  injection E as <- <-. destruct Ha as [At Ac Al Ar Au].
  edestruct (advance_unit (set_last_update_time (se_avg se) (u64 (now - elapsed now (se_avg se) mod 1024)))
    (elapsed now (se_avg se) / 1024) on (zero_if on on) (zero_if on running)) as [H1 H2].
  - done.
  - apply Z.div_pos; [apply u64_range|lia].
  - done.
  - unfold zero_if. destruct (_ =? _); lia.
  - split; [apply Al|done].
  - split; [apply Ar|done].
  - repeat split; [exact H1|exact H2|]. destruct (_ =? 0); [by left|by right].
Qed.

(** C36: the averages of a task are bounded after any sequence of updates: an update of a
    runnable or of a blocked entity keeps its sums within the limit of the current
    period, and when it reports new averages, the load averages are at most the weights
    and the utilisation is at most 1025. *)
Theorem pelt_averages_bounded now curr se : se_ok se -> 0 <= now < 2 ^ 64 ->
  let ok r := let '(ret, se') := r in
    se_ok se' /\
    (ret = 1 -> 0 <= load_avg (se_avg se') <= se_weight se /\
                0 <= runnable_load_avg (se_avg se') <= se_runnable se /\ 0 <= util_avg (se_avg se') <= 1025) in
  ok (__update_load_avg_se now curr se) /\ ok (__update_load_avg_blocked_se now se).
Proof.
  intros Hok Hn. pose proof (so_weight _ Hok) as [Hw Hr]. cbv zeta. split.
  - unfold __update_load_avg_se. set (on := bool_to_Z _).
    assert (Hon : 0 <= on <= 1) by (unfold on, bool_to_Z; destruct (negb _); lia). clearbody on.
    destruct (___update_load_sum now (se_avg se) on on (bool_to_Z curr)) as [ret sa] eqn:E.
    destruct (se_sum_ok _ _ _ _ _ _ Hok Hn Hon E) as (Ha&Hl&Hrs&[-> | ->]); simpl.
    + split; [|done]. split; try done; simpl; lia.
    + pose proof (update_load_avg_ok 1 sa (se_weight se) (se_runnable se) Ha Hl Hrs Hw Hr) as B.
      unfold cfs_se_util_change. destruct (_ =? 0); (split; [|intros _; exact B]);
        (split; [destruct Ha; by split|exact (proj2 Hl)|exact (proj2 Hrs)|done]).
  - unfold __update_load_avg_blocked_se.
    destruct (___update_load_sum now (se_avg se) 0 0 0) as [ret sa] eqn:E.
    destruct (se_sum_ok _ _ _ _ _ _ Hok Hn unit_zero E) as (Ha&Hl&Hrs&[-> | ->]); simpl.
    + split; [|done]. split; try done; simpl; lia.
    + pose proof (update_load_avg_ok 1 sa (se_weight se) (se_runnable se) Ha Hl Hrs Hw Hr) as B.
      split; [|intros _; exact B]. split; [destruct Ha; by split|exact (proj2 Hl)|exact (proj2 Hrs)|done].
Qed.

(** ** Concrete runs *)

Definition avg_zero (pc : Z) : sched_avg := mk_avg 0 0 0 0 pc 0 0 0 (mk_util_est 0 0).
Definition nice0_task (pc : Z) : sched_entity := mk_se (avg_zero pc) 1048576 1048576 1.

Lemma nice0_ok pc : 0 <= pc < 1024 -> se_ok (nice0_task pc).
Proof.
  intros H. split; [split|..]; simpl; unfold divider, LOAD_AVG_MAX, SLACK; simpl; try lia.
  vm_compute; repeat split; discriminate.
Qed.

(** [n] updates of the running task, [step] ns apart. *)
Fixpoint run_task (n : nat) (now step : Z) (se : sched_entity) : Z * sched_entity :=
  match n with
  | O => (now, se)
  | S n => run_task n (now + step) step (__update_load_avg_se (now + step) true se).2
  end.

(** the utilisation of a task can exceed the full capacity of 1024: a task that
    starts 884us into a period and runs without a break, updated every 1024us and then
    once 140us later, has a [util_avg] of 1025. *)
Theorem pelt_util_overshoot :
  let '(now, se) := run_task 536 0 (1024 * 1024) (nice0_task 884) in
  let '(ret, se) := __update_load_avg_se (now + 140 * 1024) true se in
  ret = 1 /\ util_avg (se_avg se) = 1025 /\ SCHED_CAPACITY_SCALE < util_avg (se_avg se).
Proof. vm_compute. repeat split. Qed.

Lemma pelt_averages_bounded_witness :
  se_ok (__update_load_avg_se 5000000 true (nice0_task 10)).2 /\
  (__update_load_avg_se 5000000 true (nice0_task 10)).1 = 1 /\
  load_avg (se_avg (__update_load_avg_se 5000000 true (nice0_task 10)).2) <= 1024.
Proof.
  destruct (pelt_averages_bounded 5000000 true (nice0_task 10)) as [H _]; [apply nice0_ok; lia|lia|].
  destruct (__update_load_avg_se 5000000 true (nice0_task 10)) as [ret se] eqn:E.
  assert (Er : ret = 1) by (vm_compute in E; congruence).
  destruct H as [H1 H2]. split; [exact H1|]. split; [exact Er|]. apply H2, Er.
Defined.

Lemma update_load_sum_correct_witness :
  elapsed 5000000 (___update_load_sum 5000000 (avg_zero 10) 1 1 1).2 = 832 /\
  period_contrib (___update_load_sum 5000000 (avg_zero 10) 1 1 1).2 = 796.
Proof.
  pose proof (update_load_sum_correct 1 5000000 (avg_zero 10) 1 1 1 unit_weight
    (so_avg _ (nice0_ok 10 ltac:(lia))) ltac:(lia) ltac:(lia) ltac:(lia)) as H.
  destruct (___update_load_sum 5000000 (avg_zero 10) 1 1 1) as [ret sa] eqn:E.
  destruct H as (_&_&_&H). destruct H as (H1&H2&_); [vm_compute; split; [discriminate|reflexivity]|].
  simpl. rewrite H1, H2. split; vm_compute; reflexivity.
Defined.

(** At full capacity the scaled clock of a busy run queue advances by the elapsed time. *)
Lemma clock_pelt_busy r delta : rq_curr r = Some false -> 0 <= delta < 2 ^ 53 ->
  clock_pelt (update_rq_clock_pelt r delta) = u64 (clock_pelt r + delta).
Proof.
  intros Hc Hd. unfold update_rq_clock_pelt. rewrite Hc.
  assert (E : s64 (cap_scale delta 1024) = delta).
  { unfold cap_scale. rewrite u64_small by lia. rewrite Z.shiftr_div_pow2 by done.
    change (2 ^ SCHED_CAPACITY_SHIFT) with 1024. rewrite Z.div_mul by lia.
    unfold s64. rewrite u64_small by lia. destruct (Z.ltb_spec delta 9223372036854775808); lia. }
  unfold arch_scale_cpu_capacity, arch_scale_freq_capacity, SCHED_CAPACITY_SCALE. rewrite !E. reflexivity.
Qed.
