(* ===== verification/Loadavg.v ===== *)
(** * The global load average (kernel/sched/loadavg.c, include/linux/sched/loadavg.h)

    Every CPU folds the change of its number of active tasks into a global counter, at
    its tick or, when it goes idle without ticks, into one of two pending deltas; every
    [LOAD_FREQ] ticks the counter enters three exponentially decaying averages.  Values
    of type [long] are kept in the signed 64-bit range by [s64]. *)

From S2P Require Import Prelude.
From stdpp Require Import relations.
Local Open Scope Z_scope.

Definition HZ : Z := 100.
Definition FSHIFT : Z := 11.
Definition FIXED_1 : Z := Z.shiftl 1 FSHIFT.
Definition LOAD_FREQ : Z := 5 * HZ + 1.
Definition EXP_1 : Z := 1884.
Definition EXP_5 : Z := 2014.
Definition EXP_15 : Z := 2037.

Definition time_after (a b : Z) : bool := s64 (u64 (b - a)) <? 0.
Definition time_before (a b : Z) : bool := time_after b a.

Definition calc_load (load exp active : Z) : Z :=
  let newload := u64 (u64 (load * exp) + u64 (active * u64 (FIXED_1 - exp))) in
  let newload := if load <=? active then u64 (newload + (FIXED_1 - 1)) else newload in
  newload / FIXED_1.

(** The loop of [fixed_power_int]; 32 rounds are enough for an [unsigned int] power. *)
Fixpoint power_loop (fuel : nat) (x frac_bits n result : Z) : res Z :=
  match fuel with
  | O => Fault NoFuel
  | S fuel =>
    let result :=
      if negb (Z.land n 1 =? 0) then
        Z.shiftr (u64 (u64 (result * x) + u64 (Z.shiftl 1 (frac_bits - 1)))) frac_bits
      else result in
    let n := Z.shiftr n 1 in
    if n =? 0 then Ok result
    else
      let x := Z.shiftr (u64 (u64 (x * x) + u64 (Z.shiftl 1 (frac_bits - 1)))) frac_bits in
      power_loop fuel x frac_bits n result
  end.

Definition fixed_power_int (x frac_bits n : Z) : res Z :=
  let result := u64 (Z.shiftl 1 frac_bits) in
  if negb (n =? 0) then power_loop 32 x frac_bits n result else Ok result.

Local Open Scope res_scope.

Definition calc_load_n (load exp active n : Z) : res Z :=
  e <-- fixed_power_int exp FSHIFT (u32 n); Ok (calc_load load e active).

(** ** The state *)

Record rq := mk_rq { nr_running : Z; nr_uninterruptible : Z; calc_load_active : Z; rq_load_update : Z }.

Record global := mk_global {
  jiffies : Z; calc_load_tasks : Z; calc_load_update : Z;
  avenrun : Z * Z * Z; nohz0 : Z; nohz1 : Z; calc_load_idx : Z }.

Definition set_tasks (g : global) (t : Z) : global :=
  mk_global (jiffies g) t (calc_load_update g) (avenrun g) (nohz0 g) (nohz1 g) (calc_load_idx g).
Definition set_update (g : global) (t : Z) : global :=
  mk_global (jiffies g) (calc_load_tasks g) t (avenrun g) (nohz0 g) (nohz1 g) (calc_load_idx g).
Definition set_avenrun (g : global) (a : Z * Z * Z) : global :=
  mk_global (jiffies g) (calc_load_tasks g) (calc_load_update g) a (nohz0 g) (nohz1 g) (calc_load_idx g).
Definition set_nohz (g : global) (i d : Z) : global :=
  mk_global (jiffies g) (calc_load_tasks g) (calc_load_update g) (avenrun g)
            (if i =? 0 then d else nohz0 g) (if i =? 0 then nohz1 g else d) (calc_load_idx g).
Definition set_idx (g : global) (i : Z) : global :=
  mk_global (jiffies g) (calc_load_tasks g) (calc_load_update g) (avenrun g) (nohz0 g) (nohz1 g) i.

(** [calc_load_nohz[i]] for [i] 0 or 1 *)
Definition nohz (g : global) (i : Z) : Z := if i =? 0 then nohz0 g else nohz1 g.

Definition atomic_long_add (i v : Z) : Z := s64 (v + i).

Definition get_avenrun (g : global) (offset shift : Z) : Z * Z * Z :=
  let '(a0, a1, a2) := avenrun g in
  (u64 (Z.shiftl (u64 (a0 + offset)) shift), u64 (Z.shiftl (u64 (a1 + offset)) shift),
   u64 (Z.shiftl (u64 (a2 + offset)) shift)).

Definition calc_load_fold_active (this_rq : rq) (adjust : Z) : Z * rq :=
  let nr_active := s64 (nr_running this_rq - adjust) in
  let nr_active := s64 (nr_active + s64 (nr_uninterruptible this_rq)) in
  if negb (nr_active =? calc_load_active this_rq) then
    (s64 (nr_active - calc_load_active this_rq),
     mk_rq (nr_running this_rq) (nr_uninterruptible this_rq) nr_active (rq_load_update this_rq))
  else (0, this_rq).

Definition calc_load_write_idx (g : global) : Z :=
  let idx := calc_load_idx g in
  let idx := if negb (time_before (jiffies g) (calc_load_update g)) then s32 (idx + 1) else idx in
  Z.land idx 1.

Definition calc_load_read_idx (g : global) : Z := Z.land (calc_load_idx g) 1.

Definition calc_load_nohz_start (this_rq : rq) (g : global) : rq * global :=
  let '(delta, this_rq) := calc_load_fold_active this_rq 0 in
  if negb (delta =? 0) then
    let idx := calc_load_write_idx g in
    (this_rq, set_nohz g idx (atomic_long_add delta (nohz g idx)))
  else (this_rq, g).

Definition set_rq_update (r : rq) (t : Z) : rq := mk_rq (nr_running r) (nr_uninterruptible r) (calc_load_active r) t.

Definition calc_load_nohz_stop (this_rq : rq) (g : global) : rq :=
  let this_rq := set_rq_update this_rq (calc_load_update g) in
  if time_before (jiffies g) (rq_load_update this_rq) then this_rq
  else if time_before (jiffies g) (u64 (rq_load_update this_rq + 10))
       then set_rq_update this_rq (u64 (rq_load_update this_rq + LOAD_FREQ))
       else this_rq.

Definition calc_load_nohz_fold (g : global) : Z * global :=
  let idx := calc_load_read_idx g in
  if negb (nohz g idx =? 0) then (nohz g idx, set_nohz g idx 0) else (0, g).

(** [active > 0 ? active * FIXED_1 : 0], an [unsigned long] in the calls that use it *)
Definition active_fixed (tasks : Z) : Z := if 0 <? tasks then s64 (tasks * FIXED_1) else 0.

Definition calc_global_nohz (g : global) : res global :=
  let sample_window := calc_load_update g in
  g <--
    (if negb (time_before (jiffies g) (u64 (sample_window + 10))) then
       let delta := s64 (u64 (jiffies g - sample_window - 10)) in
       let n := s64 (1 + Z.quot delta LOAD_FREQ) in
       let active := u64 (active_fixed (calc_load_tasks g)) in
       let '(a0, a1, a2) := avenrun g in
       a0 <-- calc_load_n a0 EXP_1 active n;
       a1 <-- calc_load_n a1 EXP_5 active n;
       a2 <-- calc_load_n a2 EXP_15 active n;
       let g := set_avenrun g (a0, a1, a2) in
       Ok (set_update g (u64 (sample_window + n * LOAD_FREQ)))
     else Ok g);
  Ok (set_idx g (s32 (calc_load_idx g + 1))).

Definition calc_global_load (g : global) : res global :=
  let sample_window := calc_load_update g in
  if time_before (jiffies g) (u64 (sample_window + 10)) then Ok g
  else
    let '(delta, g) := calc_load_nohz_fold g in
    let g := if negb (delta =? 0) then set_tasks g (atomic_long_add delta (calc_load_tasks g)) else g in
    let active := u64 (active_fixed (calc_load_tasks g)) in
    let '(a0, a1, a2) := avenrun g in
    let g := set_avenrun g (calc_load a0 EXP_1 active, calc_load a1 EXP_5 active, calc_load a2 EXP_15 active) in
    let g := set_update g (u64 (sample_window + LOAD_FREQ)) in
    calc_global_nohz g.

Definition calc_global_load_tick (this_rq : rq) (g : global) : rq * global :=
  if time_before (jiffies g) (rq_load_update this_rq) then (this_rq, g)
  else
    let '(delta, this_rq) := calc_load_fold_active this_rq 0 in
    let g := if negb (delta =? 0) then set_tasks g (atomic_long_add delta (calc_load_tasks g)) else g in
    (set_rq_update this_rq (u64 (rq_load_update this_rq + LOAD_FREQ)), g).

(** ** One step of an average *)

Lemma calc_load_exact load exp active : 0 <= exp <= 2048 -> 0 <= load < 2 ^ 52 -> 0 <= active < 2 ^ 52 ->
  calc_load load exp active =
  (load * exp + active * (2048 - exp) + (if load <=? active then 2047 else 0)) / 2048.
Proof.
  intros He Hl Ha. unfold calc_load. change FIXED_1 with 2048.
  assert (H1 : 0 <= load * exp <= 2 ^ 52 * exp) by nia.
  assert (H2 : 0 <= active * (2048 - exp) <= 2 ^ 52 * (2048 - exp)) by nia.
  rewrite (u64_small (2048 - exp)), (u64_small (load * exp)), (u64_small (active * _)) by lia.
  rewrite (u64_small (load * exp + active * (2048 - exp))) by lia. destruct (load <=? active); [|by rewrite Z.add_0_r].
  by rewrite u64_small by lia.
Qed.

(** The new average lies between the old one and the active count, and moves. *)
Lemma calc_load_toward load exp active : 0 <= exp < 2048 -> 0 <= load < 2 ^ 52 -> 0 <= active < 2 ^ 52 ->
  let r := calc_load load exp active in
  (load < active -> load < r <= active) /\ (load = active -> r = active) /\ (active < load -> active <= r < load).
Proof.
  intros He Hl Ha. cbv zeta. rewrite calc_load_exact by lia.
  destruct (Z.leb_spec load active); repeat split; intros; try lia.
  - apply Z.lt_le_trans with (load + 1); [lia|]. apply Z.div_le_lower_bound; nia.
  - apply Z.lt_succ_r, Z.div_lt_upper_bound; nia.
  - subst. apply Z.le_antisymm; [apply Z.lt_succ_r, Z.div_lt_upper_bound; nia|apply Z.div_le_lower_bound; nia].
  - apply Z.div_le_lower_bound; nia.
  - apply Z.div_lt_upper_bound; nia.
Qed.

Lemma calc_load_between load exp active b : 0 <= exp <= 2048 -> 0 <= load <= b -> 0 <= active <= b -> b < 2 ^ 52 ->
  0 <= calc_load load exp active <= b.
Proof.
  intros He Hl Ha Hb. rewrite calc_load_exact by lia.
  split; [apply Z.div_pos; [destruct (_ <=? _); nia|lia]|].
  apply Z.lt_succ_r, Z.div_lt_upper_bound; [lia|]. destruct (_ <=? _); nia.
Qed.

(** One step keeps the factor [exp / 2048] of the distance, rounded towards [active]. *)
Lemma calc_load_quot load exp active : 0 <= exp <= 2048 -> 0 <= load < 2 ^ 52 -> 0 <= active < 2 ^ 52 ->
  calc_load load exp active = active + Z.quot (exp * (load - active)) 2048.
Proof.
  intros He Hl Ha. rewrite calc_load_exact by lia. destruct (Z.leb_spec load active).
  - replace (exp * (load - active)) with (- (exp * (active - load))) by lia. rewrite Z.quot_opp_l, Z.quot_div_nonneg by nia.
    replace (load * exp + active * (2048 - exp) + 2047) with (active * 2048 + (2047 - exp * (active - load))) by lia.
    rewrite Z.div_add_l by lia. Z.to_euclidean_division_equations; lia.
  - rewrite Z.quot_div_nonneg by nia. replace (load * exp + active * (2048 - exp) + 0) with (active * 2048 + exp * (load - active)) by lia.
    by rewrite Z.div_add_l by lia.
Qed.

Lemma quot_abs exp d : 0 <= exp -> Z.abs (Z.quot (exp * d) 2048) = exp * Z.abs d / 2048.
Proof.
  intros He. rewrite <- Z.quot_abs, Z.abs_mul, (Z.abs_eq exp) by lia. by rewrite Z.quot_div_nonneg by lia.
Qed.

Lemma decay_step exp d : 0 <= exp < 2048 -> let d' := exp * Z.abs d / 2048 in
  2048 * d' <= exp * Z.abs d < 2048 * d' + 2048 /\ 0 <= d' <= Z.abs d /\ (d <> 0 -> d' < Z.abs d).
Proof.
  intros He d'. pose proof (Z.div_mod (exp * Z.abs d) 2048 ltac:(lia)) as D. pose proof (Z.mod_pos_bound (exp * Z.abs d) 2048 ltac:(lia)) as M.
  fold d' in D. split; [lia|]. assert (0 <= d') by (apply Z.div_pos; lia). split; [nia|]. intros. nia.
Qed.

(** The averages after [k] steps with a constant number of active tasks. *)
Definition averaged (exp active load : Z) (k : nat) : Z := Nat.iter k (fun l => calc_load l exp active) load.

Lemma averaged_range exp active load k : 0 <= exp < 2048 -> 0 <= load < 2 ^ 52 -> 0 <= active < 2 ^ 52 -> 0 <= averaged exp active load k < 2 ^ 52.
Proof.
  intros He Hl Ha. induction k as [|k IH]; [done|]. change (averaged exp active load (S k)) with (calc_load (averaged exp active load k) exp active).
  pose proof (calc_load_between (averaged exp active load k) exp active (2 ^ 52 - 1)). lia.
Qed.

(** The distance decays geometrically, up to the sum of the rounding of all steps. *)
Lemma averaged_decay exp active load k : 0 <= exp < 2048 -> 0 <= load < 2 ^ 52 -> 0 <= active < 2 ^ 52 ->
  2048 ^ Z.of_nat k * Z.abs (averaged exp active load k - active) <= exp ^ Z.of_nat k * Z.abs (load - active) /\
  (2048 - exp) * exp ^ Z.of_nat k * Z.abs (load - active) <= 2048 ^ Z.of_nat k * ((2048 - exp) * Z.abs (averaged exp active load k - active) + 2048).
Proof.
  intros He Hl Ha. induction k as [|k [IH1 IH2]]; [cbn; lia|]. rewrite Nat2Z.inj_succ, !Z.pow_succ_r by lia.
  change (averaged exp active load (S k)) with (calc_load (averaged exp active load k) exp active). rewrite calc_load_quot by (auto using averaged_range; lia).
  replace (active + _ - active) with (Z.quot (exp * (averaged exp active load k - active)) 2048) by lia. rewrite quot_abs by lia.
  destruct (decay_step exp (averaged exp active load k - active) He) as ([S1 S2] & [S3 _] & _).
  set (d := Z.abs (averaged exp active load k - active)) in *. set (d' := exp * d / 2048) in *. set (P := 2048 ^ Z.of_nat k) in *. set (Q := exp ^ Z.of_nat k) in *.
  assert (0 < P) by (by apply Z.pow_pos_nonneg; lia). assert (0 <= Q) by (apply Z.pow_nonneg; lia). split.
  - assert (H1 : P * (2048 * d') <= P * (exp * d)) by (apply Z.mul_le_mono_nonneg_l; lia).
    assert (H2 : exp * (P * d) <= exp * (Q * Z.abs (load - active))) by (apply Z.mul_le_mono_nonneg_l; lia). lia.
  - assert (H1 : exp * ((2048 - exp) * Q * Z.abs (load - active)) <= exp * (P * ((2048 - exp) * d + 2048))) by (apply Z.mul_le_mono_nonneg_l; lia).
    assert (H2 : (2048 - exp) * (exp * d) <= (2048 - exp) * (2048 * d' + 2048)) by (apply Z.mul_le_mono_nonneg_l; lia).
    assert (H3 : P * ((2048 - exp) * (exp * d)) <= P * ((2048 - exp) * (2048 * d' + 2048))) by (apply Z.mul_le_mono_nonneg_l; lia). lia.
Qed.

Lemma averaged_reaches exp active load k : 0 <= exp < 2048 -> 0 <= load < 2 ^ 52 -> 0 <= active < 2 ^ 52 ->
  Z.abs (load - active) <= Z.of_nat k -> averaged exp active load k = active.
Proof.
  intros He. revert load. induction k as [|k IH]; intros load Hl Ha Hk; [cbn; lia|].
  unfold averaged. rewrite Nat.iter_succ_r. destruct (calc_load_toward load exp active He Hl Ha) as (H1&H2&H3).
  destruct (Z.lt_trichotomy load active) as [H|[H|H]]; [|rewrite H2 by done|]; apply IH; lia.
Qed.

(** C38: the averages converge, at the rate of their decay factor.  With a constant number of
    active tasks, and loads and counts below 2^52, each step leaves [exp] / 2048 of the distance
    between an average and the active count, rounded towards the count: the average moves strictly
    towards it and never past it.  After k steps the distance is at most ([exp] / 2048)^k of the
    first one, and less by no more than 2048 / (2048 - [exp]), so the past fades neither slower nor
    faster than it should; and after as many steps as the two differ the average is exactly the
    active count and stays there: rounding leaves no residue. *)
Theorem calc_load_converges exp active load k : 0 <= exp < 2048 -> 0 <= load < 2 ^ 52 -> 0 <= active < 2 ^ 52 ->
  let avg := averaged exp active load in
  avg (S k) = active + Z.quot (exp * (avg k - active)) 2048 /\
  (avg k < active -> avg k < avg (S k) <= active) /\ (active < avg k -> active <= avg (S k) < avg k) /\
  2048 ^ Z.of_nat k * Z.abs (avg k - active) <= exp ^ Z.of_nat k * Z.abs (load - active) /\
  (2048 - exp) * exp ^ Z.of_nat k * Z.abs (load - active) <= 2048 ^ Z.of_nat k * ((2048 - exp) * Z.abs (avg k - active) + 2048) /\
  (Z.abs (load - active) <= Z.of_nat k -> avg k = active).
Proof.
  intros He Hl Ha avg. pose proof (averaged_range exp active load k He Hl Ha) as Hr. fold avg in Hr.
  assert (Hs : forall j, avg (S j) = calc_load (avg j) exp active) by done. destruct (calc_load_toward (avg k) exp active He Hr Ha) as (H1&H2&H3).
  split; [rewrite Hs; apply calc_load_quot; lia|]. rewrite Hs. split; [lia|]. split; [lia|].
  split; [by apply averaged_decay|]. split; [by apply averaged_decay|]. intros Hk. by apply averaged_reaches.
Qed.

(** ** Powers in fixed point *)

(** [a] is 2048 (x/2048)^m up to [e] half units. *)
Definition approx (x a m e : Z) : Prop := 2 * Z.abs (a * 2048 ^ m - 2048 * x ^ m) <= e * 2048 ^ m.

Lemma approx_mul x a m e b k f : 0 <= x <= 2048 -> 0 <= a <= 2048 -> 0 <= b <= 2048 -> 0 <= m -> 0 <= k ->
  approx x a m e -> approx x b k f ->
  let c := (a * b + 1024) / 2048 in 0 <= c <= 2048 /\ approx x c (m + k) (e + f + 1).
Proof.
  intros Hx Ha Hb Hm Hk A B c. pose proof (Z.div_mod (a * b + 1024) 2048 ltac:(lia)) as Dc.
  pose proof (Z.mod_pos_bound (a * b + 1024) 2048 ltac:(lia)) as Rc. fold c in Dc.
  split; [split; [apply Z.div_pos; nia|apply Z.lt_succ_r, Z.div_lt_upper_bound; nia]|].
  unfold approx in *. rewrite !Z.pow_add_r by lia.
  assert (Hp : 0 < 2048 ^ m) by (by apply Z.pow_pos_nonneg). assert (Hq : 0 < 2048 ^ k) by (by apply Z.pow_pos_nonneg).
  assert (Hxm : 0 <= x ^ m <= 2048 ^ m) by (split; [apply Z.pow_nonneg|apply Z.pow_le_mono_l]; lia).
  set (p := 2048 ^ m) in *. set (q := 2048 ^ k) in *. set (u := x ^ m) in *. set (v := x ^ k) in *.
  clearbody p q u v. clearbody c.
  assert (Ec : Z.abs (2048 * c - a * b) <= 1024) by lia.
  assert (T : 2048 * (c * (p * q) - 2048 * (u * v)) =
    (2048 * c - a * b) * (p * q) + ((a * p - 2048 * u) * (b * q) + 2048 * u * (b * q - 2048 * v))) by ring.
  assert (T1 : Z.abs ((2048 * c - a * b) * (p * q)) <= 1024 * (p * q))
    by (rewrite Z.abs_mul, (Z.abs_eq (p * q)) by nia; apply Z.mul_le_mono_nonneg_r; nia).
  assert (T2 : 2 * Z.abs ((a * p - 2048 * u) * (b * q)) <= e * p * (2048 * q)).
  { rewrite Z.abs_mul, (Z.abs_eq (b * q)) by nia. rewrite Z.mul_assoc.
    apply Z.mul_le_mono_nonneg; [lia|done|nia|nia]. }
  assert (T3 : 2 * Z.abs (2048 * u * (b * q - 2048 * v)) <= 2048 * p * (f * q)).
  { rewrite Z.abs_mul, (Z.abs_eq (2048 * u)) by nia.
    replace (2 * (2048 * u * Z.abs (b * q - 2048 * v))) with (2048 * u * (2 * Z.abs (b * q - 2048 * v))) by ring.
    apply Z.mul_le_mono_nonneg; [nia|nia|lia|done]. }
  assert (S : 2048 * Z.abs (c * (p * q) - 2048 * (u * v)) =
    Z.abs (2048 * (c * (p * q) - 2048 * (u * v)))) by (rewrite Z.abs_mul; lia).
  rewrite T in S.
  pose proof (Z.abs_triangle ((2048 * c - a * b) * (p * q)) ((a * p - 2048 * u) * (b * q) + 2048 * u * (b * q - 2048 * v))) as X1.
  pose proof (Z.abs_triangle ((a * p - 2048 * u) * (b * q)) (2048 * u * (b * q - 2048 * v))) as X2.
  nia.
Qed.

Lemma land_1_mod x : Z.land x 1 = x mod 2.
Proof. change 1 with (Z.ones 1). by rewrite Z.land_ones. Qed.

Lemma round_shift y : 0 <= y < 2 ^ 63 ->
  Z.shiftr (u64 (u64 y + u64 (Z.shiftl 1 (FSHIFT - 1)))) FSHIFT = (y + 1024) / 2048.
Proof.
  intros H. change (u64 (Z.shiftl 1 (FSHIFT - 1))) with 1024. rewrite (u64_small y), u64_small by lia.
  by rewrite Z.shiftr_div_pow2 by done.
Qed.

Lemma power_loop_ok x fuel a m n r k : 0 <= x <= 2048 -> 0 <= a <= 2048 -> 0 <= r <= 2048 -> 1 <= m -> 0 <= k ->
  0 < n < 2 ^ Z.of_nat fuel -> approx x a m (m - 1) -> approx x r k k ->
  exists r', power_loop fuel a FSHIFT n r = Ok r' /\ 0 <= r' <= 2048 /\ approx x r' (k + m * n) (k + m * n).
Proof.
  intros Hx. revert a m n r k. induction fuel as [|fuel IH]; intros a m n r k Ha Hr Hm Hk Hn A R; [simpl in Hn; lia|].
  cbn [power_loop]. rewrite (Z.mul_comm r a), (round_shift (a * r)), (round_shift (a * a)) by nia.
  rewrite Z.shiftr_div_pow2 by lia. change (2 ^ 1) with 2.
  rewrite land_1_mod.
  pose proof (Z.div_mod n 2 ltac:(lia)) as Dn. pose proof (Z.mod_pos_bound n 2 ltac:(lia)).
  rewrite Nat2Z.inj_succ, Z.pow_succ_r in Hn by lia.
  destruct (approx_mul x a m (m - 1) r k k) as [Hc C]; try done; try lia.
  destruct (approx_mul x a m (m - 1) a m (m - 1)) as [Hs S]; try done; try lia.
  replace (m + m) with (2 * m) in S by lia. replace (m - 1 + (m - 1) + 1) with (2 * m - 1) in S by lia.
  set (r1 := if negb (n mod 2 =? 0) then (a * r + 1024) / 2048 else r).
  assert (R1 : 0 <= r1 <= 2048 /\ approx x r1 (k + m * (n mod 2)) (k + m * (n mod 2))).
  { unfold r1. destruct (Z.eqb_spec (n mod 2) 0) as [E|E]; simpl negb; cbv iota.
    - rewrite E, Z.mul_0_r, Z.add_0_r. done.
    - replace (n mod 2) with 1 by lia. rewrite Z.mul_1_r. split; [done|].
      by replace (k + m) with (m + k) by lia; replace (m - 1 + k + 1) with (m + k) in C by lia. }
  destruct R1 as [Hr1 R1]. destruct (Z.eqb_spec (n / 2) 0) as [E|E].
  - exists r1. split; [done|]. split; [done|]. by replace n with (n mod 2) at 1 2 by lia.
  - destruct (IH ((a * a + 1024) / 2048) (2 * m) (n / 2) r1 (k + m * (n mod 2))) as (r'&Er&Hr'&R'); try done; try nia.
    exists r'. split; [exact Er|]. split; [done|].
    by replace (k + m * n) with (k + m * (n mod 2) + 2 * m * (n / 2)) by nia.
Qed.

Lemma fixed_power_int_ok x n : 0 <= x <= 2048 -> 0 <= n < 2 ^ 32 ->
  exists r, fixed_power_int x FSHIFT n = Ok r /\ 0 <= r <= 2048 /\ approx x r n n.
Proof.
  intros Hx Hn. unfold fixed_power_int. change (u64 (Z.shiftl 1 FSHIFT)) with 2048.
  assert (A0 : approx x 2048 0 0) by (unfold approx; simpl; lia).
  destruct (Z.eqb_spec n 0) as [->|Hne]; simpl negb; cbv iota; [exists 2048; repeat split; [lia..|done]|].
  destruct (power_loop_ok x 32 x 1 n 2048 0) as (r&E&Hr&A); try done; try lia.
  - unfold approx. rewrite !Z.pow_1_r. lia.
  - exists r. split; [exact E|]. split; [done|]. by replace (0 + 1 * n) with n in A by lia.
Qed.

(** [fixed_power_int] terminates for every 32-bit exponent and computes x^n in fixed
    point to within n/2 units in the last place, inside [0, 1]; so does the catch-up
    step [calc_load_n], which stays below any bound of the average and of the active
    count. *)
Theorem fixed_power_int_correct x n load active b : 0 <= x <= 2048 -> 0 <= n < 2 ^ 32 ->
  0 <= load <= b -> 0 <= active <= b -> b < 2 ^ 52 ->
  exists r, fixed_power_int x FSHIFT n = Ok r /\ 0 <= r <= 2048 /\
    2 * Z.abs (r * 2048 ^ n - 2048 * x ^ n) <= n * 2048 ^ n /\
    calc_load_n load x active n = Ok (calc_load load r active) /\
    0 <= calc_load load r active <= b.
Proof.
  intros Hx Hn Hl Ha Hb. destruct (fixed_power_int_ok x n Hx Hn) as (r&E&Hr&A).
  exists r. split; [done|]. split; [done|]. split; [exact A|]. split.
  - unfold calc_load_n. rewrite u32_small by lia. by rewrite E.
  - by apply calc_load_between.
Qed.

(** ** Conservation of the active count *)

(** The machine: one run queue per CPU and the global state. *)
Definition machine : Type := list rq * global.

Definition sum_active (rqs : list rq) : Z := fold_right (fun r s => calc_load_active r + s) 0 rqs.
Definition pending (g : global) : Z := calc_load_tasks g + nohz0 g + nohz1 g.

(** What can happen: a tick or an idle transition of a CPU, the global update, the
    passing of time, and any change of the task counts of a CPU. *)
Inductive step : machine -> machine -> Prop :=
  | step_tick rqs g i r r' g' :
      rqs !! i = Some r -> calc_global_load_tick r g = (r', g') -> step (rqs, g) (<[i := r']> rqs, g')
  | step_nohz_start rqs g i r r' g' :
      rqs !! i = Some r -> calc_load_nohz_start r g = (r', g') -> step (rqs, g) (<[i := r']> rqs, g')
  | step_nohz_stop rqs g i r :
      rqs !! i = Some r -> step (rqs, g) (<[i := calc_load_nohz_stop r g]> rqs, g)
  | step_global rqs g g' : calc_global_load g = Ok g' -> step (rqs, g) (rqs, g')
  | step_time rqs g t :
      step (rqs, g) (rqs, mk_global t (calc_load_tasks g) (calc_load_update g) (avenrun g) (nohz0 g) (nohz1 g) (calc_load_idx g))
  | step_tasks rqs g i r n u :
      rqs !! i = Some r -> step (rqs, g) (<[i := mk_rq n u (calc_load_active r) (rq_load_update r)]> rqs, g).

(** Equality of [long] values. *)
Record eq64 (x y : Z) : Prop := mk_eq64 { eq64_mod : x mod 2 ^ 64 = y mod 2 ^ 64 }.

#[local] Instance eq64_equiv : Equivalence eq64.
Proof. split; [by constructor|intros ?? [E]; by constructor|intros ??? [E1] [E2]; constructor; by rewrite E1]. Qed.

#[local] Instance eq64_add : Proper (eq64 ==> eq64 ==> eq64) Z.add.
Proof. intros x x' [Hx] y y' [Hy]. constructor. by rewrite Z.add_mod, Hx, Hy, <- Z.add_mod by done. Qed.

#[local] Instance eq64_sub : Proper (eq64 ==> eq64 ==> eq64) Z.sub.
Proof. intros x x' [Hx] y y' [Hy]. constructor. by rewrite Zminus_mod, Hx, Hy, <- Zminus_mod. Qed.

Lemma s64_eq64 x : eq64 (s64 x) x.
Proof.
  constructor. unfold s64, u64. change 18446744073709551616 with (2 ^ 64). destruct (_ <? _).
  - by rewrite Z.mod_mod by done.
  - replace (x mod 2 ^ 64 - 2 ^ 64) with (x mod 2 ^ 64 + -1 * 2 ^ 64) by lia.
    rewrite Z.mod_add, Z.mod_mod by done. done.
Qed.

Lemma sum_active_insert rqs i r r' : rqs !! i = Some r ->
  sum_active (<[i := r']> rqs) = sum_active rqs + (calc_load_active r' - calc_load_active r).
Proof.
  revert i. induction rqs as [|x rqs IH]; intros [|i]; simpl; try done.
  - intros [= ->]. lia.
  - intros H. rewrite IH by done. lia.
Qed.

(** Folding a run queue returns the change of its recorded count. *)
Lemma fold_active_delta r adjust delta r' : calc_load_fold_active r adjust = (delta, r') ->
  eq64 (calc_load_active r' - calc_load_active r) delta.
Proof.
  unfold calc_load_fold_active. destruct (_ =? _); simpl; intros [= <- <-]; simpl.
  - by rewrite Z.sub_diag.
  - symmetry. apply s64_eq64.
Qed.

Lemma set_nohz_pending g i d : pending (set_nohz g i d) = pending g + (d - nohz g i).
Proof. unfold pending, set_nohz, nohz. simpl. destruct (i =? 0); lia. Qed.

Lemma add_if_delta g delta :
  eq64 (pending (if negb (delta =? 0) then set_tasks g (atomic_long_add delta (calc_load_tasks g)) else g))
       (pending g + delta).
Proof.
  destruct (Z.eqb_spec delta 0) as [->|]; simpl; [by rewrite Z.add_0_r|].
  unfold pending, set_tasks, atomic_long_add. simpl. rewrite s64_eq64.
  replace (calc_load_tasks g + nohz0 g + nohz1 g + delta) with (calc_load_tasks g + delta + nohz0 g + nohz1 g) by lia.
  done.
Qed.

Lemma nohz_fold_pending g delta g' : calc_load_nohz_fold g = (delta, g') ->
  eq64 (pending g' + delta) (pending g) /\ calc_load_tasks g' = calc_load_tasks g.
Proof.
  unfold calc_load_nohz_fold. destruct (_ =? 0); simpl; intros [= <- <-]; [by rewrite Z.add_0_r|].
  rewrite set_nohz_pending. split; [|done].
  by replace (pending g + (0 - nohz g (calc_load_read_idx g)) + nohz g (calc_load_read_idx g)) with (pending g) by lia.
Qed.

Lemma calc_load_n_total load exp active n : 0 <= exp <= 2048 -> exists r, calc_load_n load exp active n = Ok r.
Proof.
  intros He. destruct (fixed_power_int_ok exp (u32 n) He (u32_range n)) as (r&E&_).
  unfold calc_load_n. rewrite E. by eexists.
Qed.

(** The catch-up ends, and touches neither the counter nor the pending deltas. *)
Lemma global_nohz_ok g : exists g', calc_global_nohz g = Ok g' /\ pending g' = pending g /\
  calc_load_tasks g' = calc_load_tasks g /\ calc_load_idx g' = s32 (calc_load_idx g + 1) /\ jiffies g' = jiffies g.
Proof.
  unfold calc_global_nohz. destruct (time_before _ _); simpl negb; cbv iota; [by eexists|].
  destruct (avenrun g) as [[a0 a1] a2].
  edestruct (calc_load_n_total a0 EXP_1) as [r0 ->]; [unfold EXP_1; lia|].
  edestruct (calc_load_n_total a1 EXP_5) as [r1 ->]; [unfold EXP_5; lia|].
  edestruct (calc_load_n_total a2 EXP_15) as [r2 ->]; [unfold EXP_15; lia|].
  simpl. by eexists.
Qed.

Lemma global_load_pending g : exists g', calc_global_load g = Ok g' /\ eq64 (pending g') (pending g).
Proof.
  unfold calc_global_load. destruct (time_before _ _); [by eexists|].
  destruct (calc_load_nohz_fold g) as [delta g1] eqn:E. apply nohz_fold_pending in E as [E _].
  set (g2 := if negb (delta =? 0) then _ else g1). assert (E2 : eq64 (pending g2) (pending g1 + delta)) by apply add_if_delta.
  destruct (avenrun g2) as [[a0 a1] a2].
  destruct (global_nohz_ok (set_update (set_avenrun g2 (calc_load a0 EXP_1 (u64 (active_fixed (calc_load_tasks g2))),
    calc_load a1 EXP_5 (u64 (active_fixed (calc_load_tasks g2))), calc_load a2 EXP_15 (u64 (active_fixed (calc_load_tasks g2)))))
    (u64 (calc_load_update g + LOAD_FREQ)))) as (g'&Eg&Ep&_).
  exists g'. split; [exact Eg|]. rewrite Ep. change (pending (set_update _ _)) with (pending g2). by rewrite E2.
Qed.

Lemma step_conserves m m' : step m m' ->
  eq64 (sum_active m.1 - pending m.2) (sum_active m'.1 - pending m'.2).
Proof.
  assert (X : forall a p d, eq64 (a - p) (a + d - (p + d))) by (intros a p d; by replace (a + d - (p + d)) with (a - p) by lia).
  destruct 1 as [rqs g i r r' g' Hi H|rqs g i r r' g' Hi H|rqs g i r Hi|rqs g g' H|rqs g t|rqs g i r n u Hi]; simpl.
  - rewrite (sum_active_insert _ _ _ _ Hi). revert H. unfold calc_global_load_tick.
    destruct (time_before _ _); [intros [= <- <-]; by rewrite Z.sub_diag, Z.add_0_r|].
    destruct (calc_load_fold_active r 0) as [delta r1] eqn:E. intros [= <- <-]. simpl.
    rewrite add_if_delta. apply fold_active_delta in E. rewrite E. apply X.
  - rewrite (sum_active_insert _ _ _ _ Hi). revert H. unfold calc_load_nohz_start.
    destruct (calc_load_fold_active r 0) as [delta r1] eqn:E. apply fold_active_delta in E.
    destruct (Z.eqb_spec delta 0) as [->|]; simpl; intros [= <- <-].
    + rewrite E. by rewrite Z.add_0_r.
    + rewrite set_nohz_pending, E. unfold atomic_long_add. rewrite s64_eq64.
      set (x := nohz g _). replace (x + delta - x) with delta by lia. apply X.
  - rewrite (sum_active_insert _ _ _ _ Hi). replace (calc_load_active (calc_load_nohz_stop r g)) with (calc_load_active r).
    + by rewrite Z.sub_diag, Z.add_0_r.
    + unfold calc_load_nohz_stop. by repeat destruct (time_before _ _).
  - destruct (global_load_pending g) as (g2&E&Ep). rewrite E in H. injection H as <-. by rewrite Ep.
  - done.
  - rewrite (sum_active_insert _ _ _ _ Hi). simpl. by rewrite Z.sub_diag, Z.add_0_r.
Qed.

(** C37: no active task is lost or counted twice.  Starting from a machine whose counters
    are zero, after any interleaving of ticks, idle transitions, global updates, task
    changes and clock changes, the sum of the counts the CPUs have recorded equals the
    global counter plus the two pending deltas, as [long] values. *)
Theorem loadavg_conserved n g m :
  pending g = 0 -> rtc step (replicate n (mk_rq 0 0 0 0), g) m ->
  sum_active m.1 mod 2 ^ 64 = (calc_load_tasks m.2 + nohz0 m.2 + nohz1 m.2) mod 2 ^ 64.
Proof.
  intros Hg Hr. assert (E : eq64 (sum_active m.1 - pending m.2) 0).
  { assert (E0 : sum_active (replicate n (mk_rq 0 0 0 0)) = 0) by (clear; induction n as [|n IH]; [done|exact IH]).
    remember (replicate n (mk_rq 0 0 0 0), g) as m0 eqn:Em. assert (B : eq64 (sum_active m0.1 - pending m0.2) 0).
    { subst m0. simpl. by rewrite E0, Hg. }
    clear Em. induction Hr as [m0|m0 m1 m2 Hs _ IH]; [done|]. apply IH. by rewrite <- (step_conserves _ _ Hs). }
  assert (F : eq64 (sum_active m.1) (pending m.2)).
  { replace (sum_active m.1) with (sum_active m.1 - pending m.2 + pending m.2) by lia. by rewrite E. }
  apply F.
Qed.

(** ** The global update *)

Lemma s64_range_eq x : - 2 ^ 63 <= x < 2 ^ 63 -> s64 x = x.
Proof.
  intros H. unfold s64, u64. destruct (Z.leb_spec 0 x).
  - rewrite Z.mod_small by lia. by destruct (Z.ltb_spec x 9223372036854775808); [|lia].
  - rewrite <- (Z.mod_unique_pos x 18446744073709551616 (-1) (x + 18446744073709551616)) by lia.
    destruct (Z.ltb_spec (x + 18446744073709551616) 9223372036854775808); lia.
Qed.

Lemma s64_u64 x : s64 (u64 x) = s64 x.
Proof. unfold s64, u64. by rewrite Z.mod_mod by done. Qed.

(** How long the window has been over; the comparisons are about this number. *)
Definition overdue (g : global) : Z := u64 (jiffies g - calc_load_update g - 10).

(** [jiffies] against the time [k] ticks after the end of the window. *)
Lemma time_before_window g k : 0 <= overdue g < 2 ^ 62 -> 0 <= k < 2 ^ 63 ->
  time_before (jiffies g) (u64 (u64 (calc_load_update g + k) + 10)) = (overdue g <? k).
Proof.
  intros Ho Hk. unfold time_before, time_after. rewrite s64_u64.
  assert (E : eq64 (jiffies g - u64 (u64 (calc_load_update g + k) + 10)) (overdue g - k)).
  { unfold overdue. constructor. unfold u64. change 18446744073709551616 with (2 ^ 64).
    rewrite Zminus_mod_idemp_r, Zminus_mod_idemp_l.
    replace (jiffies g - ((calc_load_update g + k) mod 2 ^ 64 + 10))
      with (jiffies g - 10 - (calc_load_update g + k) mod 2 ^ 64) by lia.
    rewrite Zminus_mod_idemp_r. f_equal. lia. }
  assert (Es : forall x y, eq64 x y -> s64 x = s64 y).
  { intros x y [H]. unfold s64, u64. change 18446744073709551616 with (2 ^ 64). by rewrite H. }
  rewrite (Es _ _ E), s64_range_eq by lia.
  destruct (Z.ltb_spec (overdue g - k) 0), (Z.ltb_spec (overdue g) k); lia.
Qed.

Definition bounded (b : Z) (a : Z * Z * Z) : Prop :=
  0 <= a.1.1 <= b /\ 0 <= a.1.2 <= b /\ 0 <= a.2 <= b.

Definition missed (g : global) : Z := overdue g / LOAD_FREQ.

Lemma calc_load_n_bounded load exp active n b : 0 <= exp <= 2048 -> 0 <= load <= b -> 0 <= active <= b -> b < 2 ^ 52 ->
  exists r, calc_load_n load exp active n = Ok r /\ 0 <= r <= b.
Proof.
  intros He Hl Ha Hb. destruct (fixed_power_int_ok exp (u32 n) He (u32_range n)) as (r&E&Hr&_).
  unfold calc_load_n. rewrite E. simpl. eexists. split; [done|]. by apply calc_load_between.
Qed.

(** The catch-up, [overdue] being counted from the window before. *)
Lemma catch_up g b : 0 <= overdue g < 2 ^ 62 -> bounded b (avenrun g) -> b < 2 ^ 52 ->
  0 <= active_fixed (calc_load_tasks g) <= b ->
  exists a, calc_global_nohz (set_update g (u64 (calc_load_update g + LOAD_FREQ))) =
    Ok (set_idx (set_avenrun (set_update g (u64 (calc_load_update g + LOAD_FREQ * (missed g + 1)))) a)
                (s32 (calc_load_idx g + 1))) /\ bounded b a.
Proof.
  intros Ho (B0&B1&B2) Hb Ha. unfold calc_global_nohz, missed. change LOAD_FREQ with 501.
  cbn [set_update jiffies calc_load_update calc_load_tasks avenrun].
  rewrite time_before_window by lia. pose proof (Z.div_mod (overdue g) 501 ltac:(lia)) as Dm.
  pose proof (Z.mod_pos_bound (overdue g) 501 ltac:(lia)).
  destruct (Z.ltb_spec (overdue g) 501) as [Hlt|Hge]; simpl negb; cbv iota.
  - exists (avenrun g). rewrite (Z.div_small (overdue g) 501) by lia. by destruct g.
  - rewrite (u64_small (active_fixed _)) by lia. destruct (avenrun g) as [[a0 a1] a2]. simpl in B0, B1, B2.
    set (n := s64 (1 + _)).
    destruct (calc_load_n_bounded a0 EXP_1 (active_fixed (calc_load_tasks g)) n b) as (r0&E0&R0); try done.
    destruct (calc_load_n_bounded a1 EXP_5 (active_fixed (calc_load_tasks g)) n b) as (r1&E1&R1); try done.
    destruct (calc_load_n_bounded a2 EXP_15 (active_fixed (calc_load_tasks g)) n b) as (r2&E2&R2); try done.
    rewrite E0, E1, E2. cbn [res_bind]. exists (r0, r1, r2). split; [|done].
    assert (En : n = overdue g / 501).
    { unfold n. rewrite s64_u64.
      assert (Ed : s64 (jiffies g - u64 (calc_load_update g + 501) - 10) = overdue g - 501).
      { rewrite <- (s64_range_eq (overdue g - 501)) by lia. unfold s64.
        assert (E : u64 (jiffies g - u64 (calc_load_update g + 501) - 10) = u64 (overdue g - 501)); [|by rewrite E].
        unfold overdue, u64. rewrite Zminus_mod_idemp_l.
        replace (jiffies g - (calc_load_update g + 501) mod 18446744073709551616 - 10)
          with (jiffies g - 10 - (calc_load_update g + 501) mod 18446744073709551616) by lia.
        rewrite Zminus_mod_idemp_r. f_equal. lia. }
      rewrite Ed. rewrite Z.quot_div_nonneg by lia.
      replace (overdue g - 501) with (overdue g + -1 * 501) by lia. rewrite Z.div_add by lia.
      rewrite s64_range_eq; lia. }
    rewrite En. unfold set_idx, set_update, set_avenrun. cbn. do 2 f_equal.
    unfold u64. rewrite Zplus_mod_idemp_l. f_equal. lia.
Qed.

Lemma land_1_cases x : Z.land x 1 = 0 \/ Z.land x 1 = 1.
Proof. rewrite land_1_mod. pose proof (Z.mod_pos_bound x 2). lia. Qed.

Lemma time_before_over g : 0 <= overdue g < 2 ^ 62 ->
  time_before (jiffies g) (u64 (calc_load_update g + 10)) = false.
Proof.
  intros H. pose proof (time_before_window g 0 H ltac:(lia)) as E. rewrite Z.add_0_r in E.
  replace (u64 (u64 (calc_load_update g) + 10)) with (u64 (calc_load_update g + 10)) in E
    by (unfold u64; by rewrite Zplus_mod_idemp_l).
  rewrite E. apply Z.ltb_ge. lia.
Qed.

(** the global update, when its window is over: the delta the idle CPUs left in the
    slot being read moves into the counter and the other slot is kept for the next
    window, the three averages stay below any bound of the averages and of the active
    count, the sampling time advances by whole intervals to the first one that is not
    over, however many were missed, and the slot index flips once. *)
Theorem calc_global_load_correct g b :
  0 <= overdue g < 2 ^ 62 -> bounded b (avenrun g) -> b < 2 ^ 52 ->
  let idx := calc_load_read_idx g in
  let tasks := s64 (calc_load_tasks g + nohz g idx) in
  s64 (calc_load_tasks g) = calc_load_tasks g -> 0 <= active_fixed tasks <= b ->
  exists g', calc_global_load g = Ok g' /\
    calc_load_tasks g' = tasks /\ nohz g' idx = 0 /\ nohz g' (1 - idx) = nohz g (1 - idx) /\
    bounded b (avenrun g') /\
    calc_load_update g' = u64 (calc_load_update g + LOAD_FREQ * (missed g + 1)) /\
    time_before (jiffies g') (u64 (calc_load_update g' + 10)) = true /\
    calc_load_idx g' = s32 (calc_load_idx g + 1).
Proof.
  intros Ho Hbd Hb. cbv zeta. set (idx := calc_load_read_idx g). intros Ht Ha.
  unfold calc_global_load. rewrite time_before_over by done.
  assert (Hidx : idx = 0 \/ idx = 1) by apply land_1_cases.
  destruct (calc_load_nohz_fold g) as [delta g1] eqn:E.
  set (g2 := if negb (delta =? 0) then set_tasks g1 (atomic_long_add delta (calc_load_tasks g1)) else g1).
  assert (E2 : g2 = set_tasks (set_nohz g idx 0) (s64 (calc_load_tasks g + nohz g idx))).
  { revert E. unfold g2, calc_load_nohz_fold. fold idx. destruct (Z.eqb_spec (nohz g idx) 0) as [En|En]; simpl negb;
      cbv iota; intros [= <- <-]; simpl.
    - rewrite En, Z.add_0_r, Ht. destruct g. unfold nohz in En. simpl in *. unfold set_tasks, set_nohz. simpl.
      by destruct (idx =? 0); subst.
    - by destruct (Z.eqb_spec (nohz g idx) 0). }
  clearbody g2. subst g2. set (g2 := set_tasks _ _).
  assert (Hav : avenrun g2 = avenrun g) by done. rewrite Hav. destruct (avenrun g) as [[a0 a1] a2] eqn:Ea.
  destruct Hbd as (B0&B1&B2). simpl in B0, B1, B2.
  change (calc_load_tasks g2) with (s64 (calc_load_tasks g + nohz g idx)).
  set (tasks := s64 (calc_load_tasks g + nohz g idx)) in *. rewrite (u64_small (active_fixed tasks)) by lia.
  set (g3 := set_avenrun g2 _).
  assert (Ho3 : overdue g3 = overdue g) by done.
  destruct (catch_up g3 b) as (a&Eg&Hab); [by rewrite Ho3| |done|done|].
  { refine (conj _ (conj _ _)); apply calc_load_between; unfold EXP_1, EXP_5, EXP_15; lia. }
  eexists. split; [exact Eg|]. split; [done|]. split; [by destruct Hidx as [-> | ->]|].
  split; [by destruct Hidx as [-> | ->]|]. split; [done|]. split; [done|]. split; [|done].
  cbn [set_idx set_avenrun set_update calc_load_update jiffies g3 g2 set_tasks set_nohz].
  change (missed g3) with (missed g). pose proof (Z.div_mod (overdue g) LOAD_FREQ ltac:(done)) as Dm.
  pose proof (Z.mod_pos_bound (overdue g) LOAD_FREQ ltac:(done)).
  rewrite time_before_window; [|done|unfold missed, LOAD_FREQ, HZ in *; simpl in *; lia].
  apply Z.ltb_lt. unfold missed. lia.
Qed.

(** A delta left by an idle CPU goes to the slot the next update reads when the window has
    not started, and to the other slot when it has. *)
Lemma nohz_start_slot r g r' g' : calc_load_nohz_start r g = (r', g') ->
  let read := calc_load_read_idx g in
  if time_before (jiffies g) (calc_load_update g) then nohz g' (1 - read) = nohz g (1 - read)
  else nohz g' read = nohz g read.
Proof.
  cbv zeta. unfold calc_load_nohz_start. destruct (calc_load_fold_active r 0) as [delta r1].
  destruct (delta =? 0); simpl; [intros [= <- <-]; by destruct (time_before _ _)|intros [= <- <-]].
  unfold calc_load_write_idx. destruct (time_before _ _); simpl negb; cbv iota.
  - unfold calc_load_read_idx. by destruct (land_1_cases (calc_load_idx g)) as [-> | ->].
  - unfold calc_load_read_idx.
    assert (Ep : Z.land (s32 (calc_load_idx g + 1)) 1 = 1 - Z.land (calc_load_idx g) 1).
    { rewrite !land_1_mod. unfold s32, u32.
      pose proof (Z.div_mod (calc_load_idx g + 1) 4294967296 ltac:(lia)) as Dq.
      destruct (_ <? _); Z.to_euclidean_division_equations; lia. }
    rewrite Ep. by destruct (land_1_cases (calc_load_idx g)) as [-> | ->].
Qed.

(** ** Concrete instances *)

Definition boot_global (t : Z) : global := mk_global t 0 501 (0, 0, 0) 0 0 0.

Lemma calc_load_converges_witness : averaged EXP_1 2048 0 2048 = 2048 /\ averaged EXP_1 2048 0 1 = 2048 + Z.quot (EXP_1 * (0 - 2048)) 2048.
Proof.
  split; [apply (calc_load_converges EXP_1 2048 0 2048); unfold EXP_1; lia|apply (calc_load_converges EXP_1 2048 0 0); unfold EXP_1; lia].
Defined.

Lemma fixed_power_int_correct_witness :
  exists r, fixed_power_int EXP_1 FSHIFT 12 = Ok r /\ 2 * Z.abs (r * 2048 ^ 12 - 2048 * 1884 ^ 12) <= 12 * 2048 ^ 12.
Proof.
  destruct (fixed_power_int_correct EXP_1 12 0 0 0) as (r&E&_&A&_); try (unfold EXP_1; lia).
  exists r. split; [exact E|exact A].
Defined.

(** A CPU with one running task ticks twice around the first window. *)
Lemma loadavg_conserved_witness :
  sum_active [mk_rq 1 0 1 501] mod 2 ^ 64 = (1 + 0 + 0) mod 2 ^ 64.
Proof.
  apply (loadavg_conserved 1 (boot_global 600) ([mk_rq 1 0 1 501], set_tasks (boot_global 600) 1)); [reflexivity|].
  eapply rtc_l; [apply (step_tasks _ _ 0 (mk_rq 0 0 0 0) 1 0); reflexivity|].
  eapply rtc_l; [eapply (step_tick _ _ 0); [reflexivity|vm_compute; reflexivity]|].
  apply rtc_refl.
Defined.

Lemma calc_global_load_correct_witness :
  exists g', calc_global_load (mk_global 2000 3 501 (100, 100, 100) 2 1 0) = Ok g' /\
    calc_load_tasks g' = 5 /\ calc_load_update g' = 2004.
Proof.
  destruct (calc_global_load_correct (mk_global 2000 3 501 (100, 100, 100) 2 1 0) 20480) as (g'&E&Et&_&_&_&Eu&_).
  - vm_compute. split; [discriminate|reflexivity].
  - repeat split; vm_compute; discriminate.
  - vm_compute. reflexivity.
  - vm_compute. reflexivity.
  - vm_compute. split; discriminate.
  - exists g'. rewrite Et, Eu. split; [exact E|]. split; vm_compute; reflexivity.
Defined.
