(* ===== verification/Ctype.v ===== *)
(** * Character classes (lib/ctype.c, include/linux/ctype.h)

    The 256-entry class table and the predicates that look characters up in it.  A
    [char] is a signed 8-bit value, so a predicate first converts its argument to
    [unsigned char]. *)

From S2P Require Import Prelude.

Definition u8 (x : Z) : Z := x mod 256.
Definition s8 (x : Z) : Z := if u8 x <? 128 then u8 x else u8 x - 256.

Definition _U : Z := 0x01.
Definition _L : Z := 0x02.
Definition _D : Z := 0x04.
Definition _C : Z := 0x08.
Definition _P : Z := 0x10.
Definition _S : Z := 0x20.
Definition _X : Z := 0x40.
Definition _SP : Z := 0x80.

Local Notation "a '|' b" := (Z.lor a b) (at level 50, left associativity).

(** The rows of the table as the source writes them. *)
Definition _ctype : list Z := [
_C;_C;_C;_C;_C;_C;_C;_C;
_C;_C|_S;_C|_S;_C|_S;_C|_S;_C|_S;_C;_C;
_C;_C;_C;_C;_C;_C;_C;_C;
_C;_C;_C;_C;_C;_C;_C;_C;
_S|_SP;_P;_P;_P;_P;_P;_P;_P;
_P;_P;_P;_P;_P;_P;_P;_P;
_D;_D;_D;_D;_D;_D;_D;_D;
_D;_D;_P;_P;_P;_P;_P;_P;
_P;_U|_X;_U|_X;_U|_X;_U|_X;_U|_X;_U|_X;_U;
_U;_U;_U;_U;_U;_U;_U;_U;
_U;_U;_U;_U;_U;_U;_U;_U;
_U;_U;_U;_P;_P;_P;_P;_P;
_P;_L|_X;_L|_X;_L|_X;_L|_X;_L|_X;_L|_X;_L;
_L;_L;_L;_L;_L;_L;_L;_L;
_L;_L;_L;_L;_L;_L;_L;_L;
_L;_L;_L;_P;_P;_P;_P;_C;
0;0;0;0;0;0;0;0;0;0;0;0;0;0;0;0;
0;0;0;0;0;0;0;0;0;0;0;0;0;0;0;0;
_S|_SP;_P;_P;_P;_P;_P;_P;_P;_P;_P;_P;_P;_P;_P;_P;_P;
_P;_P;_P;_P;_P;_P;_P;_P;_P;_P;_P;_P;_P;_P;_P;_P;
_U;_U;_U;_U;_U;_U;_U;_U;_U;_U;_U;_U;_U;_U;_U;_U;
_U;_U;_U;_U;_U;_U;_U;_P;_U;_U;_U;_U;_U;_U;_U;_L;
_L;_L;_L;_L;_L;_L;_L;_L;_L;_L;_L;_L;_L;_L;_L;_L;
_L;_L;_L;_L;_L;_L;_L;_P;_L;_L;_L;_L;_L;_L;_L;_L].

(** The index is below 256, the length of the table (lemma [ctype_total]). *)
Definition __ismask (x : Z) : Z := nth (Z.to_nat (u8 x)) _ctype 0.

Definition isalnum (c : Z) : bool := negb (Z.land (__ismask c) (_U|_L|_D) =? 0).
Definition isalpha (c : Z) : bool := negb (Z.land (__ismask c) (_U|_L) =? 0).
Definition iscntrl (c : Z) : bool := negb (Z.land (__ismask c) _C =? 0).
Definition isdigit (c : Z) : bool := (48 <=? c) && (c <=? 57).
Definition isgraph (c : Z) : bool := negb (Z.land (__ismask c) (_P|_U|_L|_D) =? 0).
Definition islower (c : Z) : bool := negb (Z.land (__ismask c) _L =? 0).
Definition isprint (c : Z) : bool := negb (Z.land (__ismask c) (_P|_U|_L|_D|_SP) =? 0).
Definition ispunct (c : Z) : bool := negb (Z.land (__ismask c) _P =? 0).
Definition isspace (c : Z) : bool := negb (Z.land (__ismask c) _S =? 0).
Definition isupper (c : Z) : bool := negb (Z.land (__ismask c) _U =? 0).
Definition isxdigit (c : Z) : bool := negb (Z.land (__ismask c) (_D|_X) =? 0).
Definition isascii (c : Z) : bool := u8 c <=? 0x7f.
Definition toascii (c : Z) : Z := Z.land (u8 c) 0x7f.

(** The inline functions take an [unsigned char]. *)
Definition tolower (c : Z) : Z := let c := u8 c in if isupper c then u8 (c - (65 - 97)) else c.
Definition toupper (c : Z) : Z := let c := u8 c in if islower c then u8 (c - (97 - 65)) else c.

(** [_tolower] on a signed [char]. *)
Definition _tolower (c : Z) : Z := s8 (Z.lor c 0x20).
Definition isodigit (c : Z) : bool := (48 <=? c) && (c <=? 55).

(** ** Deciding a property of every character *)

Definition chars : list Z := seqZ (-128) 256.

Lemma chars_all (P : Z -> bool) : forallb P chars = true -> forall c, -128 <= c < 128 -> P c = true.
Proof.
  intros H c Hc. rewrite forallb_forall in H. apply H.
  apply list_elem_of_In, elem_of_seqZ. lia.
Qed.

Lemma ctype_total x : (Z.to_nat (u8 x) < length _ctype)%nat.
Proof.
  change (length _ctype) with 256%nat. unfold u8.
  pose proof (Z.mod_pos_bound x 256). lia.
Qed.

Definition in_range (c lo hi : Z) : bool := (lo <=? c) && (c <=? hi).

(** The table says what the ASCII ranges say on the ASCII half: the eleven
    predicates, the two case mappings and their interplay. *)
Definition ascii_classes (c : Z) : bool :=
  let up := in_range c 65 90 in let low := in_range c 97 122 in let dig := in_range c 48 57 in
  let space := (c =? 32) || in_range c 9 13 in
  let ctl := in_range c 0 31 || (c =? 127) in
  let punct := in_range c 33 126 && negb (up || low || dig) in
  Bool.eqb (isupper c) up && Bool.eqb (islower c) low && Bool.eqb (isdigit c) dig &&
  Bool.eqb (isalpha c) (up || low) && Bool.eqb (isalnum c) (up || low || dig) &&
  Bool.eqb (isxdigit c) (dig || in_range c 65 70 || in_range c 97 102) &&
  Bool.eqb (isspace c) space && Bool.eqb (iscntrl c) ctl && Bool.eqb (ispunct c) punct &&
  Bool.eqb (isgraph c) (in_range c 33 126) && Bool.eqb (isprint c) (in_range c 32 126) &&
  (tolower c =? if up then c + 32 else c) && (toupper c =? if low then c - 32 else c).

Lemma ascii_classes_ok c : 0 <= c < 128 -> ascii_classes c = true.
Proof.
  intros Hc. assert (H : (c <? 0) || ascii_classes c = true).
  { apply (chars_all (fun c => (c <? 0) || ascii_classes c)); [vm_compute; reflexivity|lia]. }
  destruct (Z.ltb_spec c 0); [lia|exact H].
Qed.

(** [isxdigit] is never true of a negative [char]; on the others it is the usual set. *)
Lemma isxdigit_spec c : -128 <= c < 128 ->
  isxdigit c = in_range c 48 57 || in_range c 65 70 || in_range c 97 102.
Proof.
  intros Hc. apply Bool.eqb_prop. revert c Hc.
  apply (chars_all (fun c => Bool.eqb (isxdigit c) _)). vm_compute. reflexivity.
Qed.

Lemma tolower_x c : -128 <= c < 128 -> (_tolower c =? 120) = (c =? 120) || (c =? 88).
Proof.
  intros Hc. apply Bool.eqb_prop. revert c Hc.
  apply (chars_all (fun c => Bool.eqb (_tolower c =? 120) _)). vm_compute. reflexivity.
Qed.
