(* ===== verification/Kstrtox.v ===== *)
(** * String to integer conversion (lib/kstrtox.c, lib/kstrtox.h, include/linux/kernel.h)

    A pointer into a NUL-terminated string is the list of the characters from it to
    the terminator, which is not in the list: reading at the end gives 0, reading or
    moving past the terminator is a fault.  A conversion returns 0 after storing its
    result ([Parsed]) or a negative error without storing ([Failed]). *)

From S2P Require Import Prelude Math64 Ctype.
Local Open Scope res_scope.

Definition EFAULT : Z := 14.
Definition u16 (x : Z) : Z := x mod 65536.
Definition s16 (x : Z) : Z := if u16 x <? 32768 then u16 x else u16 x - 65536.

Inductive kres := Parsed (v : Z) | Failed (rc : Z).

(** [s[i]] and [s += n] *)
Definition char_at (s : list Z) (i : nat) : res Z := array_get (s ++ [0]) i.
Definition advance (s : list Z) (n : nat) : res (list Z) :=
  if (n <=? length s)%nat then Ok (drop n s) else Fault OutOfBounds.

Definition KSTRTOX_OVERFLOW : Z := 2147483648.
Definition ULLONG_MAX : Z := 18446744073709551615.

(** [s[0] == '0' && _tolower(s[1]) == 'x'], with the short-circuit of [&&] *)
Definition has_0x (s : list Z) : res bool :=
  c0 <-- char_at s 0;
  if c0 =? 48 then c1 <-- char_at s 1; Ok (_tolower c1 =? 120) else Ok false.

Definition _parse_integer_fixup_radix (s : list Z) (base : Z) : res (list Z * Z) :=
  base <--
    (if base =? 0 then
       c0 <-- char_at s 0;
       if c0 =? 48 then
         c1 <-- char_at s 1;
         hex <-- (if _tolower c1 =? 120 then c2 <-- char_at s 2; Ok (isxdigit c2) else Ok false);
         Ok (if hex : bool then 16 else 8)
       else Ok 10
     else Ok base);
  if base =? 16 then
    x <-- has_0x s;
    if x : bool then s <-- advance s 2; Ok (s, base) else Ok (s, base)
  else Ok (s, base).

(** One character of [_parse_integer]: its value, or [None] where the loop breaks. *)
Definition char_val (ch : Z) : option Z :=
  let c := u32 ch in
  let lc := Z.lor c 0x20 in
  if (48 <=? c) && (c <=? 57) then Some (c - 48)
  else if (97 <=? lc) && (lc <=? 102) then Some (lc - 97 + 10)
  else None.

Definition digit_val (base : Z) (ch : Z) : option Z :=
  match char_val ch with
  | Some val => if base <=? val then None else Some val
  | None => None
  end.

(** The loop: the value and the count, maybe with the overflow bit. *)
Fixpoint parse_loop (s : list Z) (base r rv : Z) : res (Z * Z) :=
  match digit_val base (hd 0 s) with
  | None => Ok (r, rv)
  | Some val =>
    let rv :=
      if negb (Z.land r (u64 (Z.shiftl ULLONG_MAX 60)) =? 0) && (div_u64 (ULLONG_MAX - val) base <? r)
      then Z.lor rv KSTRTOX_OVERFLOW else rv in
    match s with
    | [] => Fault OutOfBounds
    | _ :: s => parse_loop s base (u64 (r * base + val)) (u32 (rv + 1))
    end
  end.

Definition _parse_integer (s : list Z) (base : Z) : res (Z * Z) := parse_loop s base 0 0.

Definition _kstrtoull (s : list Z) (base : Z) : res kres :=
  '(s, base) <-- _parse_integer_fixup_radix s base;
  '(r, rv) <-- _parse_integer s base;
  if negb (Z.land rv KSTRTOX_OVERFLOW =? 0) then Ok (Failed (- ERANGE))
  else if rv =? 0 then Ok (Failed (- EINVAL))
  else
    s <-- advance s (Z.to_nat rv);
    c <-- char_at s 0;
    s <-- (if c =? 10 then advance s 1 else Ok s);
    c <-- char_at s 0;
    if negb (c =? 0) then Ok (Failed (- EINVAL)) else Ok (Parsed r).

Definition kstrtoull (s : list Z) (base : Z) : res kres :=
  c <-- char_at s 0;
  s <-- (if c =? 43 then advance s 1 else Ok s);
  _kstrtoull s base.

Definition kstrtoll (s : list Z) (base : Z) : res kres :=
  c <-- char_at s 0;
  if c =? 45 then
    s <-- advance s 1;
    rv <-- _kstrtoull s base;
    match rv with
    | Failed rc => Ok (Failed rc)
    | Parsed tmp =>
      if 0 <? s64 (u64 (- tmp)) then Ok (Failed (- ERANGE)) else Ok (Parsed (s64 (u64 (- tmp))))
    end
  else
    rv <-- kstrtoull s base;
    match rv with
    | Failed rc => Ok (Failed rc)
    | Parsed tmp => if s64 tmp <? 0 then Ok (Failed (- ERANGE)) else Ok (Parsed (s64 tmp))
    end.

(** [if (rv < 0) return rv; if (tmp != (type)tmp) return -ERANGE; *res = tmp; return 0;] *)
Definition narrow (type : Z -> Z) (rv : kres) : kres :=
  match rv with
  | Failed rc => Failed rc
  | Parsed tmp => if negb (tmp =? type tmp) then Failed (- ERANGE) else Parsed tmp
  end.

Definition _kstrtoul (s : list Z) (base : Z) : res kres := rv <-- kstrtoull s base; Ok (narrow u64 rv).
Definition _kstrtol (s : list Z) (base : Z) : res kres := rv <-- kstrtoll s base; Ok (narrow s64 rv).
Definition kstrtouint (s : list Z) (base : Z) : res kres := rv <-- kstrtoull s base; Ok (narrow u32 rv).
Definition kstrtoint (s : list Z) (base : Z) : res kres := rv <-- kstrtoll s base; Ok (narrow s32 rv).
Definition kstrtou16 (s : list Z) (base : Z) : res kres := rv <-- kstrtoull s base; Ok (narrow u16 rv).
Definition kstrtos16 (s : list Z) (base : Z) : res kres := rv <-- kstrtoll s base; Ok (narrow s16 rv).
Definition kstrtou8 (s : list Z) (base : Z) : res kres := rv <-- kstrtoull s base; Ok (narrow u8 rv).
Definition kstrtos8 (s : list Z) (base : Z) : res kres := rv <-- kstrtoll s base; Ok (narrow s8 rv).

(** 64-bit: [long] and [long long] have the same size and alignment. *)
Definition kstrtoul (s : list Z) (base : Z) : res kres := kstrtoull s base.
Definition kstrtol (s : list Z) (base : Z) : res kres := kstrtoll s base.
Definition kstrtou64 (s : list Z) (base : Z) : res kres := kstrtoull s base.
Definition kstrtos64 (s : list Z) (base : Z) : res kres := kstrtoll s base.
Definition kstrtou32 (s : list Z) (base : Z) : res kres := kstrtouint s base.
Definition kstrtos32 (s : list Z) (base : Z) : res kres := kstrtoint s base.

(** [kstrtobool]: [None] is a NULL pointer; the result 1 or 0 stands for the bool. *)
Definition kstrtobool (s : option (list Z)) : res kres :=
  match s with
  | None => Ok (Failed (- EINVAL))
  | Some s =>
    c <-- char_at s 0;
    if (c =? 121) || (c =? 89) || (c =? 49) then Ok (Parsed 1)
    else if (c =? 110) || (c =? 78) || (c =? 48) then Ok (Parsed 0)
    else if (c =? 111) || (c =? 79) then
      c <-- char_at s 1;
      if (c =? 110) || (c =? 78) then Ok (Parsed 1)
      else if (c =? 102) || (c =? 70) then Ok (Parsed 0)
      else Ok (Failed (- EINVAL))
    else Ok (Failed (- EINVAL))
  end.

(** The string at the start of a buffer: the characters before the first NUL. *)
Fixpoint cstring (buf : list Z) : list Z :=
  match buf with
  | [] => []
  | c :: buf => if c =? 0 then [] else c :: cstring buf
  end.

(** [copy_from_user] copies [n] bytes of the user memory and returns 0. *)
Definition copy_from_user (from : list Z) (n : nat) : res (Z * list Z) :=
  if (n <=? length from)%nat then Ok (0, take n from) else Fault OutOfBounds.

(** [kstrto_from_user(f, g, type)]; [size] is [sizeof(type)]. *)
Definition kstrto_from_user (g : list Z -> Z -> res kres) (size : nat) (s : list Z) (count : nat) (base : Z)
  : res kres :=
  let sizeof_buf := (1 + size * 8 + 1 + 1)%nat in
  let count := Nat.min count (sizeof_buf - 1) in
  '(rest, buf) <-- copy_from_user s count;
  if negb (rest =? 0) then Ok (Failed (- EFAULT)) else g (cstring (buf ++ [0])) base.

Definition kstrtoull_from_user := kstrto_from_user kstrtoull 8.
Definition kstrtoll_from_user := kstrto_from_user kstrtoll 8.
Definition kstrtoul_from_user := kstrto_from_user kstrtoul 8.
Definition kstrtol_from_user := kstrto_from_user kstrtol 8.
Definition kstrtouint_from_user := kstrto_from_user kstrtouint 4.
Definition kstrtoint_from_user := kstrto_from_user kstrtoint 4.
Definition kstrtou16_from_user := kstrto_from_user kstrtou16 2.
Definition kstrtos16_from_user := kstrto_from_user kstrtos16 2.
Definition kstrtou8_from_user := kstrto_from_user kstrtou8 1.
Definition kstrtos8_from_user := kstrto_from_user kstrtos8 1.

Definition kstrtobool_from_user (s : list Z) (count : nat) : res kres :=
  let count := Nat.min count (4 - 1) in
  '(rest, buf) <-- copy_from_user s count;
  if negb (rest =? 0) then Ok (Failed (- EFAULT)) else kstrtobool (Some (cstring (buf ++ [0]))).

(** ** The specification

    A numeral is the longest prefix of digits of the radix; its value is unbounded. *)

Definition is_x (c : Z) : bool := (c =? 120) || (c =? 88).
Definition hex_digit (c : Z) : bool := in_range c 48 57 || in_range c 65 70 || in_range c 97 102.

Definition digit (base c : Z) : option Z :=
  let v := if in_range c 48 57 then c - 48
           else if in_range c 97 102 then c - 87
           else if in_range c 65 70 then c - 55
           else base in
  if v <? base then Some v else None.

Fixpoint digits (base : Z) (s : list Z) : list Z :=
  match s with
  | [] => []
  | c :: s => match digit base c with Some d => d :: digits base s | None => [] end
  end.

Definition value_from (base r : Z) (ds : list Z) : Z := fold_left (fun a d => a * base + d) ds r.
Definition value (base : Z) (ds : list Z) : Z := value_from base 0 ds.

(** The conventional radix of a numeral, and the [0x] prefix. *)
Definition auto_radix (s : list Z) : Z :=
  if nth 0 s 0 =? 48 then if is_x (nth 1 s 0) && hex_digit (nth 2 s 0) then 16 else 8 else 10.
Definition prefix_0x (s : list Z) : bool := (nth 0 s 0 =? 48) && is_x (nth 1 s 0).

Definition ends (s : list Z) : bool :=
  match s with
  | [] => true
  | [c] => c =? 10
  | _ => false
  end.

(** An unsigned number: an overflow is reported before anything else, then a missing
    numeral, then trailing characters other than one newline. *)
Definition number (s : list Z) (base : Z) : kres :=
  let base := if base =? 0 then auto_radix s else base in
  let s := if (base =? 16) && prefix_0x s then drop 2 s else s in
  let ds := digits base s in
  if 2 ^ 64 <=? value base ds then Failed (- ERANGE)
  else if (length ds =? 0)%nat then Failed (- EINVAL)
  else if ends (drop (length ds) s) then Parsed (value base ds) else Failed (- EINVAL).

Definition unsigned_number (s : list Z) (base : Z) : kres :=
  number (if nth 0 s 0 =? 43 then drop 1 s else s) base.

Definition signed_number (s : list Z) (base : Z) : kres :=
  if nth 0 s 0 =? 45 then
    match number (drop 1 s) base with Parsed v => Parsed (- v) | Failed rc => Failed rc end
  else unsigned_number s base.

(** The result where the type holds the values from [lo] to [hi]. *)
Definition within (lo hi : Z) (r : kres) : kres :=
  match r with
  | Parsed v => if (lo <=? v) && (v <=? hi) then Parsed v else Failed (- ERANGE)
  | Failed rc => Failed rc
  end.

(** A C string: signed characters, no NUL inside, an [int] length. *)
Record c_string (s : list Z) : Prop := mk_c_string {
  cs_char : Forall (fun c => -128 <= c < 128 /\ c <> 0) s;
  cs_len : Z.of_nat (length s) < 2147483648 }.

Definition valid_base (base : Z) : Prop := 0 <= base <= 16.

(** ** Reading characters *)

Lemma char_at_nth s i : (i <= length s)%nat -> char_at s i = Ok (nth i s 0).
Proof.
  intros H. unfold char_at, array_get.
  destruct (decide (i < length s)%nat) as [Hi|Hi].
  - rewrite lookup_app_l by done. destruct (lookup_lt_is_Some_2 _ _ Hi) as [x E].
    rewrite E. by rewrite (nth_lookup_Some _ _ 0 _ E).
  - replace i with (length s) by lia. rewrite lookup_app_r by done. rewrite Nat.sub_diag. simpl.
    by rewrite nth_overflow.
Qed.

Lemma char_at_app s i : (i < length s)%nat \/ i = length s -> char_at s i = Ok (nth i s 0).
Proof. intros H. apply char_at_nth. lia. Qed.

Lemma nth_ne0 s i : nth i s 0 <> 0 -> (i < length s)%nat.
Proof. intros H. destruct (decide (i < length s)%nat); [done|]. destruct H. apply nth_overflow. lia. Qed.

Lemma nth_char s i : c_string s -> -128 <= nth i s 0 < 128.
Proof.
  intros [H _]. destruct (decide (i < length s)%nat) as [Hi|Hi]; [|rewrite nth_overflow; lia].
  destruct (lookup_lt_is_Some_2 _ _ Hi) as [x E]. rewrite (nth_lookup_Some _ _ 0 _ E).
  eapply Forall_lookup_1 in H; [|exact E]. simpl in H. lia.
Qed.

Lemma c_string_drop n s : c_string s -> c_string (drop n s).
Proof. intros [H1 H2]. split; [by apply Forall_drop|rewrite length_drop; lia]. Qed.

Lemma advance_ok s n : (n <= length s)%nat -> advance s n = Ok (drop n s).
Proof. intros H. unfold advance. by destruct (Nat.leb_spec n (length s)); [|lia]. Qed.

(** ** Digits *)

Definition char_val_ref (c : Z) : option Z :=
  if in_range c 48 57 then Some (c - 48)
  else if in_range c 97 102 then Some (c - 87)
  else if in_range c 65 70 then Some (c - 55)
  else None.

Lemma char_val_ok c : -128 <= c < 128 -> char_val c = char_val_ref c.
Proof.
  intros H. pose proof (chars_all (fun c => bool_decide (char_val c = char_val_ref c))) as K.
  apply (bool_decide_eq_true_1 _), K; [vm_compute; reflexivity|done].
Qed.

Lemma digit_val_ok base c : -128 <= c < 128 -> digit_val base c = digit base c.
Proof.
  intros H. unfold digit_val, digit. rewrite char_val_ok by done. unfold char_val_ref.
  repeat match goal with |- context [if in_range ?a ?b ?c then _ else _] => destruct (in_range a b c) end;
    rewrite ?Z.ltb_irrefl; try done; rewrite Z.leb_antisym; by destruct (_ <? _).
Qed.

Lemma digit_range base c d : 0 <= base -> digit base c = Some d -> 0 <= d < base.
Proof.
  unfold digit, in_range. intros H E.
  destruct (Z.ltb_spec (if (48 <=? c) && (c <=? 57) then c - 48
           else if (97 <=? c) && (c <=? 102) then c - 87
           else if (65 <=? c) && (c <=? 70) then c - 55 else base) base) as [L|L]; [|done].
  injection E as <-. revert L. zcase; simpl; lia.
Qed.

Lemma digits_range base s : 0 <= base -> Forall (fun d => 0 <= d < base) (digits base s).
Proof.
  intros H. induction s as [|c s IH]; simpl; [constructor|].
  destruct (digit base c) eqn:E; [|constructor]. constructor; [by eapply digit_range|done].
Qed.

Lemma digits_length base s : (length (digits base s) <= length s)%nat.
Proof. induction s as [|c s IH]; simpl; [lia|]. destruct (digit base c); simpl; lia. Qed.

Lemma value_from_ge base r ds : 1 <= base -> 0 <= r -> Forall (fun d => 0 <= d < base) ds ->
  r <= value_from base r ds.
Proof.
  intros Hb Hr H. revert r Hr. induction H as [|d ds Hd _ IH]; intros r Hr; simpl; [lia|].
  etransitivity; [|apply IH]; nia.
Qed.

(** ** The digit loop *)

(** No bit from 60 up: one more digit cannot overflow. *)
Lemma high_bits r : 0 <= r < 2 ^ 64 -> Z.land r (u64 (Z.shiftl ULLONG_MAX 60)) = 0 -> r < 2 ^ 60.
Proof.
  intros Hr E. assert (E2 : Z.shiftr (Z.land r (u64 (Z.shiftl ULLONG_MAX 60))) 60 = 0) by by rewrite E.
  rewrite Z.shiftr_land in E2.
  change (Z.shiftr (u64 (Z.shiftl ULLONG_MAX 60)) 60) with (Z.ones 4) in E2.
  rewrite Z.land_ones, Z.shiftr_div_pow2 in E2 by lia.
  rewrite Z.mod_small in E2 by (split; [apply Z.div_pos; lia|apply Z.div_lt_upper_bound; lia]).
  apply Z.div_small_iff in E2; lia.
Qed.

(** The overflow test of the loop is exact. *)
Lemma overflow_test r base val : 0 <= r < 2 ^ 64 -> 0 <= val < base -> base <= 16 ->
  negb (Z.land r (u64 (Z.shiftl ULLONG_MAX 60)) =? 0) && (div_u64 (ULLONG_MAX - val) base <? r)
  = (2 ^ 64 <=? r * base + val).
Proof.
  intros Hr Hv Hb. unfold div_u64, div_u64_rem. simpl fst. unfold ULLONG_MAX at 2.
  assert (Hd : (18446744073709551615 - val) / base < r <-> 2 ^ 64 <= r * base + val).
  { split; intros H.
    - assert (18446744073709551615 - val < base * r); [|lia].
      pose proof (Z.mul_succ_div_gt (18446744073709551615 - val) base). nia.
    - apply Z.div_lt_upper_bound; lia. }
  destruct (Z.eqb_spec (Z.land r (u64 (Z.shiftl ULLONG_MAX 60))) 0) as [E|E]; simpl.
  - apply high_bits in E; [|done]. symmetry. apply Z.leb_gt. nia.
  - destruct (Z.leb_spec (2 ^ 64) (r * base + val)) as [H|H]; [apply Z.ltb_lt|apply Z.ltb_ge]; lia.
Qed.

Definition MARK : Z := KSTRTOX_OVERFLOW.

Lemma mark_lor n : 0 <= n < MARK -> Z.lor n KSTRTOX_OVERFLOW = MARK + n.
Proof.
  intros H. unfold MARK, KSTRTOX_OVERFLOW in *. rewrite Z.lor_comm. by apply (lor_low 31 1).
Qed.

Lemma mark_lor_mark n : 0 <= n < MARK -> Z.lor (MARK + n) KSTRTOX_OVERFLOW = MARK + n.
Proof. intros H. rewrite <- mark_lor by done. rewrite <- Z.lor_assoc, Z.lor_diag. reflexivity. Qed.

Lemma mark_land n : 0 <= n < MARK -> Z.land n KSTRTOX_OVERFLOW = 0.
Proof.
  intros H. pose proof (mark_lor n H) as E. pose proof (Z.add_lor_land n KSTRTOX_OVERFLOW). unfold MARK in *. lia.
Qed.

Lemma mark_land_mark n : 0 <= n < MARK -> Z.land (MARK + n) KSTRTOX_OVERFLOW = MARK.
Proof.
  intros H. pose proof (mark_lor_mark n H) as E. pose proof (Z.add_lor_land (MARK + n) KSTRTOX_OVERFLOW).
  unfold MARK in *. lia.
Qed.

Lemma if_same {A} (b : bool) (x : A) : (if b then x else x) = x.
Proof. by destruct b. Qed.

(** Once the overflow bit is set it stays, and the count goes on. *)
Lemma parse_loop_marked s base r n : 1 <= base <= 16 -> c_string s -> 0 <= n ->
  n + Z.of_nat (length s) < MARK ->
  exists r', parse_loop s base r (MARK + n) = Ok (r', MARK + n + Z.of_nat (length (digits base s))).
Proof.
  intros Hb Hs. destruct Hs as [Hs _]. revert r n. induction Hs as [|c s Hc Hs IH]; intros r n Hn Hlen; simpl in *.
  - exists r. by rewrite Z.add_0_r.
  - rewrite digit_val_ok by lia. destruct (digit base c) as [d|]; simpl; [|exists r; by rewrite Z.add_0_r].
    rewrite mark_lor_mark by lia.
    rewrite if_same.
    rewrite u32_small by (unfold MARK, KSTRTOX_OVERFLOW in *; lia).
    destruct (IH (u64 (r * base + d)) (n + 1)) as [r' E]; [lia|lia|].
    exists r'. rewrite <- Z.add_assoc. rewrite E. do 2 f_equal. lia.
Qed.

Lemma parse_loop_ok s base r n : 1 <= base <= 16 -> c_string s -> 0 <= r < 2 ^ 64 -> 0 <= n ->
  n + Z.of_nat (length s) < MARK ->
  let v := value_from base r (digits base s) in
  let k := n + Z.of_nat (length (digits base s)) in
  exists r', parse_loop s base r n = Ok (r', if 2 ^ 64 <=? v then MARK + k else k) /\ (v < 2 ^ 64 -> r' = v).
Proof.
  intros Hb [Hs Hl]. revert r n. induction Hs as [|c s Hc Hs IH]; intros r n Hr Hn Hlen; simpl in *.
  - exists r. destruct (Z.leb_spec (2 ^ 64) r); [lia|]. by rewrite Z.add_0_r.
  - rewrite digit_val_ok by lia. destruct (digit base c) as [d|] eqn:Ed; simpl.
    2: { exists r. destruct (Z.leb_spec (2 ^ 64) r); [lia|]. by rewrite Z.add_0_r. }
    apply digit_range in Ed; [|lia]. rewrite overflow_test by lia.
    assert (Hge : r * base + d <= value_from base (r * base + d) (digits base s)).
    { apply value_from_ge; [lia|nia|apply digits_range; lia]. }
    destruct (Z.leb_spec (2 ^ 64) (r * base + d)) as [H|H].
    + rewrite mark_lor by lia. rewrite u32_small by (unfold MARK, KSTRTOX_OVERFLOW in *; lia).
      destruct (parse_loop_marked s base (u64 (r * base + d)) (n + 1)) as [r' E]; [lia| |lia|lia|].
      { split; [done|lia]. }
      exists r'. rewrite <- Z.add_assoc, E.
      destruct (Z.leb_spec (2 ^ 64) (value_from base (r * base + d) (digits base s))); [|lia].
      split; [do 2 f_equal; lia|lia].
    + rewrite u32_small by (unfold MARK, KSTRTOX_OVERFLOW in *; lia). rewrite u64_small by nia.
      destruct (IH ltac:(lia) (r * base + d) (n + 1)) as (r'&E&Hv); [nia|lia|lia|].
      exists r'. rewrite E. split; [|done]. do 2 f_equal. by destruct (_ <=? _); lia.
Qed.

(** ** The radix and the prefix *)

Lemma tolower_is_x s i : c_string s -> (_tolower (nth i s 0) =? 120) = is_x (nth i s 0).
Proof. intros H. by apply tolower_x, nth_char. Qed.

Lemma is_x_lt s i : is_x (nth i s 0) = true -> (i < length s)%nat.
Proof. intros H. apply nth_ne0. intros E. by rewrite E in H. Qed.

Lemma has_0x_ok s : c_string s -> has_0x s = Ok (prefix_0x s).
Proof.
  intros Hs. unfold has_0x, prefix_0x. rewrite char_at_nth by lia. simpl.
  destruct (Z.eqb_spec (nth 0 s 0) 48) as [E|E]; [|done]. simpl.
  rewrite char_at_nth by (pose proof (nth_ne0 s 0); lia). simpl. by rewrite tolower_is_x.
Qed.

Definition radix_of (s : list Z) (base : Z) : Z := if base =? 0 then auto_radix s else base.
Definition strip (s : list Z) (base : Z) : list Z := if (base =? 16) && prefix_0x s then drop 2 s else s.

Lemma fixup_radix_ok s base : c_string s ->
  _parse_integer_fixup_radix s base = Ok (strip s (radix_of s base), radix_of s base).
Proof.
  intros Hs. unfold _parse_integer_fixup_radix.
  assert (E : (if base =? 0 then
       c0 <-- char_at s 0;
       if c0 =? 48 then
         c1 <-- char_at s 1;
         hex <-- (if _tolower c1 =? 120 then c2 <-- char_at s 2; Ok (isxdigit c2) else Ok false);
         Ok (if hex : bool then 16 else 8)
       else Ok 10
     else Ok base) = Ok (radix_of s base)).
  { unfold radix_of, auto_radix. destruct (base =? 0); [|done]. rewrite char_at_nth by lia. simpl.
    destruct (Z.eqb_spec (nth 0 s 0) 48) as [E|E]; [|done].
    rewrite char_at_nth by (pose proof (nth_ne0 s 0); lia). simpl. rewrite tolower_is_x by done.
    destruct (is_x (nth 1 s 0)) eqn:Ex; simpl; [|done]. apply is_x_lt in Ex.
    rewrite char_at_nth by lia. simpl. rewrite isxdigit_spec by by apply nth_char. done. }
  rewrite E. simpl. unfold strip. destruct (radix_of s base =? 16); simpl; [|done].
  rewrite has_0x_ok by done. simpl. destruct (prefix_0x s) eqn:Ep; [|done].
  apply andb_true_iff in Ep as [_ Ex]. apply is_x_lt in Ex. by rewrite advance_ok by lia.
Qed.

Lemma radix_range s base : valid_base base -> 1 <= radix_of s base <= 16.
Proof.
  unfold valid_base, radix_of, auto_radix. intros H. destruct (Z.eqb_spec base 0); [|lia].
  destruct (_ =? 48); [|lia]. destruct (_ && _); lia.
Qed.

(** ** The conversions *)

Lemma ends_code s : c_string s ->
  (c <-- char_at s 0; s <-- (if c =? 10 then advance s 1 else Ok s); c <-- char_at s 0; Ok (negb (c =? 0)))
  = Ok (negb (ends s)).
Proof.
  intros Hs. rewrite char_at_nth by lia. simpl. destruct s as [|c s]; simpl; [done|].
  destruct (Z.eqb_spec c 10) as [->|H].
  - rewrite advance_ok by (simpl; lia). simpl. rewrite char_at_nth by lia. simpl.
    destruct s as [|c' s]; simpl; [done|]. destruct Hs as [Hs _]. apply Forall_cons in Hs as [_ Hs].
    apply Forall_cons in Hs as [Hc _]. destruct (Z.eqb_spec c' 0); [lia|done].
  - destruct Hs as [Hs _]. apply Forall_cons in Hs as [Hc _].
    destruct s; cbn [res_bind]; rewrite char_at_nth by lia; simpl; by destruct (Z.eqb_spec c 0); [lia|].
Qed.

Lemma kstrtoull_core_ok s base : c_string s -> valid_base base -> _kstrtoull s base = Ok (number s base).
Proof.
  intros Hs Hb. unfold _kstrtoull. rewrite fixup_radix_ok by done. simpl. unfold number.
  fold (radix_of s base). fold (strip s (radix_of s base)).
  pose proof (radix_range s base Hb) as Hr. set (b := radix_of s base) in *.
  assert (Ht : c_string (strip s b)) by (unfold strip; destruct (_ && _); [by apply c_string_drop|done]).
  set (t := strip s b) in *. unfold _parse_integer.
  destruct (parse_loop_ok t b 0 0) as (r&E&Hv); [done|done|lia|lia|destruct Ht; unfold MARK, KSTRTOX_OVERFLOW; lia|].
  rewrite E, !Z.add_0_l in *. cbn [res_bind]. fold (value b (digits b t)) in *. pose proof (digits_length b t) as Hdl.
  assert (Hk : 0 <= Z.of_nat (length (digits b t)) < MARK) by (destruct Ht; unfold MARK, KSTRTOX_OVERFLOW; lia).
  destruct (Z.leb_spec (2 ^ 64) (value b (digits b t))) as [H|H].
  - by rewrite mark_land_mark by done.
  - rewrite mark_land by done. simpl.
    destruct (Z.eqb_spec (Z.of_nat (length (digits b t))) 0) as [E0|E0].
    { by destruct (Nat.eqb_spec (length (digits b t)) 0); [|lia]. }
    destruct (Nat.eqb_spec (length (digits b t)) 0); [lia|].
    rewrite Nat2Z.id, advance_ok by done. simpl.
    pose proof (ends_code _ (c_string_drop (length (digits b t)) t Ht)) as Ee. revert Ee.
    destruct (char_at (drop _ t) 0) as [c|]; simpl; [|done].
    destruct (if c =? 10 then _ else _) as [s'|]; simpl; [|done]. destruct (char_at s' 0) as [c'|]; simpl; [|done].
    intros [= ->]. rewrite Hv by done. by destruct (ends _).
Qed.

Lemma sign_ok s sign : c_string s -> sign <> 0 ->
  (if nth 0 s 0 =? sign then advance s 1 else Ok s) = Ok (if nth 0 s 0 =? sign then drop 1 s else s).
Proof.
  intros Hs Hn. destruct (Z.eqb_spec (nth 0 s 0) sign) as [E|]; [|done].
  apply advance_ok. pose proof (nth_ne0 s 0). lia.
Qed.

Lemma kstrtoull_ok s base : c_string s -> valid_base base -> kstrtoull s base = Ok (unsigned_number s base).
Proof.
  intros Hs Hb. unfold kstrtoull, unsigned_number. rewrite char_at_nth by lia. cbn [res_bind].
  rewrite sign_ok by done. cbn [res_bind]. apply kstrtoull_core_ok; [|done].
  destruct (_ =? _); [by apply c_string_drop|done].
Qed.

(** What a successful parse gives is a 64-bit value. *)
Lemma number_range s base v : valid_base base -> number s base = Parsed v -> 0 <= v < 2 ^ 64.
Proof.
  intros Hb. unfold number. fold (radix_of s base). fold (strip s (radix_of s base)).
  pose proof (radix_range s base Hb). set (t := strip _ _). set (b := radix_of _ _) in *.
  destruct (Z.leb_spec (2 ^ 64) (value b (digits b t))); [done|].
  destruct (_ =? 0)%nat; [done|]. destruct (ends _); [|done]. intros [= <-].
  split; [|done]. apply value_from_ge; [lia|lia|apply digits_range; lia].
Qed.

Lemma unsigned_range s base v : valid_base base -> unsigned_number s base = Parsed v -> 0 <= v < 2 ^ 64.
Proof. intros Hb. by apply number_range. Qed.

Lemma s64_nonneg v : 0 <= v < 2 ^ 64 -> s64 v = if v <? 2 ^ 63 then v else v - 2 ^ 64.
Proof. intros H. unfold s64. by rewrite u64_small. Qed.

Lemma s64_neg v : 0 <= v < 2 ^ 64 -> s64 (u64 (- v)) = if v <=? 2 ^ 63 then - v else 2 ^ 64 - v.
Proof.
  intros H. destruct (Z.eq_dec v 0) as [->|]; [done|].
  replace (u64 (- v)) with (2 ^ 64 - v).
  - rewrite s64_nonneg by lia. destruct (Z.ltb_spec (2 ^ 64 - v) (2 ^ 63)), (Z.leb_spec v (2 ^ 63)); lia.
  - unfold u64. apply (Z.mod_unique_pos _ _ (-1)); lia.
Qed.

Definition LLONG_MIN : Z := - 2 ^ 63.
Definition LLONG_MAX : Z := 2 ^ 63 - 1.

Lemma kstrtoll_ok s base : c_string s -> valid_base base ->
  kstrtoll s base = Ok (within LLONG_MIN LLONG_MAX (signed_number s base)).
Proof.
  intros Hs Hb. unfold kstrtoll, signed_number, LLONG_MIN, LLONG_MAX. rewrite char_at_nth by lia. cbn [res_bind].
  destruct (Z.eqb_spec (nth 0 s 0) 45) as [E|E].
  - rewrite advance_ok by (pose proof (nth_ne0 s 0); lia). cbn [res_bind].
    rewrite kstrtoull_core_ok by (try apply c_string_drop; done). cbn [res_bind].
    destruct (number (drop 1 s) base) as [v|rc] eqn:En; [|done]. apply number_range in En; [|done].
    rewrite s64_neg by done. simpl. destruct (Z.leb_spec v (2 ^ 63)); zcase; done.
  - rewrite kstrtoull_ok by done. cbn [res_bind].
    destruct (unsigned_number s base) as [v|rc] eqn:En; [|done]. apply unsigned_range in En; [|done].
    rewrite s64_nonneg by done. simpl. destruct (Z.ltb_spec v (2 ^ 63)); zcase; done.
Qed.

Lemma narrow_within type lo hi l h (r : kres) :
  (forall v, l <= v <= h -> (v =? type v) = (lo <=? v) && (v <=? hi)) -> l <= lo -> hi <= h ->
  narrow type (within l h r) = within lo hi r.
Proof.
  intros Ht Hl Hh. destruct r as [v|rc]; [|done]. simpl.
  destruct (Z.leb_spec l v), (Z.leb_spec v h); simpl; [rewrite Ht by lia|..]; zcase; try done.
Qed.

Lemma within_id s base : valid_base base ->
  unsigned_number s base = within 0 ULLONG_MAX (unsigned_number s base).
Proof.
  intros Hb. destruct (unsigned_number s base) as [v|] eqn:E; [|done]. apply unsigned_range in E; [|done].
  unfold ULLONG_MAX. simpl. zcase. done.
Qed.

Lemma unsigned_cast n v : 0 < n -> 0 <= v -> (v =? v mod n) = (0 <=? v) && (v <=? n - 1).
Proof.
  intros Hn Hv. destruct (Z.leb_spec 0 v), (Z.leb_spec v (n - 1)); simpl; try lia.
  - rewrite Z.mod_small by lia. apply Z.eqb_refl.
  - apply Z.eqb_neq. pose proof (Z.mod_pos_bound v n). lia.
Qed.

Lemma signed_cast n v : 0 < n ->
  (v =? if v mod (2 * n) <? n then v mod (2 * n) else v mod (2 * n) - 2 * n) = (- n <=? v) && (v <=? n - 1).
Proof.
  intros Hn. pose proof (Z.mod_pos_bound v (2 * n)).
  destruct (Z.leb_spec (- n) v) as [H1|H1], (Z.leb_spec v (n - 1)) as [H2|H2]; simpl.
  2-4: apply Z.eqb_neq; destruct (Z.ltb_spec (v mod (2 * n)) n); lia.
  apply Z.eqb_eq. destruct (Z.leb_spec 0 v).
  - rewrite Z.mod_small by lia. by destruct (Z.ltb_spec v n); [|lia].
  - rewrite <- (Z.mod_unique_pos v (2 * n) (-1) (v + 2 * n)) by lia. destruct (Z.ltb_spec (v + 2 * n) n); lia.
Qed.

(** C35: every conversion computes the number its specification names and stores it
    exactly when the target type can hold it: the 64-bit ones and the 32, 16 and 8 bit
    ones, unsigned and signed.  A number of 2^64 or more and a value the type cannot
    hold are -ERANGE, a missing numeral or trailing characters are -EINVAL; no
    character after the terminating NUL is read. *)
Theorem kstrto_correct s base : c_string s -> valid_base base ->
  kstrtoull s base = Ok (within 0 (2 ^ 64 - 1) (unsigned_number s base)) /\
  kstrtouint s base = Ok (within 0 (2 ^ 32 - 1) (unsigned_number s base)) /\
  kstrtou16 s base = Ok (within 0 (2 ^ 16 - 1) (unsigned_number s base)) /\
  kstrtou8 s base = Ok (within 0 (2 ^ 8 - 1) (unsigned_number s base)) /\
  kstrtoll s base = Ok (within (- 2 ^ 63) (2 ^ 63 - 1) (signed_number s base)) /\
  kstrtoint s base = Ok (within (- 2 ^ 31) (2 ^ 31 - 1) (signed_number s base)) /\
  kstrtos16 s base = Ok (within (- 2 ^ 15) (2 ^ 15 - 1) (signed_number s base)) /\
  kstrtos8 s base = Ok (within (- 2 ^ 7) (2 ^ 7 - 1) (signed_number s base)).
Proof.
  intros Hs Hb. pose proof (kstrtoll_ok s base Hs Hb) as El.
  assert (Eu : kstrtoull s base = Ok (within 0 (2 ^ 64 - 1) (unsigned_number s base)))
    by (rewrite kstrtoull_ok, within_id at 1 by done; done).
  unfold kstrtouint, kstrtou16, kstrtou8, kstrtoint, kstrtos16, kstrtos8.
  rewrite Eu, El. cbn [res_bind].
  repeat split; try done; f_equal; unfold LLONG_MIN, LLONG_MAX; apply narrow_within; try done; intros v Hv.
  - apply (unsigned_cast (2 ^ 32)); lia.
  - apply (unsigned_cast (2 ^ 16)); lia.
  - apply (unsigned_cast (2 ^ 8)); lia.
  - apply (signed_cast (2 ^ 31)); lia.
  - apply (signed_cast (2 ^ 15)); lia.
  - apply (signed_cast (2 ^ 7)); lia.
Qed.

(** ** Printing and parsing back *)

Fixpoint to_digits (fuel : nat) (base v : Z) (acc : list Z) : list Z :=
  match fuel with
  | O => acc
  | S fuel => if v <? base then v :: acc else to_digits fuel base (v / base) (v mod base :: acc)
  end.

Definition digit_char (upper : bool) (d : Z) : Z :=
  if d <? 10 then 48 + d else if upper then 55 + d else 87 + d.

(** 64 digits are enough for a 64-bit value in any base. *)
Definition print (upper : bool) (base v : Z) : list Z := map (digit_char upper) (to_digits 64 base v []).

Definition newline (nl : bool) : list Z := if nl then [10] else [].

(** How a numeral of radix [base] is announced to a conversion called with [base0]. *)
Inductive spelling (v : Z) : Z -> Z -> list Z -> Prop :=
  | sp_plain base : spelling v base base []
  | sp_hex x : is_x x = true -> spelling v 16 16 [48; x]
  | sp_auto_dec : v <> 0 -> spelling v 0 10 []
  | sp_auto_oct : spelling v 0 8 [48]
  | sp_auto_hex x : is_x x = true -> spelling v 0 16 [48; x].

Lemma digit_of_char upper base d : base <= 16 -> 0 <= d < base -> digit base (digit_char upper d) = Some d.
Proof.
  intros Hb Hd.
  assert (E : (if in_range (digit_char upper d) 48 57 then digit_char upper d - 48
    else if in_range (digit_char upper d) 97 102 then digit_char upper d - 87
    else if in_range (digit_char upper d) 65 70 then digit_char upper d - 55 else base) = d).
  { unfold digit_char, in_range. destruct (Z.ltb_spec d 10); [|destruct upper]; zcase; simpl; lia. }
  unfold digit. rewrite E. by destruct (Z.ltb_spec d base); [|lia].
Qed.

Lemma digits_of_chars upper base ds nl : base <= 16 -> Forall (fun d => 0 <= d < base) ds ->
  digits base (map (digit_char upper) ds ++ newline nl) = ds.
Proof.
  intros Hb. induction 1 as [|d ds Hd _ IH].
  - destruct nl; [|done]. assert (E : digit base 10 = None) by (unfold digit; simpl; by rewrite (Z.ltb_irrefl base)).
    simpl. by rewrite E.
  - simpl. rewrite digit_of_char by done. by rewrite IH.
Qed.

Lemma to_digits_ok fuel base v acc : 2 <= base -> 0 <= v < base ^ Z.of_nat fuel -> (0 < fuel)%nat ->
  Forall (fun d => 0 <= d < base) acc ->
  let ds := to_digits fuel base v acc in
  value base ds = value_from base v acc /\ Forall (fun d => 0 <= d < base) ds /\
  exists d ds', ds = d :: ds' /\ (v <> 0 -> d <> 0).
Proof.
  intros Hb. revert v acc. induction fuel as [|fuel IH]; intros v acc Hv Hf Ha; [lia|]. simpl.
  destruct (Z.ltb_spec v base) as [H|H].
  - split; [|split]; [|constructor; [lia|done]|by exists v, acc]. unfold value. simpl. done.
  - rewrite Nat2Z.inj_succ, Z.pow_succ_r in Hv by lia. destruct (decide (fuel = 0)%nat) as [->|]; [simpl in Hv; lia|].
    pose proof (Z.div_mod v base). pose proof (Z.mod_pos_bound v base).
    destruct (IH (v / base) (v mod base :: acc)) as (E&F&d&ds'&Ed&Hd).
    + split; [apply Z.div_pos; lia|apply Z.div_lt_upper_bound; lia].
    + lia.
    + constructor; [lia|done].
    + split; [|split]; [|done|exists d, ds'; split; [done|]].
      * rewrite E. simpl. f_equal. lia.
      * intros _. apply Hd. enough (0 < v / base) by lia. apply Z.div_str_pos. lia.
Qed.

(** A digit is neither [x], a sign nor NUL. *)
Lemma digit_char_range upper d : 0 <= d < 16 -> 48 <= digit_char upper d <= 57 \/
  65 <= digit_char upper d <= 70 \/ 97 <= digit_char upper d <= 102.
Proof. intros H. unfold digit_char. destruct (Z.ltb_spec d 10); [|destruct upper]; lia. Qed.

Definition chars_of (upper : bool) (ds : list Z) (nl : bool) : list Z := map (digit_char upper) ds ++ newline nl.

Lemma chars_of_c upper base ds nl : base <= 16 -> Forall (fun d => 0 <= d < base) ds ->
  Forall (fun c => -128 <= c < 128 /\ c <> 0 /\ is_x c = false /\ c <> 43 /\ c <> 45) (chars_of upper ds nl).
Proof.
  intros Hb H. apply Forall_app. split; [|destruct nl; repeat apply List.Forall_cons; try done; lia].
  apply Forall_fmap. eapply Forall_impl; [exact H|]. intros d Hd. simpl in *.
  pose proof (digit_char_range upper d). unfold is_x. zcase; simpl; repeat split; lia.
Qed.

Lemma chars_of_nth upper base ds nl i : base <= 16 -> Forall (fun d => 0 <= d < base) ds ->
  let c := nth i (chars_of upper ds nl) 0 in is_x c = false /\ c <> 43 /\ c <> 45.
Proof.
  intros Hb H. pose proof (chars_of_c upper base ds nl Hb H) as Hc. simpl.
  destruct (decide (i < length (chars_of upper ds nl))%nat) as [Hi|Hi]; [|rewrite nth_overflow by lia; done].
  destruct (lookup_lt_is_Some_2 _ _ Hi) as [x E]. rewrite (nth_lookup_Some _ _ 0 _ E).
  eapply Forall_lookup_1 in Hc; [|exact E]. by destruct Hc as (_&_&?&?&?).
Qed.

Lemma number_digits s base0 base upper ds nl : 1 <= base <= 16 -> Forall (fun d => 0 <= d < base) ds -> ds <> [] ->
  value base ds < 2 ^ 64 -> radix_of s base0 = base -> strip s base = chars_of upper ds nl ->
  number s base0 = Parsed (value base ds).
Proof.
  intros Hb Hf Hne Hv Er Es. unfold number. fold (radix_of s base0). rewrite Er. fold (strip s base). rewrite Es.
  unfold chars_of. rewrite !digits_of_chars by (try done; lia).
  destruct (Z.leb_spec (2 ^ 64) (value base ds)); [lia|].
  destruct (Nat.eqb_spec (length ds) 0); [by destruct ds|].
  rewrite drop_app_length' by by rewrite length_map. by destruct nl.
Qed.

Lemma number_spelled v base0 base pre upper nl : 2 <= base <= 16 -> 0 <= v < 2 ^ 64 -> spelling v base0 base pre ->
  number (pre ++ print upper base v ++ newline nl) base0 = Parsed v.
Proof.
  intros Hb Hv Hsp.
  destruct (to_digits_ok 64 base v []) as (E&F&d&ds&Ed&Hd); [lia| |lia|done|].
  { split; [lia|]. apply Z.lt_le_trans with (2 ^ 64); [lia|]. apply Z.pow_le_mono_l. lia. }
  unfold print. fold (chars_of upper (to_digits 64 base v []) nl).
  change (value_from base v []) with v in E. set (t := to_digits 64 base v []) in *.
  assert (Hne : t <> []) by by rewrite Ed.
  assert (Hx : forall i, is_x (nth i (chars_of upper t nl) 0) = false) by (intros i; eapply chars_of_nth; [|exact F]; lia).
  assert (Hlt : value base t < 2 ^ 64) by lia.
  assert (Hst : strip (chars_of upper t nl) base = chars_of upper t nl).
  { unfold strip, prefix_0x. by rewrite Hx, !andb_false_r. }
  rewrite <- E at 1. destruct Hsp as [b|x Hxx|Hnz| |x Hxx].
  - eapply number_digits; try done; [lia|]. unfold radix_of. destruct (Z.eqb_spec b 0); [lia|done].
  - eapply number_digits; try done. unfold strip, prefix_0x. simpl. by rewrite Hxx.
  - eapply number_digits; try done. unfold radix_of, auto_radix. simpl.
    rewrite Ed. simpl. rewrite Ed in F. apply Forall_cons in F as [Fd _]. specialize (Hd Hnz).
    unfold digit_char. zcase; done.
  - replace (value 8 t) with (value 8 (0 :: t)) by done.
    apply (number_digits _ 0 8 upper (0 :: t) nl); try done; [constructor; [lia|done]|].
    unfold radix_of, auto_radix. simpl. by rewrite Hx.
  - eapply number_digits; try done.
    + unfold radix_of, auto_radix. simpl. rewrite Hxx. rewrite Ed. simpl.
      rewrite Ed in F. apply Forall_cons in F as [Fd _].
      pose proof (digit_char_range upper d). unfold hex_digit, in_range. zcase; simpl; try done; lia.
    + unfold strip, prefix_0x. simpl. by rewrite Hxx.
Qed.

Lemma to_digits_length f b v acc : (length (to_digits f b v acc) <= f + length acc)%nat.
Proof.
  revert v acc. induction f as [|f IH]; intros w acc; simpl; [lia|]. destruct (w <? b); simpl; [lia|].
  specialize (IH (w / b) (w mod b :: acc)). simpl in IH. lia.
Qed.

Local Opaque to_digits.

Lemma spelled_c_string v base0 base pre upper nl : 2 <= base <= 16 -> 0 <= v < 2 ^ 64 -> spelling v base0 base pre ->
  let s := pre ++ print upper base v ++ newline nl in
  c_string s /\ valid_base base0 /\ nth 0 s 0 <> 43 /\ nth 0 s 0 <> 45 /\ Z.of_nat (length s) < 1000.
Proof.
  intros Hb Hv Hsp.
  destruct (to_digits_ok 64 base v []) as (_&F&d&ds&Ed&Hd); [lia| |lia|done|].
  { split; [lia|]. apply Z.lt_le_trans with (2 ^ 64); [lia|]. apply Z.pow_le_mono_l. lia. }
  pose proof (to_digits_length 64 base v []) as Hlen. unfold print. fold (chars_of upper (to_digits 64 base v []) nl).
  set (t := to_digits 64 base v []) in *.
  assert (Hl : (length (chars_of upper t nl) <= 65)%nat).
  { unfold chars_of. rewrite length_app, length_map. destruct nl; simpl in *; lia. }
  pose proof (chars_of_nth upper base t nl 0 ltac:(lia) F) as (_&H43&H45).
  assert (Hc : c_string (chars_of upper t nl)).
  { split; [|lia]. eapply Forall_impl; [apply (chars_of_c upper base); [lia|done]|]. simpl. intros; lia. }
  assert (Hpre : forall x, is_x x = true -> c_string (48 :: x :: chars_of upper t nl)).
  { intros x Hx. destruct Hc as [Hc _]. split; [|simpl; lia].
    unfold is_x in Hx. apply orb_true_iff in Hx as [Hx|Hx]; zbool; repeat apply List.Forall_cons; try done; lia. }
  unfold valid_base. cbv zeta. destruct Hsp as [b|x Hxx|Hnz| |x Hxx].
  - rewrite app_nil_l. repeat split; try done; try lia; apply Hc.
  - simpl. repeat split; try lia; try (apply (Hpre x); done).
  - rewrite app_nil_l. repeat split; try done; try lia; apply Hc.
  - simpl. destruct Hc as [Hc _]. repeat split; try lia; [|simpl; lia]. apply List.Forall_cons; [lia|done].
  - simpl. repeat split; try lia; try (apply (Hpre x); done).
Qed.

(** printing and parsing back.  The digits of a 64-bit value in any base from 2 to
    16, in either letter case, with the prefix the requested base accepts (none, [0x]
    for base 16, the automatic prefixes for base 0) and an optional newline, are parsed
    to that value, with or without a plus sign; after a minus sign, [kstrtoll] gives
    the opposite down to the smallest 64-bit integer and -ERANGE below it. *)
Theorem kstrto_roundtrip v base0 base pre upper nl :
  2 <= base <= 16 -> 0 <= v < 2 ^ 64 -> spelling v base0 base pre ->
  let s := pre ++ print upper base v ++ newline nl in
  kstrtoull s base0 = Ok (Parsed v) /\
  kstrtoull (43 :: s) base0 = Ok (Parsed v) /\
  kstrtoll (45 :: s) base0 = Ok (if v <=? 2 ^ 63 then Parsed (- v) else Failed (- ERANGE)).
Proof.
  intros Hb Hv Hsp. cbv zeta.
  destruct (spelled_c_string v base0 base pre upper nl Hb Hv Hsp) as (Hc&Hb0&H43&H45&Hl).
  pose proof (number_spelled v base0 base pre upper nl Hb Hv Hsp) as En.
  set (s := pre ++ _) in *.
  assert (Hcs : forall x, -128 <= x < 128 -> x <> 0 -> c_string (x :: s)).
  { intros x Hx Hx0. destruct Hc as [Hc _]. split; [|simpl; lia]. apply List.Forall_cons; [lia|done]. }
  rewrite kstrtoull_ok, kstrtoull_ok, kstrtoll_ok by (try apply Hcs; done || lia).
  unfold signed_number, unsigned_number. cbn [nth drop]. rewrite !Z.eqb_refl, !drop_0.
  rewrite (proj2 (Z.eqb_neq _ _) H43), En. split; [done|]. split; [done|].
  unfold within, LLONG_MIN, LLONG_MAX. f_equal. zcase; done.
Qed.

(** ** Conversions from user memory *)

Lemma cstring_id s : Forall (fun c => c <> 0) s -> cstring (s ++ [0]) = s.
Proof.
  induction 1 as [|c s Hc _ IH]; simpl; [done|].
  destruct (Z.eqb_spec c 0); [lia|]. by rewrite IH.
Qed.

(** A user buffer that fits the on-stack buffer is converted like the string it holds. *)
Lemma from_user_fits g size s base : (length s <= size * 8 + 2)%nat -> Forall (fun c => c <> 0) s ->
  kstrto_from_user g size s (length s) base = g s base.
Proof.
  intros Hl Hs. unfold kstrto_from_user, copy_from_user. rewrite Nat.min_l by lia.
  rewrite Nat.leb_refl, firstn_all. simpl. by rewrite cstring_id.
Qed.

Lemma from_user_truncates g size s base : (size * 8 + 2 <= length s)%nat -> Forall (fun c => c <> 0) s ->
  kstrto_from_user g size s (length s) base = g (take (size * 8 + 2) s) base.
Proof.
  intros Hl Hs. unfold kstrto_from_user, copy_from_user. rewrite Nat.min_r by lia.
  replace (1 + size * 8 + 1 + 1 - 1)%nat with (size * 8 + 2)%nat by lia.
  destruct (Nat.leb_spec (size * 8 + 2) (length s)); [|lia]. simpl. rewrite cstring_id; [done|].
  by apply Forall_take.
Qed.

(** the [_from_user] variants convert a user buffer of up to 8 * sizeof(type) + 2
    bytes like the string it holds; of a longer one only that prefix is converted, so
    that the twelve bytes of 000000000255 are accepted as a [u8] of value 2. *)
Theorem kstrto_from_user_correct g size s base : Forall (fun c => c <> 0) s ->
  kstrto_from_user g size s (length s) base = g (take (size * 8 + 2) s) base /\
  kstrtou8_from_user [48; 48; 48; 48; 48; 48; 48; 48; 48; 50; 53; 53] 12 10 = Ok (Parsed 2).
Proof.
  intros Hs. split; [|reflexivity].
  destruct (decide (length s <= size * 8 + 2)%nat); [|apply from_user_truncates; [lia|done]].
  rewrite from_user_fits by done. by rewrite take_ge by lia.
Qed.

(** [kstrtobool] stores a value iff the first character is one of [Yy1Nn0], or the
    first two are [oO] and [NnFf]. *)
Lemma kstrtobool_ok s : c_string s ->
  let c := nth 0 s 0 in let o := (c =? 111) || (c =? 79) in
  let c1 := nth 1 s 0 in
  kstrtobool (Some s) = Ok
    (if existsb (Z.eqb c) [121; 89; 49] || o && existsb (Z.eqb c1) [110; 78] then Parsed 1
     else if existsb (Z.eqb c) [110; 78; 48] || o && existsb (Z.eqb c1) [102; 70] then Parsed 0
     else Failed (- EINVAL)).
Proof.
  intros Hs. cbv zeta. unfold kstrtobool. rewrite char_at_nth by lia. cbn [res_bind existsb].
  rewrite !orb_false_r, !orb_assoc.
  destruct ((nth 0 s 0 =? 111) || (nth 0 s 0 =? 79)) eqn:Eo; rewrite ?andb_true_l, ?andb_false_l, ?orb_false_r.
  - assert (H : nth 0 s 0 = 111 \/ nth 0 s 0 = 79) by (apply orb_true_iff in Eo; zcase; lia).
    rewrite char_at_nth by (pose proof (nth_ne0 s 0); lia). cbn [res_bind].
    destruct H as [->| ->]; simpl; by repeat destruct (_ || _).
  - by repeat destruct (_ || _).
Qed.

(** ** Concrete instances *)

Definition ex_minus_129 : list Z := [45; 49; 50; 57; 10].

Lemma ex_minus_129_ok : c_string ex_minus_129.
Proof. split; [|simpl; lia]. unfold ex_minus_129. repeat apply List.Forall_cons; try constructor; lia. Qed.

Lemma kstrto_correct_witness :
  kstrtos16 ex_minus_129 10 = Ok (Parsed (-129)) /\ kstrtos8 ex_minus_129 10 = Ok (Failed (- ERANGE)) /\
  kstrtouint ex_minus_129 10 = Ok (Failed (- EINVAL)).
Proof.
  destruct (kstrto_correct ex_minus_129 10 ex_minus_129_ok ltac:(unfold valid_base; lia)) as (_&E1&_&_&_&_&E2&E3).
  rewrite E1, E2, E3. vm_compute. repeat split.
Defined.

Lemma kstrto_roundtrip_witness :
  kstrtoull ([48; 120] ++ print true 16 0xDEADBEEF ++ [10]) 0 = Ok (Parsed 0xDEADBEEF).
Proof.
  apply (kstrto_roundtrip 0xDEADBEEF 0 16 [48; 120] true true); [lia|lia|by apply sp_auto_hex].
Defined.

Lemma kstrto_from_user_correct_witness :
  kstrtou16_from_user [49; 50; 51] 3 10 = Ok (Parsed 123).
Proof.
  apply (kstrto_from_user_correct kstrtou16 2 [49; 50; 51] 10).
  repeat apply List.Forall_cons; try constructor; lia.
Defined.
