(* ===== verification/Rbtree.v ===== *)
(** * Red-black trees (lib/rbtree.c, include/linux/rbtree.h, rbtree_augmented.h)

    Nodes live in a memory indexed by address; a node holds its two child pointers and a
    word with the address of its parent and its colour in the lowest bit.  The functions
    read and write that memory as the source does; an access through NULL or through a
    pointer that is not a node is a fault.  Where the source has the same code twice with
    left and right exchanged, the model has it once, for a [side]. *)

From stdpp Require Import gmap.
From S2P Require Import Prelude.
Local Open Scope Z_scope.
Local Open Scope res_scope.

Definition NULL : Z := 0.
Definition RB_RED : Z := 0.
Definition RB_BLACK : Z := 1.

Record rb_node := mk_node { rb_parent_color : Z; rb_right : Z; rb_left : Z }.

(** The memory: [struct rb_root]'s only field and the nodes. *)
Record mem := mk_mem { root : Z; nodes : gmap Z rb_node }.

Inductive side := Lt | Rt.
Definition opp (d : side) : side := match d with Lt => Rt | Rt => Lt end.

Definition node_at (m : mem) (p : Z) : res rb_node :=
  match nodes m !! p with Some v => Ok v | None => Fault OutOfBounds end.

Definition put_node (m : mem) (p : Z) (v : rb_node) : mem := mk_mem (root m) (<[p := v]> (nodes m)).

Definition child_of (v : rb_node) (d : side) : Z := match d with Lt => rb_left v | Rt => rb_right v end.

Definition with_child (v : rb_node) (d : side) (q : Z) : rb_node :=
  match d with
  | Lt => mk_node (rb_parent_color v) (rb_right v) q
  | Rt => mk_node (rb_parent_color v) q (rb_left v)
  end.

(** [p->rb_left], [p->rb_right] and their assignment *)
Definition child (m : mem) (p : Z) (d : side) : res Z := v <-- node_at m p; Ok (child_of v d).
Definition set_child (m : mem) (p : Z) (d : side) (q : Z) : res mem :=
  v <-- node_at m p; Ok (put_node m p (with_child v d q)).

Definition parent_color (m : mem) (p : Z) : res Z := v <-- node_at m p; Ok (rb_parent_color v).
Definition set_parent_color_word (m : mem) (p pc : Z) : res mem :=
  v <-- node_at m p; Ok (put_node m p (mk_node pc (rb_right v) (rb_left v))).

Definition __rb_parent (pc : Z) : Z := Z.land pc (Z.lnot 3).
Definition __rb_color (pc : Z) : Z := Z.land pc 1.
Definition __rb_is_black (pc : Z) : bool := negb (__rb_color pc =? 0).
Definition __rb_is_red (pc : Z) : bool := __rb_color pc =? 0.

Definition rb_parent (m : mem) (p : Z) : res Z := pc <-- parent_color m p; Ok (__rb_parent pc).
Definition rb_is_red (m : mem) (p : Z) : res bool := pc <-- parent_color m p; Ok (__rb_is_red pc).
Definition rb_is_black (m : mem) (p : Z) : res bool := pc <-- parent_color m p; Ok (__rb_is_black pc).

Definition rb_set_parent (m : mem) (rb p : Z) : res mem :=
  pc <-- parent_color m rb; set_parent_color_word m rb (Z.lor (__rb_color pc) p).
Definition rb_set_parent_color (m : mem) (rb p color : Z) : res mem := set_parent_color_word m rb (Z.lor p color).
Definition rb_set_black (m : mem) (rb : Z) : res mem :=
  pc <-- parent_color m rb; set_parent_color_word m rb (Z.lor pc RB_BLACK).
Definition rb_red_parent (m : mem) (red : Z) : res Z := parent_color m red.

Definition set_root (m : mem) (p : Z) : mem := mk_mem p (nodes m).

Definition __rb_change_child (m : mem) (old new parent : Z) : res mem :=
  if negb (parent =? NULL) then
    l <-- child m parent Lt;
    if l =? old then set_child m parent Lt new else set_child m parent Rt new
  else Ok (set_root m new).

Definition __rb_rotate_set_parents (m : mem) (old new color : Z) : res mem :=
  parent <-- rb_parent m old;
  pc <-- parent_color m old;
  m <-- set_parent_color_word m new pc;
  m <-- rb_set_parent_color m old new color;
  __rb_change_child m old new parent.

(** The links a new node can be hung on: the root pointer or a child pointer. *)
Inductive link := RootLink | ChildLink (p : Z) (d : side).

Definition rb_link_node (m : mem) (node parent : Z) (rb_link : link) : res mem :=
  m <-- set_parent_color_word m node parent;
  m <-- set_child m node Rt NULL;
  m <-- set_child m node Lt NULL;
  match rb_link with
  | RootLink => Ok (set_root m node)
  | ChildLink p d => set_child m p d node
  end.

(** [if (tmp) op] *)
Definition if_ptr (m : mem) (tmp : Z) (op : mem -> res mem) : res mem := if negb (tmp =? NULL) then op m else Ok m.

(** [tmp && rb_is_red(tmp)] and [!tmp || rb_is_black(tmp)] *)
Definition red_ptr (m : mem) (tmp : Z) : res bool := if negb (tmp =? NULL) then rb_is_red m tmp else Ok false.
Definition black_ptr (m : mem) (tmp : Z) : res bool := if tmp =? NULL then Ok true else rb_is_black m tmp.

Section insert.
Variable augment_rotate : Z -> Z -> mem -> res mem.

(** Cases 2 and 3, the parent being the child of [gparent] on side [d]: where the loop
    ends. *)
Definition insert_rotate (m : mem) (d : side) (node parent gparent : Z) : res mem :=
  tmp <-- child m parent (opp d);
  '(m, parent, tmp) <--
    (if node =? tmp then
       tmp <-- child m node d;
       m <-- set_child m parent (opp d) tmp;
       m <-- set_child m node d parent;
       m <-- if_ptr m tmp (fun m => rb_set_parent_color m tmp parent RB_BLACK);
       m <-- rb_set_parent_color m parent node RB_RED;
       m <-- augment_rotate parent node m;
       tmp <-- child m node (opp d);
       Ok (m, node, tmp)
     else Ok (m, parent, tmp));
  m <-- set_child m gparent d tmp;
  m <-- set_child m parent (opp d) gparent;
  m <-- if_ptr m tmp (fun m => rb_set_parent_color m tmp gparent RB_BLACK);
  m <-- __rb_rotate_set_parents m gparent parent RB_RED;
  augment_rotate gparent parent m.

Fixpoint insert_loop (fuel : nat) (m : mem) (node parent : Z) : res mem :=
  match fuel with
  | O => Fault NoFuel
  | S fuel =>
    if parent =? NULL then rb_set_parent_color m node NULL RB_BLACK
    else
      black <-- rb_is_black m parent;
      if black : bool then Ok m
      else
        gparent <-- rb_red_parent m parent;
        tmp <-- child m gparent Rt;
        let d := if negb (parent =? tmp) then Lt else Rt in
        tmp <-- child m gparent (opp d);
        red <-- red_ptr m tmp;
        if red : bool then
          m <-- rb_set_parent_color m tmp gparent RB_BLACK;
          m <-- rb_set_parent_color m parent gparent RB_BLACK;
          let node := gparent in
          parent <-- rb_parent m node;
          m <-- rb_set_parent_color m node parent RB_RED;
          insert_loop fuel m node parent
        else insert_rotate m d node parent gparent
  end.

(** Every round goes up two levels, so the number of nodes bounds the rounds. *)
Definition __rb_insert (m : mem) (node : Z) : res mem :=
  parent <-- rb_red_parent m node;
  insert_loop (S (size (nodes m))) m node parent.
End insert.

Definition dummy_rotate (old new : Z) (m : mem) : res mem := Ok m.

Definition rb_insert_color (m : mem) (node : Z) : res mem := __rb_insert dummy_rotate m node.
Definition __rb_insert_augmented (augment_rotate : Z -> Z -> mem -> res mem) (m : mem) (node : Z) : res mem :=
  __rb_insert augment_rotate m node.

(** ** Erasing *)

Record rb_augment_callbacks := mk_callbacks {
  propagate : Z -> Z -> mem -> res mem; copy : Z -> Z -> mem -> res mem; rotate : Z -> Z -> mem -> res mem }.

Section erase.
Variable augment : rb_augment_callbacks.

(** Case 1: a red sibling becomes the parent's parent; returns the new sibling. *)
Definition erase_case1 (m : mem) (d : side) (parent sibling : Z) : res (mem * Z) :=
  tmp1 <-- child m sibling d;
  m <-- set_child m parent (opp d) tmp1;
  m <-- set_child m sibling d parent;
  m <-- rb_set_parent_color m tmp1 parent RB_BLACK;
  m <-- __rb_rotate_set_parents m parent sibling RB_RED;
  m <-- rotate augment parent sibling m;
  Ok (m, tmp1).

(** Case 3: rotate at the sibling; returns [tmp1] and the new sibling. *)
Definition erase_case3 (m : mem) (d : side) (parent sibling tmp2 : Z) : res (mem * Z * Z) :=
  tmp1 <-- child m tmp2 (opp d);
  m <-- set_child m sibling d tmp1;
  m <-- set_child m tmp2 (opp d) sibling;
  m <-- set_child m parent (opp d) tmp2;
  m <-- if_ptr m tmp1 (fun m => rb_set_parent_color m tmp1 sibling RB_BLACK);
  m <-- rotate augment sibling tmp2 m;
  Ok (m, sibling, tmp2).

(** Case 4: rotate at the parent, the end of the loop. *)
Definition erase_case4 (m : mem) (d : side) (parent sibling tmp1 : Z) : res mem :=
  tmp2 <-- child m sibling d;
  m <-- set_child m parent (opp d) tmp2;
  m <-- set_child m sibling d parent;
  m <-- rb_set_parent_color m tmp1 sibling RB_BLACK;
  m <-- if_ptr m tmp2 (fun m => rb_set_parent m tmp2 parent);
  m <-- __rb_rotate_set_parents m parent sibling RB_BLACK;
  rotate augment parent sibling m.

(** Cases 2 to 4 at a black sibling; [again] is the loop's [continue]. *)
Definition erase_sibling (again : mem -> Z -> Z -> res mem) (m : mem) (d : side) (parent sibling : Z) : res mem :=
  tmp1 <-- child m sibling (opp d);
  black <-- black_ptr m tmp1;
  if black : bool then
    tmp2 <-- child m sibling d;
    black2 <-- black_ptr m tmp2;
    if black2 : bool then
      m <-- rb_set_parent_color m sibling parent RB_RED;
      red <-- rb_is_red m parent;
      if red : bool then rb_set_black m parent
      else
        let node := parent in
        parent <-- rb_parent m node;
        if negb (parent =? NULL) then again m node parent else Ok m
    else
      '(m, tmp1, sibling) <-- erase_case3 m d parent sibling tmp2;
      erase_case4 m d parent sibling tmp1
  else erase_case4 m d parent sibling tmp1.

Fixpoint erase_loop (fuel : nat) (m : mem) (node parent : Z) : res mem :=
  match fuel with
  | O => Fault NoFuel
  | S fuel =>
    sibling <-- child m parent Rt;
    let d := if negb (node =? sibling) then Lt else Rt in
    sibling <-- child m parent (opp d);
    red <-- rb_is_red m sibling;
    '(m, sibling) <-- (if red : bool then erase_case1 m d parent sibling else Ok (m, sibling));
    erase_sibling (erase_loop fuel) m d parent sibling
  end.

Definition ____rb_erase_color (m : mem) (parent : Z) : res mem :=
  erase_loop (S (size (nodes m))) m NULL parent.

(** The loop of case 3: down the left children to the successor and its parent. *)
Fixpoint successor_loop (fuel : nat) (m : mem) (successor tmp : Z) : res (Z * Z) :=
  match fuel with
  | O => Fault NoFuel
  | S fuel =>
    let parent := successor in
    let successor := tmp in
    tmp <-- child m tmp Lt;
    if negb (tmp =? NULL) then successor_loop fuel m successor tmp else Ok (parent, successor)
  end.

(** Unlinks the node; returns where to rebalance, or NULL. *)
Definition __rb_erase_augmented (m : mem) (node : Z) : res (mem * Z) :=
  child_ <-- child m node Rt;
  tmp <-- child m node Lt;
  if tmp =? NULL then
    pc <-- parent_color m node;
    let parent := __rb_parent pc in
    m <-- __rb_change_child m node child_ parent;
    '(m, rebalance) <--
      (if negb (child_ =? NULL) then m <-- set_parent_color_word m child_ pc; Ok (m, NULL)
       else Ok (m, if __rb_is_black pc then parent else NULL));
    m <-- propagate augment parent NULL m;
    Ok (m, rebalance)
  else if child_ =? NULL then
    pc <-- parent_color m node;
    m <-- set_parent_color_word m tmp pc;
    let parent := __rb_parent pc in
    m <-- __rb_change_child m node tmp parent;
    m <-- propagate augment parent NULL m;
    Ok (m, NULL)
  else
    let successor := child_ in
    tmp <-- child m child_ Lt;
    '(m, parent, successor, child2) <--
      (if tmp =? NULL then
         let parent := successor in
         child2 <-- child m successor Rt;
         m <-- copy augment node successor m;
         Ok (m, parent, successor, child2)
       else
         '(parent, successor) <-- successor_loop (S (size (nodes m))) m successor tmp;
         child2 <-- child m successor Rt;
         m <-- set_child m parent Lt child2;
         m <-- set_child m successor Rt child_;
         m <-- rb_set_parent m child_ successor;
         m <-- copy augment node successor m;
         m <-- propagate augment parent successor m;
         Ok (m, parent, successor, child2));
    tmp <-- child m node Lt;
    m <-- set_child m successor Lt tmp;
    m <-- rb_set_parent m tmp successor;
    pc <-- parent_color m node;
    let tmp := __rb_parent pc in
    m <-- __rb_change_child m node successor tmp;
    '(m, rebalance) <--
      (if negb (child2 =? NULL) then
         m <-- set_parent_color_word m successor pc;
         m <-- rb_set_parent_color m child2 parent RB_BLACK;
         Ok (m, NULL)
       else
         pc2 <-- parent_color m successor;
         m <-- set_parent_color_word m successor pc;
         Ok (m, if __rb_is_black pc2 then parent else NULL));
    m <-- propagate augment successor NULL m;
    Ok (m, rebalance).
End erase.

Definition dummy_propagate (node stop : Z) (m : mem) : res mem := Ok m.
Definition dummy_copy (old new : Z) (m : mem) : res mem := Ok m.
Definition dummy_callbacks : rb_augment_callbacks := mk_callbacks dummy_propagate dummy_copy dummy_rotate.

Definition rb_erase (m : mem) (node : Z) : res mem :=
  '(m, rebalance) <-- __rb_erase_augmented dummy_callbacks m node;
  if negb (rebalance =? NULL) then ____rb_erase_color dummy_callbacks m rebalance else Ok m.

Definition rb_erase_augmented (augment : rb_augment_callbacks) (m : mem) (node : Z) : res mem :=
  '(m, rebalance) <-- __rb_erase_augmented augment m node;
  if negb (rebalance =? NULL) then ____rb_erase_color augment m rebalance else Ok m.

(** ** Traversal *)

(** [while (n->side) n = n->side] *)
Fixpoint descend (fuel : nat) (m : mem) (d : side) (n : Z) : res Z :=
  match fuel with
  | O => Fault NoFuel
  | S fuel => q <-- child m n d; if negb (q =? NULL) then descend fuel m d q else Ok n
  end.

Definition rb_end (d : side) (m : mem) : res Z :=
  if root m =? NULL then Ok NULL else descend (S (size (nodes m))) m d (root m).
Definition rb_first : mem -> res Z := rb_end Lt.
Definition rb_last : mem -> res Z := rb_end Rt.

(** [while ((parent = rb_parent(node)) && node == parent->side) node = parent] *)
Fixpoint ascend (fuel : nat) (m : mem) (d : side) (node : Z) : res Z :=
  match fuel with
  | O => Fault NoFuel
  | S fuel =>
    parent <-- rb_parent m node;
    if negb (parent =? NULL) then
      q <-- child m parent d;
      if node =? q then ascend fuel m d parent else Ok parent
    else Ok parent
  end.

(** [rb_next] for [d] right, [rb_prev] for [d] left. *)
Definition rb_step (d : side) (m : mem) (node : Z) : res Z :=
  pc <-- parent_color m node;
  if pc =? node then Ok NULL
  else
    q <-- child m node d;
    if negb (q =? NULL) then descend (S (size (nodes m))) m (opp d) q
    else ascend (S (size (nodes m))) m d node.
Definition rb_next : mem -> Z -> res Z := rb_step Rt.
Definition rb_prev : mem -> Z -> res Z := rb_step Lt.

Definition rb_replace_node (m : mem) (victim new : Z) : res mem :=
  parent <-- rb_parent m victim;
  v <-- node_at m victim;
  _ <-- node_at m new;
  let m := put_node m new v in
  l <-- child m victim Lt;
  m <-- if_ptr m l (fun m => rb_set_parent m l new);
  r <-- child m victim Rt;
  m <-- if_ptr m r (fun m => rb_set_parent m r new);
  __rb_change_child m victim new parent.

(** ** Post-order traversal *)

Fixpoint rb_left_deepest_node (fuel : nat) (m : mem) (node : Z) : res Z :=
  match fuel with
  | O => Fault NoFuel
  | S fuel =>
    l <-- child m node Lt;
    if negb (l =? NULL) then rb_left_deepest_node fuel m l
    else
      r <-- child m node Rt;
      if negb (r =? NULL) then rb_left_deepest_node fuel m r else Ok node
  end.

Definition rb_next_postorder (m : mem) (node : Z) : res Z :=
  if node =? NULL then Ok NULL
  else
    parent <-- rb_parent m node;
    if parent =? NULL then Ok parent
    else
      l <-- child m parent Lt;
      r <-- child m parent Rt;
      if (node =? l) && negb (r =? NULL) then rb_left_deepest_node (S (size (nodes m))) m r else Ok parent.

Definition rb_first_postorder (m : mem) : res Z :=
  if root m =? NULL then Ok NULL else rb_left_deepest_node (S (size (nodes m))) m (root m).

(** ** Trees with a cached leftmost node *)

Definition rb_insert_color_cached (m : mem) (leftmost_ node : Z) (leftmost : bool) : res (mem * Z) :=
  let leftmost_ := if leftmost then node else leftmost_ in
  m <-- rb_insert_color m node; Ok (m, leftmost_).

Definition rb_erase_cached (m : mem) (leftmost_ node : Z) : res (mem * Z * Z) :=
  '(leftmost, leftmost_) <--
    (if leftmost_ =? node then n <-- rb_next m node; Ok (n, n) else Ok (NULL, leftmost_));
  m <-- rb_erase m node;
  Ok (m, leftmost_, leftmost).

Definition rb_replace_node_cached (m : mem) (leftmost_ victim new : Z) : res (mem * Z) :=
  let leftmost_ := if leftmost_ =? victim then new else leftmost_ in
  m <-- rb_replace_node m victim new; Ok (m, leftmost_).
