(* ===== verification/RbtreeTree.v ===== *)
(** * The trees a memory represents

    Pure red-black trees with their zippers, the rebalancing of lib/rbtree.c as functions
    on zippers, its correctness, and the correspondence between trees and memories. *)

From stdpp Require Import gmap.
From S2P Require Import Prelude Rbtree.
Local Open Scope Z_scope.

Inductive color := Red | Black.
Inductive tree := E | T (c : color) (l : tree) (n : Z) (r : tree).

#[global] Instance color_eq_dec : EqDecision color.
Proof. solve_decision. Defined.
#[global] Instance side_eq_dec : EqDecision side.
Proof. solve_decision. Defined.

Definition cz (c : color) : Z := match c with Red => RB_RED | Black => RB_BLACK end.

Definition ptr (t : tree) : Z := match t with E => NULL | T _ _ n _ => n end.

(** A node with [x] on side [d] and [y] on the other. *)
Definition mk (d : side) (c : color) (x : tree) (n : Z) (y : tree) : tree :=
  match d with Lt => T c x n y | Rt => T c y n x end.

Definition kid (d : side) (l r : tree) : tree := match d with Lt => l | Rt => r end.

(** The colour a node gets when the code rewrites its word. *)
Definition blk (t : tree) : tree := match t with E => E | T _ l n r => T Black l n r end.
Definition is_red (t : tree) : bool := match t with T Red _ _ _ => true | _ => false end.

(** The path to a subtree, from the inside: the hole is on side [d] of the node. *)
Inductive frame := F (d : side) (c : color) (n : Z) (s : tree).
Definition path := list frame.

Definition plug1 (f : frame) (t : tree) : tree := let '(F d c n s) := f in mk d c t n s.
Fixpoint plug (k : path) (t : tree) : tree :=
  match k with
  | [] => t
  | f :: k => plug k (plug1 f t)
  end.

Fixpoint elements (t : tree) : list Z :=
  match t with
  | E => []
  | T _ l n r => elements l ++ n :: elements r
  end.

(** What comes before and after the hole. *)
Fixpoint before (k : path) : list Z :=
  match k with
  | [] => []
  | F Lt _ _ _ :: k => before k
  | F Rt _ n s :: k => before k ++ elements s ++ [n]
  end.
Fixpoint after (k : path) : list Z :=
  match k with
  | [] => []
  | F Lt _ n s :: k => n :: elements s ++ after k
  | F Rt _ _ _ :: k => after k
  end.

Lemma elements_plug k t : elements (plug k t) = before k ++ elements t ++ after k.
Proof.
  revert t. induction k as [|[[] c n s] k IH]; intros t; simpl; [by rewrite app_nil_r|..]; rewrite IH; simpl;
    by rewrite <- ?app_assoc.
Qed.

(** ** The invariant *)

Inductive rbt : color -> nat -> tree -> Prop :=
  | rbt_E : rbt Black 0 E
  | rbt_R h l n r : rbt Black h l -> rbt Black h r -> rbt Red h (T Red l n r)
  | rbt_B c1 c2 h l n r : rbt c1 h l -> rbt c2 h r -> rbt Black (S h) (T Black l n r).

(** A red-black tree: the root is black. *)
Definition rb_tree (t : tree) : Prop := exists h, rbt Black h t.

(** A path whose hole expects a subtree of black height [h] and root colour [c]. *)
Inductive rbk : color -> nat -> path -> Prop :=
  | rbk_nil h : rbk Black h []
  | rbk_R h d n s k : rbt Black h s -> rbk Red h k -> rbk Black h (F d Red n s :: k)
  | rbk_B c cs h d n s k : rbt cs h s -> rbk Black (S h) k -> rbk c h (F d Black n s :: k).

Lemma rbk_black c h k : rbk c h k -> rbk Black h k.
Proof. destruct 1; econstructor; eauto. Qed.

Lemma rbt_mk_R d h x n y : rbt Black h x -> rbt Black h y -> rbt Red h (mk d Red x n y).
Proof. destruct d; by constructor. Qed.
Lemma rbt_mk_B d c1 c2 h x n y : rbt c1 h x -> rbt c2 h y -> rbt Black (S h) (mk d Black x n y).
Proof. destruct d; econstructor; eauto. Qed.

Create HintDb rbt discriminated.
#[export] Hint Constructors rbt rbk : rbt.
#[export] Hint Resolve rbt_mk_R rbt_mk_B rbk_black : rbt.

Lemma plug_rb c h k t : rbk c h k -> rbt c h t -> rb_tree (plug k t).
Proof.
  intros H. revert t. induction H as [h|h d n s k Hs Hk IH|c cs h d n s k Hs Hk IH]; intros t Ht; simpl.
  - by exists h.
  - apply IH. auto with rbt.
  - apply IH. eauto with rbt.
Qed.

Lemma rb_plug k t : rb_tree (plug k t) -> exists c h, rbk c h k /\ rbt c h t.
Proof.
  intros [h H]. revert t H. induction k as [|[d c n s] k IH]; intros t H; simpl in *; [exists Black, h; auto with rbt|].
  destruct (IH _ H) as (c1&h1&Hk&Ht).
  destruct d; inversion Ht; subst; eexists _, _; (split; [|eassumption]); eauto with rbt.
Qed.

Lemma blk_black h t : rbt Black h t -> blk t = t.
Proof. by inversion 1. Qed.

(** ** Insertion on zippers *)

(** [node] is red, with children [l] and [r], at the end of [k]. *)
Fixpoint ins_fix (k : path) (l : tree) (n : Z) (r : tree) : tree :=
  match k with
  | [] => T Black l n r
  | F dp Red p s :: F dg cg g u :: k' =>
    if is_red u then
      let pt := mk dp Black (T Red l n r) p s in
      ins_fix k' (kid dg pt (blk u)) g (kid dg (blk u) pt)
    else if decide (dp = opp dg) then
      plug k' (mk dg cg (mk dg Red s p (blk (kid dg l r))) n (mk dg Red (blk (kid (opp dg) l r)) g u))
    else plug k' (mk dg cg (T Red l n r) p (mk dg Red (blk s) g u))
  | k => plug k (T Red l n r)
  end.

Lemma elements_blk t : elements (blk t) = elements t.
Proof. by destruct t. Qed.

Lemma path_ind2 (P : path -> Prop) : P [] -> (forall f, P [f]) -> (forall f g k, P k -> P (f :: g :: k)) -> forall k, P k.
Proof.
  intros H0 H1 H2 k. cut (P k /\ forall f, P (f :: k)); [tauto|].
  induction k as [|f k [IH1 IH2]]; split; auto.
Qed.

Ltac elems := simpl; rewrite ?elements_blk; simpl; repeat (rewrite <- app_assoc; simpl); reflexivity.

(** Rebalancing keeps the order. *)
Lemma ins_fix_elements k l n r : elements (ins_fix k l n r) = elements (plug k (T Red l n r)).
Proof.
  revert l n r. induction k as [|[d c p s]|[dp cp p s] [dg cg g u] k IH] using path_ind2; intros l n r; [done|by destruct c|].
  destruct cp; [|done]. cbn [ins_fix].
  destruct (is_red u); [|destruct (decide (dp = opp dg)) as [-> |Hne]]; rewrite ?IH, !elements_plug.
  - destruct dg, dp; elems.
  - destruct dg; elems.
  - destruct dg, dp; (by destruct Hne) || elems.
Qed.

(** Rebalancing restores the invariant. *)
Lemma ins_fix_rb h k l n r : rbk Black h k -> rbt Black h l -> rbt Black h r -> rb_tree (ins_fix k l n r).
Proof.
  revert h l n r. induction k as [|[d c p s]|[dp cp p s] [dg cg g u] k IH] using path_ind2; intros h l n r Hk Hl Hr.
  - exists (S h). eauto with rbt.
  - destruct c; inversion Hk as [|h0 d0 n0 s0 k0 Hs Hk'|c0 cs h0 d0 n0 s0 k0 Hs Hk']; subst; [inversion Hk'|].
    apply (plug_rb Red h [F d Black p s]); eauto with rbt.
  - destruct cp; [|inversion Hk as [| |c0 cs h0 d0 n0 s0 k0 Hs Hk']; subst].
    2: { apply (plug_rb Red h (F dp Black p s :: F dg cg g u :: k)); eauto with rbt. }
    inversion Hk as [|h0 d0 n0 s0 k0 Hs Hk'|]; subst. inversion Hk' as [| |c0 cs h0 d0 n0 s0 k0 Hu Hk'']; subst. cbn [ins_fix].
    destruct (is_red u) eqn:Eu.
    + destruct u as [|[] ul un ur]; try done. inversion Hu; subst. simpl.
      apply (IH (S h)); [done|..]; destruct dg; simpl; eauto with rbt.
    + assert (Hub : rbt Black h u) by (destruct u as [|[] ul un ur]; inversion Hu; subst; eauto with rbt; done).
      destruct (decide (dp = opp dg)); (eapply plug_rb; [exact Hk''|]); rewrite ?(blk_black h) by (destruct dg; done);
        eauto with rbt.
      destruct dg; simpl; eauto 6 with rbt.
Qed.

(** ** Memories *)

Fixpoint cells (par : Z) (t : tree) : list (Z * rb_node) :=
  match t with
  | E => []
  | T c l n r => (n, mk_node (Z.lor par (cz c)) (ptr r) (ptr l)) :: cells n l ++ cells n r
  end.

Definition up (k : path) : Z := match k with [] => NULL | F _ _ n _ :: _ => n end.

Definition frame_node (par : Z) (d : side) (c : color) (hole : Z) (s : tree) : rb_node :=
  match d with
  | Lt => mk_node (Z.lor par (cz c)) (ptr s) hole
  | Rt => mk_node (Z.lor par (cz c)) hole (ptr s)
  end.

Fixpoint path_cells (hole : Z) (k : path) : list (Z * rb_node) :=
  match k with
  | [] => []
  | F d c n s :: k => (n, frame_node (up k) d c hole s) :: cells n s ++ path_cells n k
  end.

Fixpoint top (hole : Z) (k : path) : Z :=
  match k with
  | [] => hole
  | F _ _ n _ :: k => top n k
  end.

Fixpoint keys (t : tree) : list Z :=
  match t with
  | E => []
  | T _ l n r => n :: keys l ++ keys r
  end.
Fixpoint path_keys (k : path) : list Z :=
  match k with
  | [] => []
  | F _ _ n s :: k => n :: keys s ++ path_keys k
  end.

Lemma cells_keys par t : (cells par t).*1 = keys t.
Proof. revert par. induction t as [|c l IHl n r IHr]; intros par; simpl; [done|]. by rewrite fmap_app, IHl, IHr. Qed.

Lemma path_cells_keys hole k : (path_cells hole k).*1 = path_keys k.
Proof.
  revert hole. induction k as [|[d c n s] k IH]; intros hole; simpl; [done|]. by rewrite fmap_app, cells_keys, IH.
Qed.

Definition agree (h : gmap Z rb_node) (cs : list (Z * rb_node)) : Prop := Forall (fun x => h !! x.1 = Some x.2) cs.

(** A usable node address: not NULL, with the two low bits free, below 2^64. *)
Definition address (p : Z) : Prop := 0 < p < 2 ^ 64 /\ Z.land p 3 = 0.

(** The memory holds the tree [t] at the end of the path [k]. *)
Record zip (m : mem) (k : path) (t : tree) : Prop := mk_zip {
  z_root : root m = top (ptr t) k;
  z_agree : agree (nodes m) (cells (up k) t ++ path_cells (ptr t) k);
  z_nodup : NoDup (keys t ++ path_keys k);
  z_addr : Forall address (keys t ++ path_keys k) }.

Definition holds_tree (m : mem) (t : tree) : Prop := zip m [] t.

Lemma agree_perm h cs cs' : cs ≡ₚ cs' -> agree h cs -> agree h cs'.
Proof. unfold agree. by intros ->. Qed.

Lemma zip_down m f k t : zip m (f :: k) t <-> zip m k (plug1 f t).
Proof.
  destruct f as [d c n s].
  assert (P1 : cells (up k) (mk d c t n s) ++ path_cells n k ≡ₚ
               cells n t ++ (n, frame_node (up k) d c (ptr t) s) :: cells n s ++ path_cells n k).
  { destruct d; simpl; rewrite <- app_assoc; [|rewrite (Permutation_app_swap_app (cells n s))]; by rewrite <- Permutation_middle. }
  assert (P2 : keys (mk d c t n s) ++ path_keys k ≡ₚ keys t ++ n :: keys s ++ path_keys k).
  { destruct d; simpl; rewrite <- app_assoc; [|rewrite (Permutation_app_swap_app (keys s))]; by rewrite <- Permutation_middle. }
  assert (P3 : ptr (mk d c t n s) = n) by by destruct d.
  split; intros [H1 H2 H3 H4]; split; simpl in *; rewrite ?P3 in *.
  - done.
  - by apply (agree_perm _ _ _ (symmetry P1)).
  - by rewrite P2.
  - by rewrite P2.
  - done.
  - by apply (agree_perm _ _ _ P1).
  - by rewrite <- P2.
  - by rewrite <- P2.
Qed.

Lemma zip_plug m k t : zip m k t <-> holds_tree m (plug k t).
Proof. revert t. induction k as [|f k IH]; intros t; simpl; [done|]. by rewrite zip_down, IH. Qed.

(** ** Words *)

Lemma parent_of_word p c : Z.land p 3 = 0 -> __rb_parent (Z.lor p (cz c)) = p.
Proof.
  intros H. unfold __rb_parent. rewrite <- Z.ldiff_land. apply Z.bits_inj'. intros i Hi.
  rewrite Z.ldiff_spec, Z.lor_spec.
  assert (Hp : Z.testbit 3 i = true -> Z.testbit p i = false).
  { intros H3. assert (B : Z.testbit (Z.land p 3) i = false) by by rewrite H, Z.bits_0.
    rewrite Z.land_spec, H3, andb_true_r in B. done. }
  assert (Hc : Z.testbit 3 i = false -> Z.testbit (cz c) i = false).
  { destruct c; [intros _; by rewrite Z.bits_0|]. intros H3. change (cz Black) with (Z.land 3 1).
    by rewrite Z.land_spec, H3. }
  destruct (Z.testbit 3 i) eqn:E3; simpl.
  - rewrite andb_false_r. by rewrite Hp.
  - by rewrite Hc, orb_false_r, andb_true_r.
Qed.

Lemma color_of_word p c : Z.land p 3 = 0 -> __rb_color (Z.lor p (cz c)) = cz c.
Proof.
  intros H. unfold __rb_color. rewrite Z.land_lor_distr_l.
  assert (E0 : Z.land p 1 = 0) by (change 1 with (Z.land 3 1); by rewrite Z.land_assoc, H).
  rewrite E0. by destruct c.
Qed.

Lemma black_word p c : Z.land p 3 = 0 -> __rb_is_black (Z.lor p (cz c)) = bool_decide (c = Black).
Proof. intros H. unfold __rb_is_black. rewrite color_of_word by done. by destruct c. Qed.

Lemma red_word p c : Z.land p 3 = 0 -> __rb_is_red (Z.lor p (cz c)) = bool_decide (c = Red).
Proof. intros H. unfold __rb_is_red. rewrite color_of_word by done. by destruct c. Qed.
