(* ===== verification/RbtreeInsert.v ===== *)
(** * Insertion into a red-black tree: the code implements the zipper function *)

From stdpp Require Import gmap.
From S2P Require Import Prelude Rbtree RbtreeTree.
Local Open Scope Z_scope.
Local Open Scope res_scope.

(** Updates outside a list of cells do not matter to it. *)
Lemma agree_insert h cs x v : x ∉ cs.*1 -> agree h cs -> agree (<[x := v]> h) cs.
Proof.
  intros Hx H. apply Forall_forall. intros [y w] Hy. rewrite lookup_insert_ne.
  - eapply Forall_forall in H; [|exact Hy]. done.
  - intros ->. apply Hx, list_elem_of_fmap. by exists (y, w).
Qed.

Lemma agree_cons h x v cs : agree h ((x, v) :: cs) <-> h !! x = Some v /\ agree h cs.
Proof. unfold agree. by rewrite Forall_cons. Qed.

Lemma agree_app h cs cs' : agree h (cs ++ cs') <-> agree h cs /\ agree h cs'.
Proof. apply Forall_app. Qed.

Lemma agree_nil h : agree h [].
Proof. constructor. Qed.

(** ** Symbolic execution

    [facts] breaks what is known about a memory into one lookup per node, the frames of
    the opaque subtrees, and the disequalities between addresses; [run] evaluates reads
    and writes with them; [frames] proves that a memory agrees with a list of cells. *)

Lemma nodup_mid {A} (l1 : list A) x l2 : NoDup (l1 ++ x :: l2) -> (x ∉ l1) /\ (x ∉ l2) /\ NoDup (l1 ++ l2).
Proof.
  rewrite <- Permutation_middle. intros H. apply NoDup_cons in H as [H1 H2].
  apply not_elem_of_app in H1 as [H1 H3]. done.
Qed.

Ltac facts :=
  repeat match goal with
  | H : NoDup (_ ++ _ :: _) |- _ => apply nodup_mid in H; destruct H as (?&?&?)
  | H : NoDup (_ ++ _ ++ _) |- _ => rewrite app_assoc in H
  | H : agree _ (_ :: _) |- _ => apply agree_cons in H; destruct H
  | H : agree _ (_ ++ _) |- _ => apply agree_app in H; destruct H
  | H : agree _ [] |- _ => clear H
  | H : NoDup (_ :: _) |- _ => apply NoDup_cons in H; destruct H
  | H : Forall address (_ :: _) |- _ => apply Forall_cons in H; destruct H
  | H : Forall address (_ ++ _) |- _ => apply Forall_app in H; destruct H
  | H : _ ∉ _ :: _ |- _ => apply not_elem_of_cons in H; destruct H
  | H : _ ∉ _ ++ _ |- _ => apply not_elem_of_app in H; destruct H
  | H : _ /\ _ |- _ => destruct H
  end.

Lemma addr_ne p : address p -> (p =? NULL) = false.
Proof. intros [H _]. apply Z.eqb_neq. unfold NULL. lia. Qed.

Lemma addr_al p : address p -> Z.land p 3 = 0.
Proof. by intros [_ H]. Qed.

Lemma null_al : Z.land NULL 3 = 0.
Proof. done. Qed.

Lemma word_red p : Z.lor p RB_RED = p.
Proof. apply Z.lor_0_r. Qed.

Lemma eqb_ne p q : p <> q -> (p =? q) = false.
Proof. apply Z.eqb_neq. Qed.

Lemma eqb_ne' p q : q <> p -> (p =? q) = false.
Proof. intros H. apply Z.eqb_neq. auto. Qed.

Lemma ptr_addr t : t = E /\ ptr t = NULL \/ ptr t ∈ keys t.
Proof. destruct t; [by left|right; by apply list_elem_of_here]. Qed.

Lemma child_ok m p v d : nodes m !! p = Some v -> child m p d = Ok (child_of v d).
Proof. intros H. unfold child, node_at. by rewrite H. Qed.
Lemma set_child_ok m p v d q : nodes m !! p = Some v ->
  set_child m p d q = Ok (mk_mem (root m) (<[p := with_child v d q]> (nodes m))).
Proof. intros H. unfold set_child, node_at. by rewrite H. Qed.
Lemma parent_color_ok m p v : nodes m !! p = Some v -> parent_color m p = Ok (rb_parent_color v).
Proof. intros H. unfold parent_color, node_at. by rewrite H. Qed.
Lemma set_word_ok m p v w : nodes m !! p = Some v ->
  set_parent_color_word m p w = Ok (mk_mem (root m) (<[p := mk_node w (rb_right v) (rb_left v)]> (nodes m))).
Proof. intros H. unfold set_parent_color_word, node_at. by rewrite H. Qed.

Ltac neq := solve [assumption | apply not_eq_sym; assumption | congruence].
Ltac lk := cbn [nodes]; repeat (rewrite lookup_insert_ne by neq); first [apply lookup_insert_eq | eassumption].

(** One memory operation. *)
Ltac run1 :=
  match goal with
  | |- context [child ?m ?p ?d] => erewrite (child_ok m p) by lk
  | |- context [set_child ?m ?p ?d ?q] => erewrite (set_child_ok m p) by lk
  | |- context [parent_color ?m ?p] => erewrite (parent_color_ok m p) by lk
  | |- context [set_parent_color_word ?m ?p ?w] => erewrite (set_word_ok m p) by lk
  end; cbn [res_bind child_of with_child rb_parent_color rb_left rb_right nodes root opp].

Lemma agree_ext h h' cs : (forall x, x ∈ cs.*1 -> h' !! x = h !! x) -> agree h cs -> agree h' cs.
Proof.
  intros He H. apply Forall_forall. intros [y w] Hy. rewrite He.
  - eapply Forall_forall in H; [|exact Hy]. done.
  - apply list_elem_of_fmap. by exists (y, w).
Qed.

Lemma up_al k : Forall address (path_keys k) -> Z.land (up k) 3 = 0.
Proof. destruct k as [|[d c n s] k]; simpl; [done|]. intros H. apply Forall_cons in H as [[_ H] _]. done. Qed.

Lemma ne_ptr x t : address x -> x ∉ keys t -> x <> ptr t.
Proof. intros [H _] Hx ->. destruct (ptr_addr t) as [[_ E0]|Hin]; [unfold NULL in E0; lia|done]. Qed.

(** Redirecting the pointer to a subtree. *)
Lemma change_child_ok m hole new k : root m = top hole k -> agree (nodes m) (path_cells hole k) ->
  Forall address (path_keys k) -> NoDup (path_keys k) -> address hole -> hole ∉ path_keys k ->
  exists m', __rb_change_child m hole new (up k) = Ok m' /\ root m' = top new k /\
    agree (nodes m') (path_cells new k) /\ (forall x, x <> up k -> nodes m' !! x = nodes m !! x).
Proof.
  intros Hr Ha Hd Hn Hh Hk. unfold __rb_change_child. destruct k as [|[d c q s] k].
  - simpl in *. eexists. split; [done|]. split; [done|]. split; [apply agree_nil|done].
  - cbn [up path_cells path_keys top] in *. facts. rewrite addr_ne by done. simpl negb. cbv iota.
    assert (Hs : hole <> ptr s) by by apply ne_ptr.
    destruct d; cbn [frame_node] in *; run1.
    + rewrite Z.eqb_refl. run1. eexists. split; [done|]. split; [done|]. split.
      * apply agree_cons. split; [lk|]. apply agree_app.
        split; apply agree_insert; rewrite ?cells_keys, ?path_cells_keys; done.
      * intros x Hx. cbn [nodes]. by rewrite lookup_insert_ne by neq.
    + rewrite eqb_ne' by done. run1. eexists. split; [done|]. split; [done|]. split.
      * apply agree_cons. split; [lk|]. apply agree_app.
        split; apply agree_insert; rewrite ?cells_keys, ?path_cells_keys; done.
      * intros x Hx. cbn [nodes]. by rewrite lookup_insert_ne by neq.
Qed.

Lemma rotate_set_parents_ok m old new k c vo vn color :
  root m = top old k -> agree (nodes m) (path_cells old k) ->
  Forall address (path_keys k) -> NoDup (path_keys k) -> address old -> address new -> old <> new ->
  old ∉ path_keys k -> new ∉ path_keys k ->
  nodes m !! old = Some vo -> rb_parent_color vo = Z.lor (up k) (cz c) -> nodes m !! new = Some vn ->
  exists m', __rb_rotate_set_parents m old new color = Ok m' /\ root m' = top new k /\
    agree (nodes m') (path_cells new k) /\
    nodes m' !! new = Some (mk_node (Z.lor (up k) (cz c)) (rb_right vn) (rb_left vn)) /\
    nodes m' !! old = Some (mk_node (Z.lor new color) (rb_right vo) (rb_left vo)) /\
    (forall x, x <> old -> x <> new -> x <> up k -> nodes m' !! x = nodes m !! x).
Proof.
  intros Hr Ha Hd Hn Ho Hw Hne Hok Hwk Lo Epc Ln. unfold __rb_rotate_set_parents, rb_parent, rb_set_parent_color.
  assert (Uo : old <> up k /\ new <> up k).
  { destruct k as [|[d' c' q s] k]; simpl in *.
    - destruct Ho as [Ho _], Hw as [Hw _]. unfold NULL. lia.
    - apply not_elem_of_cons in Hok as [Hok _]. apply not_elem_of_cons in Hwk as [Hwk _]. done. }
  destruct Uo as [Uo Uw]. repeat run1. rewrite Epc, parent_of_word by by apply up_al.
  edestruct (change_child_ok (mk_mem (root m) (<[old:=mk_node (Z.lor new color) (rb_right vo) (rb_left vo)]>
    (<[new:=mk_node (Z.lor (up k) (cz c)) (rb_right vn) (rb_left vn)]> (nodes m)))) old new k)
    as (m'&E1&E2&E3&E4); try done.
  { apply agree_insert; [by rewrite path_cells_keys|]. apply agree_insert; [by rewrite path_cells_keys|done]. }
  exists m'. split; [exact E1|]. split; [done|]. split; [done|]. cbn [nodes] in E4.
  split; [rewrite E4 by done; lk|]. split; [rewrite E4 by done; lk|].
  intros x H1 H2 H3. rewrite E4 by done. by rewrite !lookup_insert_ne by done.
Qed.

(** ** Permuting the nodes of a zipper *)

Lemma keys_elements t : keys t ≡ₚ elements t.
Proof. induction t as [|c l IHl n r IHr]; simpl; [done|]. by rewrite IHl, IHr, Permutation_middle. Qed.

Lemma path_keys_elements k : path_keys k ≡ₚ before k ++ after k.
Proof.
  induction k as [|[[] c n s] k IH]; simpl; [done|..]; rewrite keys_elements, IH.
  - rewrite (Permutation_app_comm (elements s)), <- app_assoc. rewrite <- Permutation_middle.
    by rewrite (Permutation_app_comm (after k)), !app_assoc.
  - rewrite <- !app_assoc. simpl. rewrite (Permutation_app_swap_app (before k)).
    by rewrite <- !Permutation_middle.
Qed.

Lemma zip_keys k t : keys t ++ path_keys k ≡ₚ elements (plug k t).
Proof.
  rewrite elements_plug, keys_elements, path_keys_elements. by rewrite Permutation_app_swap_app.
Qed.

(** A rearrangement of the nodes keeps them distinct and valid. *)
Lemma zip_intro m m' k t k' t' : zip m k t -> elements (plug k' t') = elements (plug k t) ->
  root m' = top (ptr t') k' -> agree (nodes m') (cells (up k') t' ++ path_cells (ptr t') k') -> zip m' k' t'.
Proof.
  intros [H1 H2 H3 H4] He Hr Ha. rewrite zip_keys in H3, H4.
  split; [done|done|by rewrite zip_keys, He|by rewrite zip_keys, He].
Qed.

Lemma up_notin ks k : NoDup (ks ++ path_keys k) -> Forall address (ks ++ path_keys k) -> up k ∉ ks.
Proof.
  intros Hn Ha Hin. apply Forall_app in Ha as [Ha Hk]. destruct k as [|[d c q s] k]; simpl in *.
  - eapply Forall_forall in Ha; [|exact Hin]. destruct Ha as [Ha _]. unfold NULL in Ha. lia.
  - apply nodup_mid in Hn as [Hn _]. done.
Qed.

(** The nodes below a path, and how they are laid out, for the tactics. *)
Lemma zip_up m k t : zip m k t -> up k ∉ keys t.
Proof. intros [_ _ H1 H2]. by apply up_notin. Qed.

Lemma zip_al m k t : zip m k t -> Z.land (up k) 3 = 0.
Proof. intros [_ _ _ H]. apply Forall_app in H as [_ H]. by apply up_al. Qed.

Ltac notin := rewrite ?cells_keys, ?path_cells_keys; assumption.

(** [cells_ok] proves that an updated memory agrees with a list of cells; [frames Hx] does
    it where [Hx] says that the last operation changed only the nodes it excludes. *)
Ltac cells_ok :=
  repeat match goal with
  | |- agree _ (_ :: _) => apply agree_cons; split
  | |- agree _ (_ ++ _) => apply agree_app; split
  | |- agree _ [] => apply agree_nil
  | |- _ !! _ = Some _ => solve [lk]
  | |- agree _ _ => cbn [nodes]; repeat (apply agree_insert; [notin|]); assumption
  end.
Ltac frames Hx :=
  repeat match goal with
  | |- agree _ (_ :: _) => apply agree_cons; split
  | |- agree _ (_ ++ _) => apply agree_app; split
  | |- agree _ [] => apply agree_nil
  | |- _ !! _ = Some _ => solve [assumption | rewrite Hx by neq; lk]
  | |- agree _ _ =>
      first [assumption
        | eapply agree_ext; [intros y Hy; rewrite ?cells_keys, ?path_cells_keys in Hy; apply Hx; intros ->; contradiction|];
          cbn [nodes]; repeat (apply agree_insert; [notin|]); assumption]
  end.

(** [open_zip] lays out what a zipper says about the memory, for [facts]. *)
Ltac layout :=
  cbn [opp mk kid blk plug plug1 ptr keys top up cells path_cells path_keys frame_node app cz] in *.
Lemma zip_path m k t : zip m k t -> NoDup (path_keys k).
Proof. intros [_ _ H _]. by apply NoDup_app in H as (_&_&H). Qed.

Ltac open_zip Z :=
  let HU := fresh "HU" in pose proof (zip_up _ _ _ Z) as HU;
  let HP := fresh "HP" in pose proof (zip_path _ _ _ Z) as HP;
  let Hr := fresh "Hr" in let Ha := fresh "Ha" in let Hn := fresh "Hn" in let Hd := fresh "Hd" in
  pose proof Z as [Hr Ha Hn Hd]; layout;
  repeat (rewrite <- app_assoc in Hn; cbn [app] in Hn); facts.

Ltac run :=
  repeat first
    [ run1
    | progress (unfold if_ptr, rb_set_parent_color, dummy_rotate; cbn [res_bind nodes root negb opp])
    | rewrite Z.eqb_refl; cbn [negb res_bind]
    | rewrite addr_ne by assumption; cbn [negb res_bind]
    | rewrite eqb_ne by neq; cbn [negb res_bind] ].

(** The last step of a rotation at [k], and the zipper it leaves. *)
Ltac rotate HZ :=
  match type of HZ with zip _ ?k _ =>
  match goal with |- context [__rb_rotate_set_parents ?M ?o ?w ?col] =>
    let m' := fresh "m'" in let Em := fresh "Em" in let Er := fresh "Er" in let Ek := fresh "Ek" in
    let Ew := fresh "Ew" in let Eo := fresh "Eo" in let Ex := fresh "Ex" in
    edestruct (rotate_set_parents_ok M o w k) as (m'&Em&Er&Ek&Ew&Eo&Ex);
      [ assumption
      | cbn [nodes]; repeat (apply agree_insert; [notin|]); assumption
      | assumption | assumption | assumption | assumption | neq | assumption | assumption
      | lk | reflexivity | lk | ];
    cbn [rb_left rb_right] in Ew, Eo; rewrite Em; cbn [res_bind]; exists m'; split; [reflexivity|];
    eapply zip_intro; [exact HZ|rewrite !elements_plug; elems|exact Er|layout; frames Ex]
  end end.

Lemma insert_rotate_ok m dp dg cg p s g u k l n r :
  zip m (F dp Red p s :: F dg cg g u :: k) (T Red l n r) ->
  exists m', insert_rotate dummy_rotate m dg n p g = Ok m' /\
    zip m' k (if decide (dp = opp dg)
              then mk dg cg (mk dg Red s p (blk (kid dg l r))) n (mk dg Red (blk (kid (opp dg) l r)) g u)
              else mk dg cg (T Red l n r) p (mk dg Red (blk s) g u)).
Proof.
  intros HZ. rewrite !zip_down in HZ. unfold insert_rotate.
  destruct (decide (dp = opp dg)) as [-> |Hne].
  - destruct dg, l as [|lc ll ln lr], r as [|rc rl rn rr]; open_zip HZ; run; rotate HZ.
  - assert (Hns : n <> ptr s).
    { apply ne_ptr; destruct dp, dg; open_zip HZ; assumption. }
    destruct dg, dp; try (by destruct Hne); destruct s as [|sc sl sn sr]; open_zip HZ; run; rotate HZ.
Qed.

Lemma rb_is_black_ok m p q c v : nodes m !! p = Some v -> rb_parent_color v = Z.lor q (cz c) -> Z.land q 3 = 0 ->
  rb_is_black m p = Ok (bool_decide (c = Black)).
Proof. intros H E0 Hq. unfold rb_is_black. rewrite (parent_color_ok _ _ _ H), E0. simpl. by rewrite black_word. Qed.

Lemma rb_is_red_ok m p q c v : nodes m !! p = Some v -> rb_parent_color v = Z.lor q (cz c) -> Z.land q 3 = 0 ->
  rb_is_red m p = Ok (bool_decide (c = Red)).
Proof. intros H E0 Hq. unfold rb_is_red. rewrite (parent_color_ok _ _ _ H), E0. simpl. by rewrite red_word. Qed.

Lemma rb_parent_ok m p q c v : nodes m !! p = Some v -> rb_parent_color v = Z.lor q (cz c) -> Z.land q 3 = 0 ->
  rb_parent m p = Ok q.
Proof. intros H E0 Hq. unfold rb_parent. rewrite (parent_color_ok _ _ _ H), E0. simpl. by rewrite parent_of_word. Qed.

(** The colour test on a possibly empty subtree. *)
Lemma red_ptr_ok m q t : agree (nodes m) (cells q t) -> Forall address (keys t) -> Z.land q 3 = 0 ->
  red_ptr m (ptr t) = Ok (is_red t).
Proof.
  intros Ha Hd Hq. unfold red_ptr. destruct t as [|c l n r]; [done|]. simpl in *.
  apply agree_cons in Ha as [Hn _]. apply Forall_cons in Hd as [Hd _]. rewrite addr_ne by done.
  simpl. rewrite (rb_is_red_ok m n q c _ Hn) by done. by destruct c.
Qed.

Lemma black_ptr_ok m q t : agree (nodes m) (cells q t) -> Forall address (keys t) -> Z.land q 3 = 0 ->
  black_ptr m (ptr t) = Ok (negb (is_red t)).
Proof.
  intros Ha Hd Hq. unfold black_ptr. destruct t as [|c l n r]; [done|]. simpl in *.
  apply agree_cons in Ha as [Hn _]. apply Forall_cons in Hd as [Hd _]. rewrite addr_ne by done.
  rewrite (rb_is_black_ok m n q c _ Hn) by done. by destruct c.
Qed.

(** The colour flip, going up two levels. *)
Lemma recolor_ok m dp dg cg p s g k l n r ul un ur :
  zip m (F dp Red p s :: F dg cg g (T Red ul un ur) :: k) (T Red l n r) ->
  exists m',
    (m <-- rb_set_parent_color m un g RB_BLACK;
     m <-- rb_set_parent_color m p g RB_BLACK;
     parent <-- rb_parent m g;
     m <-- rb_set_parent_color m g parent RB_RED; Ok (m, parent)) = Ok (m', up k) /\
    zip m' k (let pt := mk dp Black (T Red l n r) p s in
              let u := T Black ul un ur in T Red (kid dg pt u) g (kid dg u pt)).
Proof.
  intros HZ. rewrite !zip_down in HZ.
  assert (Hal : Z.land (up k) 3 = 0) by by eapply zip_al.
  destruct dg, dp; open_zip HZ; run.
  all: erewrite rb_parent_ok by (try lk; try reflexivity; assumption); cbn [res_bind]; run.
  all: eexists; split; [reflexivity|]; eapply zip_intro; [exact HZ|rewrite !elements_plug; elems|assumption|layout].
  all: cells_ok.
Qed.

Lemma insert_loop_ok fuel m k l n r h : rbk Black h k -> zip m k (T Red l n r) -> (length k < fuel)%nat ->
  exists m', insert_loop dummy_rotate fuel m n (up k) = Ok m' /\ holds_tree m' (ins_fix k l n r).
Proof.
  revert fuel m l n r h. induction k as [|[d c p s]|[dp cp p s] [dg cg g u] k IH] using path_ind2;
    intros fuel m l n r h Hk HZ Hf; (destruct fuel as [|fuel]; [simpl in Hf; lia|]); cbn [insert_loop].
  - open_zip HZ. cbn [up ins_fix]. rewrite Z.eqb_refl. run. eexists. split; [reflexivity|].
    eapply zip_intro; [exact HZ|done|assumption|layout; cells_ok].
  - assert (c = Black) as -> by (destruct c; [inversion Hk as [|? ? ? ? ? ? Hk'|]; inversion Hk'|done]).
    rewrite zip_down in HZ. destruct d; open_zip HZ; rewrite addr_ne by assumption.
    all: erewrite (rb_is_black_ok m p NULL Black) by first [lk|reflexivity]; eexists; split; [reflexivity|exact HZ].
  - pose proof HZ as HZ0. rewrite !zip_down in HZ.
    assert (Hp : address p /\ address g /\ Forall address (keys u) /\ p ∉ keys u).
    { destruct dp, dg; open_zip HZ; done. }
    destruct Hp as (Hp&Hg&Hu&Hpu). cbn [up]. rewrite addr_ne by done.
    assert (Lp : nodes m !! p = Some (frame_node g dp cp n s) /\ nodes m !! g = Some (frame_node (up k) dg cg p u) /\
      agree (nodes m) (cells g u)).
    { destruct dp, dg; open_zip HZ; done. }
    destruct Lp as (Lp&Lg&Au).
    erewrite rb_is_black_ok; [|exact Lp|destruct dp; reflexivity|by apply addr_al]. cbn [res_bind].
    destruct cp; cbn; [|eexists; split; [reflexivity|]; by apply zip_plug in HZ0].
    unfold rb_red_parent. erewrite parent_color_ok by exact Lp. cbn [res_bind].
    replace (rb_parent_color (frame_node g dp Red n s)) with g by (destruct dp; simpl; by rewrite word_red).
    erewrite child_ok by exact Lg. cbn [res_bind].
    assert (Ed : (if negb (p =? child_of (frame_node (up k) dg cg p u) Rt) then Lt else Rt) = dg).
    { destruct dg; simpl; [by rewrite eqb_ne by by apply ne_ptr|by rewrite Z.eqb_refl]. }
    rewrite Ed. erewrite child_ok by exact Lg. cbn [res_bind].
    replace (child_of (frame_node (up k) dg cg p u) (opp dg)) with (ptr u) by by destruct dg.
    rewrite (red_ptr_ok m g u) by (try done; by apply addr_al). cbn [res_bind].
    destruct (is_red u) eqn:Eu.
    + destruct u as [|[] ul un ur]; try done.
      destruct (recolor_ok _ _ _ _ _ _ _ _ _ _ _ _ _ _ HZ0) as (m'&E1&Z'). cbn [ptr].
      assert (Hk' : rbk Black (S h) k).
      { inversion Hk as [|? ? ? ? ? ? Hk1|]; subst. inversion Hk1; subst. done. }
      destruct (IH fuel m' _ _ _ _ Hk' Z') as (m2&E2&H2); [simpl in Hf; lia|].
      exists m2. split; [|exact H2]. rewrite <- E2. revert E1. clear.
      destruct (rb_set_parent_color m un g RB_BLACK) as [m1|]; simpl; [|done].
      destruct (rb_set_parent_color m1 p g RB_BLACK) as [m2|]; simpl; [|done].
      destruct (rb_parent m2 g) as [q|]; simpl; [|done].
      destruct (rb_set_parent_color m2 g q RB_RED) as [m3|]; simpl; [|done]. by intros [= -> ->].
    + destruct (insert_rotate_ok _ _ _ _ _ _ _ _ _ _ _ _ HZ0) as (m'&E1&Z').
      exists m'. split; [exact E1|]. destruct (decide (dp = opp dg)); by apply zip_plug in Z'.
Qed.

(** ** Linking a node and inserting it *)

(** The link of an empty place in the tree. *)
Definition link_of (k : path) : link := match k with [] => RootLink | F d _ p _ :: _ => ChildLink p d end.

Lemma agree_size h cs : agree h cs -> NoDup cs.*1 -> (length cs <= size h)%nat.
Proof.
  intros Ha Hn. rewrite <- (length_fmap fst cs), <- size_dom, <- (size_list_to_set (C := gset Z)) by done.
  apply subseteq_size. intros x Hx. apply elem_of_list_to_set, list_elem_of_fmap in Hx as ([y w]&->&Hy).
  eapply Forall_forall in Ha; [|exact Hy]. by apply elem_of_dom_2 in Ha.
Qed.

Lemma path_length k : (length k <= length (path_keys k))%nat.
Proof. induction k as [|[d c n s] k IH]; simpl; [lia|]. rewrite length_app. lia. Qed.

Lemma zip_size m k t : zip m k t -> (length k <= size (nodes m))%nat.
Proof.
  intros [_ Ha Hn _]. apply agree_size in Ha.
  - rewrite length_app in Ha. pose proof (path_length k).
    rewrite <- (length_fmap fst (path_cells _ _)), path_cells_keys in Ha. lia.
  - by rewrite fmap_app, cells_keys, path_cells_keys.
Qed.

Lemma zip_new_nodup m k x t : zip m k E -> x ∉ path_keys k -> address x ->
  keys t = [x] -> NoDup (keys t ++ path_keys k) /\ Forall address (keys t ++ path_keys k).
Proof.
  intros [_ _ Hn Hd] Hx Ha ->. simpl in *. split; [by apply NoDup_cons|by apply List.Forall_cons].
Qed.

Lemma link_ok m k x v : zip m k E -> nodes m !! x = Some v -> address x -> x ∉ path_keys k ->
  exists m', rb_link_node m x (up k) (link_of k) = Ok m' /\ zip m' k (T Red E x E).
Proof.
  intros HZ Hx Hax Hnx. destruct (zip_new_nodup m k x (T Red E x E) HZ Hnx Hax eq_refl) as [Hn' Hd'].
  revert Hn' Hd'. pose proof HZ as [Hr Ha Hn Hd]. unfold rb_link_node.
  destruct k as [|[[] c p s] k]; cbn [link_of]; layout; facts; run; intros Hn' Hd'.
  all: eexists; split; [reflexivity|]; split; layout; [done|rewrite word_red; cells_ok|exact Hn'|exact Hd'].
Qed.

Lemma rb_insert_ok m k x v : holds_tree m (plug k E) -> rb_tree (plug k E) ->
  nodes m !! x = Some v -> address x -> x ∉ elements (plug k E) ->
  exists m1 m2 t, rb_link_node m x (up k) (link_of k) = Ok m1 /\ rb_insert_color m1 x = Ok m2 /\
    holds_tree m2 t /\ rb_tree t /\ elements t = before k ++ x :: after k.
Proof.
  intros Hm Hrb Hx Hax Hnx. apply zip_plug in Hm as HZ.
  assert (Hnk : x ∉ path_keys k).
  { intros H. apply Hnx. rewrite <- (zip_keys k E). simpl. done. }
  destruct (link_ok m k x v HZ Hx Hax Hnk) as (m1&E1&Z1).
  destruct (rb_plug k E Hrb) as (c&h&Hk&Ht). assert (h = 0%nat /\ c = Black) as [-> ->] by by inversion Ht.
  assert (Hw : nodes m1 !! x = Some (mk_node (Z.lor (up k) RB_RED) NULL NULL)).
  { destruct Z1 as [_ Ha _ _]. simpl in Ha. by apply agree_cons in Ha as [Ha _]. }
  destruct (insert_loop_ok (S (size (nodes m1))) m1 k E x E 0 Hk Z1) as (m2&E2&H2).
  { pose proof (zip_size _ _ _ Z1). lia. }
  exists m1, m2, (ins_fix k E x E). split; [done|]. split.
  - unfold rb_insert_color, __rb_insert, rb_red_parent. erewrite parent_color_ok by exact Hw.
    cbn [res_bind rb_parent_color]. by rewrite word_red.
  - split; [done|]. split; [eapply ins_fix_rb; eauto with rbt|]. by rewrite ins_fix_elements, elements_plug.
Qed.

(** C26: inserting a node.  Linking a new node into an empty place of a red-black tree and
    rebalancing it ends without a fault, for any shape of the tree, and leaves in memory
    a red-black tree (parent pointers and colours included) whose in-order sequence is
    the old one with the node at that place. *)
Theorem rb_insert_correct m k x v : holds_tree m (plug k E) -> rb_tree (plug k E) ->
  nodes m !! x = Some v -> address x -> x ∉ elements (plug k E) ->
  exists m1 m2 t, rb_link_node m x (up k) (link_of k) = Ok m1 /\ rb_insert_color m1 x = Ok m2 /\
    holds_tree m2 t /\ rb_tree t /\ elements t = before k ++ x :: after k.
Proof. apply rb_insert_ok. Qed.

(** ** A concrete tree *)

(** The memory of a tree and of further nodes that are in no tree. *)
Definition mem_of (t : tree) (free : list Z) : mem :=
  mk_mem (ptr t) (list_to_map (cells NULL t ++ map (fun x => (x, mk_node x 0 0)) free)).

Definition sample : tree := T Black (T Red E 8 E) 16 (T Red E 24 E).

Ltac concrete_tree :=
  split; [reflexivity|repeat constructor|by apply (bool_decide_unpack _)|repeat constructor].

Lemma sample_rb : rb_tree sample.
Proof. exists 1%nat. repeat econstructor. Qed.

Lemma rb_insert_correct_witness :
  exists m1 m2 t, rb_link_node (mem_of sample [32]) 32 24 (ChildLink 24 Rt) = Ok m1 /\
    rb_insert_color m1 32 = Ok m2 /\ holds_tree m2 t /\ rb_tree t /\ elements t = [8; 16; 24; 32].
Proof.
  apply (rb_insert_correct (mem_of sample [32]) [F Rt Red 24 E; F Rt Black 16 (T Red E 8 E)] 32 (mk_node 32 0 0)).
  - concrete_tree.
  - exact sample_rb.
  - reflexivity.
  - by repeat constructor.
  - by apply (bool_decide_unpack _).
Defined.
