(* ===== verification/RbtreeErase.v ===== *)
(** * Erasing from a red-black tree: the zipper functions and the code that implements them *)

From stdpp Require Import gmap.
From S2P Require Import Prelude Rbtree RbtreeTree RbtreeInsert.
Local Open Scope Z_scope.
Local Open Scope res_scope.

(** ** Rebalancing on zippers *)

Definition redden (t : tree) : tree := match t with E => E | T _ l n r => T Red l n r end.

(** Cases 2 to 4 at a parent [p] of colour [cp] whose child [t] on side [d] is one black
    short: the new subtree, and whether it is still short.  The sibling [sn] has the
    children [near] (on side [d]) and [far]. *)
Definition sib_fix (d : side) (cp : color) (p : Z) (near : tree) (sn : Z) (far t : tree) : tree * bool :=
  if is_red far then (mk d cp (mk d Black t p near) sn (blk far), false)
  else match near with
  | T Red l nn r => (mk d cp (mk d Black t p (kid d l r)) nn (mk d Black (blk (kid (opp d) l r)) sn far), false)
  | _ => (mk d Black t p (mk d Red near sn far), bool_decide (cp = Black))
  end.

Fixpoint del_fix (k : path) (t : tree) : tree :=
  match k with
  | F d cp p (T cs sl sn sr) :: k =>
    let near := kid d sl sr in
    let far := kid (opp d) sl sr in
    match cs, near with
    | Red, T _ nl nn nr =>
      plug (F d cp sn far :: k) (sib_fix d Red p (kid d nl nr) nn (kid (opp d) nl nr) t).1
    | Red, E => plug (F d cp p (T cs sl sn sr) :: k) t
    | Black, _ =>
      let '(sub, short) := sib_fix d cp p near sn far t in
      if short then del_fix k sub else plug k sub
    end
  | k => plug k t
  end.

Lemma elements_kid d c l n r : elements (mk d c (kid d l r) n (kid (opp d) l r)) = elements l ++ n :: elements r.
Proof. by destruct d. Qed.

Lemma sib_fix_elements d cp p near sn far t c :
  elements (sib_fix d cp p near sn far t).1 = elements (mk d c t p (mk d Black near sn far)).
Proof.
  unfold sib_fix. destruct (is_red far); [destruct d; elems|].
  destruct near as [|[] l nn r]; destruct d; elems.
Qed.

Lemma mk_kid d c l n r : T c l n r = mk d c (kid d l r) n (kid (opp d) l r).
Proof. by destruct d. Qed.

Lemma del_fix_elements k t : elements (del_fix k t) = elements (plug k t).
Proof.
  revert t. induction k as [|[d cp p s] k IH]; intros t; [done|]. destruct s as [|cs sl sn sr]; [done|].
  cbn [del_fix]. destruct cs.
  - destruct (kid d sl sr) as [|nc nl nn nr] eqn:En; [done|]. rewrite !elements_plug.
    rewrite (sib_fix_elements _ _ _ _ _ _ _ Red). destruct d; simpl in *; subst; elems.
  - pose proof (sib_fix_elements d cp p (kid d sl sr) sn (kid (opp d) sl sr) t cp) as He.
    destruct (sib_fix d cp p (kid d sl sr) sn (kid (opp d) sl sr) t) as [sub short]. simpl in He.
    destruct short; rewrite ?IH, !elements_plug, He; destruct d; elems.
Qed.

Lemma not_red_black c h t : rbt c h t -> is_red t = false -> rbt Black h t.
Proof. intros H. destruct H; simpl; [auto with rbt|done|eauto with rbt]. Qed.

Lemma rbt_kid c h l n r d : rbt c h (T Red l n r) -> rbt Black h (kid d l r).
Proof. inversion 1; subst. by destruct d. Qed.

(** At a black sibling: either the height is restored under the old colour (or under
    black), or the subtree is a black tree that is still short. *)
Lemma sib_fix_rb d cp c1 c2 p h near sn far t :
  rbt Black h t -> rbt c1 h near -> rbt c2 h far ->
  let '(sub, short) := sib_fix d cp p near sn far t in
  if short : bool then cp = Black /\ rbt Black (S h) sub
  else match cp with
       | Red => rbt Red (S h) sub \/ rbt Black (S h) sub
       | Black => rbt Black (S (S h)) sub
       end.
Proof.
  intros Ht Hn Hf. unfold sib_fix. destruct (is_red far) eqn:Ef.
  - destruct far as [|[] fl fn fr]; try done. inversion Hf; subst.
    destruct cp; [left|]; simpl; eauto with rbt.
  - apply not_red_black in Hf; [|done].
    destruct near as [|[] nl nn nr].
    + assert (Hb : rbt Black h E) by (inversion Hn; subst; constructor). destruct cp; simpl; eauto with rbt.
    + pose proof (rbt_kid _ _ _ _ _ d Hn). pose proof (rbt_kid _ _ _ _ _ (opp d) Hn) as Ho.
      rewrite (blk_black h) by done. destruct cp; [left|]; eauto 6 with rbt.
    + assert (Hb : rbt Black h (T Black nl nn nr)) by (inversion Hn; subst; eauto with rbt).
      destruct cp; simpl; eauto with rbt.
Qed.

Lemma rbt_red_kids c h l n r : rbt c h (T Red l n r) -> rbt Black h l /\ rbt Black h r.
Proof. by inversion 1. Qed.

(** A tree that is one black short at the end of a path becomes a red-black tree. *)
Lemma del_fix_rb h k t : rbk Black (S h) k -> rbt Black h t -> rb_tree (del_fix k t).
Proof.
  revert h t. induction k as [|[d cp p s] k IH]; intros h t Hk Ht; [by exists h|].
  assert (Hs : exists cs, rbt cs (S h) s /\ rbk (match cp with Red => Red | Black => Black end)
             (match cp with Red => S h | Black => S (S h) end) k /\ (cp = Red -> cs = Black)).
  { inversion Hk; subst; eexists; (split; [eassumption|split; [eassumption|done]]). }
  destruct Hs as (cs&Hs&Hk'&Hc). destruct s as [|c sl sn sr]; [inversion Hs|]. cbn [del_fix]. destruct c.
  - assert (cp = Black) as -> by (destruct cp; [|done]; rewrite Hc in Hs by done; inversion Hs).
    apply rbt_red_kids in Hs as [Hl Hr].
    assert (Hn : rbt Black (S h) (kid d sl sr)) by by destruct d. assert (Hf : rbt Black (S h) (kid (opp d) sl sr)) by by destruct d.
    destruct (kid d sl sr) as [|nc nl nn nr]; [inversion Hn|].
    assert (Hkids : exists c1 c2, rbt c1 h (kid d nl nr) /\ rbt c2 h (kid (opp d) nl nr)).
    { inversion Hn; subst. destruct d; eexists _, _; split; eassumption. }
    destruct Hkids as (c1&c2&H1&H2).
    pose proof (sib_fix_rb d Red c1 c2 p h (kid d nl nr) nn (kid (opp d) nl nr) t Ht H1 H2) as Hx.
    destruct (sib_fix d Red p (kid d nl nr) nn (kid (opp d) nl nr) t) as [sub short]. simpl fst.
    assert (Hsub : exists c, rbt c (S h) sub) by (destruct short; [by destruct Hx|destruct Hx; eexists; eassumption]).
    destruct Hsub as [c Hsub]. eapply plug_rb; [|exact Hsub]. eauto with rbt.
  - assert (Hkids : exists c1 c2, rbt c1 h (kid d sl sr) /\ rbt c2 h (kid (opp d) sl sr)).
    { inversion Hs; subst. destruct d; eexists _, _; split; eassumption. }
    destruct Hkids as (c1&c2&H1&H2).
    pose proof (sib_fix_rb d cp c1 c2 p h (kid d sl sr) sn (kid (opp d) sl sr) t Ht H1 H2) as Hx.
    destruct (sib_fix d cp p (kid d sl sr) sn (kid (opp d) sl sr) t) as [sub short]. destruct short.
    + destruct Hx as [-> Hx]. by apply (IH (S h)).
    + destruct cp; [destruct Hx as [Hx|Hx]|]; [exact (plug_rb _ _ _ _ Hk' Hx)| |exact (plug_rb _ _ _ _ Hk' Hx)].
      exact (plug_rb _ _ _ _ (rbk_black _ _ _ Hk') Hx).
Qed.

(** ** Erasing on zippers *)

(** The leftmost node below a tree: the path to it, its colour, itself, its right child. *)
Fixpoint leftmost (c : color) (l : tree) (n : Z) (r : tree) (k : path) : path * color * Z * tree :=
  match l with
  | E => (k, c, n, r)
  | T lc ll ln lr => leftmost lc ll ln lr (F Lt c n r :: k)
  end.

(** What happens to the hole a node of colour [c] leaves when its only child is [t]. *)
Definition fill (k : path) (c : color) (t : tree) : tree :=
  match t, c with
  | T _ l n r, _ => plug k (T c l n r)
  | E, Black => del_fix k E
  | E, Red => plug k E
  end.

Definition del (k : path) (c : color) (l r : tree) : tree :=
  match l, r with
  | E, _ => fill k c r
  | _, E => fill k c l
  | _, T rc rl rn rr =>
    let '(kk, cs, sx, c2) := leftmost rc rl rn rr [] in
    let K := kk ++ F Rt c sx l :: k in
    match c2 with
    | E => fill K cs E
    | _ => plug K (blk c2)
    end
  end.

Lemma leftmost_plug c l n r k kk cs sx c2 : leftmost c l n r k = (kk, cs, sx, c2) ->
  plug kk (T cs E sx c2) = plug k (T c l n r).
Proof.
  revert c n r k. induction l as [|lc ll IH ln lr _]; intros c n r k; simpl; [by intros [= <- <- <- <-]|].
  intros H. apply IH in H. exact H.
Qed.

Lemma plug_app k1 k2 t : plug (k1 ++ k2) t = plug k2 (plug k1 t).
Proof. revert t. induction k1; intros t; simpl; auto. Qed.

Lemma fill_elements k c t : elements (fill k c t) = elements (plug k t).
Proof.
  destruct t as [|ct l n r]; simpl; [by destruct c; rewrite ?del_fix_elements|]. by rewrite !elements_plug.
Qed.

Lemma leftmost_before c l n r k kk cs sx c2 : leftmost c l n r k = (kk, cs, sx, c2) -> before kk = before k.
Proof.
  revert c n r k. induction l as [|lc ll IH ln lr _]; intros c n r k; simpl; [by intros [= <- <- <- <-]|].
  intros H. by apply IH in H.
Qed.

Lemma del_elements k c l r : elements (del k c l r) = before k ++ elements l ++ elements r ++ after k.
Proof.
  unfold del. destruct l as [|lc ll ln lr]; [by rewrite fill_elements, elements_plug|].
  destruct r as [|rc rl rn rr]; [by rewrite fill_elements, elements_plug|].
  destruct (leftmost rc rl rn rr []) as [[[kk cs] sx] c2] eqn:El. pose proof (leftmost_before _ _ _ _ _ _ _ _ _ El) as Eb.
  apply leftmost_plug in El. simpl in El, Eb. apply (f_equal elements) in El. rewrite elements_plug, Eb in El.
  assert (G : elements (plug (kk ++ F Rt c sx (T lc ll ln lr) :: k) c2) =
    before k ++ elements (T lc ll ln lr) ++ elements (T rc rl rn rr) ++ after k).
  { rewrite plug_app. cbn [plug plug1 mk]. rewrite elements_plug. cbn [elements] in El |- *. rewrite elements_plug, Eb.
    rewrite <- El. simpl. repeat (rewrite <- app_assoc; simpl). done. }
  rewrite <- G. destruct c2 as [|cc cl cn cr]; [apply fill_elements|]. by rewrite !elements_plug.
Qed.

Lemma fill_rb h k c t : rbk c h k -> (exists ct, rbt ct (match c with Red => h | Black => pred h end) t) ->
  (c = Red -> t = E) -> (c = Black -> is_red t = true \/ t = E) -> h <> 0%nat \/ c = Red -> rb_tree (fill k c t).
Proof.
  intros Hk [ct Ht] Hr Hb Hh. destruct c.
  - rewrite Hr in * by done. simpl. inversion Ht; subst. eapply plug_rb; [exact (rbk_black _ _ _ Hk)|constructor].
  - destruct h as [|h]; [by destruct Hh|]. simpl in Ht. destruct (Hb eq_refl) as [H|H].
    + destruct t as [|[] l n r]; try done. simpl. eapply plug_rb; [exact Hk|]. inversion Ht; subst. eauto with rbt.
    + subst. simpl. inversion Ht; subst. apply (del_fix_rb 0); [done|constructor].
Qed.

Lemma rbk_rename c h k1 d c1 x y s k : rbk c h (k1 ++ F d c1 x s :: k) -> rbk c h (k1 ++ F d c1 y s :: k).
Proof.
  revert c h. induction k1 as [|[d' c' z s'] k1 IH]; intros c h; simpl; inversion 1; subst; eauto with rbt.
Qed.

Lemma rbt_root c c' h l n r : rbt c h (T c' l n r) -> c = c'.
Proof. by inversion 1. Qed.

(** A node with at most one child: the child is a red leaf, below a black node. *)
Lemma one_child_rb h c l n r k d t : rbk c h k -> rbt c h (T c l n r) -> kid d l r = E -> t = kid (opp d) l r ->
  rb_tree (fill k c t).
Proof.
  intros Hk Ht Hd ->. assert (H0 : c = Red /\ h = 0%nat \/ c = Black /\ h = 1%nat).
  { destruct d; simpl in Hd; subst; inversion Ht; subst; [left|right|left|right];
      (split; [done|]); match goal with H : rbt _ _ E |- _ => by inversion H end. }
  destruct H0 as [[-> ->]|[-> ->]].
  - assert (kid (opp d) l r = E) as -> by (destruct d; simpl in *; inversion Ht; subst;
      match goal with H : rbt Black 0 ?t |- ?t = E => by inversion H end).
    apply (fill_rb 0); eauto with rbt.
  - assert (H1 : exists c1, rbt c1 0 (kid (opp d) l r)) by (destruct d; inversion Ht; subst; eexists; eassumption).
    apply (fill_rb 1); [done|done|done| |by left]. intros _. destruct H1 as [c1 H1]. inversion H1; auto.
Qed.

(** Erasing keeps the invariant. *)
Lemma del_rb k c l x r : rb_tree (plug k (T c l x r)) -> rb_tree (del k c l r).
Proof.
  intros H. destruct (rb_plug _ _ H) as (c0&h&Hk&Ht). assert (c0 = c) as -> by by eapply rbt_root.
  unfold del. destruct l as [|lc ll ln lr]; [by apply (one_child_rb h c E x r k Lt)|].
  destruct r as [|rc rl rn rr]; [by apply (one_child_rb h c (T lc ll ln lr) x E k Rt)|].
  destruct (leftmost rc rl rn rr []) as [[[kk cs] sx] c2] eqn:El. apply leftmost_plug in El. simpl in El.
  assert (H' : rb_tree (plug (kk ++ F Rt c x (T lc ll ln lr) :: k) (T cs E sx c2))) by by rewrite plug_app, El.
  destruct (rb_plug _ _ H') as (c0&h'&Hk'&Ht'). assert (c0 = cs) as -> by by eapply rbt_root.
  apply (rbk_rename _ _ _ _ _ _ sx) in Hk'. pose proof (one_child_rb _ _ _ _ _ _ Lt _ Hk' Ht' eq_refl eq_refl) as HF.
  destruct c2 as [|cc cl cn cr]; [done|]. simpl in HF |- *.
  assert (cs = Black) as -> by (destruct cs; [|done]; inversion Ht'; subst;
    match goal with H : rbt Black ?h (T _ _ _ _), H2 : rbt Black ?h E |- _ => inversion H2; subst; inversion H end).
  exact HF.
Qed.

(** ** The rebalancing code *)

Lemma set_parent_ok m p q c v par : nodes m !! p = Some v -> rb_parent_color v = Z.lor q (cz c) -> Z.land q 3 = 0 ->
  rb_set_parent m p par = Ok (mk_mem (root m) (<[p := mk_node (Z.lor par (cz c)) (rb_right v) (rb_left v)]> (nodes m))).
Proof.
  intros H E0 Hq. unfold rb_set_parent. rewrite (parent_color_ok _ _ _ H). simpl. rewrite E0, color_of_word by done.
  rewrite (set_word_ok _ _ _ _ H). by rewrite Z.lor_comm.
Qed.

Ltac al := first [assumption | apply addr_al; assumption | exact null_al].
Ltac reparent :=
  match goal with |- context [rb_set_parent ?m ?p ?q] =>
    erewrite (set_parent_ok m p) by first [lk | reflexivity | al]; cbn [res_bind rb_left rb_right] end.
Ltac run_erase := repeat first [reparent | progress run | progress (unfold dummy_callbacks; cbn [rotate])].

(** Case 4, the sibling's colour being replaced by the parent's. *)
Lemma erase_case4_ok m d cp cs p near sn fc fl fn fr t k :
  zip m k (mk d cp t p (mk d cs near sn (T fc fl fn fr))) ->
  exists m', erase_case4 dummy_callbacks m d p sn fn = Ok m' /\
    zip m' k (mk d cp (mk d Black t p near) sn (T Black fl fn fr)).
Proof.
  intros HZ. unfold erase_case4.
  destruct d, near as [|nc nl nn nr]; open_zip HZ; run_erase; rotate HZ.
Qed.

(** Cases 3 and 4: between them the words of the sibling and of its near child are stale. *)
Lemma erase_case34_ok m d cp cs cn p nl nn nr sn far t k :
  zip m k (mk d cp t p (mk d cs (T cn nl nn nr) sn far)) ->
  exists m', (x <-- erase_case3 dummy_callbacks m d p sn nn;
      let '(m, tmp1, sibling) := x in erase_case4 dummy_callbacks m d p sibling tmp1) = Ok m' /\
    zip m' k (mk d cp (mk d Black t p (kid d nl nr)) nn (mk d Black (blk (kid (opp d) nl nr)) sn far)).
Proof.
  intros HZ. unfold erase_case3, erase_case4.
  destruct d, nl as [|lc ll ln lr], nr as [|rc rl rn rr]; open_zip HZ; run_erase; rotate HZ.
Qed.

Lemma erase_case1_ok m d cp cs nc p nl nn nr sn far t k :
  zip m k (mk d cp t p (mk d cs (T nc nl nn nr) sn far)) ->
  exists m', erase_case1 dummy_callbacks m d p sn = Ok (m', nn) /\
    zip m' k (mk d cp (mk d Red t p (T Black nl nn nr)) sn far).
Proof. intros HZ. unfold erase_case1. destruct d; open_zip HZ; run_erase; rotate HZ. Qed.

(** Case 2, with a red parent and with a black one. *)
Lemma erase_case2_ok m d cp cs p near sn far t k :
  zip m k (mk d cp t p (mk d cs near sn far)) ->
  exists m', rb_set_parent_color m sn p RB_RED = Ok m' /\ rb_is_red m' p = Ok (bool_decide (cp = Red)) /\
    rb_parent m' p = Ok (up k) /\ zip m' k (mk d cp t p (mk d Red near sn far)).
Proof.
  intros HZ.
  assert (Hal : Z.land (up k) 3 = 0) by by eapply zip_al.
  destruct d; open_zip HZ; run; (eexists; split; [reflexivity|]).
  all: split; [eapply rb_is_red_ok; [lk|reflexivity|done]|]; split; [eapply rb_parent_ok; [lk|reflexivity|done]|].
  all: eapply zip_intro; [exact HZ|rewrite !elements_plug; elems|assumption|layout; cells_ok].
Qed.

Lemma set_black_ok m d p s t k : zip m k (mk d Red t p s) ->
  exists m', rb_set_black m p = Ok m' /\ zip m' k (mk d Black t p s).
Proof.
  intros HZ. unfold rb_set_black.
  destruct d; open_zip HZ; run; rewrite word_red; (eexists; split; [reflexivity|]).
  all: eapply zip_intro; [exact HZ|rewrite !elements_plug; elems|assumption|layout; cells_ok].
Qed.

(** What a zipper at a parent and its sibling says to the code that reads it. *)
Record at_sibling (m : mem) (d : side) (cp cs : color) (p : Z) (near : tree) (sn : Z) (far t : tree) (k : path) : Prop := {
  as_parent : nodes m !! p = Some (frame_node (up k) d cp (ptr t) (mk d cs near sn far));
  as_sibling : nodes m !! sn = Some (frame_node p d cs (ptr near) far);
  as_near : agree (nodes m) (cells sn near);
  as_far : agree (nodes m) (cells sn far);
  as_addr : address p /\ address sn /\ Forall address (keys near) /\ Forall address (keys far);
  as_up : Z.land (up k) 3 = 0;
  as_ne : ptr t <> sn }.

Lemma at_sibling_intro m d cp cs p near sn far t k :
  zip m k (mk d cp t p (mk d cs near sn far)) -> at_sibling m d cp cs p near sn far t k.
Proof.
  intros HZ.
  assert (Hal : Z.land (up k) 3 = 0) by by eapply zip_al.
  destruct d; open_zip HZ; (split; [done..|apply not_eq_sym, ne_ptr; assumption]).
Qed.

Lemma frame_child par d c hole s d' : child_of (frame_node par d c hole s) d' = if decide (d' = d) then hole else ptr s.
Proof. by destruct d, d'. Qed.

Lemma frame_word par d c hole s : rb_parent_color (frame_node par d c hole s) = Z.lor par (cz c).
Proof. by destruct d. Qed.

Lemma erase_sibling_ok again m d cp p near sn far t k :
  zip m k (mk d cp t p (mk d Black near sn far)) ->
  let '(sub, short) := sib_fix d cp p near sn far t in
  exists m1, zip m1 k sub /\ erase_sibling dummy_callbacks again m d p sn =
    if short : bool then (if negb (up k =? NULL) then again m1 p (up k) else Ok m1) else Ok m1.
Proof.
  intros HZ. pose proof (at_sibling_intro _ _ _ _ _ _ _ _ _ _ HZ) as [_ Ls An Af (Hp&Hs&Dn&Df) Hup _].
  unfold erase_sibling, sib_fix. erewrite child_ok by exact Ls. rewrite frame_child.
  rewrite decide_False by by destruct d. cbn [res_bind].
  rewrite (black_ptr_ok m sn far) by al. cbn [res_bind]. destruct (is_red far) eqn:Ef; cbn [negb].
  - destruct far as [|[] fl fn fr]; try done. apply erase_case4_ok in HZ as (m'&E1&Z1). exists m'. by split.
  - erewrite child_ok by exact Ls. rewrite frame_child, decide_True by done. cbn [res_bind].
    rewrite (black_ptr_ok m sn near) by al. cbn [res_bind]. destruct (is_red near) eqn:En; cbn [negb].
    + destruct near as [|[] nl nn nr]; try done. apply erase_case34_ok in HZ as (m'&E1&Z1). exists m'. split; [done|].
      rewrite <- E1. cbn [ptr]. by destruct (erase_case3 _ _ _ _ _ _) as [[[]]|].
    + destruct (erase_case2_ok _ _ _ _ _ _ _ _ _ _ HZ) as (m1&E1&E2&E3&Z1). rewrite E1. cbn [res_bind]. rewrite E2. cbn [res_bind].
      destruct cp; cbn [bool_decide].
      * destruct (set_black_ok _ _ _ _ _ _ Z1) as (m2&E4&Z2). destruct near as [|[] nl nn nr]; try done;
          (exists m2; split; [exact Z2|exact E4]).
      * destruct near as [|[] nl nn nr]; try done; (exists m1; split; [exact Z1|]); simpl; rewrite E3; done.
Qed.

Lemma erase_loop_ok fuel m k t h : k <> [] -> rbk Black (S h) k -> rbt Black h t -> zip m k t -> (length k <= fuel)%nat ->
  exists m', erase_loop dummy_callbacks fuel m (ptr t) (up k) = Ok m' /\ holds_tree m' (del_fix k t).
Proof.
  revert fuel m t h. induction k as [|[d cp p s] k IH]; intros fuel m t h Hne Hk Ht HZ Hf; [done|].
  destruct fuel as [|fuel]; [simpl in Hf; lia|]. rewrite zip_down in HZ. cbn [plug1] in HZ.
  assert (Hs : exists cs, rbt cs (S h) s) by (inversion Hk; subst; eexists; eassumption).
  destruct Hs as [cs Hs]. destruct s as [|c sl sn sr]; [inversion Hs|]. assert (cs = c) as -> by by eapply rbt_root.
  cbn [up erase_loop del_fix]. rewrite (mk_kid d) in HZ.
  pose proof (at_sibling_intro _ _ _ _ _ _ _ _ _ _ HZ) as [Lp Ls An Af (Hp&Hsn&Dn&Df) Hup Hts].
  erewrite child_ok by exact Lp. cbn [res_bind]. rewrite frame_child.
  assert (Eptr : ptr (mk d c (kid d sl sr) sn (kid (opp d) sl sr)) = sn) by by destruct d. rewrite Eptr in *.
  assert (Ed : (if negb (ptr t =? (if decide (Rt = d) then ptr t else sn)) then Lt else Rt) = d).
  { destruct d; simpl; [by rewrite eqb_ne by done|by rewrite Z.eqb_refl]. }
  rewrite Ed. erewrite child_ok by exact Lp. rewrite frame_child, decide_False, Eptr by by destruct d. cbn [res_bind].
  erewrite rb_is_red_ok; [|exact Ls|apply frame_word|by apply addr_al]. cbn [res_bind].
  destruct c; cbn [bool_decide].
  - apply rbt_red_kids in Hs as [Hl Hr].
    assert (Hn : rbt Black (S h) (kid d sl sr)) by by destruct d.
    destruct (kid d sl sr) as [|nc nl nn nr]; [inversion Hn|].
    destruct (erase_case1_ok _ _ _ _ _ _ _ _ _ _ _ _ _ HZ) as (m1&E1&Z1). simpl. rewrite E1. cbn [res_bind].
    assert (Z1' : zip m1 (F d cp sn (kid (opp d) sl sr) :: k) (mk d Red t p (mk d Black (kid d nl nr) nn (kid (opp d) nl nr)))).
    { rewrite zip_down, <- mk_kid. exact Z1. }
    pose proof (erase_sibling_ok (erase_loop dummy_callbacks fuel) _ _ _ _ _ _ _ _ _ Z1') as Hx.
    destruct (sib_fix d Red p (kid d nl nr) nn (kid (opp d) nl nr) t) as [sub short] eqn:Es.
    assert (short = false) as ->.
    { revert Es. unfold sib_fix. destruct (is_red _); [by intros [= _ <-]|]. destruct (kid d nl nr) as [|[]]; by intros [= _ <-]. }
    destruct Hx as (m2&Z2&E2). exists m2. split; [exact E2|]. by apply zip_plug in Z2.
  - rewrite bool_decide_eq_false_2 by done. cbn [res_bind]. pose proof (erase_sibling_ok (erase_loop dummy_callbacks fuel) _ _ _ _ _ _ _ _ _ HZ) as Hx.
    assert (Hkids : exists c1 c2, rbt c1 h (kid d sl sr) /\ rbt c2 h (kid (opp d) sl sr)).
    { inversion Hs; subst. destruct d; eexists _, _; split; eassumption. }
    destruct Hkids as (c1&c2&H1&H2).
    pose proof (sib_fix_rb d cp c1 c2 p h (kid d sl sr) sn (kid (opp d) sl sr) t Ht H1 H2) as Hrb.
    destruct (sib_fix d cp p (kid d sl sr) sn (kid (opp d) sl sr) t) as [sub short] eqn:Es.
    destruct Hx as (m2&Z2&E2). rewrite E2. destruct short; [|exists m2; split; [done|]; by apply zip_plug in Z2].
    destruct Hrb as [-> Hrb]. destruct k as [|f k']; [by exists m2|].
    assert (Hup0 : (up (f :: k') =? NULL) = false).
    { destruct f. destruct Z2 as [_ _ _ Hd]. apply Forall_app in Hd as [_ Hd]. simpl in Hd. apply Forall_cons in Hd as [Hd _].
      by apply addr_ne. }
    rewrite Hup0. cbn [negb].
    assert (Eps : ptr sub = p).
    { revert Es. unfold sib_fix. destruct (is_red _); [done|]. destruct (kid d sl sr) as [|[]]; try done;
        intros Hq; apply (f_equal fst) in Hq; simpl in Hq; rewrite <- Hq; by destruct d. }
    rewrite <- Eps. apply (IH fuel m2 sub (S h)); [done|by inversion Hk|done|done|simpl in *; lia].
Qed.
