(* ===== verification/RbtreeUnlink.v ===== *)
(** * Unlinking a node from a red-black tree, and the whole of [rb_erase] *)

From stdpp Require Import gmap.
From S2P Require Import Prelude Rbtree RbtreeTree RbtreeInsert RbtreeErase.
Local Open Scope Z_scope.
Local Open Scope res_scope.

(** A zipper that lost the node [x]. *)
Lemma zip_drop m m' k t k' t' x : zip m k t -> keys t ++ path_keys k ≡ₚ x :: keys t' ++ path_keys k' ->
  root m' = top (ptr t') k' -> agree (nodes m') (cells (up k') t' ++ path_cells (ptr t') k') -> zip m' k' t'.
Proof.
  intros [H1 H2 H3 H4] Hp Hr Ha. rewrite Hp in H3, H4. apply NoDup_cons in H3 as [_ H3].
  apply Forall_cons in H4 as [_ H4]. done.
Qed.

(** The cells of the first part of a path, whose last parent is [u]. *)
Fixpoint seg_cells (hole : Z) (k : path) (u : Z) : list (Z * rb_node) :=
  match k with
  | [] => []
  | F d c n s :: k =>
    (n, frame_node (match k with [] => u | _ => up k end) d c hole s) :: cells n s ++ seg_cells n k u
  end.

Lemma seg_cells_keys hole k u : (seg_cells hole k u).*1 = path_keys k.
Proof.
  revert hole. induction k as [|[d c n s] k IH]; intros hole; simpl; [done|]. by rewrite fmap_app, cells_keys, IH.
Qed.

Lemma path_cells_app hole k1 k2 :
  path_cells hole (k1 ++ k2) = seg_cells hole k1 (up k2) ++ path_cells (top hole k1) k2.
Proof.
  revert hole. induction k1 as [|[d c n s] k1 IH]; intros hole; simpl; [done|]. rewrite IH.
  assert (up (k1 ++ k2) = match k1 with [] => up k2 | _ => up k1 end) as -> by by destruct k1 as [|[]].
  by rewrite <- app_assoc.
Qed.

Lemma path_keys_app k1 k2 : path_keys (k1 ++ k2) = path_keys k1 ++ path_keys k2.
Proof. induction k1 as [|[d c n s] k1 IH]; simpl; [done|]. by rewrite IH, <- app_assoc. Qed.

Lemma top_app hole k1 k2 : top hole (k1 ++ k2) = top (top hole k1) k2.
Proof. revert hole. induction k1 as [|[d c n s] k1 IH]; intros hole; simpl; auto. Qed.

Ltac seg_notin := rewrite ?cells_keys, ?path_cells_keys, ?seg_cells_keys; assumption.

(** [swing k] runs the redirection of the pointer to the node at the end of [k]; [settle Hx]
    proves that the memory agrees with a list of cells when [Hx] says what it left alone. *)
Ltac swing k :=
  match goal with |- context [__rb_change_child ?M ?o ?w (up k)] =>
    let m' := fresh "m'" in let Em := fresh "Em" in let Er := fresh "Er" in let Ek := fresh "Ek" in let Ex := fresh "Ex" in
    destruct (change_child_ok M o w k) as (m'&Em&Er&Ek&Ex);
      [ assumption
      | cbn [nodes]; repeat (apply agree_insert; [seg_notin|]); assumption
      | assumption | assumption | assumption | assumption | ];
    rewrite Em; cbn [res_bind]
  end.
Ltac settle Hx :=
  repeat match goal with
  | |- agree _ (_ :: _) => apply agree_cons; split
  | |- agree _ (_ ++ _) => apply agree_app; split
  | |- agree _ [] => apply agree_nil
  | |- _ !! _ = Some _ => solve [lk | cbn [nodes]; repeat (rewrite lookup_insert_ne by neq); rewrite Hx by neq; lk]
  | |- agree _ _ =>
      cbn [nodes]; repeat (apply agree_insert; [seg_notin|]);
      first [assumption
        | eapply agree_ext; [intros y Hy; rewrite ?cells_keys, ?path_cells_keys, ?seg_cells_keys in Hy; apply Hx; intros ->; contradiction|];
          cbn [nodes]; repeat (apply agree_insert; [seg_notin|]); assumption]
  end.

(** [still p Hx] looks up a node that the last operation left alone. *)
Ltac still p Hx :=
  match type of Hx with forall x, _ -> nodes ?m !! x = _ =>
    let L := fresh "L" in eassert (L : nodes m !! p = Some _) by (rewrite Hx by neq; lk) end.

(** What the caller is told to rebalance when a leaf of colour [c] went away. *)
Definition todo (k : path) (c : color) : Z := match c with Black => up k | Red => NULL end.

Lemma black_of c : bool_decide (c = Black) = match c with Black => true | Red => false end.
Proof. by destruct c. Qed.

Ltac run_unlink :=
  repeat first [progress run_erase | progress (unfold dummy_propagate, dummy_copy; cbn [propagate copy res_bind])
    | rewrite parent_of_word by al | rewrite black_word by al].

(** Permutations of concatenations: [perm] takes the parts of the left side one by one out
    of the right side. *)
Lemma pull_head {A} (a b : A) l l' r : l ≡ₚ b :: l' -> a :: l' ≡ₚ r -> a :: l ≡ₚ b :: r.
Proof. intros -> <-. apply Permutation_swap. Qed.
Lemma pull_skip {A} (s : list A) b l l' r : l ≡ₚ b :: l' -> s ++ l' ≡ₚ r -> s ++ l ≡ₚ b :: r.
Proof. intros -> <-. by rewrite Permutation_middle. Qed.
Lemma pull_head_app {A} (a : A) s l l' r : l ≡ₚ s ++ l' -> a :: l' ≡ₚ r -> a :: l ≡ₚ s ++ r.
Proof. intros -> <-. by rewrite Permutation_middle. Qed.
Lemma pull_skip_app {A} (s b l l' r : list A) : l ≡ₚ b ++ l' -> s ++ l' ≡ₚ r -> s ++ l ≡ₚ b ++ r.
Proof. intros -> <-. by rewrite Permutation_app_swap_app. Qed.
Lemma pull_last {A} (s : list A) : s ≡ₚ s ++ [].
Proof. by rewrite app_nil_r. Qed.

Ltac pull :=
  match goal with
  | |- ?b :: _ ≡ₚ ?b :: _ => reflexivity
  | |- ?b ++ _ ≡ₚ ?b ++ _ => reflexivity
  | |- ?b ≡ₚ ?b ++ _ => apply pull_last
  | |- _ :: _ ≡ₚ _ :: _ => eapply pull_head; [pull|reflexivity]
  | |- _ ++ _ ≡ₚ _ :: _ => eapply pull_skip; [pull|reflexivity]
  | |- _ :: _ ≡ₚ _ ++ _ => eapply pull_head_app; [pull|reflexivity]
  | |- _ ++ _ ≡ₚ _ ++ _ => eapply pull_skip_app; [pull|reflexivity]
  end.
Ltac perm :=
  repeat (rewrite <- app_assoc; cbn [app]); rewrite ?app_nil_r;
  repeat match goal with
  | |- ?l ≡ₚ ?l => reflexivity
  | |- ?a :: _ ≡ₚ _ => etransitivity; [|symmetry; instantiate (1 := a :: _); pull]; apply Permutation_skip
  | |- ?a ++ _ ≡ₚ _ => etransitivity; [|symmetry; instantiate (1 := a ++ _); pull]; apply Permutation_app_head
  end.

(** A node without children. *)
Lemma unlink_leaf m k c x : zip m k (T c E x E) ->
  exists m1, __rb_erase_augmented dummy_callbacks m x = Ok (m1, todo k c) /\ zip m1 k E.
Proof.
  intros HZ. assert (Hal : Z.land (up k) 3 = 0) by by eapply zip_al.
  unfold __rb_erase_augmented. open_zip HZ. run_unlink. swing k. run_unlink.
  exists m'. split; [rewrite black_of; by destruct c|].
  eapply (zip_drop _ _ _ _ _ _ x); [exact HZ|done|done|layout; settle Ex].
Qed.

(** A node with one child. *)
Lemma unlink_one m k c d x cc cl cn cr : zip m k (mk d c E x (T cc cl cn cr)) ->
  exists m1, __rb_erase_augmented dummy_callbacks m x = Ok (m1, NULL) /\ zip m1 k (T c cl cn cr).
Proof.
  intros HZ. assert (Hal : Z.land (up k) 3 = 0) by by eapply zip_al.
  unfold __rb_erase_augmented. destruct d; open_zip HZ; run_unlink; swing k.
  - still cn Ex. run_unlink. eexists. split; [done|].
    eapply (zip_drop _ _ _ _ _ _ x); [exact HZ|done|done|layout; settle Ex].
  - run_unlink. exists m'. split; [done|].
    eapply (zip_drop _ _ _ _ _ _ x); [exact HZ|simpl; by rewrite app_nil_r|done|layout; settle Ex].
Qed.

(** A node whose successor is its right child. *)
Lemma unlink_right m k c lc ll ln lr x rc rn rr : zip m k (T c (T lc ll ln lr) x (T rc E rn rr)) ->
  exists m1, let K := F Rt c rn (T lc ll ln lr) :: k in
    __rb_erase_augmented dummy_callbacks m x = Ok (m1, match rr with E => todo K rc | _ => NULL end) /\
    zip m1 K (blk rr).
Proof.
  intros HZ. assert (Hal : Z.land (up k) 3 = 0) by by eapply zip_al.
  unfold __rb_erase_augmented. destruct rr as [|c2 l2 n2 r2]; open_zip HZ; run_unlink; swing k.
  - still rn Ex. run_unlink. eexists. split; [rewrite black_of; by destruct rc|].
    eapply (zip_drop _ _ _ _ _ _ x); [exact HZ|simpl; perm|done|layout; settle Ex].
  - still rn Ex. still n2 Ex. run_unlink. eexists. split; [done|].
    eapply (zip_drop _ _ _ _ _ _ x); [exact HZ|simpl; perm|done|layout; settle Ex].
Qed.

(** A node whose successor is deeper: the left child of the right child, or below that. *)
Lemma unlink_near m k c lc ll ln lr x rc rn rr cs sx c2 :
  zip m (F Lt rc rn rr :: F Rt c x (T lc ll ln lr) :: k) (T cs E sx c2) ->
  successor_loop (S (size (nodes m))) m rn sx = Ok (rn, sx) ->
  exists m1, let K := F Lt rc rn rr :: F Rt c sx (T lc ll ln lr) :: k in
    __rb_erase_augmented dummy_callbacks m x = Ok (m1, match c2 with E => todo K cs | _ => NULL end) /\
    zip m1 K (blk c2).
Proof.
  intros HZ0 HS. pose proof HZ0 as HZ. rewrite !zip_down in HZ. assert (Hal : Z.land (up k) 3 = 0) by by eapply zip_al.
  unfold __rb_erase_augmented. destruct c2 as [|cc cl cn cr]; open_zip HZ; run_unlink; rewrite HS; cbn [res_bind]; run_unlink; swing k.
  - still sx Ex. run_unlink. eexists. split; [rewrite black_of; by destruct cs|].
    eapply (zip_drop _ _ _ _ _ _ x); [exact HZ0|simpl; perm|done|layout; settle Ex].
  - still sx Ex. still cn Ex. run_unlink. eexists. split; [done|].
    eapply (zip_drop _ _ _ _ _ _ x); [exact HZ0|simpl; perm|done|layout; settle Ex].
Qed.

Lemma zip_up_app m k1 k t : zip m (k1 ++ k) t ->
  (up k ∉ keys t ++ path_keys k1) /\ NoDup (path_keys k) /\ Z.land (up k) 3 = 0.
Proof.
  intros [_ _ Hn Hd]. rewrite path_keys_app, app_assoc in Hn, Hd. split; [by apply up_notin|].
  apply NoDup_app in Hn as (_&_&Hn). apply Forall_app in Hd as [_ Hd]. split; [done|]. by apply up_al.
Qed.

Lemma top_address m k1 k2 t : zip m (k1 ++ k2) t -> t <> E -> address (top (ptr t) k1).
Proof.
  intros [_ _ _ Hd] Ht. rewrite path_keys_app in Hd. destruct t as [|c l n r]; [done|]. simpl in *.
  apply Forall_cons in Hd as [Hn Hd]. apply Forall_app in Hd as [_ Hd]. apply Forall_app in Hd as [Hd _].
  clear Ht. revert n Hn Hd. induction k1 as [|[d' c' n' s'] k1 IH]; intros n Hn Hd; simpl in *; [done|].
  apply Forall_cons in Hd as [Hn' Hd]. apply Forall_app in Hd as [_ Hd]. by apply IH.
Qed.

Lemma ptr_plug k t : ptr (plug k t) = top (ptr t) k.
Proof. revert t. induction k as [|[[] c n s] k IH]; intros t; simpl; [done|..]; apply IH. Qed.

Lemma up_seg kk f k1 k2 : up (kk ++ f :: k1) = up (kk ++ f :: k2).
Proof. by destruct kk as [|[]], f. Qed.

Lemma unlink_deep m k c lc ll ln lr x rc rn rr cs sx c2 pc pp ps kk :
  zip m ((F Lt pc pp ps :: kk ++ [F Lt rc rn rr; F Rt c x (T lc ll ln lr)]) ++ k) (T cs E sx c2) ->
  successor_loop (S (size (nodes m))) m rn (top pp kk) = Ok (pp, sx) ->
  exists m1, let K := (F Lt pc pp ps :: kk ++ [F Lt rc rn rr; F Rt c sx (T lc ll ln lr)]) ++ k in
    __rb_erase_augmented dummy_callbacks m x = Ok (m1, match c2 with E => todo K cs | _ => NULL end) /\
    zip m1 K (blk c2).
Proof.
  intros HZ HS. destruct (zip_up_app _ _ _ _ HZ) as (HU&HP&Hal).
  assert (Ht : address (top pp kk)) 
    by (rewrite <- app_comm_cons, <- app_assoc, app_comm_cons in HZ; exact (top_address _ _ _ _ HZ ltac:(done))).
  unfold __rb_erase_augmented. pose proof HZ as [Hr Ha Hn Hd].
  rewrite <- app_comm_cons, <- app_assoc in Hr, Ha, Hn, Hd. cbn [app] in Hr, Ha, Hn, Hd.
  cbn [path_cells ptr top up] in Hr, Ha. rewrite top_app in Hr. rewrite path_cells_app in Ha.
  cbn [path_keys] in HU, Hn, Hd. rewrite path_keys_app in HU, Hn, Hd. layout.
  destruct c2 as [|cc cl cn cr]; layout; repeat (rewrite <- app_assoc in Hn; cbn [app] in Hn); facts.
  all: run_unlink; rewrite HS; cbn [res_bind]; run_unlink; swing k.
  all: still sx Ex; try still cn Ex; run_unlink; eexists; (split; [rewrite ?black_of; by destruct cs|]).
  all: rewrite <- app_assoc in HZ |- *; cbn [app] in HZ |- *;
    eapply (zip_drop _ _ _ _ _ _ x); [exact HZ|..]; cbn [path_cells top path_keys up];
    rewrite ?path_keys_app, ?top_app, ?path_cells_app, ?(up_seg kk _ (F Rt c sx (T lc ll ln lr) :: k) (F Rt c x (T lc ll ln lr) :: k));
    layout; [perm|done|settle Ex].
Qed.

(** ** Finding the successor *)

Lemma leftmost_app c l n r k1 k2 :
  leftmost c l n r (k1 ++ k2) = let '(kk, cs, sx, c2) := leftmost c l n r k1 in (kk ++ k2, cs, sx, c2).
Proof.
  revert c n r k1. induction l as [|lc ll IH ln lr _]; intros c n r k1; simpl; [done|].
  exact (IH lc ln lr (F Lt c n r :: k1)).
Qed.

Lemma leftmost_left c l n r k kk cs sx c2 : leftmost c l n r k = (kk, cs, sx, c2) ->
  kk = k \/ exists pc pp ps kk', kk = F Lt pc pp ps :: kk'.
Proof.
  revert c n r k. induction l as [|lc ll IH ln lr _]; intros c n r k; simpl; [intros [= <- <- <- <-]; by left|].
  intros H. right. destruct (IH _ _ _ _ H) as [-> |H']; [by eexists _, _, _, _|done].
Qed.

Lemma successor_loop_ok fuel m c l n r k kk cs sx c2 : zip m k (T c l n r) -> leftmost c l n r k = (kk, cs, sx, c2) ->
  (length (keys l) < fuel)%nat -> successor_loop fuel m (up k) n = Ok (up kk, sx) /\ zip m kk (T cs E sx c2).
Proof.
  revert fuel c n r k. induction l as [|lc ll IH ln lr _]; intros fuel c n r k HZ Hl Hf;
    (destruct fuel as [|fuel]; [lia|]); cbn [successor_loop].
  - simpl in Hl. injection Hl as <- <- <- <-. split; [|done]. open_zip HZ. by run.
  - pose proof HZ as HZ0. open_zip HZ. run.
    apply (IH fuel lc ln lr (F Lt c n r :: k)); [|done|simpl in Hf; rewrite length_app in Hf; lia]. by rewrite zip_down.
Qed.

Lemma zip_total m k t : zip m k t -> (length (keys t) <= size (nodes m))%nat.
Proof.
  intros [_ Ha Hn _]. apply agree_size in Ha; [|by rewrite fmap_app, cells_keys, path_cells_keys].
  rewrite length_app, <- (length_fmap fst (cells _ _)), cells_keys in Ha. lia.
Qed.

(** A node with two children: its successor takes its place. *)
Lemma unlink_two m k c lc ll ln lr x rc rl rn rr kk cs sx c2 :
  zip m k (T c (T lc ll ln lr) x (T rc rl rn rr)) -> leftmost rc rl rn rr [] = (kk, cs, sx, c2) ->
  exists m1, let K := kk ++ F Rt c sx (T lc ll ln lr) :: k in
    __rb_erase_augmented dummy_callbacks m x = Ok (m1, match c2 with E => todo K cs | _ => NULL end) /\
    zip m1 K (blk c2).
Proof.
  intros HZ Hl. destruct rl as [|rlc rll rln rlr].
  { simpl in Hl. injection Hl as <- <- <- <-. exact (unlink_right _ _ _ _ _ _ _ _ _ _ _ HZ). }
  assert (HZ' : zip m (F Lt rc rn rr :: F Rt c x (T lc ll ln lr) :: k) (T rlc rll rln rlr)) by by rewrite !zip_down.
  assert (Hf : (length (keys rll) < S (size (nodes m)))%nat).
  { pose proof (zip_total _ _ _ HZ') as H. simpl in H. rewrite length_app in H. lia. }
  simpl in Hl. pose proof (leftmost_app rlc rll rln rlr [] [F Lt rc rn rr]) as H1. simpl app in H1. rewrite Hl in H1.
  destruct (leftmost rlc rll rln rlr []) as [[[k0 cs'] sx'] c2'] eqn:El. injection H1 as -> -> -> ->.
  pose proof (leftmost_app rlc rll rln rlr [] (F Lt rc rn rr :: F Rt c x (T lc ll ln lr) :: k)) as H2.
  simpl app in H2. rewrite El in H2. destruct (successor_loop_ok _ _ _ _ _ _ _ _ _ _ _ HZ' H2 Hf) as [HS HZ2].
  destruct (leftmost_left _ _ _ _ _ _ _ _ _ El) as [-> |(pc&pp&ps&k1&->)].
  - assert (Hn : sx' = rln) by (apply (leftmost_plug _ _ _ _ []) in El; simpl in El; congruence). subst sx'.
    exact (unlink_near _ _ _ _ _ _ _ _ _ _ _ _ _ _ HZ2 HS).
  - assert (Hn : rln = top pp k1).
    { apply leftmost_plug in El. apply (f_equal ptr) in El. rewrite ptr_plug in El. by simpl in El. }
    rewrite Hn in HS. destruct (unlink_deep m k c lc ll ln lr x rc rn rr cs' sx' c2' pc pp ps k1) as (m1&E1&Z1).
    + by rewrite <- app_comm_cons, <- app_assoc.
    + exact HS.
    + exists m1. rewrite <- app_assoc. rewrite <- app_comm_cons, <- app_assoc in E1, Z1. by split.
Qed.

(** ** [rb_erase] *)

(** The part of [rb_erase] after the unlinking of a leaf. *)
Lemma finish_ok m k c : rbk c (match c with Red => 0 | Black => 1 end) k -> zip m k E ->
  exists m', (if negb (todo k c =? NULL) then ____rb_erase_color dummy_callbacks m (todo k c) else Ok m) = Ok m' /\
    holds_tree m' (fill k c E).
Proof.
  intros Hk HZ. pose proof HZ as HZ0. apply zip_plug in HZ0. destruct c; [by exists m|].
  destruct k as [|[d c p s] k]; [by exists m|]. cbn [todo up]. rewrite addr_ne.
  - apply (erase_loop_ok _ m (F d c p s :: k) E 0); [done|done|constructor|done|].
    pose proof (zip_size _ _ _ HZ). lia.
  - destruct HZ as [_ _ _ Hd]. simpl in Hd. by apply Forall_cons in Hd as [Hd _].
Qed.

Lemma rbk_leaf c h l n r d k : rbk c h k -> rbt c h (T c l n r) -> kid d l r = E ->
  rbk c (match c with Red => 0 | Black => 1 end) k.
Proof.
  intros Hk Ht Hd. destruct d; simpl in Hd; subst; inversion Ht; subst;
    match goal with H : rbt _ _ E |- _ => by inversion H; subst end.
Qed.

Lemma rb_erase_ok m k c l x r : zip m k (T c l x r) -> rb_tree (plug k (T c l x r)) ->
  exists m', rb_erase m x = Ok m' /\ holds_tree m' (del k c l r).
Proof.
  intros HZ Hrb. destruct (rb_plug _ _ Hrb) as (c0&h&Hk&Ht). assert (c0 = c) as -> by by eapply rbt_root.
  unfold rb_erase, del. destruct l as [|lc ll ln lr], r as [|rc rl rn rr].
  - destruct (unlink_leaf _ _ _ _ HZ) as (m1&E1&Z1). rewrite E1. cbn [res_bind].
    apply finish_ok; [by eapply (rbk_leaf _ _ _ _ _ Lt)|done].
  - destruct (unlink_one _ _ _ Lt _ _ _ _ _ HZ) as (m1&E1&Z1). rewrite E1. cbn [res_bind]. exists m1. split; [done|]. by apply zip_plug in Z1.
  - destruct (unlink_one _ _ _ Rt _ _ _ _ _ HZ) as (m1&E1&Z1). rewrite E1. cbn [res_bind]. exists m1. split; [done|]. by apply zip_plug in Z1.
  - destruct (leftmost rc rl rn rr []) as [[[kk cs] sx] c2] eqn:El.
    destruct (unlink_two _ _ _ _ _ _ _ _ _ _ _ _ _ _ _ _ HZ El) as (m1&E1&Z1). rewrite E1. cbn [res_bind].
    destruct c2 as [|cc cl cn cr]; [|exists m1; split; [done|]; by apply zip_plug in Z1].
    apply finish_ok; [|done]. apply leftmost_plug in El. simpl in El.
    assert (H' : rb_tree (plug (kk ++ F Rt c x (T lc ll ln lr) :: k) (T cs E sx E))) by by rewrite plug_app, El.
    destruct (rb_plug _ _ H') as (c0&h'&Hk'&Ht'). assert (c0 = cs) as -> by by eapply rbt_root.
    apply (rbk_rename _ _ _ _ _ _ sx) in Hk'. by eapply (rbk_leaf _ _ _ _ _ Lt).
Qed.

Lemma elem_mid {A} (x : A) l1 l2 : x ∈ l1 ++ x :: l2.
Proof. apply elem_of_app. right. apply list_elem_of_here. Qed.

(** Every place of the in-order sequence is the place of a node. *)
Lemma find_node t x : x ∈ elements t -> exists k c l r, t = plug k (T c l x r).
Proof.
  intros H. cut (forall k, exists k' c l r, plug k t = plug k' (T c l x r)); [intros G; exact (G [])|].
  induction t as [|c l IHl n r IHr]; simpl in H; [by apply not_elem_of_nil in H|]. intros k.
  apply elem_of_app in H as [H|H]; [|apply elem_of_cons in H as [-> |H]].
  - exact (IHl H (F Lt c n r :: k)).
  - by eexists _, _, _, _.
  - exact (IHr H (F Rt c n l :: k)).
Qed.

Lemma split_unique {A} (x : A) l1 l2 l3 l4 : NoDup (l1 ++ x :: l2) -> l1 ++ x :: l2 = l3 ++ x :: l4 -> l1 = l3 /\ l2 = l4.
Proof.
  revert l3. induction l1 as [|a l1 IH]; intros [|b l3] Hn He; simpl in *.
  - by injection He as ->.
  - injection He as <- ->. apply NoDup_cons in Hn as [Hn _]. by destruct Hn; apply elem_mid.
  - injection He as -> <-. apply NoDup_cons in Hn as [Hn _]. by destruct Hn; apply elem_mid.
  - injection He as <- He. apply NoDup_cons in Hn as [_ Hn]. by destruct (IH _ Hn He) as [-> ->].
Qed.

Lemma holds_nodup m t : holds_tree m t -> NoDup (elements t).
Proof. intros [_ _ H _]. by rewrite (zip_keys [] t) in H. Qed.

Lemma place_node m t xs x ys : holds_tree m t -> elements t = xs ++ x :: ys ->
  exists k c l r, t = plug k (T c l x r) /\ xs = before k ++ elements l /\ ys = elements r ++ after k.
Proof.
  intros Hm He. destruct (find_node t x) as (k&c&l&r&->); [rewrite He; apply elem_mid|].
  exists k, c, l, r. split; [done|]. apply holds_nodup in Hm. revert Hm He.
  rewrite elements_plug. simpl. rewrite <- app_assoc, <- app_comm_cons, app_assoc. intros Hm He.
  by destruct (split_unique _ _ _ _ _ Hm He) as [-> ->].
Qed.

Lemma rb_erase_list m t xs x ys : holds_tree m t -> rb_tree t -> elements t = xs ++ x :: ys ->
  exists m' t', rb_erase m x = Ok m' /\ holds_tree m' t' /\ rb_tree t' /\ elements t' = xs ++ ys.
Proof.
  intros Hm Hrb He. destruct (place_node _ _ _ _ _ Hm He) as (k&c&l&r&->&->&->).
  destruct (rb_erase_ok m k c l x r) as (m'&E1&H1); [by apply zip_plug|done|].
  exists m', (del k c l r). split; [done|]. split; [done|]. split; [by eapply del_rb|].
  by rewrite del_elements, <- app_assoc.
Qed.

(** C27: erasing a node.  Erasing any node of a red-black tree ends without a fault and leaves
    in memory a red-black tree (parent pointers and colours included) whose in-order
    sequence is the old one without the node. *)
Theorem rb_erase_correct m t xs x ys : holds_tree m t -> rb_tree t -> elements t = xs ++ x :: ys ->
  exists m' t', rb_erase m x = Ok m' /\ holds_tree m' t' /\ rb_tree t' /\ elements t' = xs ++ ys.
Proof. apply rb_erase_list. Qed.

Lemma rb_erase_correct_witness :
  exists m' t', rb_erase (mem_of sample []) 16 = Ok m' /\ holds_tree m' t' /\ rb_tree t' /\ elements t' = [8; 24].
Proof. apply (rb_erase_correct (mem_of sample []) sample [8] 16 [24]); [concrete_tree|exact sample_rb|reflexivity]. Defined.
