(* ===== verification/RbtreeIter.v ===== *)
(** * Walking and replacing in a red-black tree *)

From stdpp Require Import gmap.
From S2P Require Import Prelude Rbtree RbtreeTree RbtreeInsert RbtreeErase RbtreeUnlink.
Local Open Scope Z_scope.
Local Open Scope res_scope.

Lemma hd_rev {A} (d : A) l : hd d (rev l) = List.last l d.
Proof.
  induction l as [|x l _] using rev_ind; [done|]. by rewrite rev_app_distr, List.last_last.
Qed.

(** The sequence as seen from side [d], and what lies beyond the hole on side [d]. *)
Definition from (d : side) (t : tree) : list Z := match d with Lt => elements t | Rt => rev (elements t) end.
Definition beyond (d : side) (k : path) : list Z := match d with Rt => after k | Lt => rev (before k) end.

Lemma hd_from d c l n r :
  hd NULL (from d (T c l n r)) = match kid d l r with E => n | t => hd NULL (from d t) end.
Proof.
  destruct d; simpl.
  - destruct l as [|lc ll ln lr]; simpl; [done|]. by destruct (elements ll).
  - rewrite rev_app_distr. simpl. destruct r as [|rc rl rn rr]; simpl; [done|].
    rewrite rev_app_distr. simpl. by destruct (rev (elements rr)).
Qed.

Lemma descend_ok fuel m d q t : agree (nodes m) (cells q t) -> Forall address (keys t) ->
  (length (keys t) <= fuel)%nat -> t <> E -> descend fuel m d (ptr t) = Ok (hd NULL (from d t)).
Proof.
  revert fuel q. induction t as [|c l IHl n r IHr]; intros fuel q Ha Hd Hf Ht; [done|]. cbn [keys cells ptr] in *. facts.
  rewrite length_cons, length_app in Hf. destruct fuel as [|fuel]; [lia|]. cbn [descend].
  erewrite child_ok by eassumption. cbn [res_bind].
  assert (Hs : child_of (mk_node (Z.lor q (cz c)) (ptr r) (ptr l)) d = ptr (kid d l r)) by by destruct d.
  rewrite Hs, hd_from.
  assert (IH : kid d l r <> E -> descend fuel m d (ptr (kid d l r)) = Ok (hd NULL (from d (kid d l r)))).
  { destruct d; [apply (IHl _ n)|apply (IHr _ n)]; (done || lia). }
  assert (Hk : Forall address (keys (kid d l r))) by by destruct d.
  destruct (kid d l r) as [|kc kl kn kr]; [done|]. cbn [keys ptr] in *. facts. rewrite addr_ne by done. by apply IH.
Qed.

Lemma rb_end_ok d m t : holds_tree m t -> rb_end d m = Ok (hd NULL (from d t)).
Proof.
  intros HZ. pose proof (zip_total _ _ _ HZ) as Hs. destruct HZ as [Hr Ha _ Hd]. simpl in *.
  rewrite app_nil_r in Ha, Hd. unfold rb_end. rewrite Hr. destruct t as [|c l n r]; [by destruct d|].
  assert (Hn : address n) by by inversion Hd. cbn [ptr]. rewrite addr_ne by done.
  apply (descend_ok _ m d NULL (T c l n r)); [done|done|lia|done].
Qed.

Lemma ascend_ok fuel m d k c l n r : zip m k (T c l n r) -> (length k < fuel)%nat ->
  ascend fuel m d n = Ok (hd NULL (beyond d k)).
Proof.
  revert fuel c l n r. induction k as [|[d' cp p s] k IH]; intros fuel c l n r HZ Hf; (destruct fuel as [|fuel]; [lia|]).
  - cbn [ascend]. open_zip HZ. erewrite rb_parent_ok; [|eassumption|reflexivity|al]. by destruct d.
  - pose proof HZ as HZ0. rewrite zip_down in HZ. cbn [plug1] in HZ.
    assert (L : nodes m !! n = Some (mk_node (Z.lor p (cz c)) (ptr r) (ptr l)) /\ address p /\
      nodes m !! p = Some (frame_node (up k) d' cp n s) /\ n <> ptr s).
    { destruct d'; open_zip HZ; (split; [done|]; split; [done|]; split; [done|by apply ne_ptr]). }
    destruct L as (Ln&Hp&Lp&Hne). cbn [ascend]. erewrite rb_parent_ok; [|exact Ln|reflexivity|al]. cbn [res_bind].
    rewrite addr_ne by done. cbn [negb]. erewrite child_ok by exact Lp. rewrite frame_child. cbn [res_bind].
    destruct (decide (d = d')) as [<- |Hd].
    + rewrite Z.eqb_refl. simpl in Hf. replace (beyond d (F d cp p s :: k)) with (beyond d k) by by destruct d.
      destruct d; (eapply IH; [exact HZ|lia]).
    + rewrite eqb_ne by done. destruct d, d'; try done; simpl.
      by rewrite !rev_app_distr.
Qed.

Lemma rb_step_ok d m k c l n r : zip m k (T c l n r) -> rb_step d m n = Ok (hd NULL (from (opp d) (kid d l r) ++ beyond d k)).
Proof.
  intros HZ. unfold rb_step. pose proof (zip_size _ _ _ HZ). pose proof (zip_total _ _ _ HZ) as Ht.
  assert (Hal : Z.land (up k) 3 = 0) by by eapply zip_al. pose proof HZ as HZ0. open_zip HZ.
  erewrite parent_color_ok by eassumption. cbn [res_bind rb_parent_color].
  assert (Hne : Z.lor (up k) (cz c) <> n).
  { intros E0. apply (f_equal __rb_parent) in E0. rewrite parent_of_word in E0 by done.
    pose proof (parent_of_word n Red ltac:(al)) as E1. simpl in E1. rewrite word_red in E1. congruence. }
  rewrite eqb_ne by done. erewrite child_ok by eassumption. cbn [res_bind].
  assert (Hs : child_of (mk_node (Z.lor (up k) (cz c)) (ptr r) (ptr l)) d = ptr (kid d l r)) by by destruct d.
  rewrite Hs. cbn [keys length] in Ht. rewrite length_app in Ht.
  assert (Hk : agree (nodes m) (cells n (kid d l r)) /\ Forall address (keys (kid d l r)) /\
    (length (keys (kid d l r)) <= size (nodes m))%nat) by (destruct d; (split; [done|split; [done|simpl; lia]])).
  destruct Hk as (Hk&Hd&Hl). destruct (kid d l r) as [|kc kl kn kr] eqn:Ek.
  - cbn [ptr]. rewrite Z.eqb_refl. cbn [negb]. erewrite ascend_ok by (try exact HZ0; lia). by destruct d.
  - rewrite (descend_ok _ m (opp d) n (T kc kl kn kr)) by (try done; lia).
    cbn [keys ptr] in Hd |- *. facts. rewrite addr_ne by done. cbn [negb]. f_equal. destruct (from (opp d) (T kc kl kn kr)) eqn:Ef; [|done].
    exfalso. apply (f_equal length) in Ef. destruct d; simpl in Ef; rewrite ?length_rev, length_app in Ef; simpl in Ef; lia.
Qed.

Lemma neighbours_ok m t xs x ys : holds_tree m t -> elements t = xs ++ x :: ys ->
  rb_next m x = Ok (hd NULL ys) /\ rb_prev m x = Ok (List.last xs NULL).
Proof.
  intros Hm He. destruct (place_node _ _ _ _ _ Hm He) as (k&c&l&r&->&->&->). apply zip_plug in Hm.
  split; [exact (rb_step_ok Rt _ _ _ _ _ _ Hm)|]. unfold rb_prev. rewrite (rb_step_ok Lt _ _ _ _ _ _ Hm). simpl.
  by rewrite <- rev_app_distr, hd_rev.
Qed.

Lemma ends_ok m t : holds_tree m t ->
  rb_first m = Ok (hd NULL (elements t)) /\ rb_last m = Ok (List.last (elements t) NULL).
Proof.
  intros Hm. split; [exact (rb_end_ok Lt _ _ Hm)|]. unfold rb_last. rewrite (rb_end_ok Rt _ _ Hm). cbn [from]. by rewrite hd_rev.
Qed.

(** walking.  In a memory that holds a tree, [rb_first] and [rb_last] return the ends of
    its in-order sequence (NULL for the empty tree), and [rb_next] and [rb_prev] of a node
    return its neighbours there, NULL at the ends. *)
Theorem rb_walk_correct m t : holds_tree m t ->
  rb_first m = Ok (hd NULL (elements t)) /\ rb_last m = Ok (List.last (elements t) NULL) /\
  forall xs x ys, elements t = xs ++ x :: ys ->
    rb_next m x = Ok (hd NULL ys) /\ rb_prev m x = Ok (List.last xs NULL).
Proof.
  intros Hm. destruct (ends_ok _ _ Hm) as [H1 H2]. split; [done|]. split; [done|]. intros xs x ys. by apply neighbours_ok.
Qed.

(** ** Replacing a node *)

Lemma plug_rename k c l x y r : rb_tree (plug k (T c l x r)) -> rb_tree (plug k (T c l y r)).
Proof.
  intros H. destruct (rb_plug _ _ H) as (c0&h&Hk&Ht). eapply plug_rb; [exact Hk|]. inversion Ht; subst; eauto with rbt.
Qed.

Lemma node_at_ok m p v : nodes m !! p = Some v -> node_at m p = Ok v.
Proof. intros H. unfold node_at. by rewrite H. Qed.

Lemma replace_ok m k c l x r new v : zip m k (T c l x r) -> nodes m !! new = Some v -> address new ->
  new ∉ keys (T c l x r) ++ path_keys k -> new <> up k ->
  exists m', rb_replace_node m x new = Ok m' /\ zip m' k (T c l new r).
Proof.
  intros HZ Hv Hnew Hn Hu. assert (Hal : Z.land (up k) 3 = 0) by by eapply zip_al.
  assert (HD : NoDup (keys (T c l new r) ++ path_keys k) /\ Forall address (keys (T c l new r) ++ path_keys k)).
  { destruct HZ as [_ _ H1 H2]. simpl in *. apply NoDup_cons in H1 as [_ H1]. apply Forall_cons in H2 as [_ H2].
    apply not_elem_of_cons in Hn as [_ Hn]. split; [by apply NoDup_cons|by apply List.Forall_cons]. }
  destruct HD as [HD1 HD2]. revert HD1 HD2. unfold rb_replace_node.
  destruct l as [|lc ll ln lr], r as [|rc rl rn rr]; open_zip HZ; intros HD1 HD2.
  all: erewrite rb_parent_ok; [|eassumption|reflexivity|al]; cbn [res_bind].
  all: erewrite node_at_ok by eassumption; cbn [res_bind]; erewrite node_at_ok by exact Hv; cbn [res_bind].
  all: unfold put_node; run_unlink; swing k.
  all: exists m'; (split; [reflexivity|]); split; [exact Er|layout; settle Ex|exact HD1|exact HD2].
Qed.

(** replacing a node.  [rb_replace_node] puts a node that is not in the tree at the place
    of one that is, and keeps the tree's shape and colours. *)
Theorem rb_replace_node_correct m t xs x ys new v : holds_tree m t -> elements t = xs ++ x :: ys ->
  nodes m !! new = Some v -> address new -> new ∉ elements t ->
  exists m' t', rb_replace_node m x new = Ok m' /\ holds_tree m' t' /\ elements t' = xs ++ new :: ys /\
    (rb_tree t -> rb_tree t').
Proof.
  intros Hm He Hv Ha Hn. destruct (place_node _ _ _ _ _ Hm He) as (k&c&l&r&->&->&->).
  apply zip_plug in Hm. rewrite <- zip_keys in Hn.
  destruct (replace_ok m k c l x r new v Hm Hv Ha Hn) as (m'&E1&Z1).
  { destruct k as [|[d c' q s] k]; simpl; [destruct Ha; unfold NULL; lia|]. intros ->. apply Hn, elem_of_app. right. apply list_elem_of_here. }
  exists m', (plug k (T c l new r)). split; [done|]. split; [by apply (zip_plug m' k)|]. split; [|apply plug_rename].
  rewrite elements_plug. elems.
Qed.

(** ** Post-order *)

Fixpoint post (t : tree) : list Z :=
  match t with
  | E => []
  | T _ l n r => post l ++ post r ++ [n]
  end.

(** What post-order visits before and after the subtree at the end of a path. *)
Fixpoint post_before (k : path) : list Z :=
  match k with
  | [] => []
  | F Lt _ _ _ :: k => post_before k
  | F Rt _ _ s :: k => post_before k ++ post s
  end.
Fixpoint post_after (k : path) : list Z :=
  match k with
  | [] => []
  | F Lt _ n s :: k => post s ++ n :: post_after k
  | F Rt _ n _ :: k => n :: post_after k
  end.

Lemma post_plug k t : post (plug k t) = post_before k ++ post t ++ post_after k.
Proof.
  revert t. induction k as [|[[] c n s] k IH]; intros t; simpl; [by rewrite app_nil_r|..]; rewrite IH; simpl;
    repeat (rewrite <- app_assoc; simpl); done.
Qed.

Lemma post_perm t : post t ≡ₚ elements t.
Proof. induction t as [|c l IHl n r IHr]; simpl; [done|]. rewrite IHl, IHr. by rewrite (Permutation_app_comm _ [n]). Qed.

Lemma hd_post c l n r : hd NULL (post (T c l n r)) =
  match l with E => match r with E => n | _ => hd NULL (post r) end | _ => hd NULL (post l) end.
Proof.
  assert (Hne : forall c l n r ys, hd NULL (post (T c l n r) ++ ys) = hd NULL (post (T c l n r))).
  { intros c' l' n' r' ys. simpl. destruct (post l'); [|done]. by destruct (post r'). }
  destruct l as [|lc ll ln lr]; [destruct r as [|rc rl rn rr]|]; [done|apply Hne|apply Hne].
Qed.

Lemma deepest_ok fuel m q t : agree (nodes m) (cells q t) -> Forall address (keys t) ->
  (length (keys t) <= fuel)%nat -> t <> E -> rb_left_deepest_node fuel m (ptr t) = Ok (hd NULL (post t)).
Proof.
  revert fuel q. induction t as [|c l IHl n r IHr]; intros fuel q Ha Hd Hf Ht; [done|]. cbn [keys cells ptr] in *. facts.
  rewrite length_cons, length_app in Hf. destruct fuel as [|fuel]; [lia|]. cbn [rb_left_deepest_node]. rewrite hd_post.
  erewrite child_ok by eassumption. cbn [res_bind child_of rb_left]. destruct l as [|lc ll ln lr].
  - cbn [ptr]. rewrite Z.eqb_refl. cbn [negb]. erewrite child_ok by eassumption. cbn [res_bind child_of rb_right].
    destruct r as [|rc rl rn rr]; [done|].
    assert (Hrn : address rn) by (cbn [keys] in *; by facts). cbn [ptr]. rewrite addr_ne by done. cbn [negb].
    apply (IHr _ n); [done|done|lia|done].
  - assert (Hln : address ln) by (cbn [keys] in *; by facts). cbn [ptr]. rewrite addr_ne by done. cbn [negb].
    apply (IHl _ n); [done|done|lia|done].
Qed.

Lemma next_post_ok m k c l n r : zip m k (T c l n r) -> rb_next_postorder m n = Ok (hd NULL (post_after k)).
Proof.
  intros HZ. assert (Hal : Z.land (up k) 3 = 0) by by eapply zip_al. unfold rb_next_postorder.
  destruct k as [|[d cp p s] k].
  - open_zip HZ. rewrite addr_ne by done. erewrite rb_parent_ok; [|eassumption|reflexivity|al]. done.
  - pose proof (zip_size _ _ _ HZ) as Hz. rewrite zip_down in HZ. cbn [plug1] in HZ. pose proof (zip_total _ _ _ HZ) as Ht.
    assert (L : nodes m !! n = Some (mk_node (Z.lor p (cz c)) (ptr r) (ptr l)) /\ address n /\ address p /\
      nodes m !! p = Some (frame_node (up k) d cp n s) /\ n <> ptr s /\ agree (nodes m) (cells p s) /\
      Forall address (keys s) /\ (length (keys s) <= size (nodes m))%nat).
    { destruct d; open_zip HZ; simpl in Ht; rewrite ?length_app in Ht; simpl in Ht;
        (do 4 (split; [done|]); split; [by apply ne_ptr|do 2 (split; [done|]); lia]). }
    destruct L as (Ln&Hn&Hp&Lp&Hne&Ha&Hd&Hl). rewrite addr_ne by done.
    erewrite rb_parent_ok; [|exact Ln|reflexivity|al]. cbn [res_bind]. rewrite addr_ne by done.
    do 2 (erewrite child_ok by exact Lp; cbn [res_bind]). rewrite !frame_child. destruct d.
    + rewrite decide_True, decide_False by done. rewrite Z.eqb_refl. cbn [andb]. destruct s as [|sc sl sn sr]; [done|].
      assert (Hsn : address sn) by (cbn [keys] in *; by facts). cbn [ptr]. rewrite addr_ne by done. cbn [negb].
      pose proof (deepest_ok (S (size (nodes m))) m p (T sc sl sn sr) Ha Hd ltac:(lia) ltac:(done)) as Hx.
      cbn [ptr] in Hx. rewrite Hx. simpl.
      destruct (post sl); [|done]. by destruct (post sr).
    + simpl. rewrite eqb_ne by done. done.
Qed.

(** post-order.  [rb_first_postorder] and [rb_next_postorder] visit the nodes in
    post-order: children before their parent, every node once. *)
Theorem rb_postorder_correct m t : holds_tree m t ->
  rb_first_postorder m = Ok (hd NULL (post t)) /\
  forall xs x ys, post t = xs ++ x :: ys -> rb_next_postorder m x = Ok (hd NULL ys).
Proof.
  intros Hm. split.
  - pose proof (zip_total _ _ _ Hm) as Hs. destruct Hm as [Hr Ha _ Hd]. simpl in *.
    rewrite app_nil_r in Ha, Hd. unfold rb_first_postorder. rewrite Hr. destruct t as [|c l n r]; [done|].
    assert (Hn : address n) by by inversion Hd. cbn [ptr]. rewrite addr_ne by done.
    apply (deepest_ok _ m NULL (T c l n r)); [done|done|lia|done].
  - intros xs x ys He. destruct (find_node t x) as (k&c&l&r&->); [rewrite <- post_perm, He; apply elem_mid|].
    pose proof (holds_nodup _ _ Hm) as Hn. rewrite <- post_perm, post_plug in Hn. rewrite post_plug in He. apply zip_plug in Hm.
    rewrite (next_post_ok _ _ _ _ _ _ Hm). simpl in He, Hn.
    rewrite !app_assoc, <- (app_assoc _ [x]) in He, Hn. simpl in He, Hn. by destruct (split_unique _ _ _ _ _ Hn He) as [_ <-].
Qed.

Lemma sample_holds free : free = [] \/ free = [32] -> holds_tree (mem_of sample free) sample.
Proof. intros [-> | ->]; concrete_tree. Qed.

Lemma rb_walk_correct_witness :
  rb_first (mem_of sample []) = Ok 8 /\ rb_last (mem_of sample []) = Ok 24 /\
  forall xs x ys, elements sample = xs ++ x :: ys ->
    rb_next (mem_of sample []) x = Ok (hd NULL ys) /\ rb_prev (mem_of sample []) x = Ok (List.last xs NULL).
Proof. apply (rb_walk_correct (mem_of sample []) sample). apply sample_holds. by left. Defined.

Lemma rb_replace_node_correct_witness :
  exists m' t', rb_replace_node (mem_of sample [32]) 16 32 = Ok m' /\ holds_tree m' t' /\ elements t' = [8; 32; 24] /\
    (rb_tree sample -> rb_tree t').
Proof.
  apply (rb_replace_node_correct (mem_of sample [32]) sample [8] 16 [24] 32 (mk_node 32 0 0));
    [apply sample_holds; by right|reflexivity|reflexivity|by repeat constructor|by apply (bool_decide_unpack _)].
Defined.

Lemma rb_postorder_correct_witness :
  rb_first_postorder (mem_of sample []) = Ok 8 /\
  forall xs x ys, post sample = xs ++ x :: ys -> rb_next_postorder (mem_of sample []) x = Ok (hd NULL ys).
Proof. apply (rb_postorder_correct (mem_of sample []) sample). apply sample_holds. by left. Defined.
