(* ===== verification/RbtreeFind.v ===== *)
(** * Search trees on red-black trees (include/linux/rbtree.h)

    The inline helpers that find a place by a comparison the caller passes.  The
    comparisons read the structures around the nodes, which no operation here changes:
    they are functions of the node addresses. *)

From stdpp Require Import gmap sorting.
From S2P Require Import Prelude Rbtree RbtreeTree RbtreeInsert RbtreeErase RbtreeUnlink RbtreeIter.
Local Open Scope Z_scope.
Local Open Scope res_scope.

(** [*link] *)
Definition deref (m : mem) (l : link) : res Z :=
  match l with RootLink => Ok (root m) | ChildLink p d => child m p d end.

Section less.
Variable less : Z -> Z -> bool.

(** The loop of [rb_add_cached]; [rb_add] is the same without the flag. *)
Fixpoint add_loop (fuel : nat) (m : mem) (node parent : Z) (l : link) (leftmost : bool) : res (Z * link * bool) :=
  match fuel with
  | O => Fault NoFuel
  | S fuel =>
    cur <-- deref m l;
    if cur =? NULL then Ok (parent, l, leftmost)
    else
      let parent := cur in
      if less node parent then add_loop fuel m node parent (ChildLink parent Lt) leftmost
      else add_loop fuel m node parent (ChildLink parent Rt) false
  end.

Definition rb_add_cached (m : mem) (leftmost_ node : Z) : res (mem * Z * Z) :=
  '(parent, l, leftmost) <-- add_loop (S (size (nodes m))) m node NULL RootLink true;
  m <-- rb_link_node m node parent l;
  '(m, leftmost_) <-- rb_insert_color_cached m leftmost_ node leftmost;
  Ok (m, leftmost_, if leftmost then node else NULL).

Definition rb_add (m : mem) (node : Z) : res mem :=
  '(parent, l, _) <-- add_loop (S (size (nodes m))) m node NULL RootLink true;
  m <-- rb_link_node m node parent l;
  rb_insert_color m node.
End less.

Section cmp.
Context {K : Type}.
Variable cmp : K -> Z -> Z.

Fixpoint find_add_loop (fuel : nat) (m : mem) (node : K) (parent : Z) (l : link) : res (Z + Z * link) :=
  match fuel with
  | O => Fault NoFuel
  | S fuel =>
    cur <-- deref m l;
    if cur =? NULL then Ok (inr (parent, l))
    else
      let parent := cur in
      let c := cmp node parent in
      if c <? 0 then find_add_loop fuel m node parent (ChildLink parent Lt)
      else if c >? 0 then find_add_loop fuel m node parent (ChildLink parent Rt)
      else Ok (inl parent)
  end.

Fixpoint find_loop (fuel : nat) (m : mem) (key : K) (node : Z) : res Z :=
  match fuel with
  | O => Fault NoFuel
  | S fuel =>
    if node =? NULL then Ok NULL
    else
      let c := cmp key node in
      if c <? 0 then node <-- child m node Lt; find_loop fuel m key node
      else if c >? 0 then node <-- child m node Rt; find_loop fuel m key node
      else Ok node
  end.

Definition rb_find (m : mem) (key : K) : res Z := find_loop (S (size (nodes m))) m key (root m).

Fixpoint find_first_loop (fuel : nat) (m : mem) (key : K) (node match_ : Z) : res Z :=
  match fuel with
  | O => Fault NoFuel
  | S fuel =>
    if node =? NULL then Ok match_
    else
      let c := cmp key node in
      if c <=? 0 then
        let match_ := if c =? 0 then node else match_ in
        node <-- child m node Lt; find_first_loop fuel m key node match_
      else node <-- child m node Rt; find_first_loop fuel m key node match_
  end.

Definition rb_find_first (m : mem) (key : K) : res Z := find_first_loop (S (size (nodes m))) m key (root m) NULL.

Definition rb_next_match (m : mem) (key : K) (node : Z) : res Z :=
  node <-- rb_next m node;
  Ok (if negb (node =? NULL) && negb (cmp key node =? 0) then NULL else node).

(** The nodes a [rb_for_each] loop visits. *)
Fixpoint for_each_loop (fuel : nat) (m : mem) (key : K) (node : Z) : res (list Z) :=
  match fuel with
  | O => Fault NoFuel
  | S fuel =>
    if node =? NULL then Ok []
    else
      next <-- rb_next_match m key node;
      rest <-- for_each_loop fuel m key next;
      Ok (node :: rest)
  end.
Definition rb_for_each (m : mem) (key : K) : res (list Z) :=
  node <-- rb_find_first m key; for_each_loop (S (size (nodes m))) m key node.
End cmp.

Definition rb_find_add (cmp : Z -> Z -> Z) (m : mem) (node : Z) : res (mem * Z) :=
  r <-- find_add_loop cmp (S (size (nodes m))) m node NULL RootLink;
  match r with
  | inl found => Ok (m, found)
  | inr (parent, l) =>
    m <-- rb_link_node m node parent l;
    m <-- rb_insert_color m node;
    Ok (m, NULL)
  end.

(** ** Adding at the place an order gives *)

(** What the code needs of a comparison on the nodes in [dom]: it is a strict weak order
    there.  Comparisons of wrapping counters are orders only on such a domain. *)
Class NodeOrder (less : Z -> Z -> bool) (dom : Z -> Prop) : Prop := {
  less_asym a b : dom a -> dom b -> less a b = true -> less b a = false;
  le_trans a b c : dom a -> dom b -> dom c -> less b a = false -> less c b = false -> less c a = false }.

(** In order: nothing is less than something before it. *)
Definition in_order (less : Z -> Z -> bool) : list Z -> Prop := StronglySorted (fun a b => less b a = false).

Definition nil_list {A} (l : list A) : bool := match l with [] => true | _ => false end.

Lemma sorted_mid {A} (R : relation A) l1 x l2 : StronglySorted R (l1 ++ x :: l2) ->
  Forall (fun a => R a x) l1 /\ Forall (R x) l2 /\ StronglySorted R l1 /\ StronglySorted R l2.
Proof.
  intros H. apply StronglySorted_app in H as (H1&H2&H3). apply StronglySorted_inv in H3 as [H3 H4].
  split; [|done]. apply Forall_forall. intros a Ha. apply H1; [done|apply list_elem_of_here].
Qed.

Lemma deref_ok m k t : zip m k t -> deref m (link_of k) = Ok (ptr t).
Proof.
  intros HZ. destruct k as [|[d c p s] k]; [destruct HZ as [H _ _ _]; simpl in *; by rewrite H|]. destruct HZ as [_ Ha _ _]. simpl in *.
  apply agree_app in Ha as [_ Ha]. apply agree_cons in Ha as [Ha _]. rewrite (child_ok _ _ _ _ Ha).
  by destruct d.
Qed.

Lemma zip_ptr m k c l n r : zip m k (T c l n r) -> (n =? NULL) = false.
Proof. intros [_ _ _ Hd]. simpl in Hd. apply Forall_cons in Hd as [Hd _]. by apply addr_ne. Qed.

Lemma zip_elem_ne m t x : holds_tree m t -> x ∈ elements t -> (x =? NULL) = false.
Proof.
  intros [_ _ _ Hd] Hx. rewrite (zip_keys [] t) in Hd. simpl in Hd. eapply Forall_forall in Hd; [|exact Hx]. by apply addr_ne.
Qed.

Lemma add_loop_ok less fuel m x k t lm : zip m k t -> (length (keys t) < fuel)%nat ->
  StronglySorted (fun a b => less x a = true -> less x b = true) (elements t) ->
  exists k' xs ys, add_loop less fuel m x (up k) (link_of k) lm = Ok (up k', link_of k', lm && nil_list xs) /\
    zip m k' E /\ plug k' E = plug k t /\ elements t = xs ++ ys /\
    Forall (fun a => less x a = false) xs /\ Forall (fun b => less x b = true) ys /\
    before k' = before k ++ xs /\ after k' = ys ++ after k.
Proof.
  revert fuel k lm. induction t as [|c l IHl n r IHr]; intros fuel k lm HZ Hf HS; (destruct fuel as [|fuel]; [lia|]);
    cbn [add_loop]; rewrite (deref_ok _ _ _ HZ); cbn [res_bind ptr].
  - exists k, [], []. rewrite andb_true_r, !app_nil_r. done.
  - rewrite (zip_ptr _ _ _ _ _ _ HZ). simpl in HS, Hf. rewrite length_app in Hf. apply sorted_mid in HS as (S1&S2&S3&S4).
    destruct (less x n) eqn:En.
    + destruct (IHl fuel (F Lt c n r :: k) lm) as (k'&xs&ys&E1&Z1&P1&E2&F1&F2&B1&A1); [by rewrite zip_down|lia|done|].
      exists k', xs, (ys ++ n :: elements r). split; [exact E1|]. split; [done|]. split; [done|]. simpl in *.
      rewrite E2, A1, <- !app_assoc. split; [done|]. split; [done|]. split; [|done].
      apply Forall_app. split; [done|]. apply List.Forall_cons; [done|]. eapply Forall_impl; [exact S2|]. simpl. auto.
    + destruct (IHr fuel (F Rt c n l :: k) false) as (k'&xs&ys&E1&Z1&P1&E2&F1&F2&B1&A1); [by rewrite zip_down|lia|done|].
      exists k', (elements l ++ n :: xs), ys. split; [destruct (elements l); simpl nil_list; rewrite andb_false_r; exact E1|].
      split; [done|]. split; [done|]. simpl in *. rewrite E2, B1, <- !app_assoc. split; [done|].
      split; [|split; [done|done]].
      apply Forall_app. split; [|by apply List.Forall_cons]. eapply Forall_impl; [exact S1|]. simpl. intros a Ha.
      destruct (less x a); [|done]. by specialize (Ha eq_refl).
Qed.

(** The place of a new node in an ordered sequence. *)
Lemma order_cut less dom `{!NodeOrder less dom} x l : dom x -> Forall dom l -> in_order less l ->
  StronglySorted (fun a b => less x a = true -> less x b = true) l.
Proof.
  intros Hx Hl. induction 1 as [|a l HS IH Ha]; [constructor|]. apply Forall_cons in Hl as [Hda Hl]. constructor; [auto|].
  apply Forall_forall. intros b Hb H1. eapply Forall_forall in Ha; [|exact Hb]. eapply Forall_forall in Hl; [|exact Hb].
  destruct (less x b) eqn:E1; [done|]. by rewrite (le_trans a b x) in H1.
Qed.

Lemma order_insert less dom `{!NodeOrder less dom} x xs ys : dom x -> Forall dom (xs ++ ys) -> in_order less (xs ++ ys) ->
  Forall (fun a => less x a = false) xs -> Forall (fun b => less x b = true) ys -> in_order less (xs ++ x :: ys).
Proof.
  intros Hx Hd HS H1 H2. unfold in_order in *. apply StronglySorted_app in HS as (S1&S2&S3). apply Forall_app in Hd as [D1 D2].
  apply StronglySorted_app_2; [|done|].
  - intros a b Ha Hb. apply elem_of_cons in Hb as [-> |Hb]; [by eapply Forall_forall in H1|auto].
  - constructor; [done|]. apply Forall_forall. intros b Hb. eapply Forall_forall in H2; [|exact Hb].
    eapply Forall_forall in D2; [|exact Hb]. eapply less_asym; eauto.
Qed.

Lemma add_ok less m x v t : holds_tree m t -> rb_tree t -> nodes m !! x = Some v -> address x -> x ∉ elements t ->
  StronglySorted (fun a b => less x a = true -> less x b = true) (elements t) ->
  exists k xs ys m1 m2 t', add_loop less (S (size (nodes m))) m x NULL RootLink true = Ok (up k, link_of k, nil_list xs) /\
    rb_link_node m x (up k) (link_of k) = Ok m1 /\ rb_insert_color m1 x = Ok m2 /\ holds_tree m2 t' /\ rb_tree t' /\
    elements t = xs ++ ys /\ elements t' = xs ++ x :: ys /\
    Forall (fun a => less x a = false) xs /\ Forall (fun b => less x b = true) ys.
Proof.
  intros Hm Hrb Hv Ha Hx HS.
  destruct (add_loop_ok less (S (size (nodes m))) m x [] t true Hm) as (k&xs&ys&E1&Z1&P1&E2&F1&F2&B1&A1).
  { pose proof (zip_total _ _ _ Hm). lia. } { done. }
  simpl in P1, B1, A1. rewrite app_nil_r in A1. rewrite <- P1 in Hrb, Hx.
  destruct (rb_insert_ok m k x v (proj1 (zip_plug _ _ _) Z1) Hrb Hv Ha Hx) as (m1&m2&t'&E3&E4&H4&H5&H6).
  exists k, xs, ys, m1, m2, t'. rewrite H6, B1, A1. done.
Qed.

(** Erasing from a cached tree keeps the cache right. *)
Lemma rb_erase_cached_ok m t xs x ys : holds_tree m t -> rb_tree t -> elements t = xs ++ x :: ys ->
  exists m' t', rb_erase_cached m (hd NULL (elements t)) x =
      Ok (m', hd NULL (elements t'), if nil_list xs then hd NULL ys else NULL) /\
    holds_tree m' t' /\ rb_tree t' /\ elements t' = xs ++ ys.
Proof.
  intros Hm Hrb He. destruct (rb_erase_list m t xs x ys Hm Hrb He) as (m'&t'&E1&H1&H2&H3). exists m', t'.
  split; [|done]. unfold rb_erase_cached. rewrite H3, He. destruct xs as [|a xs]; simpl.
  - rewrite Z.eqb_refl. destruct (neighbours_ok _ _ _ _ _ Hm He) as [-> _]. cbn [res_bind]. by rewrite E1.
  - assert (Ha : a <> x).
    { pose proof (holds_nodup _ _ Hm) as Hn. rewrite He in Hn. simpl in Hn. apply NoDup_cons in Hn as [Hn _].
      intros ->. apply Hn, elem_mid. }
    rewrite eqb_ne by done. cbn [res_bind]. by rewrite E1.
Qed.

(** adding in order.  In a memory that holds a red-black tree in order, with the cached
    leftmost node being its first, [rb_add_cached] of a new node puts it after every node
    it is not less than and before every node it is less than (so after its equals), keeps
    the tree red-black and in order and the cache right, and returns the node exactly when
    it became the first. *)
Theorem rb_add_cached_correct less dom `{!NodeOrder less dom} m t x v :
  holds_tree m t -> rb_tree t -> in_order less (elements t) -> Forall dom (elements t) -> dom x ->
  nodes m !! x = Some v -> address x -> x ∉ elements t ->
  exists m' t' xs ys,
    rb_add_cached less m (hd NULL (elements t)) x = Ok (m', hd NULL (elements t'), if nil_list xs then x else NULL) /\
    holds_tree m' t' /\ rb_tree t' /\ in_order less (elements t') /\
    elements t = xs ++ ys /\ elements t' = xs ++ x :: ys /\
    Forall (fun a => less x a = false) xs /\ Forall (fun b => less x b = true) ys.
Proof.
  intros Hm Hrb Ho Hd Hx Hv Ha Hn.
  destruct (add_ok less m x v t Hm Hrb Hv Ha Hn (order_cut less dom x _ Hx Hd Ho))
    as (k&xs&ys&m1&m2&t'&E1&E2&E3&H1&H2&E4&E5&F1&F2).
  exists m2, t', xs, ys. split.
  - unfold rb_add_cached, rb_insert_color_cached. rewrite E1. cbn [res_bind]. rewrite E2. cbn [res_bind]. rewrite E3. cbn [res_bind].
    rewrite E4, E5. by destruct xs.
  - do 2 (split; [done|]). rewrite E5. split; [|done]. rewrite E4 in Ho, Hd. by eapply order_insert.
Qed.

(** ** Finding by a key *)

Section find.
Context {K : Type} (cmp : K -> Z -> Z).

(** The nodes are in the order of the comparison with [key]: first those the key is greater
    than, then its matches, then those it is less than. *)
Definition by_sign (key : K) : list Z -> Prop :=
  StronglySorted (fun a b => Z.sgn (cmp key b) <= Z.sgn (cmp key a)).

Definition matches (key : K) (l : list Z) : list Z := filter (fun a => cmp key a = 0) l.

Lemma no_match key l : Forall (fun a => cmp key a <> 0) l -> matches key l = [].
Proof.
  induction 1 as [|a l Ha _ IH]; [done|]. unfold matches in *. by rewrite filter_cons_False.
Qed.

Lemma sign_after key n l : cmp key n < 0 -> Forall (fun b => Z.sgn (cmp key b) <= Z.sgn (cmp key n)) l ->
  Forall (fun b => cmp key b <> 0) l.
Proof. intros Hn H. eapply Forall_impl; [exact H|]. simpl. intros b Hb. lia. Qed.

Lemma sign_before key n l : cmp key n > 0 -> Forall (fun a => Z.sgn (cmp key n) <= Z.sgn (cmp key a)) l ->
  Forall (fun b => cmp key b <> 0) l.
Proof. intros Hn H. eapply Forall_impl; [exact H|]. simpl. intros b Hb. lia. Qed.

(** The result of a search for any match. *)
Definition found (key : K) (l : list Z) (e : Z) : Prop :=
  e = NULL /\ matches key l = [] \/ e ∈ matches key l.

Lemma found_app key l1 l2 e : (found key l1 e /\ matches key l2 = [] \/ found key l2 e /\ matches key l1 = []) ->
  found key (l1 ++ l2) e.
Proof.
  unfold found, matches. rewrite filter_app. intros [[H E0]|[H E0]]; rewrite E0, ?app_nil_r, ?app_nil_l; done.
Qed.

Lemma rb_find_loop_ok fuel m key q t : agree (nodes m) (cells q t) -> Forall address (keys t) ->
  (length (keys t) < fuel)%nat -> by_sign key (elements t) ->
  exists e, find_loop cmp fuel m key (ptr t) = Ok e /\ found key (elements t) e.
Proof.
  revert fuel q. induction t as [|c l IHl n r IHr]; intros fuel q Ha Hd Hf HS; (destruct fuel as [|fuel]; [lia|]).
  { exists NULL. split; [done|]. by left. }
  cbn [keys cells ptr elements find_loop] in *. facts. rewrite length_cons, length_app in Hf. rewrite addr_ne by done.
  apply sorted_mid in HS as (S1&S2&S3&S4).
  destruct (Z.ltb_spec (cmp key n) 0) as [Hc|Hc]; [|rewrite Z.gtb_ltb; destruct (Z.ltb_spec 0 (cmp key n)) as [Hc'|Hc']].
  - erewrite child_ok by eassumption. cbn [res_bind child_of rb_left].
    destruct (IHl fuel n) as (e&E1&F1); [done|done|lia|done|]. exists e. split; [done|]. apply found_app. left. split; [done|].
    apply no_match. apply List.Forall_cons; [lia|by eapply sign_after].
  - erewrite child_ok by eassumption. cbn [res_bind child_of rb_right].
    destruct (IHr fuel n) as (e&E1&F1); [done|done|lia|done|]. exists e. split; [done|].
    replace (elements l ++ n :: elements r) with ((elements l ++ [n]) ++ elements r) by by rewrite <- app_assoc.
    apply found_app. right. split; [done|]. apply no_match, Forall_app. split; [eapply sign_before; [|done]; lia|].
    apply List.Forall_cons; [lia|constructor].
  - exists n. split; [done|]. right. apply list_elem_of_filter. split; [lia|apply elem_mid].
Qed.

Lemma find_first_loop_ok fuel m key q t match_ : agree (nodes m) (cells q t) -> Forall address (keys t) ->
  (length (keys t) < fuel)%nat -> by_sign key (elements t) ->
  find_first_loop cmp fuel m key (ptr t) match_ = Ok (hd match_ (matches key (elements t))).
Proof.
  revert fuel q match_. induction t as [|c l IHl n r IHr]; intros fuel q match_ Ha Hd Hf HS; (destruct fuel as [|fuel]; [lia|]).
  { done. }
  cbn [keys cells ptr elements find_first_loop] in *. facts. rewrite length_cons, length_app in Hf. rewrite addr_ne by done.
  apply sorted_mid in HS as (S1&S2&S3&S4). unfold matches in *. rewrite filter_app.
  destruct (Z.leb_spec (cmp key n) 0) as [Hc|Hc].
  - erewrite child_ok by eassumption. cbn [res_bind child_of rb_left]. rewrite (IHl fuel n) by (done || lia). f_equal.
    destruct (Z.eqb_spec (cmp key n) 0) as [Hz|Hz].
    + rewrite filter_cons_True by done. by destruct (filter _ (elements l)).
    + rewrite filter_cons_False by done. fold (matches key (elements r)). rewrite no_match by (eapply sign_after; [|done]; lia).
      by rewrite app_nil_r.
  - erewrite child_ok by eassumption. cbn [res_bind child_of rb_right]. rewrite (IHr fuel n) by (done || lia). f_equal.
    rewrite filter_cons_False by lia. fold (matches key (elements l)). by rewrite no_match by (eapply sign_before; [|done]; lia).
Qed.

Lemma rb_for_each_loop_ok fuel m t key xs x ys : holds_tree m t -> elements t = xs ++ x :: ys -> by_sign key (x :: ys) ->
  cmp key x = 0 -> (S (length ys) < fuel)%nat ->
  for_each_loop cmp fuel m key x = Ok (x :: matches key ys).
Proof.
  revert fuel xs x. induction ys as [|y ys IH]; intros fuel xs x Hm He HS Hx Hf; (destruct fuel as [|fuel]; [lia|]);
    cbn [for_each_loop]; unfold rb_next_match; destruct (neighbours_ok _ _ _ _ _ Hm He) as [-> _]; cbn [res_bind hd].
  - rewrite (zip_elem_ne m t x) by (try done; rewrite He; apply elem_mid). rewrite Z.eqb_refl. simpl. by destruct fuel as [|fuel]; [simpl in Hf; lia|].
  - rewrite (zip_elem_ne m t x) by (try done; rewrite He; apply elem_mid).
    rewrite (zip_elem_ne m t y) by (try done; rewrite He; apply elem_of_app; right; do 2 constructor). cbn [negb andb].
    apply StronglySorted_inv in HS as [HS Hxy]. apply Forall_cons in Hxy as [Hxy _]. destruct (Z.eqb_spec (cmp key y) 0) as [Hy|Hy]; cbn [negb].
    + rewrite (IH fuel (xs ++ [x]) y); [|done|by rewrite <- app_assoc|done|done|simpl in Hf; lia]. unfold matches.
      by rewrite filter_cons_True by done.
    + destruct fuel as [|fuel]; [simpl in Hf; lia|]. cbn [for_each_loop]. rewrite Z.eqb_refl. simpl.
      f_equal. f_equal. symmetry. apply no_match. apply StronglySorted_inv in HS as [_ HS].
      apply List.Forall_cons; [done|]. eapply sign_after; [|exact HS]. rewrite Hx in Hxy. lia.
Qed.

Lemma sorted_suffix {A} (R : relation A) l1 l2 : StronglySorted R (l1 ++ l2) -> StronglySorted R l2.
Proof. apply StronglySorted_app_1_r. Qed.

(** The matches are one stretch of the sequence. *)
Lemma first_match key l e es : matches key l = e :: es -> exists l1 l2, l = l1 ++ e :: l2 /\ cmp key e = 0 /\ matches key l2 = es.
Proof.
  induction l as [|a l IH]; [done|]. unfold matches in *. destruct (decide (cmp key a = 0)) as [Ha|Ha].
  - rewrite filter_cons_True by done. intros [= -> <-]. by exists [], l.
  - rewrite filter_cons_False by done. intros H. destruct (IH H) as (l1&l2&->&H1&H2). by exists (a :: l1), l2.
Qed.

Lemma holds_cells m t : holds_tree m t ->
  root m = ptr t /\ agree (nodes m) (cells NULL t) /\ Forall address (keys t) /\ (length (keys t) < S (size (nodes m)))%nat.
Proof.
  intros HZ. pose proof (zip_total _ _ _ HZ). destruct HZ as [Hr Ha _ Hd]. simpl in *. rewrite app_nil_r in Ha, Hd. repeat split; auto; lia.
Qed.

(** finding.  In a tree ordered by a comparison with a key, [rb_find] returns a match or,
    when there is none, NULL; [rb_find_first] returns the first match; and the
    [rb_for_each] loop ends and visits exactly the matches, in order. *)
Theorem rb_find_correct m t key : holds_tree m t -> by_sign key (elements t) ->
  (exists e, rb_find cmp m key = Ok e /\ found key (elements t) e) /\
  rb_find_first cmp m key = Ok (hd NULL (matches key (elements t))) /\
  rb_for_each cmp m key = Ok (matches key (elements t)).
Proof.
  intros Hm HS. destruct (holds_cells _ _ Hm) as (Hr&Ha&Hd&Hl).
  assert (E1 : rb_find_first cmp m key = Ok (hd NULL (matches key (elements t)))).
  { unfold rb_find_first. rewrite Hr. by apply (find_first_loop_ok _ m key NULL). }
  split; [unfold rb_find; rewrite Hr; by apply (rb_find_loop_ok _ m key NULL)|]. split; [done|].
  unfold rb_for_each. rewrite E1. cbn [res_bind]. destruct (matches key (elements t)) as [|e es] eqn:Em; [done|].
  destruct (first_match _ _ _ _ Em) as (l1&l2&El&He&<-). cbn [hd]. rewrite El in HS. apply sorted_suffix in HS.
  apply (rb_for_each_loop_ok _ m t key l1); [done..|].
  apply (f_equal length) in El. rewrite length_app in El. simpl in El.
  rewrite (Permutation_length (keys_elements t)) in Hl. lia.
Qed.
End find.

(** ** Finding or adding *)

Lemma find_add_loop_ok (cmp : Z -> Z -> Z) fuel m x k t : zip m k t -> (length (keys t) < fuel)%nat -> by_sign cmp x (elements t) ->
  (exists e, find_add_loop cmp fuel m x (up k) (link_of k) = Ok (inl e) /\ e ∈ matches cmp x (elements t)) \/
  exists k' xs ys, find_add_loop cmp fuel m x (up k) (link_of k) = Ok (inr (up k', link_of k')) /\
    zip m k' E /\ plug k' E = plug k t /\ elements t = xs ++ ys /\
    Forall (fun a => cmp x a > 0) xs /\ Forall (fun b => cmp x b < 0) ys /\
    before k' = before k ++ xs /\ after k' = ys ++ after k.
Proof.
  revert fuel k. induction t as [|c l IHl n r IHr]; intros fuel k HZ Hf HS; (destruct fuel as [|fuel]; [lia|]);
    cbn [find_add_loop]; rewrite (deref_ok _ _ _ HZ); cbn [res_bind ptr].
  - right. exists k, [], []. rewrite !app_nil_r. done.
  - rewrite (zip_ptr _ _ _ _ _ _ HZ). simpl in HS, Hf. rewrite length_app in Hf. apply sorted_mid in HS as (S1&S2&S3&S4).
    unfold matches in *. simpl. rewrite filter_app, Z.gtb_ltb.
    destruct (Z.ltb_spec (cmp x n) 0) as [Hc|Hc]; [|destruct (Z.ltb_spec 0 (cmp x n)) as [Hc'|Hc']].
    + destruct (IHl fuel (F Lt c n r :: k)) as [(e&E1&He)|(k'&xs&ys&E1&Z1&P1&E2&F1&F2&B1&A1)]; [by rewrite zip_down|lia|done|..].
      { left. exists e. split; [exact E1|]. apply elem_of_app. by left. }
      right. exists k', xs, (ys ++ n :: elements r). split; [exact E1|]. split; [done|]. split; [done|]. simpl in *.
      rewrite E2, A1, <- !app_assoc. split; [done|]. split; [done|]. split; [|done].
      apply Forall_app. split; [done|]. apply List.Forall_cons; [done|]. eapply Forall_impl; [exact S2|]. simpl. lia.
    + destruct (IHr fuel (F Rt c n l :: k)) as [(e&E1&He)|(k'&xs&ys&E1&Z1&P1&E2&F1&F2&B1&A1)]; [by rewrite zip_down|lia|done|..].
      { left. exists e. split; [exact E1|]. apply elem_of_app. right. rewrite filter_cons_False by lia. done. }
      right. exists k', (elements l ++ n :: xs), ys. split; [exact E1|].
      split; [done|]. split; [done|]. simpl in *. rewrite E2, B1, <- !app_assoc. split; [done|].
      split; [|split; [done|done]].
      apply Forall_app. split; [|apply List.Forall_cons; [lia|done]]. eapply Forall_impl; [exact S1|]. simpl. lia.
    + left. exists n. split; [done|]. apply elem_of_app. right. rewrite filter_cons_True by lia. apply list_elem_of_here.
Qed.

(** finding or adding.  In a tree ordered by a comparison with a new node,
    [rb_find_add] either returns a node that compares equal and changes nothing, or puts
    the new node between the nodes it is greater and those it is less than, keeps the
    tree red-black and returns NULL. *)
Theorem rb_find_add_correct (cmp : Z -> Z -> Z) m t x v : holds_tree m t -> rb_tree t -> by_sign cmp x (elements t) ->
  nodes m !! x = Some v -> address x -> x ∉ elements t ->
  (exists e, rb_find_add cmp m x = Ok (m, e) /\ e ∈ elements t /\ cmp x e = 0) \/
  exists m' t' xs ys, rb_find_add cmp m x = Ok (m', NULL) /\ holds_tree m' t' /\ rb_tree t' /\
    elements t = xs ++ ys /\ elements t' = xs ++ x :: ys /\
    Forall (fun a => cmp x a > 0) xs /\ Forall (fun b => cmp x b < 0) ys.
Proof.
  intros Hm Hrb HS Hv Ha Hx. unfold rb_find_add.
  destruct (find_add_loop_ok cmp (S (size (nodes m))) m x [] t Hm) as [(e&E1&He)|(k&xs&ys&E1&Z1&P1&E2&F1&F2&B1&A1)].
  { pose proof (zip_total _ _ _ Hm). lia. } { done. }
  - left. exists e. cbn [up link_of] in E1. rewrite E1. apply list_elem_of_filter in He as [H1 H2]. done.
  - right. cbn [up link_of] in E1. simpl in P1, B1, A1. rewrite app_nil_r in A1. rewrite <- P1 in Hrb, Hx. rewrite E1. cbn [res_bind].
    destruct (rb_insert_ok m k x v (proj1 (zip_plug _ _ _) Z1) Hrb Hv Ha Hx) as (m1&m2&t'&E3&E4&H4&H5&H6).
    exists m2, t', xs, ys. rewrite E3. cbn [res_bind]. rewrite E4, H6, B1, A1. done.
Qed.

(** ** Concrete searches, by address *)

#[export] Instance ltb_order : NodeOrder Z.ltb (fun _ => True).
Proof. split; intros; rewrite ?Z.ltb_ge, ?Z.ltb_lt in *; lia. Qed.

Ltac concrete_sorted := repeat constructor; simpl; lia.

Lemma rb_add_cached_correct_witness :
  exists m' t' xs ys,
    rb_add_cached Z.ltb (mem_of sample [32]) 8 32 = Ok (m', hd NULL (elements t'), if nil_list xs then 32 else NULL) /\
    holds_tree m' t' /\ rb_tree t' /\ in_order Z.ltb (elements t') /\
    [8; 16; 24] = xs ++ ys /\ elements t' = xs ++ 32 :: ys /\
    Forall (fun a => Z.ltb 32 a = false) xs /\ Forall (fun b => Z.ltb 32 b = true) ys.
Proof.
  apply (rb_add_cached_correct Z.ltb (fun _ => True) (mem_of sample [32]) sample 32 (mk_node 32 0 0));
    [apply sample_holds; by right|exact sample_rb|repeat constructor|repeat constructor|done|reflexivity|by repeat constructor
    |by apply (bool_decide_unpack _)].
Defined.

Lemma rb_find_correct_witness :
  (exists e, rb_find Z.sub (mem_of sample []) 16 = Ok e /\ found Z.sub 16 [8; 16; 24] e) /\
  rb_find_first Z.sub (mem_of sample []) 16 = Ok 16 /\ rb_for_each Z.sub (mem_of sample []) 16 = Ok [16].
Proof. apply (rb_find_correct Z.sub (mem_of sample []) sample 16); [apply sample_holds; by left|concrete_sorted]. Defined.

Lemma rb_find_add_correct_witness :
  (exists e, rb_find_add Z.sub (mem_of sample [32]) 32 = Ok (mem_of sample [32], e) /\ e ∈ [8; 16; 24] /\ 32 - e = 0) \/
  exists m' t' xs ys, rb_find_add Z.sub (mem_of sample [32]) 32 = Ok (m', NULL) /\ holds_tree m' t' /\ rb_tree t' /\
    [8; 16; 24] = xs ++ ys /\ elements t' = xs ++ 32 :: ys /\
    Forall (fun a => 32 - a > 0) xs /\ Forall (fun b => 32 - b < 0) ys.
Proof.
  apply (rb_find_add_correct Z.sub (mem_of sample [32]) sample 32 (mk_node 32 0 0));
    [apply sample_holds; by right|exact sample_rb|concrete_sorted|reflexivity|by repeat constructor|by apply (bool_decide_unpack _)].
Defined.
