(* ===== verification/RbtreeFrame.v ===== *)
(** * No operation on red-black trees allocates or frees a node *)

From stdpp Require Import gmap.
From S2P Require Import Prelude Rbtree RbtreeFind.
Local Open Scope Z_scope.
Local Open Scope res_scope.

(** A result, seen through [f], whose memory has the nodes of [m]. *)
Definition keeps {A} (f : A -> mem) (m : mem) (r : res A) : Prop :=
  forall a, r = Ok a -> dom (nodes (f a)) = dom (nodes m).

Lemma keeps_ok {A} (f : A -> mem) m a : dom (nodes (f a)) = dom (nodes m) -> keeps f m (Ok a).
Proof. by intros H b [= <-]. Qed.
Lemma keeps_fault {A} (f : A -> mem) m e : keeps f m (Fault e).
Proof. by intros b [=]. Qed.

(** A step that changes the memory, and one that only reads it. *)
Lemma keeps_write {A B} (f : A -> mem) (g : B -> mem) m (r : res A) (k : A -> res B) :
  keeps f m r -> (forall a, dom (nodes (f a)) = dom (nodes m) -> keeps g (f a) (k a)) -> keeps g m (res_bind r k).
Proof.
  intros H1 H2. destruct r as [a|e]; simpl; [|apply keeps_fault]. intros b Hb. rewrite (H2 a (H1 _ eq_refl) _ Hb). by apply H1.
Qed.
Lemma keeps_read {A B} (g : B -> mem) m (r : res A) (k : A -> res B) : (forall a, keeps g m (k a)) -> keeps g m (res_bind r k).
Proof. intros H. destruct r as [a|e]; simpl; [apply H|apply keeps_fault]. Qed.

Lemma keeps_trans {A} (f : A -> mem) m m' r : dom (nodes m') = dom (nodes m) -> keeps f m' r -> keeps f m r.
Proof. intros E H a Ha. rewrite <- E. by apply H. Qed.

Abbreviation kept := (keeps (fun m : mem => m)).
Create HintDb kept discriminated.

Lemma put_kept m p v w : nodes m !! p = Some w -> dom (nodes (put_node m p v)) = dom (nodes m).
Proof. intros H. simpl. apply dom_insert_lookup_L. by exists w. Qed.

Lemma set_child_kept m p d q : kept m (set_child m p d q).
Proof.
  unfold set_child, node_at. destruct (nodes m !! p) eqn:E; [|apply keeps_fault]. apply keeps_ok. by eapply put_kept.
Qed.
Lemma set_word_kept m p w : kept m (set_parent_color_word m p w).
Proof.
  unfold set_parent_color_word, node_at. destruct (nodes m !! p) eqn:E; [|apply keeps_fault]. apply keeps_ok. by eapply put_kept.
Qed.
#[export] Hint Resolve set_child_kept set_word_kept : kept.

(** [keep] follows a computation; the operations it meets are in the hint database. *)
Ltac keep :=
  repeat first
    [ progress (auto with kept nocore)
    | apply keeps_fault
    | apply keeps_ok; done
    | match goal with
      | |- keeps _ _ (if ?b then _ else _) => destruct b
      | |- keeps _ _ (match ?l with RootLink => _ | _ => _ end) => destruct l
      | |- keeps _ ?m (res_bind ?r ?k) =>
          first
            [ match type of r with
              | res mem => apply (keeps_write (fun m => m)); [solve [keep]|intros ? ?]
              | res (mem * Z) => apply (keeps_write fst); [solve [keep]|intros [? ?] ?; cbn [fst] in *]
              | res (mem * Z * Z) => apply (keeps_write (fun x => x.1.1)); [solve [keep]|intros [[? ?] ?] ?; cbn [fst] in *]
              | res (mem * Z * Z * Z) => apply (keeps_write (fun x => x.1.1.1)); [solve [keep]|intros [[[? ?] ?] ?] ?; cbn [fst] in *]
              end
            | apply keeps_read; intros ?; repeat match goal with x : _ * _ |- _ => destruct x end ]
      end ].

Lemma rb_set_parent_kept m p q : kept m (rb_set_parent m p q).
Proof. unfold rb_set_parent. keep. Qed.
Lemma rb_set_parent_color_kept m p q c : kept m (rb_set_parent_color m p q c).
Proof. unfold rb_set_parent_color. keep. Qed.
Lemma rb_set_black_kept m p : kept m (rb_set_black m p).
Proof. unfold rb_set_black. keep. Qed.
#[export] Hint Resolve rb_set_parent_kept rb_set_parent_color_kept rb_set_black_kept : kept.

Lemma change_child_kept m o n p : kept m (__rb_change_child m o n p).
Proof. unfold __rb_change_child. keep. Qed.
#[export] Hint Resolve change_child_kept : kept.

Lemma rotate_set_parents_kept m o n c : kept m (__rb_rotate_set_parents m o n c).
Proof. unfold __rb_rotate_set_parents. keep. Qed.
Lemma rb_link_node_kept m n p l : kept m (rb_link_node m n p l).
Proof. unfold rb_link_node. keep. Qed.
Lemma if_ptr_kept m p op : (forall m, kept m (op m)) -> kept m (if_ptr m p op).
Proof. intros H. unfold if_ptr. keep. Qed.
Lemma dummy_rotate_kept o n m : kept m (dummy_rotate o n m).
Proof. by apply keeps_ok. Qed.
#[export] Hint Resolve rotate_set_parents_kept rb_link_node_kept if_ptr_kept dummy_rotate_kept : kept.

Lemma insert_rotate_kept m d n p g : kept m (insert_rotate dummy_rotate m d n p g).
Proof. unfold insert_rotate. keep. Qed.
#[export] Hint Resolve insert_rotate_kept : kept.

Lemma insert_loop_kept fuel m n p : kept m (insert_loop dummy_rotate fuel m n p).
Proof. revert m n p. induction fuel as [|fuel IH]; intros m n p; cbn [insert_loop]; keep. Qed.
#[export] Hint Resolve insert_loop_kept : kept.

Lemma rb_insert_color_kept m n : kept m (rb_insert_color m n).
Proof. unfold rb_insert_color, __rb_insert. keep. Qed.
#[export] Hint Resolve rb_insert_color_kept : kept.

(** ** Erasing *)

Lemma dummy_callbacks_kept a b m :
  kept m (rotate dummy_callbacks a b m) /\ kept m (copy dummy_callbacks a b m) /\ kept m (propagate dummy_callbacks a b m).
Proof. repeat split; by apply keeps_ok. Qed.
Lemma rotate_kept a b m : kept m (rotate dummy_callbacks a b m).
Proof. apply dummy_callbacks_kept. Qed.
Lemma copy_kept a b m : kept m (copy dummy_callbacks a b m).
Proof. apply dummy_callbacks_kept. Qed.
Lemma propagate_kept a b m : kept m (propagate dummy_callbacks a b m).
Proof. apply dummy_callbacks_kept. Qed.
#[export] Hint Resolve rotate_kept copy_kept propagate_kept : kept.

Lemma erase_case1_kept m d p s : keeps fst m (erase_case1 dummy_callbacks m d p s).
Proof. unfold erase_case1. keep. Qed.
Lemma erase_case3_kept m d p s t : keeps (fun x => x.1.1) m (erase_case3 dummy_callbacks m d p s t).
Proof. unfold erase_case3. keep. Qed.
Lemma erase_case4_kept m d p s t : kept m (erase_case4 dummy_callbacks m d p s t).
Proof. unfold erase_case4. keep. Qed.
#[export] Hint Resolve erase_case1_kept erase_case3_kept erase_case4_kept : kept.

Lemma erase_sibling_kept again m d p s : (forall m n p, kept m (again m n p)) -> kept m (erase_sibling dummy_callbacks again m d p s).
Proof. intros H. unfold erase_sibling. keep. Qed.
#[export] Hint Resolve erase_sibling_kept : kept.

Lemma erase_loop_kept fuel m n p : kept m (erase_loop dummy_callbacks fuel m n p).
Proof. revert m n p. induction fuel as [|fuel IH]; intros m n p; cbn [erase_loop]; keep. Qed.
#[export] Hint Resolve erase_loop_kept : kept.

Lemma rb_erase_augmented_kept m n : keeps fst m (__rb_erase_augmented dummy_callbacks m n).
Proof. unfold __rb_erase_augmented. keep. Qed.
#[export] Hint Resolve rb_erase_augmented_kept : kept.

Lemma rb_erase_kept m n : kept m (rb_erase m n).
Proof. unfold rb_erase, ____rb_erase_color. keep. Qed.
#[export] Hint Resolve rb_erase_kept : kept.

Lemma rb_insert_color_cached_kept m lm n b : keeps fst m (rb_insert_color_cached m lm n b).
Proof. unfold rb_insert_color_cached. keep. Qed.
Lemma rb_erase_cached_kept m lm n : keeps (fun x => x.1.1) m (rb_erase_cached m lm n).
Proof. unfold rb_erase_cached. keep. Qed.
#[export] Hint Resolve rb_insert_color_cached_kept rb_erase_cached_kept : kept.
