(* ===== verification/CfsWeight.v ===== *)
(** * Weights and proportional time in the fair scheduler (kernel/sched/fair.c, core.c)

    The scheduler turns time into virtual time and periods into slices by multiplying with
    a ratio of two weights, computed without a division from a cached 32-bit inverse. *)

From stdpp Require Import list.
From S2P Require Import Prelude Math64 Pelt.
Local Open Scope Z_scope.
Local Open Scope res_scope.

Record load_weight := mk_lw { weight : Z; inv_weight : Z }.

Definition update_load_add (lw : load_weight) (inc : Z) : load_weight := mk_lw (u64 (weight lw + inc)) 0.
Definition update_load_sub (lw : load_weight) (dec : Z) : load_weight := mk_lw (u64 (weight lw - dec)) 0.
Definition update_load_set (lw : load_weight) (w : Z) : load_weight := mk_lw w 0.

Definition WMULT_CONST : Z := 4294967295.
Definition WMULT_SHIFT : Z := 32.
Definition scale_load (w : Z) : Z := u64 (Z.shiftl w 10).
Definition NICE_0_LOAD : Z := 1048576.

Definition __update_inv_weight (lw : load_weight) : load_weight :=
  if negb (inv_weight lw =? 0) then lw
  else
    let w := scale_load_down (weight lw) in
    mk_lw (weight lw) (if WMULT_CONST <=? w then 1 else if w =? 0 then WMULT_CONST else WMULT_CONST / w).

(** [while (fact >> 32) { fact >>= 1; shift--; }] *)
Fixpoint shr_loop (fuel : nat) (fact shift : Z) : res (Z * Z) :=
  match fuel with
  | O => Fault NoFuel
  | S fuel =>
    if negb (Z.shiftr fact 32 =? 0) then shr_loop fuel (Z.shiftr fact 1) (shift - 1) else Ok (fact, shift)
  end.

(** A shift count below zero is undefined in C: it is a fault here. *)
Definition __calc_delta (delta_exec weight : Z) (lw : load_weight) : res (Z * load_weight) :=
  let fact := scale_load_down weight in
  let lw := __update_inv_weight lw in
  '(fact, shift) <-- shr_loop 64 fact WMULT_SHIFT;
  let fact := u64 (u32 fact * inv_weight lw) in
  '(fact, shift) <-- shr_loop 64 fact shift;
  if shift <? 0 then Fault OutOfBounds
  else Ok (mul_u64_u32_shr delta_exec (u32 fact) shift, lw).

Definition calc_delta_fair (delta : Z) (load : load_weight) : res (Z * load_weight) :=
  if negb (weight load =? NICE_0_LOAD) then __calc_delta delta NICE_0_LOAD load else Ok (delta, load).

(** ** The tunables *)

Inductive sched_tunable_scaling := SCHED_TUNABLESCALING_NONE | SCHED_TUNABLESCALING_LOG | SCHED_TUNABLESCALING_LINEAR.

Record tunables := mk_tunables {
  sysctl_sched_latency : Z; normalized_sysctl_sched_latency : Z;
  sysctl_sched_min_granularity : Z; normalized_sysctl_sched_min_granularity : Z;
  sysctl_sched_wakeup_granularity : Z; normalized_sysctl_sched_wakeup_granularity : Z;
  sched_nr_latency : Z; sysctl_sched_tunable_scaling : sched_tunable_scaling }.

Definition initial_tunables : tunables :=
  mk_tunables 6000000 6000000 750000 750000 1000000 1000000 8 SCHED_TUNABLESCALING_LOG.

Definition get_update_sysctl_factor (t : tunables) (num_online_cpus : Z) : Z :=
  let cpus := Z.min num_online_cpus 8 in
  match sysctl_sched_tunable_scaling t with
  | SCHED_TUNABLESCALING_NONE => 1
  | SCHED_TUNABLESCALING_LINEAR => cpus
  | SCHED_TUNABLESCALING_LOG => 1 + Z.log2 cpus
  end.

Definition update_sysctl (t : tunables) (num_online_cpus : Z) : tunables :=
  let factor := get_update_sysctl_factor t num_online_cpus in
  mk_tunables (u32 (factor * normalized_sysctl_sched_latency t)) (normalized_sysctl_sched_latency t)
    (u32 (factor * normalized_sysctl_sched_min_granularity t)) (normalized_sysctl_sched_min_granularity t)
    (u32 (factor * normalized_sysctl_sched_wakeup_granularity t)) (normalized_sysctl_sched_wakeup_granularity t)
    (sched_nr_latency t) (sysctl_sched_tunable_scaling t).

Definition sched_init_granularity : tunables -> Z -> tunables := update_sysctl.

Definition DIV_ROUND_UP (n d : Z) : Z := u32 (u32 (n + d) - 1) / d.

Definition sched_proc_update_handler (t : tunables) (num_online_cpus : Z) (write : bool) : Z * tunables :=
  let factor := get_update_sysctl_factor t num_online_cpus in
  if negb write then (0, t)
  else
    (0, mk_tunables (sysctl_sched_latency t) (sysctl_sched_latency t / factor)
          (sysctl_sched_min_granularity t) (sysctl_sched_min_granularity t / factor)
          (sysctl_sched_wakeup_granularity t) (sysctl_sched_wakeup_granularity t / factor)
          (DIV_ROUND_UP (sysctl_sched_latency t) (sysctl_sched_min_granularity t)) (sysctl_sched_tunable_scaling t)).

Definition __sched_period (t : tunables) (nr_running : Z) : Z :=
  if sched_nr_latency t <? nr_running then u64 (nr_running * sysctl_sched_min_granularity t)
  else sysctl_sched_latency t.

(** ** The weights of the nice levels *)

Definition sched_prio_to_weight : list Z := [
  88761; 71755; 56483; 46273; 36291; 29154; 23254; 18705; 14949; 11916;
  9548; 7620; 6100; 4904; 3906; 3121; 2501; 1991; 1586; 1277;
  1024; 820; 655; 526; 423; 335; 272; 215; 172; 137;
  110; 87; 70; 56; 45; 36; 29; 23; 18; 15].

Definition sched_prio_to_wmult : list Z := [
  48388; 59856; 76040; 92818; 118348; 147320; 184698; 229616; 287308; 360437;
  449829; 563644; 704093; 875809; 1099582; 1376151; 1717300; 2157191; 2708050; 3363326;
  4194304; 5237765; 6557202; 8165337; 10153587; 12820798; 15790321; 19976592; 24970740; 31350126;
  39045157; 49367440; 61356676; 76695844; 95443717; 119304647; 148102320; 186737708; 238609294; 286331153].

Definition WEIGHT_IDLEPRIO : Z := 3.
Definition WMULT_IDLEPRIO : Z := 1431655765.

(** The load a task gets when its weight is set outside the run queue. *)
Definition prio_load (prio : nat) : res load_weight :=
  w <-- array_get sched_prio_to_weight prio;
  i <-- array_get sched_prio_to_wmult prio;
  Ok (mk_lw (scale_load w) i).
Definition idle_load : load_weight := mk_lw (scale_load WEIGHT_IDLEPRIO) WMULT_IDLEPRIO.

(** ** Accuracy *)

Lemma shr_loop_ok fuel j fact shift : (j < fuel)%nat -> 0 <= fact < 2 ^ (32 + Z.of_nat j) ->
  exists k, 0 <= k <= Z.of_nat j /\ shr_loop fuel fact shift = Ok (fact / 2 ^ k, shift - k) /\
    fact / 2 ^ k < 2 ^ 32 /\ (k = 0 \/ 2 ^ 31 <= fact / 2 ^ k).
Proof.
  revert j fact shift. induction fuel as [|fuel IH]; intros j fact shift Hj Hf; [lia|]. cbn [shr_loop].
  rewrite Z.shiftr_div_pow2 by lia. destruct (Z.eqb_spec (fact / 2 ^ 32) 0) as [H0|H0]; cbn [negb].
  - exists 0. rewrite Z.pow_0_r, Z.div_1_r, Z.sub_0_r. apply Z.div_small_iff in H0; [|lia]. split; [lia|]. split; [done|]. split; [lia|by left].
  - assert (Hge : 2 ^ 32 <= fact).
    { destruct (Z.lt_ge_cases fact (2 ^ 32)) as [H|H]; [|done]. rewrite Z.div_small in H0 by lia. lia. }
    destruct j as [|j]; [simpl in Hf; lia|]. rewrite Z.shiftr_div_pow2 by lia. change (2 ^ 1) with 2.
    destruct (IH j (fact / 2) (shift - 1)) as (k&Hk&E1&H1&H2); [lia|..].
    { split; [apply Z.div_pos; lia|]. apply Z.div_lt_upper_bound; [lia|].
      replace (32 + Z.of_nat (S j)) with (Z.succ (32 + Z.of_nat j)) in Hf by lia. rewrite Z.pow_succ_r in Hf by lia. lia. }
    assert (Ed : fact / 2 / 2 ^ k = fact / 2 ^ (k + 1)).
    { rewrite Z.div_div by lia. by rewrite Z.pow_add_r, Z.mul_comm by lia. }
    rewrite Ed in E1, H1, H2. exists (k + 1). split; [lia|]. split; [rewrite E1; f_equal; f_equal; lia|]. split; [done|]. right.
    destruct H2 as [-> |H2]; [|done]. change (0 + 1) with 1. change (2 ^ 1) with 2. apply Z.div_le_lower_bound; lia.
Qed.

(** An inverse is good for a weight [l] when their product is near 2^32. *)
Definition inv_ok (l inv : Z) : Prop := 2 ^ 32 - l <= inv * l <= 2 ^ 32 + l /\ 0 < inv < 2 ^ 32.

(** A load whose cached inverse, if there is one, belongs to its weight. *)
Definition load_ok (lw : load_weight) : Prop :=
  0 < scale_load_down (weight lw) < WMULT_CONST /\
  (inv_weight lw = 0 \/ inv_ok (scale_load_down (weight lw)) (inv_weight lw)).

Lemma inv_weight_ok lw : load_ok lw ->
  inv_ok (scale_load_down (weight lw)) (inv_weight (__update_inv_weight lw)) /\
  weight (__update_inv_weight lw) = weight lw /\
  (inv_weight lw = 0 -> inv_weight (__update_inv_weight lw) * scale_load_down (weight lw) <= 2 ^ 32).
Proof.
  intros [Hw Hi]. unfold __update_inv_weight. destruct (Z.eqb_spec (inv_weight lw) 0) as [E0|E0]; cbn [negb].
  - unfold WMULT_CONST in *. set (l := scale_load_down (weight lw)) in *.
    destruct (Z.leb_spec 4294967295 l); [lia|]. destruct (Z.eqb_spec l 0); [lia|]. cbn [weight inv_weight].
    pose proof (Z.mul_div_le 4294967295 l ltac:(lia)). pose proof (Z.mul_succ_div_gt 4294967295 l ltac:(lia)).
    assert (1 <= 4294967295 / l) by (apply Z.div_le_lower_bound; lia).
    assert (4294967295 / l <= 4294967295) by (apply Z.div_le_upper_bound; nia).
    split; [split; nia|]. split; [done|]. nia.
  - destruct Hi as [Hi|Hi]; [done|]. done.
Qed.

(** The arithmetic of the multiplication by a truncated inverse. *)
Lemma ratio_bounds d w l inv k r : 0 <= d -> 0 <= w < 2 ^ 32 -> 0 < l < 2 ^ 32 -> inv_ok l inv -> 0 <= k <= 32 ->
  (k = 0 \/ 2 ^ 31 <= w * inv / 2 ^ k) -> r = d * (w * inv / 2 ^ k) / 2 ^ (32 - k) ->
  d * w * (2 ^ 32 - l - 4) - 2 ^ 32 * l < r * l * 2 ^ 32 <= d * w * (inv * l).
Proof.
  intros Hd Hw Hl [Hi1 Hi2] Hk Hf ->. set (f := w * inv / 2 ^ k) in *.
  assert (Hp : 0 < 2 ^ k) by lia. assert (Hq : 0 < 2 ^ (32 - k)) by lia.
  assert (E32 : 2 ^ (32 - k) * 2 ^ k = 2 ^ 32) by (rewrite <- Z.pow_add_r by lia; f_equal; lia).
  assert (F1 : f * 2 ^ k <= w * inv) by (pose proof (Z.mul_div_le (w * inv) (2 ^ k) Hp); unfold f; lia).
  assert (F2 : w * inv < f * 2 ^ k + 2 ^ k) by (pose proof (Z.mul_succ_div_gt (w * inv) (2 ^ k) Hp); unfold f; lia).
  assert (F0 : 0 <= f) by (apply Z.div_pos; nia).
  assert (F3 : (w * inv - f * 2 ^ k) * 2 ^ 31 <= w * inv).
  { destruct Hf as [-> |Hf]; [|nia]. unfold f. rewrite Z.pow_0_r, Z.div_1_r. nia. }
  set (r := d * f / 2 ^ (32 - k)).
  assert (R1 : r * 2 ^ (32 - k) <= d * f) by (pose proof (Z.mul_div_le (d * f) _ Hq); unfold r; lia).
  assert (R2 : d * f < r * 2 ^ (32 - k) + 2 ^ (32 - k)) by (pose proof (Z.mul_succ_div_gt (d * f) _ Hq); unfold r; lia).
  assert (R3 : r * 2 ^ 32 <= d * (f * 2 ^ k)) by (rewrite <- E32; nia).
  assert (R4 : d * (f * 2 ^ k) < r * 2 ^ 32 + 2 ^ 32) by (rewrite <- E32; nia).
  assert (G : d * (w * inv) * l - d * (w * inv - f * 2 ^ k) * l - 2 ^ 32 * l < r * l * 2 ^ 32).
  { replace (d * (w * inv) * l - d * (w * inv - f * 2 ^ k) * l) with (d * (f * 2 ^ k) * l) by ring. nia. }
  assert (Hdw : 0 <= d * w) by nia.
  clearbody f r. clear R1 R2 R4 Hf Hk E32 Hp Hq F2. split.
  - assert (G2 : (w * inv - f * 2 ^ k) * l <= 4 * w).
    { assert (H : (w * inv - f * 2 ^ k) * 2 ^ 31 * l <= w * inv * l) by (apply Z.mul_le_mono_nonneg_r; lia).
      assert (H2 : w * (inv * l) <= w * (2 ^ 32 + l)) by (apply Z.mul_le_mono_nonneg_l; lia).
      assert (H3 : w * (2 ^ 32 + l) <= w * 2 ^ 33) by (apply Z.mul_le_mono_nonneg_l; lia). lia. }
    assert (H1 : d * w * (2 ^ 32 - l) <= d * w * (inv * l)) by (apply Z.mul_le_mono_nonneg_l; lia).
    assert (H2 : d * ((w * inv - f * 2 ^ k) * l) <= d * (4 * w)) by (apply Z.mul_le_mono_nonneg_l; lia). lia.
  - assert (H1 : d * (f * 2 ^ k) <= d * (w * inv)) by (apply Z.mul_le_mono_nonneg_l; lia).
    assert (H2 : r * 2 ^ 32 * l <= d * (w * inv) * l) by (apply Z.mul_le_mono_nonneg_r; lia). lia.
Qed.

Lemma scale_load_down_range w : 0 <= w < 2 ^ 42 -> 0 <= scale_load_down w < 2 ^ 32.
Proof.
  intros H. unfold scale_load_down. rewrite Z.shiftr_div_pow2 by lia. change (2 ^ 10) with 1024.
  split; [apply Z.div_pos; lia|apply Z.div_lt_upper_bound; lia].
Qed.

(** The share of [d] that the weight [w] has of the load, when it fits 64 bits. *)
Lemma calc_delta_ok d w lw : 0 <= d < 2 ^ 64 -> 0 <= w < 2 ^ 42 -> load_ok lw ->
  d * scale_load_down w * 2 < 2 ^ 64 * scale_load_down (weight lw) ->
  let inv := inv_weight (__update_inv_weight lw) in
  exists r, __calc_delta d w lw = Ok (r, __update_inv_weight lw) /\ 0 <= r < 2 ^ 64 /\
    d * scale_load_down w * (2 ^ 32 - scale_load_down (weight lw) - 4) - 2 ^ 32 * scale_load_down (weight lw)
      < r * scale_load_down (weight lw) * 2 ^ 32 <= d * scale_load_down w * (inv * scale_load_down (weight lw)).
Proof.
  intros Hd Hw Hok Hfit inv. destruct (inv_weight_ok lw Hok) as (Hinv&_&_). fold inv in Hinv.
  pose proof (scale_load_down_range w Hw) as HW. destruct Hok as [HL _]. unfold WMULT_CONST in HL.
  set (W := scale_load_down w) in *. set (l := scale_load_down (weight lw)) in *.
  pose proof Hinv as [Hi1 Hi2]. unfold __calc_delta. fold W inv.
  destruct (shr_loop_ok 64 0 W WMULT_SHIFT) as (k0&Hk0&E0&_&_); [lia|simpl; lia|]. assert (k0 = 0) as -> by lia.
  rewrite E0. cbn [res_bind]. rewrite Z.pow_0_r, Z.div_1_r, Z.sub_0_r, (u32_small W) by lia. rewrite (u64_small (W * inv)) by nia.
  destruct (shr_loop_ok 64 32 (W * inv) WMULT_SHIFT) as (k&Hk&E1&H1&H2); [lia|simpl; nia|]. rewrite E1. cbn [res_bind].
  unfold WMULT_SHIFT. destruct (Z.ltb_spec (32 - k) 0); [lia|].
  assert (Hf0 : 0 <= W * inv / 2 ^ k) by (apply Z.div_pos; nia).
  rewrite (u32_small (W * inv / 2 ^ k)) by lia. rewrite mul_u64_u32_shr_ok by lia. unfold mul_u64_u32_shr_int128.
  rewrite Z.shiftr_div_pow2 by lia. set (r := d * (W * inv / 2 ^ k) / 2 ^ (32 - k)).
  destruct (ratio_bounds d W l inv k r) as [B1 B2]; try done; try lia.
  assert (Hr : 0 <= r) by (apply Z.div_pos; [nia|lia]).
  assert (Hr2 : r < 2 ^ 64).
  { assert (G : d * W * (inv * l) <= d * W * (2 * 2 ^ 32)) by (apply Z.mul_le_mono_nonneg_l; [nia|lia]).
    assert (r * l < 2 ^ 64 * l) by lia. nia. }
  exists r. rewrite u64_small by lia. done.
Qed.

(** proportional time.  [__calc_delta] computes delta * weight / load with the cached
    32-bit inverse: no shift count goes negative, and the result is at most the exact
    quotient plus its 2^-32 * (load + 1) part and at least the quotient less its
    2^-32 * (load + 4) part, less one; with an inverse it computes itself it is never more
    than the exact quotient.  Weights are in units of 1/1024. *)
Theorem calc_delta_accurate d w lw : 0 <= d < 2 ^ 64 -> 0 <= w < 2 ^ 42 -> load_ok lw ->
  d * scale_load_down w * 2 < 2 ^ 64 * scale_load_down (weight lw) ->
  exists r lw', __calc_delta d w lw = Ok (r, lw') /\ 0 <= r < 2 ^ 64 /\ load_ok lw' /\ weight lw' = weight lw /\
    d * scale_load_down w * (2 ^ 32 - scale_load_down (weight lw) - 4) - 2 ^ 32 * scale_load_down (weight lw)
      < r * scale_load_down (weight lw) * 2 ^ 32 <= d * scale_load_down w * (2 ^ 32 + scale_load_down (weight lw)) /\
    (inv_weight lw = 0 -> r * scale_load_down (weight lw) <= d * scale_load_down w).
Proof.
  intros Hd Hw Hok Hfit. destruct (calc_delta_ok d w lw Hd Hw Hok Hfit) as (r&E1&Hr&B1&B2).
  destruct (inv_weight_ok lw Hok) as (Hinv&Hwt&Ht). pose proof (scale_load_down_range w Hw) as HW.
  exists r, (__update_inv_weight lw). split; [done|]. split; [done|]. unfold load_ok. rewrite Hwt.
  split; [split; [apply Hok|by right]|]. split; [done|]. assert (H0 : 0 <= d * scale_load_down w) by nia. split; [split; [done|]|].
  - etransitivity; [exact B2|]. apply Z.mul_le_mono_nonneg_l; [done|]. by destruct Hinv as [[_ ?] _].
  - intros E0. specialize (Ht E0).
    assert (d * scale_load_down w * (inv_weight (__update_inv_weight lw) * scale_load_down (weight lw)) <=
      d * scale_load_down w * 2 ^ 32) by (apply Z.mul_le_mono_nonneg_l; done). lia.
Qed.

Lemma calc_delta_accurate_witness :
  exists r lw', __calc_delta 6000000 NICE_0_LOAD (mk_lw (scale_load 3072) 0) = Ok (r, lw') /\ 0 <= r < 2 ^ 64 /\ load_ok lw' /\
    weight lw' = 3145728 /\
    6000000 * 1024 * (2 ^ 32 - 3072 - 4) - 2 ^ 32 * 3072 < r * 3072 * 2 ^ 32 <= 6000000 * 1024 * (2 ^ 32 + 3072) /\
    (0 = 0 -> r * 3072 <= 6000000 * 1024).
Proof.
  apply (calc_delta_accurate 6000000 NICE_0_LOAD (mk_lw (scale_load 3072) 0)); [lia|unfold NICE_0_LOAD; lia| |by vm_compute].
  split; [by vm_compute|by left].
Defined.

(** ** Slices *)

(** The slices of the tasks with weights [ws] out of a period, one after the other. *)
Fixpoint slices (period : Z) (ws : list Z) (lw : load_weight) : res (list Z) :=
  match ws with
  | [] => Ok []
  | w :: ws =>
    '(s, lw) <-- __calc_delta period w lw;
    rest <-- slices period ws lw;
    Ok (s :: rest)
  end.

Definition total (l : list Z) : Z := foldr Z.add 0 l.

(** An inverse that was computed from the weight, not taken from the table. *)
Definition load_exact (lw : load_weight) : Prop :=
  load_ok lw /\ inv_weight lw * scale_load_down (weight lw) <= 2 ^ 32.

Lemma slices_ok period ws lw : 0 <= period < 2 ^ 63 -> load_exact lw ->
  Forall (fun w => 0 <= w <= weight lw) ws -> weight lw < 2 ^ 42 ->
  exists ss, slices period ws lw = Ok ss /\
    Forall2 (fun w s => s * scale_load_down (weight lw) <= period * scale_load_down w /\
      period * scale_load_down w * (2 ^ 32 - scale_load_down (weight lw) - 4)
        < (s + 1) * scale_load_down (weight lw) * 2 ^ 32) ws ss.
Proof.
  intros Hp. revert lw. induction ws as [|w ws IH]; intros lw [Hok Hx] Hws Hlt; [by exists []|].
  apply Forall_cons in Hws as [Hw Hws]. destruct (inv_weight_ok lw Hok) as (Hinv&Hwt&Ht).
  assert (HW : 0 <= scale_load_down w <= scale_load_down (weight lw)).
  { unfold scale_load_down. rewrite !Z.shiftr_div_pow2 by lia. split; [apply Z.div_pos; lia|apply Z.div_le_mono; lia]. }
  destruct Hok as [HL Hi].
  destruct (calc_delta_ok period w lw) as (r&E1&Hr&B1&B2); [lia|lia|by split|nia|].
  assert (Hx' : inv_weight (__update_inv_weight lw) * scale_load_down (weight lw) <= 2 ^ 32).
  { unfold __update_inv_weight in *. destruct (Z.eqb_spec (inv_weight lw) 0); cbn [negb] in *; [by apply Ht|done]. }
  destruct (IH (__update_inv_weight lw)) as (ss&E2&F2); rewrite ?Hwt; try done.
  { split; rewrite ?Hwt; [split; rewrite Hwt; [done|by right]|done]. }
  exists (r :: ss). cbn [slices]. rewrite E1. cbn [res_bind]. rewrite E2. split; [done|]. constructor; [|by rewrite Hwt in F2].
  assert (period * scale_load_down w * (inv_weight (__update_inv_weight lw) * scale_load_down (weight lw)) <=
      period * scale_load_down w * 2 ^ 32) by (apply Z.mul_le_mono_nonneg_l; [nia|done]). lia.
Qed.

Lemma scale_total ws : Forall (fun w => 0 <= w) ws -> total (map scale_load_down ws) <= scale_load_down (total ws).
Proof.
  induction 1 as [|w ws Hw Hws IH]; [done|]. simpl. unfold scale_load_down in *. rewrite !Z.shiftr_div_pow2 in * by lia.
  change (2 ^ 10) with 1024 in *. pose proof (Z.mul_div_le w 1024 ltac:(lia)). pose proof (Z.mul_div_le (total ws) 1024 ltac:(lia)).
  assert (w / 1024 + total ws / 1024 <= (w + total ws) / 1024) by (apply Z.div_le_lower_bound; lia). lia.
Qed.

Lemma total_le p l ws ss : 0 < l -> Forall2 (fun w s => s * l <= p * scale_load_down w) ws ss ->
  total ss * l <= p * total (map scale_load_down ws).
Proof. intros Hl. induction 1 as [|w s ws ss H _ IH]; simpl; lia. Qed.

(** fair slices.  When the load of a queue is the sum of its tasks' weights, the slices
    that [__calc_delta] cuts from a period for its tasks never add up to more than the
    period, and each is within one nanosecond and a 2^-32 * (load + 4) part of its
    weight's share. *)
Theorem slices_fit period ws lw : 0 <= period < 2 ^ 63 -> load_exact lw -> weight lw < 2 ^ 42 ->
  Forall (fun w => 0 <= w) ws -> total ws = weight lw ->
  exists ss, slices period ws lw = Ok ss /\ total ss <= period /\
    Forall2 (fun w s => s * scale_load_down (weight lw) <= period * scale_load_down w /\
      period * scale_load_down w * (2 ^ 32 - scale_load_down (weight lw) - 4)
        < (s + 1) * scale_load_down (weight lw) * 2 ^ 32) ws ss.
Proof.
  intros Hp Hx Hlt Hws Ht.
  assert (Hle : Forall (fun w => 0 <= w <= weight lw) ws).
  { rewrite <- Ht. clear -Hws. assert (G : forall l, Forall (fun w => 0 <= w) l -> 0 <= total l) by (induction 1; simpl; lia).
    induction Hws as [|w ws Hw Hws IH]; constructor; simpl.
    - specialize (G ws Hws). lia.
    - eapply Forall_impl; [exact IH|]. simpl. intros. lia. }
  destruct (slices_ok period ws lw Hp Hx Hle Hlt) as (ss&E1&F1). exists ss. split; [done|]. split; [|done].
  destruct Hx as [[HL _] _]. set (l := scale_load_down (weight lw)) in *.
  assert (F2 : Forall2 (fun w s => s * l <= period * scale_load_down w) ws ss) by (eapply Forall2_impl; [exact F1|]; simpl; tauto).
  apply total_le in F2; [|lia]. pose proof (scale_total ws Hws) as G. rewrite Ht in G. fold l in G.
  assert (period * total (map scale_load_down ws) <= period * l) by (apply Z.mul_le_mono_nonneg_l; lia). nia.
Qed.

Lemma slices_fit_witness :
  exists ss, slices 6000000 [1048576; 2097152] (mk_lw 3145728 0) = Ok ss /\ total ss <= 6000000 /\
    Forall2 (fun w s => s * 3072 <= 6000000 * scale_load_down w /\
      6000000 * scale_load_down w * (2 ^ 32 - 3072 - 4) < (s + 1) * 3072 * 2 ^ 32) [1048576; 2097152] ss.
Proof.
  apply (slices_fit 6000000 [1048576; 2097152] (mk_lw 3145728 0)); [lia| |done|repeat (constructor; [lia|]); constructor|done].
  split; [split; [by vm_compute|by left]|by vm_compute].
Defined.

(** ** The nice levels *)

(** The checks on one entry: the inverse fits the weight. *)
Definition entry_ok (w inv : Z) : bool :=
  (2 ^ 32 - w <=? inv * w) && (inv * w <=? 2 ^ 32 + w) && (0 <? w) && (w <? WMULT_CONST) && (0 <? inv) && (inv <? 2 ^ 32).

(** Neighbouring levels differ by a factor between 1.17 and 1.30: the 25% of the comment. *)
Fixpoint steps_ok (l : list Z) : bool :=
  match l with
  | a :: (b :: _) as rest => (117 * b <=? 100 * a) && (100 * a <=? 130 * b) && steps_ok rest
  | _ => true
  end.

Lemma entries_ok : forallb (fun '(w, i) => entry_ok w i) (zip sched_prio_to_weight sched_prio_to_wmult) = true.
Proof. by vm_compute. Qed.

Lemma entry_load w i : entry_ok w i = true -> load_ok (mk_lw (scale_load w) i) /\ scale_load_down (scale_load w) = w.
Proof.
  unfold entry_ok, WMULT_CONST. rewrite !andb_true_iff, !Z.leb_le, !Z.ltb_lt. intros [[[[[H1 H2] H3] H4] H5] H6].
  assert (E1 : scale_load_down (scale_load w) = w).
  { unfold scale_load, scale_load_down. rewrite Z.shiftl_mul_pow2, u64_small by lia. rewrite Z.shiftr_div_pow2 by lia.
    by rewrite Z.div_mul. }
  split; [|done]. split; cbn [weight inv_weight]; rewrite E1; [unfold WMULT_CONST; lia|]. right. split; lia.
Qed.

Lemma prio_entry (prio : nat) : (prio < 40)%nat -> exists w i, prio_load prio = Ok (mk_lw (scale_load w) i) /\
  sched_prio_to_weight !! prio = Some w /\ entry_ok w i = true /\ sched_prio_to_wmult !! prio = Some i /\ w <= 88761.
Proof.
  intros H. destruct (lookup_lt_is_Some_2 sched_prio_to_weight prio) as [w Hw]; [done|].
  destruct (lookup_lt_is_Some_2 sched_prio_to_wmult prio) as [i Hi]; [done|]. exists w, i. unfold prio_load.
  rewrite (array_get_Some _ _ _ Hw), (array_get_Some _ _ _ Hi). split; [done|]. split; [done|].
  split; [|split; [done|]].
  - pose proof entries_ok as He. rewrite forallb_forall in He. apply (He (w, i)). apply list_elem_of_In.
    apply (list_elem_of_lookup_2 _ prio). by rewrite lookup_zip_Some.
  - assert (Hm : Forall (fun w => w <= 88761) sched_prio_to_weight) by (by apply (bool_decide_unpack _)).
    by eapply Forall_lookup_1 in Hm.
Qed.

(** the virtual time of a nice level.  For every nice level (and for idle tasks) the
    table's precomputed inverse fits its weight, so that [calc_delta_fair] of a real time
    [d] is [d] at nice 0 and otherwise within a 2^-32 * (weight + 4) part and one of
    d * 1024 / weight; neighbouring levels differ by a factor between 1.17 and 1.30. *)
Theorem nice_levels_correct d (prio : nat) : (prio < 40)%nat -> 0 <= d < 2 ^ 52 ->
  steps_ok sched_prio_to_weight = true /\ load_ok idle_load /\
  exists w lw r lw', sched_prio_to_weight !! prio = Some w /\ prio_load prio = Ok lw /\ load_ok lw /\
    calc_delta_fair d lw = Ok (r, lw') /\
    (w = 1024 -> r = d) /\
    d * 1024 * (2 ^ 32 - w - 4) - 2 ^ 32 * w < r * w * 2 ^ 32 <= d * 1024 * (2 ^ 32 + w).
Proof.
  intros Hp Hd. split; [by vm_compute|]. split; [by apply (entry_load WEIGHT_IDLEPRIO WMULT_IDLEPRIO)|].
  destruct (prio_entry prio Hp) as (w&i&E1&E2&He&_). destruct (entry_load w i He) as [Hok Ew].
  unfold entry_ok in He. rewrite !andb_true_iff, !Z.leb_le, !Z.ltb_lt in He. unfold WMULT_CONST in He.
  exists w, (mk_lw (scale_load w) i). unfold calc_delta_fair. cbn [weight].
  destruct (Z.eqb_spec (scale_load w) NICE_0_LOAD) as [E0|E0]; cbn [negb].
  - assert (w = 1024) as -> by (rewrite E0 in Ew; by rewrite <- Ew). exists d, (mk_lw (scale_load 1024) i).
    do 4 (split; [done|]). split; [done|]. lia.
  - destruct (calc_delta_ok d NICE_0_LOAD (mk_lw (scale_load w) i)) as (r&E3&Hr&B); cbn [weight] in *; rewrite ?Ew in *; try done.
    { lia. } { change (scale_load_down NICE_0_LOAD) with 1024. lia. }
    change (scale_load_down NICE_0_LOAD) with 1024 in B. exists r, (__update_inv_weight (mk_lw (scale_load w) i)).
    do 4 (split; [done|]). split; [intros ->; by destruct E0|].
    destruct (inv_weight_ok _ Hok) as ([[_ Hi] _]&_&_). cbn [weight] in Hi. rewrite Ew in Hi. split; [apply B|].
    etransitivity; [apply B|]. apply Z.mul_le_mono_nonneg_l; lia.
Qed.

Lemma nice_levels_correct_witness :
  steps_ok sched_prio_to_weight = true /\ load_ok idle_load /\
  exists w lw r lw', sched_prio_to_weight !! 25%nat = Some w /\ prio_load 25 = Ok lw /\ load_ok lw /\
    calc_delta_fair 1000000 lw = Ok (r, lw') /\
    (w = 1024 -> r = 1000000) /\
    1000000 * 1024 * (2 ^ 32 - w - 4) - 2 ^ 32 * w < r * w * 2 ^ 32 <= 1000000 * 1024 * (2 ^ 32 + w).
Proof. apply (nice_levels_correct 1000000 25); lia. Defined.

(** The test routine passes weights without scaling them: below 1024 the scheduler sees a
    weight of zero, so that the printed virtual times do not depend on the nice level. *)
Lemma unscaled_weights_collapse :
  map (fun w => match __calc_delta 1024 NICE_0_LOAD (mk_lw w 0) with Ok (r, _) => r | Fault _ => 0 end)
    [1023; 820; 335; 15] = [1048575; 1048575; 1048575; 1048575].
Proof. by vm_compute. Qed.
