(* ===== verification/CfsQueue.v ===== *)
(** * The run queue of the fair scheduler (kernel/sched/fair.c)

    Entities and queues are records in maps by address; the nodes of all timelines share
    one memory, and each queue has its own root and cached leftmost node.  An entity is
    named by the address of its [run_node], so [rb_entry] is the identity.  Statistics and
    printing do not feed back into the state and are left out. *)

From stdpp Require Import gmap.
From S2P Require Import Prelude Rbtree RbtreeFind CfsWeight.
Local Open Scope Z_scope.
Local Open Scope res_scope.

Record sched_entity := mk_se {
  load : load_weight; on_rq : bool; exec_start : Z; sum_exec_runtime : Z; vruntime : Z; prev_sum_exec_runtime : Z;
  parent : Z; cfs_rq_ptr : Z; my_q : Z; idle_policy : bool }.

(** The part of a queue that bandwidth control uses. *)
Record rq_runtime := mk_rt { runtime_enabled : bool; runtime_remaining : Z; throttled : bool; tg : Z }.

Record cfs_rq := mk_rq {
  cfs_load : load_weight; nr_running : Z; cfs_min_vruntime : Z; timeline_root : Z; rb_leftmost : Z;
  curr : Z; next : Z; last : Z; skip : Z; rt : rq_runtime }.

(** The bandwidth of a task group; the throttled queues by address. *)
Record cfs_bandwidth := mk_cfs_b {
  quota : Z; runtime : Z; idle : bool; period_active : bool; slack_started : bool; throttled_cfs_rq : list Z }.

(** [sched_feat] of the two features this code tests, and the static key of bandwidth control. *)
Record features := mk_features { START_DEBIT : bool; GENTLE_FAIR_SLEEPERS : bool; cfs_bandwidth_used : bool }.

Record world := mk_world {
  tree_nodes : gmap Z rb_node; entities : gmap Z sched_entity; queues : gmap Z cfs_rq; groups : gmap Z cfs_bandwidth;
  tun : tunables; feat : features }.

Definition entity (w : world) (p : Z) : res sched_entity :=
  match entities w !! p with Some e => Ok e | None => Fault OutOfBounds end.
Definition queue (w : world) (q : Z) : res cfs_rq :=
  match queues w !! q with Some e => Ok e | None => Fault OutOfBounds end.

Definition put_entity (w : world) (p : Z) (e : sched_entity) : world :=
  mk_world (tree_nodes w) (<[p := e]> (entities w)) (queues w) (groups w) (tun w) (feat w).
Definition put_queue (w : world) (q : Z) (r : cfs_rq) : world :=
  mk_world (tree_nodes w) (entities w) (<[q := r]> (queues w)) (groups w) (tun w) (feat w).

Definition set_load (e : sched_entity) (l : load_weight) : sched_entity :=
  mk_se l (on_rq e) (exec_start e) (sum_exec_runtime e) (vruntime e) (prev_sum_exec_runtime e) (parent e) (cfs_rq_ptr e) (my_q e) (idle_policy e).
Definition set_vruntime (e : sched_entity) (v : Z) : sched_entity :=
  mk_se (load e) (on_rq e) (exec_start e) (sum_exec_runtime e) v (prev_sum_exec_runtime e) (parent e) (cfs_rq_ptr e) (my_q e) (idle_policy e).
Definition set_cfs_load (r : cfs_rq) (l : load_weight) : cfs_rq :=
  mk_rq l (nr_running r) (cfs_min_vruntime r) (timeline_root r) (rb_leftmost r) (curr r) (next r) (last r) (skip r) (rt r).
Definition set_min_vruntime (r : cfs_rq) (v : Z) : cfs_rq :=
  mk_rq (cfs_load r) (nr_running r) v (timeline_root r) (rb_leftmost r) (curr r) (next r) (last r) (skip r) (rt r).
Definition set_timeline (r : cfs_rq) (newroot lm : Z) : cfs_rq :=
  mk_rq (cfs_load r) (nr_running r) (cfs_min_vruntime r) newroot lm (curr r) (next r) (last r) (skip r) (rt r).

(** The three buddies of a queue. *)
Inductive buddy := Last | Next | Skip.
Definition buddy_of (b : buddy) (r : cfs_rq) : Z := match b with Last => last r | Next => next r | Skip => skip r end.
Definition set_buddy (b : buddy) (r : cfs_rq) (se : Z) : cfs_rq :=
  mk_rq (cfs_load r) (nr_running r) (cfs_min_vruntime r) (timeline_root r) (rb_leftmost r) (curr r)
    (match b with Next => se | _ => next r end) (match b with Last => se | _ => last r end) (match b with Skip => se | _ => skip r end) (rt r).

Definition tree_of (w : world) (r : cfs_rq) : mem := mk_mem (timeline_root r) (tree_nodes w).
Definition put_tree (w : world) (q : Z) (r : cfs_rq) (m : mem) (leftmost : Z) : world :=
  mk_world (nodes m) (entities w) (<[q := set_timeline r (root m) leftmost]> (queues w)) (groups w) (tun w) (feat w).

(** ** Virtual time *)

Definition max_vruntime (max_vruntime vruntime : Z) : Z :=
  if s64 (u64 (vruntime - max_vruntime)) >? 0 then vruntime else max_vruntime.
Definition min_vruntime (min_vruntime vruntime : Z) : Z :=
  if s64 (u64 (vruntime - min_vruntime)) <? 0 then vruntime else min_vruntime.

Definition vruntime_before (a b : Z) : bool := s64 (u64 (a - b)) <? 0.
Definition entity_before (w : world) (a b : Z) : res bool :=
  ea <-- entity w a; eb <-- entity w b; Ok (vruntime_before (vruntime ea) (vruntime eb)).

Definition update_min_vruntime (w : world) (q : Z) : res world :=
  r <-- queue w q;
  '(curr, vr) <--
    (if negb (curr r =? NULL) then
       c <-- entity w (curr r);
       Ok (if on_rq c then (curr r, vruntime c) else (NULL, cfs_min_vruntime r))
     else Ok (NULL, cfs_min_vruntime r));
  vr <--
    (if negb (rb_leftmost r =? NULL) then
       se <-- entity w (rb_leftmost r);
       Ok (if curr =? NULL then vruntime se else min_vruntime vr (vruntime se))
     else Ok vr);
  Ok (put_queue w q (set_min_vruntime r (max_vruntime (cfs_min_vruntime r) vr))).

(** ** The timeline *)

Fixpoint enqueue_loop (fuel : nat) (w : world) (m : mem) (se parent : Z) (l : link) (leftmost : bool) : res (Z * link * bool) :=
  match fuel with
  | O => Fault NoFuel
  | S fuel =>
    cur <-- deref m l;
    if cur =? NULL then Ok (parent, l, leftmost)
    else
      let parent := cur in
      b <-- entity_before w se parent;
      if b : bool then enqueue_loop fuel w m se parent (ChildLink parent Lt) leftmost
      else enqueue_loop fuel w m se parent (ChildLink parent Rt) false
  end.

Definition __enqueue_entity (w : world) (q se : Z) : res world :=
  r <-- queue w q;
  let m := tree_of w r in
  '(parent, l, leftmost) <-- enqueue_loop (S (size (nodes m))) w m se NULL RootLink true;
  m <-- rb_link_node m se parent l;
  '(m, lm) <-- rb_insert_color_cached m (rb_leftmost r) se leftmost;
  Ok (put_tree w q r m lm).

Definition __dequeue_entity (w : world) (q se : Z) : res world :=
  r <-- queue w q;
  '(m, lm, _) <-- rb_erase_cached (tree_of w r) (rb_leftmost r) se;
  Ok (put_tree w q r m lm).

Definition __pick_first_entity (w : world) (q : Z) : res Z := r <-- queue w q; Ok (rb_leftmost r).
Definition __pick_next_entity (w : world) (q se : Z) : res Z := r <-- queue w q; rb_next (tree_of w r) se.
Definition __pick_last_entity (w : world) (q : Z) : res Z := r <-- queue w q; rb_last (tree_of w r).

(** ** Buddies *)

(** [for_each_sched_entity]: up the chain of parents while the queue's buddy is the entity. *)
Fixpoint __clear_buddies (fuel : nat) (b : buddy) (w : world) (se : Z) : res world :=
  match fuel with
  | O => Fault NoFuel
  | S fuel =>
    if se =? NULL then Ok w
    else
      e <-- entity w se;
      r <-- queue w (cfs_rq_ptr e);
      if negb (buddy_of b r =? se) then Ok w
      else __clear_buddies fuel b (put_queue w (cfs_rq_ptr e) (set_buddy b r NULL)) (parent e)
  end.

Definition clear_buddy (b : buddy) (w : world) (q se : Z) : res world :=
  r <-- queue w q;
  if buddy_of b r =? se then __clear_buddies (S (size (entities w))) b w se else Ok w.

Definition clear_buddies (w : world) (q se : Z) : res world :=
  w <-- clear_buddy Last w q se;
  w <-- clear_buddy Next w q se;
  clear_buddy Skip w q se.

(** [set_last_buddy] and [set_next_buddy]: up the chain while the entities are queued. *)
Fixpoint set_buddy_loop (fuel : nat) (b : buddy) (check : bool) (w : world) (se : Z) : res world :=
  match fuel with
  | O => Fault NoFuel
  | S fuel =>
    if se =? NULL then Ok w
    else
      e <-- entity w se;
      if check && negb (on_rq e) then Ok w
      else
        r <-- queue w (cfs_rq_ptr e);
        set_buddy_loop fuel b check (put_queue w (cfs_rq_ptr e) (set_buddy b r se)) (parent e)
  end.
Definition entity_is_task (e : sched_entity) : bool := my_q e =? NULL.
Definition set_buddy_checked (b : buddy) (w : world) (se : Z) : res world :=
  e <-- entity w se;
  if entity_is_task e && idle_policy e then Ok w else set_buddy_loop (S (size (entities w))) b true w se.
Definition set_last_buddy : world -> Z -> res world := set_buddy_checked Last.
Definition set_next_buddy : world -> Z -> res world := set_buddy_checked Next.
Definition set_skip_buddy (w : world) (se : Z) : res world := set_buddy_loop (S (size (entities w))) Skip false w se.

(** ** Preemption *)

(** [calc_delta_fair] of an entity, which may cache the inverse of its weight. *)
Definition entity_delta_fair (w : world) (delta se : Z) : res (Z * world) :=
  e <-- entity w se;
  '(d, lw) <-- calc_delta_fair delta (load e);
  Ok (d, put_entity w se (set_load e lw)).

Definition wakeup_gran (w : world) (se : Z) : res (Z * world) :=
  entity_delta_fair w (sysctl_sched_wakeup_granularity (tun w)) se.

Definition wakeup_preempt_entity (w : world) (curr se : Z) : res (Z * world) :=
  ec <-- entity w curr;
  es <-- entity w se;
  let vdiff := s64 (u64 (vruntime ec - vruntime es)) in
  if vdiff <=? 0 then Ok (-1, w)
  else
    '(gran, w) <-- wakeup_gran w se;
    Ok (if vdiff >? s64 gran then 1 else 0, w).

(** [if (cand && wakeup_preempt_entity(cand, left) < 1) se = cand] *)
Definition prefer (w : world) (cand left se : Z) : res (Z * world) :=
  if negb (cand =? NULL) then
    '(ret, w) <-- wakeup_preempt_entity w cand left;
    Ok (if ret <? 1 then cand else se, w)
  else Ok (se, w).

(** [if (!se || (curr && entity_before(curr, se))) se = curr] *)
Definition or_curr (w : world) (curr se : Z) : res Z :=
  if se =? NULL then Ok curr
  else if negb (curr =? NULL) then b <-- entity_before w curr se; Ok (if b : bool then curr else se)
  else Ok se.

Definition pick_next_entity (w : world) (q curr : Z) : res (Z * world) :=
  left <-- __pick_first_entity w q;
  left <-- or_curr w curr left;
  let se := left in
  r <-- queue w q;
  '(se, w) <--
    (if skip r =? se then
       second <--
         (if se =? curr then __pick_first_entity w q
          else second <-- __pick_next_entity w q se; or_curr w curr second);
       prefer w second left se
     else Ok (se, w));
  '(se, w) <-- prefer w (last r) left se;
  '(se, w) <-- prefer w (next r) left se;
  w <-- clear_buddies w q se;
  Ok (se, w).

(** ** Slices and placement *)

(** The loop of [sched_slice] up the hierarchy; the load of a queue is used in place, that of
    an entity that is not queued yet is added to a copy. *)
Fixpoint slice_loop (fuel : nat) (w : world) (slice se : Z) : res (Z * world) :=
  match fuel with
  | O => Fault NoFuel
  | S fuel =>
    if se =? NULL then Ok (slice, w)
    else
      e <-- entity w se;
      r <-- queue w (cfs_rq_ptr e);
      '(slice, w) <--
        (if negb (on_rq e) then
           '(slice, _) <-- __calc_delta slice (weight (load e)) (update_load_add (cfs_load r) (weight (load e)));
           Ok (slice, w)
         else
           '(slice, lw) <-- __calc_delta slice (weight (load e)) (cfs_load r);
           Ok (slice, put_queue w (cfs_rq_ptr e) (set_cfs_load r lw)));
      slice_loop fuel w slice (parent e)
  end.

Definition sched_slice (w : world) (q se : Z) : res (Z * world) :=
  r <-- queue w q;
  e <-- entity w se;
  let slice := __sched_period (tun w) (u32 (nr_running r + if on_rq e then 0 else 1)) in
  slice_loop (S (size (entities w))) w slice se.

Definition sched_vslice (w : world) (q se : Z) : res (Z * world) :=
  '(slice, w) <-- sched_slice w q se;
  entity_delta_fair w slice se.

Definition place_entity (w : world) (q se : Z) (initial : bool) : res world :=
  r <-- queue w q;
  let vr := cfs_min_vruntime r in
  '(vr, w) <--
    (if initial && START_DEBIT (feat w) then
       '(vs, w) <-- sched_vslice w q se; Ok (u64 (vr + vs), w)
     else Ok (vr, w));
  let vr :=
    if initial then vr
    else
      let thresh := sysctl_sched_latency (tun w) in
      let thresh := if GENTLE_FAIR_SLEEPERS (feat w) then Z.shiftr thresh 1 else thresh in
      u64 (vr - thresh) in
  e <-- entity w se;
  Ok (put_entity w se (set_vruntime e (max_vruntime (vruntime e) vr))).

(** The second component says whether [resched_curr] was called. *)
Definition check_preempt_tick (w : world) (q curr : Z) : res (world * bool) :=
  '(ideal_runtime, w) <-- sched_slice w q curr;
  c <-- entity w curr;
  let delta_exec := u64 (sum_exec_runtime c - prev_sum_exec_runtime c) in
  if delta_exec >? ideal_runtime then
    w <-- clear_buddies w q curr; Ok (w, true)
  else if delta_exec <? sysctl_sched_min_granularity (tun w) then Ok (w, false)
  else
    se <-- __pick_first_entity w q;
    e <-- entity w se;
    let delta := s64 (u64 (vruntime c - vruntime e)) in
    if delta <? 0 then Ok (w, false) else Ok (w, u64 delta >? ideal_runtime).
