(* ===== verification/CfsTimeline.v ===== *)
(** * Correctness of the fair scheduler's queue

    Virtual times are 64-bit counters that wrap.  Everything is stated relative to a base
    [b]: the entities at hand are within half of the range ahead of it, and their order is
    the order of their offsets from [b]. *)

From stdpp Require Import gmap sorting.
From S2P Require Import Prelude Rbtree RbtreeTree RbtreeInsert RbtreeErase RbtreeUnlink RbtreeIter RbtreeFind RbtreeFrame CfsWeight CfsQueue.
Local Open Scope Z_scope.
Local Open Scope res_scope.

(** ** Wrapping time *)

Definition off (b v : Z) : Z := u64 (v - b).
Definition ahead (b v : Z) : Prop := off b v < 2 ^ 63.

Lemma off_range b v : 0 <= off b v < 2 ^ 64.
Proof. apply u64_range. Qed.

Lemma s64_diff b x y : ahead b x -> ahead b y -> s64 (u64 (x - y)) = off b x - off b y.
Proof.
  unfold ahead. intros Hx Hy. pose proof (off_range b x). pose proof (off_range b y).
  apply s64_near; [|lia]. unfold off, u64. rewrite Z.mod_mod by lia.
  rewrite Zminus_mod_idemp_l, Zminus_mod_idemp_r. f_equal. lia.
Qed.

Lemma before_off b x y : ahead b x -> ahead b y -> vruntime_before x y = (off b x <? off b y).
Proof.
  intros Hx Hy. unfold vruntime_before. rewrite (s64_diff b) by done. destruct (Z.ltb_spec (off b x) (off b y)); zcase; done.
Qed.

Lemma max_off b x y : ahead b x -> ahead b y -> off b (max_vruntime x y) = Z.max (off b x) (off b y) /\ ahead b (max_vruntime x y).
Proof.
  intros Hx Hy. unfold max_vruntime. rewrite (s64_diff b) by done. rewrite Z.gtb_ltb.
  destruct (Z.ltb_spec 0 (off b y - off b x)); (split; [lia|done]).
Qed.

Lemma min_off b x y : ahead b x -> ahead b y -> off b (min_vruntime x y) = Z.min (off b x) (off b y) /\ ahead b (min_vruntime x y).
Proof.
  intros Hx Hy. unfold min_vruntime. rewrite (s64_diff b) by done.
  destruct (Z.ltb_spec (off b y - off b x) 0); (split; [lia|done]).
Qed.

(** ** The timeline of a queue *)

Definition less (w : world) (x y : Z) : bool :=
  match entities w !! x, entities w !! y with
  | Some ex, Some ey => vruntime_before (vruntime ex) (vruntime ey)
  | _, _ => false
  end.

Definition near (w : world) (b x : Z) : Prop := exists e, entities w !! x = Some e /\ ahead b (vruntime e).

(** The virtual time of an entity, from [b]. *)
Definition at_ (w : world) (b x : Z) : Z := match entities w !! x with Some e => off b (vruntime e) | None => 0 end.

Lemma less_at w b x y : near w b x -> near w b y -> less w x y = (at_ w b x <? at_ w b y).
Proof. intros (ex&Ex&Hx) (ey&Ey&Hy). unfold less, at_. rewrite Ex, Ey. by apply before_off. Qed.

#[export] Instance vruntime_order w b : NodeOrder (less w) (near w b).
Proof.
  split; intros.
  - rewrite (less_at w b) in * by done. apply Z.ltb_lt in H1. apply Z.ltb_ge. lia.
  - rewrite (less_at w b) in * by done. apply Z.ltb_ge in H2, H3. apply Z.ltb_ge. lia.
Qed.

(** The queue holds the entities [l], in this order. *)
Definition timeline (w : world) (q b : Z) (l : list Z) : Prop :=
  exists r t, queues w !! q = Some r /\ holds_tree (tree_of w r) t /\ rb_tree t /\
    rb_leftmost r = hd NULL (elements t) /\ elements t = l /\ Forall (near w b) l /\ in_order (less w) l.

(** A timeline depends on the nodes, the queue's root and the virtual times of what it holds. *)
Lemma timeline_ext w w' q b l r r' : tree_nodes w' = tree_nodes w -> queues w !! q = Some r -> queues w' !! q = Some r' ->
  timeline_root r' = timeline_root r -> rb_leftmost r' = rb_leftmost r ->
  (forall x, x ∈ l -> vruntime <$> entities w' !! x = vruntime <$> entities w !! x) ->
  timeline w q b l -> timeline w' q b l.
Proof.
  intros En Hr Hr' Eroot Elm Hv (r0&t&Hr0&Hm&Hrb&Hlm&He&Hn&Ho). rewrite Hr in Hr0. injection Hr0 as <-.
  assert (Hl : forall x y, x ∈ l -> y ∈ l -> less w' x y = less w x y).
  { intros x y Hx Hy. specialize (Hv x Hx) as Vx. specialize (Hv y Hy) as Vy. unfold less.
    destruct (entities w' !! x), (entities w !! x), (entities w' !! y), (entities w !! y); simpl in *; congruence. }
  exists r', t. split; [done|]. split; [unfold tree_of; by rewrite En, Eroot|]. split; [done|]. split; [congruence|]. split; [done|]. split.
  - apply Forall_forall. intros x Hx. eapply Forall_forall in Hn; [|exact Hx]. destruct Hn as (e&Ee&Ha). specialize (Hv x Hx).
    rewrite Ee in Hv. destruct (entities w' !! x) as [e'|] eqn:Ee'; [|done]. simpl in Hv. injection Hv as Hv. exists e'. by rewrite Ee', Hv.
  - clear -Hl Ho. unfold in_order in *. induction Ho as [|x l Ho IH Hx]; [constructor|]. constructor.
    + apply IH. intros y z Hy Hz. apply Hl; by apply list_elem_of_further.
    + apply Forall_forall. intros y Hy. eapply Forall_forall in Hx; [|exact Hy]. simpl in *. rewrite Hl; [done|..]; set_solver.
Qed.

Lemma before_ok w b x y : near w b x -> near w b y -> entity_before w x y = Ok (less w x y).
Proof. intros (ex&Ex&_) (ey&Ey&_). unfold entity_before, entity, less. by rewrite Ex, Ey. Qed.

Lemma enqueue_loop_ok w b fuel m k t x lm : zip m k t -> near w b x -> Forall (near w b) (elements t) ->
  enqueue_loop fuel w m x (up k) (link_of k) lm = add_loop (less w) fuel m x (up k) (link_of k) lm.
Proof.
  intros HZ Hx. revert fuel k lm HZ. induction t as [|c l IHl n r IHr]; intros fuel k lm HZ Ht; (destruct fuel as [|fuel]; [done|]);
    cbn [enqueue_loop add_loop]; rewrite (deref_ok _ _ _ HZ); cbn [res_bind ptr]; [done|].
  rewrite (zip_ptr _ _ _ _ _ _ HZ). simpl in Ht. apply Forall_app in Ht as [Hl Ht]. apply Forall_cons in Ht as [Hn Hr].
  rewrite (before_ok w b) by done. cbn [res_bind]. destruct (less w x n).
  - apply (IHl fuel (F Lt c n r :: k)); [by rewrite zip_down|done].
  - apply (IHr fuel (F Rt c n l :: k)); [by rewrite zip_down|done].
Qed.

(** Where a new entity goes: after all that are not behind it. *)
Fixpoint place (lt : Z -> Z -> bool) (x : Z) (l : list Z) : list Z :=
  match l with
  | [] => [x]
  | a :: l' => if lt x a then x :: l else a :: place lt x l'
  end.

Lemma place_split lt x xs ys : Forall (fun a => lt x a = false) xs -> Forall (fun b => lt x b = true) ys ->
  place lt x (xs ++ ys) = xs ++ x :: ys.
Proof.
  intros Hx Hy. induction Hx as [|a xs Ha _ IH]; simpl; [|by rewrite Ha, IH].
  destruct ys as [|y ys]; [done|]. apply Forall_cons in Hy as [Hy _]. simpl. by rewrite Hy.
Qed.

Lemma place_in lt x l y : y ∈ place lt x l <-> y = x \/ y ∈ l.
Proof.
  induction l as [|a l IH]; simpl; [rewrite list_elem_of_singleton, elem_of_nil; tauto|]. destruct (lt x a); rewrite !elem_of_cons, ?IH; tauto.
Qed.

Lemma queue_ok w q r : queues w !! q = Some r -> queue w q = Ok r.
Proof. intros H. unfold queue. by rewrite H. Qed.
Lemma entity_ok w p e : entities w !! p = Some e -> entity w p = Ok e.
Proof. intros H. unfold entity. by rewrite H. Qed.

(** What the timeline operations leave alone. *)
Record same_but_tree (w w' : world) (q : Z) : Prop := {
  sbt_entities : entities w' = entities w;
  sbt_nodes : dom (tree_nodes w') = dom (tree_nodes w);
  sbt_others : forall q', q' <> q -> queues w' !! q' = queues w !! q';
  sbt_queue : forall r, queues w !! q = Some r -> exists rt lm, queues w' !! q = Some (set_timeline r rt lm);
  sbt_groups : groups w' = groups w;
  sbt_tun : tun w' = tun w /\ feat w' = feat w }.

Lemma put_tree_same w q r m lm : queues w !! q = Some r -> dom (nodes m) = dom (tree_nodes w) ->
  same_but_tree w (put_tree w q r m lm) q.
Proof.
  intros Hr H. split; simpl; [done|done| | |done|done].
  - intros q' Hq. by rewrite lookup_insert_ne.
  - intros r' Hr'. rewrite Hr in Hr'. injection Hr' as <-. eexists _, _. apply lookup_insert_eq.
Qed.

Lemma put_tree_timeline w q r m t b l : holds_tree m t -> rb_tree t -> elements t = l -> Forall (near w b) l ->
  in_order (less w) l -> timeline (put_tree w q r m (hd NULL (elements t))) q b l.
Proof.
  intros Hm Hrb He Hn Ho. exists (set_timeline r (root m) (hd NULL (elements t))), t. split; [apply lookup_insert_eq|].
  split; [by destruct m|]. split; [done|]. split; [done|]. split; [done|]. split; [exact Hn|exact Ho].
Qed.

Lemma enqueue_ok w q b l x : timeline w q b l -> near w b x -> x ∈ dom (tree_nodes w) -> address x -> x ∉ l ->
  exists w', __enqueue_entity w q x = Ok w' /\ timeline w' q b (place (less w) x l) /\ same_but_tree w w' q.
Proof.
  intros (r&t&Hq&Hm&Hrb&Hlm&He&Hn&Ho) Hx Hd Ha Hxl. apply elem_of_dom in Hd as [v Hv]. subst l.
  destruct (add_ok (less w) (tree_of w r) x v t Hm Hrb Hv Ha Hxl) as (k&xs&ys&m1&m2&t'&E1&E2&E3&H1&H2&E4&E5&F1&F2).
  { by eapply order_cut; [apply (vruntime_order w b)|..]. }
  assert (Eplace : place (less w) x (elements t) = elements t') by by rewrite E4, E5, place_split.
  assert (K : keeps fst (tree_of w r) (m <-- rb_link_node (tree_of w r) x (up k) (link_of k);
    rb_insert_color_cached m (rb_leftmost r) x (nil_list xs))).
  { apply (keeps_write (fun m => m)); [apply rb_link_node_kept|]. intros a _. apply rb_insert_color_cached_kept. }
  assert (Erun : (m <-- rb_link_node (tree_of w r) x (up k) (link_of k);
    rb_insert_color_cached m (rb_leftmost r) x (nil_list xs)) = Ok (m2, hd NULL (elements t'))).
  { rewrite E2. cbn [res_bind]. unfold rb_insert_color_cached. rewrite E3. cbn [res_bind].
    rewrite Hlm, E4, E5. by destruct xs. }
  specialize (K _ Erun). simpl in K.
  exists (put_tree w q r m2 (hd NULL (elements t'))). split; [|split; [|apply put_tree_same; done]].
  - unfold __enqueue_entity. rewrite (queue_ok _ _ _ Hq). cbn [res_bind].
    pose proof (enqueue_loop_ok w b (S (size (nodes (tree_of w r)))) (tree_of w r) [] t x true Hm Hx Hn) as El.
    cbn [up link_of] in El. rewrite El, E1. cbn [res_bind]. rewrite E2 in Erun |- *. cbn [res_bind] in Erun |- *. by rewrite Erun.
  - rewrite Eplace. apply put_tree_timeline; [done|done|done|..].
    + rewrite E5. rewrite E4 in Hn. apply Forall_app in Hn as [N1 N2]. apply Forall_app. split; [done|]. by apply List.Forall_cons.
    + rewrite E5. rewrite E4 in Hn, Ho. by eapply order_insert; [apply (vruntime_order w b)|..].
Qed.

Lemma sublist_order {A} (R : relation A) xs x ys : StronglySorted R (xs ++ x :: ys) -> StronglySorted R (xs ++ ys).
Proof.
  intros H. apply StronglySorted_app in H as (H1&H2&H3). apply StronglySorted_inv in H3 as [H3 _].
  apply StronglySorted_app_2; [|done..]. intros a b Ha Hb. apply H1; [done|]. by apply list_elem_of_further.
Qed.

Lemma dequeue_ok w q b xs x ys : timeline w q b (xs ++ x :: ys) ->
  exists w', __dequeue_entity w q x = Ok w' /\ timeline w' q b (xs ++ ys) /\ same_but_tree w w' q.
Proof.
  intros (r&t&Hq&Hm&Hrb&Hlm&He&Hn&Ho).
  destruct (rb_erase_cached_ok (tree_of w r) t xs x ys Hm Hrb He) as (m'&t'&E1&H1&H2&H3).
  pose proof (rb_erase_cached_kept (tree_of w r) (rb_leftmost r) x) as K. rewrite Hlm in K. specialize (K _ E1). simpl in K.
  exists (put_tree w q r m' (hd NULL (elements t'))). split; [|split; [|apply put_tree_same; done]].
  - unfold __dequeue_entity. rewrite (queue_ok _ _ _ Hq). cbn [res_bind]. rewrite Hlm, E1. done.
  - apply put_tree_timeline; [done|done|done|..].
    + apply Forall_app in Hn as [N1 N2]. apply Forall_cons in N2 as [_ N2]. by apply Forall_app.
    + by eapply sublist_order.
Qed.

(** ** Sequences of operations *)

Inductive tl_op := Enq (x : Z) | Deq (x : Z).

Definition run_op (w : world) (q : Z) (o : tl_op) : res world :=
  match o with Enq x => __enqueue_entity w q x | Deq x => __dequeue_entity w q x end.
Fixpoint run_ops (w : world) (q : Z) (ops : list tl_op) : res world :=
  match ops with
  | [] => Ok w
  | o :: ops => w <-- run_op w q o; run_ops w q ops
  end.

(** The specification: a list kept in order, equals first come first served. *)
Definition spec_op (lt : Z -> Z -> bool) (o : tl_op) (l : list Z) : list Z :=
  match o with Enq x => place lt x l | Deq x => filter (fun y => y <> x) l end.

Definition op_ok (w : world) (b : Z) (o : tl_op) (l : list Z) : Prop :=
  match o with
  | Enq x => near w b x /\ x ∈ dom (tree_nodes w) /\ address x /\ x ∉ l
  | Deq x => x ∈ l
  end.
Fixpoint ops_ok (w : world) (b : Z) (ops : list tl_op) (l : list Z) : Prop :=
  match ops with
  | [] => True
  | o :: ops => op_ok w b o l /\ ops_ok w b ops (spec_op (less w) o l)
  end.

Lemma filter_mid (x : Z) xs ys : NoDup (xs ++ x :: ys) -> filter (fun y => y <> x) (xs ++ x :: ys) = xs ++ ys.
Proof.
  intros H. apply NoDup_app in H as (_&H1&H2). apply NoDup_cons in H2 as [H2 _].
  assert (G : forall l : list Z, x ∉ l -> filter (fun y => y <> x) l = l).
  { intros l Hl. induction l as [|a l IH]; [done|]. apply not_elem_of_cons in Hl as [Ha Hl]. rewrite filter_cons_True by congruence.
    by rewrite IH. }
  rewrite filter_app, filter_cons_False by tauto. rewrite !G; [done|done|]. intros Hx. apply (H1 _ Hx). apply list_elem_of_here.
Qed.

Lemma timeline_nodup w q b l : timeline w q b l -> NoDup l.
Proof. intros (r&t&_&Hm&_&_&<-&_). by eapply holds_nodup. Qed.

Lemma run_op_ok w q b l o : timeline w q b l -> op_ok w b o l ->
  exists w', run_op w q o = Ok w' /\ timeline w' q b (spec_op (less w) o l) /\ same_but_tree w w' q.
Proof.
  intros HT Ho. destruct o as [x|x]; simpl in *; [destruct Ho as (?&?&?&?); by apply enqueue_ok|].
  apply list_elem_of_split in Ho as (xs&ys&->). rewrite filter_mid by by eapply timeline_nodup. by apply dequeue_ok.
Qed.

Lemma less_same w w' : entities w' = entities w -> less w' = less w.
Proof. intros E0. unfold less. by rewrite E0. Qed.

Lemma ops_ok_same w w' b ops l : entities w' = entities w -> dom (tree_nodes w') = dom (tree_nodes w) ->
  ops_ok w b ops l -> ops_ok w' b ops l.
Proof.
  intros E1 E2. revert l. induction ops as [|o ops IH]; intros l; [done|]. simpl. rewrite (less_same w w') by done.
  intros [H1 H2]. split; [|auto]. destruct o; simpl in *; [|done]. unfold near in *. by rewrite E1, E2.
Qed.

Lemma same_but_tree_refl w q : same_but_tree w w q.
Proof. split; try done. intros r Hr. exists (timeline_root r), (rb_leftmost r). by destruct r. Qed.

Lemma run_ops_ok w q b l ops : timeline w q b l -> ops_ok w b ops l ->
  exists w', run_ops w q ops = Ok w' /\ timeline w' q b (fold_left (fun l o => spec_op (less w) o l) ops l) /\ same_but_tree w w' q.
Proof.
  revert w l. induction ops as [|o ops IH]; intros w l HT Ho; simpl in *;
    [exists w; split; [done|]; split; [done|apply same_but_tree_refl]|]. destruct Ho as [Ho Hops].
  destruct (run_op_ok w q b l o HT Ho) as (w1&E1&HT1&[S1 S2 S3 S5 S6 S4]). rewrite E1. cbn [res_bind].
  destruct (IH w1 _ HT1) as (w2&E2&HT2&[R1 R2 R3 R5 R6 R4]); [by eapply ops_ok_same|].
  exists w2. split; [done|]. rewrite (less_same w w1) in HT2 by done. split; [done|].
  split; [congruence|congruence| | |congruence|destruct S4, R4; split; congruence].
  - intros q' Hq. rewrite R3, S3; done.
  - intros r Hr. destruct (S5 r Hr) as (rt1&lm1&Hr1). destruct (R5 _ Hr1) as (rt2&lm2&Hr2). by eexists _, _.
Qed.

(** The first of a timeline has the smallest virtual time. *)
Lemma first_lowest w q b l x y : timeline w q b l -> head l = Some x -> y ∈ l -> at_ w b x <= at_ w b y.
Proof.
  intros (r&t&_&_&_&_&_&Hn&Ho) Hx Hy. destruct l as [|z l]; [done|]. simpl in Hx. injection Hx as ->.
  apply elem_of_cons in Hy as [-> |Hy]; [done|]. apply StronglySorted_inv in Ho as [_ Ho]. apply Forall_cons in Hn as [N1 N2].
  eapply Forall_forall in Ho; [|exact Hy]. eapply Forall_forall in N2; [|exact Hy]. simpl in Ho.
  rewrite (less_at w b) in Ho by done. apply Z.ltb_ge in Ho. done.
Qed.

(** C7: the timeline.  Any valid sequence of [__enqueue_entity] and [__dequeue_entity] on a
    queue ends without a fault and leaves a red-black tree whose order is that of a list
    kept by virtual time, equal times first come first served, however the 64-bit times
    wrap; [__pick_first_entity] then returns an entity with the smallest virtual time (NULL
    when there is none), [__pick_last_entity] the last and [__pick_next_entity] the next;
    no entity and no other queue changes. *)
Theorem cfs_timeline_refines w q b l ops : timeline w q b l -> ops_ok w b ops l ->
  exists w', run_ops w q ops = Ok w' /\ same_but_tree w w' q /\
    let l' := fold_left (fun l o => spec_op (less w) o l) ops l in
    timeline w' q b l' /\
    __pick_first_entity w' q = Ok (hd NULL l') /\ __pick_last_entity w' q = Ok (List.last l' NULL) /\
    (forall x y, head l' = Some x -> y ∈ l' -> at_ w b x <= at_ w b y) /\
    (forall xs x ys, l' = xs ++ x :: ys -> __pick_next_entity w' q x = Ok (hd NULL ys)).
Proof.
  intros HT Ho. destruct (run_ops_ok w q b l ops HT Ho) as (w'&E1&HT'&HS). exists w'. split; [done|]. split; [done|].
  cbv zeta. set (l' := fold_left _ ops l) in *. split; [done|]. pose proof HT' as (r&t&Hq&Hm&Hrb&Hlm&He&Hn&Hord).
  unfold __pick_first_entity, __pick_last_entity, __pick_next_entity. rewrite (queue_ok _ _ _ Hq). cbn [res_bind].
  destruct (ends_ok _ _ Hm) as [_ Hlast]. rewrite Hlm, He. split; [done|]. rewrite <- He at 1. split; [by rewrite Hlast|]. split.
  - intros x y Hx Hy. pose proof (first_lowest w' q b l' x y HT' Hx Hy) as H. unfold at_ in *.
    by rewrite (sbt_entities _ _ _ HS) in H.
  - intros xs x ys Hsplit. rewrite Hsplit in He. by destruct (neighbours_ok _ _ _ _ _ Hm He) as [-> _].
Qed.
