(* ===== verification/CfsPick.v ===== *)
(** * Choosing the next entity: the queue's clock, fairness of the choice, placement *)

From stdpp Require Import gmap sorting.
From S2P Require Import Prelude Pelt Rbtree RbtreeTree RbtreeInsert RbtreeErase RbtreeUnlink RbtreeIter RbtreeFind RbtreeFrame CfsWeight CfsQueue CfsTimeline.
Local Open Scope Z_scope.
Local Open Scope res_scope.

(** ** The clock of a queue *)

(** The entity that runs on the queue, when it is still runnable. *)
Definition running (w : world) (r : cfs_rq) : list Z :=
  if curr r =? NULL then [] else match entities w !! curr r with Some e => if on_rq e then [curr r] else [] | None => [] end.

Definition curr_ok (w : world) (b : Z) (r : cfs_rq) : Prop :=
  curr r = NULL \/ exists e, entities w !! curr r = Some e /\ (on_rq e = true -> ahead b (vruntime e)).

Lemma near_ne m t x : holds_tree m t -> x ∈ elements t -> x <> NULL.
Proof. intros Hm Hx ->. pose proof (zip_elem_ne _ _ _ Hm Hx) as H. by rewrite Z.eqb_refl in H. Qed.

(** [c] runs with the virtual time [vr], or nothing does and [vr] is the queue's clock. *)
Definition runs (w : world) (b : Z) (r : cfs_rq) (c vr : Z) : Prop :=
  running w r = [] /\ c = NULL /\ vr = cfs_min_vruntime r \/
  running w r = [c] /\ (c =? NULL) = false /\ at_ w b c = off b vr /\ ahead b vr.

Lemma running_ok w b r : curr_ok w b r -> exists c vr,
  (if negb (curr r =? NULL) then
     c <-- entity w (curr r);
     Ok (if on_rq c then (curr r, vruntime c) else (NULL, cfs_min_vruntime r))
   else Ok (NULL, cfs_min_vruntime r)) = Ok (c, vr) /\ runs w b r c vr.
Proof.
  intros Hc. unfold runs, running. destruct (Z.eqb_spec (curr r) NULL) as [E0|E0]; cbn [negb]; [by eexists _, _; split; [done|left]|].
  destruct Hc as [Hc|(e&Ee&Ha)]; [done|]. rewrite (entity_ok _ _ _ Ee), Ee. cbn [res_bind]. destruct (on_rq e) eqn:Eo.
  - eexists _, _. split; [done|]. right. split; [done|]. split; [by apply Z.eqb_neq|]. split; [unfold at_; by rewrite Ee|auto].
  - eexists _, _. split; [done|]. by left.
Qed.

(** [x] is a lowest of the entities [l]. *)
Definition lowest (w : world) (b : Z) (x : Z) (l : list Z) : Prop := x ∈ l /\ forall y, y ∈ l -> at_ w b x <= at_ w b y.

Lemma lowest_cons w b c x l : lowest w b x l -> exists z, lowest w b z (c :: l) /\ at_ w b z = Z.min (at_ w b c) (at_ w b x).
Proof.
  intros [Hx Hl]. destruct (Z.le_gt_cases (at_ w b c) (at_ w b x)) as [H|H]; [exists c|exists x];
    (split; [split; [by constructor|]|lia]); intros y Hy; apply elem_of_cons in Hy as [-> |Hy]; try lia; specialize (Hl y Hy); lia.
Qed.

Lemma leftmost_ok w q b l r c vr : timeline w q b l -> runs w b r c vr -> exists v,
  (if negb (hd NULL l =? NULL) then
     se <-- entity w (hd NULL l);
     Ok (if c =? NULL then vruntime se else min_vruntime vr (vruntime se))
   else Ok vr) = Ok v /\
  (running w r ++ l = [] /\ v = cfs_min_vruntime r \/
   ahead b v /\ exists x, lowest w b x (running w r ++ l) /\ off b v = at_ w b x).
Proof.
  intros HT Hrun. destruct l as [|x l]; cbn [hd].
  - rewrite Z.eqb_refl. cbn [negb]. exists vr. split; [done|]. destruct Hrun as [(->&->&->)|(->&_&Ec&Ha)]; [by left|right].
    split; [done|]. exists c. split; [|done]. split; [by constructor|]. intros y Hy. apply list_elem_of_singleton in Hy as ->. done.
  - assert (Hlow : lowest w b x (x :: l)) by (split; [constructor|intros y; by eapply first_lowest]).
    destruct HT as (r'&t&_&Hh&_&_&He&Hn&_). apply Forall_cons in Hn as [(ex&Ex&Hx) _].
    rewrite (proj2 (Z.eqb_neq x NULL)) by (eapply near_ne; [exact Hh|rewrite He; constructor]). cbn [negb].
    rewrite (entity_ok _ _ _ Ex). cbn [res_bind]. assert (Eat : at_ w b x = off b (vruntime ex)) by (unfold at_; by rewrite Ex).
    eexists. split; [done|]. right. destruct Hrun as [(->&->&_)|(->&Ec&Eac&Ha)].
    + rewrite Z.eqb_refl. split; [done|]. by exists x.
    + rewrite Ec. destruct (min_off b vr (vruntime ex) Ha Hx) as [Em Hma]. split; [done|].
      destruct (lowest_cons w b c x _ Hlow) as (z&Hz&Ez). exists z. split; [done|]. rewrite Em, Ez. congruence.
Qed.

Lemma update_min_vruntime_ok w q b l r : timeline w q b l -> queues w !! q = Some r ->
  curr_ok w b r -> ahead b (cfs_min_vruntime r) ->
  let old := off b (cfs_min_vruntime r) in
  let runnable := running w r ++ l in
  exists v, update_min_vruntime w q = Ok (put_queue w q (set_min_vruntime r v)) /\ ahead b v /\ old <= off b v /\
    (runnable = [] -> v = cfs_min_vruntime r) /\
    (runnable <> [] -> exists x, lowest w b x runnable /\ off b v = Z.max old (at_ w b x)).
Proof.
  intros HT Hq Hc Hm old runnable. unfold update_min_vruntime. rewrite (queue_ok _ _ _ Hq). cbn [res_bind].
  assert (Hlm : rb_leftmost r = hd NULL l).
  { destruct HT as (r'&t&Hq'&_&_&Hlm&He&_). rewrite Hq in Hq'. injection Hq' as <-. by rewrite Hlm, He. }
  destruct (running_ok w b r Hc) as (c&vr&E1&Hrun). rewrite E1, Hlm. cbn [res_bind].
  destruct (leftmost_ok w q b l r c vr HT Hrun) as (v1&E2&Hleft). rewrite E2. cbn [res_bind]. eexists. split; [done|].
  destruct Hleft as [[Hr ->]|(Ha1&x&Hx&Ex)].
  - destruct (max_off b (cfs_min_vruntime r) (cfs_min_vruntime r) Hm Hm) as [Emax Ham]. split; [done|]. split; [unfold old; lia|].
    split; [|done]. intros _. unfold max_vruntime. by rewrite Z.sub_diag.
  - destruct (max_off b (cfs_min_vruntime r) v1 Hm Ha1) as [Emax Ham]. split; [done|]. rewrite Emax. split; [unfold old; lia|].
    split; [|intros _; exists x; by rewrite Ex]. intros Hnil. unfold runnable in Hnil. rewrite Hnil in Hx. destruct Hx as [Hx _].
    by apply not_elem_of_nil in Hx.
Qed.

(** the clock of a queue.  [update_min_vruntime] never moves min_vruntime back; with
    nothing runnable it leaves it; otherwise it becomes the smallest virtual time of the
    runnable entities (queued or running) or stays where it was if that is further; so if
    no runnable entity was behind it, none is afterwards. *)
Theorem update_min_vruntime_correct w q b l r : timeline w q b l -> queues w !! q = Some r ->
  curr_ok w b r -> ahead b (cfs_min_vruntime r) ->
  let old := off b (cfs_min_vruntime r) in
  let runnable := running w r ++ l in
  exists v, update_min_vruntime w q = Ok (put_queue w q (set_min_vruntime r v)) /\ ahead b v /\ old <= off b v /\
    (runnable = [] -> v = cfs_min_vruntime r) /\
    (runnable <> [] -> exists x, lowest w b x runnable /\ off b v = Z.max old (at_ w b x)).
Proof. apply update_min_vruntime_ok. Qed.

(** ** What a look at the granularity changes: at most a cached inverse *)

Definition strip (e : sched_entity) : sched_entity := set_load e (mk_lw (weight (load e)) 0).

Record same (w w' : world) : Prop := {
  same_queues : queues w' = queues w; same_nodes : tree_nodes w' = tree_nodes w;
  same_tun : tun w' = tun w /\ feat w' = feat w;
  same_entities : forall x, strip <$> entities w' !! x = strip <$> entities w !! x;
  same_load : (forall x e, entities w !! x = Some e -> load_ok (load e)) -> forall x e, entities w' !! x = Some e -> load_ok (load e) }.

Lemma same_refl w : same w w.
Proof. by split. Qed.
Lemma same_trans w1 w2 w3 : same w1 w2 -> same w2 w3 -> same w1 w3.
Proof.
  intros [A1 A2 [A3 A3'] A4 A5] [B1 B2 [B3 B3'] B4 B5]. split; [congruence|congruence|split; congruence| |intros HL; apply B5, A5, HL]. intros x. by rewrite B4, A4.
Qed.

Lemma same_entity w w' x e : same w w' -> entities w !! x = Some e -> exists e', entities w' !! x = Some e' /\ strip e' = strip e.
Proof.
  intros S H. pose proof (same_entities _ _ S x) as E0. rewrite H in E0. simpl in E0.
  destruct (entities w' !! x) as [e'|]; [|done]. apply (inj Some) in E0. by exists e'.
Qed.

Lemma same_at w w' b x : same w w' -> at_ w' b x = at_ w b x.
Proof.
  intros S. pose proof (same_entities _ _ S x) as E0. unfold at_.
  destruct (entities w' !! x) as [e'|], (entities w !! x) as [e|]; simpl in E0; try done.
  apply (inj Some), (f_equal vruntime) in E0. simpl in E0. by rewrite E0.
Qed.

Lemma same_near w w' b x : same w w' -> near w b x -> near w' b x.
Proof.
  intros S (e&Ee&Ha). destruct (same_entity _ _ _ _ S Ee) as (e'&Ee'&Es). exists e'. split; [done|].
  apply (f_equal vruntime) in Es. simpl in Es. by rewrite Es.
Qed.

Lemma near_at w b x : near w b x -> exists e, entities w !! x = Some e /\ at_ w b x = off b (vruntime e) /\ ahead b (vruntime e).
Proof. intros (e&Ee&Ha). exists e. unfold at_. by rewrite Ee. Qed.

(** The wakeup granularity in the virtual time of an entity. *)
Definition gran_is (w : world) (x g : Z) : Prop :=
  exists e lw, entities w !! x = Some e /\ load_ok (load e) /\
    calc_delta_fair (sysctl_sched_wakeup_granularity (tun w)) (load e) = Ok (g, lw).

Lemma update_inv_idem lw : load_ok lw -> __update_inv_weight (__update_inv_weight lw) = __update_inv_weight lw.
Proof.
  intros H. destruct (inv_weight_ok lw H) as ([_ Hi]&_). unfold __update_inv_weight at 1.
  rewrite (proj2 (Z.eqb_neq _ _)) by lia. done.
Qed.

Lemma update_inv_load lw : load_ok lw -> load_ok (__update_inv_weight lw).
Proof. intros H. destruct (inv_weight_ok lw H) as (Hi&Hw&_). split; rewrite Hw; [apply H|by right]. Qed.

Lemma delta_fair_stable d lw g lw' : load_ok lw -> calc_delta_fair d lw = Ok (g, lw') ->
  load_ok lw' /\ weight lw' = weight lw /\ calc_delta_fair d lw' = Ok (g, lw').
Proof.
  intros Hok. unfold calc_delta_fair. destruct (Z.eqb_spec (weight lw) NICE_0_LOAD) as [E0|E0]; cbn [negb].
  - intros [= <- <-]. split; [done|]. split; [done|]. rewrite E0. done.
  - intros E1. assert (lw' = __update_inv_weight lw) as ->.
    { revert E1. unfold __calc_delta. repeat (match goal with |- context [res_bind ?r _] => destruct r as [[? ?]|]; [|done] end; cbn [res_bind]).
      destruct (_ <? 0); [done|]. by intros [= _ <-]. }
    destruct (inv_weight_ok lw Hok) as (_&Hw&_). split; [by apply update_inv_load|]. split; [done|]. rewrite Hw, (proj2 (Z.eqb_neq _ _)) by done. cbn [negb].
    rewrite <- E1. unfold __calc_delta. by rewrite update_inv_idem.
Qed.

Lemma gran_exists w x e : entities w !! x = Some e -> load_ok (load e) -> 0 <= sysctl_sched_wakeup_granularity (tun w) < 2 ^ 32 ->
  exists g, gran_is w x g /\ 0 <= g < 2 ^ 63.
Proof.
  intros Ee Hok Hg. unfold gran_is, calc_delta_fair. set (d := sysctl_sched_wakeup_granularity (tun w)) in *.
  destruct (weight (load e) =? NICE_0_LOAD) eqn:Eb.
  - exists d. split; [|lia]. exists e, (load e). by rewrite Eb.
  - destruct (calc_delta_ok d NICE_0_LOAD (load e)) as (g&E1&Hr&_&B2); [lia|done|done| |].
    { change (scale_load_down NICE_0_LOAD) with 1024. destruct Hok as [HL _]. lia. }
    exists g. split; [exists e, (__update_inv_weight (load e)); by rewrite Eb|].
    change (scale_load_down NICE_0_LOAD) with 1024 in B2. destruct (inv_weight_ok _ Hok) as ([[_ Hi] _]&_&_).
    destruct Hok as [HL _]. unfold WMULT_CONST in HL. set (l := scale_load_down (weight (load e))) in *.
    assert (B3 : g * l * 2 ^ 32 <= d * 1024 * (2 ^ 32 + l)) by (etransitivity; [exact B2|]; apply Z.mul_le_mono_nonneg_l; lia).
    assert (B4 : d * 1024 * (2 ^ 32 + l) <= 2 ^ 42 * (2 * 2 ^ 32)) by (apply Z.mul_le_mono_nonneg; lia). nia.
Qed.

Lemma put_load_same w x e lw : entities w !! x = Some e -> load_ok lw -> weight lw = weight (load e) ->
  same w (put_entity w x (set_load e lw)).
Proof.
  intros Ee Hlw Ew. split; [done|done|done|..].
  - intros y. simpl. destruct (decide (y = x)) as [-> |Hne].
    + rewrite lookup_insert_eq, Ee. simpl. unfold strip. cbn [set_load load]. by rewrite Ew.
    + by rewrite lookup_insert_ne.
  - intros HL y ey. simpl. destruct (decide (y = x)) as [-> |Hne].
    + rewrite lookup_insert_eq. by intros [= <-].
    + rewrite lookup_insert_ne by done. apply HL.
Qed.

(** ** Preferring a buddy *)

Lemma preempt_ok w b c left g : near w b c -> near w b left -> gran_is w left g -> 0 <= g < 2 ^ 63 ->
  exists ret w', wakeup_preempt_entity w c left = Ok (ret, w') /\ same w w' /\ gran_is w' left g /\
    (ret < 1 <-> at_ w b c <= at_ w b left + g).
Proof.
  intros Hc Hl (e&lw&Ee&Hok&Eg) Hg. destruct (near_at _ _ _ Hc) as (ec&Ec&Ac&Hac). destruct (near_at _ _ _ Hl) as (el&El&Al&Hal).
  rewrite Ee in El. injection El as <-. unfold wakeup_preempt_entity. rewrite (entity_ok _ _ _ Ec), (entity_ok _ _ _ Ee).
  cbn [res_bind]. rewrite (s64_diff b), <- Ac, <- Al by done. destruct (Z.leb_spec (at_ w b c - at_ w b left) 0).
  - exists (-1), w. split; [done|]. split; [apply same_refl|]. split; [by exists e, lw|]. lia.
  - unfold wakeup_gran, entity_delta_fair. rewrite (entity_ok _ _ _ Ee). cbn [res_bind]. rewrite Eg. cbn [res_bind].
    destruct (delta_fair_stable _ _ _ _ Hok Eg) as (H1&Hwe&H2). eexists _, _. split; [done|]. split; [by apply put_load_same|]. split.
    + exists (set_load e lw), lw.
      split; [apply lookup_insert_eq|]. split; [exact H1|exact H2].
    + rewrite (s64_near g g) by (done || lia). rewrite Z.gtb_ltb. destruct (Z.ltb_spec g (at_ w b c - at_ w b left)); lia.
Qed.

(** [x] may run in place of [left]: it is not ahead of it by more than the granularity. *)
Definition fair (w : world) (b left g x : Z) : Prop := near w b x /\ at_ w b x <= at_ w b left + g.

Lemma same_fair w w' b left g x : same w w' -> fair w b left g x -> fair w' b left g x.
Proof. intros S [H1 H2]. split; [by eapply same_near|]. by rewrite !(same_at w w'). Qed.

Lemma prefer_ok w b cand left se g : cand = NULL \/ near w b cand -> near w b left -> gran_is w left g -> 0 <= g < 2 ^ 63 ->
  fair w b left g se ->
  exists se' w', prefer w cand left se = Ok (se', w') /\ same w w' /\ gran_is w' left g /\ fair w' b left g se' /\
    (se' = se \/ cand <> NULL /\ se' = cand).
Proof.
  intros Hc Hl Hg Hb Hse. unfold prefer. destruct (Z.eqb_spec cand NULL) as [E0|E0]; cbn [negb].
  - exists se, w. split; [done|]. split; [apply same_refl|]. split; [done|]. split; [done|by left].
  - destruct Hc as [Hc|Hc]; [done|]. destruct (preempt_ok w b cand left g Hc Hl Hg Hb) as (ret&w'&E1&S1&G1&Hret).
    rewrite E1. cbn [res_bind]. eexists _, w'. split; [done|]. split; [done|]. split; [done|].
    destruct (Z.ltb_spec ret 1) as [H|H]; split; try (by left); try (by right); eapply same_fair; try eassumption.
    split; [done|]. by apply Hret.
Qed.

(** ** Clearing the buddies *)

(** The chain of parents of every entity is finite and its queues exist. *)
Record hierarchy (w : world) (depth : Z -> nat) : Prop := {
  hier_queue x e : entities w !! x = Some e -> is_Some (queues w !! cfs_rq_ptr e);
  hier_parent x e : entities w !! x = Some e ->
    parent e = NULL \/ is_Some (entities w !! parent e) /\ (depth (parent e) < depth x)%nat;
  hier_depth x e : entities w !! x = Some e -> (depth x < size (entities w))%nat }.

Definition strip_rq (r : cfs_rq) : cfs_rq := set_buddy Last (set_buddy Next (set_buddy Skip r NULL) NULL) NULL.

Definition rq_cleared (r r' : cfs_rq) : Prop :=
  strip_rq r' = strip_rq r /\ forall b, buddy_of b r' = buddy_of b r \/ buddy_of b r' = NULL.

Record cleared (w w' : world) : Prop := {
  cl_entities : entities w' = entities w; cl_nodes : tree_nodes w' = tree_nodes w; cl_tun : tun w' = tun w /\ feat w' = feat w;
  cl_queues q r : queues w !! q = Some r -> exists r', queues w' !! q = Some r' /\ rq_cleared r r' }.

Lemma rq_cleared_refl r : rq_cleared r r.
Proof. split; auto. Qed.
Lemma rq_cleared_trans r1 r2 r3 : rq_cleared r1 r2 -> rq_cleared r2 r3 -> rq_cleared r1 r3.
Proof.
  intros [A1 A2] [B1 B2]. split; [congruence|]. intros b. destruct (A2 b) as [H|H], (B2 b) as [H'|H']; rewrite ?H in *; auto.
Qed.
Lemma rq_clear b r : rq_cleared r (set_buddy b r NULL).
Proof. split; [by destruct b|]. intros b'. destruct b, b'; simpl; auto. Qed.

Lemma cleared_refl w : cleared w w.
Proof. split; [done|done|done|]. intros q r H. exists r. split; [done|apply rq_cleared_refl]. Qed.
Lemma cleared_trans w1 w2 w3 : cleared w1 w2 -> cleared w2 w3 -> cleared w1 w3.
Proof.
  intros [A1 A2 [A3 A4] A5] [B1 B2 [B3 B4] B5]. split; [congruence|congruence|split; congruence|].
  intros q r H. destruct (A5 q r H) as (r'&H'&C'). destruct (B5 q r' H') as (r''&H''&C''). exists r''. split; [done|].
  by eapply rq_cleared_trans.
Qed.
Lemma put_cleared w q r b : queues w !! q = Some r -> cleared w (put_queue w q (set_buddy b r NULL)).
Proof.
  intros Hq. split; [done|done|done|]. intros q' r' Hq'. simpl. destruct (decide (q' = q)) as [-> |Hne].
  - rewrite Hq in Hq'. injection Hq' as <-. exists (set_buddy b r NULL). split; [apply lookup_insert_eq|apply rq_clear].
  - exists r'. rewrite lookup_insert_ne by done. split; [done|apply rq_cleared_refl].
Qed.

Lemma cleared_hierarchy w w' depth : cleared w w' -> hierarchy w depth -> hierarchy w' depth.
Proof.
  intros [C1 C2 _ C4] [H1 H2 H3]. split; intros x e; rewrite C1; intros Hx.
  - destruct (H1 x e Hx) as [r Hr]. destruct (C4 _ _ Hr) as (r'&Hr'&_). by exists r'.
  - by eapply H2.
  - by eapply H3.
Qed.

Lemma clear_buddies_loop_ok depth fuel b w x : hierarchy w depth -> x = NULL \/ is_Some (entities w !! x) -> (S (depth x) < fuel)%nat \/ x = NULL /\ fuel <> 0%nat ->
  exists w', __clear_buddies fuel b w x = Ok w' /\ cleared w w'.
Proof.
  revert w x. induction fuel as [|fuel IH]; intros w x HH Hx Hf; [destruct Hf as [Hf|[_ Hf]]; [lia|done]|]. cbn [__clear_buddies].
  destruct (Z.eqb_spec x NULL) as [E0|E0]; [exists w; split; [done|apply cleared_refl]|].
  destruct Hx as [Hx|[e Ee]]; [done|]. rewrite (entity_ok _ _ _ Ee). cbn [res_bind]. destruct (hier_queue _ _ HH x e Ee) as [r Hr].
  rewrite (queue_ok _ _ _ Hr). cbn [res_bind]. destruct (Z.eqb_spec (buddy_of b r) x) as [E1|E1]; cbn [negb];
    [|exists w; split; [done|apply cleared_refl]].
  pose proof (put_cleared w (cfs_rq_ptr e) r b Hr) as C1. destruct (hier_parent _ _ HH x e Ee) as [Hp|[Hp Hd]].
  - exists (put_queue w (cfs_rq_ptr e) (set_buddy b r NULL)). split; [|done]. rewrite Hp.
    destruct fuel as [|fuel]; [|done]. exfalso. destruct Hf as [Hf|[Hf _]]; [lia|done].
  - destruct (IH (put_queue w (cfs_rq_ptr e) (set_buddy b r NULL)) (parent e)) as (w'&E2&C2);
      [by eapply cleared_hierarchy|by right|destruct Hf as [Hf|[Hf _]]; [left; lia|done]|]. exists w'. split; [done|]. by eapply cleared_trans.
Qed.

Lemma clear_buddy_ok depth b w q r x e : hierarchy w depth -> queues w !! q = Some r -> entities w !! x = Some e -> cfs_rq_ptr e = q ->
  x <> NULL ->
  exists w' r', clear_buddy b w q x = Ok w' /\ cleared w w' /\ queues w' !! q = Some r' /\ rq_cleared r r' /\ buddy_of b r' <> x.
Proof.
  intros HH Hq Ee Ecf Hx. unfold clear_buddy. rewrite (queue_ok _ _ _ Hq). cbn [res_bind].
  destruct (Z.eqb_spec (buddy_of b r) x) as [E1|E1].
  2: { exists w, r. split; [done|]. split; [apply cleared_refl|]. split; [done|]. split; [apply rq_cleared_refl|done]. }
  cbn [__clear_buddies]. rewrite (proj2 (Z.eqb_neq x NULL)) by done. rewrite (entity_ok _ _ _ Ee). cbn [res_bind].
  rewrite Ecf, (queue_ok _ _ _ Hq). cbn [res_bind]. rewrite E1, Z.eqb_refl. cbn [negb].
  pose proof (put_cleared w q r b Hq) as C1. pose proof (hier_depth _ _ HH _ _ Ee).
  destruct (clear_buddies_loop_ok depth (size (entities w)) b (put_queue w q (set_buddy b r NULL)) (parent e)) as (w'&E2&C2);
    [by eapply cleared_hierarchy| | |].
  { destruct (hier_parent _ _ HH _ _ Ee) as [Hp|[Hp _]]; [by left|by right]. }
  { destruct (hier_parent _ _ HH _ _ Ee) as [Hp|[_ Hp]]; [right; split; [done|lia]|left; lia]. }
  destruct (cl_queues _ _ C2 q (set_buddy b r NULL)) as (r'&Hr'&Hc'); [apply lookup_insert_eq|].
  exists w', r'. split; [done|]. split; [by eapply cleared_trans|]. split; [done|].
  split; [eapply rq_cleared_trans; [apply rq_clear|exact Hc']|].
  destruct Hc' as [_ Hc']. specialize (Hc' b). assert (buddy_of b (set_buddy b r NULL) = NULL) as E3 by by destruct b.
  destruct Hc' as [-> | ->]; congruence.
Qed.

Lemma cleared_not r r' b x : rq_cleared r r' -> buddy_of b r <> x -> x <> NULL -> buddy_of b r' <> x.
Proof. intros [_ H] H1 H2. destruct (H b) as [-> | ->]; congruence. Qed.

Lemma clear_buddies_ok depth w q r x e : hierarchy w depth -> queues w !! q = Some r -> entities w !! x = Some e -> cfs_rq_ptr e = q ->
  x <> NULL ->
  exists w' r', clear_buddies w q x = Ok w' /\ cleared w w' /\ queues w' !! q = Some r' /\ forall b, buddy_of b r' <> x.
Proof.
  intros HH Hq Ee Ecf Hx. unfold clear_buddies.
  destruct (clear_buddy_ok depth Last w q r x e HH Hq Ee Ecf Hx) as (w1&r1&E1&C1&Q1&R1&N1). rewrite E1. cbn [res_bind].
  destruct (clear_buddy_ok depth Next w1 q r1 x e) as (w2&r2&E2&C2&Q2&R2&N2);
    [by eapply cleared_hierarchy|done|by rewrite (cl_entities _ _ C1)|done|done|]. rewrite E2. cbn [res_bind].
  assert (C12 : cleared w w2) by by eapply cleared_trans.
  destruct (clear_buddy_ok depth Skip w2 q r2 x e) as (w3&r3&E3&C3&Q3&R3&N3);
    [by eapply cleared_hierarchy|done|by rewrite (cl_entities _ _ C12)|done|done|].
  exists w3, r3. split; [done|]. split; [by eapply cleared_trans|]. split; [done|].
  intros []; [|by eapply cleared_not|done]. eapply cleared_not; [exact R3| |done]. by eapply cleared_not.
Qed.

(** ** The choice *)

Definition null_or (P : Z -> Prop) (x : Z) : Prop := x = NULL \/ P x.
Definition ptr_list (c : Z) : list Z := if c =? NULL then [] else [c].

Lemma or_curr_ok w b c x : null_or (near w b) c -> null_or (near w b) x ->
  or_curr w c x = Ok (if x =? NULL then c else if c =? NULL then x else if less w c x then c else x).
Proof.
  intros Hc Hx. unfold or_curr. destruct (Z.eqb_spec x NULL); [done|]. destruct (Z.eqb_spec c NULL); cbn [negb]; [done|].
  destruct Hc as [|Hc]; [done|]. destruct Hx as [|Hx]; [done|]. by rewrite (before_ok w b).
Qed.

Lemma or_curr_in w b c x : null_or (near w b) c -> null_or (near w b) x ->
  exists y, or_curr w c x = Ok y /\ (y = c \/ y = x).
Proof.
  intros Hc Hx. rewrite (or_curr_ok w b) by done. eexists. split; [done|].
  destruct (x =? NULL), (c =? NULL), (less w c x); auto.
Qed.

Lemma timeline_hd w q b l : timeline w q b l -> null_or (fun x => near w b x /\ lowest w b x l) (hd NULL l) /\ (hd NULL l = NULL <-> l = []).
Proof.
  intros HT. destruct l as [|x l]; simpl; [split; [by left|done]|].
  pose proof HT as (r&t&_&Hm&_&_&He&Hn&_). apply Forall_cons in Hn as [Hn _]. split.
  - right. split; [done|]. split; [constructor|]. intros y. by eapply first_lowest.
  - split; [|done]. intros ->. exfalso. eapply near_ne; [exact Hm|rewrite He; constructor|done].
Qed.

(** The best candidate: the first of the timeline or the running entity. *)
Lemma best_ok w q b l c : timeline w q b l -> null_or (near w b) c -> l <> [] \/ c <> NULL ->
  exists left, or_curr w c (hd NULL l) = Ok left /\ lowest w b left (ptr_list c ++ l) /\ near w b left /\ left <> NULL /\
    (left = c \/ left = hd NULL l).
Proof.
  intros HT Hc Hne. destruct (timeline_hd _ _ _ _ HT) as [Hx Hnil].
  assert (Hx' : null_or (near w b) (hd NULL l)) by (destruct Hx as [Hx|[Hx _]]; [by left|by right]).
  rewrite (or_curr_ok w b) by done. unfold ptr_list. destruct (Z.eqb_spec (hd NULL l) NULL) as [E0|E0].
  - apply Hnil in E0 as ->. destruct Hne as [|Hne]; [done|]. rewrite (proj2 (Z.eqb_neq c NULL)) by done.
    destruct Hc as [|Hc]; [done|]. exists c. split; [done|]. split; [|by auto]. split; [constructor|].
    intros y Hy. by apply list_elem_of_singleton in Hy as ->.
  - destruct Hx as [|[Hx Hlow]]; [done|]. destruct (Z.eqb_spec c NULL) as [E1|E1]; [exists (hd NULL l); split; [done|split; [done|auto]]|].
    destruct Hc as [|Hc]; [done|]. rewrite (less_at w b) by done.
    destruct (Z.ltb_spec (at_ w b c) (at_ w b (hd NULL l))) as [H|H]; eexists; (split; [done|]); (split; [|by auto]); simpl.
    + split; [constructor|]. intros y Hy. apply elem_of_cons in Hy as [-> |Hy]; [done|]. destruct Hlow as [_ Hlow]. specialize (Hlow y Hy). lia.
    + split; [constructor; apply Hlow|]. intros y Hy. apply elem_of_cons in Hy as [-> |Hy]; [done|]. by apply Hlow.
Qed.

(** What the choice relies on. *)
Record pick_pre (w : world) (q b : Z) (l : list Z) (c : Z) (r : cfs_rq) (depth : Z -> nat) : Prop := {
  pp_timeline : timeline w q b l; pp_queue : queues w !! q = Some r; pp_hierarchy : hierarchy w depth;
  pp_curr : null_or (near w b) c; pp_buddies bd : null_or (near w b) (buddy_of bd r);
  pp_null : entities w !! NULL = None;
  pp_on x e : x = c \/ x = last r \/ x = next r \/ x ∈ l -> entities w !! x = Some e -> cfs_rq_ptr e = q;
  pp_load x e : entities w !! x = Some e -> load_ok (load e);
  pp_gran : 0 <= sysctl_sched_wakeup_granularity (tun w) < 2 ^ 32;
  pp_some : l <> [] \/ c <> NULL }.

(** The second choice when the best one asked to be skipped. *)
Lemma second_ok w q b l c r left : timeline w q b l -> queues w !! q = Some r -> null_or (near w b) c ->
  left = c \/ left = hd NULL l -> left <> NULL ->
  exists second, (if left =? c then Ok (hd NULL l)
      else second <-- __pick_next_entity w q left; or_curr w c second) = Ok second /\
    null_or (near w b) second /\ null_or (fun x => x ∈ ptr_list c ++ l) second.
Proof.
  intros HT Hq Hc Hleft Hln. pose proof HT as (r'&t&Hq'&Hm&_&Hlm&He&Hn&_). rewrite Hq in Hq'. injection Hq' as <-.
  assert (Hhd : forall ys, (forall y, y ∈ ys -> y ∈ l) -> null_or (near w b) (hd NULL ys) /\ null_or (fun x => x ∈ ptr_list c ++ l) (hd NULL ys)).
  { intros [|y ys] Hys; simpl; [by split; left|]. assert (Hy : y ∈ l) by (apply Hys; constructor).
    split; right; [by eapply Forall_forall in Hn|apply elem_of_app; by right]. }
  unfold __pick_next_entity. rewrite (queue_ok _ _ _ Hq). cbn [res_bind]. destruct (Z.eqb_spec left c) as [E0|E0].
  - eexists. split; [done|]. by apply Hhd.
  - destruct Hleft as [|Hleft]; [done|]. destruct l as [|y ys]; [done|]. simpl in Hleft. subst y.
    destruct (neighbours_ok _ _ [] left ys Hm He) as [-> _]. cbn [res_bind].
    destruct (Hhd ys) as [H1 H2]; [intros y Hy; by constructor|].
    destruct (or_curr_in w b c (hd NULL ys) Hc H1) as (y&E1&Hy). exists y. split; [done|]. destruct Hy as [-> | ->]; [|done].
    split; [done|]. destruct (Z.eqb_spec c NULL) as [E2|E2]; [by left|]. right. unfold ptr_list. rewrite (proj2 (Z.eqb_neq c NULL)) by done.
    constructor.
Qed.

Lemma skip_ok w q b l c r left g : timeline w q b l -> queues w !! q = Some r -> null_or (near w b) c ->
  lowest w b left (ptr_list c ++ l) -> left = c \/ left = hd NULL l -> left <> NULL -> near w b left ->
  gran_is w left g -> 0 <= g < 2 ^ 63 ->
  exists se w1, (if skip r =? left then
      second <-- (if left =? c then Ok (hd NULL l) else second <-- __pick_next_entity w q left; or_curr w c second);
      prefer w second left left
    else Ok (left, w)) = Ok (se, w1) /\ same w w1 /\ gran_is w1 left g /\ fair w1 b left g se /\
    (se ∈ ptr_list c ++ l) /\ (skip r <> left -> se = left).
Proof.
  intros HT Hq Hc Hlow Hleft Hln Hnl Hg Hgb. assert (Hf0 : fair w b left g left) by (split; [done|lia]).
  destruct (Z.eqb_spec (skip r) left) as [E2|E2].
  - destruct (second_ok w q b l c r left HT Hq Hc Hleft Hln) as (s&E3&Hs1&Hs2). rewrite E3. cbn [res_bind].
    destruct (prefer_ok w b s left left g Hs1 Hnl Hg Hgb Hf0) as (se1&w1&E4&S1&G1&F1&I1). exists se1, w1.
    do 4 (split; [done|]). split; [|done]. destruct I1 as [-> |[Hsn ->]]; [apply Hlow|]. by destruct Hs2.
  - exists left, w. split; [done|]. split; [apply same_refl|]. do 2 (split; [done|]). split; [apply Hlow|done].
Qed.

Lemma same_hierarchy w w' depth : same w w' -> hierarchy w depth -> hierarchy w' depth.
Proof.
  intros S [H1 H2 H3].
  assert (Hdom : dom (entities w') = dom (entities w)).
  { apply set_eq. intros x. rewrite !elem_of_dom. pose proof (same_entities _ _ S x) as E0.
    split; intros [e He]; rewrite He in E0; [destruct (entities w !! x)|destruct (entities w' !! x)]; done. }
  assert (Hback : forall x e', entities w' !! x = Some e' -> exists e, entities w !! x = Some e /\ strip e' = strip e).
  { intros x e' He. pose proof (same_entities _ _ S x) as E0. rewrite He in E0. destruct (entities w !! x) as [e|]; [|done].
    apply (inj Some) in E0. by exists e. }
  split; intros x e' He; destruct (Hback x e' He) as (e&Ee&Es); pose proof (f_equal parent Es) as Ep; pose proof (f_equal cfs_rq_ptr Es) as Eq;
    simpl in Ep, Eq; rewrite ?Ep, ?Eq, ?(same_queues _ _ S).
  - by eapply H1.
  - destruct (H2 x e Ee) as [H|[[ep Hep] H]]; [by left|right]. split; [|done]. destruct (same_entity _ _ _ _ S Hep) as (e2&E2&_). by exists e2.
  - rewrite <- size_dom, Hdom, size_dom. by eapply H3.
Qed.

(** The end of the choice. *)
Lemma pick_clear w w3 q b l c r depth se left g : pick_pre w q b l c r depth -> same w w3 -> fair w3 b left g se ->
  se = c \/ se = last r \/ se = next r \/ se ∈ l ->
  exists w4 r4, clear_buddies w3 q se = Ok w4 /\ queues w4 !! q = Some r4 /\ (forall bd, buddy_of bd r4 <> se) /\ cleared w3 w4.
Proof.
  intros [HT Hq HH Hc Hbud Hnull Hon Hload Hgr Hsome] S [(e3&Ee3&_) _] Hin.
  pose proof (same_entities _ _ S se) as E0. rewrite Ee3 in E0. destruct (entities w !! se) as [e|] eqn:Ee; [|done].
  apply (inj Some), (f_equal cfs_rq_ptr) in E0. simpl in E0.
  assert (Hse : se <> NULL) by (intros ->; by rewrite Hnull in Ee).
  destruct (clear_buddies_ok depth w3 q r se e3) as (w4&r4&E1&C1&Q1&N1); [by eapply same_hierarchy|by rewrite (same_queues _ _ S)|done| |done|].
  { rewrite E0. by eapply Hon. }
  by exists w4, r4.
Qed.

Lemma pick_ok w q b l c r depth : pick_pre w q b l c r depth ->
  exists se w' left g, pick_next_entity w q c = Ok (se, w') /\
    lowest w b left (ptr_list c ++ l) /\ gran_is w left g /\ at_ w b se <= at_ w b left + g /\
    (se ∈ ptr_list c ++ l \/ se <> NULL /\ (se = last r \/ se = next r)) /\
    (last r = NULL -> next r = NULL -> skip r <> left -> se = left) /\
    (exists r', queues w' !! q = Some r' /\ forall bd, buddy_of bd r' <> se) /\
    exists w3, same w w3 /\ cleared w3 w'.
Proof.
  intros HP. pose proof HP as [HT Hq HH Hc Hbud Hnull Hon Hload Hgr Hsome]. unfold pick_next_entity.
  destruct (best_ok w q b l c HT Hc Hsome) as (left&E1&Hlow&Hnl&Hln&Hleft).
  assert (Ef : __pick_first_entity w q = Ok (hd NULL l)).
  { destruct HT as (r'&t&Hq'&_&_&Hlm&He&_). unfold __pick_first_entity. rewrite (queue_ok _ _ _ Hq'). simpl. by rewrite Hlm, He. }
  rewrite Ef. cbn [res_bind]. rewrite E1. cbn [res_bind]. rewrite (queue_ok _ _ _ Hq). cbn [res_bind].
  destruct (near_at _ _ _ Hnl) as (el&Eel&_). destruct (gran_exists w left el Eel (Hload _ _ Eel) Hgr) as (g&Hg&Hgb).
  destruct (skip_ok w q b l c r left g) as (se1&w1&E2&S1&G1&F1&I1&K1); try done. rewrite E2. cbn [res_bind].
  destruct (prefer_ok w1 b (last r) left se1 g) as (se2&w2&E3&S2&G2&F2&I2); try done; [|by eapply same_near|].
  { destruct (Hbud Last) as [H|H]; [by left|right; by eapply same_near]. }
  rewrite E3. cbn [res_bind]. assert (S12 : same w w2) by by eapply same_trans.
  destruct (prefer_ok w2 b (next r) left se2 g) as (se3&w3&E4&S3&G3&F3&I3); try done; [|by eapply same_near|].
  { destruct (Hbud Next) as [H|H]; [by left|right; by eapply same_near]. }
  rewrite E4. cbn [res_bind]. assert (S13 : same w w3) by by eapply same_trans.
  assert (Hin : se3 ∈ ptr_list c ++ l \/ se3 <> NULL /\ (se3 = last r \/ se3 = next r)).
  { destruct I3 as [-> |[Hn3 ->]]; [|by auto]. destruct I2 as [-> |[Hn2 ->]]; auto. }
  destruct (pick_clear w w3 q b l c r depth se3 left g HP S13 F3) as (w4&r4&E5&Q4&N4&C4).
  { destruct Hin as [Hin|[_ [-> | ->]]]; [|by auto..]. apply elem_of_app in Hin as [Hin|Hin]; [|by auto].
    unfold ptr_list in Hin. destruct (c =? NULL); [by apply not_elem_of_nil in Hin|]. apply list_elem_of_singleton in Hin. auto. }
  rewrite E5. cbn [res_bind]. exists se3, w4, left, g. split; [done|]. split; [done|]. split; [done|].
  split; [destruct F3 as [_ F3]; by rewrite !(same_at w w3) in F3|]. split; [done|]. split; [|split; [by exists r4|by exists w3]].
  intros Hl0 Hn0 Hs0. destruct I3 as [-> |[H _]]; [|done]. destruct I2 as [-> |[H _]]; [|done]. by apply K1.
Qed.

(** fairness of the choice.  With something to run, [pick_next_entity] ends without a
    fault and chooses an entity whose virtual time is not ahead of the smallest one (over
    the timeline and the running entity) by more than the wakeup granularity in that
    entity's virtual time; without buddies it chooses an entity with the smallest time
    itself; and the chosen entity is no longer a buddy of the queue. *)
Theorem pick_next_entity_fair w q b l c r depth : pick_pre w q b l c r depth ->
  exists se w' left g, pick_next_entity w q c = Ok (se, w') /\
    lowest w b left (ptr_list c ++ l) /\ gran_is w left g /\ at_ w b se <= at_ w b left + g /\
    (se ∈ ptr_list c ++ l \/ se <> NULL /\ (se = last r \/ se = next r)) /\
    (last r = NULL -> next r = NULL -> skip r <> left -> se = left) /\
    exists r', queues w' !! q = Some r' /\ forall bd, buddy_of bd r' <> se.
Proof.
  intros HP. destruct (pick_ok _ _ _ _ _ _ _ HP) as (se&w'&left&g&H1&H2&H3&H4&H5&H6&H7&_). by exists se, w', left, g.
Qed.
