(* ===== verification/CfsSlice.v ===== *)
(** * Slices along the hierarchy of groups, and the placement of entities *)

From stdpp Require Import gmap.
From S2P Require Import Prelude Pelt Rbtree RbtreeTree RbtreeInsert RbtreeFind CfsWeight CfsQueue CfsTimeline CfsPick.
Local Open Scope Z_scope.
Local Open Scope res_scope.

(** The loads of an entity and its queue at one level of the hierarchy: a queued entity is
    part of the queue's load, one to be queued is added to it. *)
Definition level_ok (e : sched_entity) (r : cfs_rq) : Prop :=
  0 <= weight (load e) /\
  if on_rq e then load_exact (cfs_load r) /\ weight (load e) <= weight (cfs_load r) < 2 ^ 42
  else 0 <= weight (cfs_load r) /\ 1024 <= weight (load e) /\ weight (cfs_load r) + weight (load e) < 2 ^ 42 - 2048.

Definition levels_ok (w : world) : Prop :=
  forall x e r, entities w !! x = Some e -> queues w !! cfs_rq_ptr e = Some r -> level_ok e r.

Lemma level_load e r : level_ok e r ->
  let lw := if on_rq e then cfs_load r else update_load_add (cfs_load r) (weight (load e)) in
  load_exact lw /\ weight (load e) <= weight lw < 2 ^ 42.
Proof.
  intros [H0 H]. destruct (on_rq e); [done|]. destruct H as (H1&H2&H3). unfold update_load_add.
  rewrite u64_small by lia. cbn [weight]. split; [|lia]. split; [split|]; cbn [weight inv_weight]; [|by left|lia].
  unfold scale_load_down, WMULT_CONST. rewrite Z.shiftr_div_pow2 by lia. change (2 ^ 10) with 1024.
  split; [apply Z.div_str_pos; lia|]. apply Z.div_lt_upper_bound; lia.
Qed.

Lemma scale_load_down_mono x y : x <= y -> scale_load_down x <= scale_load_down y.
Proof. intros H. unfold scale_load_down. rewrite !Z.shiftr_div_pow2 by lia. apply Z.div_le_mono; lia. Qed.

(** One step cuts the slice down. *)
Lemma slice_step slice wt lw : 0 <= slice < 2 ^ 63 -> 0 <= wt <= weight lw -> weight lw < 2 ^ 42 -> load_exact lw ->
  exists s, __calc_delta slice wt lw = Ok (s, __update_inv_weight lw) /\ 0 <= s <= slice.
Proof.
  intros Hs Hw Hlt [Hok Hx]. pose proof (scale_load_down_mono _ _ (proj2 Hw)) as Hm.
  pose proof (scale_load_down_range wt ltac:(lia)) as HW. pose proof Hok as [HL _].
  destruct (calc_delta_ok slice wt lw) as (s&E1&Hr&_&B2); [lia|lia|done|nia|]. exists s. split; [done|]. split; [lia|].
  assert (Hi : inv_weight (__update_inv_weight lw) * scale_load_down (weight lw) <= 2 ^ 32).
  { destruct (inv_weight_ok lw Hok) as (_&_&Ht). unfold __update_inv_weight in *.
    destruct (Z.eqb_spec (inv_weight lw) 0); cbn [negb] in *; [by apply Ht|done]. }
  assert (B3 : s * scale_load_down (weight lw) * 2 ^ 32 <= slice * scale_load_down (weight lw) * 2 ^ 32).
  { etransitivity; [exact B2|]. transitivity (slice * scale_load_down wt * 2 ^ 32); [apply Z.mul_le_mono_nonneg_l; nia|].
    apply Z.mul_le_mono_nonneg_r; [lia|]. apply Z.mul_le_mono_nonneg_l; lia. }
  nia.
Qed.

Lemma update_inv_exact lw : load_exact lw -> load_exact (__update_inv_weight lw) /\ weight (__update_inv_weight lw) = weight lw.
Proof.
  intros [Hok Hx]. destruct (inv_weight_ok lw Hok) as (_&Hw&Ht). split; [|done]. split; [by apply update_inv_load|]. rewrite Hw.
  unfold __update_inv_weight in *. destruct (Z.eqb_spec (inv_weight lw) 0); cbn [negb] in *; [by apply Ht|done].
Qed.

(** What computing a slice changes: at most the cached inverses of queues' loads. *)
Record sliced (w w' : world) : Prop := {
  sl_entities : entities w' = entities w; sl_nodes : tree_nodes w' = tree_nodes w; sl_tun : tun w' = tun w /\ feat w' = feat w;
  sl_queues q r : queues w !! q = Some r -> exists lw, queues w' !! q = Some (set_cfs_load r lw) /\ weight lw = weight (cfs_load r) /\
    (lw = cfs_load r \/ load_exact lw) }.

Lemma set_cfs_load_twice r l1 l2 : set_cfs_load (set_cfs_load r l1) l2 = set_cfs_load r l2.
Proof. done. Qed.

Lemma sliced_refl w : sliced w w.
Proof. split; [done|done|done|]. intros q r H. exists (cfs_load r). split; [by destruct r|auto]. Qed.
Lemma sliced_trans w1 w2 w3 : sliced w1 w2 -> sliced w2 w3 -> sliced w1 w3.
Proof.
  intros [A1 A2 [A3 A4] A5] [B1 B2 [B3 B4] B5]. split; [congruence|congruence|split; congruence|].
  intros q r H. destruct (A5 q r H) as (l1&H1&W1&X1). destruct (B5 _ _ H1) as (l2&H2&W2&X2). exists l2. split; [done|]. simpl in W2, X2.
  split; [congruence|]. destruct X2 as [-> |X2]; auto.
Qed.

Lemma put_sliced w q r : queues w !! q = Some r -> load_exact (cfs_load r) ->
  sliced w (put_queue w q (set_cfs_load r (__update_inv_weight (cfs_load r)))).
Proof.
  intros Hq Hx. split; [done|done|done|]. intros q' r' Hq'. simpl. destruct (decide (q' = q)) as [-> |Hne].
  - rewrite Hq in Hq'. injection Hq' as <-. eexists. split; [apply lookup_insert_eq|]. destruct (update_inv_exact _ Hx). auto.
  - exists (cfs_load r'). rewrite lookup_insert_ne by done. split; [by destruct r'|auto].
Qed.

Lemma put_levels w q r : queues w !! q = Some r -> load_exact (cfs_load r) -> levels_ok w ->
  levels_ok (put_queue w q (set_cfs_load r (__update_inv_weight (cfs_load r)))).
Proof.
  intros Hq Hx HL x e r' He Hr'. simpl in *. destruct (decide (cfs_rq_ptr e = q)) as [Eq|Hne].
  - rewrite Eq, lookup_insert_eq in Hr'. injection Hr' as <-. rewrite <- Eq in Hq. specialize (HL x e r He Hq).
    destruct (update_inv_exact _ Hx) as [H1 H2]. unfold level_ok in *. cbn [cfs_load set_cfs_load]. rewrite H2.
    destruct (on_rq e); [|done]. tauto.
  - rewrite lookup_insert_ne in Hr' by done. by eapply HL.
Qed.

Lemma put_hierarchy w q r r' depth : queues w !! q = Some r -> hierarchy w depth -> hierarchy (put_queue w q r') depth.
Proof.
  intros Hq [H1 H2 H3]. split; simpl; [|done|done]. intros x e He. destruct (decide (cfs_rq_ptr e = q)) as [-> |Hne].
  - rewrite lookup_insert_eq. by eexists.
  - rewrite lookup_insert_ne by done. by eapply H1.
Qed.

Lemma slice_loop_ok depth fuel w slice x : hierarchy w depth -> levels_ok w -> entities w !! NULL = None -> 0 <= slice < 2 ^ 63 ->
  x = NULL \/ is_Some (entities w !! x) -> (S (depth x) < fuel)%nat \/ x = NULL /\ fuel <> 0%nat ->
  exists s w', slice_loop fuel w slice x = Ok (s, w') /\ 0 <= s <= slice /\ sliced w w'.
Proof.
  revert w slice x. induction fuel as [|fuel IH]; intros w slice x HH HL Hnull Hs Hx Hf; [destruct Hf as [Hf|[_ Hf]]; [lia|done]|].
  cbn [slice_loop]. destruct (Z.eqb_spec x NULL) as [E0|E0]; [exists slice, w; split; [done|split; [lia|apply sliced_refl]]|].
  destruct Hx as [Hx|[e Ee]]; [done|]. rewrite (entity_ok _ _ _ Ee). cbn [res_bind]. destruct (hier_queue _ _ HH x e Ee) as [r Hr].
  rewrite (queue_ok _ _ _ Hr). cbn [res_bind]. pose proof (HL x e r Ee Hr) as Hlev. pose proof Hlev as [Hw0 _].
  destruct (level_load e r Hlev) as [Hx Hwt].
  destruct (slice_step slice (weight (load e)) _ Hs (conj Hw0 (proj1 Hwt)) (proj2 Hwt) Hx) as (s&E1&Hs').
  assert (Hnext : exists w1, (if negb (on_rq e) then
        '(slice, _) <-- __calc_delta slice (weight (load e)) (update_load_add (cfs_load r) (weight (load e))); Ok (slice, w)
      else '(slice, lw) <-- __calc_delta slice (weight (load e)) (cfs_load r); Ok (slice, put_queue w (cfs_rq_ptr e) (set_cfs_load r lw)))
      = Ok (s, w1) /\ sliced w w1 /\ hierarchy w1 depth /\ levels_ok w1).
  { destruct (on_rq e) eqn:Eo; cbn [negb]; rewrite E1; cbn [res_bind]; eexists; (split; [done|]).
    - split; [by apply put_sliced|]. split; [by eapply put_hierarchy|by apply put_levels].
    - split; [apply sliced_refl|done]. }
  destruct Hnext as (w1&E2&S1&H1&L1). rewrite E2. cbn [res_bind].
  destruct (IH w1 s (parent e)) as (s'&w'&E3&Hs''&S2); try done; rewrite ?(sl_entities _ _ S1); try done; try lia.
  { destruct (hier_parent _ _ HH _ _ Ee) as [Hp|[Hp _]]; [by left|by right]. }
  { destruct (hier_parent _ _ HH _ _ Ee) as [Hp|[_ Hp]]; [right; split; [done|]|left]; destruct Hf as [Hf|[Hf _]]; try done; lia. }
  exists s', w'. split; [done|]. split; [lia|]. by eapply sliced_trans.
Qed.

(** ** Slices *)

(** What the computations on slices rely on. *)
Record slice_pre (w : world) (q x : Z) (e : sched_entity) (r : cfs_rq) (depth : Z -> nat) : Prop := {
  sp_hierarchy : hierarchy w depth; sp_levels : levels_ok w; sp_null : entities w !! NULL = None;
  sp_entity : entities w !! x = Some e; sp_queue : queues w !! q = Some r; sp_nr : 0 <= nr_running r;
  sp_latency : 0 <= sysctl_sched_latency (tun w) < 2 ^ 32; sp_gran : 0 <= sysctl_sched_min_granularity (tun w) < 2 ^ 31 }.

Definition period_of (w : world) (e : sched_entity) (r : cfs_rq) : Z :=
  __sched_period (tun w) (u32 (nr_running r + if on_rq e then 0 else 1)).

Lemma period_range w q x e r depth : slice_pre w q x e r depth -> 0 <= period_of w e r < 2 ^ 63.
Proof.
  intros [_ _ _ _ _ Hnr Hl Hg]. unfold period_of, __sched_period. set (n := nr_running r + _).
  pose proof (u32_range n). destruct (_ <? _); [|lia]. rewrite u64_small by nia. nia.
Qed.

Lemma sched_slice_ok w q x e r depth : slice_pre w q x e r depth ->
  exists s w', sched_slice w q x = Ok (s, w') /\ 0 <= s <= period_of w e r /\ sliced w w'.
Proof.
  intros HP. pose proof (period_range _ _ _ _ _ _ HP) as Hp. destruct HP as [HH HL Hnull Ee Hq Hnr Hl Hg].
  unfold sched_slice. rewrite (queue_ok _ _ _ Hq). cbn [res_bind]. rewrite (entity_ok _ _ _ Ee). cbn [res_bind].
  apply (slice_loop_ok depth); [done|done|done|done|right; by eexists|left]. pose proof (hier_depth _ _ HH _ _ Ee). lia.
Qed.

(** slices of groups.  For any hierarchy of groups, [sched_slice] ends without a fault,
    returns at most the scheduling period (the latency target, or the minimal granularity
    times the number of entities when there are more than fit), and changes at most cached
    inverses of weights. *)
Theorem sched_slice_correct w q x e r depth : slice_pre w q x e r depth ->
  exists s w', sched_slice w q x = Ok (s, w') /\ sliced w w' /\
    let nr := u32 (nr_running r + if on_rq e then 0 else 1) in
    0 <= s <= (if sched_nr_latency (tun w) <? nr then nr * sysctl_sched_min_granularity (tun w) else sysctl_sched_latency (tun w)).
Proof.
  intros HP. destruct (sched_slice_ok _ _ _ _ _ _ HP) as (s&w'&E1&Hs&S1). exists s, w'. split; [done|]. split; [done|]. cbv zeta.
  destruct HP as [_ _ _ _ _ Hnr _ Hg]. unfold period_of, __sched_period in Hs. revert Hs. set (n := u32 _).
  assert (0 <= n < 2 ^ 32) by apply u32_range. destruct (_ <? _); [|done]. rewrite u64_small by nia. done.
Qed.

(** ** Preemption at the tick *)

Lemma check_preempt_tick_ok w q b l c e r depth first : slice_pre w q c e r depth -> timeline w q b (first :: l) ->
  near w b c -> cfs_rq_ptr e = q ->
  let delta := u64 (sum_exec_runtime e - prev_sum_exec_runtime e) in
  exists s w1 w' resched, sched_slice w q c = Ok (s, w1) /\ check_preempt_tick w q c = Ok (w', resched) /\
    (resched = true <-> s < delta \/ sysctl_sched_min_granularity (tun w) <= delta /\ s < at_ w b c - at_ w b first) /\
    sliced w w1 /\ cleared w1 w'.
Proof.
  intros HP HT Hc Ecf delta. pose proof (sched_slice_ok _ _ _ _ _ _ HP) as (s&w1&E1&Hs&S1).
  destruct HP as [HH HL Hnull Ee Hq Hnr Hlat Hg]. exists s, w1. unfold check_preempt_tick. rewrite E1. cbn [res_bind].
  assert (Ee1 : entities w1 !! c = Some e) by by rewrite (sl_entities _ _ S1).
  rewrite (entity_ok _ _ _ Ee1). cbn [res_bind]. fold delta. rewrite Z.gtb_ltb. destruct (sl_tun _ _ S1) as [Et _].
  destruct (sl_queues _ _ S1 q r Hq) as (lw&Hq1&_).
  assert (HH1 : hierarchy w1 depth).
  { destruct HH as [H1 H2 H3]. split; intros y ey; rewrite (sl_entities _ _ S1); intros Hy; [|by eapply H2|by eapply H3].
    destruct (H1 y ey Hy) as [ry Hry]. destruct (sl_queues _ _ S1 _ _ Hry) as (ly&Hly&_). by eexists. }
  assert (Hcn : c <> NULL) by (intros ->; by rewrite Hnull in Ee).
  destruct (Z.ltb_spec s delta) as [H|H].
  { destruct (clear_buddies_ok depth w1 q _ c e HH1 Hq1 Ee1 Ecf Hcn) as (w2&r2&E2&C2&_). rewrite E2. cbn [res_bind].
    eexists _, _. split; [done|]. split; [done|]. split; [split; [by left|done]|by split]. }
  rewrite Et. destruct (Z.ltb_spec delta (sysctl_sched_min_granularity (tun w))) as [H1|H1].
  { eexists _, _. split; [done|]. split; [done|]. split; [split; [done|lia]|split; [done|apply cleared_refl]]. }
  pose proof HT as (r'&t&Hq'&Hm&_&Hlm&He&Hn&_). rewrite Hq in Hq'. injection Hq' as <-. apply Forall_cons in Hn as [Hf _].
  unfold __pick_first_entity. rewrite (queue_ok _ _ _ Hq1). cbn [res_bind rb_leftmost set_cfs_load]. rewrite Hlm, He. cbn [hd].
  destruct (near_at _ _ _ Hf) as (ef&Eef&Af&Hf'). destruct (near_at _ _ _ Hc) as (ec&Eec&Ac&Hc'). rewrite Ee in Eec. injection Eec as <-.
  rewrite (entity_ok w1 first ef) by by rewrite (sl_entities _ _ S1). cbn [res_bind].
  rewrite (s64_diff b), <- Ac, <- Af by done. pose proof (off_range b (vruntime e)). pose proof (off_range b (vruntime ef)).
  unfold ahead in *. destruct (Z.ltb_spec (at_ w b c - at_ w b first) 0).
  { eexists _, _. split; [done|]. split; [done|]. split; [split; [done|lia]|split; [done|apply cleared_refl]]. }
  eexists _, _. split; [done|]. split; [done|]. rewrite Z.gtb_ltb, u64_small by lia. rewrite Z.ltb_lt. split; [lia|]. split; [done|apply cleared_refl].
Qed.

(** preemption at the tick.  [check_preempt_tick] asks for a reschedule exactly when the
    running entity used more than its slice, or used the minimal granularity and is ahead
    of the first entity of the timeline by more than its slice. *)
Theorem check_preempt_tick_correct w q b l c e r depth first : slice_pre w q c e r depth -> timeline w q b (first :: l) ->
  near w b c -> cfs_rq_ptr e = q ->
  let delta := u64 (sum_exec_runtime e - prev_sum_exec_runtime e) in
  exists s w1 w' resched, sched_slice w q c = Ok (s, w1) /\ check_preempt_tick w q c = Ok (w', resched) /\
    (resched = true <-> s < delta \/ sysctl_sched_min_granularity (tun w) <= delta /\ s < at_ w b c - at_ w b first).
Proof.
  intros HP HT Hc Ecf delta. destruct (check_preempt_tick_ok _ _ _ _ _ _ _ _ _ HP HT Hc Ecf) as (s&w1&w'&rs&H1&H2&H3&_). by exists s, w1, w', rs.
Qed.

(** ** Placement *)

(** placement.  [place_entity] never moves an entity back in virtual time; a woken one
    gets at least min_vruntime less half the latency (the whole latency without
    GENTLE_FAIR_SLEEPERS), a new one at least min_vruntime plus its virtual slice. *)
Theorem place_entity_correct w q x e r b : queues w !! q = Some r -> entities w !! x = Some e -> ahead b (vruntime e) ->
  let thresh := if GENTLE_FAIR_SLEEPERS (feat w) then Z.shiftr (sysctl_sched_latency (tun w)) 1 else sysctl_sched_latency (tun w) in
  (ahead b (u64 (cfs_min_vruntime r - thresh)) ->
   exists v, place_entity w q x false = Ok (put_entity w x (set_vruntime e v)) /\
     off b v = Z.max (off b (vruntime e)) (off b (cfs_min_vruntime r - thresh))) /\
  (forall vs w1 e1, START_DEBIT (feat w) = true -> sched_vslice w q x = Ok (vs, w1) -> entities w1 !! x = Some e1 ->
   vruntime e1 = vruntime e -> ahead b (u64 (cfs_min_vruntime r + vs)) ->
   exists v, place_entity w q x true = Ok (put_entity w1 x (set_vruntime e1 v)) /\
     off b v = Z.max (off b (vruntime e)) (off b (cfs_min_vruntime r + vs))).
Proof.
  intros Hq Ee Ha thresh. assert (Hu : forall y, off b (u64 y) = off b y).
  { intros y. unfold off, u64. by rewrite Zminus_mod_idemp_l. }
  unfold place_entity. rewrite (queue_ok _ _ _ Hq). cbn [res_bind andb]. split.
  - intros Hm. rewrite (entity_ok _ _ _ Ee). cbn [res_bind]. eexists. split; [done|].
    destruct (max_off b (vruntime e) (u64 (cfs_min_vruntime r - thresh)) Ha Hm) as [Em _]. by rewrite Hu in Em.
  - intros vs w1 e1 Hsd Ev Ee1 Ev1 Hm. rewrite Hsd, Ev. cbn [res_bind]. rewrite (entity_ok _ _ _ Ee1). cbn [res_bind].
    eexists. split; [done|]. rewrite Ev1.
    destruct (max_off b (vruntime e) (u64 (cfs_min_vruntime r + vs)) Ha Hm) as [Em _]. by rewrite Hu in Em.
Qed.

(** ** A concrete queue *)

Definition task (v : Z) (queued : bool) : sched_entity := mk_se (mk_lw NICE_0_LOAD 0) queued 0 9000000 v 0 NULL 1000 NULL false.

Definition sample_rt : rq_runtime := mk_rt true 1000000 false 2000.

(** Three queued tasks, a running one (32) and one that is not queued (40). *)
Definition sample_world : world :=
  mk_world (nodes (mem_of sample [32; 40]))
    (list_to_map [(8, task 100 true); (16, task 200 true); (24, task 300 true); (32, task 9000000 true); (40, task 150 false)])
    {[ 1000 := mk_rq (mk_lw (4 * NICE_0_LOAD) 0) 4 100 16 8 32 NULL NULL NULL sample_rt ]}
    {[ 2000 := mk_cfs_b 50000000 20000000 false true false [] ]} initial_tunables (mk_features true true true).

Definition sample_queue : cfs_rq := mk_rq (mk_lw (4 * NICE_0_LOAD) 0) 4 100 16 8 32 NULL NULL NULL sample_rt.

Lemma sample_near x : x ∈ [8; 16; 24; 32; 40] -> near sample_world 0 x.
Proof. intros H. repeat (apply elem_of_cons in H as [-> |H]; [by eexists|]). by apply not_elem_of_nil in H. Qed.

Lemma sample_entities x e : entities sample_world !! x = Some e ->
  x ∈ [8; 16; 24; 32; 40] /\ parent e = NULL /\ cfs_rq_ptr e = 1000 /\ load e = mk_lw NICE_0_LOAD 0.
Proof.
  intros H. apply elem_of_list_to_map_2 in H. cbn in H.
  repeat (apply elem_of_cons in H as [[= -> ->]|H]; [split; [by apply (bool_decide_unpack _)|done]|]). by apply not_elem_of_nil in H.
Qed.

Lemma sample_timeline : timeline sample_world 1000 0 [8; 16; 24].
Proof.
  exists sample_queue, sample. split; [done|]. split; [concrete_tree|]. split; [exact sample_rb|]. split; [done|]. split; [done|].
  split; [|by repeat constructor]. apply Forall_forall. intros x Hx. apply sample_near. revert Hx.
  repeat (rewrite elem_of_cons). tauto.
Qed.

Lemma sample_hierarchy : hierarchy sample_world (fun _ => 0%nat).
Proof.
  split; intros x e He; destruct (sample_entities x e He) as (_&Hp&Hq&_); [rewrite Hq; by eexists|by left|by vm_compute; lia].
Qed.

Lemma nice_0_ok : load_ok (mk_lw NICE_0_LOAD 0).
Proof. split; [by vm_compute|by left]. Qed.

Lemma cfs_timeline_refines_witness :
  exists w', run_ops sample_world 1000 [Deq 8; Enq 40] = Ok w' /\ same_but_tree sample_world w' 1000 /\
    timeline w' 1000 0 [40; 16; 24] /\
    __pick_first_entity w' 1000 = Ok 40 /\ __pick_last_entity w' 1000 = Ok 24 /\
    (forall x y, head [40; 16; 24] = Some x -> y ∈ [40; 16; 24] -> at_ sample_world 0 x <= at_ sample_world 0 y) /\
    (forall xs x ys, [40; 16; 24] = xs ++ x :: ys -> __pick_next_entity w' 1000 x = Ok (hd NULL ys)).
Proof.
  apply (cfs_timeline_refines sample_world 1000 0 [8; 16; 24] [Deq 8; Enq 40]); [exact sample_timeline|].
  split; [cbn [op_ok]; by apply (bool_decide_unpack _)|]. split; [cbn [op_ok]|done].
  split; [apply sample_near; by apply (bool_decide_unpack _)|]. split; [by apply (bool_decide_unpack _)|].
  split; [by repeat constructor|by apply (bool_decide_unpack _)].
Defined.

Lemma near_curr_ok w b r : near w b (curr r) -> curr_ok w b r.
Proof. intros (e&Ee&Ha). right. by exists e. Qed.

Lemma update_min_vruntime_correct_witness :
  exists v, update_min_vruntime sample_world 1000 = Ok (put_queue sample_world 1000 (set_min_vruntime sample_queue v)) /\
    ahead 0 v /\ 100 <= off 0 v /\ ([32; 8; 16; 24] = [] -> v = 100) /\
    ([32; 8; 16; 24] <> [] -> exists x, lowest sample_world 0 x [32; 8; 16; 24] /\ off 0 v = Z.max 100 (at_ sample_world 0 x)).
Proof.
  apply (update_min_vruntime_correct sample_world 1000 0 [8; 16; 24] sample_queue);
    [exact sample_timeline|done|apply near_curr_ok, sample_near; by apply (bool_decide_unpack _)|by vm_compute].
Defined.

Lemma pick_next_entity_fair_witness :
  exists se w' left g, pick_next_entity sample_world 1000 32 = Ok (se, w') /\
    lowest sample_world 0 left [32; 8; 16; 24] /\ gran_is sample_world left g /\ at_ sample_world 0 se <= at_ sample_world 0 left + g /\
    (se ∈ [32; 8; 16; 24] \/ se <> NULL /\ (se = NULL \/ se = NULL)) /\
    (NULL = NULL -> NULL = NULL -> NULL <> left -> se = left) /\
    exists r', queues w' !! 1000 = Some r' /\ forall bd, buddy_of bd r' <> se.
Proof.
  apply (pick_next_entity_fair sample_world 1000 0 [8; 16; 24] 32 sample_queue (fun _ => 0%nat)). split.
  - exact sample_timeline.
  - done.
  - exact sample_hierarchy.
  - right. apply sample_near. by apply (bool_decide_unpack _).
  - intros []; by left.
  - done.
  - intros x e _ He. by destruct (sample_entities x e He) as (_&_&->&_).
  - intros x e He. destruct (sample_entities x e He) as (_&_&_&->). exact nice_0_ok.
  - by vm_compute.
  - by left.
Defined.

Lemma sample_slice : slice_pre sample_world 1000 32 (task 9000000 true) sample_queue (fun _ => 0%nat).
Proof.
  split; [exact sample_hierarchy| |done|done|done|by vm_compute|by vm_compute|by vm_compute].
  intros x e r He Hr. destruct (sample_entities x e He) as (_&_&Hq&Hl). rewrite Hq in Hr. injection Hr as <-.
  unfold level_ok. rewrite Hl. split; [by vm_compute|]. destruct (on_rq e); [|by vm_compute].
  split; [split; [split; [by vm_compute|by left]|by vm_compute]|by vm_compute].
Qed.

Lemma sched_slice_correct_witness :
  exists s w', sched_slice sample_world 1000 32 = Ok (s, w') /\ sliced sample_world w' /\ 0 <= s <= 6000000.
Proof. apply (sched_slice_correct sample_world 1000 32 (task 9000000 true) sample_queue (fun _ => 0%nat)). exact sample_slice. Defined.

Lemma check_preempt_tick_correct_witness :
  exists s w1 w' resched, sched_slice sample_world 1000 32 = Ok (s, w1) /\ check_preempt_tick sample_world 1000 32 = Ok (w', resched) /\
    (resched = true <-> s < 9000000 \/ 750000 <= 9000000 /\ s < at_ sample_world 0 32 - at_ sample_world 0 8).
Proof.
  apply (check_preempt_tick_correct sample_world 1000 0 [16; 24] 32 (task 9000000 true) sample_queue (fun _ => 0%nat) 8);
    [exact sample_slice|exact sample_timeline|apply sample_near; by apply (bool_decide_unpack _)|done].
Defined.

Lemma place_entity_correct_witness :
  (ahead (-3000000) (u64 (100 - 3000000)) ->
   exists v, place_entity sample_world 1000 40 false = Ok (put_entity sample_world 40 (set_vruntime (task 150 false) v)) /\
     off (-3000000) v = Z.max (off (-3000000) 150) (off (-3000000) (100 - 3000000))) /\
  (forall vs w1 e1, true = true -> sched_vslice sample_world 1000 40 = Ok (vs, w1) -> entities w1 !! 40 = Some e1 ->
   vruntime e1 = 150 -> ahead (-3000000) (u64 (100 + vs)) ->
   exists v, place_entity sample_world 1000 40 true = Ok (put_entity w1 40 (set_vruntime e1 v)) /\
     off (-3000000) v = Z.max (off (-3000000) 150) (off (-3000000) (100 + vs))).
Proof. apply (place_entity_correct sample_world 1000 40 (task 150 false) sample_queue (-3000000)); [done|done|by vm_compute]. Defined.
