(* ===== verification/CfsBandwidth.v ===== *)
(** * Bandwidth control and the accounting of run time (kernel/sched/fair.c)

    A group's bandwidth pool hands out run time to its queues in slices; [update_curr]
    charges the running entity and its queue.  The timers of the pool and the throttling of
    a queue that has run out are not part of this file.  The clock of the run queue is an
    argument; operations that may call [resched_curr] return whether they did. *)

From stdpp Require Import gmap.
From S2P Require Import Prelude Sums Pelt Rbtree CfsWeight CfsQueue CfsTimeline CfsPick CfsSlice.
Local Open Scope Z_scope.
Local Open Scope res_scope.

Definition NSEC_PER_USEC : Z := 1000.
Definition NSEC_PER_MSEC : Z := 1000000.
Definition sysctl_sched_cfs_bandwidth_slice : Z := 5000.
Definition sched_cfs_bandwidth_slice : Z := u64 (sysctl_sched_cfs_bandwidth_slice * NSEC_PER_USEC).
Definition min_cfs_rq_runtime : Z := 1 * NSEC_PER_MSEC.

Definition group (w : world) (g : Z) : res cfs_bandwidth :=
  match groups w !! g with Some b => Ok b | None => Fault OutOfBounds end.
Definition put_group (w : world) (g : Z) (b : cfs_bandwidth) : world :=
  mk_world (tree_nodes w) (entities w) (queues w) (<[g := b]> (groups w)) (tun w) (feat w).
Definition set_rt (r : cfs_rq) (c : rq_runtime) : cfs_rq :=
  mk_rq (cfs_load r) (nr_running r) (cfs_min_vruntime r) (timeline_root r) (rb_leftmost r) (curr r) (next r) (last r) (skip r) c.
Definition set_remaining (c : rq_runtime) (v : Z) : rq_runtime := mk_rt (runtime_enabled c) v (throttled c) (tg c).
Definition set_pool (b : cfs_bandwidth) (v : Z) (i : bool) : cfs_bandwidth :=
  mk_cfs_b (quota b) v i (period_active b) (slack_started b) (throttled_cfs_rq b).

Definition init_cfs_bandwidth : cfs_bandwidth := mk_cfs_b RUNTIME_INF 0 false false false [].

Definition __refill_cfs_bandwidth_runtime (b : cfs_bandwidth) : cfs_bandwidth :=
  if negb (quota b =? RUNTIME_INF) then set_pool b (quota b) (idle b) else b.

(** The timer itself is a stub of the repository. *)
Definition start_cfs_bandwidth (b : cfs_bandwidth) : cfs_bandwidth :=
  if period_active b then b else mk_cfs_b (quota b) (runtime b) (idle b) true (slack_started b) (throttled_cfs_rq b).

Definition assign_cfs_rq_runtime (c : rq_runtime) (b : cfs_bandwidth) : bool * rq_runtime * cfs_bandwidth :=
  let min_amount := u64 (sched_cfs_bandwidth_slice - runtime_remaining c) in
  let '(amount, b) :=
    if quota b =? RUNTIME_INF then (min_amount, b)
    else
      let b := start_cfs_bandwidth b in
      if runtime b >? 0 then
        let amount := Z.min (runtime b) min_amount in (amount, set_pool b (u64 (runtime b - amount)) false)
      else (0, b) in
  let c := set_remaining c (s64 (runtime_remaining c + amount)) in
  (runtime_remaining c >? 0, c, b).

Definition __account_cfs_rq_runtime (c : rq_runtime) (b : cfs_bandwidth) (curr delta_exec : Z) : rq_runtime * cfs_bandwidth * bool :=
  let c := set_remaining c (s64 (runtime_remaining c - delta_exec)) in
  if runtime_remaining c >? 0 then (c, b, false)
  else if throttled c then (c, b, false)
  else
    let '(ok, c, b) := assign_cfs_rq_runtime c b in
    (c, b, negb ok && negb (curr =? NULL)).

Definition account_cfs_rq_runtime (w : world) (q delta_exec : Z) : res (world * bool) :=
  r <-- queue w q;
  if negb (cfs_bandwidth_used (feat w)) || negb (runtime_enabled (rt r)) then Ok (w, false)
  else
    b <-- group w (tg (rt r));
    let '(c, b, resched) := __account_cfs_rq_runtime (rt r) b (curr r) delta_exec in
    Ok (put_group (put_queue w q (set_rt r c)) (tg (rt r)) b, resched).

(** The test against the timer is compiled out. *)
Definition runtime_refresh_within (b : cfs_bandwidth) (min_expire : Z) : bool := false.

Definition start_cfs_slack_bandwidth (b : cfs_bandwidth) : cfs_bandwidth :=
  if runtime_refresh_within b (5 * NSEC_PER_MSEC + 2 * NSEC_PER_MSEC) then b
  else if slack_started b then b
  else mk_cfs_b (quota b) (runtime b) (idle b) (period_active b) true (throttled_cfs_rq b).

Definition __return_cfs_rq_runtime (c : rq_runtime) (b : cfs_bandwidth) : rq_runtime * cfs_bandwidth :=
  let slack_runtime := s64 (runtime_remaining c - min_cfs_rq_runtime) in
  if slack_runtime <=? 0 then (c, b)
  else
    let b :=
      if negb (quota b =? RUNTIME_INF) then
        let b := set_pool b (u64 (runtime b + slack_runtime)) (idle b) in
        if (runtime b >? sched_cfs_bandwidth_slice) && negb (bool_decide (throttled_cfs_rq b = [])) then start_cfs_slack_bandwidth b else b
      else b in
    (set_remaining c (s64 (runtime_remaining c - slack_runtime)), b).

Definition return_cfs_rq_runtime (w : world) (q : Z) : res world :=
  r <-- queue w q;
  if negb (cfs_bandwidth_used (feat w)) then Ok w
  else if negb (runtime_enabled (rt r)) || negb (nr_running r =? 0) then Ok w
  else
    b <-- group w (tg (rt r));
    let '(c, b) := __return_cfs_rq_runtime (rt r) b in
    Ok (put_group (put_queue w q (set_rt r c)) (tg (rt r)) b).

(** ** The running entity *)

Definition set_exec (e : sched_entity) (start sum : Z) : sched_entity :=
  mk_se (load e) (on_rq e) start sum (vruntime e) (prev_sum_exec_runtime e) (parent e) (cfs_rq_ptr e) (my_q e) (idle_policy e).

Definition update_curr (w : world) (q now : Z) : res (world * bool) :=
  r <-- queue w q;
  let curr := curr r in
  if curr =? NULL then Ok (w, false)
  else
    e <-- entity w curr;
    let delta_exec := u64 (now - exec_start e) in
    if s64 delta_exec <=? 0 then Ok (w, false)
    else
      let w := put_entity w curr (set_exec e now (u64 (sum_exec_runtime e + delta_exec))) in
      '(d, w) <-- entity_delta_fair w delta_exec curr;
      e <-- entity w curr;
      let w := put_entity w curr (set_vruntime e (u64 (vruntime e + d))) in
      w <-- update_min_vruntime w q;
      account_cfs_rq_runtime w q delta_exec.

(** ** Conservation of run time *)

(** The run time queues of a group hold, counted by [f]. *)
Definition held (f : Z -> Z) (w : world) (g : Z) : Z :=
  sumq (fun r => if tg (rt r) =? g then f (runtime_remaining (rt r)) else 0) (queues w).

Definition pos (x : Z) : Z := Z.max 0 x.

(** One side of the accounting: the pool and a queue before and after. *)
Record moved (c c' : rq_runtime) (b b' : cfs_bandwidth) (used : Z) : Prop := {
  mv_total : runtime b' + runtime_remaining c' = runtime b + runtime_remaining c - used;
  mv_credit : runtime b' + Z.max (runtime_remaining c') 0 <= runtime b + Z.max (runtime_remaining c) 0;
  mv_pool : 0 <= runtime b';
  mv_floor : Z.min (runtime_remaining c) 0 - used <= runtime_remaining c';
  mv_quota : quota b' = quota b; mv_tg : tg c' = tg c; mv_enabled : runtime_enabled c' = runtime_enabled c }.

Definition fits (c : rq_runtime) (b : cfs_bandwidth) : Prop :=
  0 <= runtime b <= 2 ^ 61 /\ - 2 ^ 61 <= runtime_remaining c <= 2 ^ 61 /\ 0 <= quota b <= 2 ^ 61.

Lemma assign_ok c b : 0 <= runtime b <= 2 ^ 61 -> 0 <= quota b <= 2 ^ 61 -> - 2 ^ 62 <= runtime_remaining c <= 0 ->
  let '(ok, c', b') := assign_cfs_rq_runtime c b in
  moved c c' b b' 0 /\ ok = (0 <? runtime_remaining c') /\
  runtime_remaining c' = Z.min sched_cfs_bandwidth_slice (runtime_remaining c + runtime b).
Proof.
  intros Hp Hq Hr. unfold assign_cfs_rq_runtime, RUNTIME_INF. rewrite (proj2 (Z.eqb_neq _ _)) by lia.
  assert (E0 : forall x, runtime (start_cfs_bandwidth x) = runtime x /\ quota (start_cfs_bandwidth x) = quota x)
    by (intros x; unfold start_cfs_bandwidth; by destruct (period_active x)).
  destruct (E0 b) as [-> Eq]. change sched_cfs_bandwidth_slice with 5000000.
  rewrite u64_small by lia. rewrite Z.gtb_ltb. destruct (Z.ltb_spec 0 (runtime b)) as [H|H].
  - rewrite u64_small by lia. cbn [set_remaining runtime_remaining]. rewrite Z.gtb_ltb, s64_small by lia.
    split; [|split; [done|lia]]. split; cbn [runtime set_pool set_remaining runtime_remaining quota tg]; [lia|lia|lia|lia|done|done|done].
  - cbn [set_remaining runtime_remaining]. rewrite Z.gtb_ltb, s64_small by lia.
    split; [|split; [done|lia]]. destruct (E0 b) as [E1 _]. split; cbn [set_remaining runtime_remaining]; rewrite ?E1; first [lia|done].
Qed.

Lemma account_ok c b cu d : fits c b -> 0 <= d <= 2 ^ 61 ->
  let '(c', b', resched) := __account_cfs_rq_runtime c b cu d in
  moved c c' b b' d /\
  runtime_remaining c' = (let left := runtime_remaining c - d in
    if (0 <? left) || throttled c then left else Z.min sched_cfs_bandwidth_slice (left + runtime b)) /\
  (resched = true <-> throttled c = false /\ runtime_remaining c' <= 0 /\ cu <> NULL).
Proof.
  intros (Hp&Hr&Hq) Hd. unfold __account_cfs_rq_runtime. cbn [set_remaining runtime_remaining throttled]. rewrite s64_small by lia.
  rewrite Z.gtb_ltb. destruct (Z.ltb_spec 0 (runtime_remaining c - d)) as [H|H]; cbn [orb].
  { split; [|split; [done|split; [done|]]]; [split; cbn [set_remaining runtime_remaining]; first [lia|done]|]. cbn [set_remaining runtime_remaining]. lia. }
  destruct (throttled c) eqn:Et.
  { split; [|split; [done|split; [done|]]]; [split; cbn [set_remaining runtime_remaining]; first [lia|done]|]. by intros [? _]. }
  set (c1 := set_remaining c (runtime_remaining c - d)).
  pose proof (assign_ok c1 b Hp Hq ltac:(cbn; lia)) as HA.
  destruct (assign_cfs_rq_runtime c1 b) as [[ok c'] b']. destruct HA as (M&->&Er). cbn [c1 set_remaining runtime_remaining] in Er.
  split; [destruct M as [M1 M2 M3 M4 M5 M6 M7]; cbn [c1 set_remaining runtime_remaining tg runtime_enabled] in *; split; first [lia|done]|].
  split; [done|]. destruct (Z.ltb_spec 0 (runtime_remaining c')), (Z.eqb_spec cu NULL); cbn [negb andb]; split; intros; try done; try lia; tauto.
Qed.

Lemma return_ok c b : fits c b ->
  let '(c', b') := __return_cfs_rq_runtime c b in
  moved c c' b b' 0 /\ runtime_remaining c' = Z.min (runtime_remaining c) min_cfs_rq_runtime.
Proof.
  intros (Hp&Hr&Hq). unfold __return_cfs_rq_runtime. change min_cfs_rq_runtime with 1000000. rewrite s64_small by lia.
  destruct (Z.leb_spec (runtime_remaining c - 1000000) 0); [split; [split; first [lia|done]|lia]|].
  cbn [set_remaining runtime_remaining]. rewrite s64_small by lia. unfold RUNTIME_INF. rewrite (proj2 (Z.eqb_neq (quota b) _)) by lia. cbn [negb].
  split; [|cbn [set_remaining runtime_remaining]; lia].
  assert (E0 : forall x, runtime (start_cfs_slack_bandwidth x) = runtime x /\ quota (start_cfs_slack_bandwidth x) = quota x)
    by (intros x; unfold start_cfs_slack_bandwidth; simpl; by destruct (slack_started x)).
  set (b1 := set_pool b _ _). assert (E1 : runtime b1 = runtime b + (runtime_remaining c - 1000000)) by (cbn; by rewrite u64_small by lia).
  destruct (E0 b1) as [E2 E3]. destruct (_ && _); split; cbn [set_remaining runtime_remaining tg]; rewrite ?E2, ?E3, ?E1; first [lia|done].
Qed.

(** *** Periods

    A group between two refills: charges to its queues and returns of what an idle queue
    has left, in any order. *)

Inductive bw_op := Charge (q delta : Z) | Return (q : Z).

Definition run_bw_op (w : world) (o : bw_op) : res world :=
  match o with
  | Charge q delta => '(w, _) <-- account_cfs_rq_runtime w q delta; Ok w
  | Return q => return_cfs_rq_runtime w q
  end.
Fixpoint run_bw (w : world) (ops : list bw_op) : res world :=
  match ops with
  | [] => Ok w
  | o :: ops => w <-- run_bw_op w o; run_bw w ops
  end.

Definition op_queue (o : bw_op) : Z := match o with Charge q _ => q | Return q => q end.
Definition op_cost (o : bw_op) : Z := match o with Charge _ d => d | Return _ => 0 end.
Definition cost (ops : list bw_op) : Z := foldr (fun o acc => op_cost o + acc) 0 ops.

(** Every queue of the group is under control and its run time is above [- debt]. *)
Record controlled (w : world) (g credit debt : Z) (b : cfs_bandwidth) : Prop := {
  ct_used : cfs_bandwidth_used (feat w) = true;
  ct_group : groups w !! g = Some b;
  ct_pool : 0 <= runtime b; ct_quota : 0 <= quota b <= 2 ^ 61;
  ct_credit : runtime b + held pos w g <= credit;
  ct_queues q r : queues w !! q = Some r -> tg (rt r) = g -> runtime_enabled (rt r) = true /\ - debt <= runtime_remaining (rt r) }.

Lemma held_part w g q r : queues w !! q = Some r -> tg (rt r) = g -> Z.max 0 (runtime_remaining (rt r)) <= held pos w g.
Proof.
  intros Hq Hg. unfold held. set (F := fun r => _). rewrite <- (insert_delete_id (queues w) q r) by done.
  rewrite sumq_insert by apply lookup_delete_eq. assert (0 <= sumq F (delete q (queues w))).
  { apply sumq_nonneg. intros r'. unfold F, pos. destruct (_ =? _); lia. }
  assert (F r = Z.max 0 (runtime_remaining (rt r))) as -> by (unfold F; by rewrite Hg, Z.eqb_refl). lia.
Qed.

Lemma controlled_fits w g credit debt b q r : controlled w g credit debt b -> queues w !! q = Some r -> tg (rt r) = g ->
  credit <= 2 ^ 61 -> debt <= 2 ^ 61 -> fits (rt r) b.
Proof.
  intros [Hu Hb Hp Hq Hc Hqs] Hr Hg H1 H2. pose proof (held_part _ _ _ _ Hr Hg). destruct (Hqs q r Hr Hg). unfold fits. lia.
Qed.

Lemma moved_controlled w g credit debt b q r c' b' used : controlled w g credit debt b -> queues w !! q = Some r -> tg (rt r) = g ->
  0 <= debt -> 0 <= used -> moved (rt r) c' b b' used ->
  let w' := put_group (put_queue w q (set_rt r c')) g b' in
  controlled w' g credit (debt + used) b' /\ runtime b' + held id w' g = runtime b + held id w g - used.
Proof.
  intros [Hu Hb Hp Hq Hc Hqs] Hr Hg Hd Hus [M1 M2 M3 M4 M5 M6 M7] w'.
  assert (Eheld : forall f, held f w' g = held f w g - f (runtime_remaining (rt r)) + f (runtime_remaining c')).
  { intros f. unfold held. cbn [w' put_group put_queue queues]. rewrite (sumq_update _ _ _ _ _ Hr). cbn [set_rt rt].
    by rewrite M6, Hg, Z.eqb_refl. }
  split; [split|]; [done|apply lookup_insert_eq|done|by rewrite M5|rewrite Eheld; unfold pos at 2 3; lia| |rewrite Eheld; unfold id at 2 3; lia].
  intros q2 r2. cbn [w' put_group put_queue queues]. destruct (decide (q2 = q)) as [-> |Hne].
  - rewrite lookup_insert_eq. intros [= <-]. cbn [set_rt rt]. rewrite M6, M7. intros _. destruct (Hqs q r Hr Hg) as [H1 H2].
    split; [done|]. lia.
  - rewrite lookup_insert_ne by done. intros H2 H3. destruct (Hqs q2 r2 H2 H3). split; [done|lia].
Qed.

Lemma bw_op_ok w g credit debt b o : controlled w g credit debt b -> credit <= 2 ^ 61 -> 0 <= debt -> 0 <= op_cost o -> debt + op_cost o <= 2 ^ 61 ->
  (exists r, queues w !! op_queue o = Some r /\ tg (rt r) = g) ->
  exists w' b', run_bw_op w o = Ok w' /\ controlled w' g credit (debt + op_cost o) b' /\
    runtime b' + held id w' g = runtime b + held id w g - op_cost o /\
    (forall q r, queues w !! q = Some r -> exists c, queues w' !! q = Some (set_rt r c) /\ tg c = tg (rt r)).
Proof.
  intros HC Hcr Hd Hop Hb (r&Hr&Hg). pose proof HC as [Hu Hgb _ _ _ Hqs]. destruct (Hqs _ r Hr Hg) as [He _].
  assert (Hkeep : forall c', tg c' = tg (rt r) -> forall b' q2 r2, queues w !! q2 = Some r2 ->
    exists c, queues (put_group (put_queue w (op_queue o) (set_rt r c')) g b') !! q2 = Some (set_rt r2 c) /\ tg c = tg (rt r2)).
  { intros c' Hc' b' q2 r2 H2. simpl. destruct (decide (q2 = op_queue o)) as [-> |Hne].
    - rewrite Hr in H2. injection H2 as <-. exists c'. by rewrite lookup_insert_eq.
    - exists (rt r2). rewrite lookup_insert_ne by done. by destruct r2. }
  assert (Hf : fits (rt r) b) by (eapply controlled_fits; [exact HC|exact Hr|done|lia|lia]).
  destruct o as [q d|q]; cbn [op_queue op_cost run_bw_op] in *.
  - pose proof (account_ok (rt r) b (curr r) d Hf ltac:(lia)) as HA.
    destruct (__account_cfs_rq_runtime (rt r) b (curr r) d) as [[c' b'] rs] eqn:EA. destruct HA as (M&_).
    eexists _, b'. split; [|destruct (moved_controlled _ _ _ _ _ _ _ _ _ _ HC Hr Hg Hd Hop M); split; [done|split; [done|apply Hkeep, M]]].
    unfold account_cfs_rq_runtime, group. rewrite (queue_ok _ _ _ Hr). cbn [res_bind]. rewrite Hu, He, Hg, Hgb. cbn [negb orb res_bind].
    by rewrite EA.
  - pose proof (return_ok (rt r) b Hf) as HA. destruct (__return_cfs_rq_runtime (rt r) b) as [c' b'] eqn:EA. destruct HA as (M&_).
    unfold return_cfs_rq_runtime, group. rewrite (queue_ok _ _ _ Hr). cbn [res_bind]. rewrite Hu, He, Hg, Hgb. cbn [negb orb res_bind].
    destruct (Z.eqb_spec (nr_running r) 0) as [E0|E0]; cbn [negb orb].
    + rewrite EA. eexists _, b'. split; [done|].
      destruct (moved_controlled _ _ _ _ _ _ _ _ _ _ HC Hr Hg Hd (Z.le_refl 0) M); split; [done|split; [done|apply Hkeep, M]].
    + exists w, b. split; [done|]. rewrite Z.add_0_r, Z.sub_0_r. split; [done|]. split; [done|]. intros q2 r2 H2. exists (rt r2). by destruct r2.
Qed.

Lemma run_bw_ok ops : forall w g credit debt b, controlled w g credit debt b -> credit <= 2 ^ 61 -> 0 <= debt ->
  Forall (fun o => 0 <= op_cost o /\ exists r, queues w !! op_queue o = Some r /\ tg (rt r) = g) ops -> debt + cost ops <= 2 ^ 61 ->
  exists w' b', run_bw w ops = Ok w' /\ controlled w' g credit (debt + cost ops) b' /\
    runtime b' + held id w' g = runtime b + held id w g - cost ops.
Proof.
  induction ops as [|o ops IH]; intros w g credit debt b HC Hcr Hd Hops Hb; cbn [run_bw cost foldr] in *.
  { exists w, b. rewrite Z.add_0_r, Z.sub_0_r. done. }
  fold (cost ops) in *. apply Forall_cons in Hops as [[Ho Hq] Hops].
  assert (Hcost : 0 <= cost ops).
  { clear -Hops. induction Hops as [|o ops [Ho _] _ IH]; unfold cost in *; cbn [foldr]; lia. }
  destruct (bw_op_ok w g credit debt b o) as (w1&b1&E1&C1&T1&K1); try done; [lia|]. rewrite E1. cbn [res_bind].
  destruct (IH w1 g credit (debt + op_cost o) b1) as (w2&b2&E2&C2&T2); try done; [lia| |lia|].
  { eapply Forall_impl; [exact Hops|]. intros o' [H1 (r&Hr&Hg)]. split; [done|]. destruct (K1 _ _ Hr) as (c&Hc&Ec). exists (set_rt r c).
    split; [done|]. simpl. congruence. }
  exists w2, b2. split; [done|]. rewrite Z.add_assoc. split; [done|]. lia.
Qed.

(** What queues of a group have run beyond the run time they were given. *)
Definition overrun (w : world) (g : Z) : Z := held (fun x => Z.max 0 (- x)) w g.

Lemma held_split w g : held id w g = held pos w g - overrun w g.
Proof.
  unfold overrun, held, sumq. induction (queues w) as [|q r m Hq Hf IH] using map_first_key_ind; [by rewrite !map_fold_empty|].
  rewrite !map_fold_insert_first_key by done. unfold id, pos in *. destruct (_ =? _); lia.
Qed.

(** C30: a group stays within its quota.  Over any sequence of charges to the queues of a group
    and returns from idle ones between two refills, run time is neither created nor lost:
    what the pool and the queues hold at the end is what they held before less what was
    charged.  Hence the group runs for at most what the pool and the queues had at the start
    (the pool: at most the quota, right after a refill), plus the overrun its queues show
    at the end; the pool never goes below zero. *)
Theorem bandwidth_conserved w g credit debt b ops : controlled w g credit debt b -> credit <= 2 ^ 61 -> 0 <= debt ->
  Forall (fun o => 0 <= op_cost o /\ exists r, queues w !! op_queue o = Some r /\ tg (rt r) = g) ops -> debt + cost ops <= 2 ^ 61 ->
  exists w' b', run_bw w ops = Ok w' /\ groups w' !! g = Some b' /\ 0 <= runtime b' /\
    runtime b' + held id w' g = runtime b + held id w g - cost ops /\
    cost ops <= runtime b + held pos w g + overrun w' g.
Proof.
  intros HC Hcr Hd Hops Hb. destruct (run_bw_ok ops w g credit debt b HC Hcr Hd Hops Hb) as (w'&b'&E1&C1&T1).
  exists w', b'. split; [done|]. split; [apply C1|]. split; [apply C1|]. split; [done|].
  pose proof (held_split w g) as S0. pose proof (held_split w' g) as S1. destruct C1 as [_ _ Hp _ _ _].
  assert (0 <= overrun w g) by (apply sumq_nonneg; intros r; destruct (_ =? _); lia).
  assert (0 <= held pos w' g) by (apply sumq_nonneg; intros r; unfold pos; destruct (_ =? _); lia). lia.
Qed.

(** ** Charging the running entity *)

(** Nothing changes but entities and queues. *)
Definition rest_same (w w' : world) : Prop :=
  tree_nodes w' = tree_nodes w /\ groups w' = groups w /\ tun w' = tun w /\ feat w' = feat w.

Lemma update_curr_ok w q b l r e now d lw : timeline w q b l -> queues w !! q = Some r ->
  entities w !! curr r = Some e -> curr r <> NULL -> curr r ∉ l -> runtime_enabled (rt r) = false ->
  ahead b (cfs_min_vruntime r) ->
  let delta := u64 (now - exec_start e) in
  calc_delta_fair delta (load e) = Ok (d, lw) ->
  (on_rq e = true -> ahead b (u64 (vruntime e + d))) ->
  exists w', update_curr w q now = Ok (w', false) /\
    (s64 delta <= 0 -> w' = w) /\
    (0 < s64 delta -> exists v,
       entities w' = <[curr r := set_vruntime (set_load (set_exec e now (u64 (sum_exec_runtime e + delta))) lw) (u64 (vruntime e + d))]> (entities w) /\
       queues w' = <[q := set_min_vruntime r v]> (queues w) /\ off b (cfs_min_vruntime r) <= off b v /\ ahead b v /\
       (forall m, off b (cfs_min_vruntime r) <= m -> (on_rq e = true -> off b (u64 (vruntime e + d)) <= m) ->
          (forall x, x ∈ l -> at_ w b x <= m) -> off b v <= m) /\
       (weight (load e) = NICE_0_LOAD -> d = delta)) /\
    timeline w' q b l /\ rest_same w w'.
Proof.
  intros HT Hq Ee Hc Hcl Hrt Hm delta Ed Ha. unfold update_curr. rewrite (queue_ok _ _ _ Hq). cbn [res_bind].
  rewrite (proj2 (Z.eqb_neq _ _)) by done. rewrite (entity_ok _ _ _ Ee). cbn [res_bind]. fold delta.
  destruct (Z.leb_spec (s64 delta) 0) as [H|H]; [exists w; split; [done|split; [done|split; [lia|done]]]|].
  set (e1 := set_exec e now (u64 (sum_exec_runtime e + delta))). set (w1 := put_entity w (curr r) e1).
  unfold entity_delta_fair. rewrite (entity_ok w1 (curr r) e1) by apply lookup_insert_eq. cbn [res_bind].
  change (load e1) with (load e). rewrite Ed. cbn [res_bind]. rewrite (entity_ok _ _ (set_load e1 lw)) by apply lookup_insert_eq. cbn [res_bind].
  set (e2 := set_vruntime (set_load e1 lw) _). set (w2 := put_entity _ _ e2).
  assert (Ew2 : entities w2 = <[curr r := e2]> (entities w)) by (unfold w2, w1; simpl; by rewrite !insert_insert_eq).
  assert (HT2 : timeline w2 q b l).
  { eapply (timeline_ext w w2); [done|exact Hq|exact Hq|done|done| |done]. intros x Hx. rewrite Ew2, lookup_insert_ne by congruence. done. }
  destruct (update_min_vruntime_ok w2 q b l r HT2 Hq) as (v&Ev&Hv&Hle&Hnil&Hlow); [right; exists e2; by rewrite Ew2, lookup_insert_eq|done|].
  rewrite Ev. cbn [res_bind]. unfold account_cfs_rq_runtime.
  rewrite (queue_ok _ q (set_min_vruntime r v)) by apply lookup_insert_eq. cbn [res_bind set_min_vruntime rt]. rewrite Hrt. cbn [negb]. rewrite orb_true_r.
  eexists. split; [done|]. split; [lia|]. split.
  - intros _. exists v. do 4 (split; [done|]). split; [|intros Hw; unfold calc_delta_fair in Ed; rewrite Hw, Z.eqb_refl in Ed; by injection Ed as <- _].
    intros m Hm1 Hm2 Hm3. destruct (running w2 r ++ l) as [|y ys] eqn:El; [by rewrite Hnil|].
    destruct Hlow as (x&[Hx _]&Ex); [done|]. rewrite Ex. apply Z.max_lub; [done|]. rewrite <- El in Hx. apply elem_of_app in Hx as [Hx|Hx].
    + unfold running in Hx. destruct (_ =? _); [by apply not_elem_of_nil in Hx|]. rewrite Ew2, lookup_insert_eq in Hx. cbn [on_rq e2 set_vruntime set_load e1 set_exec] in Hx.
      destruct (on_rq e) eqn:Eo; [|by apply not_elem_of_nil in Hx]. apply list_elem_of_singleton in Hx as ->. unfold at_. rewrite Ew2, lookup_insert_eq. auto.
    + etransitivity; [|by apply Hm3]. unfold at_. rewrite Ew2, lookup_insert_ne; [done|congruence].
  - split; [|done]. eapply (timeline_ext w2); [done|exact Hq|apply lookup_insert_eq|done|done|done|done].
Qed.

(** the running entity is charged for the time it ran.  [update_curr] does nothing without
    a running entity or when the clock has not advanced; otherwise the entity's total run
    time grows by the time since the last update, its virtual time by that time scaled by
    NICE_0_LOAD over its weight (the unscaled time at nice 0), the queue's min_vruntime does
    not go back, and nothing else changes but a queue's share of bandwidth. *)
Theorem update_curr_correct w q b l r e now d lw : timeline w q b l -> queues w !! q = Some r ->
  entities w !! curr r = Some e -> curr r <> NULL -> curr r ∉ l -> runtime_enabled (rt r) = false ->
  ahead b (cfs_min_vruntime r) ->
  let delta := u64 (now - exec_start e) in
  calc_delta_fair delta (load e) = Ok (d, lw) ->
  (on_rq e = true -> ahead b (u64 (vruntime e + d))) ->
  exists w', update_curr w q now = Ok (w', false) /\
    (s64 delta <= 0 -> w' = w) /\
    (0 < s64 delta -> exists v,
       entities w' = <[curr r := set_vruntime (set_load (set_exec e now (u64 (sum_exec_runtime e + delta))) lw) (u64 (vruntime e + d))]> (entities w) /\
       queues w' = <[q := set_min_vruntime r v]> (queues w) /\ off b (cfs_min_vruntime r) <= off b v /\ ahead b v /\
       (forall m, off b (cfs_min_vruntime r) <= m -> (on_rq e = true -> off b (u64 (vruntime e + d)) <= m) ->
          (forall x, x ∈ l -> at_ w b x <= m) -> off b v <= m) /\
       (weight (load e) = NICE_0_LOAD -> d = delta)) /\
    timeline w' q b l /\ rest_same w w'.
Proof. apply update_curr_ok. Qed.

(** ** Witnesses *)

Lemma sample_controlled : controlled sample_world 2000 21000000 0 (mk_cfs_b 50000000 20000000 false true false []).
Proof.
  split; [done|done|by vm_compute|by vm_compute|by vm_compute|]. intros q r Hq Hg.
  cbn [queues sample_world] in Hq. apply lookup_singleton_Some in Hq as [<- <-]. by vm_compute.
Qed.

Lemma bandwidth_conserved_witness :
  exists w' b', run_bw sample_world [Charge 1000 1500000; Return 1000; Charge 1000 30000000] = Ok w' /\
    groups w' !! 2000 = Some b' /\ 0 <= runtime b' /\
    runtime b' + held id w' 2000 = 20000000 + held id sample_world 2000 - 31500000 /\
    31500000 <= 20000000 + held pos sample_world 2000 + overrun w' 2000.
Proof.
  apply (bandwidth_conserved sample_world 2000 21000000 0 (mk_cfs_b 50000000 20000000 false true false [])
    [Charge 1000 1500000; Return 1000; Charge 1000 30000000]); [exact sample_controlled|lia|lia| |by vm_compute].
  repeat apply List.Forall_cons; [..|apply List.Forall_nil]; (split; [by vm_compute|]; exists sample_queue; by vm_compute).
Defined.

Definition plain_queue : cfs_rq := set_rt sample_queue (mk_rt false 0 false NULL).
Definition plain_world : world := put_queue sample_world 1000 plain_queue.

Lemma plain_timeline : timeline plain_world 1000 0 [8; 16; 24].
Proof. eapply (timeline_ext sample_world); [done|done|done|done|done|done|exact sample_timeline]. Qed.

Lemma update_curr_correct_witness :
  exists w', update_curr plain_world 1000 3000000 = Ok (w', false) /\
    (s64 3000000 <= 0 -> w' = plain_world) /\
    (0 < s64 3000000 -> exists v,
       entities w' = <[32 := set_vruntime (set_load (set_exec (task 9000000 true) 3000000 12000000) (mk_lw NICE_0_LOAD 0)) 12000000]>
         (entities plain_world) /\
       queues w' = <[1000 := set_min_vruntime plain_queue v]> (queues plain_world) /\ 100 <= off 0 v /\ ahead 0 v /\
       (forall m, 100 <= m -> (true = true -> 12000000 <= m) -> (forall x, x ∈ [8; 16; 24] -> at_ plain_world 0 x <= m) -> off 0 v <= m) /\
       (NICE_0_LOAD = NICE_0_LOAD -> 3000000 = 3000000)) /\
    timeline w' 1000 0 [8; 16; 24] /\ rest_same plain_world w'.
Proof.
  apply (update_curr_correct plain_world 1000 0 [8; 16; 24] plain_queue (task 9000000 true) 3000000 3000000 (mk_lw NICE_0_LOAD 0));
    [exact plain_timeline|done|done|done|by apply (bool_decide_unpack _)|done|by vm_compute|done|by vm_compute].
Defined.
