(* ===== verification/CfsClass.v ===== *)
(** * Entities entering, leaving and running (kernel/sched/fair.c)

    The state keeps what decides who runs: weights, virtual times, the timeline, the running
    entity and the buddies.  Load averages (Pelt.v), statistics, the list of leaf queues and
    the list of tasks for load balancing are not part of it.  Where the code goes on to
    throttle a queue or to reweight the entity of a group the model stops with
    [NotModelled]; the theorems are about queues without bandwidth control whose entities
    are tasks, and show that this is not reached. *)

From stdpp Require Import gmap sorting.
From S2P Require Import Prelude Pelt Rbtree RbtreeTree RbtreeInsert RbtreeIter CfsWeight CfsQueue CfsTimeline CfsPick CfsSlice CfsBandwidth.
Local Open Scope Z_scope.
Local Open Scope res_scope.

Definition ENQUEUE_MIGRATED : Z := 64.
Definition DEQUEUE_SLEEP : Z := 1.

Definition set_on_rq (e : sched_entity) (v : bool) : sched_entity :=
  mk_se (load e) v (exec_start e) (sum_exec_runtime e) (vruntime e) (prev_sum_exec_runtime e) (parent e) (cfs_rq_ptr e) (my_q e) (idle_policy e).
Definition set_run (e : sched_entity) (start prev : Z) : sched_entity :=
  mk_se (load e) (on_rq e) start (sum_exec_runtime e) (vruntime e) prev (parent e) (cfs_rq_ptr e) (my_q e) (idle_policy e).
Definition set_curr (r : cfs_rq) (c : Z) : cfs_rq :=
  mk_rq (cfs_load r) (nr_running r) (cfs_min_vruntime r) (timeline_root r) (rb_leftmost r) c (next r) (last r) (skip r) (rt r).
Definition set_nr (r : cfs_rq) (n : Z) : cfs_rq :=
  mk_rq (cfs_load r) n (cfs_min_vruntime r) (timeline_root r) (rb_leftmost r) (curr r) (next r) (last r) (skip r) (rt r).

Definition account_entity_enqueue (w : world) (q se : Z) : res world :=
  r <-- queue w q;
  e <-- entity w se;
  Ok (put_queue w q (set_nr (set_cfs_load r (update_load_add (cfs_load r) (weight (load e)))) (u32 (nr_running r + 1)))).

Definition account_entity_dequeue (w : world) (q se : Z) : res world :=
  r <-- queue w q;
  e <-- entity w se;
  Ok (put_queue w q (set_nr (set_cfs_load r (update_load_sub (cfs_load r) (weight (load e)))) (u32 (nr_running r - 1)))).

(** [se->vruntime += cfs_rq->min_vruntime], and back. *)
Definition add_min_vruntime (w : world) (q se : Z) : res world :=
  r <-- queue w q; e <-- entity w se;
  Ok (put_entity w se (set_vruntime e (u64 (vruntime e + cfs_min_vruntime r)))).
Definition sub_min_vruntime (w : world) (q se : Z) : res world :=
  r <-- queue w q; e <-- entity w se;
  Ok (put_entity w se (set_vruntime e (u64 (vruntime e - cfs_min_vruntime r)))).

(** The weight of a task does not follow a group. *)
Definition update_cfs_group (w : world) (se : Z) : res world :=
  e <-- entity w se; if my_q e =? NULL then Ok w else Fault NotModelled.

Definition check_enqueue_throttle (w : world) (q : Z) : res (world * bool) :=
  if negb (cfs_bandwidth_used (feat w)) then Ok (w, false)
  else
    r <-- queue w q;
    if negb (runtime_enabled (rt r)) || negb (curr r =? NULL) then Ok (w, false)
    else if throttled (rt r) then Ok (w, false)
    else
      '(w, resched) <-- account_cfs_rq_runtime w q 0;
      r <-- queue w q;
      if runtime_remaining (rt r) <=? 0 then Fault NotModelled else Ok (w, resched).

Definition check_cfs_rq_runtime (w : world) (q : Z) : res bool :=
  if negb (cfs_bandwidth_used (feat w)) then Ok false
  else
    r <-- queue w q;
    if negb (runtime_enabled (rt r)) || (runtime_remaining (rt r) >? 0) then Ok false
    else if throttled (rt r) then Ok true
    else Fault NotModelled.

Definition enqueue_entity (w : world) (q se flags now : Z) : res (world * bool) :=
  let renorm := (Z.land flags ENQUEUE_WAKEUP =? 0) || negb (Z.land flags ENQUEUE_MIGRATED =? 0) in
  r <-- queue w q;
  let curr := curr r =? se in
  w <-- (if renorm && curr then add_min_vruntime w q se else Ok w);
  '(w, resched) <-- update_curr w q now;
  w <-- (if renorm && negb curr then add_min_vruntime w q se else Ok w);
  w <-- update_cfs_group w se;
  w <-- account_entity_enqueue w q se;
  w <-- (if negb (Z.land flags ENQUEUE_WAKEUP =? 0) then place_entity w q se false else Ok w);
  w <-- (if negb curr then __enqueue_entity w q se else Ok w);
  e <-- entity w se;
  let w := put_entity w se (set_on_rq e true) in
  r <-- queue w q;
  if nr_running r =? 1 then
    '(w, resched') <-- check_enqueue_throttle w q; Ok (w, resched || resched')
  else Ok (w, resched).

Definition dequeue_entity (w : world) (q se flags now : Z) : res (world * bool) :=
  '(w, resched) <-- update_curr w q now;
  w <-- clear_buddies w q se;
  r <-- queue w q;
  w <-- (if negb (se =? curr r) then __dequeue_entity w q se else Ok w);
  e <-- entity w se;
  let w := put_entity w se (set_on_rq e false) in
  w <-- account_entity_dequeue w q se;
  w <-- (if Z.land flags DEQUEUE_SLEEP =? 0 then sub_min_vruntime w q se else Ok w);
  w <-- return_cfs_rq_runtime w q;
  w <-- update_cfs_group w se;
  w <-- (if negb (Z.land flags (Z.lor DEQUEUE_SAVE DEQUEUE_MOVE) =? DEQUEUE_SAVE) then update_min_vruntime w q else Ok w);
  Ok (w, resched).

Definition set_next_entity (w : world) (q se now : Z) : res world :=
  e <-- entity w se;
  w <-- (if on_rq e then __dequeue_entity w q se else Ok w);
  e <-- entity w se;
  let w := put_entity w se (set_run e now (sum_exec_runtime e)) in
  r <-- queue w q;
  Ok (put_queue w q (set_curr r se)).

Definition put_prev_entity (w : world) (q prev now : Z) : res (world * bool) :=
  e <-- entity w prev;
  '(w, resched) <-- (if on_rq e then update_curr w q now else Ok (w, false));
  _ <-- check_cfs_rq_runtime w q;
  w <-- (if on_rq e then __enqueue_entity w q prev else Ok w);
  r <-- queue w q;
  Ok (put_queue w q (set_curr r NULL), resched).

(** [queued] is the tick of the high-resolution timer, [hrtick] that this timer is active. *)
Definition entity_tick (w : world) (q curr : Z) (queued hrtick : bool) (now : Z) : res (world * bool) :=
  '(w, resched) <-- update_curr w q now;
  w <-- update_cfs_group w curr;
  if queued then Ok (w, true)
  else if hrtick then Ok (w, resched)
  else
    r <-- queue w q;
    if nr_running r >? 1 then
      '(w, resched') <-- check_preempt_tick w q curr; Ok (w, resched || resched')
    else Ok (w, resched).

Definition reweight_entity (w : world) (q se weight now : Z) : res (world * bool) :=
  e <-- entity w se;
  '(w, resched) <--
    (if on_rq e then
       r <-- queue w q;
       '(w, resched) <-- (if curr r =? se then update_curr w q now else Ok (w, false));
       w <-- account_entity_dequeue w q se; Ok (w, resched)
     else Ok (w, false));
  e <-- entity w se;
  let w := put_entity w se (set_load e (update_load_set (load e) weight)) in
  w <-- (if on_rq e then account_entity_enqueue w q se else Ok w);
  Ok (w, resched).

Definition reweight_task (w : world) (q se : Z) (prio : nat) (now : Z) : res (world * bool) :=
  wt <-- array_get sched_prio_to_weight prio;
  inv <-- array_get sched_prio_to_wmult prio;
  '(w, resched) <-- reweight_entity w q se (scale_load wt) now;
  e <-- entity w se;
  Ok (put_entity w se (set_load e (mk_lw (weight (load e)) inv)), resched).

(** [pick_next_task_fair] on a queue of tasks, up to the choice of the task; [prev] is the
    task that ran until now, NULL if there is none or it is not of this class. *)
Definition pick_next_task_fair (w : world) (q prev now : Z) : res (Z * world * bool) :=
  r <-- queue w q;
  if nr_running r =? 0 then Fault NotModelled
  else if prev =? NULL then
    '(se, w) <-- pick_next_entity w q NULL;
    w <-- set_next_entity w q se now;
    e <-- entity w se;
    if my_q e =? NULL then Ok (se, w, false) else Fault NotModelled
  else
    '(c, w, resched) <--
      (if negb (curr r =? NULL) then
         e <-- entity w (curr r);
         '(c, w, resched) <--
           (if on_rq e then '(w, resched) <-- update_curr w q now; Ok (curr r, w, resched) else Ok (NULL, w, false));
         expired <-- check_cfs_rq_runtime w q;
         if expired : bool then Fault NotModelled else Ok (c, w, resched)
       else Ok (NULL, w, false));
    '(se, w) <-- pick_next_entity w q c;
    e <-- entity w se;
    if negb (my_q e =? NULL) then Fault NotModelled
    else if negb (prev =? se) then
      '(w, resched') <-- put_prev_entity w q prev now;
      w <-- set_next_entity w q se now;
      Ok (se, w, resched || resched')
    else Ok (se, w, resched).

(** [alone]: the run queue has one task; [batch]: the policy of the task is SCHED_BATCH. *)
Definition yield_task_fair (w : world) (q se : Z) (alone batch : bool) (now : Z) : res (world * bool) :=
  if alone then Ok (w, false)
  else
    w <-- clear_buddies w q se;
    '(w, resched) <-- (if negb batch then update_curr w q now else Ok (w, false));
    w <-- set_skip_buddy w se;
    Ok (w, resched).

(** A new queue; the memory it is allocated in is zero. *)
Definition init_cfs_rq (c : rq_runtime) : cfs_rq :=
  mk_rq (mk_lw 0 0) 0 (u64 (- Z.shiftl 1 20)) NULL NULL NULL NULL NULL NULL c.
