(* ===== verification/CfsRun.v ===== *)
(** * The fair class as a state machine

    One queue of tasks: the invariant that ties the timeline, the counters, the weights, the
    running entity and the buddies together, and that every operation of the class keeps it,
    in any order and with any clock that runs forward by a bounded amount. *)

From stdpp Require Import gmap sorting.
From S2P Require Import Prelude Sums Pelt Rbtree RbtreeTree RbtreeInsert RbtreeIter CfsWeight CfsQueue CfsTimeline CfsPick CfsSlice CfsBandwidth CfsClass.
Local Open Scope Z_scope.
Local Open Scope res_scope.

Record task_ok (w : world) (q x : Z) (e : sched_entity) : Prop := {
  tk_address : address x; tk_node : x ∈ dom (tree_nodes w);
  tk_parent : parent e = NULL; tk_queue : cfs_rq_ptr e = q; tk_leaf : my_q e = NULL;
  tk_load : load_ok (load e); tk_weight : 1024 <= weight (load e) <= 2 ^ 27 }.

Definition count (e : sched_entity) : Z := if on_rq e then 1 else 0.
Definition weigh (e : sched_entity) : Z := if on_rq e then weight (load e) else 0.

(** [is_queued w x]: the entity [x] is runnable. *)
Definition is_queued (w : world) (x : Z) : Prop := exists e, entities w !! x = Some e /\ on_rq e = true.

(** The timeline [l] holds the runnable entities other than the running one; the counters
    are those of the runnable entities; virtual times are within [h] of the base. *)
Record class_inv (w : world) (q b h : Z) (l : list Z) (r : cfs_rq) : Prop := {
  ci_queue : queues w !! q = Some r;
  ci_timeline : timeline w q b l;
  ci_tasks x e : entities w !! x = Some e -> task_ok w q x e;
  ci_on x e : entities w !! x = Some e -> (x ∈ l <-> on_rq e = true /\ x <> curr r);
  ci_curr : curr r = NULL \/ is_Some (entities w !! curr r);
  ci_window x e : entities w !! x = Some e -> on_rq e = true -> off b (vruntime e) <= h;
  ci_min : 2 ^ 33 <= off b (cfs_min_vruntime r) <= h;
  ci_nr : nr_running r = sumq count (entities w);
  ci_weight : weight (cfs_load r) = sumq weigh (entities w);
  ci_inverse : inv_weight (cfs_load r) = 0 \/ load_exact (cfs_load r);
  ci_buddies bd : buddy_of bd r = NULL \/ is_queued w (buddy_of bd r);
  ci_size : Z.of_nat (size (entities w)) <= 16384;
  ci_rt : runtime_enabled (rt r) = false;
  ci_latency : 0 <= sysctl_sched_latency (tun w) < 2 ^ 32;
  ci_min_gran : 0 <= sysctl_sched_min_granularity (tun w) < 2 ^ 31;
  ci_wakeup_gran : 0 <= sysctl_sched_wakeup_granularity (tun w) < 2 ^ 32 }.

Section Invariant.
  Context {w : world} {q b h : Z} {l : list Z} {r : cfs_rq} (HI : class_inv w q b h l r).

Lemma inv_null : entities w !! NULL = None.
Proof.
  destruct (entities w !! NULL) as [e|] eqn:Ee; [|done]. destruct (tk_address _ _ _ _ (ci_tasks _ _ _ _ _ _ HI _ _ Ee)) as [H _].
  unfold NULL in H. lia.
Qed.

Lemma inv_weigh x e : entities w !! x = Some e -> 0 <= weigh e <= 2 ^ 27.
Proof.
  intros He. destruct (tk_weight _ _ _ _ (ci_tasks _ _ _ _ _ _ HI _ _ He)). unfold weigh. destruct (on_rq e); lia.
Qed.

Lemma inv_total : 0 <= weight (cfs_load r) <= 2 ^ 41.
Proof.
  rewrite (ci_weight _ _ _ _ _ _ HI). split.
  - apply sumq_nonneg_on. intros x e He. by apply inv_weigh with x.
  - etransitivity; [apply (sumq_le weigh (entities w) (2 ^ 27))|]; [intros x e He; by apply inv_weigh with x|lia|].
    pose proof (ci_size _ _ _ _ _ _ HI). lia.
Qed.

Lemma inv_count : 0 <= nr_running r <= 16384.
Proof.
  rewrite (ci_nr _ _ _ _ _ _ HI). split.
  - apply sumq_nonneg. intros e. unfold count. destruct (on_rq e); lia.
  - etransitivity; [apply (sumq_le count (entities w) 1)|]; [intros x e He; unfold count; destruct (on_rq e); lia|lia|].
    pose proof (ci_size _ _ _ _ _ _ HI). lia.
Qed.

(** A runnable entity counts. *)
Lemma inv_one x e : entities w !! x = Some e -> on_rq e = true -> 1 <= nr_running r /\ weight (load e) <= weight (cfs_load r).
Proof.
  intros He Ho. rewrite (ci_nr _ _ _ _ _ _ HI), (ci_weight _ _ _ _ _ _ HI).
  replace (weight (load e)) with (weigh e) by (unfold weigh; by rewrite Ho). replace 1 with (count e) by (unfold count; by rewrite Ho).
  split; (apply sumq_part with x; [|done]); intros y ey Hy; [unfold count; destruct (on_rq ey); lia|by apply (inv_weigh y)].
Qed.

Lemma inv_hierarchy : hierarchy w (fun _ => 0%nat).
Proof.
  split; intros x e He; destruct (ci_tasks _ _ _ _ _ _ HI x e He) as [_ _ Hp Hq _ _ _].
  - rewrite Hq. eexists. apply HI.
  - by left.
  - destruct (size (entities w)) eqn:Es; [|lia]. apply map_size_empty_inv in Es. by rewrite Es in He.
Qed.

End Invariant.

(** The entity [x] changes from [e] to [e'], and the queue with it. *)
Lemma inv_update w w' q b h h' l l' r r' x e e' : class_inv w q b h l r -> entities w !! x = Some e ->
  entities w' = <[x := e']> (entities w) -> dom (tree_nodes w') = dom (tree_nodes w) -> tun w' = tun w ->
  queues w' !! q = Some r' -> timeline w' q b l' ->
  parent e' = parent e -> cfs_rq_ptr e' = cfs_rq_ptr e -> my_q e' = my_q e ->
  load_ok (load e') -> 1024 <= weight (load e') <= 2 ^ 27 ->
  (forall y ey, entities w' !! y = Some ey -> (y ∈ l' <-> on_rq ey = true /\ y <> curr r')) ->
  curr r' = NULL \/ is_Some (entities w !! curr r') ->
  h <= h' -> (on_rq e' = true -> off b (vruntime e') <= h') -> 2 ^ 33 <= off b (cfs_min_vruntime r') <= h' ->
  nr_running r' = nr_running r - count e + count e' ->
  weight (cfs_load r') = weight (cfs_load r) - weigh e + weigh e' ->
  inv_weight (cfs_load r') = 0 \/ load_exact (cfs_load r') ->
  (forall bd, buddy_of bd r' = NULL \/ buddy_of bd r' = buddy_of bd r /\ (buddy_of bd r = x -> on_rq e' = true)) ->
  runtime_enabled (rt r') = false ->
  class_inv w' q b h' l' r'.
Proof.
  intros [Hq HT Htk Hon Hcu Hwin Hmin Hnr Hwt Hinv Hbud Hsz Hrt HL1 HL2 HL3] Ex Eent Edom Etun Hq' HT' Ep Ec Em Hlk Hwe Hon' Hcu' Hh Hw' Hmin' Hnr' Hwt' Hinv' Hbud' Hrt'.
  assert (Hsome : forall y, is_Some (entities w' !! y) <-> is_Some (entities w !! y)).
  { intros y. rewrite Eent. destruct (decide (y = x)) as [-> |Hne]; [|by rewrite lookup_insert_ne].
    rewrite lookup_insert_eq, Ex. split; by eexists. }
  split; try done.
  - intros y ey. rewrite Eent. destruct (decide (y = x)) as [-> |Hne].
    + rewrite lookup_insert_eq. intros [= <-]. destruct (Htk x e Ex) as [T1 T2 T3 T4 T5 T6 T7]. split; rewrite ?Edom, ?Ep, ?Ec, ?Em; done.
    + rewrite lookup_insert_ne by done. intros Hy. destruct (Htk y ey Hy) as [T1 T2 T3 T4 T5 T6 T7]. split; rewrite ?Edom; done.
  - destruct Hcu' as [H|H]; [by left|right]. by apply Hsome.
  - intros y ey. rewrite Eent. destruct (decide (y = x)) as [-> |Hne].
    + rewrite lookup_insert_eq. by intros [= <-].
    + rewrite lookup_insert_ne by done. intros Hy Ho. etransitivity; [by eapply Hwin|done].
  - rewrite Hnr', Hnr, Eent, (sumq_update _ _ _ _ _ Ex). lia.
  - rewrite Hwt', Hwt, Eent, (sumq_update _ _ _ _ _ Ex). lia.
  - intros bd. destruct (Hbud' bd) as [H|[E1 H1]]; [by left|]. rewrite E1. destruct (Hbud bd) as [H2|(ey&Ey&Hy)]; [by left|right].
    unfold is_queued. rewrite Eent. destruct (decide (buddy_of bd r = x)) as [E2|Hne].
    + rewrite E2, lookup_insert_eq. exists e'. auto.
    + rewrite lookup_insert_ne by done. by exists ey.
  - rewrite Eent, map_size_insert_Some by done. done.
  - by rewrite Etun.
  - by rewrite Etun.
  - by rewrite Etun.
Qed.

(** ** Charging the running task *)

Lemma delta_fair_bound d lw : load_ok lw -> 0 <= d < 2 ^ 50 ->
  exists g lw', calc_delta_fair d lw = Ok (g, lw') /\ 0 <= g <= 2048 * d /\ load_ok lw' /\ weight lw' = weight lw.
Proof.
  intros Hok Hd. unfold calc_delta_fair. destruct (weight lw =? NICE_0_LOAD); cbn [negb]; [exists d, lw; split; [done|split; [lia|done]]|].
  pose proof Hok as [HL _]. unfold WMULT_CONST in HL.
  destruct (calc_delta_ok d NICE_0_LOAD lw) as (g&E1&Hr&_&B2); [lia|done|done|change (scale_load_down NICE_0_LOAD) with 1024; lia|].
  change (scale_load_down NICE_0_LOAD) with 1024 in B2. destruct (inv_weight_ok _ Hok) as ([[_ Hi] _]&Hw&_).
  exists g, (__update_inv_weight lw). split; [done|]. split; [|split; [by apply update_inv_load|done]]. split; [lia|].
  set (s := scale_load_down (weight lw)) in *.
  assert (B3 : g * s * 2 ^ 32 <= d * 1024 * (2 ^ 32 + s)) by (etransitivity; [exact B2|]; apply Z.mul_le_mono_nonneg_l; lia).
  assert (B4 : d * 1024 * (2 ^ 32 + s) <= d * 1024 * (2 * 2 ^ 32)) by (apply Z.mul_le_mono_nonneg_l; lia). nia.
Qed.

Lemma off_add b v g : 0 <= g -> off b v + g < 2 ^ 64 -> off b (u64 (v + g)) = off b v + g.
Proof.
  intros Hg Hlt. pose proof (off_range b v). unfold off, u64 in *. rewrite Zminus_mod_idemp_l. replace (v + g - b) with (v - b + g) by lia.
  rewrite <- Zplus_mod_idemp_l. apply Z.mod_small. lia.
Qed.

(** The time the running entity is charged for at [now]. *)
Definition elapsed (w : world) (r : cfs_rq) (now : Z) : Z :=
  match entities w !! curr r with Some e => Z.max 0 (s64 (u64 (now - exec_start e))) | None => 0 end.

(** What charging does to the running entity: unless the clock has not moved, the time since it was last charged is added to
    its sum, and the same time weighed by its load to its virtual time. *)
Definition charge (now : Z) (e : sched_entity) : sched_entity :=
  let delta := u64 (now - exec_start e) in
  if s64 delta <=? 0 then e
  else match calc_delta_fair delta (load e) with
       | Ok (g, lw) => set_vruntime (set_load (set_exec e now (u64 (sum_exec_runtime e + delta))) lw) (u64 (vruntime e + g))
       | Fault _ => e
       end.

Lemma charge_idle w r now : elapsed w r now = 0 -> alter (charge now) (curr r) (entities w) = entities w.
Proof.
  unfold elapsed. intros Hel. apply map_eq. intros y. destruct (decide (y = curr r)) as [-> |Hne]; [|by rewrite lookup_alter_ne].
  rewrite lookup_alter_eq. destruct (entities w !! curr r) as [e|]; [|done]. cbn. unfold charge. by rewrite (proj2 (Z.leb_le _ _)) by lia.
Qed.

Lemma elapsed_nonneg w r now : 0 <= elapsed w r now.
Proof. unfold elapsed. destruct (_ !! _); lia. Qed.

(** What an update of the running entity leaves alone. *)
Definition essence (e : sched_entity) : Z * bool * Z * Z * Z * bool :=
  (weight (load e), on_rq e, parent e, cfs_rq_ptr e, my_q e, idle_policy e).

Record charged (w w' : world) (r r' : cfs_rq) : Prop := {
  ch_rest : rest_same w w';
  ch_queue : exists v, r' = set_min_vruntime r v;
  ch_others q r0 : queues w !! q = Some r0 -> is_Some (queues w' !! q);
  ch_entities x : x <> curr r -> entities w' !! x = entities w !! x;
  ch_curr e : entities w !! curr r = Some e -> exists e', entities w' !! curr r = Some e' /\ essence e' = essence e }.

Lemma charged_refl w r : charged w w r r.
Proof. split; try done; [exists (cfs_min_vruntime r); by destruct r|intros e; by exists e]. Qed.

Lemma s64_pos d : 0 < s64 (u64 d) -> u64 d = s64 (u64 d).
Proof.
  unfold s64. rewrite (u64_small (u64 d)) by apply u64_range. pose proof (u64_range d). destruct (Z.ltb_spec (u64 d) 9223372036854775808); lia.
Qed.

Lemma inv_ahead w q b h l r : class_inv w q b h l r -> h < 2 ^ 62 -> ahead b (cfs_min_vruntime r).
Proof. intros HI Hh. pose proof (ci_min _ _ _ _ _ _ HI). unfold ahead. lia. Qed.

Lemma inv_at w q b h l r x : class_inv w q b h l r -> x ∈ l -> at_ w b x <= h.
Proof.
  intros HI Hx. pose proof (ci_timeline _ _ _ _ _ _ HI) as (r0&t&_&_&_&_&_&Hn&_). eapply Forall_forall in Hn; [|exact Hx].
  destruct (near_at _ _ _ Hn) as (e&Ee&->&_). apply (ci_window _ _ _ _ _ _ HI x e Ee). by apply (ci_on _ _ _ _ _ _ HI x e Ee).
Qed.

Lemma inv_curr_out w q b h l r : class_inv w q b h l r -> curr r ∉ l.
Proof.
  intros HI Hx. pose proof (ci_timeline _ _ _ _ _ _ HI) as (r0&t&_&_&_&_&_&Hn&_). eapply Forall_forall in Hn; [|exact Hx].
  destruct Hn as (e&Ee&_). by apply (ci_on _ _ _ _ _ _ HI _ e Ee) in Hx as [_ Hx].
Qed.

Lemma inv_weaken w q b h h' l r : class_inv w q b h l r -> h <= h' -> class_inv w q b h' l r.
Proof.
  intros [Hq HT Htk Hon Hcu Hwin Hmin Hnr Hwt Hinv Hbud Hsz Hrt HL1 HL2 HL3] Hh. split; try done; [|lia].
  intros x e Hx Ho. specialize (Hwin x e Hx Ho). lia.
Qed.

Lemma update_curr_inv w q b h l r now d : class_inv w q b h l r -> elapsed w r now <= d < 2 ^ 50 -> h + 2048 * d < 2 ^ 62 ->
  exists w' r', update_curr w q now = Ok (w', false) /\ class_inv w' q b (h + 2048 * d) l r' /\ charged w w' r r' /\ elapsed w' r' now = 0 /\
    entities w' = alter (charge now) (curr r) (entities w).
Proof.
  intros HI Hd Hh. pose proof HI as [Hq HT Htk Hon Hcu Hwin Hmin Hnr Hwt Hinv Hbud Hsz Hrt HL1 HL2 HL3].
  assert (Hd0 : 0 <= d) by (unfold elapsed in Hd; destruct (entities w !! curr r); lia).
  assert (HI0 : class_inv w q b (h + 2048 * d) l r) by (eapply inv_weaken; [done|lia]).
  destruct (decide (curr r = NULL)) as [Ec|Ec].
  { exists w, r. split; [unfold update_curr; rewrite (queue_ok _ _ _ Hq); cbn [res_bind]; by rewrite Ec|]. split; [done|]. split; [apply charged_refl|].
    assert (Hel : elapsed w r now = 0) by (unfold elapsed; by rewrite Ec, (inv_null HI)). split; [done|by rewrite charge_idle]. }
  destruct Hcu as [|[e Ee]]; [done|]. set (delta := u64 (now - exec_start e)). unfold elapsed in Hd. rewrite Ee in Hd. fold delta in Hd.
  destruct (Z.le_gt_cases (s64 delta) 0) as [Hle|Hgt].
  { exists w, r. split; [|split; [done|split; [apply charged_refl|]]].
    2: { assert (Hel : elapsed w r now = 0) by (unfold elapsed; rewrite Ee; fold delta; lia). split; [done|by rewrite charge_idle]. }
    unfold update_curr. rewrite (queue_ok _ _ _ Hq). cbn [res_bind].
    rewrite (proj2 (Z.eqb_neq _ _)) by done. rewrite (entity_ok _ _ _ Ee). cbn [res_bind]. fold delta. by rewrite (proj2 (Z.leb_le _ _)). }
  pose proof (s64_pos _ Hgt) as Eds. fold delta in Eds. destruct (Htk _ _ Ee) as [T1 T2 T3 T4 T5 T6 T7].
  destruct (delta_fair_bound delta (load e)) as (g&lw&Eg&Hg&Hlw&Ewt); [done|lia|].
  assert (Hoff : on_rq e = true -> off b (u64 (vruntime e + g)) <= h + 2048 * d).
  { intros Ho. specialize (Hwin _ _ Ee Ho). rewrite off_add; lia. }
  destruct (update_curr_ok w q b l r e now g lw) as (w'&E1&_&E2&E3&E4); try done; [by eapply inv_curr_out|by eapply inv_ahead; [exact HI|lia]| |].
  { intros Ho. specialize (Hoff Ho). unfold ahead. lia. }
  destruct (E2 Hgt) as (v&Een&Equ&Hv1&Hv2&Hv3&_). exists w', (set_min_vruntime r v). split; [done|]. set (e' := set_vruntime _ _) in Een.
  destruct E4 as (R1&R2&R3&R4). split; [|split; [|split]].
  - eapply (inv_update w w' q b h (h + 2048 * d) l l r (set_min_vruntime r v) (curr r) e e'); try done.
    + by rewrite R1.
    + rewrite Equ. apply lookup_insert_eq.
    + cbn [e' set_vruntime set_load load]. lia.
    + intros y ey. rewrite Een. cbn [curr set_min_vruntime]. destruct (decide (y = curr r)) as [-> |Hne].
      * rewrite lookup_insert_eq. intros [= <-]. rewrite (Hon _ e Ee). done.
      * rewrite lookup_insert_ne by done. apply Hon.
    + right. by exists e.
    + lia.
    + cbn [cfs_min_vruntime set_min_vruntime]. split; [lia|]. apply Hv3; [lia|done|]. intros x Hx. pose proof (inv_at _ _ _ _ _ _ _ HI Hx). lia.
    + cbn [nr_running set_min_vruntime]. unfold count. cbn [e' set_vruntime set_load set_exec on_rq]. lia.
    + cbn [cfs_load set_min_vruntime]. unfold weigh. cbn [e' set_vruntime set_load set_exec on_rq load]. rewrite Ewt. lia.
    + intros bd. destruct (Hbud bd) as [H|(eb&Eb&Hb)]; [left; by destruct bd|right]. split; [by destruct bd|]. intros E5. rewrite E5, Ee in Eb.
      by injection Eb as <-.
  - split; [done|by eexists|..].
    + intros q0 r0 H0. rewrite Equ. destruct (decide (q0 = q)) as [-> |Hne]; [rewrite lookup_insert_eq|rewrite lookup_insert_ne by done]; by eexists.
    + intros x Hx. by rewrite Een, lookup_insert_ne.
    + intros e0 H0. rewrite Ee in H0. injection H0 as <-. exists e'. rewrite Een, lookup_insert_eq. split; [done|].
      unfold essence. cbn [e' set_vruntime set_load set_exec on_rq load parent cfs_rq_ptr my_q idle_policy]. by rewrite Ewt.
  - unfold elapsed. cbn [set_min_vruntime curr]. rewrite Een, lookup_insert_eq. cbn [e' set_vruntime set_load set_exec exec_start]. by rewrite Z.sub_diag.
  - rewrite Een. apply map_eq. intros y. destruct (decide (y = curr r)) as [-> |Hne]; [|by rewrite lookup_insert_ne, lookup_alter_ne].
    rewrite lookup_insert_eq, lookup_alter_eq, Ee. cbn. unfold charge. fold delta. by rewrite (proj2 (Z.leb_gt _ _)), Eg by lia.
Qed.

(** ** Entering *)

Lemma place_woken w q x e r : queues w !! q = Some r -> entities w !! x = Some e ->
  place_entity w q x false = Ok (put_entity w x (set_vruntime e (max_vruntime (vruntime e)
    (u64 (cfs_min_vruntime r - (if GENTLE_FAIR_SLEEPERS (feat w) then Z.shiftr (sysctl_sched_latency (tun w)) 1 else sysctl_sched_latency (tun w))))))).
Proof. intros Hq He. unfold place_entity. rewrite (queue_ok _ _ _ Hq). cbn [res_bind andb]. by rewrite (entity_ok _ _ _ He). Qed.

Lemma off_sub b v g : 0 <= g <= off b v -> off b (u64 (v - g)) = off b v - g.
Proof.
  intros Hg. pose proof (off_range b v). unfold off, u64 in *. rewrite Zminus_mod_idemp_l. replace (v - g - b) with (v - b - g) by lia.
  rewrite <- Zminus_mod_idemp_l. apply Z.mod_small. lia.
Qed.

(** Adding a signed distance kept in an unsigned word. *)
Lemma off_relative b v m : 0 <= off b m + s64 v < 2 ^ 64 -> off b (u64 (v + m)) = off b m + s64 v.
Proof.
  intros H. unfold off in *. assert (E0 : exists k, v = s64 v + k * 2 ^ 64).
  { unfold s64, u64. pose proof (Z.div_mod v 18446744073709551616 ltac:(lia)). change (2 ^ 64) with 18446744073709551616.
    destruct (_ <? _); [exists (v / 18446744073709551616)|exists (v / 18446744073709551616 + 1)]; lia. }
  destruct E0 as [k Ek]. unfold u64 in *. rewrite Zminus_mod_idemp_l. rewrite Ek at 1.
  replace (s64 v + k * 2 ^ 64 + m - b) with (m - b + s64 v + k * 18446744073709551616) by (change (2 ^ 64) with 18446744073709551616; lia).
  rewrite Z.mod_add by lia. rewrite <- Zplus_mod_idemp_l. apply Z.mod_small. lia.
Qed.

(** How far an entity may be from the base when it enters: its virtual time is a distance to
    the queue's clock if it was taken off without sleeping, or moves with it. *)
Definition enters (b h c : Z) (flags : Z) (e : sched_entity) : Prop :=
  if (Z.land flags ENQUEUE_WAKEUP =? 0) || negb (Z.land flags ENQUEUE_MIGRATED =? 0)
  then - 2 ^ 33 <= s64 (vruntime e) <= c else off b (vruntime e) <= h + c.

Definition placed (w : world) (r : cfs_rq) (flags : Z) (e : sched_entity) : sched_entity :=
  let e1 := if (Z.land flags ENQUEUE_WAKEUP =? 0) || negb (Z.land flags ENQUEUE_MIGRATED =? 0)
            then set_vruntime e (u64 (vruntime e + cfs_min_vruntime r)) else e in
  if negb (Z.land flags ENQUEUE_WAKEUP =? 0)
  then set_vruntime e1 (max_vruntime (vruntime e1) (u64 (cfs_min_vruntime r -
    (if GENTLE_FAIR_SLEEPERS (feat w) then Z.shiftr (sysctl_sched_latency (tun w)) 1 else sysctl_sched_latency (tun w)))))
  else e1.

Lemma placed_window w q b h l r flags e c : class_inv w q b h l r -> 0 <= c -> h + c < 2 ^ 62 -> enters b h c flags e ->
  off b (vruntime (placed w r flags e)) <= h + c.
Proof.
  intros HI Hc Hh He. pose proof (ci_min _ _ _ _ _ _ HI) as Hmin. pose proof (ci_latency _ _ _ _ _ _ HI) as Hl.
  unfold placed, enters in *. set (e1 := if _ || _ then _ else _).
  assert (H1 : off b (vruntime e1) <= h + c).
  { unfold e1. revert He. destruct (_ || _); intros He; [|done]. cbn [set_vruntime vruntime]. rewrite off_relative; lia. }
  clearbody e1. clear He. destruct (negb _); [|done]. cbn [set_vruntime vruntime]. set (th := if GENTLE_FAIR_SLEEPERS _ then _ else _).
  assert (Hth : 0 <= th <= sysctl_sched_latency (tun w)).
  { unfold th. destruct (GENTLE_FAIR_SLEEPERS _); [|lia]. rewrite Z.shiftr_div_pow2 by lia. change (2 ^ 1) with 2.
    split; [apply Z.div_pos; lia|apply Z.div_le_upper_bound; lia]. }
  destruct (max_off b (vruntime e1) (u64 (cfs_min_vruntime r - th))) as [-> _]; unfold ahead; rewrite ?off_sub by lia; lia.
Qed.

Lemma placed_essence w r flags e : essence (placed w r flags e) = essence e /\ load (placed w r flags e) = load e.
Proof. unfold placed. by destruct (_ || _), (negb _). Qed.

(** The steps of [enqueue_entity] between the charge and the timeline. *)
Lemma enter_ok w q b h l r x e flags : class_inv w q b h l r -> entities w !! x = Some e -> on_rq e = false ->
  let renorm := (Z.land flags ENQUEUE_WAKEUP =? 0) || negb (Z.land flags ENQUEUE_MIGRATED =? 0) in
  let r' := set_nr (set_cfs_load r (mk_lw (weight (cfs_load r) + weight (load e)) 0)) (nr_running r + 1) in
  exists w', (w <-- (if renorm && true then add_min_vruntime w q x else Ok w);
     w <-- update_cfs_group w x;
     w <-- account_entity_enqueue w q x;
     if negb (Z.land flags ENQUEUE_WAKEUP =? 0) then place_entity w q x false else Ok w) = Ok w' /\
    entities w' = <[x := placed w r flags e]> (entities w) /\ queues w' = <[q := r']> (queues w) /\ rest_same w w'.
Proof.
  intros HI Ee Ho renorm r'. pose proof (inv_total HI) as Ht. pose proof (inv_count HI) as Hn.
  destruct (ci_tasks _ _ _ _ _ _ HI x e Ee) as [_ _ _ _ Tl _ Tw]. pose proof (ci_queue _ _ _ _ _ _ HI) as Hq.
  set (e1 := if renorm then set_vruntime e (u64 (vruntime e + cfs_min_vruntime r)) else e).
  assert (H1 : exists w1, (if renorm && true then add_min_vruntime w q x else Ok w) = Ok w1 /\ entities w1 = <[x := e1]> (entities w) /\
    queues w1 = queues w /\ rest_same w w1).
  { rewrite andb_true_r. unfold e1. destruct renorm.
    - unfold add_min_vruntime. rewrite (queue_ok _ _ _ Hq). cbn [res_bind]. rewrite (entity_ok _ _ _ Ee). cbn [res_bind]. by eexists.
    - exists w. rewrite insert_id by done. done. }
  destruct H1 as (w1&->&En1&Qu1&R1). cbn [res_bind].
  assert (Ee1 : entities w1 !! x = Some e1) by (rewrite En1; apply lookup_insert_eq).
  assert (Hq1 : queues w1 !! q = Some r) by by rewrite Qu1.
  assert (Em : my_q e1 = NULL /\ load e1 = load e) by (unfold e1; by destruct renorm). destruct Em as [Em El].
  unfold update_cfs_group. rewrite (entity_ok _ _ _ Ee1). cbn [res_bind]. rewrite Em, Z.eqb_refl. cbn [res_bind].
  unfold account_entity_enqueue. rewrite (queue_ok _ _ _ Hq1). cbn [res_bind]. rewrite (entity_ok _ _ _ Ee1). cbn [res_bind].
  unfold update_load_add. rewrite El, u64_small, u32_small by lia. fold r'. destruct R1 as (R1&R2&R3&R4).
  unfold placed. fold renorm. fold e1. destruct (negb (Z.land flags ENQUEUE_WAKEUP =? 0)).
  - rewrite (place_woken _ q x e1 r') by (first [apply lookup_insert_eq|done]). eexists. split; [done|]. simpl. rewrite En1, insert_insert_eq, Qu1, R3, R4. done.
  - eexists. split; [done|]. simpl. by rewrite En1, Qu1.
Qed.

Lemma bind_chain {T} (A : res world) (B C D : world -> res world) (k : world -> res T) w' :
  (w <-- A; w <-- B w; w <-- C w; D w) = Ok w' -> (w <-- A; w <-- B w; w <-- C w; w <-- D w; k w) = k w'.
Proof.
  destruct A as [w1|]; cbn [res_bind]; [|done]. destruct (B w1) as [w2|]; cbn [res_bind]; [|done].
  destruct (C w2) as [w3|]; cbn [res_bind]; [|done]. by intros ->.
Qed.

(** Which entities are runnable after an entity [x] changed its state to [v]. *)
Definition queued_as (w w' : world) (x : Z) (v : bool) : Prop :=
  forall y, is_queued w' y <-> if decide (y = x) then v = true else is_queued w y.

Lemma charged_entity w w' r r' x e : charged w w' r r' -> entities w !! x = Some e ->
  exists e', entities w' !! x = Some e' /\ essence e' = essence e /\ (x <> curr r -> e' = e).
Proof.
  intros HC He. destruct (decide (x = curr r)) as [-> |Hne].
  - destruct (ch_curr _ _ _ _ HC e He) as (e'&E1&E2). by exists e'.
  - exists e. by rewrite (ch_entities _ _ _ _ HC x Hne).
Qed.

Lemma enqueue_inv w q b h l r x e flags now d c : class_inv w q b h l r -> entities w !! x = Some e -> on_rq e = false -> x <> curr r ->
  elapsed w r now <= d < 2 ^ 50 -> 0 <= c -> h + 2048 * d + c < 2 ^ 62 -> enters b h c flags e ->
  exists w' r' l', enqueue_entity w q x flags now = Ok (w', false) /\ class_inv w' q b (h + 2048 * d + c) l' r' /\ curr r' = curr r /\ x ∈ l'.
Proof.
  intros HI Ee Ho Hx Hd Hc Hh Hent. pose proof (elapsed_nonneg w r now). unfold enqueue_entity. rewrite (queue_ok _ _ _ (ci_queue _ _ _ _ _ _ HI)). cbn [res_bind].
  rewrite (proj2 (Z.eqb_neq (curr r) x)) by congruence. cbn [negb]. rewrite andb_false_r. cbn [res_bind].
  destruct (update_curr_inv w q b h l r now d HI Hd ltac:(lia)) as (w1&r1&E1&HI1&HC1&_). rewrite E1. cbn [res_bind].
  destruct (charged_entity _ _ _ _ _ _ HC1 Ee) as (e0&Ee1&_&E0). specialize (E0 Hx) as ->.
  destruct (ch_queue _ _ _ _ HC1) as [v Er1]. assert (Hcu1 : curr r1 = curr r) by by rewrite Er1.
  destruct (enter_ok w1 q b _ l r1 x e flags HI1 Ee1 Ho) as (w2&E2&En2&Qu2&R2&R3&R4&R5).
  rewrite (bind_chain _ _ _ _ _ _ E2). set (r2 := set_nr _ _) in Qu2. set (e2 := placed w1 r1 flags e) in *.
  destruct (placed_essence w1 r1 flags e) as [Hess Hload]. fold e2 in Hess, Hload.
  assert (Hoff : off b (vruntime e2) <= h + 2048 * d + c).
  { eapply placed_window; [exact HI1|lia|lia|]. revert Hent. unfold enters. destruct (_ || _); lia. }
  destruct (ci_tasks _ _ _ _ _ _ HI1 x e Ee1) as [T1 T2 T3 T4 T5 T6 T7].
  assert (Hxl : x ∉ l) by (rewrite (ci_on _ _ _ _ _ _ HI1 x e Ee1), Ho; by intros [? _]).
  assert (HT2 : timeline w2 q b l).
  { eapply (timeline_ext w1 w2); [done|exact (ci_queue _ _ _ _ _ _ HI1)|rewrite Qu2; apply lookup_insert_eq|done|done| |apply HI1].
    intros y Hy. rewrite En2, lookup_insert_ne; [done|congruence]. }
  destruct (enqueue_ok w2 q b l x HT2) as (w3&E3&HT3&S3); [exists e2; rewrite En2, lookup_insert_eq; split; [done|unfold ahead; lia]|by rewrite R2|done|done|].
  rewrite E3. cbn [res_bind]. destruct S3 as [S1 S2 _ S4 S5 [S6 S7]]. destruct (S4 r2) as (ro&lm&Hq3); [rewrite Qu2; apply lookup_insert_eq|].
  rewrite (entity_ok w3 x e2) by (rewrite S1, En2; apply lookup_insert_eq). cbn [res_bind].
  set (w4 := put_entity w3 x (set_on_rq e2 true)). set (r4 := set_timeline r2 ro lm) in *.
  rewrite (queue_ok w4 q r4) by done. cbn [res_bind].
  assert (Hthr : check_enqueue_throttle w4 q = Ok (w4, false)).
  { unfold check_enqueue_throttle. destruct (negb (cfs_bandwidth_used (feat w4))); [done|]. rewrite (queue_ok w4 q r4) by done. cbn [res_bind].
    cbn [r4 set_timeline r2 set_nr set_cfs_load rt]. by rewrite (ci_rt _ _ _ _ _ _ HI1). }
  exists w4, r4, (place (less w2) x l). split; [rewrite Hthr; cbn [res_bind]; by destruct (_ =? 1)|].
  assert (Hin : forall y, y ∈ place (less w2) x l <-> y = x \/ y ∈ l) by apply place_in.
  assert (En4 : entities w4 = <[x := set_on_rq e2 true]> (entities w1)) by (simpl; by rewrite S1, En2, insert_insert_eq).
  split; [|split; [done|apply Hin; by left]].
  injection Hess as Hw Hon Hp Hc' Hm Hi.
  eapply (inv_update w1 w4 q b _ _ l _ r1 r4 x e (set_on_rq e2 true) HI1); try done.
  - simpl. by rewrite S2, R2.
  - simpl. by rewrite S6, R4.
  - eapply (timeline_ext w3 w4); [done|exact Hq3|exact Hq3|done|done| |done]. intros y Hy. simpl. destruct (decide (y = x)) as [-> |Hne].
    + by rewrite lookup_insert_eq, S1, En2, lookup_insert_eq.
    + by rewrite lookup_insert_ne.
  - cbn [set_on_rq load]. by rewrite Hload.
  - cbn [set_on_rq load]. by rewrite Hload.
  - intros y ey. rewrite En4, Hin. change (curr r4) with (curr r1). destruct (decide (y = x)) as [-> |Hne].
    + rewrite lookup_insert_eq. intros [= <-]. rewrite Hcu1. split; [done|by left].
    + rewrite lookup_insert_ne by done. intros Hy. rewrite <- (ci_on _ _ _ _ _ _ HI1 y ey Hy). split; [by intros [?|?]|by right].
  - apply HI1.
  - lia.
  - change (cfs_min_vruntime r4) with (cfs_min_vruntime r1). pose proof (ci_min _ _ _ _ _ _ HI1). lia.
  - change (nr_running r4) with (nr_running r1 + 1). unfold count. cbn [set_on_rq on_rq]. rewrite Ho. lia.
  - change (weight (cfs_load r4)) with (weight (cfs_load r1) + weight (load e)). unfold weigh. cbn [set_on_rq on_rq load]. rewrite Ho, Hload. lia.
  - by left.
  - intros bd. right. by destruct bd.
  - apply HI1.
Qed.

(** ** Leaving *)

(** The queue changes and no entity does. *)
Lemma inv_queue w w' q b h h' l l' r r' : class_inv w q b h l r ->
  entities w' = entities w -> dom (tree_nodes w') = dom (tree_nodes w) -> tun w' = tun w ->
  queues w' !! q = Some r' -> timeline w' q b l' ->
  (forall y ey, entities w !! y = Some ey -> (y ∈ l' <-> on_rq ey = true /\ y <> curr r')) ->
  curr r' = NULL \/ is_Some (entities w !! curr r') ->
  h <= h' -> 2 ^ 33 <= off b (cfs_min_vruntime r') <= h' ->
  nr_running r' = nr_running r -> weight (cfs_load r') = weight (cfs_load r) ->
  inv_weight (cfs_load r') = 0 \/ load_exact (cfs_load r') ->
  (forall bd, buddy_of bd r' = NULL \/ buddy_of bd r' = buddy_of bd r) ->
  runtime_enabled (rt r') = false ->
  class_inv w' q b h' l' r'.
Proof.
  intros [Hq HT Htk Hon Hcu Hwin Hmin Hnr Hwt Hinv Hbud Hsz Hrt HL1 HL2 HL3] Een Edom Etun Hq' HT' Hon' Hcu' Hh Hmin' Hnr' Hwt' Hinv' Hbud' Hrt'.
  split; rewrite ?Een, ?Etun; try done.
  - intros x e He. destruct (Htk x e He). split; rewrite ?Edom; done.
  - intros x e He Ho. etransitivity; [by eapply Hwin|done].
  - congruence.
  - congruence.
  - intros bd. unfold is_queued. rewrite Een. destruct (Hbud' bd) as [H|H]; [by left|]. rewrite H. apply Hbud.
Qed.

Lemma rq_cleared_fields r r' : rq_cleared r r' ->
  cfs_load r' = cfs_load r /\ nr_running r' = nr_running r /\ cfs_min_vruntime r' = cfs_min_vruntime r /\
  timeline_root r' = timeline_root r /\ rb_leftmost r' = rb_leftmost r /\ curr r' = curr r /\ rt r' = rt r.
Proof. intros [H _]. destruct r, r'. unfold strip_rq, set_buddy in H. simpl in *. by injection H as -> -> -> -> -> -> ->. Qed.

Lemma cleared_inv w w' q b h l r : class_inv w q b h l r -> cleared w w' ->
  exists r', queues w' !! q = Some r' /\ rq_cleared r r' /\ class_inv w' q b h l r'.
Proof.
  intros HI [C1 C2 [C3 _] C4]. destruct (C4 q r (ci_queue _ _ _ _ _ _ HI)) as (r'&Hr'&Hc). exists r'. split; [done|]. split; [done|].
  destruct (rq_cleared_fields _ _ Hc) as (F1&F2&F3&F4&F5&F6&F7).
  apply (inv_queue w w' q b h h l l r r' HI); rewrite ?F1, ?F2, ?F3, ?F6, ?F7; try apply HI; try done.
  - by rewrite C2.
  - eapply (timeline_ext w w'); [done|apply HI|done|done|done| |apply HI]. intros x _. by rewrite C1.
  - intros bd. destruct (proj2 Hc bd); auto.
Qed.

Lemma update_min_inv w q b h l r : class_inv w q b h l r -> h < 2 ^ 62 ->
  exists v, update_min_vruntime w q = Ok (put_queue w q (set_min_vruntime r v)) /\
    class_inv (put_queue w q (set_min_vruntime r v)) q b h l (set_min_vruntime r v).
Proof.
  intros HI Hh. pose proof HI as [Hq HT Htk Hon Hcu Hwin Hmin Hnr Hwt Hinv Hbud Hsz Hrt HL1 HL2 HL3].
  destruct (update_min_vruntime_ok w q b l r HT Hq) as (v&Ev&Hv&Hle&Hnil&Hlow); [|by eapply inv_ahead|].
  { destruct Hcu as [Hcu|[e Ee]]; [by left|right]. exists e. split; [done|]. intros Ho. specialize (Hwin _ _ Ee Ho). unfold ahead. lia. }
  exists v. split; [done|]. assert (Hup : off b v <= h).
  { destruct (running w r ++ l) as [|y ys] eqn:El; [rewrite Hnil by done; lia|]. destruct Hlow as (x&[Hx _]&Ex); [done|]. rewrite Ex.
    apply Z.max_lub; [lia|]. rewrite <- El in Hx. apply elem_of_app in Hx as [Hx|Hx]; [|by eapply inv_at].
    unfold running in Hx. destruct (_ =? _); [by apply not_elem_of_nil in Hx|]. destruct (entities w !! curr r) as [e|] eqn:Ee; [|by apply not_elem_of_nil in Hx].
    destruct (on_rq e) eqn:Eo; [|by apply not_elem_of_nil in Hx]. apply list_elem_of_singleton in Hx as ->. unfold at_. rewrite Ee. by eapply Hwin. }
  eapply (inv_queue w _ q b h h l l r _ HI); try done; [apply lookup_insert_eq| |cbn [set_min_vruntime cfs_min_vruntime]; lia|].
  - eapply (timeline_ext w); [done|exact Hq|apply lookup_insert_eq|done|done|done|done].
  - intros bd. right. by destruct bd.
Qed.

(** Off the timeline, if it was there. *)
Lemma unlink_ok w q b h l r x : class_inv w q b h l r -> is_queued w x ->
  exists w' l' ro lm, (if negb (x =? curr r) then __dequeue_entity w q x else Ok w) = Ok w' /\
    timeline w' q b l' /\ (forall y, y ∈ l' <-> y ∈ l /\ y <> x) /\
    entities w' = entities w /\ dom (tree_nodes w') = dom (tree_nodes w) /\ tun w' = tun w /\ feat w' = feat w /\
    queues w' !! q = Some (set_timeline r ro lm).
Proof.
  intros HI (e&Ee&Ho). pose proof (ci_queue _ _ _ _ _ _ HI) as Hq. pose proof (ci_timeline _ _ _ _ _ _ HI) as HT.
  destruct (Z.eqb_spec x (curr r)) as [-> |Hne]; cbn [negb].
  - exists w, l, (timeline_root r), (rb_leftmost r). pose proof (inv_curr_out _ _ _ _ _ _ HI). do 2 (split; [done|]).
    split; [intros y; split; [|by intros [? _]]; intros Hy; split; [done|congruence]|]. do 4 (split; [done|]). by destruct r.
  - assert (Hx : x ∈ l) by by apply (ci_on _ _ _ _ _ _ HI x e Ee). pose proof (timeline_nodup _ _ _ _ HT) as Hnd.
    apply list_elem_of_split in Hx as (xs&ys&->). destruct (dequeue_ok w q b xs x ys HT) as (w'&E1&HT'&[S1 S2 _ S4 _ [S6 S7]]).
    destruct (S4 r Hq) as (ro&lm&Hq'). exists w', (xs ++ ys), ro, lm. do 2 (split; [done|]). split; [|done]. intros y.
    rewrite <- filter_mid with (x := x) by done. rewrite list_elem_of_filter. tauto.
Qed.

Lemma leave_ok w q b h l r x e : class_inv w q b h l r -> entities w !! x = Some e -> on_rq e = true -> (forall bd, buddy_of bd r <> x) ->
  exists w' r' l', (w <-- (if negb (x =? curr r) then __dequeue_entity w q x else Ok w);
     e <-- entity w x;
     account_entity_dequeue (put_entity w x (set_on_rq e false)) q x) = Ok w' /\
    class_inv w' q b h l' r' /\ curr r' = curr r /\ entities w' = <[x := set_on_rq e false]> (entities w).
Proof.
  intros HI Ee Ho Hbud. destruct (unlink_ok w q b h l r x HI) as (w1&l'&ro&lm&E1&HT1&Hin&En1&Edom1&Et1&Ef1&Hq1); [by exists e|].
  rewrite E1. cbn [res_bind]. rewrite (entity_ok w1 x e) by by rewrite En1. cbn [res_bind].
  set (e2 := set_on_rq e false). set (w2 := put_entity w1 x e2). set (r1 := set_timeline r ro lm) in *.
  pose proof (inv_total HI) as Ht. pose proof (inv_count HI) as Hn.
  destruct (inv_one HI x e Ee Ho) as [Hco Hwe].
  destruct (ci_tasks _ _ _ _ _ _ HI x e Ee) as [T1 T2 T3 T4 T5 T6 T7].
  unfold account_entity_dequeue. rewrite (queue_ok w2 q r1) by done. cbn [res_bind]. rewrite (entity_ok w2 x e2) by apply lookup_insert_eq. cbn [res_bind].
  set (r2 := set_nr _ _). eexists _, r2, l'. split; [done|].
  assert (En2 : entities (put_queue w2 q r2) = <[x := e2]> (entities w)) by (simpl; by rewrite En1).
  split; [|split; [done|exact En2]]. eapply (inv_update w _ q b h h l l' r r2 x e e2 HI); try done.
  - apply lookup_insert_eq.
  - eapply (timeline_ext w1); [done|exact Hq1|apply lookup_insert_eq|done|done| |done]. intros y Hy. rewrite En2, En1, lookup_insert_ne; [done|].
    intros <-. by apply Hin in Hy as [_ ?].
  - intros y ey. rewrite En2, Hin. change (curr r2) with (curr r). destruct (decide (y = x)) as [-> |Hne].
    + rewrite lookup_insert_eq. intros [= <-]. split; [by intros [_ ?]|by intros [? _]].
    + rewrite lookup_insert_ne by done. intros Hy. rewrite (ci_on _ _ _ _ _ _ HI y ey Hy). tauto.
  - apply HI.
  - apply HI.
  - change (nr_running r2) with (u32 (nr_running r - 1)). unfold count. cbn [e2 set_on_rq on_rq]. rewrite Ho, u32_small; lia.
  - change (weight (cfs_load r2)) with (u64 (weight (cfs_load r) - weight (load e))). unfold weigh. cbn [e2 set_on_rq on_rq]. rewrite Ho, u64_small; lia.
  - by left.
  - intros bd. right. split; [by destruct bd|]. intros Eb. by destruct (Hbud bd).
  - apply HI.
Qed.

Lemma sub_min_inv w q b h l r x e : class_inv w q b h l r -> entities w !! x = Some e -> on_rq e = false ->
  exists w', sub_min_vruntime w q x = Ok w' /\ class_inv w' q b h l r /\
    entities w' = <[x := set_vruntime e (u64 (vruntime e - cfs_min_vruntime r))]> (entities w).
Proof.
  intros HI Ee Ho. unfold sub_min_vruntime. rewrite (queue_ok _ _ _ (ci_queue _ _ _ _ _ _ HI)). cbn [res_bind]. rewrite (entity_ok _ _ _ Ee). cbn [res_bind].
  eexists. split; [done|]. split; [|done]. destruct (ci_tasks _ _ _ _ _ _ HI x e Ee) as [T1 T2 T3 T4 T5 T6 T7].
  assert (Hxl : x ∉ l) by (rewrite (ci_on _ _ _ _ _ _ HI x e Ee), Ho; by intros [? _]).
  set (e1 := set_vruntime e _). eapply (inv_update w _ q b h h l l r r x e e1 HI); try apply HI; try done.
  - eapply (timeline_ext w); [done|apply HI|apply HI|done|done| |apply HI]. intros y Hy. simpl. rewrite lookup_insert_ne; [done|congruence].
  - intros y ey. simpl. destruct (decide (y = x)) as [-> |Hne].
    + rewrite lookup_insert_eq. intros [= <-]. apply (ci_on _ _ _ _ _ _ HI x e Ee).
    + rewrite lookup_insert_ne by done. apply HI.
  - cbn [e1 set_vruntime on_rq]. by rewrite Ho.
  - unfold count. cbn [e1 set_vruntime on_rq]. lia.
  - unfold weigh. cbn [e1 set_vruntime on_rq load]. lia.
  - intros bd. right. split; [done|]. intros Eb. destruct (ci_buddies _ _ _ _ _ _ HI bd) as [Hb|(eb&Hb&Hob)].
    + exfalso. rewrite Hb in Eb. by rewrite <- Eb, (inv_null HI) in Ee.
    + rewrite Eb, Ee in Hb. by injection Hb as <-.
Qed.

Lemma bind_leave {T} (A : res world) (B : world -> res sched_entity) (C : world -> sched_entity -> res world) (k : world -> res T) w' :
  (w <-- A; e <-- B w; C w e) = Ok w' -> (w <-- A; e <-- B w; w <-- C w e; k w) = k w'.
Proof.
  destruct A as [w1|]; cbn [res_bind]; [|done]. destruct (B w1) as [e|]; cbn [res_bind]; [|done]. by intros ->.
Qed.

Lemma return_plain w q r : queues w !! q = Some r -> runtime_enabled (rt r) = false -> return_cfs_rq_runtime w q = Ok w.
Proof. intros Hq Hrt. unfold return_cfs_rq_runtime. rewrite (queue_ok _ _ _ Hq). cbn [res_bind]. rewrite Hrt. by destruct (negb _). Qed.

Lemma dequeue_inv w q b h l r x flags now d : class_inv w q b h l r -> is_queued w x ->
  elapsed w r now <= d < 2 ^ 50 -> h + 2048 * d < 2 ^ 62 ->
  exists w' r' l', dequeue_entity w q x flags now = Ok (w', false) /\ class_inv w' q b (h + 2048 * d) l' r' /\ curr r' = curr r /\
    ~ is_queued w' x.
Proof.
  intros HI (e&Ee&Ho) Hd Hh. unfold dequeue_entity.
  destruct (update_curr_inv w q b h l r now d HI Hd Hh) as (w1&r1&E1&HI1&HC1&_). rewrite E1. cbn [res_bind].
  destruct (charged_entity _ _ _ _ _ _ HC1 Ee) as (e1&Ee1&Hess&_). injection Hess as _ Hon _ _ _ _. destruct (ch_queue _ _ _ _ HC1) as [v Er1].
  assert (Hxn : x <> NULL) by (intros ->; by rewrite (inv_null HI) in Ee).
  destruct (clear_buddies_ok (fun _ => 0%nat) w1 q r1 x e1) as (w2&r2&E2&C2&Q2&N2);
    [apply (inv_hierarchy HI1)|apply HI1|done|by apply (ci_tasks _ _ _ _ _ _ HI1 x)|done|]. rewrite E2. cbn [res_bind].
  destruct (cleared_inv _ _ _ _ _ _ _ HI1 C2) as (r2'&Q2'&Hrc&HI2). rewrite Q2 in Q2'. injection Q2' as <-.
  rewrite (queue_ok _ _ _ Q2). cbn [res_bind]. assert (Ee2 : entities w2 !! x = Some e1) by by rewrite (cl_entities _ _ C2).
  destruct (leave_ok w2 q b _ l r2 x e1 HI2 Ee2) as (w3&r3&l3&E3&HI3&Hcu3&En3); [congruence|done|].
  rewrite (bind_leave _ _ _ _ _ E3). assert (Ee3 : entities w3 !! x = Some (set_on_rq e1 false)) by (rewrite En3; apply lookup_insert_eq).
  assert (H4 : exists w4 e4, (if Z.land flags DEQUEUE_SLEEP =? 0 then sub_min_vruntime w3 q x else Ok w3) = Ok w4 /\
    class_inv w4 q b (h + 2048 * d) l3 r3 /\ entities w4 !! x = Some e4 /\ on_rq e4 = false).
  { destruct (_ =? 0); [|by exists w3, (set_on_rq e1 false)].
    destruct (sub_min_inv w3 q b _ l3 r3 x _ HI3 Ee3 eq_refl) as (w4&E4&HI4&En4). exists w4. eexists. rewrite En4, lookup_insert_eq. done. }
  destruct H4 as (w4&e4&E4&HI4&Ee4&Ho4). rewrite E4. cbn [res_bind].
  rewrite (return_plain w4 q r3) by apply HI4. cbn [res_bind]. unfold update_cfs_group. rewrite (entity_ok _ _ _ Ee4). cbn [res_bind].
  rewrite (tk_leaf _ _ _ _ (ci_tasks _ _ _ _ _ _ HI4 x e4 Ee4)), Z.eqb_refl. cbn [res_bind].
  assert (Hcur : curr r3 = curr r).
  { rewrite Hcu3. destruct (rq_cleared_fields _ _ Hrc) as (_&_&_&_&_&->&_). by rewrite Er1. }
  assert (Hnot : forall w5, entities w5 = entities w4 -> ~ is_queued w5 x).
  { intros w5 E5 (e5&He5&Ho5). rewrite E5, Ee4 in He5. injection He5 as <-. congruence. }
  clear E3. destruct (negb _); [|exists w4, r3, l3; auto].
  destruct (update_min_inv w4 q b _ l3 r3 HI4 Hh) as (v5&E5&HI5). rewrite E5. cbn [res_bind]. eexists _, _, l3. split; [done|].
  split; [exact HI5|]. auto.
Qed.

(** ** Running *)

Lemma set_next_inv w q b h l r x now : class_inv w q b h l r -> x ∈ l -> curr r = NULL ->
  exists w' r' l', set_next_entity w q x now = Ok w' /\ class_inv w' q b h l' r' /\ curr r' = x /\
    (forall y, is_queued w y -> is_queued w' y) /\
    entities w' = alter (fun e => set_run e now (sum_exec_runtime e)) x (entities w).
Proof.
  intros HI Hx Hcu. pose proof (ci_timeline _ _ _ _ _ _ HI) as (r0&t&_&_&_&_&_&Hn&_). eapply Forall_forall in Hn as (e&Ee&_); [|exact Hx].
  assert (Ho : on_rq e = true /\ x <> curr r) by by apply (ci_on _ _ _ _ _ _ HI x e Ee). destruct Ho as [Ho Hxc].
  destruct (unlink_ok w q b h l r x HI) as (w1&l'&ro&lm&E1&HT1&Hin&En1&Edom1&Et1&Ef1&Hq1); [by exists e|].
  rewrite (proj2 (Z.eqb_neq x (curr r))) in E1 by done. cbn [negb] in E1.
  destruct (ci_tasks _ _ _ _ _ _ HI x e Ee) as [T1 T2 T3 T4 T5 T6 T7].
  unfold set_next_entity. rewrite (entity_ok _ _ _ Ee). cbn [res_bind]. rewrite Ho, E1. cbn [res_bind].
  rewrite (entity_ok w1 x e) by by rewrite En1. cbn [res_bind]. set (e1 := set_run e now _). set (w2 := put_entity w1 x e1).
  set (r1 := set_timeline r ro lm) in *. rewrite (queue_ok w2 q r1) by done. cbn [res_bind]. eexists _, (set_curr r1 x), l'. split; [done|].
  assert (En2 : entities (put_queue w2 q (set_curr r1 x)) = <[x := e1]> (entities w)) by (simpl; by rewrite En1).
  split; [|split; [done|split]].
  3: { rewrite En2. apply map_eq. intros y. destruct (decide (y = x)) as [-> |Hne]; [by rewrite lookup_insert_eq, lookup_alter_eq, Ee|by rewrite lookup_insert_ne, lookup_alter_ne]. }
  2: { intros y (ey&Ey&Hy). unfold is_queued. rewrite En2. destruct (decide (y = x)) as [-> |Hne].
       - exists e1. by rewrite lookup_insert_eq.
       - exists ey. by rewrite lookup_insert_ne. }
  eapply (inv_update w _ q b h h l l' r _ x e e1 HI); try apply HI; try done.
  - apply lookup_insert_eq.
  - eapply (timeline_ext w1); [done|exact Hq1|apply lookup_insert_eq|done|done| |done]. intros y Hy. rewrite En2, En1, lookup_insert_ne; [done|].
    intros <-. by apply Hin in Hy as [_ ?].
  - intros y ey. rewrite En2, Hin. cbn [set_curr curr]. destruct (decide (y = x)) as [-> |Hne].
    + rewrite lookup_insert_eq. intros [= <-]. tauto.
    + rewrite lookup_insert_ne by done. intros Hy. rewrite (ci_on _ _ _ _ _ _ HI y ey Hy), Hcu. split; [tauto|]. intros [H1 H2].
      split; [|done]. split; [done|]. intros ->. by rewrite (inv_null HI) in Hy.
  - right. by exists e.
  - intros Ho'. by apply (ci_window _ _ _ _ _ _ HI x e Ee).
  - unfold count. cbn [e1 set_run on_rq set_curr r1 set_timeline nr_running]. lia.
  - unfold weigh. cbn [e1 set_run on_rq load set_curr r1 set_timeline cfs_load]. lia.
  - intros bd. right. split; [by destruct bd|]. done.
Qed.
