(* ===== verification/CfsSteps.v ===== *)
(** * Operations of the fair class in any order

    The rest of the operations on a queue of tasks, the operations as steps of a machine and
    the invariant over all its runs. *)

From stdpp Require Import gmap sorting.
From S2P Require Import Prelude Sums Pelt Rbtree RbtreeTree RbtreeInsert RbtreeIter CfsWeight CfsQueue CfsTimeline CfsPick CfsSlice CfsBandwidth CfsClass CfsRun.
Local Open Scope Z_scope.
Local Open Scope res_scope.

(** ** Putting the running entity back *)

Lemma check_plain w q r : queues w !! q = Some r -> runtime_enabled (rt r) = false -> check_cfs_rq_runtime w q = Ok false.
Proof.
  intros Hq Hrt. unfold check_cfs_rq_runtime. destruct (negb _); [done|]. rewrite (queue_ok _ _ _ Hq). cbn [res_bind]. by rewrite Hrt.
Qed.

(** The running entity leaves the CPU; [l'] is the timeline with it, if it is runnable. *)
Lemma uncurr_inv w w2 q b h l l' r ro lm : class_inv w q b h l r -> entities w2 = entities w -> dom (tree_nodes w2) = dom (tree_nodes w) ->
  tun w2 = tun w -> queues w2 !! q = Some (set_timeline r ro lm) -> timeline w2 q b l' ->
  (forall y, y ∈ l' <-> y ∈ l \/ y = curr r /\ is_queued w y) ->
  class_inv (put_queue w2 q (set_curr (set_timeline r ro lm) NULL)) q b h l' (set_curr (set_timeline r ro lm) NULL).
Proof.
  intros HI En Edom Etun Hq HT Hin. eapply (inv_queue w _ q b h h l l' r _ HI); try apply HI; try done.
  - apply lookup_insert_eq.
  - eapply (timeline_ext w2); [done|exact Hq|apply lookup_insert_eq|done|done|done|done].
  - intros y ey Hy. rewrite Hin, (ci_on _ _ _ _ _ _ HI y ey Hy). cbn [set_curr curr].
    assert (y <> NULL) by (intros ->; by rewrite (inv_null HI) in Hy).
    assert (is_queued w y <-> on_rq ey = true) as ->.
    { split; [|intros; by exists ey]. intros (e2&He2&Ho2). rewrite Hy in He2. by injection He2 as <-. }
    destruct (decide (y = curr r)); tauto.
  - by left.
  - intros bd. right. by destruct bd.
Qed.

Lemma charged_queued w w' r r' y : charged w w' r r' -> is_queued w y -> is_queued w' y.
Proof.
  intros HC (e&Ee&Ho). destruct (charged_entity _ _ _ _ _ _ HC Ee) as (e'&Ee'&Hess&_). injection Hess as _ Hon _ _ _ _. exists e'. split; [done|congruence].
Qed.

Lemma put_prev_inv w q b h l r now d : class_inv w q b h l r -> curr r <> NULL -> 0 <= d < 2 ^ 50 -> (is_queued w (curr r) -> elapsed w r now <= d) ->
  h + 2048 * d < 2 ^ 62 ->
  exists w' r' l', put_prev_entity w q (curr r) now = Ok (w', false) /\ class_inv w' q b (h + 2048 * d) l' r' /\ curr r' = NULL /\
    (forall y, is_queued w y -> is_queued w' y) /\
    (is_queued w (curr r) -> entities w' = alter (charge now) (curr r) (entities w)) /\ (~ is_queued w (curr r) -> entities w' = entities w).
Proof.
  intros HI Hc Hd0 Hd Hh. destruct (ci_curr _ _ _ _ _ _ HI) as [|[e Ee]]; [done|].
  unfold put_prev_entity. rewrite (entity_ok _ _ _ Ee). cbn [res_bind]. destruct (on_rq e) eqn:Eo.
  - assert (Hd1 : elapsed w r now <= d < 2 ^ 50) by (split; [apply Hd; by exists e|lia]).
    destruct (update_curr_inv w q b h l r now d HI Hd1 Hh) as (w1&r1&E1&HI1&HC1&_&Hch). rewrite E1. cbn [res_bind].
    destruct (ch_queue _ _ _ _ HC1) as [v Er1]. assert (Hcu : curr r1 = curr r) by by rewrite Er1.
    destruct (ch_curr _ _ _ _ HC1 e Ee) as (e1&Ee1&Hess). injection Hess as _ Hon _ _ _ _. rewrite Eo in Hon.
    rewrite (check_plain w1 q r1) by apply HI1. cbn [res_bind]. destruct (ci_tasks _ _ _ _ _ _ HI1 _ _ Ee1) as [T1 T2 T3 T4 T5 T6 T7].
    destruct (enqueue_ok w1 q b l (curr r)) as (w2&E2&HT2&[S1 S2 _ S4 _ [S6 S7]]);
      [apply HI1|exists e1; split; [done|]|done|done|rewrite <- Hcu; by eapply inv_curr_out|].
    { pose proof (ci_window _ _ _ _ _ _ HI1 _ _ Ee1 Hon). unfold ahead. lia. }
    rewrite E2. cbn [res_bind]. destruct (S4 r1) as (ro&lm&Hq2); [apply HI1|]. rewrite (queue_ok _ _ _ Hq2). cbn [res_bind].
    exists (put_queue w2 q (set_curr (set_timeline r1 ro lm) NULL)), (set_curr (set_timeline r1 ro lm) NULL), (place (less w1) (curr r) l). split; [done|].
    split; [|split; [done|split]].
    2: { intros y Hy. apply (charged_queued _ _ _ _ _ HC1) in Hy as (ey&Hy&Hoy). exists ey. simpl. by rewrite S1. }
    2: { simpl. rewrite S1. split; [done|]. intros []. by exists e. }
    eapply uncurr_inv; try done. intros y. rewrite place_in, Hcu. split; [|tauto]. intros [-> |Hy]; [right|by left]. split; [done|]. by exists e1.
  - cbn [res_bind]. rewrite (check_plain w q r) by apply HI. cbn [res_bind]. rewrite (queue_ok _ _ _ (ci_queue _ _ _ _ _ _ HI)). cbn [res_bind].
    assert (Er : set_timeline r (timeline_root r) (rb_leftmost r) = r) by by destruct r.
    eexists _, (set_curr r NULL), l. split; [done|]. split; [|split; [done|split; [by intros y Hy|split; [intros (e2&He2&Ho2); congruence|done]]]]. rewrite <- Er. assert (HI0 : class_inv w q b (h + 2048 * d) l r) by (eapply inv_weaken; [done|lia]).
    eapply uncurr_inv; try done; [rewrite Er; apply HI|apply HI|]. intros y. split; [by left|]. intros [?|[-> (e2&He2&Ho2)]]; [done|]. congruence.
Qed.

(** ** Choosing *)

Lemma sumq_strip (F : sched_entity -> Z) m m' : (forall e, F (strip e) = F e) -> (strip <$> m : gmap Z sched_entity) = strip <$> m' ->
  sumq F m = sumq F m'.
Proof.
  intros HF E0. assert (G : forall m : gmap Z sched_entity, sumq F m = sumq F (strip <$> m)).
  { intros m0. unfold sumq. rewrite map_fold_fmap. induction m0 as [|x e m0 Hx Hf IH] using map_first_key_ind; [by rewrite !map_fold_empty|].
    rewrite !map_fold_insert_first_key by done. unfold compose at 1. rewrite HF. by f_equal. }
  by rewrite (G m), (G m'), E0.
Qed.

Lemma same_inv w w' q b h l r : class_inv w q b h l r -> same w w' -> class_inv w' q b h l r.
Proof.
  intros HI [S1 S2 [S3 S4] S5 S6].
  pose proof HI as [Hq HT Htk Hon Hcu Hwin Hmin Hnr Hwt Hinv Hbud Hsz Hrt HL1 HL2 HL3].
  assert (Em : strip <$> entities w' = strip <$> entities w) by (apply map_eq; intros x; rewrite !lookup_fmap; apply S5).
  assert (Hback : forall x e', entities w' !! x = Some e' -> exists e, entities w !! x = Some e /\ strip e' = strip e).
  { intros x e' He'. specialize (S5 x). rewrite He' in S5. destruct (entities w !! x) as [e|]; [|done]. exists e. split; [done|]. by apply (inj Some) in S5. }
  assert (Hfwd : forall x e, entities w !! x = Some e -> exists e', entities w' !! x = Some e' /\ strip e' = strip e).
  { intros x e He. specialize (S5 x). rewrite He in S5. destruct (entities w' !! x) as [e'|]; [|done]. exists e'. split; [done|]. by apply (inj Some) in S5. }
  split; rewrite ?S1, ?S3; try done.
  - eapply (timeline_ext w w'); [done|exact Hq|by rewrite S1|done|done| |done]. intros x _. specialize (S5 x).
    destruct (entities w' !! x), (entities w !! x); simpl in *; try done. apply (inj Some), (f_equal vruntime) in S5. simpl in S5. by rewrite S5.
  - intros x e' He'. destruct (Hback x e' He') as (e&He&Es). destruct (Htk x e He) as [T1 T2 T3 T4 T5 T6 T7].
    assert (load_ok (load e')) by (eapply S6; [|exact He']; intros y ey Hy; by apply (Htk y)).
    pose proof (f_equal parent Es). pose proof (f_equal cfs_rq_ptr Es). pose proof (f_equal my_q Es). pose proof (f_equal (fun e => weight (load e)) Es).
    simpl in *. split; rewrite ?S2; try done; congruence.
  - intros x e' He'. destruct (Hback x e' He') as (e&He&Es). apply (f_equal on_rq) in Es. simpl in Es. rewrite Es. by apply Hon.
  - destruct Hcu as [Hcu|[e He]]; [by left|right]. destruct (Hfwd _ e He) as (e'&He'&_). by exists e'.
  - intros x e' He'. destruct (Hback x e' He') as (e&He&Es). pose proof (f_equal on_rq Es) as E1. pose proof (f_equal vruntime Es) as E2. simpl in E1, E2.
    rewrite E1, E2. by apply Hwin with x.
  - rewrite Hnr. by apply sumq_strip.
  - rewrite Hwt. by apply sumq_strip.
  - intros bd. destruct (Hbud bd) as [Hb|(e&He&Ho)]; [by left|right]. destruct (Hfwd _ e He) as (e'&He'&Es). exists e'. split; [done|].
    apply (f_equal on_rq) in Es. simpl in Es. congruence.
  - rewrite <- (map_size_fmap strip), Em, map_size_fmap. done.
Qed.

(** The running entity if it is still runnable: what [pick_next_entity] is given. *)
Definition still (w : world) (r : cfs_rq) : Z :=
  match entities w !! curr r with Some e => if on_rq e then curr r else NULL | None => NULL end.

Lemma still_queued w q b h l r : class_inv w q b h l r -> still w r = NULL \/ still w r = curr r /\ is_queued w (curr r) /\ curr r <> NULL.
Proof.
  intros HI. unfold still. destruct (entities w !! curr r) as [e|] eqn:Ee; [|by left]. destruct (on_rq e) eqn:Eo; [right|by left].
  split; [done|]. split; [by exists e|]. intros E0. by rewrite E0, (inv_null HI) in Ee.
Qed.

Lemma queued_near w q b h l r x : class_inv w q b h l r -> h < 2 ^ 62 -> is_queued w x -> near w b x.
Proof. intros HI Hh (e&Ee&Ho). exists e. split; [done|]. pose proof (ci_window _ _ _ _ _ _ HI x e Ee Ho). unfold ahead. lia. Qed.

Lemma timeline_queued w q b h l r x : class_inv w q b h l r -> x ∈ l -> is_queued w x.
Proof.
  intros HI Hx. pose proof (ci_timeline _ _ _ _ _ _ HI) as (r0&t&_&_&_&_&_&Hn&_). eapply Forall_forall in Hn as (e&Ee&_); [|exact Hx].
  exists e. split; [done|]. by apply (ci_on _ _ _ _ _ _ HI x e Ee).
Qed.

Lemma inv_pick_pre w q b h l r : class_inv w q b h l r -> h < 2 ^ 62 -> (exists x, is_queued w x) -> pick_pre w q b l (still w r) r (fun _ => 0%nat).
Proof.
  intros HI Hh (x&Hx). assert (Hst := still_queued _ _ _ _ _ _ HI). split; try apply HI.
  - apply (inv_hierarchy HI).
  - destruct Hst as [H|(->&H&_)]; [by left|right]. by eapply queued_near.
  - intros bd. destruct (ci_buddies _ _ _ _ _ _ HI bd) as [H|H]; [by left|right]. by eapply queued_near.
  - apply (inv_null HI).
  - intros y e _ He. by apply (ci_tasks _ _ _ _ _ _ HI y e He).
  - destruct Hx as (e&Ee&Ho). destruct (decide (x = curr r)) as [-> |Hne].
    + right. unfold still. rewrite Ee, Ho. intros E0. by rewrite E0, (inv_null HI) in Ee.
    + left. assert (x ∈ l) as Hxl by by apply (ci_on _ _ _ _ _ _ HI x e Ee). intros ->. by apply not_elem_of_nil in Hxl.
Qed.

(** The choice is a runnable entity and a fair one. *)
Lemma pick_inv w q b h l r : class_inv w q b h l r -> h < 2 ^ 62 -> (exists x, is_queued w x) ->
  exists se w' r' left g, pick_next_entity w q (still w r) = Ok (se, w') /\ class_inv w' q b h l r' /\ curr r' = curr r /\ is_queued w' se /\
    (forall y, is_queued w' y <-> is_queued w y) /\ (forall now, elapsed w' r' now = elapsed w r now) /\
    (forall y, strip <$> entities w' !! y = strip <$> entities w !! y) /\
    lowest w b left (ptr_list (still w r) ++ l) /\ gran_is w left g /\ at_ w b se <= at_ w b left + g.
Proof.
  intros HI Hh Hsome. pose proof (inv_pick_pre _ _ _ _ _ _ HI Hh Hsome) as HP.
  destruct (pick_ok _ _ _ _ _ _ _ HP) as (se&w'&left&g&E1&Hlow&Hg&Hle&Hin&_&(r'&Hr'&Hbd)&w3&S3&C3).
  pose proof (same_inv _ _ _ _ _ _ _ HI S3) as HI3. destruct (cleared_inv _ _ _ _ _ _ _ HI3 C3) as (r2&Q2&Hrc&HI4).
  rewrite Hr' in Q2. injection Q2 as <-. exists se, w', r', left, g. split; [done|]. split; [done|].
  destruct (rq_cleared_fields _ _ Hrc) as (_&_&_&_&_&Hcu&_). split; [done|].
  assert (Hkeep : forall y, is_queued w' y <-> is_queued w y).
  { intros y. unfold is_queued. rewrite (cl_entities _ _ C3). pose proof (same_entities _ _ S3 y) as E0.
    destruct (entities w3 !! y) as [e'|], (entities w !! y) as [e|]; simpl in E0; try done.
    apply (inj Some), (f_equal on_rq) in E0. simpl in E0. split; intros (e0&[= <-]&Ho); eexists; (split; [done|congruence]). }
  assert (Hel : forall now, elapsed w' r' now = elapsed w r now).
  { intros now. unfold elapsed. rewrite Hcu, (cl_entities _ _ C3). pose proof (same_entities _ _ S3 (curr r)) as E0.
    destruct (entities w3 !! curr r), (entities w !! curr r); simpl in E0; try done. apply (inj Some), (f_equal exec_start) in E0. simpl in E0. by rewrite E0. }
  assert (Hst : forall y, strip <$> entities w' !! y = strip <$> entities w !! y) by (intros y; rewrite (cl_entities _ _ C3); apply (same_entities _ _ S3)).
  split; [apply Hkeep|by split].
  { destruct Hin as [Hin|[Hn Hb]].
    - apply elem_of_app in Hin as [Hin|Hin]; [|by eapply timeline_queued]. unfold ptr_list in Hin.
      destruct (Z.eqb_spec (still w r) NULL) as [E0|E0]; [by apply not_elem_of_nil in Hin|]. apply list_elem_of_singleton in Hin as ->.
      destruct (still_queued _ _ _ _ _ _ HI) as [|(->&Hq&_)]; done.
    - destruct Hb as [-> | ->]; [destruct (ci_buddies _ _ _ _ _ _ HI Last) as [Hb|Hb]|destruct (ci_buddies _ _ _ _ _ _ HI Next) as [Hb|Hb]]; done. }
Qed.

(** ** The tick *)

Lemma sliced_inv w w' q b h l r : class_inv w q b h l r -> sliced w w' ->
  exists r', class_inv w' q b h l r' /\ curr r' = curr r /\ queues w' !! q = Some r'.
Proof.
  intros HI [S1 S2 [S3 S4] S5]. destruct (S5 q r (ci_queue _ _ _ _ _ _ HI)) as (lw&Hq'&Hw&Hx). exists (set_cfs_load r lw). split; [|done].
  apply (inv_queue w w' q b h h l l r _ HI); try apply HI; try done.
  - by rewrite S2.
  - eapply (timeline_ext w w'); [done|apply HI|exact Hq'|done|done| |apply HI]. intros x _. by rewrite S1.
  - cbn [set_cfs_load cfs_load]. destruct Hx as [-> |Hx]; [apply HI|by right].
  - intros bd. right. by destruct bd.
Qed.

Lemma inv_exact w q b h l r x e : class_inv w q b h l r -> entities w !! x = Some e -> on_rq e = true ->
  load_exact (cfs_load r) /\ weight (load e) <= weight (cfs_load r) < 2 ^ 42.
Proof.
  intros HI He Ho. pose proof (inv_total HI) as Ht. destruct (tk_weight _ _ _ _ (ci_tasks _ _ _ _ _ _ HI x e He)) as [Hw1 Hw2].
  destruct (inv_one HI x e He Ho) as [_ Hle].
  split; [|lia]. destruct (ci_inverse _ _ _ _ _ _ HI) as [H0|H0]; [|done]. split; [|rewrite H0; lia]. split; [|by left].
  unfold scale_load_down, WMULT_CONST. rewrite Z.shiftr_div_pow2 by lia. change (2 ^ 10) with 1024.
  split; [apply Z.div_str_pos; lia|apply Z.div_lt_upper_bound; lia].
Qed.

Lemma inv_slice_pre w q b h l r x e : class_inv w q b h l r -> entities w !! x = Some e -> slice_pre w q x e r (fun _ => 0%nat).
Proof.
  intros HI He. split; try apply HI; [apply (inv_hierarchy HI)| |apply (inv_null HI)|done|by apply (inv_count HI)].
  intros y ey r' Hy Hr'. destruct (ci_tasks _ _ _ _ _ _ HI y ey Hy) as [_ _ _ Hq _ _ Hw]. rewrite Hq, (ci_queue _ _ _ _ _ _ HI) in Hr'.
  injection Hr' as <-. pose proof (inv_total HI). split; [lia|]. destruct (on_rq ey) eqn:Eo; [by eapply inv_exact|lia].
Qed.

(** With two runnable entities, one is on the timeline. *)
Lemma inv_others w q b h l r : class_inv w q b h l r -> nr_running r > 1 -> l <> [].
Proof.
  intros HI Hn ->. rewrite (ci_nr _ _ _ _ _ _ HI) in Hn.
  assert (Hz : forall m : gmap Z sched_entity, (forall x e, m !! x = Some e -> on_rq e = false) -> sumq count m <= 0).
  { intros m Hm. pose proof (sumq_le count m 0) as G. rewrite Z.mul_0_l in G. apply G; [|lia]. intros x e Hx. unfold count. by rewrite (Hm x e Hx). }
  assert (Hoff : forall x e, entities w !! x = Some e -> x <> curr r -> on_rq e = false).
  { intros x e Hx Hne. destruct (on_rq e) eqn:Eo; [|done]. exfalso. eapply (not_elem_of_nil x), (ci_on _ _ _ _ _ _ HI x e Hx). done. }
  destruct (entities w !! curr r) as [e|] eqn:Ee.
  - rewrite <- (insert_delete_id (entities w) (curr r) e), sumq_insert in Hn by (done || apply lookup_delete_eq).
    assert (sumq count (delete (curr r) (entities w)) <= 0).
    { apply Hz. intros x ex Hx. apply lookup_delete_Some in Hx as [Hne Hx]. by apply (Hoff x). }
    assert (count e <= 1) by (unfold count; destruct (on_rq e); lia). lia.
  - assert (sumq count (entities w) <= 0); [|lia]. apply Hz. intros x ex Hx. apply (Hoff x); [done|congruence].
Qed.

Lemma tick_inv w q b h l r queued hrtick now d : class_inv w q b h l r -> is_queued w (curr r) ->
  elapsed w r now <= d < 2 ^ 50 -> h + 2048 * d < 2 ^ 62 ->
  exists w' r' resched, entity_tick w q (curr r) queued hrtick now = Ok (w', resched) /\ class_inv w' q b (h + 2048 * d) l r' /\ curr r' = curr r.
Proof.
  intros HI (e&Ee&Ho) Hd Hh. unfold entity_tick.
  destruct (update_curr_inv w q b h l r now d HI Hd Hh) as (w1&r1&E1&HI1&HC1&_). rewrite E1. cbn [res_bind].
  destruct (ch_queue _ _ _ _ HC1) as [v Er1]. assert (Hcu : curr r1 = curr r) by by rewrite Er1.
  destruct (ch_curr _ _ _ _ HC1 e Ee) as (e1&Ee1&Hess). injection Hess as _ Hon _ _ _ _. rewrite Ho in Hon.
  destruct (ci_tasks _ _ _ _ _ _ HI1 _ _ Ee1) as [T1 T2 T3 T4 T5 T6 T7]. unfold update_cfs_group. rewrite (entity_ok _ _ _ Ee1). cbn [res_bind].
  rewrite T5, Z.eqb_refl. cbn [res_bind]. destruct queued; [by exists w1, r1, true|]. destruct hrtick; [by exists w1, r1, false|].
  rewrite (queue_ok _ _ _ (ci_queue _ _ _ _ _ _ HI1)). cbn [res_bind]. rewrite Z.gtb_ltb. destruct (Z.ltb_spec 1 (nr_running r1)) as [Hn|Hn]; [|by exists w1, r1, false].
  pose proof (inv_others _ _ _ _ _ _ HI1 ltac:(lia)) as Hl. destruct l as [|f l]; [done|].
  destruct (check_preempt_tick_ok w1 q b l (curr r) e1 r1 (fun _ => 0%nat) f) as (s&w2&w3&rs&_&E2&_&S2&C3);
    [by eapply inv_slice_pre|apply HI1|eapply queued_near; [exact HI1|lia|by exists e1]|done|].
  rewrite E2. cbn [res_bind]. destruct (sliced_inv _ _ _ _ _ _ _ HI1 S2) as (r2&HI2&Hcu2&_). destruct (cleared_inv _ _ _ _ _ _ _ HI2 C3) as (r3&_&Hrc&HI3).
  exists w3, r3, (false || rs). split; [done|]. split; [done|]. destruct (rq_cleared_fields _ _ Hrc) as (_&_&_&_&_&->&_). congruence.
Qed.

(** ** Changing a weight *)

Lemma fresh_load_ok wt : 1024 <= wt <= 2 ^ 27 -> load_ok (mk_lw wt 0).
Proof.
  intros H. split; [|by left]. cbn [weight]. unfold scale_load_down, WMULT_CONST. rewrite Z.shiftr_div_pow2 by lia. change (2 ^ 10) with 1024.
  split; [apply Z.div_str_pos; lia|apply Z.div_lt_upper_bound; lia].
Qed.

Lemma load_eta lw : mk_lw (weight lw) (inv_weight lw) = lw.
Proof. by destruct lw. Qed.

(** An entity gets a new load where it is. *)
Lemma reload_inv w q b h l r r' x e lw : class_inv w q b h l r -> entities w !! x = Some e -> load_ok lw -> 1024 <= weight lw <= 2 ^ 27 ->
  (exists n wt inv, r' = set_nr (set_cfs_load r (mk_lw wt inv)) n /\ n = nr_running r /\
     wt = weight (cfs_load r) - weigh e + weigh (set_load e lw) /\ (inv = 0 \/ load_exact (mk_lw wt inv))) ->
  let w' := put_queue (put_entity w x (set_load e lw)) q r' in class_inv w' q b h l r' /\ curr r' = curr r.
Proof.
  intros HI He Hlw Hw (n&wt&inv&->&->&->&Hinv) w'. split; [|done]. destruct (ci_tasks _ _ _ _ _ _ HI x e He) as [T1 T2 T3 T4 T5 T6 T7].
  eapply (inv_update w w' q b h h l l r _ x e (set_load e lw) HI); try apply HI; try done.
  - apply lookup_insert_eq.
  - eapply (timeline_ext w w'); [done|apply HI|apply lookup_insert_eq|done|done| |apply HI]. intros y _. simpl.
    destruct (decide (y = x)) as [-> |Hne]; [by rewrite lookup_insert_eq, He|by rewrite lookup_insert_ne].
  - intros y ey. simpl. destruct (decide (y = x)) as [-> |Hne].
    + rewrite lookup_insert_eq. intros [= <-]. apply (ci_on _ _ _ _ _ _ HI x e He).
    + rewrite lookup_insert_ne by done. apply HI.
  - apply (ci_window _ _ _ _ _ _ HI x e He).
  - unfold count. cbn [set_load on_rq set_nr nr_running]. lia.
  - intros bd. right. split; [by destruct bd|]. intros Eb. destruct (ci_buddies _ _ _ _ _ _ HI bd) as [Hb|(eb&Hb&Hob)].
    + rewrite Hb in Eb. by rewrite <- Eb, (inv_null HI) in He.
    + rewrite Eb, He in Hb. by injection Hb as <-.
Qed.

Lemma reweight_entity_inv w q b h l r x e wt now d : class_inv w q b h l r -> entities w !! x = Some e -> 1024 <= wt <= 2 ^ 27 ->
  elapsed w r now <= d < 2 ^ 50 -> h + 2048 * d < 2 ^ 62 ->
  exists w' r', reweight_entity w q x wt now = Ok (w', false) /\ class_inv w' q b (h + 2048 * d) l r' /\ curr r' = curr r /\
    exists e', entities w' !! x = Some e' /\ load e' = mk_lw wt 0 /\ on_rq e' = on_rq e.
Proof.
  intros HI He Hwt Hd Hh. pose proof (elapsed_nonneg w r now). unfold reweight_entity. rewrite (entity_ok _ _ _ He). cbn [res_bind].
  assert (HI0 : class_inv w q b (h + 2048 * d) l r) by (eapply inv_weaken; [done|lia]). pose proof (ci_queue _ _ _ _ _ _ HI) as Hq.
  destruct (on_rq e) eqn:Eo; cbn [res_bind].
  - rewrite (queue_ok _ _ _ Hq). cbn [res_bind].
    assert (H1 : exists w1 r1 e1, (if curr r =? x then update_curr w q now else Ok (w, false)) = Ok (w1, false) /\
      class_inv w1 q b (h + 2048 * d) l r1 /\ curr r1 = curr r /\ entities w1 !! x = Some e1 /\ on_rq e1 = true).
    { destruct (curr r =? x); [|by exists w, r, e]. destruct (update_curr_inv w q b h l r now d HI Hd Hh) as (w1&r1&E1&HI1&HC1&_).
      destruct (charged_entity _ _ _ _ _ _ HC1 He) as (e1&Ee1&Hess&_). destruct (ch_queue _ _ _ _ HC1) as [v ->]. injection Hess as _ Hon _ _ _ _.
      exists w1, (set_min_vruntime r v), e1. rewrite Hon. done. }
    destruct H1 as (w1&r1&e1&->&HI1&Hcu&He1&Ho1). cbn [res_bind]. pose proof (ci_queue _ _ _ _ _ _ HI1) as Hq1.
    pose proof (inv_exact _ _ _ _ _ _ x e1 HI1 He1 Ho1) as [_ Hle]. pose proof (inv_count HI1) as Hn. pose proof (inv_total HI1) as Ht.
    destruct (tk_weight _ _ _ _ (ci_tasks _ _ _ _ _ _ HI1 x e1 He1)) as [Hw1 Hw2].
    unfold account_entity_dequeue. rewrite (queue_ok _ _ _ Hq1). cbn [res_bind]. rewrite (entity_ok _ _ _ He1). cbn [res_bind].
    rewrite (entity_ok _ x e1) by done. cbn [res_bind]. rewrite Ho1. unfold account_entity_enqueue. rewrite (queue_ok _ q _ (lookup_insert_eq _ _ _)). cbn [res_bind].
    rewrite (entity_ok _ x _ (lookup_insert_eq _ _ _)). cbn [res_bind].
    set (r2 := set_nr (set_cfs_load r1 _) _). set (rf := set_nr (set_cfs_load r2 _) _). destruct (inv_one HI1 x e1 He1 Ho1) as [Hco _].
    destruct (reload_inv w1 q b _ l r1 rf x e1 (mk_lw wt 0) HI1 He1) as [HI2 Hcu2]; [by apply fresh_load_ok|done| |].
    { eexists _, _, _. split; [reflexivity|]. cbn [rf r2 set_nr set_cfs_load nr_running cfs_load update_load_add update_load_sub weight load set_load update_load_set].
      rewrite (u32_small (nr_running r1 - 1)), u32_small, (u64_small (weight (cfs_load r1) - _)), u64_small by lia.
      split; [lia|]. split; [|by left]. unfold weigh. cbn [set_load on_rq load weight]. rewrite Ho1. lia. }
    exists (put_queue (put_entity w1 x (set_load e1 (mk_lw wt 0))) q rf), rf. split; [f_equal; f_equal; unfold put_queue; cbn [put_entity tree_nodes entities queues groups tun feat]; by rewrite insert_insert_eq|].
    split; [exact HI2|]. split; [congruence|]. eexists. split; [apply lookup_insert_eq|]. by cbn [set_load load on_rq].
  - rewrite (entity_ok _ _ _ He). cbn [res_bind]. rewrite Eo. cbn [res_bind].
    destruct (reload_inv w q b _ l r r x e (mk_lw wt 0) HI0 He) as [HI2 Hcu2]; [by apply fresh_load_ok|done| |].
    { exists (nr_running r), (weight (cfs_load r)), (inv_weight (cfs_load r)). split; [by destruct r as [[] ? ? ? ? ? ? ? ? ?]|]. split; [done|].
      unfold weigh. cbn [set_load on_rq]. rewrite Eo. split; [lia|]. rewrite load_eta. apply HI. }
    eexists _, r. split; [done|]. assert (Ew : put_queue (put_entity w x (set_load e (mk_lw wt 0))) q r = put_entity w x (set_load e (mk_lw wt 0))).
    { unfold put_queue. cbn [put_entity tree_nodes entities queues groups tun feat]. by rewrite (insert_id (queues w) q r). }
    rewrite Ew in HI2. split; [exact HI2|]. split; [done|]. exists (set_load e (mk_lw wt 0)). split; [apply lookup_insert_eq|done].
Qed.

Lemma reweight_task_inv w q b h l r x e (prio : nat) now d : class_inv w q b h l r -> entities w !! x = Some e -> (prio < 40)%nat ->
  elapsed w r now <= d < 2 ^ 50 -> h + 2048 * d < 2 ^ 62 ->
  exists w' r', reweight_task w q x prio now = Ok (w', false) /\ class_inv w' q b (h + 2048 * d) l r' /\ curr r' = curr r.
Proof.
  intros HI He Hp Hd Hh. destruct (prio_entry prio Hp) as (wt&i&_&Ew&Hent&Ei&Hmax). destruct (entry_load wt i Hent) as [Hok _].
  unfold entry_ok in Hent. rewrite !andb_true_iff, !Z.leb_le, !Z.ltb_lt in Hent.
  assert (Hs : scale_load wt = wt * 1024) by (unfold scale_load; rewrite Z.shiftl_mul_pow2, u64_small by lia; done).
  unfold reweight_task. rewrite (array_get_Some _ _ _ Ew), (array_get_Some _ _ _ Ei). cbn [res_bind].
  destruct (reweight_entity_inv w q b h l r x e (scale_load wt) now d HI He) as (w1&r1&E1&HI1&Hcu1&e1&He1&Hl1&_); [lia|done|done|].
  rewrite E1. cbn [res_bind]. rewrite (entity_ok _ _ _ He1). cbn [res_bind]. rewrite Hl1. cbn [weight]. eexists _, r1. split; [done|]. split; [|done].
  destruct (reload_inv w1 q b _ l r1 r1 x e1 (mk_lw (scale_load wt) i) HI1 He1 Hok) as [HI2 _]; [cbn [weight]; lia| |].
  - exists (nr_running r1), (weight (cfs_load r1)), (inv_weight (cfs_load r1)). split; [by destruct r1 as [[] ? ? ? ? ? ? ? ? ?]|]. split; [done|].
    unfold weigh. cbn [set_load on_rq load weight]. rewrite Hl1. cbn [weight]. split; [lia|].
    rewrite load_eta. apply HI1.
  - unfold put_queue in HI2. cbn [put_entity tree_nodes entities queues groups tun feat] in HI2. rewrite (insert_id (queues w1) q r1) in HI2 by apply HI1. exact HI2.
Qed.
