(* ===== verification/CfsMachine.v ===== *)
(** * Runs of the fair class

    Scheduling and yielding, the operations as the steps of a machine over one queue of
    tasks, and what holds in every state the machine reaches. *)

From stdpp Require Import gmap sorting.
From S2P Require Import Prelude Sums Pelt Rbtree RbtreeTree RbtreeInsert RbtreeIter CfsWeight CfsQueue CfsTimeline CfsPick CfsSlice CfsBandwidth CfsClass CfsRun CfsSteps.
Local Open Scope Z_scope.
Local Open Scope res_scope.

(** ** Scheduling *)

Lemma some_running w q b h l r x : class_inv w q b h l r -> is_queued w x -> (nr_running r =? 0) = false.
Proof.
  intros HI (e&Ee&Ho). apply Z.eqb_neq. destruct (inv_one HI x e Ee Ho) as [H _]. lia.
Qed.

(** The entities once the running one, if it is still runnable, is charged. *)
Definition settled (w : world) (r : cfs_rq) (now : Z) : gmap Z sched_entity :=
  match entities w !! curr r with
  | Some e => if on_rq e then alter (charge now) (curr r) (entities w) else entities w
  | None => entities w
  end.

(** The entities once [se] takes over from [old]: the clock of a task that did not run before starts. *)
Definition handed (old se now : Z) (m : gmap Z sched_entity) : gmap Z sched_entity :=
  if old =? se then m else alter (fun e => set_run e now (sum_exec_runtime e)) se m.

(** The running entity is charged, or forgotten when it is no longer runnable. *)
Lemma settle_ok w q b h l r now d : class_inv w q b h l r -> curr r <> NULL -> elapsed w r now <= d < 2 ^ 50 -> h + 2048 * d < 2 ^ 62 ->
  exists w1 r1, (e <-- entity w (curr r);
     '(c, w, resched) <--
       (if on_rq e then '(w, resched) <-- update_curr w q now; Ok (curr r, w, resched) else Ok (NULL, w, false));
     expired <-- check_cfs_rq_runtime w q;
     if expired : bool then Fault NotModelled else Ok (c, w, resched)) = Ok (still w1 r1, w1, false) /\
    class_inv w1 q b (h + 2048 * d) l r1 /\ curr r1 = curr r /\ (forall y, is_queued w y -> is_queued w1 y) /\
    (is_queued w1 (curr r1) -> elapsed w1 r1 now = 0) /\
    (is_queued w (curr r) -> update_curr w q now = Ok (w1, false)) /\ (~ is_queued w (curr r) -> w1 = w) /\ entities w1 = settled w r now.
Proof.
  intros HI Hc Hd Hh. destruct (ci_curr _ _ _ _ _ _ HI) as [|[e Ee]]; [done|]. pose proof (elapsed_nonneg w r now).
  rewrite (entity_ok _ _ _ Ee). cbn [res_bind]. destruct (on_rq e) eqn:Eo.
  - destruct (update_curr_inv w q b h l r now d HI Hd Hh) as (w1&r1&E1&HI1&HC1&Hel&Hch). rewrite E1. cbn [res_bind].
    rewrite (check_plain w1 q r1) by apply HI1. cbn [res_bind]. exists w1, r1.
    destruct (ch_queue _ _ _ _ HC1) as [v Er1]. assert (Hcu : curr r1 = curr r) by by rewrite Er1.
    destruct (ch_curr _ _ _ _ HC1 e Ee) as (e1&Ee1&Hess). injection Hess as _ Hon _ _ _ _. split.
    + unfold still. by rewrite Hcu, Ee1, Hon, Eo.
    + split; [done|]. split; [done|]. split; [intros y; by apply (charged_queued _ _ _ _ _ HC1)|]. split; [done|]. split; [done|].
      split; [intros []; by exists e|]. unfold settled. by rewrite Ee, Eo.
  - cbn [res_bind]. rewrite (check_plain w q r) by apply HI. cbn [res_bind]. exists w, r. split; [unfold still; by rewrite Ee, Eo|].
    split; [eapply inv_weaken; [exact HI|lia]|]. split; [done|]. split; [done|].
    assert (Hno : ~ is_queued w (curr r)) by (intros (e'&Ee'&Ho'); congruence). do 3 (split; [done|]). unfold settled. by rewrite Ee, Eo.
Qed.

Lemma settled_on w r now y : on_rq <$> settled w r now !! y = on_rq <$> entities w !! y.
Proof.
  unfold settled. destruct (entities w !! curr r) as [e|]; [|done]. destruct (on_rq e); [|done].
  destruct (decide (y = curr r)) as [-> |Hne]; [|by rewrite lookup_alter_ne]. rewrite lookup_alter_eq. destruct (entities w !! curr r) as [e0|]; [|done].
  cbn. f_equal. unfold charge. destruct (_ <=? _); [done|]. by destruct (calc_delta_fair _ _) as [[]|].
Qed.

Lemma handed_on old se now m y : on_rq <$> handed old se now m !! y = on_rq <$> m !! y.
Proof.
  unfold handed. destruct (old =? se); [done|]. destruct (decide (y = se)) as [-> |Hne]; [|by rewrite lookup_alter_ne]. rewrite lookup_alter_eq. by destruct (m !! se).
Qed.

(** Handing over does not look at the cached inverses. *)
Lemma handed_strip old se now m m' : (forall y, strip <$> m !! y = strip <$> m' !! y) -> forall y, strip <$> handed old se now m !! y = strip <$> handed old se now m' !! y.
Proof.
  intros H y. unfold handed. destruct (old =? se); [done|]. destruct (decide (y = se)) as [-> |Hne]; [|by rewrite !lookup_alter_ne].
  rewrite !lookup_alter_eq. specialize (H se). set (f := fun e => set_run e now (sum_exec_runtime e)).
  assert (Hf : forall o : option sched_entity, strip <$> (f <$> o) = f <$> (strip <$> o)) by (intros [e|]; done). by rewrite !Hf, H.
Qed.

Lemma queued_strip w (m : gmap Z sched_entity) y : (forall y, strip <$> entities w !! y = strip <$> m !! y) -> is_queued w y <-> on_rq <$> m !! y = Some true.
Proof.
  intros H. specialize (H y). unfold is_queued. destruct (entities w !! y) as [e|], (m !! y) as [e'|]; cbn in *; try done.
  - apply (inj Some), (f_equal on_rq) in H. cbn in H. split; [intros (e0&[= <-]&Ho); congruence|]. intros [= Ho]. exists e. split; congruence.
  - split; [by intros (?&?&_)|done].
Qed.

(** After a task has been picked, the timeline holds the runnable ones but the one that runs. *)
Lemma picked_timeline w w' q b h l' r r' se now : class_inv w' q b h l' r' -> curr r' = se ->
  (forall y, strip <$> entities w' !! y = strip <$> handed (curr r) se now (settled w r now) !! y) -> forall y, y ∈ l' <-> is_queued w y /\ y <> se.
Proof.
  intros HI Hcu Hst y. assert (Hq : is_queued w' y <-> is_queued w y).
  { rewrite (queued_strip w' _ y Hst), handed_on, settled_on. symmetry. by apply queued_strip. }
  rewrite <- Hq. split.
  - intros Hy. pose proof (timeline_queued _ _ _ _ _ _ _ HI Hy) as (e&Ee&Ho). split; [by exists e|]. rewrite <- Hcu. by apply (ci_on _ _ _ _ _ _ HI y e Ee).
  - intros ((e&Ee&Ho)&Hne). apply (ci_on _ _ _ _ _ _ HI y e Ee). split; [done|congruence].
Qed.

(** The task [se] runs instead of the one that ran until now. *)
Lemma switch_ok w q b h l r se now : class_inv w q b h l r -> h < 2 ^ 62 -> curr r <> NULL -> is_queued w se -> curr r <> se ->
  (is_queued w (curr r) -> elapsed w r now = 0) ->
  exists w' r' l', ('(w, resched') <-- put_prev_entity w q (curr r) now; w <-- set_next_entity w q se now; Ok (se, w, false || resched'))
      = Ok (se, w', false) /\ class_inv w' q b h l' r' /\ curr r' = se /\ (forall y, is_queued w y -> is_queued w' y) /\
    entities w' = alter (fun e => set_run e now (sum_exec_runtime e)) se (entities w).
Proof.
  intros HI Hh Hc Hse Hne Hel.
  destruct (put_prev_inv w q b h l r now 0 HI Hc) as (w1&r1&l1&E1&HI1&Hcu1&Hk1&Hch1&Hch2); [lia|intros H; rewrite Hel by done; lia|lia|].
  rewrite Z.mul_0_r, Z.add_0_r in HI1. rewrite E1. cbn [res_bind].
  assert (Hin : se ∈ l1).
  { destruct (Hk1 se Hse) as (e1&Ee1&Ho1). apply (ci_on _ _ _ _ _ _ HI1 se e1 Ee1). rewrite Hcu1. split; [done|].
    intros ->. by rewrite (inv_null HI1) in Ee1. }
  destruct (set_next_inv w1 q b h l1 r1 se now HI1 Hin Hcu1) as (w2&r2&l2&E2&HI2&Hcu2&Hk2&Hru). rewrite E2. cbn [res_bind].
  exists w2, r2, l2. split; [done|]. do 2 (split; [done|]). split; [auto|]. rewrite Hru. f_equal. destruct (ci_curr _ _ _ _ _ _ HI) as [|[e Ee]]; [done|].
  destruct (on_rq e) eqn:Eo; [|apply Hch2; intros (e'&Ee'&Ho'); congruence]. assert (Hq : is_queued w (curr r)) by by exists e.
  rewrite (Hch1 Hq). by apply charge_idle, Hel.
Qed.

(** [se] is close enough to the entity that is furthest behind. *)
Definition fair_choice (w : world) (r : cfs_rq) (b : Z) (l : list Z) (se : Z) : Prop :=
  exists left g, lowest w b left (ptr_list (still w r) ++ l) /\ gran_is w left g /\ at_ w b se <= at_ w b left + g.

Lemma schedule_inv w q b h l r now d : class_inv w q b h l r -> (exists x, is_queued w x) -> elapsed w r now <= d < 2 ^ 50 -> h + 2048 * d < 2 ^ 62 ->
  exists se w' r' l', pick_next_task_fair w q (curr r) now = Ok (se, w', false) /\ class_inv w' q b (h + 2048 * d) l' r' /\ curr r' = se /\ is_queued w' se /\
    (forall y, strip <$> entities w' !! y = strip <$> handed (curr r) se now (settled w r now) !! y) /\
    exists w1 r1, (is_queued w (curr r) -> update_curr w q now = Ok (w1, false)) /\ (~ is_queued w (curr r) -> w1 = w) /\ entities w1 = settled w r now /\
      class_inv w1 q b (h + 2048 * d) l r1 /\ curr r1 = curr r /\ fair_choice w1 r1 b l se.
Proof.
  intros HI [x Hx] Hd Hh. pose proof (elapsed_nonneg w r now) as Hel0. unfold pick_next_task_fair. rewrite (queue_ok _ _ _ (ci_queue _ _ _ _ _ _ HI)). cbn [res_bind].
  rewrite (some_running _ _ _ _ _ _ x HI Hx). destruct (Z.eqb_spec (curr r) NULL) as [Ec|Ec]; cbn [negb].
  - assert (Est : still w r = NULL) by (unfold still; by rewrite Ec, (inv_null HI)).
    assert (Hset : settled w r now = entities w) by (unfold settled; by rewrite Ec, (inv_null HI)).
    assert (HI0 : class_inv w q b (h + 2048 * d) l r) by (eapply inv_weaken; [exact HI|lia]).
    destruct (pick_inv w q b _ l r HI0 ltac:(lia)) as (se&w1&r1&left&g&E1&HI1&Hcu1&Hq1&_&_&Hst&Hf); [by exists x|].
    rewrite Est in E1. rewrite E1. cbn [res_bind]. pose proof Hq1 as (e1&Ee1&Ho1). assert (Hsn : se <> NULL) by (intros ->; by rewrite (inv_null HI1) in Ee1).
    assert (Hin : se ∈ l) by (apply (ci_on _ _ _ _ _ _ HI1 se e1 Ee1); split; [done|]; by rewrite Hcu1, Ec).
    destruct (set_next_inv w1 q b _ l r1 se now HI1 Hin) as (w2&r2&l2&E2&HI2&Hcu2&Hk2&Hru); [congruence|]. rewrite E2. cbn [res_bind].
    pose proof (Hk2 se Hq1) as Hq2. pose proof Hq2 as (e2&Ee2&Ho2). rewrite (entity_ok _ _ _ Ee2). cbn [res_bind].
    rewrite (tk_leaf _ _ _ _ (ci_tasks _ _ _ _ _ _ HI2 se e2 Ee2)), Z.eqb_refl. exists se, w2, r2, l2.
    do 4 (split; [done|]). split.
    { intros y. assert (En : entities w2 = handed (curr r) se now (entities w1)) by (unfold handed; by rewrite Ec, (proj2 (Z.eqb_neq NULL se))).
      rewrite En, Hset. by apply handed_strip. }
    exists w, r. split; [|split; [done|]].
    { intros (e0&Ee0&_). by rewrite Ec, (inv_null HI) in Ee0. }
    do 3 (split; [done|]). by exists left, g.
  - destruct (settle_ok w q b h l r now d HI Ec Hd Hh) as (w1&r1&E1&HI1&Hcu1&Hk1&Hel1&Hup&Hno&Hset). rewrite E1. cbn [res_bind].
    destruct (pick_inv w1 q b _ l r1 HI1 Hh) as (se&w2&r2&left&g&E2&HI2&Hcu2&Hq2&Hk2&Hel2&Hst&Hf); [exists x; by apply Hk1|].
    rewrite E2. cbn [res_bind]. pose proof Hq2 as (e2&Ee2&Ho2). rewrite (entity_ok _ _ _ Ee2). cbn [res_bind].
    rewrite (tk_leaf _ _ _ _ (ci_tasks _ _ _ _ _ _ HI2 se e2 Ee2)), Z.eqb_refl. cbn [negb].
    destruct (Z.eqb_spec (curr r) se) as [Ese|Ese]; cbn [negb].
    + exists se, w2, r2, l. split; [done|]. split; [done|]. split; [congruence|]. split; [done|]. split; [intros y; unfold handed; by rewrite Ese, Z.eqb_refl, Hst, Hset|].
      exists w1, r1. do 5 (split; [done|]). by exists left, g.
    + destruct (switch_ok w2 q b _ l r2 se now HI2 Hh) as (w3&r3&l3&E3&HI3&Hcu3&Hk3&Hru);
        [congruence|done|congruence|rewrite Hcu2, Hk2, Hel2; apply Hel1|].
      rewrite Hcu2, Hcu1 in E3. rewrite E3. exists se, w3, r3, l3. do 3 (split; [done|]). split; [by apply Hk3|]. split.
      { intros y. assert (En : entities w3 = handed (curr r) se now (entities w2)) by (unfold handed; by rewrite (proj2 (Z.eqb_neq _ _) Ese)).
        rewrite En, <- Hset. by apply handed_strip. }
      exists w1, r1. do 5 (split; [done|]). by exists left, g.
Qed.

(** ** Yielding *)

Lemma set_skip_inv w q b h l r x : class_inv w q b h l r -> is_queued w x ->
  exists w' r', set_skip_buddy w x = Ok w' /\ class_inv w' q b h l r' /\ curr r' = curr r /\ skip r' = x /\ entities w' = entities w.
Proof.
  intros HI (e&Ee&Ho). destruct (ci_tasks _ _ _ _ _ _ HI x e Ee) as [T1 T2 T3 T4 T5 T6 T7]. pose proof (ci_queue _ _ _ _ _ _ HI) as Hq.
  assert (Hx : x <> NULL) by (intros ->; by rewrite (inv_null HI) in Ee).
  assert (Hs : (size (entities w) <> 0)%nat) by (intros Hs; apply map_size_empty_inv in Hs; by rewrite Hs in Ee).
  unfold set_skip_buddy. destruct (size (entities w)) as [|n]; [done|]. cbn [set_buddy_loop andb]. rewrite (proj2 (Z.eqb_neq x NULL)) by done.
  rewrite (entity_ok _ _ _ Ee). cbn [res_bind]. rewrite T4, (queue_ok _ _ _ Hq), T3. cbn [res_bind]. rewrite Z.eqb_refl.
  eexists _, (set_buddy Skip r x). split; [done|]. split; [|done].
  pose proof HI as [_ HT Htk Hon Hcu Hwin Hmin Hnr Hwt Hinv Hbud Hsz Hrt HL1 HL2 HL3]. split; try done.
  - apply lookup_insert_eq.
  - eapply (timeline_ext w); [done|exact Hq|apply lookup_insert_eq|done|done|done|done].
  - intros y ey Hy. destruct (Htk y ey Hy). by split.
  - intros []; [apply (Hbud Last)|apply (Hbud Next)|right]. by exists e.
Qed.

Lemma yield_inv w q b h l r alone batch now d : class_inv w q b h l r -> is_queued w (curr r) ->
  elapsed w r now <= d < 2 ^ 50 -> h + 2048 * d < 2 ^ 62 ->
  exists w' r', yield_task_fair w q (curr r) alone batch now = Ok (w', false) /\ class_inv w' q b (h + 2048 * d) l r' /\ curr r' = curr r /\
    (alone = false -> skip r' = curr r).
Proof.
  intros HI (e&Ee&Ho) Hd Hh. pose proof (elapsed_nonneg w r now). unfold yield_task_fair. destruct alone.
  { exists w, r. split; [done|]. split; [eapply inv_weaken; [exact HI|lia]|done]. }
  assert (Hxn : curr r <> NULL) by (intros E0; by rewrite E0, (inv_null HI) in Ee).
  destruct (clear_buddies_ok (fun _ => 0%nat) w q r (curr r) e) as (w1&r1&E1&C1&Q1&_);
    [apply (inv_hierarchy HI)|apply HI|done|by apply (ci_tasks _ _ _ _ _ _ HI (curr r))|done|]. rewrite E1. cbn [res_bind].
  destruct (cleared_inv _ _ _ _ _ _ _ HI C1) as (r1'&Q1'&Hrc&HI1). rewrite Q1 in Q1'. injection Q1' as <-.
  destruct (rq_cleared_fields _ _ Hrc) as (_&_&_&_&_&Hcu1&_).
  assert (H2 : exists w2 r2, (if negb batch then update_curr w1 q now else Ok (w1, false)) = Ok (w2, false) /\
    class_inv w2 q b (h + 2048 * d) l r2 /\ curr r2 = curr r /\ is_queued w2 (curr r)).
  { assert (Hq1 : is_queued w1 (curr r)) by (exists e; by rewrite (cl_entities _ _ C1)). destruct batch; cbn [negb].
    - exists w1, r1. split; [done|]. split; [eapply inv_weaken; [exact HI1|lia]|done].
    - destruct (update_curr_inv w1 q b h l r1 now d HI1) as (w2&r2&E2&HI2&HC2&_); [unfold elapsed in *; by rewrite Hcu1, (cl_entities _ _ C1)|done|].
      exists w2, r2. split; [done|]. split; [done|]. destruct (ch_queue _ _ _ _ HC2) as [v ->]. split; [done|]. by apply (charged_queued _ _ _ _ _ HC2). }
  destruct H2 as (w2&r2&E2&HI2&Hcu2&Hq2). rewrite E2. cbn [res_bind].
  destruct (set_skip_inv w2 q b _ l r2 (curr r) HI2 Hq2) as (w3&r3&E3&HI3&Hcu3&Hs3&_). rewrite E3. cbn [res_bind].
  exists w3, r3. split; [done|]. split; [done|]. split; [congruence|done].
Qed.

(** ** The machine *)

Inductive class_op :=
  | Enqueue (x flags now : Z)
  | Dequeue (x flags now : Z)
  | Schedule (now : Z)
  | PutPrev (now : Z)
  | Tick (queued hrtick : bool) (now : Z)
  | Yield (alone batch : bool) (now : Z)
  | Reweight (x : Z) (prio : nat) (now : Z).

Definition run_class_op (w : world) (q : Z) (o : class_op) : res world :=
  r <-- queue w q;
  match o with
  | Enqueue x flags now => '(w, _) <-- enqueue_entity w q x flags now; Ok w
  | Dequeue x flags now => '(w, _) <-- dequeue_entity w q x flags now; Ok w
  | Schedule now => '(_, w, _) <-- pick_next_task_fair w q (curr r) now; Ok w
  | PutPrev now => '(w, _) <-- put_prev_entity w q (curr r) now; Ok w
  | Tick queued hrtick now => '(w, _) <-- entity_tick w q (curr r) queued hrtick now; Ok w
  | Yield alone batch now => '(w, _) <-- yield_task_fair w q (curr r) alone batch now; Ok w
  | Reweight x prio now => '(w, _) <-- reweight_task w q x prio now; Ok w
  end.

Definition op_now (o : class_op) : Z :=
  match o with Enqueue _ _ now | Dequeue _ _ now | Schedule now | PutPrev now | Tick _ _ now | Yield _ _ now | Reweight _ _ now => now end.

(** When the core scheduler calls an operation, with a clock at most [d] ahead of the last
    charge and an entering entity at most [c] beyond the window. *)
Definition allowed (w : world) (q b h d c : Z) (o : class_op) : Prop :=
  exists r, queues w !! q = Some r /\ elapsed w r (op_now o) <= d /\
  match o with
  | Enqueue x flags _ => exists e, entities w !! x = Some e /\ on_rq e = false /\ x <> curr r /\ enters b h c flags e
  | Dequeue x _ _ => is_queued w x
  | Schedule _ => exists x, is_queued w x
  | PutPrev _ => curr r <> NULL
  | Tick _ _ _ | Yield _ _ _ => is_queued w (curr r)
  | Reweight x prio _ => is_Some (entities w !! x) /\ (prio < 40)%nat
  end.

Definition good (w : world) (q b h : Z) : Prop := exists l r, class_inv w q b h l r.

Lemma class_op_ok w q b h d c o : good w q b h -> 0 <= c -> d < 2 ^ 50 -> h + 2048 * d + c < 2 ^ 62 -> allowed w q b h d c o ->
  exists w', run_class_op w q o = Ok w' /\ good w' q b (h + 2048 * d + c).
Proof.
  intros (l&r&HI) Hc Hd Hh (r0&Hr0&Hel&Ho). rewrite (ci_queue _ _ _ _ _ _ HI) in Hr0. injection Hr0 as <-.
  pose proof (elapsed_nonneg w r (op_now o)) as Hnn. assert (Hd2 : elapsed w r (op_now o) <= d < 2 ^ 50) by lia. assert (Hh2 : h + 2048 * d < 2 ^ 62) by lia.
  assert (Hweak : forall w' l' r', class_inv w' q b (h + 2048 * d) l' r' -> good w' q b (h + 2048 * d + c)).
  { intros w' l' r' HI'. exists l', r'. eapply inv_weaken; [exact HI'|lia]. }
  unfold run_class_op. rewrite (queue_ok _ _ _ (ci_queue _ _ _ _ _ _ HI)). cbn [res_bind]. destruct o as [x flags now|x flags now|now|now|qd hr now|al ba now|x prio now]; cbn [op_now] in *.
  - destruct Ho as (e&Ee&Hon&Hne&Hent). destruct (enqueue_inv w q b h l r x e flags now d c) as (w'&r'&l'&E1&HI'&_); try done.
    rewrite E1. cbn [res_bind]. exists w'. split; [done|]. by exists l', r'.
  - destruct (dequeue_inv w q b h l r x flags now d) as (w'&r'&l'&E1&HI'&_); try done. rewrite E1. cbn [res_bind]. eauto.
  - destruct (schedule_inv w q b h l r now d) as (se&w'&r'&l'&E1&HI'&_); try done. rewrite E1. cbn [res_bind]. eauto.
  - destruct (put_prev_inv w q b h l r now d) as (w'&r'&l'&E1&HI'&_); try done; [lia|]. rewrite E1. cbn [res_bind]. eauto.
  - destruct (tick_inv w q b h l r qd hr now d) as (w'&r'&rs&E1&HI'&_); try done. rewrite E1. cbn [res_bind]. eauto.
  - destruct (yield_inv w q b h l r al ba now d) as (w'&r'&E1&HI'&_); try done. rewrite E1. cbn [res_bind]. eauto.
  - destruct Ho as [[e Ee] Hp]. destruct (reweight_task_inv w q b h l r x e prio now d) as (w'&r'&E1&HI'&_); try done. rewrite E1. cbn [res_bind]. eauto.
Qed.

Inductive reaches (q b : Z) : world -> Z -> world -> Z -> Prop :=
  | reaches_refl w h : reaches q b w h w h
  | reaches_step w h w1 h1 w2 o d c : reaches q b w h w1 h1 -> 0 <= c -> d < 2 ^ 50 -> h1 + 2048 * d + c < 2 ^ 62 ->
      allowed w1 q b h1 d c o -> run_class_op w1 q o = Ok w2 -> reaches q b w h w2 (h1 + 2048 * d + c).

Lemma reaches_good q b w h w' h' : good w q b h -> reaches q b w h w' h' -> good w' q b h'.
Proof.
  intros HG HR. induction HR as [|w h w1 h1 w2 o d c HR IH Hc Hd Hh Ha Hrun]; [done|].
  destruct (class_op_ok w1 q b h1 d c o (IH HG) Hc Hd Hh Ha) as (w2'&E&HG2). rewrite E in Hrun. by injection Hrun as <-.
Qed.

(** A new queue and tasks that are not runnable. *)
Record fresh (w : world) (q : Z) (c : rq_runtime) : Prop := {
  fr_queue : queues w !! q = Some (init_cfs_rq c); fr_rt : runtime_enabled c = false;
  fr_tasks x e : entities w !! x = Some e -> task_ok w q x e /\ on_rq e = false;
  fr_size : Z.of_nat (size (entities w)) <= 16384;
  fr_latency : 0 <= sysctl_sched_latency (tun w) < 2 ^ 32;
  fr_min_gran : 0 <= sysctl_sched_min_granularity (tun w) < 2 ^ 31;
  fr_wakeup_gran : 0 <= sysctl_sched_wakeup_granularity (tun w) < 2 ^ 32 }.

(** The base: 2^33 before the clock of a new queue. *)
Definition base : Z := - 2 ^ 20 - 2 ^ 33.

Lemma fresh_good w q c : fresh w q c -> good w q base (2 ^ 33).
Proof.
  intros [Hq Hrt Htk Hsz HL1 HL2 HL3]. exists [], (init_cfs_rq c).
  assert (Hoff : forall x e, entities w !! x = Some e -> on_rq e = false) by (intros x e Hx; by apply (Htk x)).
  assert (Hz : forall F, (forall e, on_rq e = false -> F e = 0) -> sumq F (entities w) = 0).
  { intros F HF. pose proof (sumq_le F (entities w) 0) as G1. pose proof (sumq_nonneg_on F (entities w)) as G2. rewrite Z.mul_0_l in G1.
    assert (forall x e, entities w !! x = Some e -> F e = 0) by (intros x e Hx; by apply HF, (Hoff x)).
    apply Z.le_antisymm; [apply G1; [|lia]|apply G2]; intros x e Hx; by rewrite (H x e Hx). }
  split; try done.
  - exists (init_cfs_rq c), E. split; [done|]. split; [concrete_tree|]. split; [by exists 0%nat; constructor|].
    split; [done|]. split; [done|]. split; [constructor|constructor].
  - intros x e Hx. by apply (Htk x).
  - intros x e Hx. rewrite (Hoff x e Hx). split; [intros H; by apply not_elem_of_nil in H|by intros [? _]].
  - by left.
  - intros x e Hx. by rewrite (Hoff x e Hx).
  - symmetry. apply Hz. intros e He. unfold count. by rewrite He.
  - symmetry. apply Hz. intros e He. unfold weigh. by rewrite He.
  - by left.
  - intros []; by left.
Qed.

(** C5: the fair class never goes wrong.  From a new queue of tasks and for every order of
    enqueue, dequeue, schedule, put, tick, yield and renice that the core scheduler may ask
    for, with a clock that moves on by any bounded amount in between, as long as virtual
    times stay within 2^62 of where they started: the state keeps the invariant (the timeline is a red-black tree of exactly
    the runnable tasks other than the running one, by virtual time; nr_running and the load
    are the number and the weight of the runnable tasks; buddies are runnable; min_vruntime
    is within the window), and the next operation ends without a fault. *)
Theorem cfs_class_safe w q rtc w' h' : fresh w q rtc -> reaches q base w (2 ^ 33) w' h' ->
  (exists l r, class_inv w' q base h' l r) /\
  forall o d c, 0 <= c -> d < 2 ^ 50 -> h' + 2048 * d + c < 2 ^ 62 -> allowed w' q base h' d c o ->
    exists w'', run_class_op w' q o = Ok w'' /\ exists l r, class_inv w'' q base (h' + 2048 * d + c) l r.
Proof.
  intros HF HR. assert (HG : good w' q base h') by (eapply reaches_good; [by eapply fresh_good|exact HR]).
  split; [exact HG|]. intros o d c Hc Hd Hh Ha. by apply class_op_ok.
Qed.

(** C6: Scheduling.  With a runnable task, [pick_next_task_fair] charges the task that ran, puts it back, and hands the CPU
    to a runnable task whose virtual time, once the old one is charged, is not more than the wakeup granularity ahead of
    the furthest behind.  The state it leaves is given for every entity, up to the cached inverses of the weights: the task that
    ran, if it is still runnable, has the time since it was last charged in its sum, and that time weighed by its load in
    its virtual time; the chosen task, unless it ran already, has its clock started; nothing else is changed.  The timeline
    holds exactly the runnable tasks but the chosen one, so the task that ran is back in it, and the invariant of the class
    holds again with the chosen task as the running one.  The queue is one of tasks, without bandwidth control; the task that
    ran did so for less than 2^50 ns, and the virtual times lie in a window of 2^62. *)
Theorem pick_next_task_fair_correct w q b h l r now d : class_inv w q b h l r -> (exists x, is_queued w x) ->
  elapsed w r now <= d < 2 ^ 50 -> h + 2048 * d < 2 ^ 62 ->
  exists se w' r' l', pick_next_task_fair w q (curr r) now = Ok (se, w', false) /\
    class_inv w' q b (h + 2048 * d) l' r' /\ curr r' = se /\ is_queued w' se /\
    (forall y, strip <$> entities w' !! y = strip <$> handed (curr r) se now (settled w r now) !! y) /\
    (forall y, y ∈ l' <-> is_queued w y /\ y <> se) /\
    exists w1 r1, (is_queued w (curr r) -> update_curr w q now = Ok (w1, false)) /\ (~ is_queued w (curr r) -> w1 = w) /\ entities w1 = settled w r now /\
      class_inv w1 q b (h + 2048 * d) l r1 /\ curr r1 = curr r /\ fair_choice w1 r1 b l se.
Proof.
  intros HI Hx Hd Hh. destruct (schedule_inv w q b h l r now d HI Hx Hd Hh) as (se&w'&r'&l'&E1&HI'&Hcu&Hq&Hst&Hw1).
  exists se, w', r', l'. do 5 (split; [done|]). split; [by eapply picked_timeline|done].
Qed.

(** ** Witnesses *)

Definition idle_task (v : Z) : sched_entity := mk_se (mk_lw NICE_0_LOAD 4194304) false 0 0 v 0 NULL 1000 NULL false.
Definition no_control : rq_runtime := mk_rt false 0 false NULL.

(** A new queue and two tasks. *)
Definition new_world : world :=
  mk_world (nodes (mem_of E [8; 16])) {[ 8 := idle_task 0; 16 := idle_task 5000 ]} {[ 1000 := init_cfs_rq no_control ]} ∅
    initial_tunables (mk_features true true true).

Lemma new_world_fresh : fresh new_world 1000 no_control.
Proof.
  assert (Hl : forall n, load_ok (load (idle_task n))) by (intros n; split; [by vm_compute|by right]).
  split; [done|done| |by vm_compute|by vm_compute|by vm_compute|by vm_compute].
  intros x e Hx. cbn [entities new_world] in Hx. apply lookup_insert_Some in Hx as [[<- <-]|[_ Hx]];
    [|apply lookup_singleton_Some in Hx as [<- <-]]; (split; [|done]); split; try done; try (by vm_compute); apply elem_of_dom; by eexists.
Qed.

Definition after (w : world) (o : class_op) : world := match run_class_op w 1000 o with Ok w' => w' | Fault _ => w end.
Definition world1 : world := after new_world (Enqueue 8 0 100).
Definition world2 : world := after world1 (Schedule 200).

Lemma world1_reached : reaches 1000 base new_world (2 ^ 33) world1 (2 ^ 33).
Proof.
  change (2 ^ 33) with (2 ^ 33 + 2048 * 0 + 0) at 2.
  eapply (reaches_step 1000 base new_world (2 ^ 33) new_world _ world1 (Enqueue 8 0 100) 0 0); [constructor|lia|lia|lia| |by vm_compute].
  exists (init_cfs_rq no_control). split; [done|]. split; [by vm_compute|]. exists (idle_task 0). split; [done|]. split; [done|]. split; [done|]. by vm_compute.
Qed.

Lemma world1_queued : exists x, is_queued world1 x.
Proof.
  exists 8. assert (He : on_rq <$> entities world1 !! 8 = Some true) by (by vm_compute). destruct (entities world1 !! 8) as [e|] eqn:Ee; [|done].
  exists e. split; [done|]. by injection He.
Qed.

Lemma world1_idle r : queues world1 !! 1000 = Some r -> elapsed world1 r 200 = 0.
Proof.
  intros Hr. assert (Hc : curr <$> queues world1 !! 1000 = Some NULL) by (by vm_compute). rewrite Hr in Hc. injection Hc as Hc.
  unfold elapsed. rewrite Hc. by vm_compute.
Qed.

Lemma world2_reached : reaches 1000 base new_world (2 ^ 33) world2 (2 ^ 33).
Proof.
  change (2 ^ 33) with (2 ^ 33 + 2048 * 0 + 0) at 2.
  eapply (reaches_step 1000 base new_world (2 ^ 33) world1 _ world2 (Schedule 200) 0 0); [|lia|lia|lia| |by vm_compute].
  - exact world1_reached.
  - assert (Hr : is_Some (queues world1 !! 1000)) by (vm_compute; by eexists). destruct Hr as [r Hr]. exists r. split; [done|].
    split; [cbn [op_now]; by rewrite world1_idle|exact world1_queued].
Qed.

Lemma cfs_class_safe_witness :
  (exists l r, class_inv world2 1000 base (2 ^ 33) l r) /\
  forall o d c, 0 <= c -> d < 2 ^ 50 -> 2 ^ 33 + 2048 * d + c < 2 ^ 62 -> allowed world2 1000 base (2 ^ 33) d c o ->
    exists w'', run_class_op world2 1000 o = Ok w'' /\ exists l r, class_inv w'' 1000 base (2 ^ 33 + 2048 * d + c) l r.
Proof. apply (cfs_class_safe new_world 1000 no_control world2 (2 ^ 33)); [exact new_world_fresh|exact world2_reached]. Defined.

(** The second task arrives while the first one runs. *)
Definition world3 : world := after world2 (Enqueue 16 0 300).
Definition high3 : Z := 2 ^ 33 + 2048 * 128 + 2 ^ 20.

Lemma world3_reached : reaches 1000 base new_world (2 ^ 33) world3 high3.
Proof.
  eapply (reaches_step 1000 base new_world (2 ^ 33) world2 _ world3 (Enqueue 16 0 300) 128 (2 ^ 20)); [exact world2_reached|lia|lia|lia| |by vm_compute].
  assert (Hr : is_Some (queues world2 !! 1000)) by (vm_compute; by eexists). destruct Hr as [r Hr]. exists r. split; [done|].
  assert (Hr2 : queues world2 !! 1000 = Some r) by done. vm_compute in Hr2. injection Hr2 as <-. split; [by vm_compute|]. exists (idle_task 5000). split; [by vm_compute|].
  split; [done|]. split; [by vm_compute|]. by vm_compute.
Qed.

(** At 50 ms the first task is put back with the time it ran, and the second one runs. *)
Lemma pick_next_task_fair_correct_witness :
  exists l r w' r' l', class_inv world3 1000 base high3 l r /\ curr r = 8 /\
    pick_next_task_fair world3 1000 8 50000000 = Ok (16, w', false) /\ class_inv w' 1000 base (high3 + 2048 * 2 ^ 26) l' r' /\ curr r' = 16 /\ 8 ∈ l' /\
    (sum_exec_runtime <$> entities w' !! 8 = Some 49999800).
Proof.
  destruct (reaches_good _ _ _ _ _ _ (fresh_good _ _ _ new_world_fresh) world3_reached) as (l&r&HI). pose proof (ci_queue _ _ _ _ _ _ HI) as Hr.
  assert (Hc : curr <$> queues world3 !! 1000 = Some 8) by (by vm_compute). rewrite Hr in Hc. injection Hc as Hc.
  assert (He : (fun e => (on_rq e, s64 (u64 (50000000 - exec_start e)))) <$> entities world3 !! 8 = Some (true, 49999700)) by (vm_compute; reflexivity).
  destruct (entities world3 !! 8) as [e|] eqn:Ee; [|discriminate He]. injection He as Ho Ht. assert (Hx : is_queued world3 8) by (exists e; auto).
  destruct (pick_next_task_fair_correct world3 1000 base high3 l r 50000000 (2 ^ 26)) as (se&w'&r'&l'&E1&HI'&Hcu&_&_&Hl&_);
    [exact HI|exists 8; exact Hx|unfold elapsed; rewrite Hc, Ee, Ht; lia|unfold high3; lia|].
  assert (Ev : match pick_next_task_fair world3 1000 8 50000000 with Ok (s, w2, _) => Some (s, sum_exec_runtime <$> entities w2 !! 8) | Fault _ => None end
    = Some (16, Some 49999800)) by (vm_compute; reflexivity).
  rewrite Hc in E1. rewrite E1 in Ev. injection Ev as Ese Hs. rewrite Ese in E1, Hcu, Hl. exists l, r, w', r', l'. split; [exact HI|]. split; [exact Hc|]. split; [exact E1|].
  split; [exact HI'|]. split; [exact Hcu|]. split; [apply Hl; split; [exact Hx|lia]|exact Hs].
Defined.
