(* ===== verification/RtArray.v ===== *)
(** * The priority array of the real-time class (kernel/sched/rt.c, include/asm-generic/bitops/sched.h)

    One list per priority and a bitmap of the lists that are not empty, with a delimiter bit behind the last priority.
    The lists are those of ListHead.v, the bitmap that of Bitmap.v. *)

From stdpp Require Import gmap list.
From S2P Require Import Prelude Bitops Bitmap ListHead Cpumask Cpupri.
Local Open Scope Z_scope.
Local Open Scope res_scope.

(** [struct rt_prio_array] at the address [a]: two words of bitmap, then the heads of the lists. *)
Definition queue_at (a prio : Z) : Z := a + 16 + 16 * prio.

Definition sched_find_first_bit (b : list Z) : res Z :=
  w0 <-- get_word b 0; if negb (w0 =? 0) then Ok (__ffs w0) else w1 <-- get_word b 1; Ok (__ffs w1 + 64).

(** The loop of [init_rt_rq] over the priorities, and the delimiter. *)
Fixpoint init_queues (n : nat) (m : list_mem) (a i : Z) (bm : list Z) : res (list_mem * list Z) :=
  match n with
  | O => Ok (m, bm)
  | S n => m <-- INIT_LIST_HEAD m (queue_at a i); bm <-- clear_bit i bm; init_queues n m a (i + 1) bm
  end.
Definition init_array (m : list_mem) (a : Z) (bm : list Z) : res (list_mem * list Z) :=
  '(m, bm) <-- init_queues (Z.to_nat MAX_RT_PRIO) m a 0 bm; bm <-- set_bit MAX_RT_PRIO bm; Ok (m, bm).

(** The list and bitmap part of [__enqueue_rt_entity] and of [__delist_rt_entity]. *)
Definition array_enlist (m : list_mem) (a : Z) (bm : list Z) (run_list prio : Z) (head : bool) : res (list_mem * list Z) :=
  m <-- (if head then list_add m run_list (queue_at a prio) else list_add_tail m run_list (queue_at a prio));
  bm <-- set_bit prio bm; Ok (m, bm).

Definition array_delist (m : list_mem) (a : Z) (bm : list Z) (run_list prio : Z) : res (list_mem * list Z) :=
  m <-- list_del_init m run_list;
  e <-- list_empty m (queue_at a prio);
  bm <-- (if (e : bool) then clear_bit prio bm else Ok bm); Ok (m, bm).

(** ** The array holds its queues *)

(** The bitmap tells which of the queues [q] are not empty, and ends with the delimiter. *)
Record bits_ok (bm : list Z) (q : Z -> list Z) : Prop := {
  bk_map : bitmap bm 101; bk_len : length bm = 2%nat;
  bk_bit i : 0 <= i < MAX_RT_PRIO -> bit bm i = bool_decide (q i <> []);
  bk_end : bit bm MAX_RT_PRIO = true }.

Definition queues_at (L : gmap Z (list Z)) (a : Z) (q : Z -> list Z) : Prop := forall i, 0 <= i < MAX_RT_PRIO -> L !! queue_at a i = Some (q i).

Definition upd (q : Z -> list Z) (i : Z) (l : list Z) : Z -> list Z := fun j => if j =? i then l else q j.

Lemma queue_at_inj a i j : queue_at a i = queue_at a j -> i = j.
Proof. unfold queue_at. lia. Qed.

Lemma set_bit_ok bm n i : bitmap bm n -> 0 <= i < n -> exists bm', set_bit i bm = Ok bm' /\ bitmap bm' n /\ length bm' = length bm /\ forall j, 0 <= j -> bit bm' j = (j =? i) || bit bm j.
Proof.
  intros Hb Hi. destruct (update_bit_ok _ _ bm n i bitwise_or orb_false_r Hb Hi) as (bm' & E & B & K). exists bm'. unfold set_bit. rewrite E. split; [done|]. split; [done|].
  split; [by eapply update_bit_length|]. intros j Hj. rewrite K by done. destruct (j =? i); [apply orb_true_r|done].
Qed.

Lemma clear_bit_ok bm n i : bitmap bm n -> 0 <= i < n -> exists bm', clear_bit i bm = Ok bm' /\ bitmap bm' n /\ length bm' = length bm /\ forall j, 0 <= j -> bit bm' j = negb (j =? i) && bit bm j.
Proof.
  intros Hb Hi. destruct (update_bit_ok _ _ bm n i bitwise_clear ltac:(intros; apply andb_true_r) Hb Hi) as (bm' & E & B & K). exists bm'. unfold clear_bit. rewrite E. split; [done|]. split; [done|].
  split; [by eapply update_bit_length|]. intros j Hj. rewrite K by done. destruct (j =? i); [apply andb_false_r|done].
Qed.

(** A queue becomes non-empty, or changes without becoming empty. *)
Lemma bits_set bm q i l : bits_ok bm q -> 0 <= i < MAX_RT_PRIO -> l <> [] -> exists bm', set_bit i bm = Ok bm' /\ bits_ok bm' (upd q i l).
Proof.
  intros [B1 B2 B3 B4] Hi Hl. unfold MAX_RT_PRIO in *. destruct (set_bit_ok bm 101 i B1 ltac:(lia)) as (bm' & E & B & Ln & K). exists bm'. split; [done|]. split; [done|congruence| |].
  - intros j Hj. rewrite K by lia. unfold upd. destruct (Z.eqb_spec j i); cbn; [by rewrite bool_decide_eq_true_2|by apply B3].
  - unfold MAX_RT_PRIO. rewrite K, B4 by lia. apply orb_true_r.
Qed.

Lemma bits_upd bm q i l : bits_ok bm q -> l <> [] -> q i <> [] -> bits_ok bm (upd q i l).
Proof.
  intros [B1 B2 B3 B4] Hl Hq. split; [done|done| |done]. intros j Hj. rewrite B3 by done. unfold upd. destruct (Z.eqb_spec j i) as [->|]; [|done].
  by rewrite !bool_decide_eq_true_2.
Qed.

(** A queue becomes empty. *)
Lemma bits_clear bm q i : bits_ok bm q -> 0 <= i < MAX_RT_PRIO -> exists bm', clear_bit i bm = Ok bm' /\ bits_ok bm' (upd q i []).
Proof.
  intros [B1 B2 B3 B4] Hi. unfold MAX_RT_PRIO in *. destruct (clear_bit_ok bm 101 i B1 ltac:(lia)) as (bm' & E & B & Ln & K). exists bm'. split; [done|]. split; [done|congruence| |].
  - intros j Hj. rewrite K by lia. unfold upd. destruct (Z.eqb_spec j i); cbn; [done|by apply B3].
  - unfold MAX_RT_PRIO. rewrite K, B4 by lia. destruct (Z.eqb_spec 100 i); [lia|done].
Qed.

(** The search returns the most urgent queue that is not empty, or the delimiter. *)
Lemma first_bit_ok bm q : bits_ok bm q ->
  exists r, sched_find_first_bit bm = Ok r /\ 0 <= r <= MAX_RT_PRIO /\ (r < MAX_RT_PRIO -> q r <> []) /\ (forall i, 0 <= i < r -> q i = []).
Proof.
  intros [[B1 _] B2 B3 B4]. unfold sched_find_first_bit, MAX_RT_PRIO in *.
  assert (Hz : forall i, 0 <= i < 100 -> bit bm i = false -> q i = []).
  { intros i Hi Hb. rewrite B3 in Hb by lia. apply bool_decide_eq_false_1 in Hb. destruct (q i); [done|]. exfalso. by apply Hb. }
  destruct (get_word_ok bm 0 B1 ltac:(lia)) as (w0 & -> & W0 & K0). cbn [res_bind]. destruct (Z.eqb_spec w0 0) as [E0|E0]; cbn [negb].
  - destruct (get_word_ok bm 1 B1 ltac:(lia)) as (w1 & -> & W1 & K1). cbn [res_bind].
    assert (w1 <> 0). { intros E. rewrite E in K1. specialize (K1 36 ltac:(lia)). rewrite Z.bits_0 in K1. replace (64 * 1 + 36) with 100 in K1 by lia. congruence. }
    destruct (ffs_ok w1 W1 ltac:(done)) as [[F1 [F2 F3]] F4]. set (f := __ffs w1) in *.
    assert (Hle : f + 64 <= 100). { destruct (Z.le_gt_cases (f + 64) 100); [done|]. specialize (F3 36 ltac:(lia)). rewrite K1 in F3 by lia. replace (64 * 1 + 36) with 100 in F3 by lia. congruence. }
    exists (f + 64). split; [done|]. split; [lia|]. split.
    + intros Hlt. rewrite K1 in F2 by lia. replace (64 * 1 + f) with (f + 64) in F2 by lia. rewrite B3 in F2 by lia. by apply bool_decide_eq_true_1 in F2.
    + intros i Hi. apply Hz; [lia|]. destruct (Z.lt_ge_cases i 64).
      * specialize (K0 i ltac:(lia)). replace (64 * 0 + i) with i in K0 by lia. rewrite <- K0, E0. apply Z.bits_0.
      * specialize (K1 (i - 64) ltac:(lia)). replace (64 * 1 + (i - 64)) with i in K1 by lia. rewrite <- K1. apply F3. lia.
  - destruct (ffs_ok w0 W0 ltac:(done)) as [[F1 [F2 F3]] F4]. exists (__ffs w0). split; [done|]. split; [lia|]. split.
    + intros _. rewrite K0 in F2 by lia. replace (64 * 0 + __ffs w0) with (__ffs w0) in F2 by lia. rewrite B3 in F2 by lia. by apply bool_decide_eq_true_1 in F2.
    + intros i Hi. apply Hz; [lia|]. specialize (K0 i ltac:(lia)). replace (64 * 0 + i) with i in K0 by lia. rewrite <- K0. apply F3. lia.
Qed.

(** An entity that is on no list joins a queue. *)
Lemma enlist_ok {m L a bm q e i} (head : bool) : holds m L -> queues_at L a q -> bits_ok bm q -> 0 <= i < MAX_RT_PRIO -> L !! e = Some [] -> e <> queue_at a i ->
  let l := if head then e :: q i else q i ++ [e] in
  exists m' bm', array_enlist m a bm e i head = Ok (m', bm') /\ holds m' (<[queue_at a i := l]> (delete e L)) /\ bits_ok bm' (upd q i l).
Proof.
  intros H Hq Hb Hi He Hne. cbv zeta. destruct (alone H e He) as [Ha Hd]. unfold array_enlist.
  assert (HR : runs (if head then list_add m e (queue_at a i) else list_add_tail m e (queue_at a i)) m (<[queue_at a i := if head then e :: q i else q i ++ [e]]> (delete e L))).
  { destruct head; [apply (runs_add (A := allocated m) H); auto|apply (runs_add_tail (A := allocated m) H); auto]. }
  destruct HR as (m' & -> & H' & _). cbn [res_bind]. destruct (bits_set bm q i (if head then e :: q i else q i ++ [e]) Hb Hi) as (bm' & -> & Hb'); [destruct head; [done|by destruct (q i)]|].
  cbn [res_bind]. by exists m', bm'.
Qed.

(** An entity leaves its queue. *)
Lemma delist_ok {m L a bm q e i} l1 l2 : holds m L -> queues_at L a q -> bits_ok bm q -> 0 <= i < MAX_RT_PRIO -> q i = l1 ++ e :: l2 ->
  exists m' bm', array_delist m a bm e i = Ok (m', bm') /\ holds m' (<[e := []]> (<[queue_at a i := l1 ++ l2]> L)) /\ bits_ok bm' (upd q i (l1 ++ l2)).
Proof.
  intros H Hq Hb Hi Eq. pose proof (Hq i Hi) as HL. rewrite Eq in HL. destruct (runs_del_init H e (queue_at a i) l1 l2 HL) as (m' & E & H' & _).
  unfold array_delist. rewrite E. cbn [res_bind]. destruct (entry_not_head H e (queue_at a i) l1 l2 HL) as [_ Hne].
  rewrite (holds_empty H' (hd := queue_at a i) (l := l1 ++ l2)) by (by rewrite lookup_insert_ne, lookup_insert_eq). cbn [res_bind].
  destruct (l1 ++ l2) as [|z l] eqn:El.
  - rewrite bool_decide_eq_true_2 by done. destruct (bits_clear bm q i Hb Hi) as (bm' & -> & Hb'). cbn [res_bind]. by exists m', bm'.
  - rewrite bool_decide_eq_false_2 by done. cbn [res_bind]. exists m', bm. split; [done|]. split; [done|]. apply bits_upd; [done|done|]. rewrite Eq. by destruct l1.
Qed.
