(* ===== verification/RtBandwidth.v ===== *)
(** * Real-time bandwidth (kernel/sched/rt.c)

    Every CPU has a budget per period for the real-time tasks of a group.  A CPU that runs out borrows from the
    others; a CPU that goes away takes back what it lent.  The theorems say that no budget is lost or made up. *)

From stdpp Require Import gmap list.
From S2P Require Import Prelude Sums Math64.
Local Open Scope Z_scope.
Local Open Scope res_scope.

(** The budget side of a [struct rt_rq]. *)
Record rt_acct := mk_acct { rt_runtime : Z; rt_time : Z; rt_throttled : bool }.

(** [struct rt_bandwidth] of a task group, with the run queues [tg->rt_rq] of all CPUs. *)
Record rt_group := mk_group { rt_period : Z; rt_b_runtime : Z; rt_rqs : gmap Z rt_acct }.

Definition set_runtime (a : rt_acct) (v : Z) : rt_acct := mk_acct v (rt_time a) (rt_throttled a).
Definition set_time (a : rt_acct) (v : Z) : rt_acct := mk_acct (rt_runtime a) v (rt_throttled a).
Definition set_throttled (a : rt_acct) (v : bool) : rt_acct := mk_acct (rt_runtime a) (rt_time a) v.
Definition set_rqs (g : rt_group) (qs : gmap Z rt_acct) : rt_group := mk_group (rt_period g) (rt_b_runtime g) qs.

Definition get_acct (qs : gmap Z rt_acct) (cpu : Z) : res rt_acct := match qs !! cpu with Some a => Ok a | None => Fault OutOfBounds end.

(** ** Borrowing *)

(** The loop of [do_balance_runtime] over the CPUs of the root domain. *)
Fixpoint balance_loop (span : list Z) (me weight period : Z) (qs : gmap Z rt_acct) : res (gmap Z rt_acct) :=
  match span with
  | [] => Ok qs
  | i :: span =>
      if i =? me then balance_loop span me weight period qs
      else
        iter <-- get_acct qs i; mine <-- get_acct qs me;
        if rt_runtime iter =? RUNTIME_INF then balance_loop span me weight period qs
        else
          let diff := s64 (rt_runtime iter - rt_time iter) in
          if 0 <? diff then
            let diff := div_u64 diff weight in
            let diff := if period <? u64 (rt_runtime mine + diff) then s64 (period - rt_runtime mine) else diff in
            let qs := <[me := set_runtime mine (u64 (rt_runtime mine + diff))]> (<[i := set_runtime iter (u64 (rt_runtime iter - diff))]> qs) in
            if u64 (rt_runtime mine + diff) =? period then Ok qs else balance_loop span me weight period qs
          else balance_loop span me weight period qs
  end.

Definition do_balance_runtime (g : rt_group) (span : list Z) (me : Z) : res rt_group :=
  qs <-- balance_loop span me (Z.of_nat (length span)) (rt_period g) (rt_rqs g); Ok (set_rqs g qs).

(** The feature RT_RUNTIME_SHARE is on by default. *)
Definition balance_runtime (share : bool) (g : rt_group) (span : list Z) (me : Z) : res rt_group :=
  if negb share then Ok g else mine <-- get_acct (rt_rqs g) me; if rt_runtime mine <? rt_time mine then do_balance_runtime g span me else Ok g.

(** ** Going away and coming back *)

Fixpoint reclaim_loop (span : list Z) (me want : Z) (qs : gmap Z rt_acct) : res (Z * gmap Z rt_acct) :=
  match span with
  | [] => Ok (want, qs)
  | i :: span =>
      iter <-- get_acct qs i;
      if (i =? me) || (rt_runtime iter =? RUNTIME_INF) then reclaim_loop span me want qs
      else
        let diff := if 0 <? want then Z.min (s64 (rt_runtime iter)) want else want in
        let qs := <[i := set_runtime iter (u64 (rt_runtime iter - diff))]> qs in
        let want := s64 (want - diff) in
        if want =? 0 then Ok (want, qs) else reclaim_loop span me want qs
  end.

(** The body of [__disable_runtime] for one group; the run queue is then enqueued again. *)
Definition __disable_runtime (g : rt_group) (span : list Z) (me : Z) : res rt_group :=
  mine <-- get_acct (rt_rqs g) me;
  qs <-- (if (rt_runtime mine =? RUNTIME_INF) || (rt_runtime mine =? rt_b_runtime g) then Ok (rt_rqs g)
          else
            '(want, qs) <-- reclaim_loop span me (s64 (rt_b_runtime g - rt_runtime mine)) (rt_rqs g);
            if negb (want =? 0) then Fault BugOn else Ok qs);
  mine <-- get_acct qs me;
  Ok (set_rqs g (<[me := set_throttled (set_runtime mine RUNTIME_INF) false]> qs)).

Definition __enable_runtime (g : rt_group) (me : Z) : res rt_group :=
  mine <-- get_acct (rt_rqs g) me; Ok (set_rqs g (<[me := mk_acct (rt_b_runtime g) 0 false]> (rt_rqs g))).

(** ** Accounting *)

(** [rt_rq_throttled]: priority inheritance lifts a throttled queue. *)
Definition rt_rq_throttled (throttled : bool) (nr_boosted : Z) : bool := throttled && (nr_boosted =? 0).

(** [sched_rt_runtime_exceeded], up to the removal of the queue: what it returns and whether the queue is removed. *)
Definition runtime_exceeded (share : bool) (g : rt_group) (span : list Z) (me nr_boosted : Z) : res (bool * bool * rt_group) :=
  mine <-- get_acct (rt_rqs g) me;
  if rt_throttled mine then Ok (rt_rq_throttled (rt_throttled mine) nr_boosted, false, g)
  else if rt_period g <=? rt_runtime mine then Ok (false, false, g)
  else
    g <-- balance_runtime share g span me;
    mine <-- get_acct (rt_rqs g) me;
    if rt_runtime mine =? RUNTIME_INF then Ok (false, false, g)
    else if rt_runtime mine <? rt_time mine then
      let mine := if negb (rt_b_runtime g =? 0) then set_throttled mine true else set_time mine 0 in
      let g := set_rqs g (<[me := mine]> (rt_rqs g)) in
      if rt_rq_throttled (rt_throttled mine) nr_boosted then Ok (true, true, g) else Ok (false, false, g)
    else Ok (false, false, g).

(** The charge of [update_curr_rt] to one run queue. *)
Definition charge_rt (share : bool) (g : rt_group) (span : list Z) (me nr_boosted delta : Z) : res (bool * bool * rt_group) :=
  mine <-- get_acct (rt_rqs g) me;
  if rt_runtime mine =? RUNTIME_INF then Ok (false, false, g)
  else runtime_exceeded share (set_rqs g (<[me := set_time mine (u64 (rt_time mine + delta))]> (rt_rqs g))) span me nr_boosted.

(** One CPU of [do_sched_rt_period_timer]: the new budget, whether the queue is enqueued, and whether it is idle. *)
Definition period_timer_cpu (share : bool) (g : rt_group) (span : list Z) (me overrun nr_running nr_boosted : Z) : res (rt_group * bool * bool) :=
  mine <-- get_acct (rt_rqs g) me;
  let mine := if negb share && negb (rt_runtime mine =? RUNTIME_INF) then set_runtime mine (rt_b_runtime g) else mine in
  let g := set_rqs g (<[me := mine]> (rt_rqs g)) in
  if (rt_time mine =? 0) && (nr_running =? 0) then Ok (g, false, true)
  else if negb (rt_time mine =? 0) then
    g <-- (if rt_throttled mine then balance_runtime share g span me else Ok g);
    mine <-- get_acct (rt_rqs g) me;
    let runtime := rt_runtime mine in
    let mine := set_time mine (rt_time mine - Z.min (rt_time mine) (u64 (overrun * runtime))) in
    let enqueue := rt_throttled mine && (rt_time mine <? runtime) in
    let mine := if enqueue then set_throttled mine false else mine in
    Ok (set_rqs g (<[me := mine]> (rt_rqs g)), enqueue, (rt_time mine =? 0) && (nr_running =? 0))
  else Ok (g, negb (rt_rq_throttled (rt_throttled mine) nr_boosted), false).

(** The last part of [tg_set_rt_bandwidth], for parameters the checks accepted. *)
Definition set_rt_bandwidth (g : rt_group) (period runtime : Z) : rt_group := mk_group period runtime ((fun a => set_runtime a runtime) <$> rt_rqs g).

(** ** No budget is lost *)

(** The budget of a CPU above its share [B]; a disabled CPU has none. *)
Definition surplus (B : Z) (a : rt_acct) : Z := if rt_runtime a =? RUNTIME_INF then 0 else rt_runtime a - B.
Definition surplus_at (B : Z) (qs : gmap Z rt_acct) (i : Z) : Z := match qs !! i with Some a => surplus B a | None => 0 end.
Fixpoint excess (B : Z) (qs : gmap Z rt_acct) (span : list Z) : Z := match span with i :: span => surplus_at B qs i + excess B qs span | [] => 0 end.

Lemma excess_other B qs span i a : i ∉ span -> excess B (<[i := a]> qs) span = excess B qs span.
Proof.
  intros Hi. induction span as [|j span IH]; [done|]. rewrite elem_of_cons in Hi. cbn. rewrite IH by tauto. unfold surplus_at. rewrite lookup_insert_ne; [done|]. intros ->. tauto.
Qed.

Lemma excess_update B qs span i a a' : NoDup span -> i ∈ span -> qs !! i = Some a -> excess B (<[i := a']> qs) span = excess B qs span - surplus B a + surplus B a'.
Proof.
  intros HN Hi Ha. induction span as [|j span IH]; [by apply elem_of_nil in Hi|]. apply NoDup_cons in HN as [Hj HN]. cbn. apply elem_of_cons in Hi as [->|Hi].
  - rewrite excess_other by done. unfold surplus_at. rewrite lookup_insert_eq, Ha. lia.
  - rewrite IH by done. unfold surplus_at. rewrite lookup_insert_ne by (by intros ->). lia.
Qed.

(** The budgets, times and shares are in range: no 64-bit operation of the code wraps. *)
Record budgets (span : list Z) (B period : Z) (qs : gmap Z rt_acct) : Prop := {
  bd_nodup : NoDup span;
  bd_in i : i ∈ span -> is_Some (qs !! i);
  bd_period : 0 <= B <= period;
  bd_small : Z.of_nat (length span) * period < 2 ^ 62;
  bd_run i a : i ∈ span -> qs !! i = Some a -> rt_runtime a <> RUNTIME_INF -> 0 <= rt_runtime a;
  bd_time i a : qs !! i = Some a -> 0 <= rt_time a < 2 ^ 63 }.

Section Budgets.
Context {span : list Z} {B period : Z}.

Lemma surplus_ge qs i : budgets span B period qs -> i ∈ span -> - B <= surplus_at B qs i.
Proof.
  intros Hb Hi. destruct (bd_in _ _ _ _ Hb i Hi) as [a Ha]. pose proof (bd_period _ _ _ _ Hb). unfold surplus_at, surplus. rewrite Ha. destruct (Z.eqb_spec (rt_runtime a) RUNTIME_INF); [lia|].
  pose proof (bd_run _ _ _ _ Hb i a Hi Ha). lia.
Qed.

Lemma excess_ge qs l : (forall i, i ∈ l -> - B <= surplus_at B qs i) -> - (Z.of_nat (length l) * B) <= excess B qs l.
Proof.
  induction l as [|i l IH]; intros Hl; [done|]. cbn [excess length]. pose proof (Hl i ltac:(apply elem_of_cons; auto)).
  pose proof (IH ltac:(intros j Hj; apply Hl, elem_of_cons; auto)). lia.
Qed.

(** Nobody has more than everything. *)
Lemma run_bound qs i a : budgets span B period qs -> excess B qs span <= 0 -> i ∈ span -> qs !! i = Some a -> rt_runtime a <> RUNTIME_INF -> 0 <= rt_runtime a < 2 ^ 62.
Proof.
  intros Hb He Hi Ha Hr. pose proof (bd_period _ _ _ _ Hb). split; [by eapply (bd_run _ _ _ _ Hb)|]. pose proof (bd_small _ _ _ _ Hb) as Hsm.
  apply list_elem_of_split in Hi as (l1 & l2 & E). assert (He' : excess B qs span = excess B qs l1 + (surplus_at B qs i + excess B qs l2)) by (rewrite E; clear; induction l1 as [|j l1 IH]; cbn in *; lia).
  assert (G : forall l, (forall j, j ∈ l -> j ∈ span) -> - (Z.of_nat (length l) * B) <= excess B qs l) by (intros l Hl; apply excess_ge; intros j Hj; apply surplus_ge; auto).
  pose proof (G l1 ltac:(intros j Hj; rewrite E; apply elem_of_app; auto)). pose proof (G l2 ltac:(intros j Hj; rewrite E; apply elem_of_app; right; apply elem_of_cons; auto)).
  assert (Hs : surplus_at B qs i = rt_runtime a - B) by (unfold surplus_at, surplus; rewrite Ha; by destruct (Z.eqb_spec (rt_runtime a) RUNTIME_INF)).
  rewrite E, length_app in Hsm. cbn [length] in Hsm. nia.
Qed.

(** One budget is rewritten. *)
Lemma budgets_put qs i a a' : budgets span B period qs -> qs !! i = Some a -> (rt_runtime a' <> RUNTIME_INF -> 0 <= rt_runtime a') -> 0 <= rt_time a' < 2 ^ 63 -> budgets span B period (<[i := a']> qs).
Proof.
  intros [H1 H2 H3 H4 H5 H6] Ha Hr Ht. split; try done.
  - intros j Hj. rewrite lookup_insert_is_Some'. auto.
  - intros j b Hj Hb. apply lookup_insert_Some in Hb as [[<- <-]|[_ Hb]]; [done|by eapply H5].
  - intros j b Hb. apply lookup_insert_Some in Hb as [[<- <-]|[_ Hb]]; [done|by eapply H6].
Qed.

(** Some budget moves between two CPUs. *)
Lemma transfer qs i me iter mine d : budgets span B period qs -> i ∈ span -> me ∈ span -> i <> me -> qs !! i = Some iter -> qs !! me = Some mine ->
  rt_runtime iter <> RUNTIME_INF -> rt_runtime mine <> RUNTIME_INF -> 0 <= rt_runtime iter - d < 2 ^ 63 -> 0 <= rt_runtime mine + d < 2 ^ 63 ->
  let qs' := <[me := set_runtime mine (u64 (rt_runtime mine + d))]> (<[i := set_runtime iter (u64 (rt_runtime iter - d))]> qs) in
  budgets span B period qs' /\ excess B qs' span = excess B qs span /\ qs' !! me = Some (set_runtime mine (rt_runtime mine + d)).
Proof.
  intros Hb Hi Hme Hne Ei Em Ri Rm Hd1 Hd2. cbv zeta. rewrite !u64_small by lia.
  assert (HE : RUNTIME_INF = 18446744073709551615) by done. assert (Em' : <[i := set_runtime iter (rt_runtime iter - d)]> qs !! me = Some mine) by (by rewrite lookup_insert_ne).
  split; [|split].
  - apply (budgets_put _ me mine); [apply (budgets_put _ i iter); [done|done|cbn; lia|apply (bd_time _ _ _ _ Hb i iter Ei)]|done|cbn; lia|apply (bd_time _ _ _ _ Hb me mine Em)].
  - rewrite (excess_update _ _ _ _ mine) by (done || apply (bd_nodup _ _ _ _ Hb)). rewrite (excess_update _ _ _ _ iter) by (done || apply (bd_nodup _ _ _ _ Hb)).
    unfold surplus. cbn [rt_runtime set_runtime]. rewrite !(proj2 (Z.eqb_neq _ _)) by lia. lia.
  - apply lookup_insert_eq.
Qed.

(** A CPU that borrows gets what the others lose. *)
Lemma balance_loop_ok me l qs mine : (forall i, i ∈ l -> i ∈ span) -> budgets span B period qs -> excess B qs span = 0 -> me ∈ span -> qs !! me = Some mine -> rt_runtime mine <> RUNTIME_INF ->
  exists qs' mine', balance_loop l me (Z.of_nat (length span)) period qs = Ok qs' /\ budgets span B period qs' /\ excess B qs' span = 0 /\ qs' !! me = Some mine' /\ rt_runtime mine' <> RUNTIME_INF /\ rt_time mine' = rt_time mine /\ rt_throttled mine' = rt_throttled mine.
Proof.
  revert qs mine. induction l as [|i l IH]; intros qs mine Hl Hb He Hme Em Rm; [exists qs, mine; done|].
  assert (Hl' : forall j, j ∈ l -> j ∈ span) by (intros j Hj; apply Hl, elem_of_cons; auto). assert (Hi : i ∈ span) by (apply Hl, elem_of_cons; auto).
  cbn [balance_loop]. destruct (Z.eqb_spec i me) as [->|Hne]; [by apply (IH qs mine)|].
  destruct (bd_in _ _ _ _ Hb i Hi) as [iter Ei]. unfold get_acct. rewrite Ei, Em. cbn [res_bind].
  destruct (Z.eqb_spec (rt_runtime iter) RUNTIME_INF) as [Ri|Ri]; [by apply (IH qs mine)|].
  pose proof (run_bound qs i iter Hb ltac:(lia) Hi Ei Ri) as Bi. pose proof (run_bound qs me mine Hb ltac:(lia) Hme Em Rm) as Bm. pose proof (bd_time _ _ _ _ Hb i iter Ei) as Ti.
  rewrite s64_small by lia. destruct (Z.ltb_spec 0 (rt_runtime iter - rt_time iter)) as [Hd|Hd]; [|by apply (IH qs mine)].
  set (d0 := div_u64 _ _). assert (Hd0 : 0 <= d0 <= rt_runtime iter).
  { unfold d0, div_u64, div_u64_rem. cbn [fst]. assert (Hlen : 1 <= Z.of_nat (length span)) by (destruct span; [by apply elem_of_nil in Hi|cbn; lia]).
    split; [apply Z.div_pos; lia|]. apply Z.div_le_upper_bound; [lia|]. nia. }
  pose proof (bd_period _ _ _ _ Hb) as HP. pose proof (bd_small _ _ _ _ Hb) as HS. assert (Hper : period < 2 ^ 62) by (destruct span; [by apply elem_of_nil in Hi|cbn [length] in HS; nia]).
  rewrite (u64_small (rt_runtime mine + d0)) by lia. set (d := if period <? rt_runtime mine + d0 then _ else d0).
  assert (Hdd : d <= d0 /\ 0 <= rt_runtime mine + d < 2 ^ 63 /\ 0 <= rt_runtime iter - d < 2 ^ 63).
  { unfold d. destruct (Z.ltb_spec period (rt_runtime mine + d0)); [rewrite s64_small by lia|]; lia. }
  destruct (transfer qs i me iter mine d Hb Hi Hme Hne Ei Em Ri Rm ltac:(lia) ltac:(lia)) as (Hb' & He' & Em').
  assert (Rm' : rt_runtime (set_runtime mine (rt_runtime mine + d)) <> RUNTIME_INF) by (change RUNTIME_INF with 18446744073709551615; cbn [rt_runtime set_runtime]; lia).
  destruct (_ =? period).
  - eexists _, _. split; [done|]. split; [done|]. split; [lia|]. split; [exact Em'|]. done.
  - destruct (IH _ _ Hl' Hb' ltac:(lia) Hme Em' Rm') as (qs' & mine' & E & R). exists qs', mine'. done.
Qed.

(** What the CPUs other than [me] have. *)
Fixpoint available (me : Z) (qs : gmap Z rt_acct) (l : list Z) : Z :=
  match l with
  | i :: l => (match qs !! i with Some a => if (i =? me) || (rt_runtime a =? RUNTIME_INF) then 0 else rt_runtime a | None => 0 end) + available me qs l
  | [] => 0
  end.

Lemma available_other me qs l i a : i ∉ l -> available me (<[i := a]> qs) l = available me qs l.
Proof. intros Hi. induction l as [|j l IH]; [done|]. rewrite elem_of_cons in Hi. cbn. rewrite IH by tauto. rewrite lookup_insert_ne; [done|]. intros ->. tauto. Qed.

(** One CPU other than [me] gives [d] (takes it, when negative). *)
Lemma give qs i me iter d : budgets span B period qs -> i ∈ span -> i <> me -> qs !! i = Some iter -> rt_runtime iter <> RUNTIME_INF -> 0 <= rt_runtime iter - d < 2 ^ 63 ->
  let qs' := <[i := set_runtime iter (u64 (rt_runtime iter - d))]> qs in
  budgets span B period qs' /\ excess B qs' span = excess B qs span - d /\ qs' !! me = qs !! me.
Proof.
  intros Hb Hi Hne Ei Ri Hd. cbv zeta. rewrite u64_small by lia. change RUNTIME_INF with 18446744073709551615 in Ri. split; [|split].
  - apply (budgets_put _ i iter); [done|done|cbn; lia|apply (bd_time _ _ _ _ Hb i iter Ei)].
  - rewrite (excess_update _ _ _ _ iter) by (done || apply (bd_nodup _ _ _ _ Hb)). unfold surplus. change RUNTIME_INF with 18446744073709551615. cbn [rt_runtime set_runtime]. rewrite !(proj2 (Z.eqb_neq _ _)) by lia. lia.
  - by rewrite lookup_insert_ne.
Qed.

(** A CPU that wants its budget back gets all of it. *)
Lemma reclaim_ok me l qs want : NoDup l -> (forall i, i ∈ l -> i ∈ span) -> budgets span B period qs -> (forall i a, i ∈ span -> qs !! i = Some a -> rt_runtime a <> RUNTIME_INF -> rt_runtime a < 2 ^ 62) ->
  0 < want < 2 ^ 62 -> want <= available me qs l ->
  exists qs', reclaim_loop l me want qs = Ok (0, qs') /\ budgets span B period qs' /\ excess B qs' span = excess B qs span - want /\ qs' !! me = qs !! me.
Proof.
  revert qs want. induction l as [|i l IH]; intros qs want HN Hl Hb Hbd Hw Ha; [cbn in Ha; lia|]. apply NoDup_cons in HN as [Hil HN].
  assert (Hl' : forall j, j ∈ l -> j ∈ span) by (intros j Hj; apply Hl, elem_of_cons; auto). assert (Hi : i ∈ span) by (apply Hl, elem_of_cons; auto).
  destruct (bd_in _ _ _ _ Hb i Hi) as [iter Ei]. cbn [reclaim_loop available] in *. unfold get_acct. rewrite Ei in Ha |- *. cbn [res_bind].
  destruct ((i =? me) || (rt_runtime iter =? RUNTIME_INF)) eqn:E; [by apply IH|]. apply orb_false_iff in E as [E1 E2]. apply Z.eqb_neq in E1, E2.
  pose proof (bd_run _ _ _ _ Hb i iter Hi Ei E2) as R0. pose proof (Hbd i iter Hi Ei E2) as R1. rewrite (proj2 (Z.ltb_lt 0 want)) by lia. rewrite (s64_small (rt_runtime iter)) by lia.
  set (d := Z.min _ want). assert (Hd : 0 <= d <= rt_runtime iter /\ d <= want) by (unfold d; lia). rewrite (s64_small (want - d)) by lia.
  destruct (give qs i me iter d Hb Hi E1 Ei E2 ltac:(lia)) as (Hb' & He' & Em'). destruct (Z.eqb_spec (want - d) 0) as [E0|E0].
  - eexists. split; [by rewrite E0|]. split; [done|]. split; [lia|done].
  - destruct (IH (<[i := set_runtime iter (u64 (rt_runtime iter - d))]> qs) (want - d)) as (qs' & E & R & S & T); [done|done|done| |lia| |].
    + intros j a Hj Hja Hjr. apply lookup_insert_Some in Hja as [[<- <-]|[_ Hja]]; [|by eapply Hbd]. cbn [rt_runtime set_runtime]. rewrite u64_small; lia.
    + rewrite available_other by done. unfold d in *. lia.
    + exists qs'. split; [done|]. split; [done|]. split; [lia|congruence].
Qed.

(** A CPU that has too much hands it to the first CPU it finds. *)
Lemma give_back_ok me l qs want : (forall i, i ∈ l -> i ∈ span) -> budgets span B period qs -> (forall i a, i ∈ span -> qs !! i = Some a -> rt_runtime a <> RUNTIME_INF -> rt_runtime a < 2 ^ 62) ->
  - 2 ^ 62 < want < 0 -> (exists i a, i ∈ l /\ i <> me /\ qs !! i = Some a /\ rt_runtime a <> RUNTIME_INF) ->
  exists qs', reclaim_loop l me want qs = Ok (0, qs') /\ budgets span B period qs' /\ excess B qs' span = excess B qs span - want /\ qs' !! me = qs !! me.
Proof.
  intros Hl Hb Hbd Hw Hex. induction l as [|i l IH]; [destruct Hex as (i & a & Hi & _); by apply elem_of_nil in Hi|].
  assert (Hi : i ∈ span) by (apply Hl, elem_of_cons; auto). destruct (bd_in _ _ _ _ Hb i Hi) as [iter Ei]. cbn [reclaim_loop]. unfold get_acct. rewrite Ei. cbn [res_bind].
  destruct ((i =? me) || (rt_runtime iter =? RUNTIME_INF)) eqn:E.
  - apply IH; [intros j Hj; apply Hl, elem_of_cons; auto|]. destruct Hex as (j & a & Hj & Hne & Hja & Hjr). exists j, a. split; [|done].
    apply elem_of_cons in Hj as [->|Hj]; [|done]. rewrite Ei in Hja. injection Hja as ->. apply orb_true_iff in E as [E|E]; by apply Z.eqb_eq in E.
  - apply orb_false_iff in E as [E1 E2]. apply Z.eqb_neq in E1, E2. pose proof (bd_run _ _ _ _ Hb i iter Hi Ei E2) as R0. pose proof (Hbd i iter Hi Ei E2) as R1.
    rewrite (proj2 (Z.ltb_ge 0 want)) by lia. rewrite Z.sub_diag. destruct (give qs i me iter want Hb Hi E1 Ei E2 ltac:(lia)) as (Hb' & He' & Em').
    eexists. split; [done|]. done.
Qed.

(** The surplus of one CPU is the deficit of the others. *)
Lemma excess_available me qs mine l : me ∈ l -> NoDup l -> (forall i, i ∈ l -> is_Some (qs !! i)) -> qs !! me = Some mine -> rt_runtime mine <> RUNTIME_INF -> 0 <= B -> excess B qs l = 0 ->
  B - rt_runtime mine <= available me qs l /\
  (rt_runtime mine <> B -> exists i a, i ∈ l /\ i <> me /\ qs !! i = Some a /\ rt_runtime a <> RUNTIME_INF).
Proof.
  intros Hme HN Hin Em Rm HB He.
  assert (G : forall k, me ∉ k -> (forall i, i ∈ k -> is_Some (qs !! i)) ->
     excess B qs k <= available me qs k /\ (excess B qs k <> 0 -> exists i a, i ∈ k /\ i <> me /\ qs !! i = Some a /\ rt_runtime a <> RUNTIME_INF)).
  { induction k as [|i k IH]; intros Hk Hink; [cbn; split; [lia|done]|]. rewrite elem_of_cons in Hk. destruct (Hink i ltac:(apply elem_of_cons; auto)) as [a Ha].
    destruct IH as [I1 I2]; [tauto|intros j Hj; apply Hink, elem_of_cons; auto|]. cbn [excess available]. unfold surplus_at, surplus. rewrite Ha.
    assert (Hne : i <> me) by (intros ->; tauto). rewrite (proj2 (Z.eqb_neq i me)) by done. cbn [orb]. destruct (Z.eqb_spec (rt_runtime a) RUNTIME_INF).
    - split; [lia|]. intros Hx. destruct I2 as (j & b & Hj & R); [lia|]. exists j, b. split; [apply elem_of_cons; auto|done].
    - split; [lia|]. intros _. exists i, a. split; [apply elem_of_cons; auto|done]. }
  apply list_elem_of_split in Hme as (l1 & l2 & E). rewrite E in HN. apply NoDup_app in HN as (N1 & N2 & N3). apply NoDup_cons in N3 as [N3 _].
  assert (H1 : me ∉ l1) by (intros Hc; apply (N2 me Hc), elem_of_cons; auto).
  destruct (G l1 H1) as [A1 A2]; [intros i Hi; apply Hin; rewrite E; apply elem_of_app; auto|]. destruct (G l2 N3) as [B1 B2]; [intros i Hi; apply Hin; rewrite E; apply elem_of_app; right; apply elem_of_cons; auto|].
  assert (Es : surplus_at B qs me = rt_runtime mine - B) by (unfold surplus_at, surplus; rewrite Em; by destruct (Z.eqb_spec (rt_runtime mine) RUNTIME_INF)).
  assert (Ex : excess B qs l = excess B qs l1 + (surplus_at B qs me + excess B qs l2)) by (rewrite E; clear; induction l1 as [|j k IH]; cbn in *; lia).
  assert (Av : available me qs l = available me qs l1 + available me qs l2).
  { rewrite E. clear -Em. induction l1 as [|j k IH]; cbn in *; [rewrite Em, Z.eqb_refl; cbn; lia|lia]. }
  split; [lia|]. intros Hne. destruct (Z.eq_dec (excess B qs l1) 0) as [E0|E0].
  - destruct B2 as (i & a & Hi & R); [lia|]. exists i, a. split; [rewrite E; apply elem_of_app; right; apply elem_of_cons; auto|done].
  - destruct A2 as (i & a & Hi & R); [done|]. exists i, a. split; [rewrite E; apply elem_of_app; auto|done].
Qed.
End Budgets.

(** The CPUs of [span] that are not disabled have, together, exactly their shares. *)
Definition fair_shares (span : list Z) (g : rt_group) : Prop := budgets span (rt_b_runtime g) (rt_period g) (rt_rqs g) /\ excess (rt_b_runtime g) (rt_rqs g) span = 0.

Inductive rt_op := RtBalance (cpu : Z) | RtDisable (cpu : Z) | RtEnable (cpu : Z) | RtCharge (cpu nr_boosted delta : Z) | RtPeriod (cpu overrun nr_running nr_boosted : Z) | RtSet (period runtime : Z).

Definition run_rt (span : list Z) (g : rt_group) (o : rt_op) : res rt_group :=
  match o with
  | RtBalance cpu => balance_runtime true g span cpu
  | RtDisable cpu => __disable_runtime g span cpu
  | RtEnable cpu => __enable_runtime g cpu
  | RtCharge cpu nr_boosted delta => '(_, _, g) <-- charge_rt true g span cpu nr_boosted delta; Ok g
  | RtPeriod cpu overrun nr_running nr_boosted => '(g, _, _) <-- period_timer_cpu true g span cpu overrun nr_running nr_boosted; Ok g
  | RtSet period runtime => Ok (set_rt_bandwidth g period runtime)
  end.

(** The CPUs that are away. *)
Definition away_after (away : gset Z) (o : rt_op) : gset Z :=
  match o with RtDisable cpu => {[cpu]} ∪ away | RtEnable cpu => away ∖ {[cpu]} | _ => away end.

(** When an operation may be used: a CPU is brought back when it is away (or has exactly its share, as at boot); the
    budget, which fits its period, is changed while no CPU is away; the time to be charged stays below 292 years. *)
Definition rt_op_ok (span : list Z) (away : gset Z) (g : rt_group) (o : rt_op) : Prop :=
  match o with
  | RtBalance cpu | RtDisable cpu | RtPeriod cpu _ _ _ => cpu ∈ span
  | RtEnable cpu => cpu ∈ span /\ (cpu ∈ away \/ exists a, rt_rqs g !! cpu = Some a /\ rt_runtime a = rt_b_runtime g)
  | RtCharge cpu _ delta => cpu ∈ span /\ 0 <= delta /\ forall a, rt_rqs g !! cpu = Some a -> rt_time a + delta < 2 ^ 63
  | RtSet period runtime => away = ∅ /\ 0 <= runtime <= period /\ Z.of_nat (length span) * period < 2 ^ 62
  end.

Section Shares.
Context {span : list Z} {g : rt_group} (H : fair_shares span g).

Lemma balance_ok me : me ∈ span -> exists g', balance_runtime true g span me = Ok g' /\ fair_shares span g' /\ rt_period g' = rt_period g /\ rt_b_runtime g' = rt_b_runtime g.
Proof.
  intros Hme. destruct H as [Hb He]. unfold balance_runtime. cbn [negb]. destruct (bd_in _ _ _ _ Hb me Hme) as [mine Em]. unfold get_acct at 1. rewrite Em. cbn [res_bind].
  destruct (Z.ltb_spec (rt_runtime mine) (rt_time mine)) as [Hlt|Hlt]; [|by exists g]. pose proof (bd_time _ _ _ _ Hb me mine Em).
  assert (Rm : rt_runtime mine <> RUNTIME_INF) by (change RUNTIME_INF with 18446744073709551615; lia).
  destruct (balance_loop_ok me span (rt_rqs g) mine (fun _ Hi => Hi) Hb He Hme Em Rm) as (qs' & mine' & E & Hb' & He' & _). unfold do_balance_runtime. rewrite E. cbn [res_bind]. by eexists.
Qed.

(** A change of one budget's time and flag only. *)
Lemma shares_put me a a' : rt_rqs g !! me = Some a -> rt_runtime a' = rt_runtime a -> 0 <= rt_time a' < 2 ^ 63 -> fair_shares span (set_rqs g (<[me := a']> (rt_rqs g))).
Proof.
  destruct H as [Hb He]. intros Ea Er Ht. split; cbn [rt_b_runtime rt_period rt_rqs set_rqs].
  - destruct (decide (me ∈ span)) as [Hme|Hme].
    + apply (budgets_put _ me a); [done|done| |done]. rewrite Er. by apply (bd_run _ _ _ _ Hb me).
    + destruct Hb as [H1 H2 H3 H4 H5 H6]. split; try done.
      * intros j Hj. rewrite lookup_insert_is_Some'. auto.
      * intros j b Hj Hb. apply lookup_insert_Some in Hb as [[<- <-]|[_ Hb]]; [done|by eapply H5].
      * intros j b Hb. apply lookup_insert_Some in Hb as [[<- <-]|[_ Hb]]; [done|by eapply H6].
  - destruct (decide (me ∈ span)) as [Hme|Hme]; [|by rewrite excess_other].
    rewrite (excess_update _ _ _ _ a) by (done || apply (bd_nodup _ _ _ _ Hb)). unfold surplus. rewrite Er. lia.
Qed.

Lemma disable_ok me : me ∈ span -> exists g', __disable_runtime g span me = Ok g' /\ fair_shares span g'.
Proof.
  intros Hme. destruct H as [Hb He]. unfold __disable_runtime. destruct (bd_in _ _ _ _ Hb me Hme) as [mine Em]. unfold get_acct at 1. rewrite Em. cbn [res_bind].
  set (B := rt_b_runtime g) in *. pose proof (bd_time _ _ _ _ Hb me mine Em) as Tm.
  assert (Goal : forall qs c, budgets span B (rt_period g) qs -> qs !! me = Some mine -> excess B qs span = c -> c = surplus B mine ->
    exists g', (mine <-- get_acct qs me; Ok (set_rqs g (<[me := set_throttled (set_runtime mine RUNTIME_INF) false]> qs))) = Ok g' /\ fair_shares span g').
  { intros qs c Hq Eq Eqs Ec. unfold get_acct. rewrite Eq. cbn [res_bind]. eexists. split; [done|]. split; cbn [rt_b_runtime rt_period rt_rqs set_rqs]; fold B.
    - apply (budgets_put _ me mine); done.
    - rewrite (excess_update _ _ _ _ mine) by (done || apply (bd_nodup _ _ _ _ Hb)). unfold surplus at 2. cbn. lia. }
  destruct (Z.eqb_spec (rt_runtime mine) RUNTIME_INF) as [Rm|Rm]; cbn [orb]; [|destruct (Z.eqb_spec (rt_runtime mine) B) as [Rb|Rb]].
  - cbn [res_bind]. apply (Goal _ 0); [done|done|done|]. unfold surplus. by rewrite Rm, Z.eqb_refl.
  - cbn [res_bind]. apply (Goal _ 0); [done|done|done|]. unfold surplus. rewrite (proj2 (Z.eqb_neq _ _)) by done. lia.
  - pose proof (run_bound _ me mine Hb ltac:(lia) Hme Em Rm) as Bm. pose proof (bd_period _ _ _ _ Hb) as HP. pose proof (bd_small _ _ _ _ Hb) as HS.
    assert (Hper : rt_period g < 2 ^ 62) by (destruct span; [by apply elem_of_nil in Hme|cbn [length] in HS; nia]). rewrite s64_small by lia.
    destruct (excess_available (B := B) me (rt_rqs g) mine span Hme (bd_nodup _ _ _ _ Hb) (bd_in _ _ _ _ Hb) Em Rm ltac:(lia) He) as [Av Ex].
    assert (Hbd : forall i a, i ∈ span -> rt_rqs g !! i = Some a -> rt_runtime a <> RUNTIME_INF -> rt_runtime a < 2 ^ 62) by (intros i a Hi Ha Hr; by apply (run_bound _ i a Hb ltac:(lia) Hi Ha Hr)).
    assert (HR : exists qs', reclaim_loop span me (B - rt_runtime mine) (rt_rqs g) = Ok (0, qs') /\ budgets span B (rt_period g) qs' /\ excess B qs' span = excess B (rt_rqs g) span - (B - rt_runtime mine) /\ qs' !! me = rt_rqs g !! me).
    { destruct (Z.lt_ge_cases 0 (B - rt_runtime mine)).
      - apply reclaim_ok; [apply (bd_nodup _ _ _ _ Hb)|auto|done|done|lia|lia].
      - apply give_back_ok; [auto|done|done|lia|by apply Ex]. }
    destruct HR as (qs' & -> & Hb' & He' & Em'). cbn [res_bind negb Z.eqb]. apply (Goal _ (rt_runtime mine - B)); [done|congruence|lia|]. unfold surplus. by rewrite (proj2 (Z.eqb_neq _ _)).
Qed.

Lemma enable_ok me a : me ∈ span -> rt_rqs g !! me = Some a -> rt_runtime a = RUNTIME_INF \/ rt_runtime a = rt_b_runtime g -> exists g', __enable_runtime g me = Ok g' /\ fair_shares span g'.
Proof.
  intros Hme Ea Hr. destruct H as [Hb He]. unfold __enable_runtime, get_acct. rewrite Ea. cbn [res_bind]. eexists. split; [done|]. pose proof (bd_period _ _ _ _ Hb) as HP.
  split; cbn [rt_b_runtime rt_period rt_rqs set_rqs].
  - apply (budgets_put _ me a); [done|done|cbn; lia|cbn; lia].
  - rewrite (excess_update _ _ _ _ a) by (done || apply (bd_nodup _ _ _ _ Hb)). unfold surplus. cbn [rt_runtime]. rewrite He.
    destruct Hr as [-> | ->]; [rewrite Z.eqb_refl|]; destruct (Z.eqb_spec (rt_b_runtime g) RUNTIME_INF); lia.
Qed.

Lemma set_ok period runtime : 0 <= runtime <= period -> Z.of_nat (length span) * period < 2 ^ 62 -> fair_shares span (set_rt_bandwidth g period runtime).
Proof.
  intros Hr Hs. destruct H as [[H1 H2 H3 H4 H5 H6] He]. split; cbn [rt_b_runtime rt_period rt_rqs set_rt_bandwidth].
  - split; try done.
    + intros i Hi. rewrite lookup_fmap. apply fmap_is_Some. auto.
    + intros i a Hi Ha. rewrite lookup_fmap in Ha. apply fmap_Some in Ha as (b & _ & ->). intros _. cbn. lia.
    + intros i a Ha. rewrite lookup_fmap in Ha. apply fmap_Some in Ha as (b & Hb & ->). cbn. by apply (H6 i).
  - clear. induction span as [|i l IH]; [done|]. cbn [excess]. rewrite IH. unfold surplus_at. rewrite lookup_fmap. destruct (rt_rqs g !! i); [|done]. cbn.
    unfold surplus. cbn. destruct (runtime =? RUNTIME_INF); lia.
Qed.
End Shares.

Lemma exceeded_ok span g me nr : fair_shares span g -> me ∈ span -> exists r d g', runtime_exceeded true g span me nr = Ok (r, d, g') /\ fair_shares span g'.
Proof.
  intros H Hme. destruct (bd_in _ _ _ _ (proj1 H) me Hme) as [mine Em]. unfold runtime_exceeded. unfold get_acct at 1. rewrite Em. cbn [res_bind].
  destruct (rt_throttled mine); [by eexists _, _, _|]. destruct (_ <=? _); [by eexists _, _, _|].
  destruct (balance_ok H me Hme) as (g1 & E1 & H1 & _). rewrite E1. cbn [res_bind]. destruct (bd_in _ _ _ _ (proj1 H1) me Hme) as [m1 Em1]. pose proof (bd_time _ _ _ _ (proj1 H1) me m1 Em1).
  unfold get_acct. rewrite Em1. cbn [res_bind]. destruct (_ =? _); [by eexists _, _, _|]. destruct (_ <? _); [|by eexists _, _, _].
  assert (H2 : fair_shares span (set_rqs g1 (<[me := if negb (rt_b_runtime g1 =? 0) then set_throttled m1 true else set_time m1 0]> (rt_rqs g1)))).
  { apply (shares_put H1 me m1); [done|by destruct (negb _)|]. destruct (negb _); cbn [rt_time set_time set_throttled]; lia. }
  destruct (rt_rq_throttled _ _); by eexists _, _, _.
Qed.

Lemma charge_ok span g me nr delta : fair_shares span g -> me ∈ span -> 0 <= delta -> (forall a, rt_rqs g !! me = Some a -> rt_time a + delta < 2 ^ 63) ->
  exists r d g', charge_rt true g span me nr delta = Ok (r, d, g') /\ fair_shares span g'.
Proof.
  intros H Hme Hd Ht. destruct (bd_in _ _ _ _ (proj1 H) me Hme) as [mine Em]. unfold charge_rt, get_acct. rewrite Em. cbn [res_bind]. destruct (_ =? _); [by eexists _, _, _|].
  apply exceeded_ok; [|done]. pose proof (bd_time _ _ _ _ (proj1 H) me mine Em). specialize (Ht mine Em). apply (shares_put H me mine); [done|done|]. cbn [rt_time set_time]. rewrite u64_small; lia.
Qed.

Lemma period_ok span g me overrun nr nb : fair_shares span g -> me ∈ span -> exists e i g', period_timer_cpu true g span me overrun nr nb = Ok (g', e, i) /\ fair_shares span g'.
Proof.
  intros H Hme. destruct (bd_in _ _ _ _ (proj1 H) me Hme) as [mine Em]. pose proof (bd_time _ _ _ _ (proj1 H) me mine Em) as Tm. unfold period_timer_cpu. unfold get_acct at 1. rewrite Em. cbn [res_bind negb andb].
  assert (H0 : fair_shares span (set_rqs g (<[me := mine]> (rt_rqs g)))) by (by apply (shares_put H me mine)).
  destruct (_ && _); [by eexists _, _, _|]. destruct (negb _); [|by eexists _, _, _].
  assert (HB : exists g1, (if rt_throttled mine then balance_runtime true (set_rqs g (<[me := mine]> (rt_rqs g))) span me else Ok (set_rqs g (<[me := mine]> (rt_rqs g)))) = Ok g1 /\ fair_shares span g1).
  { destruct (rt_throttled mine); [|by eexists]. destruct (balance_ok H0 me Hme) as (g1 & E1 & H1 & _). by exists g1. }
  destruct HB as (g1 & -> & H1). cbn [res_bind]. destruct (bd_in _ _ _ _ (proj1 H1) me Hme) as [m1 Em1]. pose proof (bd_time _ _ _ _ (proj1 H1) me m1 Em1) as T1. unfold get_acct. rewrite Em1. cbn [res_bind].
  eexists _, _, _. split; [done|]. apply (shares_put H1 me m1); [done|by destruct (_ && _)|]. pose proof (u64_range (overrun * rt_runtime m1)).
  assert (0 <= rt_time m1 - Z.min (rt_time m1) (u64 (overrun * rt_runtime m1)) < 2 ^ 63) by lia. destruct (_ && _); done.
Qed.

(** *** A CPU that is away stays without a limit *)

Definition gone (qs : gmap Z rt_acct) (i : Z) : Prop := exists a, qs !! i = Some a /\ rt_runtime a = RUNTIME_INF.

Lemma gone_put qs i j a : gone qs i -> (j = i -> rt_runtime a = RUNTIME_INF) -> gone (<[j := a]> qs) i.
Proof.
  intros (b & Hb & Rb) Hj. destruct (decide (j = i)) as [->|Hne]; [exists a; split; [apply lookup_insert_eq|by apply Hj]|].
  exists b. by rewrite lookup_insert_ne.
Qed.

Lemma balance_loop_gone me weight period i span : me <> i -> forall qs qs', balance_loop span me weight period qs = Ok qs' -> gone qs i -> gone qs' i.
Proof.
  intros Hme. induction span as [|j span IH]; intros qs qs' E Hg; [by injection E as <-|]. cbn [balance_loop] in E. destruct (j =? me); [by apply (IH qs)|].
  unfold get_acct in E. destruct (qs !! j) as [it|] eqn:Ej; [|done]. cbn [res_bind] in E. destruct (qs !! me) as [mine|] eqn:Em; [|done]. cbn [res_bind] in E.
  destruct (Z.eqb_spec (rt_runtime it) RUNTIME_INF) as [|Hr]; [by apply (IH qs)|]. destruct (0 <? _); [|by apply (IH qs)].
  assert (Hj : j <> i) by (intros ->; destruct Hg as (a & Ha & Ra); congruence).
  set (qs1 := <[me := _]> _) in E. assert (G1 : gone qs1 i) by (apply gone_put; [by apply gone_put|done]).
  destruct (_ =? period); [by injection E as <-|by apply (IH qs1)].
Qed.

Lemma balance_gone g span me g' i : (forall a, rt_rqs g !! me = Some a -> rt_time a < 2 ^ 63) -> balance_runtime true g span me = Ok g' -> gone (rt_rqs g) i -> gone (rt_rqs g') i.
Proof.
  intros Ht E Hg. unfold balance_runtime, get_acct in E. cbn [negb] in E. destruct (rt_rqs g !! me) as [mine|] eqn:Em; [|done]. cbn [res_bind] in E.
  destruct (Z.ltb_spec (rt_runtime mine) (rt_time mine)) as [Hlt|]; [|by injection E as <-]. specialize (Ht mine eq_refl).
  assert (Hme : me <> i) by (intros ->; destruct Hg as (a & Ha & Ra); rewrite Em in Ha; injection Ha as <-; change RUNTIME_INF with 18446744073709551615 in Ra; lia).
  unfold do_balance_runtime in E. destruct (balance_loop _ _ _ _ _) as [qs'|] eqn:El; [|done]. injection E as <-. by apply (balance_loop_gone _ _ _ _ _ Hme _ _ El).
Qed.

Lemma reclaim_loop_gone me i span : forall want qs want' qs', reclaim_loop span me want qs = Ok (want', qs') -> gone qs i -> gone qs' i.
Proof.
  induction span as [|j span IH]; intros want qs want' qs' E Hg; [by injection E as _ <-|]. cbn [reclaim_loop] in E. unfold get_acct in E. destruct (qs !! j) as [it|] eqn:Ej; [|done]. cbn [res_bind] in E.
  destruct ((j =? me) || _) eqn:Eb; [by apply (IH want qs want')|]. apply orb_false_iff in Eb as [_ Hr%Z.eqb_neq].
  assert (Hj : j <> i) by (intros ->; destruct Hg as (a & Ha & Ra); congruence). set (qs1 := <[j := _]> qs) in E. assert (G1 : gone qs1 i) by (by apply gone_put).
  destruct (_ =? 0); [by injection E as _ <-|exact (IH _ _ _ _ E G1)].
Qed.

Lemma disable_gone g span me g' i : __disable_runtime g span me = Ok g' -> gone (rt_rqs g) i \/ i = me -> gone (rt_rqs g') i.
Proof.
  intros E Hi. unfold __disable_runtime in E. destruct (get_acct (rt_rqs g) me) as [mine|]; [|done]. cbn [res_bind] in E. destruct (if _ || _ then _ else _) as [qs|] eqn:Eq; [|done]. cbn [res_bind] in E.
  unfold get_acct in E. destruct (qs !! me) as [mine'|] eqn:Em; [|done]. injection E as <-. cbn [rt_rqs set_rqs]. destruct Hi as [Hg| ->]; [|eexists; split; [apply lookup_insert_eq|done]].
  apply gone_put; [|done]. destruct (_ || _); [by injection Eq as <-|]. destruct (reclaim_loop _ _ _ _) as [[want qs1]|] eqn:El; [|done]. cbn [res_bind] in Eq.
  destruct (negb _); [done|]. injection Eq as <-. by apply (reclaim_loop_gone _ _ _ _ _ _ _ El).
Qed.

Lemma exceeded_gone g span me nr r d g' i : (forall a, rt_rqs g !! me = Some a -> rt_time a < 2 ^ 63) -> runtime_exceeded true g span me nr = Ok (r, d, g') -> gone (rt_rqs g) i -> gone (rt_rqs g') i.
Proof.
  intros Ht E Hg. unfold runtime_exceeded in E. destruct (get_acct (rt_rqs g) me) as [mine|]; [|done]. cbn [res_bind] in E. destruct (rt_throttled mine); [by injection E as _ _ <-|]. destruct (_ <=? _); [by injection E as _ _ <-|].
  destruct (balance_runtime true g span me) as [g1|] eqn:Eb; [|done]. cbn [res_bind] in E. pose proof (balance_gone _ _ _ _ _ Ht Eb Hg) as G1.
  unfold get_acct in E. destruct (rt_rqs g1 !! me) as [m1|] eqn:Em; [|done]. cbn [res_bind] in E. destruct (Z.eqb_spec (rt_runtime m1) RUNTIME_INF) as [|Hr]; [by injection E as _ _ <-|]. destruct (_ <? _); [|by injection E as _ _ <-].
  assert (Hme : me <> i) by (intros ->; destruct G1 as (a & Ha & Ra); congruence). set (m2 := if negb _ then _ else _) in E.
  assert (G2 : gone (<[me := m2]> (rt_rqs g1)) i) by (by apply gone_put). destruct (rt_rq_throttled _ _); by injection E as _ _ <-.
Qed.

Lemma charge_gone g span me nr delta r d g' i : (forall a, rt_rqs g !! me = Some a -> rt_time a + delta < 2 ^ 63) -> 0 <= delta -> (forall a, rt_rqs g !! me = Some a -> 0 <= rt_time a) ->
  charge_rt true g span me nr delta = Ok (r, d, g') -> gone (rt_rqs g) i -> gone (rt_rqs g') i.
Proof.
  intros Ht Hd H0 E Hg. unfold charge_rt, get_acct in E. destruct (rt_rqs g !! me) as [mine|] eqn:Em; [|done]. cbn [res_bind] in E. destruct (Z.eqb_spec (rt_runtime mine) RUNTIME_INF) as [|Hr]; [by injection E as _ _ <-|].
  specialize (Ht mine eq_refl). specialize (H0 mine eq_refl). apply (exceeded_gone _ _ _ _ _ _ _ i) in E; [done| |].
  - intros a Ha. cbn [rt_rqs set_rqs] in Ha. rewrite lookup_insert_eq in Ha. injection Ha as <-. cbn [rt_time set_time]. rewrite u64_small; lia.
  - cbn [rt_rqs set_rqs]. apply gone_put; [done|]. intros ->. destruct Hg as (a & Ha & Ra). congruence.
Qed.

Lemma period_gone g span me overrun nr nb g' e id i : (forall a, rt_rqs g !! me = Some a -> rt_time a < 2 ^ 63) -> period_timer_cpu true g span me overrun nr nb = Ok (g', e, id) -> gone (rt_rqs g) i -> gone (rt_rqs g') i.
Proof.
  intros Ht E Hg. unfold period_timer_cpu in E. unfold get_acct at 1 in E. destruct (rt_rqs g !! me) as [mine|] eqn:Em; [|done]. cbn [res_bind negb andb] in E. rewrite insert_id in E by done.
  replace (set_rqs g (rt_rqs g)) with g in E by (by destruct g). destruct (_ && _); [by injection E as <- _ _|]. destruct (negb _); [|by injection E as <- _ _].
  destruct (if rt_throttled mine then _ else _) as [g1|] eqn:Eb; [|done]. cbn [res_bind] in E.
  assert (G1 : gone (rt_rqs g1) i) by (destruct (rt_throttled mine); [apply (balance_gone _ _ _ _ _ (fun a Ha => Ht a (eq_trans (eq_sym Em) Ha)) Eb Hg)|by injection Eb as <-]).
  unfold get_acct in E. destruct (rt_rqs g1 !! me) as [m1|] eqn:Em1; [|done]. injection E as <- _ _. cbn [rt_rqs set_rqs]. apply gone_put; [done|]. intros ->. destruct G1 as (a & Ha & Ra). assert (a = m1) as -> by congruence. by destruct (_ && _).
Qed.

Lemma rt_op_step span away g o : fair_shares span g -> (forall c, c ∈ away -> gone (rt_rqs g) c) -> rt_op_ok span away g o ->
  exists g', run_rt span g o = Ok g' /\ fair_shares span g' /\ forall c, c ∈ away_after away o -> gone (rt_rqs g') c.
Proof.
  intros H Haway. pose proof (fun c a Ha => proj2 (bd_time _ _ _ _ (proj1 H) c a Ha)) as Ht. destruct o as [c|c|c|c nb d|c ov nr nb|per run]; cbn [rt_op_ok run_rt away_after].
  - intros Hc. destruct (balance_ok H c Hc) as (g' & E & H' & _). exists g'. do 2 (split; [done|]). intros i Hi. apply (balance_gone _ _ _ _ i (Ht c) E). auto.
  - intros Hc. destruct (disable_ok H c Hc) as (g' & E & H'). exists g'. do 2 (split; [done|]). intros i Hi. apply (disable_gone _ _ _ _ i E). apply elem_of_union in Hi as [Hi|Hi]; [right; by apply elem_of_singleton in Hi|left; auto].
  - intros (Hc & Hr). assert (Ha : exists a, rt_rqs g !! c = Some a /\ (rt_runtime a = RUNTIME_INF \/ rt_runtime a = rt_b_runtime g)) by (destruct Hr as [Hr|(a & Ha & Hr)]; [destruct (Haway c Hr) as (a & Ha & Hr')|]; eauto).
    destruct Ha as (a & Ha & Hr'). destruct (enable_ok H c a Hc Ha Hr') as (g' & E & H'). exists g'. do 2 (split; [done|]). intros i Hi. apply elem_of_difference in Hi as [Hi Hne]. rewrite elem_of_singleton in Hne.
    unfold __enable_runtime, get_acct in E. rewrite Ha in E. injection E as <-. apply gone_put; [auto|]. congruence.
  - intros (Hc & Hd & Htd). destruct (charge_ok span g c nb d H Hc Hd Htd) as (r & q & g' & E & H'). rewrite E. exists g'. do 2 (split; [done|]). intros i Hi.
    apply (charge_gone _ _ _ _ _ _ _ _ i Htd Hd (fun a Ha => proj1 (bd_time _ _ _ _ (proj1 H) c a Ha)) E). auto.
  - intros Hc. destruct (period_ok span g c ov nr nb H Hc) as (e & i & g' & E & H'). rewrite E. exists g'. do 2 (split; [done|]). intros j Hj. apply (period_gone _ _ _ _ _ _ _ _ _ j (Ht c) E). auto.
  - intros (-> & Hr & Hs). eexists. split; [done|]. split; [by apply (set_ok H)|]. intros i Hi. by apply not_elem_of_empty in Hi.
Qed.

Fixpoint run_rts (span : list Z) (g : rt_group) (os : list rt_op) : res rt_group := match os with o :: os => g <-- run_rt span g o; run_rts span g os | [] => Ok g end.
Fixpoint rt_ops_ok (span : list Z) (away : gset Z) (g : rt_group) (os : list rt_op) : Prop :=
  match os with o :: os => rt_op_ok span away g o /\ forall g', run_rt span g o = Ok g' -> rt_ops_ok span (away_after away o) g' os | [] => True end.

(** C11: real-time budget is conserved.  The CPUs of a root domain that are not disabled have, together, exactly one share of
    the group's budget each.  Borrowing, the charge for time that was run, the period timer and taking a CPU away keep
    it so in any order; so do bringing back a CPU that is away (or one that has exactly its share), and changing the
    budget while no CPU is away.  A CPU that goes away then always gets back what it lent, or rid of what it borrowed:
    the BUG_ON that watches for leaked budget does not fire.  (A change of the budget while a CPU is away is the order
    that breaks it: see [set_while_away_leaks].)  Budgets fit their period, the periods of all CPUs together and the
    time to be charged fit in 62 and 63 bits. *)
Theorem rt_runtime_conserved span away g os : fair_shares span g -> (forall c, c ∈ away -> gone (rt_rqs g) c) -> rt_ops_ok span away g os ->
  exists g', run_rts span g os = Ok g' /\ fair_shares span g'.
Proof.
  revert away g. induction os as [|o os IH]; intros away g H Ha Ho; cbn; [by exists g|]. destruct Ho as [Ho Hos].
  destruct (rt_op_step span away g o H Ha Ho) as (g1 & E1 & H1 & Ha1). rewrite E1. cbn [res_bind]. apply (IH (away_after away o) g1 H1 Ha1). by apply Hos.
Qed.

(** Two CPUs with 95 of 100 each, one of which has run for 120. *)
Definition two_cpus : rt_group := mk_group 100 95 (<[0 := mk_acct 95 120 false]> (<[1 := mk_acct 95 10 false]> ∅)).

Lemma fair_check span g : NoDup span -> (forall i, i ∈ span -> is_Some (rt_rqs g !! i)) -> 0 <= rt_b_runtime g <= rt_period g -> Z.of_nat (length span) * rt_period g < 2 ^ 62 ->
  map_Forall (fun _ a => 0 <= rt_runtime a /\ 0 <= rt_time a < 2 ^ 63) (rt_rqs g) -> excess (rt_b_runtime g) (rt_rqs g) span = 0 -> fair_shares span g.
Proof. intros H1 H2 H3 H4 H5 H6. split; [|done]. split; try done; intros i a; intros; by apply (H5 i a). Qed.

Lemma rt_runtime_conserved_witness : exists g', run_rts [0; 1] two_cpus [RtBalance 0; RtDisable 0; RtEnable 0] = Ok g' /\ fair_shares [0; 1] g'.
Proof.
  apply (rt_runtime_conserved [0; 1] ∅ two_cpus).
  - apply fair_check; [apply (bool_decide_unpack _); by vm_compute| |cbn; lia|cbn; lia| |by vm_compute].
    + intros i Hi. rewrite !elem_of_cons, elem_of_nil in Hi. destruct Hi as [->|[->|[]]]; by eexists.
    + intros i a Ha. unfold two_cpus in Ha. cbn [rt_rqs] in Ha. apply lookup_insert_Some in Ha as [[_ <-]|[_ Ha]]; [cbn; lia|]. apply lookup_insert_Some in Ha as [[_ <-]|[_ Ha]]; [cbn; lia|by rewrite lookup_empty in Ha].
  - intros c Hc. by apply not_elem_of_empty in Hc.
  - assert (H0 : 0 ∈ [0; 1]) by (apply elem_of_cons; auto). cbn [rt_ops_ok rt_op_ok away_after]. split; [done|]. intros g1 E1. split; [done|]. intros g2 E2.
    split; [split; [done|left; set_solver]|]. done.
Defined.

(** Changing the budget while a CPU is away gives that CPU a budget the others can borrow; when it comes back it gets a
    full share again.  The budget made up this way makes the BUG_ON of the last CPU to leave fire. *)
Example set_while_away_leaks : run_rts [0; 1] two_cpus [RtDisable 1; RtSet 100 95; RtBalance 0; RtEnable 1; RtDisable 1; RtDisable 0] = Fault BugOn.
Proof. by vm_compute. Qed.
