(* ===== verification/RtQueue.v ===== *)
(** * The run queues of the real-time class (kernel/sched/rt.c)

    The tasks and groups of a CPU form a tree: an entity is queued on a run queue, and an entity that stands for a
    group owns a run queue of its own.  Priorities, counts and boosting of a group entity are those of its queue, so
    a change below is made by taking the entities up to the root off their queues and putting them back.  Warnings,
    statistics, tracing and the cpufreq hook have no effect on this state and are left out. *)

From stdpp Require Import gmap list.
From S2P Require Import Prelude Sums Bitops Bitmap ListHead Cpumask Cpupri RtArray RtBandwidth.
Local Open Scope Z_scope.
Local Open Scope res_scope.

(** ** The state *)

(** [struct sched_rt_entity], with the fields of the task around it when it is one. *)
Record rt_se := mk_se {
  on_rq : bool; on_list : bool; back : option Z; parent : option Z; rt_rq_of_se : Z; my_q : option Z;
  prio : Z; normal_prio : Z; rr : bool; nr_cpus_allowed : Z }.

(** [struct rt_rq]; its budget is in the group [tg], entry of this CPU. *)
Record rt_rq := mk_rt_rq {
  active : list Z; rt_nr_running : Z; rr_nr_running : Z; curr_prio : Z; next_prio : Z;
  rt_nr_migratory : Z; rt_nr_total : Z; overloaded : bool; rt_queued : bool; rt_nr_boosted : Z; tg : Z }.

(** [struct rq] of a CPU: [top] is the address of its [rt], the root queue; of the root domain, the priorities of the
    CPUs and the overload masks; [rt_se_of] gives the entity of a group on this CPU. *)
Record rq := mk_rq {
  lists : list_mem; ses : gmap Z rt_se; rqs : gmap Z rt_rq; top : Z; groups : gmap Z rt_group; period_active : gset Z;
  cpu : Z; online : bool; nr_running : Z; cpupri : Cpupri.cpupri; rto_mask : list Z; rto_count : Z; rd_overload : bool; rt_se_of : gmap Z Z; resched : bool }.

Definition set_lists (w : rq) (m : list_mem) : rq := mk_rq m (ses w) (rqs w) (top w) (groups w) (period_active w) (cpu w) (online w) (nr_running w) (cpupri w) (rto_mask w) (rto_count w) (rd_overload w) (rt_se_of w) (resched w).
Definition put_se (w : rq) (e : Z) (s : rt_se) : rq := mk_rq (lists w) (<[e := s]> (ses w)) (rqs w) (top w) (groups w) (period_active w) (cpu w) (online w) (nr_running w) (cpupri w) (rto_mask w) (rto_count w) (rd_overload w) (rt_se_of w) (resched w).
Definition put_rq (w : rq) (r : Z) (R : rt_rq) : rq := mk_rq (lists w) (ses w) (<[r := R]> (rqs w)) (top w) (groups w) (period_active w) (cpu w) (online w) (nr_running w) (cpupri w) (rto_mask w) (rto_count w) (rd_overload w) (rt_se_of w) (resched w).
Definition set_groups (w : rq) (g : gmap Z rt_group) : rq := mk_rq (lists w) (ses w) (rqs w) (top w) g (period_active w) (cpu w) (online w) (nr_running w) (cpupri w) (rto_mask w) (rto_count w) (rd_overload w) (rt_se_of w) (resched w).
Definition set_period_active (w : rq) (p : gset Z) : rq := mk_rq (lists w) (ses w) (rqs w) (top w) (groups w) p (cpu w) (online w) (nr_running w) (cpupri w) (rto_mask w) (rto_count w) (rd_overload w) (rt_se_of w) (resched w).
Definition set_nr_running (w : rq) (n : Z) (o : bool) : rq := mk_rq (lists w) (ses w) (rqs w) (top w) (groups w) (period_active w) (cpu w) (online w) n (cpupri w) (rto_mask w) (rto_count w) o (rt_se_of w) (resched w).
Definition set_cpupri (w : rq) (c : Cpupri.cpupri) : rq := mk_rq (lists w) (ses w) (rqs w) (top w) (groups w) (period_active w) (cpu w) (online w) (nr_running w) c (rto_mask w) (rto_count w) (rd_overload w) (rt_se_of w) (resched w).
Definition set_rto (w : rq) (m : list Z) (n : Z) : rq := mk_rq (lists w) (ses w) (rqs w) (top w) (groups w) (period_active w) (cpu w) (online w) (nr_running w) (cpupri w) m n (rd_overload w) (rt_se_of w) (resched w).
Definition resched_curr (w : rq) : rq := mk_rq (lists w) (ses w) (rqs w) (top w) (groups w) (period_active w) (cpu w) (online w) (nr_running w) (cpupri w) (rto_mask w) (rto_count w) (rd_overload w) (rt_se_of w) true.

Definition get_se (w : rq) (e : Z) : res rt_se := match ses w !! e with Some s => Ok s | None => Fault OutOfBounds end.
Definition get_rq (w : rq) (r : Z) : res rt_rq := match rqs w !! r with Some R => Ok R | None => Fault OutOfBounds end.
Definition get_group (w : rq) (t : Z) : res rt_group := match groups w !! t with Some g => Ok g | None => Fault OutOfBounds end.

Definition set_on (s : rt_se) (onrq onlist : bool) : rt_se := mk_se onrq onlist (back s) (parent s) (rt_rq_of_se s) (my_q s) (prio s) (normal_prio s) (rr s) (nr_cpus_allowed s).
Definition set_back (s : rt_se) (b : option Z) : rt_se := mk_se (on_rq s) (on_list s) b (parent s) (rt_rq_of_se s) (my_q s) (prio s) (normal_prio s) (rr s) (nr_cpus_allowed s).

Definition set_active (R : rt_rq) (b : list Z) : rt_rq := mk_rt_rq b (rt_nr_running R) (rr_nr_running R) (curr_prio R) (next_prio R) (rt_nr_migratory R) (rt_nr_total R) (overloaded R) (rt_queued R) (rt_nr_boosted R) (tg R).
Definition set_counts (R : rt_rq) (n k : Z) : rt_rq := mk_rt_rq (active R) n k (curr_prio R) (next_prio R) (rt_nr_migratory R) (rt_nr_total R) (overloaded R) (rt_queued R) (rt_nr_boosted R) (tg R).
Definition set_curr_prio (R : rt_rq) (p : Z) : rt_rq := mk_rt_rq (active R) (rt_nr_running R) (rr_nr_running R) p (next_prio R) (rt_nr_migratory R) (rt_nr_total R) (overloaded R) (rt_queued R) (rt_nr_boosted R) (tg R).
Definition set_migration (R : rt_rq) (mig tot : Z) (o : bool) : rt_rq := mk_rt_rq (active R) (rt_nr_running R) (rr_nr_running R) (curr_prio R) (next_prio R) mig tot o (rt_queued R) (rt_nr_boosted R) (tg R).
Definition set_queued (R : rt_rq) (b : bool) : rt_rq := mk_rt_rq (active R) (rt_nr_running R) (rr_nr_running R) (curr_prio R) (next_prio R) (rt_nr_migratory R) (rt_nr_total R) (overloaded R) b (rt_nr_boosted R) (tg R).
Definition set_boosted (R : rt_rq) (n : Z) : rt_rq := mk_rt_rq (active R) (rt_nr_running R) (rr_nr_running R) (curr_prio R) (next_prio R) (rt_nr_migratory R) (rt_nr_total R) (overloaded R) (rt_queued R) n (tg R).

(** ** What an entity stands for *)

Definition rt_entity_is_task (s : rt_se) : bool := match my_q s with None => true | Some _ => false end.
Definition rt_se_prio (w : rq) (s : rt_se) : res Z := match my_q s with Some g => R <-- get_rq w g; Ok (curr_prio R) | None => Ok (prio s) end.
Definition rt_se_nr_running (w : rq) (s : rt_se) : res Z := match my_q s with Some g => R <-- get_rq w g; Ok (rt_nr_running R) | None => Ok 1 end.
Definition rt_se_rr_nr_running (w : rq) (s : rt_se) : res Z := match my_q s with Some g => R <-- get_rq w g; Ok (rr_nr_running R) | None => Ok (if rr s then 1 else 0) end.
Definition rt_se_boosted (w : rq) (s : rt_se) : res bool := match my_q s with Some g => R <-- get_rq w g; Ok (negb (rt_nr_boosted R =? 0)) | None => Ok (negb (prio s =? normal_prio s)) end.

(** [rt_rq_throttled] of a run queue of this CPU. *)
Definition is_throttled (w : rq) (R : rt_rq) : res bool :=
  g <-- get_group w (tg R); a <-- get_acct (rt_rqs g) (cpu w); Ok (rt_rq_throttled (rt_throttled a) (rt_nr_boosted R)).

(** ** The root queue and the CPU *)

Definition add_nr_running (w : rq) (count : Z) : rq :=
  let n := u32 (nr_running w + count) in set_nr_running w n (rd_overload w || ((nr_running w <? 2) && (2 <=? n))).
Definition sub_nr_running (w : rq) (count : Z) : rq := set_nr_running w (u32 (nr_running w - count)) (rd_overload w).

Definition dequeue_top_rt_rq (w : rq) (r : Z) : res rq :=
  if negb (top w =? r) then Fault BugOn
  else
    R <-- get_rq w r;
    if negb (rt_queued R) then Ok w
    else if nr_running w =? 0 then Fault BugOn
    else Ok (put_rq (sub_nr_running w (rt_nr_running R)) r (set_queued R false)).

Definition enqueue_top_rt_rq (w : rq) (r : Z) : res rq :=
  if negb (top w =? r) then Fault BugOn
  else
    R <-- get_rq w r;
    if rt_queued R then Ok w
    else
      t <-- is_throttled w R;
      if (t : bool) then Ok w
      else if negb (rt_nr_running R =? 0) then Ok (put_rq (add_nr_running w (rt_nr_running R)) r (set_queued R true)) else Ok w.

Definition rt_set_overload (w : rq) : res rq := if negb (online w) then Ok w else m <-- cpumask_set_cpu (cpu w) (rto_mask w); Ok (set_rto w m (rto_count w + 1)).
Definition rt_clear_overload (w : rq) : res rq := if negb (online w) then Ok w else m <-- cpumask_clear_cpu (cpu w) (rto_mask w); Ok (set_rto w m (rto_count w - 1)).

Definition update_rt_migration (w : rq) : res rq :=
  R <-- get_rq w (top w);
  if negb (rt_nr_migratory R =? 0) && (1 <? rt_nr_total R) then
    if overloaded R then Ok w else w <-- rt_set_overload w; Ok (put_rq w (top w) (set_migration R (rt_nr_migratory R) (rt_nr_total R) true))
  else if overloaded R then w <-- rt_clear_overload w; Ok (put_rq w (top w) (set_migration R (rt_nr_migratory R) (rt_nr_total R) false))
  else Ok w.

(** [inc_rt_migration] and [dec_rt_migration]: [d] is 1 or -1. *)
Definition change_migration (w : rq) (s : rt_se) (d : Z) : res rq :=
  if negb (rt_entity_is_task s) then Ok w
  else
    R <-- get_rq w (top w);
    let mig := if 1 <? nr_cpus_allowed s then u64 (rt_nr_migratory R + d) else rt_nr_migratory R in
    update_rt_migration (put_rq w (top w) (set_migration R mig (u64 (rt_nr_total R + d)) (overloaded R))).
Definition inc_rt_migration (w : rq) (s : rt_se) : res rq := change_migration w s 1.
Definition dec_rt_migration (w : rq) (s : rt_se) : res rq := change_migration w s (-1).

(** *** Priorities *)

Definition inc_rt_prio_smp (w : rq) (r prio prev_prio : Z) : res rq :=
  if negb (top w =? r) then Ok w
  else if online w && (prio <? prev_prio) then c <-- cpupri_set (cpupri w) (cpu w) prio; Ok (set_cpupri w c) else Ok w.

Definition inc_rt_prio (w : rq) (r prio : Z) : res rq :=
  R <-- get_rq w r;
  let prev_prio := curr_prio R in
  let w := if prio <? prev_prio then put_rq w r (set_curr_prio R prio) else w in
  inc_rt_prio_smp w r prio prev_prio.

Definition dec_rt_prio_smp (w : rq) (r prev_prio : Z) : res rq :=
  if negb (top w =? r) then Ok w
  else
    R <-- get_rq w r;
    if online w && negb (curr_prio R =? prev_prio) then c <-- cpupri_set (cpupri w) (cpu w) (curr_prio R); Ok (set_cpupri w c) else Ok w.

Definition dec_rt_prio (w : rq) (r prio : Z) : res rq :=
  R <-- get_rq w r;
  let prev_prio := curr_prio R in
  w <-- (if negb (rt_nr_running R =? 0) then
           if prio =? prev_prio then i <-- sched_find_first_bit (active R); Ok (put_rq w r (set_curr_prio R i)) else Ok w
         else Ok (put_rq w r (set_curr_prio R MAX_RT_PRIO)));
  dec_rt_prio_smp w r prev_prio.

(** *** Boosting; the period timer of a group is started with its first entity *)

Definition start_rt_bandwidth (enabled : bool) (w : rq) (t : Z) : res rq :=
  g <-- get_group w t;
  if negb enabled || (rt_b_runtime g =? RUNTIME_INF) then Ok w else Ok (set_period_active w ({[t]} ∪ period_active w)).

Definition inc_rt_group (enabled : bool) (w : rq) (s : rt_se) (r : Z) : res rq :=
  b <-- rt_se_boosted w s; R <-- get_rq w r;
  let w := if (b : bool) then put_rq w r (set_boosted R (u64 (rt_nr_boosted R + 1))) else w in
  start_rt_bandwidth enabled w (tg R).

Definition dec_rt_group (w : rq) (s : rt_se) (r : Z) : res rq :=
  b <-- rt_se_boosted w s; R <-- get_rq w r; Ok (if (b : bool) then put_rq w r (set_boosted R (u64 (rt_nr_boosted R - 1))) else w).

Definition inc_rt_tasks (enabled : bool) (w : rq) (s : rt_se) (r : Z) : res rq :=
  p <-- rt_se_prio w s; n <-- rt_se_nr_running w s; k <-- rt_se_rr_nr_running w s;
  R <-- get_rq w r;
  let w := put_rq w r (set_counts R (u32 (rt_nr_running R + n)) (u32 (rr_nr_running R + k))) in
  w <-- inc_rt_prio w r p; w <-- inc_rt_migration w s; inc_rt_group enabled w s r.

Definition dec_rt_tasks (w : rq) (s : rt_se) (r : Z) : res rq :=
  n <-- rt_se_nr_running w s; k <-- rt_se_rr_nr_running w s;
  R <-- get_rq w r;
  let w := put_rq w r (set_counts R (u32 (rt_nr_running R - n)) (u32 (rr_nr_running R - k))) in
  p <-- rt_se_prio w s;
  w <-- dec_rt_prio w r p; w <-- dec_rt_migration w s; dec_rt_group w s r.

(** ** Queueing an entity *)

Definition ENQUEUE_HEAD : Z := 16.

Definition move_entity (flags : Z) : bool := negb (Z.land flags (Z.lor DEQUEUE_SAVE DEQUEUE_MOVE) =? DEQUEUE_SAVE).

Definition __delist_rt_entity (w : rq) (e r : Z) : res rq :=
  s <-- get_se w e; p <-- rt_se_prio w s; R <-- get_rq w r;
  '(m, b) <-- array_delist (lists w) r (active R) e p;
  Ok (put_se (put_rq (set_lists w m) r (set_active R b)) e (set_on s (on_rq s) false)).

Definition __enqueue_rt_entity (enabled : bool) (w : rq) (e flags : Z) : res rq :=
  s <-- get_se w e;
  let r := rt_rq_of_se s in
  skip <-- match my_q s with
           | Some g => G <-- get_rq w g; t <-- is_throttled w G; Ok (t || (rt_nr_running G =? 0))
           | None => Ok false
           end;
  if (skip : bool) then if on_list s then __delist_rt_entity w e r else Ok w
  else
    w <-- (if move_entity flags then
             p <-- rt_se_prio w s; R <-- get_rq w r;
             '(m, b) <-- array_enlist (lists w) r (active R) e p (negb (Z.land flags ENQUEUE_HEAD =? 0));
             Ok (put_se (put_rq (set_lists w m) r (set_active R b)) e (set_on s (on_rq s) true))
           else Ok w);
    s <-- get_se w e;
    let w := put_se w e (set_on s true (on_list s)) in
    inc_rt_tasks enabled w (set_on s true (on_list s)) r.

Definition __dequeue_rt_entity (w : rq) (e flags : Z) : res rq :=
  s <-- get_se w e;
  let r := rt_rq_of_se s in
  w <-- (if move_entity flags then __delist_rt_entity w e r else Ok w);
  s <-- get_se w e;
  let w := put_se w e (set_on s false (on_list s)) in
  dec_rt_tasks w (set_on s false (on_list s)) r.

(** ** The way up and down *)

(** [for_each_sched_rt_entity] of [dequeue_rt_stack]: every entity remembers the one below it; the last one is returned. *)
Fixpoint stack_up (fuel : nat) (w : rq) (e : Z) (b : option Z) : res (rq * Z) :=
  match fuel with
  | O => Fault NoFuel
  | S fuel => s <-- get_se w e; let w := put_se w e (set_back s b) in match parent s with Some p => stack_up fuel w p (Some e) | None => Ok (w, e) end
  end.

Fixpoint stack_down (fuel : nat) (w : rq) (e flags : Z) : res rq :=
  match fuel with
  | O => Fault NoFuel
  | S fuel =>
      s <-- get_se w e;
      w <-- (if on_rq s then __dequeue_rt_entity w e flags else Ok w);
      s <-- get_se w e;
      match back s with Some b => stack_down fuel w b flags | None => Ok w end
  end.

Definition depth_fuel (w : rq) : nat := S (size (ses w)).

Definition dequeue_rt_stack (w : rq) (e flags : Z) : res rq :=
  '(w, b) <-- stack_up (depth_fuel w) w e None;
  s <-- get_se w b;
  w <-- dequeue_top_rt_rq w (rt_rq_of_se s);
  stack_down (depth_fuel w) w b flags.

Fixpoint enqueue_up (enabled : bool) (fuel : nat) (w : rq) (e flags : Z) : res rq :=
  match fuel with
  | O => Fault NoFuel
  | S fuel => w <-- __enqueue_rt_entity enabled w e flags; s <-- get_se w e; match parent s with Some p => enqueue_up enabled fuel w p flags | None => Ok w end
  end.

Definition enqueue_rt_entity (enabled : bool) (w : rq) (e flags : Z) : res rq :=
  w <-- dequeue_rt_stack w e flags; w <-- enqueue_up enabled (depth_fuel w) w e flags; enqueue_top_rt_rq w (top w).

(** The loop of [dequeue_rt_entity]: the groups that still have entities come back. *)
Fixpoint requeue_groups (enabled : bool) (fuel : nat) (w : rq) (e flags : Z) : res rq :=
  match fuel with
  | O => Fault NoFuel
  | S fuel =>
      s <-- get_se w e;
      w <-- match my_q s with
            | Some g => G <-- get_rq w g; if negb (rt_nr_running G =? 0) then __enqueue_rt_entity enabled w e flags else Ok w
            | None => Ok w
            end;
      s <-- get_se w e;
      match parent s with Some p => requeue_groups enabled fuel w p flags | None => Ok w end
  end.

Definition dequeue_rt_entity (enabled : bool) (w : rq) (e flags : Z) : res rq :=
  w <-- dequeue_rt_stack w e flags; w <-- requeue_groups enabled (depth_fuel w) w e flags; enqueue_top_rt_rq w (top w).

(** A group's queue is throttled, or has its budget back; [curr_prio_now] is the priority of the running task. *)
Definition sched_rt_rq_dequeue (enabled : bool) (w : rq) (r : Z) : res rq :=
  R <-- get_rq w r;
  match rt_se_of w !! tg R with
  | None => dequeue_top_rt_rq w r
  | Some e => s <-- get_se w e; if on_rq s then dequeue_rt_entity enabled w e 0 else Ok w
  end.

Definition sched_rt_rq_enqueue (enabled : bool) (w : rq) (r curr_prio_now : Z) : res rq :=
  R <-- get_rq w r;
  if rt_nr_running R =? 0 then Ok w
  else
    w <-- match rt_se_of w !! tg R with
          | None => enqueue_top_rt_rq w r
          | Some e => s <-- get_se w e; if on_rq s then Ok w else enqueue_rt_entity enabled w e 0
          end;
    R <-- get_rq w r; Ok (if curr_prio R <? curr_prio_now then resched_curr w else w).

(** ** Rotating and picking *)

Definition requeue_rt_entity (w : rq) (r e : Z) (head : bool) : res rq :=
  s <-- get_se w e;
  if on_rq s then
    p <-- rt_se_prio w s;
    m <-- (if head then list_move (lists w) e (queue_at r p) else list_move_tail (lists w) e (queue_at r p)); Ok (set_lists w m)
  else Ok w.

Fixpoint requeue_up (fuel : nat) (w : rq) (e : Z) (head : bool) : res rq :=
  match fuel with
  | O => Fault NoFuel
  | S fuel => s <-- get_se w e; w <-- requeue_rt_entity w (rt_rq_of_se s) e head; match parent s with Some p => requeue_up fuel w p head | None => Ok w end
  end.
Definition requeue_task_rt (w : rq) (e : Z) (head : bool) : res rq := requeue_up (depth_fuel w) w e head.

Definition pick_next_rt_entity (w : rq) (r : Z) : res Z :=
  R <-- get_rq w r; i <-- sched_find_first_bit (active R);
  if MAX_RT_PRIO <=? i then Fault BugOn else get_next (lists w) (queue_at r i).

Fixpoint pick_loop (fuel : nat) (w : rq) (r : Z) : res Z :=
  match fuel with
  | O => Fault NoFuel
  | S fuel => e <-- pick_next_rt_entity w r; s <-- get_se w e; match my_q s with Some g => pick_loop fuel w g | None => Ok e end
  end.
Definition _pick_next_task_rt (w : rq) : res Z := pick_loop (S (size (rqs w))) w (top w).

(** [sched_rt_runnable] is [rt_queued] of the root queue. *)
Definition pick_task_rt (w : rq) : res (option Z) := R <-- get_rq w (top w); if rt_queued R then e <-- _pick_next_task_rt w; Ok (Some e) else Ok None.
