(* ===== verification/RtInvariant.v ===== *)
(** * The invariant of the real-time run queues

    What the queues, bitmaps and counters of a CPU's tree of run queues have to do with the entities that are queued,
    and how it changes when one entity is taken off its queue or put on it. *)

From stdpp Require Import gmap list.
From S2P Require Import Prelude Sums Bitops Bitmap ListHead Cpumask Cpupri RtArray RtBandwidth RtQueue.
Local Open Scope Z_scope.

(** The fields of a run queue that follow from its entities. *)
Definition core (R : rt_rq) : rt_rq := set_migration R 0 0 false.

(** What an entity counts for, given the run queues [K]. *)
Section Entity.
Context (K : gmap Z rt_rq).

Definition of_queue {A} (d : A) (f : rt_rq -> A) (g : Z) : A := match K !! g with Some R => f R | None => d end.
Definition sprio (s : rt_se) : Z := match my_q s with Some g => of_queue 0 curr_prio g | None => prio s end.
Definition snr (s : rt_se) : Z := match my_q s with Some g => of_queue 0 rt_nr_running g | None => 1 end.
Definition srr (s : rt_se) : Z := match my_q s with Some g => of_queue 0 rr_nr_running g | None => if rr s then 1 else 0 end.
Definition sboost (s : rt_se) : bool := match my_q s with Some g => of_queue false (fun R => negb (rt_nr_boosted R =? 0)) g | None => negb (prio s =? normal_prio s) end.
Definition nboost (s : rt_se) : Z := if sboost s then 1 else 0.
End Entity.

(** The sum of [f] over the entities queued on [r]. *)
Definition queued (r : Z) (s : rt_se) : bool := on_rq s && (rt_rq_of_se s =? r).
Definition total (f : rt_se -> Z) (r : Z) (S : gmap Z rt_se) : Z := sumq (fun s => if queued r s then f s else 0) S.

(** The tree: an entity's queue and its own queue exist, every queue but the root has one owner, the parent owns the
    queue an entity is on, and [rank] grows downwards.  [room] bounds the number of tasks below a queue. *)
Record shape (S : gmap Z rt_se) (K : gmap Z rt_rq) (top : Z) (rank : Z -> nat) (room : Z -> Z) : Prop := {
  sh_top : is_Some (K !! top);
  sh_rq e s : S !! e = Some s -> is_Some (K !! rt_rq_of_se s);
  sh_my e s g : S !! e = Some s -> my_q s = Some g -> is_Some (K !! g) /\ g <> top /\ (rank (rt_rq_of_se s) < rank g)%nat;
  sh_owner e s e' s' g : S !! e = Some s -> S !! e' = Some s' -> my_q s = Some g -> my_q s' = Some g -> e = e';
  sh_parent e s p : S !! e = Some s -> parent s = Some p -> exists s', S !! p = Some s' /\ my_q s' = Some (rt_rq_of_se s);
  sh_root e s : S !! e = Some s -> parent s = None -> rt_rq_of_se s = top;
  sh_prio e s : S !! e = Some s -> my_q s = None -> 0 <= prio s < MAX_RT_PRIO;
  sh_room r R : K !! r = Some R -> 0 <= room r < 2 ^ 31 /\ sumq (fun s => if rt_rq_of_se s =? r then match my_q s with Some g => room g | None => 1 end else 0) S <= room r;
  sh_apart r R e s i : K !! r = Some R -> S !! e = Some s -> 0 <= i < MAX_RT_PRIO -> e <> queue_at r i;
  sh_inj r R r' R' i j : K !! r = Some R -> K !! r' = Some R' -> 0 <= i < MAX_RT_PRIO -> 0 <= j < MAX_RT_PRIO -> queue_at r i = queue_at r' j -> r = r' }.

(** The parts of an entity that queueing does not touch. *)
Definition static (s s' : rt_se) : Prop :=
  parent s' = parent s /\ rt_rq_of_se s' = rt_rq_of_se s /\ my_q s' = my_q s /\ prio s' = prio s /\ normal_prio s' = normal_prio s /\ rr s' = rr s /\ nr_cpus_allowed s' = nr_cpus_allowed s.

Lemma sumq_ext {A} (F G : A -> Z) (m : gmap Z A) : (forall x a, m !! x = Some a -> F a = G a) -> sumq F m = sumq G m.
Proof. intros H. apply Z.le_antisymm; apply sumq_mono; intros x a Hx; rewrite (H x a Hx); lia. Qed.

Lemma shape_put S K top rank room e s s' : shape S K top rank room -> S !! e = Some s -> static s s' -> shape (<[e := s']> S) K top rank room.
Proof.
  intros [A1 A2 A3 A4 A5 A6 A7 A8 A9 A10] Hs (T1 & T2 & T3 & T4 & T5 & T6 & T7).
  assert (G : forall x a, <[e := s']> S !! x = Some a -> exists a0, S !! x = Some a0 /\ static a0 a).
  { intros x a Hx. apply lookup_insert_Some in Hx as [[<- <-]|[_ Hx]]; [by exists s|]. exists a. by repeat split. }
  split.
  - done.
  - intros x a Hx. destruct (G x a Hx) as (a0 & H0 & (_ & -> & _)). by eapply A2.
  - intros x a g Hx Hg. destruct (G x a Hx) as (a0 & H0 & (_ & E1 & E2 & _)). rewrite E1. eapply (A3 x a0); [done|congruence].
  - intros x a y b g Hx Hy Ha Hb. destruct (G x a Hx) as (a0 & H0 & (_ & _ & E0 & _)). destruct (G y b Hy) as (b0 & H1 & (_ & _ & E1 & _)). apply (A4 x a0 y b0 g); congruence.
  - intros x a q Hx Hq. destruct (G x a Hx) as (a0 & H0 & (E1 & E2 & _)). destruct (A5 x a0 q H0 ltac:(congruence)) as (b & Hb & Eb). rewrite E2.
    destruct (decide (q = e)) as [->|Hne]; [exists s'; split; [apply lookup_insert_eq|]; rewrite T3; congruence|exists b; split; [by rewrite lookup_insert_ne|done]].
  - intros x a Hx Hq. destruct (G x a Hx) as (a0 & H0 & (E1 & E2 & _)). rewrite E2. eapply (A6 x a0); [done|congruence].
  - intros x a Hx Hq. destruct (G x a Hx) as (a0 & H0 & (_ & _ & E1 & E2 & _)). rewrite E2. eapply (A7 x a0); [done|congruence].
  - intros r R HR. destruct (A8 r R HR) as [B1 B2]. split; [done|]. rewrite (sumq_update _ _ _ s) by done. rewrite T2, T3. lia.
  - intros r R x a i HR Hx Hi. destruct (G x a Hx) as (a0 & H0 & _). by eapply A9.
  - done.
Qed.

Lemma shape_put_rq S K top rank room r R' : shape S K top rank room -> is_Some (K !! r) -> shape S (<[r := R']> K) top rank room.
Proof.
  intros [A1 A2 A3 A4 A5 A6 A7 A8 A9 A10] [R0 HR0].
  assert (G : forall x R, <[r := R']> K !! x = Some R -> exists R0, K !! x = Some R0) by (intros x R Hx; apply lookup_insert_Some in Hx as [[<- _]|[_ Hx]]; eauto).
  assert (G' : forall x, is_Some (K !! x) -> is_Some (<[r := R']> K !! x)) by (intros x Hx; rewrite lookup_insert_is_Some'; auto).
  split; try done.
  - auto.
  - intros e s Hs. apply G'. by eapply A2.
  - intros e s g Hs Hg. destruct (A3 e s g Hs Hg) as (B1 & B2 & B3). auto.
  - intros x R Hx. destruct (G x R Hx) as [R1 H1]. by eapply A8.
  - intros x R e s i Hx He Hi. destruct (G x R Hx) as [R1 H1]. by eapply A9.
  - intros x R y R1 i j Hx Hy Hi Hj E. destruct (G x R Hx) as [R2 H2]. destruct (G y R1 Hy) as [R3 H3]. by eapply (A10 x R2 y R3 i j).
Qed.

(** Queues, bitmaps and counters agree with the entities that are queued; a queued group has tasks. *)
Record base (S : gmap Z rt_se) (K : gmap Z rt_rq) (L : gmap Z (list Z)) (q : Z -> Z -> list Z) (top : Z) (rank : Z -> nat) (room : Z -> Z) : Prop := {
  b_shape : shape S K top rank room;
  b_queues r R : K !! r = Some R -> queues_at L r (q r) /\ bits_ok (active R) (q r);
  b_mem r R i e : K !! r = Some R -> 0 <= i < MAX_RT_PRIO -> e ∈ q r i <-> exists s, S !! e = Some s /\ on_rq s = true /\ rt_rq_of_se s = r /\ sprio K s = i;
  b_flags e s : S !! e = Some s -> on_list s = on_rq s /\ (on_rq s = true -> 0 <= sprio K s < MAX_RT_PRIO /\ 1 <= snr K s) /\ (on_rq s = false -> L !! e = Some []);
  b_nr r R : K !! r = Some R -> rt_nr_running R = total (snr K) r S /\ rt_nr_running R <= room r;
  b_rr r R : K !! r = Some R -> rr_nr_running R = total (srr K) r S /\ 0 <= rr_nr_running R <= rt_nr_running R;
  b_boost r R : K !! r = Some R -> rt_nr_boosted R = total (nboost K) r S }.

(** [curr_prio] is the priority of the most urgent queue that is not empty. *)
Definition is_min (p : Z) (q : Z -> list Z) : Prop := 0 <= p <= MAX_RT_PRIO /\ (p < MAX_RT_PRIO -> q p <> []) /\ forall i, 0 <= i < p -> q i = [].
Definition mins (K : gmap Z rt_rq) (q : Z -> Z -> list Z) : Prop := forall r R, K !! r = Some R -> is_min (curr_prio R) (q r).

(** Entities that do not stand for [r] count the same when [r] changes. *)
Lemma entity_other K r R' s : my_q s <> Some r -> sprio (<[r := R']> K) s = sprio K s /\ snr (<[r := R']> K) s = snr K s /\ srr (<[r := R']> K) s = srr K s /\ nboost (<[r := R']> K) s = nboost K s.
Proof.
  intros Hs. unfold nboost, sprio, snr, srr, sboost, of_queue. destruct (my_q s) as [g|] eqn:E; [|done]. assert (r <> g) by congruence. by rewrite !lookup_insert_ne.
Qed.

Lemma static_same K s s' : static s s' -> sprio K s' = sprio K s /\ snr K s' = snr K s /\ srr K s' = srr K s /\ nboost K s' = nboost K s.
Proof. intros (_ & _ & E1 & E2 & E3 & E4 & _). unfold nboost, sprio, snr, srr, sboost. by rewrite E1, E2, E3, E4. Qed.

Section Base.
Context {S : gmap Z rt_se} {K : gmap Z rt_rq} {L : gmap Z (list Z)} {q : Z -> Z -> list Z} {top : Z} {rank : Z -> nat} {room : Z -> Z} (Hb : base S K L q top rank room).

Lemma on_counts r e s : S !! e = Some s -> 0 <= (if queued r s then snr K s else 0).
Proof. intros Hs. unfold queued. destruct (on_rq s) eqn:E; cbn; [|lia]. destruct (b_flags _ _ _ _ _ _ _ Hb e s Hs) as (_ & H1 & _). destruct (H1 E). destruct (_ =? _); lia. Qed.

Lemma nr_nonneg r R : K !! r = Some R -> 0 <= rt_nr_running R.
Proof. intros HR. rewrite (proj1 (b_nr _ _ _ _ _ _ _ Hb r R HR)). apply sumq_nonneg_on. intros e s Hs. by eapply on_counts. Qed.

(** A queue with an entity has tasks. *)
Lemma queued_counts r R e s : K !! r = Some R -> S !! e = Some s -> on_rq s = true -> rt_rq_of_se s = r -> snr K s <= rt_nr_running R.
Proof.
  intros HR Hs Ho Er. rewrite (proj1 (b_nr _ _ _ _ _ _ _ Hb r R HR)). unfold total. pose proof (sumq_part (fun s => if queued r s then snr K s else 0) S e s (fun y a Hy => on_counts r y a Hy) Hs) as HP.
  cbv beta in HP. unfold queued in HP at 1. rewrite Ho, Er, Z.eqb_refl in HP. exact HP.
Qed.

Lemma nr_zero_empty r R i : K !! r = Some R -> rt_nr_running R = 0 -> 0 <= i < MAX_RT_PRIO -> q r i = [].
Proof.
  intros HR H0 Hi. destruct (q r i) as [|e l] eqn:E; [done|]. assert (He : e ∈ q r i) by (rewrite E; apply elem_of_cons; auto).
  apply (b_mem _ _ _ _ _ _ _ Hb r R i e HR Hi) in He as (s & Hs & Ho & Er & _). pose proof (queued_counts r R e s HR Hs Ho Er). destruct (b_flags _ _ _ _ _ _ _ Hb e s Hs) as (_ & H1 & _). destruct (H1 Ho). lia.
Qed.

Lemma nr_pos_queue r R : K !! r = Some R -> 0 < rt_nr_running R -> exists i, 0 <= i < MAX_RT_PRIO /\ q r i <> [].
Proof.
  intros HR Hp. destruct (decide (map_Forall (fun _ s => queued r s = false) S)) as [HF|HF].
  - rewrite (proj1 (b_nr _ _ _ _ _ _ _ Hb r R HR)) in Hp. unfold total in Hp. rewrite sumq_zero in Hp; [lia|]. intros e s Hs. by rewrite (HF e s Hs).
  - apply map_not_Forall in HF as (e & s & Hs & Ho); [|intros; apply _]. apply not_false_is_true in Ho. unfold queued in Ho. apply andb_true_iff in Ho as [Ho Er]. apply Z.eqb_eq in Er.
    destruct (b_flags _ _ _ _ _ _ _ Hb e s Hs) as (_ & H1 & _). destruct (H1 Ho) as [Hpr _]. exists (sprio K s). split; [done|]. intros E.
    assert (He : e ∈ q r (sprio K s)) by (apply (b_mem _ _ _ _ _ _ _ Hb r R _ e HR Hpr); by exists s). rewrite E in He. by apply elem_of_nil in He.
Qed.

(** An entity's own priority is where it is queued. *)
Lemma queued_in r R e s : K !! r = Some R -> S !! e = Some s -> on_rq s = true -> rt_rq_of_se s = r -> 0 <= sprio K s < MAX_RT_PRIO /\ e ∈ q r (sprio K s).
Proof.
  intros HR Hs Ho Er. destruct (b_flags _ _ _ _ _ _ _ Hb e s Hs) as (_ & H1 & _). destruct (H1 Ho) as [Hp _]. split; [done|]. apply (b_mem _ _ _ _ _ _ _ Hb r R _ e HR Hp). by exists s.
Qed.

(** The owner of an entity's queue is not the entity. *)
Lemma own_queue e s : S !! e = Some s -> my_q s <> Some (rt_rq_of_se s).
Proof. intros Hs E. destruct (sh_my _ _ _ _ _ (b_shape _ _ _ _ _ _ _ Hb) e s _ Hs E) as (_ & _ & Hr). lia. Qed.

(** Sums over the queues when one entity changes its state and its queue's record [R'], whose owner is not queued. *)
Lemma total_step (F : gmap Z rt_rq -> rt_se -> Z) r R' r' e s s' : (forall a, my_q a <> Some r -> F (<[r := R']> K) a = F K a) ->
  (forall x a, S !! x = Some a -> my_q a = Some r -> on_rq a = false) -> S !! e = Some s -> static s s' -> my_q s <> Some r -> F K s' = F K s ->
  total (F (<[r := R']> K)) r' (<[e := s']> S) = total (F K) r' S + (if rt_rq_of_se s =? r' then ((if on_rq s' then F K s else 0) - (if on_rq s then F K s else 0)) else 0).
Proof.
  intros HF Hoff Hs Hst Hmy HFs. unfold total. rewrite (sumq_update _ _ _ s) by done.
  rewrite (sumq_ext (fun a => if queued r' a then F (<[r := R']> K) a else 0) (fun a => if queued r' a then F K a else 0)).
  - destruct Hst as (_ & Er & Em & _). unfold queued. rewrite (HF s) by done. rewrite (HF s') by congruence. rewrite Er, HFs. destruct (rt_rq_of_se s =? r'), (on_rq s), (on_rq s'); cbn; lia.
  - intros x a Hx. unfold queued. destruct (on_rq a) eqn:E; cbn; [|done]. destruct (_ =? _); [|done]. apply HF. intros Ea. specialize (Hoff x a Hx Ea). congruence.
Qed.

(** What an entity counts for is bounded by what is below it. *)
Lemma snr_room e s : S !! e = Some s -> snr K s <= match my_q s with Some g => room g | None => 1 end.
Proof.
  intros Hs. unfold snr, of_queue. destruct (my_q s) as [g|] eqn:E; [|lia]. destruct (sh_my _ _ _ _ _ (b_shape _ _ _ _ _ _ _ Hb) e s g Hs E) as ([G HG] & _). rewrite HG. by apply (b_nr _ _ _ _ _ _ _ Hb).
Qed.

Lemma srr_range e s : S !! e = Some s -> 0 <= srr K s <= snr K s.
Proof.
  intros Hs. unfold srr, snr, of_queue. destruct (my_q s) as [g|] eqn:E; [|destruct (rr s); lia].
  destruct (sh_my _ _ _ _ _ (b_shape _ _ _ _ _ _ _ Hb) e s g Hs E) as ([G HG] & _). rewrite HG. by apply (b_rr _ _ _ _ _ _ _ Hb g).
Qed.

(** One entity is put on its queue, or taken off it. *)
Section Toggle.
Context {e : Z} {s : rt_se} {r : Z} {R R' : rt_rq} {i : Z} {l' : list Z} {L' : gmap Z (list Z)} {b : bool}.
Context (Hs : S !! e = Some s) (Er : rt_rq_of_se s = r) (HR : K !! r = Some R) (Hflip : on_rq s = negb b) (Hoff : forall x a, S !! x = Some a -> my_q a = Some r -> on_rq a = false)
  (Ei : sprio K s = i) (Hi : 0 <= i < MAX_RT_PRIO) (Hn : 1 <= snr K s)
  (Hl : forall x, x ∈ l' <-> if b then x = e \/ x ∈ q r i else x <> e /\ x ∈ q r i)
  (HL1 : L' !! queue_at r i = Some l') (HL2 : b = false -> L' !! e = Some []) (HL3 : forall k, k <> queue_at r i -> k <> e -> L' !! k = L !! k)
  (HB : bits_ok (active R') (upd (q r) i l')).
Let s' := set_on s b b.
Let K' := <[r := R']> K.
Let S' := <[e := s']> S.
Let q' := fun r0 => if r0 =? r then upd (q r) i l' else q r0.
Context (Hnr : rt_nr_running R' = total (snr K') r S') (Hrr : rr_nr_running R' = total (srr K') r S') (Hbo : rt_nr_boosted R' = total (nboost K') r S').

Lemma toggle_static : static s s'.
Proof. by repeat split. Qed.

Lemma toggle_entity x a : S' !! x = Some a -> my_q a <> Some r -> sprio K' a = sprio K a /\ snr K' a = snr K a /\ srr K' a = srr K a /\ nboost K' a = nboost K a.
Proof. intros _ Ha. by apply entity_other. Qed.

Lemma toggle_on x a : S' !! x = Some a -> on_rq a = true -> my_q a <> Some r.
Proof.
  intros Hx Ha E. apply lookup_insert_Some in Hx as [[<- <-]|[_ Hx]]; [cbn in E; rewrite <- Er in E; by apply (own_queue e s Hs)|]. specialize (Hoff x a Hx E). congruence.
Qed.

Lemma toggle_mem r0 R0 j x : K' !! r0 = Some R0 -> 0 <= j < MAX_RT_PRIO -> x ∈ q' r0 j <-> exists a, S' !! x = Some a /\ on_rq a = true /\ rt_rq_of_se a = r0 /\ sprio K' a = j.
Proof.
  intros H0 Hj. assert (H0' : exists R1, K !! r0 = Some R1) by (apply lookup_insert_Some in H0 as [[<- _]|[_ H0]]; eauto). destruct H0' as [R1 H1].
  assert (Hother : x <> e -> (exists a, S' !! x = Some a /\ on_rq a = true /\ rt_rq_of_se a = r0 /\ sprio K' a = j) <-> x ∈ q r0 j).
  { intros Hx. rewrite (b_mem _ _ _ _ _ _ _ Hb r0 R1 j x H1 Hj). split; intros (a & Ha & Ho & Ear & Eap).
    - exists a. assert (Hxa := Ha). unfold S' in Ha. rewrite lookup_insert_ne in Ha by done. destruct (toggle_entity x a Hxa (toggle_on x a Hxa Ho)) as [E1 _]. split; [done|]. split; [done|]. split; [done|congruence].
    - exists a. assert (Hxa : S' !! x = Some a) by (unfold S'; by rewrite lookup_insert_ne). destruct (toggle_entity x a Hxa (toggle_on x a Hxa Ho)) as [E1 _]. split; [done|]. split; [done|]. split; [done|congruence]. }
  assert (Hself : (exists a, S' !! e = Some a /\ on_rq a = true /\ rt_rq_of_se a = r0 /\ sprio K' a = j) <-> b = true /\ r0 = r /\ j = i).
  { assert (HSe : S' !! e = Some s') by (unfold S'; apply lookup_insert_eq). assert (Ep : sprio K' s' = i).
    { destruct (toggle_entity e s' HSe) as [-> _]; [cbn; rewrite <- Er; by apply (own_queue e s)|]. exact Ei. }
    split; [intros (a & Ha & Ho & Ear & Eap); rewrite HSe in Ha; injection Ha as <-; cbn in Ho, Ear; split; [done|]; split; congruence|].
    intros (-> & -> & ->). exists s'. split; [done|]. split; [done|]. split; [done|done]. }
  unfold q'. destruct (decide (x = e)) as [->|Hx].
  - rewrite Hself. destruct (Z.eqb_spec r0 r) as [->|Hr]; [unfold upd; destruct (Z.eqb_spec j i) as [->|Hji]|].
    + rewrite Hl. destruct b; [tauto|]. split; [intros [? _]; done|intros [? _]; done].
    + split; [|tauto]. intros He. apply (b_mem _ _ _ _ _ _ _ Hb r R1 j e H1 Hj) in He as (a & Ha & _ & _ & Ep). rewrite Hs in Ha. injection Ha as <-. congruence.
    + split; [|tauto]. intros He. apply (b_mem _ _ _ _ _ _ _ Hb r0 R1 j e H1 Hj) in He as (a & Ha & _ & Ea & _). rewrite Hs in Ha. injection Ha as <-. congruence.
  - rewrite Hother by done. destruct (Z.eqb_spec r0 r) as [->|Hr]; [|done]. unfold upd. destruct (Z.eqb_spec j i) as [->|Hji]; [|done]. rewrite Hl. destruct b; tauto.
Qed.

Lemma toggle_queues r0 R0 : K' !! r0 = Some R0 -> queues_at L' r0 (q' r0) /\ bits_ok (active R0) (q' r0).
Proof.
  intros H0. pose proof (b_shape _ _ _ _ _ _ _ Hb) as Hsh.
  assert (Hk : forall r1 R1 j, K !! r1 = Some R1 -> 0 <= j < MAX_RT_PRIO -> (r1 = r -> j <> i) -> L' !! queue_at r1 j = Some (q r1 j)).
  { intros r1 R1 j H1 Hj Hne. rewrite HL3; [by apply (b_queues _ _ _ _ _ _ _ Hb r1 R1)| |intros E; by apply (sh_apart _ _ _ _ _ Hsh r1 R1 e s j H1 Hs Hj)].
    intros E. assert (r1 = r) as -> by (by apply (sh_inj _ _ _ _ _ Hsh r1 R1 r R j i)). apply queue_at_inj in E. by apply Hne. }
  unfold q'. destruct (Z.eqb_spec r0 r) as [->|Hr].
  - unfold K' in H0. rewrite lookup_insert_eq in H0. injection H0 as <-. split; [|done]. intros j Hj. unfold upd. destruct (Z.eqb_spec j i) as [->|Hji]; [done|]. by apply (Hk r R).
  - unfold K' in H0. rewrite lookup_insert_ne in H0 by done. split; [|by apply (b_queues _ _ _ _ _ _ _ Hb r0)]. intros j Hj. by apply (Hk r0 R0).
Qed.

Lemma toggle_total (F : gmap Z rt_rq -> rt_se -> Z) r0 : (forall a, my_q a <> Some r -> F K' a = F K a) -> F K s' = F K s -> r0 <> r -> total (F K') r0 S' = total (F K) r0 S.
Proof.
  intros HF HFs Hne. unfold K', S'. rewrite (total_step F r R' r0 e s s' HF Hoff Hs toggle_static); [|rewrite <- Er; by apply (own_queue e s)|done].
  rewrite (proj2 (Z.eqb_neq _ _)) by congruence. lia.
Qed.

Lemma toggle_flags x a : S' !! x = Some a -> on_list a = on_rq a /\ (on_rq a = true -> 0 <= sprio K' a < MAX_RT_PRIO /\ 1 <= snr K' a) /\ (on_rq a = false -> L' !! x = Some []).
Proof.
  intros Hx. pose proof (toggle_on x a Hx) as Hon. assert (Hx' := Hx). apply lookup_insert_Some in Hx as [[<- <-]|[Hne Hx]].
  - split; [done|]. split; [|exact HL2]. intros Ho. destruct (toggle_entity e s' Hx' (Hon Ho)) as (-> & -> & _). destruct (static_same K s s' toggle_static) as (-> & -> & _). by rewrite Ei.
  - destruct (b_flags _ _ _ _ _ _ _ Hb x a Hx) as (F1 & F2 & F3). split; [done|]. split; [intros Ho; destruct (toggle_entity x a Hx' (Hon Ho)) as (-> & -> & _); auto|].
    intros Ho. rewrite HL3; [auto| |congruence]. intros E. by apply (sh_apart _ _ _ _ _ (b_shape _ _ _ _ _ _ _ Hb) r R x a i HR Hx Hi).
Qed.

Lemma toggle_snr x a : S' !! x = Some a -> on_rq a = true -> 0 <= srr K' a <= snr K' a /\ snr K' a <= match my_q a with Some g => room g | None => 1 end.
Proof.
  intros Hx Ho. destruct (toggle_entity x a Hx (toggle_on x a Hx Ho)) as (_ & -> & -> & _). apply lookup_insert_Some in Hx as [[<- <-]|[Hne Hx]].
  - destruct (static_same K s s' toggle_static) as (_ & -> & -> & _). split; [by apply (srr_range e)|]. cbn. by apply (snr_room e).
  - split; [by apply (srr_range x)|by apply (snr_room x)].
Qed.

Lemma base_toggle : base S' K' L' q' top rank room.
Proof.
  assert (Hsh : shape S' K' top rank room).
  { apply shape_put_rq; [|by eexists]. apply (shape_put _ _ _ _ _ e s); [apply (b_shape _ _ _ _ _ _ _ Hb)|done|apply toggle_static]. }
  destruct (static_same K s s' toggle_static) as (_ & Sn & Sr & Sb).
  assert (HE : forall a, my_q a <> Some r -> snr K' a = snr K a /\ srr K' a = srr K a /\ nboost K' a = nboost K a) by (intros a Ha; destruct (entity_other K r R' a Ha) as (_ & ?); done).
  split; [done|exact toggle_queues|exact toggle_mem|exact toggle_flags| | |].
  - intros r0 R0 H0. destruct (Z.eq_dec r0 r) as [->|Hne].
    + assert (H0' := H0). unfold K' in H0. rewrite lookup_insert_eq in H0. injection H0 as <-. split; [done|]. rewrite Hnr. destruct (sh_room _ _ _ _ _ Hsh r R' H0') as [_ Hc].
      etransitivity; [|exact Hc]. apply sumq_mono. intros x a Hx. unfold queued. destruct (on_rq a) eqn:Ho; cbn [andb].
      * destruct (_ =? r); [|lia]. by apply (toggle_snr x).
      * destruct (_ =? r); [|lia]. destruct (my_q a) as [g|] eqn:Eg; [|lia]. destruct (sh_my _ _ _ _ _ Hsh x a g Hx Eg) as ([G HG] & _). by apply (sh_room _ _ _ _ _ Hsh g G).
    + unfold K' in H0. rewrite lookup_insert_ne in H0 by done. rewrite (toggle_total snr r0); [by apply (b_nr _ _ _ _ _ _ _ Hb)|by apply HE|done|done].
  - intros r0 R0 H0. destruct (Z.eq_dec r0 r) as [->|Hne].
    + unfold K' in H0. rewrite lookup_insert_eq in H0. injection H0 as <-. split; [done|]. rewrite Hnr, Hrr. unfold total. split.
      * apply sumq_nonneg_on. intros x a Hx. unfold queued. destruct (on_rq a) eqn:Ho; cbn [andb]; [|lia]. destruct (_ =? r); [|lia]. by apply (toggle_snr x).
      * apply sumq_mono. intros x a Hx. unfold queued. destruct (on_rq a) eqn:Ho; cbn [andb]; [|lia]. destruct (_ =? r); [|lia]. by apply (toggle_snr x).
    + unfold K' in H0. rewrite lookup_insert_ne in H0 by done. rewrite (toggle_total srr r0); [by apply (b_rr _ _ _ _ _ _ _ Hb)|by apply HE|done|done].
  - intros r0 R0 H0. destruct (Z.eq_dec r0 r) as [->|Hne].
    + unfold K' in H0. rewrite lookup_insert_eq in H0. by injection H0 as <-.
    + unfold K' in H0. rewrite lookup_insert_ne in H0 by done. rewrite (toggle_total nboost r0); [by apply (b_boost _ _ _ _ _ _ _ Hb)|by apply HE|done|done].
Qed.
End Toggle.
End Base.
