(* ===== verification/RtSteps.v ===== *)
(** * One entity on or off its queue: the real-time counters

    [__enqueue_rt_entity] and [__dequeue_rt_entity] of RtQueue.v keep the invariant of RtInvariant.v, the count of
    migratable tasks with the overload mask, and the priority of the CPU in the root domain. *)

From stdpp Require Import gmap list.
From S2P Require Import Prelude Sums Bitops Bitmap ListHead Cpumask Cpupri RtArray RtBandwidth RtQueue RtInvariant.
Local Open Scope Z_scope.
Local Open Scope res_scope.

(** What queueing leaves alone. *)
Record near (w w' : rq) : Prop := {
  nr_lists : lists w' = lists w; nr_ses : ses w' = ses w; nr_top : top w' = top w; nr_groups : groups w' = groups w; nr_cpu : cpu w' = cpu w;
  nr_online : online w' = online w; nr_nr : nr_running w' = nr_running w; nr_over : rd_overload w' = rd_overload w; nr_se_of : rt_se_of w' = rt_se_of w; nr_resched : resched w' = resched w }.

Lemma near_refl w : near w w.
Proof. by split. Qed.
Lemma near_trans w1 w2 w3 : near w1 w2 -> near w2 w3 -> near w1 w3.
Proof. intros [] []. split; congruence. Qed.

(** Every run queue has a budget on this CPU. *)
Definition budgeted (w : rq) : Prop := forall r R, rqs w !! r = Some R -> exists g a, groups w !! tg R = Some g /\ rt_rqs g !! cpu w = Some a.
Definition thr (w : rq) (R : rt_rq) : bool :=
  match groups w !! tg R with Some g => match rt_rqs g !! cpu w with Some a => rt_rq_throttled (rt_throttled a) (rt_nr_boosted R) | None => false end | None => false end.

Lemma is_throttled_ok w r R : budgeted w -> rqs w !! r = Some R -> is_throttled w R = Ok (thr w R).
Proof. intros HB HR. destruct (HB r R HR) as (g & a & Eg & Ea). unfold is_throttled, thr, get_group, get_acct. by rewrite Eg, Ea; cbn [res_bind]; rewrite Ea. Qed.

(** ** The priority of the CPU *)

Section Possible.
Context (possible : list Z).

Record synced (w : rq) : Prop := {
  sy_cpu : 0 <= cpu w < NR_CPUS; sy_possible : bit possible (cpu w) = true; sy_pri : cpupri_ok possible (cpupri w);
  sy_level T : online w = true -> rqs w !! top w = Some T -> cpu_to_pri (cpupri w) !! Z.to_nat (cpu w) = Some (convert_prio (curr_prio T)) }.

Lemma set_level w p : synced w -> 0 <= p -> exists c, cpupri_set (cpupri w) (cpu w) p = Ok c /\ cpupri_ok possible c /\ cpu_to_pri c !! Z.to_nat (cpu w) = Some (convert_prio p).
Proof.
  intros [H1 H2 H3 _] Hp. destruct (cpupri_set_ok possible (cpupri w) (cpu w) p H3 H1 H2 ltac:(lia)) as (c & E & Hc & Ec). exists c. split; [done|]. split; [done|]. rewrite Ec.
  apply list_lookup_insert_eq. rewrite (ok_cpus _ _ H3). lia.
Qed.

Lemma set_curr_same R : set_curr_prio R (curr_prio R) = R.
Proof. by destruct R. Qed.

Lemma inc_prio_ok w r R p : synced w -> rqs w !! r = Some R -> 0 <= p ->
  exists w', inc_rt_prio w r p = Ok w' /\ near w w' /\ synced w' /\ rqs w' = <[r := set_curr_prio R (Z.min (curr_prio R) p)]> (rqs w) /\ rto_mask w' = rto_mask w.
Proof.
  intros Hs HR Hp. assert (Hs0 := Hs). destruct Hs as [H1 H2 H3 H4]. unfold inc_rt_prio, get_rq. rewrite HR. cbn [res_bind]. destruct (Z.ltb_spec p (curr_prio R)) as [Hlt|Hge].
  - rewrite Z.min_r by lia. unfold inc_rt_prio_smp. cbn [top online put_rq cpupri cpu]. rewrite (proj2 (Z.ltb_lt _ _)) by done. rewrite andb_true_r.
    destruct (Z.eqb_spec (top w) r) as [Et|Et]; cbn [negb].
    + destruct (online w) eqn:Eo.
      * destruct (set_level w p Hs0 Hp) as (c & E & Hc & Ec). rewrite E. cbn [res_bind]. eexists. split; [done|]. split; [by split|]. split; [|done]. split; try done.
        intros T _ HT. cbn in HT |- *. rewrite Et, lookup_insert_eq in HT. injection HT as <-. done.
      * eexists. split; [done|]. split; [by split|]. split; [|done]. split; try done. cbn. by rewrite Eo.
    + eexists. split; [done|]. split; [by split|]. split; [|done]. split; try done. cbn. intros T Ho HT. rewrite lookup_insert_ne in HT by congruence. by apply H4.
  - rewrite Z.min_l, set_curr_same, insert_id by (done || lia). exists w. unfold inc_rt_prio_smp. rewrite (proj2 (Z.ltb_ge _ _)) by done. rewrite andb_false_r. split; [by destruct (negb _)|]. split; [apply near_refl|done].
Qed.

Lemma dec_prio_ok w r R p qn : synced w -> rqs w !! r = Some R -> bits_ok (active R) qn -> 0 <= curr_prio R ->
  exists w' p', dec_rt_prio w r p = Ok w' /\ near w w' /\ synced w' /\ rqs w' = <[r := set_curr_prio R p']> (rqs w) /\ rto_mask w' = rto_mask w /\
    (rt_nr_running R = 0 -> p' = MAX_RT_PRIO) /\ (rt_nr_running R <> 0 -> if p =? curr_prio R then is_min p' qn else p' = curr_prio R).
Proof.
  intros Hs HR Hb Hc. assert (Hs0 := Hs). destruct Hs as [H1 H2 H3 H4]. unfold dec_rt_prio, get_rq. rewrite HR. cbn [res_bind].
  assert (Hp : exists p', (if negb (rt_nr_running R =? 0) then if p =? curr_prio R then i <-- sched_find_first_bit (active R); Ok (put_rq w r (set_curr_prio R i)) else Ok w
         else Ok (put_rq w r (set_curr_prio R MAX_RT_PRIO))) = Ok (put_rq w r (set_curr_prio R p')) /\ 0 <= p' /\
      (rt_nr_running R = 0 -> p' = MAX_RT_PRIO) /\ (rt_nr_running R <> 0 -> if p =? curr_prio R then is_min p' qn else p' = curr_prio R)).
  { destruct (Z.eqb_spec (rt_nr_running R) 0) as [E0|E0]; cbn [negb]; [exists MAX_RT_PRIO; done|]. destruct (p =? curr_prio R).
    - destruct (first_bit_ok _ _ Hb) as (f & -> & F). cbn [res_bind]. exists f. split; [done|]. split; [lia|]. done.
    - exists (curr_prio R). rewrite set_curr_same. split; [|done]. f_equal. unfold put_rq. rewrite insert_id by done. by destruct w. }
  destruct Hp as (p' & -> & Hp0 & Hp1 & Hp2). cbn [res_bind]. unfold dec_rt_prio_smp, get_rq. cbn [top put_rq rqs online cpupri cpu].
  destruct (Z.eqb_spec (top w) r) as [Et|Et]; cbn [negb].
  - rewrite lookup_insert_eq. cbn [res_bind curr_prio set_curr_prio]. destruct (online w && negb (p' =? curr_prio R)) eqn:Eo.
    + destruct (set_level w p' Hs0 Hp0) as (c & E & Hc' & Ec). rewrite E. cbn [res_bind]. eexists _, p'. split; [done|]. split; [by split|]. split; [|done]. split; try done.
      intros T _ HT. cbn in HT |- *. rewrite Et, lookup_insert_eq in HT. injection HT as <-. done.
    + eexists _, p'. split; [done|]. split; [by split|]. split; [|done]. split; try done. cbn. intros T Ho HT. rewrite Et, lookup_insert_eq in HT. injection HT as <-.
      rewrite Ho in Eo. cbn in Eo. apply negb_false_iff, Z.eqb_eq in Eo. cbn. rewrite Eo. apply H4; [done|congruence].
  - eexists _, p'. split; [done|]. split; [by split|]. split; [|done]. split; try done. cbn. intros T Ho HT. rewrite lookup_insert_ne in HT by congruence. by apply H4.
Qed.

Lemma core_lookup w w' r R : core <$> rqs w' = core <$> rqs w -> rqs w' !! r = Some R -> exists R0, rqs w !! r = Some R0 /\ core R0 = core R.
Proof.
  intros E HR. assert (E' : (core <$> rqs w') !! r = (core <$> rqs w) !! r) by (by rewrite E). rewrite !lookup_fmap, HR in E'. cbn in E'.
  destruct (rqs w !! r) as [R0|]; [|done]. exists R0. split; [done|]. cbn in E'. congruence.
Qed.

Lemma core_curr R R0 : core R0 = core R -> curr_prio R0 = curr_prio R /\ rt_nr_running R0 = rt_nr_running R /\ rr_nr_running R0 = rr_nr_running R /\ rt_nr_boosted R0 = rt_nr_boosted R /\ active R0 = active R /\ tg R0 = tg R /\ rt_queued R0 = rt_queued R.
Proof. intros E. unfold core, set_migration in E. injection E. intros. by repeat split. Qed.

Lemma synced_core w w' : near w w' -> cpupri w' = cpupri w -> core <$> rqs w' = core <$> rqs w -> synced w -> synced w'.
Proof.
  intros N Ec Er [H1 H2 H3 H4]. split; rewrite ?Ec, ?(nr_cpu _ _ N); try done. rewrite (nr_online _ _ N), (nr_top _ _ N). intros T Ho HT.
  destruct (core_lookup w w' _ T Er HT) as (T0 & HT0 & E0). destruct (core_curr _ _ E0) as [<- _]. by apply H4.
Qed.

(** ** Migratable tasks *)

Record migration (w : rq) (tot mig : Z) : Prop := {
  mg_top : exists T, rqs w !! top w = Some T /\ rt_nr_total T = tot /\ rt_nr_migratory T = mig /\ overloaded T = negb (mig =? 0) && (1 <? tot) /\ (online w = true -> bit (rto_mask w) (cpu w) = overloaded T);
  mg_mask : cpumask (rto_mask w); mg_cpu : 0 <= cpu w < NR_CPUS }.

Definition is_task (s : rt_se) : Z := if rt_entity_is_task s then 1 else 0.
Definition is_movable (s : rt_se) : Z := if rt_entity_is_task s && (1 <? nr_cpus_allowed s) then 1 else 0.

Lemma core_put_top w T T' : rqs w !! top w = Some T -> core T' = core T -> core <$> (<[top w := T']> (rqs w)) = core <$> rqs w.
Proof. intros HT E. rewrite fmap_insert, E, <- fmap_insert. by rewrite insert_id. Qed.

Lemma overload_ok (b : bool) w : cpumask (rto_mask w) -> 0 <= cpu w < NR_CPUS ->
  exists w', (if b then rt_set_overload w else rt_clear_overload w) = Ok w' /\ near w w' /\ rqs w' = rqs w /\ cpupri w' = cpupri w /\ cpumask (rto_mask w') /\ (online w = true -> bit (rto_mask w') (cpu w) = b).
Proof.
  intros Hm Hc. destruct b; unfold rt_set_overload, rt_clear_overload; (destruct (online w) eqn:Eo; cbn [negb]; [|exists w; split; [done|]; split; [apply near_refl|done]]).
  - destruct (cpumask_set_cpu_ok _ _ Hm Hc) as (a & E & Ha & Ba). rewrite E. cbn [res_bind]. eexists. split; [done|]. split; [by split|]. do 2 (split; [done|]). split; [done|]. intros _. cbn. rewrite Ba by lia. by rewrite Z.eqb_refl.
  - destruct (cpumask_clear_cpu_ok _ _ Hm Hc) as (a & E & Ha & Ba). rewrite E. cbn [res_bind]. eexists. split; [done|]. split; [by split|]. do 2 (split; [done|]). split; [done|]. intros _. cbn. rewrite Ba by lia. by rewrite Z.eqb_refl.
Qed.

Lemma update_migration_ok w T : rqs w !! top w = Some T -> cpumask (rto_mask w) -> 0 <= cpu w < NR_CPUS -> (online w = true -> bit (rto_mask w) (cpu w) = overloaded T) ->
  exists w', update_rt_migration w = Ok w' /\ near w w' /\ cpupri w' = cpupri w /\ core <$> rqs w' = core <$> rqs w /\ migration w' (rt_nr_total T) (rt_nr_migratory T).
Proof.
  intros HT Hm Hc Ho. unfold update_rt_migration, get_rq. rewrite HT. cbn [res_bind].
  assert (HS : forall b, b = negb (rt_nr_migratory T =? 0) && (1 <? rt_nr_total T) ->
     exists w', (w1 <-- (if b then rt_set_overload w else rt_clear_overload w); Ok (put_rq w1 (top w1) (set_migration T (rt_nr_migratory T) (rt_nr_total T) b))) = Ok w' /\
       near w w' /\ cpupri w' = cpupri w /\ core <$> rqs w' = core <$> rqs w /\ migration w' (rt_nr_total T) (rt_nr_migratory T)).
  { intros b Eb. destruct (overload_ok b w Hm Hc) as (w1 & -> & N1 & R1 & C1 & M1 & B1). cbn [res_bind]. eexists. split; [done|]. rewrite (nr_top _ _ N1). destruct N1. split; [by split|]. split; [done|].
    split; [cbn; rewrite R1; by apply (core_put_top w T)|]. split; [|done|cbn; congruence]. cbn. exists (set_migration T (rt_nr_migratory T) (rt_nr_total T) b). rewrite nr_top0, lookup_insert_eq. do 4 (split; [done|]). cbn. rewrite nr_online0, nr_cpu0. done. }
  destruct (negb (rt_nr_migratory T =? 0) && (1 <? rt_nr_total T)) eqn:E; destruct (overloaded T) eqn:Eov.
  - exists w. split; [done|]. split; [apply near_refl|]. do 2 (split; [done|]). split; [|done|done]. exists T. do 3 (split; [done|]). split; [congruence|]. by rewrite Eov.
  - exact (HS true eq_refl).
  - exact (HS false eq_refl).
  - exists w. split; [done|]. split; [apply near_refl|]. do 2 (split; [done|]). split; [|done|done]. exists T. do 3 (split; [done|]). split; [congruence|]. by rewrite Eov.
Qed.

Lemma migration_ok w s d tot mig : migration w tot mig -> 0 <= tot + d * is_task s < 2 ^ 63 -> 0 <= mig + d * is_movable s < 2 ^ 63 ->
  exists w', change_migration w s d = Ok w' /\ near w w' /\ cpupri w' = cpupri w /\ core <$> rqs w' = core <$> rqs w /\ migration w' (tot + d * is_task s) (mig + d * is_movable s).
Proof.
  intros [(T & HT & E1 & E2 & E3 & E4) Hm Hc] Ht Hg. unfold change_migration, is_task, is_movable in *. destruct (rt_entity_is_task s) eqn:Es; cbn [negb andb] in *.
  - unfold get_rq. rewrite HT. cbn [res_bind]. set (T1 := set_migration T _ _ _). destruct (update_migration_ok (put_rq w (top w) T1) T1) as (w' & E & N & C & Q & M).
    + cbn. apply lookup_insert_eq.
    + done.
    + done.
    + exact E4.
    + exists w'. split; [done|]. split; [destruct N; by split|]. split; [done|]. split; [rewrite Q; cbn; by apply (core_put_top w T)|].
      replace (tot + d * 1) with (rt_nr_total T1) by (cbn; rewrite u64_small; lia).
      replace (mig + d * (if 1 <? nr_cpus_allowed s then 1 else 0)) with (rt_nr_migratory T1) by (cbn; destruct (1 <? nr_cpus_allowed s); [rewrite u64_small; lia|lia]). done.
  - exists w. split; [done|]. split; [apply near_refl|]. do 2 (split; [done|]). rewrite !Z.mul_0_r, !Z.add_0_r. split; [by exists T|done|done].
Qed.

(** ** The counters *)

Lemma entity_reads_ok w s : (forall g, my_q s = Some g -> is_Some (rqs w !! g)) ->
  let K := core <$> rqs w in rt_se_prio w s = Ok (sprio K s) /\ rt_se_nr_running w s = Ok (snr K s) /\ rt_se_rr_nr_running w s = Ok (srr K s) /\ rt_se_boosted w s = Ok (sboost K s).
Proof.
  intros Hg. cbv zeta. unfold rt_se_prio, rt_se_nr_running, rt_se_rr_nr_running, rt_se_boosted, sprio, snr, srr, sboost, of_queue, get_rq. destruct (my_q s) as [g|]; [|done].
  destruct (Hg g eq_refl) as [R HR]. rewrite lookup_fmap, HR. done.
Qed.

Lemma exists_put w r R g : rqs w !! r = Some R -> is_Some (rqs w !! g) -> forall R', is_Some (<[r := R']> (rqs w) !! g).
Proof. intros _ Hg R'. rewrite lookup_insert_is_Some'. auto. Qed.

Lemma sboost_other K r R' s : my_q s <> Some r -> sboost (<[r := R']> K) s = sboost K s.
Proof. intros Hs. unfold sboost, of_queue. destruct (my_q s) as [g|] eqn:E; [|done]. assert (r <> g) by congruence. by rewrite lookup_insert_ne. Qed.

(** The last step: boosting, where the other run queues are as [K]. *)
Lemma boost_ok w r R s d : rqs w !! r = Some R -> 0 <= rt_nr_boosted R + d * nboost (core <$> rqs w) s < 2 ^ 63 -> sboost (core <$> rqs w) s = true \/ sboost (core <$> rqs w) s = false ->
  let w' := if sboost (core <$> rqs w) s then put_rq w r (set_boosted R (u64 (rt_nr_boosted R + d))) else w in
  near w w' /\ cpupri w' = cpupri w /\ rto_mask w' = rto_mask w /\ rqs w' = <[r := set_boosted R (rt_nr_boosted R + d * nboost (core <$> rqs w) s)]> (rqs w).
Proof.
  intros HR Hb _. cbv zeta. unfold nboost in *. destruct (sboost (core <$> rqs w) s).
  - split; [by split|]. do 2 (split; [done|]). cbn. rewrite u64_small by lia. by rewrite Z.mul_1_r.
  - split; [apply near_refl|]. do 2 (split; [done|]). rewrite Z.mul_0_r, Z.add_0_r, insert_id; [done|]. by destruct R.
Qed.

Lemma migration_core w w' tot mig : near w w' -> rto_mask w' = rto_mask w -> (forall T, rqs w !! top w = Some T -> exists T', rqs w' !! top w = Some T' /\ rt_nr_total T' = rt_nr_total T /\ rt_nr_migratory T' = rt_nr_migratory T /\ overloaded T' = overloaded T) ->
  migration w tot mig -> migration w' tot mig.
Proof.
  intros N Em Ht [(T & HT & E1 & E2 & E3 & E4) Hm Hc]. destruct (Ht T HT) as (T' & HT' & F1 & F2 & F3). destruct N. split; [|congruence|congruence].
  exists T'. rewrite nr_top0. split; [done|]. split; [congruence|]. split; [congruence|]. split; [congruence|]. rewrite nr_online0, nr_cpu0, Em, F3. done.
Qed.

(** A change of one run queue that keeps the migration counts. *)
Lemma top_put w r R R' T : rqs w !! r = Some R -> rt_nr_total R' = rt_nr_total R -> rt_nr_migratory R' = rt_nr_migratory R -> overloaded R' = overloaded R -> rqs w !! top w = Some T ->
  exists T', <[r := R']> (rqs w) !! top w = Some T' /\ rt_nr_total T' = rt_nr_total T /\ rt_nr_migratory T' = rt_nr_migratory T /\ overloaded T' = overloaded T.
Proof.
  intros HR E1 E2 E3 HT. destruct (decide (r = top w)) as [->|Hne]; [exists R'; rewrite lookup_insert_eq; rewrite HR in HT; injection HT as <-; done|exists T; by rewrite lookup_insert_ne].
Qed.

Lemma synced_put w r R R' : synced w -> rqs w !! r = Some R -> curr_prio R' = curr_prio R -> synced (put_rq w r R').
Proof.
  intros [H1 H2 H3 H4] HR E. split; try done. cbn. intros T Ho HT. apply lookup_insert_Some in HT as [[-> <-]|[_ HT]]; [rewrite E; by apply H4|by apply H4].
Qed.

Lemma synced_near w w' r R R' : synced w -> near w w' -> cpupri w' = cpupri w -> rqs w !! r = Some R -> curr_prio R' = curr_prio R -> rqs w' = <[r := R']> (rqs w) -> synced w'.
Proof.
  intros Hs N C HR E Q. destruct (synced_put w r R R' Hs HR E) as [H1 H2 H3 H4]. destruct N. split; rewrite ?C, ?nr_cpu0; try done.
  intros T Ho HT. rewrite nr_top0, Q in HT. apply H4; [cbn; congruence|done].
Qed.

(** Migration and boosting after the queue [r] was changed to [R1]: [d] is 1 or -1. *)
Lemma tail_ok w w2 r R R1 s d tot mig : let K := core <$> rqs w in synced w2 -> near w w2 -> migration w2 tot mig -> rqs w !! r = Some R -> rqs w2 = <[r := R1]> (rqs w) -> my_q s <> Some r ->
  (forall g, my_q s = Some g -> is_Some (rqs w !! g)) -> 0 <= rt_nr_boosted R1 + d * nboost K s < 2 ^ 63 -> 0 <= tot + d * is_task s < 2 ^ 63 -> 0 <= mig + d * is_movable s < 2 ^ 63 ->
  exists w3 R3, change_migration w2 s d = Ok w3 /\ rqs w3 !! r = Some R3 /\ tg R3 = tg R1 /\ rt_se_boosted w3 s = Ok (sboost K s) /\
    let w4 := if sboost K s then put_rq w3 r (set_boosted R3 (u64 (rt_nr_boosted R3 + d))) else w3 in
    near w w4 /\ synced w4 /\ migration w4 (tot + d * is_task s) (mig + d * is_movable s) /\ core <$> rqs w4 = <[r := core (set_boosted R1 (rt_nr_boosted R1 + d * nboost K s))]> K.
Proof.
  intros K S2 N2 Mg2 HR Q2 Hmy Hg Bb Bt Bm.
  destruct (migration_ok w2 s d tot mig Mg2 Bt Bm) as (w3 & E5 & N3 & C3 & Q3 & Mg3).
  assert (K2 : core <$> rqs w2 = <[r := core R1]> K) by (rewrite Q2; apply fmap_insert).
  assert (HR3 : exists R3, rqs w3 !! r = Some R3 /\ core R3 = core R1).
  { assert (E : (core <$> rqs w3) !! r = Some (core R1)) by (rewrite Q3, K2; apply lookup_insert_eq). rewrite lookup_fmap in E. destruct (rqs w3 !! r) as [R3|]; [|done]. exists R3. split; [done|]. cbn in E. congruence. }
  destruct HR3 as (R3 & HR3 & ER3). destruct (core_curr _ _ ER3) as (_ & _ & _ & Eb & _ & Etg & _).
  assert (Hg3 : forall g, my_q s = Some g -> is_Some (rqs w3 !! g)).
  { intros g Eg. assert (G : is_Some ((core <$> rqs w3) !! g)) by (rewrite Q3, K2; apply lookup_insert_is_Some'; right; unfold K; rewrite lookup_fmap; apply fmap_is_Some; auto). rewrite lookup_fmap in G. by apply fmap_is_Some in G. }
  assert (SB : sboost (core <$> rqs w3) s = sboost K s) by (rewrite Q3, K2; by apply sboost_other).
  assert (B3 : nboost (core <$> rqs w3) s = nboost K s) by (unfold nboost; by rewrite SB). destruct (entity_reads_ok w3 s Hg3) as (_ & _ & _ & E6). rewrite SB in E6.
  destruct (boost_ok w3 r R3 s d HR3) as (N4 & C4 & M4 & Q4); [rewrite B3, Eb; lia|destruct (sboost (core <$> rqs w3) s); auto|]. rewrite B3 in Q4. rewrite SB in N4, C4, M4, Q4.
  exists w3, R3. do 4 (split; [done|]). cbv zeta. set (w4 := if sboost K s then _ else w3) in *.
  split; [apply (near_trans w w2); [done|]; by apply (near_trans w2 w3)|]. split.
  { apply (synced_near w3 w4 r R3 (set_boosted R3 (rt_nr_boosted R3 + d * nboost K s))); try done. by apply (synced_core w2 w3). }
  split.
  - apply (migration_core w3); [done|done| |done]. intros T HT. rewrite Q4. by apply (top_put w3 r R3).
  - rewrite Q4, fmap_insert, Q3, K2, insert_insert_eq. f_equal. change (core (set_boosted R3 (rt_nr_boosted R3 + d * nboost K s))) with (set_boosted (core R3) (rt_nr_boosted R3 + d * nboost K s)). by rewrite ER3, Eb.
Qed.

Section Counters.
Context {w : rq} {s : rt_se} {r : Z} {R : rt_rq} {tot mig : Z}.
Let K := core <$> rqs w.
Context (Hs : synced w) (Hm : migration w tot mig) (HR : rqs w !! r = Some R) (Hmy : my_q s <> Some r) (Hg : forall g, my_q s = Some g -> is_Some (rqs w !! g)).

Lemma dec_tasks_ok qn : bits_ok (active R) qn -> 0 <= curr_prio R -> 0 <= rt_nr_running R - snr K s < 2 ^ 32 -> 0 <= rr_nr_running R - srr K s < 2 ^ 32 -> 0 <= rt_nr_boosted R - nboost K s < 2 ^ 63 ->
  0 <= tot - is_task s < 2 ^ 63 -> 0 <= mig - is_movable s < 2 ^ 63 ->
  exists w' p', dec_rt_tasks w s r = Ok w' /\ near w w' /\ synced w' /\ migration w' (tot - is_task s) (mig - is_movable s) /\
    core <$> rqs w' = <[r := core (set_boosted (set_curr_prio (set_counts R (rt_nr_running R - snr K s) (rr_nr_running R - srr K s)) p') (rt_nr_boosted R - nboost K s))]> K /\
    (rt_nr_running R - snr K s = 0 -> p' = MAX_RT_PRIO) /\ (rt_nr_running R - snr K s <> 0 -> if sprio K s =? curr_prio R then is_min p' qn else p' = curr_prio R).
Proof.
  intros Hb Hc Bn Bk Bb Bt Bm. destruct (entity_reads_ok w s Hg) as (_ & E2 & E3 & _). fold K in E2, E3. unfold dec_rt_tasks. rewrite E2, E3. unfold get_rq at 1. rewrite HR. cbn [res_bind].
  change (2 ^ 32) with 4294967296 in Bn, Bk. rewrite !u32_small by lia.
  set (R1 := set_counts R _ _). set (w1 := put_rq w r R1). assert (HR1 : rqs w1 !! r = Some R1) by apply lookup_insert_eq.
  assert (N1 : near w w1) by (by split). assert (Hg1 : forall g, my_q s = Some g -> is_Some (rqs w1 !! g)) by (intros g Eg; by apply (exists_put w r R g HR (Hg g Eg))).
  assert (K1 : core <$> rqs w1 = <[r := core R1]> K) by (cbn; apply fmap_insert). destruct (entity_reads_ok w1 s Hg1) as (-> & _). rewrite K1. destruct (entity_other K r (core R1) s Hmy) as (-> & _). cbn [res_bind].
  destruct (dec_prio_ok w1 r R1 (sprio K s) qn (synced_put w r R R1 Hs HR eq_refl) HR1 Hb Hc) as (w2 & p' & E4 & N2 & S2 & Q2 & M2 & P0 & P1). rewrite E4. cbn [res_bind].
  assert (Q2' : rqs w2 = <[r := set_curr_prio R1 p']> (rqs w)) by (rewrite Q2; apply insert_insert_eq).
  assert (Mg2 : migration w2 tot mig) by (apply (migration_core w); [by apply (near_trans w w1)|done| |done]; intros T HT; rewrite Q2'; by apply (top_put w r R)).
  destruct (tail_ok w w2 r R (set_curr_prio R1 p') s (-1) tot mig S2 (near_trans _ _ _ N1 N2) Mg2 HR Q2' Hmy Hg) as (w3 & R3 & E5 & HR3 & _ & E6 & T1 & T2 & T3 & T4); [fold K; cbn; lia|lia|lia|].
  fold K in E6, T1, T2, T3, T4. unfold dec_rt_migration. rewrite E5. cbn [res_bind]. unfold dec_rt_group. rewrite E6. unfold get_rq. rewrite HR3. cbn [res_bind]. eexists _, p'. split; [done|].
  replace (rt_nr_boosted R3 - 1) with (rt_nr_boosted R3 + -1) by lia. split; [done|]. split; [done|].
  replace (tot - is_task s) with (tot + -1 * is_task s) by lia. replace (mig - is_movable s) with (mig + -1 * is_movable s) by lia. split; [done|]. split; [|by split].
  rewrite T4. cbn [rt_nr_boosted set_curr_prio set_counts R1]. by replace (rt_nr_boosted R + -1 * nboost K s) with (rt_nr_boosted R - nboost K s) by lia.
Qed.

Lemma inc_tasks_ok enabled : budgeted w -> 0 <= sprio K s -> 0 <= rt_nr_running R + snr K s < 2 ^ 32 -> 0 <= rr_nr_running R + srr K s < 2 ^ 32 -> 0 <= rt_nr_boosted R + nboost K s < 2 ^ 63 ->
  0 <= tot + is_task s < 2 ^ 63 -> 0 <= mig + is_movable s < 2 ^ 63 ->
  exists w', inc_rt_tasks enabled w s r = Ok w' /\ near w w' /\ synced w' /\ migration w' (tot + is_task s) (mig + is_movable s) /\
    core <$> rqs w' = <[r := core (set_boosted (set_curr_prio (set_counts R (rt_nr_running R + snr K s) (rr_nr_running R + srr K s)) (Z.min (curr_prio R) (sprio K s))) (rt_nr_boosted R + nboost K s))]> K.
Proof.
  intros HB Hp Bn Bk Bb Bt Bm. destruct (entity_reads_ok w s Hg) as (E1 & E2 & E3 & _). fold K in E1, E2, E3. unfold inc_rt_tasks. rewrite E1, E2, E3. unfold get_rq at 1. rewrite HR. cbn [res_bind].
  change (2 ^ 32) with 4294967296 in Bn, Bk. rewrite !u32_small by lia.
  set (R1 := set_counts R _ _). set (w1 := put_rq w r R1). assert (HR1 : rqs w1 !! r = Some R1) by apply lookup_insert_eq. assert (N1 : near w w1) by (by split).
  destruct (inc_prio_ok w1 r R1 (sprio K s) (synced_put w r R R1 Hs HR eq_refl) HR1 Hp) as (w2 & E4 & N2 & S2 & Q2 & M2). rewrite E4. cbn [res_bind].
  set (R2 := set_curr_prio R1 _) in *. assert (Q2' : rqs w2 = <[r := R2]> (rqs w)) by (rewrite Q2; apply insert_insert_eq).
  assert (Mg2 : migration w2 tot mig) by (apply (migration_core w); [by apply (near_trans w w1)|done| |done]; intros T HT; rewrite Q2'; by apply (top_put w r R)).
  destruct (tail_ok w w2 r R R2 s 1 tot mig S2 (near_trans _ _ _ N1 N2) Mg2 HR Q2' Hmy Hg) as (w3 & R3 & E5 & HR3 & Etg & E6 & T1 & T2 & T3 & T4); [fold K; cbn; lia|lia|lia|].
  fold K in E6, T1, T2, T3, T4. rewrite (Z.mul_1_l (is_task s)), (Z.mul_1_l (is_movable s)) in T3. rewrite Z.mul_1_l in T4. unfold inc_rt_migration. rewrite E5. cbn [res_bind]. unfold inc_rt_group. rewrite E6. unfold get_rq. rewrite HR3. cbn [res_bind]. set (w4 := if sboost K s then _ else w3) in *.
  unfold start_rt_bandwidth, get_group. rewrite (nr_groups _ _ T1), Etg. cbn [tg R2 R1 set_curr_prio set_counts]. destruct (HB r R HR) as (g & a & -> & _). cbn [res_bind].
  assert (Hend : forall w5, w5 = w4 \/ w5 = set_period_active w4 ({[tg R]} ∪ period_active w4) -> near w w5 /\ synced w5 /\ migration w5 (tot + is_task s) (mig + is_movable s) /\ core <$> rqs w5 = core <$> rqs w4).
  { intros w5 [->| ->]; [done|]. split; [destruct T1; by split|]. split; [by destruct T2|]. split; [by destruct T3|done]. }
  assert (Hfin : forall w5, w5 = w4 \/ w5 = set_period_active w4 ({[tg R]} ∪ period_active w4) -> near w w5 /\ synced w5 /\ migration w5 (tot + is_task s) (mig + is_movable s) /\ core <$> rqs w5 = <[r := core (set_boosted R2 (rt_nr_boosted R + nboost K s))]> K).
  { intros w5 H5. destruct (Hend w5 H5) as (A1 & A2 & A3 & ->). done. }
  destruct (negb enabled || _); eexists; (split; [done|]); apply Hfin; auto.
Qed.
End Counters.
End Possible.
