(* ===== verification/RtEntity.v ===== *)
(** * One entity on or off its queue

    [__enqueue_rt_entity] and [__dequeue_rt_entity] of RtQueue.v keep the invariant of a CPU's tree of run queues when
    the entity that stands for the queue is not queued itself. *)

From stdpp Require Import gmap list.
From S2P Require Import Prelude Sums Bitops Bitmap ListHead Cpumask Cpupri RtArray RtBandwidth RtQueue RtInvariant RtSteps.
Local Open Scope Z_scope.
Local Open Scope res_scope.

(** An entity without the link that [dequeue_rt_stack] leaves in it. *)
Definition face (s : rt_se) : rt_se := set_back s None.

Definition sum_tasks (S : gmap Z rt_se) : Z := sumq (fun s => if on_rq s then is_task s else 0) S.
Definition sum_movable (S : gmap Z rt_se) : Z := sumq (fun s => if on_rq s then is_movable s else 0) S.

(** The parts of the CPU that queueing entities does not touch. *)
Record kept (w w' : rq) : Prop := {
  kp_top : top w' = top w; kp_groups : groups w' = groups w; kp_cpu : cpu w' = cpu w; kp_online : online w' = online w;
  kp_nr : nr_running w' = nr_running w; kp_over : rd_overload w' = rd_overload w; kp_se_of : rt_se_of w' = rt_se_of w; kp_resched : resched w' = resched w }.

Lemma kept_refl w : kept w w.
Proof. by split. Qed.
Lemma kept_trans w1 w2 w3 : kept w1 w2 -> kept w2 w3 -> kept w1 w3.
Proof. intros [] []. split; congruence. Qed.
Lemma kept_near w w1 w2 : kept w w1 -> near w1 w2 -> kept w w2.
Proof. intros [] []. split; congruence. Qed.

(** A group's queue has tasks and is not throttled: the group is queued. *)
Definition live (v : rq) (G : rt_rq) : bool := negb (thr v G) && negb (rt_nr_running G =? 0).

Section Tree.
Context (enabled : bool) (possible : list Z) (rank : Z -> nat) (room : Z -> Z).

(** The invariant of a CPU's run queues: the lists [L] hold the queues [q], the counters are right, [curr_prio] is the
    most urgent priority, the root domain knows the priority and the overload of the CPU. *)
Record winv (w : rq) (L : gmap Z (list Z)) (q : Z -> Z -> list Z) : Prop := {
  wi_holds : holds (lists w) L;
  wi_base : base (face <$> ses w) (core <$> rqs w) L q (top w) rank room;
  wi_mins : mins (core <$> rqs w) q;
  wi_synced : synced possible w;
  wi_budget : budgeted w;
  wi_mig : migration w (sum_tasks (ses w)) (sum_movable (ses w));
  wi_size : Z.of_nat (size (ses w)) < 2 ^ 31 }.

(** The effect of queueing or dequeueing [e]: the record of its queue changes. *)
Definition moves (w w' : rq) (e : Z) (s' : rt_se) (r : Z) : Prop :=
  kept w w' /\ ses w' = <[e := s']> (ses w) /\
  exists R R', (core <$> rqs w) !! r = Some R /\ core <$> rqs w' = <[r := R']> (core <$> rqs w) /\ rt_queued R' = rt_queued R /\ tg R' = tg R.

Lemma face_lookup w e s : ses w !! e = Some s -> (face <$> ses w) !! e = Some (face s).
Proof. intros Hs. by rewrite lookup_fmap, Hs. Qed.
Lemma face_inv w e s : (face <$> ses w) !! e = Some s -> exists s0, ses w !! e = Some s0 /\ s = face s0.
Proof. rewrite lookup_fmap. destruct (ses w !! e) as [s0|]; [|done]. intros E. exists s0. split; [done|]. cbn in E. congruence. Qed.
Lemma core_inv w r R : (core <$> rqs w) !! r = Some R -> exists R0, rqs w !! r = Some R0 /\ R = core R0.
Proof. rewrite lookup_fmap. destruct (rqs w !! r) as [R0|]; [|done]. intros E. exists R0. split; [done|]. cbn in E. congruence. Qed.
Lemma core_of w r R : rqs w !! r = Some R -> (core <$> rqs w) !! r = Some (core R).
Proof. intros HR. by rewrite lookup_fmap, HR. Qed.

Lemma budgeted_core w w' : budgeted w -> groups w' = groups w -> cpu w' = cpu w -> (forall r R, rqs w' !! r = Some R -> exists R0, rqs w !! r = Some R0 /\ tg R0 = tg R) -> budgeted w'.
Proof. intros HB Eg Ec Hr r R HR. destruct (Hr r R HR) as (R0 & H0 & <-). rewrite Eg, Ec. by apply (HB r). Qed.

Lemma count_range (f : rt_se -> Z) (S : gmap Z rt_se) : (forall s, 0 <= f s <= 1) -> Z.of_nat (size S) < 2 ^ 31 -> 0 <= sumq f S < 2 ^ 31.
Proof. intros Hf Hs. split; [apply sumq_nonneg; intros s; apply Hf|]. pose proof (sumq_le f S 1 ltac:(intros x a _; apply Hf) ltac:(lia)). lia. Qed.

Lemma tasks_range w L q : winv w L q -> 0 <= sum_tasks (ses w) < 2 ^ 31 /\ 0 <= sum_movable (ses w) < 2 ^ 31.
Proof.
  intros H. split; apply count_range; try apply (wi_size _ _ _ H); intros s; destruct (on_rq s); try lia; unfold is_task, is_movable; [destruct (rt_entity_is_task s)|destruct (rt_entity_is_task s && _)]; lia.
Qed.

Lemma boosted_range w L q r R : winv w L q -> (core <$> rqs w) !! r = Some R -> 0 <= rt_nr_boosted R < 2 ^ 31.
Proof.
  intros H HR. rewrite (b_boost _ _ _ _ _ _ _ (wi_base _ _ _ H) r R HR). apply count_range; [intros s; unfold nboost; destruct (queued r s); [destruct (sboost _ s)|]; lia|].
  rewrite map_size_fmap. apply (wi_size _ _ _ H).
Qed.

Lemma range_of w L q r R : winv w L q -> (core <$> rqs w) !! r = Some R -> 0 <= rt_nr_running R < 2 ^ 31 /\ 0 <= rr_nr_running R < 2 ^ 31.
Proof.
  intros H HR. pose proof (wi_base _ _ _ H) as HB. pose proof (nr_nonneg HB r R HR). destruct (b_nr _ _ _ _ _ _ _ HB r R HR) as [_ Hn]. destruct (b_rr _ _ _ _ _ _ _ HB r R HR) as [_ Hr].
  destruct (sh_room _ _ _ _ _ (b_shape _ _ _ _ _ _ _ HB) r R HR) as [Hm _]. lia.
Qed.

Lemma entity_range w L q e s : winv w L q -> ses w !! e = Some s -> let K := core <$> rqs w in 0 <= srr K s <= snr K s /\ snr K s < 2 ^ 31.
Proof.
  intros H Hs. cbv zeta. pose proof (wi_base _ _ _ H) as HB. split; [exact (srr_range HB e (face s) (face_lookup w e s Hs))|].
  pose proof (snr_room HB e (face s) (face_lookup w e s Hs)) as Hr. change (snr (core <$> rqs w) (face s)) with (snr (core <$> rqs w) s) in Hr. change (my_q (face s)) with (my_q s) in Hr.
  destruct (my_q s) as [g|] eqn:E; [|lia]. destruct (sh_my _ _ _ _ _ (b_shape _ _ _ _ _ _ _ HB) e (face s) g (face_lookup w e s Hs) E) as ([G HG] & _).
  destruct (sh_room _ _ _ _ _ (b_shape _ _ _ _ _ _ _ HB) g G HG) as [Hm _]. lia.
Qed.

(** What is queued is part of the sums. *)
Lemma part_of (F : rt_se -> Z) (S : gmap Z rt_se) e s : (forall x a, S !! x = Some a -> 0 <= F a) -> S !! e = Some s -> on_rq s = true -> F s <= total F (rt_rq_of_se s) S.
Proof.
  intros HF Hs Ho. pose proof (sumq_part (fun a => if queued (rt_rq_of_se s) a then F a else 0) S e s) as HP. cbv beta in HP. assert (Eq : queued (rt_rq_of_se s) s = true) by (unfold queued; by rewrite Ho, Z.eqb_refl). rewrite Eq in HP. apply HP; [|done].
  intros y a Hy. destruct (queued _ a); [by apply (HF y)|lia].
Qed.

Lemma parts w L q e s : winv w L q -> ses w !! e = Some s -> on_rq s = true -> let K := core <$> rqs w in forall R, K !! rt_rq_of_se s = Some R ->
  snr K s <= rt_nr_running R /\ srr K s <= rr_nr_running R /\ nboost K s <= rt_nr_boosted R /\ is_task s <= sum_tasks (ses w) /\ is_movable s <= sum_movable (ses w).
Proof.
  intros H Hs Ho K R HR. pose proof (wi_base _ _ _ H) as HB. assert (HS := face_lookup w e s Hs).
  rewrite (proj1 (b_nr _ _ _ _ _ _ _ HB _ R HR)), (proj1 (b_rr _ _ _ _ _ _ _ HB _ R HR)), (b_boost _ _ _ _ _ _ _ HB _ R HR).
  split; [apply (part_of (snr K) _ e (face s)); [intros x a Hx; pose proof (srr_range HB x a Hx); unfold K; lia|done|done]|].
  split; [apply (part_of (srr K) _ e (face s)); [intros x a Hx; by apply (srr_range HB x a Hx)|done|done]|].
  split; [apply (part_of (nboost K) _ e (face s)); [intros x a Hx; unfold nboost; destruct (sboost K a); lia|done|done]|].
  assert (HP : forall F : rt_se -> Z, (forall a, 0 <= F a) -> F s <= sumq (fun a => if on_rq a then F a else 0) (ses w)).
  { intros F HF. pose proof (sumq_part (fun a => if on_rq a then F a else 0) (ses w) e s) as HP. cbv beta in HP. rewrite Ho in HP. apply HP; [|done]. intros y a _. destruct (on_rq a); [apply HF|lia]. }
  split; apply HP; intros a; unfold is_task, is_movable; [destruct (rt_entity_is_task a)|destruct (rt_entity_is_task a && _)]; lia.
Qed.

(** ** One entity changes *)

Section Step.
Context {w : rq} {L : gmap Z (list Z)} {q : Z -> Z -> list Z} {e : Z} {s : rt_se} (H : winv w L q) (Hs : ses w !! e = Some s).
Let r := rt_rq_of_se s.
Let K := core <$> rqs w.
Let i := sprio K s.

Lemma own_ne : my_q s <> Some r.
Proof. exact (own_queue (wi_base _ _ _ H) e (face s) (face_lookup w e s Hs)). Qed.

Lemma queue_exists : exists R, rqs w !! r = Some R /\ K !! r = Some (core R).
Proof.
  destruct (sh_rq _ _ _ _ _ (b_shape _ _ _ _ _ _ _ (wi_base _ _ _ H)) e (face s) (face_lookup w e s Hs)) as [R HR]. destruct (core_inv w _ R HR) as (R0 & H0 & _). exists R0. split; [done|]. by apply core_of.
Qed.

Lemma owned_exists g : my_q s = Some g -> is_Some (rqs w !! g).
Proof.
  intros Hg. destruct (sh_my _ _ _ _ _ (b_shape _ _ _ _ _ _ _ (wi_base _ _ _ H)) e (face s) g (face_lookup w e s Hs) Hg) as ([G HG] & _). destruct (core_inv w _ G HG) as (R0 & H0 & _). by exists R0.
Qed.

(** The state after [e] changed to [b] and its queue's record to [R']. *)
Lemma step_ok (b : bool) w' R R' l' L' : K !! r = Some R -> on_rq s = negb b -> (forall x a, ses w !! x = Some a -> my_q a = Some r -> on_rq a = false) -> 0 <= i < MAX_RT_PRIO -> 1 <= snr K s ->
  (forall x, x ∈ l' <-> if b then x = e \/ x ∈ q r i else x <> e /\ x ∈ q r i) -> L' !! queue_at r i = Some l' -> (b = false -> L' !! e = Some []) -> (forall k, k <> queue_at r i -> k <> e -> L' !! k = L !! k) ->
  let d := if b then 1 else -1 in let q' := fun r0 => if r0 =? r then upd (q r) i l' else q r0 in
  bits_ok (active R') (upd (q r) i l') -> rt_nr_running R' = rt_nr_running R + d * snr K s -> rr_nr_running R' = rr_nr_running R + d * srr K s -> rt_nr_boosted R' = rt_nr_boosted R + d * nboost K s -> tg R' = tg R -> rt_queued R' = rt_queued R ->
  (base (face <$> ses w') (core <$> rqs w') L' q' (top w') rank room -> is_min (curr_prio R') (upd (q r) i l')) ->
  holds (lists w') L' -> ses w' = <[e := set_on s b b]> (ses w) -> core <$> rqs w' = <[r := R']> K -> kept w w' -> synced possible w' ->
  migration w' (sum_tasks (ses w) + d * is_task s) (sum_movable (ses w) + d * is_movable s) ->
  winv w' L' q' /\ moves w w' e (set_on s b b) r.
Proof.
  intros HR Ho Hoff Hi Hn Hl HL1 HL2 HL3 d q' Hbits Enr Err Ebo Etg Equ Hmin Hh Es Ek Hk Hsy Hm.
  pose proof (wi_base _ _ _ H) as HB. assert (HS := face_lookup w e s Hs).
  assert (EF : face <$> ses w' = <[e := set_on (face s) b b]> (face <$> ses w)) by (rewrite Es, fmap_insert; done).
  assert (Hoff' : forall x a, (face <$> ses w) !! x = Some a -> my_q a = Some r -> on_rq a = false) by (intros x a Hx Ha; destruct (face_inv w x a Hx) as (a0 & H0 & ->); by apply (Hoff x a0)).
  assert (Hst : static (face s) (set_on (face s) b b)) by (by repeat split).
  assert (HT : forall F : gmap Z rt_rq -> rt_se -> Z, (forall a, my_q a <> Some r -> F (<[r := R']> K) a = F K a) -> F K (face s) = F K s -> F K (set_on (face s) b b) = F K s ->
     total (F (<[r := R']> K)) r (<[e := set_on (face s) b b]> (face <$> ses w)) = total (F K) r (face <$> ses w) + d * F K s).
  { intros F HF F1 F2. rewrite (total_step F r R' r e (face s) (set_on (face s) b b) HF Hoff' HS Hst own_ne) by congruence. rewrite F1. change (rt_rq_of_se (face s)) with r. rewrite Z.eqb_refl. cbn [on_rq set_on face set_back].
    rewrite Ho. unfold d. destruct b; cbn [negb]; lia. }
  assert (HE : forall a, my_q a <> Some r -> snr (<[r := R']> K) a = snr K a /\ srr (<[r := R']> K) a = srr K a /\ nboost (<[r := R']> K) a = nboost K a) by (intros a Ha; destruct (entity_other K r R' a Ha) as (_ & ?); done).
  assert (HB' : base (face <$> ses w') (core <$> rqs w') L' q' (top w') rank room).
  { rewrite EF, Ek, (kp_top _ _ Hk). apply (base_toggle HB HS eq_refl HR Ho Hoff' eq_refl Hi Hn Hl HL1 HL2 HL3 Hbits).
    - etransitivity; [|symmetry; apply (HT snr); [apply HE|done|done]]. rewrite Enr. f_equal. by apply (b_nr _ _ _ _ _ _ _ HB).
    - etransitivity; [|symmetry; apply (HT srr); [apply HE|done|done]]. rewrite Err. f_equal. by apply (b_rr _ _ _ _ _ _ _ HB).
    - etransitivity; [|symmetry; apply (HT nboost); [apply HE|done|done]]. rewrite Ebo. f_equal. by apply (b_boost _ _ _ _ _ _ _ HB). }
  split.
  - split; [done|done| |done| | |].
    + intros r0 R0 H0. unfold q'. rewrite Ek in H0. apply lookup_insert_Some in H0 as [[<- <-]|[Hne H0]]; [rewrite Z.eqb_refl; by apply Hmin|]. rewrite (proj2 (Z.eqb_neq _ _)) by done. by apply (wi_mins _ _ _ H).
    + apply (budgeted_core w); [apply (wi_budget _ _ _ H)|apply Hk|apply Hk|]. intros r0 R0 H0. apply core_of in H0. rewrite Ek in H0. apply lookup_insert_Some in H0 as [[<- E0]|[Hne H0]].
      * destruct (core_inv w r R HR) as (R1 & H1 & ->). exists R1. split; [done|]. assert (E1 : tg (core R0) = tg (core R1)) by congruence. done.
      * destruct (core_inv w r0 _ H0) as (R1 & H1 & E1). exists R1. split; [done|]. by destruct (core_curr _ _ (eq_sym E1)) as (_ & _ & _ & _ & _ & ? & _).
    + assert (ET : forall F : rt_se -> Z, F (set_on s b b) = F s -> sumq (fun a => if on_rq a then F a else 0) (ses w') = sumq (fun a => if on_rq a then F a else 0) (ses w) + d * F s).
      { intros F EF1. rewrite Es, (sumq_update _ _ _ s) by done. cbn [on_rq set_on]. rewrite EF1, Ho. unfold d. destruct b; cbn [negb]; lia. }
      unfold sum_tasks, sum_movable in *. rewrite (ET is_task), (ET is_movable) by done. done.
    + rewrite Es, map_size_insert_Some by (by eexists). apply (wi_size _ _ _ H).
  - split; [done|]. split; [done|]. by exists R, R'.
Qed.

(** The state when the list of [e] and its flags are changed and the counters follow. *)
Definition relisted (m : list_mem) (R : rt_rq) (bm : list Z) (s' : rt_se) : rq := put_se (put_rq (set_lists w m) r (set_active R bm)) e s'.

Lemma relisted_ok m R bm s' : rqs w !! r = Some R -> synced possible (relisted m R bm s') /\ migration (relisted m R bm s') (sum_tasks (ses w)) (sum_movable (ses w)).
Proof.
  intros HR. split.
  - by destruct (synced_put possible w r R (set_active R bm) (wi_synced _ _ _ H) HR eq_refl).
  - destruct (wi_mig _ _ _ H) as [(T & HT & HM) M2 M3]. split; [|done|done]. destruct (top_put w r R (set_active R bm) T HR eq_refl eq_refl eq_refl HT) as (T' & HT' & E1 & E2 & E3).
    exists T'. split; [done|]. rewrite E1, E2, E3. exact HM.
Qed.

Lemma relisted_core m R bm s' : core <$> rqs (relisted m R bm s') = <[r := core (set_active R bm)]> K.
Proof. apply fmap_insert. Qed.

Lemma relisted_counts m R bm s' : static s s' -> let K' := core <$> rqs (relisted m R bm s') in sprio K' s' = i /\ snr K' s' = snr K s /\ srr K' s' = srr K s /\ nboost K' s' = nboost K s.
Proof.
  intros Hst. cbv zeta. rewrite relisted_core. destruct (static_same (<[r := core (set_active R bm)]> K) s s' Hst) as (-> & -> & -> & ->). apply entity_other, own_ne.
Qed.

Lemma counts_range : 0 <= nboost K s <= 1 /\ 0 <= is_task s <= 1 /\ 0 <= is_movable s <= 1.
Proof. unfold nboost, is_task, is_movable. destruct (sboost K s), (rt_entity_is_task s), (1 <? nr_cpus_allowed s); cbn; lia. Qed.

Lemma head_nodup {m M hd l} : holds m M -> M !! hd = Some l -> NoDup l.
Proof. intros Hh Hl. pose proof (ho_nodup _ _ Hh hd l Hl) as Hn. by apply NoDup_cons in Hn as [_ ?]. Qed.

Lemma without_one {l : list Z} l1 x l2 : l = l1 ++ x :: l2 -> NoDup l -> forall y, y ∈ l1 ++ l2 <-> y <> x /\ y ∈ l.
Proof.
  intros -> Hn y. apply NoDup_app in Hn as (_ & N2 & N3). apply NoDup_cons in N3 as [N4 _]. rewrite !elem_of_app, elem_of_cons. split; [|tauto].
  intros [Hy|Hy]; (split; [intros ->|tauto]); [apply (N2 x Hy), elem_of_cons; auto|done].
Qed.

(** Dequeueing: the most urgent priority after [e] left the queue of priority [i]. *)
Lemma min_left p p' l1 l2 nr' (qn := upd (q r) i (l1 ++ l2)) : is_min p (q r) -> q r i = l1 ++ e :: l2 -> 0 <= i < MAX_RT_PRIO -> (nr' = 0 -> forall j, 0 <= j < MAX_RT_PRIO -> qn j = []) ->
  (nr' = 0 -> p' = MAX_RT_PRIO) -> (nr' <> 0 -> if i =? p then is_min p' qn else p' = p) -> is_min p' qn.
Proof.
  intros (M1 & M2 & M3) Eq Hi Hz P0 P1. destruct (Z.eq_dec nr' 0) as [E0|E0].
  - rewrite (P0 E0). split; [unfold MAX_RT_PRIO; lia|]. split; [lia|]. intros j Hj. by apply Hz.
  - specialize (P1 E0). destruct (Z.eqb_spec i p) as [Ep|Ep]; [done|]. subst p'. assert (Hlt : p < i).
    { destruct (Z.lt_ge_cases p i); [done|]. specialize (M3 i ltac:(lia)). rewrite Eq in M3. by destruct l1. }
    split; [done|]. unfold qn, upd. split; [intros Hp; rewrite (proj2 (Z.eqb_neq _ _)) by lia; by apply M2|]. intros j Hj. rewrite (proj2 (Z.eqb_neq _ _)) by lia. by apply M3.
Qed.

Lemma min_joined p l (qn := upd (q r) i l) : is_min p (q r) -> 0 <= i < MAX_RT_PRIO -> l <> [] -> is_min (Z.min p i) qn.
Proof.
  intros (M1 & M2 & M3) Hi Hl. unfold qn, upd. split; [lia|]. split.
  - intros Hp. destruct (Z.eqb_spec (Z.min p i) i) as [E|E]; [done|]. replace (Z.min p i) with p by lia. apply M2. lia.
  - intros j Hj. rewrite (proj2 (Z.eqb_neq _ _)) by lia. apply M3. lia.
Qed.

Lemma dequeue_entity_ok flags : on_rq s = true -> (forall x a, ses w !! x = Some a -> my_q a = Some r -> on_rq a = false) -> move_entity flags = true ->
  exists w' L' l1 l2, __dequeue_rt_entity w e flags = Ok w' /\ q r i = l1 ++ e :: l2 /\ winv w' L' (fun r0 => if r0 =? r then upd (q r) i (l1 ++ l2) else q r0) /\ moves w w' e (set_on s false false) r.
Proof.
  intros Ho Hoff Hmove. pose proof (wi_base _ _ _ H) as HB. assert (HS := face_lookup w e s Hs). destruct queue_exists as (R & HR & HK).
  destruct (queued_in HB r (core R) e (face s) HK HS Ho eq_refl) as [Hi He]. change (sprio (core <$> rqs w) (face s)) with i in Hi, He. apply list_elem_of_split in He as (l1 & l2 & Eq).
  destruct (b_queues _ _ _ _ _ _ _ HB r (core R) HK) as [HQ HBits]. destruct (delist_ok l1 l2 (wi_holds _ _ _ H) HQ HBits Hi Eq) as (m & bm & Ed & Hm & Hbm). change (active (core R)) with (active R) in Ed.
  destruct (entity_reads_ok w s owned_exists) as (Ep & _). fold K in Ep. fold i in Ep.
  unfold __dequeue_rt_entity, get_se at 1. rewrite Hs. cbn [res_bind]. rewrite Hmove. fold r. unfold __delist_rt_entity, get_se at 1. rewrite Hs. cbn [res_bind]. rewrite Ep. cbn [res_bind]. unfold get_rq at 1. rewrite HR. cbn [res_bind]. rewrite Ed. cbn [res_bind].
  unfold get_se. cbn [ses put_se]. rewrite lookup_insert_eq. cbn [res_bind on_list set_on]. set (s2 := set_on s false false).
  match goal with |- context [dec_rt_tasks ?w0 _ _] => replace w0 with (relisted m R bm s2) by (unfold relisted, put_se; cbn; by rewrite insert_insert_eq) end. set (w2 := relisted m R bm s2).
  destruct (relisted_ok m R bm s2 HR) as [Hsy Hmi]. destruct (relisted_counts m R bm s2 ltac:(by repeat split)) as (E1 & E2 & E3 & E4).
  destruct (range_of w L q r (core R) H HK) as [Rn Rr]. destruct (entity_range w L q e s H Hs) as [Sr Sn]. fold K in Sr, Sn. pose proof (boosted_range w L q r (core R) H HK) as Rb.
  destruct (parts w L q e s H Hs Ho (core R) HK) as (P1 & P2 & P3 & P4 & P5). fold K in P1, P2, P3. destruct (tasks_range w L q H) as [T1 T2]. destruct counts_range as (C1 & C2 & C3).
  pose proof (wi_mins _ _ _ H r (core R) HK) as Hmin. cbn [rt_nr_running rr_nr_running rt_nr_boosted core set_migration] in Rn, Rr, Rb, P1, P2, P3.
  destruct (dec_tasks_ok possible (w := w2) (s := s2) (r := r) (R := set_active R bm) (tot := sum_tasks (ses w)) (mig := sum_movable (ses w))) with (qn := upd (q r) i (l1 ++ l2)) as (w' & p' & E & N & S' & M' & Q' & F0 & F1);
    try (fold w2 in E1, E2, E3, E4; rewrite ?E2, ?E3, ?E4; cbn [rt_nr_running rr_nr_running rt_nr_boosted set_active]; change (is_task s2) with (is_task s); change (is_movable s2) with (is_movable s); lia).
  { done. } { done. } { apply lookup_insert_eq. } { exact own_ne. } { intros g Eg. cbn. rewrite lookup_insert_is_Some'. right. by apply owned_exists. } { done. } { apply Hmin. }
  fold w2 in E1, E2, E3, E4. rewrite E1 in F1. rewrite E2 in F0, F1. rewrite E2, E3, E4 in Q'. rewrite (relisted_core m R bm s2 : core <$> rqs w2 = _), insert_insert_eq in Q'.
  assert (Hk : kept w w') by (apply (kept_near w w2); [by split|done]). assert (Es : ses w' = <[e := s2]> (ses w)) by apply (nr_ses _ _ N).
  assert (Hl : forall x, x ∈ l1 ++ l2 <-> x <> e /\ x ∈ q r i) by (apply (without_one l1 e l2 Eq); apply (head_nodup (wi_holds _ _ _ H) (HQ i Hi))).
  exists w', (<[e := []]> (<[queue_at r i := l1 ++ l2]> L)), l1, l2. split; [exact E|]. split; [done|].
  pose proof (sh_apart _ _ _ _ _ (b_shape _ _ _ _ _ _ _ HB) r (core R) e (face s) i HK HS Hi) as Hne.
  set (R' := core (set_boosted _ _)) in Q'.
  apply (step_ok false w' (core R) R' (l1 ++ l2) (<[e := []]> (<[queue_at r i := l1 ++ l2]> L)) HK Ho Hoff Hi).
  - by apply (b_flags _ _ _ _ _ _ _ HB e (face s) HS).
  - done.
  - by rewrite lookup_insert_ne, lookup_insert_eq.
  - intros _. apply lookup_insert_eq.
  - intros k K1 K2. by rewrite !lookup_insert_ne.
  - done.
  - cbn. lia.
  - cbn. lia.
  - cbn. lia.
  - done.
  - done.
  - intros HB'. apply (min_left (curr_prio R) p' l1 l2 (rt_nr_running R - snr K s) Hmin Eq Hi); [|done|done]. intros E0 j Hj.
    pose proof (nr_zero_empty HB' r R' j) as HZ. cbv beta in HZ. rewrite Z.eqb_refl in HZ. apply HZ; [rewrite Q'; apply lookup_insert_eq|exact E0|done].
  - by rewrite (nr_lists _ _ N).
  - done.
  - done.
  - done.
  - done.
  - replace (sum_tasks (ses w) + -1 * is_task s) with (sum_tasks (ses w) - is_task s) by lia. by replace (sum_movable (ses w) + -1 * is_movable s) with (sum_movable (ses w) - is_movable s) by lia.
Qed.

(** A group whose queue is throttled or empty is passed over. *)
Lemma enqueue_skip_ok flags g G : my_q s = Some g -> rqs w !! g = Some G -> on_rq s = false -> live w G = false -> __enqueue_rt_entity enabled w e flags = Ok w.
Proof.
  intros Hg HG Ho Hl. unfold __enqueue_rt_entity, get_se. rewrite Hs. cbn [res_bind]. rewrite Hg. unfold get_rq. rewrite HG. cbn [res_bind]. rewrite (is_throttled_ok w g G (wi_budget _ _ _ H) HG). cbn [res_bind].
  unfold live in Hl. rewrite <- negb_orb in Hl. apply negb_false_iff in Hl. rewrite Hl.
  destruct (b_flags _ _ _ _ _ _ _ (wi_base _ _ _ H) e (face s) (face_lookup w e s Hs)) as (F & _). cbn in F. by rewrite F, Ho.
Qed.

(** What a queued entity counts for. *)
Lemma live_counts : (forall g G, my_q s = Some g -> rqs w !! g = Some G -> live w G = true) -> 0 <= i < MAX_RT_PRIO /\ 1 <= snr K s.
Proof.
  intros Hl. pose proof (wi_base _ _ _ H) as HB. destruct (my_q s) as [g|] eqn:Eg.
  - destruct (owned_exists g Eg) as [G HG]. specialize (Hl g G eq_refl HG). apply andb_true_iff in Hl as [_ Hn]. apply negb_true_iff, Z.eqb_neq in Hn. unfold i, sprio, snr, of_queue. rewrite Eg.
    pose proof (core_of w g G HG) as HK. fold K in HK. rewrite HK. pose proof (nr_nonneg HB g (core G) HK) as H0. cbn in H0 |- *. split; [|lia].
    destruct (wi_mins _ _ _ H g (core G) HK) as (M1 & _ & M3). cbn in M1, M3. split; [lia|]. destruct (Z.eq_dec (curr_prio G) MAX_RT_PRIO) as [Ec|Ec]; [|lia]. exfalso.
    destruct (nr_pos_queue HB g (core G) HK ltac:(cbn; lia)) as (j & Hj & Hq). apply Hq, M3. lia.
  - unfold i, sprio, snr. rewrite Eg. split; [|lia]. by apply (sh_prio _ _ _ _ _ (b_shape _ _ _ _ _ _ _ HB) e (face s) (face_lookup w e s Hs)).
Qed.

Lemma enqueue_entity_ok flags : on_rq s = false -> (forall x a, ses w !! x = Some a -> my_q a = Some r -> on_rq a = false) -> move_entity flags = true ->
  (forall g G, my_q s = Some g -> rqs w !! g = Some G -> live w G = true) -> let l' := if negb (Z.land flags ENQUEUE_HEAD =? 0) then e :: q r i else q r i ++ [e] in
  exists w' L', __enqueue_rt_entity enabled w e flags = Ok w' /\ winv w' L' (fun r0 => if r0 =? r then upd (q r) i l' else q r0) /\ moves w w' e (set_on s true true) r.
Proof.
  intros Ho Hoff Hmove Hlive l'. pose proof (wi_base _ _ _ H) as HB. assert (HS := face_lookup w e s Hs). destruct queue_exists as (R & HR & HK). destruct (live_counts Hlive) as [Hi Hn].
  destruct (b_queues _ _ _ _ _ _ _ HB r (core R) HK) as [HQ HBits]. pose proof (sh_apart _ _ _ _ _ (b_shape _ _ _ _ _ _ _ HB) r (core R) e (face s) i HK HS Hi) as Hne.
  assert (HLe : L !! e = Some []) by (by apply (b_flags _ _ _ _ _ _ _ HB e (face s) HS)).
  destruct (enlist_ok (negb (Z.land flags ENQUEUE_HEAD =? 0)) (wi_holds _ _ _ H) HQ HBits Hi HLe Hne) as (m & bm & Ed & Hm & Hbm). change (active (core R)) with (active R) in Ed. fold l' in Hm, Hbm.
  destruct (entity_reads_ok w s owned_exists) as (Ep & _). fold K in Ep. fold i in Ep.
  unfold __enqueue_rt_entity, get_se at 1. rewrite Hs. cbn [res_bind]. fold r.
  assert (Eskip : match my_q s with Some g => G <-- get_rq w g; t <-- is_throttled w G; Ok (t || (rt_nr_running G =? 0)) | None => Ok false end = Ok false).
  { destruct (my_q s) as [g|] eqn:Eg; [|done]. destruct (owned_exists g Eg) as [G HG]. specialize (Hlive g G eq_refl HG). unfold get_rq. rewrite HG. cbn [res_bind]. rewrite (is_throttled_ok w g G (wi_budget _ _ _ H) HG).
    cbn [res_bind]. unfold live in Hlive. rewrite <- negb_orb in Hlive. apply negb_true_iff in Hlive. by rewrite Hlive. }
  rewrite Eskip. cbn [res_bind]. rewrite Hmove, Ep. cbn [res_bind]. unfold get_rq at 1. rewrite HR. cbn [res_bind]. rewrite Ed. cbn [res_bind].
  unfold get_se. cbn [ses put_se]. rewrite lookup_insert_eq. cbn [res_bind on_list set_on]. set (s2 := set_on s true true).
  match goal with |- context [inc_rt_tasks _ ?w0 _ _] => replace w0 with (relisted m R bm s2) by (unfold relisted, put_se; cbn; by rewrite insert_insert_eq) end. set (w2 := relisted m R bm s2).
  destruct (relisted_ok m R bm s2 HR) as [Hsy Hmi]. destruct (relisted_counts m R bm s2 ltac:(by repeat split)) as (E1 & E2 & E3 & E4). fold w2 in E1, E2, E3, E4.
  destruct (range_of w L q r (core R) H HK) as [Rn Rr]. destruct (entity_range w L q e s H Hs) as [Sr Sn]. fold K in Sr, Sn. pose proof (boosted_range w L q r (core R) H HK) as Rb.
  destruct (tasks_range w L q H) as [T1 T2]. destruct counts_range as (C1 & C2 & C3).
  pose proof (wi_mins _ _ _ H r (core R) HK) as Hmin. cbn [rt_nr_running rr_nr_running rt_nr_boosted core set_migration] in Rn, Rr, Rb.
  destruct (inc_tasks_ok possible (w := w2) (s := s2) (r := r) (R := set_active R bm) (tot := sum_tasks (ses w)) (mig := sum_movable (ses w))) with (enabled := enabled) as (w' & E & N & S' & M' & Q');
    try (rewrite ?E1, ?E2, ?E3, ?E4; cbn [rt_nr_running rr_nr_running rt_nr_boosted set_active]; change (is_task s2) with (is_task s); change (is_movable s2) with (is_movable s); lia).
  { done. } { done. } { apply lookup_insert_eq. } { exact own_ne. } { intros g Eg. cbn. rewrite lookup_insert_is_Some'. right. by apply owned_exists. }
  { apply (budgeted_core w); [apply (wi_budget _ _ _ H)|done|done|]. intros r0 R0 H0. cbn in H0. apply lookup_insert_Some in H0 as [[<- <-]|[_ H0]]; [by exists R|by exists R0]. }
  rewrite E1, E2, E3, E4 in Q'. rewrite (relisted_core m R bm s2 : core <$> rqs w2 = _), insert_insert_eq in Q'. set (R' := core (set_boosted _ _)) in Q'.
  assert (Hk : kept w w') by (apply (kept_near w w2); [by split|done]). assert (Es : ses w' = <[e := s2]> (ses w)) by apply (nr_ses _ _ N).
  assert (Hl : forall x, x ∈ l' <-> x = e \/ x ∈ q r i).
  { intros x. unfold l'. destruct (negb _); [apply elem_of_cons|]. rewrite elem_of_app, list_elem_of_singleton. tauto. }
  exists w', (<[queue_at r i := l']> (delete e L)). split; [exact E|].
  apply (step_ok true w' (core R) R' l' (<[queue_at r i := l']> (delete e L)) HK Ho Hoff Hi Hn).
  - done.
  - apply lookup_insert_eq.
  - done.
  - intros k K1 K2. by rewrite lookup_insert_ne, lookup_delete_ne.
  - done.
  - cbn. lia.
  - cbn. lia.
  - cbn. lia.
  - done.
  - done.
  - intros _. apply (min_joined (curr_prio R) l' Hmin Hi). intros E0. specialize (Hl e). rewrite E0 in Hl. apply (not_elem_of_nil e). tauto.
  - by rewrite (nr_lists _ _ N).
  - done.
  - done.
  - done.
  - done.
  - by rewrite !Z.mul_1_l.
Qed.
End Step.
End Tree.
