(* ===== verification/RtTree.v ===== *)
(** * The tree of real-time run queues

    The chains of entities that [dequeue_rt_stack] takes off their queues from the root down and that
    [enqueue_rt_entity] and [dequeue_rt_entity] put back from the bottom up. *)

From stdpp Require Import gmap list.
From S2P Require Import Prelude Sums Bitops Bitmap ListHead Cpumask Cpupri RtArray RtBandwidth RtQueue RtInvariant RtSteps RtEntity.
Local Open Scope Z_scope.
Local Open Scope res_scope.

(** ** Paths to the root *)

(** What an entity is, whether it is queued or not. *)
Definition bare (s : rt_se) : rt_se := set_on (set_back s None) false false.

(** [path B e l]: [l] is [e], its parent, and so on up to an entity of the root queue. *)
Inductive path (B : gmap Z rt_se) : Z -> list Z -> Prop :=
| path_root e s : B !! e = Some s -> parent s = None -> path B e [e]
| path_up e s p l : B !! e = Some s -> parent s = Some p -> path B p l -> path B e (e :: l).

(** The links of [dequeue_rt_stack]: each entity of the path points at the one before it. *)
Fixpoint backs (B : gmap Z (option Z)) (b : option Z) (l : list Z) : Prop := match l with [] => True | e :: l => B !! e = Some b /\ backs B (Some e) l end.

(** An entity that is not queued. *)
Definition off (w : rq) (x : Z) : Prop := forall a, ses w !! x = Some a -> on_rq a = false.

Lemma backs_snoc B b l x : backs B b (l ++ [x]) -> backs B b l /\ B !! x = Some (match last l with Some y => Some y | None => b end).
Proof.
  revert b. induction l as [|y l IH]; intros b; cbn [app backs]; [tauto|]. intros [E1 E2]. destruct (IH _ E2) as [E3 E4]. split; [done|]. rewrite E4. destruct l as [|z l]; [done|]. rewrite last_cons_cons. destruct (last (z :: l)) eqn:El; [done|]. by apply last_None in El.
Qed.

Lemma path_in B e l x : path B e l -> x ∈ l -> exists s l1 l2, B !! x = Some s /\ l = l1 ++ l2 /\ path B x l2.
Proof.
  induction 1 as [e s Hs Hp|e s p l Hs Hp Hl IH]; intros Hx.
  - apply list_elem_of_singleton in Hx as ->. exists s, [], [e]. split; [done|]. split; [done|]. by eapply path_root.
  - apply elem_of_cons in Hx as [->|Hx]; [exists s, [], (e :: l); split; [done|]; split; [done|]; by eapply path_up|].
    destruct (IH Hx) as (s' & l1 & l2 & H1 & -> & H2). by exists s', (e :: l1), l2.
Qed.

Lemma path_head B e l : path B e l -> exists t, l = e :: t.
Proof. destruct 1; eauto. Qed.

Lemma path_tail B e x l1 l2 : path B e (l1 ++ x :: l2) -> path B x (x :: l2).
Proof.
  revert e. induction l1 as [|y l1 IH]; intros e Hp; cbn in Hp; [destruct (path_head _ _ _ Hp) as [t Et]; injection Et as <- <-; done|].
  inversion Hp as [? ? ? ? E1|? ? ? ? ? ? Hl]; subst; [destruct l1; discriminate|]. by apply (IH p).
Qed.

Lemma path_unique B e l l' : path B e l -> path B e l' -> l = l'.
Proof.
  intros Hp. revert l'. induction Hp as [e s Hs Ep|e s p l Hs Ep Hl IH]; intros l' Hp'; inversion Hp' as [? s' Hs' Ep'|? s' p' l0 Hs' Ep' Hl0]; subst; try congruence. f_equal. apply IH. congruence.
Qed.

Section Tree.
Context {enabled : bool} {possible : list Z} {rank : Z -> nat} {room : Z -> Z}.
Local Abbreviation winv := (winv possible rank room).

(** The parts of a run queue that the counters do not touch. *)
Definition fixed (R : rt_rq) : bool * Z := (rt_queued R, tg R).

(** Entities of [l] were put on or taken off their queues. *)
Record trail (w w' : rq) (q q' : Z -> Z -> list Z) (l : list Z) : Prop := {
  tr_kept : kept w w'; tr_bare : bare <$> ses w' = bare <$> ses w; tr_back : back <$> ses w' = back <$> ses w; tr_fixed : fixed <$> rqs w' = fixed <$> rqs w;
  tr_other x : x ∉ l -> ses w' !! x = ses w !! x;
  tr_queue r : (forall x s, x ∈ l -> ses w !! x = Some s -> rt_rq_of_se s <> r) -> (core <$> rqs w') !! r = (core <$> rqs w) !! r /\ q' r = q r }.

Lemma bare_lookup w w' e s : bare <$> ses w' = bare <$> ses w -> ses w !! e = Some s -> exists s', ses w' !! e = Some s' /\ bare s' = bare s.
Proof.
  intros E Hs. assert (E' : (bare <$> ses w') !! e = (bare <$> ses w) !! e) by (by rewrite E). rewrite !lookup_fmap, Hs in E'. destruct (ses w' !! e) as [s'|]; [|done]. exists s'. split; [done|]. cbn in E'. congruence.
Qed.

Lemma bare_parts s s' : bare s' = bare s -> static s s'.
Proof. unfold bare, set_on, set_back. intros E. injection E. intros. by repeat split. Qed.

Lemma trail_refl w q l : trail w w q q l.
Proof. split; try done. Qed.

Lemma trail_trans w1 w2 w3 q1 q2 q3 l1 l2 l : trail w1 w2 q1 q2 l1 -> trail w2 w3 q2 q3 l2 -> (forall x, x ∈ l1 \/ x ∈ l2 -> x ∈ l) -> trail w1 w3 q1 q3 l.
Proof.
  intros [A1 A2 A3 A4 A5 A6] [B1 B2 B3 B4 B5 B6] Hl. split; [by apply (kept_trans w1 w2)|congruence|congruence|congruence| |].
  - intros x Hx. rewrite B5, A5; [done| |]; intros ?; apply Hx; auto.
  - intros r Hr. destruct (A6 r) as [C1 C2]; [intros x s Hx; apply Hr; auto|]. destruct (B6 r) as [D1 D2]; [|split; congruence].
    intros x s Hx Hs. destruct (bare_lookup w2 w1 x s (eq_sym A2) Hs) as (s0 & Hs0 & E0). destruct (bare_parts _ _ (eq_sym E0)) as (_ & -> & _). apply (Hr x); auto.
Qed.

Lemma trail_moves w w' q q' e s b : ses w !! e = Some s -> moves w w' e (set_on s b b) (rt_rq_of_se s) -> (forall r, r <> rt_rq_of_se s -> q' r = q r) -> trail w w' q q' [e].
Proof.
  intros Hs (Hk & Es & R & R' & HR & EK & E1 & E2) Hq. assert (EI : forall (A : Type) (f : rt_se -> A), f (set_on s b b) = f s -> f <$> ses w' = f <$> ses w).
  { intros A f Ef. rewrite Es, fmap_insert, Ef, <- fmap_insert. by rewrite insert_id. }
  split; [done|by apply EI|by apply EI| | |].
  - apply map_eq. intros r. rewrite !lookup_fmap. assert (E : (core <$> rqs w') !! r = <[rt_rq_of_se s := R']> (core <$> rqs w) !! r) by (by rewrite EK). rewrite lookup_fmap in E.
    destruct (decide (r = rt_rq_of_se s)) as [->|Hne].
    + rewrite lookup_insert_eq in E. rewrite lookup_fmap in HR. destruct (rqs w' !! _) as [R1|]; [|done]. destruct (rqs w !! _) as [R0|]; [|done]. cbn in E, HR |- *. injection E as <-. injection HR as <-. unfold fixed. cbn in E1, E2. congruence.
    + rewrite lookup_insert_ne, lookup_fmap in E by done. destruct (rqs w' !! r) as [R1|], (rqs w !! r) as [R0|]; cbn in E |- *; try done. assert (E3 : core R1 = core R0) by congruence. unfold fixed. destruct (core_curr _ _ E3) as (_ & _ & _ & _ & _ & -> & ->). done.
  - intros x Hx. rewrite Es, lookup_insert_ne; [done|]. intros ->. apply Hx, list_elem_of_singleton. done.
  - intros r Hr. assert (rt_rq_of_se s <> r) by (apply (Hr e); [by apply list_elem_of_singleton|done]). split; [by rewrite EK, lookup_insert_ne|]. apply Hq. congruence.
Qed.

(** ** Paths of a tree *)

Section Paths.
Context {w : rq} {L : gmap Z (list Z)} {q : Z -> Z -> list Z} (H : winv w L q).
Let B := bare <$> ses w.
Let Hsh := b_shape _ _ _ _ _ _ _ (wi_base _ _ _ _ _ _ H).

Lemma bare_inv e b : B !! e = Some b -> exists s, ses w !! e = Some s /\ b = bare s.
Proof. unfold B. rewrite lookup_fmap. destruct (ses w !! e) as [s|]; [|done]. intros E. exists s. split; [done|]. cbn in E. congruence. Qed.
Lemma bare_of e s : ses w !! e = Some s -> B !! e = Some (bare s).
Proof. intros Hs. unfold B. by rewrite lookup_fmap, Hs. Qed.

Lemma up e s p : ses w !! e = Some s -> parent s = Some p -> exists sp, ses w !! p = Some sp /\ my_q sp = Some (rt_rq_of_se s) /\ (rank (rt_rq_of_se sp) < rank (rt_rq_of_se s))%nat.
Proof.
  intros Hs Hp. destruct (sh_parent _ _ _ _ _ Hsh e (face s) p (face_lookup w e s Hs) Hp) as (sp & Hsp & Em). destruct (face_inv w p sp Hsp) as (s0 & H0 & ->). exists s0. split; [done|]. split; [done|].
  by destruct (sh_my _ _ _ _ _ Hsh p (face s0) _ Hsp Em) as (_ & _ & ?).
Qed.

(** The owner of an entity's queue is its parent. *)
Lemma owner_parent e s x a : ses w !! e = Some s -> ses w !! x = Some a -> my_q a = Some (rt_rq_of_se s) -> parent s = Some x.
Proof.
  intros Hs Hx Ha. destruct (parent s) as [p|] eqn:Ep.
  - destruct (up e s p Hs Ep) as (sp & Hsp & Em & _). f_equal. exact (sh_owner _ _ _ _ _ Hsh p (face sp) x (face a) _ (face_lookup w p sp Hsp) (face_lookup w x a Hx) Em Ha).
  - exfalso. pose proof (sh_root _ _ _ _ _ Hsh e (face s) (face_lookup w e s Hs) Ep) as Et. change (rt_rq_of_se (face s)) with (rt_rq_of_se s) in Et.
    destruct (sh_my _ _ _ _ _ Hsh x (face a) _ (face_lookup w x a Hx) Ha) as (_ & Hne & _). congruence.
Qed.

Lemma path_cons e s l : path B e (e :: l) -> ses w !! e = Some s -> (l = [] /\ parent s = None) \/ (exists p, parent s = Some p /\ path B p l).
Proof.
  intros Hp Hs. inversion Hp as [? b Hb Eb|? b p ? Hb Eb Hl]; subst; destruct (bare_inv e b Hb) as (s0 & H0 & ->); rewrite Hs in H0; injection H0 as <-; [left; done|right; by exists p].
Qed.

Lemma path_rank e s l : path B e (e :: l) -> ses w !! e = Some s -> forall x a, x ∈ l -> ses w !! x = Some a -> (rank (rt_rq_of_se a) < rank (rt_rq_of_se s))%nat.
Proof.
  revert e s. induction l as [|y l IH]; intros e s Hp Hs x a Hx Ha; [by apply elem_of_nil in Hx|]. destruct (path_cons e s (y :: l) Hp Hs) as [[? _]|(p & Ep & Hl)]; [done|].
  destruct (path_head _ _ _ Hl) as [t Et]. injection Et as -> ->. destruct (up e s p Hs Ep) as (sp & Hsp & _ & Hr). apply elem_of_cons in Hx as [->|Hx].
  - rewrite Hsp in Ha. by injection Ha as <-.
  - pose proof (IH p sp Hl Hsp x a Hx Ha). lia.
Qed.

Lemma path_nodup e l : path B e l -> NoDup l.
Proof.
  intros Hp. destruct (path_head _ _ _ Hp) as [t ->]. revert e Hp. induction t as [|y t IH]; intros e Hp; [apply NoDup_singleton|].
  assert (Hs : exists s, ses w !! e = Some s) by (inversion Hp; subst; destruct (bare_inv e _ ltac:(eassumption)) as (s0 & H0 & _); eauto). destruct Hs as [s Hs].
  destruct (path_cons e s _ Hp Hs) as [[? _]|(p & Ep & Hl)]; [done|]. destruct (path_head _ _ _ Hl) as [t' Et]. injection Et as -> ->. apply NoDup_cons. split; [|by apply IH].
  intros Hin. pose proof (path_rank e s _ Hp Hs e s Hin Hs). lia.
Qed.

Lemma path_in_ses e l x : path B e l -> x ∈ l -> exists s, ses w !! x = Some s.
Proof. intros Hp Hx. destruct (path_in _ _ _ _ Hp Hx) as (b & _ & _ & Hb & _). destruct (bare_inv x b Hb) as (s & Hs & _). by exists s. Qed.

Lemma rt_path_length e l : path B e l -> (length l <= size (ses w))%nat.
Proof.
  intros Hp. rewrite <- (size_list_to_set (C := gset Z) l (path_nodup e l Hp)), <- (size_dom (D := gset Z) (ses w)). apply subseteq_size. intros x Hx. apply elem_of_list_to_set in Hx.
  destruct (path_in_ses e l x Hp Hx) as [s Hs]. by apply elem_of_dom_2 in Hs.
Qed.

Lemma path_exists e s : ses w !! e = Some s -> exists l, path B e l.
Proof.
  remember (rank (rt_rq_of_se s)) as n eqn:En. revert e s En. induction n as [n IH] using (well_founded_induction lt_wf). intros e s En Hs. destruct (parent s) as [p|] eqn:Ep.
  - destruct (up e s p Hs Ep) as (sp & Hsp & _ & Hr). destruct (IH (rank (rt_rq_of_se sp)) ltac:(lia) p sp eq_refl Hsp) as [l Hl]. exists (e :: l). eapply path_up; [by apply bare_of|done|done].
  - exists [e]. eapply path_root; [by apply bare_of|done].
Qed.

(** When the rest of the path is off, an entity can be queued or dequeued. *)
Lemma owner_off e s l : path B e (e :: l) -> ses w !! e = Some s -> (forall x, x ∈ l -> off w x) -> forall x a, ses w !! x = Some a -> my_q a = Some (rt_rq_of_se s) -> on_rq a = false.
Proof.
  intros Hp Hs Hoff x a Hx Ha. pose proof (owner_parent e s x a Hs Hx Ha) as Ep. destruct (path_cons e s l Hp Hs) as [[_ ?]|(p & Ep' & Hl)]; [congruence|].
  assert (p = x) as -> by congruence. destruct (path_head _ _ _ Hl) as [t ->]. apply (Hoff x); [apply elem_of_cons; auto|done].
Qed.
End Paths.

(** ** The passes over a path *)

Lemma off_trail w w' q q' l x : trail w w' q q' l -> x ∉ l -> off w x -> off w' x.
Proof. intros T Hx Ho a Ha. rewrite (tr_other _ _ _ _ _ T x Hx) in Ha. by apply Ho. Qed.

(** The way up only sets the links. *)
Lemma stack_up_ok w e l b fuel : path (bare <$> ses w) e l -> NoDup l -> (length l <= fuel)%nat ->
  exists w' t, stack_up fuel w e b = Ok (w', t) /\ last l = Some t /\ lists w' = lists w /\ rqs w' = rqs w /\ kept w w' /\ cpupri w' = cpupri w /\ rto_mask w' = rto_mask w /\
    face <$> ses w' = face <$> ses w /\ size (ses w') = size (ses w) /\ backs (back <$> ses w') b l /\ (forall x, x ∉ l -> ses w' !! x = ses w !! x).
Proof.
  intros Hp. remember (bare <$> ses w) as B eqn:EB. revert w EB b fuel. induction Hp as [e s0 Hs0 Hpar|e s0 p l Hs0 Hpar Hl IH]; intros w -> b fuel Hn Hf; (destruct fuel as [|fuel]; [cbn in Hf; lia|]); cbn [stack_up];
    (destruct (bare_inv (w := w) e s0 Hs0) as (s & Hs & ->)); unfold get_se; rewrite Hs; cbn [res_bind]; change (parent (bare s)) with (parent s) in Hpar; rewrite Hpar; set (w1 := put_se w e (set_back s b)).
  - exists w1, e. do 4 (split; [done|]). split; [by split|]. do 2 (split; [done|]). split; [cbn; rewrite fmap_insert; apply insert_id; by rewrite lookup_fmap, Hs|]. split; [cbn; apply map_size_insert_Some; by eexists|].
    split; [cbn; by rewrite fmap_insert, lookup_insert_eq|]. intros x Hx. apply not_elem_of_cons in Hx as [Hx _]. cbn. by rewrite lookup_insert_ne.
  - apply NoDup_cons in Hn as [Hn1 Hn2]. assert (EF : face <$> ses w1 = face <$> ses w) by (cbn; rewrite fmap_insert; apply insert_id; by rewrite lookup_fmap, Hs).
    assert (EB : bare <$> ses w1 = bare <$> ses w) by (cbn; rewrite fmap_insert; apply insert_id; by rewrite lookup_fmap, Hs).
    destruct (IH w1 (eq_sym EB) (Some e) fuel Hn2 ltac:(cbn in Hf; lia)) as (w' & t & E & Et & E1 & E2 & E3 & E4 & E5 & E6 & E7 & E8 & E9). exists w', t. split; [done|]. split; [destruct l; [done|by rewrite last_cons_cons]|].
    do 2 (split; [done|]). split; [destruct E3; by split|]. do 2 (split; [done|]). split; [congruence|]. split; [rewrite E7; cbn; apply map_size_insert_Some; by eexists|].
    split; [split; [|done]; rewrite lookup_fmap, E9 by done; cbn; by rewrite lookup_insert_eq|]. intros x Hx. apply not_elem_of_cons in Hx as [Hx1 Hx2]. rewrite E9 by done. cbn. by rewrite lookup_insert_ne.
Qed.

(** What taking entities of [l] off does to the queues: the others keep their order, and queues without an entity of [l] stay as they are. *)
Definition thinned (w : rq) (q q' : Z -> Z -> list Z) (l : list Z) : Prop :=
  (forall r i, q' r i `sublist_of` q r i) /\ forall r, (forall x s, x ∈ l -> ses w !! x = Some s -> on_rq s = true -> rt_rq_of_se s <> r) -> q' r = q r.

(** One step of the way down. *)
Lemma down_step flags w L q b s u : move_entity flags = true -> winv w L q -> ses w !! b = Some s -> path (bare <$> ses w) b (b :: u) -> (forall x, x ∈ u -> off w x) ->
  exists w' L' q', (if on_rq s then __dequeue_rt_entity w b flags else Ok w) = Ok w' /\ winv w' L' q' /\ trail w w' q q' [b] /\ off w' b /\ thinned w q q' [b].
Proof.
  intros Hmove H Hs Hp Hu. destruct (on_rq s) eqn:Ho.
  - destruct (dequeue_entity_ok possible rank room H Hs flags Ho (owner_off H b s u Hp Hs Hu) Hmove) as (w' & L' & l1 & l2 & E & Eq & H' & M). exists w', L'. eexists. split; [done|]. split; [exact H'|].
    assert (Ho' : off w' b) by (intros a Ha; destruct M as (_ & Es & _); rewrite Es, lookup_insert_eq in Ha; by injection Ha as <-).
    split; [apply (trail_moves w w' _ _ b s false Hs M); intros r Hr; by rewrite (proj2 (Z.eqb_neq _ _)) by done|]. split; [done|]. split.
    + intros r i. destruct (Z.eqb_spec r (rt_rq_of_se s)) as [->|]; [|done]. unfold upd. destruct (Z.eqb_spec i (sprio (core <$> rqs w) s)) as [->|]; [|done]. rewrite Eq. apply sublist_app; [done|]. by apply sublist_cons.
    + intros r Hr. rewrite (proj2 (Z.eqb_neq _ _)); [done|]. intros ->. apply (Hr b s); [by apply list_elem_of_singleton|done|done|done].
  - exists w, L, q. split; [done|]. split; [done|]. split; [apply trail_refl|]. split; [intros a Ha; congruence|done].
Qed.

(** The way down takes every entity of the path off its queue. *)
Lemma stack_down_ok flags e l : move_entity flags = true -> forall w L q b u fuel, winv w L q -> path (bare <$> ses w) e (l ++ b :: u) -> (forall x, x ∈ u -> off w x) -> backs (back <$> ses w) None (l ++ [b]) -> (length l < fuel)%nat ->
  exists w' L' q', stack_down fuel w b flags = Ok w' /\ winv w' L' q' /\ trail w w' q q' (l ++ [b]) /\ (forall x, x ∈ l ++ b :: u -> off w' x) /\ thinned w q q' (l ++ [b]).
Proof.
  intros Hmove. induction l as [|c l IH] using rev_ind; intros w L q b u fuel H Hp Hu Hb Hf; (destruct fuel as [|fuel]; [lia|]); cbn [stack_down]; apply backs_snoc in Hb as [Hb1 Hb2];
    (destruct (path_in_ses e _ b Hp) as [s Hs]; [rewrite elem_of_app, elem_of_cons; auto|]); pose proof (path_tail _ _ _ _ _ Hp) as Hpb; pose proof (path_nodup H e _ Hp) as Hn;
    unfold get_se at 1; rewrite Hs; cbn [res_bind]; destruct (down_step flags w L q b s u Hmove H Hs Hpb Hu) as (w1 & L1 & q1 & -> & H1 & T1 & O1 & D1); cbn [res_bind];
    destruct (bare_lookup w w1 b s (tr_bare _ _ _ _ _ T1) Hs) as (s1 & Hs1 & _); unfold get_se; rewrite Hs1; cbn [res_bind];
    rewrite <- (tr_back _ _ _ _ _ T1), lookup_fmap, Hs1 in Hb2; cbn in Hb2; injection Hb2 as Hb2; rewrite Hb2.
  - exists w1, L1, q1. split; [done|]. split; [done|]. split; [done|]. split; [|done]. intros x Hx. cbn in Hx, Hn. apply NoDup_cons in Hn as [Hn _]. apply elem_of_cons in Hx as [->|Hx]; [done|]. apply (off_trail w w1 q q1 [b] x T1); [|by apply Hu].
    rewrite list_elem_of_singleton. intros ->. done.
  - rewrite last_snoc. rewrite <- app_assoc in Hp, Hn. cbn [app] in Hp, Hn. rewrite length_app in Hf. cbn in Hf.
    destruct (IH w1 L1 q1 c (b :: u) fuel H1) as (w' & L' & q' & E & H' & T' & O' & D'); [by rewrite (tr_bare _ _ _ _ _ T1)| |by rewrite (tr_back _ _ _ _ _ T1)|lia|].
    + intros x Hx. apply elem_of_cons in Hx as [->|Hx]; [done|]. apply (off_trail w w1 q q1 [b] x T1); [|by apply Hu]. rewrite list_elem_of_singleton. intros ->.
      apply NoDup_app in Hn as (_ & _ & Hn). apply NoDup_cons in Hn as [_ Hn]. apply NoDup_cons in Hn as [Hn _]. done.
    + exists w', L', q'. split; [done|]. split; [done|]. split; [|split; [by rewrite <- app_assoc|]]; [apply (trail_trans w w1 w' q q1 q' _ _ _ T1 T'); intros x [Hx|Hx]; rewrite elem_of_app; auto|]. destruct D1 as [A1 A2]. destruct D' as [B1 B2].
      split; [intros r i; etransitivity; [apply B1|apply A1]|]. intros r Hr. rewrite B2, A2; [done| |]; intros x a Hx Ha; [apply (Hr x); [rewrite elem_of_app; auto|done]|].
      apply (Hr x); [rewrite elem_of_app; auto|]. rewrite <- (tr_other _ _ _ _ _ T1); [done|]. rewrite list_elem_of_singleton. intros ->.
      change (l ++ c :: b :: u) with (l ++ [c] ++ b :: u) in Hn. rewrite app_assoc in Hn. apply NoDup_app in Hn as (_ & Hn & _). apply (Hn b Hx), elem_of_cons. auto.
Qed.

(** Whether [x] is queued is what its queue says: a task is queued, a group when its queue is [live]. *)
Definition settled (w : rq) (x : Z) : Prop := forall s g G, ses w !! x = Some s -> my_q s = Some g -> rqs w !! g = Some G -> on_rq s = live w G.

Lemma live_same w w' g G G' : kept w w' -> (core <$> rqs w') !! g = (core <$> rqs w) !! g -> rqs w !! g = Some G -> rqs w' !! g = Some G' -> live w' G' = live w G.
Proof.
  intros [] E HG HG'. rewrite !lookup_fmap, HG, HG' in E. cbn in E. assert (E' : core G' = core G) by congruence. destruct (core_curr _ _ E') as (_ & E1 & _ & E2 & _ & E3 & _).
  unfold live, thr. by rewrite E1, E2, E3, kp_groups, kp_cpu.
Qed.

(** The queue below an entity is left alone by its path. *)
Lemma own_untouched w w' L q q' e s l g : winv w L q -> trail w w' q q' l -> ses w !! e = Some s -> my_q s = Some g -> (forall x a, x ∈ l -> ses w !! x = Some a -> (rank (rt_rq_of_se a) <= rank (rt_rq_of_se s))%nat) ->
  (core <$> rqs w') !! g = (core <$> rqs w) !! g /\ q' g = q g.
Proof.
  intros H T Hs Hg Hl. apply (tr_queue _ _ _ _ _ T). intros x a Hx Ha E. specialize (Hl x a Hx Ha). destruct (sh_my _ _ _ _ _ (b_shape _ _ _ _ _ _ _ (wi_base _ _ _ _ _ _ H)) e (face s) g (face_lookup w e s Hs) Hg) as (_ & _ & Hr).
  change (rt_rq_of_se (face s)) with (rt_rq_of_se s) in Hr. rewrite E in Hl. lia.
Qed.

Lemma settled_trail w w' L q q' e s l : winv w L q -> trail w w' q q' l -> ses w !! e = Some s -> ses w' !! e = Some s -> (forall x a, x ∈ l -> ses w !! x = Some a -> (rank (rt_rq_of_se a) <= rank (rt_rq_of_se s))%nat) -> settled w e -> settled w' e.
Proof.
  intros H T Hs Hs' Hl Hset s' g G Hx Hg HG. rewrite Hs' in Hx. injection Hx as <-. destruct (own_untouched w w' L q q' e s l g H T Hs Hg Hl) as [EK _].
  destruct (owned_exists possible rank room H Hs g Hg) as [G0 HG0]. rewrite (live_same w w' g G0 G (tr_kept _ _ _ _ _ T) EK HG0 HG). by apply (Hset s g).
Qed.

(** One step of the way up. *)
Lemma up_step flags w L q e s l : move_entity flags = true -> winv w L q -> ses w !! e = Some s -> path (bare <$> ses w) e (e :: l) -> (forall x, x ∈ e :: l -> off w x) ->
  exists w' L' q', __enqueue_rt_entity enabled w e flags = Ok w' /\ winv w' L' q' /\ trail w w' q q' [e] /\ settled w' e /\ (my_q s = None -> exists s', ses w' !! e = Some s' /\ on_rq s' = true) /\
    (my_q s = None -> q' (rt_rq_of_se s) = upd (q (rt_rq_of_se s)) (prio s) (if negb (Z.land flags ENQUEUE_HEAD =? 0) then e :: q (rt_rq_of_se s) (prio s) else q (rt_rq_of_se s) (prio s) ++ [e])).
Proof.
  intros Hmove H Hs Hp Hoff. assert (Ho : on_rq s = false) by (apply (Hoff e); [apply elem_of_cons; auto|done]).
  destruct (match my_q s with Some g => match rqs w !! g with Some G => live w G | None => true end | None => true end) eqn:El.
  - assert (Hlive : forall g G, my_q s = Some g -> rqs w !! g = Some G -> live w G = true) by (intros g G Eg EG; by rewrite Eg, EG in El).
    destruct (enqueue_entity_ok enabled possible rank room H Hs flags Ho (owner_off H e s l Hp Hs (fun x Hx => Hoff x (list_elem_of_further _ _ _ Hx))) Hmove Hlive) as (w' & L' & E & H' & M).
    exists w', L'. eexists. split; [done|]. split; [exact H'|]. destruct M as (Mk & Es & MR). assert (M : moves w w' e (set_on s true true) (rt_rq_of_se s)) by (by split).
    assert (T : trail w w' q (fun r0 => if r0 =? rt_rq_of_se s then upd (q (rt_rq_of_se s)) (sprio (core <$> rqs w) s) (if negb (Z.land flags ENQUEUE_HEAD =? 0) then e :: q (rt_rq_of_se s) (sprio (core <$> rqs w) s) else q (rt_rq_of_se s) (sprio (core <$> rqs w) s) ++ [e]) else q r0) [e]).
    { apply (trail_moves w w' _ _ e s true Hs M). intros r Hr. by rewrite (proj2 (Z.eqb_neq _ _)) by done. }
    split; [exact T|]. split; [|split; [intros _; exists (set_on s true true); by rewrite Es, lookup_insert_eq|intros Em; rewrite Z.eqb_refl; unfold sprio; by rewrite Em]].
    intros s' g G Hs' Hg HG. rewrite Es, lookup_insert_eq in Hs'. injection Hs' as <-. cbn in Hg |- *. destruct (own_untouched w w' L q _ e s [e] g H T Hs Hg) as [EK _]; [intros x a Hx Ha; apply list_elem_of_singleton in Hx as ->; assert (a = s) as -> by congruence; lia|].
    destruct (owned_exists possible rank room H Hs g Hg) as [G0 HG0]. rewrite (live_same w w' g G0 G (tr_kept _ _ _ _ _ T) EK HG0 HG). symmetry. by apply (Hlive g).
  - destruct (my_q s) as [g|] eqn:Eg; [|done]. destruct (rqs w !! g) as [G|] eqn:EG; [|done]. exists w, L, q. split; [by apply (enqueue_skip_ok enabled possible rank room H Hs flags g G)|]. split; [done|]. split; [apply trail_refl|].
    split; [|done]. intros s' g' G' Hs' Hg' HG'. assert (s' = s) as -> by congruence. assert (g' = g) as -> by congruence. congruence.
Qed.

(** The queue of [e] after it joined the tasks of its priority. *)
Definition joined (flags e : Z) (q : Z -> list Z) (p : Z) : Z -> list Z := upd q p (if negb (Z.land flags ENQUEUE_HEAD =? 0) then e :: q p else q p ++ [e]).

(** The way up puts back what has tasks; a task goes to its place. *)
Lemma enqueue_up_ok flags e l : move_entity flags = true -> forall w L q s fuel, winv w L q -> ses w !! e = Some s -> path (bare <$> ses w) e l -> (forall x, x ∈ l -> off w x) -> (length l <= fuel)%nat ->
  exists w' L' q', enqueue_up enabled fuel w e flags = Ok w' /\ winv w' L' q' /\ trail w w' q q' l /\ (forall x, x ∈ l -> settled w' x) /\
    (my_q s = None -> (exists s', ses w' !! e = Some s' /\ on_rq s' = true) /\ q' (rt_rq_of_se s) = joined flags e (q (rt_rq_of_se s)) (prio s)).
Proof.
  intros Hmove. revert e. induction l as [|x l IH]; intros e w L q s fuel H Hs Hp Hoff Hf; [inversion Hp|]. destruct (path_head _ _ _ Hp) as [t Et]. injection Et as -> <-.
  destruct fuel as [|fuel]; [cbn in Hf; lia|]. cbn [enqueue_up]. destruct (up_step flags w L q e s l Hmove H Hs Hp Hoff) as (w1 & L1 & q1 & -> & H1 & T1 & S1 & O1 & J1). cbn [res_bind].
  destruct (bare_lookup w w1 e s (tr_bare _ _ _ _ _ T1) Hs) as (s1 & Hs1 & Eb). destruct (bare_parts _ _ Eb) as (Ep & Er & _). unfold get_se. rewrite Hs1. cbn [res_bind]. rewrite Ep.
  pose proof (path_nodup H e _ Hp) as Hn. apply NoDup_cons in Hn as [Hn _]. destruct (path_cons e s l Hp Hs) as [[-> Epar]|(p & Epar & Hl)]; rewrite Epar.
  - exists w1, L1, q1. split; [done|]. split; [done|]. split; [done|]. split; [intros x Hx; by apply list_elem_of_singleton in Hx as ->|]. intros Em. split; [by apply O1|by apply J1].
  - destruct (up H e s p Hs Epar) as (sp & Hsp & _). destruct (bare_lookup w w1 p sp (tr_bare _ _ _ _ _ T1) Hsp) as (sp1 & Hsp1 & _).
    destruct (IH p w1 L1 q1 sp1 fuel H1 Hsp1) as (w' & L' & q' & E & H' & T' & S' & _); [by rewrite (tr_bare _ _ _ _ _ T1)| |cbn in Hf; lia|].
    { intros x Hx. apply (off_trail w w1 q q1 [e] x T1); [|apply Hoff, elem_of_cons; auto]. rewrite list_elem_of_singleton. intros ->. done. }
    assert (Hs' : ses w' !! e = Some s1) by (by rewrite (tr_other _ _ _ _ _ T' e Hn)).
    assert (Hr : forall x a, x ∈ l -> ses w1 !! x = Some a -> (rank (rt_rq_of_se a) < rank (rt_rq_of_se s1))%nat).
    { apply (path_rank H1 e s1 l); [by rewrite (tr_bare _ _ _ _ _ T1)|done]. }
    exists w', L', q'. split; [done|]. split; [done|]. split; [apply (trail_trans w w1 w' q q1 q' _ _ _ T1 T'); intros x [Hx|Hx]; [apply list_elem_of_singleton in Hx as ->|]; apply elem_of_cons; auto|]. split.
    + intros x Hx. apply elem_of_cons in Hx as [->|Hx]; [|by apply S']. apply (settled_trail w1 w' L1 q1 q' e s1 l H1 T' Hs1 Hs'); [|done]. intros x a Hx Ha. specialize (Hr x a Hx Ha). lia.
    + intros Em. split; [exists s1; split; [done|]; destruct (O1 Em) as (s2 & Hs2 & ?); congruence|]. destruct (tr_queue _ _ _ _ _ T' (rt_rq_of_se s)) as [_ ->]; [|by apply J1].
      intros x a Hx Ha Ea. specialize (Hr x a Hx Ha). rewrite Er, Ea in Hr. lia.
Qed.

(** The loop of [dequeue_rt_entity] does the same to groups. *)
Lemma requeue_group w L q e s g : winv w L q -> ses w !! e = Some s -> my_q s = Some g -> off w e -> forall flags,
  (G <-- get_rq w g; if negb (rt_nr_running G =? 0) then __enqueue_rt_entity enabled w e flags else Ok w) = __enqueue_rt_entity enabled w e flags.
Proof.
  intros H Hs Hg Ho flags. destruct (owned_exists possible rank room H Hs g Hg) as [G HG]. unfold get_rq. rewrite HG. cbn [res_bind]. destruct (Z.eqb_spec (rt_nr_running G) 0) as [E0|E0]; cbn [negb]; [|done].
  symmetry. apply (enqueue_skip_ok enabled possible rank room H Hs flags g G Hg HG (Ho s Hs)). unfold live. rewrite E0. apply andb_false_r.
Qed.

Lemma requeue_groups_eq flags l : move_entity flags = true -> forall e w L q s g fuel, winv w L q -> ses w !! e = Some s -> my_q s = Some g -> path (bare <$> ses w) e l -> (forall x, x ∈ l -> off w x) ->
  requeue_groups enabled fuel w e flags = enqueue_up enabled fuel w e flags.
Proof.
  intros Hmove. induction l as [|x l IH]; intros e w L q s g fuel H Hs Hg Hp Hoff; [inversion Hp|]. destruct (path_head _ _ _ Hp) as [t Et]. injection Et as -> <-.
  destruct fuel as [|fuel]; [done|]. cbn [enqueue_up requeue_groups]. unfold get_se at 1. rewrite Hs. cbn [res_bind]. rewrite Hg, (requeue_group w L q e s g H Hs Hg); [|apply Hoff, elem_of_cons; auto].
  destruct (up_step flags w L q e s l Hmove H Hs Hp Hoff) as (w1 & L1 & q1 & -> & H1 & T1 & S1 & O1 & J1). cbn [res_bind].
  destruct (bare_lookup w w1 e s (tr_bare _ _ _ _ _ T1) Hs) as (s1 & Hs1 & Eb). destruct (bare_parts _ _ Eb) as (Ep & Er & _). unfold get_se. rewrite Hs1. cbn [res_bind]. rewrite Ep.
  pose proof (path_nodup H e _ Hp) as Hn. apply NoDup_cons in Hn as [Hn _]. destruct (path_cons e s l Hp Hs) as [[-> Epar]|(p & Epar & Hl)]; rewrite Epar; [done|].
  destruct (up H e s p Hs Epar) as (sp & Hsp & Em & _). destruct (bare_lookup w w1 p sp (tr_bare _ _ _ _ _ T1) Hsp) as (sp1 & Hsp1 & Eb1). destruct (bare_parts _ _ Eb1) as (_ & _ & Em1 & _).
  apply (IH p w1 L1 q1 sp1 (rt_rq_of_se s)); [done|done|congruence|by rewrite (tr_bare _ _ _ _ _ T1)|].
  intros x Hx. apply (off_trail w w1 q q1 [e] x T1); [|apply Hoff, elem_of_cons; auto]. rewrite list_elem_of_singleton. intros ->. done.
Qed.
End Tree.
