(* ===== verification/RtClass.v ===== *)
(** * Queueing, throttling and picking in the real-time class

    The theorems on the tree of run queues: a task can be queued and dequeued at any place of the tree, a group's
    queue throttled and given back its budget, and the task picked is the first of the most urgent ones. *)

From stdpp Require Import gmap list.
From S2P Require Import Prelude Sums Bitops Bitmap ListHead Cpumask Cpupri RtArray RtBandwidth RtQueue RtInvariant RtSteps RtEntity RtTree.
Local Open Scope Z_scope.
Local Open Scope res_scope.

(** ** The flag of the root queue *)

Lemma queued_entity K r R b : K !! r = Some R -> forall s : rt_se, let K' := <[r := set_queued R b]> K in sprio K' s = sprio K s /\ snr K' s = snr K s /\ srr K' s = srr K s /\ nboost K' s = nboost K s.
Proof.
  intros HR s. cbv zeta. unfold nboost, sprio, snr, srr, sboost, of_queue. destruct (my_q s) as [g|]; [|done]. destruct (decide (r = g)) as [<-|Hne]; [by rewrite lookup_insert_eq, HR|by rewrite lookup_insert_ne].
Qed.

Lemma base_queued S K L q top rank room r R b : base S K L q top rank room -> K !! r = Some R -> base S (<[r := set_queued R b]> K) L q top rank room.
Proof.
  intros [B1 B2 B3 B4 B5 B6 B7] HR. pose proof (queued_entity K r R b HR) as HE. set (K' := <[r := set_queued R b]> K) in *.
  assert (HL : forall x X, K' !! x = Some X -> exists X0, K !! x = Some X0 /\ active X0 = active X /\ rt_nr_running X0 = rt_nr_running X /\ rr_nr_running X0 = rr_nr_running X /\ rt_nr_boosted X0 = rt_nr_boosted X).
  { intros x X HX. apply lookup_insert_Some in HX as [[<- <-]|[_ HX]]; [by exists R|by exists X]. }
  assert (HT : forall F : gmap Z rt_rq -> rt_se -> Z, (forall s, F K' s = F K s) -> forall x, total (F K') x S = total (F K) x S).
  { intros F HF x. unfold total. apply sumq_ext. intros y a _. by rewrite HF. }
  split.
  - apply shape_put_rq; [done|by eexists].
  - intros x X HX. destruct (HL x X HX) as (X0 & H0 & <- & _). by apply B2.
  - intros x X i e HX Hi. destruct (HL x X HX) as (X0 & H0 & _). rewrite (B3 x X0 i e H0 Hi). split; intros (s & Hs & Ho & Er & Ep); exists s; destruct (HE s) as (E1 & _); (split; [done|]; split; [done|]; split; [done|congruence]).
  - intros e s Hs. destruct (HE s) as (-> & -> & _). by apply B4.
  - intros x X HX. destruct (HL x X HX) as (X0 & H0 & _ & <- & _). rewrite (HT snr) by apply HE. by apply B5.
  - intros x X HX. destruct (HL x X HX) as (X0 & H0 & _ & <- & <- & _). rewrite (HT srr) by apply HE. by apply B6.
  - intros x X HX. destruct (HL x X HX) as (X0 & H0 & _ & _ & _ & <-). rewrite (HT nboost) by apply HE. by apply B7.
Qed.

Lemma sumq_faces (F : rt_se -> Z) (S : gmap Z rt_se) : (forall s, F (face s) = F s) -> sumq F (face <$> S) = sumq F S.
Proof.
  intros HF. induction S as [|x s S Hx IH] using map_ind; [by rewrite fmap_empty|]. rewrite fmap_insert, !sumq_insert; [by rewrite HF, IH|done|]. by rewrite lookup_fmap, Hx.
Qed.

Section Class.
Context {enabled : bool} {possible : list Z} {rank : Z -> nat} {room : Z -> Z}.
Local Abbreviation winv := (winv possible rank room).

(** The root queue is put on or taken off the CPU. *)
Lemma winv_queued w L q T b n o : winv w L q -> rqs w !! top w = Some T -> winv (put_rq (set_nr_running w n o) (top w) (set_queued T b)) L q.
Proof.
  intros [W1 W2 W3 W4 W5 W6 W7] HT. assert (HK := core_of w (top w) T HT). assert (EK : core <$> <[top w := set_queued T b]> (rqs w) = <[top w := set_queued (core T) b]> (core <$> rqs w)) by (by rewrite fmap_insert).
  split; cbn [lists ses rqs top put_rq set_nr_running]; try done.
  - rewrite EK. by apply base_queued.
  - rewrite EK. intros r R HR. apply lookup_insert_Some in HR as [[<- <-]|[_ HR]]; [exact (W3 _ _ HK)|by apply W3].
  - by destruct (synced_put possible w (top w) T (set_queued T b) W4 HT eq_refl).
  - apply (budgeted_core w); [done|done|done|]. intros r R HR. cbn in HR. apply lookup_insert_Some in HR as [[<- <-]|[_ HR]]; [by exists T|by exists R].
  - destruct W6 as [(T0 & HT0 & HM) M2 M3]. split; [|done|done]. assert (T0 = T) as -> by congruence. exists (set_queued T b). split; [apply lookup_insert_eq|exact HM].
Qed.

(** The links of the way up do not matter. *)
Lemma winv_faces w w' L q : winv w L q -> lists w' = lists w -> rqs w' = rqs w -> kept w w' -> cpupri w' = cpupri w -> rto_mask w' = rto_mask w -> face <$> ses w' = face <$> ses w -> size (ses w') = size (ses w) -> winv w' L q.
Proof.
  intros [W1 W2 W3 W4 W5 W6 W7] E1 E2 [] E3 E4 E5 E6.
  assert (ES : forall F : rt_se -> Z, (forall s, F (face s) = F s) -> sumq F (ses w') = sumq F (ses w)).
  { intros F HF. rewrite <- (sumq_faces F (ses w') HF), <- (sumq_faces F (ses w) HF). by rewrite E5. }
  split; rewrite ?E1, ?E2, ?E5, ?E6, ?kp_top; try done.
  - destruct W4 as [S1 S2 S3 S4]. split; rewrite ?kp_cpu, ?E3, ?kp_online, ?kp_top, ?E2; done.
  - intros r R. rewrite E2, kp_groups, kp_cpu. apply W5.
  - unfold sum_tasks, sum_movable in *. rewrite !ES by done. destruct W6 as [(T & HT & HM) M2 M3]. split; rewrite ?kp_cpu, ?E4; try done. exists T. rewrite kp_top, E2, kp_online. done.
Qed.

(** ** The invariant of the tree *)

(** Every group but those of [X] is queued when its queue is [live]; [other] counts the tasks of other classes. *)
Record tree (w : rq) (L : gmap Z (list Z)) (q : Z -> Z -> list Z) (X : list Z) (other : Z) : Prop := {
  tn_w : winv w L q; tn_settled x : x ∉ X -> settled w x;
  tn_root : exists T, rqs w !! top w = Some T /\ (rt_queued T = true -> rt_nr_running T <> 0) /\ nr_running w = other + (if rt_queued T then rt_nr_running T else 0);
  tn_other : 0 <= other /\ other + room (top w) < 2 ^ 32 }.

(** The tree at rest: the root queue is on the CPU when it is [live]. *)
Definition at_rest (w : rq) (L : gmap Z (list Z)) (q : Z -> Z -> list Z) (other : Z) : Prop := tree w L q [] other /\ forall T, rqs w !! top w = Some T -> rt_queued T = live w T.

(** The effect of taking the entities of [l] off and putting some of them back. *)
Record restacked (w w' : rq) (q q' : Z -> Z -> list Z) (l : list Z) : Prop := {
  rs_top : top w' = top w; rs_groups : groups w' = groups w; rs_cpu : cpu w' = cpu w; rs_online : online w' = online w; rs_se_of : rt_se_of w' = rt_se_of w; rs_tg : tg <$> rqs w' = tg <$> rqs w;
  rs_bare : bare <$> ses w' = bare <$> ses w; rs_other x : x ∉ l -> ses w' !! x = ses w !! x;
  rs_queue r : (forall x s, x ∈ l -> ses w !! x = Some s -> rt_rq_of_se s <> r) -> (core <$> rqs w') !! r = (core <$> rqs w) !! r /\ q' r = q r }.

Lemma restacked_trail w w' q q' l : trail w w' q q' l -> restacked w w' q q' l.
Proof.
  intros [[] ? ? EF ? ?]. split; try done. assert (ET : forall v : rq, tg <$> rqs v = snd <$> (fixed <$> rqs v)) by (intros v; rewrite <- map_fmap_compose; by apply map_fmap_ext). by rewrite !ET, EF.
Qed.

Lemma restacked_trans w1 w2 w3 q1 q2 q3 l : restacked w1 w2 q1 q2 l -> restacked w2 w3 q2 q3 l -> restacked w1 w3 q1 q3 l.
Proof.
  intros [A1 A2 A3 A4 A5 A6 A7 A8 A9] [B1 B2 B3 B4 B5 B6 B7 B8 B9]. split; try congruence.
  - intros x Hx. by rewrite B8, A8.
  - intros r Hr. destruct (A9 r Hr) as [C1 C2]. destruct (B9 r) as [D1 D2]; [|split; congruence].
    intros x s Hx Hs. destruct (bare_lookup w2 w1 x s (eq_sym A7) Hs) as (s0 & Hs0 & E0). destruct (bare_parts _ _ (eq_sym E0)) as (_ & -> & _). by apply (Hr x).
Qed.

(** A path is closed upwards, and ends at the root queue. *)
Lemma path_closed w L q e l y s x : winv w L q -> path (bare <$> ses w) e l -> y ∈ l -> ses w !! y = Some s -> parent s = Some x -> x ∈ l.
Proof.
  intros H Hp Hy Hs Hx. destruct (path_in _ _ _ _ Hp Hy) as (b & l1 & l2 & _ & -> & Hl). destruct (path_head _ _ _ Hl) as [t ->]. destruct (path_cons y s t Hl Hs) as [[_ ?]|(p & Ep & Ht)]; [congruence|].
  assert (p = x) as -> by congruence. destruct (path_head _ _ _ Ht) as [u ->]. rewrite elem_of_app, !elem_of_cons. auto.
Qed.

Lemma path_last w L q e l t s : winv w L q -> path (bare <$> ses w) e l -> last l = Some t -> ses w !! t = Some s -> rt_rq_of_se s = top w.
Proof.
  intros H Hp Ht Hs. apply last_Some in Ht as [l' ->]. pose proof (path_tail _ _ _ _ _ Hp) as Hl. destruct (path_cons t s [] Hl Hs) as [[_ Epar]|(p & _ & Hp')]; [|inversion Hp'].
  exact (sh_root _ _ _ _ _ (b_shape _ _ _ _ _ _ _ (wi_base _ _ _ _ _ _ H)) t (face s) (face_lookup w t s Hs) Epar).
Qed.

(** Groups off the path stay as they should be. *)
Lemma settled_restacked w w' L q q' e l x : winv w L q -> path (bare <$> ses w) e l -> restacked w w' q q' l -> x ∉ l -> settled w x -> settled w' x.
Proof.
  intros H Hp R Hx Hset s g G Hs Hg HG. rewrite (rs_other _ _ _ _ _ R x Hx) in Hs. destruct (owned_exists possible rank room H Hs g Hg) as [G0 HG0].
  destruct (rs_queue _ _ _ _ _ R g) as [EK _].
  { intros y a Hy Ha Ea. apply Hx, (path_closed w L q e l y a x H Hp Hy Ha). apply (owner_parent H y a x s Ha Hs). congruence. }
  rewrite !lookup_fmap, HG, HG0 in EK. cbn in EK. assert (E' : core G = core G0) by congruence. destruct (core_curr _ _ E') as (_ & E1 & _ & E2 & _ & E3 & _).
  unfold live, thr. rewrite E1, E2, E3, (rs_groups _ _ _ _ _ R), (rs_cpu _ _ _ _ _ R). by apply (Hset s g).
Qed.

Lemma tg_put (K : gmap Z rt_rq) r R b : K !! r = Some R -> tg <$> <[r := set_queued R b]> K = tg <$> K.
Proof. intros HR. rewrite fmap_insert. apply insert_id. by rewrite lookup_fmap, HR. Qed.

(** [dequeue_top_rt_rq] *)
Lemma dequeue_top_ok w L q X other : tree w L q X other -> exists w' T, dequeue_top_rt_rq w (top w) = Ok w' /\ winv w' L q /\ rqs w !! top w = Some T /\ rqs w' = <[top w := set_queued T false]> (rqs w) /\ ses w' = ses w /\ nr_running w' = other /\
  top w' = top w /\ groups w' = groups w /\ cpu w' = cpu w /\ online w' = online w /\ rt_se_of w' = rt_se_of w /\ resched w' = resched w.
Proof.
  intros [H _ (T & HT & Hpos & Hnr) [Ho1 Ho2]]. assert (HK := core_of w (top w) T HT). destruct (range_of possible rank room w L q (top w) (core T) H HK) as [Rn _]. cbn in Rn.
  destruct (b_nr _ _ _ _ _ _ _ (wi_base _ _ _ _ _ _ H) (top w) (core T) HK) as [_ Rm]. cbn in Rm.
  unfold dequeue_top_rt_rq, get_rq. rewrite Z.eqb_refl. cbn [negb]. rewrite HT. cbn [res_bind]. destruct (rt_queued T) eqn:Eq; cbn [negb].
  - specialize (Hpos eq_refl). rewrite (proj2 (Z.eqb_neq _ _)) by lia. eexists _, T. split; [done|]. split; [by apply winv_queued|]. do 3 (split; [done|]). split; [cbn; rewrite u32_small; lia|]. done.
  - exists w, T. split; [done|]. split; [done|]. split; [done|]. split; [symmetry; apply insert_id; rewrite HT; destruct T; cbn in Eq |- *; by rewrite Eq|]. split; [done|]. split; [lia|done].
Qed.

Lemma bare_faces (S S' : gmap Z rt_se) : face <$> S' = face <$> S -> bare <$> S' = bare <$> S.
Proof.
  intros E. assert (EB : forall M : gmap Z rt_se, bare <$> M = bare <$> (face <$> M)) by (intros M; rewrite <- map_fmap_compose; by apply map_fmap_ext).
  by rewrite (EB S'), (EB S), E.
Qed.

(** The whole path is off its queues, the root queue off the CPU. *)
Lemma stack_ok flags w L q X other e l : move_entity flags = true -> tree w L q X other -> path (bare <$> ses w) e l -> (forall x, x ∈ X -> x ∈ l) ->
  exists w' L' q', dequeue_rt_stack w e flags = Ok w' /\ winv w' L' q' /\ restacked w w' q q' l /\ (forall x, x ∈ l -> off w' x) /\ (forall x, x ∉ l -> settled w' x) /\ nr_running w' = other /\
    (exists T, rqs w' !! top w = Some T /\ rt_queued T = false) /\ thinned w q q' l.
Proof.
  intros Hmove HT Hp HX. pose proof (tn_w _ _ _ _ _ HT) as H. pose proof (path_nodup H e l Hp) as Hn. pose proof (rt_path_length H e l Hp) as Hlen. unfold dequeue_rt_stack.
  destruct (stack_up_ok w e l None (depth_fuel w) Hp Hn ltac:(unfold depth_fuel; lia)) as (w1 & t & -> & Ht & E1 & E2 & E3 & E4 & E5 & E6 & E7 & E8 & E9). cbn [res_bind].
  pose proof (winv_faces w w1 L q H E1 E2 E3 E4 E5 E6 E7) as H1. pose proof (bare_faces _ _ E6) as EB. rewrite <- EB in Hp. assert (Hp1 := Hp). rewrite EB in Hp1.
  destruct (path_in_ses e l t Hp) as [s Hs]; [apply last_Some in Ht as [l' ->]; rewrite elem_of_app, list_elem_of_singleton; auto|]. pose proof (path_last w1 L q e l t s H1 Hp Ht Hs) as Etop. unfold get_se. rewrite Hs. cbn [res_bind]. rewrite Etop.
  assert (HT1 : tree w1 L q l other).
  { destruct HT as [_ A2 A3 A4]. destruct E3. split; rewrite ?kp_top, ?kp_nr, ?E2; try done. intros x Hx s' g G Hs' Hg HG. rewrite E9 in Hs' by done. rewrite E2 in HG. unfold live, thr. rewrite kp_groups, kp_cpu. apply (A2 x) with (g := g); auto. }
  destruct (dequeue_top_ok w1 L q l other HT1) as (w2 & T & -> & H2 & HT2 & Q2 & S2 & N2 & F1 & F2 & F3 & F4 & F5 & F6). cbn [res_bind].
  apply last_Some in Ht as [l' ->]. destruct (stack_down_ok flags e l' Hmove w2 L q t [] (depth_fuel w2) H2) as (w3 & L3 & q3 & -> & H3 & T3 & O3 & [D1 D2]); [by rewrite S2|intros x Hx; by apply elem_of_nil in Hx|by rewrite S2|unfold depth_fuel; rewrite S2, E7; rewrite length_app in Hlen; cbn in Hlen; lia|].
  assert (R : restacked w w3 q q3 (l' ++ [t])).
  { apply (restacked_trans w w1 w3 q q q3).
    - destruct E3. split; try done; [by rewrite E2|]. intros r _. by rewrite E2.
    - apply (restacked_trans w1 w2 w3 q q q3); [|by apply restacked_trail]. split; try done; [rewrite Q2; by apply tg_put|by rewrite S2|by rewrite S2|]. intros r Hr. split; [|done]. rewrite Q2, fmap_insert, lookup_insert_ne; [done|].
      rewrite <- Etop. apply (Hr t); [rewrite elem_of_app, list_elem_of_singleton; auto|done]. }
  exists w3, L3, q3. split; [done|]. split; [done|]. split; [done|]. split; [done|]. split.
  { intros x Hx. apply (settled_restacked w w3 L q q3 e (l' ++ [t]) x H Hp1 R Hx). apply (tn_settled _ _ _ _ _ HT). intros ?. apply Hx. auto. }
  split; [by rewrite (kp_nr _ _ (tr_kept _ _ _ _ _ T3))|]. pose proof (tr_fixed _ _ _ _ _ T3) as EF. assert (EF' : (fixed <$> rqs w3) !! top w1 = (fixed <$> rqs w2) !! top w1) by (by rewrite EF).
  rewrite !lookup_fmap, Q2, lookup_insert_eq in EF'. rewrite <- (kp_top _ _ E3). split; [destruct (rqs w3 !! top w1) as [T'|]; [|done]; exists T'; split; [done|]; cbn in EF'; unfold fixed in EF'; cbn in EF'; congruence|].
  split; [done|]. intros r Hr. apply D2. intros x a Hx Ha Ho. rewrite S2 in Ha. assert (EX : (face <$> ses w1) !! x = (face <$> ses w) !! x) by (by rewrite E6). rewrite !lookup_fmap, Ha in EX.
  destruct (ses w !! x) as [a0|] eqn:Ha0; [|done]. cbn in EX. assert (EX' : face a = face a0) by congruence. change (rt_rq_of_se a) with (rt_rq_of_se (face a)). rewrite EX'. apply (Hr x a0 Hx Ha0). change (on_rq a0) with (on_rq (face a0)). by rewrite <- EX'.
Qed.

(** [enqueue_top_rt_rq] puts the root queue on the CPU when it should be. *)
Lemma enqueue_top_ok w L q other T : winv w L q -> (forall x, settled w x) -> rqs w !! top w = Some T -> rt_queued T = false -> nr_running w = other -> 0 <= other /\ other + room (top w) < 2 ^ 32 ->
  exists w', enqueue_top_rt_rq w (top w) = Ok w' /\ at_rest w' L q other /\ ses w' = ses w /\ rqs w' = <[top w := set_queued T (live w T)]> (rqs w) /\
    top w' = top w /\ groups w' = groups w /\ cpu w' = cpu w /\ online w' = online w /\ rt_se_of w' = rt_se_of w /\ resched w' = resched w.
Proof.
  intros H Hset HT Eq Hnr [Ho1 Ho2]. assert (HK := core_of w (top w) T HT). destruct (range_of possible rank room w L q (top w) (core T) H HK) as [Rn _]. cbn in Rn.
  destruct (b_nr _ _ _ _ _ _ _ (wi_base _ _ _ _ _ _ H) (top w) (core T) HK) as [_ Rm]. cbn in Rm.
  assert (Hstay : live w T = false -> exists w', Ok w = Ok w' /\ at_rest w' L q other /\ ses w' = ses w /\ rqs w' = <[top w := set_queued T (live w T)]> (rqs w) /\
    top w' = top w /\ groups w' = groups w /\ cpu w' = cpu w /\ online w' = online w /\ rt_se_of w' = rt_se_of w /\ resched w' = resched w).
  { intros El. exists w. split; [done|]. split; [|split; [done|]; split; [rewrite El; symmetry; apply insert_id; rewrite HT; destruct T; cbn in Eq |- *; by rewrite Eq|done]].
    split; [|intros T' HT'; congruence]. split; [done|auto| |done]. exists T. split; [done|]. split; [congruence|]. rewrite Eq. lia. }
  unfold enqueue_top_rt_rq, get_rq. rewrite Z.eqb_refl. cbn [negb]. rewrite HT. cbn [res_bind]. rewrite Eq, (is_throttled_ok w (top w) T (wi_budget _ _ _ _ _ _ H) HT). cbn [res_bind].
  unfold live in *. destruct (thr w T) eqn:Et; cbn [negb andb] in *; [by apply Hstay|]. destruct (Z.eqb_spec (rt_nr_running T) 0) as [E0|E0]; cbn [negb] in *; [by apply Hstay|].
  eexists. split; [done|]. split; [|done]. split; [split|].
  - by apply winv_queued.
  - intros x _ s g G Hs Hg HG. cbn in Hs, HG. apply lookup_insert_Some in HG as [[<- <-]|[_ HG]]; [exact (Hset x s (top w) T Hs Hg HT)|exact (Hset x s g G Hs Hg HG)].
  - exists (set_queued T true). split; [apply lookup_insert_eq|]. split; [done|]. cbn. rewrite u32_small by lia. lia.
  - done.
  - intros T' HT'. cbn in HT'. rewrite lookup_insert_eq in HT'. injection HT' as <-. unfold live. cbn. change (thr _ (set_queued T true)) with (thr w T). rewrite Et, (proj2 (Z.eqb_neq _ _)) by done. done.
Qed.

(** ** Queueing and dequeueing *)

Lemma root_touched w L q e l r : winv w L q -> path (bare <$> ses w) e l -> (forall x s, x ∈ l -> ses w !! x = Some s -> rt_rq_of_se s <> r) -> top w <> r.
Proof.
  intros H Hp Hr. destruct (last l) as [t|] eqn:Et; [|apply last_None in Et as ->; inversion Hp]. assert (Ht : t ∈ l) by (apply last_Some in Et as [l' ->]; rewrite elem_of_app, list_elem_of_singleton; auto).
  destruct (path_in_ses e l t Hp Ht) as [s Hs]. rewrite <- (path_last w L q e l t s H Hp Et Hs). by apply (Hr t).
Qed.

(** The end of both operations: the passes upwards are done, the root queue is off the CPU. *)
Lemma rt_finish_ok w1 w2 L1 L2 q1 q2 e l other : winv w1 L1 q1 -> path (bare <$> ses w1) e l -> (forall x, x ∉ l -> settled w1 x) -> nr_running w1 = other -> 0 <= other /\ other + room (top w1) < 2 ^ 32 ->
  (exists T, rqs w1 !! top w1 = Some T /\ rt_queued T = false) -> winv w2 L2 q2 -> trail w1 w2 q1 q2 l -> (forall x, x ∈ l -> settled w2 x) ->
  exists w', enqueue_top_rt_rq w2 (top w2) = Ok w' /\ at_rest w' L2 q2 other /\ restacked w1 w' q1 q2 l /\ ses w' = ses w2.
Proof.
  intros H1 Hp Hset Hnr Hoth (T1 & HT1 & Eq1) H2 T Hl. pose proof (tr_kept _ _ _ _ _ T) as Hk.
  assert (HT2 : exists T2, rqs w2 !! top w2 = Some T2 /\ rt_queued T2 = false).
  { rewrite (kp_top _ _ Hk). assert (EF : (fixed <$> rqs w2) !! top w1 = (fixed <$> rqs w1) !! top w1) by (by rewrite (tr_fixed _ _ _ _ _ T)). rewrite !lookup_fmap, HT1 in EF. destruct (rqs w2 !! top w1) as [T2|]; [|done].
    exists T2. split; [done|]. cbn in EF. unfold fixed in EF. congruence. }
  destruct HT2 as (T2 & HT2 & Eq2). destruct (enqueue_top_ok w2 L2 q2 other T2 H2) as (w' & E & Hr & Es & Q' & F1 & F2 & F3 & F4 & F5 & F6); [|done|done|by rewrite (kp_nr _ _ Hk)|by rewrite (kp_top _ _ Hk)|].
  { intros x. destruct (decide (x ∈ l)); [by apply Hl|]. apply (settled_restacked w1 w2 L1 q1 q2 e l x H1 Hp); [by apply restacked_trail|done|by apply Hset]. }
  exists w'. split; [done|]. split; [done|]. split; [|done]. apply (restacked_trans w1 w2 w' q1 q2 q2); [by apply restacked_trail|]. split; try done; [rewrite Q'; by apply tg_put|by rewrite Es|by rewrite Es|].
  intros r Hr'. split; [|done]. rewrite Q', fmap_insert, lookup_insert_ne; [done|]. apply (root_touched w2 L2 q2 e l r H2); [by rewrite (tr_bare _ _ _ _ _ T)|done].
Qed.

Lemma rt_enqueue_ok flags w L q X other e s l : move_entity flags = true -> tree w L q X other -> ses w !! e = Some s -> path (bare <$> ses w) e l -> (forall x, x ∈ X -> x ∈ l) ->
  exists w' L' q', enqueue_rt_entity enabled w e flags = Ok w' /\ at_rest w' L' q' other /\ restacked w w' q q' l /\
    (my_q s = None -> (exists s', ses w' !! e = Some s' /\ on_rq s' = true) /\ (on_rq s = false -> q' (rt_rq_of_se s) = joined flags e (q (rt_rq_of_se s)) (prio s))).
Proof.
  intros Hmove HT Hs Hp HX. destruct (stack_ok flags w L q X other e l Hmove HT Hp HX) as (w1 & L1 & q1 & E1 & H1 & R1 & O1 & S1 & N1 & (T1 & HT1 & Eq1) & D1). unfold enqueue_rt_entity. rewrite E1. cbn [res_bind].
  pose proof (rs_bare _ _ _ _ _ R1) as EB. destruct (bare_lookup w w1 e s EB Hs) as (s1 & Hs1 & Eb). destruct (bare_parts _ _ Eb) as (_ & Er & Em & Epr & _). assert (Hp1 := Hp). rewrite <- EB in Hp1.
  pose proof (rt_path_length H1 e l Hp1) as Hlen. destruct (enqueue_up_ok (enabled := enabled) flags e l Hmove w1 L1 q1 s1 (depth_fuel w1) H1 Hs1 Hp1 O1 ltac:(unfold depth_fuel; lia)) as (w2 & L2 & q2 & -> & H2 & T2 & S2 & J2). cbn [res_bind].
  destruct (rt_finish_ok w1 w2 L1 L2 q1 q2 e l other H1 Hp1 S1 N1) as (w' & E' & A' & R' & Es'); [rewrite (rs_top _ _ _ _ _ R1); apply (tn_other _ _ _ _ _ HT)|rewrite (rs_top _ _ _ _ _ R1); by exists T1|done|done|done|].
  exists w', L2, q2. split; [done|]. split; [done|]. split; [by apply (restacked_trans w w1 w' q q1 q2)|]. intros Emy. rewrite Em in J2. destruct (J2 Emy) as [(s2 & Hs2 & Ho2) J3]. split; [exists s2; by rewrite Es'|].
  intros Ho. rewrite Er, Epr in J3. rewrite J3. f_equal. apply (proj2 D1). intros x a Hx Ha Hoa Era. destruct (path_head _ _ _ Hp) as [t ->]. apply elem_of_cons in Hx as [->|Hx]; [congruence|].
  pose proof (path_rank (tn_w _ _ _ _ _ HT) e s t Hp Hs x a Hx Ha). rewrite Era in *. lia.
Qed.

(** The groups above come back; a task stays off. *)
Lemma requeue_ok flags w L q e s l : move_entity flags = true -> winv w L q -> ses w !! e = Some s -> path (bare <$> ses w) e l -> (forall x, x ∈ l -> off w x) ->
  exists w' L' q', requeue_groups enabled (depth_fuel w) w e flags = Ok w' /\ winv w' L' q' /\ trail w w' q q' l /\ (forall x, x ∈ l -> settled w' x) /\ (my_q s = None -> ses w' !! e = Some s /\ q' (rt_rq_of_se s) = q (rt_rq_of_se s)).
Proof.
  intros Hmove H Hs Hp Hoff. pose proof (rt_path_length H e l Hp) as Hlen. destruct (my_q s) as [g|] eqn:Em.
  - rewrite (requeue_groups_eq flags l Hmove e w L q s g (depth_fuel w) H Hs Em Hp Hoff). destruct (enqueue_up_ok (enabled := enabled) flags e l Hmove w L q s (depth_fuel w) H Hs Hp Hoff ltac:(unfold depth_fuel; lia)) as (w' & L' & q' & E & H' & T' & S' & _).
    by exists w', L', q'.
  - destruct (path_head _ _ _ Hp) as [t ->]. unfold depth_fuel. cbn [requeue_groups]. unfold get_se. rewrite Hs. cbn [res_bind]. rewrite Em. cbn [res_bind]. rewrite Hs. cbn [res_bind].
    assert (Hse : forall v, ses v !! e = Some s -> settled v e) by (intros v Hv s' g G Hs' Hg _; congruence). destruct (path_cons e s t Hp Hs) as [[-> Epar]|(p & Epar & Hl)]; rewrite Epar.
    + exists w, L, q. split; [done|]. split; [done|]. split; [apply trail_refl|]. split; [|done]. intros x Hx. apply list_elem_of_singleton in Hx as ->. by apply Hse.
    + destruct (up H e s p Hs Epar) as (sp & Hsp & Hg & _). pose proof (path_nodup H e _ Hp) as Hn. apply NoDup_cons in Hn as [Hn _].
      assert (Hoff' : forall x, x ∈ t -> off w x) by (intros x Hx; apply Hoff, elem_of_cons; auto). rewrite (requeue_groups_eq flags t Hmove p w L q sp (rt_rq_of_se s) _ H Hsp Hg Hl Hoff').
      destruct (enqueue_up_ok (enabled := enabled) flags p t Hmove w L q sp (size (ses w)) H Hsp Hl Hoff' ltac:(cbn in Hlen; lia)) as (w' & L' & q' & E & H' & T' & S' & _).
      assert (Hs' : ses w' !! e = Some s) by (by rewrite (tr_other _ _ _ _ _ T' e Hn)). exists w', L', q'. split; [done|]. split; [done|]. split; [apply (trail_trans w w w' q q q' [] t); [apply trail_refl|done|]; intros x [Hx|Hx]; [by apply elem_of_nil in Hx|apply elem_of_cons; auto]|].
      split; [intros x Hx; apply elem_of_cons in Hx as [->|Hx]; [by apply Hse|by apply S']|]. intros _. split; [done|]. apply (tr_queue _ _ _ _ _ T'). intros x a Hx Ha Ea. pose proof (path_rank H e s t Hp Hs x a Hx Ha). rewrite Ea in *. lia.
Qed.

Lemma rt_dequeue_ok flags w L q X other e s l : move_entity flags = true -> tree w L q X other -> ses w !! e = Some s -> path (bare <$> ses w) e l -> (forall x, x ∈ X -> x ∈ l) ->
  exists w' L' q', dequeue_rt_entity enabled w e flags = Ok w' /\ at_rest w' L' q' other /\ restacked w w' q q' l /\ (my_q s = None -> off w' e /\ forall i, q' (rt_rq_of_se s) i `sublist_of` q (rt_rq_of_se s) i).
Proof.
  intros Hmove HT Hs Hp HX. destruct (stack_ok flags w L q X other e l Hmove HT Hp HX) as (w1 & L1 & q1 & E1 & H1 & R1 & O1 & S1 & N1 & (T1 & HT1 & Eq1) & D1). unfold dequeue_rt_entity. rewrite E1. cbn [res_bind].
  pose proof (rs_bare _ _ _ _ _ R1) as EB. destruct (bare_lookup w w1 e s EB Hs) as (s1 & Hs1 & Eb). destruct (bare_parts _ _ Eb) as (_ & Er & Em & _). assert (Hp1 := Hp). rewrite <- EB in Hp1.
  destruct (requeue_ok flags w1 L1 q1 e s1 l Hmove H1 Hs1 Hp1 O1) as (w2 & L2 & q2 & -> & H2 & T2 & S2 & J2). cbn [res_bind].
  destruct (rt_finish_ok w1 w2 L1 L2 q1 q2 e l other H1 Hp1 S1 N1) as (w' & E' & A' & R' & Es'); [rewrite (rs_top _ _ _ _ _ R1); apply (tn_other _ _ _ _ _ HT)|rewrite (rs_top _ _ _ _ _ R1); by exists T1|done|done|done|].
  exists w', L2, q2. split; [done|]. split; [done|]. split; [by apply (restacked_trans w w1 w' q q1 q2)|]. intros Emy. rewrite Em in J2. destruct (J2 Emy) as [Hs2 Eq]. split.
  - intros a Ha. rewrite Es', Hs2 in Ha. injection Ha as <-. apply (O1 e); [destruct (path_head _ _ _ Hp) as [t ->]; apply elem_of_cons; auto|done].
  - intros i. rewrite Er in Eq. rewrite Eq. apply D1.
Qed.

(** The entities above are groups. *)
Lemma path_group w L q e t x a : winv w L q -> path (bare <$> ses w) e (e :: t) -> x ∈ t -> ses w !! x = Some a -> my_q a <> None.
Proof.
  intros H. revert e. induction t as [|y t IH]; intros e Hp Hx Ha; [by apply elem_of_nil in Hx|]. destruct (path_in_ses e _ e Hp) as [s Hs]; [apply elem_of_cons; auto|].
  destruct (path_cons e s _ Hp Hs) as [[? _]|(p & Ep & Hl)]; [done|]. destruct (path_head _ _ _ Hl) as [u Eu]. injection Eu as -> <-. apply elem_of_cons in Hx as [->|Hx]; [|by apply (IH p)].
  destruct (up H e s p Hs Ep) as (sp & Hsp & Em & _). congruence.
Qed.

Lemma tasks_kept w w' L q q' e l x a : winv w L q -> path (bare <$> ses w) e l -> restacked w w' q q' l -> x <> e -> ses w !! x = Some a -> my_q a = None -> ses w' !! x = Some a.
Proof.
  intros H Hp R Hx Ha Hm. destruct (path_head _ _ _ Hp) as [t ->]. rewrite (rs_other _ _ _ _ _ R); [done|]. rewrite elem_of_cons. intros [?|Ht]; [done|]. by apply (path_group w L q e t x a H Hp Ht Ha).
Qed.

(** ** Picking *)

(** The lists keep a queue's first entity behind its head. *)
Definition first (w : rq) (q : Z -> Z -> list Z) (x : Z) : Prop := exists s, ses w !! x = Some s /\ on_rq s = true /\ head (q (rt_rq_of_se s) (sprio (core <$> rqs w) s)) = Some x.

Section Pick.
Context {w : rq} {L : gmap Z (list Z)} {q : Z -> Z -> list Z} {other : Z} (HT : tree w L q [] other).
Let H := tn_w _ _ _ _ _ HT.

Lemma pick_next_ok r R : rqs w !! r = Some R -> 0 < rt_nr_running R -> exists e s, pick_next_rt_entity w r = Ok e /\ ses w !! e = Some s /\ rt_rq_of_se s = r /\ sprio (core <$> rqs w) s = curr_prio R /\ first w q e.
Proof.
  intros HR Hn. assert (HK := core_of w r R HR). pose proof (wi_base _ _ _ _ _ _ H) as HB. destruct (wi_mins _ _ _ _ _ _ H r (core R) HK) as (M1 & M2 & M3). cbn in M1, M2, M3.
  destruct (nr_pos_queue HB r (core R) HK Hn) as (j & Hj & Hq). assert (Hc : curr_prio R < MAX_RT_PRIO).
  { destruct (Z.lt_ge_cases (curr_prio R) MAX_RT_PRIO); [done|]. exfalso. apply Hq, M3. lia. }
  specialize (M2 Hc). destruct (b_queues _ _ _ _ _ _ _ HB r (core R) HK) as [HQ Hbits]. unfold pick_next_rt_entity, get_rq. rewrite HR. cbn [res_bind].
  destruct (first_bit_ok _ _ Hbits) as (f & Ef & F1 & F2 & F3). change (active (core R)) with (active R) in Ef. rewrite Ef. cbn [res_bind].
  assert (f = curr_prio R) as ->.
  { destruct (Z.lt_trichotomy f (curr_prio R)) as [Hlt|[?|Hgt]]; [|done|]; [exfalso; apply F2; [lia|]; apply M3; lia|exfalso; apply M2, F3; lia]. }
  rewrite (proj2 (Z.leb_gt _ _)) by done. rewrite (holds_next (wi_holds _ _ _ _ _ _ H) (HQ (curr_prio R) ltac:(lia))). destruct (q r (curr_prio R)) as [|e t] eqn:Eq; [done|]. cbn [head default].
  assert (He : e ∈ q r (curr_prio R)) by (rewrite Eq; apply elem_of_cons; auto). apply (b_mem _ _ _ _ _ _ _ HB r (core R) (curr_prio R) e HK ltac:(lia)) in He as (s & Hs & Ho & Er & Ep). destruct (face_inv w e s Hs) as (s0 & Hs0 & ->).
  exists e, s0. split; [done|]. split; [done|]. split; [done|]. split; [done|]. exists s0. split; [done|]. split; [done|]. change (rt_rq_of_se (face s0)) with (rt_rq_of_se s0) in Er. change (sprio (core <$> rqs w) (face s0)) with (sprio (core <$> rqs w) s0) in Ep. by rewrite Er, Ep, Eq.
Qed.

(** The way to a queue: the groups that own it and the queues above it. *)
Definition leads (r : Z) (l : list Z) : Prop := (r = top w /\ l = []) \/ exists o so, ses w !! o = Some so /\ my_q so = Some r /\ path (bare <$> ses w) o l.

Lemma leads_path r l e s : leads r l -> ses w !! e = Some s -> rt_rq_of_se s = r -> path (bare <$> ses w) e (e :: l).
Proof.
  intros Hl Hs Er. destruct Hl as [[Et ->]|(o & so & Ho & Hm & Hp)].
  - eapply path_root; [by apply bare_of|]. cbn. destruct (parent s) as [p|] eqn:Ep; [|done]. exfalso. destruct (up H e s p Hs Ep) as (sp & Hsp & Em & _).
    destruct (sh_my _ _ _ _ _ (b_shape _ _ _ _ _ _ _ (wi_base _ _ _ _ _ _ H)) p (face sp) _ (face_lookup w p sp Hsp) Em) as (_ & ? & _). congruence.
  - eapply path_up; [by apply bare_of| |done]. cbn. apply (owner_parent H e s o so Hs Ho). congruence.
Qed.

Lemma pick_loop_ok fuel : forall r R l v c, rqs w !! r = Some R -> 0 < rt_nr_running R -> curr_prio R = c -> leads r l -> (forall x, x ∈ l -> first w q x) -> NoDup v -> (forall y, y ∈ v -> is_Some (rqs w !! y) /\ (rank y < rank r)%nat) ->
  (size (rqs w) < length v + fuel)%nat -> exists e s l', pick_loop fuel w r = Ok e /\ ses w !! e = Some s /\ my_q s = None /\ prio s = c /\ path (bare <$> ses w) e l' /\ (forall x, x ∈ l' -> first w q x).
Proof.
  induction fuel as [|fuel IH]; intros r R l v c HR Hn Hc Hl Hf Hv Hvr Hlen.
  - exfalso. assert (length v <= size (rqs w))%nat; [|lia]. rewrite <- (size_list_to_set (C := gset Z) v Hv), <- (size_dom (D := gset Z) (rqs w)). apply subseteq_size. intros y Hy. apply elem_of_list_to_set in Hy. apply elem_of_dom. by apply Hvr.
  - cbn [pick_loop]. destruct (pick_next_ok r R HR Hn) as (e & s & -> & Hs & Er & Ep & F). cbn [res_bind]. unfold get_se. rewrite Hs. cbn [res_bind]. pose proof (leads_path r l e s Hl Hs Er) as Hp.
    assert (Hf' : forall x, x ∈ e :: l -> first w q x) by (intros x Hx; apply elem_of_cons in Hx as [->|Hx]; auto). destruct (my_q s) as [g|] eqn:Em.
    + destruct (owned_exists possible rank room H Hs g Em) as [G HG]. assert (Ho : on_rq s = true) by (destruct F as (s' & Hs' & Ho & _); congruence).
      pose proof (tn_settled _ _ _ _ _ HT e (not_elem_of_nil e) s g G Hs Em HG) as Hset. rewrite Ho in Hset. symmetry in Hset. apply andb_true_iff in Hset as [_ Hz]. apply negb_true_iff, Z.eqb_neq in Hz.
      pose proof (nr_nonneg (wi_base _ _ _ _ _ _ H) g (core G) (core_of w g G HG)) as H0. cbn in H0. unfold sprio, of_queue in Ep. rewrite Em, (core_of w g G HG) in Ep. cbn in Ep.
      destruct (sh_my _ _ _ _ _ (b_shape _ _ _ _ _ _ _ (wi_base _ _ _ _ _ _ H)) e (face s) g (face_lookup w e s Hs) Em) as (_ & _ & Hrank). change (rt_rq_of_se (face s)) with (rt_rq_of_se s) in Hrank. rewrite Er in Hrank.
      apply (IH g G (e :: l) (r :: v) c HG); [lia|congruence|right; by exists e, s|done| | |cbn; lia].
      * apply NoDup_cons. split; [|done]. intros Hin. destruct (Hvr r Hin). lia.
      * intros y Hy. apply elem_of_cons in Hy as [->|Hy]; [split; [by eexists|done]|]. destruct (Hvr y Hy). split; [done|lia].
    + exists e, s, (e :: l). split; [done|]. split; [done|]. split; [done|]. unfold sprio in Ep. rewrite Em in Ep. split; [congruence|done].
Qed.

(** No task that is queued with all its groups is more urgent than the root queue says. *)
Lemma urgent x l T : path (bare <$> ses w) x l -> rqs w !! top w = Some T -> (forall y, y ∈ l -> exists a, ses w !! y = Some a /\ on_rq a = true) -> exists a, ses w !! x = Some a /\ curr_prio T <= sprio (core <$> rqs w) a.
Proof.
  intros Hp HTop. pose proof (wi_base _ _ _ _ _ _ H) as HB.
  assert (Hone : forall y a R, ses w !! y = Some a -> on_rq a = true -> (core <$> rqs w) !! rt_rq_of_se a = Some R -> curr_prio R <= sprio (core <$> rqs w) a).
  { intros y a R Ha Ho HR. destruct (queued_in HB _ R y (face a) HR (face_lookup w y a Ha) Ho eq_refl) as [Hpr Hin]. change (sprio (core <$> rqs w) (face a)) with (sprio (core <$> rqs w) a) in Hpr, Hin.
    destruct (wi_mins _ _ _ _ _ _ H _ R HR) as (_ & _ & M3). destruct (Z.le_gt_cases (curr_prio R) (sprio (core <$> rqs w) a)) as [|Hgt]; [done|]. rewrite (M3 (sprio (core <$> rqs w) a) (conj (proj1 Hpr) Hgt)) in Hin. by apply elem_of_nil in Hin. }
  revert x Hp. induction l as [|y l IH]; intros x Hp Hon; [inversion Hp|]. destruct (path_head _ _ _ Hp) as [t Et]. injection Et as -> <-. destruct (Hon x) as (a & Ha & Ho); [apply elem_of_cons; auto|]. exists a. split; [done|].
  destruct (path_cons x a l Hp Ha) as [[-> Epar]|(p & Epar & Hl)].
  - pose proof (sh_root _ _ _ _ _ (b_shape _ _ _ _ _ _ _ HB) x (face a) (face_lookup w x a Ha) Epar) as Et. apply (Hone x a (core T) Ha Ho). change (rt_rq_of_se (face a)) with (rt_rq_of_se a) in Et. rewrite Et. by apply core_of.
  - destruct (IH p Hl) as (sp & Hsp & Hle); [intros y Hy; apply Hon, elem_of_cons; auto|]. destruct (up H x a p Ha Epar) as (sp' & Hsp' & Em & _). assert (sp' = sp) as -> by congruence.
    destruct (queue_exists possible rank room H Ha) as (R & HR & HK). assert (Esp : sprio (core <$> rqs w) sp = curr_prio (core R)) by (unfold sprio, of_queue; by rewrite Em, HK). rewrite Esp in Hle. etransitivity; [exact Hle|]. exact (Hone x a (core R) Ha Ho HK).
Qed.
End Pick.

(** ** Throttling *)

Lemma winv_groups w L q gs : winv w L q -> budgeted (set_groups w gs) -> winv (set_groups w gs) L q.
Proof. intros [W1 W2 W3 [S1 S2 S3 S4] W5 [M1 M2 M3] W7] HB. by split. Qed.

Lemma winv_resched w L q : winv w L q -> winv (resched_curr w) L q.
Proof. intros [W1 W2 W3 [S1 S2 S3 S4] W5 [M1 M2 M3] W7]. by split. Qed.

Lemma at_rest_resched w L q other : at_rest w L q other -> at_rest (resched_curr w) L q other.
Proof. intros [[A1 A2 A3 A4] A5]. split; [|done]. split; [by apply winv_resched|done|done|done]. Qed.

(** What queueing and throttling leave alone: the shape of the tree and the budgets. *)
Record steady (w w' : rq) : Prop := {
  sd_top : top w' = top w; sd_groups : groups w' = groups w; sd_cpu : cpu w' = cpu w; sd_se_of : rt_se_of w' = rt_se_of w; sd_tg : tg <$> rqs w' = tg <$> rqs w; sd_bare : bare <$> ses w' = bare <$> ses w }.

Lemma steady_restacked w w' q q' l : restacked w w' q q' l -> steady w w'.
Proof. intros []. by split. Qed.

(** A queue's own entity on this CPU, or none for the root queue. *)
Definition stands_for (w : rq) (r : Z) (R : rt_rq) : Prop := match rt_se_of w !! tg R with Some e => exists s, ses w !! e = Some s /\ my_q s = Some r | None => r = top w end.

Section Throttle.
Context {w : rq} {L : gmap Z (list Z)} {q : Z -> Z -> list Z} {other r : Z} {R : rt_rq} {g' : rt_group} {a' : rt_acct}.
Context (HA : at_rest w L q other) (HR : rqs w !! r = Some R) (Hg : rt_rqs g' !! cpu w = Some a') (Huniq : forall r' R', rqs w !! r' = Some R' -> tg R' = tg R -> r' = r) (Hst : stands_for w r R).
Let w1 := set_groups w (<[tg R := g']> (groups w)).

Lemma reflag_live r' R' : r' <> r -> rqs w !! r' = Some R' -> live w1 R' = live w R'.
Proof. intros Hne HR'. unfold live, thr. cbn. rewrite lookup_insert_ne; [done|]. intros E. apply Hne, (Huniq r' R' HR'). done. Qed.

Lemma reflag_w : winv w1 L q.
Proof.
  destruct HA as [[H _ _ _] _]. apply winv_groups; [done|]. intros r' R' HR'. cbn in HR' |- *. destruct (decide (tg R' = tg R)) as [->|Hne]; [exists g', a'; by rewrite lookup_insert_eq|].
  destruct (wi_budget _ _ _ _ _ _ H r' R' HR') as (g & a & Eg & Ea). exists g, a. by rewrite lookup_insert_ne.
Qed.

(** Only the group whose flag changed may be wrong. *)
Lemma reflag X : (match rt_se_of w !! tg R with Some e => X = [e] | None => X = [] end) -> tree w1 L q X other.
Proof.
  intros HX. destruct HA as [[H A2 A3 A4] A5]. split; [apply reflag_w| |done|done]. intros x Hx s g G Hs Hm HG. cbn in Hs, HG. assert (g <> r).
  { intros ->. unfold stands_for in Hst. destruct (rt_se_of w !! tg R) as [e|].
    - destruct Hst as (se & Hse & Hme). subst X. apply Hx, list_elem_of_singleton. exact (sh_owner _ _ _ _ _ (b_shape _ _ _ _ _ _ _ (wi_base _ _ _ _ _ _ H)) x (face s) e (face se) r (face_lookup w x s Hs) (face_lookup w e se Hse) Hm Hme).
    - destruct (sh_my _ _ _ _ _ (b_shape _ _ _ _ _ _ _ (wi_base _ _ _ _ _ _ H)) x (face s) r (face_lookup w x s Hs) Hm) as (_ & ? & _). congruence. }
  rewrite (reflag_live g G) by done. by apply (A2 x (not_elem_of_nil x) s g).
Qed.

Lemma reflag_top T : rt_se_of w !! tg R <> None -> rqs w1 !! top w1 = Some T -> rt_queued T = live w1 T.
Proof.
  intros Hn HTop. destruct HA as [[H _ _ _] A5]. unfold stands_for in Hst. destruct (rt_se_of w !! tg R) as [e|]; [|done]. destruct Hst as (s & Hs & Hm).
  destruct (sh_my _ _ _ _ _ (b_shape _ _ _ _ _ _ _ (wi_base _ _ _ _ _ _ H)) e (face s) r (face_lookup w e s Hs) Hm) as (_ & Hne & _). rewrite (reflag_live (top w) T (not_eq_sym Hne) HTop). by apply A5.
Qed.

(** When nothing has to be moved, the tree is at rest again. *)
Lemma rest_again X : tree w1 L q X other -> (forall x, x ∈ X -> settled w1 x) -> (forall T, rqs w1 !! top w1 = Some T -> rt_queued T = live w1 T) -> at_rest w1 L q other.
Proof. intros [A1 A2 A3 A4] HX Ht. split; [|done]. split; [done| |done|done]. intros x _. destruct (decide (x ∈ X)); auto. Qed.

Lemma group_throttled e s : rt_se_of w !! tg R = Some e -> ses w !! e = Some s -> my_q s = Some r -> thr w1 R = true ->
  exists w' L' q' l, sched_rt_rq_dequeue enabled w1 r = Ok w' /\ at_rest w' L' q' other /\ restacked w1 w' q q' l /\ path (bare <$> ses w) e l.
Proof.
  intros He Hs Hm Ht. pose proof (reflag [e] ltac:(by rewrite He)) as HT. destruct (path_exists (tn_w _ _ _ _ _ HT) e s Hs) as [l Hp]. unfold sched_rt_rq_dequeue, get_rq. cbn [rqs set_groups w1 rt_se_of]. rewrite HR. cbn [res_bind]. rewrite He. unfold get_se. change (ses w1) with (ses w). rewrite Hs. cbn [res_bind]. destruct (on_rq s) eqn:Ho.
  - destruct (rt_dequeue_ok 0 w1 L q [e] other e s l eq_refl HT Hs Hp) as (w' & L' & q' & E & A & Rs & _); [intros x Hx; apply list_elem_of_singleton in Hx as ->; destruct (path_head _ _ _ Hp) as [t ->]; apply elem_of_cons; auto|]. by exists w', L', q', l.
  - exists w1, L, q, l. split; [done|]. split; [|split; [by apply restacked_trail, trail_refl|done]]. apply (rest_again [e] HT); [|intros T HTop; apply reflag_top; [congruence|done]].
    intros x Hx. apply list_elem_of_singleton in Hx as ->. intros s' g G Hs' Hm' HG. cbn in Hs', HG. assert (s' = s) as -> by congruence. assert (g = r) as -> by congruence. assert (G = R) as -> by congruence. rewrite Ho. unfold live. by rewrite Ht.
Qed.

Lemma group_unthrottled e s cur : rt_se_of w !! tg R = Some e -> ses w !! e = Some s -> my_q s = Some r -> thr w1 R = false ->
  exists w' L' q' l, sched_rt_rq_enqueue enabled w1 r cur = Ok w' /\ at_rest w' L' q' other /\ restacked w1 w' q q' l /\ path (bare <$> ses w) e l.
Proof.
  intros He Hs Hm Ht. pose proof (reflag [e] ltac:(by rewrite He)) as HT. destruct (path_exists (tn_w _ _ _ _ _ HT) e s Hs) as [l Hp]. pose proof (tn_w _ _ _ _ _ HT) as H1.
  assert (Hstay : on_rq s = live w1 R -> at_rest w1 L q other).
  { intros Ho. apply (rest_again [e] HT); [|intros T HTop; apply reflag_top; [congruence|done]]. intros x Hx. apply list_elem_of_singleton in Hx as ->. intros s' g G Hs' Hm' HG. cbn in Hs', HG.
    assert (s' = s) as -> by congruence. assert (g = r) as -> by congruence. assert (G = R) as -> by congruence. done. }
  unfold sched_rt_rq_enqueue, get_rq at 1. cbn [rqs set_groups w1 rt_se_of]. rewrite HR. cbn [res_bind]. fold w1. destruct (Z.eqb_spec (rt_nr_running R) 0) as [E0|E0].
  - exists w1, L, q, l. split; [done|]. split; [|split; [by apply restacked_trail, trail_refl|done]]. apply Hstay. unfold live. rewrite Ht, E0. cbn. destruct (on_rq s) eqn:Ho; [|done]. exfalso.
    destruct (b_flags _ _ _ _ _ _ _ (wi_base _ _ _ _ _ _ H1) e (face s) (face_lookup w1 e s Hs)) as (_ & F & _). destruct (F Ho) as [_ Hn]. unfold snr, of_queue in Hn. cbn [my_q face set_back] in Hn. rewrite Hm, (core_of w1 r R HR) in Hn. cbn in Hn. lia.
  - rewrite He. unfold get_se. change (ses w1) with (ses w). rewrite Hs. cbn [res_bind].
    assert (Hrun : exists w2 L2 q2, (if on_rq s then Ok w1 else enqueue_rt_entity enabled w1 e 0) = Ok w2 /\ at_rest w2 L2 q2 other /\ restacked w1 w2 q q2 l).
    { destruct (on_rq s) eqn:Ho.
      - exists w1, L, q. split; [done|]. split; [|by apply restacked_trail, trail_refl]. apply Hstay. unfold live. by rewrite Ht, (proj2 (Z.eqb_neq _ _)).
      - destruct (rt_enqueue_ok 0 w1 L q [e] other e s l eq_refl HT Hs Hp) as (w' & L' & q' & E & A & Rs & _); [intros x Hx; apply list_elem_of_singleton in Hx as ->; destruct (path_head _ _ _ Hp) as [t ->]; apply elem_of_cons; auto|]. by exists w', L', q'. }
    destruct Hrun as (w2 & L2 & q2 & -> & A2 & Rs). cbn [res_bind]. destruct (bare_lookup w1 w2 e s (rs_bare _ _ _ _ _ Rs) Hs) as (s2 & Hs2 & Eb). destruct (bare_parts _ _ Eb) as (_ & _ & Em2 & _).
    destruct (owned_exists possible rank room (tn_w _ _ _ _ _ (proj1 A2)) Hs2 r) as [R2 HR2]; [congruence|]. unfold get_rq. rewrite HR2. cbn [res_bind]. eexists _, L2, q2, l. split; [done|].
    destruct (_ <? _); (split; [first [by apply at_rest_resched|done]|]); (split; [by destruct Rs|done]).
Qed.
Lemma root_throttled : rt_se_of w !! tg R = None -> thr w1 R = true -> exists w', sched_rt_rq_dequeue enabled w1 r = Ok w' /\ at_rest w' L q other /\ ses w' = ses w /\ steady w1 w'.
Proof.
  intros He Ht. pose proof (reflag [] ltac:(by rewrite He)) as HT. assert (Er : r = top w) by (unfold stands_for in Hst; by rewrite He in Hst).
  unfold sched_rt_rq_dequeue, get_rq. change (rqs w1) with (rqs w). rewrite HR. cbn [res_bind]. change (rt_se_of w1) with (rt_se_of w). rewrite He. rewrite Er. change (top w) with (top w1).
  destruct (dequeue_top_ok w1 L q [] other HT) as (w' & T & E & H' & HT' & Q' & S' & N' & F1 & F2 & F3 & F4 & F5 & F6). rewrite E. exists w'. split; [done|]. split; [|split; [done|]; split; try done; [rewrite Q'; by apply tg_put|by rewrite S']].
  change (rqs w1) with (rqs w) in HT'. change (top w1) with (top w) in HT', Q'. rewrite <- Er, HR in HT'. injection HT' as <-. rewrite <- Er in Q'. split; [split|].
  - done.
  - intros x _ s g G Hs Hm HG. rewrite S' in Hs. rewrite Q' in HG. unfold live, thr. rewrite F2, F3. apply lookup_insert_Some in HG as [[<- <-]|[_ HG]]; [exact (tn_settled _ _ _ _ _ HT x (not_elem_of_nil x) s r R Hs Hm HR)|exact (tn_settled _ _ _ _ _ HT x (not_elem_of_nil x) s g G Hs Hm HG)].
  - exists (set_queued R false). rewrite F1, Q'. change (top w1) with (top w). rewrite <- Er, lookup_insert_eq. split; [done|]. split; [done|]. cbn. lia.
  - rewrite F1. apply (tn_other _ _ _ _ _ HT).
  - rewrite F1, Q'. change (top w1) with (top w). rewrite <- Er, lookup_insert_eq. intros T' HT'. injection HT' as <-. unfold live. cbn. unfold thr. rewrite F2, F3. change (negb (thr w1 R) && negb (rt_nr_running R =? 0)) with (live w1 R).
    unfold thr in Ht. cbn [tg set_queued rt_nr_boosted]. by rewrite Ht.
Qed.

Lemma root_unthrottled cur : rt_se_of w !! tg R = None -> thr w1 R = false -> exists w', sched_rt_rq_enqueue enabled w1 r cur = Ok w' /\ at_rest w' L q other /\ ses w' = ses w /\ steady w1 w'.
Proof.
  intros He Ht. pose proof (reflag [] ltac:(by rewrite He)) as HT. assert (Er : r = top w) by (unfold stands_for in Hst; by rewrite He in Hst). destruct (tn_root _ _ _ _ _ HT) as (T & HTop & Hpos & Hnr). change (rqs w1 !! top w1) with (rqs w !! top w) in HTop. rewrite <- Er, HR in HTop. injection HTop as <-.
  assert (Hstay : rt_queued R = live w1 R -> at_rest w1 L q other).
  { intros Ho. apply (rest_again [] HT); [intros x Hx; by apply elem_of_nil in Hx|]. intros T HTop. change (rqs w1 !! top w1) with (rqs w !! top w) in HTop. rewrite <- Er, HR in HTop. by injection HTop as <-. }
  unfold sched_rt_rq_enqueue, get_rq at 1. change (rqs w1) with (rqs w). rewrite HR. cbn [res_bind]. destruct (Z.eqb_spec (rt_nr_running R) 0) as [E0|E0].
  - exists w1. split; [done|]. split; [|done]. apply Hstay. unfold live. rewrite Ht, E0. cbn. destruct (rt_queued R); [|done]. by specialize (Hpos eq_refl).
  - change (rt_se_of w1) with (rt_se_of w). rewrite He.
    assert (Hrun : exists w2, enqueue_top_rt_rq w1 r = Ok w2 /\ at_rest w2 L q other /\ ses w2 = ses w /\ is_Some (rqs w2 !! r) /\ steady w1 w2).
    { rewrite Er. change (top w) with (top w1). destruct (rt_queued R) eqn:Eq.
      - exists w1. unfold enqueue_top_rt_rq, get_rq. rewrite Z.eqb_refl. cbn [negb]. change (rqs w1 !! top w1) with (rqs w !! top w). rewrite <- Er, HR. cbn [res_bind]. rewrite Eq. split; [done|]. split; [|split; [done|]; split; [by exists R|done]]. apply Hstay. unfold live. by rewrite Ht, (proj2 (Z.eqb_neq _ _)).
      - destruct (enqueue_top_ok w1 L q other R (tn_w _ _ _ _ _ HT)) as (w' & E & A & S' & Q' & F1 & F2 & F3 & F4 & F5 & F6); [intros x; apply (tn_settled _ _ _ _ _ HT), not_elem_of_nil|change (rqs w1 !! top w1) with (rqs w !! top w); congruence|done|lia|apply (tn_other _ _ _ _ _ HT)|].
        exists w'. split; [done|]. split; [done|]. split; [done|]. split; [rewrite Q', lookup_insert_eq; by eexists|]. split; try done; [rewrite Q'; apply tg_put; change (rqs w1 !! top w1) with (rqs w !! top w); congruence|by rewrite S']. }
    destruct Hrun as (w2 & -> & A2 & S2 & [R2 HR2] & St). cbn [res_bind]. unfold get_rq. rewrite HR2. cbn [res_bind]. eexists. split; [done|]. destruct (_ <? _); (split; [first [by apply at_rest_resched|done]|]); (split; [done|by destruct St]).
Qed.
End Throttle.
End Class.
