(* ===== verification/RtRun.v ===== *)
(** * The real-time class at work

    Rotation of a task among its equals, what throttling does to the tree, and the theorems on queueing and picking,
    with a concrete CPU that has one group. *)

From stdpp Require Import gmap list.
From S2P Require Import Prelude Sums Bitops Bitmap ListHead Cpumask Cpupri RtArray RtBandwidth RtQueue RtInvariant RtSteps RtEntity RtTree RtClass.
Local Open Scope Z_scope.
Local Open Scope res_scope.

(** ** Rotation *)

(** A queue changes its order. *)
Lemma base_perm S K L q top rank room r R i l L' : base S K L q top rank room -> K !! r = Some R -> 0 <= i < MAX_RT_PRIO -> l ≡ₚ q r i -> L' !! queue_at r i = Some l -> (forall k, k <> queue_at r i -> L' !! k = L !! k) ->
  base S K L' (fun r0 => if r0 =? r then upd (q r) i l else q r0) top rank room.
Proof.
  intros [B1 B2 B3 B4 B5 B6 B7] HR Hi Hl HL1 HL2. assert (Hmem : forall r0 j x, x ∈ (if r0 =? r then upd (q r) i l else q r0) j <-> x ∈ q r0 j).
  { intros r0 j x. destruct (Z.eqb_spec r0 r) as [->|]; [|done]. unfold upd. destruct (Z.eqb_spec j i) as [->|]; [|done]. by rewrite Hl. }
  split; try done.
  - intros r0 R0 H0. destruct (B2 r0 R0 H0) as [Q1 Q2]. split.
    + intros j Hj. destruct (Z.eqb_spec r0 r) as [->|Hne].
      * unfold upd. destruct (Z.eqb_spec j i) as [->|Hji]; [done|]. rewrite HL2; [by apply Q1|]. intros E. by apply queue_at_inj in E.
      * rewrite HL2; [by apply Q1|]. intros E. apply Hne. exact (sh_inj _ _ _ _ _ B1 r0 R0 r R j i H0 HR Hj Hi E).
    + destruct (Z.eqb_spec r0 r) as [->|Hne]; [|done]. destruct Q2 as [C1 C2 C3 C4]. split; [done|done| |done]. intros j Hj. rewrite C3 by done. unfold upd. destruct (Z.eqb_spec j i) as [->|]; [|done].
      apply bool_decide_ext. split; intros Hq E; apply Hq; [rewrite E in Hl; by apply Permutation_nil_r|rewrite E in Hl; symmetry in Hl; by apply Permutation_nil_r].
  - intros r0 R0 j x H0 Hj. rewrite Hmem. exact (B3 r0 R0 j x H0 Hj).
  - intros x s Hs. destruct (B4 x s Hs) as (F1 & F2 & F3). split; [done|]. split; [done|]. intros Ho. rewrite HL2; [auto|]. exact (sh_apart _ _ _ _ _ B1 r R x s i HR Hs Hi).
Qed.

Section Run.
Context {enabled : bool} {possible : list Z} {rank : Z -> nat} {room : Z -> Z}.
Local Abbreviation winv := (winv possible rank room).
Local Abbreviation at_rest := (at_rest (possible := possible) (rank := rank) (room := room)).

(** [l1 ++ e :: l2] after [e] moved to an end. *)
Definition rotated (to_head : bool) (e : Z) (l1 l2 : list Z) : list Z := if to_head then e :: l1 ++ l2 else (l1 ++ l2) ++ [e].

Lemma rotate_step w L q e s to_head : winv w L q -> ses w !! e = Some s -> let r := rt_rq_of_se s in
  exists m L' q', requeue_rt_entity w r e to_head = Ok (set_lists w m) /\ winv (set_lists w m) L' q' /\ (forall r0, r0 <> r -> q' r0 = q r0) /\
    (on_rq s = true -> exists l1 l2, let i := sprio (core <$> rqs w) s in q r i = l1 ++ e :: l2 /\ q' r = upd (q r) i (rotated to_head e l1 l2)) /\ (on_rq s = false -> q' = q).
Proof.
  intros H Hs r. pose proof (wi_base _ _ _ _ _ _ H) as HB. unfold requeue_rt_entity, get_se. rewrite Hs. cbn [res_bind]. destruct (on_rq s) eqn:Ho.
  2: { exists (lists w), L, q. destruct w. done. }
  destruct (queue_exists possible rank room H Hs) as (R & HR & HK). destruct (queued_in HB r (core R) e (face s) HK (face_lookup w e s Hs) Ho eq_refl) as [Hi He].
  change (sprio (core <$> rqs w) (face s)) with (sprio (core <$> rqs w) s) in Hi, He. set (i := sprio (core <$> rqs w) s) in *. apply list_elem_of_split in He as (l1 & l2 & Eq).
  destruct (entity_reads_ok w s (owned_exists possible rank room H Hs)) as (-> & _). cbn [res_bind]. fold i. destruct (b_queues _ _ _ _ _ _ _ HB r (core R) HK) as [HQ _]. specialize (HQ i Hi). rewrite Eq in HQ. pose proof (wi_holds _ _ _ _ _ _ H) as Hh.
  assert (HM : runs (if to_head then list_move (lists w) e (queue_at r i) else list_move_tail (lists w) e (queue_at r i)) (lists w) (<[queue_at r i := rotated to_head e l1 l2]> L)).
  { rewrite <- (insert_insert_eq L (queue_at r i) (rotated to_head e l1 l2) (l1 ++ l2)). destruct to_head; [apply (runs_move Hh e (queue_at r i) l1 l2 (queue_at r i) (l1 ++ l2))|apply (runs_move_tail Hh e (queue_at r i) l1 l2 (queue_at r i) (l1 ++ l2))]; try done; apply lookup_insert_eq. }
  destruct HM as (m & -> & Hm & _). cbn [res_bind]. exists m, (<[queue_at r i := rotated to_head e l1 l2]> L), (fun r0 => if r0 =? r then upd (q r) i (rotated to_head e l1 l2) else q r0).
  assert (HP : rotated to_head e l1 l2 ≡ₚ q r i) by (rewrite Eq; unfold rotated; destruct to_head; [by rewrite Permutation_middle|etransitivity; [symmetry; apply Permutation_cons_append|apply Permutation_middle]]).
  split; [done|]. split; [|split; [intros r0 Hr; by rewrite (proj2 (Z.eqb_neq _ _)) by done|split; [intros _; exists l1, l2; split; [done|]; by rewrite Z.eqb_refl|done]]].
  destruct H as [W1 W2 W3 [S1 S2 S3 S4] W5 [M1 M2 M3] W7]. split; try done.
  - apply (base_perm _ _ L q _ _ _ r (core R) i (rotated to_head e l1 l2)); [done|done|done|done|apply lookup_insert_eq|intros k Hk; by rewrite lookup_insert_ne].
  - intros r0 R0 H0. destruct (W3 r0 R0 H0) as (N1 & N2 & N3). destruct (Z.eqb_spec r0 r) as [->|]; [|done]. split; [done|]. unfold upd. split.
    + intros Hc. specialize (N2 Hc). destruct (Z.eqb_spec (curr_prio R0) i); [|done]. unfold rotated. destruct to_head; [done|]. by destruct (l1 ++ l2).
    + intros j Hj. specialize (N3 j Hj). destruct (Z.eqb_spec j i) as [->|]; [|done]. rewrite N3 in Eq. by destruct l1.
Qed.

Lemma rotate_up w L q l to_head fuel : forall e m q0, winv (set_lists w m) L q0 -> (forall x, x ∈ l -> forall s, ses w !! x = Some s -> q0 (rt_rq_of_se s) = q (rt_rq_of_se s)) -> path (bare <$> ses w) e l -> (length l <= fuel)%nat ->
  exists m' L' q', requeue_up fuel (set_lists w m) e to_head = Ok (set_lists w m') /\ winv (set_lists w m') L' q' /\ (forall r, (forall x s, x ∈ l -> ses w !! x = Some s -> rt_rq_of_se s <> r) -> q' r = q0 r) /\
    (forall x s, x ∈ l -> ses w !! x = Some s -> let r := rt_rq_of_se s in let i := sprio (core <$> rqs w) s in if on_rq s then exists l1 l2, q r i = l1 ++ x :: l2 /\ q' r = upd (q r) i (rotated to_head x l1 l2) else q' r = q r).
Proof.
  revert L fuel. induction l as [|y l IH]; intros L fuel e m q0 H Hq Hp Hf; [inversion Hp|]. destruct (path_head _ _ _ Hp) as [t Et]. injection Et as -> <-. destruct fuel as [|fuel]; [cbn in Hf; lia|]. cbn [requeue_up].
  destruct (path_in_ses (w := w) e _ e Hp) as [s Hs]; [apply elem_of_cons; auto|]. unfold get_se at 1. change (ses (set_lists w m)) with (ses w). rewrite Hs. cbn [res_bind].
  destruct (rotate_step (set_lists w m) L q0 e s to_head H Hs) as (m1 & L1 & q1 & -> & H1 & Q1 & On & Off). cbn [res_bind]. change (set_lists (set_lists w m) m1) with (set_lists w m1) in *.
  assert (He : q0 (rt_rq_of_se s) = q (rt_rq_of_se s)) by (apply (Hq e); [apply elem_of_cons; auto|done]).
  assert (Hstep : let r := rt_rq_of_se s in let i := sprio (core <$> rqs w) s in if on_rq s then exists l1 l2, q r i = l1 ++ e :: l2 /\ q1 r = upd (q r) i (rotated to_head e l1 l2) else q1 r = q r).
  { cbv zeta. rewrite <- He. destruct (on_rq s); [by apply On|by rewrite Off]. }
  assert (Hp1 : path (bare <$> ses (set_lists w m1)) e (e :: l)) by exact Hp. destruct (path_cons (w := w) e s l Hp Hs) as [[-> Epar]|(p & Epar & Hl)]; rewrite Epar.
  - exists m1, L1, q1. split; [done|]. split; [done|]. split; [intros r Hr; apply Q1; intros ->; exact (Hr e s (list_elem_of_here _ _) Hs eq_refl)|]. intros x a Hx Ha. apply list_elem_of_singleton in Hx as ->. assert (a = s) as -> by congruence. exact Hstep.
  - assert (Hrank : forall x a, x ∈ l -> ses w !! x = Some a -> rt_rq_of_se a <> rt_rq_of_se s) by (intros x a Hx Ha E; pose proof (path_rank H1 e s l Hp Hs x a Hx Ha); rewrite E in *; lia).
    destruct (IH L1 fuel p m1 q1 H1) as (m' & L' & q' & E & H' & K1 & K2); [|done|cbn in Hf; lia|].
    { intros x Hx a Ha. rewrite Q1 by (by apply (Hrank x)). apply (Hq x); [apply elem_of_cons; auto|done]. }
    exists m', L', q'. split; [done|]. split; [done|]. split.
    + intros r Hr. rewrite K1; [apply Q1; intros ->; exact (Hr e s (list_elem_of_here _ _) Hs eq_refl)|]. intros x a Hx. apply Hr, elem_of_cons; auto.
    + intros x a Hx Ha. apply elem_of_cons in Hx as [->|Hx]; [|by apply (K2 x)]. assert (a = s) as -> by congruence. rewrite (K1 (rt_rq_of_se s) Hrank). exact Hstep.
Qed.

(** A group's budget on this CPU changes: taking its queue off when it is throttled and putting it back when it is not leave the tree at rest again. *)
Lemma throttle_ok w L q other r R g' a' cur : let w1 := set_groups w (<[tg R := g']> (groups w)) in
  at_rest w L q other -> rqs w !! r = Some R -> rt_rqs g' !! cpu w = Some a' -> (forall r' R', rqs w !! r' = Some R' -> tg R' = tg R -> r' = r) -> stands_for w r R ->
  exists w' L' q', (if rt_rq_throttled (rt_throttled a') (rt_nr_boosted R) then sched_rt_rq_dequeue enabled w1 r else sched_rt_rq_enqueue enabled w1 r cur) = Ok w' /\ at_rest w' L' q' other /\
    (forall x a, ses w !! x = Some a -> my_q a = None -> ses w' !! x = Some a) /\ steady w1 w'.
Proof.
  intros w1 HA HR Hg Hu Hst. pose proof (tn_w _ _ _ _ _ (proj1 HA)) as H. assert (Et : rt_rq_throttled (rt_throttled a') (rt_nr_boosted R) = thr w1 R) by (unfold thr; cbn; by rewrite lookup_insert_eq, Hg). rewrite Et.
  assert (Hkeep : forall e s l x a, ses w !! e = Some s -> my_q s = Some r -> path (bare <$> ses w) e l -> ses w !! x = Some a -> my_q a = None -> x ∉ l).
  { intros e s l x a Hs Hm Hp Ha Hma Hx. destruct (path_head _ _ _ Hp) as [t ->]. apply elem_of_cons in Hx as [->|Hx]; [congruence|]. by apply (path_group w L q e t x a H Hp Hx Ha). }
  assert (Hcase := Hst). unfold stands_for in Hcase. destruct (rt_se_of w !! tg R) as [e|] eqn:He.
  - destruct Hcase as (s & Hs & Hm). destruct (thr w1 R) eqn:Ht.
    + destruct (group_throttled (enabled := enabled) HA HR Hg Hu Hst e s He Hs Hm Ht) as (w' & L' & q' & l & E & A & Rs & Hp). exists w', L', q'. split; [done|]. split; [done|]. split; [|by apply (steady_restacked w1 w' q q' l)]. intros x a Ha Hma. rewrite (rs_other _ _ _ _ _ Rs); [done|]. by apply (Hkeep e s l x a).
    + destruct (group_unthrottled (enabled := enabled) HA HR Hg Hu Hst e s cur He Hs Hm Ht) as (w' & L' & q' & l & E & A & Rs & Hp). exists w', L', q'. split; [done|]. split; [done|]. split; [|by apply (steady_restacked w1 w' q q' l)]. intros x a Ha Hma. rewrite (rs_other _ _ _ _ _ Rs); [done|]. by apply (Hkeep e s l x a).
  - destruct (thr w1 R) eqn:Ht; [destruct (root_throttled (enabled := enabled) HA HR Hg Hu Hst He Ht) as (w' & E & A & Es & St)|destruct (root_unthrottled (enabled := enabled) HA HR Hg Hu Hst cur He Ht) as (w' & E & A & Es & St)];
      exists w', L, q; (split; [done|]); (split; [done|]); (split; [intros x a Ha _; by rewrite Es|done]).
Qed.

(** Rotation of a whole path. *)
Lemma rotate_task_ok w L q other e s to_head : at_rest w L q other -> ses w !! e = Some s -> exists m L' q' l, requeue_task_rt w e to_head = Ok (set_lists w m) /\ at_rest (set_lists w m) L' q' other /\ path (bare <$> ses w) e l /\
  (forall x a, x ∈ l -> ses w !! x = Some a -> let r := rt_rq_of_se a in let i := sprio (core <$> rqs w) a in if on_rq a then exists l1 l2, q r i = l1 ++ x :: l2 /\ q' r = upd (q r) i (rotated to_head x l1 l2) else q' r = q r) /\
  (forall r, (forall x a, x ∈ l -> ses w !! x = Some a -> rt_rq_of_se a <> r) -> q' r = q r).
Proof.
  intros [[H A2 A3 A4] Htop] Hs. destruct (path_exists H e s Hs) as [l Hp]. assert (H0 : winv (set_lists w (lists w)) L q) by (by destruct w).
  destruct (rotate_up w L q l to_head (depth_fuel w) e (lists w) q H0 ltac:(done) Hp) as (m & L' & q' & E & H' & K1 & K2); [pose proof (rt_path_length H e l Hp); unfold depth_fuel; lia|]. exists m, L', q', l. unfold requeue_task_rt.
  replace (set_lists w (lists w)) with w in E by (by destruct w). split; [done|]. split; [split; [by split|done]|]. split; [done|]. by split.
Qed.

(** ** The theorems *)

(** C8: a task can be put on its queue and taken off it at any place of the tree of groups, with any flags but a save
    or restore without a move (those leave the task linked while it is off the queue).  Nothing faults, none of the
    BUG_ONs of these functions fires (the warnings are not modelled), and queues, bitmaps, counters, the priority of
    every queue, the CPU's priority and overload in the root domain and the CPU's count of runnable tasks are right
    afterwards; groups are queued exactly when their queue has tasks and is not throttled, the task is behind (or
    before) its equals, the order of the others and the state of every other task stay. *)
Theorem rt_enqueue_dequeue_correct w L q other e s flags : at_rest w L q other -> ses w !! e = Some s -> my_q s = None -> move_entity flags = true ->
  (exists w' L' q' s', enqueue_rt_entity enabled w e flags = Ok w' /\ at_rest w' L' q' other /\ ses w' !! e = Some s' /\ on_rq s' = true /\
     (on_rq s = false -> q' (rt_rq_of_se s) = joined flags e (q (rt_rq_of_se s)) (prio s)) /\ forall x a, x <> e -> ses w !! x = Some a -> my_q a = None -> ses w' !! x = Some a) /\
  (exists w' L' q', dequeue_rt_entity enabled w e flags = Ok w' /\ at_rest w' L' q' other /\ off w' e /\
     (forall i, q' (rt_rq_of_se s) i `sublist_of` q (rt_rq_of_se s) i) /\ forall x a, x <> e -> ses w !! x = Some a -> my_q a = None -> ses w' !! x = Some a).
Proof.
  intros [HT Htop] Hs Hm Hmove. pose proof (tn_w _ _ _ _ _ HT) as H. destruct (path_exists H e s Hs) as [l Hp].
  assert (HX : forall x, x ∈ [] -> x ∈ l) by (intros x Hx; by apply elem_of_nil in Hx). split.
  - destruct (rt_enqueue_ok (enabled := enabled) flags w L q [] other e s l Hmove HT Hs Hp HX) as (w' & L' & q' & E & A & R & J). destruct (J Hm) as [(s' & Hs' & Ho') Jq]. exists w', L', q', s'.
    split; [done|]. split; [done|]. split; [done|]. split; [done|]. split; [done|]. intros x a Hx Ha Hma. exact (tasks_kept w w' L q q' e l x a H Hp R Hx Ha Hma).
  - destruct (rt_dequeue_ok (enabled := enabled) flags w L q [] other e s l Hmove HT Hs Hp HX) as (w' & L' & q' & E & A & R & J). destruct (J Hm) as [Ho Jq]. exists w', L', q'.
    split; [done|]. split; [done|]. split; [done|]. split; [done|]. intros x a Hx Ha Hma. exact (tasks_kept w w' L q q' e l x a H Hp R Hx Ha Hma).
Qed.

(** C9: picking takes a task exactly when the root queue is on the CPU, that is, not throttled and not empty.  It
    returns after at most one step per queue without hitting its BUG_ON, with a task that is first in its queue, as are
    all groups above it; the task's priority is that of the root queue, and no task that is queued with all its groups
    is more urgent.  When nothing is picked the root queue is off the CPU, throttled or empty. *)
Theorem pick_task_rt_correct w L q other : at_rest w L q other -> exists T o, rqs w !! top w = Some T /\ pick_task_rt w = Ok o /\
  match o with
  | Some e => rt_queued T = true /\ thr w T = false /\ rt_nr_running T <> 0 /\
      exists s l, ses w !! e = Some s /\ my_q s = None /\ prio s = curr_prio T /\ path (bare <$> ses w) e l /\ (forall x, x ∈ l -> first w q x) /\
      forall x a lx, ses w !! x = Some a -> my_q a = None -> path (bare <$> ses w) x lx -> (forall y, y ∈ lx -> exists b, ses w !! y = Some b /\ on_rq b = true) -> prio s <= prio a
  | None => rt_queued T = false /\ (thr w T = true \/ rt_nr_running T = 0)
  end.
Proof.
  intros [HT Htop]. pose proof (tn_w _ _ _ _ _ HT) as H. destruct (tn_root _ _ _ _ _ HT) as (T & HTop & _). specialize (Htop T HTop). exists T. unfold pick_task_rt, get_rq. rewrite HTop. cbn [res_bind]. unfold live in Htop. destruct (rt_queued T) eqn:Eq.
  - symmetry in Htop. apply andb_true_iff in Htop as [Hthr Hn]. apply negb_true_iff, Z.eqb_neq in Hn. apply negb_true_iff in Hthr. pose proof (nr_nonneg (wi_base _ _ _ _ _ _ H) (top w) (core T) (core_of w (top w) T HTop)) as H0. cbn in H0.
    destruct (pick_loop_ok HT (S (size (rqs w))) (top w) T [] [] (curr_prio T) HTop ltac:(lia) eq_refl) as (e & s & l & E & Hs & Hm & Hp & Hl & Hf); [by left|intros x Hx; by apply elem_of_nil in Hx|apply NoDup_nil_2|intros y Hy; by apply elem_of_nil in Hy|cbn; lia|].
    unfold _pick_next_task_rt. rewrite E. cbn [res_bind]. exists (Some e). split; [done|]. split; [done|]. do 3 (split; [done|]). exists s, l. do 5 (split; [done|]). intros x a lx Ha Hma Hpx Hon. destruct (urgent HT x lx T Hpx HTop Hon) as (a' & Ha' & Hle). assert (a' = a) as -> by congruence.
    unfold sprio in Hle. rewrite Hma in Hle. lia.
  - exists None. split; [done|]. split; [done|]. split; [done|]. destruct (thr w T); [auto|right]. symmetry in Htop. cbn in Htop. apply negb_false_iff in Htop. by apply Z.eqb_eq.
Qed.
End Run.

(** ** A CPU with one group

    The root queue at 10000 has the entity 600 of a group and the task 700; the group's queue at 20000 has the task
    500.  Nothing is queued yet. *)

Definition idle_nodes : list Z := [500; 600; 700] ++ (queue_at 10000 <$> seqZ 0 100) ++ (queue_at 20000 <$> seqZ 0 100).
Definition self_map {A} (f : Z -> A) (l : list Z) : gmap Z A := list_to_map ((fun x => (x, f x)) <$> l).
Definition idle_rq (t : Z) : rt_rq := mk_rt_rq [0; 2 ^ 36] 0 0 100 100 0 0 false false 0 t.
Definition idle_ses : gmap Z rt_se :=
  <[500 := mk_se false false None (Some 600) 20000 None 10 10 true 4]> (<[600 := mk_se false false None None 10000 (Some 20000) 0 0 false 1]>
  (<[700 := mk_se false false None None 10000 None 20 30 false 2]> ∅)).
Definition idle_rqs : gmap Z rt_rq := <[10000 := idle_rq 0]> (<[20000 := idle_rq 1]> ∅).
Definition one_share : rt_group := mk_group 100 95 (<[1 := mk_acct 95 0 false]> ∅).
Definition idle_pri : Cpupri.cpupri := match cpupri_set cpupri_boot 1 100 with Ok c => c | Fault _ => cpupri_boot end.
Definition idle_cpu : rq :=
  mk_rq (mk_lists (self_map id idle_nodes) (self_map id idle_nodes)) idle_ses idle_rqs 10000 (<[0 := one_share]> (<[1 := one_share]> ∅)) ∅ 1 true 3 idle_pri [0] 0 false (<[1 := 600]> ∅) false.

Lemma self_map_lookup {A} (f : Z -> A) l x a : self_map f l !! x = Some a -> x ∈ l /\ a = f x.
Proof.
  intros Hx. apply elem_of_list_to_map_2 in Hx. apply list_elem_of_fmap in Hx as (y & E & Hy). by injection E as -> ->.
Qed.

Lemma self_map_in {A} (f : Z -> A) l x : x ∈ l -> self_map f l !! x = Some (f x).
Proof.
  induction l as [|y l IH]; intros Hx; [by apply elem_of_nil in Hx|]. unfold self_map. cbn. destruct (decide (x = y)) as [->|Hne]; [apply lookup_insert_eq|]. rewrite lookup_insert_ne by done. apply IH. apply elem_of_cons in Hx as [?|?]; done.
Qed.

Lemma self_holds l : holds (mk_lists (self_map id l) (self_map id l)) (self_map (fun _ => []) l).
Proof.
  split.
  - intros hd l' Hl. apply self_map_lookup in Hl as [Hd ->]. cbn. unfold link. cbn. by rewrite (self_map_in id l hd Hd).
  - intros hd l' Hl. apply self_map_lookup in Hl as [Hd ->]. apply NoDup_singleton.
  - intros hd l1 hd' l2 z H1 H2. apply self_map_lookup in H1 as [_ ->]. apply self_map_lookup in H2 as [_ ->]. rewrite !list_elem_of_singleton. congruence.
Qed.

Definition idle_rank (r : Z) : nat := if r =? 10000 then 0%nat else 1%nat.
Definition idle_room (r : Z) : Z := if r =? 10000 then 5 else 2.

(** The three entities and the two queues. *)
Lemma idle_se_cases (P : Z -> rt_se -> Prop) : P 500 (mk_se false false None (Some 600) 20000 None 10 10 true 4) -> P 600 (mk_se false false None None 10000 (Some 20000) 0 0 false 1) -> P 700 (mk_se false false None None 10000 None 20 30 false 2) ->
  forall e s, idle_ses !! e = Some s -> P e s.
Proof.
  intros H1 H2 H3 e s He. unfold idle_ses in He. apply lookup_insert_Some in He as [[<- <-]|[_ He]]; [done|]. apply lookup_insert_Some in He as [[<- <-]|[_ He]]; [done|]. apply lookup_insert_Some in He as [[<- <-]|[_ He]]; [done|]. by rewrite lookup_empty in He.
Qed.

Lemma idle_rq_cases (P : Z -> rt_rq -> Prop) : P 10000 (idle_rq 0) -> P 20000 (idle_rq 1) -> forall r R, idle_rqs !! r = Some R -> P r R.
Proof. intros H1 H2 r R HR. unfold idle_rqs in HR. apply lookup_insert_Some in HR as [[<- <-]|[_ HR]]; [done|]. apply lookup_insert_Some in HR as [[<- <-]|[_ HR]]; [done|]. by rewrite lookup_empty in HR. Qed.

Lemma idle_bits : bits_ok [0; 2 ^ 36] (fun _ => []).
Proof.
  assert (HF : Forall (fun i => bit [0; 2 ^ 36] i = false) (seqZ 0 100)) by (apply (bool_decide_unpack _); by vm_compute).
  split; [split; [repeat (apply List.Forall_cons; [unfold word; lia|]); apply List.Forall_nil|done]|done| |done]. intros i Hi. rewrite Forall_forall in HF. apply HF, elem_of_seqZ. unfold MAX_RT_PRIO in Hi. lia.
Qed.

Local Ltac each_se := refine (idle_se_cases _ _ _ _); cbv beta.
Local Ltac each_rq := refine (idle_rq_cases _ _ _); cbv beta.

Lemma idle_shape : shape (face <$> idle_ses) (core <$> idle_rqs) 10000 idle_rank idle_room.
Proof.
  assert (HS : forall e s, (face <$> idle_ses) !! e = Some s -> idle_ses !! e = Some s).
  { intros e s Hs. rewrite lookup_fmap in Hs. destruct (idle_ses !! e) as [s0|] eqn:E; [|done]. cbn in Hs. injection Hs as <-. revert e s0 E. by each_se. }
  assert (HK : forall r R, (core <$> idle_rqs) !! r = Some R -> exists R0, idle_rqs !! r = Some R0) by (intros r R HR; rewrite lookup_fmap in HR; destruct (idle_rqs !! r); eauto; done).
  split.
  - by eexists.
  - intros e s Hs. apply HS in Hs. revert e s Hs. each_se; by eexists.
  - intros e s g Hs Hg. apply HS in Hs. revert e s Hs Hg. each_se; try done. intros E. injection E as <-. split; [by eexists|]. split; [done|]. by vm_compute; lia.
  - intros e s e' s' g Hs Hs' Hg Hg'. apply HS in Hs, Hs'. revert e s Hs Hg e' s' Hs' Hg'. apply (idle_se_cases (fun e s => my_q s = Some g -> forall e' s', idle_ses !! e' = Some s' -> my_q s' = Some g -> e = e')); try done. intros _. by each_se.
  - intros e s p Hs Hp. apply HS in Hs. revert e s Hs Hp. each_se; try done. intros E. injection E as <-. by eexists.
  - intros e s Hs. apply HS in Hs. revert e s Hs. by each_se.
  - intros e s Hs. apply HS in Hs. revert e s Hs. each_se; cbn; unfold MAX_RT_PRIO; try done; lia.
  - intros r R HR. destruct (HK r R HR) as [R0 H0]. clear HR. revert r R0 H0. each_rq; (split; [by vm_compute|]); by vm_compute.
  - intros r R e s i HR Hs Hi. destruct (HK r R HR) as [R0 H0]. apply HS in Hs. clear HR. unfold queue_at, MAX_RT_PRIO in *. revert r R0 H0 e s Hs. apply (idle_rq_cases (fun r _ => forall e s, idle_ses !! e = Some s -> e <> r + 16 + 16 * i)); each_se; lia.
  - intros r R r' R' i j HR HR' Hi Hj E. destruct (HK r R HR) as [R0 H0]. destruct (HK r' R' HR') as [R1 H1]. unfold queue_at, MAX_RT_PRIO in *. clear HR HR'. revert r R0 H0 r' R1 H1 E.
    apply (idle_rq_cases (fun r _ => forall r' R1, idle_rqs !! r' = Some R1 -> r + 16 + 16 * i = r' + 16 + 16 * j -> r = r')); each_rq; lia.
Qed.

Lemma idle_base : base (face <$> idle_ses) (core <$> idle_rqs) (self_map (fun _ => []) idle_nodes) (fun _ _ => []) 10000 idle_rank idle_room.
Proof.
  assert (HS : forall e s, (face <$> idle_ses) !! e = Some s -> on_rq s = false /\ on_list s = false /\ e ∈ idle_nodes).
  { intros e s Hs. rewrite lookup_fmap in Hs. destruct (idle_ses !! e) as [s0|] eqn:E; [|done]. cbn in Hs. injection Hs as <-. revert e s0 E. each_se; (split; [done|]; split; [done|]; unfold idle_nodes; rewrite elem_of_app, !elem_of_cons; auto). }
  assert (HK : forall (P : Z -> rt_rq -> Prop), P 10000 (core (idle_rq 0)) -> P 20000 (core (idle_rq 1)) -> forall r R, (core <$> idle_rqs) !! r = Some R -> P r R).
  { intros P P1 P2 r R HR. rewrite lookup_fmap in HR. destruct (idle_rqs !! r) as [R0|] eqn:E; [|done]. cbn in HR. injection HR as <-. revert r R0 E. by apply (idle_rq_cases (fun r R0 => P r (core R0))). }
  assert (HZ : forall (F : rt_se -> Z) r, total F r (face <$> idle_ses) = 0).
  { intros F r. unfold total. apply sumq_zero. intros x a Ha. unfold queued. destruct (HS x a Ha) as (-> & _). done. }
  split; [exact idle_shape| | | | | |].
  - apply HK; (split; [|exact idle_bits]); intros i Hi; apply (self_map_in (fun _ => [])); unfold idle_nodes, MAX_RT_PRIO in *; rewrite !elem_of_app, !list_elem_of_fmap; right; [left|right]; (exists i; split; [done|]; apply elem_of_seqZ; lia).
  - intros r R i e _ _. split; [intros He; by apply elem_of_nil in He|]. intros (s & Hs & Ho & _). destruct (HS e s Hs). congruence.
  - intros e s Hs. destruct (HS e s Hs) as (H1 & H2 & H3). split; [congruence|]. split; [congruence|]. intros _. by apply (self_map_in (fun _ => [])).
  - intros r R HR. rewrite HZ. revert r R HR. by apply HK.
  - intros r R HR. rewrite HZ. revert r R HR. by apply HK.
  - intros r R HR. rewrite HZ. revert r R HR. by apply HK.
Qed.

Lemma idle_at_rest : at_rest (possible := all_cpus) (rank := idle_rank) (room := idle_room) idle_cpu (self_map (fun _ => []) idle_nodes) (fun _ _ => []) 3.
Proof.
  destruct (cpupri_set_ok all_cpus cpupri_boot 1 100 cpupri_boot_ok ltac:(done) ltac:(done) ltac:(done)) as (c & Ec & Hc & Lc).
  assert (Ep : cpupri idle_cpu = c) by (cbn; unfold idle_pri; by rewrite Ec). split; [split; [split| | |]|].
  - apply self_holds.
  - exact idle_base.
  - intros r R HR. change (rqs idle_cpu) with idle_rqs in HR. rewrite lookup_fmap in HR. destruct (idle_rqs !! r) as [R0|] eqn:E; [|done]. cbn in HR. injection HR as <-. revert r R0 E. each_rq; (split; [by vm_compute|]); (split; [done|done]).
  - split; [done|done|by rewrite Ep|]. intros T _ HT. rewrite Ep, Lc. vm_compute in HT. injection HT as <-. by vm_compute.
  - unfold budgeted. change (rqs idle_cpu) with idle_rqs. each_rq; exists one_share, (mk_acct 95 0 false); (split; [by vm_compute|by vm_compute]).
  - split; [exists (idle_rq 0); split; [done|]; split; [by vm_compute|]; split; [by vm_compute|]; split; [by vm_compute|]; intros _; by vm_compute|split; [repeat constructor; unfold word; lia|by vm_compute]|done].
  - by vm_compute.
  - intros x _ s g G Hs Hg HG. revert x s Hs Hg. each_se; try done. intros E. injection E as <-. vm_compute in HG. injection HG as <-. by vm_compute.
  - exists (idle_rq 0). split; [done|]. split; [done|]. by vm_compute.
  - by vm_compute.
  - intros T HT. vm_compute in HT. injection HT as <-. by vm_compute.
Qed.

(** Both tasks queued. *)
Definition busy_cpu : rq := match (w <-- enqueue_rt_entity true idle_cpu 500 0; enqueue_rt_entity true w 700 0) with Ok w => w | Fault _ => idle_cpu end.

Local Abbreviation rests := (at_rest (possible := all_cpus) (rank := idle_rank) (room := idle_room)).

Lemma enqueue_rests w L q other e s : rests w L q other -> ses w !! e = Some s -> exists w' L' q', enqueue_rt_entity true w e 0 = Ok w' /\ rests w' L' q' other /\ bare <$> ses w' = bare <$> ses w.
Proof.
  intros [HT _] Hs. destruct (path_exists (tn_w _ _ _ _ _ HT) e s Hs) as [l Hp]. destruct (rt_enqueue_ok (enabled := true) 0 w L q [] other e s l eq_refl HT Hs Hp) as (w' & L' & q' & E & A & R & _); [intros x Hx; by apply elem_of_nil in Hx|].
  exists w', L', q'. split; [done|]. split; [done|]. apply R.
Qed.

Lemma busy_at_rest : exists L q, rests busy_cpu L q 3.
Proof.
  destruct (enqueue_rests _ _ _ _ 500 _ idle_at_rest eq_refl) as (w1 & L1 & q1 & E1 & A1 & B1). destruct (bare_lookup idle_cpu w1 700 _ B1 eq_refl) as (s & Hs & _).
  destruct (enqueue_rests _ _ _ _ 700 s A1 Hs) as (w2 & L2 & q2 & E2 & A2 & _). exists L2, q2. unfold busy_cpu. rewrite E1. cbn [res_bind]. by rewrite E2.
Qed.

Lemma rt_enqueue_dequeue_correct_witness : exists w' L' q' s', enqueue_rt_entity true idle_cpu 500 0 = Ok w' /\ rests w' L' q' 3 /\ ses w' !! 500 = Some s' /\ on_rq s' = true /\ q' 20000 10 = [500].
Proof.
  destruct (rt_enqueue_dequeue_correct (enabled := true) idle_cpu _ _ 3 500 _ 0 idle_at_rest eq_refl eq_refl eq_refl) as [(w' & L' & q' & s' & E & A & Hs & Ho & Hq & _) _]. exists w', L', q', s'.
  do 4 (split; [done|]). specialize (Hq eq_refl). cbn [rt_rq_of_se] in Hq. rewrite Hq. by vm_compute.
Defined.

Lemma pick_task_rt_correct_witness : pick_task_rt busy_cpu = Ok (Some 500) /\ exists s, ses busy_cpu !! 500 = Some s /\ prio s = 10 /\ forall a, ses busy_cpu !! 700 = Some a -> prio s <= prio a.
Proof.
  split; [by vm_compute|]. destruct busy_at_rest as (L & q & A). destruct (pick_task_rt_correct busy_cpu L q 3 A) as (T & o & HTop & E & H). assert (Eo : o = Some 500) by (vm_compute in E; congruence). subst o.
  destruct H as (_ & _ & _ & s & l & Hs & _ & Hp & _ & _ & Hmin). exists s. split; [done|]. split; [rewrite Hp; vm_compute in HTop; injection HTop as <-; reflexivity|]. intros a Ha. assert (Ha' := Ha). vm_compute in Ha'. injection Ha' as <-. apply (Hmin 700 _ [700] Ha eq_refl).
  - eapply path_root; [by vm_compute|done].
  - intros y Hy. apply list_elem_of_singleton in Hy as ->. eexists. split; [exact Ha|done].
Defined.
