(* ===== verification/RtAccount.v ===== *)
(** * Time, budgets and the tree (kernel/sched/rt.c)

    The running task is charged to every run queue above it, a queue that has used up its budget is taken off, the
    period timer gives budget back and puts the queue on again, and the tick rotates tasks of the round robin policy.
    The budgets are those of RtBandwidth.v, the run queues those of RtQueue.v. *)

From stdpp Require Import gmap list.
From S2P Require Import Prelude Sums Bitops Bitmap ListHead Cpumask Cpupri RtArray RtBandwidth RtQueue RtInvariant RtSteps RtEntity RtTree RtClass RtRun.
Local Open Scope Z_scope.
Local Open Scope res_scope.

(** The parts of the running task that the accounting changes. *)
Record rt_curr := mk_curr { exec_start : Z; sum_exec_runtime : Z; time_slice : Z }.

Section Ops.
Context (enabled share : bool) (span : list Z).

Definition put_group (w : rq) (t : Z) (g : rt_group) : rq := set_groups w (<[t := g]> (groups w)).

Definition sched_rt_runtime_exceeded (w : rq) (r : Z) : res (bool * rq) :=
  R <-- get_rq w r; g <-- get_group w (tg R);
  '(ret, removed, g) <-- runtime_exceeded share g span (cpu w) (rt_nr_boosted R);
  let w := put_group w (tg R) g in
  w <-- (if (removed : bool) then sched_rt_rq_dequeue enabled w r else Ok w); Ok (ret, w).

(** The body of the loop of [update_curr_rt]. *)
Definition charge_queue (w : rq) (r delta : Z) : res rq :=
  R <-- get_rq w r; g <-- get_group w (tg R); mine <-- get_acct (rt_rqs g) (cpu w);
  if rt_runtime mine =? RUNTIME_INF then Ok w
  else
    let g := set_rqs g (<[cpu w := set_time mine (u64 (rt_time mine + delta))]> (rt_rqs g)) in
    '(over, w) <-- sched_rt_runtime_exceeded (put_group w (tg R) g) r; Ok (if (over : bool) then resched_curr w else w).

Fixpoint charge_up (fuel : nat) (w : rq) (e delta : Z) : res rq :=
  match fuel with
  | O => Fault NoFuel
  | S fuel => s <-- get_se w e; w <-- charge_queue w (rt_rq_of_se s) delta; match parent s with Some p => charge_up fuel w p delta | None => Ok w end
  end.

(** [is_rt]: the running task [e] is of this class. *)
Definition update_curr_rt (w : rq) (c : rt_curr) (is_rt : bool) (e now : Z) : res (rq * rt_curr) :=
  let delta_exec := u64 (now - exec_start c) in
  if negb is_rt || (s64 delta_exec <=? 0) then Ok (w, c)
  else
    let c := mk_curr now (u64 (sum_exec_runtime c + delta_exec)) (time_slice c) in
    if negb enabled then Ok (w, c) else w <-- charge_up (depth_fuel w) w e delta_exec; Ok (w, c).

(** One queue of [do_sched_rt_period_timer], on its CPU; [cur] is the priority of the task that runs there. *)
Definition period_timer_queue (w : rq) (r overrun cur : Z) : res (rq * bool) :=
  R <-- get_rq w r; g <-- get_group w (tg R);
  '(g, enqueue, idle) <-- period_timer_cpu share g span (cpu w) overrun (rt_nr_running R) (rt_nr_boosted R);
  let w := put_group w (tg R) g in
  w <-- (if (enqueue : bool) then sched_rt_rq_enqueue enabled w r cur else Ok w); Ok (w, idle).

(** The loop of [task_tick_rt]: whether an entity of the path shares its list. *)
Fixpoint crowded (fuel : nat) (w : rq) (e : Z) : res bool :=
  match fuel with
  | O => Fault NoFuel
  | S fuel => s <-- get_se w e; p <-- get_prev (lists w) e; n <-- get_next (lists w) e; if negb (p =? n) then Ok true else match parent s with Some p => crowded fuel w p | None => Ok false end
  end.

Definition task_tick_rt (w : rq) (c : rt_curr) (e now sched_rr_timeslice : Z) : res (rq * rt_curr) :=
  '(w, c) <-- update_curr_rt w c true e now;
  s <-- get_se w e;
  if negb (rr s) then Ok (w, c)
  else
    let slice := u32 (time_slice c - 1) in
    if negb (slice =? 0) then Ok (w, mk_curr (exec_start c) (sum_exec_runtime c) slice)
    else
      let c := mk_curr (exec_start c) (sum_exec_runtime c) sched_rr_timeslice in
      b <-- crowded (depth_fuel w) w e;
      if (b : bool) then w <-- requeue_task_rt w e false; Ok (resched_curr w, c) else Ok (w, c).
End Ops.

(** ** The flags of the budgets *)

(** Budgets move between CPUs, but no time is charged and no queue is throttled or released. *)
Definition tag (a : rt_acct) : bool * Z := (rt_throttled a, rt_time a).
Definition flags_kept (qs qs' : gmap Z rt_acct) : Prop := tag <$> qs' = tag <$> qs.

Lemma flags_lookup qs qs' i a : flags_kept qs qs' -> qs !! i = Some a -> exists a', qs' !! i = Some a' /\ tag a' = tag a.
Proof.
  intros E Ha. assert (E' : (tag <$> qs') !! i = (tag <$> qs) !! i) by (by rewrite E). rewrite !lookup_fmap, Ha in E'. destruct (qs' !! i) as [a'|]; [|done]. exists a'. split; [done|]. cbn in E'. congruence.
Qed.

Lemma flags_put qs i a a' : qs !! i = Some a -> tag a' = tag a -> flags_kept qs (<[i := a']> qs).
Proof. intros Ha E. unfold flags_kept. rewrite fmap_insert, E. apply insert_id. by rewrite lookup_fmap, Ha. Qed.

Lemma flags_dom qs qs' i : flags_kept qs qs' -> is_Some (qs !! i) -> is_Some (qs' !! i).
Proof. intros E [a Ha]. destruct (flags_lookup qs qs' i a E Ha) as (a' & ? & _). by exists a'. Qed.

Lemma balance_flags me weight period l : forall qs, (forall i, i ∈ l -> is_Some (qs !! i)) -> is_Some (qs !! me) -> exists qs', balance_loop l me weight period qs = Ok qs' /\ flags_kept qs qs'.
Proof.
  induction l as [|i l IH]; intros qs Hl Hme; [by exists qs|]. assert (Hl' : forall j, j ∈ l -> is_Some (qs !! j)) by (intros j Hj; apply Hl, elem_of_cons; auto). cbn [balance_loop]. destruct (Z.eqb_spec i me) as [->|Hne]; [by apply IH|].
  destruct (Hl i) as [ai Hi]; [apply elem_of_cons; auto|]. destruct Hme as [am Hm]. assert (Hme : is_Some (qs !! me)) by (by exists am). unfold get_acct. rewrite Hi, Hm. cbn [res_bind]. destruct (_ =? _); [by apply IH|]. cbv zeta. destruct (0 <? _); [|by apply IH].
  set (d := if period <? _ then _ else _). set (qs1 := <[me := _]> _).
  assert (F : flags_kept qs qs1) by (unfold qs1; unfold flags_kept; rewrite (flags_put (<[i := set_runtime ai (u64 (rt_runtime ai - d))]> qs) me am); [by apply (flags_put qs i ai)|by rewrite lookup_insert_ne|done]).
  destruct (_ =? period); [by exists qs1|]. destruct (IH qs1) as (qs' & E & F'); [intros j Hj; apply (flags_dom qs); auto|by apply (flags_dom qs)|]. exists qs'. split; [done|]. unfold flags_kept in *. congruence.
Qed.

Section Flags.
Context (share : bool) {span : list Z} {g : rt_group} {me : Z} {a : rt_acct} (nb : Z) (Hs : forall i, i ∈ span -> is_Some (rt_rqs g !! i)) (Ha : rt_rqs g !! me = Some a).

Lemma balance_runtime_flags : exists g' a', balance_runtime share g span me = Ok g' /\ rt_rqs g' !! me = Some a' /\ rt_throttled a' = rt_throttled a /\ rt_time a' = rt_time a /\ flags_kept (rt_rqs g) (rt_rqs g') /\ rt_b_runtime g' = rt_b_runtime g.
Proof.
  unfold balance_runtime, get_acct. destruct share; cbn [negb]; [|by exists g, a]. rewrite Ha. cbn [res_bind]. destruct (_ <? _); [|by exists g, a]. unfold do_balance_runtime.
  destruct (balance_flags me (Z.of_nat (length span)) (rt_period g) span (rt_rqs g) Hs) as (qs' & -> & F); [by exists a|]. cbn [res_bind]. destruct (flags_lookup _ _ me a F Ha) as (a' & Ha' & Et). injection Et as Et1 Et2. by exists (set_rqs g qs'), a'.
Qed.

(** The queue is to be removed exactly when it becomes throttled, which it does when its time is over its budget. *)
Lemma exceeded_flags : exists ret removed g' a', runtime_exceeded share g span me nb = Ok (ret, removed, g') /\ rt_rqs g' !! me = Some a' /\ (forall i, is_Some (rt_rqs g !! i) -> is_Some (rt_rqs g' !! i)) /\
  (if (removed : bool) then rt_rq_throttled (rt_throttled a') nb = true else rt_rq_throttled (rt_throttled a') nb = rt_rq_throttled (rt_throttled a) nb) /\
  (rt_time a' = rt_time a \/ rt_b_runtime g = 0 /\ rt_time a' = 0) /\
  (if rt_throttled a' then rt_throttled a = true \/ rt_runtime a' < rt_time a' else rt_throttled a = false /\ (rt_time a <= rt_runtime a' \/ rt_period g <= rt_runtime a \/ rt_runtime a' = RUNTIME_INF \/ rt_b_runtime g = 0)).
Proof.
  unfold runtime_exceeded, get_acct at 1. rewrite Ha. cbn [res_bind]. destruct (rt_throttled a) eqn:Et; [eexists _, false, g, a; rewrite Et; auto 10|]. destruct (Z.leb_spec (rt_period g) (rt_runtime a)); [eexists _, false, g, a; rewrite Et; auto 10|].
  destruct balance_runtime_flags as (g1 & a1 & -> & Ha1 & E1 & T1 & F1 & B1). cbn [res_bind]. unfold get_acct. rewrite Ha1. cbn [res_bind]. assert (Hd : forall i, is_Some (rt_rqs g !! i) -> is_Some (rt_rqs g1 !! i)) by (intros i; by apply flags_dom). rewrite Et in E1.
  destruct (Z.eqb_spec (rt_runtime a1) RUNTIME_INF); [exists false, false, g1, a1; rewrite E1; auto 10|]. destruct (Z.ltb_spec (rt_runtime a1) (rt_time a1)); [|exists false, false, g1, a1; rewrite E1; do 4 (split; [done|]); split; [auto|]; split; [done|left; lia]].
  cbv zeta. set (a2 := if negb _ then _ else _). set (g2 := set_rqs g1 _).
  assert (Ha2 : rt_rqs g2 !! me = Some a2) by apply lookup_insert_eq. assert (Hd2 : forall i, is_Some (rt_rqs g !! i) -> is_Some (rt_rqs g2 !! i)) by (intros i Hi; cbn; rewrite lookup_insert_is_Some'; auto).
  assert (K : (rt_time a2 = rt_time a \/ rt_b_runtime g = 0 /\ rt_time a2 = 0) /\ (if rt_throttled a2 then false = true \/ rt_runtime a2 < rt_time a2 else false = false /\ (rt_time a <= rt_runtime a2 \/ rt_period g <= rt_runtime a \/ rt_runtime a2 = RUNTIME_INF \/ rt_b_runtime g = 0))).
  { unfold a2. destruct (Z.eqb_spec (rt_b_runtime g1) 0) as [E0|E0]; cbn; [|auto]. rewrite B1 in E0. rewrite E1. auto 10. }
  destruct (rt_rq_throttled (rt_throttled a2) nb) eqn:E2; [exists true, true, g2, a2; by rewrite E2|exists false, false, g2, a2; by rewrite E2].
Qed.

End Flags.

(** The timer puts the queue back only when it is not throttled. *)
Lemma period_flags share span g me a nb overrun nr : (forall i, i ∈ span -> is_Some (rt_rqs g !! i)) -> rt_rqs g !! me = Some a ->
  exists g' enqueue idle a', period_timer_cpu share g span me overrun nr nb = Ok (g', enqueue, idle) /\ rt_rqs g' !! me = Some a' /\ (forall i, is_Some (rt_rqs g !! i) -> is_Some (rt_rqs g' !! i)) /\
  (if (enqueue : bool) then rt_rq_throttled (rt_throttled a') nb = false else rt_rq_throttled (rt_throttled a') nb = rt_rq_throttled (rt_throttled a) nb) /\
  rt_time a' = rt_time a - Z.min (rt_time a) (if rt_time a =? 0 then 0 else u64 (overrun * rt_runtime a')) /\
  (if rt_time a =? 0 then rt_throttled a' = rt_throttled a else rt_throttled a' = rt_throttled a && (rt_runtime a' <=? rt_time a')).
Proof.
  intros Hs Ha. unfold period_timer_cpu, get_acct at 1. rewrite Ha. cbn [res_bind]. cbv zeta. set (a0 := if negb share && _ then _ else a). set (g0 := set_rqs g _).
  assert (T0 : rt_throttled a0 = rt_throttled a) by (unfold a0; by destruct (negb share && _)). assert (M0 : rt_time a0 = rt_time a) by (unfold a0; by destruct (negb share && _)). assert (Ha0 : rt_rqs g0 !! me = Some a0) by apply lookup_insert_eq.
  assert (F0 : forall i, is_Some (rt_rqs g !! i) -> is_Some (rt_rqs g0 !! i)) by (intros i Hi; cbn; rewrite lookup_insert_is_Some'; auto). assert (Hs0 : forall i, i ∈ span -> is_Some (rt_rqs g0 !! i)) by auto.
  rewrite M0. destruct (Z.eqb_spec (rt_time a) 0) as [Z0|Z0]; cbn [negb andb].
  - assert (K : rt_time a0 = rt_time a - Z.min (rt_time a) 0) by lia. destruct (nr =? 0); [exists g0, false, true, a0; do 3 (split; [done|]); by rewrite T0|].
    destruct (rt_rq_throttled (rt_throttled a0) nb) eqn:E0; cbn [negb]; [exists g0, false, false, a0; do 3 (split; [done|]); by rewrite <- T0|exists g0, true, false, a0; by do 3 (split; [done|])].
  - assert (Hbal : exists g1 a1, (if rt_throttled a0 then balance_runtime share g0 span me else Ok g0) = Ok g1 /\ rt_rqs g1 !! me = Some a1 /\ rt_throttled a1 = rt_throttled a /\ rt_time a1 = rt_time a /\ forall i, is_Some (rt_rqs g !! i) -> is_Some (rt_rqs g1 !! i)).
    { destruct (rt_throttled a0) eqn:E0; [|exists g0, a0; do 2 (split; [done|]); split; [congruence|done]]. destruct (balance_runtime_flags share Hs0 Ha0) as (g1 & a1 & E & Ha1 & E1 & M1 & F1 & _). exists g1, a1. split; [done|]. split; [done|]. split; [congruence|]. split; [congruence|]. intros i Hi. apply (flags_dom (rt_rqs g0)); auto. }
    destruct Hbal as (g1 & a1 & -> & Ha1 & T1 & M1 & F1). cbn [res_bind]. unfold get_acct. rewrite Ha1. cbn [res_bind]. set (a2 := set_time a1 _). assert (M2 : rt_time a2 = rt_time a - Z.min (rt_time a) (u64 (overrun * rt_runtime a1))) by (cbn; lia).
    destruct (rt_throttled a2 && (rt_time a2 <? rt_runtime a1)) eqn:Ee.
    + eexists _, true, _, (set_throttled a2 false). split; [done|]. split; [apply lookup_insert_eq|]. split; [intros i Hi; cbn; rewrite lookup_insert_is_Some'; auto|]. split; [done|]. split; [exact M2|]. apply andb_true_iff in Ee as [_ Ee]. symmetry. apply andb_false_iff. right. apply Z.leb_gt. by apply Z.ltb_lt in Ee.
    + eexists _, false, _, a2. split; [done|]. split; [apply lookup_insert_eq|]. split; [intros i Hi; cbn; rewrite lookup_insert_is_Some'; auto|]. cbn [rt_throttled set_time a2] in Ee. split; [cbn; by rewrite T1|]. split; [exact M2|]. change (rt_throttled a2) with (rt_throttled a1). change (rt_runtime a2) with (rt_runtime a1). rewrite T1 in Ee |- *. destruct (rt_throttled a); [|done]. cbn [andb] in *. symmetry. apply Z.leb_le. by apply Z.ltb_ge in Ee.
Qed.

(** ** The tree *)

Section Account.
Context {enabled share : bool} {span : list Z} {possible : list Z} {rank : Z -> nat} {room : Z -> Z}.
Local Abbreviation at_rest := (at_rest (possible := possible) (rank := rank) (room := room)).

(** Every run queue of the CPU is of a group of its own, which has a budget on every CPU of the root domain, and which knows the queue's entity. *)
Record accounts (w : rq) : Prop := {
  ac_in r R : rqs w !! r = Some R -> exists g a, groups w !! tg R = Some g /\ rt_rqs g !! cpu w = Some a /\ forall i, i ∈ span -> is_Some (rt_rqs g !! i);
  ac_uniq r R r' R' : rqs w !! r = Some R -> rqs w !! r' = Some R' -> tg R' = tg R -> r' = r;
  ac_stands r R : rqs w !! r = Some R -> stands_for w r R }.

(** The tree is the same and no task changed. *)
Record same_tree (w w' : rq) : Prop := {
  st_top : top w' = top w; st_cpu : cpu w' = cpu w; st_se_of : rt_se_of w' = rt_se_of w; st_tg : tg <$> rqs w' = tg <$> rqs w; st_bare : bare <$> ses w' = bare <$> ses w;
  st_tasks x a : ses w !! x = Some a -> my_q a = None -> ses w' !! x = Some a }.

Lemma same_tree_refl w : same_tree w w.
Proof. by split. Qed.
Lemma same_tree_trans w1 w2 w3 : same_tree w1 w2 -> same_tree w2 w3 -> same_tree w1 w3.
Proof. intros [? ? ? ? ? A] [? ? ? ? ? B]. split; try congruence. intros x a Ha Hm. apply B; [by apply A|done]. Qed.

Lemma tg_lookup w w' r R' : tg <$> rqs w' = tg <$> rqs w -> rqs w' !! r = Some R' -> exists R, rqs w !! r = Some R /\ tg R = tg R'.
Proof.
  intros E HR. assert (E' : (tg <$> rqs w') !! r = (tg <$> rqs w) !! r) by (by rewrite E). rewrite !lookup_fmap, HR in E'. destruct (rqs w !! r) as [R|]; [|done]. exists R. split; [done|]. cbn in E'. congruence.
Qed.

Lemma accounts_same w w' : accounts w -> same_tree w w' -> (forall t g a, groups w !! t = Some g -> rt_rqs g !! cpu w = Some a -> (forall i, i ∈ span -> is_Some (rt_rqs g !! i)) ->
    exists g' a', groups w' !! t = Some g' /\ rt_rqs g' !! cpu w = Some a' /\ forall i, i ∈ span -> is_Some (rt_rqs g' !! i)) -> accounts w'.
Proof.
  intros [A1 A2 A3] [S1 S2 S3 S4 S5 _] Hg. split.
  - intros r R' HR'. destruct (tg_lookup w w' r R' S4 HR') as (R & HR & <-). destruct (A1 r R HR) as (g & a & Eg & Ea & Hi). rewrite S2. by apply (Hg (tg R) g a).
  - intros r R r' R' HR HR' E. destruct (tg_lookup w w' r R S4 HR) as (R0 & H0 & E0). destruct (tg_lookup w w' r' R' S4 HR') as (R1 & H1 & E1). apply (A2 r R0 r' R1); congruence.
  - intros r R' HR'. destruct (tg_lookup w w' r R' S4 HR') as (R & HR & E). pose proof (A3 r R HR) as Hst. unfold stands_for in *. rewrite S3, S1, <- E. destruct (rt_se_of w !! tg R) as [e|]; [|done]. destruct Hst as (s & Hs & Hm).
    destruct (bare_lookup w w' e s S5 Hs) as (s' & Hs' & Eb). exists s'. split; [done|]. destruct (bare_parts _ _ Eb) as (_ & _ & Em & _). congruence.
Qed.

Lemma put_group_same w t g : same_tree w (put_group w t g).
Proof. by split. Qed.

Lemma put_group_accounts w t g a : accounts w -> rt_rqs g !! cpu w = Some a -> (forall i, i ∈ span -> is_Some (rt_rqs g !! i)) -> accounts (put_group w t g).
Proof.
  intros HA Ha Hs. apply (accounts_same w); [done|apply put_group_same|]. intros t' g0 a0 Eg Ea Hi. cbn. destruct (decide (t = t')) as [<-|Hne]; [exists g, a; by rewrite lookup_insert_eq|exists g0, a0; by rewrite lookup_insert_ne].
Qed.

Section Queue.
Context {w : rq} {L : gmap Z (list Z)} {q : Z -> Z -> list Z} {other r : Z} {R : rt_rq} {g g' : rt_group} {a a' : rt_acct}.
Context (HA : at_rest w L q other) (HC : accounts w) (HR : rqs w !! r = Some R) (Hg : groups w !! tg R = Some g) (Ha : rt_rqs g !! cpu w = Some a).
Context (Ha' : rt_rqs g' !! cpu w = Some a') (Hdom : forall i, i ∈ span -> is_Some (rt_rqs g' !! i)).

(** New budgets that do not change the throttling of the queue. *)
Lemma same_flag : rt_rq_throttled (rt_throttled a') (rt_nr_boosted R) = rt_rq_throttled (rt_throttled a) (rt_nr_boosted R) -> at_rest (put_group w (tg R) g') L q other.
Proof.
  intros E. pose proof (reflag_w (R := R) HA Ha') as H1. destruct HA as [[H A2 A3 A4] A5].
  assert (Hlive : forall r' R', rqs w !! r' = Some R' -> live (put_group w (tg R) g') R' = live w R').
  { intros r' R' HR'. unfold live, thr. cbn. destruct (decide (tg R' = tg R)) as [Et|Hne]; [|by rewrite lookup_insert_ne]. assert (r' = r) as -> by (by apply (ac_uniq _ HC r R r' R')). assert (R' = R) as -> by congruence. by rewrite lookup_insert_eq, Ha', Hg, Ha, E. }
  split; [split; [exact H1| |done|done]|].
  - intros x Hx s k G Hs Hk HG. rewrite (Hlive k G HG). by apply (A2 x Hx s k).
  - intros T HT. rewrite (Hlive (top w) T HT). by apply A5.
Qed.

(** New budgets, with what the code does to the queue. *)
Lemma requeued (remove : bool) cur (moved : bool) : (if moved then rt_rq_throttled (rt_throttled a') (rt_nr_boosted R) = remove else rt_rq_throttled (rt_throttled a') (rt_nr_boosted R) = rt_rq_throttled (rt_throttled a) (rt_nr_boosted R)) ->
  let w1 := put_group w (tg R) g' in
  exists w' L' q', (if moved then if remove then sched_rt_rq_dequeue enabled w1 r else sched_rt_rq_enqueue enabled w1 r cur else Ok w1) = Ok w' /\ at_rest w' L' q' other /\ accounts w' /\ same_tree w w' /\ groups w' = groups w1.
Proof.
  intros Hm w1. assert (C1 : accounts w1) by (by apply (put_group_accounts w (tg R) g' a')). destruct moved.
  - destruct (throttle_ok (enabled := enabled) w L q other r R g' a' cur HA HR Ha' (fun r' R' H' E => ac_uniq _ HC r R r' R' HR H' E) (ac_stands _ HC r R HR)) as (w' & L' & q' & E & A & Hk & [D1 D2 D3 D4 D5 D6]). rewrite Hm in E.
    exists w', L', q'. split; [exact E|]. split; [done|]. assert (S1 : same_tree w w') by (by split). split; [|by split]. apply (accounts_same w1); [done|by split|]. intros t g0 a0 Eg Ea Hi. exists g0, a0. by rewrite D2.
  - exists w1, L, q. split; [done|]. split; [by apply same_flag|]. split; [done|]. split; [apply put_group_same|done].
Qed.
End Queue.

(** ** What is charged *)

(** On the CPU [c], the time [delta] is charged to the group [t] and to no other: it is added to the time used, unless the
    group has no runtime, and the group is throttled if its time is over its budget, after borrowing. *)
Definition charged (c t delta : Z) (B B' : gmap Z rt_group) : Prop :=
  (forall t', t' <> t -> B' !! t' = B !! t') /\ exists g a g' a', B !! t = Some g /\ rt_rqs g !! c = Some a /\ B' !! t = Some g' /\ rt_rqs g' !! c = Some a' /\
  if rt_runtime a =? RUNTIME_INF then B' = B
  else (rt_time a' = u64 (rt_time a + delta) \/ rt_b_runtime g = 0 /\ rt_time a' = 0) /\
    if rt_throttled a' then rt_throttled a = true \/ rt_runtime a' < rt_time a'
    else rt_throttled a = false /\ (u64 (rt_time a + delta) <= rt_runtime a' \/ rt_period g <= rt_runtime a \/ rt_runtime a' = RUNTIME_INF \/ rt_b_runtime g = 0).

(** The groups [ts] are charged, one after the other. *)
Fixpoint charged_all (c delta : Z) (ts : list Z) (B B' : gmap Z rt_group) : Prop :=
  match ts with [] => B' = B | t :: ts => exists B1, charged c t delta B B1 /\ charged_all c delta ts B1 B' end.

(** The groups of the queues that the entities [l] are on. *)
Definition groups_of (w : rq) (l ts : list Z) : Prop := Forall2 (fun x t => exists s R, ses w !! x = Some s /\ rqs w !! rt_rq_of_se s = Some R /\ tg R = t) l ts.

(** [overrun] periods of the budget of the group [t] are given back: the group is released if its time is now under its budget. *)
Definition refilled (c t overrun : Z) (B B' : gmap Z rt_group) : Prop :=
  (forall t', t' <> t -> B' !! t' = B !! t') /\ exists g a g' a', B !! t = Some g /\ rt_rqs g !! c = Some a /\ B' !! t = Some g' /\ rt_rqs g' !! c = Some a' /\
  if rt_time a =? 0 then rt_time a' = 0 /\ rt_throttled a' = rt_throttled a
  else rt_time a' = rt_time a - Z.min (rt_time a) (u64 (overrun * rt_runtime a')) /\ rt_throttled a' = rt_throttled a && (rt_runtime a' <=? rt_time a').

Lemma groups_of_same w w' l ts : same_tree w w' -> groups_of w' l ts -> groups_of w l ts.
Proof.
  intros S HF. refine (Forall2_impl _ _ _ _ HF _). intros x t (s' & R' & Hs & HR & Et). destruct (bare_lookup w' w x s' (eq_sym (st_bare _ _ S)) Hs) as (s & Hs' & Eb). destruct (bare_parts _ _ Eb) as (_ & Eq & _). rewrite <- Eq in HR.
  destruct (tg_lookup w w' _ R' (st_tg _ _ S) HR) as (R & HR' & E). exists s, R. split; [done|]. split; [done|congruence].
Qed.

Lemma put_group_twice w t g1 g2 : put_group (put_group w t g1) t g2 = put_group w t g2.
Proof. unfold put_group, set_groups. cbn. by rewrite insert_insert_eq. Qed.

Lemma at_rest_resched_tree w w' L q other P : at_rest w' L q other /\ accounts w' /\ same_tree w w' /\ (P (groups w') : Prop) -> at_rest (resched_curr w') L q other /\ accounts (resched_curr w') /\ same_tree w (resched_curr w') /\ P (groups (resched_curr w')).
Proof. intros (A & [C1 C2 C3] & [S1 S2 S3 S4 S5 S6] & HP). split; [by apply at_rest_resched|]. split; [by split|]. split; [by split|done]. Qed.

(** One queue is charged. *)
Lemma charge_queue_ok w L q other r R delta : at_rest w L q other -> accounts w -> rqs w !! r = Some R -> exists w' L' q', charge_queue enabled share span w r delta = Ok w' /\ at_rest w' L' q' other /\ accounts w' /\ same_tree w w' /\ charged (cpu w) (tg R) delta (groups w) (groups w').
Proof.
  intros HA HC HR. destruct (ac_in _ HC r R HR) as (g & a & Eg & Ea & Hs). unfold charge_queue, get_rq, get_group, get_acct. rewrite HR. cbn [res_bind]. rewrite Eg. cbn [res_bind]. rewrite Ea. cbn [res_bind].
  destruct (rt_runtime a =? RUNTIME_INF) eqn:Ei; [exists w, L, q; split; [done|]; split; [done|]; split; [done|]; split; [apply same_tree_refl|]; split; [done|]; exists g, a, g, a; by rewrite Ei|]. cbv zeta. set (g1 := set_rqs g _). set (a1 := set_time a _) in *.
  assert (Ea1 : rt_rqs g1 !! cpu w = Some a1) by apply lookup_insert_eq. assert (Hs1 : forall i, i ∈ span -> is_Some (rt_rqs g1 !! i)) by (intros i Hi; cbn; rewrite lookup_insert_is_Some'; auto).
  unfold sched_rt_runtime_exceeded, get_rq, get_group. cbn [rqs put_group set_groups groups cpu]. rewrite HR. cbn [res_bind]. rewrite lookup_insert_eq. cbn [res_bind].
  destruct (exceeded_flags share (rt_nr_boosted R) Hs1 Ea1) as (ret & rm & g2 & a2 & E & Ea2 & Hd & Hfl & Ht & Hv). rewrite E. cbn [res_bind]. fold (put_group w (tg R) g1). rewrite put_group_twice.
  destruct (requeued (g' := g2) HA HC HR Eg Ea Ea2 ltac:(auto) true 0 rm) as (w' & L' & q' & E' & A' & C' & S' & Egr); [by destruct rm|].
  assert (HP : charged (cpu w) (tg R) delta (groups w) (groups w')).
  { rewrite Egr. split; [intros t' Hne; by apply lookup_insert_ne|]. exists g, a, g2, a2. do 2 (split; [done|]). split; [apply lookup_insert_eq|]. split; [done|]. rewrite Ei. done. }
  destruct rm; [rewrite E'|injection E' as <-]; cbn [res_bind]; eexists _, L', q'; (split; [done|]); (destruct ret; [by apply (at_rest_resched_tree w _ L' q' other (charged (cpu w) (tg R) delta (groups w)))|done]).
Qed.

(** The queues of a path are charged. *)
Lemma charge_up_ok delta l : forall fuel e w L q other, at_rest w L q other -> accounts w -> path (bare <$> ses w) e l -> (length l <= fuel)%nat ->
  exists w' L' q' ts, charge_up enabled share span fuel w e delta = Ok w' /\ at_rest w' L' q' other /\ accounts w' /\ same_tree w w' /\ groups_of w l ts /\ charged_all (cpu w) delta ts (groups w) (groups w').
Proof.
  induction l as [|x l IH]; intros fuel e w L q other HA HC Hp Hf; [inversion Hp|]. destruct (path_head _ _ _ Hp) as [t Et]. injection Et as -> <-. destruct fuel as [|fuel]; [cbn in Hf; lia|].
  destruct (path_in_ses e _ e Hp) as [s Hs]; [apply elem_of_cons; auto|]. cbn [charge_up]. unfold get_se. rewrite Hs. cbn [res_bind]. destruct (queue_exists possible rank room (tn_w _ _ _ _ _ (proj1 HA)) Hs) as (R & HR & _).
  destruct (charge_queue_ok w L q other _ R delta HA HC HR) as (w1 & L1 & q1 & -> & A1 & C1 & S1 & P1). cbn [res_bind]. assert (Hst : exists s0 R0, ses w !! e = Some s0 /\ rqs w !! rt_rq_of_se s0 = Some R0 /\ tg R0 = tg R) by (by exists s, R).
  destruct (path_cons e s l Hp Hs) as [[-> Epar]|(p & Epar & Hl)]; rewrite Epar; [exists w1, L1, q1, [tg R]; do 4 (split; [done|]); split; [by repeat constructor|by exists (groups w1)]|].
  destruct (IH fuel p w1 L1 q1 other A1 C1) as (w' & L' & q' & ts & E & A' & C' & S' & G' & P'); [by rewrite (st_bare _ _ S1)|cbn in Hf; lia|]. exists w', L', q', (tg R :: ts). split; [done|]. split; [done|]. split; [done|]. split; [by apply (same_tree_trans w w1)|].
  split; [constructor; [done|by apply (groups_of_same w w1)]|]. exists (groups w1). rewrite (st_cpu _ _ S1) in P'. done.
Qed.

(** What [update_curr_rt] does to the running task [e] and to the groups above it. *)
Definition accounted (w w' : rq) (c c' : rt_curr) (is_rt : bool) (e now : Z) : Prop :=
  let d := u64 (now - exec_start c) in
  if is_rt && (0 <? s64 d) then exec_start c' = now /\ sum_exec_runtime c' = u64 (sum_exec_runtime c + d) /\
    if enabled then exists l ts, path (bare <$> ses w) e l /\ groups_of w l ts /\ charged_all (cpu w) d ts (groups w) (groups w') else w' = w
  else w' = w /\ c' = c.

Lemma update_curr_rt_ok w L q other c is_rt e s now : at_rest w L q other -> accounts w -> ses w !! e = Some s ->
  exists w' c' L' q', update_curr_rt enabled share span w c is_rt e now = Ok (w', c') /\ at_rest w' L' q' other /\ accounts w' /\ same_tree w w' /\ time_slice c' = time_slice c /\ accounted w w' c c' is_rt e now.
Proof.
  intros HA HC Hs. unfold accounted. cbv zeta. unfold update_curr_rt. set (d := u64 (now - exec_start c)). rewrite (Z.ltb_antisym (s64 d) 0). destruct is_rt; cbn [negb orb andb]; [|by exists w, c, L, q]. destruct (s64 d <=? 0); cbn [negb]; [by exists w, c, L, q|].
  set (c' := mk_curr now (u64 (sum_exec_runtime c + d)) (time_slice c)). destruct enabled eqn:En; cbn [negb]; [|by exists w, c', L, q]. destruct (path_exists (tn_w _ _ _ _ _ (proj1 HA)) e s Hs) as [l Hp]. pose proof (rt_path_length (tn_w _ _ _ _ _ (proj1 HA)) e l Hp) as Hl.
  destruct (charge_up_ok d l (depth_fuel w) e w L q other HA HC Hp ltac:(unfold depth_fuel; lia)) as (w' & L' & q' & ts & E & A' & C' & S' & G' & P'). rewrite En in E. rewrite E. cbn [res_bind]. exists w', c', L', q'. do 7 (split; [done|]). by exists l, ts.
Qed.

Lemma period_timer_ok w L q other r R overrun cur : at_rest w L q other -> accounts w -> rqs w !! r = Some R ->
  exists w' idle L' q', period_timer_queue enabled share span w r overrun cur = Ok (w', idle) /\ at_rest w' L' q' other /\ accounts w' /\ same_tree w w' /\ refilled (cpu w) (tg R) overrun (groups w) (groups w').
Proof.
  intros HA HC HR. destruct (ac_in _ HC r R HR) as (g & a & Eg & Ea & Hs). unfold period_timer_queue, get_rq, get_group. rewrite HR. cbn [res_bind]. rewrite Eg. cbn [res_bind].
  destruct (period_flags share span g (cpu w) a (rt_nr_boosted R) overrun (rt_nr_running R) Hs Ea) as (g' & enq & idle & a' & -> & Ea' & Hd & Hfl & Ht & Hv). cbn [res_bind].
  destruct (requeued (g' := g') HA HC HR Eg Ea Ea' ltac:(auto) false cur enq) as (w' & L' & q' & E' & A' & C' & S' & Egr); [by destruct enq|].
  assert (HP : refilled (cpu w) (tg R) overrun (groups w) (groups w')).
  { rewrite Egr. split; [intros t' Hne; by apply lookup_insert_ne|]. exists g, a, g', a'. do 2 (split; [done|]). split; [apply lookup_insert_eq|]. split; [done|]. destruct (Z.eqb_spec (rt_time a) 0) as [E0|E0]; [|done]. split; [lia|done]. }
  destruct enq; [rewrite E'|injection E' as <-]; cbn [res_bind]; by eexists _, idle, L', q'.
Qed.

(** ** The tick *)

(** An entity of the path that is queued with others. *)
Definition shares_list (w : rq) (q : Z -> Z -> list Z) (x : Z) : Prop := exists s, ses w !! x = Some s /\ on_rq s = true /\ (1 < length (q (rt_rq_of_se s) (sprio (core <$> rqs w) s)))%nat.

Lemma list_neighbours w L q other x s : at_rest w L q other -> ses w !! x = Some s -> exists p n, get_prev (lists w) x = Ok p /\ get_next (lists w) x = Ok n /\ (p <> n <-> shares_list w q x).
Proof.
  intros [[H _ _ _] _] Hs. pose proof (wi_base _ _ _ _ _ _ H) as HB. pose proof (wi_holds _ _ _ _ _ _ H) as Hh. assert (HS := face_lookup w x s Hs). destruct (on_rq s) eqn:Ho.
  - destruct (queue_exists possible rank room H Hs) as (R & HR & HK). destruct (queued_in HB _ (core R) x (face s) HK HS Ho eq_refl) as [Hi He]. change (sprio (core <$> rqs w) (face s)) with (sprio (core <$> rqs w) s) in Hi, He.
    destruct (b_queues _ _ _ _ _ _ _ HB _ (core R) HK) as [HQ _]. specialize (HQ _ Hi). apply list_elem_of_split in He as (l1 & l2 & El). change (rt_rq_of_se (face s)) with (rt_rq_of_se s) in El. rewrite El in HQ. set (hd := queue_at _ _) in HQ.
    exists (default hd (last l1)), (default hd (head l2)). split; [apply (holds_entry_prev Hh HQ)|]. split; [apply (holds_entry_next Hh HQ)|].
    assert (Hlen : shares_list w q x <-> l1 ++ l2 <> []).
    { split.
      - intros (s0 & Hs0 & _ & Hl) [-> ->]%app_eq_nil. assert (s0 = s) as -> by congruence. rewrite El in Hl. cbn in Hl. lia.
      - intros Hne. exists s. split; [done|]. split; [done|]. rewrite El, length_app. cbn. destruct l1; [destruct l2; [done|cbn; lia]|cbn; lia]. }
    rewrite Hlen. pose proof (ho_nodup _ _ Hh hd _ HQ) as Hn. apply NoDup_cons in Hn as [Hhd Hn]. destruct (last l1) as [y|] eqn:E1; [|apply last_None in E1 as ->]; (destruct l2 as [|z l2]; cbn [head default]).
    + apply last_Some in E1 as [l1' ->]. split; [intros _; by destruct l1'|]. intros _. cbn. intros <-. apply Hhd. rewrite !elem_of_app, list_elem_of_singleton. auto.
    + apply last_Some in E1 as [l1' ->]. split; [intros _; by destruct l1'|]. intros _. cbn. intros <-. apply NoDup_app in Hn as (_ & Hn & _). apply (Hn y); [rewrite elem_of_app, list_elem_of_singleton; auto|rewrite !elem_of_cons; auto].
    + cbn. tauto.
    + cbn. split; [done|]. intros _ <-. apply Hhd. cbn. rewrite !elem_of_cons. auto.
  - assert (HL : L !! x = Some []) by (by apply (b_flags _ _ _ _ _ _ _ HB x (face s) HS)). exists x, x. split; [apply (holds_prev Hh HL)|]. split; [apply (holds_next Hh HL)|]. split; [done|]. intros (s0 & Hs0 & Ho0 & _). congruence.
Qed.

Lemma crowded_ok w L q other l : at_rest w L q other -> forall fuel e, path (bare <$> ses w) e l -> (length l <= fuel)%nat -> exists b : bool, crowded fuel w e = Ok b /\ (b = true <-> exists x, x ∈ l /\ shares_list w q x).
Proof.
  intros HA. induction l as [|x l IH]; intros fuel e Hp Hf; [inversion Hp|]. destruct (path_head _ _ _ Hp) as [t Et]. injection Et as -> <-. destruct fuel as [|fuel]; [cbn in Hf; lia|].
  destruct (path_in_ses e _ e Hp) as [s Hs]; [apply elem_of_cons; auto|]. cbn [crowded]. unfold get_se. rewrite Hs. cbn [res_bind]. destruct (list_neighbours w L q other e s HA Hs) as (p & n & -> & -> & Hpn). cbn [res_bind].
  destruct (Z.eqb_spec p n) as [E|E]; cbn [negb].
  - assert (Hno : ~ shares_list w q e) by (intros ?; by apply Hpn). destruct (path_cons e s l Hp Hs) as [[-> Epar]|(o & Epar & Hl)]; rewrite Epar.
    + exists false. split; [done|]. split; [done|]. intros (y & Hy & Hsh). apply list_elem_of_singleton in Hy as ->. done.
    + destruct (IH fuel o Hl ltac:(cbn in Hf; lia)) as (b & Eb & Hb). exists b. split; [done|]. rewrite Hb. split; intros (y & Hy & Hsh); exists y; (split; [|done]); [apply elem_of_cons; auto|]. apply elem_of_cons in Hy as [->|?]; done.
  - exists true. split; [done|]. split; [|done]. intros _. exists e. split; [apply elem_of_cons; auto|]. by apply Hpn.
Qed.

Lemma same_tree_lists w w1 m : same_tree w w1 -> same_tree w (resched_curr (set_lists w1 m)).
Proof. intros [S1 S2 S3 S4 S5 S6]. by split. Qed.

(** ** The theorems *)

(** C10: charging the running task for its time, and the period timer on a CPU, are exact and keep the tree of run queues
    at rest.  The task is charged the time since the last update, nothing when the clock stood still or the task is of
    another class, and so is the group of every queue above it and no other; a group is throttled when its time is over
    its budget, after borrowing, and the timer gives back its budget and releases it when its time is under it again.  At
    rest a queue is on exactly when it has tasks and is not throttled (a boosted task lifts the throttling), in every
    combination of groups; no check fires, and no task changes its place in the tree or its own state. *)
Theorem rt_accounting_correct w L q other : at_rest w L q other -> accounts w ->
  (forall c is_rt e s now, ses w !! e = Some s -> exists w' c' L' q', update_curr_rt enabled share span w c is_rt e now = Ok (w', c') /\ at_rest w' L' q' other /\ accounts w' /\ same_tree w w' /\ accounted w w' c c' is_rt e now) /\
  (forall r R overrun cur, rqs w !! r = Some R -> exists w' idle L' q', period_timer_queue enabled share span w r overrun cur = Ok (w', idle) /\ at_rest w' L' q' other /\ accounts w' /\ same_tree w w' /\ refilled (cpu w) (tg R) overrun (groups w) (groups w')).
Proof.
  intros HA HC. split.
  - intros c is_rt e s now Hs. destruct (update_curr_rt_ok w L q other c is_rt e s now HA HC Hs) as (w' & c' & L' & q' & E & A & C & S' & _ & Hd). by exists w', c', L', q'.
  - intros r R overrun cur HR. by apply (period_timer_ok w L q other r R overrun cur).
Qed.

(** C12: the tick charges the running task and then, for a round robin task whose time slice is over, gives it a new slice and, exactly when the task or a group above it shares its list, moves each of them to the end of its list and asks for a reschedule; otherwise the queues stay as they are after the charge.  The tree is at rest afterwards. *)
Theorem task_tick_rt_correct w L q other c e s now slice : at_rest w L q other -> accounts w -> ses w !! e = Some s -> my_q s = None ->
  exists w' c' L' q', task_tick_rt enabled share span w c e now slice = Ok (w', c') /\ at_rest w' L' q' other /\ same_tree w w' /\
  exists w1 c1 L1 q1 l, update_curr_rt enabled share span w c true e now = Ok (w1, c1) /\ at_rest w1 L1 q1 other /\ path (bare <$> ses w) e l /\
    if rr s && (u32 (time_slice c - 1) =? 0) then
      time_slice c' = slice /\ (~ (exists x, x ∈ l /\ shares_list w1 q1 x) -> w' = w1) /\
      ((exists x, x ∈ l /\ shares_list w1 q1 x) -> resched w' = true /\ forall x a, x ∈ l -> ses w1 !! x = Some a -> on_rq a = true -> last (q' (rt_rq_of_se a) (sprio (core <$> rqs w1) a)) = Some x)
    else w' = w1 /\ time_slice c' = if rr s then u32 (time_slice c - 1) else time_slice c.
Proof.
  intros HA HC Hs Hm. destruct (update_curr_rt_ok w L q other c true e s now HA HC Hs) as (w1 & c1 & L1 & q1 & E1 & A1 & C1 & S1 & Ts & _). destruct (path_exists (tn_w _ _ _ _ _ (proj1 HA)) e s Hs) as [l Hp]. assert (Hs1 := st_tasks _ _ S1 e s Hs Hm).
  assert (Hp1 : path (bare <$> ses w1) e l) by (by rewrite (st_bare _ _ S1)). unfold task_tick_rt. rewrite E1. cbn [res_bind]. unfold get_se. rewrite Hs1. cbn [res_bind]. rewrite Ts. destruct (rr s); cbn [negb andb].
  2: { exists w1, c1, L1, q1. split; [done|]. split; [done|]. split; [done|]. exists w1, c1, L1, q1, l. done. }
  destruct (Z.eqb_spec (u32 (time_slice c - 1)) 0) as [E0|E0]; cbn [negb].
  2: { eexists w1, _, L1, q1. split; [done|]. split; [done|]. split; [done|]. exists w1, c1, L1, q1, l. done. }
  destruct (crowded_ok w1 L1 q1 other l A1 (depth_fuel w1) e Hp1) as (b & -> & Hb); [pose proof (rt_path_length (tn_w _ _ _ _ _ (proj1 A1)) e l Hp1); unfold depth_fuel; lia|]. cbn [res_bind]. destruct b.
  - destruct (rotate_task_ok w1 L1 q1 other e s false A1 Hs1) as (m & L2 & q2 & l2 & -> & A2 & Hp2 & K & _). cbn [res_bind]. eexists _, _, L2, q2. split; [done|]. split; [by apply at_rest_resched|]. split; [by apply same_tree_lists|]. exists w1, c1, L1, q1, l.
    do 4 (split; [done|]). split; [intros Hno; exfalso; by apply Hno, Hb|]. intros _. split; [done|]. intros x a Hx Ha Ho. rewrite (path_unique _ _ _ _ Hp2 Hp1) in K. specialize (K x a Hx Ha). cbv zeta in K. rewrite Ho in K. destruct K as (k1 & k2 & _ & ->). unfold upd. rewrite Z.eqb_refl. unfold rotated. apply last_snoc.
  - eexists w1, _, L1, q1. split; [done|]. split; [done|]. split; [done|]. exists w1, c1, L1, q1, l. do 4 (split; [done|]). split; [done|]. intros Hsh. by apply Hb in Hsh.
Qed.
End Account.

(** ** The CPU of RtRun.v *)

Definition holds_some {A} (o : option A) : bool := match o with Some _ => true | None => false end.
Definition accounts_b (span : list Z) (w : rq) : bool :=
  forallb (fun x => match groups w !! tg x.2 with Some g => holds_some (rt_rqs g !! cpu w) && forallb (fun i => holds_some (rt_rqs g !! i)) span | None => false end &&
    forallb (fun y => negb (tg y.2 =? tg x.2) || (y.1 =? x.1)) (map_to_list (rqs w)) &&
    match rt_se_of w !! tg x.2 with Some e => match ses w !! e with Some s => match my_q s with Some g => g =? x.1 | None => false end | None => false end | None => x.1 =? top w end) (map_to_list (rqs w)).

Lemma accounts_check span w : accounts_b span w = true -> accounts (span := span) w.
Proof.
  unfold accounts_b. rewrite forallb_forall. intros HF.
  assert (HL : forall r R, rqs w !! r = Some R -> In (r, R) (map_to_list (rqs w))) by (intros r R HR; by apply list_elem_of_In, elem_of_map_to_list).
  split.
  - intros r R HR. specialize (HF (r, R) (HL r R HR)). rewrite !andb_true_iff in HF. destruct HF as [[HG _] _]. cbn in HG. destruct (groups w !! tg R) as [g|]; [|done]. apply andb_true_iff in HG as [H1 H2]. destruct (rt_rqs g !! cpu w) as [a|] eqn:Ea; [|done].
    exists g, a. split; [done|]. split; [done|]. intros i Hi. rewrite forallb_forall in H2. apply list_elem_of_In in Hi. specialize (H2 i Hi). destruct (rt_rqs g !! i); [by eexists|done].
  - intros r R r' R' HR HR' E. specialize (HF (r, R) (HL r R HR)). rewrite !andb_true_iff in HF. destruct HF as [[_ HU] _]. rewrite forallb_forall in HU. specialize (HU (r', R') (HL r' R' HR')). cbn in HU. rewrite E, Z.eqb_refl in HU. by apply Z.eqb_eq.
  - intros r R HR. specialize (HF (r, R) (HL r R HR)). rewrite !andb_true_iff in HF. destruct HF as [_ HS]. cbn in HS. unfold stands_for. destruct (rt_se_of w !! tg R) as [e|]; [|by apply Z.eqb_eq].
    destruct (ses w !! e) as [s|]; [|done]. destruct (my_q s) as [g|] eqn:Eg; [|done]. apply Z.eqb_eq in HS as ->. by exists s.
Qed.

Lemma busy_accounts : accounts (span := [1]) busy_cpu.
Proof. apply accounts_check. by vm_compute. Qed.

Local Abbreviation rests := (at_rest (possible := all_cpus) (rank := idle_rank) (room := idle_room)).

Lemma rt_accounting_correct_witness : exists w' c' L' q', update_curr_rt true true [1] busy_cpu (mk_curr 0 7 1) true 500 1000 = Ok (w', c') /\ rests w' L' q' 3 /\ exec_start c' = 1000 /\ sum_exec_runtime c' = 1007 /\ exists l ts, path (bare <$> ses busy_cpu) 500 l /\ groups_of busy_cpu l ts /\ charged_all (cpu busy_cpu) 1000 ts (groups busy_cpu) (groups w').
Proof.
  destruct busy_at_rest as (L & q & A). destruct (ses busy_cpu !! 500) as [s|] eqn:Hs; [|by vm_compute in Hs].
  destruct (rt_accounting_correct (enabled := true) (share := true) (span := [1]) busy_cpu L q 3 A busy_accounts) as [HU _]. destruct (HU (mk_curr 0 7 1) true 500 s 1000 Hs) as (w' & c' & L' & q' & E & A' & _ & _ & H1 & H2 & H3).
  exists w', c', L', q'. exact (conj E (conj A' (conj H1 (conj H2 H3)))).
Defined.

Lemma task_tick_rt_correct_witness : exists w' c' L' q', task_tick_rt true true [1] busy_cpu (mk_curr 0 7 1) 500 20 25 = Ok (w', c') /\ rests w' L' q' 3 /\ time_slice c' = 25.
Proof.
  destruct busy_at_rest as (L & q & A). destruct (ses busy_cpu !! 500) as [s|] eqn:Hs; [|by vm_compute in Hs]. assert (Es := Hs). vm_compute in Es. injection Es as Es.
  destruct (task_tick_rt_correct (enabled := true) (share := true) (span := [1]) busy_cpu L q 3 (mk_curr 0 7 1) 500 s 20 25 A busy_accounts Hs) as (w' & c' & L' & q' & E & A' & _ & w1 & c1 & L1 & q1 & l & _ & _ & _ & HI); [by rewrite <- Es|].
  rewrite <- Es in HI. exists w', c', L', q'. exact (conj E (conj A' (proj1 HI))).
Defined.
