(* ===== verification/Deadline.v ===== *)
(** * The deadline class: reservations and admission (kernel/sched/deadline.c)

    Parameters of a reservation, the utilisation a root domain has handed out, and the
    rules of the constant bandwidth server.  The clock of the run queue is an argument; so is
    whether a timer is active or could be armed, which the repository stubs.  [pi_se] is the
    entity whose parameters count: the task itself unless it is boosted. *)

From stdpp Require Import gmap list.
From S2P Require Import Prelude Math64.
Local Open Scope Z_scope.
Local Open Scope res_scope.

Definition BW_SHIFT : Z := 20.
Definition BW_UNIT : Z := 1048576.
Definition RATIO_SHIFT : Z := 8.
Definition DL_SCALE : Z := 10.
Definition SCHED_FLAG_RECLAIM : Z := 2.
Definition SCHED_FLAG_DL_OVERRUN : Z := 4.
Definition SCHED_FLAG_SUGOV : Z := 268435456.

Record sched_dl_entity := mk_dl_se {
  dl_runtime : Z; dl_deadline : Z; dl_period : Z; dl_bw_of_se : Z; dl_density : Z;
  runtime : Z; deadline : Z; dl_flags : Z;
  dl_throttled : bool; dl_boosted : bool; dl_yielded : bool; dl_non_contending : bool; dl_overrun : bool }.

Record sched_attr := mk_attr { sched_flags : Z; sched_runtime : Z; sched_deadline : Z; sched_period : Z }.

(** The utilisation of a run queue. *)
Record dl_rq := mk_dl_rq { running_bw : Z; this_bw : Z; extra_bw : Z; bw_ratio : Z }.

(** The utilisation of a root domain: the limit per CPU and the total (struct dl_bw), with the
    run queues of the CPUs of its span that are active. *)
Record root_domain := mk_rd { bw : Z; total_bw : Z; rqs : gmap Z dl_rq }.

Definition set_budget (e : sched_dl_entity) (r d : Z) : sched_dl_entity :=
  mk_dl_se (dl_runtime e) (dl_deadline e) (dl_period e) (dl_bw_of_se e) (dl_density e) r d (dl_flags e)
    (dl_throttled e) (dl_boosted e) (dl_yielded e) (dl_non_contending e) (dl_overrun e).
Definition set_throttled (e : sched_dl_entity) (throttled yielded overrun : bool) : sched_dl_entity :=
  mk_dl_se (dl_runtime e) (dl_deadline e) (dl_period e) (dl_bw_of_se e) (dl_density e) (runtime e) (deadline e) (dl_flags e)
    throttled (dl_boosted e) yielded (dl_non_contending e) overrun.
Definition set_non_contending (e : sched_dl_entity) (v : bool) : sched_dl_entity :=
  mk_dl_se (dl_runtime e) (dl_deadline e) (dl_period e) (dl_bw_of_se e) (dl_density e) (runtime e) (deadline e) (dl_flags e)
    (dl_throttled e) (dl_boosted e) (dl_yielded e) v (dl_overrun e).

(** ** Parameters *)

Definition to_ratio (period runtime : Z) : Z :=
  if runtime =? RUNTIME_INF then BW_UNIT
  else if period =? 0 then 0
  else div64_u64 (u64 (Z.shiftl runtime BW_SHIFT)) period.

Definition __checkparam_dl (a : sched_attr) : bool :=
  if negb (Z.land (sched_flags a) SCHED_FLAG_SUGOV =? 0) then true
  else if sched_deadline a =? 0 then false
  else if sched_runtime a <? u64 (Z.shiftl 1 DL_SCALE) then false
  else if negb (Z.land (sched_deadline a) (Z.shiftl 1 63) =? 0) || negb (Z.land (sched_period a) (Z.shiftl 1 63) =? 0) then false
  else if (negb (sched_period a =? 0) && (sched_period a <? sched_deadline a)) || (sched_deadline a <? sched_runtime a) then false
  else true.

Definition __setparam_dl (e : sched_dl_entity) (a : sched_attr) : sched_dl_entity :=
  let period := if negb (sched_period a =? 0) then sched_period a else sched_deadline a in
  mk_dl_se (sched_runtime a) (sched_deadline a) period (to_ratio period (sched_runtime a)) (to_ratio (sched_deadline a) (sched_runtime a))
    (runtime e) (deadline e) (sched_flags a) (dl_throttled e) (dl_boosted e) (dl_yielded e) (dl_non_contending e) (dl_overrun e).

Definition __getparam_dl (e : sched_dl_entity) : sched_attr := mk_attr (dl_flags e) (dl_runtime e) (dl_deadline e) (dl_period e).

Definition dl_param_changed (e : sched_dl_entity) (a : sched_attr) : bool :=
  negb (dl_runtime e =? sched_runtime a) || negb (dl_deadline e =? sched_deadline a) || negb (dl_period e =? sched_period a)
  || negb (dl_flags e =? sched_flags a).

Definition __dl_clear_params (e : sched_dl_entity) : sched_dl_entity :=
  mk_dl_se 0 0 0 0 0 (runtime e) (deadline e) 0 false (dl_boosted e) false false false.

(** ** Utilisation of a domain *)

Definition add_extra (d : Z) (r : dl_rq) : dl_rq := mk_dl_rq (running_bw r) (this_bw r) (u64 (extra_bw r + d)) (bw_ratio r).
Definition __dl_update (d : root_domain) (delta : Z) : root_domain := mk_rd (bw d) (total_bw d) (add_extra delta <$> rqs d).
Definition __dl_sub (d : root_domain) (tsk_bw cpus : Z) : root_domain :=
  __dl_update (mk_rd (bw d) (u64 (total_bw d - tsk_bw)) (rqs d)) (Z.quot (s32 tsk_bw) cpus).
Definition __dl_add (d : root_domain) (tsk_bw cpus : Z) : root_domain :=
  __dl_update (mk_rd (bw d) (u64 (total_bw d + tsk_bw)) (rqs d)) (- Z.quot (s32 tsk_bw) cpus).
Definition __dl_overflow (d : root_domain) (cpus old_bw new_bw : Z) : bool :=
  negb (bw d =? 18446744073709551615) && (u64 (bw d * cpus) <? u64 (u64 (total_bw d - old_bw) + new_bw)).

Definition dl_bw_cpus (d : root_domain) : Z := Z.of_nat (size (rqs d)).

Record rt_sysctl := mk_rt_sysctl { sysctl_sched_rt_period : Z; sysctl_sched_rt_runtime : Z }.
Definition global_rt_period (s : rt_sysctl) : Z := u64 (sysctl_sched_rt_period s * 1000).
Definition global_rt_runtime (s : rt_sysctl) : Z :=
  if sysctl_sched_rt_runtime s <? 0 then RUNTIME_INF else u64 (sysctl_sched_rt_runtime s * 1000).

Definition global_bw (s : rt_sysctl) : Z :=
  if global_rt_runtime s =? RUNTIME_INF then 18446744073709551615 else to_ratio (global_rt_period s) (global_rt_runtime s).
Definition init_dl_bw (s : rt_sysctl) (queues : gmap Z dl_rq) : root_domain := mk_rd (global_bw s) 0 queues.

Definition init_dl_rq_bw_ratio (s : rt_sysctl) (r : dl_rq) : dl_rq :=
  if global_rt_runtime s =? RUNTIME_INF then mk_dl_rq (running_bw r) (this_bw r) (Z.shiftl 1 BW_SHIFT) (Z.shiftl 1 RATIO_SHIFT)
  else
    mk_dl_rq (running_bw r) (this_bw r) (to_ratio (global_rt_period s) (global_rt_runtime s))
      (Z.shiftr (to_ratio (global_rt_runtime s) (global_rt_period s)) (BW_SHIFT - RATIO_SHIFT)).

(** The deadline part of [init_dl_rq]. *)
Definition init_dl_rq (s : rt_sysctl) : dl_rq := init_dl_rq_bw_ratio s (mk_dl_rq 0 0 0 0).

(** Over the root domains of the possible CPUs, the first failure ends the loop. *)
Fixpoint sched_dl_global_validate (s : rt_sysctl) (domains : list root_domain) : Z :=
  match domains with
  | [] => 0
  | d :: domains =>
      if to_ratio (global_rt_period s) (global_rt_runtime s) <? total_bw d then - EBUSY else sched_dl_global_validate s domains
  end.

(** The domain's limit is set once per CPU of it, the ratios of each run queue once. *)
Definition sched_dl_do_global (s : rt_sysctl) (d : root_domain) : root_domain :=
  mk_rd (global_bw s) (total_bw d) (init_dl_rq_bw_ratio s <$> rqs d).

(** ** Utilisation of a run queue *)

Definition set_bws (r : dl_rq) (running this : Z) : dl_rq := mk_dl_rq running this (extra_bw r) (bw_ratio r).
Definition __add_running_bw (b : Z) (r : dl_rq) : dl_rq := set_bws r (u64 (running_bw r + b)) (this_bw r).
Definition __sub_running_bw (b : Z) (r : dl_rq) : dl_rq :=
  let new := u64 (running_bw r - b) in set_bws r (if new >? running_bw r then 0 else new) (this_bw r).
Definition __add_rq_bw (b : Z) (r : dl_rq) : dl_rq := set_bws r (running_bw r) (u64 (this_bw r + b)).
Definition __sub_rq_bw (b : Z) (r : dl_rq) : dl_rq :=
  let new := u64 (this_bw r - b) in set_bws r (running_bw r) (if new >? this_bw r then 0 else new).

(** The entities of the threads of the frequency governor, which are not accounted. *)
Definition dl_entity_is_special (e : sched_dl_entity) : bool := negb (Z.land (dl_flags e) SCHED_FLAG_SUGOV =? 0).

Definition add_rq_bw (e : sched_dl_entity) (r : dl_rq) : dl_rq := if negb (dl_entity_is_special e) then __add_rq_bw (dl_bw_of_se e) r else r.
Definition sub_rq_bw (e : sched_dl_entity) (r : dl_rq) : dl_rq := if negb (dl_entity_is_special e) then __sub_rq_bw (dl_bw_of_se e) r else r.
Definition add_running_bw (e : sched_dl_entity) (r : dl_rq) : dl_rq := if negb (dl_entity_is_special e) then __add_running_bw (dl_bw_of_se e) r else r.
Definition sub_running_bw (e : sched_dl_entity) (r : dl_rq) : dl_rq := if negb (dl_entity_is_special e) then __sub_running_bw (dl_bw_of_se e) r else r.

(** An update of the run queue of a CPU. *)
Definition on_cpu (d : root_domain) (cpu : Z) (f : dl_rq -> dl_rq) : root_domain := mk_rd (bw d) (total_bw d) (alter f cpu (rqs d)).

(** ** Theorems on the parameters *)

Definition ratio (period runtime : Z) : Z := (runtime * BW_UNIT) / period.

Lemma to_ratio_ok period runtime : 0 < period -> 0 <= runtime < 2 ^ 44 -> to_ratio period runtime = ratio period runtime.
Proof.
  intros Hp Hr. unfold to_ratio, ratio. destruct (runtime =? RUNTIME_INF) eqn:E; [unfold RUNTIME_INF in E; zbool; lia|].
  destruct (period =? 0) eqn:E'; [zbool; lia|]. rewrite Z.shiftl_mul_pow2 by (unfold BW_SHIFT; lia).
  unfold div64_u64, BW_SHIFT, BW_UNIT. change (2 ^ 20) with 1048576. rewrite u64_small by lia. reflexivity.
Qed.

(** A reservation that passes [__checkparam_dl] asks for at most one CPU. *)
Record attr_ok (a : sched_attr) : Prop := {
  ao_runtime : 1024 <= sched_runtime a <= sched_deadline a; ao_deadline : sched_deadline a < 2 ^ 63;
  ao_period : sched_period a = 0 \/ sched_deadline a <= sched_period a < 2 ^ 63 }.

Definition u64_attr (a : sched_attr) : Prop :=
  0 <= sched_runtime a < 2 ^ 64 /\ 0 <= sched_deadline a < 2 ^ 64 /\ 0 <= sched_period a < 2 ^ 64.

Lemma msb_clear x : 0 <= x < 2 ^ 64 -> (Z.land x (Z.shiftl 1 63) =? 0) = (x <? 2 ^ 63).
Proof.
  intros H. rewrite Z.shiftl_1_l. destruct (Z.ltb_spec x (2 ^ 63)); zbool.
  - apply Z.eqb_eq, Z.bits_inj'. intros n Hn. rewrite Z.land_spec, Z.bits_0, Z.pow2_bits_eqb by lia.
    destruct (Z.eqb_spec 63 n) as [<-|]; [|apply andb_false_r]. rewrite andb_true_r. apply Z.bits_above_log2; [lia|].
    destruct (Z.eq_dec x 0) as [->|]; [done|apply Z.log2_lt_pow2; lia].
  - apply Z.eqb_neq. intros E0. assert (T : Z.testbit (Z.land x (2 ^ 63)) 63 = false) by (rewrite E0; apply Z.bits_0).
    rewrite Z.land_spec, Z.pow2_bits_true, andb_true_r, Z.testbit_false in T by lia.
    replace (x / 2 ^ 63) with 1 in T by (apply (Z.div_unique _ _ _ (x - 2 ^ 63)); lia). discriminate.
Qed.

(** [__checkparam_dl] accepts exactly the reservations its comment describes. *)
Lemma checkparam_iff a : u64_attr a -> Z.land (sched_flags a) SCHED_FLAG_SUGOV = 0 -> __checkparam_dl a = true <-> attr_ok a.
Proof.
  intros (H1 & H2 & H3) F. unfold __checkparam_dl. rewrite F. cbn [Z.eqb negb].
  rewrite !msb_clear by done. change (u64 (Z.shiftl 1 DL_SCALE)) with 1024. split.
  - intros H. repeat case_match; zbool; try done. split; lia.
  - intros [G1 G2 G3]. repeat case_match; zbool; try done; try lia.
Qed.

Definition period_of (a : sched_attr) : Z := if negb (sched_period a =? 0) then sched_period a else sched_deadline a.

Lemma to_ratio_range period runtime : 0 <= runtime <= period -> period < 2 ^ 63 -> 0 <= to_ratio period runtime <= BW_UNIT.
Proof.
  intros Hr Hp. unfold to_ratio. case_match eqn:E; [unfold BW_UNIT; lia|]. case_match eqn:E'; [unfold BW_UNIT; lia|]. zbool.
  rewrite Z.shiftl_mul_pow2 by (unfold BW_SHIFT; lia). change (2 ^ BW_SHIFT) with 1048576. unfold div64_u64, BW_UNIT.
  pose proof (u64_range (runtime * 1048576)). split; [apply Z.div_pos; lia|].
  assert (u64 (runtime * 1048576) <= runtime * 1048576) by (apply Z.mod_le; lia).
  apply Z.div_le_upper_bound; lia.
Qed.

Lemma attr_ratio a : attr_ok a -> 0 <= to_ratio (period_of a) (sched_runtime a) <= BW_UNIT.
Proof. intros [H1 H2 H3]. apply to_ratio_range; unfold period_of; case_match; zbool; lia. Qed.
