(* ===== verification/DeadlineBw.v ===== *)
(** * The deadline class: utilisation as tasks come, block, wake and leave

    A blocked task keeps contributing to the active utilisation of its run queue until its
    0-lag time; a task that leaves the class keeps its share of the root domain until then.
    Both are ended by the inactive timer.  The timer is the kernel's high resolution timer,
    which the repository stubs: [HrTimer] states what its documentation promises.  Time,
    budgets and absolute deadlines are free here (DeadlineServer.v has their rules). *)

From stdpp Require Import gmap list.
From S2P Require Import Prelude Sums Math64 Deadline.
Local Open Scope Z_scope.
Local Open Scope res_scope.

(** A timer is active from its start until its handler has returned or it is cancelled;
    cancelling fails, and changes nothing, while the handler is running. *)
Class HrTimer (T : Type) := {
  hrtimer_idle : T; hrtimer_active : T -> bool; hrtimer_start : T -> T; hrtimer_try_to_cancel : T -> T;
  hrtimer_expire : T -> T; hrtimer_done : T -> T;
  idle_inactive : hrtimer_active hrtimer_idle = false;
  start_active t : hrtimer_active (hrtimer_start t) = true;
  cancel_or_running t : hrtimer_active (hrtimer_try_to_cancel t) = false \/ hrtimer_try_to_cancel t = t;
  expire_active t : hrtimer_active (hrtimer_expire t) = hrtimer_active t;
  done_inactive t : hrtimer_active (hrtimer_done t) = false }.

Definition SCHED_FLAG_KEEP_PARAMS : Z := 16.
Definition SCHED_FLAG_UTIL_CLAMP : Z := 96.
Definition SCHED_FLAG_ALL : Z := 127.
Definition EOPNOTSUPP : Z := 95.

Section Bandwidth.
Context `{HrTimer T}.

(** [dead]: the task's state is TASK_DEAD. *)
Record dl_task := mk_task { dl : sched_dl_entity; cpu : Z; has_policy : bool; queued : bool; dead : bool; timer : T }.

Definition set_dl (t : dl_task) (e : sched_dl_entity) : dl_task := mk_task e (cpu t) (has_policy t) (queued t) (dead t) (timer t).
Definition set_timer (t : dl_task) (x : T) : dl_task := mk_task (dl t) (cpu t) (has_policy t) (queued t) (dead t) x.
Definition set_queued (t : dl_task) (q dead : bool) : dl_task := mk_task (dl t) (cpu t) (has_policy t) q dead (timer t).
Definition set_policy (t : dl_task) (p : bool) : dl_task := mk_task (dl t) (cpu t) p (queued t) (dead t) (timer t).

Definition dl_change_utilization (d : root_domain) (t : dl_task) (new_bw : Z) : res (root_domain * dl_task) :=
  if negb (Z.land (dl_flags (dl t)) SCHED_FLAG_SUGOV =? 0) then Fault BugOn
  else if queued t then Ok (d, t)
  else
    let '(d, t) :=
      if dl_non_contending (dl t) then
        (on_cpu d (cpu t) (sub_running_bw (dl t)),
         set_timer (set_dl t (set_non_contending (dl t) false)) (hrtimer_try_to_cancel (timer t)))
      else (d, t) in
    let d := on_cpu d (cpu t) (__sub_rq_bw (dl_bw_of_se (dl t))) in
    Ok (on_cpu d (cpu t) (__add_rq_bw new_bw), t).

Definition sched_dl_overflow (d : root_domain) (t : dl_task) (policy : bool) (a : sched_attr) : res (Z * root_domain * dl_task) :=
  let new_bw := if policy then to_ratio (period_of a) (sched_runtime a) else 0 in
  if negb (Z.land (sched_flags a) SCHED_FLAG_SUGOV =? 0) then Ok (0, d, t)
  else if (new_bw =? dl_bw_of_se (dl t)) && has_policy t then Ok (0, d, t)
  else
    let cpus := dl_bw_cpus d in
    if policy && negb (has_policy t) && negb (__dl_overflow d cpus 0 new_bw) then
      let d := if hrtimer_active (timer t) then __dl_sub d (dl_bw_of_se (dl t)) cpus else d in
      Ok (0, __dl_add d new_bw cpus, t)
    else if policy && has_policy t && negb (__dl_overflow d cpus (dl_bw_of_se (dl t)) new_bw) then
      let d := __dl_add (__dl_sub d (dl_bw_of_se (dl t)) cpus) new_bw cpus in
      '(d, t) <-- dl_change_utilization d t new_bw;
      Ok (0, d, t)
    else if negb policy && has_policy t then Ok (0, d, t)
    else Ok (-1, d, t).

(** The time until the 0-lag time; the product is computed in 64 bits. *)
Definition zerolag_time (e : sched_dl_entity) (clock : Z) : Z :=
  let z := s64 (deadline e - div64_s64 (s64 (runtime e * dl_period e)) (dl_runtime e)) in
  s64 (z - clock).

Definition task_non_contending (d : root_domain) (t : dl_task) (clock : Z) : root_domain * dl_task :=
  if dl_runtime (dl t) =? 0 then (d, t)
  else if dl_entity_is_special (dl t) then (d, t)
  else if (zerolag_time (dl t) clock <? 0) || hrtimer_active (timer t) then
    let d := if has_policy t then on_cpu d (cpu t) (sub_running_bw (dl t)) else d in
    if negb (has_policy t) || dead t then
      let d := if dead t then on_cpu d (cpu t) (sub_rq_bw (dl t)) else d in
      (__dl_sub d (dl_bw_of_se (dl t)) (dl_bw_cpus d), set_dl t (__dl_clear_params (dl t)))
    else (d, t)
  else (d, set_timer (set_dl t (set_non_contending (dl t) true)) (hrtimer_start (timer t))).

Definition task_contending (d : root_domain) (t : dl_task) (migrated : bool) : root_domain * dl_task :=
  if dl_runtime (dl t) =? 0 then (d, t)
  else
    let d := if migrated then on_cpu d (cpu t) (add_rq_bw (dl t)) else d in
    if dl_non_contending (dl t) then
      (d, set_timer (set_dl t (set_non_contending (dl t) false)) (hrtimer_try_to_cancel (timer t)))
    else (on_cpu d (cpu t) (add_running_bw (dl t)), t).

(** The handler of the inactive timer. *)
Definition inactive_task_timer (d : root_domain) (t : dl_task) : root_domain * dl_task :=
  let '(d, t) :=
    if negb (has_policy t) || dead t then
      let '(d, t) :=
        if dead t && dl_non_contending (dl t) then
          (on_cpu (on_cpu d (cpu t) (sub_running_bw (dl t))) (cpu t) (sub_rq_bw (dl t)),
           set_dl t (set_non_contending (dl t) false))
        else (d, t) in
      (__dl_sub d (dl_bw_of_se (dl t)) (dl_bw_cpus d), set_dl t (__dl_clear_params (dl t)))
    else if negb (dl_non_contending (dl t)) then (d, t)
    else (on_cpu d (cpu t) (sub_running_bw (dl t)), set_dl t (set_non_contending (dl t) false)) in
  (d, set_timer t (hrtimer_done (timer t))).

(** Of the two class hooks, what they do to utilisation and timer. *)
Definition switched_from_dl (d : root_domain) (t : dl_task) (clock : Z) : root_domain * dl_task :=
  let '(d, t) := if queued t && negb (dl_runtime (dl t) =? 0) then task_non_contending d t clock else (d, t) in
  let d :=
    if negb (queued t) then
      let d := if dl_non_contending (dl t) then on_cpu d (cpu t) (sub_running_bw (dl t)) else d in
      on_cpu d (cpu t) (sub_rq_bw (dl t))
    else d in
  (d, if dl_non_contending (dl t) then set_dl t (set_non_contending (dl t) false) else t).

Definition switched_to_dl (d : root_domain) (t : dl_task) : root_domain * dl_task :=
  let t := set_timer t (hrtimer_try_to_cancel (timer t)) in
  if negb (queued t) then (on_cpu d (cpu t) (add_rq_bw (dl t)), t) else (d, t).

(** [__setscheduler] on a task: its parameters, its policy, and the class that follows from it. *)
Definition __setscheduler (t : dl_task) (policy : bool) (a : sched_attr) : dl_task :=
  if negb (Z.land (sched_flags a) SCHED_FLAG_KEEP_PARAMS =? 0) then t
  else set_policy (if policy then set_dl t (__setparam_dl (dl t) a) else t) policy.

Definition check_class_changed (d : root_domain) (t : dl_task) (prev : bool) (clock : Z) : root_domain * dl_task :=
  if Bool.eqb prev (has_policy t) then (d, t)
  else if prev then switched_from_dl d t clock
  else switched_to_dl d t.

(** The second half of [__sched_setscheduler]: a queued task is taken off its class and put
    back after the change. *)
Definition change_class (d : root_domain) (t : dl_task) (policy : bool) (a : sched_attr) (clock : Z) : root_domain * dl_task :=
  let prev := has_policy t in
  let d := if queued t && prev then on_cpu (on_cpu d (cpu t) (sub_running_bw (dl t))) (cpu t) (sub_rq_bw (dl t)) else d in
  let t := __setscheduler t policy a in
  let d := if queued t && has_policy t then on_cpu (on_cpu d (cpu t) (add_rq_bw (dl t))) (cpu t) (add_running_bw (dl t)) else d in
  check_class_changed d t prev clock.

(** [__sched_setscheduler] from the kernel, between the deadline class ([policy]) and the
    others. *)
Definition __sched_setscheduler (d : root_domain) (t : dl_task) (policy : bool) (a : sched_attr) (clock : Z) : res (Z * root_domain * dl_task) :=
  if negb (Z.land (sched_flags a) (Z.lnot (Z.lor SCHED_FLAG_ALL SCHED_FLAG_SUGOV)) =? 0) then Ok (- EINVAL, d, t)
  else if policy && negb (__checkparam_dl a) then Ok (- EINVAL, d, t)
  else if negb (Z.land (sched_flags a) SCHED_FLAG_UTIL_CLAMP =? 0) then Ok (- EOPNOTSUPP, d, t)
  else if Bool.eqb policy (has_policy t) && negb (policy && dl_param_changed (dl t) a) then Ok (0, d, t)
  else
    '(err, d, t) <-- sched_dl_overflow d t policy a;
    if negb (err =? 0) then Ok (- EBUSY, d, t)
    else
      let '(d, t) := change_class d t policy a clock in
      Ok (0, d, t).

(** ** The machine *)

(** A blocked, woken or dying task of the class; the inactive timer; a change of policy or
    parameters; and anything that happens to a task's budget and deadline. *)
Inductive dl_op :=
| Setattr (policy : bool) (a : sched_attr) (clock : Z)
| Block (dies : bool) (clock : Z)
| Wake
| Expire
| Fire
| Budget (runtime deadline : Z).

(** What an operation does to its task, or [None] where it cannot happen: a task blocks when
    it is queued, and wakes when it is not; the handler runs when the timer is active; the
    dead are left alone. *)
Definition dl_do (o : dl_op) (d : root_domain) (t : dl_task) : res (option (Z * root_domain * dl_task)) :=
  match o with
  | Setattr policy a clock =>
      if dead t then Ok None else r <-- __sched_setscheduler d t policy a clock; Ok (Some r)
  | Block dies clock =>
      if negb (queued t) || negb (has_policy t) then
        Ok (if dead t || has_policy t then None else Some (0, d, set_queued t false dies))
      else
        let '(d, t) := task_non_contending d (set_queued t true dies) clock in
        Ok (Some (0, d, set_queued t false dies))
  | Wake =>
      if queued t || dead t then Ok None
      else
        let '(d, t) := if has_policy t then task_contending d t false else (d, t) in
        Ok (Some (0, d, set_queued t true false))
  | Expire => Ok (Some (0, d, set_timer t (hrtimer_expire (timer t))))
  | Fire => Ok (if hrtimer_active (timer t) then let '(d, t) := inactive_task_timer d t in Some (0, d, t) else None)
  | Budget r dline => Ok (Some (0, d, set_dl t (set_budget (dl t) r dline)))
  end.

(** [leaked] is the bandwidth of the tasks that left the class while they were inactive;
    special entities have no part in it. *)
Record machine := mk_machine { domain : root_domain; tasks : gmap Z dl_task; leaked : list Z }.

Definition leaks (t t' : dl_task) : list Z :=
  if negb (dl_entity_is_special (dl t)) && (has_policy t && negb (has_policy t') && negb (queued t) && negb (hrtimer_active (timer t))) then [dl_bw_of_se (dl t)] else [].

Definition dl_step (m : machine) (po : Z * dl_op) : res machine :=
  match tasks m !! po.1 with
  | None => Ok m
  | Some t =>
      r <-- dl_do po.2 (domain m) t;
      Ok match r with None => m | Some (_, d, t') => mk_machine d (<[po.1 := t']> (tasks m)) (leaks t t' ++ leaked m) end
  end.

Fixpoint dl_run (m : machine) (l : list (Z * dl_op)) : res machine :=
  match l with [] => Ok m | po :: l => m <-- dl_step m po; dl_run m l end.

(** ** The effect of an operation on the counters *)

(** [d'] is [d] with the utilisations of [c] and of the domain changed by the given amounts. *)
Record moved (d d' : root_domain) (c dr dt dT dE : Z) : Prop := {
  mv_bw : bw d' = bw d; mv_total : total_bw d' = total_bw d + dT; mv_dom : dom (rqs d') = dom (rqs d);
  mv_rq k r' : rqs d' !! k = Some r' -> exists r, rqs d !! k = Some r /\
    running_bw r' = running_bw r + (if k =? c then dr else 0) /\ this_bw r' = this_bw r + (if k =? c then dt else 0) /\
    u64 (extra_bw r') = u64 (extra_bw r + dE) }.

Lemma moved_refl d c : moved d d c 0 0 0 0.
Proof. split; [done|lia|done|]. intros k r' E. exists r'. rewrite Z.add_0_r. repeat split; [done|destruct (_ =? _); lia..]. Qed.

Lemma moved_trans {d d1 d2 c r1 t1 T1 E1 r2 t2 T2 E2} : moved d d1 c r1 t1 T1 E1 -> moved d1 d2 c r2 t2 T2 E2 ->
  forall r t T E, r = r1 + r2 -> t = t1 + t2 -> T = T1 + T2 -> E = E1 + E2 -> moved d d2 c r t T E.
Proof.
  intros [A1 A2 A3 A4] [B1 B2 B3 B4] r t T' E -> -> -> ->. split; [congruence|lia|congruence|].
  intros k r' Hk. destruct (B4 k r' Hk) as (r0 & Hk0 & F1 & F2 & F3). destruct (A4 k r0 Hk0) as (r00 & Hk00 & G1 & G2 & G3).
  exists r00. split; [done|]. split; [destruct (_ =? _); lia|]. split; [destruct (_ =? _); lia|].
  rewrite F3. unfold u64 in *. rewrite <- Zplus_mod_idemp_l, G3, Zplus_mod_idemp_l. f_equal. lia.
Qed.

Lemma on_cpu_moved d c dr dt f : (forall r, rqs d !! c = Some r -> f r = set_bws r (running_bw r + dr) (this_bw r + dt)) ->
  moved d (on_cpu d c f) c dr dt 0 0.
Proof.
  intros Hf. split; [done|cbn; lia|cbn; apply dom_alter_L|]. intros k r' Hk. cbn in Hk. destruct (Z.eqb_spec k c) as [->|Hne].
  - rewrite lookup_alter_eq in Hk. destruct (rqs d !! c) as [r|] eqn:E; [|done]. cbn in Hk. injection Hk as <-.
    exists r. rewrite (Hf r eq_refl), Z.add_0_r. done.
  - rewrite lookup_alter_ne in Hk by done. exists r'. rewrite !Z.add_0_r. done.
Qed.

Lemma moved_as {d d' c r1 t1 T1 E1} : moved d d' c r1 t1 T1 E1 -> forall r t T E, r = r1 -> t = t1 -> T = T1 -> E = E1 -> moved d d' c r t T E.
Proof. by intros M r t T' E -> -> -> ->. Qed.

(** The counters are at least a task's part in them and at most [u]. *)
Record room (u : Z) (d : root_domain) (c a m tot : Z) : Prop := {
  rm_rq r : rqs d !! c = Some r -> a <= running_bw r <= u /\ m <= this_bw r <= u; rm_total : tot <= total_bw d <= u;
  rm_cpus : 0 < dl_bw_cpus d; rm_small : 0 <= a /\ 0 <= m /\ 0 <= tot /\ u <= 2 ^ 62 }.

Lemma moved_cpus {d d' c dr dt dT dE} : moved d d' c dr dt dT dE -> dl_bw_cpus d' = dl_bw_cpus d.
Proof. intros [_ _ E _]. unfold dl_bw_cpus. by rewrite <- !size_dom, E. Qed.

Lemma room_moved {u d d' c a m tot dr dt dT dE} u' a' m' tot' : room u d c a m tot -> moved d d' c dr dt dT dE ->
  a' = a + dr -> m' = m + dt -> tot' = tot + dT -> 0 <= a' -> 0 <= m' -> 0 <= tot' -> u + dr <= u' -> u + dt <= u' -> u + dT <= u' -> u' <= 2 ^ 62 ->
  room u' d' c a' m' tot'.
Proof.
  intros [R1 R2 R3 R4] M -> -> -> H1 H2 H3 H4 H5 H6 H7. split; [|destruct M as [_ Et _ _]; lia|by rewrite (moved_cpus M)|lia].
  intros r' Hr'. destruct (mv_rq _ _ _ _ _ _ _ M _ _ Hr') as (r & Hr & E1 & E2 & _). rewrite Z.eqb_refl in E1, E2.
  pose proof (R1 r Hr). lia.
Qed.

Definition share (d : root_domain) (b : Z) : Z := b / dl_bw_cpus d.

(** An entity that is accounted: not one of the governor's. *)
Definition plain (e : sched_dl_entity) : Prop := Z.land (dl_flags e) SCHED_FLAG_SUGOV = 0.

Lemma plain_not_special e : plain e -> dl_entity_is_special e = false.
Proof. unfold plain, dl_entity_is_special. by intros ->. Qed.

Lemma special_not_plain e : dl_entity_is_special e = true <-> ~ plain e.
Proof. unfold plain, dl_entity_is_special. rewrite negb_true_iff. destruct (Z.eqb_spec (Z.land (dl_flags e) SCHED_FLAG_SUGOV) 0); split; congruence. Qed.

Lemma plain_sub_running e : plain e -> forall r, sub_running_bw e r = __sub_running_bw (dl_bw_of_se e) r.
Proof. intros Hs r. unfold sub_running_bw. by rewrite plain_not_special. Qed.
Lemma plain_add_running e : plain e -> forall r, add_running_bw e r = __add_running_bw (dl_bw_of_se e) r.
Proof. intros Hs r. unfold add_running_bw. by rewrite plain_not_special. Qed.
Lemma plain_sub_rq e : plain e -> forall r, sub_rq_bw e r = __sub_rq_bw (dl_bw_of_se e) r.
Proof. intros Hs r. unfold sub_rq_bw. by rewrite plain_not_special. Qed.
Lemma plain_add_rq e : plain e -> forall r, add_rq_bw e r = __add_rq_bw (dl_bw_of_se e) r.
Proof. intros Hs r. unfold add_rq_bw. by rewrite plain_not_special. Qed.

Lemma on_cpu_ext d c f g : (forall r, f r = g r) -> on_cpu d c f = on_cpu d c g.
Proof. intros E. unfold on_cpu. f_equal. apply alter_ext. intros. apply E. Qed.

Lemma on_cpu_id d c f : (forall r, f r = r) -> on_cpu d c f = d.
Proof. intros E. unfold on_cpu. rewrite alter_id by (intros; apply E). by destruct d. Qed.

Section Primitives.
Context {u : Z} {d : root_domain} {c a m tot : Z} (R : room u d c a m tot).

Lemma sub_running_moved e : plain e -> 0 <= dl_bw_of_se e <= a -> moved d (on_cpu d c (sub_running_bw e)) c (- dl_bw_of_se e) 0 0 0.
Proof.
  intros Hs He. apply on_cpu_moved. intros r Hr. destruct R as [R1 _ _ R4]. specialize (R1 r Hr).
  rewrite (plain_sub_running e Hs). unfold __sub_running_bw. rewrite u64_small by lia. destruct (_ >? _) eqn:E; [zbool; lia|]. f_equal; lia.
Qed.

Lemma add_running_moved e : plain e -> 0 <= dl_bw_of_se e <= BW_UNIT -> moved d (on_cpu d c (add_running_bw e)) c (dl_bw_of_se e) 0 0 0.
Proof.
  intros Hs He. apply on_cpu_moved. intros r Hr. destruct R as [R1 _ _ R4]. specialize (R1 r Hr). unfold BW_UNIT in He.
  rewrite (plain_add_running e Hs). unfold __add_running_bw. rewrite u64_small by lia. f_equal; lia.
Qed.

Lemma sub_rq_moved b : 0 <= b <= m -> moved d (on_cpu d c (__sub_rq_bw b)) c 0 (- b) 0 0.
Proof.
  intros He. apply on_cpu_moved. intros r Hr. destruct R as [R1 _ _ R4]. specialize (R1 r Hr).
  unfold __sub_rq_bw. rewrite u64_small by lia. destruct (_ >? _) eqn:E; [zbool; lia|]. f_equal; lia.
Qed.

Lemma add_rq_moved b : 0 <= b <= BW_UNIT -> moved d (on_cpu d c (__add_rq_bw b)) c 0 b 0 0.
Proof.
  intros He. apply on_cpu_moved. intros r Hr. destruct R as [R1 _ _ R4]. specialize (R1 r Hr). unfold BW_UNIT in He.
  unfold __add_rq_bw. rewrite u64_small by lia. f_equal; lia.
Qed.

Lemma dl_update_moved tot' x : moved d (__dl_update (mk_rd (bw d) tot' (rqs d)) x) c 0 0 (tot' - total_bw d) x.
Proof.
  split; [done|cbn; lia|cbn; by rewrite dom_fmap_L|]. intros k r' Hk. cbn in Hk. rewrite lookup_fmap in Hk.
  destruct (rqs d !! k) as [r|] eqn:E; [|done]. cbn in Hk. injection Hk as <-. exists r. cbn. split; [done|].
  split; [destruct (_ =? _); lia|]. split; [destruct (_ =? _); lia|]. unfold u64. by rewrite Z.mod_mod.
Qed.

Lemma share_quot b : 0 <= b <= BW_UNIT -> Z.quot (s32 b) (dl_bw_cpus d) = share d b.
Proof.
  intros Hb. unfold BW_UNIT in Hb. assert (s32 b = b) as ->.
  { unfold s32. rewrite u32_small by lia. destruct (Z.ltb_spec b 2147483648); lia. }
  apply Z.quot_div_nonneg; [lia|]. apply (rm_cpus _ _ _ _ _ _ R).
Qed.

Lemma dl_sub_moved b : 0 <= b <= tot -> b <= BW_UNIT -> moved d (__dl_sub d b (dl_bw_cpus d)) c 0 0 (- b) (share d b).
Proof.
  intros Hb Hu. unfold __dl_sub. rewrite share_quot by lia. destruct R as [_ R2 _ R4]. rewrite u64_small by lia.
  replace (- b) with (total_bw d - b - total_bw d) by lia. apply dl_update_moved.
Qed.

Lemma dl_add_moved b : 0 <= b <= BW_UNIT -> moved d (__dl_add d b (dl_bw_cpus d)) c 0 0 b (- share d b).
Proof.
  intros Hb. unfold __dl_add. rewrite share_quot by lia. unfold BW_UNIT in Hb. destruct R as [_ R2 _ R4]. rewrite u64_small by lia.
  replace b with (total_bw d + b - total_bw d) at 3 by lia. apply dl_update_moved.
Qed.

Lemma leave_moved e : plain e -> 0 <= dl_bw_of_se e <= a -> dl_bw_of_se e <= m ->
  moved d (on_cpu (on_cpu d c (sub_running_bw e)) c (sub_rq_bw e)) c (- dl_bw_of_se e) (- dl_bw_of_se e) 0 0.
Proof.
  intros Hs Ha Hm. assert (M1 := sub_running_moved e Hs Ha).
  eapply (moved_trans M1 (on_cpu_moved _ _ 0 (- dl_bw_of_se e) _ _)); lia. Unshelve. intros r' Hr'.
  destruct (mv_rq _ _ _ _ _ _ _ M1 _ _ Hr') as (r & Hr & E1 & E2 & _). rewrite Z.eqb_refl in E1, E2.
  destruct R as [R1 _ _ R4]. specialize (R1 r Hr). rewrite (plain_sub_rq e Hs). unfold __sub_rq_bw. rewrite u64_small by lia.
  destruct (_ >? _) eqn:E; [zbool; lia|]. f_equal; lia.
Qed.

Lemma join_moved e : plain e -> 0 <= dl_bw_of_se e <= BW_UNIT ->
  moved d (on_cpu (on_cpu d c (add_rq_bw e)) c (add_running_bw e)) c (dl_bw_of_se e) (dl_bw_of_se e) 0 0.
Proof.
  intros Hs He. assert (M1 := add_rq_moved (dl_bw_of_se e) He). rewrite (on_cpu_ext d c (add_rq_bw e) (__add_rq_bw (dl_bw_of_se e))) by (by apply plain_add_rq).
  eapply (moved_trans M1 (on_cpu_moved _ _ (dl_bw_of_se e) 0 _ _)); lia. Unshelve. intros r' Hr'.
  destruct (mv_rq _ _ _ _ _ _ _ M1 _ _ Hr') as (r & Hr & E1 & E2 & _). rewrite Z.eqb_refl in E1, E2.
  destruct R as [R1 _ _ R4]. specialize (R1 r Hr). unfold BW_UNIT in He.
  rewrite (plain_add_running e Hs). unfold __add_running_bw. rewrite u64_small by lia. f_equal; lia.
Qed.

Lemma no_overflow old new : 0 <= bw d < 2 ^ 32 -> dl_bw_cpus d <= 2 ^ 16 -> 0 <= old <= tot -> 0 <= new <= BW_UNIT ->
  __dl_overflow d (dl_bw_cpus d) old new = false -> total_bw d - old + new <= bw d * dl_bw_cpus d.
Proof.
  intros Hb Hc Ho Hn. destruct R as [_ R2 R3 R4]. unfold __dl_overflow, BW_UNIT in *.
  assert (0 <= bw d * dl_bw_cpus d) by (apply Z.mul_nonneg_nonneg; lia).
  assert (bw d * dl_bw_cpus d <= 2 ^ 32 * 2 ^ 16) by (apply Z.mul_le_mono_nonneg; lia). rewrite (u64_small (bw d * _)), (u64_small (total_bw d - old)), u64_small by lia. intros E. apply andb_false_iff in E as [E|E]; [apply negb_false_iff in E|]; zbool; lia.
Qed.
End Primitives.

(** ** The invariant of a task, and its part in the counters *)

Record task_inv (t : dl_task) : Prop := {
  ti_bw : 0 <= dl_bw_of_se (dl t) <= BW_UNIT;
  ti_waiting : dl_non_contending (dl t) = true -> has_policy t = true /\ queued t = false /\ hrtimer_active (timer t) = true;
  ti_runtime : has_policy t = true -> dead t = false -> 0 < dl_runtime (dl t);
  ti_dead : dead t = true -> queued t = false /\ (has_policy t = true -> dl_non_contending (dl t) = false -> dl_bw_of_se (dl t) = 0);
  ti_flags : plain (dl t) }.

(** What a task adds to the active utilisation and the utilisation of its run queue, and to
    the total of its domain. *)
Definition active (t : dl_task) : Z := if has_policy t && (queued t || dl_non_contending (dl t)) then dl_bw_of_se (dl t) else 0.
Definition member (t : dl_task) : Z := if has_policy t then dl_bw_of_se (dl t) else 0.
Definition acct (t : dl_task) : Z := if has_policy t || hrtimer_active (timer t) then dl_bw_of_se (dl t) else 0.

Definition total (l : list Z) : Z := foldr Z.add 0 l.

(** An operation on a task changes the counters as the task's part in them changes. *)
Record step_ok (d : root_domain) (t : dl_task) (d' : root_domain) (t' : dl_task) (lk : list Z) : Prop := {
  so_cpu : cpu t' = cpu t; so_inv : task_inv t';
  so_moved : moved d d' (cpu t) (active t' - active t) (member t' - member t) (acct t' - acct t + total lk)
    (share d (acct t) - share d (acct t') - total (share d <$> lk));
  so_limit : total_bw d' <= Z.max (total_bw d) (bw d * dl_bw_cpus d) }.

Lemma share_moved {d d' c dr dt dT dE} b : moved d d' c dr dt dT dE -> share d' b = share d b.
Proof. intros M. unfold share. by rewrite (moved_cpus M). Qed.

Lemma share_0 d : share d 0 = 0.
Proof. reflexivity. Qed.

Ltac parts :=
  unfold active, member, acct;
  cbn [dl cpu has_policy queued dead timer set_dl set_timer set_queued set_policy set_non_contending __dl_clear_params dl_bw_of_se
    dl_non_contending total foldr fmap list_fmap andb orb negb app].

(** What a task adds to a counter when it is accounted. *)
Definition counted (f : dl_task -> Z) (t : dl_task) : Z := if dl_entity_is_special (dl t) then 0 else f t.

(** Some tasks are the threads of the frequency governor: a request that puts such a thread in
    the class has the flag that exempts it from the accounting, and no other request has it.
    No request has the flag KEEP_PARAMS, with which a task is charged and then not changed. *)
Definition op_ok (gov : bool) (o : dl_op) : Prop :=
  match o with
  | Setattr policy a _ => u64_attr a /\ (policy = true -> Z.land (sched_flags a) SCHED_FLAG_SUGOV = 0 <-> gov = false) /\ Z.land (sched_flags a) SCHED_FLAG_KEEP_PARAMS = 0
  | _ => True
  end.

Section Operations.
Context {d : root_domain} {t : dl_task} (R : room (2 ^ 60) d (cpu t) (active t) (member t) (acct t)) (I : task_inv t).

(** An operation that takes nothing from the domain keeps its limit. *)
Lemma step_total d' t' : cpu t' = cpu t -> task_inv t' ->
  moved d d' (cpu t) (active t' - active t) (member t' - member t) (acct t' - acct t) (share d (acct t) - share d (acct t')) ->
  acct t' <= acct t -> step_ok d t d' t' [].
Proof.
  intros H1 H2 M H3. split; [done..| |destruct M; lia]. cbn [total foldr fmap list_fmap]. by rewrite Z.add_0_r, Z.sub_0_r.
Qed.

Lemma step_still t' : cpu t' = cpu t -> task_inv t' -> active t' = active t -> member t' = member t -> acct t' = acct t -> step_ok d t d t' [].
Proof.
  intros H1 H2 H3 H4 H5. apply step_total; [done..| |lia]. rewrite H3, H4, H5, !Z.sub_diag. apply moved_refl.
Qed.

Lemma alive_queued : queued t = true -> dead t = false /\ dl_non_contending (dl t) = false.
Proof.
  intros Hq. destruct I as [_ I2 _ I4 _]. split; apply not_true_is_false; intros Hc; [destruct (I4 Hc)|destruct (I2 Hc) as (_ & ? & _)]; congruence.
Qed.

(** A task of the class that is gone for good. *)
Lemma retire_moved : active t = dl_bw_of_se (dl t) -> member t = dl_bw_of_se (dl t) -> acct t = dl_bw_of_se (dl t) ->
  let d1 := on_cpu (on_cpu d (cpu t) (sub_running_bw (dl t))) (cpu t) (sub_rq_bw (dl t)) in
  moved d (__dl_sub d1 (dl_bw_of_se (dl t)) (dl_bw_cpus d1)) (cpu t) (- dl_bw_of_se (dl t)) (- dl_bw_of_se (dl t)) (- dl_bw_of_se (dl t))
    (share d (dl_bw_of_se (dl t))).
Proof.
  intros E1 E2 E3 d1. destruct I as [I1 _ _ _ I5]. assert (M1 := leave_moved R (dl t) I5 ltac:(lia) ltac:(lia)).
  assert (R1 : room (2 ^ 60) d1 (cpu t) 0 0 (acct t)) by (eapply (room_moved _ _ _ _ R M1); lia).
  assert (M2 := dl_sub_moved R1 (dl_bw_of_se (dl t)) ltac:(lia) ltac:(lia)).
  rewrite <- (share_moved _ M1). eapply (moved_trans M1 M2); [lia..|reflexivity].
Qed.

Lemma block_ok dies clock : queued t = true -> has_policy t = true -> forall d1 t1,
  task_non_contending d (set_queued t true dies) clock = (d1, t1) -> step_ok d t d1 (set_queued t1 false dies) [].
Proof.
  intros Hq Hp d1 t1. destruct (alive_queued Hq) as [Hd Hn]. destruct I as [I1 I2 I3 I4 I5]. specialize (I3 Hp Hd).
  unfold task_non_contending. cbn [set_queued dl timer cpu has_policy dead]. rewrite Hp, (plain_not_special _ I5). cbn [negb orb].
  destruct (Z.eqb_spec (dl_runtime (dl t)) 0); [lia|].
  assert (E1 : active t = dl_bw_of_se (dl t)) by (unfold active; by rewrite Hp, Hq).
  assert (E2 : member t = dl_bw_of_se (dl t)) by (unfold member; by rewrite Hp).
  assert (E3 : acct t = dl_bw_of_se (dl t)) by (unfold acct; by rewrite Hp).
  destruct (_ || _); [destruct dies|]; intros [= <- <-].
  - apply step_total; [done|split; cbn; done| |parts; rewrite Hp; cbn [orb]; lia].
    apply (moved_as (retire_moved E1 E2 E3)); rewrite ?E1, ?E2, ?E3; parts; rewrite ?Hp; cbn [andb orb]; rewrite ?share_0; lia.
  - apply step_total; [done|split; cbn; rewrite ?Hn, ?Hp; done| |parts; rewrite Hp; cbn [orb]; lia].
    apply (moved_as (sub_running_moved R (dl t) I5 ltac:(lia))); parts; rewrite ?Hp, ?Hq, ?Hn; cbn [andb orb]; lia.
  - apply step_still; [done| |unfold active, member, acct; cbn; by rewrite ?Hp, ?Hq, ?orb_true_r..].
    split; cbn; try done; intros; rewrite ?start_active; done.
Qed.

Lemma wake_ok : queued t = false -> dead t = false -> forall d1 t1,
  (if has_policy t then task_contending d t false else (d, t)) = (d1, t1) -> step_ok d t d1 (set_queued t1 true false) [].
Proof.
  intros Hq Hd d1 t1. destruct I as [I1 I2 I3 I4 I5]. destruct (has_policy t) eqn:Hp.
  - specialize (I3 eq_refl Hd). unfold task_contending. destruct (Z.eqb_spec (dl_runtime (dl t)) 0); [lia|].
    destruct (dl_non_contending (dl t)) eqn:Hn; intros [= <- <-].
    + apply step_still; [done| |parts; by rewrite ?Hp, ?Hn, ?orb_true_r..]. split; cbn; rewrite ?Hp; try done.
    + apply step_total; [done|split; cbn; rewrite ?Hp, ?Hn; done| |parts; rewrite Hp; cbn [orb]; lia].
      apply (moved_as (add_running_moved R (dl t) I5 I1)); parts; rewrite ?Hp, ?Hq, ?Hn; cbn [andb orb]; lia.
  - intros [= <- <-]. apply step_still; [done| |parts; by rewrite ?Hp..]. split; cbn; rewrite ?Hp; try done.
    intros Hc. destruct (I2 Hc). done.
Qed.

Lemma fire_ok : hrtimer_active (timer t) = true -> forall d1 t1, inactive_task_timer d t = (d1, t1) -> step_ok d t d1 t1 [].
Proof.
  intros Ha d1 t1. destruct I as [I1 I2 I3 I4 I5]. unfold inactive_task_timer.
  assert (E3 : acct t = dl_bw_of_se (dl t)) by (unfold acct; by rewrite Ha, orb_true_r).
  destruct (negb (has_policy t) || dead t) eqn:Hc; [destruct (dead t && dl_non_contending (dl t)) eqn:Hw|].
  - apply andb_true_iff in Hw as [Hd Hn]. destruct (I2 Hn) as (Hp & Hq & _).
    assert (E1 : active t = dl_bw_of_se (dl t)) by (unfold active; by rewrite Hp, Hq, Hn).
    assert (E2 : member t = dl_bw_of_se (dl t)) by (unfold member; by rewrite Hp).
    intros [= <- <-]. apply step_total; [done|split; cbn; done || congruence| |parts; rewrite Hp; cbn [orb]; lia].
    apply (moved_as (retire_moved E1 E2 E3)); rewrite ?E1, ?E2, ?E3; parts; rewrite ?Hp, ?Hq; cbn [andb orb]; rewrite ?share_0; lia.
  - assert (Z1 : has_policy t = true -> dl_bw_of_se (dl t) = 0).
    { intros Hp. rewrite Hp in Hc. cbn in Hc. rewrite Hc in Hw. by apply I4. }
    assert (Z2 : active t = 0 /\ member t = 0).
    { unfold active, member. destruct (has_policy t); [|done]. rewrite Z1 by done. cbn. split; [by case_match|done]. }
    assert (Z3 : acct (set_timer (set_dl t (__dl_clear_params (dl t))) (hrtimer_done (timer t))) = 0) by (parts; by case_match).
    assert (Z4 : active (set_timer (set_dl t (__dl_clear_params (dl t))) (hrtimer_done (timer t))) = 0) by (parts; by case_match).
    assert (Z5 : member (set_timer (set_dl t (__dl_clear_params (dl t))) (hrtimer_done (timer t))) = 0) by (parts; by case_match).
    intros [= <- <-]. apply step_total; [done|split; cbn; try done| |lia].
    + intros. destruct (has_policy t), (dead t); done.
    + intros Hd. by destruct (I4 Hd).
    + apply (moved_as (dl_sub_moved R (dl_bw_of_se (dl t)) ltac:(lia) ltac:(lia))); rewrite ?Z3, ?Z4, ?Z5, ?share_0, ?E3; lia.
  - apply orb_false_iff in Hc as [Hp Hd]. apply negb_false_iff in Hp. destruct (dl_non_contending (dl t)) eqn:Hn; cbn [negb]; intros [= <- <-].
    + destruct (I2 eq_refl) as (_ & Hq & _). assert (M := sub_running_moved R (dl t) I5 ltac:(unfold active; rewrite Hp, Hn, orb_true_r; cbn; lia)).
      apply step_total; [done|split; cbn; done || congruence| |parts; rewrite Hp; cbn [orb]; lia].
      apply (moved_as M); parts; rewrite ?Hp, ?Hq, ?Hn; cbn [andb orb]; lia.
    + apply step_still; [done| |parts; by rewrite ?Hp..]. split; cbn; done || congruence.
Qed.

(** ** Changing the policy or the parameters *)

Local Abbreviation old := (dl_bw_of_se (dl t)).

Section Setattr.
Context {a : sched_attr} (Hlive : dead t = false) (Ha : attr_ok a) (Hsugov : Z.land (sched_flags a) SCHED_FLAG_SUGOV = 0)
  (Hbw : 0 <= bw d < 2 ^ 32) (Hcpus : dl_bw_cpus d <= 2 ^ 16).
Local Abbreviation new := (to_ratio (period_of a) (sched_runtime a)).
Local Abbreviation e' := (__setparam_dl (dl t) a).

Lemma step_limit d' t' : cpu t' = cpu t -> task_inv t' ->
  moved d d' (cpu t) (active t' - active t) (member t' - member t) (acct t' - acct t) (share d (acct t) - share d (acct t')) ->
  total_bw d - acct t + acct t' <= bw d * dl_bw_cpus d -> step_ok d t d' t' [].
Proof.
  intros H1 H2 M H3. split; [done..| |destruct M; lia]. cbn [total foldr fmap list_fmap]. by rewrite Z.add_0_r, Z.sub_0_r.
Qed.

Lemma setparam_bw : dl_bw_of_se e' = new.
Proof. reflexivity. Qed.

Lemma setparam_waiting : dl_non_contending e' = dl_non_contending (dl t).
Proof. reflexivity. Qed.

Lemma setparam_inv t' : dl t' = e' -> has_policy t' = true -> dead t' = false ->
  (dl_non_contending (dl t) = true -> queued t' = false /\ hrtimer_active (timer t') = true) -> task_inv t'.
Proof.
  intros E1 E2 E3 E4. destruct (attr_ratio a Ha) as [H1 H2]. destruct Ha as [H3 _ _]. split; rewrite ?E1, ?E2, ?E3; cbn; try done.
  - intros Hn. by destruct (E4 Hn).
  - lia.
Qed.

(** A task enters the class. *)
Lemma enter_class_ok : has_policy t = false -> __dl_overflow d (dl_bw_cpus d) 0 new = false -> forall clock,
  let d1 := __dl_add (if hrtimer_active (timer t) then __dl_sub d old (dl_bw_cpus d) else d) new (dl_bw_cpus d) in
  let t1 := set_policy (set_dl t e') true in
  let d2 := if queued t then on_cpu (on_cpu d1 (cpu t) (add_rq_bw e')) (cpu t) (add_running_bw e') else d1 in
  forall d3 t3, check_class_changed d2 t1 false clock = (d3, t3) -> step_ok d t d3 t3 [].
Proof.
  intros Hp Ho clock d1 t1 d2 d3 t3. destruct I as [I1 I2 I3 I4 I5]. destruct (attr_ratio a Ha) as [N1 N2].
  assert (Hn : dl_non_contending (dl t) = false).
  { apply not_true_is_false. intros Hc. destruct (I2 Hc). congruence. }
  assert (L := no_overflow R 0 new Hbw Hcpus ltac:(destruct R; lia) ltac:(lia) Ho).
  assert (E1 : active t = 0) by (unfold active; by rewrite Hp). assert (E2 : member t = 0) by (unfold member; by rewrite Hp).
  assert (E3 : acct t = if hrtimer_active (timer t) then old else 0) by (unfold acct; by rewrite Hp).
  assert (M1 : moved d (if hrtimer_active (timer t) then __dl_sub d old (dl_bw_cpus d) else d) (cpu t) 0 0 (- acct t) (share d (acct t))).
  { rewrite E3 in *. destruct (hrtimer_active _); [apply (dl_sub_moved R); lia|apply moved_refl]. }
  set (d0 := if hrtimer_active (timer t) then _ else _) in *.
  assert (R1 : room (2 ^ 60) d0 (cpu t) 0 0 0) by (eapply (room_moved _ _ _ _ R M1); destruct R; lia).
  assert (M2 := dl_add_moved R1 new ltac:(lia)). rewrite (moved_cpus M1) in M2. rewrite (share_moved _ M1) in M2.
  assert (M12 := moved_trans M1 M2 _ _ _ _ eq_refl eq_refl eq_refl eq_refl). fold d1 in M2, M12.
  assert (R2 : room (2 ^ 61) d1 (cpu t) 0 0 new) by (unfold BW_UNIT in *; eapply (room_moved _ _ _ _ R1 M2); lia).
  unfold check_class_changed, switched_to_dl. subst t1. cbn [set_timer set_policy set_dl has_policy queued cpu dl timer Bool.eqb].
  assert (E3' : total_bw d - acct t + new <= bw d * dl_bw_cpus d) by (destruct R; lia).
  destruct (queued t) eqn:Hq; cbn [negb]; intros [= <- <-]; (apply step_limit; [done|apply setparam_inv; [done|done|exact Hlive|by rewrite Hn]|..]).
  - assert (M3 := join_moved R2 e' Hsugov ltac:(rewrite setparam_bw; lia)). eapply (moved_trans M12 M3); rewrite ?E1, ?E2; (set (A := acct t); clearbody A); parts; rewrite ?Hq, ?setparam_bw; cbn [andb orb]; lia.
  - parts. by rewrite setparam_bw.
  - assert (M3 := add_rq_moved R2 new ltac:(lia)). rewrite (on_cpu_ext _ _ (add_rq_bw e') (__add_rq_bw new)) by (by apply (plain_add_rq e' Hsugov)). eapply (moved_trans M12 M3); rewrite ?E1, ?E2; (set (A := acct t); clearbody A); parts; rewrite ?Hq, ?setparam_waiting, ?Hn, ?setparam_bw; cbn [andb orb]; lia.
  - parts. by rewrite setparam_bw.
Qed.

(** A task of the class asks for other parameters; its new bandwidth is already in the total
    ([d1]), and if it is not queued also in its run queue. *)
Lemma change_ok d1 t1 : has_policy t = true -> 0 <= acct t -> cpu t1 = cpu t -> has_policy t1 = true -> queued t1 = queued t -> dead t1 = false -> dl t1 = dl t \/ dl t1 = set_non_contending (dl t) false ->
  (dl_non_contending (dl t1) = true -> hrtimer_active (timer t1) = true) ->
  moved d d1 (cpu t) (if queued t then 0 else (if dl_non_contending (dl t1) then new else 0) - active t) (if queued t then 0 else new - old) (new - old) (share d old - share d new) ->
  total_bw d - old + new <= Z.max (total_bw d) (bw d * dl_bw_cpus d) ->
  let t2 := set_policy (set_dl t1 (__setparam_dl (dl t1) a)) true in
  let d2 := if queued t then on_cpu (on_cpu d1 (cpu t) (sub_running_bw (dl t1))) (cpu t) (sub_rq_bw (dl t1)) else d1 in
  let d3 := if queued t then on_cpu (on_cpu d2 (cpu t) (add_rq_bw (dl t2))) (cpu t) (add_running_bw (dl t2)) else d2 in
  step_ok d t d3 t2 [].
Proof.
  intros Hp Hacct Hc Hp1 Hq1 Hd1 Hdl Ht1 M HL t2 d2 d3. destruct I as [I1 I2 I3 I4 I5]. destruct (attr_ratio a Ha) as [N1 N2].
  assert (B1 : dl_bw_of_se (dl t1) = old) by (destruct Hdl as [->| ->]; reflexivity).
  assert (B2 : dl_bw_of_se (dl t2) = new) by reflexivity.
  assert (E2 : member t = old) by (unfold member; by rewrite Hp). assert (E3 : acct t = old) by (unfold acct; by rewrite Hp).
  assert (E3' : acct t2 = new) by reflexivity. assert (E2' : member t2 = new) by reflexivity.
  assert (E1' : active t2 = if queued t || dl_non_contending (dl t1) then new else 0) by (subst t2; parts; by rewrite Hq1).
  assert (I' : task_inv t2).
  { destruct Ha as [H3 _ _]. split; cbn; rewrite ?Hd1; try done; [|lia]. intros Hn. rewrite Hq1. split; [done|]. split; [|by apply Ht1].
    destruct Hdl as [Edl|Edl]; rewrite Edl in Hn; [by destruct (I2 Hn) as (_ & ? & _)|done]. }
  assert (MM : moved d d3 (cpu t) (active t2 - active t) (new - old) (new - old) (share d old - share d new)).
  { rewrite E1'. destruct (queued t) eqn:Hq; [|apply (moved_as M); cbn [orb]; lia].
    assert (E1 : active t = old) by (unfold active; by rewrite Hp, Hq).
    assert (R1 : room (2 ^ 61) d1 (cpu t) old old new) by (unfold BW_UNIT in *; eapply (room_moved _ _ _ _ R M); lia).
    assert (Hpl : plain (dl t1)) by (destruct Hdl as [->| ->]; exact I5). assert (M1 := leave_moved R1 (dl t1) Hpl ltac:(lia) ltac:(lia)). fold d2 in M1.
    assert (R2 : room (2 ^ 61) d2 (cpu t) 0 0 new) by (eapply (room_moved _ _ _ _ R1 M1); lia).
    assert (M2 := join_moved R2 (dl t2) Hsugov ltac:(lia)).
    assert (M3 := moved_trans M M1 _ _ _ _ eq_refl eq_refl eq_refl eq_refl).
    eapply (moved_trans M3 M2); cbn [orb]; lia. }
  split; [by rewrite <- Hc|done| |destruct MM as [_ -> _ _]; lia].
  cbn [total foldr fmap list_fmap]. by rewrite Z.add_0_r, Z.sub_0_r, E2, E3, E3', E2'.
Qed.
End Setattr.

(** A task leaves the class; what it leaves behind if it was inactive is never given back. *)
Lemma leave_class_ok clock : dead t = false -> has_policy t = true ->
  let d1 := if queued t then on_cpu (on_cpu d (cpu t) (sub_running_bw (dl t))) (cpu t) (sub_rq_bw (dl t)) else d in
  forall d2 t2, switched_from_dl d1 (set_policy t false) clock = (d2, t2) -> step_ok d t d2 t2 (leaks t t2).
Proof.
  intros Hd Hp d1 d2 t2. assert (Hlive := alive_queued). destruct I as [I1 I2 I3 I4 I5]. specialize (I3 Hp Hd).
  assert (E2 : member t = old) by (unfold member; by rewrite Hp). assert (E3 : acct t = old) by (unfold acct; by rewrite Hp).
  unfold switched_from_dl, leaks. rewrite (plain_not_special _ I5). cbn [set_policy queued dl cpu negb andb]. destruct (queued t) eqn:Hq.
  - destruct (Hlive eq_refl) as [_ Hn]. assert (E1 : active t = old) by (unfold active; by rewrite Hp, Hq).
    assert (M1 := leave_moved R (dl t) I5 ltac:(lia) ltac:(lia)). fold d1 in M1.
    assert (R1 : room (2 ^ 60) d1 (cpu t) 0 0 old) by (eapply (room_moved _ _ _ _ R M1); lia).
    unfold task_non_contending. cbn [set_policy dl timer has_policy dead cpu]. rewrite (plain_not_special _ I5). destruct (Z.eqb_spec (dl_runtime (dl t)) 0); [lia|].
    cbn [andb negb orb]. rewrite Hd. destruct (_ || _); cbn; rewrite ?Hq; cbn; intros [= <- <-]; rewrite ?andb_false_r.
    + assert (M2 := dl_sub_moved R1 old ltac:(lia) ltac:(lia)). rewrite (share_moved _ M1) in M2.
      assert (Z3 : acct (set_dl (set_policy t false) (__dl_clear_params (dl t))) = 0) by (parts; by case_match).
      apply step_total; [done|split; cbn; try done; congruence| |lia].
      eapply (moved_trans M1 M2); rewrite ?E1, ?E2, ?E3, ?Z3, ?share_0; parts; lia.
    + apply step_total; [done|split; cbn; try done; congruence| |parts; rewrite start_active, Hp; cbn [orb]; lia].
      apply (moved_as M1); rewrite ?E1, ?E2, ?E3; parts; rewrite ?start_active; cbn [orb]; lia.
  - cbn [negb andb set_policy dl queued cpu]. rewrite Hq. cbn [negb]. destruct (dl_non_contending (dl t)) eqn:Hn; intros [= <- <-]; cbn [set_dl set_policy has_policy negb]; rewrite ?Hp, ?Hq.
    + destruct (I2 eq_refl) as (_ & _ & Ha). assert (E1 : active t = old) by (unfold active; by rewrite Hp, Hn, orb_true_r). rewrite Ha.
      assert (M1 := leave_moved R (dl t) I5 ltac:(lia) ltac:(lia)).
      apply step_total; [done|split; cbn; try done; congruence| |parts; rewrite Ha, Hp; cbn [orb]; lia].
      apply (moved_as M1); rewrite ?E1, ?E2, ?E3; parts; rewrite ?Ha; cbn [orb]; lia.
    + assert (E1 : active t = 0) by (unfold active; by rewrite Hp, Hq, Hn). assert (M1 := sub_rq_moved R old ltac:(lia)).
      assert (E3' : acct (set_policy t false) = if hrtimer_active (timer t) then old else 0) by reflexivity.
      cbn [andb negb]. unfold d1. rewrite (on_cpu_ext _ _ (sub_rq_bw (dl t)) (__sub_rq_bw old)) by (by apply (plain_sub_rq _ I5)).
      split; [done|split; cbn; try done; congruence| |apply Z.le_max_l].
      apply (moved_as M1); rewrite ?E1, ?E2, ?E3, ?E3'; [parts; lia..| |]; destruct (hrtimer_active _); cbn [negb total foldr fmap list_fmap]; rewrite ?share_0; lia.
Qed.

Lemma no_leak t' : has_policy t = false \/ has_policy t' = true \/ queued t = true \/ hrtimer_active (timer t) = true -> leaks t t' = [].
Proof. intros [E|[E|[E|E]]]; unfold leaks; rewrite E; cbn; by rewrite ?andb_false_r. Qed.

Lemma refused : step_ok d t d t (leaks t t).
Proof. rewrite no_leak by (destruct (has_policy t); auto). by apply step_still. Qed.

Section Commit.
Context {a : sched_attr} (Hd : dead t = false) (Ha : attr_ok a) (Hs : Z.land (sched_flags a) SCHED_FLAG_SUGOV = 0)
  (Hk : Z.land (sched_flags a) SCHED_FLAG_KEEP_PARAMS = 0) (Hb : 0 <= bw d < 2 ^ 32) (Hc : dl_bw_cpus d <= 2 ^ 16).
Local Abbreviation new := (to_ratio (period_of a) (sched_runtime a)).

Lemma change_class_same d1 t1 clock : has_policy t1 = true -> queued t1 = queued t -> cpu t1 = cpu t ->
  change_class d1 t1 true a clock =
    (let d2 := if queued t then on_cpu (on_cpu d1 (cpu t) (sub_running_bw (dl t1))) (cpu t) (sub_rq_bw (dl t1)) else d1 in
     let e2 := __setparam_dl (dl t1) a in
     if queued t then on_cpu (on_cpu d2 (cpu t) (add_rq_bw e2)) (cpu t) (add_running_bw e2) else d2,
     set_policy (set_dl t1 (__setparam_dl (dl t1) a)) true).
Proof.
  intros Hp Hq He. unfold change_class, __setscheduler, check_class_changed. rewrite Hk, Hp. cbn. rewrite Hq, He, !andb_true_r. done.
Qed.

Lemma commit_same clock : has_policy t = true -> new = old -> exists d' t', change_class d t true a clock = (d', t') /\ step_ok d t d' t' (leaks t t').
Proof.
  intros Hp En. rewrite change_class_same by done. eexists _, _. split; [done|]. rewrite no_leak by auto.
  assert (E3 : acct t = old) by (unfold acct; by rewrite Hp). destruct I as [I1 I2 _ _ _].
  apply change_ok; try done; [lia|by left|intros Hn; exact (proj2 (proj2 (I2 Hn)))| |lia].
  rewrite En. apply (moved_as (moved_refl _ _)); [|destruct (queued t); lia|lia..].
  unfold active. rewrite Hp. destruct (queued t), (dl_non_contending (dl t)); cbn; lia.
Qed.

Lemma commit_change clock : has_policy t = true -> __dl_overflow d (dl_bw_cpus d) old new = false ->
  exists d1 t1 d' t', dl_change_utilization (__dl_add (__dl_sub d old (dl_bw_cpus d)) new (dl_bw_cpus d)) t new = Ok (d1, t1) /\
    change_class d1 t1 true a clock = (d', t') /\ step_ok d t d' t' (leaks t t').
Proof.
  intros Hp Ho. assert (E3 : acct t = old) by (unfold acct; by rewrite Hp). assert (E2 : member t = old) by (unfold member; by rewrite Hp).
  destruct (attr_ratio a Ha) as [N1 N2]. destruct I as [I1 I2 I3 I4 I5].
  assert (L := no_overflow R old new Hb Hc ltac:(lia) ltac:(lia) Ho).
  assert (M1 := dl_sub_moved R old ltac:(lia) ltac:(lia)). set (d0 := __dl_sub d old _) in *.
  assert (R1 : room (2 ^ 60) d0 (cpu t) (active t) (member t) 0) by (eapply (room_moved _ _ _ _ R M1); destruct R; lia).
  assert (M2 := dl_add_moved R1 new ltac:(lia)). rewrite (moved_cpus M1), (share_moved _ M1) in M2. set (d00 := __dl_add d0 new _) in *.
  assert (M12 := moved_trans M1 M2 _ _ _ _ eq_refl eq_refl eq_refl eq_refl).
  assert (R2 : room (2 ^ 61) d00 (cpu t) (active t) (member t) new) by (unfold BW_UNIT in *; eapply (room_moved _ _ _ _ R1 M2); destruct R; lia).
  unfold dl_change_utilization. rewrite I5. cbn [Z.eqb negb]. destruct (queued t) eqn:Hq.
  - eexists _, _, _, _. split; [done|]. rewrite change_class_same by congruence. split; [done|]. rewrite no_leak by auto.
    apply change_ok; try done; [lia|by left|intros Hn; exact (proj2 (proj2 (I2 Hn)))| |lia]. rewrite Hq. apply (moved_as M12); lia.
  - set (p := if dl_non_contending (dl t) then _ else _). assert (Hpq : exists d1 t1, p = (d1, t1) /\ cpu t1 = cpu t /\ has_policy t1 = true /\
      queued t1 = queued t /\ dead t1 = false /\ dl_bw_of_se (dl t1) = old /\ dl_non_contending (dl t1) = false /\
      (dl t1 = dl t \/ dl t1 = set_non_contending (dl t) false) /\ moved d00 d1 (cpu t) (- active t) 0 0 0).
    { unfold p. destruct (dl_non_contending (dl t)) eqn:Hn; eexists _, _; (split; [done|]); cbn; repeat (match goal with |- _ /\ _ => split; [by auto|] end).
      - assert (E1 : active t = old) by (unfold active; by rewrite Hp, Hn, orb_true_r). apply (moved_as (sub_running_moved R2 (dl t) I5 ltac:(lia))); lia.
      - assert (E1 : active t = 0) by (unfold active; by rewrite Hp, Hq, Hn). rewrite E1. apply moved_refl. }
    destruct Hpq as (d1 & t1 & Ep & F1 & F2 & F3 & F4 & F5 & F6 & F7 & M3). rewrite Ep.
    assert (R3 : room (2 ^ 61) d1 (cpu t) 0 (member t) new) by (eapply (room_moved _ _ _ _ R2 M3); destruct R; lia).
    assert (M4 := sub_rq_moved R3 old ltac:(lia)). set (d2 := on_cpu d1 _ _) in *.
    assert (R4 : room (2 ^ 61) d2 (cpu t) 0 0 new) by (eapply (room_moved _ _ _ _ R3 M4); destruct R; lia).
    assert (M5 := add_rq_moved R4 new ltac:(lia)). rewrite F1, F5. fold d2.
    eexists _, _, _, _. split; [done|]. rewrite change_class_same by done. split; [done|]. rewrite no_leak by auto.
    apply change_ok; try done; [lia|by rewrite F6| |lia]. rewrite F6, Hq.
    assert (M123 := moved_trans M12 M3 _ _ _ _ eq_refl eq_refl eq_refl eq_refl).
    assert (M1234 := moved_trans M123 M4 _ _ _ _ eq_refl eq_refl eq_refl eq_refl).
    eapply (moved_trans M1234 M5); lia.
Qed.
End Commit.

Lemma setscheduler_ok policy a clock : dead t = false -> u64_attr a -> (policy = true -> Z.land (sched_flags a) SCHED_FLAG_SUGOV = 0) ->
  Z.land (sched_flags a) SCHED_FLAG_KEEP_PARAMS = 0 -> 0 <= bw d < 2 ^ 32 -> dl_bw_cpus d <= 2 ^ 16 ->
  exists err d' t', __sched_setscheduler d t policy a clock = Ok (err, d', t') /\ step_ok d t d' t' (leaks t t').
Proof.
  intros Hd Hu Hs Hk Hb Hc. unfold __sched_setscheduler. assert (Hr : forall e : Z, exists (err : Z) d' t', Ok (e, d, t) = Ok (err, d', t') /\ step_ok d t d' t' (leaks t t')).
  { intros e. eexists _, _, _. split; [done|apply refused]. }
  destruct (negb (Z.land (sched_flags a) (Z.lnot _) =? 0)); [apply Hr|].
  destruct (policy && negb (__checkparam_dl a)) eqn:Hv; [apply Hr|].
  destruct (negb (Z.land (sched_flags a) SCHED_FLAG_UTIL_CLAMP =? 0)); [apply Hr|].
  destruct (Bool.eqb policy (has_policy t) && _) eqn:Hsame; [apply Hr|].
  unfold sched_dl_overflow. destruct policy; cbn [andb negb] in *; [specialize (Hs eq_refl); rewrite Hs; cbn [Z.eqb negb]; apply negb_false_iff, checkparam_iff in Hv; [|done..]|];
    destruct (has_policy t) eqn:Hp; cbn [andb negb Bool.eqb] in *; rewrite ?andb_true_r, ?andb_false_r.
  - destruct (Z.eqb_spec (to_ratio (period_of a) (sched_runtime a)) old) as [En|En].
    + destruct (commit_same Hd Hv Hs Hk clock Hp En) as (d' & t' & E & S). cbn. rewrite E. by eexists _, _, _.
    + destruct (__dl_overflow _ _ old _) eqn:Ho; cbn [negb res_bind]; [apply Hr|].
      destruct (commit_change Hd Hv Hs Hk Hb Hc clock Hp Ho) as (d1 & t1 & d' & t' & E1 & E2 & S). rewrite E1. cbn. rewrite E2. by eexists _, _, _.
  - destruct (__dl_overflow _ _ 0 _) eqn:Ho; cbn [negb res_bind]; [apply Hr|]. cbn.
    destruct (change_class _ t true a clock) as [d' t'] eqn:E. eexists _, _, _. split; [done|]. rewrite no_leak by auto.
    apply (enter_class_ok Hd Hv Hs Hb Hc Hp Ho clock). rewrite <- E. unfold change_class, __setscheduler. rewrite Hk, Hp. cbn. by rewrite andb_false_r, andb_true_r.
  - set (x := if negb _ then _ else _). assert (Hx : x = Ok (0, d, t)) by (unfold x; by destruct (negb _), (0 =? old)). rewrite Hx. cbn.
    destruct (change_class d t false a clock) as [d' t'] eqn:E. eexists _, _, _. split; [done|].
    apply (leave_class_ok clock Hd Hp). rewrite <- E. unfold change_class, __setscheduler. rewrite Hk, Hp. cbn. by rewrite andb_false_r, andb_true_r.
  - done.
Qed.

Lemma do_ok o : op_ok false o -> 0 <= bw d < 2 ^ 32 -> dl_bw_cpus d <= 2 ^ 16 ->
  exists r, dl_do o d t = Ok r /\ match r with None => True | Some (_, d', t') => step_ok d t d' t' (leaks t t') end.
Proof.
  intros Ho Hb Hc. destruct o as [policy a clock|dies clock| | | |r x]; cbn.
  - destruct (dead t) eqn:Hd; [by eexists|]. destruct Ho as (Hu & Hs & Hk).
    destruct (setscheduler_ok policy a clock Hd Hu (fun Hpol => proj2 (Hs Hpol) eq_refl) Hk Hb Hc) as (err & d' & t' & E & S). rewrite E. by eexists.
  - destruct (negb (queued t) || negb (has_policy t)) eqn:Hc'; [eexists; split; [done|]|].
    + destruct (dead t || has_policy t) eqn:Hx; [done|]. apply orb_false_iff in Hx as [Hd Hp]. rewrite no_leak by auto.
      destruct I as [I1 I2 I3 I4 I5]. apply step_still; [done| |parts; by rewrite ?Hp..].
      split; cbn; rewrite ?Hp; try done. intros Hn. destruct (I2 Hn). congruence.
    + apply orb_false_iff in Hc' as [Hq Hp]. apply negb_false_iff in Hq, Hp.
      destruct (task_non_contending _ _ _) as [d' t'] eqn:E. eexists. split; [done|]. cbv iota beta. rewrite no_leak by auto. by eapply block_ok.
  - destruct (queued t || dead t) eqn:Hx; [by eexists|]. apply orb_false_iff in Hx as [Hq Hd].
    destruct (if has_policy t then _ else _) as [d' t'] eqn:E. eexists. split; [done|]. cbv iota beta. assert (S := wake_ok Hq Hd _ _ E).
    rewrite no_leak; [done|]. destruct (has_policy t) eqn:Hp; [|by left]. right; left. unfold task_contending in E.
    repeat case_match; injection E as <- <-; cbn; done.
  - eexists. split; [done|]. cbv iota beta. rewrite no_leak by (destruct (has_policy t) eqn:Hp; cbn; auto). destruct I as [I1 I2 I3 I4 I5].
    apply step_still; [done| |parts; by rewrite ?expire_active..]. split; cbn; rewrite ?expire_active; done.
  - eexists. split; [done|]. cbv iota beta. destruct (hrtimer_active (timer t)) eqn:Ha; [|done].
    destruct (inactive_task_timer d t) as [d' t'] eqn:E. rewrite no_leak by auto. by apply fire_ok.
  - eexists. split; [done|]. cbv iota beta. rewrite no_leak by (destruct (has_policy t) eqn:Hp; cbn; auto). destruct I as [I1 I2 I3 I4 I5].
    by apply step_still.
Qed.
End Operations.

(** ** The governor's threads *)

(** They are in the class only as special entities, and never wait for their 0-lag time. *)
Record gov_inv (t : dl_task) : Prop := {
  gi_policy : has_policy t = true -> dl_entity_is_special (dl t) = true; gi_waiting : dl_non_contending (dl t) = false;
  gi_timer : hrtimer_active (timer t) = false }.

Lemma cancel_inactive x : hrtimer_active x = false -> hrtimer_active (hrtimer_try_to_cancel x) = false.
Proof. intros E. by destruct (cancel_or_running x) as [F| ->]. Qed.

Lemma special_sub_running d c e : dl_entity_is_special e = true -> on_cpu d c (sub_running_bw e) = d.
Proof. intros E. apply on_cpu_id. intros r. unfold sub_running_bw. by rewrite E. Qed.
Lemma special_add_running d c e : dl_entity_is_special e = true -> on_cpu d c (add_running_bw e) = d.
Proof. intros E. apply on_cpu_id. intros r. unfold add_running_bw. by rewrite E. Qed.
Lemma special_sub_rq d c e : dl_entity_is_special e = true -> on_cpu d c (sub_rq_bw e) = d.
Proof. intros E. apply on_cpu_id. intros r. unfold sub_rq_bw. by rewrite E. Qed.
Lemma special_add_rq d c e : dl_entity_is_special e = true -> on_cpu d c (add_rq_bw e) = d.
Proof. intros E. apply on_cpu_id. intros r. unfold add_rq_bw. by rewrite E. Qed.

Ltac special := rewrite ?special_sub_running, ?special_sub_rq, ?special_add_rq, ?special_add_running by auto.

Section Governor.
Context {t : dl_task} (G : gov_inv t) (d : root_domain).

Lemma gov_change policy a clock : (policy = true -> Z.land (sched_flags a) SCHED_FLAG_SUGOV <> 0) -> exists t', change_class d t policy a clock = (d, t') /\ cpu t' = cpu t /\ gov_inv t'.
Proof.
  intros Ha. destruct G as [G1 G2 G3]. unfold change_class, __setscheduler. set (d1 := if queued t && has_policy t then _ else d).
  assert (E1 : d1 = d) by (unfold d1; destruct (queued t), (has_policy t); cbn [andb]; special; done). rewrite E1. clear d1 E1.
  destruct (negb (Z.land (sched_flags a) SCHED_FLAG_KEEP_PARAMS =? 0)).
  { unfold check_class_changed. rewrite Bool.eqb_reflx. exists t. split; [|by repeat split]. by destruct (queued t), (has_policy t); cbn [andb]; special. }
  destruct policy.
  - assert (Hs : dl_entity_is_special (__setparam_dl (dl t) a) = true) by (unfold dl_entity_is_special; cbn; destruct (Z.eqb_spec (Z.land (sched_flags a) SCHED_FLAG_SUGOV) 0); [by destruct Ha|done]).
    cbn [set_policy set_dl queued has_policy cpu dl]. rewrite andb_true_r. set (d1 := if queued t then _ else d). assert (E1 : d1 = d) by (unfold d1; destruct (queued t); special; done).
    rewrite E1. unfold check_class_changed, switched_to_dl. cbn. destruct (has_policy t); cbn; [|special; destruct (queued t); cbn]; eexists; (split; [done|]); (split; [done|]); (split; cbn; [done|exact G2|]);
      first [exact G3|by apply cancel_inactive].
  - cbn [set_policy queued has_policy cpu dl]. rewrite andb_false_r. unfold check_class_changed. cbn [set_policy has_policy]. destruct (has_policy t) eqn:Hp; cbn [Bool.eqb]; [|eexists; split; [done|]; split; [done|]; by split].
    specialize (G1 eq_refl). unfold switched_from_dl, task_non_contending. cbn [set_policy queued dl cpu]. rewrite G1.
    set (p := if queued t && _ then _ else _). assert (Ep : p = (d, set_policy t false)) by (unfold p; by destruct (queued t), (dl_runtime (dl t) =? 0)). rewrite Ep. cbn. rewrite G2. special.
    exists (set_policy t false). split; [by destruct (queued t)|]. split; [done|]. by split.
Qed.

Lemma gov_setscheduler policy a clock : (policy = true -> Z.land (sched_flags a) SCHED_FLAG_SUGOV <> 0) ->
  exists err t', __sched_setscheduler d t policy a clock = Ok (err, d, t') /\ cpu t' = cpu t /\ gov_inv t'.
Proof.
  intros Ha. destruct (gov_change policy a clock Ha) as (t' & E & Ec & G'). unfold __sched_setscheduler.
  destruct (negb _); [by eexists _, _|]. destruct (policy && _); [by eexists _, _|]. destruct (negb _); [by eexists _, _|].
  destruct (Bool.eqb policy (has_policy t) && _) eqn:Hsame; [by eexists _, _|].
  assert (Eo : sched_dl_overflow d t policy a = Ok (0, d, t)).
  { unfold sched_dl_overflow. destruct policy; [destruct (Z.eqb_spec (Z.land (sched_flags a) SCHED_FLAG_SUGOV) 0); [by destruct Ha|done]|].
    destruct (has_policy t); [|done]. cbn [negb andb]. rewrite andb_true_r. by repeat case_match. }
  rewrite Eo. cbn. rewrite E. by eexists _, _.
Qed.

(** No operation of a governor's thread changes a counter. *)
Lemma gov_do_ok o : op_ok true o -> exists r, dl_do o d t = Ok r /\
  match r with None => True | Some (_, d', t') => d' = d /\ cpu t' = cpu t /\ gov_inv t' end.
Proof.
  intros Ho. assert (GS := gov_setscheduler). destruct G as [G1 G2 G3]. destruct o as [policy a clock|dies clock| | | |r x]; cbn.
  - destruct (dead t); [by eexists|]. destruct Ho as (_ & Hs & _). destruct (GS policy a clock) as (err & t' & -> & Ec & G'); [|by eexists].
    intros Hp E. specialize (proj1 (Hs Hp) E). done.
  - destruct (negb (queued t) || negb (has_policy t)) eqn:Hc; [eexists; split; [done|]; destruct (dead t || has_policy t) eqn:Hx; [done|]; apply orb_false_iff in Hx as [_ Hp]; by repeat split|].
    apply orb_false_iff in Hc as [_ Hp]. apply negb_false_iff in Hp. unfold task_non_contending. cbn. rewrite (G1 Hp).
    destruct (dl_runtime (dl t) =? 0); eexists; (split; [done|]); (split; [done|]); (split; [done|]); by split.
  - destruct (queued t || dead t); [by eexists|]. destruct (has_policy t) eqn:Hp; [|eexists; split; [done|]; split; [done|]; split; [done|]; split; cbn; [congruence|done..]].
    specialize (G1 eq_refl). unfold task_contending. rewrite G2. special. destruct (dl_runtime (dl t) =? 0); eexists; (split; [done|]); (split; [done|]); (split; [done|]); by split.
  - eexists. split; [done|]. split; [done|]. split; [done|]. split; cbn; [done..|by rewrite expire_active].
  - rewrite G3. by eexists.
  - eexists. split; [done|]. split; [done|]. split; [done|]. by split.
Qed.
End Governor.

(** ** Every sequence of operations *)

Definition at_cpu (c : Z) (f : dl_task -> Z) (t : dl_task) : Z := if cpu t =? c then f t else 0.

Section Machine.
(** Which tasks are the governor's. *)
Context (gov : Z -> bool).

Definition any_inv (p : Z) (t : dl_task) : Prop := if gov p then gov_inv t else task_inv t.

Record dl_inv (base : Z) (x : machine) : Prop := {
  di_bw : bw (domain x) = base /\ 0 <= base < 2 ^ 32; di_cpus : 0 < dl_bw_cpus (domain x) <= 2 ^ 16;
  di_task p t : tasks x !! p = Some t -> any_inv p t;
  di_rq c r : rqs (domain x) !! c = Some r ->
    running_bw r = sumq (at_cpu c (counted active)) (tasks x) /\ this_bw r = sumq (at_cpu c (counted member)) (tasks x) /\
    u64 (extra_bw r) = u64 (base - sumq (fun t => share (domain x) (counted acct t)) (tasks x) - total (share (domain x) <$> leaked x));
  di_total : total_bw (domain x) = sumq (counted acct) (tasks x) + total (leaked x);
  di_limit : total_bw (domain x) <= base * dl_bw_cpus (domain x);
  di_leaked : Forall (fun b => 0 <= b) (leaked x) }.

Lemma total_nonneg l : Forall (fun b => 0 <= b) l -> 0 <= total l.
Proof. unfold total. induction 1; cbn; lia. Qed.

Lemma total_app l k : total (l ++ k) = total l + total k.
Proof. induction l; cbn; [done|]. unfold total in *. lia. Qed.

Lemma counted_plain f t : task_inv t -> counted f t = f t.
Proof. intros [_ _ _ _ I5]. unfold counted. by rewrite (plain_not_special _ I5). Qed.

Lemma counted_gov t : gov_inv t -> counted active t = 0 /\ counted member t = 0 /\ counted acct t = 0.
Proof.
  intros [G1 G2 G3]. unfold counted, active, member, acct. rewrite G3, orb_false_r. destruct (has_policy t); [by rewrite G1|].
  cbn. by destruct (dl_entity_is_special _).
Qed.

Lemma parts_range p t : any_inv p t -> 0 <= counted active t <= counted member t /\ counted member t <= counted acct t /\ counted acct t <= BW_UNIT.
Proof.
  unfold any_inv. destruct (gov p); intros I; [destruct (counted_gov t I) as (-> & -> & ->); unfold BW_UNIT; lia|].
  rewrite !counted_plain by done. destruct I as [I1 _ _ _ _]. unfold active, member, acct.
  destruct (has_policy t); cbn; [destruct (_ || _); lia|destruct (hrtimer_active _); lia].
Qed.

Section Inductive.
Context {base : Z} {x : machine} (IV : dl_inv base x).

Lemma part_at_cpu c f p t : (forall p t, any_inv p t -> 0 <= f t) -> tasks x !! p = Some t -> cpu t = c -> f t <= sumq (at_cpu c f) (tasks x).
Proof.
  intros Hf Hp Hc. assert (E : f t = at_cpu c f t) by (unfold at_cpu; by rewrite Hc, Z.eqb_refl). rewrite E.
  apply sumq_part with p; [|done]. intros y a Hy. unfold at_cpu. destruct (_ =? _); [|lia]. by apply (Hf y), (di_task _ _ IV y).
Qed.

Lemma rq_bounds c : sumq (at_cpu c (counted active)) (tasks x) <= sumq (at_cpu c (counted member)) (tasks x) <= total_bw (domain x).
Proof.
  split; [|rewrite (di_total _ _ IV); pose proof (total_nonneg _ (di_leaked _ _ IV)); etransitivity; [|apply Z.add_le_mono; [apply (sumq_mono (at_cpu c (counted member)) (counted acct))|eassumption]]; [lia|]].
  all: try (apply sumq_mono); intros p t Ht; pose proof (parts_range p t (di_task _ _ IV _ _ Ht)); unfold at_cpu; destruct (_ =? _); lia.
Qed.

Lemma inv_room p t : tasks x !! p = Some t -> room (2 ^ 60) (domain x) (cpu t) (counted active t) (counted member t) (counted acct t).
Proof.
  intros Hp. pose proof (parts_range p t (di_task _ _ IV _ _ Hp)) as P. destruct (rq_bounds (cpu t)) as [B1 B2].
  assert (B3 : total_bw (domain x) <= 2 ^ 32 * 2 ^ 16).
  { etransitivity; [apply (di_limit _ _ IV)|]. apply Z.mul_le_mono_nonneg; destruct (di_bw _ _ IV), (di_cpus _ _ IV); lia. }
  assert (B4 : counted active t <= sumq (at_cpu (cpu t) (counted active)) (tasks x)) by (apply (part_at_cpu _ _ p); [|done..]; intros p0 t0 It; pose proof (parts_range p0 t0 It); lia).
  assert (B5 : counted member t <= sumq (at_cpu (cpu t) (counted member)) (tasks x)) by (apply (part_at_cpu _ _ p); [|done..]; intros p0 t0 It; pose proof (parts_range p0 t0 It); lia).
  assert (B6 : counted acct t <= sumq (counted acct) (tasks x)).
  { apply sumq_part with p; [|done]. intros y a Hy. pose proof (parts_range y a (di_task _ _ IV _ _ Hy)). lia. }
  pose proof (total_nonneg _ (di_leaked _ _ IV)). pose proof (di_total _ _ IV). split; [| |apply (di_cpus _ _ IV)|]; [|lia..].
  intros r Hr. destruct (di_rq _ _ IV _ _ Hr) as (-> & -> & _). lia.
Qed.

(** One operation on any task: the counters follow the task's part in them. *)
Lemma any_do_ok p t o : tasks x !! p = Some t -> op_ok (gov p) o -> exists r, dl_do o (domain x) t = Ok r /\
  match r with
  | None => True
  | Some (_, d', t') => cpu t' = cpu t /\ any_inv p t' /\ Forall (fun b => 0 <= b) (leaks t t') /\
      moved (domain x) d' (cpu t) (counted active t' - counted active t) (counted member t' - counted member t) (counted acct t' - counted acct t + total (leaks t t'))
        (share (domain x) (counted acct t) - share (domain x) (counted acct t') - total (share (domain x) <$> leaks t t')) /\
      total_bw d' <= base * dl_bw_cpus (domain x)
  end.
Proof.
  intros Ht Ho. assert (IT := di_task _ _ IV _ _ Ht). assert (RM := inv_room _ _ Ht). unfold any_inv in *. destruct (gov p) eqn:Eg.
  - destruct (gov_do_ok IT (domain x) o Ho) as (r & Er & Hr). exists r. split; [done|]. destruct r as [[[err d'] t']|]; [|done]. destruct Hr as (-> & Ec & G').
    destruct (counted_gov t IT) as (-> & -> & ->). destruct (counted_gov t' G') as (-> & -> & ->).
    assert (El : leaks t t' = []) by (unfold leaks; destruct (has_policy t) eqn:Hp; [by rewrite (gi_policy _ IT Hp)|by rewrite ?andb_false_r]).
    rewrite El. split; [done|]. split; [done|]. split; [constructor|]. split; [apply (moved_as (moved_refl _ _)); cbn; lia|apply (di_limit _ _ IV)].
  - rewrite !counted_plain in RM by done. destruct (di_bw _ _ IV) as [Eb Hb]. destruct (di_cpus _ _ IV) as [Hc1 Hc2].
    destruct (do_ok RM IT o Ho ltac:(lia) ltac:(lia)) as (r & Er & Hr). exists r. split; [done|]. destruct r as [[[err d'] t']|]; [|done].
    destruct Hr as [S1 S2 S3 S4]. rewrite !counted_plain by done. split; [done|]. split; [done|]. split; [|split; [done|pose proof (di_limit _ _ IV); rewrite Eb in S4; lia]].
    unfold leaks. case_match; constructor; [|constructor]. destruct IT. lia.
Qed.

Lemma step_inv po : op_ok (gov po.1) po.2 -> exists x', dl_step x po = Ok x' /\ dl_inv base x'.
Proof.
  intros Ho. unfold dl_step. destruct (tasks x !! po.1) as [t|] eqn:Ht; [|by exists x].
  destruct (any_do_ok _ _ _ Ht Ho) as (r & Er & Hr). rewrite Er. cbn [res_bind]. destruct r as [[[err d'] t']|]; [|by exists x]. eexists. split; [done|]. clear Er.
  destruct Hr as (S1 & S2 & S5 & S3 & S4). assert (Es : share d' = share (domain x)) by (unfold share; by rewrite (moved_cpus S3)).
  assert (Ecpus := moved_cpus S3). split; cbn [domain tasks leaked].
  - split; [by rewrite (mv_bw _ _ _ _ _ _ _ S3); apply (di_bw _ _ IV)|apply (di_bw _ _ IV)].
  - rewrite Ecpus. apply (di_cpus _ _ IV).
  - intros p t0 Hp. destruct (Z.eq_dec p po.1) as [->|Hne]; [rewrite lookup_insert_eq in Hp; by injection Hp as <-|].
    rewrite lookup_insert_ne in Hp by done. by apply (di_task _ _ IV p).
  - intros c r' Hr'. destruct (mv_rq _ _ _ _ _ _ _ S3 _ _ Hr') as (r & Hr & E1 & E2 & E3).
    destruct (di_rq _ _ IV _ _ Hr) as (F1 & F2 & F3). rewrite !(sumq_update _ _ _ _ _ Ht), Es, fmap_app, total_app.
    unfold at_cpu at 2 3 5 6. rewrite S1, (Z.eqb_sym (cpu t) c). split; [rewrite E1, F1; destruct (_ =? _); lia|]. split; [rewrite E2, F2; destruct (_ =? _); lia|].
    rewrite E3. unfold u64 in *. rewrite <- Zplus_mod_idemp_l, F3, Zplus_mod_idemp_l. f_equal. lia.
  - rewrite (sumq_update _ _ _ _ _ Ht), total_app, (mv_total _ _ _ _ _ _ _ S3), (di_total _ _ IV). lia.
  - by rewrite Ecpus.
  - apply Forall_app. split; [done|apply (di_leaked _ _ IV)].
Qed.
End Inductive.

Lemma run_inv base x l : dl_inv base x -> Forall (fun po => op_ok (gov po.1) po.2) l -> exists x', dl_run x l = Ok x' /\ dl_inv base x'.
Proof.
  intros IV Hl. revert x IV. induction Hl as [|po l Ho Hl IH]; intros x IV; cbn; [by exists x|].
  destruct (step_inv IV po Ho) as (x1 & -> & IV1). cbn. by apply IH.
Qed.

(** A task that has never been in the class. *)
Record fresh (t : dl_task) : Prop := {
  fr_policy : has_policy t = false; fr_dead : dead t = false; fr_timer : timer t = hrtimer_idle;
  fr_params : dl t = __dl_clear_params (dl t) }.

Lemma fresh_inv p t : fresh t -> any_inv p t /\ counted active t = 0 /\ counted member t = 0 /\ counted acct t = 0.
Proof.
  intros [F1 F2 F3 F4]. split; [|unfold counted, active, member, acct; rewrite F1, F3, idle_inactive; by destruct (dl_entity_is_special _)].
  unfold any_inv, plain. destruct (gov p); split; try congruence; try (rewrite F3; apply idle_inactive); rewrite F4; cbn; done.
Qed.

Record sysctl_ok (s : rt_sysctl) : Prop := { sy_period : 0 < sysctl_sched_rt_period s < 2 ^ 31; sy_runtime : 0 <= sysctl_sched_rt_runtime s <= sysctl_sched_rt_period s }.

Lemma sysctl_bw s : sysctl_ok s -> global_bw s = to_ratio (global_rt_period s) (global_rt_runtime s) /\ 0 <= global_bw s <= BW_UNIT /\
  extra_bw (init_dl_rq s) = global_bw s.
Proof.
  intros [H1 H2]. unfold init_dl_rq, init_dl_rq_bw_ratio, global_bw, global_rt_period, global_rt_runtime.
  destruct (Z.ltb_spec (sysctl_sched_rt_runtime s) 0); [lia|]. rewrite !u64_small by lia.
  destruct (Z.eqb_spec (sysctl_sched_rt_runtime s * 1000) RUNTIME_INF) as [E|_]; [unfold RUNTIME_INF in E; lia|].
  split; [done|]. split; [apply to_ratio_range; lia|done].
Qed.

Lemma init_inv s queues ts : sysctl_ok s -> 0 < Z.of_nat (size queues) <= 2 ^ 16 -> (forall c r, queues !! c = Some r -> r = init_dl_rq s) ->
  (forall p t, ts !! p = Some t -> fresh t) -> dl_inv (global_bw s) (mk_machine (init_dl_bw s queues) ts []).
Proof.
  intros Hs Hsize Hq Hf. destruct (sysctl_bw s Hs) as (_ & Hb & He). unfold BW_UNIT in Hb.
  assert (Z1 : forall c f, (forall t, fresh t -> f t = 0) -> sumq (at_cpu c f) ts = 0).
  { intros c f Hf0. apply sumq_zero. intros p t Ht. unfold at_cpu. destruct (_ =? _); [|done]. by apply Hf0, (Hf p). }
  assert (Z2 : forall f, (forall t, fresh t -> f t = 0) -> sumq f ts = 0) by (intros f Hf0; apply sumq_zero; intros p t Ht; by apply Hf0, (Hf p)).
  assert (Hi : forall t, fresh t -> counted active t = 0 /\ counted member t = 0 /\ counted acct t = 0) by (intros t Ht; by apply (fresh_inv 0)).
  split; cbn [domain tasks leaked init_dl_bw bw total_bw rqs].
  - split; [done|lia].
  - done.
  - intros p t Ht. by apply fresh_inv, (Hf p).
  - intros c r Hr. rewrite (Hq c r Hr), !Z1, Z2 by (intros t Ht; destruct (Hi t Ht) as (E1 & E2 & E3); rewrite ?E1, ?E2, ?E3; done).
    rewrite He. cbn [total foldr fmap list_fmap]. rewrite !Z.sub_0_r. unfold init_dl_rq, init_dl_rq_bw_ratio. by destruct (_ =? _).
  - rewrite Z2; [done|]. intros t Ht. by apply Hi.
  - apply Z.mul_nonneg_nonneg; [lia|]. unfold dl_bw_cpus. cbn. lia.
  - constructor.
Qed.

(** The reclaimable rest of a run queue is not negative: shares are rounded down. *)
Lemma shares_fit base x : dl_inv base x ->
  0 <= base - sumq (fun t => share (domain x) (counted acct t)) (tasks x) - total (share (domain x) <$> leaked x) <= base.
Proof.
  intros IV. destruct (di_cpus _ _ IV) as [Hc _]. set (n := dl_bw_cpus (domain x)) in *.
  assert (S1 : n * sumq (fun t => share (domain x) (counted acct t)) (tasks x) <= sumq (counted acct) (tasks x)).
  { rewrite <- sumq_scale. apply sumq_mono. intros p t _. unfold share. apply Z.mul_div_le. done. }
  assert (S2 : n * total (share (domain x) <$> leaked x) <= total (leaked x)).
  { clear S1. induction (leaked x) as [|b l IH]; [cbn; lia|]. rewrite fmap_cons. unfold total in *. cbn [foldr]. unfold share at 1. fold n.
    pose proof (Z.mul_div_le b n Hc). lia. }
  assert (S3 : 0 <= sumq (fun t => share (domain x) (counted acct t)) (tasks x)).
  { apply sumq_nonneg_on. intros p t Ht. pose proof (parts_range p t (di_task _ _ IV _ _ Ht)). apply Z.div_pos; [lia|exact Hc]. }
  assert (S4 : 0 <= total (share (domain x) <$> leaked x)).
  { apply total_nonneg, Forall_fmap. eapply Forall_impl; [apply (di_leaked _ _ IV)|]. intros b Hb. cbn. apply Z.div_pos; [exact Hb|exact Hc]. }
  pose proof (di_limit _ _ IV). pose proof (di_total _ _ IV). fold n in H0. nia.
Qed.

(** C15: Admission control and the utilisation of the deadline class are sound.  Start from a
    root domain of up to 65536 CPUs with sysctl limits 0 <= runtime <= period, and tasks that
    have never been in the class, some of them threads of the frequency governor, and apply
    any sequence of operations: requests by the kernel for a change of policy and parameters
    (accepted or refused), blocking, waking, dying, expiry and run of the inactive timer, also
    when it could not be cancelled in time, and arbitrary budgets and deadlines.  Requests do
    not have the flag KEEP_PARAMS (with it the total goes wrong, see [keep_params_leaks]), and
    those for the class have the flag SUGOV exactly for the governor's threads.
    No operation fails; on every run queue [running_bw] is the bandwidth of the tasks that
    are active (queued, or waiting for their 0-lag time) and [this_bw] that of all its tasks
    of the class, the governor's apart, so that no counter ever wraps or saturates; the
    domain's total is exactly the bandwidth of the tasks of the class and of those whose timer
    still runs, the governor's apart, plus what was left behind by tasks that left while
    inactive; it never exceeds the limit of the domain; and each run queue's reclaimable
    bandwidth is the limit less its share of it.  The bandwidth of a task is what [to_ratio]
    computes when it is admitted. *)
Theorem dl_bandwidth_sound s queues ts l : sysctl_ok s -> 0 < Z.of_nat (size queues) <= 2 ^ 16 ->
  (forall c r, queues !! c = Some r -> r = init_dl_rq s) -> (forall p t, ts !! p = Some t -> fresh t) -> Forall (fun po => op_ok (gov po.1) po.2) l ->
  exists x, dl_run (mk_machine (init_dl_bw s queues) ts []) l = Ok x /\
    (forall c r, rqs (domain x) !! c = Some r ->
      running_bw r = sumq (at_cpu c (counted active)) (tasks x) /\ this_bw r = sumq (at_cpu c (counted member)) (tasks x) /\
      running_bw r <= this_bw r <= total_bw (domain x) /\
      u64 (extra_bw r) = global_bw s - sumq (fun t => share (domain x) (counted acct t)) (tasks x) - total (share (domain x) <$> leaked x)) /\
    total_bw (domain x) = sumq (counted acct) (tasks x) + total (leaked x) /\
    total_bw (domain x) <= global_bw s * dl_bw_cpus (domain x).
Proof.
  intros Hs Hsize Hq Hf Hl. destruct (run_inv _ _ l (init_inv s queues ts Hs Hsize Hq Hf) Hl) as (x & E & IV).
  exists x. split; [done|]. split; [|split; [apply (di_total _ _ IV)|apply (di_limit _ _ IV)]].
  intros c r Hr. destruct (di_rq _ _ IV _ _ Hr) as (E1 & E2 & E3). destruct (sysctl_bw s Hs) as (_ & Hb & _).
  split; [done|]. split; [done|]. split; [rewrite E1, E2; apply (rq_bounds IV)|].
  rewrite E3. apply u64_small. pose proof (shares_fit _ _ IV). unfold BW_UNIT in Hb. lia.
Qed.
End Machine.
End Bandwidth.

(** ** A timer, and runs of the machine *)

Inductive a_timer := Idle | Armed | Running.

#[export] Instance a_hrtimer : HrTimer a_timer.
Proof.
  refine {| hrtimer_idle := Idle; hrtimer_active t := match t with Idle => false | _ => true end; hrtimer_start _ := Armed;
    hrtimer_try_to_cancel t := match t with Running => Running | _ => Idle end;
    hrtimer_expire t := match t with Armed => Running | t => t end; hrtimer_done _ := Idle |}; try done; intros []; auto.
Defined.

Definition a_task (c : Z) : dl_task := mk_task (mk_dl_se 0 0 0 0 0 0 0 0 false false false false false) c false true false Idle.
Definition a_sysctl : rt_sysctl := mk_rt_sysctl 1000000 950000.
Definition two_rqs : gmap Z dl_rq := {[ 0 := init_dl_rq a_sysctl; 1 := init_dl_rq a_sysctl ]}.
Definition three_tasks : gmap Z dl_task := {[ 10 := a_task 0; 11 := a_task 1; 12 := a_task 0 ]}.
Definition a_machine : machine := mk_machine (init_dl_bw a_sysctl two_rqs) three_tasks [].
Definition half : sched_attr := mk_attr 0 50000000 100000000 0.
Definition most : sched_attr := mk_attr 0 90000000 100000000 0.
Definition other : sched_attr := mk_attr 0 0 0 0.

(** Two reservations are admitted and a third is not; the first task blocks before its 0-lag
    time, its timer expires while it wakes up; the second one leaves the class. *)
Definition a_run : list (Z * dl_op) :=
  [(10, Setattr true most 0); (11, Setattr true half 0); (12, Setattr true half 0); (10, Budget 10000000 100000000);
   (10, Block false 1000); (10, Expire); (10, Wake); (10, Fire); (11, Setattr false other 0); (10, Block true 1000)].

Lemma fresh_tasks p t : three_tasks !! p = Some t -> fresh t.
Proof.
  unfold three_tasks. intros H. repeat (apply lookup_insert_Some in H as [[<- <-]|[_ H]]; [done|]).
  apply lookup_singleton_Some in H as [<- <-]. done.
Qed.

Lemma two_rqs_init c r : two_rqs !! c = Some r -> r = init_dl_rq a_sysctl.
Proof.
  unfold two_rqs. intros H. repeat (apply lookup_insert_Some in H as [[_ <-]|[_ H]]; [done|]). by apply lookup_singleton_Some in H as [_ <-].
Qed.

(** The same with a thread of the governor, which is not accounted. *)
Definition governor : sched_attr := mk_attr SCHED_FLAG_SUGOV 1000000 10000000 10000000.
Definition four_tasks : gmap Z dl_task := <[13 := a_task 1]> three_tasks.
Definition a_governed_run : list (Z * dl_op) := (13, Setattr true governor 0) :: a_run ++ [(13, Block false 0); (13, Wake)].

Lemma dl_bandwidth_sound_witness : exists x, dl_run (mk_machine (init_dl_bw a_sysctl two_rqs) four_tasks []) a_governed_run = Ok x /\
  total_bw (domain x) = sumq (counted acct) (tasks x) + total (leaked x) /\ total_bw (domain x) <= global_bw a_sysctl * dl_bw_cpus (domain x).
Proof.
  destruct (dl_bandwidth_sound (Z.eqb 13) a_sysctl two_rqs four_tasks a_governed_run) as (x & E & _ & H1 & H2).
  - split; cbn; lia.
  - vm_compute. split; congruence.
  - exact two_rqs_init.
  - intros p t Ht. unfold four_tasks in Ht. apply lookup_insert_Some in Ht as [[<- <-]|[_ Ht]]; [done|by apply (fresh_tasks p)].
  - repeat constructor; cbn; try done; intros; lia.
  - exists x. split; [exact E|]. split; [exact H1|exact H2].
Defined.

(** *** What the accounting misses *)

(** The total of a domain, the tasks of the class, the active timers, and what a request of
    task 12 for half a CPU would be answered. *)
Definition outcome (r : res (machine (T := a_timer))) : option (Z * nat * nat * Z) :=
  match r with
  | Ok x =>
      let ts := (map_to_list (tasks x)).*2 in
      match tasks x !! 12 with
      | Some t =>
          match __sched_setscheduler (domain x) t true half 0 with
          | Ok (err, _, _) =>
              Some (total_bw (domain x), length (filter (fun t => has_policy t = true) ts), length (filter (fun t => hrtimer_active (timer t) = true) ts), err)
          | Fault _ => None
          end
      | None => None
      end
  | Fault _ => None
  end.

(** A task enters with half a CPU, blocks past its 0-lag time, and leaves. *)
Definition visit : list (Z * dl_op) :=
  [(11, Setattr true half 0); (11, Budget 0 100000000); (11, Block false 200000000); (11, Setattr false other 200000000); (11, Wake)].

(** After three visits the class is empty and no timer runs, but 1.5 CPUs of 1.9 are gone and
    a request for half a CPU is refused. *)
Example inactive_leave_leaks : outcome (dl_run a_machine (visit ++ visit ++ visit)) = Some (3 * 524288, 0%nat, 0%nat, - EBUSY).
Proof. vm_compute. reflexivity. Qed.

(** With KEEP_PARAMS a task outside the class stays outside, but is charged. *)
Example keep_params_leaks :
  outcome (dl_run a_machine [(11, Setattr true (mk_attr 16 50000000 100000000 0) 0)]) = Some (524288, 0%nat, 0%nat, 0).
Proof. vm_compute. reflexivity. Qed.

(** A reservation of 2^44 ns and more, about five hours, is counted as nothing: the shift in
    [to_ratio] overflows.  On a full domain it is admitted. *)
Definition huge : sched_attr := mk_attr 0 (2 ^ 44) (2 ^ 44) 0.

Example huge_is_free : __checkparam_dl huge = true /\ to_ratio (period_of huge) (sched_runtime huge) = 0 /\
  outcome (dl_run a_machine [(10, Setattr true most 0); (11, Setattr true most 0); (12, Setattr true huge 0)]) = Some (2 * 943718, 3%nat, 0%nat, - EBUSY).
Proof. vm_compute. done. Qed.

(** The product in the 0-lag time overflows for reservations of a few seconds: with a budget
    of 4 s in a period of 4 s, and all of it left, the 0-lag time is now, but 4.6 s ahead for the
    code. *)
Example zerolag_overflows :
  let e := mk_dl_se 4000000000 4000000000 4000000000 BW_UNIT BW_UNIT 4000000000 10000000000 0 false false false false false in
  zerolag_time e 6000000000 = 4611686018 /\ deadline e - runtime e * dl_period e / dl_runtime e - 6000000000 = 0.
Proof. vm_compute. done. Qed.

(** Lowering the global limit is checked against the limit of one CPU: the limits in force are
    refused when they are written back on a domain of two CPUs that is two thirds full. *)
Example validate_per_cpu : forall x, dl_run a_machine [(10, Setattr true most 0); (11, Setattr true half 0)] = Ok x ->
  sched_dl_global_validate a_sysctl [domain x] = - EBUSY /\ total_bw (domain x) <= global_bw a_sysctl * dl_bw_cpus (domain x).
Proof. intros x E. vm_compute in E. injection E as <-. vm_compute. split; congruence. Qed.

(** Writing the same global limits again gives every run queue its whole limit to reclaim, as if
    nothing had been admitted. *)
Example do_global_forgets : forall x, dl_run a_machine [(10, Setattr true half 0)] = Ok x ->
  (extra_bw <$> rqs (sched_dl_do_global a_sysctl (domain x)) !! 0) = Some 996147 /\ (extra_bw <$> rqs (domain x) !! 0) = Some (996147 - 262144) /\
  total_bw (sched_dl_do_global a_sysctl (domain x)) = 524288.
Proof. intros x E. vm_compute in E. injection E as <-. vm_compute. done. Qed.
