(* ===== verification/DeadlineServer.v ===== *)
(** * The deadline class: the constant bandwidth server

    The rules by which the budget and the absolute deadline of an entity change as it runs,
    is throttled, wakes up and is replenished.  [clock] is the run queue's clock; [pi] is the
    entity whose parameters count, the entity itself unless it is boosted.  The queues of the
    class and the timer's hardware are not part of this file. *)

From stdpp Require Import gmap.
From S2P Require Import Prelude Math64 Pelt Cpudl Deadline.
Local Open Scope Z_scope.
Local Open Scope res_scope.

Definition ENQUEUE_RESTORE : Z := 2.
Definition ENQUEUE_REPLENISH : Z := 32.

Definition setup_new_dl_entity (e : sched_dl_entity) (clock : Z) : sched_dl_entity :=
  if dl_throttled e then e else set_budget e (s64 (dl_runtime e)) (u64 (clock + dl_deadline e)).

Fixpoint replenish_loop (fuel : nat) (pi e : sched_dl_entity) : res sched_dl_entity :=
  if runtime e <=? 0 then
    match fuel with
    | O => Fault NoFuel
    | S fuel => replenish_loop fuel pi (set_budget e (s64 (runtime e + dl_runtime pi)) (u64 (deadline e + dl_period pi)))
    end
  else Ok e.

(** The fuel is the number of budgets that pay for the overrun. *)
Definition replenish_fuel (pi e : sched_dl_entity) : nat := S (Z.to_nat (- runtime e / dl_runtime pi)).

Definition replenish_dl_entity (e pi : sched_dl_entity) (clock : Z) : res sched_dl_entity :=
  if dl_runtime pi <=? 0 then Fault BugOn
  else
    let e := if dl_deadline e =? 0 then set_budget e (s64 (dl_runtime pi)) (u64 (clock + dl_deadline pi)) else e in
    let e := if dl_yielded e && (runtime e >? 0) then set_budget e 0 (deadline e) else e in
    e <-- replenish_loop (replenish_fuel pi e) pi e;
    let e := if dl_time_before (deadline e) clock then set_budget e (s64 (dl_runtime pi)) (u64 (clock + dl_deadline pi)) else e in
    Ok (set_throttled e false false (dl_overrun e)).

Definition dl_entity_overflow (e pi : sched_dl_entity) (t : Z) : bool :=
  let left := u64 (Z.shiftr (dl_deadline pi) DL_SCALE * Z.shiftr (runtime e) DL_SCALE) in
  let right := u64 (Z.shiftr (u64 (deadline e - t)) DL_SCALE * Z.shiftr (dl_runtime pi) DL_SCALE) in
  dl_time_before right left.

Definition update_dl_revised_wakeup (e : sched_dl_entity) (clock : Z) : sched_dl_entity :=
  let laxity := u64 (deadline e - clock) in
  set_budget e (s64 (Z.shiftr (u64 (dl_density e * laxity)) BW_SHIFT)) (deadline e).

Definition dl_is_implicit (e : sched_dl_entity) : bool := dl_deadline e =? dl_period e.

Definition update_dl_entity (e pi : sched_dl_entity) (clock : Z) : sched_dl_entity :=
  if dl_time_before (deadline e) clock || dl_entity_overflow e pi clock then
    if negb (dl_is_implicit e) && negb (dl_time_before (deadline e) clock) && negb (dl_boosted e) then update_dl_revised_wakeup e clock
    else set_budget e (s64 (dl_runtime pi)) (u64 (clock + dl_deadline pi))
  else e.

Definition dl_next_period (e : sched_dl_entity) : Z := u64 (deadline e - dl_deadline e + dl_period e).

(** Whether the timer could be started: [now] is the time of the timer's base. *)
Definition start_dl_timer (e : sched_dl_entity) (clock now : Z) : bool :=
  let act := s64 (s64 (dl_next_period e) + s64 (now - clock)) in
  negb (Z.quot (s64 (act - now)) 1000 <? 0).

Definition dl_check_constrained_dl (e : sched_dl_entity) (clock now : Z) : sched_dl_entity :=
  if dl_time_before (deadline e) clock && dl_time_before clock (dl_next_period e) then
    if dl_boosted e || negb (start_dl_timer e clock now) then e
    else
      let e := set_throttled e true (dl_yielded e) (dl_overrun e) in
      if runtime e >? 0 then set_budget e 0 (deadline e) else e
  else e.

Definition dl_runtime_exceeded (e : sched_dl_entity) : bool := runtime e <=? 0.

Definition grub_reclaim (delta : Z) (r : dl_rq) (e : sched_dl_entity) : Z :=
  let u_inact := u64 (this_bw r - running_bw r) in
  let u_act_min := Z.shiftr (u64 (dl_bw_of_se e * bw_ratio r)) RATIO_SHIFT in
  let u_act := if u64 (u_inact + extra_bw r) >? u64 (BW_UNIT - u_act_min) then u_act_min else u64 (u64 (BW_UNIT - u_inact) - extra_bw r) in
  Z.shiftr (u64 (delta * u_act)) BW_SHIFT.

(** [enqueue_dl_entity] up to the queue itself. *)
Definition enqueue_dl_entity (e pi : sched_dl_entity) (flags clock : Z) : res sched_dl_entity :=
  if negb (Z.land flags ENQUEUE_WAKEUP =? 0) then Ok (update_dl_entity e pi clock)
  else if negb (Z.land flags ENQUEUE_REPLENISH =? 0) then replenish_dl_entity e pi clock
  else if negb (Z.land flags ENQUEUE_RESTORE =? 0) && dl_time_before (deadline e) clock then Ok (setup_new_dl_entity e clock)
  else Ok e.

(** [enqueue_task_dl] of a task whose priority is one of the class: the entity, and whether it
    was queued.  [pi]: the entity of the waiter that boosts it, if any. *)
Definition enqueue_task_dl (e : sched_dl_entity) (pi : option sched_dl_entity) (flags clock now : Z) : res (sched_dl_entity * bool) :=
  let e := if negb (dl_throttled e) && negb (dl_is_implicit e) then dl_check_constrained_dl e clock now else e in
  if dl_throttled e && (Z.land flags ENQUEUE_REPLENISH =? 0) then Ok (e, false)
  else
    e <-- enqueue_dl_entity e (match pi with Some w => w | None => e end) flags clock;
    Ok (e, true).

(** [update_curr_dl] on a queued task that has run for [delta_exec]: the entity, and whether
    it is still queued.  Time that a thread of the frequency governor has run is not charged. *)
Definition update_curr_dl (e : sched_dl_entity) (pi : option sched_dl_entity) (r : dl_rq) (delta_exec clock now : Z) : res (sched_dl_entity * bool) :=
  if (s64 delta_exec <=? 0) && negb (dl_yielded e) then Ok (e, true)
  else if negb (s64 delta_exec <=? 0) && dl_entity_is_special e then Ok (e, true)
  else
    let e :=
      if s64 delta_exec <=? 0 then e
      else
        let scaled :=
          if negb (Z.land (dl_flags e) SCHED_FLAG_RECLAIM =? 0) then grub_reclaim delta_exec r e
          else cap_scale (cap_scale delta_exec arch_scale_freq_capacity) arch_scale_cpu_capacity in
        set_budget e (s64 (runtime e - scaled)) (deadline e) in
    if dl_runtime_exceeded e || dl_yielded e then
      let overrun := dl_overrun e || (dl_runtime_exceeded e && negb (Z.land (dl_flags e) SCHED_FLAG_DL_OVERRUN =? 0)) in
      let e := set_throttled e true (dl_yielded e) overrun in
      if dl_boosted e || negb (start_dl_timer e clock now) then enqueue_task_dl e pi ENQUEUE_REPLENISH clock now
      else Ok (e, false)
    else Ok (e, true).

(** The handler of the replenishment timer, for a task of the class that is not boosted: the
    entity, and whether it was put back on the queue.  [on_rq]: the task is runnable. *)
Definition dl_task_timer (e : sched_dl_entity) (on_rq : bool) (clock now : Z) : res (sched_dl_entity * bool) :=
  if dl_boosted e || negb (dl_throttled e) then Ok (e, on_rq)
  else if negb on_rq then e <-- replenish_dl_entity e e clock; Ok (e, false)
  else enqueue_task_dl e None ENQUEUE_REPLENISH clock now.

(** [yield_task_dl]. *)
Definition yield_task_dl (e : sched_dl_entity) (pi : option sched_dl_entity) (r : dl_rq) (delta_exec clock now : Z) : res (sched_dl_entity * bool) :=
  update_curr_dl (set_throttled e (dl_throttled e) true (dl_overrun e)) pi r delta_exec clock now.

(** ** Replenishment *)

Lemma dl_before a b : 0 <= a < 2 ^ 63 -> 0 <= b < 2 ^ 63 -> dl_time_before a b = (a <? b).
Proof.
  intros Ha Hb. unfold dl_time_before. rewrite (s64_near _ (a - b)) by (try lia; unfold u64; by rewrite Z.mod_mod).
  destruct (Z.ltb_spec a b); [apply Z.ltb_lt|apply Z.ltb_ge]; lia.
Qed.

Lemma set_budget_twice e r d r' d' : set_budget (set_budget e r d) r' d' = set_budget e r' d'.
Proof. reflexivity. Qed.

(** The number of budgets it takes to get out of an overrun. *)
Definition periods (r budget : Z) : Z := if r <=? 0 then - r / budget + 1 else 0.

Lemma periods_step r budget : 0 < budget -> r <= 0 -> periods (r + budget) budget = periods r budget - 1.
Proof.
  intros Hb Hr. unfold periods. destruct (Z.leb_spec r 0); [|lia]. destruct (Z.leb_spec (r + budget) 0).
  - replace (- (r + budget)) with (- r + (-1) * budget) by lia. rewrite Z.div_add by lia. lia.
  - rewrite Z.div_small by lia. lia.
Qed.

Lemma periods_range r budget : 0 < budget -> 0 <= periods r budget /\ 0 < r + periods r budget * budget /\ (r <= 0 -> r + periods r budget * budget <= budget).
Proof.
  intros Hb. unfold periods. destruct (Z.leb_spec r 0); [|lia]. pose proof (Z.div_mod (- r) budget ltac:(lia)). pose proof (Z.mod_pos_bound (- r) budget Hb).
  split; [pose proof (Z.div_pos (- r) budget ltac:(lia) Hb); lia|]. split; [|intros _]; nia.
Qed.

Lemma replenish_loop_ok pi : 0 < dl_runtime pi < 2 ^ 62 -> forall fuel e, - 2 ^ 62 <= runtime e < 2 ^ 62 -> 0 <= deadline e < 2 ^ 64 ->
  periods (runtime e) (dl_runtime pi) <= Z.of_nat fuel ->
  replenish_loop fuel pi e = Ok (set_budget e (runtime e + periods (runtime e) (dl_runtime pi) * dl_runtime pi)
                                   (u64 (deadline e + periods (runtime e) (dl_runtime pi) * dl_period pi))).
Proof.
  intros Hpi. induction fuel as [|fuel IH]; intros e Hr Hd Hf; cbn [replenish_loop].
  all: destruct (Z.leb_spec (runtime e) 0) as [L|L];
    [|replace (periods _ _) with 0 by (unfold periods; destruct (Z.leb_spec (runtime e) 0); lia); rewrite !Z.mul_0_l, !Z.add_0_r, u64_small by lia; by destruct e].
  - destruct (periods_range (runtime e) (dl_runtime pi) ltac:(lia)) as (G1 & G2 & _). assert (periods (runtime e) (dl_runtime pi) = 0) by lia. nia.
  - pose proof (periods_step (runtime e) (dl_runtime pi) ltac:(lia) L) as G. rewrite s64_small by lia.
    rewrite IH; cbn [runtime deadline set_budget]; [|lia|apply u64_range|lia]. rewrite set_budget_twice, G. f_equal. f_equal; [lia|].
    unfold u64. rewrite Zplus_mod_idemp_l. f_equal. lia.
Qed.

(** The budget a replenishment starts from: a task that yielded gives up what it has left. *)
Definition debt (e : sched_dl_entity) : Z := if dl_yielded e then Z.min (runtime e) 0 else runtime e.

Lemma replenish_ok e pi clock : dl_deadline e <> 0 -> 0 < dl_runtime pi < 2 ^ 62 -> - 2 ^ 62 <= runtime e < 2 ^ 62 -> 0 <= deadline e < 2 ^ 64 ->
  let k := periods (debt e) (dl_runtime pi) in
  let d := u64 (deadline e + k * dl_period pi) in
  replenish_dl_entity e pi clock =
    Ok (set_throttled
          (if dl_time_before d clock then set_budget e (dl_runtime pi) (u64 (clock + dl_deadline pi))
           else set_budget e (debt e + k * dl_runtime pi) d) false false (dl_overrun e)).
Proof.
  intros Hdl Hpi Hr Hd k d. unfold replenish_dl_entity. destruct (Z.leb_spec (dl_runtime pi) 0); [lia|].
  destruct (Z.eqb_spec (dl_deadline e) 0); [done|]. rewrite (s64_small (dl_runtime pi)) by lia.
  set (e1 := if dl_yielded e && (runtime e >? 0) then _ else _).
  assert (E1 : runtime e1 = debt e /\ deadline e1 = deadline e /\ forall r x, set_budget e1 r x = set_budget e r x).
  { unfold e1, debt. destruct (dl_yielded e); cbn [andb]; [|done]. destruct (runtime e >? 0) eqn:E; zbool; cbn; repeat split; lia. }
  destruct E1 as (E1 & E2 & E3). assert (B : - 2 ^ 62 <= debt e < 2 ^ 62) by (unfold debt; destruct (dl_yielded e); lia).
  rewrite replenish_loop_ok; [|lia|lia|lia|].
  - cbn [res_bind]. rewrite E1, E2, E3. fold k d. cbn [deadline set_budget]. rewrite !set_budget_twice. by destruct (dl_time_before d clock).
  - unfold replenish_fuel. rewrite E1. unfold periods. destruct (Z.leb_spec (debt e) 0); [|lia].
    pose proof (Z.div_pos (- debt e) (dl_runtime pi) ltac:(lia) ltac:(lia)). lia.
Qed.

(** C18: Replenishment ends and restores a budget.  However large the overrun, the loop ends
    after [-runtime / dl_runtime + 1] rounds: the deadline moves by that many periods and the
    budget grows by as many budgets, into (0, dl_runtime]; a task that yielded first gives up
    what it had left.  If the new deadline is already past, the entity starts afresh from the
    current time.  In both cases it comes out with a budget and is neither throttled nor
    yielded any more. *)
Theorem replenish_dl_entity_correct e pi clock : dl_deadline e <> 0 -> 0 < dl_runtime pi < 2 ^ 62 -> - 2 ^ 62 <= runtime e < 2 ^ 62 -> 0 <= deadline e < 2 ^ 64 ->
  exists e', replenish_dl_entity e pi clock = Ok e' /\ dl_throttled e' = false /\ dl_yielded e' = false /\ 0 < runtime e' /\
    (debt e <= 0 -> runtime e' <= dl_runtime pi) /\
    let k := periods (debt e) (dl_runtime pi) in
    if dl_time_before (u64 (deadline e + k * dl_period pi)) clock
    then runtime e' = dl_runtime pi /\ deadline e' = u64 (clock + dl_deadline pi)
    else runtime e' = debt e + k * dl_runtime pi /\ deadline e' = u64 (deadline e + k * dl_period pi).
Proof.
  intros H1 H2 H3 H4. eexists. split; [by apply replenish_ok|]. destruct (periods_range (debt e) (dl_runtime pi) ltac:(lia)) as (_ & G1 & G2).
  cbv zeta. destruct (dl_time_before _ _); cbn; repeat split; (done || lia).
Qed.

Definition an_entity : sched_dl_entity :=
  mk_dl_se 10000000 50000000 100000000 104857 209715 (- 25000000) 1000000000 0 true false false false false.

Lemma replenish_dl_entity_correct_witness :
  exists e', replenish_dl_entity an_entity an_entity 1090000000 = Ok e' /\ runtime e' = 5000000 /\ deadline e' = 1300000000.
Proof.
  destruct (replenish_dl_entity_correct an_entity an_entity 1090000000) as (e' & E & _ & _ & _ & _ & R); [done|done|done|done|].
  exists e'. split; [exact E|]. exact R.
Defined.

(** ** The wake-up rule *)

(** A reservation that passed [__checkparam_dl], with times below 2^41 ns (36 minutes), for
    which the scaled products of [dl_entity_overflow] stay below 2^63; it is not boosted, does
    not reclaim, and is not the governor's. *)
Record params_ok (e : sched_dl_entity) : Prop := {
  pa_runtime : 1024 <= dl_runtime e <= dl_deadline e; pa_period : dl_deadline e <= dl_period e < 2 ^ 41;
  pa_density : dl_density e = to_ratio (dl_deadline e) (dl_runtime e); pa_boosted : dl_boosted e = false;
  pa_flags : Z.land (dl_flags e) SCHED_FLAG_RECLAIM = 0; pa_plain : dl_entity_is_special e = false }.

Lemma scale_below p q l r : 0 <= p -> 0 <= q -> 0 <= l -> 0 <= r -> p / 1024 * (q / 1024) <= l / 1024 * (r / 1024) -> p * q <= l * r + 1023 * (p + q).
Proof.
  intros Hp Hq Hl Hr H. pose proof (Z.div_mod p 1024 ltac:(lia)) as E1. pose proof (Z.mod_pos_bound p 1024 ltac:(lia)).
  pose proof (Z.div_mod q 1024 ltac:(lia)) as E2. pose proof (Z.mod_pos_bound q 1024 ltac:(lia)).
  pose proof (Z.mul_div_le l 1024 ltac:(lia)). pose proof (Z.mul_div_le r 1024 ltac:(lia)).
  pose proof (Z.div_pos l 1024 ltac:(lia) ltac:(lia)). pose proof (Z.div_pos r 1024 ltac:(lia) ltac:(lia)). pose proof (Z.div_pos p 1024 ltac:(lia) ltac:(lia)).
  assert (1024 * (l / 1024) * (1024 * (r / 1024)) <= l * r) by (apply Z.mul_le_mono_nonneg; lia).
  assert (p * q = 1024 * (p / 1024) * (1024 * (q / 1024)) + 1024 * (p / 1024) * (q mod 1024) + (p mod 1024) * q) by (rewrite E1 at 1; rewrite E2 at 1; ring_simplify; nia).
  assert (1024 * (p / 1024) * (q mod 1024) <= p * 1023) by (apply Z.mul_le_mono_nonneg; lia).
  assert (p mod 1024 * q <= 1023 * q) by (apply Z.mul_le_mono_nonneg_r; lia). lia.
Qed.

Lemma overflow_scaled e t : params_ok e -> 0 <= runtime e < 2 ^ 41 -> 0 <= t -> t <= deadline e < 2 ^ 62 -> deadline e - t < 2 ^ 41 ->
  dl_entity_overflow e e t = ((deadline e - t) / 1024 * (dl_runtime e / 1024) <? dl_deadline e / 1024 * (runtime e / 1024)).
Proof.
  intros [P1 P2 _ _ _ _] Hr Ht Hd Hl. unfold dl_entity_overflow, DL_SCALE. rewrite !Z.shiftr_div_pow2 by lia. change (2 ^ 10) with 1024.
  rewrite (u64_small (deadline e - t)) by lia.
  assert (B : forall x y, 0 <= x < 2 ^ 41 -> 0 <= y < 2 ^ 41 -> 0 <= x / 1024 * (y / 1024) < 2 ^ 63).
  { intros x y Hx Hy. pose proof (Z.div_pos x 1024 ltac:(lia) ltac:(lia)). pose proof (Z.div_pos y 1024 ltac:(lia) ltac:(lia)).
    split; [apply Z.mul_nonneg_nonneg; lia|]. apply Z.le_lt_trans with (2 ^ 31 * 2 ^ 31); [|lia].
    apply Z.mul_le_mono_nonneg; try lia; apply Z.div_le_upper_bound; lia. }
  pose proof (B (deadline e - t) (dl_runtime e) ltac:(lia) ltac:(lia)). pose proof (B (dl_deadline e) (runtime e) ltac:(lia) ltac:(lia)).
  rewrite !u64_small by lia. apply dl_before; lia.
Qed.

Lemma density_share e x : params_ok e -> 0 <= x < 2 ^ 41 -> s64 (Z.shiftr (u64 (dl_density e * x)) BW_SHIFT) = dl_density e * x / BW_UNIT /\
  dl_deadline e * (dl_density e * x / BW_UNIT) <= dl_runtime e * x.
Proof.
  intros [P1 P2 P3 _ _ _] Hx. rewrite P3, to_ratio_ok by lia. unfold ratio. set (q := dl_runtime e * BW_UNIT / dl_deadline e).
  assert (Q : 0 <= q <= BW_UNIT).
  { unfold q. split; [apply Z.div_pos; unfold BW_UNIT; lia|]. apply Z.div_le_upper_bound; [lia|]. apply Z.mul_le_mono_nonneg_r; unfold BW_UNIT; lia. }
  assert (Q2 : dl_deadline e * q <= dl_runtime e * BW_UNIT) by (apply Z.mul_div_le; lia). unfold BW_UNIT, BW_SHIFT in *.
  assert (B : 0 <= q * x <= 1048576 * 2 ^ 41) by (split; [apply Z.mul_nonneg_nonneg|apply Z.mul_le_mono_nonneg]; lia).
  rewrite u64_small by lia. rewrite Z.shiftr_div_pow2 by lia. change (2 ^ 20) with 1048576. pose proof (Z.mul_div_le (q * x) 1048576 ltac:(lia)) as D.
  pose proof (Z.div_pos (q * x) 1048576 ltac:(lia) ltac:(lia)). split; [apply s64_small; lia|].
  assert (dl_deadline e * (1048576 * (q * x / 1048576)) <= dl_deadline e * (q * x)) by (apply Z.mul_le_mono_nonneg_l; lia).
  assert (dl_deadline e * q * x <= dl_runtime e * 1048576 * x) by (apply Z.mul_le_mono_nonneg_r; lia). lia.
Qed.

(** The state of an entity that is not throttled, at time [t]. *)
Record budget_ok (e : sched_dl_entity) (t : Z) : Prop := {
  bo_params : params_ok e; bo_runtime : 0 <= runtime e <= dl_runtime e; bo_time : 0 <= t < 2 ^ 61; bo_deadline : 0 <= deadline e <= t + dl_deadline e }.

(** The comparison of the wake-up rule, in units of 1024 ns: the residual budget is no larger a
    part of the time to the deadline than the reservation allows. *)
Definition fits (e : sched_dl_entity) (t : Z) : Prop :=
  dl_deadline e / 1024 * (runtime e / 1024) <= (deadline e - t) / 1024 * (dl_runtime e / 1024).

(** The same without rounding, up to 2046 ns of budget. *)
Lemma fits_below e t : 0 <= runtime e <= dl_runtime e -> dl_runtime e <= dl_deadline e -> t <= deadline e -> fits e t ->
  dl_deadline e * runtime e <= dl_runtime e * (deadline e - t) + 2046 * dl_deadline e.
Proof. intros H1 H2 H3 F. pose proof (scale_below (dl_deadline e) (runtime e) (deadline e - t) (dl_runtime e) ltac:(lia) ltac:(lia) ltac:(lia) ltac:(lia) F). lia. Qed.

Lemma fits_above e t : 0 <= runtime e <= dl_runtime e -> dl_runtime e <= dl_deadline e -> t <= deadline e <= t + dl_deadline e -> ~ fits e t ->
  dl_runtime e * (deadline e - t) <= dl_deadline e * runtime e + 2046 * dl_deadline e.
Proof.
  intros H1 H2 H3 F. pose proof (scale_below (deadline e - t) (dl_runtime e) (dl_deadline e) (runtime e) ltac:(lia) ltac:(lia) ltac:(lia) ltac:(lia) ltac:(unfold fits in F; lia)). lia.
Qed.

(** The outcomes of the wake-up rule. *)
Lemma update_dl_entity_cases e t : budget_ok e t ->
  (deadline e < t -> update_dl_entity e e t = set_budget e (dl_runtime e) (t + dl_deadline e)) /\
  (t <= deadline e -> fits e t -> update_dl_entity e e t = e) /\
  (t <= deadline e -> ~ fits e t -> dl_deadline e = dl_period e -> update_dl_entity e e t = set_budget e (dl_runtime e) (t + dl_deadline e)) /\
  (t <= deadline e -> ~ fits e t -> dl_deadline e <> dl_period e ->
    update_dl_entity e e t = set_budget e (ratio (dl_deadline e) (dl_runtime e) * (deadline e - t) / BW_UNIT) (deadline e)).
Proof.
  intros [P Hr Ht Hd]. assert (P' := P). destruct P' as [P1 P2 P3 P4 P5 P6]. unfold update_dl_entity. rewrite dl_before by lia.
  rewrite P4, s64_small, (u64_small (t + _)) by lia. cbn [negb]. rewrite andb_true_r.
  assert (O : t <= deadline e -> (deadline e <? t) = false /\ dl_entity_overflow e e t = ((deadline e - t) / 1024 * (dl_runtime e / 1024) <? dl_deadline e / 1024 * (runtime e / 1024))).
  { intros L. split; [by apply Z.ltb_ge|]. apply overflow_scaled; (done || lia). }
  split; [|split; [|split]].
  - intros L. rewrite (proj2 (Z.ltb_lt _ _) L). cbn [orb negb]. by rewrite andb_false_r.
  - intros L F. destruct (O L) as [-> ->]. rewrite (proj2 (Z.ltb_ge _ _) F). done.
  - intros L F E. destruct (O L) as [-> ->]. unfold fits in F. rewrite (proj2 (Z.ltb_lt _ _)) by lia. unfold dl_is_implicit. by rewrite (proj2 (Z.eqb_eq _ _) E).
  - intros L F E. destruct (O L) as [-> ->]. unfold fits in F. rewrite (proj2 (Z.ltb_lt _ _)) by lia. unfold dl_is_implicit. rewrite (proj2 (Z.eqb_neq _ _) E). cbn [orb negb andb].
    unfold update_dl_revised_wakeup. rewrite (u64_small (deadline e - t)) by lia. destruct (density_share e (deadline e - t) P ltac:(lia)) as [-> _]. by rewrite P3, to_ratio_ok by lia.
Qed.

(** What they mean for the budget. *)
Inductive woken (e : sched_dl_entity) (t : Z) : sched_dl_entity -> Prop :=
| woken_keep : t <= deadline e -> dl_deadline e * runtime e <= dl_runtime e * (deadline e - t) + 2046 * dl_deadline e -> woken e t e
| woken_revised r : t <= deadline e -> dl_deadline e <> dl_period e -> 0 <= r <= dl_runtime e -> dl_deadline e * r <= dl_runtime e * (deadline e - t) ->
    r <= runtime e + 2046 -> woken e t (set_budget e r (deadline e))
| woken_reset : (deadline e < t \/ dl_deadline e = dl_period e /\ t <= deadline e /\ dl_runtime e * (deadline e - t) <= dl_deadline e * runtime e + 2046 * dl_deadline e) ->
    woken e t (set_budget e (dl_runtime e) (t + dl_deadline e)).

Lemma update_dl_entity_ok e t : budget_ok e t -> woken e t (update_dl_entity e e t).
Proof.
  intros B. destruct (update_dl_entity_cases e t B) as (C1 & C2 & C3 & C4). destruct B as [P Hr Ht Hd]. assert (P' := P). destruct P' as [P1 P2 P3 P4 P5 P6].
  destruct (Z.lt_ge_cases (deadline e) t) as [L|L]; [rewrite C1 by done; apply woken_reset; by left|].
  assert (D : fits e t \/ ~ fits e t) by (unfold fits; lia). destruct D as [F|F]; [rewrite C2 by done; apply woken_keep; [done|apply fits_below; (done || lia)]|].
  pose proof (fits_above e t ltac:(lia) ltac:(lia) ltac:(lia) F) as G.
  destruct (Z.eq_dec (dl_deadline e) (dl_period e)) as [E|E]; [rewrite C3 by done; apply woken_reset; right; repeat split; lia|]. rewrite C4 by done.
  destruct (density_share e (deadline e - t) P ltac:(lia)) as [_ D]. rewrite P3, to_ratio_ok in D by lia. set (r := ratio (dl_deadline e) (dl_runtime e) * (deadline e - t) / BW_UNIT) in *. assert (0 <= r).
  { unfold r, ratio. apply Z.div_pos; [|done]. apply Z.mul_nonneg_nonneg; [apply Z.div_pos; unfold BW_UNIT; lia|lia]. }
  assert (dl_runtime e * (deadline e - t) <= dl_deadline e * dl_runtime e) by nia.
  apply woken_revised; [done..| | |]; [split; [done|]|lia|]; apply (Z.mul_le_mono_pos_l _ _ (dl_deadline e)); lia.
Qed.

(** C17: The constant bandwidth rule.  An entity with a checked reservation below 2^41 ns that is
    not boosted wakes up at time t with a residual budget and deadline.  If the deadline is past
    it starts afresh: a full budget, the deadline [dl_deadline] from t.  If the budget fits the
    time left, nothing changes, whatever the kind of the task.  If it does not fit, a task whose
    deadline is its period starts afresh, and a constrained task keeps its deadline and gets the
    part of the budget that [dl_runtime / dl_deadline], in units of 2^-20, allows for the time
    left.  "Fits" is the comparison in units of 1024 ns; it agrees with [runtime / (deadline - t)
    <= dl_runtime / dl_deadline] up to 2048 ns of budget.  In all cases the entity comes out with
    a deadline that is not past and a budget that fits it up to 2048 ns. *)
Theorem update_dl_entity_correct e t : budget_ok e t ->
  let e' := update_dl_entity e e t in let afresh := set_budget e (dl_runtime e) (t + dl_deadline e) in
  (deadline e < t -> e' = afresh) /\ (t <= deadline e -> fits e t -> e' = e) /\
  (t <= deadline e -> ~ fits e t -> dl_deadline e = dl_period e -> e' = afresh) /\
  (t <= deadline e -> ~ fits e t -> dl_deadline e <> dl_period e -> e' = set_budget e (ratio (dl_deadline e) (dl_runtime e) * (deadline e - t) / BW_UNIT) (deadline e)) /\
  (t <= deadline e -> dl_deadline e * runtime e + 2048 * dl_deadline e <= dl_runtime e * (deadline e - t) -> fits e t) /\
  (t <= deadline e -> dl_runtime e * (deadline e - t) + 2048 * dl_deadline e <= dl_deadline e * runtime e -> ~ fits e t) /\
  t <= deadline e' <= t + dl_deadline e /\ 0 <= runtime e' <= dl_runtime e /\
  dl_deadline e * runtime e' <= dl_runtime e * (deadline e' - t) + 2048 * dl_deadline e /\
  (deadline e' = deadline e /\ runtime e' <= runtime e + 2048 \/ deadline e' = t + dl_deadline e /\ runtime e' = dl_runtime e).
Proof.
  intros H e' afresh. destruct (update_dl_entity_cases e t H) as (C1 & C2 & C3 & C4). do 4 (split; [done|]). pose proof (update_dl_entity_ok e t H) as W. fold e' in W. destruct H as [[P1 P2 _ _ _ _] Hr Ht Hd].
  split; [intros L G; assert (D : fits e t \/ ~ fits e t) by (unfold fits; lia); destruct D as [D|D]; [done|pose proof (fits_above e t ltac:(lia) ltac:(lia) ltac:(lia) D); lia]|].
  split; [intros L G D; pose proof (fits_below e t ltac:(lia) ltac:(lia) ltac:(lia) D); lia|].
  destruct W as [L G|r L N Hr' G1 G2|C]; cbn; [repeat split; try lia; left; lia..|].
  repeat split; try lia; right; lia.
Qed.

Lemma update_dl_entity_correct_witness :
  let e := mk_dl_se 10000000 50000000 100000000 104857 209715 9000000 1000000000 0 false false false false false in
  update_dl_entity e e 980000000 = set_budget e 3999996 1000000000.
Proof.
  intros e. destruct (update_dl_entity_correct e 980000000) as (_ & _ & _ & H & _); [split; [split|..]; vm_compute; done|].
  apply H; [vm_compute; done| |vm_compute; done]. unfold fits. vm_compute. congruence.
Defined.

(** ** Reclaiming *)

Lemma grub_ok delta r e : 0 <= delta < 2 ^ 44 -> 0 <= running_bw r <= this_bw r -> this_bw r < 2 ^ 48 -> 0 <= extra_bw r < 2 ^ 48 ->
  0 <= dl_bw_of_se e <= BW_UNIT -> 0 <= bw_ratio r < 2 ^ 40 -> dl_bw_of_se e * bw_ratio r / 256 <= BW_UNIT ->
  grub_reclaim delta r e = delta * Z.max (dl_bw_of_se e * bw_ratio r / 256) (BW_UNIT - (this_bw r - running_bw r) - extra_bw r) / BW_UNIT.
Proof.
  unfold BW_UNIT. intros Hd Hr1 Hr2 He Hb Hq Hm. unfold grub_reclaim, RATIO_SHIFT, BW_SHIFT, BW_UNIT.
  assert (B : 0 <= dl_bw_of_se e * bw_ratio r <= 1048576 * 2 ^ 40) by (split; [apply Z.mul_nonneg_nonneg|apply Z.mul_le_mono_nonneg]; lia).
  rewrite (u64_small (dl_bw_of_se e * _)), (u64_small (this_bw r - _)) by lia. rewrite !Z.shiftr_div_pow2 by lia. change (2 ^ 8) with 256. change (2 ^ 20) with 1048576.
  pose proof (Z.div_pos (dl_bw_of_se e * bw_ratio r) 256 ltac:(lia) ltac:(lia)). set (m := dl_bw_of_se e * bw_ratio r / 256) in *.
  rewrite (u64_small (1048576 - m)), (u64_small (_ + extra_bw r)) by lia. destruct (_ >? _) eqn:E; zbool.
  - rewrite Z.max_l by lia. rewrite u64_small; [done|]. split; [apply Z.mul_nonneg_nonneg; lia|].
    apply Z.le_lt_trans with (delta * 1048576); [apply Z.mul_le_mono_nonneg_l; lia|lia].
  - rewrite Z.max_r by lia. rewrite (u64_small (1048576 - _)), (u64_small (_ - extra_bw r)) by lia. rewrite u64_small; [done|].
    split; [apply Z.mul_nonneg_nonneg; lia|]. apply Z.le_lt_trans with (delta * 1048576); [apply Z.mul_le_mono_nonneg_l; lia|lia].
Qed.

(** C19: The reclaiming rule computes what its comment says: a budget of a task that reclaims
    decreases by [max (u / Umax, 1 - Uinact - Uextra)] per unit of time, with the inactive
    utilisation [this_bw - running_bw] and utilisations in units of 2^-20, whenever [u / Umax]
    is at most one CPU; in particular never faster than the time itself. *)
Theorem grub_reclaim_correct delta r e : 0 <= delta < 2 ^ 44 -> 0 <= running_bw r <= this_bw r -> this_bw r < 2 ^ 48 -> 0 <= extra_bw r < 2 ^ 48 ->
  0 <= dl_bw_of_se e <= BW_UNIT -> 0 <= bw_ratio r < 2 ^ 40 -> dl_bw_of_se e * bw_ratio r / 256 <= BW_UNIT ->
  grub_reclaim delta r e = delta * Z.max (dl_bw_of_se e * bw_ratio r / 256) (BW_UNIT - (this_bw r - running_bw r) - extra_bw r) / BW_UNIT /\
  0 <= grub_reclaim delta r e <= delta.
Proof.
  intros Hd Hr1 Hr2 He Hb Hq Hm. rewrite grub_ok by done. split; [done|].
  set (u := Z.max _ _). assert (0 <= u <= BW_UNIT).
  { unfold u. pose proof (Z.div_pos (dl_bw_of_se e * bw_ratio r) 256 ltac:(apply Z.mul_nonneg_nonneg; lia) ltac:(lia)). lia. }
  split; [apply Z.div_pos; [apply Z.mul_nonneg_nonneg; lia|done]|]. apply Z.div_le_upper_bound; [done|]. rewrite Z.mul_comm. apply Z.mul_le_mono_nonneg_r; lia.
Qed.

Lemma grub_reclaim_correct_witness :
  let r := mk_dl_rq 209715 419430 300000 269 in let e := mk_dl_se 0 0 0 209715 0 0 0 2 false false false false false in
  grub_reclaim 1000000 r e = 1000000 * (1048576 - 209715 - 300000) / 1048576.
Proof.
  intros r e. destruct (grub_reclaim_correct 1000000 r e) as [H _]; [vm_compute; done..|]. rewrite H. vm_compute. reflexivity.
Defined.

(** On a domain of several CPUs a task may have more than one CPU's limit, say a whole CPU
    where the limit is 0.95: then [1 - u / Umax] wraps, the comparison takes the other branch
    and the task is charged at 0.55 instead of 1.05. *)
Example grub_reclaim_wraps :
  let r := mk_dl_rq BW_UNIT BW_UNIT (996147 - BW_UNIT / 2) 269 in let e := mk_dl_se 0 0 0 BW_UNIT 0 0 0 2 false false false false false in
  grub_reclaim 1000000 r e = 550000 /\ 1000000 * Z.max (BW_UNIT * 269 / 256) (BW_UNIT - 0 - extra_bw r) / BW_UNIT = 1050781.
Proof. vm_compute. done. Qed.

(** ** A server over time *)

(** One task that is not boosted and does not reclaim.  [onq]: it is on the queue of the class;
    [runnable]: it is not blocked; [used]: how long it has run; [wakes]: how often it woke up;
    [lags]: how often it was served more than a period after its deadline. *)
Record server := mk_server { se : sched_dl_entity; time : Z; onq : bool; runnable : bool; used : Z; wakes : Z; lags : Z }.

Inductive server_op :=
| Run (delta dt now : Z)
| Yield (delta dt now : Z)
| Sleep
| WakeUp (dt now : Z)
| Timer (dt now : Z).

Definition lagged (e : sched_dl_entity) (t : Z) : Z := if dl_time_before (u64 (deadline e + dl_period e)) t then 1 else 0.

(** [None]: the operation cannot happen now.  A task runs when it is queued; the timer of a
    throttled task fires at the begin of its next period or later. *)
Definition server_step (r : dl_rq) (s : server) (o : server_op) : res (option server) :=
  match o with
  | Run delta dt now | Yield delta dt now =>
      let t := time s + dt in
      if onq s then
        '(e, q) <-- match o with Yield _ _ _ => yield_task_dl (se s) None r delta t now | _ => update_curr_dl (se s) None r delta t now end;
        Ok (Some (mk_server e t q (runnable s) (used s + delta) (wakes s) (lags s + lagged (se s) t)))
      else Ok None
  | Sleep => Ok (if runnable s then Some (mk_server (se s) (time s) false false (used s) (wakes s) (lags s)) else None)
  | WakeUp dt now =>
      let t := time s + dt in
      if runnable s then Ok None
      else
        '(e, q) <-- enqueue_task_dl (se s) None ENQUEUE_WAKEUP t now;
        Ok (Some (mk_server e t q true (used s) (wakes s + 1) (lags s)))
  | Timer dt now =>
      let t := time s + dt in
      if dl_throttled (se s) && (dl_next_period (se s) <=? t) then
        '(e, q) <-- dl_task_timer (se s) (runnable s) t now;
        Ok (Some (mk_server e t q (runnable s) (used s) (wakes s) (lags s + lagged (se s) t)))
      else Ok None
  end.

Fixpoint server_run (r : dl_rq) (s : server) (l : list server_op) : res server :=
  match l with
  | [] => Ok s
  | o :: l => x <-- server_step r s o; server_run r (match x with Some s' => s' | None => s end) l
  end.

(** Time moves forward, and a task is charged before it has run for a whole budget. *)
Definition op_fits (e : sched_dl_entity) (o : server_op) : Prop :=
  match o with
  | Run delta dt _ | Yield delta dt _ => 0 <= delta < dl_runtime e /\ 0 <= dt
  | Sleep => True
  | WakeUp dt _ | Timer dt _ => 0 <= dt
  end.

Definition elapse (o : server_op) : Z :=
  match o with Run _ dt _ | Yield _ dt _ | WakeUp dt _ | Timer dt _ => dt | Sleep => 0 end.

(** The static part of an entity. *)
Definition params (e : sched_dl_entity) : Z * Z * Z * Z * Z * bool := (dl_runtime e, dl_deadline e, dl_period e, dl_density e, dl_flags e, dl_boosted e).

(** The invariant: budget and run time together fit the bandwidth up to the begin of the next
    period. *)
Record server_inv (e0 : sched_dl_entity) (t0 : Z) (s : server) : Prop := {
  si_params : params (se s) = params e0; si_ok : params_ok (se s);
  si_time : 0 <= t0 <= time s; si_deadline : 0 <= deadline (se s) <= time s + dl_deadline (se s);
  si_budget : - dl_runtime (se s) < runtime (se s) <= dl_runtime (se s);
  si_throttled : dl_throttled (se s) = false -> 0 <= runtime (se s) /\ dl_yielded (se s) = false /\ onq s = runnable s;
  si_debt : dl_throttled (se s) = true -> onq s = false /\ debt (se s) <= 0;
  si_supply : dl_period (se s) * (used s + runtime (se s)) <=
    dl_runtime (se s) * (deadline (se s) - dl_deadline (se s) + dl_period (se s) - t0)
    + (2048 * dl_period (se s) * wakes s + dl_runtime (se s) * (dl_period (se s) - dl_deadline (se s)) * lags s) }.

Lemma params_ok_eq e e' : params e' = params e -> params_ok e -> params_ok e'.
Proof. unfold params. intros [= E1 E2 E3 E4 E5 E6] [P1 P2 P3 P4 P5 P6]. split; unfold dl_entity_is_special in *; rewrite ?E1, ?E2, ?E3, ?E4, ?E5, ?E6; done. Qed.

Lemma start_timer_ok e t now : params_ok e -> 0 <= t < 2 ^ 61 -> 0 <= deadline e <= t + dl_deadline e ->
  dl_next_period e = deadline e - dl_deadline e + dl_period e /\
  start_dl_timer e t now = negb (Z.quot (deadline e - dl_deadline e + dl_period e - t) 1000 <? 0).
Proof.
  intros [P1 P2 _ _ _ _] Ht Hd. unfold start_dl_timer, dl_next_period. rewrite u64_small by lia. split; [done|]. f_equal. f_equal. f_equal.
  apply s64_near; [|lia]. assert (S : forall x, u64 (s64 x) = u64 x).
  { intros x. unfold s64. destruct (u64 x <? _); unfold u64; [by rewrite Z.mod_mod|]. rewrite <- (Z.mod_add _ 1) by lia. rewrite Z.mul_1_l, Z.sub_add. by rewrite Z.mod_mod. }
  assert (A : forall x y z, u64 x = u64 y -> u64 (x + z) = u64 (y + z)) by (intros x y z E; unfold u64 in *; by rewrite <- Zplus_mod_idemp_l, E, Zplus_mod_idemp_l).
  unfold Z.sub at 1. rewrite (A _ _ _ (S _)). rewrite (A _ _ _ (A _ _ _ (S _))).
  rewrite <- Z.add_assoc, Z.add_comm, <- Z.add_assoc. rewrite (A _ _ _ (S _)). f_equal. lia.
Qed.

Lemma replenish_server e t : params_ok e -> - dl_runtime e < runtime e <= dl_runtime e -> debt e <= 0 -> 0 <= t < 2 ^ 61 ->
  0 <= deadline e -> deadline e - dl_deadline e + dl_period e <= t -> exists e', replenish_dl_entity e e t = Ok e' /\
  params e' = params e /\ dl_throttled e' = false /\ dl_yielded e' = false /\ 0 <= runtime e' <= dl_runtime e /\
  (lagged e t = 1 /\ deadline e + dl_period e < t /\ runtime e' = dl_runtime e /\ deadline e' = t + dl_deadline e \/
   lagged e t = 0 /\ t <= deadline e + dl_period e /\ runtime e' = debt e + dl_runtime e /\ deadline e' = deadline e + dl_period e).
Proof.
  intros [P1 P2 _ _ _ _] Hr Hb Ht Hd Hn. rewrite replenish_ok by lia. eexists. split; [done|].
  assert (K : periods (debt e) (dl_runtime e) = 1).
  { unfold periods. destruct (Z.leb_spec (debt e) 0); [|lia]. rewrite Z.div_small; [done|]. unfold debt in *. destruct (dl_yielded e); lia. }
  assert (D : - dl_runtime e < debt e) by (unfold debt; destruct (dl_yielded e); lia).
  unfold lagged. rewrite K, !Z.mul_1_l, !u64_small, dl_before by lia. destruct (Z.ltb_spec (deadline e + dl_period e) t); cbn; (repeat split; try lia).
Qed.

(** How each change of budget and deadline preserves the bound. *)
Section Supply.
Context {R D P C rt d t0 W : Z} (HS : P * (C + rt) <= R * (d - D + P - t0) + W) (HR : 0 < R) (HD : R <= D <= P).

Lemma supply_next b : b <= rt -> P * (C + (b + R)) <= R * (d + P - D + P - t0) + W.
Proof using HD HR HS. intros Hb. assert (P * b <= P * rt) by (apply Z.mul_le_mono_nonneg_l; lia). lia. Qed.

Lemma supply_lag t : d + P < t -> - R < rt -> P * (C + R) <= R * (t + D - D + P - t0) + W + R * (P - D).
Proof using HD HR HS.
  intros Hd Hr. assert (P * (- R) <= P * rt) by (apply Z.mul_le_mono_nonneg_l; lia). assert (R * (d + P) <= R * t) by (apply Z.mul_le_mono_nonneg_l; lia). lia.
Qed.

Lemma supply_afresh t : d - D + P <= t -> 0 <= rt -> P * (C + R) <= R * (t + D - D + P - t0) + W.
Proof using HD HR HS.
  intros Hd Hr. assert (0 <= P * rt) by (apply Z.mul_nonneg_nonneg; lia). assert (R * (d - D + P) <= R * t) by (apply Z.mul_le_mono_nonneg_l; lia). lia.
Qed.

Lemma supply_overflow t : D = P -> R * (d - t) <= D * rt + 2046 * D -> P * (C + R) <= R * (t + D - D + P - t0) + W + 2048 * P.
Proof using HD HR HS. intros -> G. lia. Qed.

Lemma supply_cut r : r <= rt + 2046 -> P * (C + r) <= R * (d - D + P - t0) + W + 2048 * P.
Proof using HD HR HS. intros Hr. assert (P * r <= P * (rt + 2046)) by (apply Z.mul_le_mono_nonneg_l; lia). lia. Qed.

Lemma supply_less r : r <= rt -> P * (C + r) <= R * (d - D + P - t0) + W.
Proof using HD HR HS. intros Hr. assert (P * r <= P * rt) by (apply Z.mul_le_mono_nonneg_l; lia). lia. Qed.
End Supply.

Section Server.
Context {e0 : sched_dl_entity} {t0 : Z} {s : server} (SI : server_inv e0 t0 s).

Lemma replenished t : dl_throttled (se s) = true -> time s <= t < 2 ^ 61 -> dl_next_period (se s) <= t ->
  forall q, (q = true -> runnable s = true) -> (q = false -> runnable s = false) -> exists e', replenish_dl_entity (se s) (se s) t = Ok e' /\
  server_inv e0 t0 (mk_server e' t q (runnable s) (used s) (wakes s) (lags s + lagged (se s) t)).
Proof.
  intros Hth Ht Hn q Hq1 Hq2. destruct SI as [S1 S2 S3 S4 S5 S6 S7 S8]. destruct (S7 Hth) as [Hq Hdebt].
  destruct (start_timer_ok (se s) (time s) 0 S2 ltac:(lia) ltac:(lia)) as [En _]. rewrite En in Hn.
  assert (S2' := S2). destruct S2' as [P1 P2 _ _ _ _]. assert (Hdr : debt (se s) <= runtime (se s)) by (unfold debt; destruct (dl_yielded _); lia).
  destruct (replenish_server (se s) t S2 S5 Hdebt ltac:(lia) ltac:(lia) Hn) as (e' & E & F1 & F2 & F3 & F4 & F5). exists e'. split; [done|].
  assert (F1' := F1). unfold params in F1'. injection F1' as E1 E2 E3 E4 E5 E6.
  split; cbn [se time onq runnable used wakes lags]; rewrite ?E1, ?E2, ?E3; try lia; try congruence.
  - by apply (params_ok_eq (se s)).
  - intros _. split; [lia|]. split; [done|]. destruct q; symmetry; [by apply Hq1|by apply Hq2].
  - destruct F5 as [(-> & L & -> & ->)|(-> & L & -> & ->)].
    + pose proof (supply_lag S8 ltac:(lia) ltac:(lia) t L ltac:(lia)). lia.
    + pose proof (supply_next S8 ltac:(lia) ltac:(lia) (debt (se s)) Hdr). lia.
Qed.
End Server.

Section Steps.
Context {e0 : sched_dl_entity} {t0 : Z} {s : server} (SI : server_inv e0 t0 s) (dq : dl_rq).

(** An entity whose static part is unchanged keeps it in the invariant. *)
Lemma same_params e' t : params e' = params (se s) -> time s <= t ->
  params e' = params e0 /\ params_ok e' /\ dl_runtime e' = dl_runtime (se s) /\ dl_deadline e' = dl_deadline (se s) /\ dl_period e' = dl_period (se s).
Proof.
  intros E Ht. destruct SI as [S1 S2 _ _ _ _ _ _]. split; [congruence|]. split; [by apply (params_ok_eq (se s))|].
  unfold params in E. by injection E as -> -> -> _ _ _.
Qed.

Lemma check_constrained_ok e t now : params_ok e -> 0 <= t < 2 ^ 61 -> 0 <= deadline e <= t + dl_deadline e -> dl_throttled e = false -> 0 <= runtime e ->
  let e1 := if negb (dl_throttled e) && negb (dl_is_implicit e) then dl_check_constrained_dl e t now else e in
  e1 = set_budget (set_throttled e true (dl_yielded e) (dl_overrun e)) 0 (deadline e) \/
  e1 = e /\ (deadline e < t -> deadline e - dl_deadline e + dl_period e <= t).
Proof.
  intros P Ht Hd Hth Hr. destruct (start_timer_ok e t now P Ht Hd) as [En Es]. destruct P as [P1 P2 _ P4 _ _]. rewrite Hth. cbn [negb andb].
  unfold dl_is_implicit. destruct (Z.eqb_spec (dl_deadline e) (dl_period e)) as [E|E]; cbn [negb]; [right; split; [done|lia]|].
  unfold dl_check_constrained_dl. rewrite En, !dl_before, P4, Es by lia. cbn [orb].
  destruct (Z.ltb_spec (deadline e) t); cbn [andb]; [|right; split; [done|lia]].
  destruct (Z.ltb_spec t (deadline e - dl_deadline e + dl_period e)); [|right; split; [done|lia]]. left.
  pose proof (Z.quot_pos (deadline e - dl_deadline e + dl_period e - t) 1000 ltac:(lia) ltac:(lia)).
  destruct (Z.ltb_spec (Z.quot (deadline e - dl_deadline e + dl_period e - t) 1000) 0); [lia|]. cbn.
  destruct (runtime e >? 0) eqn:G; [done|]. zbool. assert (E0 : runtime e = 0) by lia. rewrite <- E0. by destruct e.
Qed.

Lemma wake_inv dt now : 0 <= dt -> time s + dt < 2 ^ 61 -> runnable s = false -> exists e' q,
  enqueue_task_dl (se s) None ENQUEUE_WAKEUP (time s + dt) now = Ok (e', q) /\
  server_inv e0 t0 (mk_server e' (time s + dt) q true (used s) (wakes s + 1) (lags s)).
Proof.
  intros Hdt Ht Hru. assert (SP := same_params). destruct SI as [S1 S2 S3 S4 S5 S6 S7 S8]. assert (S2' := S2). destruct S2' as [P1 P2 _ P4 _ _].
  set (t := time s + dt) in *. unfold enqueue_task_dl. destruct (dl_throttled (se s)) eqn:Hth.
  { cbn [negb andb]. rewrite Hth. eexists _, _. split; [done|]. destruct (S7 eq_refl) as [_ Hd].
    split; cbn [se time onq runnable used wakes lags]; try done; try lia; congruence. }
  destruct (S6 eq_refl) as (Hr0 & Hy & _). pose proof (check_constrained_ok (se s) t now S2 ltac:(lia) ltac:(lia) Hth Hr0) as CC. cbv zeta in CC.
  rewrite Hth in CC. destruct CC as [->|[-> Hnp]].
  { eexists _, _. split; [done|]. split; cbn [se time onq runnable used wakes lags]; try done; try lia; cbn; try lia.
    - by apply (SP _ t); [|lia].
    - intros _. unfold debt. cbn. by rewrite Hy.
    - pose proof (supply_less S8 ltac:(lia) ltac:(lia) 0 ltac:(lia)). lia. }
  rewrite Hth. cbn. eexists _, _. split; [done|].
  assert (B : budget_ok (se s) t) by (split; [done|lia..]). destruct (update_dl_entity_ok _ _ B) as [L G|r L N Hr' G1 G2|C].
  - split; cbn [se time onq runnable used wakes lags]; try done; try lia; try congruence.
  - split; cbn; try done; try lia; try congruence; [by apply (SP _ t); [|lia]|by intros _; split; [lia|]|].
    pose proof (supply_cut S8 ltac:(lia) ltac:(lia) r G2). lia.
  - split; cbn; try done; try lia; try congruence; [by apply (SP _ t); [|lia]|by intros _; split; [lia|]|].
    destruct C as [C|(E & C & G)]; [pose proof (supply_afresh S8 ltac:(lia) ltac:(lia) t (Hnp C) Hr0)|pose proof (supply_overflow S8 ltac:(lia) ltac:(lia) t E G)]; lia.
Qed.

Lemma cap_scale_id x : 0 <= x < 2 ^ 53 -> cap_scale x 1024 = x.
Proof.
  intros Hx. unfold cap_scale. rewrite u64_small by lia. change SCHED_CAPACITY_SHIFT with 10. rewrite Z.shiftr_div_pow2 by lia. apply Z.div_mul. done.
Qed.

(** What [update_curr_dl] does to a task that is not boosted and does not reclaim. *)
Lemma update_curr_eq e delta t now : params_ok e -> - dl_runtime e <= runtime e - delta -> runtime e <= dl_runtime e -> 0 <= delta < dl_runtime e ->
  let e1 := set_budget e (runtime e - delta) (deadline e) in
  let e2 := set_throttled e1 true (dl_yielded e) (dl_overrun e || ((runtime e - delta <=? 0) && negb (Z.land (dl_flags e) SCHED_FLAG_DL_OVERRUN =? 0))) in
  update_curr_dl e None dq delta t now =
    if (delta =? 0) && negb (dl_yielded e) then Ok (e, true)
    else if (runtime e - delta <=? 0) || dl_yielded e then
      (if start_dl_timer e t now then Ok (e2, false) else e' <-- replenish_dl_entity e2 e2 t; Ok (e', true))
    else Ok (e1, true).
Proof.
  intros [P1 P2 _ P4 P5 P6] H1 H2 H3 e1 e2. unfold update_curr_dl. rewrite (s64_small delta) by lia.
  replace (delta <=? 0) with (delta =? 0) by (destruct (Z.eqb_spec delta 0), (Z.leb_spec delta 0); lia).
  destruct ((delta =? 0) && negb (dl_yielded e)); [done|]. rewrite P6, andb_false_r, P5. cbn [Z.eqb negb].
  change arch_scale_freq_capacity with 1024. change arch_scale_cpu_capacity with 1024. rewrite !cap_scale_id by (rewrite ?cap_scale_id by lia; lia).
  set (ec := if delta =? 0 then e else _). assert (E1 : ec = e1).
  { unfold ec, e1. destruct (Z.eqb_spec delta 0) as [->|]; [rewrite Z.sub_0_r; by destruct e|]. by rewrite s64_small by lia. }
  rewrite E1. unfold dl_runtime_exceeded. cbn [e1 runtime set_budget dl_yielded dl_overrun dl_flags]. fold e1.
  destruct (_ || dl_yielded e); [|done]. fold e2. assert (E2 : start_dl_timer e2 t now = start_dl_timer e t now) by reflexivity. rewrite E2.
  cbn [e2 e1 set_throttled set_budget dl_boosted]. rewrite P4. cbn [orb]. destruct (start_dl_timer e t now); done.
Qed.

(** The task has run and may have yielded: what [update_curr_dl] leaves of it. *)
Lemma throttled_inv y ovr delta dt : onq s = true -> 0 <= delta < dl_runtime (se s) -> 0 <= dt -> runtime (se s) - delta <= 0 \/ y = true ->
  server_inv e0 t0 (mk_server (set_throttled (set_budget (se s) (runtime (se s) - delta) (deadline (se s))) true y ovr)
    (time s + dt) false (runnable s) (used s + delta) (wakes s) (lags s)).
Proof.
  intros Hq Hdl Hdt Hy. assert (SP := same_params). destruct SI as [S1 S2 S3 S4 S5 S6 S7 S8].
  assert (Hth : dl_throttled (se s) = false) by (destruct (dl_throttled (se s)); [destruct (S7 eq_refl); congruence|done]).
  destruct (S6 Hth) as (Hr & Hyl & Hru). split; cbn; try done; try lia; [by apply (SP _ (time s)); [|lia]|].
  intros _. split; [done|]. unfold debt. cbn. destruct y; lia || (destruct Hy; [lia|done]).
Qed.

Lemma charge_inv y delta dt now : onq s = true -> 0 <= delta < dl_runtime (se s) -> 0 <= dt -> time s + dt < 2 ^ 61 ->
  exists e' q, update_curr_dl (set_throttled (se s) (dl_throttled (se s)) y (dl_overrun (se s))) None dq delta (time s + dt) now = Ok (e', q) /\
  exists l, (l = 0 \/ l = lagged (se s) (time s + dt)) /\
  server_inv e0 t0 (mk_server e' (time s + dt) q (runnable s) (used s + delta) (wakes s) (lags s + l)).
Proof.
  intros Hq Hdl Hdt Ht. assert (SP := same_params). assert (TI := throttled_inv). destruct SI as [S1 S2 S3 S4 S5 S6 S7 S8].
  assert (Hth : dl_throttled (se s) = false) by (destruct (dl_throttled (se s)); [destruct (S7 eq_refl); congruence|done]).
  destruct (S6 Hth) as (Hr & Hyl & Hru). set (e := set_throttled (se s) _ y _).
  assert (Pe : params_ok e) by (apply (params_ok_eq (se s)); [done|done]).
  rewrite update_curr_eq by (done || (cbn; lia)). cbn [e runtime deadline dl_yielded dl_overrun dl_flags set_throttled]. fold e.
  destruct ((delta =? 0) && negb y) eqn:Hz; [|destruct ((runtime (se s) - delta <=? 0) || y) eqn:Hx].
  - apply andb_true_iff in Hz as [Hz Hy]. zbool. subst delta. destruct y; [done|]. eexists _, _. split; [done|]. exists 0. split; [by left|].
    split; cbn; try done; try lia; try (by apply (SP _ (time s)); [|lia]); try congruence. intros _. split; [lia|split; [done|congruence]].
  - apply orb_true_iff in Hx. assert (Hx' : runtime (se s) - delta <= 0 \/ y = true) by (destruct Hx; [left; zbool; lia|by right]).
    set (ovr := dl_overrun (se s) || _). specialize (TI y ovr delta dt Hq Hdl Hdt Hx').
    change (start_dl_timer e (time s + dt) now) with (start_dl_timer (se s) (time s + dt) now). assert (S2' := S2). destruct S2' as [P1 P2 _ _ _ _].
    destruct (start_timer_ok (se s) (time s + dt) now S2 ltac:(lia) ltac:(lia)) as [En ->]. destruct (Z.quot _ 1000 <? 0) eqn:Hst; cbn [negb].
    + clear SP. assert (Hlate : deadline (se s) - dl_deadline (se s) + dl_period (se s) <= time s + dt).
      { destruct (Z.le_gt_cases (deadline (se s) - dl_deadline (se s) + dl_period (se s)) (time s + dt)); [done|].
        pose proof (Z.quot_pos (deadline (se s) - dl_deadline (se s) + dl_period (se s) - (time s + dt)) 1000 ltac:(lia) ltac:(lia)). zbool. lia. }
      destruct (replenished TI (time s + dt) eq_refl ltac:(cbn; lia)) with (q := true) as (e' & E & I'); [cbn; change (dl_next_period _) with (dl_next_period (se s)); lia|cbn; congruence..|].
      cbn [se] in E. unfold e. change (set_budget (set_throttled (se s) _ y _) _ _) with (set_throttled (set_budget (se s) (runtime (se s) - delta) (deadline (se s))) (dl_throttled (se s)) y (dl_overrun (se s))).
      change (set_throttled (set_throttled ?x _ _ _) true y ovr) with (set_throttled x true y ovr). rewrite E. cbn. eexists _, _. split; [done|].
      exists (lagged (se s) (time s + dt)). split; [by right|]. exact I'.
    + eexists _, _. split; [done|]. exists 0. split; [by left|]. rewrite Z.add_0_r. exact TI.
  - apply orb_false_iff in Hx as [Hx ->]. zbool. eexists _, _. split; [done|]. exists 0. split; [by left|].
    split; cbn; try done; try lia; try (by apply (SP _ (time s)); [|lia]); try congruence. intros _. split; [lia|split; [done|congruence]].
Qed.

Lemma lagged_nonneg e t : 0 <= lagged e t.
Proof. unfold lagged. destruct (dl_time_before _ _); lia. Qed.

Lemma more_lags e t q ru u w l l' : l <= l' -> server_inv e0 t0 (mk_server e t q ru u w l) -> server_inv e0 t0 (mk_server e t q ru u w l').
Proof.
  intros Hl [S1 S2 S3 S4 S5 S6 S7 S8]. split; cbn in *; try done. destruct S2 as [P1 P2 _ _ _ _].
  assert (dl_runtime e * (dl_period e - dl_deadline e) * l <= dl_runtime e * (dl_period e - dl_deadline e) * l'); [|lia].
  apply Z.mul_le_mono_nonneg_l; [apply Z.mul_nonneg_nonneg; lia|done].
Qed.

Lemma server_step_inv o : op_fits e0 o -> time s + elapse o < 2 ^ 61 ->
  exists x, server_step dq s o = Ok x /\ match x with Some s' => server_inv e0 t0 s' /\ time s' = time s + elapse o | None => True end.
Proof.
  intros Ho Ht. assert (EP : dl_runtime e0 = dl_runtime (se s)) by (destruct SI as [S1 _ _ _ _ _ _ _]; unfold params in S1; by injection S1).
  destruct o as [delta dt now|delta dt now| |dt now|dt now]; cbn [elapse op_fits] in *; unfold server_step; rewrite ?EP in Ho.
  - destruct (onq s) eqn:Hq; [|by exists None].
    destruct (charge_inv (dl_yielded (se s)) delta dt now Hq ltac:(lia) ltac:(lia) Ht) as (e' & q & E & l & Hl & I').
    replace (set_throttled (se s) _ _ _) with (se s) in E by (by destruct (se s)). rewrite E. cbn. eexists. split; [done|]. split; [|done].
    apply more_lags with (lags s + l); [pose proof (lagged_nonneg (se s) (time s + dt)); destruct Hl; lia|done].
  - destruct (onq s) eqn:Hq; [|by exists None].
    destruct (charge_inv true delta dt now Hq ltac:(lia) ltac:(lia) Ht) as (e' & q & E & l & Hl & I').
    unfold yield_task_dl. rewrite E. cbn. eexists. split; [done|]. split; [|done].
    apply more_lags with (lags s + l); [pose proof (lagged_nonneg (se s) (time s + dt)); destruct Hl; lia|done].
  - destruct (runnable s) eqn:Hru; eexists; (split; [done|]); [|done]. cbv iota. split; [|cbn; lia].
    destruct SI as [S1 S2 S3 S4 S5 S6 S7 S8]. split; cbn; try done.
    + intros Hth. by destruct (S6 Hth) as (? & ? & ?).
    + intros Hth. by destruct (S7 Hth).
  - destruct (runnable s) eqn:Hru; [by exists None|]. destruct (wake_inv dt now ltac:(lia) Ht Hru) as (e' & q & E & I').
    rewrite E. cbn. by eexists.
  - destruct (dl_throttled (se s) && (dl_next_period (se s) <=? time s + dt)) eqn:Hg; [|by exists None].
    apply andb_true_iff in Hg as [Hth Hn]. zbool. assert (HB := pa_boosted _ (si_ok _ _ _ SI)).
    destruct (replenished SI (time s + dt) Hth ltac:(lia) ltac:(lia) (runnable s)) as (e' & E & I'); [done..|].
    unfold dl_task_timer. rewrite HB, Hth. cbn [negb orb]. destruct (runnable s) eqn:Hru; cbn [negb].
    + unfold enqueue_task_dl. rewrite Hth. cbn [negb andb]. rewrite Hth. change (enqueue_dl_entity (se s) (se s) ENQUEUE_REPLENISH (time s + dt)) with (replenish_dl_entity (se s) (se s) (time s + dt)).
      rewrite E. cbn. by eexists.
    + rewrite E. cbn. by eexists.
Qed.
End Steps.

Lemma server_run_inv e0 t0 dq l : forall s, server_inv e0 t0 s -> Forall (op_fits e0) l -> time s + foldr Z.add 0 (elapse <$> l) < 2 ^ 61 ->
  exists s', server_run dq s l = Ok s' /\ server_inv e0 t0 s'.
Proof.
  induction l as [|o l IH]; intros s SI Hl Ht; cbn; [by exists s|]. apply Forall_cons in Hl as [Ho Hl]. cbn in Ht.
  assert (Hpos : forall k, Forall (op_fits e0) k -> 0 <= foldr Z.add 0 (elapse <$> k)).
  { induction 1 as [|o' k Ho' _ IHk]; cbn; [lia|]. destruct o'; cbn in *; lia. }
  assert (He : 0 <= elapse o) by (destruct o; cbn in *; lia). specialize (Hpos l Hl).
  destruct (server_step_inv SI dq o Ho ltac:(lia)) as (x & -> & Hx). cbn. destruct x as [s'|]; [|apply IH; [done..|lia]].
  destruct Hx as [SI' Et]. apply IH; [done..|lia].
Qed.

(** C16: The constant bandwidth server isolates.  A task with a reservation of R every P, and
    deadline D, that passed the check of parameters, with P below 2^41 ns, is not boosted, does
    not reclaim bandwidth and is not a thread of the frequency governor (whose run time is not
    charged at all), starts afresh at t0; then it runs (charged before it has run for a whole
    budget), yields, blocks, wakes up and is replenished by its timer, in any order and at
    any times up to 2^61 ns.  Nothing fails, and the time it has run, with the budget it still
    has, is at most its bandwidth R/P times the time until the begin of its next period, plus
    2048 ns per wake-up; a constrained task (D < P) may in addition gain R (P - D) / P each time
    it is served more than a period after its deadline.  So over any time it gets at most its
    bandwidth of the elapsed time and two periods, and that slack. *)
Theorem cbs_supply_bound e0 t0 dq l : params_ok e0 -> 0 <= t0 -> deadline e0 = t0 + dl_deadline e0 -> runtime e0 = dl_runtime e0 ->
  dl_throttled e0 = false -> dl_yielded e0 = false -> Forall (op_fits e0) l -> t0 + foldr Z.add 0 (elapse <$> l) < 2 ^ 61 ->
  exists s, server_run dq (mk_server e0 t0 true true 0 0 0) l = Ok s /\
    let slack := 2048 * dl_period e0 * wakes s + dl_runtime e0 * (dl_period e0 - dl_deadline e0) * lags s in
    dl_period e0 * (used s + runtime (se s)) <= dl_runtime e0 * (deadline (se s) - dl_deadline e0 + dl_period e0 - t0) + slack /\
    dl_period e0 * used s <= dl_runtime e0 * (time s - t0 + 2 * dl_period e0) + slack /\
    (onq s = true -> 0 <= runtime (se s) <= dl_runtime e0).
Proof.
  intros P Ht0 Ed Er Eth Ey Hl Ht. assert (P' := P). destruct P' as [P1 P2 _ _ _ _].
  assert (SI : server_inv e0 t0 (mk_server e0 t0 true true 0 0 0)).
  { split; cbn; try done; try lia; try congruence. intros _. split; [lia|done]. }
  destruct (server_run_inv e0 t0 dq l _ SI Hl Ht) as (s & E & [S1 S2 S3 S4 S5 S6 S7 S8]). exists s. split; [done|].
  unfold params in S1. injection S1 as E1 E2 E3 _ _ _. rewrite E1, E2, E3 in *. split; [lia|]. split.
  - assert (dl_period e0 * - dl_runtime e0 <= dl_period e0 * runtime (se s)) by (apply Z.mul_le_mono_nonneg_l; lia).
    assert (dl_runtime e0 * (deadline (se s) - dl_deadline e0 + dl_period e0 - t0) <= dl_runtime e0 * (time s + dl_period e0 - t0)) by (apply Z.mul_le_mono_nonneg_l; lia). lia.
  - intros Hq. destruct (dl_throttled (se s)) eqn:Hth; [destruct (S7 eq_refl); congruence|]. destruct (S6 eq_refl). lia.
Qed.

(** A task of 10 ms every 100 ms, deadline 50 ms: it overruns, is replenished, yields, sleeps
    past its deadline and is throttled on its wake-up. *)
Definition a_reservation : sched_dl_entity :=
  mk_dl_se 10000000 50000000 100000000 104857 209715 10000000 1050000000 0 false false false false false.
Definition a_schedule : list server_op :=
  [Run 9000000 9000000 0; Run 4000000 20000000 0; Timer 71000000 0; Run 3000000 3000000 0; Sleep; WakeUp 60000000 0; Timer 40000000 0;
   Yield 1000000 1000000 0; Timer 100000000 0].
Definition idle_rq : dl_rq := mk_dl_rq 0 0 996147 269.

Lemma cbs_supply_bound_witness : exists s, server_run idle_rq (mk_server a_reservation 1000000000 true true 0 0 0) a_schedule = Ok s /\
  used s = 17000000 /\ dl_period a_reservation * used s <= dl_runtime a_reservation * (time s - 1000000000 + 2 * dl_period a_reservation) + 2048 * dl_period a_reservation * wakes s.
Proof.
  destruct (cbs_supply_bound a_reservation 1000000000 idle_rq a_schedule) as (s & E & _ & H & _); [split; vm_compute; done|done..| | |].
  - repeat constructor; cbn; lia.
  - vm_compute. reflexivity.
  - exists s. split; [exact E|]. vm_compute in E. injection E as <-. split; [reflexivity|]. vm_compute in H |- *. exact H.
Defined.
