(* ===== verification/TgTree.v ===== *)
(** * The tree of task groups (kernel/sched/core.c, sched.h)

    A task group points at its parent and lists its children.  [walk_tg_tree_from] visits a subtree without recursion:
    it follows the lists down and the parent pointers up, and stops at the first visitor that returns an error. *)

From stdpp Require Import gmap list.
From S2P Require Import Prelude.
Local Open Scope Z_scope.
Local Open Scope res_scope.

(** A tree of groups by their addresses. *)
Local Unset Elimination Schemes.
Inductive gtree := GNode (id : Z) (ts : list gtree).
Local Set Elimination Schemes.
Definition gid (t : gtree) : Z := match t with GNode x _ => x end.
Definition subtrees (t : gtree) : list gtree := match t with GNode _ ts => ts end.
Fixpoint preorder (t : gtree) : list Z := match t with GNode x ts => x :: concat (preorder <$> ts) end.

Fixpoint gtree_nested (P : gtree -> Prop) (H : forall x ts, Forall P ts -> P (GNode x ts)) (t : gtree) : P t :=
  match t with GNode x ts => H x ts ((fix all ts := match ts as ts return Forall P ts with [] => List.Forall_nil P | t :: ts => List.Forall_cons P t ts (gtree_nested P H t) (all ts) end) ts) end.

Section Walk.
Context {group : Type} (tg_parent : group -> option Z) (tg_children : group -> list Z).

(** A visitor returns 0 or an error; it may change the groups. *)
Definition tg_visitor : Type := gmap Z group -> Z -> res (Z * gmap Z group).

Definition tg_nop : tg_visitor := fun G _ => Ok (0, G).

Definition get_tg (G : gmap Z group) (x : Z) : res group := match G !! x with Some g => Ok g | None => Fault OutOfBounds end.

(** The entry behind [c] of a list of siblings. *)
Fixpoint next_sibling (c : Z) (l : list Z) : option Z :=
  match l with x :: l => if x =? c then head l else next_sibling c l | [] => None end.

(** The labels of the loop: [Down p] is [down] with [parent = p]; [Up p] is the code behind the loop over the children of [p]. *)
Inductive label := Down (p : Z) | Up (p : Z).

Fixpoint walk_loop (fuel : nat) (down up : tg_visitor) (from : Z) (G : gmap Z group) (at_ : label) : res (Z * gmap Z group) :=
  match fuel with
  | O => Fault NoFuel
  | S fuel =>
      match at_ with
      | Down p =>
          '(ret, G) <-- down G p;
          if negb (ret =? 0) then Ok (ret, G)
          else g <-- get_tg G p; walk_loop fuel down up from G (match tg_children g with c :: _ => Down c | [] => Up p end)
      | Up p =>
          '(ret, G) <-- up G p;
          if negb (ret =? 0) || (p =? from) then Ok (ret, G)
          else
            g <-- get_tg G p;
            match tg_parent g with
            | None => Ok (ret, G)
            | Some q => gq <-- get_tg G q; walk_loop fuel down up from G (match next_sibling p (tg_children gq) with Some c => Down c | None => Up q end)
            end
      end
  end.

Definition walk_tg_tree_from (from : Z) (down up : tg_visitor) (G : gmap Z group) : res (Z * gmap Z group) :=
  walk_loop (2 * size G) down up from G (Down from).

(** ** The walk is the visit in preorder *)

(** The visitor on a list of groups, up to the first error. *)
Fixpoint visit_all (down : tg_visitor) (G : gmap Z group) (l : list Z) : res (Z * gmap Z group) :=
  match l with
  | [] => Ok (0, G)
  | x :: l => '(ret, G) <-- down G x; if negb (ret =? 0) then Ok (ret, G) else visit_all down G l
  end.

(** The groups [G] form the tree: every group has the parent and the children of the tree. *)
Definition links (g : group) : option Z * list Z := (tg_parent g, tg_children g).
Fixpoint rooted (M : gmap Z (option Z * list Z)) (par : option Z) (t : gtree) : Prop :=
  match t with GNode x ts => M !! x = Some (par, gid <$> ts) /\ (fix all ts := match ts with [] => True | t :: ts => rooted M (Some x) t /\ all ts end) ts end.

Lemma rooted_node M par x ts : rooted M par (GNode x ts) <-> M !! x = Some (par, gid <$> ts) /\ Forall (rooted M (Some x)) ts.
Proof.
  cbn [rooted]. apply and_iff_compat_l. induction ts as [|t ts IH]; [done|]. rewrite Forall_cons, <- IH. done.
Qed.

Lemma rooted_in M t : forall par, rooted M par t -> forall y, y ∈ preorder t -> is_Some (M !! y).
Proof.
  induction t as [x ts IH] using gtree_nested. intros par Hr y Hy. apply rooted_node in Hr as [Hx Hts]. cbn in Hy. apply elem_of_cons in Hy as [->|Hy]; [by eexists|]. clear Hx.
  induction ts as [|t ts IHts]; cbn in Hy; [by apply elem_of_nil in Hy|]. apply Forall_cons in IH as [It Its]. apply Forall_cons in Hts as [Ht Hts]. apply elem_of_app in Hy as [Hy|Hy]; [by apply (It (Some x))|by apply IHts].
Qed.

Lemma child_in M t y cs c : forall par p, rooted M par t -> y ∈ preorder t -> M !! y = Some (p, cs) -> c ∈ cs -> c ∈ preorder t.
Proof.
  induction t as [x ts IH] using gtree_nested. intros par p Hr Hy HM Hc. apply rooted_node in Hr as [Hx Hts]. cbn in Hy |- *. apply elem_of_cons. right. apply elem_of_cons in Hy as [->|Hy].
  - rewrite Hx in HM. injection HM as <- <-. apply list_elem_of_fmap in Hc as (t & -> & Ht). apply list_elem_of_split in Ht as (l1 & l2 & ->). rewrite fmap_app, fmap_cons, concat_app, elem_of_app. right. cbn. rewrite elem_of_app. left. destruct t. cbn. apply elem_of_cons. auto.
  - clear Hx. induction ts as [|t ts IHts]; cbn in Hy |- *; [by apply elem_of_nil in Hy|]. apply Forall_cons in IH as [It Its]. apply Forall_cons in Hts as [Ht Hts]. rewrite elem_of_app in Hy |- *. destruct Hy as [Hy|Hy]; [left; by apply (It (Some x) p)|right; by apply IHts].
Qed.

(** A group comes after its parent. *)
Definition after_parent (M : gmap Z (option Z * list Z)) (l1 : list Z) (y : Z) : Prop := exists p cs, M !! y = Some (Some p, cs) /\ p ∈ l1.

Lemma parent_before M t : forall par l1 y l2, rooted M par t -> preorder t = l1 ++ y :: l2 -> y = gid t /\ l1 = [] \/ after_parent M l1 y.
Proof.
  induction t as [x ts IH] using gtree_nested. intros par l1 y l2 Hr E. apply rooted_node in Hr as [_ Hts]. cbn [preorder gid] in *. destruct l1 as [|x' l1]; injection E as -> E; [auto|]. right. revert l1 E. rename x' into x.
  induction ts as [|t ts IHts]; intros l1 E; cbn in E; [by destruct l1|]. apply Forall_cons in IH as [It Its]. apply Forall_cons in Hts as [Ht Hts]. specialize (IHts Its Hts).
  apply app_eq_inv in E as [(k & Et & Ek)|(k & -> & Ek)].
  - destruct k as [|y' k]; cbn in Ek; [rewrite app_nil_r in Et; subst l1; destruct (IHts [] (eq_sym Ek)) as (p & cs & HM & Hp); exists p, cs; split; [done|]; rewrite elem_of_cons in Hp |- *; rewrite elem_of_nil in Hp; tauto|].
    injection Ek as -> Ek. destruct (It _ _ _ _ Ht Et) as [[-> ->]|(p & cs & HM & Hp)].
    + destruct t as [z zs]. apply rooted_node in Ht as [Hz _]. exists x, (gid <$> zs). split; [done|]. apply elem_of_cons. auto.
    + exists p, cs. split; [done|]. apply elem_of_cons. auto.
  - destruct (IHts k Ek) as (p & cs & HM & Hp). exists p, cs. split; [done|]. rewrite elem_of_cons in Hp |- *. rewrite elem_of_app. tauto.
Qed.

(** A visitor that changes nothing: the walk succeeds when it accepts every group, and else returns the first error. *)
Lemma visit_pure (down : tg_visitor) (verdict : Z -> Z) G l : (forall x, x ∈ l -> down G x = Ok (verdict x, G)) -> exists r, visit_all down G l = Ok (r, G) /\ (r = 0 <-> forall x, x ∈ l -> verdict x = 0) /\ (r <> 0 -> exists x, x ∈ l /\ r = verdict x).
Proof.
  induction l as [|x l IH]; intros Hl; cbn [visit_all]; [exists 0; split; [done|]; split; [split; [intros _ x Hx; by apply elem_of_nil in Hx|done]|done]|].
  rewrite Hl by (apply elem_of_cons; auto). cbn [res_bind]. destruct (Z.eqb_spec (verdict x) 0) as [E|E]; cbn [negb].
  - destruct IH as (r & Er & H1 & H2); [intros; apply Hl, elem_of_cons; auto|]. exists r. split; [done|]. split; [|intros Hr; destruct (H2 Hr) as (y & ? & ->); exists y; rewrite elem_of_cons; auto].
    rewrite H1. split; intros H y Hy; [apply elem_of_cons in Hy as [->|Hy]; auto|apply H, elem_of_cons; auto].
  - exists (verdict x). split; [done|]. split; [split; [done|intros H; apply H, elem_of_cons; auto]|intros _; exists x; rewrite elem_of_cons; auto].
Qed.

Lemma gid_in t : gid t ∈ preorder t.
Proof. destruct t. cbn. apply elem_of_cons. auto. Qed.

Lemma children_nodup M t y : forall par p cs, rooted M par t -> NoDup (preorder t) -> y ∈ preorder t -> M !! y = Some (p, cs) -> NoDup cs.
Proof.
  induction t as [x ts IH] using gtree_nested. intros par p cs Hr Hn Hy HM. apply rooted_node in Hr as [Hx Hts]. cbn in Hn, Hy. apply NoDup_cons in Hn as [_ Hn]. apply elem_of_cons in Hy as [->|Hy].
  - rewrite Hx in HM. injection HM as <- <-. clear IH Hx Hts. induction ts as [|t ts IHts]; [constructor|]. cbn in Hn |- *. apply NoDup_app in Hn as (_ & H2 & H3). apply NoDup_cons. split; [|by apply IHts].
    intros Hin. apply list_elem_of_fmap in Hin as (t' & E & Ht'). apply (H2 _ (gid_in t)). rewrite E. apply list_elem_of_split in Ht' as (l1 & l2 & ->). rewrite fmap_app, fmap_cons, concat_app, elem_of_app. right. cbn. rewrite elem_of_app. left. apply gid_in.
  - clear Hx. induction ts as [|t ts IHts]; cbn in Hy, Hn; [by apply elem_of_nil in Hy|]. apply NoDup_app in Hn as (N1 & _ & N2). apply Forall_cons in IH as [It Its]. apply Forall_cons in Hts as [Ht Hts]. apply elem_of_app in Hy as [Hy|Hy]; [by apply (It (Some x) p)|by apply IHts].
Qed.

Lemma next_sibling_ok c l1 l2 : c ∉ l1 -> next_sibling c (l1 ++ c :: l2) = head l2.
Proof. induction l1 as [|x l1 IH]; intros Hc; cbn; [by rewrite Z.eqb_refl|]. apply not_elem_of_cons in Hc as [H1 H2]. rewrite (proj2 (Z.eqb_neq _ _)) by congruence. by apply IH. Qed.

Section Order.
Context (down : tg_visitor) (from : Z) (Hdown : forall G x ret G', down G x = Ok (ret, G') -> links <$> G' = links <$> G).

Lemma visit_all_links l : forall G ret G', visit_all down G l = Ok (ret, G') -> links <$> G' = links <$> G.
Proof.
  induction l as [|x l IH]; intros G ret G' E; cbn in E; [by injection E as <- <-|]. destruct (down G x) as [[r1 G1]|] eqn:E1; cbn in E; [|done]. pose proof (Hdown _ _ _ _ E1). destruct (negb _); [by injection E as <- <-|]. rewrite (IH _ _ _ E). done.
Qed.

Lemma visit_all_app l1 l2 G : visit_all down G (l1 ++ l2) = ('(ret, G) <-- visit_all down G l1; if negb (ret =? 0) then Ok (ret, G) else visit_all down G l2).
Proof.
  revert G. induction l1 as [|x l1 IH]; intros G; [done|]. cbn. destruct (down G x) as [[r1 G1]|]; cbn; [|done]. destruct (negb (r1 =? 0)) eqn:E; [cbn; by rewrite E|apply IH].
Qed.

Fixpoint steps (t : gtree) : nat := match t with GNode _ ts => S ((fix all ts := match ts with [] => 0 | t :: ts => S (steps t) + all ts end) ts) end%nat.
Fixpoint steps_all (ts : list gtree) : nat := match ts with [] => 0 | t :: ts => S (steps t) + steps_all ts end%nat.

Lemma steps_node x ts : steps (GNode x ts) = S (steps_all ts).
Proof. done. Qed.

Lemma steps_size t : (S (steps t) = 2 * length (preorder t))%nat.
Proof.
  induction t as [x ts IH] using gtree_nested. rewrite steps_node. cbn [preorder length]. assert (E : (steps_all ts = 2 * length (concat (preorder <$> ts)))%nat); [|lia].
  induction ts as [|t ts IHts]; [done|]. apply Forall_cons in IH as [It Its]. cbn [steps_all fmap list_fmap concat]. rewrite length_app. specialize (IHts Its). cbn in IHts |- *. lia.
Qed.

Local Abbreviation walk := (fun k G l => walk_loop k down tg_nop from G l).
Definition entry (x : Z) (ts : list gtree) : label := match ts with t :: _ => Down (gid t) | [] => Up x end.
Definition then_up (k : nat) (x : Z) (r : res (Z * gmap Z group)) : res (Z * gmap Z group) := '(ret, G) <-- r; if negb (ret =? 0) then Ok (ret, G) else walk k G (Up x).

(** From the entry of a group to the code behind its loop. *)
Definition walks (t : gtree) : Prop := forall par G k, rooted (links <$> G) par t -> NoDup (preorder t) -> from ∉ concat (preorder <$> subtrees t) -> walk (steps t + k)%nat G (Down (gid t)) = then_up k (gid t) (visit_all down G (preorder t)).

Lemma walk_forest x par ts : Forall walks ts -> forall pre G k, (links <$> G) !! x = Some (par, pre ++ (gid <$> ts)) -> Forall (rooted (links <$> G) (Some x)) ts -> NoDup (pre ++ concat (preorder <$> ts)) -> from ∉ concat (preorder <$> ts) ->
  walk (steps_all ts + k)%nat G (entry x ts) = then_up k x (visit_all down G (concat (preorder <$> ts))).
Proof.
  induction ts as [|t ts IH]; intros HW pre G k Hx Hr Hn Hf; [done|]. apply Forall_cons in HW as [Wt Wts]. apply Forall_cons in Hr as [Rt Rts]. cbn [fmap list_fmap concat] in Hn, Hf |- *. rewrite elem_of_app in Hf.
  assert (Nt : NoDup (preorder t)) by (apply NoDup_app in Hn as (_ & _ & Hn); by apply NoDup_app in Hn as (? & _ & _)).
  cbn [steps_all entry]. replace (S (steps t) + steps_all ts + k)%nat with (steps t + S (steps_all ts + k))%nat by lia. rewrite (Wt (Some x) G _ Rt Nt); [|destruct t; cbn in Hf |- *; rewrite elem_of_cons in Hf; tauto].
  rewrite visit_all_app. unfold then_up. destruct (visit_all down G (preorder t)) as [[ret G1]|] eqn:E1; cbn [res_bind]; [|done]. destruct (negb (ret =? 0)) eqn:Er; [cbn; by rewrite Er|]. pose proof (visit_all_links _ _ _ _ E1) as EL.
  assert (Hc : from <> gid t) by (intros ->; apply Hf; left; apply gid_in). assert (Hpre : gid t ∉ pre) by (intros Hin; apply NoDup_app in Hn as (_ & Hn & _); apply (Hn _ Hin); rewrite elem_of_app; left; apply gid_in).
  cbn [walk_loop]. unfold tg_nop at 1. cbn [res_bind]. change (negb (0 =? 0)) with false. rewrite (proj2 (Z.eqb_neq (gid t) from)) by congruence. cbn [orb].
  assert (Ht : (links <$> G) !! gid t = Some (Some x, gid <$> subtrees t)) by (destruct t; by apply rooted_node in Rt as [? _]). rewrite <- EL in Ht, Hx, Rts. rewrite lookup_fmap in Ht, Hx. unfold get_tg.
  destruct (G1 !! gid t) as [g|]; [|done]. destruct (G1 !! x) as [gx|] eqn:Egx; [|done]. cbn in Ht, Hx. unfold links in Ht, Hx. injection Ht as Ht _. injection Hx as Hx1 Hx2. cbn [res_bind]. rewrite Ht, Egx. cbn [res_bind]. rewrite Hx2, next_sibling_ok by done.
  etransitivity; [|apply (IH Wts (pre ++ [gid t]) G1 k)]; [by destruct ts| | | |tauto].
  - rewrite lookup_fmap, Egx. cbn. unfold links. by rewrite Hx1, Hx2, <- app_assoc.
  - done.
  - rewrite <- app_assoc. apply NoDup_app in Hn as (N1 & N2 & N3). apply NoDup_app in N3 as (N3 & N4 & N5). apply NoDup_app. split; [done|]. split.
    + intros y Hy Hin. apply (N2 y Hy). rewrite elem_of_app in Hin |- *. destruct Hin as [Hin|Hin]; [left; apply list_elem_of_singleton in Hin as ->; apply gid_in|auto].
    + apply NoDup_app. split; [apply NoDup_singleton|]. split; [|done]. intros y Hy. apply list_elem_of_singleton in Hy as ->. apply N4, gid_in.
Qed.

Lemma tg_walk_ok t : walks t.
Proof.
  induction t as [x ts IH] using gtree_nested. intros par G k Hr Hn Hf. cbn [gid subtrees] in *. rewrite steps_node. cbn [Nat.add walk_loop preorder visit_all]. unfold then_up.
  destruct (down G x) as [[ret G1]|] eqn:E1; cbn [res_bind]; [|done]. destruct (negb (ret =? 0)) eqn:Er; [cbn; by rewrite Er|]. apply rooted_node in Hr as [Hx Hts]. rewrite <- (Hdown _ _ _ _ E1) in Hx, Hts. cbn in Hn. apply NoDup_cons in Hn as [_ Hn].
  assert (Hx' := Hx). rewrite lookup_fmap in Hx'. unfold get_tg. destruct (G1 !! x) as [g|]; [|done]. cbn in Hx'. unfold links in Hx'. injection Hx' as _ Hc. cbn [res_bind]. rewrite Hc.
  etransitivity; [|apply (walk_forest x par ts IH [] G1 k Hx Hts Hn Hf)]. by destruct ts.
Qed.

(** The walk over a whole tree visits its groups in preorder, each once, and ends. *)
Lemma walk_tg_tree_ok t par G : rooted (links <$> G) par t -> NoDup (preorder t) -> from = gid t -> walk_tg_tree_from from down tg_nop G = visit_all down G (preorder t).
Proof.
  intros Hr Hn Ef. unfold walk_tg_tree_from. rewrite Ef at 2.
  assert (Hl : (length (preorder t) <= size G)%nat).
  { rewrite <- (size_list_to_set (C := gset Z) _ Hn), <- (size_dom (D := gset Z) G). apply subseteq_size. intros y Hy. apply elem_of_list_to_set in Hy. destruct (rooted_in _ _ _ Hr y Hy) as [v Hv]. rewrite lookup_fmap in Hv. apply elem_of_dom. destruct (G !! y); [by eexists|done]. }
  pose proof (steps_size t) as Hs. replace (2 * size G)%nat with (steps t + S (2 * size G - S (steps t)))%nat by lia. rewrite (tg_walk_ok t par G _ Hr Hn).
  - unfold then_up. destruct (visit_all down G (preorder t)) as [[ret G1]|] eqn:E1; cbn [res_bind]; [|done]. destruct (Z.eqb_spec ret 0) as [->|Er]; [|done]. cbn [negb walk_loop]. unfold tg_nop. cbn [res_bind]. by rewrite Ef, (Z.eqb_refl (gid t)).
  - rewrite Ef. destruct t as [x ts]. cbn in Hn |- *. by apply NoDup_cons in Hn as [? _].
Qed.
End Order.
End Walk.
