(* ===== verification/TgAdmission.v ===== *)
(** * Real-time bandwidth of task groups (kernel/sched/rt.c)

    A group may get real-time bandwidth when its parent has enough and it leaves enough to its children.  This is checked
    for the whole tree, with the new values in place of the group's own, before anything is changed. *)

From stdpp Require Import gmap list.
From S2P Require Import Prelude Math64 Cpupri RtBandwidth Deadline TgTree.
Local Open Scope Z_scope.
Local Open Scope res_scope.

Definition NSEC_PER_USEC : Z := 1000.
Definition U64_MAX : Z := 18446744073709551615.

(** [struct task_group]; the fair side is [period], [quota] and [hierarchical_quota] of its [cfs_bandwidth]. *)
Record task_group := mk_tg { tg_parent : option Z; tg_children : list Z; rt_bandwidth : rt_group; cfs_period : Z; cfs_quota : Z; hierarchical_quota : Z }.
Definition set_rt (g : task_group) (b : rt_group) : task_group := mk_tg (tg_parent g) (tg_children g) b (cfs_period g) (cfs_quota g) (hierarchical_quota g).
Definition set_hier (g : task_group) (h : Z) : task_group := mk_tg (tg_parent g) (tg_children g) (rt_bandwidth g) (cfs_period g) (cfs_quota g) h.

Abbreviation groups := (gmap Z task_group).
Abbreviation walk := (walk_tg_tree_from tg_parent tg_children).

(** ** Real-time bandwidth *)

Section Rt.
(** The global limit, and the threads with their priority and group. *)
Context (sysctl : rt_sysctl) (threads : list (Z * Z)).

Definition rt_bandwidth_enabled : bool := 0 <=? sysctl_sched_rt_runtime sysctl.
Definition rt_task (p : Z * Z) : bool := p.1 <? MAX_RT_PRIO.
(** [task_group_is_autogroup] is constantly false without CONFIG_SCHED_AUTOGROUP. *)
Definition tg_has_rt_tasks (x : Z) : bool := existsb (fun p => rt_task p && (p.2 =? x)) threads.

Record rt_schedulable_data := mk_rsd { d_tg : option Z; d_period : Z; d_runtime : Z }.

(** The parameters that count for the group [x] in the check. *)
Definition rt_params (d : rt_schedulable_data) (x : Z) (g : task_group) : Z * Z :=
  if bool_decide (d_tg d = Some x) then (d_period d, d_runtime d) else (rt_period (rt_bandwidth g), rt_b_runtime (rt_bandwidth g)).

Fixpoint children_sum (d : rt_schedulable_data) (G : groups) (l : list Z) (sum : Z) : res Z :=
  match l with
  | [] => Ok sum
  | c :: l => g <-- get_tg G c; let '(period, runtime) := rt_params d c g in children_sum d G l (u64 (sum + to_ratio period runtime))
  end.

Definition tg_rt_schedulable (d : rt_schedulable_data) (G : groups) (x : Z) : res (Z * groups) :=
  g <-- get_tg G x;
  let '(period, runtime) := rt_params d x g in
  if (period <? runtime) && negb (runtime =? RUNTIME_INF) then Ok (- EINVAL, G)
  else if rt_bandwidth_enabled && (runtime =? 0) && tg_has_rt_tasks x then Ok (- EBUSY, G)
  else
    let total := to_ratio period runtime in
    if to_ratio (global_rt_period sysctl) (global_rt_runtime sysctl) <? total then Ok (- EINVAL, G)
    else sum <-- children_sum d G (tg_children g) 0; if total <? sum then Ok (- EINVAL, G) else Ok (0, G).

Definition __rt_schedulable (root : Z) (G : groups) (tg : option Z) (period runtime : Z) : res (Z * groups) :=
  walk root (tg_rt_schedulable (mk_rsd tg period runtime)) tg_nop G.

Definition tg_set_rt_bandwidth (root : Z) (G : groups) (x period runtime : Z) : res (Z * groups) :=
  if (x =? root) && (runtime =? 0) then Ok (- EINVAL, G)
  else if period =? 0 then Ok (- EINVAL, G)
  else
    '(err, G) <-- __rt_schedulable root G (Some x) period runtime;
    if negb (err =? 0) then Ok (err, G)
    else g <-- get_tg G x; Ok (0, <[x := set_rt g (set_rt_bandwidth (rt_bandwidth g) period runtime)]> G).

Definition sched_group_set_rt_runtime (root : Z) (G : groups) (x rt_runtime_us : Z) : res (Z * groups) :=
  g <-- get_tg G x;
  let period := rt_period (rt_bandwidth g) in
  if rt_runtime_us <? 0 then tg_set_rt_bandwidth root G x period RUNTIME_INF
  else if U64_MAX / NSEC_PER_USEC <? rt_runtime_us then Ok (- EINVAL, G)
  else tg_set_rt_bandwidth root G x period (u64 (rt_runtime_us * NSEC_PER_USEC)).

Definition sched_group_rt_runtime (g : task_group) : Z :=
  if rt_b_runtime (rt_bandwidth g) =? RUNTIME_INF then -1 else rt_b_runtime (rt_bandwidth g) / NSEC_PER_USEC.

Definition sched_group_set_rt_period (root : Z) (G : groups) (x rt_period_us : Z) : res (Z * groups) :=
  if U64_MAX / NSEC_PER_USEC <? rt_period_us then Ok (- EINVAL, G)
  else g <-- get_tg G x; tg_set_rt_bandwidth root G x (u64 (rt_period_us * NSEC_PER_USEC)) (rt_b_runtime (rt_bandwidth g)).

Definition sched_group_rt_period (g : task_group) : Z := rt_period (rt_bandwidth g) / NSEC_PER_USEC.

Definition sched_rt_global_constraints (root : Z) (G : groups) : res (Z * groups) := __rt_schedulable root G None 0 0.
Definition sched_rt_can_attach (g : task_group) (p : Z * Z) : bool := negb (rt_task p && (rt_b_runtime (rt_bandwidth g) =? 0)).

(** The sysctl limits: the period is unsigned, the runtime signed. *)
Definition sched_rt_global_validate : Z :=
  if sysctl_sched_rt_period sysctl <=? 0 then - EINVAL
  else if negb (u64 (sysctl_sched_rt_runtime sysctl) =? RUNTIME_INF) && (sysctl_sched_rt_period sysctl <? u32 (sysctl_sched_rt_runtime sysctl)) then - EINVAL
  else 0.
End Rt.

(** ** What the real-time check decides *)

Section RtSpec.
Context (sysctl : rt_sysctl) (threads : list (Z * Z)) (t : gtree) (root : Z) (G : groups).
Context (Hr : rooted (links tg_parent tg_children <$> G) None t) (Hn : NoDup (preorder t)) (Hroot : root = gid t).

(** The bandwidth of a runtime in a period, in units of 2^-20 of a CPU and rounded down; without a limit it is one CPU. *)
Definition bandwidth (period runtime : Z) : Z := if runtime =? RUNTIME_INF then BW_UNIT else runtime * 2 ^ 20 / period.
Definition rt_ratio (g : task_group) : Z := bandwidth (rt_period (rt_bandwidth g)) (rt_b_runtime (rt_bandwidth g)).

(** The global limit, from the sysctl values in microseconds. *)
Definition global_limit : Z := if sysctl_sched_rt_runtime sysctl <? 0 then BW_UNIT else sysctl_sched_rt_runtime sysctl * 2 ^ 20 / sysctl_sched_rt_period sysctl.
Definition sysctl_typed : Prop := 0 < sysctl_sched_rt_period sysctl < 2 ^ 31 /\ sysctl_sched_rt_runtime sysctl < 2 ^ 31.

Lemma to_ratio_bandwidth period runtime : 0 <= period -> runtime = RUNTIME_INF \/ 0 <= runtime < 2 ^ 44 -> to_ratio period runtime = bandwidth period runtime.
Proof.
  intros Hp Hru. unfold bandwidth. destruct (Z.eqb_spec runtime RUNTIME_INF) as [->|Hi]; [done|]. destruct Hru as [|Hru]; [done|].
  destruct (Z.eq_dec period 0) as [->|Hz]; [unfold to_ratio; rewrite (proj2 (Z.eqb_neq _ _) Hi); cbn; by rewrite Z.div_0_r|]. by rewrite to_ratio_ok by lia.
Qed.

Lemma to_ratio_global : sysctl_typed -> to_ratio (global_rt_period sysctl) (global_rt_runtime sysctl) = global_limit.
Proof.
  intros [H1 H2]. unfold global_rt_period, global_rt_runtime, global_limit. destruct (Z.ltb_spec (sysctl_sched_rt_runtime sysctl) 0) as [H3|H3]; [done|].
  rewrite !u64_small by lia. rewrite to_ratio_bandwidth by lia. unfold bandwidth. rewrite (proj2 (Z.eqb_neq _ _)) by (unfold RUNTIME_INF; lia).
  rewrite <- Z.mul_assoc, (Z.mul_comm 1000), Z.mul_assoc. by rewrite Z.div_mul_cancel_r by lia.
Qed.
Definition sum_of (f : Z -> Z) (l : list Z) : Z := foldr (fun c acc => f c + acc) 0 l.
Definition ratio_at (M : groups) (c : Z) : Z := match M !! c with Some g => rt_ratio g | None => 0 end.

(** A group of [M] has no more runtime than its period, runtime when it has real-time tasks, no more bandwidth than the
    global limit, and at least as much as its children together. *)
Record rt_fits (M : groups) (x : Z) (g : task_group) : Prop := {
  rf_period : rt_b_runtime (rt_bandwidth g) <= rt_period (rt_bandwidth g) \/ rt_b_runtime (rt_bandwidth g) = RUNTIME_INF;
  rf_tasks : rt_bandwidth_enabled sysctl = true -> rt_b_runtime (rt_bandwidth g) = 0 -> tg_has_rt_tasks threads x = false;
  rf_limit : rt_ratio g <= global_limit;
  rf_children : sum_of (ratio_at M) (tg_children g) <= rt_ratio g }.

(** The values are of their types, and a runtime is none or below 2^44 ns, almost five hours, for which the shift of
    [to_ratio] does not overflow. *)
Definition rt_typed (b : rt_group) : Prop := (rt_b_runtime b = RUNTIME_INF \/ 0 <= rt_b_runtime b < 2 ^ 44) /\ 0 <= rt_period b < 2 ^ 63.

Lemma typed_ratio g : rt_typed (rt_bandwidth g) -> to_ratio (rt_period (rt_bandwidth g)) (rt_b_runtime (rt_bandwidth g)) = rt_ratio g.
Proof. intros [T1 T2]. apply to_ratio_bandwidth; [lia|done]. Qed.

Lemma ratio_range g : rt_typed (rt_bandwidth g) -> rt_b_runtime (rt_bandwidth g) <= rt_period (rt_bandwidth g) \/ rt_b_runtime (rt_bandwidth g) = RUNTIME_INF -> 0 <= rt_ratio g <= BW_UNIT.
Proof.
  intros T Hp. rewrite <- typed_ratio by done. destruct T as [T1 T2]. assert (D : rt_b_runtime (rt_bandwidth g) = RUNTIME_INF \/ 0 <= rt_b_runtime (rt_bandwidth g) <= rt_period (rt_bandwidth g)) by (unfold RUNTIME_INF in *; lia).
  destruct D as [Hi|D]; [|apply to_ratio_range; lia]. rewrite Hi. unfold to_ratio. rewrite Z.eqb_refl. unfold BW_UNIT. lia.
Qed.

Lemma sum_range M l : (forall c, c ∈ l -> 0 <= ratio_at M c <= BW_UNIT) -> 0 <= sum_of (ratio_at M) l <= BW_UNIT * Z.of_nat (length l).
Proof.
  induction l as [|c l IH]; intros Hl; cbn [sum_of foldr length]; [lia|]. pose proof (Hl c ltac:(apply elem_of_cons; auto)). specialize (IH ltac:(intros; apply Hl, elem_of_cons; auto)). unfold sum_of in IH. lia.
Qed.

(** The groups with the new values. *)
Definition overridden (d : rt_schedulable_data) (M : groups) : Prop :=
  links tg_parent tg_children <$> M = links tg_parent tg_children <$> G /\ forall x g, G !! x = Some g -> exists g', M !! x = Some g' /\ rt_params d x g = (rt_period (rt_bandwidth g'), rt_b_runtime (rt_bandwidth g')).

Section Check.
Context (d : rt_schedulable_data) (M : groups) (HM : overridden d M) (Hty : forall x g, M !! x = Some g -> rt_typed (rt_bandwidth g)) (Hsize : Z.of_nat (size G) < 2 ^ 40) (Hsys : sysctl_typed).

Lemma same_children x g g' : G !! x = Some g -> M !! x = Some g' -> tg_children g' = tg_children g.
Proof.
  intros Hg Hg'. destruct HM as [E _]. assert (E' : (links tg_parent tg_children <$> M) !! x = (links tg_parent tg_children <$> G) !! x) by (by rewrite E). rewrite !lookup_fmap, Hg, Hg' in E'. cbn in E'. unfold links in E'. congruence.
Qed.

Lemma children_sum_ok l acc : (forall c, c ∈ l -> is_Some (G !! c) /\ 0 <= ratio_at M c <= BW_UNIT) -> 0 <= acc -> acc + BW_UNIT * Z.of_nat (length l) < 2 ^ 64 -> children_sum d G l acc = Ok (acc + sum_of (ratio_at M) l).
Proof.
  revert acc. induction l as [|c l IH]; intros acc Hl Ha Hb; cbn [children_sum sum_of foldr]; [by rewrite Z.add_0_r|]. destruct (Hl c ltac:(apply elem_of_cons; auto)) as [[g Hg] Hc]. unfold get_tg. rewrite Hg. cbn [res_bind].
  destruct (proj2 HM c g Hg) as (g' & Hg' & ->). assert (Er : ratio_at M c = rt_ratio g') by (unfold ratio_at; by rewrite Hg'). rewrite (typed_ratio g' (Hty c g' Hg')), <- Er. cbn [length] in Hb. rewrite u64_small by (unfold BW_UNIT in *; lia).
  rewrite IH; [f_equal; unfold sum_of; lia|intros; apply Hl, elem_of_cons; auto|lia|unfold BW_UNIT in *; lia].
Qed.

(** The verdict on one group, when no group has more runtime than its period. *)
Lemma check_ok x g g' : G !! x = Some g -> M !! x = Some g' -> (forall c, c ∈ tg_children g -> is_Some (G !! c) /\ 0 <= ratio_at M c <= BW_UNIT) -> Z.of_nat (length (tg_children g)) < 2 ^ 40 ->
  exists r, tg_rt_schedulable sysctl threads d G x = Ok (r, G) /\ (r = 0 \/ r = - EINVAL \/ r = - EBUSY) /\ (r = 0 <-> rt_fits M x g').
Proof.
  intros Hg Hg' Hc Hlen. unfold tg_rt_schedulable, get_tg. rewrite Hg. cbn [res_bind]. destruct (proj2 HM x g Hg) as (g0 & Hg0 & ->). assert (g0 = g') as -> by congruence.
  rewrite (children_sum_ok (tg_children g) 0 Hc) by (unfold BW_UNIT; lia). rewrite Z.add_0_l, (typed_ratio g' (Hty x g' Hg')), (to_ratio_global Hsys). pose proof (same_children x g g' Hg Hg') as Ec.
  assert (Hbad : forall e, e = - EINVAL \/ e = - EBUSY -> ~ rt_fits M x g' -> exists r, Ok (e, G) = Ok (r, G) /\ (r = 0 \/ r = - EINVAL \/ r = - EBUSY) /\ (r = 0 <-> rt_fits M x g')).
  { intros e He Hno. exists e. split; [done|]. split; [tauto|]. split; [destruct He as [->| ->]; unfold EINVAL, EBUSY; lia|done]. }
  destruct ((_ <? _) && _) eqn:E1; [apply andb_true_iff in E1 as [E1 E1']; apply Z.ltb_lt in E1; apply negb_true_iff, Z.eqb_neq in E1'; apply Hbad; [auto|]; intros [[?|?] _ _ _]; [lia|done]|].
  destruct (_ && _ && _) eqn:E2; [apply andb_true_iff in E2 as [[E2 E2']%andb_true_iff E2'']; apply Z.eqb_eq in E2'; apply Hbad; [auto|]; intros [_ F _ _]; rewrite (F E2 E2') in E2''; done|].
  destruct (Z.ltb_spec global_limit (rt_ratio g')) as [E3|E3]; [apply Hbad; [auto|]; intros [_ _ F _]; lia|]. cbn [res_bind].
  destruct (Z.ltb_spec (rt_ratio g') (sum_of (ratio_at M) (tg_children g))) as [E4|E4]; [apply Hbad; [auto|]; intros [_ _ _ F]; rewrite Ec in F; lia|].
  exists 0. split; [done|]. split; [auto|]. split; [|done]. intros _. split; [| |done|by rewrite Ec].
  - apply andb_false_iff in E1 as [E1|E1]; [apply Z.ltb_ge in E1; auto|apply negb_false_iff, Z.eqb_eq in E1; auto].
  - intros F1 F2. rewrite F1, F2 in E2. by destruct (tg_has_rt_tasks threads x).
Qed.

Lemma children_sum_total l acc : (forall c, c ∈ l -> is_Some (G !! c)) -> exists sum, children_sum d G l acc = Ok sum.
Proof.
  revert acc. induction l as [|c l IH]; intros acc Hl; cbn [children_sum]; [eauto|]. destruct (Hl c ltac:(apply elem_of_cons; auto)) as [g Hg]. unfold get_tg. rewrite Hg. cbn [res_bind]. destruct (rt_params d c g). apply IH. intros. apply Hl, elem_of_cons. auto.
Qed.

(** Whatever the children have, the check of a group returns, and accepts only a runtime within the period. *)
Lemma check_total x g g' : G !! x = Some g -> M !! x = Some g' -> (forall c, c ∈ tg_children g -> is_Some (G !! c)) ->
  exists r, tg_rt_schedulable sysctl threads d G x = Ok (r, G) /\ (r = 0 \/ r = - EINVAL \/ r = - EBUSY) /\ (r = 0 -> rt_b_runtime (rt_bandwidth g') <= rt_period (rt_bandwidth g') \/ rt_b_runtime (rt_bandwidth g') = RUNTIME_INF).
Proof.
  intros Hg Hg' Hc. unfold tg_rt_schedulable, get_tg. rewrite Hg. cbn [res_bind]. destruct (proj2 HM x g Hg) as (g0 & Hg0 & ->). assert (g0 = g') as -> by congruence. destruct (children_sum_total _ 0 Hc) as [sum ->]. cbn [res_bind].
  destruct (_ && negb _) eqn:E1; [exists (- EINVAL); split; [done|]; split; [auto|done]|].
  assert (Hok : rt_b_runtime (rt_bandwidth g') <= rt_period (rt_bandwidth g') \/ rt_b_runtime (rt_bandwidth g') = RUNTIME_INF) by (apply andb_false_iff in E1 as [E1|E1]; [apply Z.ltb_ge in E1; auto|apply negb_false_iff, Z.eqb_eq in E1; auto]).
  repeat case_match; eexists; (split; [reflexivity|]); auto.
Qed.

Lemma group_of y : y ∈ preorder t -> exists g, G !! y = Some g /\ (forall c, c ∈ tg_children g -> c ∈ preorder t) /\ Z.of_nat (length (tg_children g)) < 2 ^ 40.
Proof.
  intros Hy. destruct (rooted_in _ _ _ Hr y Hy) as [[p cs] Hv]. assert (Hv' := Hv). rewrite lookup_fmap in Hv'. destruct (G !! y) as [g|] eqn:Eg; [|done]. cbn in Hv'. unfold links in Hv'. injection Hv' as Ep Ec. exists g. split; [done|]. subst cs. split.
  - intros c Hc. exact (child_in _ t y _ c None p Hr Hy Hv Hc).
  - enough (length (tg_children g) <= size G)%nat by lia. assert (Hnc : NoDup (tg_children g)) by exact (children_nodup _ t y None p _ Hr Hn Hy Hv).
    rewrite <- (size_list_to_set (C := gset Z) _ Hnc), <- (size_dom (D := gset Z) G). apply subseteq_size. intros c Hc. apply elem_of_list_to_set in Hc. apply elem_of_dom.
    destruct (rooted_in _ _ _ Hr c (child_in _ t y _ c None p Hr Hy Hv Hc)) as [v Hcv]. rewrite lookup_fmap in Hcv. destruct (G !! c); [by eexists|done].
Qed.

Lemma in_overridden y g : G !! y = Some g -> exists g', M !! y = Some g'.
Proof. intros Hg. destruct (proj2 HM y g Hg) as (g' & ? & _). eauto. Qed.

(** The walk accepts exactly the trees in which every group fits. *)
Lemma rt_schedulable_ok : exists r, walk root (tg_rt_schedulable sysctl threads d) tg_nop G = Ok (r, G) /\ (r = 0 \/ r = - EINVAL \/ r = - EBUSY) /\ (r = 0 <-> forall y g, y ∈ preorder t -> M !! y = Some g -> rt_fits M y g).
Proof.
  set (verdict := fun y => match tg_rt_schedulable sysctl threads d G y with Ok (r, _) => r | Fault _ => 0 end).
  assert (HV : forall y g', y ∈ preorder t -> M !! y = Some g' -> tg_rt_schedulable sysctl threads d G y = Ok (verdict y, G) /\ (verdict y = 0 \/ verdict y = - EINVAL \/ verdict y = - EBUSY) /\ (verdict y = 0 -> rt_b_runtime (rt_bandwidth g') <= rt_period (rt_bandwidth g') \/ rt_b_runtime (rt_bandwidth g') = RUNTIME_INF)).
  { intros y g' Hy Hg'. destruct (group_of y Hy) as (g & Hg & Hc & _). destruct (check_total y g g' Hg Hg') as (r & E & H1 & H2); [intros c ?; destruct (group_of c) as (? & ? & _); eauto|]. unfold verdict. rewrite E. auto. }
  assert (HM' : forall y, y ∈ preorder t -> exists g', M !! y = Some g') by (intros y Hy; destruct (group_of y Hy) as (g & Hg & _); by apply (in_overridden y g)).
  destruct (visit_pure (tg_rt_schedulable sysctl threads d) verdict G (preorder t)) as (r & E & H1 & H2); [intros y Hy; destruct (HM' y Hy) as [g' Hg']; by apply (HV y g')|].
  exists r. split; [rewrite <- E; apply (walk_tg_tree_ok tg_parent tg_children _ root) with (par := None); try done|].
  { intros G0 y ret G1 E1. f_equal. unfold tg_rt_schedulable in E1. destruct (get_tg G0 y); cbn in E1; [|done]. destruct (rt_params _ _ _). repeat case_match; try (by injection E1 as <- <-). destruct (children_sum _ _ _ _); cbn in E1; [|done]. case_match; by injection E1 as <- <-. }
  split; [destruct (Z.eq_dec r 0) as [->|Hr0]; [auto|]; destruct (H2 Hr0) as (y & Hy & ->); destruct (HM' y Hy) as [g' Hg']; by apply (HV y g')|]. rewrite H1. clear E H1 H2 r.
  assert (HF : (forall y g', y ∈ preorder t -> M !! y = Some g' -> rt_b_runtime (rt_bandwidth g') <= rt_period (rt_bandwidth g') \/ rt_b_runtime (rt_bandwidth g') = RUNTIME_INF) -> forall y g', y ∈ preorder t -> M !! y = Some g' -> verdict y = 0 <-> rt_fits M y g').
  { intros Hp y g' Hy Hg'. destruct (group_of y Hy) as (g & Hg & Hc & Hlen). destruct (check_ok y g g' Hg Hg') as (r & E & _ & H); [|done|unfold verdict; by rewrite E].
    intros c Hin. destruct (group_of c (Hc c Hin)) as (gc & Hgc & _). split; [eauto|]. destruct (in_overridden c gc Hgc) as [gc' Hgc']. unfold ratio_at. rewrite Hgc'. apply ratio_range; [by apply (Hty c)|by apply (Hp c); [apply Hc|]]. }
  split.
  - intros Hv y g' Hy Hg'. apply HF; [|done|done|by apply Hv]. intros z gz Hz Hgz. apply (HV z gz Hz Hgz). by apply Hv.
  - intros Hf y Hy. destruct (HM' y Hy) as [g' Hg']. apply (HF (fun z gz Hz Hgz => rf_period _ _ _ (Hf z gz Hz Hgz)) y g' Hy Hg'). by apply Hf.
Qed.
End Check.
End RtSpec.

(** The groups of [G] are the tree [t], with [root] on top. *)
Record tg_tree (t : gtree) (root : Z) (G : groups) : Prop := {
  tt_rooted : rooted (links tg_parent tg_children <$> G) None t;
  tt_nodup : NoDup (preorder t);
  tt_root : root = gid t }.

(** The groups with new real-time parameters for one of them. *)
Definition with_rt (G : groups) (x period runtime : Z) : groups := alter (fun g => set_rt g (set_rt_bandwidth (rt_bandwidth g) period runtime)) x G.

Lemma with_rt_overrides G x period runtime : overridden G (mk_rsd (Some x) period runtime) (with_rt G x period runtime).
Proof.
  unfold with_rt. split.
  - apply map_eq. intros y. rewrite !lookup_fmap. destruct (Z.eq_dec y x) as [->|Hy]; [rewrite lookup_alter_eq; by destruct (G !! x)|by rewrite lookup_alter_ne].
  - intros y g Hg. unfold rt_params. cbn [d_tg d_period d_runtime]. destruct (Z.eq_dec y x) as [->|Hy].
    + rewrite lookup_alter_eq, Hg. cbn. eexists. split; [done|]. rewrite bool_decide_true; [done|done].
    + rewrite lookup_alter_ne by done. exists g. split; [done|]. rewrite bool_decide_false; [done|congruence].
Qed.

(** C13: Setting the real-time bandwidth of a group is an admission test over the whole tree.  When every runtime, also
    the new one, is unlimited or below 2^44 ns (a larger one overflows: see [rt_ratio_overflows]), every
    period is below 2^63 ns, the sysctl period is positive and both sysctl values fit an int, it always returns, the
    new values are in force for the group and all its run queues when it returns 0 and nothing is changed otherwise, and
    it returns 0 exactly when the period is not 0, the root keeps some runtime, and in the tree with the new values every
    group has no more runtime than its period, runtime if it has real-time tasks, no more bandwidth than the global limit
    and at least the bandwidth of its children together.  Bandwidth is the quotient runtime / period in units of 2^-20,
    rounded down, and one CPU for a group without a limit. *)
Theorem tg_set_rt_bandwidth_correct (sysctl : rt_sysctl) (threads : list (Z * Z)) (t : gtree) (root : Z) (G : groups) (x period runtime : Z)
  (Htree : tg_tree t root G) (Hx : x ∈ preorder t) (Hty : forall y g, G !! y = Some g -> rt_typed (rt_bandwidth g)) (Hp : 0 <= period < 2 ^ 63) (Hru : runtime = RUNTIME_INF \/ 0 <= runtime < 2 ^ 44) (Hsize : Z.of_nat (size G) < 2 ^ 40) (Hsys : sysctl_typed sysctl) :
  let G' := with_rt G x period runtime in
  exists r, tg_set_rt_bandwidth sysctl threads root G x period runtime = Ok (r, if r =? 0 then G' else G) /\
  (r = 0 \/ r = - EINVAL \/ r = - EBUSY) /\
  (r = 0 <-> (x = root -> runtime <> 0) /\ period <> 0 /\ forall y g, y ∈ preorder t -> G' !! y = Some g -> rt_fits sysctl threads G' y g).
Proof.
  intros G'. destruct Htree as [Hr Hn Hroot]. unfold tg_set_rt_bandwidth.
  assert (Hbad : forall P : Prop, ~ P -> exists r, Ok (- EINVAL, G) = Ok (r, if r =? 0 then G' else G) /\ (r = 0 \/ r = - EINVAL \/ r = - EBUSY) /\ (r = 0 <-> P)) by (intros P HP; exists (- EINVAL); split; [done|]; split; [auto|done]).
  destruct (_ && _) eqn:E1; [apply andb_true_iff in E1 as [E1%Z.eqb_eq E2%Z.eqb_eq]; apply Hbad; tauto|]. destruct (Z.eqb_spec period 0) as [E2|E2]; [apply Hbad; tauto|].
  assert (Hroot0 : x = root -> runtime <> 0) by (intros ->; rewrite (Z.eqb_refl root) in E1; by apply Z.eqb_neq in E1).
  destruct (rt_schedulable_ok sysctl threads t root G Hr Hn Hroot (mk_rsd (Some x) period runtime) G' (with_rt_overrides G x period runtime)) as (r & E & H1 & H2); [|done|done|].
  - intros y g Hy. destruct (Z.eq_dec y x) as [->|Hyx]; subst G'; unfold with_rt in Hy; [|rewrite lookup_alter_ne in Hy by done; by apply (Hty y)].
    rewrite lookup_alter_eq in Hy. destruct (G !! x); [|done]. injection Hy as <-. done.
  - unfold __rt_schedulable. rewrite E. cbn [res_bind]. exists r. split; [|split; [done|tauto]]. destruct (Z.eqb_spec r 0) as [->|Hr0]; cbn [negb]; [|done].
    unfold get_tg. destruct (rooted_in _ _ _ Hr x Hx) as [v Hv]. rewrite lookup_fmap in Hv. destruct (G !! x) as [g|] eqn:Eg; [|done]. cbn [res_bind]. subst G'. unfold with_rt. do 2 f_equal. apply map_eq. intros y.
    destruct (Z.eq_dec y x) as [->|Hy]; [by rewrite lookup_insert_eq, lookup_alter_eq, Eg|by rewrite lookup_insert_ne, lookup_alter_ne].
Qed.

(** A root with 95% and a group with nothing below it. *)
Definition two_groups : groups := {[ 1 := mk_tg None [2] (mk_group 1000000000 950000000 ∅) 100000000 RUNTIME_INF (-1); 2 := mk_tg (Some 1) [] (mk_group 1000000000 0 ∅) 100000000 RUNTIME_INF (-1) ]}.
Definition two_tree : gtree := GNode 1 [GNode 2 []].
Lemma two_groups_tree : tg_tree two_tree 1 two_groups.
Proof. split; [vm_compute; auto|by apply (bool_decide_unpack _)|done]. Qed.

(** The group may take half of the time, and may not take more than its parent has. *)
Lemma tg_set_rt_bandwidth_correct_witness : let G' := with_rt two_groups 2 1000000000 500000000 in
  tg_set_rt_bandwidth (mk_rt_sysctl 1000000 950000) [] 1 two_groups 2 1000000000 500000000 = Ok (0, G') /\ (forall y g, y ∈ preorder two_tree -> G' !! y = Some g -> rt_fits (mk_rt_sysctl 1000000 950000) [] G' y g) /\
  tg_set_rt_bandwidth (mk_rt_sysctl 1000000 950000) [] 1 two_groups 2 1000000000 980000000 = Ok (- EINVAL, two_groups).
Proof.
  assert (Hty : forall y g, two_groups !! y = Some g -> rt_typed (rt_bandwidth g)).
  { intros y g Hy. unfold two_groups in Hy. destruct (Z.eq_dec y 1) as [->|H1]; [vm_compute in Hy; injection Hy as <-; split; [right|]; cbn [rt_bandwidth rt_b_runtime rt_period]; lia|]. destruct (Z.eq_dec y 2) as [->|H2]; [vm_compute in Hy; injection Hy as <-; split; [right|]; cbn [rt_bandwidth rt_b_runtime rt_period]; lia|]. rewrite lookup_insert_ne, lookup_singleton_ne in Hy by congruence. discriminate Hy. }
  intros G'. destruct (tg_set_rt_bandwidth_correct (mk_rt_sysctl 1000000 950000) [] two_tree 1 two_groups 2 1000000000 500000000 two_groups_tree ltac:(apply (bool_decide_unpack _); exact I) Hty ltac:(lia) ltac:(lia) ltac:(vm_compute; reflexivity) ltac:(split; cbn [sysctl_sched_rt_period sysctl_sched_rt_runtime]; lia)) as (r & E & _ & H).
  assert (E0 : tg_set_rt_bandwidth (mk_rt_sysctl 1000000 950000) [] 1 two_groups 2 1000000000 500000000 = Ok (0, G')) by (vm_compute; reflexivity). split; [exact E0|]. rewrite E0 in E. injection E as <- _. split; [exact (proj2 (proj2 (proj1 H eq_refl)))|vm_compute; reflexivity].
Defined.

(** The shift of [to_ratio] overflows: a group with all of a period of 2^44 ns counts for nothing, and is accepted below a
    parent that has no runtime at all. *)
Example rt_ratio_overflows : let G := {[ 1 := mk_tg None [2] (mk_group 1000000000 950000000 ∅) 0 RUNTIME_INF (-1); 2 := mk_tg (Some 1) [3] (mk_group 1000000000 0 ∅) 0 RUNTIME_INF (-1); 3 := mk_tg (Some 2) [] (mk_group 1000000000 0 ∅) 0 RUNTIME_INF (-1) ]} : groups in
  to_ratio (2 ^ 44) (2 ^ 44) = 0 /\ exists G', tg_set_rt_bandwidth (mk_rt_sysctl 1000000 950000) [] 1 G 3 (2 ^ 44) (2 ^ 44) = Ok (0, G').
Proof. intros G. split; [reflexivity|]. eexists. vm_compute. reflexivity. Qed.
