(* ===== verification/TgQuota.v ===== *)
(** * Fair quotas of task groups (kernel/sched/core.c)

    A group may get a quota when no group above it has less and none below it has more, as shares of their periods.  The
    check walks the tree with the new values in place of the group's own, and leaves in every group the limit in force. *)

From stdpp Require Import gmap list relations.
From S2P Require Import Prelude Math64 RtBandwidth Deadline TgTree TgAdmission.
Local Open Scope Z_scope.
Local Open Scope res_scope.

Definition max_cfs_quota_period : Z := 1000000000.
Definition min_cfs_quota_period : Z := 1000000.

Definition tg_get_cfs_quota (g : task_group) : Z := if cfs_quota g =? RUNTIME_INF then -1 else cfs_quota g / NSEC_PER_USEC.
Definition tg_get_cfs_period (g : task_group) : Z := cfs_period g / NSEC_PER_USEC.

Record cfs_schedulable_data := mk_csd { c_tg : Z; c_period : Z; c_quota : Z }.

Definition normalize_cfs_quota (d : cfs_schedulable_data) (x : Z) (g : task_group) : Z :=
  let '(period, quota) := if c_tg d =? x then (c_period d, c_quota d) else (tg_get_cfs_period g, u64 (tg_get_cfs_quota g)) in
  if quota =? RUNTIME_INF then RUNTIME_INF else to_ratio period quota.

(** Quotas are signed here; RUNTIME_INF becomes -1. *)
Definition tg_cfs_schedulable_down (d : cfs_schedulable_data) (G : groups) (x : Z) : res (Z * groups) :=
  g <-- get_tg G x;
  match tg_parent g with
  | None => Ok (0, <[x := set_hier g (s64 RUNTIME_INF)]> G)
  | Some p =>
      gp <-- get_tg G p;
      let quota := s64 (normalize_cfs_quota d x g) in
      let parent_quota := hierarchical_quota gp in
      if u64 quota =? RUNTIME_INF then Ok (0, <[x := set_hier g parent_quota]> G)
      else if negb (u64 parent_quota =? RUNTIME_INF) && (parent_quota <? quota) then Ok (- EINVAL, G)
      else Ok (0, <[x := set_hier g quota]> G)
  end.

Definition __cfs_schedulable (root : Z) (G : groups) (x period quota : Z) : res (Z * groups) :=
  let d := if negb (quota =? RUNTIME_INF) then mk_csd x (period / NSEC_PER_USEC) (quota / NSEC_PER_USEC) else mk_csd x period quota in
  walk root (tg_cfs_schedulable_down d) tg_nop G.

(** The checks of [tg_set_cfs_bandwidth]; the pool and the run queues are set afterwards. *)
Definition tg_set_cfs_bandwidth_check (root : Z) (G : groups) (x period quota : Z) : res (Z * groups) :=
  if x =? root then Ok (- EINVAL, G)
  else if (quota <? min_cfs_quota_period) || (period <? min_cfs_quota_period) then Ok (- EINVAL, G)
  else if max_cfs_quota_period <? period then Ok (- EINVAL, G)
  else __cfs_schedulable root G x period quota.

(** ** What the check decides *)

Definition with_cfs (G : groups) (x period quota : Z) : groups := alter (fun g => mk_tg (tg_parent g) (tg_children g) (rt_bandwidth g) period quota (hierarchical_quota g)) x G.

(** The limit of a group, as a share of its period; the root has none. *)
Definition limit (M : groups) (y : Z) : option Z :=
  g ← M !! y; _ ← tg_parent g; if cfs_quota g =? RUNTIME_INF then None else Some (ratio (tg_get_cfs_period g) (cfs_quota g / NSEC_PER_USEC)).

(** Periods of 1 ms and more, and quotas of less than 2^44 us. *)
Definition cfs_typed (g : task_group) : Prop := min_cfs_quota_period <= cfs_period g /\ (cfs_quota g = RUNTIME_INF \/ 0 <= cfs_quota g < NSEC_PER_USEC * 2 ^ 44).

(** [a] is the parent of [b]. *)
Definition parent_of (G : groups) (a b : Z) : Prop := exists g, G !! b = Some g /\ tg_parent g = Some a.

(** No group above [y] has a smaller limit. *)
Definition nests (M : groups) (y : Z) : Prop := forall v a w, limit M y = Some v -> tc (parent_of M) a y -> limit M a = Some w -> v <= w.

(** [h] is the smallest limit of [y] and the groups above it, -1 when there is none. *)
Definition tightest (M : groups) (y h : Z) : Prop :=
  (h = -1 /\ forall a, rtc (parent_of M) a y -> limit M a = None) \/
  (0 <= h /\ (exists a, rtc (parent_of M) a y /\ limit M a = Some h) /\ forall a w, rtc (parent_of M) a y -> limit M a = Some w -> h <= w).

(** A group without the limit the last check left in it. *)
Definition settings (g : task_group) : task_group := set_hier g 0.

Lemma tc_last (R : Z -> Z -> Prop) a c : tc R a c <-> exists b, rtc R a b /\ R b c.
Proof.
  split.
  - induction 1 as [x y H|x y z H _ (b & H1 & H2)]; [exists x; split; [constructor|done]|]. exists b. split; [by apply (rtc_l _ x y)|done].
  - intros (b & H1 & H2). induction H1 as [x|x y z H H1 IH]; [by apply tc_once|]. apply (tc_l _ x y); auto.
Qed.

Lemma rtc_cases (R : Z -> Z -> Prop) a c : rtc R a c <-> a = c \/ tc R a c.
Proof.
  split; [|intros [->|H]; [constructor|by apply tc_rtc]]. induction 1 as [x|x y z H _ [->|IH]]; [auto|right; by apply tc_once|right; by apply (tc_l _ x y)].
Qed.

Lemma above_parent M y g p a : M !! y = Some g -> tg_parent g = Some p -> tc (parent_of M) a y <-> rtc (parent_of M) a p.
Proof.
  intros Hg Hp. rewrite tc_last. split; [|intros H; exists p; split; [done|by exists g]]. intros (b & H & g' & Hg' & Hb). congruence.
Qed.

Lemma above_root M y g a : M !! y = Some g -> tg_parent g = None -> ~ tc (parent_of M) a y.
Proof. intros Hg Hp (b & _ & g' & Hg' & Hb)%tc_last. congruence. Qed.

Section Check.
Context (t : gtree) (root : Z) (G M : groups) (d : cfs_schedulable_data).
Context (Hr : rooted (links tg_parent tg_children <$> G) None t) (Hn : NoDup (preorder t)) (Hroot : root = gid t).

(** [M] is [G] with the values of the check. *)
Context (HM : forall y g, G !! y = Some g -> exists g', M !! y = Some g' /\ tg_parent g' = tg_parent g /\ cfs_typed g' /\
  normalize_cfs_quota d y g = (if cfs_quota g' =? RUNTIME_INF then RUNTIME_INF else to_ratio (tg_get_cfs_period g') (cfs_quota g' / NSEC_PER_USEC))).

Lemma ratio_small g : cfs_typed g -> (cfs_quota g =? RUNTIME_INF) = false ->
  to_ratio (tg_get_cfs_period g) (cfs_quota g / NSEC_PER_USEC) = ratio (tg_get_cfs_period g) (cfs_quota g / NSEC_PER_USEC) /\ 0 <= ratio (tg_get_cfs_period g) (cfs_quota g / NSEC_PER_USEC) < 2 ^ 62.
Proof.
  intros [Hp [Hq|Hq]] Hi; [by rewrite Hq in Hi|]. unfold tg_get_cfs_period, min_cfs_quota_period, NSEC_PER_USEC in *.
  assert (P : 1000 <= cfs_period g / 1000) by (apply Z.div_le_lower_bound; lia). assert (Q : 0 <= cfs_quota g / 1000 < 2 ^ 44) by (split; [apply Z.div_pos; lia|apply Z.div_lt_upper_bound; lia]).
  split; [apply to_ratio_ok; lia|]. unfold ratio, BW_UNIT. split; [apply Z.div_pos; lia|]. apply Z.div_lt_upper_bound; nia.
Qed.

(** The limit the code computes, with -1 for none. *)
Lemma quota_of y g p : G !! y = Some g -> tg_parent g = Some p ->
  match limit M y with Some v => s64 (normalize_cfs_quota d y g) = v /\ 0 <= v < 2 ^ 62 | None => normalize_cfs_quota d y g = RUNTIME_INF end.
Proof.
  intros Hg Hp. destruct (HM y g Hg) as (g' & Hg' & Ep & Ht & En). unfold limit. rewrite Hg'. cbn. rewrite Ep, Hp. cbn. rewrite En. destruct (cfs_quota g' =? RUNTIME_INF) eqn:Ei; [done|].
  destruct (ratio_small g' Ht Ei) as [-> Hb]. split; [apply s64_small; lia|]. done.
Qed.

Lemma is_inf h : -1 <= h < 2 ^ 62 -> (u64 h =? RUNTIME_INF) = (h =? -1).
Proof.
  intros Hh. destruct (Z.eqb_spec h (-1)) as [->|Hm]; [done|]. rewrite u64_small by lia. apply Z.eqb_neq. unfold RUNTIME_INF. lia.
Qed.

(** The groups [l] are done. *)
Record visited (l : list Z) (Gc : groups) : Prop := {
  vi_same : settings <$> Gc = settings <$> G;
  vi_limit : forall y, y ∈ l -> exists g, Gc !! y = Some g /\ tightest M y (hierarchical_quota g) /\ -1 <= hierarchical_quota g < 2 ^ 62 }.

Lemma settings_at Gc y gc : settings <$> Gc = settings <$> G -> Gc !! y = Some gc -> exists g, G !! y = Some g /\ settings gc = settings g.
Proof.
  intros E Hg. assert (E' : (settings <$> Gc) !! y = (settings <$> G) !! y) by (by rewrite E). rewrite !lookup_fmap, Hg in E'. cbn in E'. destruct (G !! y) as [g|]; cbn in E'; [|done]. apply (inj Some) in E'. eauto.
Qed.

Lemma settings_at' Gc y g : settings <$> Gc = settings <$> G -> G !! y = Some g -> exists gc, Gc !! y = Some gc /\ settings gc = settings g.
Proof.
  intros E Hg. assert (E' : (settings <$> Gc) !! y = (settings <$> G) !! y) by (by rewrite E). rewrite !lookup_fmap, Hg in E'. cbn in E'. destruct (Gc !! y) as [gc|]; cbn in E'; [|done]. apply (inj Some) in E'. eauto.
Qed.

(** A group gets the limit in force. *)
Lemma visited_put l Gc y gc h : visited l Gc -> Gc !! y = Some gc -> tightest M y h -> -1 <= h < 2 ^ 62 -> visited (l ++ [y]) (<[y := set_hier gc h]> Gc).
Proof.
  intros [V1 V2] Hg Ht Hh. split.
  - rewrite fmap_insert, <- V1. apply insert_id. rewrite lookup_fmap, Hg. done.
  - intros z Hz. destruct (Z.eq_dec z y) as [->|Hzy]; [rewrite lookup_insert_eq; eexists; split; [done|]; done|]. rewrite lookup_insert_ne by done. apply V2. apply elem_of_app in Hz as [Hz|Hz]; [done|]. by apply list_elem_of_singleton in Hz.
Qed.

Lemma tightest_root y g : M !! y = Some g -> tg_parent g = None -> tightest M y (-1).
Proof.
  intros Hg Hp. left. split; [done|]. intros a [->|Ha]%rtc_cases; [unfold limit; rewrite Hg; cbn; by rewrite Hp|by apply (above_root M y g a) in Ha].
Qed.

Lemma tightest_inherits y g p h : M !! y = Some g -> tg_parent g = Some p -> limit M y = None -> tightest M p h -> tightest M y h.
Proof.
  intros Hg Hp Hl Ht. assert (Hup : forall a, rtc (parent_of M) a y <-> a = y \/ rtc (parent_of M) a p) by (intros a; rewrite rtc_cases, (above_parent M y g p a Hg Hp); done).
  destruct Ht as [[-> H]|(H1 & (a & Ha & Hl') & H2)]; [left; split; [done|]; intros a [->|Ha]%Hup; auto|]. right. split; [done|]. split; [exists a; rewrite Hup; auto|]. intros b w [->|Hb]%Hup Hw; [congruence|eauto].
Qed.

(** A limit is in force when the one above is none or no smaller. *)
Lemma tightest_own y g p h v : M !! y = Some g -> tg_parent g = Some p -> limit M y = Some v -> 0 <= v -> tightest M p h -> (h = -1 \/ v <= h <-> nests M y) /\ (h = -1 \/ v <= h -> tightest M y v).
Proof.
  intros Hg Hp Hl Hv Ht. assert (Hup : forall a, tc (parent_of M) a y <-> rtc (parent_of M) a p) by (intros a; by apply (above_parent M y g p a)).
  assert (H1 : h = -1 \/ v <= h -> nests M y).
  { intros Hh v' a w Hv' Ha%Hup Hw. destruct Ht as [[-> H]|(H0 & _ & H)]; [rewrite (H a Ha) in Hw; done|]. specialize (H a w Ha Hw). assert (v' = v) as -> by congruence. lia. }
  split; [split; [exact H1|]|].
  - intros HN. destruct Ht as [[-> _]|(_ & (a & Ha & Hl') & _)]; [auto|]. right. apply (HN v a h Hl); [by apply Hup|done].
  - intros Hh. right. split; [done|]. split; [exists y; split; [constructor|done]|]. intros a w [->|Ha]%rtc_cases Hw; [assert (w = v) by congruence; lia|]. by apply (H1 Hh v a w).
Qed.

Lemma nests_free y : limit M y = None -> nests M y.
Proof. intros Hl v a w Hv. congruence. Qed.

(** One visit, of a group whose parent was visited. *)
Lemma visit_one l Gc y gc : visited l Gc -> Gc !! y = Some gc -> match tg_parent gc with Some p => p ∈ l | None => True end ->
  exists r Gd, tg_cfs_schedulable_down d Gc y = Ok (r, Gd) /\ settings <$> Gd = settings <$> G /\ (r = 0 \/ r = - EINVAL) /\ (r = 0 <-> nests M y) /\ (r = 0 -> visited (l ++ [y]) Gd).
Proof.
  intros V Hgc Hpar. destruct (settings_at Gc y gc (vi_same _ _ V) Hgc) as (g & Hg & Es). destruct (HM y g Hg) as (g' & Hg' & Ep & Hty & _). assert (Ep' : tg_parent gc = tg_parent g) by exact (f_equal tg_parent Es). rewrite <- Ep' in Ep.
  unfold tg_cfs_schedulable_down, get_tg. rewrite Hgc. cbn [res_bind].
  assert (Hok : forall h, tightest M y h -> -1 <= h < 2 ^ 62 -> nests M y -> exists r Gd, Ok (0, <[y := set_hier gc h]> Gc) = Ok (r, Gd) /\ settings <$> Gd = settings <$> G /\ (r = 0 \/ r = - EINVAL) /\ (r = 0 <-> nests M y) /\ (r = 0 -> visited (l ++ [y]) Gd)).
  { intros h Ht Hh HN. pose proof (visited_put l Gc y gc h V Hgc Ht Hh) as V'. exists 0, (<[y := set_hier gc h]> Gc). split; [done|]. split; [apply V'|]. split; [auto|]. split; [done|done]. }
  destruct (tg_parent gc) as [p|] eqn:Epc.
  2:{ apply Hok; [by apply (tightest_root y g')|by vm_compute|]. apply nests_free. unfold limit. rewrite Hg'. cbn. by rewrite Ep. }
  destruct (vi_limit _ _ V p Hpar) as (gp & Hgp & Htp & Hhp). rewrite Hgp. cbn [res_bind].
  change (normalize_cfs_quota d y gc) with (normalize_cfs_quota d y (settings gc)). rewrite Es. change (normalize_cfs_quota d y (settings g)) with (normalize_cfs_quota d y g).
  pose proof (quota_of y g p Hg (eq_sym Ep')) as HQ. destruct (limit M y) as [v|] eqn:El.
  - destruct HQ as [-> Hv]. rewrite is_inf by lia. rewrite (proj2 (Z.eqb_neq v (-1))) by lia. rewrite is_inf by done. destruct (tightest_own y g' p (hierarchical_quota gp) v Hg' Ep El (proj1 Hv) Htp) as [T1 T2].
    destruct (_ && _) eqn:Eb.
    + exists (- EINVAL), Gc. split; [done|]. split; [apply V|]. split; [auto|]. split; [|done]. split; [done|]. intros HN%T1. apply andb_true_iff in Eb as [E1 E2]. apply negb_true_iff, Z.eqb_neq in E1. apply Z.ltb_lt in E2. lia.
    + assert (Hh : hierarchical_quota gp = -1 \/ v <= hierarchical_quota gp) by (apply andb_false_iff in Eb as [E1|E1]; [left; by apply negb_false_iff, Z.eqb_eq in E1|right; by apply Z.ltb_ge in E1]). apply Hok; [by apply T2|lia|by apply T1].
  - rewrite HQ. change (u64 (s64 RUNTIME_INF) =? RUNTIME_INF) with true. cbv iota. apply Hok; [by apply (tightest_inherits y g' p)|done|by apply nests_free].
Qed.

Lemma settings_links Gc : settings <$> Gc = settings <$> G -> links tg_parent tg_children <$> Gc = links tg_parent tg_children <$> G.
Proof.
  intros E. assert (F : forall K : groups, links tg_parent tg_children <$> K = links tg_parent tg_children <$> (settings <$> K)) by (intros K; rewrite <- map_fmap_compose; done). by rewrite (F Gc), E, <- F.
Qed.

(** The visits of the rest of the tree. *)
Lemma visit_rest l2 : forall l1 Gc, preorder t = l1 ++ l2 -> visited l1 Gc ->
  exists r Gd, visit_all (tg_cfs_schedulable_down d) Gc l2 = Ok (r, Gd) /\ settings <$> Gd = settings <$> G /\ (r = 0 \/ r = - EINVAL) /\ (r = 0 <-> forall y, y ∈ l2 -> nests M y) /\ (r = 0 -> visited (l1 ++ l2) Gd).
Proof.
  induction l2 as [|y l2 IH]; intros l1 Gc El V; cbn [visit_all].
  { exists 0, Gc. split; [done|]. split; [apply V|]. split; [auto|]. split; [split; [intros _ y Hy; by apply elem_of_nil in Hy|done]|intros _; by rewrite app_nil_r]. }
  destruct (rooted_in _ _ _ Hr y) as [v Hv]; [rewrite El, elem_of_app, elem_of_cons; auto|]. assert (Hv' := Hv). rewrite <- (settings_links Gc (vi_same _ _ V)), lookup_fmap in Hv'. destruct (Gc !! y) as [gc|] eqn:Egc; [|done].
  destruct (visit_one l1 Gc y gc V Egc) as (r & Gd & E & H1 & H2 & H3 & H4).
  { destruct (parent_before _ t None l1 y l2 Hr El) as [[-> ->]|(p & cs & Hp & Hin)].
    - destruct t as [x ts]. apply rooted_node in Hr as [Hx _]. cbn in Hv, Hx. rewrite Hx in Hv. injection Hv as <-. cbn in Hv'. unfold links in Hv'. injection Hv' as -> _. done.
    - rewrite Hp in Hv. injection Hv as <-. cbn in Hv'. unfold links in Hv'. injection Hv' as -> _. done. }
  rewrite E. cbn [res_bind]. destruct (Z.eqb_spec r 0) as [->|Hr0]; cbn [negb].
  - destruct (IH (l1 ++ [y]) Gd) as (r' & Ge & E' & F1 & F2 & F3 & F4); [by rewrite <- app_assoc|auto|]. exists r', Ge. split; [done|]. split; [done|]. split; [done|]. split; [|intros H; specialize (F4 H); by rewrite <- app_assoc in F4].
    rewrite F3. split; intros H z Hz; [apply elem_of_cons in Hz as [->|Hz]; [by apply H3|auto]|apply H, elem_of_cons; auto].
  - exists r, Gd. split; [done|]. split; [done|]. split; [done|]. split; [|done]. split; [done|]. intros H. apply H3, H, elem_of_cons. auto.
Qed.

Lemma down_links Gc y r Gd : tg_cfs_schedulable_down d Gc y = Ok (r, Gd) -> links tg_parent tg_children <$> Gd = links tg_parent tg_children <$> Gc.
Proof.
  unfold tg_cfs_schedulable_down, get_tg. destruct (Gc !! y) as [gc|] eqn:Egc; cbn [res_bind]; [|done].
  assert (Hput : forall h, links tg_parent tg_children <$> <[y := set_hier gc h]> Gc = links tg_parent tg_children <$> Gc) by (intros h; rewrite fmap_insert; apply insert_id; by rewrite lookup_fmap, Egc).
  destruct (tg_parent gc); [|intros E; injection E as <- <-; apply Hput]. destruct (Gc !! z); cbn [res_bind]; [|done]. repeat case_match; intros E; injection E as <- <-; done.
Qed.

(** The walk accepts exactly the trees whose limits nest. *)
Lemma cfs_walk_ok : exists r Gd, walk root (tg_cfs_schedulable_down d) tg_nop G = Ok (r, Gd) /\ settings <$> Gd = settings <$> G /\ (r = 0 \/ r = - EINVAL) /\ (r = 0 <-> forall y, y ∈ preorder t -> nests M y) /\ (r = 0 -> visited (preorder t) Gd).
Proof.
  destruct (visit_rest (preorder t) [] G eq_refl) as (r & Gd & E & H); [split; [done|intros y Hy; by apply elem_of_nil in Hy]|]. exists r, Gd. split; [|exact H].
  rewrite <- E. apply (walk_tg_tree_ok tg_parent tg_children _ root) with (par := None); [apply down_links|done|done|done].
Qed.
End Check.

(** C14: Setting a quota is checked over the whole tree.  When, with the new values, every period is at least 1 ms, as
    the setters demand, and every quota is unlimited or below 2^44 us (a larger one overflows: see [cfs_ratio_overflows]),
    the check always returns and changes no period and no quota; it accepts exactly when no group has a larger share of
    its period, in units of 2^-20 and rounded down, than a group above it that has a limit, and then every group holds
    the smallest limit of itself and the groups above it. *)
Theorem cfs_schedulable_correct (t : gtree) (root : Z) (G : groups) (x period quota : Z)
  (Htree : tg_tree t root G) (Hty : forall y g, with_cfs G x period quota !! y = Some g -> cfs_typed g) :
  let M := with_cfs G x period quota in
  exists r Gd, __cfs_schedulable root G x period quota = Ok (r, Gd) /\ settings <$> Gd = settings <$> G /\ (r = 0 \/ r = - EINVAL) /\
  (r = 0 <-> forall a b v w, b ∈ preorder t -> tc (parent_of M) a b -> limit M a = Some w -> limit M b = Some v -> v <= w) /\
  (r = 0 -> forall y, y ∈ preorder t -> exists g, Gd !! y = Some g /\ tightest M y (hierarchical_quota g)).
Proof.
  intros M. destruct Htree as [Hr Hn Hroot]. unfold __cfs_schedulable.
  destruct (cfs_walk_ok t root G M (if negb (quota =? RUNTIME_INF) then mk_csd x (period / NSEC_PER_USEC) (quota / NSEC_PER_USEC) else mk_csd x period quota) Hr Hn Hroot) as (r & Gd & E & H1 & H2 & H3 & H4).
  - intros y g Hg. destruct (Z.eq_dec y x) as [->|Hy].
    + assert (Hg' : M !! x = Some (mk_tg (tg_parent g) (tg_children g) (rt_bandwidth g) period quota (hierarchical_quota g))) by (subst M; unfold with_cfs; by rewrite lookup_alter_eq, Hg). eexists. split; [exact Hg'|]. split; [done|]. split; [by apply (Hty x)|].
      cbn [cfs_quota tg_get_cfs_period cfs_period]. unfold normalize_cfs_quota. apply Hty in Hg' as [Hp' Hq']. cbn in Hp', Hq'.
      destruct (Z.eqb_spec quota RUNTIME_INF) as [->|Hq]; cbn; rewrite Z.eqb_refl; [done|]. destruct (Z.eqb_spec (quota / NSEC_PER_USEC) RUNTIME_INF) as [Eq|_]; [|done]. unfold NSEC_PER_USEC, RUNTIME_INF in *. assert (quota / 1000 < 2 ^ 44) by (apply Z.div_lt_upper_bound; lia). lia.
    + assert (Hg' : M !! y = Some g) by (subst M; unfold with_cfs; by rewrite lookup_alter_ne). exists g. split; [done|]. split; [done|]. split; [by apply (Hty y)|]. pose proof (Hty y g Hg') as [Hp' Hq'].
      unfold normalize_cfs_quota. assert (Ex : forall a b, (c_tg (if negb (quota =? RUNTIME_INF) then mk_csd x a b else mk_csd x period quota) =? y) = false) by (intros; case_match; cbn; apply Z.eqb_neq; congruence). rewrite Ex. unfold tg_get_cfs_quota.
      destruct (Z.eqb_spec (cfs_quota g) RUNTIME_INF) as [Hq|Hq]; [done|]. unfold NSEC_PER_USEC, RUNTIME_INF in *. assert (0 <= cfs_quota g / 1000 < 2 ^ 44) by (split; [apply Z.div_pos; lia|apply Z.div_lt_upper_bound; lia]). rewrite u64_small by lia. destruct (Z.eqb_spec (cfs_quota g / 1000) 18446744073709551615); [lia|done].
  - exists r, Gd. split; [done|]. split; [done|]. split; [done|]. split; [rewrite H3; split; intros H; [intros a b v w Hb Ht Hw Hv; by apply (H b Hb v a w)|intros y Hy v a w Hv Ht Hw; by apply (H a y v w)]|]. intros H y Hy. destruct (vi_limit _ _ _ _ (H4 H) y Hy) as (g & ? & ? & _). eauto.
Qed.

(** Below a group with half of a CPU, a group may get a quarter and not three quarters. *)
Definition three_groups : groups := {[ 1 := mk_tg None [2] (mk_group 1000000000 950000000 ∅) 100000000 RUNTIME_INF (-1); 2 := mk_tg (Some 1) [3] (mk_group 1000000000 0 ∅) 100000000 50000000 0; 3 := mk_tg (Some 2) [] (mk_group 1000000000 0 ∅) 100000000 RUNTIME_INF 0 ]}.
Definition three_tree : gtree := GNode 1 [GNode 2 [GNode 3 []]].

Lemma cfs_schedulable_correct_witness :
  (exists Gd g, __cfs_schedulable 1 three_groups 3 100000000 25000000 = Ok (0, Gd) /\ Gd !! 3 = Some g /\ tightest (with_cfs three_groups 3 100000000 25000000) 3 (hierarchical_quota g)) /\
  exists Gd, __cfs_schedulable 1 three_groups 3 100000000 75000000 = Ok (- EINVAL, Gd).
Proof.
  assert (HT : tg_tree three_tree 1 three_groups) by (split; [vm_compute; auto 20|by apply (bool_decide_unpack _)|done]).
  split; [|eexists; vm_compute; reflexivity]. destruct (cfs_schedulable_correct three_tree 1 three_groups 3 100000000 25000000 HT) as (r & Gd & E & _ & _ & _ & H).
  - intros y g Hy. destruct (Z.eq_dec y 3) as [->|H3]; [vm_compute in Hy; injection Hy as <-; split; vm_compute; [congruence|right; split; congruence]|]. unfold with_cfs in Hy. rewrite lookup_alter_ne in Hy by done. unfold three_groups in Hy.
    destruct (Z.eq_dec y 1) as [->|H1]; [injection Hy as <-; split; vm_compute; [congruence|left; congruence]|]. destruct (Z.eq_dec y 2) as [->|H2]; [injection Hy as <-; split; vm_compute; [congruence|right; split; congruence]|].
    rewrite !lookup_insert_ne, lookup_singleton_ne in Hy by congruence. discriminate Hy.
  - assert (E0 : exists Gd0, __cfs_schedulable 1 three_groups 3 100000000 25000000 = Ok (0, Gd0)) by (eexists; vm_compute; reflexivity). destruct E0 as [Gd0 E0]. assert (r = 0) as -> by congruence.
    destruct (H eq_refl 3) as (g & Hg & Hti); [apply (bool_decide_unpack _); exact I|]. exists Gd, g. auto.
Defined.

(** The shift of [to_ratio] overflows here too: a quota of 2^44 us counts as nothing and fits below any limit. *)
Example cfs_ratio_overflows : exists Gd, tg_set_cfs_bandwidth_check 1 three_groups 3 100000000 (1000 * 2 ^ 44) = Ok (0, Gd).
Proof. eexists. vm_compute. reflexivity. Qed.
