(* ===== verification/Resource.v ===== *)
(** * The tree of resources (kernel/resource.c, include/linux/ioport.h)

    A resource is a range of addresses that may hold smaller ones: a resource points at its parent, its first child and
    its next sibling, and siblings are kept in the order of their addresses.  [resource_size_t] has 32 bits.  Names,
    locks and messages are left out. *)

From stdpp Require Import gmap list.
From S2P Require Import Prelude.
Local Open Scope Z_scope.
Local Open Scope res_scope.

Definition IORESOURCE_TYPE_BITS : Z := 7936.
Definition IORESOURCE_SIZEALIGN : Z := 262144.
Definition IORESOURCE_STARTALIGN : Z := 524288.
Definition IORESOURCE_UNSET : Z := 536870912.
Definition IORESOURCE_BUSY : Z := 2147483648.
Definition IORES_DESC_NONE : Z := 0.

Record resource := mk_res { start : Z; end_ : Z; flags : Z; desc : Z; parent : option Z; sibling : option Z; child : option Z }.
Abbreviation mem := (gmap Z resource).

Definition set_range (r : resource) (s e : Z) : resource := mk_res s e (flags r) (desc r) (parent r) (sibling r) (child r).
Definition set_parent (r : resource) (p : option Z) : resource := mk_res (start r) (end_ r) (flags r) (desc r) p (sibling r) (child r).
Definition set_sibling (r : resource) (p : option Z) : resource := mk_res (start r) (end_ r) (flags r) (desc r) (parent r) p (child r).
Definition set_child (r : resource) (p : option Z) : resource := mk_res (start r) (end_ r) (flags r) (desc r) (parent r) (sibling r) p.

Definition get (m : mem) (x : Z) : res resource := match m !! x with Some r => Ok r | None => Fault OutOfBounds end.
Definition modify (m : mem) (x : Z) (f : resource -> resource) : res mem := r <-- get m x; Ok (<[x := f r]> m).

Definition resource_size (r : resource) : Z := u32 (end_ r - start r + 1).
Definition resource_type (r : resource) : Z := Z.land (flags r) IORESOURCE_TYPE_BITS.
Definition resource_contains (r1 r2 : resource) : bool :=
  if negb (resource_type r1 =? resource_type r2) then false
  else if negb (Z.land (flags r1) IORESOURCE_UNSET =? 0) || negb (Z.land (flags r2) IORESOURCE_UNSET =? 0) then false
  else (start r1 <=? start r2) && (end_ r2 <=? end_ r1).
Definition resource_overlaps (r1 r2 : resource) : bool := (start r1 <=? end_ r2) && (start r2 <=? end_ r1).

(** A place that holds a pointer to a resource: [&r->child] or [&r->sibling]. *)
Inductive slot := Child (r : Z) | Sibling (r : Z).
Definition load (m : mem) (p : slot) : res (option Z) := match p with Child r => R <-- get m r; Ok (child R) | Sibling r => R <-- get m r; Ok (sibling R) end.
Definition store (m : mem) (p : slot) (v : option Z) : res mem := match p with Child r => modify m r (fun R => set_child R v) | Sibling r => modify m r (fun R => set_sibling R v) end.

(** Enough turns for every loop over a list of the resources of [m]. *)
Definition turns (m : mem) : nat := S (size m).

(** ** Requests and releases *)

Fixpoint request_loop (fuel : nat) (m : mem) (root new s e : Z) (p : slot) : res (option Z * mem) :=
  match fuel with
  | O => Fault NoFuel
  | S fuel =>
      tmp <-- load m p;
      let link := m <-- modify m new (fun N => set_sibling N tmp); m <-- store m p (Some new); m <-- modify m new (fun N => set_parent N (Some root)); Ok (None, m) in
      match tmp with
      | None => link
      | Some t => T <-- get m t; if e <? start T then link else if end_ T <? s then request_loop fuel m root new s e (Sibling t) else Ok (Some t, m)
      end
  end.

Definition __request_resource (m : mem) (root new : Z) : res (option Z * mem) :=
  N <-- get m new; R <-- get m root;
  if end_ N <? start N then Ok (Some root, m)
  else if start N <? start R then Ok (Some root, m)
  else if end_ R <? end_ N then Ok (Some root, m)
  else request_loop (turns m) m root new (start N) (end_ N) (Child root).

(** Gives the children from [chd] on the parent [p]; returns the last one. *)
Fixpoint reparent_loop (fuel : nat) (m : mem) (chd : Z) (p : option Z) : res (Z * mem) :=
  match fuel with
  | O => Fault NoFuel
  | S fuel => m <-- modify m chd (fun c => set_parent c p); c <-- get m chd; match sibling c with None => Ok (chd, m) | Some next => reparent_loop fuel m next p end
  end.

Fixpoint release_loop (fuel : nat) (m : mem) (old : Z) (release_child : bool) (p : slot) : res (Z * mem) :=
  match fuel with
  | O => Fault NoFuel
  | S fuel =>
      tmp <-- load m p;
      match tmp with
      | None => Ok (- EINVAL, m)
      | Some t =>
          if t =? old then
            T <-- get m t;
            m <-- match (if release_child then None else child T) with
                  | None => store m p (sibling T)
                  | Some first => '(last, m) <-- reparent_loop (turns m) m first (parent T); m <-- store m p (child T); modify m last (fun c => set_sibling c (sibling T))
                  end;
            m <-- modify m old (fun O => set_parent O None); Ok (0, m)
          else release_loop fuel m old release_child (Sibling t)
      end
  end.

Definition __release_resource (m : mem) (old : Z) (release_child : bool) : res (Z * mem) :=
  O <-- get m old; match parent O with None => Fault OutOfBounds | Some p => release_loop (turns m) m old release_child (Child p) end.

Definition request_resource_conflict (m : mem) (root new : Z) : res (option Z * mem) := __request_resource m root new.
Definition request_resource (m : mem) (root new : Z) : res (Z * mem) :=
  '(conflict, m) <-- request_resource_conflict m root new; Ok (match conflict with Some _ => - EBUSY | None => 0 end, m).
Definition release_resource (m : mem) (old : Z) : res (Z * mem) := __release_resource m old true.
Definition remove_resource (m : mem) (old : Z) : res (Z * mem) := __release_resource m old false.

Fixpoint __release_child_resources (fuel : nat) (m : mem) (r : Z) : res mem :=
  match fuel with
  | O => Fault NoFuel
  | S fuel =>
      R <-- get m r; m <-- modify m r (fun R => set_child R None);
      (fix children (k : nat) (m : mem) (p : option Z) : res mem :=
         match k with
         | O => Fault NoFuel
         | S k =>
             match p with
             | None => Ok m
             | Some t =>
                 T <-- get m t; m <-- modify m t (fun T => set_sibling (set_parent T None) None); m <-- __release_child_resources fuel m t;
                 m <-- modify m t (fun T => set_range T 0 (u32 (resource_size T - 1))); children k m (sibling T)
             end
         end) (turns m) m (child R)
  end.

Definition release_child_resources (m : mem) (r : Z) : res mem := __release_child_resources (turns m) m r.

(** ** Searches *)

Fixpoint climb (fuel : nat) (m : mem) (p : Z) : res (option Z) :=
  match fuel with
  | O => Fault NoFuel
  | S fuel => P <-- get m p; match sibling P, parent P with None, Some q => climb fuel m q | s, _ => Ok s end
  end.

Definition next_resource (m : mem) (p : Z) (sibling_only : bool) : res (option Z) :=
  P <-- get m p; if sibling_only then Ok (sibling P) else match child P with Some c => Ok (Some c) | None => climb (turns m) m p end.

(** The walk of [find_next_iomem_res]: siblings only until a range matches, then whole subtrees unless [first_lvl]. *)
Fixpoint iomem_loop (fuel : nat) (m : mem) (p : option Z) (s e fl ds : Z) (first_lvl siblings_only : bool) : res (option Z) :=
  match fuel with
  | O => Fault NoFuel
  | S fuel =>
      match p with
      | None => Ok None
      | Some x =>
          X <-- get m x;
          if e <? start X then Ok None
          else if end_ X <? s then next <-- next_resource m x siblings_only; iomem_loop fuel m next s e fl ds first_lvl siblings_only
          else if negb (Z.land (flags X) fl =? fl) || negb (ds =? IORES_DESC_NONE) && negb (ds =? desc X) then next <-- next_resource m x first_lvl; iomem_loop fuel m next s e fl ds first_lvl first_lvl
          else Ok (Some x)
      end
  end.

(** The part of the resource found that is within the range, with the error code. *)
Definition find_next_iomem_res (m : mem) (iomem s e fl ds : Z) (first_lvl : bool) : res (Z * option resource) :=
  if e <=? s then Ok (- EINVAL, None)
  else
    R <-- get m iomem; p <-- iomem_loop (turns m) m (child R) s e fl ds first_lvl true;
    match p with None => Ok (- ENODEV, None) | Some x => X <-- get m x; Ok (0, Some (mk_res (Z.max s (start X)) (Z.min e (end_ X)) (flags X) (desc X) None None None)) end.

Fixpoint lookup_loop (fuel : nat) (m : mem) (p : option Z) (s : Z) : res (option Z) :=
  match fuel with
  | O => Fault NoFuel
  | S fuel => match p with None => Ok None | Some x => X <-- get m x; if start X =? s then Ok (Some x) else lookup_loop fuel m (sibling X) s end
  end.
Definition lookup_resource (m : mem) (root s : Z) : res (option Z) := R <-- get m root; lookup_loop (turns m) m (child R) s.

(** The counts of the loop of [region_intersects]. *)
Fixpoint intersects_loop (fuel : nat) (m : mem) (p : option Z) (region : resource) (fl ds : Z) (type other : Z) : res (Z * Z) :=
  match fuel with
  | O => Fault NoFuel
  | S fuel =>
      match p with
      | None => Ok (type, other)
      | Some x =>
          X <-- get m x;
          let is_type := (Z.land (flags X) fl =? fl) && ((ds =? IORES_DESC_NONE) || (ds =? desc X)) in
          if resource_overlaps X region then intersects_loop fuel m (sibling X) region fl ds (if is_type then type + 1 else type) (if is_type then other else other + 1)
          else intersects_loop fuel m (sibling X) region fl ds type other
      end
  end.

Inductive region_verdict := REGION_INTERSECTS | REGION_DISJOINT | REGION_MIXED.

Definition region_intersects (m : mem) (iomem s size fl ds : Z) : res region_verdict :=
  R <-- get m iomem;
  '(type, other) <-- intersects_loop (turns m) m (child R) (mk_res s (u32 (s + size - 1)) 0 0 None None None) fl ds 0 0;
  Ok (if other =? 0 then if type =? 0 then REGION_DISJOINT else REGION_INTERSECTS else if type =? 0 then REGION_DISJOINT else REGION_MIXED).

Definition resource_alignment (r : resource) : Z :=
  let k := Z.land (flags r) (Z.lor IORESOURCE_SIZEALIGN IORESOURCE_STARTALIGN) in
  if k =? IORESOURCE_SIZEALIGN then resource_size r else if k =? IORESOURCE_STARTALIGN then start r else 0.

(** ** Insertion between levels *)

(** The descent: [inl] is a final answer, [inr (parent, first)] the place where the levels have to be split. *)
Fixpoint insert_descend (fuel : nat) (m : mem) (par new : Z) : res ((option Z + (Z * Z)) * mem) :=
  match fuel with
  | O => Fault NoFuel
  | S fuel =>
      '(first, m) <-- __request_resource m par new;
      match first with
      | None => Ok (inl None, m)
      | Some f =>
          if (f =? par) || (f =? new) then Ok (inl (Some f), m)
          else
            F <-- get m f; N <-- get m new;
            if (start N <? start F) || (end_ F <? end_ N) || (start F =? start N) && (end_ F =? end_ N) then Ok (inr (par, f), m)
            else insert_descend fuel m f new
      end
  end.

(** The last of the siblings from [next] on that [N] covers: [inl] is a sibling that it covers only in part. *)
Fixpoint cover_loop (fuel : nat) (m : mem) (N : resource) (next : Z) : res (Z + Z) :=
  match fuel with
  | O => Fault NoFuel
  | S fuel =>
      X <-- get m next;
      if (start X <? start N) || (end_ N <? end_ X) then Ok (inl next)
      else match sibling X with
           | None => Ok (inr next)
           | Some s => S' <-- get m s; if end_ N <? start S' then Ok (inr next) else cover_loop fuel m N s
           end
  end.

(** The loop that gives the covered resources their new parent. *)
Fixpoint adopt_loop (fuel : nat) (m : mem) (next : option Z) (new : Z) : res mem :=
  match fuel with
  | O => Fault NoFuel
  | S fuel => match next with None => Ok m | Some x => m <-- modify m x (fun X => set_parent X (Some new)); X <-- get m x; adopt_loop fuel m (sibling X) new end
  end.

(** The sibling before [x], from [next] on. *)
Fixpoint before_loop (fuel : nat) (m : mem) (next x : Z) : res Z :=
  match fuel with
  | O => Fault NoFuel
  | S fuel => X <-- get m next; match sibling X with Some s => if s =? x then Ok next else before_loop fuel m s x | None => Fault OutOfBounds end
  end.

Definition __insert_resource (m : mem) (par new : Z) : res (option Z * mem) :=
  '(where_, m) <-- insert_descend (turns m) m par new;
  match where_ with
  | inl answer => Ok (answer, m)
  | inr (par, first) =>
      N <-- get m new; next <-- cover_loop (turns m) m N first;
      match next with
      | inl conflict => Ok (Some conflict, m)
      | inr next =>
          X <-- get m next;
          m <-- modify m new (fun N => set_child (set_sibling (set_parent N (Some par)) (sibling X)) (Some first));
          m <-- modify m next (fun X => set_sibling X None);
          m <-- adopt_loop (turns m) m (Some first) new;
          P <-- get m par;
          m <-- (if bool_decide (child P = Some first) then modify m par (fun P => set_child P (Some new))
                 else match child P with
                      | None => Fault OutOfBounds
                      | Some c => b <-- before_loop (turns m) m c first; modify m b (fun X => set_sibling X (Some new))
                      end);
          Ok (None, m)
      end
  end.

Definition insert_resource_conflict (m : mem) (par new : Z) : res (option Z * mem) := __insert_resource m par new.
Definition insert_resource (m : mem) (par new : Z) : res (Z * mem) :=
  '(conflict, m) <-- insert_resource_conflict m par new; Ok (match conflict with Some _ => - EBUSY | None => 0 end, m).

Fixpoint expand_loop (fuel : nat) (m : mem) (root new : Z) : res mem :=
  match fuel with
  | O => Fault NoFuel
  | S fuel =>
      '(conflict, m) <-- __insert_resource m root new;
      match conflict with
      | None => Ok m
      | Some c =>
          if c =? root then Ok m
          else
            C <-- get m c;
            m <-- modify m new (fun N => set_range N (if start C <? start N then start C else start N) (if end_ N <? end_ C then end_ C else end_ N));
            expand_loop fuel m root new
      end
  end.

Definition insert_resource_expand_to_fit (m : mem) (root new : Z) : res mem :=
  N <-- get m new; match parent N with Some _ => Ok m | None => expand_loop (2 * turns m) m root new end.

(** ** Changes of a range *)

Fixpoint covers_loop (fuel : nat) (m : mem) (tmp : option Z) (s e : Z) : res bool :=
  match fuel with
  | O => Fault NoFuel
  | S fuel => match tmp with None => Ok true | Some x => X <-- get m x; if (start X <? s) || (e <? end_ X) then Ok false else covers_loop fuel m (sibling X) s e end
  end.

(** Whether the range fits between the neighbours of [r] in its parent. *)
Definition fits_between (m : mem) (r s e : Z) : res bool :=
  R <-- get m r;
  match parent R with
  | None => Ok true
  | Some p =>
      P <-- get m p;
      if (s <? start P) || (end_ P <? e) then Ok false
      else
        right <-- match sibling R with None => Ok true | Some x => X <-- get m x; Ok (negb (start X <=? e)) end;
        if negb right then Ok false
        else match child P with
             | None => Fault OutOfBounds
             | Some c => if c =? r then Ok true else b <-- before_loop (turns m) m c r; B <-- get m b; Ok (negb (s <=? end_ B))
             end
  end.

Definition __adjust_resource (m : mem) (r s size : Z) : res (Z * mem) :=
  let e := u32 (s + size - 1) in
  fits <-- fits_between m r s e;
  if negb fits then Ok (- EBUSY, m)
  else
    R <-- get m r; covered <-- covers_loop (turns m) m (child R) s e;
    if (covered : bool) then m <-- modify m r (fun R => set_range R s e); Ok (0, m) else Ok (- EBUSY, m).
Definition adjust_resource (m : mem) (r s size : Z) : res (Z * mem) := __adjust_resource m r s size.

(** ** Allocation *)

(** [alignf] may be given by the caller. *)
Record resource_constraint := mk_rc { c_min : Z; c_max : Z; c_align : Z; alignf : resource -> Z -> Z -> Z }.
Definition simple_align_resource (avail : resource) (size align : Z) : Z := start avail.

(** [ALIGN] of a 32-bit value. *)
Definition ALIGN (x a : Z) : Z := let mask := u32 (a - 1) in Z.land (u32 (x + mask)) (u32 (- 1 - mask)).

Definition resource_clip (s e mn mx : Z) : Z * Z := (if s <? mn then mn else s, if mx <? e then mx else e).

(** A range within the free range from [s] to [e], which is clipped already. *)
Definition try_slot (fl size : Z) (c : resource_constraint) (s e : Z) : option (Z * Z) :=
  let avail := mk_res (ALIGN s (c_align c)) e (Z.ldiff fl IORESOURCE_UNSET) 0 None None None in
  if s <=? start avail then
    let a := alignf c avail size (c_align c) in
    let alloc := mk_res a (u32 (a + size - 1)) (flags avail) 0 None None None in
    if (start alloc <=? end_ alloc) && resource_contains avail alloc then Some (start alloc, end_ alloc) else None
  else None.

Fixpoint find_loop (fuel : nat) (m : mem) (root : resource) (old : option Z) (fl size : Z) (c : resource_constraint) (s : Z) (this : option Z) : res (option (Z * Z)) :=
  match fuel with
  | O => Fault NoFuel
  | S fuel =>
      e <-- match this with Some t => T <-- get m t; Ok (if bool_decide (this = old) then end_ T else u32 (start T - 1)) | None => Ok (end_ root) end;
      let next s := match this with
                    | None => Ok None
                    | Some t => T <-- get m t; if end_ T =? end_ root then Ok None else find_loop fuel m root old fl size c (if bool_decide (this = old) then s else u32 (end_ T + 1)) (sibling T)
                    end in
      if e <? s then next s
      else let '(s, e) := resource_clip s e (c_min c) (c_max c) in match try_slot fl size c s e with Some found => Ok (Some found) | None => next s end
  end.

(** The range for [new] with the flags [fl]; [None] is -EBUSY. *)
Definition __find_resource (m : mem) (root : Z) (old : option Z) (fl size : Z) (c : resource_constraint) : res (option (Z * Z)) :=
  R <-- get m root;
  match child R with
  | Some t => T <-- get m t; if start T =? start R then find_loop (turns m) m R old fl size c (if bool_decide (Some t = old) then start T else u32 (end_ T + 1)) (sibling T) else find_loop (turns m) m R old fl size c (start R) (Some t)
  | None => find_loop (turns m) m R old fl size c (start R) None
  end.

Definition find_resource (m : mem) (root new size : Z) (c : resource_constraint) : res (Z * mem) :=
  N <-- get m new; found <-- __find_resource m root None (flags N) size c;
  match found with Some (s, e) => m <-- modify m new (fun N => set_range N s e); Ok (0, m) | None => Ok (- EBUSY, m) end.

Definition reallocate_resource (m : mem) (root old newsize : Z) (c : resource_constraint) : res (Z * mem) :=
  O <-- get m old; found <-- __find_resource m root (Some old) (flags O) newsize c;
  match found with
  | None => Ok (- EBUSY, m)
  | Some (s, e) =>
      let new := set_range O s e in
      if resource_contains new O then m <-- modify m old (fun O => set_range O s e); Ok (0, m)
      else if bool_decide (child O <> None) then Ok (- EBUSY, m)
      else if resource_contains O new then m <-- modify m old (fun O => set_range O s e); Ok (0, m)
      else
        '(_, m) <-- __release_resource m old true;
        m <-- modify m old (fun _ => new);
        '(conflict, m) <-- __request_resource m root old;
        match conflict with Some _ => Fault BugOn | None => Ok (0, m) end
  end.

Definition allocate_resource (m : mem) (root new size mn mx align : Z) (f : option (resource -> Z -> Z -> Z)) : res (Z * mem) :=
  let c := mk_rc mn mx align (default simple_align_resource f) in
  N <-- get m new;
  match parent N with
  | Some _ => reallocate_resource m root new size c
  | None =>
      '(err, m) <-- find_resource m root new size c;
      if 0 <=? err then '(conflict, m) <-- __request_resource m root new; Ok (match conflict with Some _ => - EBUSY | None => err end, m) else Ok (err, m)
  end.

(** ** Reserving what is free *)

Section Split.
(** The allocator: the address of a new resource, which is zeroed, or none. *)
Context (alloc_resource : mem -> option Z).

Definition new_region (m : mem) (s e type : Z) : option (Z * mem) :=
  x ← alloc_resource m; Some (x, <[x := mk_res s e (Z.lor type IORESOURCE_BUSY) IORES_DESC_NONE None None None]> m).
Definition free_resource (m : mem) (x : Z) : mem := delete x m.

Fixpoint split_loop (fuel : nat) (m : mem) (par r : Z) (next_res : option Z) (type : Z) : res mem :=
  match fuel with
  | O => Fault NoFuel
  | S fuel =>
      '(conflict, m) <-- __request_resource m par r;
      match conflict with
      | None => match next_res with None => Ok m | Some n => split_loop fuel m par n None type end
      | Some c =>
          C <-- get m c; R <-- get m r;
          if (start C <=? start R) && (end_ R <=? end_ C) then Ok (free_resource m r)
          else if start R <? start C then
            let e := end_ R in
            m <-- modify m r (fun R => set_range R (start R) (u32 (start C - 1)));
            if end_ C <? e then match new_region m (u32 (end_ C + 1)) e type with None => Ok (free_resource m r) | Some (n, m) => split_loop fuel m par r (Some n) type end
            else split_loop fuel m par r next_res type
          else m <-- modify m r (fun R => set_range R (u32 (end_ C + 1)) (end_ R)); split_loop fuel m par r next_res type
      end
  end.

Definition __reserve_region_with_split (m : mem) (root s e : Z) : res mem :=
  R <-- get m root;
  match new_region m s e (resource_type R) with None => Ok m | Some (r, m) => split_loop (3 * turns m) m root r None (resource_type R) end.

Definition reserve_region_with_split (m : mem) (root s e : Z) : res mem :=
  R <-- get m root;
  if (s <? start R) || (end_ R <? e) then
    if (end_ R <? s) || (e <? start R) then Ok m
    else __reserve_region_with_split m root (if s <? start R then start R else s) (if end_ R <? e then end_ R else e)
  else __reserve_region_with_split m root s e.
End Split.
