(* ===== verification/ResourceTree.v ===== *)
(** * Resources form a tree (kernel/resource.c)

    [C] gives every resource of the tree the list of its children.  The pointers describe these lists, siblings are in
    order and do not overlap, and a child is within its parent.  The operations that change the tree put a resource
    around a run of siblings, take it away again, or cut a resource off with all it holds. *)

From stdpp Require Import gmap list sorting.
From S2P Require Import Prelude Resource.
Local Open Scope Z_scope.
Local Open Scope res_scope.

Abbreviation kids := (gmap Z (list Z)).

(** The pointers. *)
Record linked (m : mem) (C : kids) : Prop := {
  ln_node x l : C !! x = Some l -> exists X, m !! x = Some X /\ child X = head l;
  ln_link p l1 x l2 : C !! p = Some (l1 ++ x :: l2) -> exists X, m !! x = Some X /\ parent X = Some p /\ sibling X = head l2;
  ln_in p l x : C !! p = Some l -> x ∈ l -> is_Some (C !! x);
  ln_parent x l X p : C !! x = Some l -> m !! x = Some X -> parent X = Some p -> exists k, C !! p = Some k /\ x ∈ k;
  ln_rank : exists rank : Z -> nat, forall p l x, C !! p = Some l -> x ∈ l -> (rank x < rank p)%nat }.

(** The ranges. *)
Definition rng (m : mem) (x : Z) : option (Z * Z) := X ← m !! x; Some (start X, end_ X).
Definition before (m : mem) (x y : Z) : Prop := forall s e s' e', rng m x = Some (s, e) -> rng m y = Some (s', e') -> e < s'.
Record ordered (m : mem) (C : kids) : Prop := {
  or_range x l s e : C !! x = Some l -> rng m x = Some (s, e) -> 0 <= s <= e /\ e < 4294967296;
  or_inside p l x s e s' e' : C !! p = Some l -> x ∈ l -> rng m p = Some (s, e) -> rng m x = Some (s', e') -> s <= s' /\ e' <= e;
  or_sorted p l : C !! p = Some l -> StronglySorted (before m) l }.

Definition tree (m : mem) (C : kids) : Prop := linked m C /\ ordered m C.

(** What the changes of the tree leave alone. *)
Definition same_ranges (m m' : mem) : Prop := (fun X => (start X, end_ X, flags X, desc X)) <$> m' = (fun X => (start X, end_ X, flags X, desc X)) <$> m.

Lemma same_rng m m' x : same_ranges m m' -> rng m' x = rng m x.
Proof.
  intros E. assert (E' : ((fun X => (start X, end_ X, flags X, desc X)) <$> m') !! x = ((fun X => (start X, end_ X, flags X, desc X)) <$> m) !! x) by (by rewrite E). rewrite !lookup_fmap in E'. unfold rng.
  destruct (m' !! x), (m !! x); cbn in E' |- *; congruence.
Qed.

Lemma rng_get m x s e : rng m x = Some (s, e) -> exists X, m !! x = Some X /\ start X = s /\ end_ X = e.
Proof. unfold rng. destruct (m !! x) as [X|]; cbn; [|done]. intros E. injection E as <- <-. by exists X. Qed.

Lemma get_rng m x X : m !! x = Some X -> rng m x = Some (start X, end_ X).
Proof. intros E. unfold rng. by rewrite E. Qed.

Section Lists.
Context {m : mem} {C : kids} (HT : tree m C).

Lemma tree_in x l : C !! x = Some l -> exists X, m !! x = Some X /\ child X = head l /\ 0 <= start X <= end_ X /\ end_ X < 4294967296.
Proof.
  intros Hx. destruct (ln_node _ _ (proj1 HT) x l Hx) as (X & HX & Hc). exists X. split; [done|]. split; [done|]. exact (or_range _ _ (proj2 HT) x l _ _ Hx (get_rng m x X HX)).
Qed.

Lemma tree_kid p l x : C !! p = Some l -> x ∈ l -> exists X, m !! x = Some X /\ parent X = Some p /\ 0 <= start X <= end_ X /\ end_ X < 4294967296 /\ is_Some (C !! x).
Proof.
  intros Hp Hx. destruct (ln_in _ _ (proj1 HT) p l x Hp Hx) as [lx Hlx]. destruct (tree_in x lx Hlx) as (X & HX & _ & H1 & H2). exists X. split; [done|]. apply list_elem_of_split in Hx as (l1 & l2 & ->). destruct (ln_link _ _ (proj1 HT) p l1 x l2 Hp) as (X' & HX' & Ep & _). assert (X' = X) as -> by congruence. eauto.
Qed.

Lemma one_parent p p' l l' x : C !! p = Some l -> C !! p' = Some l' -> x ∈ l -> x ∈ l' -> p = p'.
Proof. intros Hp Hp' Hx Hx'. destruct (tree_kid p l x Hp Hx) as (X & HX & E & _). destruct (tree_kid p' l' x Hp' Hx') as (X' & HX' & E' & _). congruence. Qed.

Lemma not_own_kid p l : C !! p = Some l -> p ∉ l.
Proof. intros Hp Hx. destruct (ln_rank _ _ (proj1 HT)) as [rank Hr]. specialize (Hr p l p Hp Hx). lia. Qed.

Lemma kids_nodup_app p l0 l : C !! p = Some (l0 ++ l) -> NoDup l.
Proof.
  revert l0. induction l as [|x l IH]; intros l0 Hp; [constructor|]. apply NoDup_cons. split; [|apply (IH (l0 ++ [x])); by rewrite <- app_assoc]. intros Hx.
  destruct (tree_kid p _ x Hp) as (X & HX & _ & H1 & _); [rewrite elem_of_app, elem_of_cons; auto|]. pose proof (or_sorted _ _ (proj2 HT) p _ Hp) as HS. apply StronglySorted_app in HS as (_ & _ & HS). apply StronglySorted_cons in HS as [HS _]. rewrite Forall_forall in HS. specialize (HS x Hx _ _ _ _ (get_rng m x X HX) (get_rng m x X HX)). lia.
Qed.

Lemma kids_nodup p l : C !! p = Some l -> NoDup l.
Proof. exact (kids_nodup_app p [] l). Qed.

Lemma kids_length p l : C !! p = Some l -> (length l < turns m)%nat.
Proof.
  intros Hp. unfold turns. enough (length l <= size m)%nat by lia. rewrite <- (size_list_to_set (C := gset Z) _ (kids_nodup p l Hp)), <- (size_dom (D := gset Z) m). apply subseteq_size. intros x Hx. apply elem_of_list_to_set in Hx. apply elem_of_dom. destruct (tree_kid p l x Hp Hx) as (X & HX & _). by exists X.
Qed.

(** The place of the pointer behind the siblings [l1]. *)
Definition slot_of (p : Z) (l1 : list Z) : slot := match last l1 with Some x => Sibling x | None => Child p end.

Lemma load_slot p l1 l2 : C !! p = Some (l1 ++ l2) -> load m (slot_of p l1) = Ok (head l2).
Proof.
  intros Hp. unfold slot_of. destruct (last l1) as [x|] eqn:El; cbn [load]; unfold get.
  - apply last_Some in El as [k ->]. rewrite <- app_assoc in Hp. destruct (ln_link _ _ (proj1 HT) p k x l2 Hp) as (X & -> & _ & E). cbn. by rewrite E.
  - apply last_None in El as ->. destruct (ln_node _ _ (proj1 HT) p _ Hp) as (P & -> & E). cbn. by rewrite E.
Qed.
End Lists.

(** Resources outside the tree do not matter. *)
Lemma tree_ext m m' C : tree m C -> (forall x, is_Some (C !! x) -> m' !! x = m !! x) -> tree m' C.
Proof.
  intros HT He. assert (Hk : forall p l x, C !! p = Some l -> x ∈ l -> m' !! x = m !! x) by (intros p l x Hp Hx; apply He; by apply (ln_in _ _ (proj1 HT) p l)). assert (Hg : forall x, m' !! x = m !! x -> rng m' x = rng m x) by (intros x E; unfold rng; by rewrite E).
  split; split.
  - intros x l Hx. rewrite He by (by exists l). by apply (ln_node _ _ (proj1 HT)).
  - intros p l1 x l2 Hp. rewrite (Hk p _ x Hp) by (rewrite elem_of_app, elem_of_cons; auto). by apply (ln_link _ _ (proj1 HT) p l1).
  - apply (ln_in _ _ (proj1 HT)).
  - intros x l X p Hx HX. rewrite He in HX by (by exists l). by apply (ln_parent _ _ (proj1 HT) x l X).
  - apply (ln_rank _ _ (proj1 HT)).
  - intros x l s e Hx. rewrite Hg by (apply He; by exists l). by apply (or_range _ _ (proj2 HT) x l).
  - intros p l x s e s' e' Hp Hx. rewrite (Hg p) by (apply He; by exists l). rewrite (Hg x) by (by apply (Hk p l)). by apply (or_inside _ _ (proj2 HT) p l).
  - intros p l Hp. pose proof (or_sorted _ _ (proj2 HT) p l Hp) as HS. assert (Hx : forall x, x ∈ l -> rng m' x = rng m x) by (intros x Hx; apply Hg; by apply (Hk p l)). clear Hp. revert Hx. induction HS as [|x l _ IH Hx]; intros Hm; constructor; [apply IH; intros y Hy; apply Hm, elem_of_cons; auto|].
    rewrite Forall_forall in Hx |- *. intros y Hy s e s' e'. rewrite !Hm by (apply elem_of_cons; auto). by apply Hx.
Qed.

(** ** Putting a resource around a run of siblings *)

Definition is_last (l : list Z) (x : Z) : bool := bool_decide (last l = Some x).

(** [new] becomes a child of [p], between [l1] and [l2], and the parent of [mid]. *)
Definition wrap_at (p new : Z) (l1 mid l2 : list Z) (x : Z) (X : resource) : resource :=
  if x =? new then mk_res (start X) (end_ X) (flags X) (desc X) (Some p) (head l2) (head mid)
  else mk_res (start X) (end_ X) (flags X) (desc X) (if bool_decide (x ∈ mid) then Some new else parent X)
    (if is_last mid x then None else if is_last l1 x then Some new else sibling X) (if (x =? p) && bool_decide (l1 = []) then Some new else child X).
Definition wrap (m : mem) (p new : Z) (l1 mid l2 : list Z) : mem := map_imap (fun x X => Some (wrap_at p new l1 mid l2 x X)) m.

Lemma lookup_wrap m p new l1 mid l2 x : wrap m p new l1 mid l2 !! x = wrap_at p new l1 mid l2 x <$> m !! x.
Proof. unfold wrap. rewrite map_lookup_imap. by destruct (m !! x). Qed.

Lemma wrap_ranges m p new l1 mid l2 : same_ranges m (wrap m p new l1 mid l2).
Proof. apply map_eq. intros x. rewrite !lookup_fmap, lookup_wrap. destruct (m !! x); [|done]. cbn. unfold wrap_at. by destruct (x =? new). Qed.

Lemma is_last_in l x : is_last l x = true -> x ∈ l.
Proof. unfold is_last. rewrite bool_decide_eq_true. intros [k ->]%last_Some. rewrite elem_of_app, list_elem_of_singleton. auto. Qed.

Section Wrap.
Context {m : mem} {C : kids} {p new : Z} {l1 mid l2 : list Z} {N : resource} (HT : tree m C) (Hp : C !! p = Some (l1 ++ mid ++ l2)) (Hnew : C !! new = None) (HN : m !! new = Some N).

Definition wrapped_kids : kids := <[p := l1 ++ new :: l2]> (<[new := mid]> C).

Lemma new_fresh q l : C !! q = Some l -> q <> new /\ (new ∉ l).
Proof. intros Hq. split; [congruence|]. intros Hx. destruct (ln_in _ _ (proj1 HT) q l new Hq Hx). congruence. Qed.

Lemma p_not_new : p <> new.
Proof. exact (proj1 (new_fresh p _ Hp)). Qed.

Lemma disjoint_parts : NoDup l1 /\ NoDup mid /\ NoDup l2 /\ (forall x, x ∈ l1 -> (x ∉ mid) /\ (x ∉ l2)) /\ (forall x, x ∈ mid -> x ∉ l2).
Proof. pose proof (kids_nodup HT p _ Hp) as Hn. apply NoDup_app in Hn as (H1 & H2 & H3). apply NoDup_app in H3 as (H3 & H4 & H5). split; [done|]. split; [done|]. split; [done|]. split; [|done]. intros x Hx. specialize (H2 x Hx). rewrite elem_of_app in H2. tauto. Qed.

Lemma not_last l x : x ∉ l -> is_last l x = false.
Proof. intros Hx. destruct (is_last l x) eqn:E; [|done]. by apply is_last_in in E. Qed.

(** A resource that is not among the siblings keeps its pointers, but for the first child of [p]. *)
Lemma wrap_other x X : x <> new -> x ∉ l1 -> x ∉ mid -> wrap_at p new l1 mid l2 x X = set_child X (if (x =? p) && bool_decide (l1 = []) then Some new else child X).
Proof. intros H1 H2 H3. unfold wrap_at. rewrite (proj2 (Z.eqb_neq x new)) by done. rewrite bool_decide_false by done. rewrite !not_last by done. done. Qed.

Lemma wrap_link q k1 x k2 : wrapped_kids !! q = Some (k1 ++ x :: k2) -> exists X, wrap m p new l1 mid l2 !! x = Some X /\ parent X = Some q /\ sibling X = head k2.
Proof.
  intros Hq. destruct disjoint_parts as (N1 & N2 & N3 & D1 & D2). destruct (new_fresh p _ Hp) as [Hpn Hnl]. rewrite !elem_of_app in Hnl. unfold wrapped_kids in Hq. destruct (decide (q = p)) as [->|Hqp].
  - rewrite lookup_insert_eq in Hq. injection Hq as Hq. apply app_eq_inv in Hq as [(k & E1 & E2)|(k & E1 & E2)].
    + destruct k as [|y k]; cbn in E2; [injection E2 as -> ->; exists (wrap_at p new l1 mid l2 new N); rewrite lookup_wrap, HN; split; [done|]; unfold wrap_at; by rewrite Z.eqb_refl|].
      injection E2 as -> ->. rewrite E1, <- app_assoc in Hp. destruct (ln_link _ _ (proj1 HT) p k1 y _ Hp) as (X & HX & E & Es). exists (wrap_at p new l1 mid l2 y X). rewrite lookup_wrap, HX. split; [done|]. assert (Hy : y ∈ l1) by (rewrite E1, elem_of_app, elem_of_cons; auto).
      destruct (D1 y Hy) as [Hy1 Hy2]. unfold wrap_at. rewrite (proj2 (Z.eqb_neq y new)) by (intros ->; tauto). rewrite bool_decide_false by done. rewrite (not_last mid) by done. cbn. split; [done|]. unfold is_last. destruct k as [|z k].
      * rewrite E1, last_snoc. by rewrite bool_decide_true.
      * rewrite bool_decide_false; [by rewrite Es|]. rewrite E1. replace (k1 ++ y :: z :: k) with ((k1 ++ [y]) ++ z :: k) by (by rewrite <- app_assoc). rewrite last_app_cons. intros El. apply last_Some in El as [k' Ek]. rewrite E1 in N1. apply NoDup_app in N1 as (_ & _ & N1). apply NoDup_cons in N1 as [N1 _]. apply N1. rewrite Ek, elem_of_app, list_elem_of_singleton. auto.
    + destruct k as [|y k]; cbn in E2; [injection E2 as <- <-; exists (wrap_at p new l1 mid l2 new N); rewrite lookup_wrap, HN; split; [done|]; unfold wrap_at; by rewrite Z.eqb_refl|].
      injection E2 as <- E2. rewrite E2 in Hp. assert (Hp' : C !! p = Some ((l1 ++ mid ++ k) ++ x :: k2)) by (by rewrite Hp, <- !app_assoc). destruct (ln_link _ _ (proj1 HT) p _ x k2 Hp') as (X & HX & E & Es). exists (wrap_at p new l1 mid l2 x X). rewrite lookup_wrap, HX. split; [done|].
      assert (Hx : x ∈ l2) by (rewrite E2, elem_of_app, elem_of_cons; auto). rewrite wrap_other; [done|intros ->; tauto|intros Hx'; by destruct (D1 x Hx')|intros Hx'; by apply (D2 x Hx')].
  - rewrite lookup_insert_ne in Hq by done. destruct (decide (q = new)) as [->|Hqn].
    + rewrite lookup_insert_eq in Hq. injection Hq as ->. assert (Hp' : C !! p = Some ((l1 ++ k1) ++ x :: (k2 ++ l2))) by (by rewrite Hp, <- !app_assoc). destruct (ln_link _ _ (proj1 HT) p _ x _ Hp') as (X & HX & E & Es). exists (wrap_at p new l1 (k1 ++ x :: k2) l2 x X). rewrite lookup_wrap, HX. split; [done|].
      assert (Hx : x ∈ k1 ++ x :: k2) by (rewrite elem_of_app, elem_of_cons; auto). unfold wrap_at. rewrite (proj2 (Z.eqb_neq x new)) by (intros ->; tauto). rewrite bool_decide_true by done. cbn. split; [done|]. unfold is_last at 1. destruct k2 as [|z k2].
      * rewrite last_snoc. by rewrite bool_decide_true.
      * rewrite bool_decide_false; [|replace (k1 ++ x :: z :: k2) with ((k1 ++ [x]) ++ z :: k2) by (by rewrite <- app_assoc); rewrite last_app_cons; intros El; apply last_Some in El as [k' Ek]; apply NoDup_app in N2 as (_ & _ & N2); apply NoDup_cons in N2 as [N2 _]; apply N2; rewrite Ek, elem_of_app, list_elem_of_singleton; auto].
        rewrite not_last by (intros Hx'; destruct (D1 x Hx') as [Hx'' _]; tauto). by rewrite Es.
    + rewrite lookup_insert_ne in Hq by done. destruct (ln_link _ _ (proj1 HT) q k1 x k2 Hq) as (X & HX & E & Es). exists (wrap_at p new l1 mid l2 x X). rewrite lookup_wrap, HX. split; [done|]. assert (Hx : x ∈ k1 ++ x :: k2) by (rewrite elem_of_app, elem_of_cons; auto).
      assert (Hno : x ∉ l1 ++ mid ++ l2) by (intros Hx'; apply Hqp; exact (one_parent HT q p _ _ x Hq Hp Hx Hx')). rewrite !elem_of_app in Hno. rewrite wrap_other; [done|intros ->; by apply (new_fresh q _ Hq)|tauto|tauto].
Qed.

Lemma wrapped_cases q k : wrapped_kids !! q = Some k -> q = p /\ k = l1 ++ new :: l2 \/ q = new /\ k = mid \/ q <> p /\ q <> new /\ C !! q = Some k.
Proof.
  unfold wrapped_kids. destruct (decide (q = p)) as [->|Hq]; [rewrite lookup_insert_eq; intros E; injection E as <-; auto|]. rewrite lookup_insert_ne by done. destruct (decide (q = new)) as [->|Hq']; [rewrite lookup_insert_eq; intros E; injection E as <-; auto|]. rewrite lookup_insert_ne by done. auto 10.
Qed.

Lemma in_wrapped q : is_Some (C !! q) \/ q = new -> is_Some (wrapped_kids !! q).
Proof. unfold wrapped_kids. rewrite !lookup_insert_is_Some'. intuition. Qed.

Lemma wrap_linked : linked (wrap m p new l1 mid l2) wrapped_kids.
Proof.
  destruct (new_fresh p _ Hp) as [Hpn Hnl]. split; [|apply wrap_link| | |].
  - intros x k Hx. rewrite lookup_wrap. apply wrapped_cases in Hx as [[-> ->]|[[-> ->]|(Hxp & Hxn & Hx)]].
    + destruct (ln_node _ _ (proj1 HT) p _ Hp) as (P & -> & Hc). eexists. split; [done|]. unfold wrap_at. rewrite (proj2 (Z.eqb_neq p new)) by done. cbn [child]. rewrite Z.eqb_refl. destruct l1; cbn; [done|]. by rewrite Hc.
    + rewrite HN. eexists. split; [done|]. unfold wrap_at. by rewrite Z.eqb_refl.
    + destruct (ln_node _ _ (proj1 HT) x k Hx) as (X & -> & Hc). eexists. split; [done|]. unfold wrap_at. rewrite (proj2 (Z.eqb_neq x new)), (proj2 (Z.eqb_neq x p)) by done. done.
  - intros q k x Hq Hx. apply in_wrapped. apply wrapped_cases in Hq as [[-> ->]|[[-> ->]|(Hqp & Hqn & Hq)]].
    + rewrite elem_of_app, elem_of_cons in Hx. destruct (decide (x = new)) as [|Hne]; [auto|]. left. apply (ln_in _ _ (proj1 HT) p _ x Hp). rewrite !elem_of_app. tauto.
    + left. apply (ln_in _ _ (proj1 HT) p _ x Hp). rewrite !elem_of_app. tauto.
    + left. by apply (ln_in _ _ (proj1 HT) q k).
  - intros x k X q Hx HX Eq. rewrite lookup_wrap in HX. destruct (m !! x) as [X0|] eqn:HX0; [|done]. cbn in HX. injection HX as <-. unfold wrap_at in Eq. unfold wrapped_kids. destruct (Z.eqb_spec x new) as [->|Hxn].
    + cbn in Eq. injection Eq as <-. exists (l1 ++ new :: l2). rewrite lookup_insert_eq. split; [done|]. rewrite elem_of_app, elem_of_cons. auto.
    + cbn in Eq. destruct (bool_decide_reflect (x ∈ mid)) as [Hm|Hm]; [injection Eq as <-; exists mid; rewrite lookup_insert_ne, lookup_insert_eq by done; done|].
      assert (HC : exists k0, C !! x = Some k0) by (apply wrapped_cases in Hx as [[-> _]|[[-> _]|(_ & _ & ?)]]; [eauto|done|eauto]). destruct HC as [k0 HC]. destruct (ln_parent _ _ (proj1 HT) x k0 X0 q HC HX0 Eq) as (kq & Hq & Hin). destruct (decide (q = p)) as [->|Hqp].
      * rewrite lookup_insert_eq. eexists. split; [done|]. assert (kq = l1 ++ mid ++ l2) as -> by congruence. rewrite !elem_of_app in Hin. rewrite elem_of_app, elem_of_cons. tauto.
      * rewrite lookup_insert_ne by done. destruct (new_fresh q kq Hq) as [Hqn _]. rewrite lookup_insert_ne by done. eauto.
  - destruct (ln_rank _ _ (proj1 HT)) as [rank Hr]. exists (fun x => if (x =? new)%Z then 2 * rank p else 2 * rank x + 1)%nat. assert (Hk : forall q k x, C !! q = Some k -> x ∈ k -> (x =? new) = false) by (intros q k x Hq Hx; apply Z.eqb_neq; intros ->; by destruct (new_fresh q k Hq)).
    intros q k x Hq Hx. apply wrapped_cases in Hq as [[-> ->]|[[-> ->]|(Hqp & Hqn & Hq)]].
    + rewrite (proj2 (Z.eqb_neq p new)) by done. rewrite elem_of_app, elem_of_cons in Hx. destruct (Z.eqb_spec x new) as [|Hne]; [lia|]. specialize (Hr p _ x Hp ltac:(rewrite !elem_of_app; tauto)). lia.
    + rewrite Z.eqb_refl. assert (Hin : x ∈ l1 ++ mid ++ l2) by (rewrite !elem_of_app; auto). rewrite (Hk p _ x Hp Hin). specialize (Hr p _ x Hp Hin). lia.
    + rewrite (proj2 (Z.eqb_neq q new)) by done. rewrite (Hk q k x Hq Hx). specialize (Hr q k x Hq Hx). lia.
Qed.

(** [new] has room between [l1] and [l2] and covers [mid]. *)
Record fits_at : Prop := {
  fa_range : 0 <= start N <= end_ N /\ end_ N < 4294967296;
  fa_inside s e : rng m p = Some (s, e) -> s <= start N /\ end_ N <= e;
  fa_left x s e : x ∈ l1 -> rng m x = Some (s, e) -> e < start N;
  fa_mid x s e : x ∈ mid -> rng m x = Some (s, e) -> start N <= s /\ e <= end_ N;
  fa_right x s e : x ∈ l2 -> rng m x = Some (s, e) -> end_ N < s }.

Lemma sorted_same m0 m1 l : (forall x, rng m1 x = rng m0 x) -> StronglySorted (before m0) l -> StronglySorted (before m1) l.
Proof. intros E. induction 1 as [|x l _ IH Hx]; constructor; [done|]. apply (Forall_impl _ _ _ Hx). intros y H s e s' e'. rewrite !E. apply H. Qed.

Lemma wrap_ordered : fits_at -> ordered (wrap m p new l1 mid l2) wrapped_kids.
Proof.
  intros [F1 F2 F3 F4 F5]. pose proof (fun x => same_rng _ _ x (wrap_ranges m p new l1 mid l2)) as ER. assert (HNr : forall s e, rng m new = Some (s, e) -> s = start N /\ e = end_ N) by (intros s e; rewrite (get_rng m new N HN); intros E; by injection E).
  split.
  - intros x k s e Hx. rewrite ER. apply wrapped_cases in Hx as [[-> ->]|[[-> ->]|(Hxp & Hxn & Hx)]]; [by apply (or_range _ _ (proj2 HT) p _ _ _ Hp)|intros [-> ->]%HNr; done|by apply (or_range _ _ (proj2 HT) x k)].
  - intros q k x s e s' e' Hq Hx. rewrite !ER. apply wrapped_cases in Hq as [[-> ->]|[[-> ->]|(Hqp & Hqn & Hq)]].
    + intros Hs Hs'. rewrite elem_of_app, elem_of_cons in Hx. destruct (decide (x = new)) as [->|Hne]; [apply HNr in Hs' as [-> ->]; by apply F2|]. apply (or_inside _ _ (proj2 HT) p _ x s e s' e' Hp); [rewrite !elem_of_app; tauto|done|done].
    + intros [-> ->]%HNr Hs'. by apply (F4 x).
    + by apply (or_inside _ _ (proj2 HT) q k x).
  - intros q k Hq. apply (sorted_same m); [done|]. pose proof (or_sorted _ _ (proj2 HT) p _ Hp) as HS. rewrite !StronglySorted_app in HS. destruct HS as (S1 & S2 & S3 & S4 & S5). apply wrapped_cases in Hq as [[-> ->]|[[-> ->]|(Hqp & Hqn & Hq)]]; [|done|by apply (or_sorted _ _ (proj2 HT) q k)].
    apply StronglySorted_app. split; [|split; [done|]].
    + intros x y Hx Hy. apply elem_of_cons in Hy as [->|Hy]; [intros s e s' e' Hs [-> ->]%HNr; by apply (F3 x s e)|apply S1; [done|rewrite elem_of_app; auto]].
    + apply StronglySorted_cons. split; [|done]. apply Forall_forall. intros y Hy s e s' e' [-> ->]%HNr Hs. by apply (F5 y s' e').
Qed.

Lemma wrap_tree : fits_at -> tree (wrap m p new l1 mid l2) wrapped_kids.
Proof. intros F. split; [apply wrap_linked|by apply wrap_ordered]. Qed.
End Wrap.

(** ** Taking a resource away *)

(** [old] leaves its parent [p], and [mid] takes its place between [l1] and [l2]. *)
Definition unwrap_at (p old : Z) (l1 mid l2 : list Z) (x : Z) (X : resource) : resource :=
  mk_res (start X) (end_ X) (flags X) (desc X) (if x =? old then None else if bool_decide (x ∈ mid) then Some p else parent X)
    (if is_last mid x then head l2 else if is_last l1 x then head (mid ++ l2) else sibling X) (if (x =? p) && bool_decide (l1 = []) then head (mid ++ l2) else child X).
Definition unwrap (m : mem) (p old : Z) (l1 mid l2 : list Z) : mem := map_imap (fun x X => Some (unwrap_at p old l1 mid l2 x X)) m.

Lemma lookup_unwrap m p old l1 mid l2 x : unwrap m p old l1 mid l2 !! x = unwrap_at p old l1 mid l2 x <$> m !! x.
Proof. unfold unwrap. rewrite map_lookup_imap. by destruct (m !! x). Qed.

Lemma unwrap_ranges m p old l1 mid l2 : same_ranges m (unwrap m p old l1 mid l2).
Proof. apply map_eq. intros x. rewrite !lookup_fmap, lookup_unwrap. by destruct (m !! x). Qed.

Section Unwrap.
Context {m : mem} {C : kids} {p old : Z} {l1 l2 own : list Z} (keep : bool) (HT : tree m C) (Hp : C !! p = Some (l1 ++ old :: l2)) (Hold : C !! old = Some own).

(** With [keep] the resource leaves with its children. *)
Local Abbreviation mid := (if keep then [] else own).
Definition unwrapped_kids : kids := <[p := l1 ++ mid ++ l2]> (if keep then C else delete old C).

Lemma old_not_p : old <> p.
Proof. intros ->. apply (not_own_kid HT p _ Hp). rewrite elem_of_app, elem_of_cons. auto. Qed.

Lemma own_apart x : x ∈ own -> (x ∉ l1) /\ (x ∉ l2) /\ x <> old /\ x <> p.
Proof.
  intros Hx. assert (Hno : x ∉ l1 ++ old :: l2) by (intros Hx'; apply old_not_p; exact (one_parent HT old p _ _ x Hold Hp Hx Hx')). rewrite elem_of_app, elem_of_cons in Hno. split; [tauto|]. split; [tauto|]. split; [tauto|]. intros ->.
  destruct (ln_rank _ _ (proj1 HT)) as [rank Hr]. pose proof (Hr old own p Hold Hx). pose proof (Hr p _ old Hp ltac:(rewrite elem_of_app, elem_of_cons; auto)). lia.
Qed.

Lemma side_parts : NoDup l1 /\ NoDup l2 /\ (old ∉ l1) /\ (old ∉ l2) /\ (forall x, x ∈ l1 -> x ∉ l2).
Proof. pose proof (kids_nodup HT p _ Hp) as Hn. apply NoDup_app in Hn as (H1 & H2 & H3). apply NoDup_cons in H3 as [H3 H4]. split; [done|]. split; [done|]. split; [intros Hx; apply (H2 old Hx), elem_of_cons; auto|]. split; [done|]. intros x Hx Hx'. apply (H2 x Hx), elem_of_cons. auto. Qed.

Lemma mid_in x : x ∈ mid -> x ∈ own.
Proof. destruct keep; [intros Hx; by apply elem_of_nil in Hx|done]. Qed.

Lemma is_last_app (l : list Z) x k : NoDup (l ++ x :: k) -> is_last (l ++ x :: k) x = bool_decide (k = []).
Proof.
  intros Hn. unfold is_last. apply bool_decide_ext. destruct k as [|z k]; [by rewrite last_snoc|]. split; [|done]. replace (l ++ x :: z :: k) with ((l ++ [x]) ++ z :: k) by (by rewrite <- app_assoc). rewrite last_app_cons. intros [k' Ek]%last_Some.
  apply NoDup_app in Hn as (_ & _ & Hn). apply NoDup_cons in Hn as [Hn _]. exfalso. apply Hn. rewrite Ek, elem_of_app, list_elem_of_singleton. auto.
Qed.

(** The pointers of a resource outside the list of [p]. *)
Lemma unwrap_other x X : (x ∉ mid) -> (x ∉ l1) -> x <> old -> parent (unwrap_at p old l1 mid l2 x X) = parent X /\ sibling (unwrap_at p old l1 mid l2 x X) = sibling X.
Proof. intros H1 H2 H3. unfold unwrap_at. cbn. rewrite (proj2 (Z.eqb_neq x old)) by done. rewrite bool_decide_false by done. by rewrite !not_last. Qed.

Lemma nodup_split (a b a' b' : list Z) x : NoDup (a ++ x :: b) -> a ++ x :: b = a' ++ x :: b' -> b = b'.
Proof.
  revert a'. induction a as [|y a IH]; intros a' Hn E; destruct a' as [|y' a']; cbn in *; apply NoDup_cons in Hn as [Hn1 Hn2].
  - congruence.
  - injection E as -> E. exfalso. apply Hn1. rewrite E, elem_of_app, elem_of_cons. auto.
  - injection E as -> E. exfalso. apply Hn1. rewrite elem_of_app, elem_of_cons. auto.
  - injection E as -> E. by apply (IH a').
Qed.

Lemma unwrapped_nodup : NoDup (l1 ++ mid ++ l2).
Proof.
  destruct side_parts as (N1 & N3 & O1 & O2 & D). apply NoDup_app. split; [done|]. split.
  - intros x Hx. rewrite elem_of_app. intros [Hm%mid_in|Hm]; [by destruct (own_apart x Hm)|by apply (D x)].
  - apply NoDup_app. split; [destruct keep; [constructor|exact (kids_nodup HT old _ Hold)]|]. split; [|done]. intros x Hm%mid_in. by destruct (own_apart x Hm) as (_ & ? & _).
Qed.

Lemma unwrap_link_p k1 x k2 : l1 ++ mid ++ l2 = k1 ++ x :: k2 -> exists X, unwrap m p old l1 mid l2 !! x = Some X /\ parent X = Some p /\ sibling X = head k2.
Proof.
  intros E. destruct side_parts as (N1 & N3 & O1 & O2 & D). rewrite lookup_unwrap. assert (Hx : x ∈ l1 ++ mid ++ l2) by (rewrite E, elem_of_app, elem_of_cons; auto). rewrite !elem_of_app in Hx.
  assert (Hk : forall b a, l1 ++ mid ++ l2 = a ++ x :: b -> k2 = b) by (intros b a E'; apply (nodup_split k1 k2 a b x); [rewrite <- E; apply unwrapped_nodup|congruence]). destruct Hx as [Hx|[Hx|Hx]].
  - apply list_elem_of_split in Hx as (a & b & El). assert (Hp' : C !! p = Some (a ++ x :: (b ++ old :: l2))) by (by rewrite Hp, El, <- app_assoc). destruct (ln_link _ _ (proj1 HT) p _ x _ Hp') as (X & -> & Ep & Es). eexists. split; [done|].
    assert (Hx1 : x ∈ l1) by (rewrite El, elem_of_app, elem_of_cons; auto). assert (Hxo : x <> old) by (intros ->; done). assert (Hxm : x ∉ mid) by (intros Hm%mid_in; by destruct (own_apart x Hm)). rewrite (Hk (b ++ mid ++ l2) a) by (by rewrite El, <- app_assoc).
    unfold unwrap_at. cbn. rewrite (proj2 (Z.eqb_neq x old)) by done. rewrite bool_decide_false by done. rewrite (not_last _ _ Hxm). rewrite El at 1. rewrite is_last_app by (by rewrite <- El). split; [done|]. destruct b; [by rewrite bool_decide_true|]. by rewrite Es.
  - assert (Ek : mid = own) by (destruct keep; [by apply elem_of_nil in Hx|done]). rewrite Ek in Hk |- *. rewrite Ek in Hx. apply list_elem_of_split in Hx as (a & b & El). assert (Ho' := Hold). rewrite El in Ho'. destruct (ln_link _ _ (proj1 HT) old _ x _ Ho') as (X & -> & Ep & Es). eexists. split; [done|].
    assert (Hxo : x ∈ own) by (rewrite El, elem_of_app, elem_of_cons; auto). destruct (own_apart x Hxo) as (H1 & H2 & H3 & _). rewrite (Hk (b ++ l2) (l1 ++ a)) by (by rewrite El, <- !app_assoc).
    unfold unwrap_at. cbn. rewrite (proj2 (Z.eqb_neq x old)) by done. rewrite bool_decide_true by done. rewrite El at 1. rewrite is_last_app by (rewrite <- El; exact (kids_nodup HT old _ Hold)). split; [done|]. destruct b; [by rewrite bool_decide_true|]. rewrite bool_decide_false by done. rewrite (not_last _ _ H1). by rewrite Es.
  - apply list_elem_of_split in Hx as (a & b & El). assert (Hp' : C !! p = Some ((l1 ++ old :: a) ++ x :: b)) by (by rewrite Hp, El, <- app_assoc). destruct (ln_link _ _ (proj1 HT) p _ x _ Hp') as (X & -> & Ep & Es). eexists. split; [done|].
    assert (Hx2 : x ∈ l2) by (rewrite El, elem_of_app, elem_of_cons; auto). rewrite (Hk b (l1 ++ mid ++ a)) by (by rewrite El, <- !app_assoc). destruct (unwrap_other x X) as [-> ->]; [intros Hm%mid_in; by destruct (own_apart x Hm) as (_ & ? & _)|intros Hm; by apply (D x)|intros ->; done|done].
Qed.

Lemma unwrapped_cases q k : unwrapped_kids !! q = Some k -> q = p /\ k = l1 ++ mid ++ l2 \/ q <> p /\ C !! q = Some k /\ (keep = true \/ q <> old).
Proof.
  unfold unwrapped_kids. destruct (decide (q = p)) as [->|Hq]; [rewrite lookup_insert_eq; intros E; injection E as <-; auto|]. rewrite lookup_insert_ne by done. destruct keep; [auto|]. intros [H1 H2]%lookup_delete_Some. auto.
Qed.

Lemma in_unwrapped q : is_Some (C !! q) -> keep = true \/ q <> old -> is_Some (unwrapped_kids !! q).
Proof. intros H [Hk|Hk]; unfold unwrapped_kids; rewrite lookup_insert_is_Some'; [rewrite Hk; auto|]. destruct keep; [auto|]. right. by rewrite lookup_delete_ne. Qed.

Lemma unwrap_linked : linked (unwrap m p old l1 mid l2) unwrapped_kids.
Proof.
  destruct side_parts as (N1 & N3 & O1 & O2 & D). assert (Hoc : old ∈ l1 ++ old :: l2) by (rewrite elem_of_app, elem_of_cons; auto). split.
  - intros x k Hx. rewrite lookup_unwrap. apply unwrapped_cases in Hx as [[-> ->]|(Hxp & Hx & _)].
    + destruct (ln_node _ _ (proj1 HT) p _ Hp) as (P & -> & Hc). eexists. split; [done|]. unfold unwrap_at. cbn [child]. rewrite Z.eqb_refl. destruct l1; [done|]. by rewrite Hc.
    + destruct (ln_node _ _ (proj1 HT) x k Hx) as (X & -> & Hc). eexists. split; [done|]. unfold unwrap_at. cbn [child]. by rewrite (proj2 (Z.eqb_neq x p)).
  - intros q k1 x k2 Hq. apply unwrapped_cases in Hq as [[-> E]|(Hqp & Hq & Hk)]; [exact (unwrap_link_p k1 x k2 (eq_sym E))|]. rewrite lookup_unwrap. destruct (ln_link _ _ (proj1 HT) q k1 x k2 Hq) as (X & -> & Ep & Es). eexists. split; [done|]. assert (Hx : x ∈ k1 ++ x :: k2) by (rewrite elem_of_app, elem_of_cons; auto).
    assert (Hno : x ∉ l1 ++ old :: l2) by (intros Hx'; apply Hqp; exact (one_parent HT q p _ _ x Hq Hp Hx Hx')). rewrite elem_of_app, elem_of_cons in Hno. destruct (unwrap_other x X) as [-> ->]; [|tauto|tauto|done]. destruct Hk as [->|Hqo]; [apply not_elem_of_nil|]. intros Hm%mid_in. apply Hqo. exact (one_parent HT q old _ _ x Hq Hold Hx Hm).
  - intros q k x Hq Hx. apply unwrapped_cases in Hq as [[-> ->]|(Hqp & Hq & Hk)].
    + rewrite !elem_of_app in Hx. destruct (decide (x ∈ mid)) as [Hm|Hm]; [apply mid_in in Hm; destruct (own_apart x Hm) as (_ & _ & ? & _); apply in_unwrapped; [by apply (ln_in _ _ (proj1 HT) old own)|auto]|]. apply in_unwrapped; [apply (ln_in _ _ (proj1 HT) p _ x Hp); rewrite elem_of_app, elem_of_cons; tauto|right; intros ->; tauto].
    + apply in_unwrapped; [by apply (ln_in _ _ (proj1 HT) q k)|]. destruct (decide (x = old)) as [->|Hne]; [|auto]. exfalso. apply Hqp. exact (one_parent HT q p _ _ old Hq Hp Hx Hoc).
  - intros x k X q Hx HX Eq. rewrite lookup_unwrap in HX. destruct (m !! x) as [X0|] eqn:HX0; [|done]. cbn in HX. injection HX as <-. cbn in Eq. destruct (Z.eqb_spec x old) as [|Hxo]; [done|].
    assert (HC : exists k0, C !! x = Some k0) by (apply unwrapped_cases in Hx as [[-> _]|(_ & ? & _)]; eauto). destruct HC as [k0 HC]. assert (Hpp : forall y, y ∈ l1 ++ mid ++ l2 -> exists k', unwrapped_kids !! p = Some k' /\ y ∈ k') by (intros y Hy; unfold unwrapped_kids; rewrite lookup_insert_eq; eauto).
    destruct (bool_decide_reflect (x ∈ mid)) as [Hm|Hm]; [injection Eq as <-; apply Hpp; rewrite !elem_of_app; auto|]. destruct (ln_parent _ _ (proj1 HT) x k0 X0 q HC HX0 Eq) as (kq & Hq & Hin). destruct (decide (q = p)) as [->|Hqp].
    + apply Hpp. assert (kq = l1 ++ old :: l2) as -> by congruence. rewrite elem_of_app, elem_of_cons in Hin. rewrite !elem_of_app. tauto.
    + exists kq. split; [|done]. unfold unwrapped_kids. rewrite lookup_insert_ne by done. destruct keep; [done|]. rewrite lookup_delete_ne; [done|]. intros <-. apply Hm. congruence.
  - destruct (ln_rank _ _ (proj1 HT)) as [rank Hr]. exists rank. intros q k x Hq Hx. apply unwrapped_cases in Hq as [[-> ->]|(_ & Hq & _)]; [|by apply (Hr q k)]. rewrite !elem_of_app in Hx. pose proof (Hr p _ old Hp Hoc). destruct (decide (x ∈ mid)) as [Hm|Hm]; [apply mid_in in Hm; specialize (Hr old own x Hold Hm); lia|]. apply (Hr p _ x Hp). rewrite elem_of_app, elem_of_cons. tauto.
Qed.

Lemma unwrap_ordered : ordered (unwrap m p old l1 mid l2) unwrapped_kids.
Proof.
  pose proof (fun x => same_rng _ _ x (unwrap_ranges m p old l1 mid l2)) as ER. assert (Hoc : old ∈ l1 ++ old :: l2) by (rewrite elem_of_app, elem_of_cons; auto). destruct (tree_in HT old own Hold) as (O & HO & _ & _). pose proof (get_rng m old O HO) as Ro.
  assert (Hmid : forall x s e, x ∈ mid -> rng m x = Some (s, e) -> start O <= s /\ e <= end_ O) by (intros x s e Hm%mid_in Hs; exact (or_inside _ _ (proj2 HT) old own x _ _ _ _ Hold Hm Ro Hs)).
  assert (HO' := or_range _ _ (proj2 HT) old own _ _ Hold Ro). split.
  - intros x k s e Hx. rewrite ER. apply unwrapped_cases in Hx as [[-> ->]|(_ & Hx & _)]; [by apply (or_range _ _ (proj2 HT) p _ _ _ Hp)|by apply (or_range _ _ (proj2 HT) x k)].
  - intros q k x s e s' e' Hq Hx. rewrite !ER. apply unwrapped_cases in Hq as [[-> ->]|(_ & Hq & _)]; [|by apply (or_inside _ _ (proj2 HT) q k x)]. intros Hs Hs'. rewrite !elem_of_app in Hx. destruct (decide (x ∈ mid)) as [Hm|Hm].
    + pose proof (or_inside _ _ (proj2 HT) p _ old s e _ _ Hp Hoc Hs Ro). pose proof (Hmid x s' e' Hm Hs'). lia.
    + apply (or_inside _ _ (proj2 HT) p _ x s e s' e' Hp); [rewrite elem_of_app, elem_of_cons; tauto|done|done].
  - intros q k Hq. apply (sorted_same m); [done|]. apply unwrapped_cases in Hq as [[-> ->]|(_ & Hq & _)]; [|by apply (or_sorted _ _ (proj2 HT) q k)]. pose proof (or_sorted _ _ (proj2 HT) p _ Hp) as HS. rewrite StronglySorted_app, StronglySorted_cons, Forall_forall in HS. destruct HS as (S1 & S2 & S3 & S4).
    rewrite !StronglySorted_app. split; [|split; [done|]; split; [|split; [|done]]].
    + intros x y Hx Hy. apply elem_of_app in Hy as [Hy|Hy]; [|apply S1; [done|apply elem_of_cons; auto]]. intros s e s' e' Hs Hs'. pose proof (S1 x old Hx ltac:(apply elem_of_cons; auto) _ _ _ _ Hs Ro). pose proof (Hmid y s' e' Hy Hs'). lia.
    + intros x y Hx Hy s e s' e' Hs Hs'. pose proof (S3 y Hy _ _ _ _ Ro Hs'). pose proof (Hmid x s e Hx Hs). lia.
    + destruct keep; [constructor|]. by apply (or_sorted _ _ (proj2 HT) old).
Qed.

Lemma unwrap_tree : tree (unwrap m p old l1 mid l2) unwrapped_kids.
Proof. split; [apply unwrap_linked|apply unwrap_ordered]. Qed.
End Unwrap.

(** ** Checking a concrete tree *)

Fixpoint links_b (m : mem) (p : Z) (l : list Z) : bool :=
  match l with [] => true | x :: l => match m !! x with Some X => bool_decide (parent X = Some p) && bool_decide (sibling X = head l) | None => false end && links_b m p l end.
Definition before_b (m : mem) (x y : Z) : bool := match rng m x, rng m y with Some (_, e), Some (s, _) => e <? s | _, _ => true end.
Fixpoint sorted_b (m : mem) (l : list Z) : bool := match l with [] => true | x :: l => forallb (before_b m x) l && sorted_b m l end.
Definition node_b (m : mem) (C : kids) (rank : Z -> nat) (x : Z) (l : list Z) : bool :=
  match m !! x with
  | None => false
  | Some X =>
      bool_decide (child X = head l) && (0 <=? start X) && (start X <=? end_ X) && (end_ X <? 4294967296) && links_b m x l && sorted_b m l &&
      match parent X with None => true | Some p => match C !! p with Some k => bool_decide (x ∈ k) | None => false end end &&
      forallb (fun y => bool_decide (is_Some (C !! y)) && (rank y <? rank x)%nat && match rng m y with Some (s, e) => (start X <=? s) && (e <=? end_ X) | None => true end) l
  end.

Lemma links_check m p l : links_b m p l = true -> forall l1 x l2, l = l1 ++ x :: l2 -> exists X, m !! x = Some X /\ parent X = Some p /\ sibling X = head l2.
Proof.
  induction l as [|y l IH]; intros Hb l1 x l2 El; [by destruct l1|]. cbn in Hb. apply andb_true_iff in Hb as [Hy Hb]. destruct l1 as [|z l1]; injection El as -> ->; [|by apply (IH Hb l1)]. destruct (m !! x) as [X|]; [|done]. apply andb_true_iff in Hy as [H1%bool_decide_eq_true H2%bool_decide_eq_true]. by exists X.
Qed.

Lemma sorted_check m l : sorted_b m l = true -> StronglySorted (before m) l.
Proof.
  induction l as [|x l IH]; intros Hb; [constructor|]. cbn in Hb. apply andb_true_iff in Hb as [Hx Hb]. constructor; [auto|]. apply Forall_forall. intros y Hy s e s' e' Hs Hs'. rewrite forallb_forall in Hx. specialize (Hx y ltac:(by apply list_elem_of_In)). unfold before_b in Hx. rewrite Hs, Hs' in Hx. by apply Z.ltb_lt.
Qed.

Lemma tree_check m C rank : forallb (fun n => node_b m C rank n.1 n.2) (map_to_list C) = true -> tree m C.
Proof.
  rewrite forallb_forall. intros HF. assert (HN : forall x l, C !! x = Some l -> exists X, m !! x = Some X /\ child X = head l /\ 0 <= start X <= end_ X /\ end_ X < 4294967296 /\ links_b m x l = true /\ sorted_b m l = true /\ (forall p, parent X = Some p -> exists k, C !! p = Some k /\ x ∈ k) /\
    forall y, y ∈ l -> is_Some (C !! y) /\ (rank y < rank x)%nat /\ forall s e, rng m y = Some (s, e) -> start X <= s /\ e <= end_ X).
  { intros x l Hx. specialize (HF (x, l) ltac:(by apply list_elem_of_In, elem_of_map_to_list)). cbn in HF. unfold node_b in HF. destruct (m !! x) as [X|]; [|done]. rewrite !andb_true_iff in HF. destruct HF as [[[[[[[H1%bool_decide_eq_true H2%Z.leb_le] H3%Z.leb_le] H4%Z.ltb_lt] H5] H6] H7] H8].
    exists X. split; [done|]. split; [done|]. split; [lia|]. split; [done|]. split; [done|]. split; [done|]. split.
    - intros p Ep. rewrite Ep in H7. destruct (C !! p) as [k|]; [|done]. exists k. split; [done|]. by apply bool_decide_eq_true in H7.
    - intros y Hy. rewrite forallb_forall in H8. specialize (H8 y ltac:(by apply list_elem_of_In)). rewrite !andb_true_iff in H8. destruct H8 as [[H8%bool_decide_eq_true H9%Nat.ltb_lt] H10]. split; [done|]. split; [done|]. intros s e Es. rewrite Es in H10. apply andb_true_iff in H10 as [?%Z.leb_le ?%Z.leb_le]. lia. }
  split; split.
  - intros x l Hx. destruct (HN x l Hx) as (X & HX & Hc & _). eauto.
  - intros p l1 x l2 Hp. destruct (HN p _ Hp) as (P & _ & _ & _ & _ & HL & _). exact (links_check m p _ HL l1 x l2 eq_refl).
  - intros p l x Hp Hx. destruct (HN p l Hp) as (P & _ & _ & _ & _ & _ & _ & _ & HK). by apply HK.
  - intros x l X p Hx HX Ep. destruct (HN x l Hx) as (X' & HX' & _ & _ & _ & _ & _ & HPa & _). apply HPa. congruence.
  - exists rank. intros p l x Hp Hx. destruct (HN p l Hp) as (P & _ & _ & _ & _ & _ & _ & _ & HK). by apply HK.
  - intros x l s e Hx Hs. destruct (HN x l Hx) as (X & HX & _ & H1 & H2 & _). rewrite (get_rng m x X HX) in Hs. injection Hs as <- <-. done.
  - intros p l x s e s' e' Hp Hx Hs Hs'. destruct (HN p l Hp) as (P & HP & _ & _ & _ & _ & _ & _ & HK). rewrite (get_rng m p P HP) in Hs. injection Hs as <- <-. destruct (HK x Hx) as (_ & _ & H). by apply H.
  - intros p l Hp. destruct (HN p l Hp) as (P & _ & _ & _ & _ & _ & HS & _). by apply sorted_check.
Qed.

(** Memory with two regions, and a resource that is not in the tree. *)
Definition sample_mem : mem := {[
  1 := mk_res 0 65535 512 0 None None (Some 2);
  2 := mk_res 4096 8191 512 0 (Some 1) (Some 3) None;
  3 := mk_res 12288 16383 512 0 (Some 1) None None;
  4 := mk_res 4096 20479 512 0 None None None ]}.
Definition sample_kids : kids := {[ 1 := [2; 3]; 2 := []; 3 := [] ]}.

Lemma sample_tree : tree sample_mem sample_kids.
Proof. apply (tree_check _ _ (fun x => if x =? 1 then 1%nat else 0%nat)). by vm_compute. Qed.
