(* ===== verification/ResourceOps.v ===== *)
(** * Requests, releases and insertions in the tree of resources (kernel/resource.c) *)

From stdpp Require Import gmap list sorting.
From S2P Require Import Prelude Resource ResourceTree.
Local Open Scope Z_scope.
Local Open Scope res_scope.

Lemma get_ok m x X : m !! x = Some X -> get m x = Ok X.
Proof. intros E. unfold get. by rewrite E. Qed.

Lemma modify_ok m x X f : m !! x = Some X -> modify m x f = Ok (<[x := f X]> m).
Proof. intros E. unfold modify. by rewrite (get_ok m x X E). Qed.

(** Writes as functions on the whole memory. *)
Definition upd (m : mem) (x : Z) (f : resource -> resource) : mem := map_imap (fun y Y => Some (if y =? x then f Y else Y)) m.
Lemma lookup_upd m x f y : upd m x f !! y = (fun Y => if y =? x then f Y else Y) <$> m !! y.
Proof. unfold upd. rewrite map_lookup_imap. by destruct (m !! y). Qed.
Lemma modify_upd m x f : is_Some (m !! x) -> modify m x f = Ok (upd m x f).
Proof.
  intros [X HX]. rewrite (modify_ok m x X f HX). f_equal. apply map_eq. intros y. rewrite lookup_upd. destruct (decide (y = x)) as [->|Hy]; [by rewrite lookup_insert_eq, HX, Z.eqb_refl|]. rewrite lookup_insert_ne, (proj2 (Z.eqb_neq y x)) by done. by destruct (m !! y).
Qed.

Lemma turns_upd m x f : turns (upd m x f) = turns m.
Proof. unfold turns. f_equal. rewrite <- !(size_dom (D := gset Z)). f_equal. apply leibniz_equiv. intros y. by rewrite !elem_of_dom, lookup_upd, fmap_is_Some. Qed.

Definition in_slot (p : Z) (l1 : list Z) (v : option Z) (x : Z) (X : resource) : resource :=
  mk_res (start X) (end_ X) (flags X) (desc X) (parent X) (if is_last l1 x then v else sibling X) (if (x =? p) && bool_decide (l1 = []) then v else child X).
Definition put_slot (m : mem) (p : Z) (l1 : list Z) (v : option Z) : mem := map_imap (fun x X => Some (in_slot p l1 v x X)) m.
Lemma lookup_put_slot m p l1 v x : put_slot m p l1 v !! x = in_slot p l1 v x <$> m !! x.
Proof. unfold put_slot. rewrite map_lookup_imap. by destruct (m !! x). Qed.

Lemma store_slot m p l1 v : is_Some (m !! p) -> (forall x, x ∈ l1 -> is_Some (m !! x)) -> store m (slot_of p l1) v = Ok (put_slot m p l1 v).
Proof.
  intros Hp Hl. unfold slot_of. destruct (last l1) as [t|] eqn:El; cbn [store].
  - rewrite modify_upd by (apply Hl; apply last_Some in El as [k ->]; rewrite elem_of_app, list_elem_of_singleton; auto). f_equal. apply map_eq. intros x. rewrite lookup_upd, lookup_put_slot. destruct (m !! x) as [X|]; [|done]. cbn. f_equal. unfold in_slot, is_last. rewrite El. rewrite (bool_decide_false (l1 = [])) by (intros ->; done). rewrite andb_false_r.
    destruct (Z.eqb_spec x t) as [->|Hx]; [by rewrite bool_decide_true|]. rewrite bool_decide_false by congruence. by destruct X.
  - apply last_None in El as ->. rewrite modify_upd by done. f_equal. apply map_eq. intros x. rewrite lookup_upd, lookup_put_slot. destruct (m !! x) as [X|]; [|done]. cbn. f_equal. unfold in_slot. cbn. rewrite andb_true_r. destruct (x =? p); by destruct X.
Qed.

(** Both ranges share an address. *)
Definition overlap (s e s' e' : Z) : Prop := s <= e' /\ s' <= e.

(** ** Requests *)

Section Request.
Context {m : mem} {C : kids} {root new : Z} {N : resource} (HT : tree m C) (Hnew : C !! new = None) (HN : m !! new = Some N) (Hc : child N = None).

Lemma request_link_ok l1 l2 : C !! root = Some (l1 ++ l2) ->
  (m <-- modify m new (fun N => set_sibling N (head l2)); m <-- store m (slot_of root l1) (Some new); m <-- modify m new (fun N => set_parent N (Some root)); Ok (None, m)) = Ok (@None Z, wrap m root new l1 [] l2).
Proof.
  intros Hr. destruct (new_fresh HT Hnew root _ Hr) as [Hrn Hnl]. rewrite elem_of_app in Hnl. rewrite modify_upd by (by exists N). cbn [res_bind].
  assert (Hin : forall x, is_Some (m !! x) -> is_Some (upd m new (fun N => set_sibling N (head l2)) !! x)) by (intros x [X HX]; rewrite lookup_upd, HX; by eexists). destruct (ln_node _ _ (proj1 HT) root _ Hr) as (R & HR & _).
  rewrite store_slot; [|apply Hin; by exists R|intros x Hx; apply Hin; destruct (tree_kid HT root _ x Hr) as (X & HX & _); [rewrite elem_of_app; auto|by exists X]]. cbn [res_bind]. rewrite modify_upd by (rewrite lookup_put_slot, lookup_upd, HN; by eexists). cbn [res_bind]. do 2 f_equal.
  apply map_eq. intros x. rewrite lookup_upd, lookup_put_slot, lookup_upd, lookup_wrap. destruct (m !! x) as [X|] eqn:HX; [|done]. cbn. f_equal. unfold wrap_at, in_slot. rewrite (not_last []) by apply not_elem_of_nil. rewrite (bool_decide_false (x ∈ [])) by apply not_elem_of_nil.
  destruct (Z.eqb_spec x new) as [->|Hx]; [|done]. assert (X = N) as -> by congruence. rewrite (not_last l1) by tauto. rewrite (proj2 (Z.eqb_neq new root)) by congruence. unfold set_parent, set_sibling. cbn. by rewrite Hc.
Qed.

(** The outcome of the search among the children [l] of [root]. *)
Definition scanned (l : list Z) (s e : Z) (o : option Z * mem) : Prop :=
  (exists l1 l2, l = l1 ++ l2 /\ (forall x X, x ∈ l1 -> m !! x = Some X -> end_ X < s) /\ (forall x X, x ∈ l2 -> m !! x = Some X -> e < start X) /\ o = (None, wrap m root new l1 [] l2)) \/
  (exists l1 t l2 T, l = l1 ++ t :: l2 /\ (forall x X, x ∈ l1 -> m !! x = Some X -> end_ X < s) /\ m !! t = Some T /\ overlap s e (start T) (end_ T) /\ o = (Some t, m)).

Lemma request_loop_ok s e l2 : s <= e -> forall fuel l1, (length l2 < fuel)%nat -> C !! root = Some (l1 ++ l2) -> (forall x X, x ∈ l1 -> m !! x = Some X -> end_ X < s) ->
  exists o, request_loop fuel m root new s e (slot_of root l1) = Ok o /\ scanned (l1 ++ l2) s e o.
Proof.
  intros Hse. induction l2 as [|t l2 IH]; intros fuel l1 Hf Hr Hl; (destruct fuel as [|fuel]; [cbn in Hf; lia|]); cbn [request_loop]; rewrite (load_slot HT root l1 _ Hr); cbn [res_bind head].
  - eexists. split; [apply (request_link_ok l1 []); done|]. left. exists l1, []. split; [done|]. split; [done|]. split; [intros x X Hx; by apply elem_of_nil in Hx|done].
  - destruct (tree_kid HT root _ t Hr) as (T & HTt & _ & Rt & _); [rewrite elem_of_app, elem_of_cons; auto|]. rewrite (get_ok m t T HTt). cbn [res_bind]. destruct (Z.ltb_spec e (start T)) as [E1|E1].
    + eexists. split; [apply (request_link_ok l1 (t :: l2)); done|]. left. exists l1, (t :: l2). split; [done|]. split; [done|]. split; [|done]. intros x X Hx HX. apply elem_of_cons in Hx as [->|Hx]; [assert (X = T) as -> by congruence; done|].
      pose proof (or_sorted _ _ (proj2 HT) root _ Hr) as HS. apply StronglySorted_app_1_r, StronglySorted_cons in HS as [HS _]. rewrite Forall_forall in HS. specialize (HS x Hx _ _ _ _ (get_rng m t T HTt) (get_rng m x X HX)). lia.
    + destruct (Z.ltb_spec (end_ T) s) as [E2|E2].
      * destruct (IH fuel (l1 ++ [t])) as (o & E & Ho); [cbn in Hf; lia|by rewrite <- app_assoc|intros x X Hx HX; apply elem_of_app in Hx as [Hx|Hx%list_elem_of_singleton]; [by apply (Hl x)|subst x; assert (X = T) as -> by congruence; done]|].
        unfold slot_of in E. rewrite last_snoc in E. exists o. split; [done|]. by rewrite <- app_assoc in Ho.
      * eexists. split; [done|]. right. exists l1, t, l2, T. split; [done|]. split; [done|]. split; [done|]. split; [|done]. split; lia.
Qed.

(** The answer to a request. *)
Definition answered (l : list Z) (R : resource) (o : option Z * mem) : Prop :=
  if (start R <=? start N) && (start N <=? end_ N) && (end_ N <=? end_ R) then scanned l (start N) (end_ N) o else o = (Some root, m).

Lemma request_ok l R : C !! root = Some l -> m !! root = Some R -> exists o, __request_resource m root new = Ok o /\ answered l R o.
Proof.
  intros Hr HR. unfold __request_resource, answered. rewrite (get_ok m new N HN), (get_ok m root R HR). cbn [res_bind]. rewrite (Z.leb_antisym (start N) (start R)), (Z.leb_antisym (end_ N) (start N)), (Z.leb_antisym (end_ R) (end_ N)).
  destruct (Z.ltb_spec (end_ N) (start N)) as [E1|E1]; [rewrite andb_false_r; cbn; by eexists|]. destruct (start N <? start R); [by eexists|]. destruct (end_ R <? end_ N); [by eexists|]. cbn.
  apply (request_loop_ok (start N) (end_ N) l E1 (turns m) []); [exact (kids_length HT root l Hr)|done|intros x X Hx; by apply elem_of_nil in Hx].
Qed.

(** A request that succeeds leaves a tree. *)
Lemma wrap_request_tree l R l1 l2 : 0 <= start N -> end_ N < 4294967296 -> C !! root = Some (l1 ++ l2) -> m !! root = Some R -> l = l1 ++ l2 -> start R <= start N <= end_ N -> end_ N <= end_ R ->
  (forall x X, x ∈ l1 -> m !! x = Some X -> end_ X < start N) -> (forall x X, x ∈ l2 -> m !! x = Some X -> end_ N < start X) -> tree (wrap m root new l1 [] l2) (<[root := l1 ++ new :: l2]> (<[new := []]> C)).
Proof.
  intros H0 H1 Hr HR -> H2 H3 HL HRt. apply (wrap_tree (mid := []) (N := N) HT); [done|done|done|]. split.
  - lia.
  - intros s e Hs. rewrite (get_rng m root R HR) in Hs. injection Hs as <- <-. lia.
  - intros x s e Hx Hs. apply rng_get in Hs as (X & HX & <- & <-). by apply (HL x).
  - intros x s e Hx. by apply elem_of_nil in Hx.
  - intros x s e Hx Hs. apply rng_get in Hs as (X & HX & <- & <-). by apply (HRt x).
Qed.
End Request.

(** ** Lists of siblings *)

Fixpoint chained (m : mem) (k : list Z) : Prop := match k with [] => True | x :: k => (exists X, m !! x = Some X /\ sibling X = head k) /\ chained m k end.

Lemma chained_kids m C q a k : tree m C -> C !! q = Some (a ++ k) -> chained m k.
Proof.
  intros HT. revert a. induction k as [|x k IH]; intros a Hq; [done|]. split; [destruct (ln_link _ _ (proj1 HT) q a x k Hq) as (X & HX & _ & Es); eauto|]. apply (IH (a ++ [x])). by rewrite <- app_assoc.
Qed.

(** The resources [k] get the parent [p]. *)
Definition with_parent (k : list Z) (p : option Z) (x : Z) (X : resource) : resource := if bool_decide (x ∈ k) then set_parent X p else X.
Definition set_parents (m : mem) (k : list Z) (p : option Z) : mem := map_imap (fun x X => Some (with_parent k p x X)) m.

Lemma lookup_set_parents m k p x : set_parents m k p !! x = with_parent k p x <$> m !! x.
Proof. unfold set_parents. rewrite map_lookup_imap. by destruct (m !! x). Qed.

Lemma turns_set_parents m k p : turns (set_parents m k p) = turns m.
Proof. unfold turns. f_equal. rewrite <- !(size_dom (D := gset Z)). f_equal. apply leibniz_equiv. intros y. by rewrite !elem_of_dom, lookup_set_parents, fmap_is_Some. Qed.

Lemma set_parents_cons m x X k p : m !! x = Some X -> set_parents (<[x := set_parent X p]> m) k p = set_parents m (x :: k) p.
Proof.
  intros HX. apply map_eq. intros y. rewrite !lookup_set_parents. destruct (decide (y = x)) as [->|Hy].
  - rewrite lookup_insert_eq, HX. cbn. unfold with_parent. rewrite (bool_decide_true (x ∈ x :: k)) by (apply elem_of_cons; auto). by destruct (bool_decide _).
  - rewrite lookup_insert_ne by done. unfold with_parent. rewrite (bool_decide_ext (y ∈ x :: k) (y ∈ k)) by (rewrite elem_of_cons; tauto). done.
Qed.

Lemma chained_set m x X p k : m !! x = Some X -> chained m k -> chained (<[x := set_parent X p]> m) k.
Proof.
  intros HX. induction k as [|y k IH]; [done|]. intros [(Y & HY & Es) Hk]. split; [|auto]. destruct (decide (y = x)) as [->|Hy]; [rewrite lookup_insert_eq; eexists; split; [done|]; cbn; congruence|rewrite lookup_insert_ne by done; eauto].
Qed.

Lemma turns_insert m x X Y : m !! x = Some X -> turns (<[x := Y]> m) = turns m.
Proof. intros HX. unfold turns. f_equal. by apply map_size_insert_Some; exists X. Qed.

Lemma default_last {A} (x y : A) k : default x (last (y :: k)) = default y (last k).
Proof. destruct k as [|z k]; [done|]. cbn [last]. by destruct (last (z :: k)) eqn:E; [|apply last_None in E]. Qed.

Lemma last_cons_default {A} (x : A) k : last (x :: k) = Some (default x (last k)).
Proof. destruct (last (x :: k)) as [y|] eqn:E; [|by apply last_None in E]. by rewrite <- (default_last x x k), E. Qed.

Lemma reparent_loop_ok p k : forall fuel m x, chained m (x :: k) -> (length k < fuel)%nat -> reparent_loop fuel m x p = Ok (default x (last k), set_parents m (x :: k) p).
Proof.
  induction k as [|y k IH]; intros fuel m x [(X & HX & Es) Hk] Hf; (destruct fuel as [|fuel]; [cbn in Hf; lia|]); cbn [reparent_loop]; rewrite (modify_ok m x X) by done; cbn [res_bind]; rewrite (get_ok _ x (set_parent X p)) by (apply lookup_insert_eq); cbn [res_bind set_parent sibling]; rewrite Es; cbn [head].
  - rewrite <- (set_parents_cons m x X [] p HX). do 2 f_equal. apply map_eq. intros y. rewrite lookup_set_parents. by destruct (<[x:=set_parent X p]> m !! y).
  - rewrite IH by (try (apply chained_set; done); cbn in Hf; lia). rewrite (set_parents_cons m x X (y :: k) p HX). by rewrite default_last.
Qed.

Lemma adopt_loop_ok new k : forall fuel m, chained m k -> (length k < fuel)%nat -> adopt_loop fuel m (head k) new = Ok (set_parents m k (Some new)).
Proof.
  induction k as [|x k IH]; intros fuel m Hk Hf; (destruct fuel as [|fuel]; [cbn in Hf; lia|]); cbn [adopt_loop head].
  - f_equal. apply map_eq. intros y. rewrite lookup_set_parents. by destruct (m !! y).
  - destruct Hk as [(X & HX & Es) Hk]. rewrite (modify_ok m x X) by done; cbn [res_bind]. rewrite (get_ok _ x (set_parent X (Some new))) by (apply lookup_insert_eq). cbn [res_bind set_parent sibling]. rewrite Es, IH; [|by apply chained_set|cbn in Hf; lia]. by rewrite (set_parents_cons m x X k).
Qed.

(** ** Releases *)

Section Release.
Context {m : mem} {C : kids} {p old : Z} {l1 l2 own : list Z} (keep : bool) (HT : tree m C) (Hp : C !! p = Some (l1 ++ old :: l2)) (Hold : C !! old = Some own).
Local Abbreviation mid := (if keep then [] else own).

(** What is left to write when [old] is found. *)
Definition cut (T : resource) : res (Z * mem) :=
  m <-- match (if keep then None else child T) with
        | None => store m (slot_of p l1) (sibling T)
        | Some first => '(last, m) <-- reparent_loop (turns m) m first (parent T); m <-- store m (slot_of p l1) (child T); modify m last (fun c => set_sibling c (sibling T))
        end;
  m <-- modify m old (fun O => set_parent O None); Ok (0, m).

Lemma cut_ok T : m !! old = Some T -> cut T = Ok (0, unwrap m p old l1 mid l2).
Proof.
  intros HTo. destruct (ln_link _ _ (proj1 HT) p l1 old l2 Hp) as (T' & HT' & Ep & Es). assert (T' = T) as -> by congruence. destruct (ln_node _ _ (proj1 HT) old own Hold) as (T' & HT'' & Ec). assert (T' = T) as -> by congruence. clear HT' HT''.
  destruct (ln_node _ _ (proj1 HT) p _ Hp) as (P & HP & _). assert (Hl1 : forall x, x ∈ l1 -> is_Some (m !! x)) by (intros x Hx; destruct (tree_kid HT p _ x Hp) as (X & HX & _); [rewrite elem_of_app; auto|by exists X]). destruct (side_parts HT Hp) as (_ & _ & Ho1 & _).
  assert (Hom : old ∉ mid) by (intros Hm%mid_in; by destruct (own_apart HT Hp Hold old Hm) as (_ & _ & ? & _)). unfold cut. rewrite Es, Ep.
  assert (Eh : (if keep then None else child T) = head mid) by (by destruct keep). rewrite Eh. destruct mid as [|f rest] eqn:Em; cbn [head].
  - rewrite store_slot by (try done; by exists P). cbn [res_bind]. rewrite modify_upd by (rewrite lookup_put_slot, HTo; by eexists). cbn [res_bind]. do 2 f_equal. apply map_eq. intros x. rewrite lookup_upd, lookup_put_slot, lookup_unwrap. destruct (m !! x) as [X|]; [|done]. cbn. f_equal.
    unfold unwrap_at, in_slot. rewrite (not_last []) by apply not_elem_of_nil. rewrite (bool_decide_false (x ∈ [])) by apply not_elem_of_nil. by destruct (x =? old).
  - assert (Eo : own = f :: rest) by (by destruct keep). rewrite Eo in Ec, Hold. cbn in Ec. rewrite Ec. assert (Hin : forall x, x ∈ f :: rest -> is_Some (m !! x)) by (intros x Hx; destruct (tree_kid HT old _ x Hold Hx) as (X & HX & _); by exists X).
    rewrite (reparent_loop_ok (Some p) rest) by (try (pose proof (kids_length HT old _ Hold); cbn in *; lia); exact (chained_kids m C old [] _ HT Hold)). cbn [res_bind].
    assert (Hsp : forall x, is_Some (m !! x) -> is_Some (set_parents m (f :: rest) (Some p) !! x)) by (intros x [X HX]; rewrite lookup_set_parents, HX; by eexists). rewrite store_slot by (try (intros x Hx; apply Hsp; auto); apply Hsp; by exists P). cbn [res_bind].
    assert (El : last (f :: rest) = Some (default f (last rest))) by (apply last_cons_default). set (z := default f (last rest)) in *.
    assert (Hz : z ∈ f :: rest) by (apply last_Some in El as [k ->]; rewrite elem_of_app, list_elem_of_singleton; auto).
    assert (Hps : forall x, is_Some (m !! x) -> is_Some (put_slot (set_parents m (f :: rest) (Some p)) p l1 (Some f) !! x)) by (intros x Hx; rewrite lookup_put_slot; destruct (Hsp x Hx) as [X ->]; by eexists).
    rewrite modify_upd by auto. cbn [res_bind]. rewrite modify_upd by (rewrite lookup_upd; destruct (Hps old ltac:(by exists T)) as [X ->]; by eexists). cbn [res_bind]. do 2 f_equal. apply map_eq. intros x. rewrite !lookup_upd, lookup_put_slot, lookup_set_parents, lookup_unwrap. destruct (m !! x) as [X|]; [|done]. cbn -[last]. f_equal.
    unfold unwrap_at, in_slot, with_parent. cbn -[last]. assert (Ez : is_last (f :: rest) x = (x =? z)) by (unfold is_last; rewrite El; destruct (Z.eqb_spec x z) as [->|Hxz]; [by apply bool_decide_true|apply bool_decide_false; congruence]). rewrite Ez.
    destruct (Z.eqb_spec x old) as [->|Hxo]; [rewrite (proj2 (Z.eqb_neq old z)) by (intros ->; done); by rewrite (bool_decide_false (old ∈ f :: rest))|]. destruct (bool_decide (x ∈ f :: rest)); by destruct (x =? z).
Qed.

Lemma release_loop_ok b : forall fuel a, (length b < fuel)%nat -> l1 = a ++ b -> release_loop fuel m old keep (slot_of p a) = Ok (0, unwrap m p old l1 mid l2).
Proof.
  destruct (side_parts HT Hp) as (_ & _ & Ho1 & _). destruct (ln_link _ _ (proj1 HT) p l1 old l2 Hp) as (T & HTo & _).
  induction b as [|t b IH]; intros fuel a Hf El; (destruct fuel as [|fuel]; [cbn in Hf; lia|]); cbn [release_loop].
  - rewrite app_nil_r in El. subst a. rewrite (load_slot HT p l1 _ Hp). cbn [res_bind head]. rewrite Z.eqb_refl, (get_ok m old T HTo). cbn [res_bind]. exact (cut_ok T HTo).
  - assert (Hp' : C !! p = Some (a ++ (t :: b ++ old :: l2))) by (by rewrite Hp, El, <- app_assoc). rewrite (load_slot HT p a _ Hp'). cbn [res_bind head]. rewrite (proj2 (Z.eqb_neq t old)) by (intros ->; apply Ho1; rewrite El, elem_of_app, elem_of_cons; auto).
    assert (E : slot_of p (a ++ [t]) = Sibling t) by (unfold slot_of; by rewrite last_snoc). rewrite <- E. apply IH; [cbn in Hf; lia|by rewrite El, <- app_assoc].
Qed.

Lemma release_ok : __release_resource m old keep = Ok (0, unwrap m p old l1 mid l2).
Proof.
  destruct (ln_link _ _ (proj1 HT) p l1 old l2 Hp) as (T & HTo & Ep & _). unfold __release_resource. rewrite (get_ok m old T HTo). cbn [res_bind]. rewrite Ep. apply (release_loop_ok l1 (turns m) []); [|done]. pose proof (kids_length HT p _ Hp) as Hl. rewrite length_app in Hl. lia.
Qed.
End Release.

(** ** Insertions *)

(** The siblings [k], with [v] behind the last one. *)
Fixpoint leads_to (m : mem) (k : list Z) (v : option Z) : Prop := match k with [] => True | x :: k => (exists X, m !! x = Some X /\ sibling X = match head k with Some y => Some y | None => v end) /\ leads_to m k v end.

Lemma leads_kids m C q a k l : tree m C -> C !! q = Some (a ++ k ++ l) -> leads_to m k (head l).
Proof.
  intros HT. revert a. induction k as [|x k IH]; intros a Hq; [done|]. split; [destruct (ln_link _ _ (proj1 HT) q a x (k ++ l) Hq) as (X & HX & _ & Es); exists X; split; [done|]; rewrite Es; by destruct k|]. apply (IH (a ++ [x])). by rewrite <- app_assoc.
Qed.

Lemma leads_same m m' k v : (forall x, x ∈ k -> sibling <$> m' !! x = sibling <$> m !! x) -> leads_to m k v -> leads_to m' k v.
Proof.
  induction k as [|x k IH]; intros Hs; [done|]. intros [(X & HX & E) Hk]. split; [|apply IH; [intros y Hy; apply Hs, elem_of_cons; auto|done]]. specialize (Hs x ltac:(apply elem_of_cons; auto)). rewrite HX in Hs. destruct (m' !! x) as [X'|]; [|done]. cbn in Hs. exists X'. split; [done|]. congruence.
Qed.

Lemma before_loop_ok m f k : forall fuel x, leads_to m (x :: k) (Some f) -> f ∉ k -> (length k < fuel)%nat -> before_loop fuel m x f = Ok (default x (last k)).
Proof.
  induction k as [|y k IH]; intros fuel x [(X & HX & Es) Hk] Hf Hl; (destruct fuel as [|fuel]; [cbn in Hl; lia|]); cbn [before_loop]; rewrite (get_ok m x X HX); cbn [res_bind]; rewrite Es; cbn [head]; [by rewrite Z.eqb_refl|].
  apply not_elem_of_cons in Hf as [H1 H2]. rewrite (proj2 (Z.eqb_neq y f)) by congruence. rewrite IH; [|done|done|cbn in Hl; lia]. by rewrite default_last.
Qed.

Section Insert.
Context {m : mem} {C : kids} {new : Z} {N : resource} (HT : tree m C) (Hnew : C !! new = None) (HN : m !! new = Some N) (Hc : child N = None) (HNr : 0 <= start N <= end_ N).

(** [X] covers the new range, and is larger. *)
Definition around (X : resource) : Prop := start X <= start N /\ end_ N <= end_ X /\ ~ (start X = start N /\ end_ X = end_ N).
Definition within (X : resource) : Prop := start N <= start X /\ end_ X <= end_ N.

(** [b] is a child of [a] around the new range. *)
Definition down (a b : Z) : Prop := exists l X, C !! a = Some l /\ b ∈ l /\ m !! b = Some X /\ around X.

(** The parts of a list of children to the left of the new range, inside it, and to the right. *)
Record parted (l l1 mid l2 : list Z) : Prop := {
  pa_app : l = l1 ++ mid ++ l2;
  pa_left x X : x ∈ l1 -> m !! x = Some X -> end_ X < start N;
  pa_mid x X : x ∈ mid -> m !! x = Some X -> within X;
  pa_right x X : x ∈ l2 -> m !! x = Some X -> end_ N < start X }.

(** The place where the new range goes, and the outcome. *)
Definition placed (p : Z) (o : option Z * mem) : Prop :=
  exists l, C !! p = Some l /\ (forall x X, x ∈ l -> m !! x = Some X -> ~ around X) /\
  ((exists l1 mid l2, parted l l1 mid l2 /\ o = (None, wrap m p new l1 mid l2)) \/
   (exists t T, t ∈ l /\ m !! t = Some T /\ overlap (start N) (end_ N) (start T) (end_ T) /\ ~ within T /\ o = (Some t, m))).

Lemma cover_loop_ok p k : forall fuel a x X, C !! p = Some (a ++ x :: k) -> m !! x = Some X -> overlap (start N) (end_ N) (start X) (end_ X) -> (length k < fuel)%nat ->
  (exists t T, t ∈ x :: k /\ m !! t = Some T /\ overlap (start N) (end_ N) (start T) (end_ T) /\ ~ within T /\ cover_loop fuel m N x = Ok (inl t)) \/
  (exists mid l2, k = mid ++ l2 /\ (forall y Y, y ∈ x :: mid -> m !! y = Some Y -> within Y) /\ (forall y Y, y ∈ l2 -> m !! y = Some Y -> end_ N < start Y) /\ cover_loop fuel m N x = Ok (inr (default x (last mid)))).
Proof.
  induction k as [|z k IH]; intros fuel a x X Hp HX Ho Hf; (destruct fuel as [|fuel]; [cbn in Hf; lia|]); cbn [cover_loop]; rewrite (get_ok m x X HX); cbn [res_bind];
    (destruct ((start X <? start N) || (end_ N <? end_ X)) eqn:Eb; [left; exists x, X; split; [apply elem_of_cons; auto|]; split; [done|]; split; [done|]; split; [|done]; intros [H1 H2]; apply orb_true_iff in Eb as [Eb|Eb]; apply Z.ltb_lt in Eb; lia|]);
    apply orb_false_iff in Eb as [E1%Z.ltb_ge E2%Z.ltb_ge]; destruct (ln_link _ _ (proj1 HT) p a x _ Hp) as (X' & HX' & _ & Es); (assert (X' = X) as -> by congruence); rewrite Es; cbn [head];
    (assert (Hw : forall y Y, y ∈ [x] -> m !! y = Some Y -> within Y) by (intros y Y Hy HY; apply list_elem_of_singleton in Hy as ->; assert (Y = X) as -> by congruence; split; lia)).
  - right. exists [], []. split; [done|]. split; [done|]. split; [|done]. intros y Y Hy. by apply elem_of_nil in Hy.
  - assert (Hp' : C !! p = Some ((a ++ [x]) ++ z :: k)) by (by rewrite Hp, <- app_assoc). destruct (tree_kid HT p _ z Hp') as (W & HW & _ & Rz & _); [rewrite elem_of_app, elem_of_cons; auto|]. rewrite (get_ok m z W HW). cbn [res_bind].
    pose proof (or_sorted _ _ (proj2 HT) p _ Hp) as HS. apply StronglySorted_app_1_r, StronglySorted_cons in HS as [HS1 HS]. apply StronglySorted_cons in HS as [HS2 _]. rewrite Forall_forall in HS1, HS2.
    pose proof (HS1 z ltac:(apply elem_of_cons; auto) _ _ _ _ (get_rng m x X HX) (get_rng m z W HW)) as Hxz. destruct Ho as [Ho1 Ho2]. destruct (Z.ltb_spec (end_ N) (start W)) as [E3|E3].
    + right. exists [], (z :: k). split; [done|]. split; [done|]. split; [|done]. intros y Y Hy HY. apply elem_of_cons in Hy as [->|Hy]; [assert (Y = W) as -> by congruence; done|]. pose proof (HS2 y Hy _ _ _ _ (get_rng m z W HW) (get_rng m y Y HY)). lia.
    + destruct (IH fuel (a ++ [x]) z W Hp' HW) as [(t & T & Ht & HTt & Hov & Hnw & E)|(mid & l2 & -> & HI & HR & E)]; [split; lia|cbn in Hf; lia| |].
      * left. exists t, T. split; [apply elem_of_cons; auto|]. done.
      * right. exists (z :: mid), l2. split; [done|]. split; [intros y Y Hy HY; apply elem_of_cons in Hy as [->|Hy]; [apply (Hw x); [apply list_elem_of_singleton; done|done]|by apply (HI y)]|]. split; [done|]. by rewrite E, default_last.
Qed.

Lemma leads_ends k z : forall m0 v, leads_to m0 k v -> last k = Some z -> NoDup k -> chained (upd m0 z (fun X => set_sibling X None)) k.
Proof.
  induction k as [|x k IH]; intros m0 v Hk Hz Hn; [done|]. destruct Hk as [(X & HX & Es) Hk]. apply NoDup_cons in Hn as [Hx Hn]. destruct k as [|y k].
  - cbn in Hz. injection Hz as <-. split; [|done]. rewrite lookup_upd, HX. eexists. split; [done|]. cbn. by rewrite Z.eqb_refl.
  - split; [|by apply (IH m0 v)]. rewrite lookup_upd, HX. eexists. split; [done|]. cbn. rewrite (proj2 (Z.eqb_neq x z)); [done|]. intros ->. apply Hx. change (last (z :: y :: k)) with (last (y :: k)) in Hz. apply last_Some in Hz as [k' ->]. rewrite elem_of_app, list_elem_of_singleton. auto.
Qed.

(** The writes of [__insert_resource] put the new resource around [f :: rest]. *)
Lemma splice_ok p l1 f rest l2 z : C !! p = Some (l1 ++ (f :: rest) ++ l2) -> z = default f (last rest) ->
  (X <-- get m z; m <-- modify m new (fun N => set_child (set_sibling (set_parent N (Some p)) (sibling X)) (Some f)); m <-- modify m z (fun X => set_sibling X None); m <-- adopt_loop (turns m) m (Some f) new; P <-- get m p;
   m <-- (if bool_decide (child P = Some f) then modify m p (fun P => set_child P (Some new)) else match child P with None => Fault OutOfBounds | Some c => b <-- before_loop (turns m) m c f; modify m b (fun X => set_sibling X (Some new)) end); Ok (@None Z, m))
  = Ok (None, wrap m p new l1 (f :: rest) l2).
Proof.
  intros Hp Ez. assert (El := last_cons_default f rest). rewrite <- Ez in El. set (mid := f :: rest) in *. destruct (disjoint_parts HT Hp) as (N1 & N2 & N3 & D1 & D2). destruct (new_fresh HT Hnew p _ Hp) as [Hpn Hnl]. rewrite !elem_of_app in Hnl.
  assert (Hzm : z ∈ mid) by (apply last_Some in El as [k ->]; rewrite elem_of_app, list_elem_of_singleton; auto). assert (Hlead : leads_to m mid (head l2)) by exact (leads_kids m C p l1 mid l2 HT Hp).
  destruct (ln_node _ _ (proj1 HT) p _ Hp) as (P & HP & EP). assert (Hsz : exists X, m !! z = Some X /\ sibling X = head l2).
  { apply last_Some in El as [k Ek]. destruct (ln_link _ _ (proj1 HT) p (l1 ++ k) z l2) as (X & HX & _ & Es); [by rewrite Hp, Ek, <- !app_assoc|]. by exists X. }
  destruct Hsz as (Xz & HXz & Esz). rewrite (get_ok m z Xz HXz). cbn [res_bind]. rewrite Esz, modify_upd by (by exists N). cbn [res_bind]. set (m1 := upd m new _). assert (Hzn : z <> new) by (intros ->; tauto).
  rewrite modify_upd by (unfold m1; rewrite lookup_upd, HXz; by eexists). cbn [res_bind]. set (m2 := upd m1 z _).
  assert (Hch : chained m2 mid) by (apply (leads_ends mid z m1 (head l2)); [|done|done]; apply (leads_same m); [|done]; intros x Hx; unfold m1; rewrite lookup_upd, (proj2 (Z.eqb_neq x new)) by (intros ->; tauto); by destruct (m !! x)).
  assert (Ead : adopt_loop (turns m2) m2 (Some f) new = Ok (set_parents m2 mid (Some new))) by (refine (adopt_loop_ok new mid _ _ Hch _); unfold m2, m1; rewrite !turns_upd; pose proof (kids_length HT p _ Hp) as Hl; rewrite !length_app in Hl; lia).
  rewrite Ead. cbn [res_bind]. set (m3 := set_parents m2 mid (Some new)).
  assert (H3 : forall x, x <> new -> x <> z -> x ∉ mid -> m3 !! x = m !! x) by (intros x Ha Hb Hm; unfold m3, m2, m1; rewrite lookup_set_parents, !lookup_upd, (proj2 (Z.eqb_neq x new)), (proj2 (Z.eqb_neq x z)) by done; unfold with_parent; rewrite bool_decide_false by done; by destruct (m !! x)).
  assert (Hpl : p ∉ l1 ++ mid ++ l2) by exact (not_own_kid HT p _ Hp). rewrite !elem_of_app in Hpl. assert (HP3 : m3 !! p = Some P) by (rewrite H3; [done|done|intros ->; tauto|tauto]). rewrite (get_ok m3 p P HP3). cbn [res_bind]. rewrite EP.
  assert (H3l : forall x, x ∈ l1 -> m3 !! x = m !! x) by (intros x Hx; destruct (D1 x Hx); apply H3; [intros ->; tauto|intros ->; done|done]).
  assert (Est : (if bool_decide (head (l1 ++ mid ++ l2) = Some f) then modify m3 p (fun P => set_child P (Some new)) else match head (l1 ++ mid ++ l2) with None => Fault OutOfBounds | Some c => b <-- before_loop (turns m3) m3 c f; modify m3 b (fun X => set_sibling X (Some new)) end) = store m3 (slot_of p l1) (Some new)).
  { unfold slot_of. destruct l1 as [|c r]; cbn [head app]; [by rewrite bool_decide_true|]. assert (Hfm : f ∈ mid) by (apply elem_of_cons; auto). assert (Hfl : f ∉ c :: r) by (intros Hx; by destruct (D1 f Hx)). rewrite bool_decide_false by (intros [= ->]; apply Hfl, elem_of_cons; auto).
    rewrite (before_loop_ok m3 f r); [by rewrite last_cons_default| |intros Hx; apply Hfl, elem_of_cons; auto|unfold m3; rewrite turns_set_parents; unfold m2, m1; rewrite !turns_upd; pose proof (kids_length HT p _ Hp) as Hl; cbn in Hl; rewrite !length_app in Hl; lia].
    apply (leads_same m); [intros x Hx; by rewrite H3l|]. exact (leads_kids m C p [] (c :: r) (mid ++ l2) HT Hp). }
  rewrite Est, store_slot; [|by exists P|intros x Hx; rewrite H3l by done; destruct (tree_kid HT p _ x Hp) as (X & HX & _); [rewrite elem_of_app; auto|by exists X]]. cbn [res_bind]. do 2 f_equal. apply map_eq. intros x.
  unfold m3, m2, m1. rewrite lookup_put_slot, lookup_set_parents, !lookup_upd, lookup_wrap. destruct (m !! x) as [X|]; [|done]. cbn -[mid]. f_equal. unfold in_slot, with_parent, wrap_at. assert (Elm : is_last mid x = (x =? z)) by (unfold is_last; rewrite El; destruct (Z.eqb_spec x z) as [->|Hxz]; [by apply bool_decide_true|apply bool_decide_false; congruence]). rewrite Elm.
  destruct (Z.eqb_spec x new) as [->|Hxn]; [rewrite (proj2 (Z.eqb_neq new z)) by congruence; rewrite (bool_decide_false (new ∈ mid)) by tauto; rewrite (not_last l1) by tauto; rewrite (proj2 (Z.eqb_neq new p)) by congruence; done|].
  destruct (Z.eqb_spec x z) as [->|Hxz]; [rewrite (bool_decide_true (z ∈ mid)) by done; rewrite (not_last l1) by (intros Hx; by destruct (D1 z Hx)); done|]. by destruct (bool_decide (x ∈ mid)).
Qed.

(** What the descent finds below [par]. *)
Definition descended (par : Z) (o : (option Z + (Z * Z)) * mem) : Prop :=
  exists p l, rtc down par p /\ C !! p = Some l /\ (forall x X, x ∈ l -> m !! x = Some X -> ~ around X) /\
  ((exists l1 l2, parted l l1 [] l2 /\ o = (inl None, wrap m p new l1 [] l2)) \/
   (exists l1 f rest F, l = l1 ++ f :: rest /\ (forall x X, x ∈ l1 -> m !! x = Some X -> end_ X < start N) /\ m !! f = Some F /\ overlap (start N) (end_ N) (start F) (end_ F) /\ o = (inr (p, f), m))).

Lemma descend_done (rank : Z -> nat) : (forall p l x, C !! p = Some l -> x ∈ l -> (rank x < rank p)%nat) -> forall fuel v par l P, C !! par = Some l -> m !! par = Some P -> start P <= start N -> end_ N <= end_ P ->
  NoDup v -> (forall y, y ∈ v -> is_Some (m !! y) /\ (rank par < rank y)%nat) -> (fuel + length v = turns m)%nat -> exists o, insert_descend fuel m par new = Ok o /\ descended par o.
Proof.
  intros Hrank. induction fuel as [|fuel IH]; intros v par l P Hl HP H1 H2 Hv Hin Hf.
  { exfalso. assert (Hs : (length v <= size m)%nat); [|unfold turns in Hf; lia]. rewrite <- (size_list_to_set (C := gset Z) _ Hv), <- (size_dom (D := gset Z) m). apply subseteq_size. intros y Hy%elem_of_list_to_set. apply elem_of_dom. by apply Hin. }
  cbn [insert_descend]. destruct (request_ok HT Hnew HN Hc l P Hl HP) as (o & -> & Ho). unfold answered in Ho. rewrite (proj2 (Z.leb_le (start P) (start N))), (proj2 (Z.leb_le (start N) (end_ N))), (proj2 (Z.leb_le (end_ N) (end_ P))) in Ho by lia. cbn [andb] in Ho.
  destruct Ho as [(l1 & l2 & El & HL & HR & ->)|(l1 & f & l2 & F & El & HL & HF & Ho & ->)]; cbn [res_bind].
  - eexists. split; [done|]. exists par, l. split; [constructor|]. split; [done|]. split; [|left; exists l1, l2; split; [split; [done|done|intros x X Hx; by apply elem_of_nil in Hx|done]|done]].
    intros x X Hx HX [A1 [A2 _]]. rewrite El, elem_of_app in Hx. destruct Hx as [Hx|Hx]; [specialize (HL x X Hx HX); lia|specialize (HR x X Hx HX); lia].
  - assert (Hfl : f ∈ l) by (rewrite El, elem_of_app, elem_of_cons; auto). destruct (tree_kid HT par l f Hl Hfl) as (F' & HF' & _ & Rf & _ & [lf Hlf]). assert (F' = F) as -> by congruence. rewrite (proj2 (Z.eqb_neq f par)) by (intros ->; by apply (not_own_kid HT par l Hl)). rewrite (proj2 (Z.eqb_neq f new)) by congruence. cbn [orb].
    rewrite (get_ok m f F HF), (get_ok m new N HN). cbn [res_bind]. destruct (_ || _ || _) eqn:Eb.
    + eexists. split; [done|]. exists par, l. split; [constructor|]. split; [done|]. split; [|right; by exists l1, f, l2, F].
      intros x X Hx HX (A1 & A2 & A3). rewrite El, elem_of_app, elem_of_cons in Hx. destruct Hx as [Hx|[->|Hx]]; [specialize (HL x X Hx HX); lia| |].
      * assert (X = F) as -> by congruence. apply orb_true_iff in Eb as [[Eb|Eb]%orb_true_iff|[Eb1 Eb2]%andb_true_iff]; [apply Z.ltb_lt in Eb; lia|apply Z.ltb_lt in Eb; lia|apply Z.eqb_eq in Eb1, Eb2; tauto].
      * pose proof (or_sorted _ _ (proj2 HT) par _ Hl) as HS. rewrite El in HS. apply StronglySorted_app_1_r, StronglySorted_cons in HS as [HS _]. rewrite Forall_forall in HS. specialize (HS x Hx _ _ _ _ (get_rng m f F HF) (get_rng m x X HX)). destruct Ho. lia.
    + apply orb_false_iff in Eb as [[E1%Z.ltb_ge E2%Z.ltb_ge]%orb_false_iff E3]. assert (Ha : around F) by (split; [lia|]; split; [lia|]; intros [A1 A2]; rewrite A1, A2, !Z.eqb_refl in E3; done).
      destruct (IH (par :: v) f lf F Hlf HF E1 E2) as (o & E & p & k & Hrt & Hrest).
      * apply NoDup_cons. split; [|done]. intros Hx. destruct (Hin par Hx). lia.
      * intros y Hy. specialize (Hrank par l f Hl Hfl). apply elem_of_cons in Hy as [->|Hy]; [split; [by exists P|done]|]. destruct (Hin y Hy). split; [done|lia].
      * cbn. lia.
      * exists o. split; [done|]. exists p, k. split; [|done]. apply (rtc_l _ par f); [|done]. by exists l, F.
Qed.

Lemma insert_ok root l R : C !! root = Some l -> m !! root = Some R ->
  exists o, __insert_resource m root new = Ok o /\ if (start R <=? start N) && (end_ N <=? end_ R) then exists p, rtc down root p /\ placed p o else o = (Some root, m).
Proof.
  intros Hr HR. unfold __insert_resource. destruct ((start R <=? start N) && (end_ N <=? end_ R)) eqn:Eb.
  - apply andb_true_iff in Eb as [E1%Z.leb_le E2%Z.leb_le]. destruct (ln_rank _ _ (proj1 HT)) as [rank Hrank]. destruct (descend_done rank Hrank (turns m) [] root l R Hr HR E1 E2) as (o & -> & p & k & Hrt & Hk & Hna & Hcase); [by apply NoDup_nil|intros y Hy; by apply elem_of_nil in Hy|cbn [length]; lia|].
    destruct Hcase as [(l1 & l2 & HPa & ->)|(l1 & f & rest & F & El & HL & HF & Ho & ->)]; cbn [res_bind].
    + eexists. split; [done|]. exists p. split; [done|]. exists k. split; [done|]. split; [done|]. left. by exists l1, [], l2.
    + rewrite (get_ok m new N HN). cbn [res_bind]. assert (Hk' := Hk). rewrite El in Hk'. destruct (cover_loop_ok p rest (turns m) l1 f F Hk' HF Ho) as [(t & T & Ht & HTt & Hov & Hnw & ->)|(mid & l2 & Er & HI & HR2 & ->)]; [pose proof (kids_length HT p _ Hk') as Hl; rewrite length_app in Hl; cbn in Hl; lia| |]; cbn [res_bind].
      * eexists. split; [done|]. exists p. split; [done|]. exists k. split; [done|]. split; [done|]. right. exists t, T. split; [rewrite El, elem_of_app; auto|]. done.
      * rewrite Er in Hk'. rewrite (splice_ok p l1 f mid l2 _ Hk' eq_refl). eexists. split; [done|]. exists p. split; [done|]. exists k. split; [done|]. split; [done|]. left. exists l1, (f :: mid), l2. split; [|done]. split; [by rewrite El, Er|done|done|done].
  - unfold turns. cbn [insert_descend]. destruct (request_ok HT Hnew HN Hc l R Hr HR) as (o & -> & Ho). unfold answered in Ho. rewrite (proj2 (Z.leb_le (start N) (end_ N))), andb_true_r, Eb in Ho by lia. rewrite Ho. cbn [res_bind]. rewrite Z.eqb_refl. cbn. by eexists.
Qed.

(** The place found is a tree again. *)
Lemma placed_tree p l l1 mid l2 : C !! p = Some l -> (forall P, m !! p = Some P -> start P <= start N /\ end_ N <= end_ P) -> end_ N < 4294967296 -> parted l l1 mid l2 -> tree (wrap m p new l1 mid l2) (wrapped_kids (C := C) (p := p) (new := new) (l1 := l1) (mid := mid) (l2 := l2)).
Proof.
  intros Hp HP He [-> HL HM HR]. apply (wrap_tree (N := N) HT Hp Hnew HN). split.
  - lia.
  - intros s e Hs. apply rng_get in Hs as (X & HX & <- & <-). by apply HP.
  - intros x s e Hx Hs. apply rng_get in Hs as (X & HX & <- & <-). by apply (HL x).
  - intros x s e Hx Hs. apply rng_get in Hs as (X & HX & <- & <-). by apply (HM x).
  - intros x s e Hx Hs. apply rng_get in Hs as (X & HX & <- & <-). by apply (HR x).
Qed.

Lemma down_covers root p P R : m !! root = Some R -> start R <= start N -> end_ N <= end_ R -> rtc down root p -> m !! p = Some P -> start P <= start N /\ end_ N <= end_ P.
Proof.
  intros HR H1 H2 Hd HP. apply rtc_inv_r in Hd as [->|(q & _ & l & X & _ & _ & HX & A1 & A2 & _)]; [assert (P = R) as -> by congruence; lia|]. assert (P = X) as -> by congruence. lia.
Qed.
End Insert.
