(* ===== verification/ResourceAdjust.v ===== *)
(** * Changing the range of a resource (kernel/resource.c) *)

From stdpp Require Import gmap list sorting.
From S2P Require Import Prelude Resource ResourceTree ResourceOps.
Local Open Scope Z_scope.
Local Open Scope res_scope.

Section Adjust.
Context {m : mem} {C : kids} {r : Z} {R : resource} {own : list Z} (HT : tree m C) (Hr : C !! r = Some own) (HR : m !! r = Some R) (s e : Z).

(** The range from [s] to [e] is inside the parent and between the siblings, and covers the children. *)
Definition room_for : Prop :=
  (forall p P, parent R = Some p -> m !! p = Some P -> start P <= s /\ e <= end_ P) /\
  (forall p l1 l2, C !! p = Some (l1 ++ r :: l2) -> (forall x X, x ∈ l1 -> m !! x = Some X -> end_ X < s) /\ (forall x X, x ∈ l2 -> m !! x = Some X -> e < start X)) /\
  (forall x X, x ∈ own -> m !! x = Some X -> s <= start X /\ end_ X <= e).

Lemma covers_loop_ok k : forall fuel, chained m k -> (length k < fuel)%nat -> exists b : bool, covers_loop fuel m (head k) s e = Ok b /\ (b = true <-> forall x X, x ∈ k -> m !! x = Some X -> s <= start X /\ end_ X <= e).
Proof.
  induction k as [|x k IH]; intros fuel Hk Hf; (destruct fuel as [|fuel]; [cbn in Hf; lia|]); cbn [covers_loop head].
  - exists true. split; [done|]. split; [intros _ x X Hx; by apply elem_of_nil in Hx|done].
  - destruct Hk as [(X & HX & Es) Hk]. rewrite (get_ok m x X HX). cbn [res_bind]. destruct (_ || _) eqn:Eb.
    + exists false. split; [done|]. split; [done|]. intros H. specialize (H x X ltac:(apply elem_of_cons; auto) HX). apply orb_true_iff in Eb as [Eb|Eb]; apply Z.ltb_lt in Eb; lia.
    + apply orb_false_iff in Eb as [E1%Z.ltb_ge E2%Z.ltb_ge]. rewrite Es. destruct (IH fuel Hk ltac:(cbn in Hf; lia)) as (b & E & Hb). exists b. split; [done|]. rewrite Hb. split; intros H y Y Hy HY; [apply elem_of_cons in Hy as [->|Hy]; [assert (Y = X) as -> by congruence; lia|by apply (H y)]|apply (H y); [apply elem_of_cons; auto|done]].
Qed.

Lemma sorted_sides p l1 x l2 X : C !! p = Some (l1 ++ x :: l2) -> m !! x = Some X -> (forall y Y, y ∈ l1 -> m !! y = Some Y -> end_ Y < start X) /\ (forall y Y, y ∈ l2 -> m !! y = Some Y -> end_ X < start Y).
Proof.
  intros Hp HX. pose proof (or_sorted _ _ (proj2 HT) p _ Hp) as HS. rewrite StronglySorted_app, StronglySorted_cons, Forall_forall in HS. destruct HS as (S1 & _ & S2 & _). split; intros y Y Hy HY.
  - exact (S1 y x Hy ltac:(apply elem_of_cons; auto) _ _ _ _ (get_rng m y Y HY) (get_rng m x X HX)).
  - exact (S2 y Hy _ _ _ _ (get_rng m x X HX) (get_rng m y Y HY)).
Qed.

(** The neighbours decide for all siblings. *)
Lemma neighbours_decide p l1 l2 : C !! p = Some (l1 ++ r :: l2) -> s <= e ->
  (forall x X, head l2 = Some x -> m !! x = Some X -> e < start X) -> (forall x X, last l1 = Some x -> m !! x = Some X -> end_ X < s) -> (forall x X, x ∈ l1 -> m !! x = Some X -> end_ X < s) /\ (forall x X, x ∈ l2 -> m !! x = Some X -> e < start X).
Proof.
  intros Hp Hse Hright Hleft. split; intros x X Hx HX.
  - destruct (last l1) as [y|] eqn:El; [|by apply last_None in El as ->; apply elem_of_nil in Hx]. assert (El' := El). apply last_Some in El' as [k ->]. apply elem_of_app in Hx as [Hx|Hx]; [|apply list_elem_of_singleton in Hx as ->; by apply (Hleft y)].
    rewrite <- app_assoc in Hp. cbn [app] in Hp. destruct (tree_kid HT p _ y Hp) as (Y & HY & _ & Ry & _); [rewrite elem_of_app, elem_of_cons; auto|]. destruct (sorted_sides p k y (r :: l2) Y Hp HY) as [S1 _]. specialize (S1 x X Hx HX). specialize (Hleft y Y eq_refl HY). lia.
  - destruct l2 as [|y k]; [by apply elem_of_nil in Hx|]. apply elem_of_cons in Hx as [->|Hx]; [by apply (Hright y)|]. assert (Hp' : C !! p = Some ((l1 ++ [r]) ++ y :: k)) by (by rewrite Hp, <- app_assoc).
    destruct (tree_kid HT p _ y Hp') as (Y & HY & _ & Ry & _); [rewrite elem_of_app, elem_of_cons; auto|]. destruct (sorted_sides p _ y k Y Hp' HY) as [_ S2]. specialize (S2 x X Hx HX). specialize (Hright y Y eq_refl HY). lia.
Qed.

Lemma fits_between_ok : s <= e -> exists b : bool, fits_between m r s e = Ok b /\
  (b = true <-> (forall p P, parent R = Some p -> m !! p = Some P -> start P <= s /\ e <= end_ P) /\ forall p l1 l2, C !! p = Some (l1 ++ r :: l2) -> (forall x X, x ∈ l1 -> m !! x = Some X -> end_ X < s) /\ (forall x X, x ∈ l2 -> m !! x = Some X -> e < start X)).
Proof.
  intros Hse. unfold fits_between. rewrite (get_ok m r R HR). cbn [res_bind]. destruct (parent R) as [p|] eqn:Ep.
  2:{ exists true. split; [done|]. split; [|done]. intros _. split; [done|]. intros p l1 l2 Hp. destruct (ln_link _ _ (proj1 HT) p l1 r l2 Hp) as (R' & HR' & E & _). congruence. }
  destruct (ln_parent _ _ (proj1 HT) r own R p Hr HR Ep) as (l & Hp & Hin). apply list_elem_of_split in Hin as (l1 & l2 & ->). destruct (ln_node _ _ (proj1 HT) p _ Hp) as (P & HP & EP). rewrite (get_ok m p P HP). cbn [res_bind].
  destruct (ln_link _ _ (proj1 HT) p l1 r l2 Hp) as (R' & HR' & _ & Es). assert (R' = R) as -> by congruence.
  assert (Hq : forall q k1 k2, C !! q = Some (k1 ++ r :: k2) -> q = p /\ k1 = l1 /\ k2 = l2).
  { intros q k1 k2 Hq. destruct (ln_link _ _ (proj1 HT) q k1 r k2 Hq) as (R' & HR'' & E & _). assert (q = p) as -> by congruence. rewrite Hp in Hq. injection Hq as Hq. pose proof (kids_nodup HT p _ Hp) as Hn. pose proof (nodup_split l1 l2 k1 k2 r Hn Hq) as <-. apply app_inv_tail in Hq. done. }
  assert (Hfalse : forall Q : Prop, ~ Q -> exists b : bool, Ok false = Ok b /\ (b = true <-> Q)) by (intros Q HQ; exists false; split; [done|]; split; [done|tauto]).
  destruct ((s <? start P) || (end_ P <? e)) eqn:Eb; [apply Hfalse; intros [H _]; specialize (H p P eq_refl HP); apply orb_true_iff in Eb as [Eb|Eb]; apply Z.ltb_lt in Eb; lia|]. apply orb_false_iff in Eb as [E1%Z.ltb_ge E2%Z.ltb_ge]. rewrite Es.
  assert (Hin2 : forall x, head l2 = Some x -> exists X, m !! x = Some X) by (intros x Hx; destruct l2 as [|y k]; [done|]; injection Hx as ->; destruct (tree_kid HT p _ x Hp) as (X & HX & _); [rewrite elem_of_app, !elem_of_cons; auto|eauto]).
  assert (Hright : exists b : bool, (match head l2 with None => Ok true | Some x => X <-- get m x; Ok (negb (start X <=? e)) end) = Ok b /\ (b = true <-> forall x X, head l2 = Some x -> m !! x = Some X -> e < start X)).
  { destruct (head l2) as [x|] eqn:Eh; [|by exists true]. destruct (Hin2 x eq_refl) as (X & HX). rewrite (get_ok m x X HX). cbn [res_bind]. eexists. split; [done|]. rewrite negb_true_iff, Z.leb_gt. split; [intros H y Y [= <-] HY; assert (Y = X) as -> by congruence; lia|intros H; by apply (H x X)]. }
  destruct Hright as (b & -> & Hb). cbn [res_bind]. destruct b; cbn [negb]; [|apply Hfalse; intros [_ H]; destruct (H p l1 l2 Hp) as [_ H2]; assert (false = true) by (apply Hb; intros x X Hx; apply H2; destruct l2; [done|]; injection Hx as ->; apply elem_of_cons; auto); done].
  rewrite EP. assert (Hpar : forall p0 P0, Some p = Some p0 -> m !! p0 = Some P0 -> start P0 <= s /\ e <= end_ P0) by (intros p0 P0 [= <-] HP0; assert (P0 = P) as -> by congruence; lia).
  destruct l1 as [|c k]; cbn [head app].
  - rewrite Z.eqb_refl. exists true. split; [done|]. split; [|done]. intros _. split; [exact Hpar|]. intros q k1 k2 Hq'. destruct (Hq q k1 k2 Hq') as (-> & -> & ->). apply (neighbours_decide p [] l2 Hp Hse); [by apply Hb|done].
  - assert (Hcr : c <> r) by (intros ->; pose proof (kids_nodup HT p _ Hp) as Hn; cbn in Hn; apply NoDup_cons in Hn as [Hn _]; apply Hn; rewrite elem_of_app, elem_of_cons; auto). rewrite (proj2 (Z.eqb_neq c r)) by done.
    rewrite (before_loop_ok m r k); [|exact (leads_kids m C p [] (c :: k) (r :: l2) HT Hp)|intros Hk; pose proof (kids_nodup HT p _ Hp) as Hn; cbn in Hn; apply NoDup_cons in Hn as [_ Hn]; apply NoDup_app in Hn as (_ & Hn & _); apply (Hn r Hk), elem_of_cons; auto|pose proof (kids_length HT p _ Hp) as Hl; cbn in Hl; rewrite length_app in Hl; lia]. cbn [res_bind].
    pose proof (last_cons_default c k) as El. set (z := default c (last k)) in *. destruct (tree_kid HT p _ z Hp) as (X & HX & _); [apply last_Some in El as [k' Ek]; rewrite Ek, !elem_of_app, list_elem_of_singleton; auto|]. rewrite (get_ok m z X HX). cbn [res_bind]. eexists. split; [done|]. rewrite negb_true_iff, Z.leb_gt. split.
    + intros Hz. split; [exact Hpar|]. intros q k1 k2 Hq'. destruct (Hq q k1 k2 Hq') as (-> & -> & ->). apply (neighbours_decide p (c :: k) l2 Hp Hse); [by apply Hb|]. intros y Y Ey HY. rewrite El in Ey. injection Ey as <-. assert (Y = X) as -> by congruence. lia.
    + intros [_ H]. destruct (H p (c :: k) l2 Hp) as [H1 _]. apply (H1 z X); [|done]. apply last_Some in El as [k' ->]. rewrite elem_of_app, list_elem_of_singleton. auto.
Qed.

Lemma sorted_on m' k : (forall x, x ∈ k -> rng m' x = rng m x) -> StronglySorted (before m) k -> StronglySorted (before m') k.
Proof.
  induction k as [|x k IH]; intros Hk; [constructor|]. rewrite !StronglySorted_cons, !Forall_forall. intros [F1 F2]. split; [|apply IH; [intros y Hy; apply Hk, elem_of_cons; auto|done]]. intros y Hy a b a' b'. rewrite !Hk by (apply elem_of_cons; auto). by apply F1.
Qed.

(** The tree with the new range. *)
Lemma adjusted_tree : 0 <= s <= e -> e < 4294967296 -> room_for -> tree (upd m r (fun R => set_range R s e)) C.
Proof.
  intros Hs He (Q1 & Q2 & Q3). set (m' := upd m r _).
  assert (Hl : forall x X, m !! x = Some X -> exists X', m' !! x = Some X' /\ parent X' = parent X /\ sibling X' = sibling X /\ child X' = child X) by (intros x X HX; unfold m'; rewrite lookup_upd, HX; eexists; split; [done|]; by destruct (x =? r)).
  assert (Hb : forall x X', m' !! x = Some X' -> exists X, m !! x = Some X /\ parent X' = parent X) by (intros x X' HX; unfold m' in HX; rewrite lookup_upd in HX; destruct (m !! x) as [X|]; [|done]; injection HX as <-; exists X; split; [done|]; by destruct (x =? r)).
  assert (Er : rng m' r = Some (s, e)) by (unfold m', rng; rewrite lookup_upd, HR, Z.eqb_refl; done). assert (En : forall x, x <> r -> rng m' x = rng m x) by (intros x Hx; unfold m', rng; rewrite lookup_upd, (proj2 (Z.eqb_neq x r)) by done; by destruct (m !! x)).
  split; [split|split].
  - intros x l Hx. destruct (ln_node _ _ (proj1 HT) x l Hx) as (X & HX & E). destruct (Hl x X HX) as (X' & HX' & _ & _ & E'). exists X'. split; [done|congruence].
  - intros p l1 x l2 Hp. destruct (ln_link _ _ (proj1 HT) p l1 x l2 Hp) as (X & HX & E1 & E2). destruct (Hl x X HX) as (X' & HX' & E1' & E2' & _). exists X'. split; [done|]. split; congruence.
  - apply (ln_in _ _ (proj1 HT)).
  - intros x l X' p Hx HX' Ep. destruct (Hb x X' HX') as (X & HX & E). apply (ln_parent _ _ (proj1 HT) x l X p Hx HX). congruence.
  - apply (ln_rank _ _ (proj1 HT)).
  - intros x l a b Hx. destruct (decide (x = r)) as [->|Hxr]; [rewrite Er; intros [= <- <-]; lia|rewrite En by done; by apply (or_range _ _ (proj2 HT) x l)].
  - intros p l x a b a' b' Hp Hx. assert (Hrp : x = r -> p <> r) by (intros -> ->; by apply (not_own_kid HT r l Hp)). destruct (decide (p = r)) as [->|Hpr].
    + assert (l = own) as -> by congruence. assert (Hxr : x <> r) by tauto. rewrite Er, En by done. intros [= <- <-] Hab. apply rng_get in Hab as (X & HX & <- & <-). by apply (Q3 x).
    + rewrite (En p) by done. destruct (decide (x = r)) as [->|Hxr]; [|rewrite En by done; by apply (or_inside _ _ (proj2 HT) p l x)]. rewrite Er. intros Hab [= <- <-]. apply rng_get in Hab as (P & HP & <- & <-). apply (Q1 p P); [|done]. apply list_elem_of_split in Hx as (l1 & l2 & ->). destruct (ln_link _ _ (proj1 HT) p l1 r l2 Hp) as (R' & HR' & E & _). congruence.
  - intros p l Hp. pose proof (or_sorted _ _ (proj2 HT) p l Hp) as HS. destruct (decide (r ∈ l)) as [Hin|Hin].
    + apply list_elem_of_split in Hin as (l1 & l2 & ->). destruct (Q2 p l1 l2 Hp) as [H1 H2]. pose proof (kids_nodup HT p _ Hp) as Hn. apply NoDup_app in Hn as (_ & N1 & N2). apply NoDup_cons in N2 as [N2 _]. assert (Hl1 : forall x, x ∈ l1 -> x <> r) by (intros x Hx ->; apply (N1 r Hx), elem_of_cons; auto). assert (Hl2 : forall x, x ∈ l2 -> x <> r) by (intros x Hx ->; done).
      rewrite StronglySorted_app, StronglySorted_cons, Forall_forall in HS |- *. destruct HS as (S1 & S2 & S3 & S4).
      split; [|split; [apply sorted_on; auto|split; [|apply sorted_on; auto]]].
      * intros x y Hx Hy a b a' b'. rewrite (En x) by auto. apply elem_of_cons in Hy as [->|Hy]; [rewrite Er; intros Hab [= <- <-]; apply rng_get in Hab as (X & HX & <- & <-); by apply (H1 x)|rewrite En by auto; apply S1; [done|apply elem_of_cons; auto]].
      * intros y Hy a b a' b'. rewrite Er, En by auto. intros [= <- <-] Hab. apply rng_get in Hab as (X & HX & <- & <-). by apply (H2 y).
    + apply sorted_on; [|done]. intros x Hx. apply En. intros ->. done.
Qed.

Lemma adjust_ok size : e = u32 (s + size - 1) -> 0 <= s -> 0 < size -> s + size <= 4294967296 -> exists x, __adjust_resource m r s size = Ok (x, if x =? 0 then upd m r (fun R => set_range R s e) else m) /\ (x = 0 \/ x = - EBUSY) /\ (x = 0 <-> room_for).
Proof.
  intros Ee H0 H1 H2. rewrite u32_small in Ee by lia. unfold __adjust_resource. rewrite u32_small by lia. rewrite <- Ee. destruct (fits_between_ok ltac:(lia)) as (b & -> & Hb). cbn [res_bind].
  assert (Hno : ~ room_for -> exists x, Ok (- EBUSY, m) = Ok (x, if x =? 0 then upd m r (fun R => set_range R s e) else m) /\ (x = 0 \/ x = - EBUSY) /\ (x = 0 <-> room_for)) by (intros Hn; exists (- EBUSY); split; [done|]; split; [auto|]; split; [done|tauto]).
  destruct b; cbn [negb]; [|apply Hno; intros (Q1 & Q2 & _); assert (false = true) by (by apply Hb); done]. rewrite (get_ok m r R HR). cbn [res_bind]. destruct (ln_node _ _ (proj1 HT) r own Hr) as (R' & HR' & Ec). assert (R' = R) as -> by congruence. rewrite Ec.
  destruct (covers_loop_ok own (turns m) (chained_kids m C r [] own HT Hr) (kids_length HT r own Hr)) as (b & -> & Hb2). cbn [res_bind]. destruct b; [|apply Hno; intros (_ & _ & Q3); assert (false = true) by (by apply Hb2); done].
  rewrite modify_upd by (by exists R). cbn [res_bind]. exists 0. split; [done|]. split; [auto|]. split; [|done]. intros _. destruct (proj1 Hb eq_refl) as [Q1 Q2]. split; [done|]. split; [done|]. by apply Hb2.
Qed.
End Adjust.
