(* ===== verification/ResourceSpec.v ===== *)
(** * What the operations on the tree of resources promise (kernel/resource.c)

    The request and the release of a resource, insertion between levels and its inverse, and the tree as an invariant. *)

From stdpp Require Import gmap list sorting relations.
From S2P Require Import Prelude Resource ResourceTree ResourceOps ResourceAdjust.
Local Open Scope Z_scope.
Local Open Scope res_scope.

(** A resource that is not in the tree yet, with a range of its type. *)
Record detached (m : mem) (C : kids) (new : Z) (N : resource) : Prop := {
  fr_out : C !! new = None; fr_in : m !! new = Some N; fr_child : child N = None; fr_range : 0 <= start N <= end_ N /\ end_ N < 4294967296 }.

(** C23: A request succeeds exactly when the new range is inside the parent and shares no address with a child of it; the new resource is then a child, at its place in the order, and every range stays as it was.  Otherwise nothing changes and the answer is the parent, when the range is not inside it, or the lowest child in the way. *)
Theorem request_resource_correct m C root new l R N : tree m C -> C !! root = Some l -> m !! root = Some R -> detached m C new N ->
  exists answer m', __request_resource m root new = Ok (answer, m') /\
  let inside := start R <= start N /\ end_ N <= end_ R in
  match answer with
  | None => inside /\ (forall x X, x ∈ l -> m !! x = Some X -> ~ overlap (start N) (end_ N) (start X) (end_ X)) /\ same_ranges m m' /\ exists l1 l2, l = l1 ++ l2 /\ tree m' (<[root := l1 ++ new :: l2]> (<[new := []]> C))
  | Some t => m' = m /\ (~ inside /\ t = root \/ inside /\ exists T, t ∈ l /\ m !! t = Some T /\ overlap (start N) (end_ N) (start T) (end_ T) /\
      forall x X, x ∈ l -> m !! x = Some X -> overlap (start N) (end_ N) (start X) (end_ X) -> start T <= start X)
  end.
Proof.
  intros HT Hl HR [F1 F2 F3 [F4 F5]]. destruct (request_ok HT F1 F2 F3 l R Hl HR) as ([o m'] & E & Ho). exists o, m'. split; [done|]. unfold answered in Ho. rewrite (proj2 (Z.leb_le (start N) (end_ N))), andb_true_r in Ho by lia. destruct ((start R <=? start N) && (end_ N <=? end_ R)) eqn:Eb.
  - apply andb_true_iff in Eb as [E1%Z.leb_le E2%Z.leb_le]. destruct Ho as [(l1 & l2 & El & HL & HRt & Eo)|(l1 & t & l2 & T & El & HL & HTt & Hov & Eo)]; injection Eo as -> ->.
    + split; [done|]. split; [|split; [apply wrap_ranges|exists l1, l2; split; [done|]; subst l; by apply (wrap_request_tree HT F1 F2 (l1 ++ l2) R); try lia]].
      intros x X Hx HX [O1 O2]. rewrite El, elem_of_app in Hx. destruct Hx as [Hx|Hx]; [specialize (HL x X Hx HX)|specialize (HRt x X Hx HX)]; lia.
    + split; [done|]. right. split; [done|]. exists T. split; [rewrite El, elem_of_app, elem_of_cons; auto|]. split; [done|]. split; [done|]. intros x X Hx HX [O1 O2]. rewrite El, elem_of_app, elem_of_cons in Hx. destruct Hx as [Hx|[->|Hx]].
      * specialize (HL x X Hx HX). lia.
      * assert (X = T) as -> by congruence. lia.
      * rewrite El in Hl. destruct (sorted_sides HT root l1 t l2 T Hl HTt) as [_ S2]. specialize (S2 x X Hx HX). destruct (tree_kid HT root _ t Hl) as (T' & HT' & _ & Rt & _); [rewrite elem_of_app, elem_of_cons; auto|]. assert (T' = T) as -> by congruence. lia.
  - injection Ho as -> ->. split; [done|]. left. split; [|done]. intros [I1 I2]. apply andb_false_iff in Eb as [Eb|Eb]; apply Z.leb_gt in Eb; lia.
Qed.

(** C20: An insertion goes down from the parent through the resources that are around the new range, as deep as there are any.  There it succeeds exactly when it covers every child that it overlaps: these children become its children, it takes their place, and every range stays as it was.  Otherwise nothing changes and the answer is the parent, when the range is not inside it, or a child that is covered only in part. *)
Theorem insert_resource_correct m C root new l R N : tree m C -> C !! root = Some l -> m !! root = Some R -> detached m C new N ->
  exists answer m', __insert_resource m root new = Ok (answer, m') /\
  let inside := start R <= start N /\ end_ N <= end_ R in
  let deepest p k := rtc (down (m := m) (C := C) (N := N)) root p /\ C !! p = Some k /\ forall x X, x ∈ k -> m !! x = Some X -> ~ around (N := N) X in
  match answer with
  | None => inside /\ same_ranges m m' /\ exists p k l1 mid l2, deepest p k /\ parted (m := m) (N := N) k l1 mid l2 /\ tree m' (<[p := l1 ++ new :: l2]> (<[new := mid]> C))
  | Some t => m' = m /\ (~ inside /\ t = root \/ inside /\ exists p k T, deepest p k /\ t ∈ k /\ m !! t = Some T /\ overlap (start N) (end_ N) (start T) (end_ T) /\ ~ within (N := N) T)
  end.
Proof.
  intros HT Hl HR [F1 F2 F3 [F4 F5]]. destruct (insert_ok HT F1 F2 F3 F4 root l R Hl HR) as ([o m'] & E & Ho). exists o, m'. split; [done|]. destruct ((start R <=? start N) && (end_ N <=? end_ R)) eqn:Eb.
  - apply andb_true_iff in Eb as [E1%Z.leb_le E2%Z.leb_le]. destruct Ho as (p & Hd & k & Hk & Hna & [(l1 & mid & l2 & HP & Eo)|(t & T & Ht & HTt & Hov & Hnw & Eo)]); injection Eo as -> ->.
    + split; [done|]. split; [apply wrap_ranges|]. exists p, k, l1, mid, l2. split; [done|]. split; [done|]. apply (placed_tree HT F1 F2 F4 p k l1 mid l2 Hk); [|done|done]. intros P HP'. exact (down_covers root p P R HR E1 E2 Hd HP').
    + split; [done|]. right. split; [done|]. by exists p, k, T.
  - injection Ho as -> ->. split; [done|]. left. split; [|done]. intros [I1 I2]. apply andb_false_iff in Eb as [Eb|Eb]; apply Z.leb_gt in Eb; lia.
Qed.

(** Taking the new resource away again gives the pointers back. *)
Lemma unwrap_wrap m C p new l1 mid l2 x X : tree m C -> C !! p = Some (l1 ++ mid ++ l2) -> m !! x = Some X -> x <> new -> unwrap_at p new l1 mid l2 x (wrap_at p new l1 mid l2 x X) = X.
Proof.
  intros HT Hp HX Hx. unfold wrap_at. rewrite (proj2 (Z.eqb_neq x new)) by done. unfold unwrap_at. cbn -[head]. rewrite (proj2 (Z.eqb_neq x new)) by done. destruct X as [s e f d pa si ch]. cbn -[head]. f_equal.
  - destruct (bool_decide_reflect (x ∈ mid)) as [Hm|Hm]; [|done]. destruct (tree_kid HT p _ x Hp) as (X' & HX' & E & _); [rewrite !elem_of_app; auto|]. rewrite HX in HX'. injection HX' as <-. done.
  - destruct (is_last mid x) eqn:E1.
    + apply bool_decide_eq_true in E1. apply last_Some in E1 as [k Ek]. destruct (ln_link _ _ (proj1 HT) p (l1 ++ k) x l2) as (X' & HX' & _ & E); [by rewrite Hp, Ek, <- !app_assoc|]. rewrite HX in HX'. injection HX' as <-. done.
    + destruct (is_last l1 x) eqn:E2; [|done]. apply bool_decide_eq_true in E2. apply last_Some in E2 as [k Ek]. destruct (ln_link _ _ (proj1 HT) p k x (mid ++ l2)) as (X' & HX' & _ & E); [by rewrite Hp, Ek, <- !app_assoc|]. rewrite HX in HX'. injection HX' as <-. done.
  - destruct ((x =? p) && bool_decide (l1 = [])) eqn:E1; [|done]. apply andb_true_iff in E1 as [->%Z.eqb_eq E1%bool_decide_eq_true]. destruct (ln_node _ _ (proj1 HT) p _ Hp) as (X' & HX' & E). rewrite HX in HX'. injection HX' as <-. cbn in E. by rewrite E, E1.
Qed.

Lemma unwrap_wrap_kids (C : kids) p new l1 mid l2 : C !! p = Some (l1 ++ mid ++ l2) -> C !! new = None -> <[p := l1 ++ mid ++ l2]> (delete new (<[p := l1 ++ new :: l2]> (<[new := mid]> C))) = C.
Proof.
  intros Hp Hn. apply map_eq. intros x. destruct (decide (x = p)) as [->|Hx]; [by rewrite lookup_insert_eq|]. rewrite lookup_insert_ne by done. destruct (decide (x = new)) as [->|Hxn]; [by rewrite lookup_delete_eq|]. rewrite lookup_delete_ne, lookup_insert_ne, lookup_insert_ne by done. done.
Qed.

(** C21: Removing a resource that was inserted gives the tree back as it was: the children that moved down move up again to their places, and no other resource differs from what it was before the insertion. *)
Theorem insert_remove_roundtrip m C root new l R N m1 : tree m C -> C !! root = Some l -> m !! root = Some R -> detached m C new N -> __insert_resource m root new = Ok (None, m1) ->
  exists m2, remove_resource m1 new = Ok (0, m2) /\ delete new m2 = delete new m /\ tree m2 C /\ exists N2, m2 !! new = Some N2 /\ parent N2 = None /\ rng m2 new = rng m new.
Proof.
  intros HT Hl HR [F1 F2 F3 [F4 F5]] Ei. destruct (insert_ok HT F1 F2 F3 F4 root l R Hl HR) as (o & E & Ho). rewrite E in Ei. injection Ei as ->. destruct ((start R <=? start N) && (end_ N <=? end_ R)) eqn:Eb; [|done].
  apply andb_true_iff in Eb as [E1%Z.leb_le E2%Z.leb_le]. destruct Ho as (p & Hd & k & Hk & _ & [(l1 & mid & l2 & HP & Eo)|(t & T & _ & _ & _ & _ & Eo)]); [|done]. injection Eo as ->.
  assert (HT1 : tree (wrap m p new l1 mid l2) (wrapped_kids (C := C) (p := p) (new := new) (l1 := l1) (mid := mid) (l2 := l2))) by (apply (placed_tree HT F1 F2 F4 p k l1 mid l2 Hk); [|done|done]; intros P HP'; exact (down_covers root p P R HR E1 E2 Hd HP')).
  rewrite (pa_app _ _ _ _ HP) in Hk. destruct (new_fresh HT F1 p _ Hk) as [Hpn Hnl]. assert (Hp1 : wrapped_kids (C := C) (p := p) (new := new) (l1 := l1) (mid := mid) (l2 := l2) !! p = Some (l1 ++ new :: l2)) by apply lookup_insert_eq.
  assert (Hn1 : wrapped_kids (C := C) (p := p) (new := new) (l1 := l1) (mid := mid) (l2 := l2) !! new = Some mid) by (unfold wrapped_kids; by rewrite lookup_insert_ne, lookup_insert_eq by done).
  unfold remove_resource. rewrite (release_ok false HT1 Hp1 Hn1). eexists. split; [done|]. split; [|split].
  - apply map_eq. intros x. destruct (decide (x = new)) as [->|Hx]; [by rewrite !lookup_delete_eq|]. rewrite !lookup_delete_ne by done. rewrite lookup_unwrap, lookup_wrap. destruct (m !! x) as [X|] eqn:HX; [|done]. cbn. f_equal. exact (unwrap_wrap m C p new l1 mid l2 x X HT Hk HX Hx).
  - pose proof (unwrap_tree false HT1 Hp1 Hn1) as HT2. unfold unwrapped_kids, wrapped_kids in HT2. by rewrite (unwrap_wrap_kids C p new l1 mid l2 Hk F1) in HT2.
  - rewrite lookup_unwrap, lookup_wrap, F2. eexists. split; [done|]. split; [cbn; by rewrite Z.eqb_refl|]. rewrite (same_rng _ _ new (unwrap_ranges _ p new l1 mid l2)). apply same_rng, wrap_ranges.
Qed.

(** ** The tree is an invariant *)

Inductive rop := RRequest (root new : Z) | RInsert (root new : Z) | RRelease (old : Z) | RRemove (old : Z) | RAdjust (r s size : Z).

Definition run_rop (m : mem) (o : rop) : res mem :=
  match o with
  | RRequest root new => '(_, m) <-- request_resource m root new; Ok m
  | RInsert root new => '(_, m) <-- insert_resource m root new; Ok m
  | RRelease old => '(_, m) <-- release_resource m old; Ok m
  | RRemove old => '(_, m) <-- remove_resource m old; Ok m
  | RAdjust r s size => '(_, m) <-- adjust_resource m r s size; Ok m
  end.

(** New resources are not in the tree, a resource that leaves has a parent, and a new range does not wrap around. *)
Definition rop_ok (m : mem) (C : kids) (o : rop) : Prop :=
  match o with
  | RRequest root new | RInsert root new => is_Some (C !! root) /\ exists N, detached m C new N
  | RRelease old | RRemove old => exists O, is_Some (C !! old) /\ m !! old = Some O /\ parent O <> None
  | RAdjust r s size => is_Some (C !! r) /\ 0 <= s /\ 0 < size /\ s + size <= 4294967296
  end.

Lemma release_tree m C old O (keep : bool) : tree m C -> is_Some (C !! old) -> m !! old = Some O -> parent O <> None -> exists m' C', __release_resource m old keep = Ok (0, m') /\ tree m' C' /\ same_ranges m m'.
Proof.
  intros HT [own Hown] HO Hpar. destruct (parent O) as [p|] eqn:Ep; [|done]. destruct (ln_parent _ _ (proj1 HT) old own O p Hown HO Ep) as (l & Hp & Hin). apply list_elem_of_split in Hin as (l1 & l2 & ->).
  eexists _, _. split; [exact (release_ok keep HT Hp Hown)|]. split; [exact (unwrap_tree keep HT Hp Hown)|apply unwrap_ranges].
Qed.

(** C22: The tree is an invariant.  A request or an insertion of a resource that is not in the tree, with a proper range and no children, a release or a
    removal of one that is, other than a root, and the change of a range to one of at least one address that does not
    wrap around the 32-bit space end without a fault, whatever they answer, and leave a tree of resources: children in
    order, disjoint, and inside their parents.  (A size of 0, or one that wraps around, is not refused by the code and
    turns the resource inside out: see [adjust_wraps].) *)
Theorem resource_tree_invariant m C o : tree m C -> rop_ok m C o -> exists m' C', run_rop m o = Ok m' /\ tree m' C'.
Proof.
  intros HT. destruct o as [root new|root new|old|old|r s size]; cbn [rop_ok run_rop].
  - intros ([l Hl] & N & [F1 F2 F3 [F4 F5]]). destruct (tree_in HT root l Hl) as (R & HR & _). unfold request_resource, request_resource_conflict. destruct (request_ok HT F1 F2 F3 l R Hl HR) as ([a m'] & -> & Ho). cbn. exists m'. unfold answered in Ho. destruct (_ && _) eqn:Eb; [|injection Ho as _ ->; eauto].
    rewrite !andb_true_iff, !Z.leb_le in Eb. destruct Ho as [(l1 & l2 & -> & HL & HRt & Eo)|(l1 & t & l2 & T & _ & _ & _ & _ & Eo)]; injection Eo as _ ->; [|eauto]. eexists. split; [done|]. apply (wrap_request_tree HT F1 F2 (l1 ++ l2) R); try done; lia.
  - intros ([l Hl] & N & [F1 F2 F3 [F4 F5]]). destruct (tree_in HT root l Hl) as (R & HR & _). unfold insert_resource, insert_resource_conflict. destruct (insert_ok HT F1 F2 F3 F4 root l R Hl HR) as ([a m'] & -> & Ho). cbn. exists m'. destruct (_ && _) eqn:Eb; [|injection Ho as _ ->; eauto].
    rewrite andb_true_iff, !Z.leb_le in Eb. destruct Ho as (p & Hd & k & Hk & _ & [(l1 & mid & l2 & HP & Eo)|(t & T & _ & _ & _ & _ & Eo)]); injection Eo as _ ->; [|eauto]. eexists. split; [done|]. apply (placed_tree HT F1 F2 F4 p k l1 mid l2 Hk); [|done|done]. intros P HP'. exact (down_covers root p P R HR (proj1 Eb) (proj2 Eb) Hd HP').
  - intros (O & Ho & HO & Hp). unfold release_resource. destruct (release_tree m C old O true HT Ho HO Hp) as (m' & C' & -> & HT' & _). cbn. eauto.
  - intros (O & Ho & HO & Hp). unfold remove_resource. destruct (release_tree m C old O false HT Ho HO Hp) as (m' & C' & -> & HT' & _). cbn. eauto.
  - intros ([own Hown] & H0 & H1 & H2). destruct (tree_in HT r own Hown) as (R & HR & _). unfold adjust_resource. destruct (adjust_ok HT Hown HR s (s + size - 1) size) as (x & -> & _ & Hx); [by rewrite u32_small by lia|lia|lia|lia|]. cbn. destruct (Z.eqb_spec x 0) as [->|Hne]; [|eauto]. eexists _, C. split; [done|]. apply (adjusted_tree HT Hown HR); [lia|lia|by apply Hx].
Qed.

(** ** Searches *)

Lemma lookup_loop_ok m s k : forall fuel, chained m k -> (length k < fuel)%nat -> exists o, lookup_loop fuel m (head k) s = Ok o /\ match o with Some x => x ∈ k /\ exists X, m !! x = Some X /\ start X = s | None => forall x X, x ∈ k -> m !! x = Some X -> start X <> s end.
Proof.
  induction k as [|y k IH]; intros fuel Hk Hf; (destruct fuel as [|fuel]; [cbn in Hf; lia|]); cbn [lookup_loop head]; [exists None; split; [done|]; intros x X Hx; by apply elem_of_nil in Hx|]. destruct Hk as [(Y & HY & Es) Hk]. rewrite (get_ok m y Y HY). cbn [res_bind]. destruct (Z.eqb_spec (start Y) s) as [E|E].
  - exists (Some y). split; [done|]. split; [apply elem_of_cons; auto|eauto].
  - rewrite Es. destruct (IH fuel Hk ltac:(cbn in Hf; lia)) as (o & Eo & Ho). exists o. split; [done|]. destruct o as [x|]; [rewrite elem_of_cons; tauto|]. intros x X Hx HX. apply elem_of_cons in Hx as [->|Hx]; [congruence|by apply (Ho x)].
Qed.

(** [lookup_resource] finds the child that starts at an address, if there is one. *)
Lemma lookup_resource_ok m C root l s : tree m C -> C !! root = Some l -> exists o, lookup_resource m root s = Ok o /\ match o with Some x => x ∈ l /\ exists X, m !! x = Some X /\ start X = s | None => forall x X, x ∈ l -> m !! x = Some X -> start X <> s end.
Proof.
  intros HT Hl. unfold lookup_resource. destruct (tree_in HT root l Hl) as (R & HR & Ec & _). rewrite (get_ok m root R HR). cbn [res_bind]. rewrite Ec. apply lookup_loop_ok; [exact (chained_kids m C root [] l HT Hl)|exact (kids_length HT root l Hl)].
Qed.

Section Intersects.
Context (m : mem) (region : resource) (fl ds : Z).
Definition of_type (X : resource) : bool := (Z.land (flags X) fl =? fl) && ((ds =? IORES_DESC_NONE) || (ds =? desc X)).
Definition meets (k : list Z) (b : bool) : Prop := exists x X, x ∈ k /\ m !! x = Some X /\ resource_overlaps X region = true /\ of_type X = b.

Lemma intersects_loop_ok k : forall fuel type other, chained m k -> (length k < fuel)%nat -> 0 <= type -> 0 <= other ->
  exists t o, intersects_loop fuel m (head k) region fl ds type other = Ok (t, o) /\ 0 <= t /\ 0 <= o /\ (0 < t <-> 0 < type \/ meets k true) /\ (0 < o <-> 0 < other \/ meets k false).
Proof.
  induction k as [|y k IH]; intros fuel type other Hk Hf Ht Ho; (destruct fuel as [|fuel]; [cbn in Hf; lia|]); cbn [intersects_loop head].
  - exists type, other. assert (Hno : forall b, ~ meets [] b) by (intros b (x & X & Hx & _); by apply elem_of_nil in Hx). split; [done|]. split; [done|]. split; [done|]. split; (split; [auto|intros [?|Hm]; [done|by apply Hno in Hm]]).
  - destruct Hk as [(Y & HY & Es) Hk]. rewrite (get_ok m y Y HY). cbn [res_bind]. rewrite Es. fold (of_type Y).
    assert (Hcons : forall b, meets (y :: k) b <-> (resource_overlaps Y region = true /\ of_type Y = b) \/ meets k b).
    { intros b. split; [intros (x & X & Hx & HX & H); apply elem_of_cons in Hx as [->|Hx]; [left; assert (X = Y) as -> by congruence; done|right; by exists x, X]|]. intros [[H1 H2]|(x & X & Hx & H)]; [exists y, Y|exists x, X]; rewrite elem_of_cons; auto. }
    assert (Hstep : exists t o, intersects_loop fuel m (head k) region fl ds (if resource_overlaps Y region && of_type Y then type + 1 else type) (if resource_overlaps Y region && negb (of_type Y) then other + 1 else other) = Ok (t, o) /\ 0 <= t /\ 0 <= o /\ (0 < t <-> 0 < type \/ meets (y :: k) true) /\ (0 < o <-> 0 < other \/ meets (y :: k) false)).
    { destruct (IH fuel (if resource_overlaps Y region && of_type Y then type + 1 else type) (if resource_overlaps Y region && negb (of_type Y) then other + 1 else other) Hk ltac:(cbn in Hf; lia) ltac:(case_match; lia) ltac:(case_match; lia)) as (t & o & E & H1 & H2 & H3 & H4). exists t, o. split; [done|]. split; [done|]. split; [done|].
      rewrite (Hcons true), (Hcons false), H3, H4. destruct (resource_overlaps Y region), (of_type Y); cbn [andb negb]; intuition (try lia; try discriminate). }
    destruct (resource_overlaps Y region), (of_type Y); exact Hstep.
Qed.
End Intersects.

(** [region_intersects] says whether the region meets a child of the wanted kind, and whether it meets one of another kind too. *)
Lemma region_intersects_ok m C iomem l s size fl ds : tree m C -> C !! iomem = Some l -> let region := mk_res s (u32 (s + size - 1)) 0 0 None None None in
  exists v, region_intersects m iomem s size fl ds = Ok v /\ (v = REGION_DISJOINT <-> ~ meets m region fl ds l true) /\ (v = REGION_MIXED <-> meets m region fl ds l true /\ meets m region fl ds l false).
Proof.
  intros HT Hl region. unfold region_intersects. destruct (tree_in HT iomem l Hl) as (R & HR & Ec & _). rewrite (get_ok m iomem R HR). cbn [res_bind]. rewrite Ec. fold region.
  destruct (intersects_loop_ok m region fl ds l (turns m) 0 0 (chained_kids m C iomem [] l HT Hl) (kids_length HT iomem l Hl) ltac:(lia) ltac:(lia)) as (t & o & -> & H1 & H2 & H3 & H4). cbn [res_bind]. eexists. split; [done|].
  assert (Hm : meets m region fl ds l true <-> 0 < t) by (rewrite H3; split; [auto|intros [?|?]; [lia|done]]). assert (Hn : meets m region fl ds l false <-> 0 < o) by (rewrite H4; split; [auto|intros [?|?]; [lia|done]]). rewrite Hm, Hn.
  destruct (Z.eqb_spec o 0), (Z.eqb_spec t 0); split; split; intros; try discriminate; try reflexivity; try lia; exfalso; lia.
Qed.

(** ** The operations on a small tree *)

Lemma sample_detached : detached sample_mem sample_kids 4 (mk_res 4096 20479 512 0 None None None).
Proof. by split; vm_compute. Qed.

(** The two regions are in the way of a request. *)
Lemma request_resource_correct_witness : exists T, __request_resource sample_mem 1 4 = Ok (Some 2, sample_mem) /\ sample_mem !! 2 = Some T /\ overlap 4096 20479 (start T) (end_ T).
Proof.
  destruct (request_resource_correct sample_mem sample_kids 1 4 [2; 3] (mk_res 0 65535 512 0 None None (Some 2)) _ sample_tree eq_refl eq_refl sample_detached) as (a & m' & E & H). assert (E' : __request_resource sample_mem 1 4 = Ok (Some 2, sample_mem)) by (vm_compute; reflexivity). rewrite E' in E. injection E as <- <-.
  destruct H as [_ [[Hn _]|[_ (T & _ & HT & Ho & _)]]]; [exfalso; apply Hn; cbn; lia|]. exists T. exact (conj E' (conj HT Ho)).
Defined.

(** An insertion puts the new resource around them. *)
Lemma insert_resource_correct_witness : exists m', __insert_resource sample_mem 1 4 = Ok (None, m') /\ same_ranges sample_mem m'.
Proof.
  destruct (insert_resource_correct sample_mem sample_kids 1 4 [2; 3] (mk_res 0 65535 512 0 None None (Some 2)) _ sample_tree eq_refl eq_refl sample_detached) as (a & m' & E & H). assert (E' : exists m0, __insert_resource sample_mem 1 4 = Ok (None, m0)) by (eexists; vm_compute; reflexivity). destruct E' as [m0 E']. rewrite E' in E. injection E as <- <-.
  exists m0. exact (conj E' (proj1 (proj2 H))).
Defined.

Lemma insert_remove_roundtrip_witness : exists m1 m2, __insert_resource sample_mem 1 4 = Ok (None, m1) /\ remove_resource m1 4 = Ok (0, m2) /\ delete 4 m2 = delete 4 sample_mem.
Proof.
  assert (E' : exists m0, __insert_resource sample_mem 1 4 = Ok (None, m0)) by (eexists; vm_compute; reflexivity). destruct E' as [m1 E'].
  destruct (insert_remove_roundtrip sample_mem sample_kids 1 4 [2; 3] (mk_res 0 65535 512 0 None None (Some 2)) _ m1 sample_tree eq_refl eq_refl sample_detached E') as (m2 & E2 & Hd & _). exists m1, m2. exact (conj E' (conj E2 Hd)).
Defined.

Lemma resource_tree_invariant_witness : exists m' C', run_rop sample_mem (RAdjust 2 4096 8192) = Ok m' /\ tree m' C' /\ rng m' 2 = Some (4096, 12287).
Proof.
  destruct (resource_tree_invariant sample_mem sample_kids (RAdjust 2 4096 8192) sample_tree) as (m' & C' & E & HT); [cbn; split; [by exists []|lia]|]. assert (Er : exists m0, run_rop sample_mem (RAdjust 2 4096 8192) = Ok m0 /\ rng m0 2 = Some (4096, 12287)) by (eexists; split; vm_compute; reflexivity). destruct Er as (m0 & E0 & Er). rewrite E0 in E. injection E as <-.
  exists m0, C'. exact (conj E0 (conj HT Er)).
Defined.

(** The end of a new range is not checked against its start: a size that wraps around turns a resource inside out. *)
Example adjust_wraps : exists m', adjust_resource sample_mem 3 12288 4294963201 = Ok (0, m') /\ rng m' 3 = Some (12288, 8192).
Proof. eexists. split; vm_compute; reflexivity. Qed.
