(* ===== verification/ResourceAlloc.v ===== *)
(** * Allocation of address ranges (kernel/resource.c)

    [allocate_resource] takes the lowest free range below the parent that satisfies the constraints. *)

From stdpp Require Import gmap list sorting.
From S2P Require Import Prelude Resource ResourceTree ResourceOps ResourceAdjust.
Local Open Scope Z_scope.
Local Open Scope res_scope.

Lemma ALIGN_down x k : 0 <= x < 4294967296 -> 0 <= k <= 31 -> ALIGN x (2 ^ k) = 2 ^ k * (u32 (x + (2 ^ k - 1)) / 2 ^ k).
Proof.
  intros Hx Hk. assert (Hp : 0 < 2 ^ k <= 2 ^ 31) by (split; [lia|apply Z.pow_le_mono_r; lia]). change (2 ^ 31) with 2147483648 in Hp. unfold ALIGN. rewrite (u32_small (2 ^ k - 1)) by lia. set (y := u32 (x + (2 ^ k - 1))). pose proof (u32_range (x + (2 ^ k - 1))) as Hy. fold y in Hy.
  unfold u32 at 1. change 4294967296 with (2 ^ 32) at 1. rewrite <- Z.land_ones by lia. replace (-1 - (2 ^ k - 1)) with (Z.lnot (Z.ones k)) by (rewrite Z.ones_equiv; unfold Z.lnot; lia). rewrite Z.land_assoc, <- Z.ldiff_land, Z.ldiff_ones_r, Z.shiftr_div_pow2, Z.shiftl_mul_pow2 by lia.
  rewrite Z.land_ones by lia. rewrite Z.mul_comm. apply Z.mod_small. pose proof (Z.mul_div_le y (2 ^ k) ltac:(lia)). pose proof (Z.div_pos y (2 ^ k) ltac:(lia) ltac:(lia)). change (2 ^ 32) with 4294967296. nia.
Qed.

(** [ALIGN] gives the first multiple from [x] on, or something below [x] when there is none. *)
Lemma ALIGN_spec x k : 0 <= x < 4294967296 -> 0 <= k <= 31 -> (2 ^ k | ALIGN x (2 ^ k)) /\ 0 <= ALIGN x (2 ^ k) < 4294967296 /\ forall b, (2 ^ k | b) -> x <= b < 4294967296 -> x <= ALIGN x (2 ^ k) <= b.
Proof.
  intros Hx Hk. rewrite ALIGN_down by done. assert (Hp : 0 < 2 ^ k <= 2 ^ 31) by (split; [lia|apply Z.pow_le_mono_r; lia]). change (2 ^ 31) with 2147483648 in Hp. set (w := 2 ^ k) in *. pose proof (u32_range (x + (w - 1))) as Hy. set (y := u32 (x + (w - 1))) in *.
  pose proof (Z.mul_div_le y w ltac:(lia)). pose proof (Z.div_pos y w ltac:(lia) ltac:(lia)). split; [exists (y / w); lia|]. split; [nia|]. intros b [q ->] Hb.
  assert (Hq : q * w <= 4294967296 - w).
  { assert (Hd : 4294967296 = 2 ^ (32 - k) * w) by (unfold w; rewrite <- Z.pow_add_r by lia; replace (32 - k + k) with 32 by lia; reflexivity). assert (q < 2 ^ (32 - k)) by nia. nia. }
  assert (Ey : y = x + (w - 1)) by (unfold y; apply u32_small; lia). pose proof (Z.mod_pos_bound y w ltac:(lia)). pose proof (Z.div_mod y w ltac:(lia)). split; [lia|]. assert (y / w < q + 1) by (apply Z.div_lt_upper_bound; nia). nia.
Qed.

Section Find.
Context {m : mem} {C : kids} {root : Z} {l : list Z} {R : resource} (HT : tree m C) (Hl : C !! root = Some l) (HR : m !! root = Some R).
Context (fl size mn mx k : Z) (Hsize : 0 < size < 4294967296) (Hmn : 0 <= mn < 4294967296) (Hmx : 0 <= mx < 4294967296) (Hk : 0 <= k <= 31).
Local Abbreviation c := (mk_rc mn mx (2 ^ k) simple_align_resource).

(** An aligned range from [s] on that is within the bounds and between [lo] and [hi]. *)
Definition fits_in (lo hi s : Z) : Prop := (2 ^ k | s) /\ lo <= s /\ mn <= s /\ s + size - 1 <= hi /\ s + size - 1 <= mx.

(** A range that could be given out. *)
Definition free_slot (s : Z) : Prop := fits_in (start R) (end_ R) s /\ forall x X, x ∈ l -> m !! x = Some X -> ~ overlap s (s + size - 1) (start X) (end_ X).

Lemma try_slot_ok lo hi : 0 <= lo < 4294967296 -> hi < 4294967296 -> let '(s, e) := resource_clip lo hi mn mx in
  match try_slot fl size c s e with Some (a, b) => b = a + size - 1 /\ fits_in lo hi a /\ forall a', fits_in lo hi a' -> a <= a' | None => forall a, ~ fits_in lo hi a end.
Proof.
  intros Hlo Hhi. unfold resource_clip, try_slot. set (s := if lo <? mn then mn else lo). set (e := if mx <? hi then mx else hi). cbn [c_align alignf start end_ flags]. unfold simple_align_resource. cbn [start].
  assert (Hs : lo <= s /\ mn <= s /\ 0 <= s < 4294967296 /\ forall a, lo <= a -> mn <= a -> s <= a) by (unfold s; destruct (Z.ltb_spec lo mn); split; try lia; split; try lia; split; lia).
  assert (He : e <= hi /\ e <= mx /\ forall b, b <= hi -> b <= mx -> b <= e) by (unfold e; destruct (Z.ltb_spec mx hi); split; try lia; split; lia). destruct Hs as (S1 & S2 & S3 & S4). destruct He as (E1 & E2 & E3).
  destruct (ALIGN_spec s k S3 Hk) as (A1 & A2 & A3). set (a := ALIGN s (2 ^ k)) in *. assert (Hnone : (s <= a -> e < a + size - 1) -> forall a', ~ fits_in lo hi a').
  { intros Hne a' (F1 & F2 & F3 & F4 & F5). specialize (S4 a' F2 F3). specialize (E3 _ F4 F5). destruct (A3 a' F1 ltac:(lia)) as [A4 A5]. specialize (Hne A4). lia. }
  destruct (Z.leb_spec s a) as [Hsa|Hsa]; [|apply Hnone; lia]. unfold resource_contains, resource_type. cbn [start end_ flags]. rewrite Z.eqb_refl. cbn [negb].
  assert (Eu : (Z.land (Z.ldiff fl IORESOURCE_UNSET) IORESOURCE_UNSET =? 0) = true) by (apply Z.eqb_eq; apply Z.land_ldiff). rewrite Eu. cbn [negb orb]. rewrite (proj2 (Z.leb_le a a)) by lia. cbn [andb].
  destruct (Z.le_gt_cases (a + size - 1) 4294967295) as [Hw|Hw].
  - rewrite (u32_small (a + size - 1)) by lia. rewrite (proj2 (Z.leb_le a (a + size - 1))) by lia. cbn [andb]. destruct (Z.leb_spec (a + size - 1) e) as [Hae|Hae]; [|apply Hnone; lia]. split; [done|]. split; [split; [done|]; lia|]. intros a' (F1 & F2 & F3 & F4 & F5). apply A3; [done|]. specialize (S4 a' F2 F3). lia.
  - assert (Ew : u32 (a + size - 1) = a + size - 1 - 4294967296) by (unfold u32; rewrite <- (Z.mod_add (a + size - 1) (-1)) by lia; apply Z.mod_small; lia). rewrite Ew. rewrite (proj2 (Z.leb_gt a _)) by lia. cbn [andb]. apply Hnone. lia.
Qed.

(** The outcome of a search: the lowest free range, or none. *)
Definition lowest (o : option (Z * Z)) : Prop := match o with Some (a, b) => b = a + size - 1 /\ free_slot a /\ forall a', free_slot a' -> a <= a' | None => forall a, ~ free_slot a end.

Lemma root_range : 0 <= start R <= end_ R /\ end_ R < 4294967296.
Proof. exact (or_range _ _ (proj2 HT) root l _ _ Hl (get_rng m root R HR)). Qed.

Lemma kid_range x : x ∈ l -> exists X, m !! x = Some X /\ start R <= start X <= end_ X /\ end_ X <= end_ R.
Proof.
  intros Hx. destruct (tree_kid HT root l x Hl Hx) as (X & HX & _ & Rx & _). exists X. split; [done|]. pose proof (or_inside _ _ (proj2 HT) root l x _ _ _ _ Hl Hx (get_rng m root R HR) (get_rng m x X HX)). lia.
Qed.

(** A free range is not in a gap that has no room, so it is behind the next child. *)
Lemma past_gap l1 t T l2 s : l = l1 ++ t :: l2 -> m !! t = Some T -> (forall a, free_slot a -> s <= a) -> (forall a, ~ fits_in s (start T - 1) a) -> forall a, free_slot a -> end_ T + 1 <= a.
Proof.
  intros El HTt Hs Hno a Ha. assert (Ht : t ∈ l) by (rewrite El, elem_of_app, elem_of_cons; auto). pose proof (Hs a Ha) as Hsa. destruct Ha as [(F1 & F2 & F3 & F4 & F5) Hd]. specialize (Hd t T Ht HTt). unfold overlap in Hd. destruct (Z.le_gt_cases (end_ T + 1) a) as [|Hlt]; [done|]. exfalso. apply (Hno a). split; [done|]. split; [done|]. split; [done|]. split; [lia|done].
Qed.

(** A range found in a gap is free and is the lowest one. *)
Lemma in_gap l1 l2 s hi a : l = l1 ++ l2 -> start R <= s -> hi <= end_ R -> (forall x X, x ∈ l1 -> m !! x = Some X -> end_ X < s) -> (forall x X, x ∈ l2 -> m !! x = Some X -> hi < start X) -> (forall a', free_slot a' -> s <= a') ->
  (forall a', free_slot a' -> a' <= hi -> a' + size - 1 <= hi) -> fits_in s hi a -> (forall a', fits_in s hi a' -> a <= a') -> free_slot a /\ forall a', free_slot a' -> a <= a'.
Proof.
  intros El Hs Hhi HL HRt Hlow Hgap (F1 & F2 & F3 & F4 & F5) Hmin. split.
  - split; [split; [done|]; lia|]. intros x X Hx HX [O1 O2]. rewrite El, elem_of_app in Hx. destruct Hx as [Hx|Hx]; [specialize (HL x X Hx HX)|specialize (HRt x X Hx HX)]; lia.
  - intros a' Ha'. destruct (Z.le_gt_cases a' hi) as [Hle|Hgt]; [|lia]. pose proof (Hlow a' Ha'). pose proof (Hgap a' Ha' Hle). destruct Ha' as [(G1 & G2 & G3 & G4 & G5) _]. apply Hmin. split; [done|]. lia.
Qed.

Lemma gap_loop_ok l2 : forall fuel l1 s, (length l2 < fuel)%nat -> l = l1 ++ l2 -> start R <= s < 4294967296 -> (forall x X, x ∈ l1 -> m !! x = Some X -> end_ X < s) -> (forall x X, x ∈ l2 -> m !! x = Some X -> 0 < start X) -> (forall a, free_slot a -> s <= a) ->
  exists o, find_loop fuel m R None fl size c s (head l2) = Ok o /\ lowest o.
Proof.
  pose proof root_range as RR. induction l2 as [|t l2 IH]; intros fuel l1 s Hf El Hs HL Hpos Hlow; (destruct fuel as [|fuel]; [cbn in Hf; lia|]); cbn [find_loop head].
  - cbn [res_bind]. assert (Hnone : (forall a, ~ fits_in s (end_ R) a) -> lowest None) by (intros Hno a Ha; apply (Hno a); pose proof (Hlow a Ha); destruct Ha as [(F1 & F2 & F3 & F4 & F5) _]; split; [done|]; lia).
    destruct (Z.ltb_spec (end_ R) s) as [E|E]; [exists None; split; [done|]; apply Hnone; intros a (_ & F2 & _ & F4 & _); lia|]. pose proof (try_slot_ok s (end_ R) ltac:(lia) ltac:(lia)) as HS. destruct (resource_clip s (end_ R) (c_min c) (c_max c)) as [s' e'] eqn:Ec. cbn [c_min c_max] in Ec. rewrite Ec in HS.
    destruct (try_slot fl size c s' e') as [[a b]|]; [|exists None; split; [done|]; by apply Hnone]. destruct HS as (Hb & Hfit & Hmin). exists (Some (a, b)). split; [done|]. split; [done|]. rewrite app_nil_r in El.
    apply (in_gap l1 [] s (end_ R) a); try done; [by rewrite app_nil_r|lia|intros x X Hx; by apply elem_of_nil in Hx|intros a' [(_ & _ & _ & ? & _) _] _; done].
  - assert (Ht : t ∈ l) by (rewrite El, elem_of_app, elem_of_cons; auto). destruct (kid_range t Ht) as (T & HTt & R1 & R2). rewrite (get_ok m t T HTt). cbn [res_bind]. rewrite bool_decide_false by done. specialize (Hpos t T ltac:(apply elem_of_cons; auto) HTt) as Hp0. rewrite (u32_small (start T - 1)) by lia.
    assert (Hl' := Hl). rewrite El in Hl'. destruct (sorted_sides HT root l1 t l2 T Hl' HTt) as [SL SR].
    assert (Hnext : (forall a, ~ fits_in s (start T - 1) a) -> exists o, (if end_ T =? end_ R then Ok None else find_loop fuel m R None fl size c (u32 (end_ T + 1)) (sibling T)) = Ok o /\ lowest o).
    { intros Hno. pose proof (past_gap l1 t T l2 s El HTt Hlow Hno) as Hpast. destruct (Z.eqb_spec (end_ T) (end_ R)) as [Ee|Ee]; [exists None; split; [done|]; intros a Ha; pose proof (Hpast a Ha); destruct Ha as [(_ & _ & _ & F4 & _) _]; lia|].
      rewrite u32_small by lia. destruct (ln_link _ _ (proj1 HT) root l1 t l2 Hl') as (T' & HT' & _ & Es). assert (T' = T) as -> by congruence. rewrite Es. apply (IH fuel (l1 ++ [t])); [cbn in Hf; lia|by rewrite <- app_assoc|lia| | |exact Hpast].
      - intros x X Hx HX. apply elem_of_app in Hx as [Hx|Hx%list_elem_of_singleton]; [specialize (HL x X Hx HX); specialize (SL x X Hx HX); lia|subst x; assert (X = T) as -> by congruence; lia].
      - intros x X Hx HX. specialize (SR x X Hx HX). lia. }
    destruct (Z.ltb_spec (start T - 1) s) as [E|E]; [apply Hnext; intros a (_ & F2 & _ & F4 & _); lia|]. pose proof (try_slot_ok s (start T - 1) ltac:(lia) ltac:(lia)) as HS. destruct (resource_clip s (start T - 1) (c_min c) (c_max c)) as [s' e'] eqn:Ec. cbn [c_min c_max] in Ec. rewrite Ec in HS.
    destruct (try_slot fl size c s' e') as [[a b]|]; [|by apply Hnext]. destruct HS as (Hb & Hfit & Hmin). exists (Some (a, b)). split; [done|]. split; [done|]. apply (in_gap l1 (t :: l2) s (start T - 1) a); try done; [lia|lia| |].
    + intros x X Hx HX. apply elem_of_cons in Hx as [->|Hx]; [assert (X = T) as -> by congruence; lia|]. specialize (SR x X Hx HX). lia.
    + intros a' [_ Hd] Hle. specialize (Hd t T Ht HTt). unfold overlap in Hd. lia.
Qed.

Lemma find_total fuel s : exists o, find_loop (S fuel) m R None fl size c s None = Ok o.
Proof. cbn [find_loop res_bind]. destruct (_ <? _); [by eexists|]. destruct (resource_clip _ _ _ _) as [s' e']. destruct (try_slot _ _ _ _ _); by eexists. Qed.

(** The search finds the lowest free range, unless one child takes all addresses up to the last one there is. *)
Lemma find_ok : exists o, __find_resource m root None fl size c = Ok o /\ (lowest o \/ (exists t T, l = [t] /\ m !! t = Some T /\ start T = start R /\ end_ T = end_ R)).
Proof.
  pose proof root_range as RR. unfold __find_resource. rewrite (get_ok m root R HR). cbn [res_bind]. destruct (ln_node _ _ (proj1 HT) root l Hl) as (R' & HR' & Ec). assert (R' = R) as -> by congruence. rewrite Ec.
  assert (Hlow : forall a, free_slot a -> start R <= a) by (intros a [(_ & F2 & _) _]; done). pose proof (kids_length HT root l Hl) as Hlen.
  assert (Hcase : l = [] \/ exists t l2, l = t :: l2) by (destruct l; eauto). destruct Hcase as [El|(t & l2 & El)].
  - rewrite El. cbn [head]. destruct (gap_loop_ok [] (turns m) [] (start R)) as (o & Eo & Ho); try done; [unfold turns; cbn; lia|lia|intros x X Hx; by apply elem_of_nil in Hx|intros x X Hx; by apply elem_of_nil in Hx|]. exists o. cbn [head] in Eo. auto.
  - assert (Ht : t ∈ l) by (rewrite El; apply elem_of_cons; auto). destruct (kid_range t Ht) as (T & HTt & R1 & R2). assert (Hl' := Hl). rewrite El in Hl'. destruct (sorted_sides HT root [] t l2 T Hl' HTt) as [_ SR]. rewrite El in Hlen |- *. cbn [head]. rewrite (get_ok m t T HTt). cbn [res_bind]. cbn in Hlen.
    destruct (Z.eqb_spec (start T) (start R)) as [Es|Es].
    + rewrite bool_decide_false by done. destruct (ln_link _ _ (proj1 HT) root [] t l2 Hl') as (T' & HT' & _ & Esi). assert (T' = T) as -> by congruence. rewrite Esi.
      assert (Hpast : forall a, free_slot a -> end_ T + 1 <= a) by (intros a [(_ & F2 & _) Hd]; specialize (Hd t T Ht HTt); unfold overlap in Hd; lia). destruct (Z.eq_dec (end_ T) 4294967295) as [Emax|Emax].
      * assert (l2 = []) as ->.
        { destruct l2 as [|y l2]; [done|]. exfalso. destruct (kid_range y) as (Y & HY & Q1 & Q2); [rewrite El, !elem_of_cons; auto|]. specialize (SR y Y ltac:(apply elem_of_cons; auto) HY). lia. }
        cbn [head]. destruct (find_total (base.size m) (u32 (end_ T + 1))) as [o Eo]. exists o. split; [exact Eo|]. right. exists t, T. split; [done|]. split; [done|]. split; [done|lia].
      * rewrite u32_small by lia. destruct (gap_loop_ok l2 (turns m) [t] (end_ T + 1)) as (o & Eo & Ho); [lia|done|lia|intros x X Hx HX; apply list_elem_of_singleton in Hx as ->; assert (X = T) as -> by congruence; lia|intros x X Hx HX; specialize (SR x X Hx HX); lia|exact Hpast|]. exists o. auto.
    + destruct (gap_loop_ok (t :: l2) (turns m) [] (start R)) as (o & Eo & Ho); [cbn; lia|done|lia|intros x X Hx; by apply elem_of_nil in Hx| |done|exists o; cbn [head] in Eo; auto].
      intros x X Hx HX. apply elem_of_cons in Hx as [->|Hx]; [assert (X = T) as -> by congruence; lia|]. specialize (SR x X Hx HX). lia.
Qed.
End Find.

(** A child that takes all of its parent leaves nothing free. *)
Lemma full_parent {m : mem} {t : Z} {T R : resource} size mn mx k s : 0 < size -> m !! t = Some T -> start T = start R -> end_ T = end_ R -> ~ free_slot (m := m) (l := [t]) (R := R) size mn mx k s.
Proof. intros Hs HT E1 E2 [(_ & F2 & _ & F4 & _) Hd]. apply (Hd t T); [by apply list_elem_of_singleton|done|]. split; lia. Qed.

(** C24: Allocating a resource that is in no tree yet gives it the lowest aligned range of the wanted size that is inside the parent, within the bounds and shares no address with a child of the parent, and puts it there; when there is no such range the answer is -EBUSY and the tree stays as it is.  Sums that wrap around 32 bits do not make a range seem free. *)
Theorem allocate_resource_correct m C root new l R N size mn mx k : tree m C -> C !! root = Some l -> m !! root = Some R -> C !! new = None -> m !! new = Some N -> child N = None -> parent N = None ->
  0 < size < 4294967296 -> 0 <= mn < 4294967296 -> 0 <= mx < 4294967296 -> 0 <= k <= 31 ->
  let free := free_slot (m := m) (l := l) (R := R) size mn mx k in
  exists err m', allocate_resource m root new size mn mx (2 ^ k) None = Ok (err, m') /\
  (err = 0 /\ (exists s l1 l2, free s /\ (forall s', free s' -> s <= s') /\ rng m' new = Some (s, s + size - 1) /\ l = l1 ++ l2 /\ tree m' (<[root := l1 ++ new :: l2]> (<[new := []]> C))) \/
   err = - EBUSY /\ (forall s, ~ free s) /\ tree m' C).
Proof.
  intros HT Hl HR Hn HN Hc Hp Hsize Hmn Hmx Hk free. unfold allocate_resource. rewrite (get_ok m new N HN). cbn [res_bind]. rewrite Hp. unfold find_resource. rewrite (get_ok m new N HN). cbn [res_bind default].
  destruct (find_ok HT Hl HR (flags N) size mn mx k Hsize Hmn Hmx Hk) as (o & -> & Ho). cbn [res_bind].
  destruct o as [[a b]|]; [|exists (- EBUSY), m; split; [done|]; right; split; [done|]; destruct Ho as [Ho|(t & T & -> & HTt & E1 & E2)]; [done|]; split; [|done]; intros s; apply (full_parent (T := T)); [lia|done|done|done]].
  rewrite modify_upd by (by exists N). cbn [res_bind]. set (m1 := upd m new _). set (N1 := set_range N a b). change (0 <=? 0) with true. cbv iota.
  assert (He : forall x, is_Some (C !! x) -> m1 !! x = m !! x) by (intros x Hx; unfold m1; rewrite lookup_upd, (proj2 (Z.eqb_neq x new)) by (intros ->; rewrite Hn in Hx; by destruct Hx); by destruct (m !! x)). assert (HT1 : tree m1 C) by (by apply (tree_ext m)).
  assert (HN1 : m1 !! new = Some N1) by (unfold m1; by rewrite lookup_upd, HN, Z.eqb_refl). assert (HR1 : m1 !! root = Some R) by (rewrite He by (by exists l); done). assert (Hkid : forall x, x ∈ l -> m1 !! x = m !! x) by (intros x Hx; apply He; by apply (ln_in _ _ (proj1 HT) root l)).
  destruct (request_ok HT1 Hn HN1 Hc l R Hl HR1) as ([o m'] & -> & Ha). cbn [res_bind]. assert (Hbusy : o <> None -> m' = m1 /\ match o with Some _ => - EBUSY | None => 0 end = - EBUSY).
  { destruct o as [t|]; [|done]. intros _. split; [|done]. unfold answered in Ha. destruct (_ && _ && _); [|by injection Ha as _ ->]. destruct Ha as [(? & ? & _ & _ & _ & Eo)|(? & ? & ? & ? & _ & _ & _ & _ & Eo)]; by injection Eo. }
  exists (match o with Some _ => - EBUSY | None => 0 end), m'. split; [done|]. destruct Ho as [(-> & Hfree & Hmin)|(t & T & -> & HTt & E1 & E2)].
  - left. pose proof Hfree as [(_ & F2 & _ & F4 & _) Hd]. pose proof (root_range HT Hl HR) as RR. unfold answered in Ha. cbn [start end_ N1 set_range] in Ha. rewrite (proj2 (Z.leb_le (start R) a)), (proj2 (Z.leb_le a (a + size - 1))), (proj2 (Z.leb_le (a + size - 1) (end_ R))) in Ha by lia. cbn [andb] in Ha.
    destruct Ha as [(l1 & l2 & El & HL & HRt & Eo)|(l1 & t & l2 & T & El & _ & HTt & Hov & _)].
    + injection Eo as -> ->. split; [done|]. exists a, l1, l2. split; [done|]. split; [done|]. split; [rewrite (same_rng _ _ new (wrap_ranges m1 root new l1 [] l2)); exact (get_rng m1 new N1 HN1)|]. split; [done|]. rewrite El in Hl. apply (wrap_request_tree HT1 Hn HN1 (l1 ++ l2) R); try done; cbn; lia.
    + exfalso. assert (Ht : t ∈ l) by (rewrite El, elem_of_app, elem_of_cons; auto). rewrite Hkid in HTt by done. by apply (Hd t T Ht HTt).
  - right. assert (Ho : o <> None).
    { intros ->. unfold answered in Ha. destruct (_ && _ && _) eqn:Eb; [|done]. rewrite !andb_true_iff, !Z.leb_le in Eb. destruct Ha as [(l1 & l2 & El & HL & HRt & _)|(? & ? & ? & ? & _ & _ & _ & _ & Eo)]; [|done]. assert (Ht : t ∈ l1 ++ l2) by (rewrite <- El; apply list_elem_of_singleton; done).
      rewrite <- (Hkid t ltac:(apply list_elem_of_singleton; done)) in HTt. apply elem_of_app in Ht as [Ht|Ht]; [specialize (HL t T Ht HTt)|specialize (HRt t T Ht HTt)]; lia. }
    destruct (Hbusy Ho) as [-> ->]. split; [done|]. split; [|done]. intros s. apply (full_parent (T := T)); [lia|done|done|done].
Qed.

(** 4096 bytes above 4096, aligned, go between the two regions. *)
Lemma allocate_resource_correct_witness : exists m', allocate_resource sample_mem 1 4 4096 4096 65535 (2 ^ 12) None = Ok (0, m') /\ rng m' 4 = Some (8192, 12287).
Proof.
  destruct (allocate_resource_correct sample_mem sample_kids 1 4 [2; 3] (mk_res 0 65535 512 0 None None (Some 2)) (mk_res 4096 20479 512 0 None None None) 4096 4096 65535 12 sample_tree eq_refl eq_refl eq_refl eq_refl eq_refl eq_refl ltac:(lia) ltac:(lia) ltac:(lia) ltac:(lia)) as (err & m' & E & H).
  assert (E' : exists m0, allocate_resource sample_mem 1 4 4096 4096 65535 (2 ^ 12) None = Ok (0, m0) /\ rng m0 4 = Some (8192, 12287)) by (eexists; split; vm_compute; reflexivity). destruct E' as (m0 & E' & Er). rewrite E' in E. injection E as <- <-. destruct H as [[_ (s & l1 & l2 & _ & _ & Hr & _)]|[He _]]; [|discriminate He].
  exists m0. rewrite Hr in Er |- *. exact (conj E' Er).
Defined.
