(* ===== verification/ResourceSplit.v ===== *)
(** * Reserving what is free of a range (kernel/resource.c)

    [reserve_region_with_split] reserves a range around the resources that are already there: the range is cut at each of
    them, and the pieces become resources of their own. *)

From stdpp Require Import gmap list sorting.
From S2P Require Import Prelude Resource ResourceTree ResourceOps ResourceAdjust.
Local Open Scope Z_scope.
Local Open Scope res_scope.

(** Every address from [lo] to [hi] belongs to a child of [root]. *)
Definition covered (m : mem) (C : kids) (root lo hi : Z) : Prop := forall a, lo <= a <= hi -> exists l x X, C !! root = Some l /\ x ∈ l /\ m !! x = Some X /\ start X <= a <= end_ X.

(** The resources of the tree are still there, with their ranges and parents. *)
Record kept (m : mem) (C : kids) (m' : mem) (C' : kids) : Prop := {
  ke_rng x : is_Some (C !! x) -> rng m' x = rng m x;
  ke_kids p l : C !! p = Some l -> exists l', C' !! p = Some l' /\ forall x, x ∈ l -> x ∈ l' }.

Lemma resources_kept_refl m C : kept m C m C.
Proof. split; [done|]. eauto. Qed.

Lemma resources_kept_trans m1 C1 m2 C2 m3 C3 : kept m1 C1 m2 C2 -> kept m2 C2 m3 C3 -> kept m1 C1 m3 C3.
Proof.
  intros [A1 A2] [B1 B2]. split.
  - intros x [l Hl]. destruct (A2 x l Hl) as (l' & Hl' & _). rewrite B1 by (by exists l'). apply A1. by exists l.
  - intros p l Hp. destruct (A2 p l Hp) as (l' & Hl' & H1). destruct (B2 p l' Hl') as (l'' & Hl'' & H2). exists l''. split; [done|]. auto.
Qed.

Lemma kept_ext m m' C : (forall x, is_Some (C !! x) -> m' !! x = m !! x) -> kept m C m' C.
Proof. intros He. split; [intros x Hx; unfold rng; by rewrite He|eauto]. Qed.

Lemma covered_kept m C m' C' root lo hi : tree m C -> covered m C root lo hi -> kept m C m' C' -> covered m' C' root lo hi.
Proof.
  intros HT Hc [K1 K2] a Ha. destruct (Hc a Ha) as (l & x & X & Hl & Hx & HX & Hr). destruct (K2 root l Hl) as (l' & Hl' & Hsub). destruct (ln_in _ _ (proj1 HT) root l x Hl Hx) as [lx Hlx]. specialize (K1 x ltac:(by exists lx)). rewrite (get_rng m x X HX) in K1. destruct (rng_get m' x _ _ K1) as (X' & HX' & E1 & E2). exists l', x, X'. split; [done|]. split; [auto|]. split; [done|]. lia.
Qed.

Lemma covered_join m C root lo mid hi : covered m C root lo (mid - 1) -> covered m C root mid hi -> covered m C root lo hi.
Proof. intros H1 H2 a Ha. destruct (Z.lt_ge_cases a mid) as [H|H]; [apply H1; lia|apply H2; lia]. Qed.

Section Split.
Context {alloc_resource : mem -> option Z} (Hfresh : forall m x, alloc_resource m = Some x -> m !! x = None) (Halloc : forall m, is_Some (alloc_resource m)).
Context (root type E : Z) (HE : E < 4294967296).

(** A resource outside the tree that holds the rest of the range. *)
Record pending (m : mem) (C : kids) (r lo hi : Z) : Prop := { pe_out : C !! r = None; pe_in : exists X, m !! r = Some X /\ child X = None /\ start X = lo /\ end_ X = hi }.

(** A piece with nothing in its way becomes a child. *)
Lemma request_free m C r lo hi l1 l2 R : tree m C -> C !! root = Some (l1 ++ l2) -> m !! root = Some R -> pending m C r lo hi -> 0 <= lo <= hi -> hi < 4294967296 -> start R <= lo -> hi <= end_ R ->
  (forall x X, x ∈ l1 -> m !! x = Some X -> end_ X < lo) -> (forall x X, x ∈ l2 -> m !! x = Some X -> hi < start X) ->
  exists m' C', __request_resource m root r = Ok (None, m') /\ tree m' C' /\ C' = <[root := l1 ++ r :: l2]> (<[r := []]> C) /\ same_ranges m m' /\ (forall x, x <> r -> x ∉ l1 ++ l2 -> x <> root -> m' !! x = m !! x).
Proof.
  intros HT Hl HR [Ho (N & HN & Hc & EN1 & EN2)] H0 H1 H2 H3 HL HRt. destruct (request_ok HT Ho HN Hc _ R Hl HR) as ([o m'] & Er & Ha). unfold answered in Ha. rewrite EN1, EN2 in Ha. rewrite (proj2 (Z.leb_le (start R) lo)), (proj2 (Z.leb_le lo hi)), (proj2 (Z.leb_le hi (end_ R))) in Ha by lia. cbn [andb] in Ha.
  assert (Hdis : forall x X, x ∈ l1 ++ l2 -> m !! x = Some X -> ~ overlap lo hi (start X) (end_ X)) by (intros x X Hx HX [O1 O2]; apply elem_of_app in Hx as [Hx|Hx]; [specialize (HL x X Hx HX)|specialize (HRt x X Hx HX)]; lia).
  destruct Ha as [(k1 & k2 & El & KL & KR & Eo)|(k1 & t & k2 & T & El & _ & HTt & Hov & _)]; [|exfalso; apply (Hdis t T); [rewrite El, elem_of_app, elem_of_cons; auto|done|done]]. injection Eo as -> ->.
  assert (Hin : forall x, x ∈ l1 ++ l2 -> exists X, m !! x = Some X /\ start X <= end_ X) by (intros x Hx; destruct (tree_kid HT root _ x Hl Hx) as (X & HX & _ & Rx & _); exists X; split; [done|lia]).
  assert (k1 = l1 /\ k2 = l2) as [-> ->].
  { apply app_eq_inv in El as [(k & Ea & Eb)|(k & Ea & Eb)]; (destruct k as [|x k]; [rewrite app_nil_r in Ea; cbn in Eb; auto|]); exfalso.
    - destruct (Hin x) as (X & HX & Hse); [rewrite Ea, !elem_of_app, elem_of_cons; auto|]. specialize (HL x X ltac:(rewrite Ea, elem_of_app, elem_of_cons; auto) HX). specialize (KR x X ltac:(rewrite Eb; apply elem_of_cons; auto) HX). lia.
    - destruct (Hin x) as (X & HX & Hse); [rewrite Eb, !elem_of_app, elem_of_cons; auto|]. specialize (KL x X ltac:(rewrite Ea, elem_of_app, elem_of_cons; auto) HX). specialize (HRt x X ltac:(rewrite Eb; apply elem_of_cons; auto) HX). lia. }
  eexists _, _. split; [done|]. split; [apply (wrap_request_tree HT Ho HN (l1 ++ l2) R); rewrite ?EN1, ?EN2; try done; lia|]. split; [done|]. split; [apply wrap_ranges|]. intros x Hxr Hx Hxo. rewrite elem_of_app in Hx. rewrite lookup_wrap. destruct (m !! x) as [X|]; [|done]. cbn. f_equal. rewrite wrap_other; [|done|tauto|apply not_elem_of_nil]. rewrite (proj2 (Z.eqb_neq x root)) by done. by destruct X.
Qed.

(** The same, with what it does to the tree. *)
Lemma request_piece m C r lo hi l1 l2 R : tree m C -> C !! root = Some (l1 ++ l2) -> m !! root = Some R -> pending m C r lo hi -> 0 <= lo <= hi -> hi < 4294967296 -> start R <= lo -> hi <= end_ R ->
  (forall x X, x ∈ l1 -> m !! x = Some X -> end_ X < lo) -> (forall x X, x ∈ l2 -> m !! x = Some X -> hi < start X) ->
  exists m' C', __request_resource m root r = Ok (None, m') /\ tree m' C' /\ C' !! root = Some (l1 ++ r :: l2) /\ kept m C m' C' /\ covered m' C' root lo hi /\ same_ranges m m' /\ (forall x a b, x <> r -> pending m C x a b -> pending m' C' x a b).
Proof.
  intros HT Hl HR HP H0 H1 H2 H3 HL HRt. destruct (request_free m C r lo hi l1 l2 R HT Hl HR HP H0 H1 H2 H3 HL HRt) as (m' & C' & E1 & HT' & EC & Es & Hsame). destruct HP as [Ho (X & HX & _ & EX1 & EX2)]. exists m', C'. split; [done|]. split; [done|]. assert (Hrr : root <> r) by congruence.
  assert (Hroot : C' !! root = Some (l1 ++ r :: l2)) by (rewrite EC; apply lookup_insert_eq). split; [done|]. split; [|split; [|split; [done|]]].
  - split; [intros x _; by apply same_rng|]. intros p l Hp. rewrite EC. destruct (decide (p = root)) as [->|Hpr]; [rewrite lookup_insert_eq; eexists; split; [done|]; assert (l = l1 ++ l2) as -> by congruence; intros x Hx; rewrite elem_of_app, elem_of_cons; apply elem_of_app in Hx; tauto|]. rewrite lookup_insert_ne, lookup_insert_ne by congruence. eauto.
  - intros a Ha. pose proof (get_rng m r X HX) as Er. rewrite <- (same_rng m m' r Es) in Er. destruct (rng_get m' r _ _ Er) as (X' & HX' & Ea & Eb). exists (l1 ++ r :: l2), r, X'. split; [done|]. split; [rewrite elem_of_app, elem_of_cons; auto|]. split; [done|]. lia.
  - intros x a b Hxr [Hxo (Y & HY & Yc & Y1 & Y2)]. assert (Hxl : x ∉ l1 ++ l2) by (intros Hx; destruct (ln_in _ _ (proj1 HT) root _ x Hl Hx); congruence). assert (Hxo' : x <> root) by congruence. split; [rewrite EC, lookup_insert_ne, lookup_insert_ne by congruence; done|]. exists Y. rewrite Hsame by done. done.
Qed.

(** The piece gets another range. *)
Lemma pending_range m C r lo hi lo' hi' : pending m C r lo hi -> modify m r (fun R => set_range R lo' hi') = Ok (upd m r (fun R => set_range R lo' hi')) /\ pending (upd m r (fun R => set_range R lo' hi')) C r lo' hi' /\ (forall x, is_Some (C !! x) -> upd m r (fun R => set_range R lo' hi') !! x = m !! x).
Proof.
  intros [Ho (X & HX & Hc & _)]. split; [apply modify_upd; by exists X|]. split; [split; [done|]; exists (set_range X lo' hi'); rewrite lookup_upd, HX; cbn; rewrite Z.eqb_refl; done|]. intros x Hx. rewrite lookup_upd, (proj2 (Z.eqb_neq x r)) by (intros ->; rewrite Ho in Hx; by destruct Hx). by destruct (m !! x).
Qed.

(** What a turn with [lo] as the start of the rest achieves. *)
Definition reserved (m : mem) (C : kids) (lo : Z) (o : res mem) : Prop := exists m' C', o = Ok m' /\ tree m' C' /\ kept m C m' C' /\ covered m' C' root lo E.

Lemma reserved_step m C m1 C1 lo mid o : tree m1 C1 -> kept m C m1 C1 -> covered m1 C1 root lo (mid - 1) -> reserved m1 C1 mid o -> reserved m C lo o.
Proof.
  intros HT1 HK Hc (m' & C' & Eo & HT' & HK' & Hc'). exists m', C'. split; [done|]. split; [done|]. split; [by apply (resources_kept_trans m C m1 C1)|]. apply (covered_join _ _ _ lo mid E); [by apply (covered_kept m1 C1)|done].
Qed.

Lemma rest_shrinks (m0 : mem) l1 l2 k1 t k2 T lo : l1 ++ l2 = k1 ++ t :: k2 -> (forall x X, x ∈ l1 -> m0 !! x = Some X -> end_ X < lo) -> m0 !! t = Some T -> lo <= end_ T -> (length k2 < length l2)%nat.
Proof.
  intros El HL HT Ht. apply app_eq_inv in El as [(k & Ea & Eb)|(k & Ea & Eb)]; [|rewrite Eb, length_app; cbn; lia]. destruct k as [|x k]; cbn in Eb; [rewrite <- Eb; cbn; lia|]. injection Eb as -> Eb. specialize (HL x T ltac:(rewrite Ea, elem_of_app, elem_of_cons; auto) HT). lia.
Qed.

Lemma covered_by m C t T l lo hi : C !! root = Some l -> t ∈ l -> m !! t = Some T -> start T <= lo -> hi <= end_ T -> covered m C root lo hi.
Proof. intros Hl Ht HT H1 H2 a Ha. exists l, t, T. split; [done|]. split; [done|]. split; [done|]. lia. Qed.

(** The turn that meets the child [t], from the turns behind it. *)
Section Turn.
Context {m : mem} {C : kids} {r lo t : Z} {k1 k2 : list Z} {X T R : resource} (HT : tree m C) (Hl : C !! root = Some (k1 ++ t :: k2)) (HR : m !! root = Some R) (HP : pending m C r lo E) (H0 : 0 <= lo <= E) (H1 : start R <= lo) (H2 : E <= end_ R).
Context (KL : forall x X, x ∈ k1 -> m !! x = Some X -> end_ X < lo) (HTt : m !! t = Some T) (Hov : overlap lo E (start T) (end_ T)).

Lemma t_facts : t ∈ k1 ++ t :: k2 /\ 0 <= start T <= end_ T /\ end_ T < 4294967296 /\ (forall x X, x ∈ k1 -> m !! x = Some X -> end_ X < start T) /\ (forall x X, x ∈ k2 -> m !! x = Some X -> end_ T < start X).
Proof.
  assert (Ht : t ∈ k1 ++ t :: k2) by (rewrite elem_of_app, elem_of_cons; auto). destruct (tree_kid HT root _ t Hl Ht) as (T' & HT' & _ & R1 & R2 & _). assert (T' = T) as -> by congruence. destruct (sorted_sides HT root k1 t k2 T Hl HTt) as [S1 S2]. auto.
Qed.

(** The child takes the rest. *)
Lemma turn_freed : start T <= lo -> E <= end_ T -> reserved m C lo (Ok (free_resource m r)).
Proof.
  intros A1 A2. destruct HP as [Ho _]. assert (He : forall x, is_Some (C !! x) -> free_resource m r !! x = m !! x) by (intros x Hx; unfold free_resource; apply lookup_delete_ne; intros <-; rewrite Ho in Hx; by destruct Hx). destruct t_facts as (Ht & _). exists (free_resource m r), C. split; [done|]. split; [by apply (tree_ext m)|]. split; [by apply kept_ext|].
  apply (covered_by _ _ t T (k1 ++ t :: k2)); [done|done|rewrite He; [done|by apply (ln_in _ _ (proj1 HT) root (k1 ++ t :: k2))]|done|done].
Qed.

(** The child is at the start of the rest. *)
Lemma turn_skip (o : mem -> res mem) : start T <= lo -> end_ T < E -> (forall m1, tree m1 C -> C !! root = Some ((k1 ++ [t]) ++ k2) -> m1 !! root = Some R -> pending m1 C r (end_ T + 1) E -> (forall x X, x ∈ k1 ++ [t] -> m1 !! x = Some X -> end_ X < end_ T + 1) -> reserved m1 C (end_ T + 1) (o m1)) ->
  reserved m C lo (m1 <-- modify m r (fun R => set_range R (end_ T + 1) E); o m1).
Proof.
  intros A1 A2 Hrest. destruct (pending_range m C r lo E (end_ T + 1) E HP) as (-> & HP1 & He). cbn [res_bind]. set (m1 := upd m r _) in *. assert (HT1 : tree m1 C) by (by apply (tree_ext m)). destruct t_facts as (Ht & R1 & R2 & S1 & S2). assert (Hk : forall x, x ∈ k1 ++ t :: k2 -> m1 !! x = m !! x) by (intros x Hx; apply He; by apply (ln_in _ _ (proj1 HT) root (k1 ++ t :: k2))).
  apply (reserved_step m C m1 C lo (end_ T + 1)); [done|by apply kept_ext|apply (covered_by _ _ t T (k1 ++ t :: k2)); [done|done|by rewrite Hk|done|lia]|]. apply Hrest; [done|by rewrite Hl, <- app_assoc|by rewrite He|done|].
  intros x Y Hx HY. rewrite Hk in HY by (rewrite elem_of_app, elem_of_cons; apply elem_of_app in Hx as [Hx|Hx%list_elem_of_singleton]; auto). apply elem_of_app in Hx as [Hx|Hx%list_elem_of_singleton]; [specialize (S1 x Y Hx HY); lia|subst x; assert (Y = T) as -> by congruence; lia].
Qed.

(** The piece before the child becomes a resource. *)
Lemma turn_piece m2 : lo < start T -> (forall x, is_Some (C !! x) -> m2 !! x = m !! x) -> pending m2 C r lo (start T - 1) ->
  exists m3 C3 R3, __request_resource m2 root r = Ok (None, m3) /\ tree m3 C3 /\ C3 !! root = Some ((k1 ++ [r; t]) ++ k2) /\ kept m C m3 C3 /\ covered m3 C3 root lo (end_ T) /\ m3 !! root = Some R3 /\ start R3 = start R /\ end_ R3 = end_ R /\
    (forall x Y, x ∈ k1 ++ [r; t] -> m3 !! x = Some Y -> end_ Y < end_ T + 1) /\ (forall x a b, x <> r -> pending m2 C x a b -> pending m3 C3 x a b).
Proof.
  intros A1 He HP2. destruct t_facts as (Ht & R1 & R2 & S1 & S2). pose proof (tree_ext m m2 C HT He) as HT2. assert (Hk : forall x, x ∈ k1 ++ t :: k2 -> m2 !! x = m !! x) by (intros x Hx; apply He; by apply (ln_in _ _ (proj1 HT) root (k1 ++ t :: k2))). assert (HR2 : m2 !! root = Some R) by (rewrite He by eauto; done). destruct Hov as [O1 O2].
  destruct (request_piece m2 C r lo (start T - 1) k1 (t :: k2) R HT2 Hl HR2 HP2) as (m3 & C3 & Er & HT3 & Hroot & HK & Hc & Hs & Hpe); [lia|lia|done|lia|intros x Y Hx; rewrite Hk by (rewrite elem_of_app; auto); by apply KL| |].
  { intros x Y Hx. rewrite Hk by (rewrite elem_of_app; auto). intros HY. apply elem_of_cons in Hx as [->|Hx]; [assert (Y = T) as -> by congruence; lia|]. specialize (S2 x Y Hx HY). lia. }
  pose proof (get_rng m2 root R HR2) as Ero. rewrite <- (same_rng m2 m3 root Hs) in Ero. destruct (rng_get m3 root _ _ Ero) as (R3 & HR3 & Ea & Eb). assert (HK' : kept m C m3 C3) by (apply (resources_kept_trans m C m2 C); [by apply kept_ext|done]).
  assert (Hrg : forall x, x ∈ k1 ++ t :: k2 -> rng m3 x = rng m x) by (intros x Hx; apply (ke_rng _ _ _ _ HK'); by apply (ln_in _ _ (proj1 HT) root (k1 ++ t :: k2))). pose proof (Hrg t Ht) as Et. rewrite (get_rng m t T HTt) in Et. destruct (rng_get m3 t _ _ Et) as (T3 & HT3' & Ec & Ed).
  exists m3, C3, R3. split; [done|]. split; [done|]. split; [by rewrite Hroot, <- app_assoc|]. split; [done|]. split; [apply (covered_join _ _ _ lo (start T) (end_ T)); [done|apply (covered_by m3 C3 t T3 (k1 ++ r :: t :: k2)); [done|rewrite elem_of_app, !elem_of_cons; auto|done|lia|lia]]|]. do 3 (split; [done|]). split; [|done].
  intros x Y Hx HY. apply elem_of_app in Hx as [Hx|Hx]; [|apply elem_of_cons in Hx as [->|Hx%list_elem_of_singleton]].
  - pose proof (Hrg x ltac:(rewrite elem_of_app; auto)) as Ex. rewrite (get_rng m3 x Y HY) in Ex. symmetry in Ex. destruct (rng_get m x _ _ Ex) as (Y0 & HY0 & _ & Ey). specialize (S1 x Y0 Hx HY0). lia.
  - destruct HP2 as [_ (X2 & HX2 & _ & _ & E2)]. pose proof (same_rng m2 m3 r Hs) as Ex. rewrite (get_rng m3 r Y HY), (get_rng m2 r X2 HX2) in Ex. injection Ex as _ Ex. lia.
  - subst x. assert (Y = T3) as -> by congruence. lia.
Qed.
End Turn.

Lemma new_region_ok m lo hi : exists x, new_region alloc_resource m lo hi type = Some (x, <[x := mk_res lo hi (Z.lor type IORESOURCE_BUSY) IORES_DESC_NONE None None None]> m) /\ m !! x = None.
Proof. destruct (Halloc m) as [x Hx]. exists x. unfold new_region. rewrite Hx. split; [done|by apply Hfresh]. Qed.

Lemma split_loop_ok n : forall fuel m C r lo l1 l2 R, (length l2 <= n)%nat -> (2 * n + 1 < fuel)%nat -> tree m C -> C !! root = Some (l1 ++ l2) -> m !! root = Some R -> pending m C r lo E -> 0 <= lo <= E -> start R <= lo -> E <= end_ R ->
  (forall x X, x ∈ l1 -> m !! x = Some X -> end_ X < lo) -> reserved m C lo (split_loop alloc_resource fuel m root r None type).
Proof.
  induction n as [|n IH]; intros fuel m C r lo l1 l2 R Hn Hf HT Hl HR HP H0 H1 H2 HL; (destruct fuel as [|fuel]; [lia|]); cbn [split_loop]; pose proof HP as [Ho (X & HX & Hc & EX1 & EX2)].
  all: destruct (request_ok HT Ho HX Hc _ R Hl HR) as ([o m'] & Er & Ha); unfold answered in Ha; rewrite EX1, EX2 in Ha; rewrite (proj2 (Z.leb_le (start R) lo)), (proj2 (Z.leb_le lo E)), (proj2 (Z.leb_le E (end_ R))) in Ha by lia; cbn [andb] in Ha.
  all: destruct Ha as [(k1 & k2 & El & KL & KR & Eo)|(k1 & t & k2 & T & El & KL & HTt & Hov & Eo)]; injection Eo as -> ->.
  1, 3: rewrite El in Hl; destruct (request_piece m C r lo E k1 k2 R HT Hl HR HP H0 HE H1 H2 KL KR) as (m' & C' & Er' & HT' & _ & HK & Hc' & _); rewrite Er'; cbn [res_bind]; by exists m', C'.
  { exfalso. pose proof (rest_shrinks m l1 l2 k1 t k2 T lo El HL HTt (proj1 Hov)). lia. }
  pose proof (rest_shrinks m l1 l2 k1 t k2 T lo El HL HTt (proj1 Hov)) as Hlen. rewrite El in Hl. destruct (t_facts HT Hl HTt) as (Ht & R1 & R2 & S1 & S2). rewrite Er. cbn [res_bind]. rewrite (get_ok m t T HTt), (get_ok m r X HX). cbn [res_bind]. rewrite EX1, EX2. destruct Hov as [O1 O2].
  destruct ((start T <=? lo) && (E <=? end_ T)) eqn:Eb; [apply andb_true_iff in Eb as [A1%Z.leb_le A2%Z.leb_le]; exact (turn_freed HT Hl HP HTt A1 A2)|]. destruct (Z.ltb_spec lo (start T)) as [A1|A1].
  - rewrite (u32_small (start T - 1)) by lia. assert (Emod : modify m r (fun R => set_range R (start R) (start T - 1)) = modify m r (fun R => set_range R lo (start T - 1))) by (rewrite !(modify_ok m r X) by done; by rewrite EX1). rewrite Emod. destruct (pending_range m C r lo E lo (start T - 1) HP) as (-> & HP1 & He). cbn [res_bind]. set (m1 := upd m r _) in *. destruct fuel as [|fuel]; [lia|]. destruct (Z.ltb_spec (end_ T) E) as [A2|A2].
    + rewrite (u32_small (end_ T + 1)) by lia. destruct (new_region_ok m1 (end_ T + 1) E) as (x & -> & Hx). set (m2 := <[x := _]> m1). destruct HP1 as [_ (X1 & HX1 & Hc1 & E1 & E2)]. assert (Hxr : x <> r) by congruence. assert (HCx : C !! x = None) by (destruct (C !! x) as [lx|] eqn:E'; [|done]; destruct (tree_in HT x lx E') as (Y & HY & _); rewrite He in Hx by eauto; congruence).
      assert (He2 : forall y, is_Some (C !! y) -> m2 !! y = m !! y) by (intros y Hy; unfold m2; rewrite lookup_insert_ne by (intros <-; rewrite HCx in Hy; by destruct Hy); by apply He). assert (HP2 : pending m2 C r lo (start T - 1)) by (split; [done|]; exists X1; unfold m2; by rewrite lookup_insert_ne).
      assert (HPx : pending m2 C x (end_ T + 1) E) by (split; [done|]; eexists; unfold m2; rewrite lookup_insert_eq; done).
      destruct (turn_piece HT Hl HR H0 H1 H2 KL HTt (conj O1 O2) m2 A1 He2 HP2) as (m3 & C3 & R3 & Er3 & HT3 & Hroot & HK & Hcov & HR3 & Ra & Rb & HL3 & Hpe). cbn [split_loop]. rewrite Er3. cbn [res_bind].
      apply (reserved_step m C m3 C3 lo (end_ T + 1)); [done|done|by replace (end_ T + 1 - 1) with (end_ T) by lia|]. apply (IH fuel m3 C3 x (end_ T + 1) (k1 ++ [r; t]) k2 R3); try done; try lia. by apply Hpe.
    + destruct (turn_piece HT Hl HR H0 H1 H2 KL HTt (conj O1 O2) m1 A1 He HP1) as (m3 & C3 & R3 & Er3 & HT3 & _ & HK & Hcov & _). cbn [split_loop]. rewrite Er3. cbn [res_bind]. exists m3, C3. split; [done|]. split; [done|]. split; [done|]. intros a Ha. apply Hcov. lia.
  - apply andb_false_iff in Eb as [Eb|Eb]; [apply Z.leb_gt in Eb; lia|]. apply Z.leb_gt in Eb. rewrite (u32_small (end_ T + 1)) by lia. assert (Emod : modify m r (fun R => set_range R (end_ T + 1) (end_ R)) = modify m r (fun R => set_range R (end_ T + 1) E)) by (rewrite !(modify_ok m r X) by done; by rewrite EX2). rewrite Emod.
    apply (turn_skip HT Hl HR HP HTt (fun m1 => split_loop alloc_resource fuel m1 root r None type) A1 Eb). intros m1 HT1 Hl1 HR1 HP1 HL1. apply (IH fuel m1 C r (end_ T + 1) (k1 ++ [t]) k2 R); try done; lia.
Qed.
End Split.

(** C25: When memory for resources does not run out, [reserve_region_with_split] ends and leaves every address of the range that belongs to the parent inside one of its children: what was free is reserved, and every resource that was there is still there, with its range and its place in the tree. *)
Theorem reserve_region_with_split_correct alloc_resource m C root l R s e : (forall m x, alloc_resource m = Some x -> m !! x = None) -> (forall m, is_Some (alloc_resource m)) ->
  tree m C -> C !! root = Some l -> m !! root = Some R -> s <= e ->
  exists m' C', reserve_region_with_split alloc_resource m root s e = Ok m' /\ tree m' C' /\ kept m C m' C' /\ covered m' C' root (Z.max s (start R)) (Z.min e (end_ R)).
Proof.
  intros Hfresh Halloc HT Hl HR Hse. destruct (tree_in HT root l Hl) as (R' & HR' & _ & R1 & R2). assert (R' = R) as -> by congruence. unfold reserve_region_with_split. rewrite (get_ok m root R HR). cbn [res_bind].
  assert (Hmain : forall lo hi, start R <= lo <= hi -> hi <= end_ R -> exists m' C', __reserve_region_with_split alloc_resource m root lo hi = Ok m' /\ tree m' C' /\ kept m C m' C' /\ covered m' C' root lo hi).
  { intros lo hi H1 H2. unfold __reserve_region_with_split. rewrite (get_ok m root R HR). cbn [res_bind]. destruct (new_region_ok Hfresh Halloc (resource_type R) m lo hi) as (x & -> & Hx). set (m1 := <[x := _]> m).
    assert (HCx : C !! x = None) by (destruct (C !! x) as [lx|] eqn:E'; [|done]; destruct (tree_in HT x lx E') as (Y & HY & _); congruence). assert (He : forall y, is_Some (C !! y) -> m1 !! y = m !! y) by (intros y Hy; unfold m1; apply lookup_insert_ne; intros <-; rewrite HCx in Hy; by destruct Hy). pose proof (tree_ext m m1 C HT He) as HT1.
    destruct (split_loop_ok Hfresh Halloc root (resource_type R) hi ltac:(lia) (length l) (3 * turns m1) m1 C x lo [] l R) as (m' & C' & Eo & HT' & HK & Hc); try done; try lia.
    - pose proof (kids_length HT1 root l Hl). lia.
    - by rewrite He.
    - split; [done|]. eexists. unfold m1. rewrite lookup_insert_eq. done.
    - intros y Y Hy. by apply elem_of_nil in Hy.
    - exists m', C'. split; [done|]. split; [done|]. split; [|done]. apply (resources_kept_trans m C m1 C); [by apply kept_ext|done]. }
  destruct ((s <? start R) || (end_ R <? e)) eqn:E1.
  - destruct ((end_ R <? s) || (e <? start R)) eqn:E2; [exists m, C; split; [done|]; split; [done|]; split; [apply resources_kept_refl|]; intros a Ha; apply orb_true_iff in E2 as [E2|E2]; apply Z.ltb_lt in E2; lia|]. apply orb_false_iff in E2 as [E2%Z.ltb_ge E3%Z.ltb_ge].
    replace (if s <? start R then start R else s) with (Z.max s (start R)) by (destruct (Z.ltb_spec s (start R)); lia). replace (if end_ R <? e then end_ R else e) with (Z.min e (end_ R)) by (destruct (Z.ltb_spec (end_ R) e); lia). apply Hmain; lia.
  - apply orb_false_iff in E1 as [E1%Z.ltb_ge E2%Z.ltb_ge]. rewrite Z.max_l, Z.min_l by lia. apply Hmain; lia.
Qed.

(** An allocator that takes the first address above those in use. *)
Definition first_above (m : mem) : option Z := Some (1 + foldr Z.max 0 (map_to_list m).*1).
Lemma max_above (j : list Z) y : y ∈ j -> y <= foldr Z.max 0 j.
Proof. induction j as [|z j IH]; intros Hy; [by apply elem_of_nil in Hy|]. cbn. apply elem_of_cons in Hy as [->|Hy]; [lia|]. specialize (IH Hy). lia. Qed.
Lemma first_above_fresh m x : first_above m = Some x -> m !! x = None.
Proof.
  intros E. injection E as <-. apply eq_None_not_Some. intros [X HX]. apply elem_of_map_to_list in HX. pose proof (max_above (map_to_list m).*1 (1 + foldr Z.max 0 (map_to_list m).*1)) as Hm. rewrite list_elem_of_fmap in Hm. specialize (Hm ltac:(by eexists (_, X))). lia.
Qed.

(** Around the two regions. *)
Lemma reserve_region_with_split_correct_witness : exists m' C', reserve_region_with_split first_above sample_mem 1 0 32767 = Ok m' /\ tree m' C' /\ covered m' C' 1 0 32767.
Proof.
  destruct (reserve_region_with_split_correct first_above sample_mem sample_kids 1 [2; 3] (mk_res 0 65535 512 0 None None (Some 2)) 0 32767 first_above_fresh ltac:(intros m; by eexists) sample_tree eq_refl eq_refl ltac:(lia)) as (m' & C' & E & HT & _ & Hc). exists m', C'. exact (conj E (conj HT Hc)).
Defined.
