(* ===== verification/MemblockTypes.v ===== *)
(** * memblock: region arrays (mm/memblock.c, include/linux/memblock.h)

    The data of the boot-time allocator and the operations on one region
    array: insertion, removal and merging of regions, the counting/inserting
    scan of [memblock_add_range] and the splitting scan of
    [memblock_isolate_range].  [attr_at] is the abstract view of an array (the
    attributes of every address); [wf_type] is the invariant of an array. *)

From S2P Require Import Prelude.
Local Open Scope res_scope.

(** [phys_addr_t] is [u32] in this build: [CONFIG_PHYS_ADDR_T_64BIT] is not set. *)
Definition PHYS_ADDR_MAX : Z := 4294967295.
Definition MAX_NUMNODES : Z := 4.
Definition NUMA_NO_NODE : Z := -1.

Definition MEMBLOCK_NONE : Z := 0.
Definition MEMBLOCK_HOTPLUG : Z := 1.
Definition MEMBLOCK_MIRROR : Z := 2.
Definition MEMBLOCK_NOMAP : Z := 4.

Record memblock_region := MkRegion {
  r_base : Z;
  r_size : Z;
  r_flags : Z;
  r_nid : Z
}.

#[export] Instance memblock_region_eq_dec : EqDecision memblock_region.
Proof. solve_decision. Defined.

(** Where the array of a type lives: the static array of the image, or memory
    that [memblock_double_array] took from memblock itself. *)
Inductive array_loc := InitRegions | RegionsAt (addr : Z).

(** [regions] is the live part of the array, its first [cnt] entries; the
    entries from [cnt] to [max] are never read before they are written. *)
Record memblock_type := MkType {
  regions : list memblock_region;
  max : Z;
  total_size : Z;
  array : array_loc
}.

Definition cnt (t : memblock_type) : nat := length (regions t).

Definition set_regions (t : memblock_type) (rs : list memblock_region) (total : Z) : memblock_type :=
  MkType rs (max t) total (array t).

(** [rgn->base + rgn->size], in [phys_addr_t]. *)
Definition rgn_end (r : memblock_region) : Z := u32 (r_base r + r_size r).

Definition memblock_is_hotpluggable (m : memblock_region) : bool :=
  negb (Z.land (r_flags m) MEMBLOCK_HOTPLUG =? 0).
Definition memblock_is_mirror (m : memblock_region) : bool :=
  negb (Z.land (r_flags m) MEMBLOCK_MIRROR =? 0).
Definition memblock_is_nomap (m : memblock_region) : bool :=
  negb (Z.land (r_flags m) MEMBLOCK_NOMAP =? 0).

Definition memblock_set_region_node (r : memblock_region) (n : Z) : memblock_region :=
  MkRegion (r_base r) (r_size r) (r_flags r) n.
Definition memblock_get_region_node (r : memblock_region) : Z := r_nid r.

Definition memblock_cap_size (b s : Z) : Z := Z.min s (u32 (PHYS_ADDR_MAX - b)).

Definition memblock_addrs_overlap (base1 size1 base2 size2 : Z) : bool :=
  (base1 <? u32 (base2 + size2)) && (base2 <? u32 (base1 + size1)).

(** The loop [for (i = 0; i < type->cnt; i++)] over the regions, with its break. *)
Fixpoint memblock_overlaps_list (rs : list memblock_region) (b s : Z) : bool :=
  match rs with
  | [] => false
  | r :: rs => if memblock_addrs_overlap b s (r_base r) (r_size r) then true
               else memblock_overlaps_list rs b s
  end.

Definition memblock_overlaps_region (t : memblock_type) (b s : Z) : bool :=
  memblock_overlaps_list (regions t) b s.

(** ** Insertion and removal *)

Definition memblock_insert_region (t : memblock_type) (idx : nat) (b s n fl : Z)
  : res memblock_type :=
  if max t <=? Z.of_nat (cnt t) then Fault BugOn
  else Ok (set_regions t
             (take idx (regions t) ++ MkRegion b s fl n :: drop idx (regions t))
             (u32 (total_size t + s))).

Definition memblock_remove_region (t : memblock_type) (r : nat) : res memblock_type :=
  rgn <-- array_get (regions t) r;
  let total := u32 (total_size t - r_size rgn) in
  let rs := delete r (regions t) in
  (* special case for empty arrays *)
  if (length rs =? 0)%nat then Ok (set_regions t [MkRegion 0 0 0 MAX_NUMNODES] total)
  else Ok (set_regions t rs total).

(** ** Merging neighbouring compatible regions *)

Fixpoint merge_loop (fuel i : nat) (rs : list memblock_region) : res (list memblock_region) :=
  match fuel with
  | O => Fault NoFuel
  | S fuel =>
    if (i <? length rs - 1)%nat then
      this <-- array_get rs i;
      next <-- array_get rs (S i);
      if negb (rgn_end this =? r_base next)
         || negb (memblock_get_region_node this =? memblock_get_region_node next)
         || negb (r_flags this =? r_flags next)
      then
        if r_base next <? rgn_end this then Fault BugOn
        else merge_loop fuel (S i) rs
      else
        merge_loop fuel i
          (delete (S i)
             (<[i := MkRegion (r_base this) (u32 (r_size this + r_size next))
                              (r_flags this) (r_nid this)]> rs))
    else Ok rs
  end.

Definition memblock_merge_regions (t : memblock_type) : res memblock_type :=
  rs <-- merge_loop (S (cnt t)) 0 (regions t);
  Ok (set_regions t rs (total_size t)).

(** ** The scan of [memblock_add_range]

    [add_loop] is the [for_each_memblock_type] loop; [insert] tells the counting
    round from the inserting one.  It returns the array, the index at which the
    loop stopped, the first address still to be added and the region count. *)

Fixpoint add_loop (fuel : nat) (insert : bool) (t : memblock_type) (idx : nat)
    (b e n fl nr_new : Z) : res (memblock_type * nat * Z * Z) :=
  match fuel with
  | O => Fault NoFuel
  | S fuel =>
    match regions t !! idx with
    | None => Ok (t, idx, b, nr_new)
    | Some rgn =>
      let rbase := r_base rgn in
      let rend := rgn_end rgn in
      if e <=? rbase then Ok (t, idx, b, nr_new)
      else if rend <=? b then add_loop fuel insert t (S idx) b e n fl nr_new
      else
        if b <? rbase then
          if insert then
            t' <-- memblock_insert_region t idx b (u32 (rbase - b)) n fl;
            add_loop fuel insert t' (S (S idx)) (Z.min rend e) e n fl (nr_new + 1)
          else add_loop fuel insert t (S idx) (Z.min rend e) e n fl (nr_new + 1)
        else add_loop fuel insert t (S idx) (Z.min rend e) e n fl nr_new
    end
  end.

(** One round: the loop and the insertion of the remaining portion. *)
Definition add_pass (insert : bool) (t : memblock_type) (b e n fl : Z)
  : res (memblock_type * Z) :=
  '(t1, idx, b1, nr_new) <-- add_loop (S (cnt t)) insert t 0 b e n fl 0;
  if b1 <? e then
    if insert then
      t2 <-- memblock_insert_region t1 idx b1 (u32 (e - b1)) n fl;
      Ok (t2, nr_new + 1)
    else Ok (t1, nr_new + 1)
  else Ok (t1, nr_new).

(** ** The scan of [memblock_isolate_range] *)

Fixpoint isolate_loop (fuel : nat) (t : memblock_type) (idx : nat) (b e : Z)
    (start_rgn end_rgn : nat) : res (memblock_type * nat * nat) :=
  match fuel with
  | O => Fault NoFuel
  | S fuel =>
    match regions t !! idx with
    | None => Ok (t, start_rgn, end_rgn)
    | Some rgn =>
      let rbase := r_base rgn in
      let rend := rgn_end rgn in
      if e <=? rbase then Ok (t, start_rgn, end_rgn)
      else if rend <=? b then isolate_loop fuel t (S idx) b e start_rgn end_rgn
      else if rbase <? b then
        (* intersects from below: split and go on with the new top half *)
        let top := MkRegion b (u32 (r_size rgn - (b - rbase))) (r_flags rgn) (r_nid rgn) in
        let t1 := set_regions t (<[idx := top]> (regions t)) (u32 (total_size t - (b - rbase))) in
        t2 <-- memblock_insert_region t1 idx rbase (u32 (b - rbase))
                 (memblock_get_region_node top) (r_flags top);
        isolate_loop fuel t2 (S idx) b e start_rgn end_rgn
      else if e <? rend then
        (* intersects from above: split and redo the new bottom half *)
        let top := MkRegion e (u32 (r_size rgn - (e - rbase))) (r_flags rgn) (r_nid rgn) in
        let t1 := set_regions t (<[idx := top]> (regions t)) (u32 (total_size t - (e - rbase))) in
        t2 <-- memblock_insert_region t1 idx rbase (u32 (e - rbase))
                 (memblock_get_region_node top) (r_flags top);
        isolate_loop fuel t2 idx b e start_rgn end_rgn
      else
        (* fully contained: record it *)
        isolate_loop fuel t (S idx) b e
          (if (end_rgn =? 0)%nat then idx else start_rgn) (S idx)
    end
  end.

(** The scan after the capacity check: at most two splits, so at most
    [cnt + 2] regions are visited and one of them twice. *)
Definition isolate_scan (t : memblock_type) (b e : Z) : res (memblock_type * nat * nat) :=
  isolate_loop (cnt t + 4) t 0 b e 0 0.

(** [for (i = end_rgn - 1; i >= start_rgn; i--) memblock_remove_region(type, i);]
    with [n = end_rgn - start_rgn]. *)
Fixpoint remove_loop (n start_rgn : nat) (t : memblock_type) : res memblock_type :=
  match n with
  | O => Ok t
  | S n =>
    t1 <-- memblock_remove_region t (start_rgn + n)%nat;
    remove_loop n start_rgn t1
  end.

(** [for (i = start_rgn; i < end_rgn; i++) update(&type->regions[i]);] *)
Fixpoint update_loop (f : memblock_region -> memblock_region) (n i : nat)
    (rs : list memblock_region) : res (list memblock_region) :=
  match n with
  | O => Ok rs
  | S n =>
    r <-- array_get rs i;
    update_loop f n (S i) (<[i := f r]> rs)
  end.

(** ** The abstract view of an array *)

(** [rgn_has r x]: address [x] lies in region [r]. *)
Definition rgn_has (r : memblock_region) (x : Z) : bool :=
  (r_base r <=? x) && (x <? r_base r + r_size r).

(** The attributes (flags and node) of an address, if the array covers it. *)
Fixpoint attr_at (rs : list memblock_region) (x : Z) : option (Z * Z) :=
  match rs with
  | [] => None
  | r :: rs => if rgn_has r x then Some (r_flags r, r_nid r) else attr_at rs x
  end.

Fixpoint sum_size (rs : list memblock_region) : Z :=
  match rs with
  | [] => 0
  | r :: rs => r_size r + sum_size rs
  end.

(** Non-empty regions, sorted, disjoint, all at or above [lo] and ending in range. *)
Fixpoint wf_from (lo : Z) (rs : list memblock_region) : Prop :=
  match rs with
  | [] => True
  | r :: rs =>
    lo <= r_base r /\ 0 < r_size r /\ r_base r + r_size r <= PHYS_ADDR_MAX
    /\ wf_from (r_base r + r_size r) rs
  end.

(** Two neighbours that [memblock_merge_regions] would merge. *)
Definition mergeable (r1 r2 : memblock_region) : Prop :=
  r_base r1 + r_size r1 = r_base r2 /\ r_nid r1 = r_nid r2 /\ r_flags r1 = r_flags r2.

Fixpoint minimal (rs : list memblock_region) : Prop :=
  match rs with
  | r1 :: ((r2 :: _) as rs') => ~ mergeable r1 r2 /\ minimal rs'
  | _ => True
  end.

(** An empty array keeps one dummy region of size 0 at address 0. *)
Definition dummy (rs : list memblock_region) : Prop :=
  exists fl n, rs = [MkRegion 0 0 fl n].

Definition wf_regions (rs : list memblock_region) : Prop :=
  dummy rs \/ (rs <> [] /\ wf_from 0 rs).

Definition wf_type (t : memblock_type) : Prop :=
  wf_regions (regions t)
  /\ total_size t = sum_size (regions t)
  /\ Z.of_nat (cnt t) <= max t.
