(* ===== verification/MemblockRegions.v ===== *)
(** * memblock: what the array operations compute

    Lemmas on the operations of MemblockTypes: the loops terminate and compute
    list functions ([fill], [merge_list], [isolated], removal, update), and
    these have the intended effect on the attributes of every address.  Sorted
    minimal arrays are canonical ([canonical]). *)

From S2P Require Import Prelude MemblockTypes.
Local Open Scope res_scope.

(** ** Basic facts *)

Lemma wf_from_weaken lo lo' rs : lo' <= lo -> wf_from lo rs -> wf_from lo' rs.
Proof. destruct rs; simpl; [done|]. intuition lia. Qed.

Lemma wf_from_bound lo rs : wf_from lo rs -> sum_size rs <= Z.max 0 (PHYS_ADDR_MAX - lo) /\ 0 <= sum_size rs.
Proof.
  revert lo. induction rs as [|r rs IH]; simpl; intros lo H; [lia|].
  destruct H as (?&?&?&H). apply IH in H. lia.
Qed.

(** The end of the last region of [rs], [lo] when there is none. *)
Fixpoint end_of (lo : Z) (rs : list memblock_region) : Z :=
  match rs with
  | [] => lo
  | r :: rs => end_of (r_base r + r_size r) rs
  end.

Lemma wf_from_app lo rs1 rs2 :
  wf_from lo (rs1 ++ rs2) <-> wf_from lo rs1 /\ wf_from (end_of lo rs1) rs2.
Proof. revert lo. induction rs1 as [|r rs1 IH]; intros lo; simpl; [tauto|]. rewrite IH. tauto. Qed.

Lemma end_of_ge lo rs : wf_from lo rs -> lo <= end_of lo rs.
Proof.
  revert lo. induction rs as [|r rs IH]; simpl; intros lo H; [lia|].
  destruct H as (?&?&?&H). apply IH in H. lia.
Qed.

Lemma attr_at_below lo rs x : wf_from lo rs -> x < lo -> attr_at rs x = None.
Proof.
  revert lo. induction rs as [|r rs IH]; simpl; intros lo H Hx; [done|].
  destruct H as (?&?&?&H). unfold rgn_has.
  destruct (Z.leb_spec (r_base r) x); simpl; [lia|]. eapply IH; [done|lia].
Qed.

Lemma attr_at_range lo rs x : wf_from lo rs -> attr_at rs x <> None -> lo <= x < PHYS_ADDR_MAX.
Proof.
  revert lo. induction rs as [|r rs IH]; simpl; intros lo H Hx; [done|].
  destruct H as (?&?&?&H). destruct (rgn_has r x) eqn:Hr.
  - unfold rgn_has in Hr. zbool. lia.
  - specialize (IH _ H Hx). lia.
Qed.

Lemma attr_at_app lo rs1 rs2 x :
  wf_from lo (rs1 ++ rs2) ->
  attr_at (rs1 ++ rs2) x = match attr_at rs1 x with Some a => Some a | None => attr_at rs2 x end.
Proof.
  revert lo. induction rs1 as [|r rs1 IH]; simpl; intros lo H; [done|].
  destruct H as (?&?&?&H). destruct (rgn_has r x); [done|]. eauto.
Qed.

Lemma attr_at_dummy rs x : dummy rs -> attr_at rs x = None.
Proof.
  intros (fl&n&->). cbn [attr_at]. unfold rgn_has. cbn [r_base r_size].
  zcase; auto.
Qed.

Lemma sum_size_app rs1 rs2 : sum_size (rs1 ++ rs2) = sum_size rs1 + sum_size rs2.
Proof. induction rs1; simpl; lia. Qed.

Lemma rgn_end_wf lo r rs : 0 <= lo -> wf_from lo (r :: rs) -> rgn_end r = r_base r + r_size r.
Proof. simpl. unfold rgn_end, PHYS_ADDR_MAX. intros ? (?&?&?&?). wrap. done. Qed.

(** ** The result of adding a range, as a list function *)

Section fill.
Context (n fl : Z).

(** The gaps of [b, e) that no region covers, inserted as new regions. *)
Fixpoint fill (b e : Z) (rs : list memblock_region) : list memblock_region :=
  match rs with
  | [] => if b <? e then [MkRegion b (e - b) fl n] else []
  | r :: rs =>
    let rend := r_base r + r_size r in
    if e <=? r_base r then
      (if b <? e then [MkRegion b (e - b) fl n] else []) ++ r :: rs
    else if rend <=? b then r :: fill b e rs
    else (if b <? r_base r then [MkRegion b (r_base r - b) fl n] else [])
           ++ r :: fill (Z.min rend e) e rs
  end.

Lemma fill_wf lo lo' b e rs :
  wf_from lo rs -> lo' <= lo -> (b < e -> lo' <= b) -> e <= PHYS_ADDR_MAX ->
  wf_from lo' (fill b e rs).
Proof.
  revert lo lo' b. induction rs as [|r rs IH]; simpl; intros lo lo' b H Hlo Hb He.
  { zcase; simpl; auto; lia. }
  destruct H as (?&?&?&H). zcase; simpl; repeat split; auto; try lia;
    eapply IH; eauto; lia.
Qed.

Lemma fill_attr lo b e rs x :
  wf_from lo rs ->
  attr_at (fill b e rs) x =
    match attr_at rs x with
    | Some a => Some a
    | None => if (b <=? x) && (x <? e) then Some (fl, n) else None
    end.
Proof.
  revert lo b. induction rs as [|r rs IH]; simpl; intros lo b H.
  { unfold rgn_has; zcase; simpl; unfold rgn_has; simpl; zcase; simpl; auto; lia. }
  destruct H as (?&?&?&H).
  pose proof (attr_at_below _ _ x H) as Hbelow.
  assert (Hr : forall b', attr_at (r :: fill b' e rs) x =
    if rgn_has r x then Some (r_flags r, r_nid r) else
    match attr_at rs x with
    | Some a => Some a
    | None => if (b' <=? x) && (x <? e) then Some (fl, n) else None
    end) by (intros b'; simpl; by rewrite (IH _ _ H)).
  revert Hr Hbelow. unfold rgn_has. zcase; simpl; intros Hr Hbelow;
    repeat (rewrite Hr); simpl; unfold rgn_has; simpl; zcase; simpl; auto;
    try (rewrite Hbelow by lia; auto); destruct (attr_at rs x); auto; zcase; auto; lia.
Qed.

Lemma fill_length b e rs : (length rs <= length (fill b e rs))%nat.
Proof.
  revert b. induction rs as [|r rs IH]; intros b; simpl; [lia|].
  zcase; simpl; try lia; try (specialize (IH b); lia);
    specialize (IH (Z.min (r_base r + r_size r) e)); lia.
Qed.

Lemma fill_nonempty b e rs : rs <> [] -> fill b e rs <> [].
Proof.
  intros H E. apply (f_equal length) in E. pose proof (fill_length b e rs).
  destruct rs; simpl in *; [done|]. lia.
Qed.

(** Nothing to insert exactly when the range is covered: the array is unchanged. *)
Lemma fill_same b e rs : length (fill b e rs) = length rs -> fill b e rs = rs.
Proof.
  revert b. induction rs as [|r rs IH]; intros b; simpl.
  { zcase; simpl; auto; lia. }
  pose proof (fill_length b e rs). pose proof (fill_length (Z.min (r_base r + r_size r) e) e rs).
  zcase; simpl; intros L; try lia; auto; f_equal; apply IH; lia.
Qed.
End fill.

(** ** The loops compute the list functions *)

Lemma set_regions_id t : set_regions t (regions t) (total_size t) = t.
Proof. by destruct t. Qed.

(** An array whose size counter agrees with its regions, up to the wrap-around. *)
Definition counted (t : memblock_type) : Prop := total_size t = u32 (sum_size (regions t)).

Definition set_counted (t : memblock_type) (rs : list memblock_region) : memblock_type :=
  set_regions t rs (u32 (sum_size rs)).

Lemma set_counted_id t : counted t -> set_counted t (regions t) = t.
Proof. intros H. unfold set_counted. rewrite <- H. apply set_regions_id. Qed.

Lemma counted_set t rs : counted (set_counted t rs).
Proof. reflexivity. Qed.
#[export] Hint Resolve counted_set : kernel.

Lemma insert_region_ok t pre post b s n fl :
  regions t = pre ++ post -> counted t -> Z.of_nat (cnt t) < max t ->
  memblock_insert_region t (length pre) b s n fl
  = Ok (set_counted t (pre ++ MkRegion b s fl n :: post)).
Proof.
  intros E Hc Hmax. unfold memblock_insert_region. zcase.
  rewrite E, take_app_len, drop_app_len. unfold set_counted. do 2 f_equal.
  rewrite Hc, E, u32_add_l, !sum_size_app. simpl. f_equal. lia.
Qed.

Lemma add_loop_fill fuel insert t pre post lo b e n fl nr :
  regions t = pre ++ post -> counted t -> wf_from lo post ->
  0 <= lo -> 0 <= b -> e <= PHYS_ADDR_MAX -> (length post < fuel)%nat ->
  (insert = true -> Z.of_nat (length pre + length (fill n fl b e post)) <= max t) ->
  exists mid rest b' idx',
    fill n fl b e post = mid ++ (if b' <? e then [MkRegion b' (e - b') fl n] else []) ++ rest
    /\ 0 <= b'
    /\ (insert = true -> idx' = length (pre ++ mid))
    /\ add_loop fuel insert t (length pre) b e n fl nr
       = Ok (if insert then set_counted t (pre ++ mid ++ rest) else t, idx', b',
             nr + (Z.of_nat (length (mid ++ rest)) - Z.of_nat (length post))).
Proof.
  revert t pre post lo b nr.
  induction fuel as [|fuel IH]; intros t pre post lo b nr Et Hc Hwf Hlo Hb He Hf Hmax; [lia|].
  cbn [add_loop]. rewrite Et. destruct post as [|r post].
  { rewrite lookup_ge_None_2 by (rewrite app_nil_r; lia).
    exists [], [], b, (length pre). simpl. repeat split; auto.
    - by rewrite app_nil_r.
    - intros _. by rewrite app_nil_r.
    - rewrite <- Et. destruct insert; rewrite ?set_counted_id by done; do 2 f_equal; lia. }
  rewrite lookup_app_mid. cbv zeta. rewrite (rgn_end_wf lo r post) by done.
  cbn [fill] in *. destruct Hwf as (?&?&?&Hwf).
  set (rend := r_base r + r_size r) in *.
  destruct (Z.leb_spec e (r_base r)).
  { exists [], (r :: post), b, (length pre). repeat split; auto.
    - by rewrite app_nil_r.
    - simpl. rewrite <- Et. destruct insert; rewrite ?set_counted_id by done; do 2 f_equal; lia. }
  assert (Et' : regions t = (pre ++ [r]) ++ post) by (by rewrite <- app_assoc).
  assert (EL : S (length pre) = length (pre ++ [r])) by (rewrite length_app; simpl; lia).
  destruct (Z.leb_spec rend b).
  { rewrite EL. destruct (IH t (pre ++ [r]) post rend b nr) as (mid&rest&b'&idx'&E1&?&E2&E3);
      auto; try (simpl in *; lia).
    { intros Hi. specialize (Hmax Hi). simpl in *. rewrite length_app; simpl; lia. }
    exists (r :: mid), rest, b', idx'. rewrite E1, E3. repeat split; auto.
    - intros Hi. rewrite E2 by done. by rewrite <- app_assoc.
    - rewrite <- app_assoc. simpl. do 2 f_equal. lia. }
  destruct (Z.ltb_spec b (r_base r)).
  - destruct insert.
    + rewrite (insert_region_ok t pre (r :: post)); auto; last first.
      { specialize (Hmax eq_refl). pose proof (fill_length n fl (Z.min rend e) e post).
        unfold cnt. rewrite Et. rewrite length_app in *. simpl in *. lia. }
      cbn [res_bind]. rewrite (u32_small (r_base r - b)) by (unfold PHYS_ADDR_MAX in *; lia).
      set (g := MkRegion b (r_base r - b) fl n) in *.
      set (t' := set_counted t (pre ++ g :: r :: post)).
      destruct (IH t' (pre ++ [g; r]) post rend (Z.min rend e) (nr + 1))
        as (mid&rest&b'&idx'&E1&?&E2&E3); auto; try (simpl in *; lia).
      { by rewrite <- app_assoc. }
      { apply counted_set. }
      { intros Hi. specialize (Hmax Hi). simpl in *. rewrite length_app; simpl; lia. }
      replace (S (S (length pre))) with (length (pre ++ [g; r])) by (rewrite length_app; simpl; lia).
      exists (g :: r :: mid), rest, b', idx'. rewrite E1, E3. repeat split; auto.
      * intros Hi. rewrite E2 by done. by rewrite <- app_assoc.
      * rewrite <- app_assoc. simpl. do 2 f_equal. lia.
    + rewrite EL. destruct (IH t (pre ++ [r]) post rend (Z.min rend e) (nr + 1))
        as (mid&rest&b'&idx'&E1&?&E2&E3); auto; try (simpl in *; lia); try done.
      exists (MkRegion b (r_base r - b) fl n :: r :: mid), rest, b', idx'.
      rewrite E1, E3. repeat split; auto; try done. do 2 f_equal. simpl. lia.
  - rewrite EL. destruct (IH t (pre ++ [r]) post rend (Z.min rend e) nr)
      as (mid&rest&b'&idx'&E1&?&E2&E3); auto; try (simpl in *; lia).
    { intros Hi. specialize (Hmax Hi). simpl in *. rewrite length_app; simpl; lia. }
    exists (r :: mid), rest, b', idx'. rewrite E1, E3. repeat split; auto.
    + intros Hi. rewrite E2 by done. by rewrite <- app_assoc.
    + rewrite <- app_assoc. simpl. do 2 f_equal. lia.
Qed.

(** The number of regions a range still needs. *)
Definition nr_needed (rs : list memblock_region) (b e n fl : Z) : Z :=
  Z.of_nat (length (fill n fl b e rs)) - Z.of_nat (length rs).

Lemma add_pass_count t b e n fl :
  wf_from 0 (regions t) -> counted t -> 0 <= b -> e <= PHYS_ADDR_MAX ->
  add_pass false t b e n fl = Ok (t, nr_needed (regions t) b e n fl).
Proof.
  intros Hwf Hc Hb He. unfold add_pass, nr_needed.
  destruct (add_loop_fill (S (cnt t)) false t [] (regions t) 0 b e n fl 0)
    as (mid&rest&b'&idx'&E1&?&_&E3); auto; try (unfold cnt; lia); try done.
  cbn [length app] in E3. rewrite E3. cbn [res_bind]. rewrite E1, !length_app. zcase; simpl; do 2 f_equal; lia.
Qed.

Lemma add_pass_insert t b e n fl :
  wf_from 0 (regions t) -> counted t -> 0 <= b -> e <= PHYS_ADDR_MAX ->
  Z.of_nat (length (fill n fl b e (regions t))) <= max t ->
  add_pass true t b e n fl
  = Ok (set_counted t (fill n fl b e (regions t)), nr_needed (regions t) b e n fl).
Proof.
  intros Hwf Hc Hb He Hmax. unfold add_pass, nr_needed.
  destruct (add_loop_fill (S (cnt t)) true t [] (regions t) 0 b e n fl 0)
    as (mid&rest&b'&idx'&E1&?&E2&E3); auto; try (unfold cnt; lia); try done.
  cbn [length app] in E2, E3. rewrite E3. cbn [res_bind]. rewrite E2 by done. rewrite E1, !length_app in *.
  revert E1 Hmax. zcase; simpl; intros E1 Hmax.
  - rewrite (insert_region_ok _ mid rest); auto with kernel;
      [|unfold cnt; simpl; rewrite length_app; lia].
    cbn [res_bind]. rewrite (u32_small (e - b')) by (unfold PHYS_ADDR_MAX in *; lia).
    do 2 f_equal; lia.
  - do 2 f_equal; lia.
Qed.

(** *** Merging *)

Definition mergeable_b (r1 r2 : memblock_region) : bool :=
  (r_base r1 + r_size r1 =? r_base r2) && (r_nid r1 =? r_nid r2) && (r_flags r1 =? r_flags r2).

Lemma mergeable_spec r1 r2 : mergeable_b r1 r2 = true <-> mergeable r1 r2.
Proof.
  unfold mergeable_b, mergeable. rewrite !andb_true_iff, !Z.eqb_eq. tauto.
Qed.

Fixpoint merged (this : memblock_region) (rs : list memblock_region) : list memblock_region :=
  match rs with
  | [] => [this]
  | next :: rs =>
    if mergeable_b this next
    then merged (MkRegion (r_base this) (r_size this + r_size next) (r_flags this) (r_nid this)) rs
    else this :: merged next rs
  end.

Definition merge_list (rs : list memblock_region) : list memblock_region :=
  match rs with
  | [] => []
  | r :: rs => merged r rs
  end.

Lemma merge_loop_merged fuel pre this post lo :
  wf_from lo (this :: post) -> 0 <= lo -> (length post < fuel)%nat ->
  merge_loop fuel (length pre) (pre ++ this :: post) = Ok (pre ++ merged this post).
Proof.
  revert pre this post lo.
  induction fuel as [|fuel IH]; intros pre this post lo Hwf Hlo Hf; [lia|].
  cbn [merge_loop]. destruct post as [|next post].
  { destruct (Nat.ltb_spec (length pre) (length (pre ++ [this]) - 1)); [|done].
    rewrite length_app in *; simpl in *; lia. }
  destruct (Nat.ltb_spec (length pre) (length (pre ++ this :: next :: post) - 1));
    [|rewrite length_app in *; simpl in *; lia].
  rewrite (array_get_Some _ _ this) by apply lookup_app_mid.
  rewrite (array_get_Some _ _ next) by apply lookup_app_mid_S.
  cbn [res_bind]. rewrite (rgn_end_wf lo this (next :: post)) by done.
  unfold memblock_get_region_node. cbn [merged].
  replace (negb (r_base this + r_size this =? r_base next) || negb (r_nid this =? r_nid next)
           || negb (r_flags this =? r_flags next)) with (negb (mergeable_b this next))
    by (unfold mergeable_b; by rewrite !negb_andb).
  destruct Hwf as (?&?&?&?&?&?&Hwf). destruct (mergeable_b this next) eqn:Em; cbn [negb].
  - apply mergeable_spec in Em as [Eb _].
    rewrite insert_app_mid, u32_small by (unfold PHYS_ADDR_MAX in *; lia).
    set (r := MkRegion _ _ _ _). rewrite (cons_middle r), app_assoc.
    replace (S (length pre)) with (length (pre ++ [r])) by (rewrite length_app; simpl; lia).
    rewrite delete_app_mid, <- app_assoc. simpl app.
    apply (IH _ _ _ lo); simpl; auto; [|simpl in *; lia].
    repeat split; auto; try lia. eapply wf_from_weaken; [|exact Hwf]. lia.
  - destruct (Z.ltb_spec (r_base next) (r_base this + r_size this)); [lia|].
    rewrite (cons_middle this), app_assoc.
    replace (S (length pre)) with (length (pre ++ [this])) by (rewrite length_app; simpl; lia).
    rewrite (IH _ _ _ (r_base this + r_size this)); simpl; auto; try (simpl in *; lia).
    by rewrite <- app_assoc.
Qed.

Lemma merge_regions_ok t :
  wf_from 0 (regions t) ->
  memblock_merge_regions t = Ok (set_regions t (merge_list (regions t)) (total_size t)).
Proof.
  intros Hwf. unfold memblock_merge_regions, cnt. destruct (regions t) as [|r rs] eqn:E; [done|].
  rewrite (merge_loop_merged _ [] r rs 0); simpl; auto; lia.
Qed.

Lemma merged_wf lo this rs : wf_from lo (this :: rs) -> wf_from lo (merged this rs).
Proof.
  revert lo this. induction rs as [|next rs IH]; intros lo this H; [done|]. cbn [merged].
  destruct H as (?&?&?&?&?&?&H). destruct (mergeable_b this next) eqn:Em.
  - apply mergeable_spec in Em as [Eb _]. apply IH. simpl. repeat split; try lia.
    eapply wf_from_weaken; [|exact H]. lia.
  - simpl. repeat split; auto. apply IH. simpl. auto.
Qed.

Lemma merged_attr lo this rs x :
  wf_from lo (this :: rs) -> attr_at (merged this rs) x = attr_at (this :: rs) x.
Proof.
  revert lo this. induction rs as [|next rs IH]; intros lo this H; [done|]. cbn [merged].
  destruct H as (?&?&?&?&?&?&H). destruct (mergeable_b this next) eqn:Em.
  - apply mergeable_spec in Em as (Eb&En&Ef). rewrite (IH lo).
    + cbn [attr_at]. unfold rgn_has; cbn [r_base r_size r_flags r_nid].
      rewrite <- En, <- Ef. zcase; simpl; auto.
    + simpl. repeat split; try lia. eapply wf_from_weaken; [|exact H]. lia.
  - cbn [attr_at]. f_equal. rewrite (IH (r_base this + r_size this)); [done|].
    simpl. auto.
Qed.

Lemma merged_sum this rs : sum_size (merged this rs) = sum_size (this :: rs).
Proof.
  revert this. induction rs as [|next rs IH]; intros this; [done|]. cbn [merged].
  destruct (mergeable_b this next); simpl; rewrite IH; simpl; lia.
Qed.

Lemma merged_length this rs : (length (merged this rs) <= S (length rs))%nat.
Proof.
  revert this. induction rs as [|next rs IH]; intros this; simpl; [lia|].
  destruct (mergeable_b this next); simpl;
    [specialize (IH (MkRegion (r_base this) (r_size this + r_size next) (r_flags this) (r_nid this)))
    |specialize (IH next)]; lia.
Qed.

Lemma merged_cons this rs :
  exists s rs', merged this rs = MkRegion (r_base this) s (r_flags this) (r_nid this) :: rs'.
Proof.
  revert this. induction rs as [|next rs IH]; intros this; cbn [merged].
  - exists (r_size this), []. by destruct this.
  - destruct (mergeable_b this next).
    + apply (IH (MkRegion (r_base this) (r_size this + r_size next) (r_flags this) (r_nid this))).
    + exists (r_size this), (merged next rs). by destruct this.
Qed.

Lemma merged_minimal this rs : minimal (merged this rs).
Proof.
  revert this. induction rs as [|next rs IH]; intros this; [done|]. cbn [merged].
  destruct (mergeable_b this next) eqn:Em; [apply IH|].
  specialize (IH next). destruct (merged_cons next rs) as (s&rs'&E). rewrite E in *.
  split; [|done]. intros Hm. assert (mergeable_b this next = true) by (by apply mergeable_spec).
  congruence.
Qed.

Lemma merge_list_wf lo rs : wf_from lo rs -> wf_from lo (merge_list rs).
Proof. destruct rs; [done|]. apply merged_wf. Qed.

Lemma merge_list_attr lo rs x : wf_from lo rs -> attr_at (merge_list rs) x = attr_at rs x.
Proof. destruct rs; [done|]. apply merged_attr. Qed.

Lemma merge_list_sum rs : sum_size (merge_list rs) = sum_size rs.
Proof. destruct rs; [done|]. apply merged_sum. Qed.

Lemma merge_list_length rs : (length (merge_list rs) <= length rs)%nat.
Proof. destruct rs; [done|]. apply merged_length. Qed.

Lemma merge_list_minimal rs : minimal (merge_list rs).
Proof. destruct rs; [done|]. apply merged_minimal. Qed.

Lemma merge_list_nonempty rs : rs <> [] -> merge_list rs <> [].
Proof.
  destruct rs as [|r rs]; [done|]. intros _. simpl.
  destruct (merged_cons r rs) as (s&rs'&E). by rewrite E.
Qed.

(** *** Isolation *)

(** The part of region [r] inside [lo, hi). *)
Definition clip (r : memblock_region) (lo hi : Z) : memblock_region :=
  MkRegion lo (hi - lo) (r_flags r) (r_nid r).

(** The regions below, inside and above [b, e), crossing regions being split. *)
Fixpoint split3 (b e : Z) (rs : list memblock_region)
  : list memblock_region * list memblock_region * list memblock_region :=
  match rs with
  | [] => ([], [], [])
  | r :: rs =>
    let rend := r_base r + r_size r in
    if e <=? r_base r then ([], [], r :: rs)
    else let '(lo, mid, hi) := split3 b e rs in
      if rend <=? b then (r :: lo, mid, hi)
      else ((if r_base r <? b then [clip r (r_base r) b] else []) ++ lo,
            clip r (Z.max (r_base r) b) (Z.min rend e) :: mid,
            (if e <? rend then [clip r e rend] else []) ++ hi)
  end.

Definition below (b e : Z) rs := (split3 b e rs).1.1.
Definition inside (b e : Z) rs := (split3 b e rs).1.2.
Definition above (b e : Z) rs := (split3 b e rs).2.
Definition isolated (b e : Z) rs := below b e rs ++ inside b e rs ++ above b e rs.

Lemma split3_from lo b e rs :
  wf_from lo rs -> e <= lo -> b < e -> split3 b e rs = ([], [], rs).
Proof. destruct rs as [|r rs]; simpl; [done|]. intros H ??. destruct H as (?&_). zcase; done. Qed.

Lemma below_from lo b e rs : wf_from lo rs -> b < lo -> below b e rs = [].
Proof.
  unfold below. revert lo. induction rs as [|r rs IH]; intros lo H Hlo; simpl; [done|].
  destruct H as (?&?&?&H). specialize (IH _ H). destruct (Z.leb_spec e (r_base r)); [done|].
  destruct (split3 b e rs) as [[??]?]. simpl in *. rewrite IH by lia. zcase; done.
Qed.

Lemma isolated_cons b e r rs :
  isolated b e (r :: rs) =
    let rend := r_base r + r_size r in
    if e <=? r_base r then r :: rs
    else if rend <=? b then r :: isolated b e rs
    else (if r_base r <? b then [clip r (r_base r) b] else []) ++ below b e rs
         ++ clip r (Z.max (r_base r) b) (Z.min rend e) :: inside b e rs
         ++ (if e <? rend then [clip r e rend] else []) ++ above b e rs.
Proof.
  unfold isolated, below, inside, above. simpl.
  destruct (Z.leb_spec e (r_base r)); [done|].
  destruct (split3 b e rs) as [[lo mid] hi]. simpl.
  destruct (Z.leb_spec (r_base r + r_size r) b); simpl; [done|].
  by rewrite <- !app_assoc.
Qed.

(** Once [b] is below the head region, the pieces of the head come first. *)
Lemma isolated_over lo b e r rs :
  wf_from lo (r :: rs) -> b < e -> r_base r < e -> b < r_base r + r_size r ->
  isolated b e (r :: rs) =
    (if r_base r <? b then [clip r (r_base r) b] else [])
    ++ clip r (Z.max (r_base r) b) (Z.min (r_base r + r_size r) e)
    :: (if e <? r_base r + r_size r then clip r e (r_base r + r_size r) :: rs
        else isolated b e rs).
Proof.
  intros (?&?&?&H) ???. rewrite isolated_cons. cbv zeta.
  destruct (Z.leb_spec e (r_base r)); [lia|].
  destruct (Z.leb_spec (r_base r + r_size r) b); [lia|].
  rewrite (below_from _ _ _ _ H) by lia.
  destruct (Z.ltb_spec e (r_base r + r_size r)).
  - unfold inside, above. rewrite (split3_from _ _ _ _ H) by lia. done.
  - unfold isolated. rewrite (below_from _ _ _ _ H) by lia. done.
Qed.

Lemma isolated_wf lo b e rs : wf_from lo rs -> b < e -> wf_from lo (isolated b e rs).
Proof.
  revert lo. induction rs as [|r rs IH]; intros lo H Hbe; [done|].
  pose proof H as (?&?&?&H').
  destruct (Z.leb_spec e (r_base r)).
  { rewrite isolated_cons. cbv zeta. zcase; done. }
  destruct (Z.leb_spec (r_base r + r_size r) b).
  { rewrite isolated_cons. cbv zeta. zcase; simpl; auto. }
  rewrite (isolated_over lo) by (auto; lia). specialize (IH _ H' Hbe).
  zcase; simpl; repeat split; try lia; eapply wf_from_weaken; try eassumption; lia.
Qed.

Lemma isolated_attr lo b e rs x : wf_from lo rs -> b < e -> attr_at (isolated b e rs) x = attr_at rs x.
Proof.
  revert lo. induction rs as [|r rs IH]; intros lo H Hbe; [done|].
  pose proof H as (?&?&?&H').
  destruct (Z.leb_spec e (r_base r)).
  { rewrite isolated_cons. cbv zeta. zcase; done. }
  destruct (Z.leb_spec (r_base r + r_size r) b).
  { rewrite isolated_cons. cbv zeta. zcase; cbn [attr_at]; by rewrite (IH _ H'). }
  rewrite (isolated_over lo) by (auto; lia). specialize (IH _ H' Hbe).
  zcase; cbn [attr_at app]; rewrite ?IH; unfold rgn_has, clip; cbn [r_base r_size r_flags r_nid];
    zcase; simpl; auto.
Qed.

Lemma isolated_sum lo b e rs : wf_from lo rs -> b < e -> sum_size (isolated b e rs) = sum_size rs.
Proof.
  revert lo. induction rs as [|r rs IH]; intros lo H Hbe; [done|].
  pose proof H as (?&?&?&H').
  destruct (Z.leb_spec e (r_base r)).
  { rewrite isolated_cons. cbv zeta. zcase; done. }
  destruct (Z.leb_spec (r_base r + r_size r) b).
  { rewrite isolated_cons. cbv zeta. zcase; simpl; by rewrite (IH _ H'). }
  rewrite (isolated_over lo) by (auto; lia). specialize (IH _ H' Hbe).
  zcase; simpl; rewrite ?IH; lia.
Qed.

Lemma isolated_length lo b e rs :
  wf_from lo rs -> b < e ->
  (length rs <= length (isolated b e rs) <= length rs + 2)%nat
  /\ (b < lo -> (length (isolated b e rs) <= length rs + 1)%nat).
Proof.
  revert lo. induction rs as [|r rs IH]; intros lo H Hbe; [simpl; lia|].
  pose proof H as (?&?&?&H').
  destruct (Z.leb_spec e (r_base r)).
  { rewrite isolated_cons. cbv zeta. zcase; lia. }
  destruct (Z.leb_spec (r_base r + r_size r) b).
  { rewrite isolated_cons. cbv zeta. zcase; simpl; destruct (IH _ H' Hbe); lia. }
  rewrite (isolated_over lo) by (auto; lia). destruct (IH _ H' Hbe) as [? IH2].
  zcase; simpl; lia.
Qed.

(** One iteration of [isolate_loop] on the head region of [post]. *)
Section isolate_step.
Context (fuel : nat) (t : memblock_type) (pre post : list memblock_region)
        (r : memblock_region) (b e : Z) (s en : nat).
Hypothesis Et : regions t = pre ++ r :: post.
Hypothesis Hc : counted t.
Hypothesis Hr : 0 <= r_base r /\ 0 < r_size r /\ r_base r + r_size r <= PHYS_ADDR_MAX.
Hypothesis Hbe : 0 <= b < e.

Let rend := r_base r + r_size r.

Lemma iso_end : rgn_end r = rend.
Proof. apply (rgn_end_wf 0 r []); simpl; intuition lia. Qed.

Lemma iso_stop :
  e <= r_base r -> isolate_loop (S fuel) t (length pre) b e s en = Ok (t, s, en).
Proof. intros. cbn [isolate_loop]. rewrite Et, lookup_app_mid. zcase; done. Qed.

Lemma iso_skip :
  r_base r < e -> rend <= b ->
  isolate_loop (S fuel) t (length pre) b e s en
  = isolate_loop fuel t (length (pre ++ [r])) b e s en.
Proof.
  intros. cbn [isolate_loop]. rewrite Et, lookup_app_mid, iso_end.
  replace (length (pre ++ [r])) with (S (length pre)) by (rewrite length_app; simpl; lia).
  destruct (Z.leb_spec e (r_base r)); [lia|]. destruct (Z.leb_spec rend b); [done|lia].
Qed.

(** The state after a split at [c]: the low part is a region of its own. *)
Lemma iso_split c :
  r_base r < c < rend -> Z.of_nat (cnt t) < max t ->
  memblock_insert_region
    (set_regions t (<[length pre := MkRegion c (u32 (r_size r - (c - r_base r))) (r_flags r) (r_nid r)]>
                      (regions t)) (u32 (total_size t - (c - r_base r))))
    (length pre) (r_base r) (u32 (c - r_base r)) (r_nid r) (r_flags r)
  = Ok (set_counted t (pre ++ clip r (r_base r) c :: clip r c rend :: post)).
Proof.
  intros Hcut Hmax. unfold rend, PHYS_ADDR_MAX in *.
  rewrite (u32_small (r_size r - (c - r_base r))), (u32_small (c - r_base r)) by lia.
  rewrite Et, insert_app_mid.
  rewrite (insert_region_ok _ pre (clip r c rend :: post)); simpl.
  - unfold set_counted, set_regions; simpl. done.
  - unfold clip, rend. do 3 f_equal. lia.
  - unfold counted; simpl. rewrite Hc, Et, u32_sub_l, !sum_size_app. simpl. f_equal. lia.
  - unfold cnt in *. rewrite Et, length_app in Hmax. simpl in *. rewrite length_app. simpl. lia.
Qed.

Lemma iso_below :
  r_base r < b -> b < rend -> Z.of_nat (cnt t) < max t ->
  isolate_loop (S fuel) t (length pre) b e s en
  = isolate_loop fuel (set_counted t (pre ++ clip r (r_base r) b :: clip r b rend :: post))
      (length (pre ++ [clip r (r_base r) b])) b e s en.
Proof.
  intros. cbn [isolate_loop]. rewrite Et, lookup_app_mid, iso_end.
  replace (length (pre ++ [clip r (r_base r) b])) with (S (length pre))
    by (rewrite length_app; simpl; lia).
  destruct (Z.leb_spec e (r_base r)); [lia|]. destruct (Z.leb_spec rend b); [lia|].
  destruct (Z.ltb_spec (r_base r) b); [|lia]. rewrite <- Et.
  unfold memblock_get_region_node; cbn [r_nid r_flags].
  rewrite (iso_split b) by lia. done.
Qed.

Lemma iso_above :
  b <= r_base r < e -> e < rend -> Z.of_nat (cnt t) < max t ->
  isolate_loop (S fuel) t (length pre) b e s en
  = isolate_loop fuel (set_counted t (pre ++ clip r (r_base r) e :: clip r e rend :: post))
      (length pre) b e s en.
Proof.
  intros. cbn [isolate_loop]. rewrite Et, lookup_app_mid, iso_end.
  destruct (Z.leb_spec e (r_base r)); [lia|]. destruct (Z.leb_spec rend b); [lia|].
  destruct (Z.ltb_spec (r_base r) b); [lia|]. destruct (Z.ltb_spec e rend); [|lia]. rewrite <- Et.
  unfold memblock_get_region_node; cbn [r_nid r_flags].
  rewrite (iso_split e) by lia. done.
Qed.

Lemma iso_in :
  b <= r_base r -> rend <= e ->
  isolate_loop (S fuel) t (length pre) b e s en
  = isolate_loop fuel t (length (pre ++ [r])) b e
      (if (en =? 0)%nat then length pre else s) (length (pre ++ [r])).
Proof.
  intros. cbn [isolate_loop]. rewrite Et, lookup_app_mid, iso_end.
  replace (length (pre ++ [r])) with (S (length pre)) by (rewrite length_app; simpl; lia).
  destruct (Z.leb_spec e (r_base r)); [lia|]. destruct (Z.leb_spec rend b); [lia|].
  destruct (Z.ltb_spec (r_base r) b); [lia|]. destruct (Z.ltb_spec e rend); [lia|]. done.
Qed.
End isolate_step.

Definition start_rgn_of (s en : nat) (pre : nat) (b e : Z) (rs : list memblock_region) : nat :=
  match inside b e rs with
  | [] => s
  | _ => if (en =? 0)%nat then (pre + length (below b e rs))%nat else s
  end.

Definition end_rgn_of (en pre : nat) (b e : Z) (rs : list memblock_region) : nat :=
  match inside b e rs with
  | [] => en
  | _ => (pre + length (below b e rs) + length (inside b e rs))%nat
  end.

Lemma inside_skip lo b e r rs :
  wf_from lo (r :: rs) -> r_base r < e -> r_base r + r_size r <= b ->
  inside b e (r :: rs) = inside b e rs /\ below b e (r :: rs) = r :: below b e rs.
Proof.
  intros. unfold inside, below. simpl. destruct (Z.leb_spec e (r_base r)); [lia|].
  destruct (split3 b e rs) as [[??]?]. destruct (Z.leb_spec (r_base r + r_size r) b); [done|lia].
Qed.

Lemma inside_over lo b e r rs :
  wf_from lo (r :: rs) -> r_base r < e -> b < r_base r + r_size r ->
  inside b e (r :: rs) = clip r (Z.max (r_base r) b) (Z.min (r_base r + r_size r) e) :: inside b e rs
  /\ below b e (r :: rs) = if r_base r <? b then [clip r (r_base r) b] else [].
Proof.
  intros (?&?&?&Hwf) ? ?. pose proof (below_from _ b e _ Hwf) as Hb. unfold inside, below in *. simpl.
  destruct (Z.leb_spec e (r_base r)); [lia|].
  destruct (split3 b e rs) as [[??]?]. simpl in *. rewrite Hb by lia.
  destruct (Z.leb_spec (r_base r + r_size r) b); [lia|]. simpl. by rewrite app_nil_r.
Qed.

Lemma isolate_stop_ok t pre post b e :
  regions t = pre ++ post -> counted t -> isolated b e post = post ->
  set_counted t (pre ++ isolated b e post) = t.
Proof. intros E Hc ->. rewrite <- E. by apply set_counted_id. Qed.

Lemma clip_end r lo : r_base (clip r lo (r_base r + r_size r)) + r_size (clip r lo (r_base r + r_size r))
  = r_base r + r_size r.
Proof. simpl. lia. Qed.

(** Isolating a region cut at [b] continues with its top half. *)
Lemma isolated_cut lo b e r rs :
  wf_from lo (r :: rs) -> b < e -> r_base r < b < r_base r + r_size r ->
  let top := clip r b (r_base r + r_size r) in
  wf_from b (top :: rs)
  /\ isolated b e (r :: rs) = clip r (r_base r) b :: isolated b e (top :: rs)
  /\ inside b e (r :: rs) = inside b e (top :: rs)
  /\ below b e (r :: rs) = [clip r (r_base r) b]
  /\ below b e (top :: rs) = [].
Proof.
  intros Hwf Hbe Hcut top. pose proof Hwf as (?&?&?&Hwf').
  assert (Htop : wf_from b (top :: rs)) by (simpl; repeat split; auto; try lia;
    eapply wf_from_weaken; [|exact Hwf']; lia).
  split; [done|].
  destruct (inside_over lo b e r rs) as [E1 E2]; auto; try lia.
  destruct (inside_over b b e top rs) as [E3 E4]; auto; simpl; try lia.
  rewrite (isolated_over lo) by (auto; lia). rewrite (isolated_over b b e top) by (auto; simpl; lia).
  rewrite E1, E2, E3, E4. unfold top. rewrite !clip_end. cbn [r_base clip].
  rewrite (Z.ltb_irrefl b). replace (Z.max (r_base r) b) with (Z.max b b) by lia.
  destruct (Z.ltb_spec (r_base r) b); [|lia]. done.
Qed.

Lemma isolate_loop_ok fuel t pre post lo b e s en :
  regions t = pre ++ post -> counted t -> wf_from lo post -> 0 <= lo -> 0 <= b < e ->
  (length post + (if (b <=? lo)%Z then 1 else 2) < fuel)%nat ->
  Z.of_nat (length pre + length (isolated b e post)) <= max t ->
  isolate_loop fuel t (length pre) b e s en
  = Ok (set_counted t (pre ++ isolated b e post),
        start_rgn_of s en (length pre) b e post, end_rgn_of en (length pre) b e post).
Proof.
  revert t pre post lo s en.
  induction fuel as [|fuel IH]; intros t pre post lo s en Et Hc Hwf Hlo Hbe Hf Hmax; [lia|].
  destruct post as [|r post].
  { rewrite isolate_stop_ok by done. cbn [isolate_loop].
    rewrite Et, lookup_ge_None_2 by (rewrite app_nil_r; lia). done. }
  pose proof Hwf as (?&?&?&Hwf').
  assert (Hrg : 0 <= r_base r /\ 0 < r_size r /\ r_base r + r_size r <= PHYS_ADDR_MAX) by lia.
  assert (Et1 : regions t = (pre ++ [r]) ++ post) by (by rewrite <- app_assoc).
  destruct (Z_le_dec e (r_base r)).
  { rewrite (iso_stop fuel t pre post r) by auto.
    unfold start_rgn_of, end_rgn_of, inside. rewrite isolate_stop_ok; auto.
    - simpl. zcase; done.
    - rewrite isolated_cons; cbv zeta; zcase; done. }
  destruct (Z_le_dec (r_base r + r_size r) b).
  { rewrite (iso_skip fuel t pre post r) by (auto; lia).
    destruct (inside_skip lo b e r post) as [Ei Eb]; auto; try lia.
    rewrite (IH t (pre ++ [r]) post (r_base r + r_size r)); auto; try lia.
    - unfold start_rgn_of, end_rgn_of. rewrite Ei, Eb, isolated_cons. cbv zeta.
      rewrite length_app. simpl. destruct (Z.leb_spec e (r_base r)); [lia|].
      destruct (Z.leb_spec (r_base r + r_size r) b); [|lia].
      rewrite <- app_assoc. simpl. rewrite <- !Nat.add_assoc. done.
    - revert Hf. simpl. zcase.
    - revert Hmax. rewrite isolated_cons. cbv zeta.
      destruct (Z.leb_spec e (r_base r)); [lia|].
      destruct (Z.leb_spec (r_base r + r_size r) b); [|lia]. rewrite length_app; simpl; lia. }
  pose proof (isolated_length _ b e post Hwf') as [Hlen _]; [lia|].
  destruct (Z_lt_dec (r_base r) b).
  { (* split below, go on with the top half *)
    destruct (isolated_cut lo b e r post) as (Htop&E1&E2&E3&E4); auto; try lia.
    set (lowp := clip r (r_base r) b) in *. set (top := clip r b (r_base r + r_size r)) in *.
    pose proof (isolated_length _ b e _ Htop) as [Hlen' _]; [lia|]. rewrite E1 in Hmax.
    rewrite (iso_below fuel t pre post r); auto; try lia;
      [|unfold cnt; rewrite Et; rewrite length_app; simpl in *; lia].
    rewrite (IH _ (pre ++ [lowp]) (top :: post) b); auto; try lia.
    - unfold start_rgn_of, end_rgn_of. rewrite E1, E2, E3, E4, length_app, <- app_assoc. simpl.
      destruct (inside b e (top :: post)); [done|]. rewrite !Nat.add_0_r. done.
    - by rewrite <- app_assoc.
    - apply counted_set.
    - revert Hf. simpl. zcase.
    - simpl. rewrite length_app. simpl in *. lia. }
  destruct (inside_over lo b e r post) as [Ei Eb]; auto; try lia.
  assert (Eb' : below b e (r :: post) = []) by (rewrite Eb; zcase; done).
  revert Hmax. rewrite (isolated_over lo) by (auto; lia). unfold start_rgn_of, end_rgn_of.
  rewrite Ei, Eb'. destruct (Z.ltb_spec (r_base r) b); [lia|]. simpl app.
  destruct (Z.ltb_spec e (r_base r + r_size r)); intros Hmax.
  - (* split above, record the bottom half, stop at the top half *)
    assert (Ein : inside b e post = []) by (unfold inside; by rewrite (split3_from _ b e _ Hwf') by lia).
    rewrite (iso_above fuel t pre post r); auto; try lia;
      [|unfold cnt; rewrite Et, length_app; simpl in *; lia].
    replace (Z.max (r_base r) b) with (r_base r) by lia.
    replace (Z.min (r_base r + r_size r) e) with e by lia.
    set (bot := clip r (r_base r) e). set (top := clip r e (r_base r + r_size r)).
    destruct fuel as [|[|fuel]]; [exfalso; revert Hf; simpl; zcase..|].
    rewrite (iso_in (S fuel) _ pre (top :: post) bot) by (simpl; auto; lia).
    rewrite (iso_stop fuel _ (pre ++ [bot]) post top)
      by first [simpl; lia | by simpl; rewrite <- app_assoc].
    rewrite Ein, length_app. simpl. rewrite !Nat.add_0_r. done.
  - (* fully contained *)
    rewrite (iso_in fuel t pre post r) by (auto; lia).
    replace (clip r _ _) with r in * by (destruct r; unfold clip; simpl in *; f_equal; lia).
    rewrite (IH t (pre ++ [r]) post (r_base r + r_size r)); auto; try lia.
    + unfold start_rgn_of, end_rgn_of. rewrite (below_from _ b e _ Hwf') by lia.
      rewrite <- app_assoc, length_app. simpl. rewrite Nat.add_1_r, !Nat.add_0_r.
      destruct (inside b e post); simpl; rewrite ?Nat.add_succ_r, ?Nat.add_0_r; done.
    + revert Hf. simpl. zcase.
    + rewrite length_app. simpl in *. lia.
Qed.

Lemma isolate_scan_ok t b e :
  wf_from 0 (regions t) -> counted t -> 0 <= b < e -> Z.of_nat (cnt t + 2) <= max t ->
  isolate_scan t b e
  = Ok (set_counted t (isolated b e (regions t)),
        start_rgn_of 0 0 0 b e (regions t), end_rgn_of 0 0 b e (regions t)).
Proof.
  intros Hwf Hc Hbe Hmax. unfold isolate_scan.
  pose proof (isolated_length _ b e _ Hwf) as [? _]; [lia|].
  apply (isolate_loop_ok (cnt t + 4) t [] (regions t) 0); auto; try lia.
  - unfold cnt. zcase; lia.
  - unfold cnt in *. simpl. lia.
Qed.

(** *** Removal and update of the isolated regions *)

Definition or_dummy (rs : list memblock_region) : list memblock_region :=
  match rs with
  | [] => [MkRegion 0 0 0 MAX_NUMNODES]
  | _ => rs
  end.

Lemma sum_or_dummy rs : sum_size (or_dummy rs) = sum_size rs.
Proof. by destruct rs. Qed.

Lemma remove_region_ok t pre r post :
  regions t = pre ++ r :: post -> counted t ->
  memblock_remove_region t (length pre) = Ok (set_counted t (or_dummy (pre ++ post))).
Proof.
  intros E Hc. unfold memblock_remove_region.
  rewrite (array_get_Some _ _ r) by (rewrite E; apply lookup_app_mid). cbn [res_bind].
  rewrite E, delete_app_mid.
  assert (Et : u32 (total_size t - r_size r) = u32 (sum_size (or_dummy (pre ++ post)))).
  { rewrite Hc, E, u32_sub_l, sum_or_dummy, !sum_size_app. simpl. f_equal. lia. }
  rewrite Et. unfold set_counted. destruct (pre ++ post); done.
Qed.

Lemma remove_loop_ok t pre mid post :
  regions t = pre ++ mid ++ post -> counted t ->
  remove_loop (length mid) (length pre) t
  = Ok (set_counted t (match mid with [] => regions t | _ => or_dummy (pre ++ post) end)).
Proof.
  revert t. induction mid as [|r mid IH] using rev_ind; intros t E Hc.
  { simpl. by rewrite set_counted_id. }
  rewrite length_app, Nat.add_1_r. cbn [remove_loop].
  rewrite <- length_app, (remove_region_ok t (pre ++ mid) r post) by (rewrite <- ?app_assoc in *; auto).
  cbn [res_bind]. destruct mid as [|r' mid].
  { simpl. rewrite app_nil_r. done. }
  rewrite IH; [done| |apply counted_set]. cbn [regions set_counted set_regions].
  rewrite <- app_assoc. destruct pre; done.
Qed.

Lemma update_loop_ok f pre mid post :
  update_loop f (length mid) (length pre) (pre ++ mid ++ post) = Ok (pre ++ map f mid ++ post).
Proof.
  revert pre. induction mid as [|r mid IH]; intros pre; [done|]. cbn [update_loop length].
  cbn [app]. rewrite (array_get_Some _ _ r) by apply lookup_app_mid. cbn [res_bind].
  rewrite insert_app_mid, (cons_middle (f r)), app_assoc.
  replace (S (length pre)) with (length (pre ++ [f r])) by (rewrite length_app; simpl; lia).
  rewrite IH, <- app_assoc. done.
Qed.

(** *** The attributes of the three parts *)

Lemma split3_bounds lo b e rs :
  wf_from lo rs -> b < e ->
  Forall (fun r => r_base r + r_size r <= b) (below b e rs)
  /\ Forall (fun r => b <= r_base r /\ r_base r + r_size r <= e) (inside b e rs)
  /\ Forall (fun r => e <= r_base r) (above b e rs).
Proof.
  revert lo. induction rs as [|r rs IH]; intros lo H Hbe; [done|].
  pose proof H as (?&?&?&H'). specialize (IH _ H' Hbe).
  unfold below, inside, above in *. simpl. destruct (Z.leb_spec e (r_base r)); simpl.
  { repeat split; auto. constructor; [done|]. clear - H' H0 H1 H3.
    assert (Hge : e <= r_base r + r_size r) by lia. revert H' Hge. generalize (r_base r + r_size r).
    induction rs as [|r' rs IH]; intros lo' Hw Hge; [done|]. destruct Hw as (?&?&?&Hw).
    constructor; [lia|]. eapply IH; [exact Hw|lia]. }
  destruct (split3 b e rs) as [[l m] h]. simpl in *. destruct IH as (Hl&Hm&Hh).
  destruct (Z.leb_spec (r_base r + r_size r) b); simpl.
  { repeat split; auto. }
  repeat split.
  - apply Forall_app; split; [|done]. zcase; repeat constructor. simpl. lia.
  - constructor; [simpl; lia|done].
  - apply Forall_app; split; [|done]. zcase; repeat constructor. simpl. lia.
Qed.

Lemma attr_at_Forall (P : Z -> Prop) rs x :
  Forall (fun r => forall y, r_base r <= y < r_base r + r_size r -> P y) rs ->
  attr_at rs x <> None -> P x.
Proof.
  induction 1 as [|r rs Hr _ IH]; simpl; [done|].
  destruct (rgn_has r x) eqn:E; [|done]. intros _. apply Hr. unfold rgn_has in E. zbool. lia.
Qed.

Lemma attr_parts lo b e rs x :
  wf_from lo rs -> b < e ->
  attr_at (below b e rs) x = (if x <? b then attr_at rs x else None)
  /\ attr_at (inside b e rs) x = (if (b <=? x) && (x <? e) then attr_at rs x else None)
  /\ attr_at (above b e rs) x = (if e <=? x then attr_at rs x else None).
Proof.
  intros Hwf Hbe. destruct (split3_bounds lo b e rs) as (Hl&Hm&Hh); auto.
  pose proof (isolated_attr lo b e rs x Hwf Hbe) as Ha.
  pose proof (isolated_wf lo b e rs Hwf Hbe) as Hw. unfold isolated in Ha, Hw.
  pose proof Hw as Hw'. apply wf_from_app in Hw' as [_ Hw2].
  rewrite (attr_at_app lo) in Ha by done. rewrite (attr_at_app _ _ _ _ Hw2) in Ha.
  assert (Nl : attr_at (below b e rs) x <> None -> x < b).
  { apply (attr_at_Forall (fun x => x < b)). eapply Forall_impl; [exact Hl|]. simpl. intros; lia. }
  assert (Nm : attr_at (inside b e rs) x <> None -> b <= x < e).
  { apply (attr_at_Forall (fun x => b <= x < e)). eapply Forall_impl; [exact Hm|]. simpl. intros; lia. }
  assert (Nh : attr_at (above b e rs) x <> None -> e <= x).
  { apply (attr_at_Forall (fun x => e <= x)). eapply Forall_impl; [exact Hh|]. simpl. intros; lia. }
  destruct (attr_at (below b e rs) x), (attr_at (inside b e rs) x), (attr_at (above b e rs) x);
    repeat match goal with K : Some _ <> None -> _ |- _ => specialize (K ltac:(discriminate)) end;
    try lia; rewrite <- Ha; repeat split; zcase; simpl; auto.
Qed.

(** *** What removal and update do to the attributes *)

Lemma wf_from_drop_mid lo l m h : wf_from lo (l ++ m ++ h) -> wf_from lo (l ++ h).
Proof.
  rewrite !wf_from_app. intros (Hl&Hm&Hh). split; [done|].
  eapply wf_from_weaken; [|exact Hh]. by apply end_of_ge.
Qed.

Lemma removed_wf lo b e rs : wf_from lo rs -> b < e -> wf_from lo (below b e rs ++ above b e rs).
Proof. intros H Hbe. apply (wf_from_drop_mid _ _ (inside b e rs)). by apply isolated_wf. Qed.

Lemma removed_attr lo b e rs x :
  wf_from lo rs -> b < e ->
  attr_at (below b e rs ++ above b e rs) x = if (b <=? x) && (x <? e) then None else attr_at rs x.
Proof.
  intros H Hbe. rewrite (attr_at_app lo) by (by apply removed_wf).
  destruct (attr_parts lo b e rs x H Hbe) as (->&_&->).
  zcase; simpl; auto; by destruct (attr_at rs x).
Qed.

Lemma removed_length lo b e rs :
  wf_from lo rs -> b < e -> (length (below b e rs ++ above b e rs) <= length rs + 2)%nat.
Proof.
  intros H Hbe. destruct (isolated_length lo b e rs H Hbe) as [[_ Hl] _].
  unfold isolated in Hl. rewrite !length_app in *. lia.
Qed.

Section update.
Context (f : memblock_region -> memblock_region) (g : Z * Z -> Z * Z).
Hypothesis f_base : forall r, r_base (f r) = r_base r.
Hypothesis f_size : forall r, r_size (f r) = r_size r.
Hypothesis f_attr : forall r, (r_flags (f r), r_nid (f r)) = g (r_flags r, r_nid r).

Lemma map_wf lo rs : wf_from lo (map f rs) <-> wf_from lo rs.
Proof. revert lo. induction rs as [|r rs IH]; intros lo; simpl; [done|]. by rewrite f_base, f_size, IH. Qed.

Lemma map_end_of lo rs : end_of lo (map f rs) = end_of lo rs.
Proof. revert lo. induction rs as [|r rs IH]; intros lo; simpl; [done|]. by rewrite f_base, f_size, IH. Qed.

Lemma map_sum rs : sum_size (map f rs) = sum_size rs.
Proof. induction rs as [|r rs IH]; simpl; [done|]. by rewrite f_size, IH. Qed.

Lemma map_attr rs x : attr_at (map f rs) x = g <$> attr_at rs x.
Proof.
  induction rs as [|r rs IH]; simpl; [done|]. unfold rgn_has. rewrite f_base, f_size, IH.
  destruct (_ && _); simpl; [by rewrite f_attr|done].
Qed.

Definition updated (b e : Z) (rs : list memblock_region) : list memblock_region :=
  below b e rs ++ map f (inside b e rs) ++ above b e rs.

Lemma updated_wf lo b e rs : wf_from lo rs -> b < e -> wf_from lo (updated b e rs).
Proof.
  intros H Hbe. pose proof (isolated_wf lo b e rs H Hbe) as Hi. unfold isolated, updated in *.
  rewrite !wf_from_app in *. by rewrite map_wf, map_end_of.
Qed.

Lemma updated_attr lo b e rs x :
  wf_from lo rs -> b < e ->
  attr_at (updated b e rs) x
  = if (b <=? x) && (x <? e) then g <$> attr_at rs x else attr_at rs x.
Proof.
  intros H Hbe. pose proof (updated_wf lo b e rs H Hbe) as Hw. unfold updated in *.
  rewrite (attr_at_app lo) by done. apply wf_from_app in Hw as [_ Hw].
  rewrite (attr_at_app _ _ _ _ Hw), map_attr.
  destruct (attr_parts lo b e rs x H Hbe) as (->&->&->).
  zcase; simpl; auto; by destruct (attr_at rs x).
Qed.

Lemma updated_sum lo b e rs : wf_from lo rs -> b < e -> sum_size (updated b e rs) = sum_size rs.
Proof.
  intros H Hbe. rewrite <- (isolated_sum lo b e rs) by done. unfold updated, isolated.
  by rewrite !sum_size_app, map_sum.
Qed.

Lemma updated_length b e rs : length (updated b e rs) = length (isolated b e rs).
Proof. unfold updated, isolated. by rewrite !length_app, length_map. Qed.
End update.

(** ** Minimal arrays are canonical

    Two sorted, minimal arrays that give every address the same attributes are
    the same array. *)

Lemma attr_at_head lo r rs : wf_from lo (r :: rs) -> attr_at (r :: rs) (r_base r) = Some (r_flags r, r_nid r).
Proof. intros (?&?&?&?). cbn [attr_at]. unfold rgn_has. zcase; done. Qed.

Lemma attr_at_tail lo r rs x :
  wf_from lo (r :: rs) ->
  attr_at rs x = if x <? r_base r + r_size r then None else attr_at (r :: rs) x.
Proof.
  intros (?&?&?&H). cbn [attr_at]. unfold rgn_has.
  destruct (Z.ltb_spec x (r_base r + r_size r)).
  - eapply attr_at_below; [exact H|done].
  - rewrite andb_false_r. done.
Qed.

(** The region that follows a region in a minimal array differs or leaves a gap. *)
Lemma minimal_end lo r rs :
  wf_from lo (r :: rs) -> minimal (r :: rs) ->
  attr_at rs (r_base r + r_size r) <> Some (r_flags r, r_nid r).
Proof.
  intros (?&?&?&H) Hm E. destruct rs as [|r' rs]; [done|]. destruct Hm as [Hn _].
  pose proof H as (?&?&?&H'). apply Hn.
  destruct (Z.eq_dec (r_base r') (r_base r + r_size r)) as [E'|].
  - rewrite <- E', (attr_at_head (r_base r + r_size r)) in E by done.
    split; [done|]. split; congruence.
  - cbn [attr_at] in E. unfold rgn_has in E.
    destruct (Z.leb_spec (r_base r') (r_base r + r_size r)); [lia|]. simpl in E.
    rewrite (attr_at_below _ _ _ H') in E by lia. done.
Qed.

Lemma canonical_size lo r1 rs1 r2 rs2 :
  wf_from lo (r1 :: rs1) -> wf_from lo (r2 :: rs2) -> minimal (r1 :: rs1) ->
  (forall x, attr_at (r1 :: rs1) x = attr_at (r2 :: rs2) x) -> r_base r1 = r_base r2 ->
  r_size r2 <= r_size r1.
Proof.
  intros H1 H2 Hm Ha Eb. destruct (Z_le_dec (r_size r2) (r_size r1)); [done|]. exfalso.
  pose proof (attr_at_head _ _ _ H1) as A1. pose proof (attr_at_head _ _ _ H2) as A2.
  rewrite Ha, Eb, A2 in A1. apply (minimal_end lo r1 rs1 H1 Hm).
  rewrite (attr_at_tail lo r1) by done. rewrite Ha, <- A1. cbn [attr_at].
  destruct H1 as (?&?&?&_). unfold rgn_has. zcase; done.
Qed.

Lemma canonical lo rs1 rs2 :
  wf_from lo rs1 -> wf_from lo rs2 -> minimal rs1 -> minimal rs2 ->
  (forall x, attr_at rs1 x = attr_at rs2 x) -> rs1 = rs2.
Proof.
  revert lo rs2. induction rs1 as [|r1 rs1 IH]; intros lo [|r2 rs2] H1 H2 M1 M2 Ha; [done|..].
  { specialize (Ha (r_base r2)). by rewrite (attr_at_head lo) in Ha. }
  { specialize (Ha (r_base r1)). by rewrite (attr_at_head lo) in Ha. }
  pose proof (attr_at_head _ _ _ H1) as A1. pose proof (attr_at_head _ _ _ H2) as A2.
  assert (Hle : forall r rs x, wf_from lo (r :: rs) -> attr_at (r :: rs) x <> None -> r_base r <= x).
  { intros r rs x (?&?&?&?) Hx.
    assert (r_base r <= x < PHYS_ADDR_MAX); [|lia]. eapply attr_at_range; [|exact Hx]. simpl. auto with lia. }
  assert (Eb : r_base r1 = r_base r2).
  { apply Z.le_antisymm; eapply Hle; eauto; [rewrite Ha, A2|rewrite <- Ha, A1]; done. }
  assert (Es : r_size r1 = r_size r2).
  { apply Z.le_antisymm; eapply canonical_size; eauto. }
  assert (r1 = r2) as ->.
  { rewrite Ha, Eb, A2 in A1. destruct r1, r2; simpl in *. congruence. }
  f_equal. pose proof H1 as (?&?&?&?). pose proof H2 as (?&?&?&?).
  apply (IH (r_base r2 + r_size r2)); auto.
  - by destruct rs1; [|destruct M1].
  - by destruct rs2; [|destruct M2].
  - intros x. rewrite (attr_at_tail lo r2 rs1), (attr_at_tail lo r2 rs2), Ha by done. done.
Qed.

(** Minimality, read off the attributes: no region is continued by its successor. *)
Definition maximal_in (rs : list memblock_region) (r : memblock_region) : Prop :=
  attr_at rs (r_base r + r_size r) <> Some (r_flags r, r_nid r).

Lemma wf_from_elem lo rs r : wf_from lo rs -> r ∈ rs -> lo <= r_base r /\ 0 < r_size r.
Proof.
  revert lo. induction rs as [|r' rs IH]; intros lo H Hin; [by apply elem_of_nil in Hin|].
  destruct H as (?&?&?&H). apply elem_of_cons in Hin as [->|Hin]; [done|].
  specialize (IH _ H Hin). lia.
Qed.

Lemma minimal_maximal lo rs : wf_from lo rs -> (minimal rs <-> Forall (maximal_in rs) rs).
Proof.
  revert lo. induction rs as [|r rs IH]; intros lo H; [done|].
  pose proof H as (?&?&?&H').
  assert (Hrs : Forall (maximal_in (r :: rs)) rs <-> Forall (maximal_in rs) rs).
  { rewrite !Forall_forall. apply forall_proper. intros r'.
    split; intros Hm Hin; specialize (Hm Hin); destruct (wf_from_elem _ _ _ H' Hin);
      unfold maximal_in in *; rewrite (attr_at_tail lo r) in * by done;
      destruct (Z.ltb_spec (r_base r' + r_size r') (r_base r + r_size r)); try lia; done. }
  assert (Hr : maximal_in (r :: rs) r <-> attr_at rs (r_base r + r_size r) <> Some (r_flags r, r_nid r)).
  { unfold maximal_in. by rewrite (attr_at_tail lo r rs), Z.ltb_irrefl by done. }
  rewrite Forall_cons, Hrs, Hr, <- (IH _ H'). split.
  - intros Hm. split; [by apply (minimal_end lo)|]. by destruct rs; [|destruct Hm].
  - intros [Hn Hm]. destruct rs as [|r' rs]; [done|]. split; [|done]. intros (Eb&En&Ef).
    apply Hn. rewrite Eb, (attr_at_head _ _ _ H'). congruence.
Qed.

(** Every piece below ends at [b] or is a whole region; every piece above
    ends where a region with its attributes ends. *)
Lemma split3_pieces lo b e rs :
  wf_from lo rs -> b < e ->
  Forall (fun r => r_base r + r_size r = b \/ r ∈ rs) (below b e rs)
  /\ Forall (fun r => exists r0, r0 ∈ rs /\ r_base r0 + r_size r0 = r_base r + r_size r
                        /\ r_flags r0 = r_flags r /\ r_nid r0 = r_nid r) (above b e rs).
Proof.
  revert lo. induction rs as [|r rs IH]; intros lo H Hbe; [done|].
  pose proof H as (?&?&?&H'). specialize (IH _ H' Hbe).
  unfold below, above in *. simpl. destruct (Z.leb_spec e (r_base r)); simpl.
  { split; [done|]. apply Forall_forall. intros r0 Hin. by exists r0. }
  destruct (split3 b e rs) as [[l m] h]. simpl in *.
  assert (Hl : Forall (fun r0 => r_base r0 + r_size r0 = b \/ r0 ∈ r :: rs) l).
  { eapply Forall_impl; [apply IH|]. simpl. intros r0 [?|?]; [auto|]. right. by apply elem_of_cons; right. }
  assert (Hh : Forall (fun r0 => exists r1, r1 ∈ r :: rs /\ r_base r1 + r_size r1 = r_base r0 + r_size r0
                        /\ r_flags r1 = r_flags r0 /\ r_nid r1 = r_nid r0) h).
  { eapply Forall_impl; [apply IH|]. simpl. intros r0 (r1&?&?). exists r1. split; [|done].
    by apply elem_of_cons; right. }
  assert (Hin : r ∈ r :: rs) by (apply elem_of_cons; by left).
  destruct (Z.leb_spec (r_base r + r_size r) b); simpl.
  { split; [|done]. constructor; [by right|done]. }
  split; apply Forall_app; (split; [|done]).
  - destruct (_ <? _); [|done]. apply Forall_singleton. left. simpl. lia.
  - destruct (_ <? _); [|done]. apply Forall_singleton. exists r. simpl. repeat split; auto. lia.
Qed.

Lemma removed_minimal lo b e rs :
  wf_from lo rs -> b < e -> minimal rs -> minimal (below b e rs ++ above b e rs).
Proof.
  intros H Hbe Hm. apply (minimal_maximal lo) in Hm; [|done].
  apply (minimal_maximal lo); [by apply removed_wf|]. rewrite Forall_forall in Hm.
  assert (Hmax : forall r, r ∈ rs -> maximal_in (below b e rs ++ above b e rs) r).
  { intros r Hin. specialize (Hm _ Hin). unfold maximal_in in *.
    rewrite (removed_attr lo) by done. by destruct (_ && _). }
  destruct (split3_pieces lo b e rs H Hbe) as [Hl Hh]. apply Forall_app. split.
  - eapply Forall_impl; [exact Hl|]. simpl. intros r [E|?]; [|auto]. unfold maximal_in.
    rewrite (removed_attr lo) by done. rewrite E. zcase; simpl; done.
  - eapply Forall_impl; [exact Hh|]. simpl. intros r (r0&Hin&E&Ef&En). unfold maximal_in.
    rewrite <- E, <- Ef, <- En. by apply Hmax.
Qed.
