(* ===== verification/MemblockIter.v ===== *)
(** * memblock: the free-range iterators (mm/memblock.c)

    [__next_mem_range] and [__next_mem_range_rev] walk the regions of one type
    and the gaps between the regions of another in lockstep, keeping both
    positions in one 64-bit loop variable.  The theorems say that the two
    iterations deliver exactly the overlaps of a wanted region with a gap, one
    in ascending and the other in descending order. *)

From S2P Require Import Prelude MemblockTypes MemblockRegions.
Local Open Scope res_scope.

Definition ULLONG_MAX : Z := 18446744073709551615.

Definition should_skip_region (m : memblock_region) (nid flags : Z) : bool :=
  let m_nid := memblock_get_region_node m in
  if negb (nid =? NUMA_NO_NODE) && negb (nid =? m_nid) then true
  else if negb (Z.land flags MEMBLOCK_MIRROR =? 0) && negb (memblock_is_mirror m) then true
  else if (Z.land flags MEMBLOCK_NOMAP =? 0) && memblock_is_nomap m then true
  else false.

(** The two halves of the loop variable, and their reassembly
    [(u32)idx_a | (u64)idx_b << 32]. *)
Definition idx_lo (idx : Z) : Z := s32 (Z.land idx 4294967295).
Definition idx_hi (idx : Z) : Z := s32 (Z.shiftr idx 32).
Definition idx_pack (a b : Z) : Z := Z.lor (u32 a) (u64 (Z.shiftl b 32)).

(** The gap before region [idx_b] of [bs] (after the last one when
    [idx_b = cnt]): [r_start] and [r_end] of the code. *)
Definition gap_start (bs : list memblock_region) (idx_b : Z) : res Z :=
  if idx_b =? 0 then Ok 0
  else r <-- array_get bs (Z.to_nat (idx_b - 1)); Ok (rgn_end r).

Definition gap_end (bs : list memblock_region) (idx_b : Z) : res Z :=
  if idx_b <? Z.of_nat (length bs)
  then r <-- array_get bs (Z.to_nat idx_b); Ok (r_base r)
  else Ok PHYS_ADDR_MAX.

(** Outcome of the inner loop: an overlap, with what to advance, or none. *)
Inductive scan :=
| Hit (out_start out_end : Z) (advance_a : bool) (idx_b : Z)
| Miss (idx_b : Z).

Fixpoint scan_b (fuel : nat) (bs : list memblock_region) (m_start m_end idx_b : Z) : res scan :=
  match fuel with
  | O => Fault NoFuel
  | S fuel =>
    if u64 idx_b <? Z.of_nat (length bs) + 1 then
      r_start <-- gap_start bs idx_b;
      r_end <-- gap_end bs idx_b;
      if m_end <=? r_start then Ok (Miss idx_b)
      else if m_start <? r_end then
        Ok (Hit (Z.max m_start r_start) (Z.min m_end r_end) (m_end <=? r_end) idx_b)
      else scan_b fuel bs m_start m_end (idx_b + 1)
    else Ok (Miss idx_b)
  end.

Fixpoint scan_b_rev (fuel : nat) (bs : list memblock_region) (m_start m_end idx_b : Z) : res scan :=
  match fuel with
  | O => Fault NoFuel
  | S fuel =>
    if 0 <=? idx_b then
      r_start <-- gap_start bs idx_b;
      r_end <-- gap_end bs idx_b;
      if r_end <=? m_start then Ok (Miss idx_b)
      else if r_start <? m_end then
        Ok (Hit (Z.max m_start r_start) (Z.min m_end r_end) (r_start <=? m_start) idx_b)
      else scan_b_rev fuel bs m_start m_end (idx_b - 1)
    else Ok (Miss idx_b)
  end.

(** What one call delivers: the new loop variable and the range with its node,
    if there was one. *)
Definition next_out : Type := Z * option (Z * Z * Z).

Section iterators.
Context (nid flags : Z) (type_a : list memblock_region) (type_b : option (list memblock_region)).

Fixpoint next_loop (fuel : nat) (idx_a idx_b : Z) : res next_out :=
  match fuel with
  | O => Fault NoFuel
  | S fuel =>
    if u64 idx_a <? Z.of_nat (length type_a) then
      m <-- array_get type_a (Z.to_nat idx_a);
      let m_start := r_base m in
      let m_end := rgn_end m in
      let m_nid := memblock_get_region_node m in
      if should_skip_region m nid flags then next_loop fuel (idx_a + 1) idx_b
      else match type_b with
      | None => Ok (idx_pack (idx_a + 1) idx_b, Some (m_start, m_end, m_nid))
      | Some bs =>
        o <-- scan_b (length bs + 3) bs m_start m_end idx_b;
        match o with
        | Hit s e adv_a idx_b =>
          Ok (if adv_a : bool then idx_pack (idx_a + 1) idx_b else idx_pack idx_a (idx_b + 1),
              Some (s, e, m_nid))
        | Miss idx_b => next_loop fuel (idx_a + 1) idx_b
        end
      end
    else Ok (ULLONG_MAX, None)
  end.

Fixpoint next_loop_rev (fuel : nat) (idx_a idx_b : Z) : res next_out :=
  match fuel with
  | O => Fault NoFuel
  | S fuel =>
    if 0 <=? idx_a then
      m <-- array_get type_a (Z.to_nat idx_a);
      let m_start := r_base m in
      let m_end := rgn_end m in
      let m_nid := memblock_get_region_node m in
      if should_skip_region m nid flags then next_loop_rev fuel (idx_a - 1) idx_b
      else match type_b with
      | None => Ok (idx_pack (idx_a - 1) idx_b, Some (m_start, m_end, m_nid))
      | Some bs =>
        o <-- scan_b_rev (length bs + 3) bs m_start m_end idx_b;
        match o with
        | Hit s e adv_a idx_b =>
          Ok (if adv_a : bool then idx_pack (idx_a - 1) idx_b else idx_pack idx_a (idx_b - 1),
              Some (s, e, m_nid))
        | Miss idx_b => next_loop_rev fuel (idx_a - 1) idx_b
        end
      end
    else Ok (ULLONG_MAX, None)
  end.
End iterators.

Definition fix_nid (nid : Z) : Z := if nid =? MAX_NUMNODES then NUMA_NO_NODE else nid.

Definition __next_mem_range (idx nid flags : Z) (type_a : list memblock_region)
    (type_b : option (list memblock_region)) : res next_out :=
  next_loop (fix_nid nid) flags type_a type_b (length type_a + 1) (idx_lo idx) (idx_hi idx).

Definition __next_mem_range_rev (idx nid flags : Z) (type_a : list memblock_region)
    (type_b : option (list memblock_region)) : res next_out :=
  if idx =? ULLONG_MAX then
    next_loop_rev (fix_nid nid) flags type_a type_b (length type_a + 1)
      (Z.of_nat (length type_a) - 1)
      (match type_b with Some bs => Z.of_nat (length bs) | None => 0 end)
  else
    next_loop_rev (fix_nid nid) flags type_a type_b (length type_a + 1) (idx_lo idx) (idx_hi idx).

(** The [for_each_mem_range] loops, collecting what their body receives: [next]
    is called until it sets the loop variable to [ULLONG_MAX]. *)
Fixpoint for_each_loop (next : Z -> res next_out) (fuel : nat) (idx : Z) : res (list (Z * Z * Z)) :=
  match fuel with
  | O => Fault NoFuel
  | S fuel =>
    '(idx, out) <-- next idx;
    if idx =? ULLONG_MAX then Ok []
    else match out with
    | None => Fault OutOfBounds
    | Some o => l <-- for_each_loop next fuel idx; Ok (o :: l)
    end
  end.

(** Enough fuel: every call but the last advances one of the two positions. *)
Definition iter_fuel (type_a : list memblock_region) (type_b : option (list memblock_region)) : nat :=
  length type_a + from_option length 0%nat type_b + 3.

Definition for_each_mem_range (type_a : list memblock_region)
    (type_b : option (list memblock_region)) (nid flags : Z) : res (list (Z * Z * Z)) :=
  for_each_loop (fun idx => __next_mem_range idx nid flags type_a type_b)
    (iter_fuel type_a type_b) 0.

Definition for_each_mem_range_rev (type_a : list memblock_region)
    (type_b : option (list memblock_region)) (nid flags : Z) : res (list (Z * Z * Z)) :=
  for_each_loop (fun idx => __next_mem_range_rev idx nid flags type_a type_b)
    (iter_fuel type_a type_b) ULLONG_MAX.

(** ** Specification: the overlaps of wanted regions with gaps *)

(** Sorted regions, empty ones allowed (the dummy of an empty array). *)
Fixpoint ord_from (lo : Z) (rs : list memblock_region) : Prop :=
  match rs with
  | [] => True
  | r :: rs =>
    lo <= r_base r /\ 0 <= r_size r /\ r_base r + r_size r <= PHYS_ADDR_MAX
    /\ ord_from (r_base r + r_size r) rs
  end.

Lemma wf_ord lo rs : wf_from lo rs -> ord_from lo rs.
Proof. revert lo. induction rs as [|r rs IH]; simpl; intros lo H; [done|]. intuition (auto with lia). Qed.

Lemma wf_regions_ord rs : wf_regions rs -> ord_from 0 rs.
Proof. intros [(fl&n&->)|[_ H]]; [simpl; unfold PHYS_ADDR_MAX; lia|by apply wf_ord]. Qed.

(** The gaps before, between and after the regions. *)
Fixpoint gaps (lo : Z) (bs : list memblock_region) : list (Z * Z) :=
  match bs with
  | [] => [(lo, PHYS_ADDR_MAX)]
  | b :: bs => (lo, r_base b) :: gaps (r_base b + r_size b) bs
  end.

Section spec.
Context (nid flags : Z).

Definition overlap (m : memblock_region) (g : Z * Z) : list (Z * Z * Z) :=
  if (g.1 <? r_base m + r_size m) && (r_base m <? g.2)
  then [(Z.max (r_base m) g.1, Z.min (r_base m + r_size m) g.2, r_nid m)] else [].

Definition inter1 (m : memblock_region) (gs : list (Z * Z)) : list (Z * Z * Z) :=
  if should_skip_region m nid flags then [] else flat_map (overlap m) gs.

Definition inter (ms : list memblock_region) (gs : list (Z * Z)) : list (Z * Z * Z) :=
  flat_map (fun m => inter1 m gs) ms.

Lemma overlap_nil m g : g.2 <= r_base m \/ r_base m + r_size m <= g.1 -> overlap m g = [].
Proof. unfold overlap. intros. zcase; simpl; auto. Qed.

Lemma flat_map_nil {A B} (f : A -> list B) l : Forall (fun x => f x = []) l -> flat_map f l = [].
Proof. induction 1 as [|x l E _ IH]; simpl; [done|]. by rewrite E, IH. Qed.

Lemma inter1_nil m gs : Forall (fun g => overlap m g = []) gs -> inter1 m gs = [].
Proof. intros H. unfold inter1. destruct (should_skip_region _ _ _); [done|]. by apply flat_map_nil. Qed.

Lemma inter_gap_l ms g gs :
  Forall (fun m => overlap m g = []) ms -> inter ms (g :: gs) = inter ms gs.
Proof.
  unfold inter. induction 1 as [|m ms E _ IH]; simpl; [done|]. rewrite IH. f_equal.
  unfold inter1. simpl. by rewrite E.
Qed.

Lemma inter_gap_r ms g gs :
  Forall (fun m => overlap m g = []) ms -> inter ms (gs ++ [g]) = inter ms gs.
Proof.
  unfold inter. induction 1 as [|m ms E _ IH]; simpl; [done|]. rewrite IH. f_equal.
  unfold inter1. rewrite flat_map_app. simpl. by rewrite E, !app_nil_r.
Qed.

Lemma inter_snoc ms m gs : inter (ms ++ [m]) gs = inter ms gs ++ inter1 m gs.
Proof. unfold inter. rewrite flat_map_app. simpl. by rewrite app_nil_r. Qed.
End spec.

(** *** Order facts, by index *)

Lemma zero_le_max : 0 <= PHYS_ADDR_MAX.
Proof. unfold PHYS_ADDR_MAX. lia. Qed.

Lemma ord_lookup lo rs i r : ord_from lo rs -> rs !! i = Some r ->
  lo <= r_base r /\ 0 <= r_size r /\ r_base r + r_size r <= PHYS_ADDR_MAX.
Proof.
  revert lo i. induction rs as [|r' rs IH]; intros lo [|i] H E; simplify_eq/=; [tauto|].
  destruct H as (?&?&?&H). specialize (IH _ _ H E). lia.
Qed.

Lemma ord_lt lo rs i j ri rj : ord_from lo rs -> (i < j)%nat ->
  rs !! i = Some ri -> rs !! j = Some rj -> r_base ri + r_size ri <= r_base rj.
Proof.
  revert lo i j. induction rs as [|r' rs IH]; intros lo [|i] [|j] H Hij Ei Ej; simplify_eq/=; try lia.
  - destruct H as (?&?&?&H). by destruct (ord_lookup _ _ _ _ H Ej).
  - destruct H as (?&?&?&H). eapply (IH _ i j); eauto. lia.
Qed.

Lemma gaps_length lo bs : length (gaps lo bs) = S (length bs).
Proof. revert lo. induction bs; intros; simpl; auto. Qed.

Lemma gaps_lookup lo bs i g : ord_from lo bs -> lo <= PHYS_ADDR_MAX ->
  gaps lo bs !! i = Some g -> lo <= g.1 /\ g.1 <= g.2 <= PHYS_ADDR_MAX.
Proof.
  revert lo i. induction bs as [|b bs IH]; intros lo [|i] H Hlo E; simplify_eq/=; try lia.
  destruct H as (?&?&?&H). specialize (IH _ _ H ltac:(lia) E). lia.
Qed.

Lemma gaps_lt lo bs i j gi gj : ord_from lo bs -> lo <= PHYS_ADDR_MAX -> (i < j)%nat ->
  gaps lo bs !! i = Some gi -> gaps lo bs !! j = Some gj -> gi.2 <= gj.1.
Proof.
  revert lo i j. induction bs as [|b bs IH]; intros lo [|i] [|j] H Hlo Hij Ei Ej; simplify_eq/=; try lia.
  - destruct H as (?&?&?&H). destruct (gaps_lookup _ _ _ _ H ltac:(lia) Ej). lia.
  - destruct H as (?&?&?&H). eapply (IH _ i j); eauto; lia.
Qed.

Lemma gap_ok bs i g : ord_from 0 bs -> gaps 0 bs !! i = Some g ->
  gap_start bs (Z.of_nat i) = Ok g.1 /\ gap_end bs (Z.of_nat i) = Ok g.2.
Proof.
  intros H E. assert (Hi : (i <= length bs)%nat).
  { apply lookup_lt_Some in E. rewrite gaps_length in E. lia. }
  assert (K : forall lo bs i, gaps lo bs !! i = Some g ->
    g.1 = match i with O => lo | S i => from_option (fun r => r_base r + r_size r) 0 (bs !! i) end
    /\ g.2 = from_option r_base PHYS_ADDR_MAX (bs !! i)).
  { clear. intros lo bs. revert lo. induction bs as [|b bs IH]; intros lo [|i] E; simplify_eq/=; auto.
    destruct (IH _ _ E) as [E1 E2]. split; [|done]. rewrite E1. by destruct i. }
  destruct (K _ _ _ E) as [E1 E2]. rewrite E1, E2. split.
  - unfold gap_start. destruct i as [|i]; [done|]. destruct (Z.eqb_spec (Z.of_nat (S i)) 0); [lia|].
    replace (Z.to_nat _) with i by lia. destruct (lookup_lt_is_Some_2 bs i) as [r Er]; [lia|].
    rewrite (array_get_Some _ _ _ Er), Er. simpl. destruct (ord_lookup _ _ _ _ H Er).
    unfold rgn_end, PHYS_ADDR_MAX in *. wrap. done.
  - unfold gap_end. rewrite Nat2Z.id. destruct (Z.ltb_spec (Z.of_nat i) (Z.of_nat (length bs))).
    + destruct (lookup_lt_is_Some_2 bs i) as [r Er]; [lia|]. by rewrite (array_get_Some _ _ _ Er), Er.
    + rewrite lookup_ge_None_2 by lia. done.
Qed.

(** *** The packed loop variable *)

Lemma idx_lo_pack a b : -1 <= a < 2147483648 -> idx_lo (idx_pack a b) = a.
Proof.
  intros H. unfold idx_lo, idx_pack. change 4294967295 with (Z.ones 32).
  rewrite Z.land_lor_distr_l, !Z.land_ones by lia.
  replace (u64 (Z.shiftl b 32) mod 2 ^ 32) with 0; last first.
  { unfold u64. rewrite Z.shiftl_mul_pow2 by lia.
    change 18446744073709551616 with (2 ^ 32 * 2 ^ 32).
    rewrite Z.mul_mod_distr_r by lia. symmetry. apply Z_mod_mult. }
  rewrite Z.lor_0_r. change (2 ^ 32) with 4294967296. fold (u32 (u32 a)). rewrite u32_u32.
  unfold s32. rewrite u32_u32. destruct (Z.eq_dec a (-1)) as [->|]; [done|].
  rewrite u32_small by lia. zcase.
Qed.

Lemma idx_hi_pack a b : 0 <= b < 2147483648 -> idx_hi (idx_pack a b) = b.
Proof.
  intros H. unfold idx_hi, idx_pack. rewrite Z.shiftr_lor, Z.shiftl_mul_pow2 by lia.
  rewrite u64_small by lia. rewrite !Z.shiftr_div_pow2, Z.div_mul by lia.
  pose proof (u32_range a). rewrite (Z.div_small (u32 a)) by lia. rewrite Z.lor_0_l.
  unfold s32. wrap. zcase.
Qed.

Lemma idx_pack_not_max a b : 0 <= b < 2147483648 -> (idx_pack a b =? ULLONG_MAX) = false.
Proof.
  intros H. apply Z.eqb_neq. intros E. apply idx_hi_pack with (a := a) in H as E'.
  rewrite E in E'. vm_compute in E'. lia.
Qed.

(** ** The forward iterator delivers the overlaps in order *)

Section forward.
Context (nid flags : Z) (ms bs : list memblock_region).
Hypothesis Hms : ord_from 0 ms.
Hypothesis Hbs : ord_from 0 bs.
Hypothesis Lms : Z.of_nat (length ms) < 2147483647.
Hypothesis Lbs : Z.of_nat (length bs) < 2147483646.

Local Abbreviation gs := (gaps 0 bs).
Local Abbreviation Inter := (inter nid flags).

Local Hint Resolve zero_le_max : core.

(** Region [i] does not meet gap [j] nor any later one. *)
Lemma fwd_done i m j g :
  ms !! i = Some m -> gs !! j = Some g -> r_base m + r_size m <= g.2 ->
  Forall (fun g' => overlap m g' = []) (drop (S j) gs).
Proof.
  intros Em Eg Hle. apply Forall_lookup. intros k g' E. rewrite lookup_drop in E.
  apply overlap_nil. right. pose proof (gaps_lt 0 bs j (S j + k) g g' Hbs). simpl in *.
  enough (g.2 <= g'.1) by lia. apply H; auto. lia.
Qed.

(** Gap [j] does not meet any region after [i]. *)
Lemma fwd_gap_done i m g :
  ms !! i = Some m -> g.2 <= r_base m + r_size m ->
  Forall (fun m' => overlap m' g = []) (drop (S i) ms).
Proof.
  intros Em Hle. apply Forall_lookup. intros k m' E. rewrite lookup_drop in E.
  apply overlap_nil. left. pose proof (ord_lt 0 ms i (S i + k) m m' Hms ltac:(lia) Em E). lia.
Qed.

(** What the inner loop finds from gap [j] on, for region [i]. *)
Definition scan_spec (i j : nat) (m : memblock_region) (o : scan) : Prop :=
  match o with
  | Miss k => exists j', k = Z.of_nat j' /\ (j <= j' <= length gs)%nat
      /\ Inter (drop i ms) (drop j gs) = Inter (drop (S i) ms) (drop j' gs)
  | Hit s e adv k => exists j', k = Z.of_nat j' /\ (j <= j' < length gs)%nat
      /\ Inter (drop i ms) (drop j gs)
         = (s, e, r_nid m) :: (if adv : bool then Inter (drop (S i) ms) (drop j' gs)
                               else Inter (drop i ms) (drop (S j') gs))
  end.

Lemma inter_step i m l : ms !! i = Some m -> should_skip_region m nid flags = false ->
  Inter (drop i ms) l = flat_map (overlap m) l ++ Inter (drop (S i) ms) l.
Proof.
  intros Em Hs. rewrite (drop_S _ _ _ Em). simpl. unfold inter1. by rewrite Hs.
Qed.

Lemma scan_b_ok fuel i j m :
  ms !! i = Some m -> should_skip_region m nid flags = false ->
  (j <= length gs)%nat -> (length gs - j < fuel)%nat ->
  exists o, scan_b fuel bs (r_base m) (r_base m + r_size m) (Z.of_nat j) = Ok o /\ scan_spec i j m o.
Proof.
  intros Em Hs. revert j. induction fuel as [|fuel IH]; intros j Hj Hf; [lia|].
  cbn [scan_b]. pose proof (gaps_length 0 bs) as Lg. rewrite u64_small by lia.
  destruct (Z.ltb_spec (Z.of_nat j) (Z.of_nat (length bs) + 1)); last first.
  { exists (Miss (Z.of_nat j)). split; [done|]. exists j. repeat split; auto.
    rewrite (inter_step i m) by done. by rewrite (drop_ge _ j) by lia. }
  destruct (lookup_lt_is_Some_2 gs j) as [g Eg]; [lia|].
  destruct (gap_ok bs j g Hbs Eg) as [-> ->]. cbn [res_bind].
  destruct (gaps_lookup 0 bs j g Hbs ltac:(auto) Eg).
  destruct (ord_lookup 0 ms i m Hms Em).
  pose proof (drop_S _ _ _ Eg) as Dj.
  destruct (Z.leb_spec (r_base m + r_size m) g.1).
  { exists (Miss (Z.of_nat j)). split; [done|]. exists j. repeat split; auto.
    rewrite (inter_step i m) by done. rewrite flat_map_nil; [done|]. rewrite Dj.
    constructor; [apply overlap_nil; lia|]. eapply fwd_done; eauto. lia. }
  assert (Ho : r_base m < g.2 -> overlap m g =
      [(Z.max (r_base m) g.1, Z.min (r_base m + r_size m) g.2, r_nid m)]).
  { intros. unfold overlap. zcase; done. }
  destruct (Z.ltb_spec (r_base m) g.2).
  - eexists. split; [done|]. exists j. repeat split; auto; [lia|]. rewrite Dj.
    rewrite (inter_step i m) by done. simpl. rewrite Ho by done. simpl. f_equal.
    destruct (Z.leb_spec (r_base m + r_size m) g.2).
    + rewrite flat_map_nil; [done|]. eapply fwd_done; eauto.
    + rewrite (inter_gap_l nid flags (drop (S i) ms)) by (eapply fwd_gap_done; eauto; lia).
      by rewrite (inter_step i m) by done.
  - replace (Z.of_nat j + 1) with (Z.of_nat (S j)) by lia.
    destruct (IH (S j)) as (o&Eo&So); [lia..|]. exists o. split; [done|].
    assert (En : Inter (drop i ms) (drop j gs) = Inter (drop i ms) (drop (S j) gs)).
    { rewrite Dj. apply inter_gap_l. rewrite (drop_S _ _ _ Em).
      constructor; [apply overlap_nil; lia|]. eapply fwd_gap_done; eauto. lia. }
    destruct o; destruct So as (j'&?&?&?); exists j'; rewrite En; repeat split; auto; lia.
Qed.

(** One call of [__next_mem_range] from positions [i], [j]. *)
Definition next_spec (i j : nat) (o : next_out) : Prop :=
  match Inter (drop i ms) (drop j gs) with
  | [] => o = (ULLONG_MAX, None)
  | x :: l => exists i' j', (i + j < i' + j')%nat /\ (i' <= length ms)%nat /\ (j' <= length gs)%nat
      /\ o = (idx_pack (Z.of_nat i') (Z.of_nat j'), Some x)
      /\ Inter (drop i' ms) (drop j' gs) = l
  end.

Lemma next_loop_ok fuel i j :
  (i <= length ms)%nat -> (j <= length gs)%nat -> (length ms - i < fuel)%nat ->
  exists o, next_loop nid flags ms (Some bs) fuel (Z.of_nat i) (Z.of_nat j) = Ok o /\ next_spec i j o.
Proof.
  revert i j. induction fuel as [|fuel IH]; intros i j Hi Hj Hf; [lia|].
  cbn [next_loop]. rewrite u64_small by lia. pose proof (gaps_length 0 bs) as Lg.
  destruct (Z.ltb_spec (Z.of_nat i) (Z.of_nat (length ms))); last first.
  { eexists. split; [done|]. unfold next_spec. by rewrite (drop_ge ms) by lia. }
  destruct (lookup_lt_is_Some_2 ms i) as [m Em]; [lia|].
  rewrite Nat2Z.id, (array_get_Some _ _ _ Em). cbn [res_bind]. cbv zeta.
  destruct (ord_lookup 0 ms i m Hms Em).
  replace (rgn_end m) with (r_base m + r_size m) by (unfold rgn_end, PHYS_ADDR_MAX in *; wrap; done).
  replace (Z.of_nat i + 1) with (Z.of_nat (S i)) by lia.
  destruct (should_skip_region m nid flags) eqn:Hs.
  { destruct (IH (S i) j) as (o&Eo&So); [lia..|]. exists o. split; [done|].
    unfold next_spec in *. rewrite (drop_S _ _ _ Em). simpl. unfold inter1. rewrite Hs. simpl.
    destruct (Inter (drop (S i) ms) (drop j gs)); [done|]. destruct So as (i'&j'&?&?).
    exists i', j'. split; [lia|done]. }
  destruct (scan_b_ok (length bs + 3) i j m Em Hs) as (o&->&So); [lia..|]. cbn [res_bind].
  destruct o as [s e adv k|k]; destruct So as (j'&->&?&En).
  - eexists. split; [done|]. unfold next_spec. rewrite En. unfold memblock_get_region_node.
    destruct adv.
    + exists (S i), j'. repeat split; auto; lia.
    + exists i, (S j'). replace (Z.of_nat j' + 1) with (Z.of_nat (S j')) by lia. repeat split; auto; lia.
  - destruct (IH (S i) j') as (o&Eo&So); [lia..|]. exists o. split; [done|].
    unfold next_spec in *. rewrite En. destruct (Inter (drop (S i) ms) (drop j' gs)); [done|].
    destruct So as (i'&j''&?&?). exists i', j''. split; [lia|done].
Qed.

Lemma for_each_loop_ok fuel i j :
  fix_nid nid = nid ->
  (i <= length ms)%nat -> (j <= length gs)%nat -> (length ms + length gs - (i + j) < fuel)%nat ->
  for_each_loop (fun idx => __next_mem_range idx nid flags ms (Some bs)) fuel
    (idx_pack (Z.of_nat i) (Z.of_nat j))
  = Ok (Inter (drop i ms) (drop j gs)).
Proof.
  intros Hn. revert i j. induction fuel as [|fuel IH]; intros i j Hi Hj Hf; [lia|].
  pose proof (gaps_length 0 bs) as Lg.
  cbn [for_each_loop]. unfold __next_mem_range at 1. rewrite Hn, idx_lo_pack, idx_hi_pack by lia.
  destruct (next_loop_ok (length ms + 1) i j) as (o&->&So); [lia..|]. cbn [res_bind].
  unfold next_spec in So. destruct (Inter (drop i ms) (drop j gs)) as [|x l]; [by rewrite So|].
  destruct So as (i'&j'&?&?&?&->&<-). rewrite idx_pack_not_max by lia.
  rewrite IH by lia. done.
Qed.
End forward.

(** ** The reverse iterator delivers the same overlaps, last first *)

Section backward.
Context (nid flags : Z) (ms bs : list memblock_region).
Hypothesis Hms : ord_from 0 ms.
Hypothesis Hbs : ord_from 0 bs.
Hypothesis Lms : Z.of_nat (length ms) < 2147483647.
Hypothesis Lbs : Z.of_nat (length bs) < 2147483646.

Local Abbreviation gs := (gaps 0 bs).
Local Abbreviation Inter := (inter nid flags).

(** Positions are counted by what is left: [i] regions, [j] gaps. *)

Lemma bwd_done i m j g :
  ms !! i = Some m -> gs !! j = Some g -> g.1 <= r_base m ->
  Forall (fun g' => overlap m g' = []) (take j gs).
Proof.
  intros Em Eg Hle. apply Forall_lookup. intros k g' E.
  apply lookup_take_Some in E as [E Hk]. apply overlap_nil. left.
  pose proof (gaps_lt 0 bs k j g' g Hbs zero_le_max Hk E Eg). lia.
Qed.

Lemma bwd_gap_done i m g :
  ms !! i = Some m -> r_base m <= g.1 ->
  Forall (fun m' => overlap m' g = []) (take i ms).
Proof.
  intros Em Hle. apply Forall_lookup. intros k m' E.
  apply lookup_take_Some in E as [E Hk]. apply overlap_nil. right.
  pose proof (ord_lt 0 ms k i m' m Hms Hk E Em). lia.
Qed.

Definition rscan_spec (i j : nat) (m : memblock_region) (o : scan) : Prop :=
  match o with
  | Miss k => exists j', k = Z.of_nat j' - 1 /\ (j' <= j)%nat
      /\ Inter (take (S i) ms) (take j gs) = Inter (take i ms) (take j' gs)
  | Hit s e adv k => exists j', k = Z.of_nat j' /\ (S j' <= j)%nat /\ (adv = false -> 1 <= j')%nat
      /\ Inter (take (S i) ms) (take j gs)
         = (if adv : bool then Inter (take i ms) (take (S j') gs)
            else Inter (take (S i) ms) (take j' gs)) ++ [(s, e, r_nid m)]
  end.

Lemma rinter_step i m l : ms !! i = Some m -> should_skip_region m nid flags = false ->
  Inter (take (S i) ms) l = Inter (take i ms) l ++ flat_map (overlap m) l.
Proof. intros Em Hs. rewrite (take_S_r _ _ _ Em), inter_snoc. unfold inter1. by rewrite Hs. Qed.

Lemma scan_b_rev_ok fuel i j m :
  ms !! i = Some m -> should_skip_region m nid flags = false ->
  (j <= length gs)%nat -> (j < fuel)%nat ->
  exists o, scan_b_rev fuel bs (r_base m) (r_base m + r_size m) (Z.of_nat j - 1) = Ok o
            /\ rscan_spec i j m o.
Proof.
  intros Em Hs. revert j. induction fuel as [|fuel IH]; intros j Hj Hf; [lia|].
  cbn [scan_b_rev]. pose proof (gaps_length 0 bs) as Lg.
  destruct (Z.leb_spec 0 (Z.of_nat j - 1)); last first.
  { exists (Miss (Z.of_nat j - 1)). split; [done|]. exists j. repeat split; auto.
    rewrite (rinter_step i m) by done. replace j with 0%nat by lia. simpl. by rewrite app_nil_r. }
  destruct j as [|j]; [lia|]. replace (Z.of_nat (S j) - 1) with (Z.of_nat j) by lia.
  destruct (lookup_lt_is_Some_2 gs j) as [g Eg]; [lia|].
  destruct (gap_ok bs j g Hbs Eg) as [-> ->]. cbn [res_bind].
  destruct (gaps_lookup 0 bs j g Hbs zero_le_max Eg).
  destruct (ord_lookup 0 ms i m Hms Em).
  pose proof (take_S_r _ _ _ Eg) as Dj.
  destruct (Z.leb_spec g.2 (r_base m)).
  { exists (Miss (Z.of_nat j)). split; [done|]. exists (S j). repeat split; auto; [lia|].
    rewrite (rinter_step i m) by done. rewrite flat_map_nil; [by rewrite app_nil_r|]. rewrite Dj.
    apply Forall_app. split; [eapply bwd_done; eauto; lia|].
    apply Forall_singleton, overlap_nil. lia. }
  assert (Ho : g.1 < r_base m + r_size m -> overlap m g =
      [(Z.max (r_base m) g.1, Z.min (r_base m + r_size m) g.2, r_nid m)]).
  { intros. unfold overlap. zcase; done. }
  destruct (Z.ltb_spec g.1 (r_base m + r_size m)).
  - eexists. split; [done|]. exists j. rewrite Dj. split; [done|]. split; [lia|]. split.
    { destruct (Z.leb_spec g.1 (r_base m)); [done|]. intros _. destruct j; [|lia].
      destruct bs; simpl in Eg; simplify_eq/=; lia. }
    rewrite (rinter_step i m) by done. rewrite flat_map_app. simpl.
    rewrite Ho by done. simpl. rewrite app_assoc. f_equal.
    destruct (Z.leb_spec g.1 (r_base m)).
    + rewrite flat_map_nil by (eapply bwd_done; eauto). by rewrite app_nil_r.
    + rewrite (inter_gap_r nid flags (take i ms)) by (eapply bwd_gap_done; eauto; lia).
      by rewrite (rinter_step i m) by done.
  - destruct (IH j) as (o&Eo&So); [lia..|]. exists o. split; [done|].
    assert (En : Inter (take (S i) ms) (take (S j) gs) = Inter (take (S i) ms) (take j gs)).
    { rewrite Dj. apply inter_gap_r. rewrite (take_S_r _ _ _ Em). apply Forall_app.
      split; [eapply bwd_gap_done; eauto; lia|]. apply Forall_singleton, overlap_nil. lia. }
    destruct o; [destruct So as (j'&?&?&?&?)|destruct So as (j'&?&?&?)];
      exists j'; rewrite En; repeat split; auto; lia.
Qed.

Definition rnext_spec (i j : nat) (o : next_out) : Prop :=
  (Inter (take i ms) (take j gs) = [] /\ o = (ULLONG_MAX, None))
  \/ exists i' j' l x, (i' + j' < i + j)%nat /\ (i' <= length ms)%nat /\ (1 <= j' <= length gs)%nat
      /\ o = (idx_pack (Z.of_nat i' - 1) (Z.of_nat j' - 1), Some x)
      /\ Inter (take i ms) (take j gs) = l ++ [x]
      /\ Inter (take i' ms) (take j' gs) = l.

Lemma next_loop_rev_ok fuel i j :
  (i <= length ms)%nat -> (j <= length gs)%nat -> (i < fuel)%nat ->
  exists o, next_loop_rev nid flags ms (Some bs) fuel (Z.of_nat i - 1) (Z.of_nat j - 1) = Ok o
            /\ rnext_spec i j o.
Proof.
  revert i j. induction fuel as [|fuel IH]; intros i j Hi Hj Hf; [lia|].
  cbn [next_loop_rev]. pose proof (gaps_length 0 bs) as Lg.
  destruct (Z.leb_spec 0 (Z.of_nat i - 1)); last first.
  { eexists. split; [done|]. left. replace i with 0%nat by lia. done. }
  destruct i as [|i]; [lia|]. replace (Z.of_nat (S i) - 1) with (Z.of_nat i) by lia.
  destruct (lookup_lt_is_Some_2 ms i) as [m Em]; [lia|].
  rewrite Nat2Z.id, (array_get_Some _ _ _ Em). cbn [res_bind]. cbv zeta.
  destruct (ord_lookup 0 ms i m Hms Em).
  replace (rgn_end m) with (r_base m + r_size m) by (unfold rgn_end, PHYS_ADDR_MAX in *; wrap; done).
  assert (Hrec : forall j', (j' <= j)%nat ->
    Inter (take (S i) ms) (take j gs) = Inter (take i ms) (take j' gs) ->
    exists o, next_loop_rev nid flags ms (Some bs) fuel (Z.of_nat i - 1) (Z.of_nat j' - 1) = Ok o
              /\ rnext_spec (S i) j o).
  { intros j' Hj' En. destruct (IH i j') as (o&Eo&So); [lia..|]. exists o. split; [done|].
    unfold rnext_spec in *. rewrite En. destruct So as [So|(i'&k&l&x&?&?)]; [by left|].
    right. exists i', k, l, x. split; [lia|done]. }
  destruct (should_skip_region m nid flags) eqn:Hs.
  { apply Hrec; [lia|]. rewrite (take_S_r _ _ _ Em), inter_snoc. unfold inter1. rewrite Hs.
    by rewrite app_nil_r. }
  destruct (scan_b_rev_ok (length bs + 3) i j m Em Hs) as (o&->&So); [lia..|]. cbn [res_bind].
  destruct o as [s e adv k|k]; destruct So as (j'&->&?&En); [|by apply Hrec].
  destruct En as [Hadv En]. eexists. split; [done|]. right. unfold memblock_get_region_node.
  destruct adv.
  - exists i, (S j'), (Inter (take i ms) (take (S j') gs)), (s, e, r_nid m).
    replace (Z.of_nat (S j') - 1) with (Z.of_nat j') by lia. repeat split; auto; lia.
  - specialize (Hadv eq_refl).
    exists (S i), j', (Inter (take (S i) ms) (take j' gs)), (s, e, r_nid m).
    replace (Z.of_nat (S i) - 1) with (Z.of_nat i) by lia. repeat split; auto; lia.
Qed.

Lemma for_each_loop_rev_ok fuel i j :
  fix_nid nid = nid ->
  (i <= length ms)%nat -> (1 <= j <= length gs)%nat -> (i + j < fuel)%nat ->
  for_each_loop (fun idx => __next_mem_range_rev idx nid flags ms (Some bs)) fuel
    (idx_pack (Z.of_nat i - 1) (Z.of_nat j - 1))
  = Ok (rev (Inter (take i ms) (take j gs))).
Proof.
  intros Hn. revert i j. induction fuel as [|fuel IH]; intros i j Hi Hj Hf; [lia|].
  pose proof (gaps_length 0 bs) as Lg.
  cbn [for_each_loop]. unfold __next_mem_range_rev at 1.
  rewrite idx_pack_not_max by lia. rewrite Hn, idx_lo_pack, idx_hi_pack by lia.
  destruct (next_loop_rev_ok (length ms + 1) i j) as (o&->&So); [lia..|]. cbn [res_bind].
  destruct So as [[-> ->]|(i'&j'&l&x&?&?&?&->&->&<-)]; [done|].
  rewrite idx_pack_not_max by lia. rewrite IH by lia. cbn [res_bind].
  by rewrite rev_app_distr.
Qed.
End backward.

(** ** The iterators, as theorems *)

Lemma fix_nid_idem nid : fix_nid (fix_nid nid) = fix_nid nid.
Proof. unfold fix_nid. destruct (Z.eqb_spec nid MAX_NUMNODES) as [->|H]; [done|]. zcase; done. Qed.

Lemma next_fix_nid idx nid flags ms b :
  __next_mem_range idx nid flags ms b = __next_mem_range idx (fix_nid nid) flags ms b.
Proof. unfold __next_mem_range. by rewrite fix_nid_idem. Qed.

Lemma next_rev_fix_nid idx nid flags ms b :
  __next_mem_range_rev idx nid flags ms b = __next_mem_range_rev idx (fix_nid nid) flags ms b.
Proof. unfold __next_mem_range_rev. by rewrite fix_nid_idem. Qed.

Lemma for_each_loop_ext f g fuel idx :
  (forall i, f i = g i) -> for_each_loop f fuel idx = for_each_loop g fuel idx.
Proof.
  intros E. revert idx. induction fuel as [|fuel IH]; intros idx; simpl; [done|].
  rewrite E. destruct (g idx) as [[i [o|]]|]; simpl; [|done..]. by rewrite IH.
Qed.

(** The 32-bit halves of the loop variable can index the array. *)
Definition iterable (rs : list memblock_region) : Prop :=
  wf_regions rs /\ Z.of_nat (length rs) < 2147483646.

Lemma for_each_mem_range_inter ms bs nid flags :
  iterable ms -> iterable bs ->
  for_each_mem_range ms (Some bs) nid flags = Ok (inter (fix_nid nid) flags ms (gaps 0 bs)).
Proof.
  intros [Wm Lm] [Wb Lb]. unfold for_each_mem_range.
  rewrite (for_each_loop_ext _ (fun idx => __next_mem_range idx (fix_nid nid) flags ms (Some bs)))
    by (intros; apply next_fix_nid).
  pose proof (for_each_loop_ok (fix_nid nid) flags ms bs (wf_regions_ord _ Wm) (wf_regions_ord _ Wb)
    ltac:(lia) Lb (iter_fuel ms (Some bs)) 0 0 (fix_nid_idem nid)) as H.
  change (idx_pack (Z.of_nat 0) (Z.of_nat 0)) with 0 in H. rewrite H; [done|lia..|].
  unfold iter_fuel. simpl. rewrite gaps_length. lia.
Qed.

Lemma for_each_mem_range_rev_inter ms bs nid flags :
  iterable ms -> iterable bs ->
  for_each_mem_range_rev ms (Some bs) nid flags
  = Ok (rev (inter (fix_nid nid) flags ms (gaps 0 bs))).
Proof.
  intros [Wm Lm] [Wb Lb]. unfold for_each_mem_range_rev.
  pose proof (gaps_length 0 bs) as Lg. apply wf_regions_ord in Wm, Wb.
  rewrite (for_each_loop_ext _ (fun idx => __next_mem_range_rev idx (fix_nid nid) flags ms (Some bs)))
    by (intros; apply next_rev_fix_nid).
  replace (iter_fuel ms (Some bs)) with (S (length ms + length bs + 2))
    by (unfold iter_fuel; simpl; lia).
  cbn [for_each_loop]. unfold __next_mem_range_rev at 1. rewrite Z.eqb_refl, fix_nid_idem.
  replace (Z.of_nat (length bs)) with (Z.of_nat (length (gaps 0 bs)) - 1) by lia.
  destruct (next_loop_rev_ok (fix_nid nid) flags ms bs Wm Wb Lb (length ms + 1)%nat (length ms) (length (gaps 0 bs)))
    as (o&->&So); [lia..|]. cbn [res_bind].
  unfold rnext_spec in So. rewrite (take_ge ms (length ms)), (take_ge (gaps 0 bs)) in So by lia.
  destruct So as [[-> ->]|(i'&j'&l&x&?&?&?&->&->&<-)]; [done|].
  rewrite idx_pack_not_max by lia.
  rewrite (for_each_loop_rev_ok (fix_nid nid) flags ms bs Wm Wb ltac:(lia) Lb _ i' j' (fix_nid_idem nid))
    by lia.
  cbn [res_bind]. by rewrite rev_app_distr.
Qed.

(** Address [x] lies in one of the delivered ranges. *)
Definition delivered (l : list (Z * Z * Z)) (x : Z) : Prop :=
  exists s e n, (s, e, n) ∈ l /\ s <= x < e.

(** Address [x] is free for the request: a wanted region of [ms] has it and no
    region of [bs] does. *)
Definition wanted_free (nid flags : Z) (ms bs : list memblock_region) (x : Z) : Prop :=
  (exists m, m ∈ ms /\ should_skip_region m nid flags = false
             /\ r_base m <= x < r_base m + r_size m)
  /\ attr_at bs x = None.

Lemma elem_of_flat_map {A B} (f : A -> list B) l y : y ∈ flat_map f l <-> exists x, x ∈ l /\ y ∈ f x.
Proof.
  induction l as [|x l IH]; simpl.
  - split; [intros H; by apply elem_of_nil in H|intros (x&H&_); by apply elem_of_nil in H].
  - rewrite elem_of_app, IH. setoid_rewrite elem_of_cons. split.
    + intros [H|(z&Hz&H)]; eauto.
    + intros (z&[->|Hz]&H); eauto.
Qed.

Lemma gaps_cover lo bs x :
  ord_from lo bs -> lo <= x < PHYS_ADDR_MAX ->
  (exists g, g ∈ gaps lo bs /\ g.1 <= x < g.2) <-> attr_at bs x = None.
Proof.
  revert lo. induction bs as [|b bs IH]; intros lo H Hx; simpl.
  { split; [done|]. intros _. exists (lo, PHYS_ADDR_MAX). split; [by apply list_elem_of_singleton|]. simpl. lia. }
  destruct H as (?&?&?&H). setoid_rewrite elem_of_cons.
  assert (Hlater : forall g, g ∈ gaps (r_base b + r_size b) bs -> r_base b + r_size b <= g.1).
  { intros g Hg. apply list_elem_of_lookup in Hg as [i Ei].
    by destruct (gaps_lookup _ _ _ _ H ltac:(lia) Ei). }
  unfold rgn_has. destruct (Z.leb_spec (r_base b) x), (Z.ltb_spec x (r_base b + r_size b)); simpl.
  - split; [|done]. intros (g&[->|Hg]&?); simpl in *; [lia|]. apply Hlater in Hg. lia.
  - rewrite <- (IH _ H) by lia. split.
    + intros (g&[->|Hg]&?); simpl in *; [lia|]. by exists g.
    + intros (g&Hg&?). exists g. auto.
  - split; intros _; [|exists (lo, r_base b); simpl; split; [by left|lia]].
    assert (K : forall lo bs, ord_from lo bs -> x < lo -> attr_at bs x = None).
    { clear. intros lo bs. revert lo. induction bs as [|b bs IH]; intros lo H Hx; simpl; [done|].
      destruct H as (?&?&?&H). unfold rgn_has. destruct (Z.leb_spec (r_base b) x); [lia|].
      simpl. eapply IH; [exact H|lia]. }
    apply (K (r_base b + r_size b)); [done|lia].
  - lia.
Qed.

Lemma inter_cover nid flags ms bs x :
  ord_from 0 ms -> ord_from 0 bs ->
  delivered (inter nid flags ms (gaps 0 bs)) x <-> wanted_free nid flags ms bs x.
Proof.
  intros Hm Hb. unfold delivered, wanted_free, inter.
  assert (Hx : forall m, m ∈ ms -> r_base m <= x < r_base m + r_size m -> 0 <= x < PHYS_ADDR_MAX).
  { intros m Hin Hr. apply list_elem_of_lookup in Hin as [i Ei].
    destruct (ord_lookup _ _ _ _ Hm Ei). lia. }
  split.
  - intros (s&e&n&Hin&Hse). apply elem_of_flat_map in Hin as (m&Hin&Hi). unfold inter1 in Hi.
    destruct (should_skip_region m nid flags) eqn:Hs; [by apply elem_of_nil in Hi|].
    apply elem_of_flat_map in Hi as (g&Hg&Ho). unfold overlap in Ho.
    destruct (_ && _); [|by apply elem_of_nil in Ho]. apply list_elem_of_singleton in Ho. simplify_eq.
    assert (r_base m <= x < r_base m + r_size m) by lia. split; [by exists m|].
    apply (gaps_cover 0); [done|by eapply Hx|]. exists g. split; [done|lia].
  - intros [(m&Hin&Hs&Hr) Hn]. apply (gaps_cover 0) in Hn as (g&Hg&?); [|done|by eapply Hx].
    exists (Z.max (r_base m) g.1), (Z.min (r_base m + r_size m) g.2), (r_nid m). split; [|lia].
    apply elem_of_flat_map. exists m. split; [done|]. unfold inter1. rewrite Hs.
    apply elem_of_flat_map. exists g. split; [done|]. unfold overlap. zcase; simpl.
    by apply list_elem_of_singleton.
Qed.

(** C28: [for_each_mem_range] (repeated [__next_mem_range]) terminates and
    delivers exactly the free addresses: an address lies in a delivered range
    iff a region of the first type that the node and flag selection accepts
    contains it and no region of the second type does. *)
Theorem for_each_mem_range_exact ms bs nid flags :
  iterable ms -> iterable bs ->
  exists l, for_each_mem_range ms (Some bs) nid flags = Ok l
    /\ forall x, delivered l x <-> wanted_free (fix_nid nid) flags ms bs x.
Proof.
  intros Hm Hb. eexists. split; [by apply for_each_mem_range_inter|].
  intros x. apply inter_cover; apply wf_regions_ord; [apply Hm|apply Hb].
Qed.

Lemma for_each_mem_range_exact_witness :
  iterable [MkRegion 0 50 0 0; MkRegion 60 100 0 1] /\ iterable [MkRegion 10 10 0 0]
  /\ exists l, for_each_mem_range [MkRegion 0 50 0 0; MkRegion 60 100 0 1]
                 (Some [MkRegion 10 10 0 0]) NUMA_NO_NODE 0 = Ok l
    /\ forall x, delivered l x <-> wanted_free (fix_nid NUMA_NO_NODE) 0
         [MkRegion 0 50 0 0; MkRegion 60 100 0 1] [MkRegion 10 10 0 0] x.
Proof.
  assert (H1 : iterable [MkRegion 0 50 0 0; MkRegion 60 100 0 1])
    by (split; [right; split; [done|simpl; unfold PHYS_ADDR_MAX; lia]|done]).
  assert (H2 : iterable [MkRegion 10 10 0 0])
    by (split; [right; split; [done|simpl; unfold PHYS_ADDR_MAX; lia]|done]).
  split; [exact H1|]. split; [exact H2|].
  exact (for_each_mem_range_exact _ _ NUMA_NO_NODE 0 H1 H2).
Defined.

(** the reverse iterator ([__next_mem_range_rev]) delivers the ranges of the
    forward one in the opposite order. *)
Theorem for_each_mem_range_rev_is_rev ms bs nid flags :
  iterable ms -> iterable bs ->
  exists l, for_each_mem_range ms (Some bs) nid flags = Ok l
    /\ for_each_mem_range_rev ms (Some bs) nid flags = Ok (rev l).
Proof.
  intros Hm Hb. eexists. split.
  - by apply for_each_mem_range_inter.
  - by apply for_each_mem_range_rev_inter.
Qed.

Lemma for_each_mem_range_rev_is_rev_witness :
  iterable [MkRegion 0 50 0 0] /\ iterable [MkRegion 10 10 0 0; MkRegion 20 5 1 0]
  /\ exists l, for_each_mem_range [MkRegion 0 50 0 0]
                 (Some [MkRegion 10 10 0 0; MkRegion 20 5 1 0]) NUMA_NO_NODE 0 = Ok l
    /\ for_each_mem_range_rev [MkRegion 0 50 0 0]
         (Some [MkRegion 10 10 0 0; MkRegion 20 5 1 0]) NUMA_NO_NODE 0 = Ok (rev l).
Proof.
  assert (H1 : iterable [MkRegion 0 50 0 0])
    by (split; [right; split; [done|simpl; unfold PHYS_ADDR_MAX; lia]|done]).
  assert (H2 : iterable [MkRegion 10 10 0 0; MkRegion 20 5 1 0])
    by (split; [right; split; [done|simpl; unfold PHYS_ADDR_MAX; lia]|done]).
  split; [exact H1|]. split; [exact H2|].
  exact (for_each_mem_range_rev_is_rev _ _ NUMA_NO_NODE 0 H1 H2).
Defined.
