(* ===== verification/MemblockRange.v ===== *)
(** * memblock: range operations on the allocator state (mm/memblock.c)

    [struct memblock] and the operations that add, remove, isolate and update
    ranges, with the growth of a full region array ([memblock_double_array]),
    which takes the memory of the new array from memblock itself and so calls
    back into adding and removing ranges.  That recursion is bounded by fuel. *)

From S2P Require Import Prelude MemblockTypes MemblockRegions MemblockIter.
Local Open Scope res_scope.

Definition PAGE_SHIFT : Z := 12.
Definition PAGE_SIZE : Z := 4096.
Definition MEMBLOCK_ALLOC_ANYWHERE : Z := PHYS_ADDR_MAX.
Definition MEMBLOCK_ALLOC_ACCESSIBLE : Z := 0.
Definition MEMBLOCK_ALLOC_KASAN : Z := 1.

(** [round_up], [round_down] and [ALIGN] of include/linux, on [phys_addr_t]. *)
Definition round_up (x y : Z) : Z := u32 (Z.lor (u32 (x - 1)) (u32 (y - 1)) + 1).
Definition round_down (x y : Z) : Z := Z.land x (u32 (Z.lnot (u32 (y - 1)))).
Definition PAGE_ALIGN (x : Z) : Z :=
  Z.land (u32 (x + (PAGE_SIZE - 1))) (u32 (Z.lnot (PAGE_SIZE - 1))).
Definition clamp (val lo hi : Z) : Z := Z.min (Z.max val lo) hi.

(** The allocator state: [struct memblock] and the static variables beside it. *)
Record memblock := MkMemblock {
  bottom_up : bool;
  current_limit : Z;
  memory : memblock_type;
  reserved : memblock_type;
  system_has_some_mirror : bool;
  memblock_can_resize : bool;
  memblock_memory_in_slab : bool;
  memblock_reserved_in_slab : bool
}.

(** The [struct memblock_type *] arguments point to one of the two arrays. *)
Inductive which := Memory | Reserved.

#[export] Instance which_eq_dec : EqDecision which.
Proof. solve_decision. Defined.

Definition get_type (w : which) (m : memblock) : memblock_type :=
  match w with Memory => memory m | Reserved => reserved m end.

Definition set_type (w : which) (t : memblock_type) (m : memblock) : memblock :=
  match w with
  | Memory => MkMemblock (bottom_up m) (current_limit m) t (reserved m)
                (system_has_some_mirror m) (memblock_can_resize m)
                (memblock_memory_in_slab m) (memblock_reserved_in_slab m)
  | Reserved => MkMemblock (bottom_up m) (current_limit m) (memory m) t
                (system_has_some_mirror m) (memblock_can_resize m)
                (memblock_memory_in_slab m) (memblock_reserved_in_slab m)
  end.

Definition get_in_slab (w : which) (m : memblock) : bool :=
  match w with Memory => memblock_memory_in_slab m | Reserved => memblock_reserved_in_slab m end.

Definition set_in_slab (w : which) (b : bool) (m : memblock) : memblock :=
  match w with
  | Memory => MkMemblock (bottom_up m) (current_limit m) (memory m) (reserved m)
                (system_has_some_mirror m) (memblock_can_resize m)
                b (memblock_reserved_in_slab m)
  | Reserved => MkMemblock (bottom_up m) (current_limit m) (memory m) (reserved m)
                (system_has_some_mirror m) (memblock_can_resize m)
                (memblock_memory_in_slab m) b
  end.

(** The statically initialised state: both arrays hold one zeroed entry. *)
Definition INIT_MEMBLOCK_REGIONS : Z := 128.
Definition memblock_init : memblock :=
  let t := MkType [MkRegion 0 0 0 0] INIT_MEMBLOCK_REGIONS 0 InitRegions in
  MkMemblock false MEMBLOCK_ALLOC_ANYWHERE t t false false false false.

(** ** Finding a free range *)

Definition choose_memblock_flags (m : memblock) : Z :=
  if system_has_some_mirror m then MEMBLOCK_MIRROR else MEMBLOCK_NONE.

(** The bodies of the two search loops, over the ranges the iterators deliver. *)
Fixpoint bottom_up_loop (l : list (Z * Z * Z)) (start end_ size align : Z) : Z :=
  match l with
  | [] => 0
  | (s, e, _) :: l =>
    let this_start := clamp s start end_ in
    let this_end := clamp e start end_ in
    let cand := round_up this_start align in
    if (cand <? this_end) && (size <=? u32 (this_end - cand)) then cand
    else bottom_up_loop l start end_ size align
  end.

Definition __memblock_find_range_bottom_up (start end_ size align nid flags : Z) (m : memblock) : res Z :=
  l <-- for_each_mem_range (regions (memory m)) (Some (regions (reserved m))) nid flags;
  Ok (bottom_up_loop l start end_ size align).

Fixpoint top_down_loop (l : list (Z * Z * Z)) (start end_ size align : Z) : Z :=
  match l with
  | [] => 0
  | (s, e, _) :: l =>
    let this_start := clamp s start end_ in
    let this_end := clamp e start end_ in
    if this_end <? size then top_down_loop l start end_ size align
    else
      let cand := round_down (u32 (this_end - size)) align in
      if this_start <=? cand then cand
      else top_down_loop l start end_ size align
  end.

Definition __memblock_find_range_top_down (start end_ size align nid flags : Z) (m : memblock) : res Z :=
  l <-- for_each_mem_range_rev (regions (memory m)) (Some (regions (reserved m))) nid flags;
  Ok (top_down_loop l start end_ size align).

Definition memblock_find_in_range_node (size align start end_ nid flags : Z) (m : memblock) : res Z :=
  (* pump up @end *)
  let end_ := if (end_ =? MEMBLOCK_ALLOC_ACCESSIBLE) || (end_ =? MEMBLOCK_ALLOC_KASAN)
              then current_limit m else end_ in
  (* avoid allocating the first page *)
  let start := Z.max start PAGE_SIZE in
  let end_ := Z.max start end_ in
  let kernel_end := end_ in
  if bottom_up m && (kernel_end <? end_) then
    let bottom_up_start := Z.max start kernel_end in
    ret <-- __memblock_find_range_bottom_up bottom_up_start end_ size align nid flags m;
    if negb (ret =? 0) then Ok ret
    else __memblock_find_range_top_down start end_ size align nid flags m
  else __memblock_find_range_top_down start end_ size align nid flags m.

(** [goto again] runs at most once: the retry clears the mirror flag. *)
Definition memblock_find_in_range (start end_ size align : Z) (m : memblock) : res Z :=
  let flags := choose_memblock_flags m in
  ret <-- memblock_find_in_range_node size align start end_ NUMA_NO_NODE flags m;
  if (ret =? 0) && negb (Z.land flags MEMBLOCK_MIRROR =? 0) then
    memblock_find_in_range_node size align start end_ NUMA_NO_NODE
      (Z.land flags (Z.lnot MEMBLOCK_MIRROR)) m
  else Ok ret.

(** ** Range operations, over the array growth they use *)

Definition double_fn : Type := which -> Z -> Z -> memblock -> res (Z * memblock).

(** [while (type->cnt + nr > type->max) if (memblock_double_array(...) < 0) return -ENOMEM;]
    Each pass at least doubles [max]. *)
Fixpoint resize_loop (k : nat) (double : double_fn) (w : which) (nr b s : Z) (m : memblock)
  : res (Z * memblock) :=
  if Z.of_nat (cnt (get_type w m)) + nr <=? max (get_type w m) then Ok (0, m)
  else match k with
  | O => Fault NoFuel
  | S k =>
    '(ret, m) <-- double w b s m;
    if ret <? 0 then Ok (- ENOMEM, m) else resize_loop k double w nr b s m
  end.

Definition resize_fuel : nat := 64.

Definition add_range_with (double : double_fn) (w : which) (base size nid flags : Z) (m : memblock)
  : res (Z * memblock) :=
  let obase := base in
  let size := memblock_cap_size base size in
  let end_ := u32 (base + size) in
  if size =? 0 then Ok (0, m)
  else
    let t := get_type w m in
    r0 <-- array_get (regions t) 0;
    if r_size r0 =? 0 then
      (* special case for empty array *)
      Ok (0, set_type w (set_regions t (<[0%nat := MkRegion base size flags nid]> (regions t)) size) m)
    else
      '(_, nr_new) <-- add_pass false t obase end_ nid flags;
      if nr_new =? 0 then Ok (0, m)
      else
        '(ret, m1) <-- resize_loop resize_fuel double w nr_new obase size m;
        if ret <? 0 then Ok (ret, m1)
        else
          '(t2, nr_new) <-- add_pass true (get_type w m1) obase end_ nid flags;
          if nr_new =? 0 then Ok (0, set_type w t2 m1)
          else
            t3 <-- memblock_merge_regions t2;
            Ok (0, set_type w t3 m1).

Definition isolate_range_with (double : double_fn) (w : which) (base size : Z) (m : memblock)
  : res (Z * memblock * nat * nat) :=
  let size := memblock_cap_size base size in
  let end_ := u32 (base + size) in
  if size =? 0 then Ok (0, m, 0%nat, 0%nat)
  else
    '(ret, m1) <-- resize_loop resize_fuel double w 2 base size m;
    if ret <? 0 then Ok (ret, m1, 0%nat, 0%nat)
    else
      '(t, start_rgn, end_rgn) <-- isolate_scan (get_type w m1) base end_;
      Ok (0, set_type w t m1, start_rgn, end_rgn).

Definition remove_range_with (double : double_fn) (w : which) (base size : Z) (m : memblock)
  : res (Z * memblock) :=
  '(ret, m1, start_rgn, end_rgn) <-- isolate_range_with double w base size m;
  if negb (ret =? 0) then Ok (ret, m1)
  else
    t <-- remove_loop (end_rgn - start_rgn) start_rgn (get_type w m1);
    Ok (0, set_type w t m1).

(** ** Growing an array *)

Definition sizeof_memblock_region : Z := 16.

Fixpoint memblock_double_array (fuel : nat) (w : which) (new_area_start new_area_size : Z)
    (m : memblock) : res (Z * memblock) :=
  match fuel with
  | O => Fault NoFuel
  | S fuel =>
    (* no resizing until the reserved regions are known *)
    if negb (memblock_can_resize m) then Ok (-1, m)
    else
      let t := get_type w m in
      let old_size := u32 (max t * sizeof_memblock_region) in
      let new_size := u32 (Z.shiftl old_size 1) in
      let old_alloc_size := PAGE_ALIGN old_size in
      let new_alloc_size := PAGE_ALIGN new_size in
      (* only exclude the range when doubling reserved.regions *)
      let '(nas, nasz) := match w with
                          | Reserved => (new_area_start, new_area_size)
                          | Memory => (0, 0)
                          end in
      addr1 <-- memblock_find_in_range (u32 (nas + nasz)) (current_limit m) new_alloc_size PAGE_SIZE m;
      addr <-- (if (addr1 =? 0) && negb (nasz =? 0)
                then memblock_find_in_range 0 (Z.min nas (current_limit m)) new_alloc_size PAGE_SIZE m
                else Ok addr1);
      if addr =? 0 then Ok (-1, m)
      else
        let old_array := array t in
        let m1 := set_type w (MkType (regions t) (max t * 2) (total_size t) (RegionsAt addr)) m in
        (* free the old array unless it is a static one *)
        m2 <-- (if get_in_slab w m1 then Ok m1
                else match old_array with
                | InitRegions => Ok m1
                | RegionsAt old =>
                  '(_, m') <-- remove_range_with (memblock_double_array fuel) Reserved old old_alloc_size m1;
                  Ok m'
                end);
        (* reserve the new array *)
        '(ret, m3) <-- add_range_with (memblock_double_array fuel) Reserved addr new_alloc_size
                         MAX_NUMNODES 0 m2;
        if negb (ret =? 0) then Fault BugOn
        else Ok (0, set_in_slab w false m3)
  end.

(** ** The operations of the interface *)

(** Growing [memory] grows [reserved] at most once more, and growing [reserved]
    needs no further growth; the fuel leaves room. *)
Definition double_fuel : nat := 8.

Definition memblock_add_range (w : which) (base size nid flags : Z) : memblock -> res (Z * memblock) :=
  add_range_with (memblock_double_array double_fuel) w base size nid flags.

Definition memblock_isolate_range (w : which) (base size : Z) : memblock -> res (Z * memblock * nat * nat) :=
  isolate_range_with (memblock_double_array double_fuel) w base size.

Definition memblock_remove_range (w : which) (base size : Z) : memblock -> res (Z * memblock) :=
  remove_range_with (memblock_double_array double_fuel) w base size.

Definition memblock_add_node (base size nid : Z) : memblock -> res (Z * memblock) :=
  memblock_add_range Memory base size nid 0.
Definition memblock_add (base size : Z) : memblock -> res (Z * memblock) :=
  memblock_add_range Memory base size MAX_NUMNODES 0.
Definition memblock_remove (base size : Z) : memblock -> res (Z * memblock) :=
  memblock_remove_range Memory base size.
Definition memblock_free (base size : Z) : memblock -> res (Z * memblock) :=
  memblock_remove_range Reserved base size.
Definition memblock_reserve (base size : Z) : memblock -> res (Z * memblock) :=
  memblock_add_range Reserved base size MAX_NUMNODES 0.

(** Isolation, update of the isolated regions, merge. *)
Definition update_range (w : which) (f : memblock_region -> memblock_region) (base size : Z)
    (m : memblock) : res (Z * memblock) :=
  '(ret, m1, start_rgn, end_rgn) <-- memblock_isolate_range w base size m;
  if negb (ret =? 0) then Ok (ret, m1)
  else
    let t := get_type w m1 in
    rs <-- update_loop f (end_rgn - start_rgn) start_rgn (regions t);
    t' <-- memblock_merge_regions (set_regions t rs (total_size t));
    Ok (0, set_type w t' m1).

Definition setclr (set : bool) (flag : Z) (r : memblock_region) : memblock_region :=
  MkRegion (r_base r) (r_size r)
    (if set then Z.lor (r_flags r) flag else Z.land (r_flags r) (Z.lnot flag)) (r_nid r).

Definition memblock_setclr_flag (base size : Z) (set : bool) (flag : Z) : memblock -> res (Z * memblock) :=
  update_range Memory (setclr set flag) base size.

Definition memblock_mark_hotplug (base size : Z) := memblock_setclr_flag base size true MEMBLOCK_HOTPLUG.
Definition memblock_clear_hotplug (base size : Z) := memblock_setclr_flag base size false MEMBLOCK_HOTPLUG.
Definition memblock_mark_nomap (base size : Z) := memblock_setclr_flag base size true MEMBLOCK_NOMAP.
Definition memblock_clear_nomap (base size : Z) := memblock_setclr_flag base size false MEMBLOCK_NOMAP.
Definition memblock_mark_mirror (base size : Z) (m : memblock) : res (Z * memblock) :=
  memblock_setclr_flag base size true MEMBLOCK_MIRROR
    (MkMemblock (bottom_up m) (current_limit m) (memory m) (reserved m) true
       (memblock_can_resize m) (memblock_memory_in_slab m) (memblock_reserved_in_slab m)).

Definition memblock_set_node (base size : Z) (w : which) (nid : Z) : memblock -> res (Z * memblock) :=
  update_range w (fun r => memblock_set_region_node r nid) base size.
