(* ===== verification/MemblockSpec.v ===== *)
(** * memblock: what the range operations promise

    Each range operation, on a well-formed state with room in the array, does to
    the attributes of every address exactly what its specification says and
    keeps the array well formed; without room and without resizing it fails
    with [-ENOMEM] and changes nothing.  On minimal arrays the results are
    canonical, which gives the round trips. *)

From S2P Require Import Prelude MemblockTypes MemblockRegions MemblockIter MemblockRange.
Local Open Scope res_scope.

(** The end of the range [base, base + size) after [memblock_cap_size]. *)
Definition range_end (base size : Z) : Z := Z.min (base + size) PHYS_ADDR_MAX.

Definition in_range (base size x : Z) : bool := (base <=? x) && (x <? range_end base size).

(** A [phys_addr_t] argument pair. *)
Definition phys_range (base size : Z) : Prop := 0 <= base <= PHYS_ADDR_MAX /\ 0 <= size <= PHYS_ADDR_MAX.

(** The array has room for [nr] more regions. *)
Definition room (w : which) (nr : Z) (m : memblock) : Prop :=
  Z.of_nat (cnt (get_type w m)) + nr <= max (get_type w m).

(** Attribute maps and what the operations do to them: the abstract state of an
    array and its transitions. *)
Definition attrs : Type := Z -> option (Z * Z).

Definition add_attrs (base size nid flags : Z) (a : attrs) : attrs :=
  fun x => match a x with
           | Some v => Some v
           | None => if in_range base size x then Some (flags, nid) else None
           end.

Definition remove_attrs (base size : Z) (a : attrs) : attrs :=
  fun x => if in_range base size x then None else a x.

Definition map_attrs (g : Z * Z -> Z * Z) (base size : Z) (a : attrs) : attrs :=
  fun x => if in_range base size x then g <$> a x else a x.

(** [refines t t' f]: [t'] is well formed, keeps the array of [t], and its
    attributes are those of [t] transformed by [f]. *)
Definition refines (t t' : memblock_type) (f : attrs -> attrs) : Prop :=
  wf_type t' /\ max t' = max t /\ array t' = array t
  /\ (forall x, attr_at (regions t') x = f (attr_at (regions t)) x)
  /\ (minimal (regions t) -> minimal (regions t')).

(** ** Helper lemmas *)

Lemma cap_size_eq base size : phys_range base size ->
  memblock_cap_size base size = range_end base size - base
  /\ u32 (base + memblock_cap_size base size) = range_end base size
  /\ base <= range_end base size <= PHYS_ADDR_MAX.
Proof.
  unfold phys_range, memblock_cap_size, range_end, PHYS_ADDR_MAX. intros H.
  rewrite (u32_small (4294967295 - base)) by lia. wrap. lia.
Qed.

Lemma get_set_type w t m : get_type w (set_type w t m) = t.
Proof. by destruct w. Qed.

Lemma set_get_type w m : set_type w (get_type w m) m = m.
Proof. by destruct w, m. Qed.

Lemma set_set_type w t t' m : set_type w t (set_type w t' m) = set_type w t m.
Proof. by destruct w. Qed.

Lemma wf_total t : wf_type t -> 0 <= sum_size (regions t) <= PHYS_ADDR_MAX.
Proof.
  intros [[(fl&n&E)|[_ H]] _].
  - rewrite E. simpl. unfold PHYS_ADDR_MAX. lia.
  - apply wf_from_bound in H. unfold PHYS_ADDR_MAX in *. lia.
Qed.

Lemma wf_counted t : wf_type t -> counted t.
Proof.
  intros H. pose proof (wf_total t H). destruct H as (_&E&_). unfold counted. rewrite E.
  unfold PHYS_ADDR_MAX in *. wrap. done.
Qed.

Lemma wf_set_counted t rs :
  rs <> [] -> wf_from 0 rs -> Z.of_nat (length rs) <= max t -> wf_type (set_counted t rs).
Proof.
  intros Hn H Hl. split; [by right|]. split; [|done]. simpl.
  apply wf_from_bound in H. unfold PHYS_ADDR_MAX in *. wrap. done.
Qed.

Lemma wf_head t : wf_type t -> exists r0, regions t !! 0%nat = Some r0
  /\ (r_size r0 = 0 <-> dummy (regions t)).
Proof.
  intros [[(fl&n&E)|[Hn H]] _].
  - rewrite E. eexists. split; [done|]. simpl. split; [intros _; by exists fl, n|done].
  - destruct (regions t) as [|r rs]; [done|]. exists r. split; [done|]. destruct H as (?&?&_).
    split; [lia|]. intros (fl&n&E). injection E as -> _. simpl in *. lia.
Qed.

Lemma wf_max t : wf_type t -> 1 <= max t.
Proof.
  intros Hwf. destruct (wf_head t Hwf) as (r0&E&_). apply lookup_lt_Some in E.
  destruct Hwf as (_&_&Hc). unfold cnt in Hc. lia.
Qed.

Lemma resize_room k double w nr b s m :
  room w nr m -> resize_loop k double w nr b s m = Ok (0, m).
Proof. unfold room. intros H. destruct k; simpl; zcase; done. Qed.

Lemma refines_id t f : wf_type t -> (forall x, attr_at (regions t) x = f (attr_at (regions t)) x) -> refines t t f.
Proof. intros Hwf Hf. repeat split; auto; apply Hwf. Qed.

(** ** Adding a range *)

Lemma add_range_refines double w base size nid flags m :
  wf_type (get_type w m) -> phys_range base size ->
  (dummy (regions (get_type w m))
   \/ room w (nr_needed (regions (get_type w m)) base (range_end base size) nid flags) m) ->
  exists t', add_range_with double w base size nid flags m = Ok (0, set_type w t' m)
    /\ refines (get_type w m) t' (add_attrs base size nid flags)
    /\ (cnt t' <= length (fill nid flags base (range_end base size) (regions (get_type w m))))%nat.
Proof.
  set (t := get_type w m). intros Hwf Hr Hroom. pose proof (wf_max t Hwf) as Hmax.
  unfold add_range_with. fold t.
  destruct (cap_size_eq base size Hr) as (Ec&->&He). rewrite Ec.
  set (e := range_end base size) in *.
  assert (Hin : forall x, in_range base size x = (base <=? x) && (x <? e)) by done.
  destruct (Z.eqb_spec (e - base) 0).
  { exists t. unfold t. rewrite set_get_type. split; [done|]. fold t. split; [|apply fill_length].
    apply refines_id; [done|]. intros x. unfold add_attrs. rewrite Hin. destruct (attr_at _ x); [done|]. zcase; done. }
  destruct (wf_head t Hwf) as (r0&E0&Hd). rewrite (array_get_Some _ _ _ E0). cbn [res_bind].
  destruct (Z.eqb_spec (r_size r0) 0) as [Ez|Ez].
  { apply Hd in Ez. assert (Er : exists r, regions t = [r]) by (destruct Ez as (?&?&?); eauto).
    destruct Er as [r Er]. rewrite Er. eexists. split; [done|].
    pose proof (fill_length nid flags base e (regions t)) as Hfl. rewrite Er in Hfl.
    split; [|rewrite Er in *; exact Hfl].
    split; [|split; [done|split; [done|split; [|done]]]].
    - split; [right; split; [done|]|split; [|exact Hmax]]; simpl; unfold phys_range in *; lia.
    - intros x. simpl regions. unfold add_attrs. rewrite (attr_at_dummy (regions t)) by done.
      rewrite Hin. cbn. unfold rgn_has. cbn [r_base r_size].
      replace (base + (e - base)) with e by lia. by destruct (_ && _). }
  assert (Hw : regions t <> [] /\ wf_from 0 (regions t)) by (destruct Hwf as [[Hdu|?] _]; [tauto|done]).
  destruct Hw as [Hne Hw]. destruct Hroom as [Hdu|Hroom]; [tauto|].
  pose proof (wf_counted t Hwf) as Hc. unfold phys_range in Hr.
  rewrite add_pass_count by (auto; lia). cbn [res_bind].
  assert (Ha : forall x, attr_at (fill nid flags base e (regions t)) x
                         = add_attrs base size nid flags (attr_at (regions t)) x).
  { intros x. rewrite (fill_attr nid flags 0) by done. unfold add_attrs. by rewrite Hin. }
  destruct (Z.eqb_spec (nr_needed (regions t) base e nid flags) 0) as [En|En].
  { exists t. unfold t at 1. rewrite set_get_type. split; [done|]. split; [|apply fill_length].
    apply refines_id; [done|]. intros x. rewrite <- Ha. rewrite fill_same; [done|]. unfold nr_needed in En. lia. }
  rewrite resize_room by done. cbn [res_bind]. fold t.
  assert (Hlen : Z.of_nat (length (fill nid flags base e (regions t))) <= max t).
  { unfold room, nr_needed, cnt in Hroom. fold t e in Hroom. lia. }
  rewrite add_pass_insert by (auto; lia). cbn [res_bind].
  change (0 <? 0) with false. cbv iota. destruct (Z.eqb_spec (nr_needed (regions t) base e nid flags) 0); [lia|].
  assert (Hf : wf_from 0 (fill nid flags base e (regions t))) by (apply (fill_wf nid flags 0); auto; lia).
  rewrite merge_regions_ok by done. cbn [res_bind]. eexists. split; [done|]. simpl regions.
  set (rs := merge_list (fill nid flags base e (regions t))).
  assert (Hrs : wf_type (set_counted t rs)).
  { apply wf_set_counted; [by apply merge_list_nonempty, fill_nonempty|by apply merge_list_wf|].
    pose proof (merge_list_length (fill nid flags base e (regions t))). fold rs in H. lia. }
  split; [|apply merge_list_length]. split; [|split; [done|split; [done|split]]].
  - unfold set_counted in *. simpl in *. unfold rs in Hrs at 2. by rewrite merge_list_sum in Hrs.
  - intros x. rewrite <- Ha. by apply (merge_list_attr 0).
  - intros _. apply merge_list_minimal.
Qed.

(** ** Isolating, removing and updating a range *)

Lemma empty_range base size x : range_end base size - base = 0 -> in_range base size x = false.
Proof. unfold in_range. intros. zcase; done. Qed.

(** The scan leaves the dummy of an empty array alone. *)
Lemma isolate_scan_dummy t b e :
  dummy (regions t) -> 0 <= b < e -> isolate_scan t b e = Ok (t, 0%nat, 0%nat).
Proof.
  intros (fl&n&E) Hbe. unfold isolate_scan, cnt. rewrite E. simpl length. simpl Nat.add.
  assert (Er : rgn_end (MkRegion 0 0 fl n) = 0) by done.
  cbn [isolate_loop]. rewrite E. cbn [lookup list_lookup r_base]. rewrite Er. destruct (Z.leb_spec e 0); [lia|]. destruct (Z.leb_spec 0 b); [done|lia].
Qed.

Lemma rgn_count b e rs :
  (end_rgn_of 0 0 b e rs - start_rgn_of 0 0 0 b e rs)%nat = length (inside b e rs)
  /\ (inside b e rs <> [] -> start_rgn_of 0 0 0 b e rs = length (below b e rs))
  /\ (inside b e rs = [] -> start_rgn_of 0 0 0 b e rs = 0%nat /\ end_rgn_of 0 0 b e rs = 0%nat).
Proof. unfold end_rgn_of, start_rgn_of. destruct (inside b e rs); simpl; repeat split; auto; try done; lia. Qed.

(** What isolation followed by work on the isolated regions sees: nothing to do,
    or the three parts with the indices of the middle one. *)
Lemma isolate_cases double w base size m :
  wf_type (get_type w m) -> phys_range base size -> room w 2 m ->
  let t := get_type w m in let b := base in let e := range_end base size in
  (isolate_range_with double w base size m = Ok (0, m, 0%nat, 0%nat)
   /\ (dummy (regions t) \/ e - b = 0))
  \/ (exists s en, isolate_range_with double w base size m
        = Ok (0, set_type w (set_counted t (isolated b e (regions t))) m, s, en)
      /\ (en - s)%nat = length (inside b e (regions t))
      /\ (inside b e (regions t) <> [] -> s = length (below b e (regions t)))
      /\ regions t <> [] /\ wf_from 0 (regions t) /\ 0 <= b < e /\ e <= PHYS_ADDR_MAX
      /\ (inside b e (regions t) = [] -> s = 0%nat /\ en = 0%nat)).
Proof.
  intros Hwf Hr Hroom t b e. unfold isolate_range_with.
  destruct (cap_size_eq base size Hr) as (Ec&->&He). rewrite Ec. fold e.
  destruct (Z.eqb_spec (e - base) 0); [by left; auto|].
  rewrite resize_room by done. cbn [res_bind]. change (0 <? 0) with false. cbv iota.
  unfold phys_range in Hr. assert (Hbe : 0 <= b < e) by (unfold b, e in *; lia).
  destruct Hwf as ([Hd|[Hne Hw]]&Ht&Hc) eqn:Ewf.
  - left. rewrite isolate_scan_dummy by done. cbn [res_bind]. rewrite set_get_type. auto.
  - right. fold t in Hw, Hne. rewrite isolate_scan_ok; auto.
    + cbn [res_bind]. destruct (rgn_count b e (regions t)) as (E1&E2&E3).
      eexists _, _. split; [done|]. repeat split; auto; try lia; by apply E3.
    + apply wf_counted. by repeat split; try right.
    + unfold room in Hroom. lia.
Qed.

Lemma or_dummy_wf t rs :
  wf_from 0 rs -> Z.of_nat (length rs) <= max t -> 1 <= max t -> wf_type (set_counted t (or_dummy rs)).
Proof.
  intros Hw Hl Hm. destruct rs as [|r rs]; [|by apply wf_set_counted].
  split; [left; by exists 0, MAX_NUMNODES|]. split; [done|]. simpl. exact Hm.
Qed.

Lemma or_dummy_attr rs x : attr_at (or_dummy rs) x = attr_at rs x.
Proof. destruct rs; [|done]. apply attr_at_dummy. by exists 0, MAX_NUMNODES. Qed.

Lemma remove_range_refines_cnt double w base size m :
  wf_type (get_type w m) -> phys_range base size -> room w 2 m ->
  exists t', remove_range_with double w base size m = Ok (0, set_type w t' m)
    /\ refines (get_type w m) t' (remove_attrs base size)
    /\ (cnt t' <= cnt (get_type w m) + 2)%nat.
Proof.
  intros Hwf Hr Hroom. unfold remove_range_with.
  destruct (isolate_cases double w base size m Hwf Hr Hroom)
    as [(->&Hcase)|(s&en&->&En&Es&Hne&Hw&Hbe&He&_)]; cbn [res_bind];
    change (negb (0 =? 0)) with false; cbv iota.
  { simpl remove_loop. cbn [res_bind]. eexists. split; [done|]. split; [|lia]. apply refines_id; [done|].
    intros x. unfold remove_attrs. destruct Hcase as [Hd|Hz].
    - rewrite (attr_at_dummy _ x Hd). by destruct (in_range _ _ _).
    - by rewrite empty_range. }
  rewrite get_set_type. set (t := get_type w m) in *. set (e := range_end base size) in *.
  rewrite En.
  assert (Erem : remove_loop (length (inside base e (regions t))) s
                   (set_counted t (isolated base e (regions t)))
                 = Ok (set_counted t (or_dummy (below base e (regions t) ++ above base e (regions t))))).
  { pose proof (isolated_length 0 base e (regions t) Hw ltac:(lia)) as [Hlen _].
    unfold isolated in *. destruct (inside base e (regions t)) as [|r mid] eqn:Ei.
    - simpl. do 2 f_equal. simpl in Hlen.
      destruct (below base e (regions t) ++ above base e (regions t)) eqn:Ea; [|done].
      destruct (regions t); [done|]. simpl in Hlen. lia.
    - rewrite Es by done. rewrite <- Ei at 1. rewrite Ei.
      rewrite (remove_loop_ok _ (below base e (regions t)) (r :: mid) (above base e (regions t)));
        [done|done|apply counted_set]. }
  rewrite Erem. cbn [res_bind]. rewrite set_set_type. eexists. split; [done|].
  pose proof (removed_length 0 base e (regions t) Hw ltac:(lia)).
  unfold room, cnt in Hroom. fold t in Hroom. split; [|unfold cnt; simpl; destruct (_ ++ _); simpl in *; lia].
  split; [apply or_dummy_wf; [apply removed_wf; [exact Hw|lia]|lia|lia]|].
  split; [done|]. split; [done|]. split.
  - intros x. simpl regions. rewrite or_dummy_attr, (removed_attr 0) by (auto; lia). done.
  - intros Hm. simpl regions. pose proof (removed_minimal 0 base e (regions t) Hw ltac:(lia) Hm).
    by destruct (_ ++ _).
Qed.

Lemma remove_range_refines double w base size m :
  wf_type (get_type w m) -> phys_range base size -> room w 2 m ->
  exists t', remove_range_with double w base size m = Ok (0, set_type w t' m)
    /\ refines (get_type w m) t' (remove_attrs base size).
Proof. intros. destruct (remove_range_refines_cnt double w base size m) as (t'&?&?&_); eauto. Qed.

Lemma update_range_refines w f g base size m :
  (forall r, r_base (f r) = r_base r) -> (forall r, r_size (f r) = r_size r) ->
  (forall r, (r_flags (f r), r_nid (f r)) = g (r_flags r, r_nid r)) ->
  wf_type (get_type w m) -> phys_range base size -> room w 2 m ->
  exists t', update_range w f base size m = Ok (0, set_type w t' m)
    /\ refines (get_type w m) t' (map_attrs g base size).
Proof.
  intros Hfb Hfs Hfa Hwf Hr Hroom. unfold update_range, memblock_isolate_range.
  destruct (isolate_cases (memblock_double_array double_fuel) w base size m Hwf Hr Hroom)
    as [(->&Hcase)|(s&en&->&En&Es&Hne&Hw&Hbe&He&_)]; cbn [res_bind];
    change (negb (0 =? 0)) with false; cbv iota.
  { simpl update_loop. cbn [res_bind]. rewrite set_regions_id. set (t := get_type w m) in *.
    assert (Hid : forall x, attr_at (regions t) x = map_attrs g base size (attr_at (regions t)) x).
    { intros x. unfold map_attrs. destruct Hcase as [Hd|Hz].
      - rewrite (attr_at_dummy _ x Hd). by destruct (in_range _ _ _).
      - by rewrite empty_range. }
    destruct Hwf as ([(fl&n&Ed)|[Hne Hw]]&Ht&Hc) eqn:Ewf.
    - unfold memblock_merge_regions, cnt. rewrite Ed. simpl. rewrite <- Ed, set_regions_id.
      eexists. split; [done|]. apply refines_id; [|done]. repeat split; auto. left. by exists fl, n.
    - rewrite merge_regions_ok by done. cbn [res_bind]. eexists. split; [done|].
      split; [|split; [done|split; [done|split]]].
      + split; [right; split; [by apply merge_list_nonempty|by apply merge_list_wf]|].
        split; [by simpl; rewrite merge_list_sum|].
        simpl. unfold cnt in *. simpl. pose proof (merge_list_length (regions t)). lia.
      + intros x. simpl. rewrite (merge_list_attr 0) by done. apply Hid.
      + intros _. apply merge_list_minimal. }
  rewrite get_set_type. set (t := get_type w m) in *. set (e := range_end base size) in *.
  simpl regions. rewrite En.
  assert (Eupd : update_loop f (length (inside base e (regions t))) s (isolated base e (regions t))
                 = Ok (updated f base e (regions t))).
  { unfold isolated, updated. destruct (inside base e (regions t)) as [|r mid] eqn:Ei; [done|].
    rewrite Es by done. apply (update_loop_ok f (below base e (regions t)) (r :: mid)). }
  rewrite Eupd. cbn [res_bind].
  assert (Hu : wf_from 0 (updated f base e (regions t))) by (apply updated_wf; auto; lia).
  rewrite merge_regions_ok by done. cbn [res_bind]. rewrite set_set_type. eexists. split; [done|].
  pose proof (isolated_length 0 base e (regions t) Hw ltac:(lia)) as [Hlen _].
  pose proof (merge_list_length (updated f base e (regions t))) as Hml.
  rewrite updated_length in Hml. unfold room, cnt in Hroom. fold t in Hroom.
  split; [|split; [done|split; [done|split]]].
  - split; [right; split; [apply merge_list_nonempty|by apply merge_list_wf]|split].
    + intros E. pose proof (updated_length f base e (regions t)) as Eu. simpl in E. rewrite E in Eu.
      rewrite <- Eu in Hlen. destruct (regions t); [done|]. simpl in Hlen. lia.
    + simpl. rewrite merge_list_sum, (updated_sum f Hfs 0) by (auto; lia).
      rewrite (isolated_sum 0) by (auto; lia). pose proof (wf_total t Hwf).
      unfold PHYS_ADDR_MAX in *. wrap. done.
    + unfold cnt. simpl. lia.
  - intros x. simpl. rewrite (merge_list_attr 0) by done.
    rewrite (updated_attr f g Hfb Hfs Hfa 0) by (auto; lia). done.
  - intros _. apply merge_list_minimal.
Qed.

(** ** Lack of room *)

Lemma resize_stuck k w nr b s m :
  memblock_can_resize m = false -> ~ room w nr m -> (0 < k)%nat ->
  resize_loop k (memblock_double_array double_fuel) w nr b s m = Ok (- ENOMEM, m).
Proof.
  intros Hc Hr Hk. destruct k as [|k]; [lia|]. unfold room in Hr. cbn [resize_loop].
  destruct (Z.leb_spec (Z.of_nat (cnt (get_type w m)) + nr) (max (get_type w m))); [lia|].
  unfold double_fuel. cbn [memblock_double_array]. rewrite Hc. done.
Qed.

Lemma add_range_enomem w base size nid flags m :
  wf_type (get_type w m) -> phys_range base size -> memblock_can_resize m = false ->
  ~ dummy (regions (get_type w m)) ->
  ~ room w (nr_needed (regions (get_type w m)) base (range_end base size) nid flags) m ->
  memblock_add_range w base size nid flags m = Ok (- ENOMEM, m).
Proof.
  set (t := get_type w m). intros Hwf Hr Hc Hd Hroom.
  unfold memblock_add_range, add_range_with. fold t.
  destruct (cap_size_eq base size Hr) as (Ec&->&He). rewrite Ec.
  set (e := range_end base size) in *.
  assert (Hw : regions t <> [] /\ wf_from 0 (regions t)) by (destruct Hwf as [[?|?] _]; tauto).
  destruct Hw as [Hne Hw]. unfold phys_range in Hr.
  assert (Hneed : 0 < nr_needed (regions t) base e nid flags).
  { unfold room in Hroom. fold t in Hroom. destruct Hwf as (_&_&?). lia. }
  destruct (Z.eqb_spec (e - base) 0) as [Ez|_].
  { exfalso. unfold nr_needed in Hneed.
    assert (K : forall rs lo, wf_from lo rs -> fill nid flags base e rs = rs).
    { induction rs as [|r rs IH]; intros lo H; simpl; [zcase; done|]. destruct H as (?&?&?&H).
      zcase; simpl; f_equal; try by eapply IH.
      replace (Z.min (r_base r + r_size r) e) with base by lia. by eapply IH. }
    rewrite (K _ 0) in Hneed by done. lia. }
  destruct (wf_head t Hwf) as (r0&E0&Hd'). rewrite (array_get_Some _ _ _ E0). cbn [res_bind].
  destruct (Z.eqb_spec (r_size r0) 0); [tauto|].
  rewrite add_pass_count by (auto using wf_counted; lia). cbn [res_bind].
  destruct (Z.eqb_spec (nr_needed (regions t) base e nid flags) 0); [lia|].
  rewrite resize_stuck; [done|done|done|unfold resize_fuel; lia].
Qed.

Lemma isolate_enomem w base size m :
  phys_range base size -> memblock_can_resize m = false -> ~ room w 2 m ->
  0 < range_end base size - base ->
  memblock_isolate_range w base size m = Ok (- ENOMEM, m, 0%nat, 0%nat).
Proof.
  intros Hr Hc Hroom Hs. unfold memblock_isolate_range, isolate_range_with.
  destruct (cap_size_eq base size Hr) as (->&_&He). destruct (Z.eqb_spec (range_end base size - base) 0); [lia|].
  rewrite resize_stuck; [done|done|done|unfold resize_fuel; lia].
Qed.

Lemma isolate_empty double w base size m :
  phys_range base size -> range_end base size - base = 0 ->
  isolate_range_with double w base size m = Ok (0, m, 0%nat, 0%nat).
Proof.
  intros Hr Hs. unfold isolate_range_with. destruct (cap_size_eq base size Hr) as (->&_&_).
  by rewrite Hs.
Qed.

(** ** The operations, as refinements *)

Definition wf (m : memblock) : Prop := wf_type (memory m) /\ wf_type (reserved m).

Lemma wf_get w m : wf m -> wf_type (get_type w m).
Proof. intros [??]. by destruct w. Qed.

Lemma wf_set w t m : wf m -> wf_type t -> wf (set_type w t m).
Proof. intros [??] ?. by destruct w. Qed.

#[export] Hint Resolve wf_get wf_set : kernel.

(** C1: [memblock_add_range] on a well-formed array with room returns 0 and
    leaves a well-formed array in which exactly the uncovered addresses of the
    (capped) range have gained the given flags and node; addresses covered
    before keep their attributes, and a minimal array stays minimal. *)
Theorem memblock_add_range_correct w base size nid flags m :
  wf m -> phys_range base size ->
  room w (nr_needed (regions (get_type w m)) base (range_end base size) nid flags) m ->
  exists t', memblock_add_range w base size nid flags m = Ok (0, set_type w t' m)
    /\ refines (get_type w m) t' (add_attrs base size nid flags).
Proof.
  intros. destruct (add_range_refines (memblock_double_array double_fuel) w base size nid flags m)
    as (t'&?&?&_); eauto with kernel.
Qed.

(** C2: [memblock_remove_range] on a well-formed array with room for two more
    regions returns 0 and leaves a well-formed array that covers exactly the
    addresses outside the range, with their attributes; minimality is kept. *)
Theorem memblock_remove_range_correct w base size m :
  wf m -> phys_range base size -> room w 2 m ->
  exists t', memblock_remove_range w base size m = Ok (0, set_type w t' m)
    /\ refines (get_type w m) t' (remove_attrs base size).
Proof. intros. apply remove_range_refines; auto with kernel. Qed.

(** [memblock_setclr_flag] sets or clears the flag on exactly the covered
    addresses of the range and changes nothing else. *)
Theorem memblock_setclr_flag_correct base size (set : bool) flag m :
  wf m -> phys_range base size -> room Memory 2 m ->
  exists t', memblock_setclr_flag base size set flag m = Ok (0, set_type Memory t' m)
    /\ refines (memory m) t'
         (map_attrs (fun v => (if set then Z.lor v.1 flag else Z.land v.1 (Z.lnot flag), v.2)) base size).
Proof. intros. apply (update_range_refines Memory); auto with kernel. Qed.

(** [memblock_set_node] sets the node of exactly the covered addresses of
    the range and changes nothing else. *)
Theorem memblock_set_node_correct base size w nid m :
  wf m -> phys_range base size -> room w 2 m ->
  exists t', memblock_set_node base size w nid m = Ok (0, set_type w t' m)
    /\ refines (get_type w m) t' (map_attrs (fun v => (v.1, nid)) base size).
Proof. intros. apply (update_range_refines w); auto with kernel. Qed.

(** ** Sequences of operations *)

Inductive mb_op :=
| OpAdd (base size nid : Z)
| OpRemove (base size : Z)
| OpReserve (base size : Z)
| OpFree (base size : Z)
| OpSetClr (base size : Z) (set : bool) (flag : Z)
| OpSetNode (base size : Z) (w : which) (nid : Z).

Definition op_args (o : mb_op) : Prop :=
  match o with
  | OpAdd b s _ | OpRemove b s | OpReserve b s | OpFree b s | OpSetClr b s _ _ | OpSetNode b s _ _ =>
    phys_range b s
  end.

Definition run_op (o : mb_op) : memblock -> res (Z * memblock) :=
  match o with
  | OpAdd b s n => memblock_add_node b s n
  | OpRemove b s => memblock_remove b s
  | OpReserve b s => memblock_reserve b s
  | OpFree b s => memblock_free b s
  | OpSetClr b s set flag => memblock_setclr_flag b s set flag
  | OpSetNode b s w n => memblock_set_node b s w n
  end.

(** Run a sequence, whatever the calls return. *)
Fixpoint run_ops (os : list mb_op) (m : memblock) : res memblock :=
  match os with
  | [] => Ok m
  | o :: os => '(_, m') <-- run_op o m; run_ops os m'
  end.

Definition mb_inv (m : memblock) : Prop :=
  wf m /\ minimal (regions (memory m)) /\ minimal (regions (reserved m))
  /\ memblock_can_resize m = false.

(** What a call may do: succeed with a new array, or fail and change nothing. *)
Definition call_ok (m : memblock) (r : res (Z * memblock)) : Prop :=
  exists ret m', r = Ok (ret, m') /\ mb_inv m' /\ (ret = 0 \/ (ret = - ENOMEM /\ m' = m)).

Lemma call_refines w f m t' :
  mb_inv m -> refines (get_type w m) t' f -> call_ok m (Ok (0, set_type w t' m)).
Proof.
  intros (Hwf&Mm&Mr&Hc) (Ht&_&_&_&Hmin). exists 0, (set_type w t' m). split; [done|].
  split; [|by left]. split; [by apply wf_set|]. destruct w; simpl in *; auto.
Qed.

Lemma call_enomem m : mb_inv m -> call_ok m (Ok (- ENOMEM, m)).
Proof. intros H. exists (- ENOMEM), m. auto. Qed.

Lemma room_dec w nr m : room w nr m \/ ~ room w nr m.
Proof. unfold room. lia. Qed.

Lemma call_add w base size nid flags m :
  mb_inv m -> phys_range base size -> call_ok m (memblock_add_range w base size nid flags m).
Proof.
  intros Hi Hr. pose proof Hi as (Hwf&_&_&Hc).
  assert (D : dummy (regions (get_type w m)) \/ ~ dummy (regions (get_type w m))).
  { destruct (wf_head _ (wf_get w m Hwf)) as (r0&_&Hd).
    destruct (Z.eq_dec (r_size r0) 0); [left|right]; tauto. }
  destruct D as [D|D].
  { destruct (add_range_refines (memblock_double_array double_fuel) w base size nid flags m)
      as (t'&E&Ht&_); auto with kernel. unfold memblock_add_range. rewrite E. by eapply call_refines. }
  destruct (room_dec w (nr_needed (regions (get_type w m)) base (range_end base size) nid flags) m).
  - destruct (add_range_refines (memblock_double_array double_fuel) w base size nid flags m)
      as (t'&E&Ht&_); auto with kernel. unfold memblock_add_range. rewrite E. by eapply call_refines.
  - rewrite add_range_enomem; auto with kernel. by apply call_enomem.
Qed.

(** The operations that isolate a range fail before they change anything. *)
Lemma call_isolate w base size m (k : memblock -> res (Z * memblock)) :
  mb_inv m -> phys_range base size ->
  (room w 2 m \/ range_end base size - base = 0 -> call_ok m (k m)) ->
  (memblock_isolate_range w base size m = Ok (- ENOMEM, m, 0%nat, 0%nat) -> k m = Ok (- ENOMEM, m)) ->
  call_ok m (k m).
Proof.
  intros Hi Hr Hk He. destruct (room_dec w 2 m); [auto|].
  destruct (cap_size_eq base size Hr) as (_&_&?).
  destruct (Z.eq_dec (range_end base size - base) 0); [auto|].
  rewrite He; [by apply call_enomem|]. apply isolate_enomem; auto; [apply Hi|lia].
Qed.

Lemma call_remove w base size m :
  mb_inv m -> phys_range base size -> call_ok m (memblock_remove_range w base size m).
Proof.
  intros Hi Hr. pose proof Hi as (Hwf&_&_&Hc).
  apply (call_isolate w base size m (memblock_remove_range w base size)); auto.
  - intros [H|H].
    + destruct (remove_range_refines (memblock_double_array double_fuel) w base size m)
        as (t'&E&Ht); auto with kernel. unfold memblock_remove_range. rewrite E. by eapply call_refines.
    + unfold memblock_remove_range, remove_range_with. rewrite isolate_empty by done. simpl.
      rewrite set_get_type. exists 0, m. auto.
  - intros E. unfold memblock_remove_range, remove_range_with.
    unfold memblock_isolate_range in E. rewrite E. done.
Qed.

Lemma call_update w f base size m :
  (forall r, r_base (f r) = r_base r) -> (forall r, r_size (f r) = r_size r) ->
  (exists g, forall r, (r_flags (f r), r_nid (f r)) = g (r_flags r, r_nid r)) ->
  mb_inv m -> phys_range base size -> call_ok m (update_range w f base size m).
Proof.
  intros Hb Hs [g Hg] Hi Hr. pose proof Hi as (Hwf&Mm&Mr&Hc).
  apply (call_isolate w base size m (update_range w f base size)); auto.
  - intros [H|H].
    + destruct (update_range_refines w f g base size m) as (t'&E&Ht); auto with kernel.
      rewrite E. by eapply call_refines.
    + unfold update_range, memblock_isolate_range. rewrite isolate_empty by done. cbn -[memblock_merge_regions].
      rewrite set_regions_id. pose proof (wf_get w m Hwf) as Ht. set (t := get_type w m) in *.
      assert (Em : memblock_merge_regions t = Ok t).
      { destruct Ht as ([(fl&n&Ed)|[Hne Hw]]&?&?) eqn:Ewf.
        - unfold memblock_merge_regions, cnt. rewrite Ed. simpl. by rewrite <- Ed, set_regions_id.
        - rewrite merge_regions_ok by done. replace (merge_list (regions t)) with (regions t).
          { by rewrite set_regions_id. }
          apply (canonical 0); auto using merge_list_wf, merge_list_minimal; [by destruct w|].
          intros x. by rewrite (merge_list_attr 0). }
      rewrite Em. cbn [res_bind]. unfold t. rewrite set_get_type. exists 0, m. auto.
  - intros E. unfold update_range. by rewrite E.
Qed.

Lemma run_op_safe o m : mb_inv m -> op_args o -> call_ok m (run_op o m).
Proof.
  intros Hi Ha. destruct o; simpl in *.
  - by apply call_add.
  - by apply call_remove.
  - by apply call_add.
  - by apply call_remove.
  - apply call_update; auto.
    exists (fun v => (if set then Z.lor v.1 flag else Z.land v.1 (Z.lnot flag), v.2)). done.
  - apply call_update; auto. by exists (fun v => (v.1, nid)).
Qed.

Lemma mb_inv_init : mb_inv memblock_init.
Proof.
  assert (H : wf_type (memory memblock_init)).
  { split; [left; by exists 0, 0|]. by split. }
  split; [exact (conj H H)|]. exact (conj I (conj I eq_refl)).
Qed.

(** C3: from the statically initialised state, every sequence of the range
    operations (add, remove, reserve, free, flag and node updates) with
    [phys_addr_t] arguments runs to its end without a failing [BUG_ON], an
    access outside an array or an unfinished loop, and leaves both arrays well
    formed and minimal. *)
Theorem memblock_run_safe os :
  Forall op_args os -> exists m, run_ops os memblock_init = Ok m /\ mb_inv m.
Proof.
  assert (K : forall m, mb_inv m -> Forall op_args os -> exists m', run_ops os m = Ok m' /\ mb_inv m').
  { induction os as [|o os IH]; intros m Hi Ha; simpl; [eauto|].
    apply Forall_cons in Ha as [Ho Ha]. destruct (run_op_safe o m Hi Ho) as (ret&m'&->&Hi'&_).
    simpl. by apply IH. }
  apply K, mb_inv_init.
Qed.

(** ** Composition and uniqueness of refinements *)

Abbreviation attrs_eq := (pointwise_relation Z (@eq (option (Z * Z)))).

#[export] Instance add_attrs_proper base size nid flags :
  Proper (attrs_eq ==> attrs_eq) (add_attrs base size nid flags).
Proof. intros a a' E x. unfold add_attrs. by rewrite (E x). Qed.

#[export] Instance remove_attrs_proper base size : Proper (attrs_eq ==> attrs_eq) (remove_attrs base size).
Proof. intros a a' E x. unfold remove_attrs. by rewrite (E x). Qed.

#[export] Instance map_attrs_proper g base size : Proper (attrs_eq ==> attrs_eq) (map_attrs g base size).
Proof. intros a a' E x. unfold map_attrs. by rewrite (E x). Qed.

Lemma refines_trans t t1 t2 f g :
  Proper (attrs_eq ==> attrs_eq) g ->
  refines t t1 f -> refines t1 t2 g -> refines t t2 (fun a => g (f a)).
Proof.
  intros Hg (W1&M1&A1&E1&N1) (W2&M2&A2&E2&N2). split; [done|]. split; [congruence|].
  split; [congruence|]. split; [|auto]. intros x. rewrite E2. by apply Hg.
Qed.

(** Results on a minimal array are determined by the attributes they promise. *)
Lemma refines_unique t t1 t2 f g :
  minimal (regions t) -> refines t t1 f -> refines t t2 g ->
  attrs_eq (f (attr_at (regions t))) (g (attr_at (regions t))) ->
  (exists x, f (attr_at (regions t)) x <> None) -> t1 = t2.
Proof.
  intros Hm (W1&M1&A1&E1&N1) (W2&M2&A2&E2&N2) Efg [x0 Hx].
  assert (Ea : forall x, attr_at (regions t1) x = attr_at (regions t2) x).
  { intros x. rewrite E1, E2. apply Efg. }
  assert (ND : ~ dummy (regions t1) /\ ~ dummy (regions t2)).
  { split; intros Hd; apply Hx; [rewrite <- E1|rewrite <- E1, Ea]; by apply attr_at_dummy. }
  destruct W1 as ([?|[_ H1]]&T1&_); [tauto|]. destruct W2 as ([?|[_ H2]]&T2&_); [tauto|].
  assert (Er : regions t1 = regions t2) by (apply (canonical 0); auto).
  destruct t1, t2; simpl in *. congruence.
Qed.

Lemma fill_length_upper n fl b e rs : (length (fill n fl b e rs) <= 2 * length rs + 1)%nat.
Proof.
  revert b. induction rs as [|r rs IH]; intros b; simpl; [zcase; simpl; lia|].
  pose proof (IH b). pose proof (IH (Z.min (r_base r + r_size r) e)).
  zcase; simpl; lia.
Qed.

(** Adding when the array is less than half full always finds room. *)
Lemma add_range_roomy w base size nid flags m :
  wf m -> phys_range base size -> Z.of_nat (2 * cnt (get_type w m) + 1) <= max (get_type w m) ->
  exists t', memblock_add_range w base size nid flags m = Ok (0, set_type w t' m)
    /\ refines (get_type w m) t' (add_attrs base size nid flags)
    /\ (cnt t' <= 2 * cnt (get_type w m) + 1)%nat.
Proof.
  intros Hwf Hr Hroom.
  pose proof (fill_length_upper nid flags base (range_end base size) (regions (get_type w m))) as Hup.
  destruct (add_range_refines (memblock_double_array double_fuel) w base size nid flags m)
    as (t'&E&R&Hc); auto with kernel.
  { right. unfold room, nr_needed, cnt in *. lia. }
  exists t'. split; [done|]. split; [done|]. unfold cnt in *. lia.
Qed.

Lemma set_type_max w t m : max (get_type w (set_type w t m)) = max t.
Proof. by destruct w. Qed.

Lemma in_range_spec base size x : in_range base size x = true <-> base <= x < range_end base size.
Proof. unfold in_range. rewrite andb_true_iff, Z.leb_le, Z.ltb_lt. lia. Qed.

(** Two adds in a row, in an array less than a quarter full. *)
Lemma add_range_twice w b1 s1 n1 f1 b2 s2 n2 f2 m :
  wf m -> phys_range b1 s1 -> phys_range b2 s2 ->
  Z.of_nat (4 * cnt (get_type w m) + 3) <= max (get_type w m) ->
  exists t', ('(_, m1) <-- memblock_add_range w b1 s1 n1 f1 m; memblock_add_range w b2 s2 n2 f2 m1)
             = Ok (0, set_type w t' m)
    /\ refines (get_type w m) t' (fun a => add_attrs b2 s2 n2 f2 (add_attrs b1 s1 n1 f1 a)).
Proof.
  intros Hwf H1 H2 Hroom.
  destruct (add_range_roomy w b1 s1 n1 f1 m) as (t1&->&R1&C1); auto; [lia|]. cbn [res_bind].
  pose proof R1 as (W1&M1&_).
  destruct (add_range_roomy w b2 s2 n2 f2 (set_type w t1 m)) as (t2&->&R2&_);
    rewrite ?get_set_type in *; auto with kernel; [lia|].
  rewrite set_set_type. exists t2. split; [done|]. eapply refines_trans; eauto. apply _.
Qed.

(** the order in which two ranges with the same attributes are added does
    not matter: on a minimal array with enough room both orders succeed and
    leave the same state, region by region. *)
Theorem memblock_add_range_commute w b1 s1 b2 s2 nid flags m :
  wf m -> minimal (regions (get_type w m)) ->
  phys_range b1 s1 -> phys_range b2 s2 -> b1 < range_end b1 s1 ->
  Z.of_nat (4 * cnt (get_type w m) + 3) <= max (get_type w m) ->
  exists t',
    ('(_, m1) <-- memblock_add_range w b1 s1 nid flags m; memblock_add_range w b2 s2 nid flags m1)
      = Ok (0, set_type w t' m)
    /\ ('(_, m2) <-- memblock_add_range w b2 s2 nid flags m; memblock_add_range w b1 s1 nid flags m2)
      = Ok (0, set_type w t' m).
Proof.
  intros Hwf Hmin H1 H2 Hne Hroom.
  destruct (add_range_twice w b1 s1 nid flags b2 s2 nid flags m) as (t1&->&R1); auto.
  destruct (add_range_twice w b2 s2 nid flags b1 s1 nid flags m) as (t2&->&R2); auto.
  exists t1. split; [done|]. repeat f_equal. symmetry. eapply refines_unique; eauto.
  - intros x. unfold add_attrs. destruct (attr_at _ x), (in_range b1 s1 x), (in_range b2 s2 x); done.
  - exists b1. unfold add_attrs.
    assert (E : in_range b1 s1 b1 = true) by (apply in_range_spec; lia).
    destruct (attr_at _ b1); rewrite ?E; [done|]. by destruct (in_range b2 s2 b1).
Qed.

(** Removing what was added to free addresses gives the array back. *)
Lemma add_remove_id base size nid flags t t1 t2 :
  wf_type t -> minimal (regions t) -> (exists x, attr_at (regions t) x <> None) ->
  (forall x, in_range base size x = true -> attr_at (regions t) x = None) ->
  refines t t1 (add_attrs base size nid flags) -> refines t1 t2 (remove_attrs base size) -> t2 = t.
Proof.
  intros Hwf Hmin Hx Hfree R1 R2.
  eapply (refines_unique t t2 t _ (fun a => a)); eauto.
  - eapply (refines_trans _ _ _ (add_attrs base size nid flags)); eauto. apply _.
  - by apply refines_id.
  - intros x. unfold remove_attrs, add_attrs. destruct (in_range base size x) eqn:E; [by rewrite Hfree|].
    by destruct (attr_at _ x).
  - destruct Hx as [x Hx]. exists x. unfold remove_attrs, add_attrs.
    destruct (in_range base size x) eqn:E; [by rewrite Hfree in Hx|]. by destruct (attr_at _ x).
Qed.

(** adding a range that is free and removing it again restores the state
    exactly (a minimal array that is not the empty one, with room). *)
Theorem memblock_add_remove_roundtrip w base size nid flags m :
  wf m -> minimal (regions (get_type w m)) -> phys_range base size ->
  Z.of_nat (2 * cnt (get_type w m) + 3) <= max (get_type w m) ->
  (exists x, attr_at (regions (get_type w m)) x <> None) ->
  (forall x, in_range base size x = true -> attr_at (regions (get_type w m)) x = None) ->
  ('(_, m1) <-- memblock_add_range w base size nid flags m; memblock_remove_range w base size m1)
    = Ok (0, m).
Proof.
  intros Hwf Hmin Hr Hroom Hx Hfree.
  destruct (add_range_roomy w base size nid flags m) as (t1&->&R1&C1); auto; [lia|]. cbn [res_bind].
  pose proof R1 as (W1&M1&_).
  destruct (remove_range_refines (memblock_double_array double_fuel) w base size (set_type w t1 m))
    as (t2&E2&R2); unfold room; rewrite ?get_set_type in *; auto with kernel; [lia|].
  unfold memblock_remove_range. rewrite E2, set_set_type.
  replace t2 with (get_type w m); [by rewrite set_get_type|]. symmetry.
  apply (add_remove_id base size nid flags (get_type w m) t1); auto with kernel.
Qed.

(** without resizing, adding a range that needs more regions than the array
    has room for returns [-ENOMEM] and changes nothing. *)
Theorem memblock_add_range_enomem w base size nid flags m :
  wf m -> phys_range base size -> memblock_can_resize m = false ->
  ~ dummy (regions (get_type w m)) ->
  ~ room w (nr_needed (regions (get_type w m)) base (range_end base size) nid flags) m ->
  memblock_add_range w base size nid flags m = Ok (- ENOMEM, m).
Proof. intros. apply add_range_enomem; auto with kernel. Qed.

(** ** Instances on a concrete machine: 1 MiB of memory on node 0 with two
    pages reserved *)

Definition boot : memblock :=
  MkMemblock false MEMBLOCK_ALLOC_ANYWHERE
    (MkType [MkRegion 0 1048576 0 0] INIT_MEMBLOCK_REGIONS 1048576 InitRegions)
    (MkType [MkRegion 4096 8192 0 MAX_NUMNODES] INIT_MEMBLOCK_REGIONS 8192 InitRegions)
    false false false false.

(** The same machine with a full reserved array. *)
Definition boot_full : memblock :=
  set_type Reserved (MkType [MkRegion 4096 8192 0 MAX_NUMNODES] 1 8192 InitRegions) boot.

Lemma wf_one b s fl n mx loc : 0 <= b -> 0 < s -> b + s <= PHYS_ADDR_MAX -> 1 <= mx ->
  wf_type (MkType [MkRegion b s fl n] mx s loc).
Proof. intros. split; [right; split; [done|simpl; auto]|]. split; unfold cnt; simpl; lia. Qed.

Lemma boot_wf : wf boot.
Proof. split; apply wf_one; unfold PHYS_ADDR_MAX, INIT_MEMBLOCK_REGIONS; lia. Qed.

Lemma boot_full_wf : wf boot_full.
Proof. apply wf_set; [apply boot_wf|]. apply wf_one; unfold PHYS_ADDR_MAX; lia. Qed.

Lemma boot_phys b s : (0 <=? b) && (b <=? PHYS_ADDR_MAX) && (0 <=? s) && (s <=? PHYS_ADDR_MAX) = true -> phys_range b s.
Proof. intros H. zbool. done. Qed.

Lemma memblock_add_range_correct_witness :
  exists t', memblock_add_range Memory 1048576 4096 1 0 boot = Ok (0, set_type Memory t' boot)
    /\ refines (memory boot) t' (add_attrs 1048576 4096 1 0).
Proof. apply (memblock_add_range_correct Memory); [apply boot_wf|by apply boot_phys|by vm_compute]. Defined.

Lemma memblock_remove_range_correct_witness :
  exists t', memblock_remove_range Memory 4096 4096 boot = Ok (0, set_type Memory t' boot)
    /\ refines (memory boot) t' (remove_attrs 4096 4096).
Proof. apply (memblock_remove_range_correct Memory); [apply boot_wf|by apply boot_phys|by vm_compute]. Defined.

Lemma memblock_setclr_flag_correct_witness :
  exists t', memblock_setclr_flag 4096 4096 true MEMBLOCK_NOMAP boot = Ok (0, set_type Memory t' boot)
    /\ refines (memory boot) t' (map_attrs (fun v => (Z.lor v.1 MEMBLOCK_NOMAP, v.2)) 4096 4096).
Proof.
  apply (memblock_setclr_flag_correct 4096 4096 true MEMBLOCK_NOMAP boot);
    [apply boot_wf|by apply boot_phys|by vm_compute].
Defined.

Lemma memblock_set_node_correct_witness :
  exists t', memblock_set_node 4096 4096 Memory 2 boot = Ok (0, set_type Memory t' boot)
    /\ refines (memory boot) t' (map_attrs (fun v => (v.1, 2)) 4096 4096).
Proof. apply (memblock_set_node_correct 4096 4096 Memory); [apply boot_wf|by apply boot_phys|by vm_compute]. Defined.

Lemma memblock_run_safe_witness :
  exists m, run_ops [OpAdd 0 1048576 0; OpReserve 4096 8192; OpSetClr 0 8192 true MEMBLOCK_HOTPLUG;
                     OpFree 8192 4096; OpRemove 65536 4294967295] memblock_init = Ok m /\ mb_inv m.
Proof. apply memblock_run_safe. repeat (constructor; [by apply boot_phys|]). constructor. Defined.

Lemma memblock_add_range_commute_witness :
  exists t',
    ('(_, m1) <-- memblock_add_range Memory 1048576 4096 0 0 boot; memblock_add_range Memory 2097152 4096 0 0 m1)
      = Ok (0, set_type Memory t' boot)
    /\ ('(_, m2) <-- memblock_add_range Memory 2097152 4096 0 0 boot; memblock_add_range Memory 1048576 4096 0 0 m2)
      = Ok (0, set_type Memory t' boot).
Proof.
  apply (memblock_add_range_commute Memory); [apply boot_wf|done|by apply boot_phys|by apply boot_phys|done|by vm_compute].
Defined.

Lemma memblock_add_remove_roundtrip_witness :
  ('(_, m1) <-- memblock_add_range Reserved 65536 4096 MAX_NUMNODES 0 boot; memblock_remove_range Reserved 65536 4096 m1)
    = Ok (0, boot).
Proof.
  apply (memblock_add_remove_roundtrip Reserved); [apply boot_wf|done|by apply boot_phys|by vm_compute|by exists 4096|].
  intros x Hx. apply in_range_spec in Hx. change (range_end 65536 4096) with 69632 in Hx. simpl.
  unfold rgn_has. simpl. zcase; done.
Defined.

Lemma memblock_add_range_enomem_witness :
  memblock_add_range Reserved 65536 4096 MAX_NUMNODES 0 boot_full = Ok (- ENOMEM, boot_full).
Proof.
  apply memblock_add_range_enomem;
    [apply boot_full_wf|by apply boot_phys|done|by intros (?&?&?)|by intros H; vm_compute in H].
Defined.
