(* ===== verification/MemblockAlloc.v ===== *)
(** * memblock: allocation (mm/memblock.c, include/linux/memblock.h)

    The search for a free block and the allocation entry points.  The search
    returns the highest aligned block of a single memory region that is free of
    reservations and lies between the limits, or 0 when there is none; an
    allocation reserves exactly the block it returns. *)

From S2P Require Import Prelude MemblockTypes MemblockRegions MemblockIter MemblockRange MemblockSpec.
Local Open Scope res_scope.

Definition SMP_CACHE_BYTES : Z := 32.

(** [found && !memblock_reserve(found, size)] *)
Definition try_reserve (found size : Z) (m : memblock) : res (bool * memblock) :=
  if found =? 0 then Ok (false, m)
  else
    '(ret, m1) <-- memblock_reserve found size m;
    Ok (ret =? 0, m1).

(** One pass of [again:]: the requested node, then any node. *)
Definition alloc_pass (size align start end_ nid flags : Z) (m : memblock) : res (Z * memblock) :=
  found <-- memblock_find_in_range_node size align start end_ nid flags m;
  '(done, m) <-- try_reserve found size m;
  if (done : bool) then Ok (found, m)
  else if negb (nid =? NUMA_NO_NODE) then
    found <-- memblock_find_in_range_node size align start end_ NUMA_NO_NODE flags m;
    '(done, m) <-- try_reserve found size m;
    if (done : bool) then Ok (found, m) else Ok (0, m)
  else Ok (0, m).

(** [goto again] runs at most once: the second pass has no mirror flag. *)
Definition memblock_alloc_range_nid (size align start end_ nid : Z) (m : memblock) : res (Z * memblock) :=
  let flags := choose_memblock_flags m in
  let nid := if nid =? MAX_NUMNODES then NUMA_NO_NODE else nid in
  let align := if align =? 0 then SMP_CACHE_BYTES else align in
  '(found, m) <-- alloc_pass size align start end_ nid flags m;
  if negb (found =? 0) then Ok (found, m)
  else if negb (Z.land flags MEMBLOCK_MIRROR =? 0) then
    alloc_pass size align start end_ nid (Z.land flags (Z.lnot MEMBLOCK_MIRROR)) m
  else Ok (0, m).

Definition memblock_phys_alloc_range (size align start end_ : Z) : memblock -> res (Z * memblock) :=
  memblock_alloc_range_nid size align start end_ NUMA_NO_NODE.

Definition memblock_phys_alloc_try_nid (size align nid : Z) : memblock -> res (Z * memblock) :=
  memblock_alloc_range_nid size align 0 MEMBLOCK_ALLOC_ACCESSIBLE nid.

Definition memblock_phys_alloc (size align : Z) : memblock -> res (Z * memblock) :=
  memblock_phys_alloc_range size align 0 MEMBLOCK_ALLOC_ACCESSIBLE.

(** Once the slab allocator is up the boot-time interface forwards to it:
    [slab] is [slab_is_available()] and [kzalloc_node] the allocator behind it,
    the C library's.  [phys_to_virt] is the identity. *)
Section virtual.
Context (slab : bool) (kzalloc_node : Z -> Z -> Z).

Definition memblock_alloc_internal (size align min_addr max_addr nid : Z) (m : memblock)
  : res (Z * memblock) :=
  if slab then Ok (kzalloc_node size nid, m)
  else
    let max_addr := if current_limit m <? max_addr then current_limit m else max_addr in
    '(alloc, m) <-- memblock_alloc_range_nid size align min_addr max_addr nid m;
    (* retry allocation without lower limit *)
    if (alloc =? 0) && negb (min_addr =? 0)
    then memblock_alloc_range_nid size align 0 max_addr nid m
    else Ok (alloc, m).

Definition memblock_alloc_try_nid_raw (size align min_addr max_addr nid : Z) :=
  memblock_alloc_internal size align min_addr max_addr nid.
(** Zeroing the block is commented out in this build. *)
Definition memblock_alloc_try_nid (size align min_addr max_addr nid : Z) :=
  memblock_alloc_internal size align min_addr max_addr nid.

Definition MEMBLOCK_LOW_LIMIT : Z := 0.
Definition ARCH_LOW_ADDRESS_LIMIT : Z := 4294967295.

Definition memblock_alloc (size align : Z) :=
  memblock_alloc_try_nid size align MEMBLOCK_LOW_LIMIT MEMBLOCK_ALLOC_ACCESSIBLE NUMA_NO_NODE.
Definition memblock_alloc_raw (size align : Z) :=
  memblock_alloc_try_nid_raw size align MEMBLOCK_LOW_LIMIT MEMBLOCK_ALLOC_ACCESSIBLE NUMA_NO_NODE.
Definition memblock_alloc_from (size align min_addr : Z) :=
  memblock_alloc_try_nid size align min_addr MEMBLOCK_ALLOC_ACCESSIBLE NUMA_NO_NODE.
Definition memblock_alloc_low (size align : Z) :=
  memblock_alloc_try_nid size align MEMBLOCK_LOW_LIMIT ARCH_LOW_ADDRESS_LIMIT NUMA_NO_NODE.
Definition memblock_alloc_node (size align nid : Z) :=
  memblock_alloc_try_nid size align MEMBLOCK_LOW_LIMIT MEMBLOCK_ALLOC_ACCESSIBLE nid.
End virtual.

Definition memblock_set_bottom_up (enable : bool) (m : memblock) : memblock :=
  MkMemblock enable (current_limit m) (memory m) (reserved m) (system_has_some_mirror m)
    (memblock_can_resize m) (memblock_memory_in_slab m) (memblock_reserved_in_slab m).
Definition memblock_bottom_up (m : memblock) : bool := bottom_up m.

(** ** What a search may return *)

(** The limits after the adjustments of [memblock_find_in_range_node]. *)
Definition eff_start (start : Z) : Z := Z.max start PAGE_SIZE.
Definition eff_end (m : memblock) (start end_ : Z) : Z :=
  Z.max (eff_start start)
    (if (end_ =? MEMBLOCK_ALLOC_ACCESSIBLE) || (end_ =? MEMBLOCK_ALLOC_KASAN) then current_limit m else end_).

(** [free_block]: the block lies in one memory region that the request accepts
    and no address of it is reserved. *)
Definition free_block (nid flags size : Z) (m : memblock) (a : Z) : Prop :=
  (exists r, r ∈ regions (memory m) /\ should_skip_region r nid flags = false
             /\ r_base r <= a /\ a + size <= r_base r + r_size r)
  /\ forall x, a <= x < a + size -> attr_at (regions (reserved m)) x = None.

Definition candidate (nid flags size align lo hi : Z) (m : memblock) (a : Z) : Prop :=
  (align | a) /\ lo <= a /\ a + size <= hi /\ free_block nid flags size m a.

(** The answer of a search: the highest candidate, or 0 and no candidate. *)
Definition best (P : Z -> Prop) (a : Z) : Prop :=
  (a = 0 /\ forall a', ~ P a') \/ (a <> 0 /\ P a /\ forall a', P a' -> a' <= a).

Definition pow2_align (align : Z) : Prop := exists k, 0 <= k <= 31 /\ align = 2 ^ k.

(** ** Rounding *)

Lemma u32_land x : u32 x = Z.land x (Z.ones 32).
Proof. by rewrite Z.land_ones by lia. Qed.

Lemma pow2_range k : 0 <= k <= 31 -> 1 <= 2 ^ k <= 2147483648.
Proof.
  intros H. split; [apply (Z.pow_le_mono_r 2 0); lia|].
  change 2147483648 with (2 ^ 31). apply Z.pow_le_mono_r; lia.
Qed.

Lemma pow2_mask k : 0 <= k <= 31 -> u32 (2 ^ k - 1) = Z.ones k.
Proof. intros H. pose proof (pow2_range k H). wrap. rewrite Z.ones_equiv. lia. Qed.

Lemma round_down_spec x k :
  0 <= x < 4294967296 -> 0 <= k <= 31 -> round_down x (2 ^ k) = 2 ^ k * (x / 2 ^ k).
Proof.
  intros Hx Hk. unfold round_down. rewrite pow2_mask by done. rewrite u32_land.
  rewrite (Z.land_comm (Z.lnot _)), Z.land_assoc, Z.land_ones by lia.
  rewrite Z.mod_small by (change (2 ^ 32) with 4294967296; lia).
  rewrite <- Z.ldiff_land, Z.ldiff_ones_r by lia.
  rewrite Z.shiftl_mul_pow2, Z.shiftr_div_pow2 by lia. lia.
Qed.

Lemma round_down_best x k :
  0 <= x < 4294967296 -> 0 <= k <= 31 ->
  (2 ^ k | round_down x (2 ^ k)) /\ 0 <= round_down x (2 ^ k) <= x
  /\ forall a, (2 ^ k | a) -> a <= x -> a <= round_down x (2 ^ k).
Proof.
  intros Hx Hk. rewrite round_down_spec by done. pose proof (pow2_range k Hk).
  split; [by exists (x / 2 ^ k); lia|]. split.
  - split; [apply Z.mul_nonneg_nonneg; [lia|apply Z.div_pos; lia]|apply Z.mul_div_le; lia].
  - intros a [q ->] Ha. rewrite (Z.mul_comm q) in *. apply Z.mul_le_mono_nonneg_l; [lia|].
    apply Z.div_le_lower_bound; lia.
Qed.

(** ** The top-down search *)

(** Delivered ranges in ascending order, and disjoint. *)
Fixpoint asc (lo : Z) (l : list (Z * Z * Z)) : Prop :=
  match l with
  | [] => True
  | (s, e, _) :: l => lo <= s /\ s <= e /\ asc e l
  end.

Lemma asc_weaken lo lo' l : lo' <= lo -> asc lo l -> asc lo' l.
Proof. destruct l as [|[[s e] n] l]; simpl; [done|]. intuition lia. Qed.

Lemma asc_app lo hi l1 l2 :
  asc lo l1 -> (forall s e n, (s, e, n) ∈ l1 -> e <= hi) -> lo <= hi -> asc hi l2 -> asc lo (l1 ++ l2).
Proof.
  revert lo. induction l1 as [|[[s e] n] l1 IH]; intros lo H1 Hb Hlo H2; simpl in *.
  - by apply (asc_weaken hi).
  - destruct H1 as (?&?&H1). split; [done|]. split; [done|]. apply IH; auto.
    + intros s' e' n' Hin. apply (Hb s' e' n'). by right.
    + apply (Hb s e n). by left.
Qed.

Lemma asc_elem lo l s e n : asc lo l -> (s, e, n) ∈ l -> lo <= s <= e.
Proof.
  revert lo. induction l as [|[[s' e'] n'] l IH]; intros lo H Hin; [by apply elem_of_nil in Hin|].
  destruct H as (?&?&H). apply elem_of_cons in Hin as [[= -> -> ->]|Hin]; [lia|].
  specialize (IH _ H Hin). lia.
Qed.

Lemma asc_snoc lo l s e n : asc lo (l ++ [(s, e, n)]) ->
  asc lo l /\ lo <= s <= e /\ forall s' e' n', (s', e', n') ∈ l -> e' <= s.
Proof.
  revert lo. induction l as [|[[s0 e0] n0] l IH]; intros lo H; simpl in *.
  - split; [done|]. split; [lia|]. intros ??? Hin. by apply elem_of_nil in Hin.
  - destruct H as (?&?&H). destruct (IH _ H) as (?&?&Hall). repeat split; auto; try lia.
    intros s' e' n' Hin. apply elem_of_cons in Hin as [[= -> -> ->]|Hin]; [lia|eauto].
Qed.

Lemma overlap_bounds m g s e n : (s, e, n) ∈ overlap m g ->
  Z.max (r_base m) g.1 = s /\ Z.min (r_base m + r_size m) g.2 = e.
Proof.
  unfold overlap. destruct (_ && _); intros Hin; [|by apply elem_of_nil in Hin].
  apply list_elem_of_singleton in Hin as [= -> -> ->]. lia.
Qed.

Lemma flat_overlap_asc lo bs m :
  ord_from lo bs -> lo <= PHYS_ADDR_MAX -> 0 <= r_size m -> asc (Z.max (r_base m) lo) (flat_map (overlap m) (gaps lo bs)).
Proof.
  revert lo. induction bs as [|b bs IH]; intros lo H Hlo Hs; simpl.
  - rewrite app_nil_r. unfold overlap. simpl. zcase; simpl; lia.
  - destruct H as (?&?&?&H). specialize (IH _ H ltac:(lia) Hs).
    apply (asc_app _ (Z.max (r_base m) (r_base b))); [| |lia|].
    + unfold overlap. simpl. zcase; simpl; lia.
    + intros s e n Hin. apply overlap_bounds in Hin as (?&?). simpl in *. lia.
    + eapply asc_weaken; [|done]. lia.
Qed.

Lemma inter_asc nid flags lo ms bs :
  ord_from lo ms -> ord_from 0 bs -> 0 <= lo -> asc lo (inter nid flags ms (gaps 0 bs)).
Proof.
  intros Hm Hb. revert lo Hm. induction ms as [|m ms IH]; intros lo Hm Hlo; simpl; [done|].
  destruct Hm as (?&?&?&Hm). apply (asc_app _ (r_base m + r_size m)); [| |lia|apply IH; [done|lia]].
  - unfold inter1. destruct (should_skip_region _ _ _); [done|].
    eapply asc_weaken; [|apply flat_overlap_asc; [done|apply zero_le_max|done]]. lia.
  - intros s e n Hin. unfold inter1 in Hin. destruct (should_skip_region _ _ _); [by apply elem_of_nil in Hin|].
    apply elem_of_flat_map in Hin as (g&_&Hin). apply overlap_bounds in Hin as (?&?). lia.
Qed.

(** A block inside one of the ranges of [l]. *)
Definition fits (l : list (Z * Z * Z)) (size align lo hi a : Z) : Prop :=
  (align | a) /\ lo <= a /\ a + size <= hi
  /\ exists s e n, (s, e, n) ∈ l /\ s <= a /\ a + size <= e.

Lemma fits_snoc l s e n size align lo hi a :
  fits (l ++ [(s, e, n)]) size align lo hi a
  <-> fits l size align lo hi a
      \/ ((align | a) /\ lo <= a /\ a + size <= hi /\ s <= a /\ a + size <= e).
Proof.
  unfold fits. split.
  - intros (?&?&?&s'&e'&n'&Hin&?&?). apply elem_of_app in Hin as [Hin|Hin].
    + left. eauto 10.
    + apply list_elem_of_singleton in Hin as [= -> -> ->]. right. auto.
  - intros [(?&?&?&s'&e'&n'&Hin&?&?)|(?&?&?&?&?)]; repeat split; auto.
    + exists s', e', n'. split; [apply elem_of_app; by left|done].
    + exists s, e, n. split; [apply elem_of_app; right; by apply list_elem_of_singleton|done].
Qed.

Lemma top_down_loop_best l size k lo hi :
  asc 0 l -> 0 < size -> 0 <= k <= 31 -> 0 < lo <= hi -> hi <= PHYS_ADDR_MAX ->
  best (fits l size (2 ^ k) lo hi) (top_down_loop (rev l) lo hi size (2 ^ k)).
Proof.
  intros Hl Hs Hk Hlo Hhi. unfold PHYS_ADDR_MAX in *.
  induction l as [|[[s e] n] l IH] using rev_ind; [|rewrite rev_app_distr]; simpl.
  { left. split; [done|]. intros a (_&_&_&?&?&?&Hin&_). by apply elem_of_nil in Hin. }
  apply asc_snoc in Hl as (Hl&Hse&Hall). specialize (IH Hl).
  set (ts := clamp s lo hi). set (te := clamp e lo hi).
  assert (Hno : forall a, ~ (ts <= a /\ a + size <= te) ->
            ~ ((2 ^ k | a) /\ lo <= a /\ a + size <= hi /\ s <= a /\ a + size <= e)).
  { intros a H H'. apply H. unfold ts, te, clamp. lia. }
  assert (Hskip : (forall a, (2 ^ k | a) -> ~ (ts <= a /\ a + size <= te)) ->
            best (fits (l ++ [(s, e, n)]) size (2 ^ k) lo hi) (top_down_loop (rev l) lo hi size (2 ^ k))).
  { intros H. destruct IH as [[-> IH]|(H0&IH&Hmax)].
    - left. split; [done|]. intros a Ha. apply fits_snoc in Ha as [Ha|Ha]; [by eapply IH|].
      eapply Hno; [|exact Ha]. apply H, Ha.
    - right. split; [done|]. split; [apply fits_snoc; by left|].
      intros a Ha. apply fits_snoc in Ha as [Ha|Ha]; [by apply Hmax|].
      exfalso. eapply Hno; [|exact Ha]. apply H, Ha. }
  assert (Hte : 0 <= te < 4294967296) by (unfold te, clamp; lia).
  destruct (Z.ltb_spec te size); [apply Hskip; intros a _; unfold ts, clamp; lia|].
  rewrite u32_small by lia.
  destruct (round_down_best (te - size) k ltac:(lia) Hk) as (Hdiv&Hr&Hbest).
  set (cand := round_down (te - size) (2 ^ k)) in *.
  destruct (Z.leb_spec ts cand) as [Hc|Hc].
  - right. split; [unfold ts, clamp in Hc; lia|]. split.
    + apply fits_snoc. right. unfold ts, te, clamp in *. repeat split; [done|lia..].
    + intros a Ha. apply fits_snoc in Ha as [(_&_&_&s'&e'&n'&Hin&?&?)|(Hd&?)].
      * apply Hall in Hin. unfold ts, te, clamp in *. lia.
      * apply Hbest; [done|]. unfold te, clamp. lia.
  - apply Hskip. intros a Hd [??]. specialize (Hbest a Hd). lia.
Qed.

(** A block without reserved addresses lies in one gap of the reserved array. *)
Lemma gaps_block lo bs a size :
  wf_from lo bs -> lo <= a -> 0 < size -> a + size <= PHYS_ADDR_MAX ->
  (forall x, a <= x < a + size -> attr_at bs x = None) ->
  exists g, g ∈ gaps lo bs /\ g.1 <= a /\ a + size <= g.2.
Proof.
  revert lo. induction bs as [|b bs IH]; intros lo H Hlo Hs Hmax Hfree; simpl.
  { exists (lo, PHYS_ADDR_MAX). split; [by left|]. simpl. lia. }
  destruct H as (?&?&?&H).
  assert (Hx : forall x, a <= x < a + size -> ~ (r_base b <= x < r_base b + r_size b)).
  { intros x Hx Hb. specialize (Hfree x Hx). simpl in Hfree. unfold rgn_has in Hfree.
    revert Hfree. zcase; done. }
  destruct (Z.lt_ge_cases a (r_base b)) as [Ha|Ha].
  - exists (lo, r_base b). split; [by left|]. simpl.
    destruct (Z.lt_ge_cases (r_base b) (a + size)); [|lia].
    exfalso. apply (Hx (r_base b)); lia.
  - assert (r_base b + r_size b <= a).
    { destruct (Z.lt_ge_cases a (r_base b + r_size b)); [|lia]. exfalso. apply (Hx a); lia. }
    destruct (IH _ H) as (g&Hg&?); auto.
    + intros x Hx'. specialize (Hfree x Hx'). simpl in Hfree. unfold rgn_has in Hfree.
      revert Hfree. zcase; done.
    + exists g. split; [by right|done].
Qed.

Lemma gaps_block_wf bs a size :
  wf_regions bs -> 0 <= a -> 0 < size -> a + size <= PHYS_ADDR_MAX ->
  (forall x, a <= x < a + size -> attr_at bs x = None) ->
  exists g, g ∈ gaps 0 bs /\ g.1 <= a /\ a + size <= g.2.
Proof.
  intros [(fl&n&->)|[_ H]] ????.
  - exists (0, PHYS_ADDR_MAX). split; [right; by left|]. simpl. lia.
  - by apply gaps_block.
Qed.

(** Both region arrays are small enough for the iterators' 32-bit indices. *)
Definition small (m : memblock) : Prop := max (memory m) < 2147483646 /\ max (reserved m) < 2147483646.

Lemma wf_iterable w m : wf m -> small m -> iterable (regions (get_type w m)).
Proof.
  intros Hwf [Hm Hr]. pose proof (wf_get w m Hwf) as (H&_&Hc). split; [done|].
  destruct w; unfold cnt in Hc; simpl in *; lia.
Qed.

Lemma fits_candidate nid flags size align lo hi m a :
  wf m -> 0 < size -> 0 <= lo -> hi <= PHYS_ADDR_MAX ->
  fits (inter nid flags (regions (memory m)) (gaps 0 (regions (reserved m)))) size align lo hi a
  <-> candidate nid flags size align lo hi m a.
Proof.
  intros [[Wm _] [Wr _]] Hs Hlo Hhi. pose proof (wf_regions_ord _ Wr) as Or.
  pose proof zero_le_max. unfold fits, candidate. split.
  - intros (?&?&?&s&e&n&Hin&?&?). repeat split; auto.
    + apply elem_of_flat_map in Hin as (r&Hr&Hin). unfold inter1 in Hin.
      destruct (should_skip_region r nid flags) eqn:Esk; [by apply elem_of_nil in Hin|].
      apply elem_of_flat_map in Hin as (g&_&Hin). apply overlap_bounds in Hin as [??].
      exists r. repeat split; auto; lia.
    + intros x Hx. apply elem_of_flat_map in Hin as (r&Hr&Hin). unfold inter1 in Hin.
      destruct (should_skip_region r nid flags); [by apply elem_of_nil in Hin|].
      apply elem_of_flat_map in Hin as (g&Hg&Hin). apply overlap_bounds in Hin as [??].
      apply (gaps_cover 0); [done|lia|]. exists g. split; [done|lia].
  - intros (?&?&?&(r&Hr&Esk&?&?)&Hfree). repeat split; auto.
    destruct (gaps_block_wf _ a size Wr) as (g&Hg&?&?); auto; [lia|lia|].
    exists (Z.max (r_base r) g.1), (Z.min (r_base r + r_size r) g.2), (r_nid r).
    split; [|lia]. apply elem_of_flat_map. exists r. split; [done|]. unfold inter1. rewrite Esk.
    apply elem_of_flat_map. exists g. split; [done|]. unfold overlap. zcase; simpl; try lia.
    by apply list_elem_of_singleton.
Qed.

Lemma best_iff P Q a : (forall x, P x <-> Q x) -> best P a -> best Q a.
Proof.
  intros H [[-> HP]|(?&HP&Hmax)]; [left|right].
  - split; [done|]. intros a' Ha'. eapply HP, H, Ha'.
  - split; [done|]. split; [by apply H|]. intros a' Ha'. apply Hmax, H, Ha'.
Qed.

(** A request with a power-of-two alignment and limits in range. *)
Definition request (size align start end_ : Z) (m : memblock) : Prop :=
  0 < size /\ pow2_align align /\ 0 <= start <= PHYS_ADDR_MAX /\ 0 <= end_ <= PHYS_ADDR_MAX
  /\ 0 <= current_limit m <= PHYS_ADDR_MAX.

Lemma find_in_range_node_best size align start end_ nid flags m :
  wf m -> small m -> request size align start end_ m ->
  exists a, memblock_find_in_range_node size align start end_ nid flags m = Ok a
    /\ best (candidate (fix_nid nid) flags size align (eff_start start) (eff_end m start end_) m) a.
Proof.
  intros Hwf Hsm (Hs&(k&Hk&->)&Hst&Hen&Hlim). unfold memblock_find_in_range_node.
  fold (eff_start start). fold (eff_end m start end_).
  assert (Hlo : 0 < eff_start start) by (unfold eff_start, PAGE_SIZE; lia).
  assert (Hhi : eff_start start <= eff_end m start end_ <= PHYS_ADDR_MAX).
  { unfold eff_end, eff_start, PAGE_SIZE, PHYS_ADDR_MAX in *. destruct (_ || _); lia. }
  rewrite Z.ltb_irrefl, andb_false_r. unfold __memblock_find_range_top_down.
  pose proof (wf_iterable Memory m Hwf Hsm) as Im. pose proof (wf_iterable Reserved m Hwf Hsm) as Ir.
  simpl in Im, Ir. rewrite for_each_mem_range_rev_inter by done. cbn [res_bind].
  eexists. split; [done|].
  eapply best_iff; [intros x; apply fits_candidate; [done..|lia|lia]|].
  apply top_down_loop_best; auto; try lia.
  apply inter_asc; [apply wf_regions_ord, Im|apply wf_regions_ord, Ir|done].
Qed.

(** Reserving a free block needs exactly one more region. *)
Lemma fill_free nid fl lo b e rs :
  wf_from lo rs -> b < e -> (forall x, b <= x < e -> attr_at rs x = None) ->
  length (fill nid fl b e rs) = S (length rs).
Proof.
  revert lo. induction rs as [|r rs IH]; intros lo H Hbe Hfree; simpl; [zcase; done|].
  destruct H as (?&?&?&H).
  assert (Hx : forall x, b <= x < e -> ~ (r_base r <= x < r_base r + r_size r) /\ attr_at rs x = None).
  { intros x Hx. specialize (Hfree x Hx). simpl in Hfree. unfold rgn_has in Hfree. revert Hfree.
    zcase; simpl; intros; split; done || lia. }
  assert (e <= r_base r \/ r_base r + r_size r <= b) as Hsep.
  { destruct (Z.lt_ge_cases (r_base r) e), (Z.lt_ge_cases b (r_base r + r_size r)); try lia.
    exfalso. apply (Hx (Z.max b (r_base r))); lia. }
  zcase; simpl; try done. f_equal. apply (IH _ H Hbe). intros x ?. by apply Hx.
Qed.

(** A free block can be reserved: one more region fits, or the array is the empty one. *)
Definition roomy (m : memblock) : Prop := room Reserved 1 m \/ dummy (regions (reserved m)).

Lemma reserve_free a size m :
  wf m -> 0 <= a -> 0 < size -> a + size <= PHYS_ADDR_MAX ->
  (forall x, a <= x < a + size -> attr_at (regions (reserved m)) x = None) ->
  roomy m ->
  exists t', memblock_reserve a size m = Ok (0, set_type Reserved t' m)
    /\ refines (reserved m) t' (add_attrs a size MAX_NUMNODES 0).
Proof.
  intros Hwf Ha Hs Hm Hfree Hroom.
  assert (Hr : phys_range a size) by (unfold phys_range; lia).
  assert (He : range_end a size = a + size) by (unfold range_end; lia).
  destruct (add_range_refines (memblock_double_array double_fuel) Reserved a size MAX_NUMNODES 0 m)
    as (t'&E&R&_); auto with kernel; [|eauto].
  destruct (wf_get Reserved m Hwf) as ([Hd|[_ Hw]]&_&_); [by left|].
  destruct Hroom as [Hroom|Hd]; [right|by left].
  unfold room, nr_needed in *. rewrite He.
  rewrite (fill_free _ _ 0 a (a + size)) by (auto; lia). unfold cnt in *. lia.
Qed.


(** ** Allocation *)

(** The best candidate of the first choice that has one. *)
Fixpoint first_best (Ps : list (Z -> Prop)) (a : Z) : Prop :=
  match Ps with
  | [] => a = 0
  | P :: Ps => (a <> 0 /\ best P a) \/ ((forall a', ~ P a') /\ first_best Ps a)
  end.

(** The node and flag choices of an allocation, in the order they are tried. *)
Definition node_choices (nid : Z) : list Z :=
  if nid =? NUMA_NO_NODE then [NUMA_NO_NODE] else [nid; NUMA_NO_NODE].
Definition flag_choices (m : memblock) : list Z :=
  if system_has_some_mirror m then [MEMBLOCK_MIRROR; MEMBLOCK_NONE] else [MEMBLOCK_NONE].
Definition alloc_choices (size align start end_ nid : Z) (m : memblock) : list (Z -> Prop) :=
  flat_map (fun fl => map (fun n => candidate n fl size align (eff_start start) (eff_end m start end_) m)
                          (node_choices (fix_nid nid))) (flag_choices m).

(** What an allocation does to the state: a failure changes nothing, a success
    reserves exactly the block. *)
Definition alloc_state (a size : Z) (m m' : memblock) : Prop :=
  (a = 0 /\ m' = m)
  \/ (a <> 0 /\ exists t', m' = set_type Reserved t' m
                 /\ refines (reserved m) t' (add_attrs a size MAX_NUMNODES 0)).

Lemma first_best_app Ps Qs a :
  first_best (Ps ++ Qs) a <-> (a <> 0 /\ first_best Ps a) \/ (first_best Ps 0 /\ first_best Qs a).
Proof.
  induction Ps as [|P Ps IH]; simpl; [tauto|]. rewrite IH.
  destruct (Z.eq_dec a 0) as [->|H]; tauto.
Qed.

Lemma best_0 P : best P 0 -> forall a, ~ P a.
Proof. intros [[_ H]|[H _]]; [done|]. done. Qed.

Lemma try_reserve_ok nid flags size align start end_ m a :
  wf m -> request size align start end_ m -> roomy m -> a <> 0 ->
  candidate nid flags size align (eff_start start) (eff_end m start end_) m a ->
  exists t', try_reserve a size m = Ok (true, set_type Reserved t' m)
    /\ refines (reserved m) t' (add_attrs a size MAX_NUMNODES 0).
Proof.
  intros Hwf (Hs&_&Hst&Hen&Hlim) Hroom Ha (_&Hlo&Hhi&_&Hfree). unfold try_reserve.
  destruct (Z.eqb_spec a 0); [done|].
  destruct (reserve_free a size m) as (t'&->&R); auto; [| |eauto].
  - unfold eff_start, PAGE_SIZE in Hlo. lia.
  - unfold eff_end, eff_start, PAGE_SIZE, PHYS_ADDR_MAX in *. destruct (_ || _); lia.
Qed.



(** One search with its reservation. *)
Lemma find_reserve nid flags size align start end_ m :
  wf m -> small m -> request size align start end_ m -> roomy m -> fix_nid nid = nid ->
  exists a b m', memblock_find_in_range_node size align start end_ nid flags m = Ok a
    /\ try_reserve a size m = Ok (b, m') /\ b = negb (a =? 0)
    /\ best (candidate nid flags size align (eff_start start) (eff_end m start end_) m) a
    /\ alloc_state a size m m'.
Proof.
  intros Hwf Hsm Hr Hroom Hn.
  destruct (find_in_range_node_best size align start end_ nid flags m) as (a&E&Hb); auto.
  rewrite Hn in Hb. exists a. destruct Hb as [[-> Hno]|(Ha&Hc&Hmax)].
  - exists false, m. unfold alloc_state, best. simpl. auto 10.
  - destruct (try_reserve_ok nid flags size align start end_ m a) as (t'&Et&R); auto.
    exists true, (set_type Reserved t' m). repeat split; auto.
    + by destruct (Z.eqb_spec a 0).
    + right. auto.
    + right. split; [done|]. eauto.
Qed.

Lemma fix_nid_no_node nid : fix_nid (if nid =? MAX_NUMNODES then NUMA_NO_NODE else nid)
  = (if nid =? MAX_NUMNODES then NUMA_NO_NODE else nid).
Proof. apply fix_nid_idem. Qed.

Lemma alloc_pass_ok nid flags size align start end_ m :
  wf m -> small m -> request size align start end_ m -> roomy m -> fix_nid nid = nid ->
  exists a m', alloc_pass size align start end_ nid flags m = Ok (a, m')
    /\ first_best (map (fun n => candidate n flags size align (eff_start start) (eff_end m start end_) m)
                       (node_choices nid)) a
    /\ alloc_state a size m m'.
Proof.
  intros Hwf Hsm Hr Hroom Hn. unfold alloc_pass, node_choices.
  destruct (find_reserve nid flags size align start end_ m) as (a&b&m1&->&E&->&Hb&Hst); auto.
  cbn [res_bind]. rewrite E. cbn [res_bind].
  destruct (Z.eqb_spec a 0) as [->|Ha]; cbn [negb].
  - destruct Hst as [[_ ->]|[? _]]; [|done]. pose proof (best_0 _ Hb) as Hno.
    destruct (Z.eqb_spec nid NUMA_NO_NODE) as [->|Hnid]; cbn [negb map first_best].
    { exists 0, m. repeat split; auto. by left. }
    destruct (find_reserve NUMA_NO_NODE flags size align start end_ m) as (a&b&m2&->&E2&->&Hb2&Hst2); auto.
    cbn [res_bind]. rewrite E2. cbn [res_bind]. destruct (Z.eqb_spec a 0) as [->|Ha]; cbn [negb].
    + destruct Hst2 as [[_ ->]|[? _]]; [|done]. exists 0, m. pose proof (best_0 _ Hb2).
      repeat split; [right; split; [done|right; done]|by left].
    + exists a, m2. repeat split; auto.
  - exists a, m1. repeat split; auto. destruct (nid =? NUMA_NO_NODE) eqn:En; [apply Z.eqb_eq in En as ->|]; left; auto.
Qed.

Lemma alloc_range_nid_ok size align start end_ nid m :
  wf m -> small m -> request size align start end_ m -> roomy m ->
  exists a m', memblock_alloc_range_nid size align start end_ nid m = Ok (a, m')
    /\ first_best (alloc_choices size align start end_ nid m) a
    /\ alloc_state a size m m'.
Proof.
  intros Hwf Hsm Hr Hroom. unfold memblock_alloc_range_nid, alloc_choices, choose_memblock_flags, flag_choices.
  fold (fix_nid nid). pose proof (fix_nid_idem nid) as Hn.
  assert (Ea : (if align =? 0 then SMP_CACHE_BYTES else align) = align).
  { destruct Hr as (_&(k&Hk&->)&_). pose proof (pow2_range k Hk). zcase; done. }
  rewrite Ea.
  destruct (alloc_pass_ok (fix_nid nid) (if system_has_some_mirror m then MEMBLOCK_MIRROR else MEMBLOCK_NONE)
              size align start end_ m) as (a&m1&->&Hb&Hst); auto.
  cbn [res_bind]. destruct (system_has_some_mirror m); cbn [flat_map]; rewrite app_nil_r.
  - destruct (Z.eqb_spec a 0) as [->|Ha]; cbn [negb].
    + destruct Hst as [[_ ->]|[? _]]; [|done]. change (negb (Z.land MEMBLOCK_MIRROR MEMBLOCK_MIRROR =? 0)) with true.
      cbv iota. change (Z.land MEMBLOCK_MIRROR (Z.lnot MEMBLOCK_MIRROR)) with MEMBLOCK_NONE.
      destruct (alloc_pass_ok (fix_nid nid) MEMBLOCK_NONE size align start end_ m) as (a&m2&->&Hb2&Hst2); auto.
      exists a, m2. split; [done|]. split; [|done]. apply first_best_app. by right.
    + exists a, m1. split; [done|]. split; [|done]. apply first_best_app. by left.
  - destruct (Z.eqb_spec a 0) as [->|Ha]; cbn [negb]; [|eauto].
    destruct Hst as [[_ ->]|[? _]]; [|done]. exists 0, m. split; [done|]. split; [done|by left].
Qed.




(** [memblock_find_in_range_node] returns the highest aligned block between
    the limits that lies in one accepted memory region and is free of
    reservations, and 0 exactly when there is no such block. *)
Theorem memblock_find_in_range_node_highest size align start end_ nid flags m :
  wf m -> small m -> request size align start end_ m ->
  exists a, memblock_find_in_range_node size align start end_ nid flags m = Ok a
    /\ best (candidate (fix_nid nid) flags size align (eff_start start) (eff_end m start end_) m) a.
Proof. apply find_in_range_node_best. Qed.


Lemma first_best_choice Ps a : first_best Ps a -> a <> 0 -> exists P, P ∈ Ps /\ P a.
Proof.
  induction Ps as [|P Ps IH]; simpl; intros H Ha; [done|].
  destruct H as [[_ [[? _]|(_&HP&_)]]|[_ H]]; [done|exists P; split; [by left|done]|].
  destruct (IH H Ha) as (Q&?&?). exists Q. split; [by right|done].
Qed.

(** A returned block was free before the call. *)
Lemma alloc_was_free size align start end_ nid m a x :
  first_best (alloc_choices size align start end_ nid m) a -> a <> 0 -> a <= x < a + size ->
  attr_at (regions (reserved m)) x = None.
Proof.
  intros H Ha Hx. apply first_best_choice in H as (P&Hin&HP); [|done].
  apply elem_of_flat_map in Hin as (fl&_&Hin). apply list_elem_of_fmap in Hin as (n&->&_).
  destruct HP as (_&_&_&_&Hfree). by apply Hfree.
Qed.

Lemma alloc_bounds size align start end_ nid m a :
  request size align start end_ m ->
  first_best (alloc_choices size align start end_ nid m) a -> a <> 0 ->
  PAGE_SIZE <= a /\ a + size <= PHYS_ADDR_MAX.
Proof.
  intros (_&_&?&?&?) HF Ha. apply first_best_choice in HF as (P&Hin&HP); [|done].
  apply elem_of_flat_map in Hin as (fl&_&Hin). apply list_elem_of_fmap in Hin as (n&->&_).
  destruct HP as (_&Hlo&Hhi&_). unfold eff_end, eff_start, PAGE_SIZE, PHYS_ADDR_MAX in *.
  destruct (_ || _); lia.
Qed.

(** After a successful allocation the block is reserved. *)
Lemma alloc_reserves a size m m' x :
  alloc_state a size m m' -> a <> 0 -> 0 <= a -> a + size <= PHYS_ADDR_MAX -> a <= x < a + size ->
  attr_at (regions (reserved m')) x <> None.
Proof.
  intros [[? _]|(_&t'&->&_&_&_&E&_)] Ha H0 Hm Hx; [done|]. simpl. rewrite E. unfold add_attrs.
  destruct (attr_at _ x); [done|].
  assert (in_range a size x = true) as -> by (apply in_range_spec; unfold range_end; lia). done.
Qed.

Lemma alloc_keeps a size m m' :
  alloc_state a size m m' -> wf m -> small m ->
  wf m' /\ small m' /\ current_limit m' = current_limit m.
Proof.
  intros [[_ ->]|(_&t'&->&Ht&Hmax&_)] Hwf [Hm Hr]; [done|].
  split; [by apply wf_set|]. split; [|done]. split; simpl; [done|]. by rewrite Hmax.
Qed.

(** two blocks returned by successive allocations never overlap, and both
    are reserved afterwards. *)
Theorem memblock_alloc_disjoint s1 al1 st1 en1 n1 s2 al2 st2 en2 n2 m a1 m1 a2 m2 :
  wf m -> small m -> room Reserved 1 m -> room Reserved 1 m1 ->
  request s1 al1 st1 en1 m -> request s2 al2 st2 en2 m ->
  memblock_alloc_range_nid s1 al1 st1 en1 n1 m = Ok (a1, m1) -> a1 <> 0 ->
  memblock_alloc_range_nid s2 al2 st2 en2 n2 m1 = Ok (a2, m2) -> a2 <> 0 ->
  (a1 + s1 <= a2 \/ a2 + s2 <= a1)
  /\ forall x, a1 <= x < a1 + s1 \/ a2 <= x < a2 + s2 -> attr_at (regions (reserved m2)) x <> None.
Proof.
  intros Hwf Hsm Hr1 Hr2 Q1 Q2 E1 N1 E2 N2.
  destruct (alloc_range_nid_ok s1 al1 st1 en1 n1 m) as (a&m'&E&F1&S1); auto; [by left|].
  rewrite E1 in E. injection E as <- <-.
  destruct (alloc_keeps _ _ _ _ S1 Hwf Hsm) as (Hwf1&Hsm1&Hl).
  assert (Q2' : request s2 al2 st2 en2 m1) by (unfold request in *; by rewrite Hl).
  destruct (alloc_range_nid_ok s2 al2 st2 en2 n2 m1) as (a&m'&E&F2&S2); auto; [by left|].
  rewrite E2 in E. injection E as <- <-.
  destruct (alloc_bounds _ _ _ _ _ _ _ Q1 F1 N1) as [P1 M1].
  destruct (alloc_bounds _ _ _ _ _ _ _ Q2' F2 N2) as [P2 M2].
  unfold PAGE_SIZE in *. destruct Q1 as [Hs1 _], Q2 as [Hs2 _].
  pose proof (fun x => alloc_reserves a1 s1 m m1 x S1 N1 ltac:(lia) M1) as Res1.
  split.
  - destruct (Z.le_gt_cases (a1 + s1) a2); [by left|]. destruct (Z.le_gt_cases (a2 + s2) a1); [by right|].
    exfalso. apply (Res1 (Z.max a1 a2)); [lia|].
    apply (alloc_was_free s2 al2 st2 en2 n2 m1 a2); auto. lia.
  - intros x [Hx|Hx].
    + specialize (Res1 x Hx). destruct S2 as [[? _]|(_&t'&->&_&_&_&E&_)]; [done|]. simpl. rewrite E.
      unfold add_attrs. by destruct (attr_at _ x).
    + apply (alloc_reserves a2 s2 m1 m2); auto; lia.
Qed.

(** freeing a block right after its allocation restores the state exactly
    (a minimal reserved array that is not the empty one, with room). *)
Theorem memblock_alloc_free_roundtrip size align start end_ nid m a m' :
  wf m -> small m -> minimal (regions (reserved m)) ->
  (exists x, attr_at (regions (reserved m)) x <> None) -> request size align start end_ m ->
  Z.of_nat (2 * cnt (reserved m) + 3) <= max (reserved m) ->
  memblock_alloc_range_nid size align start end_ nid m = Ok (a, m') -> a <> 0 ->
  memblock_free a size m' = Ok (0, m).
Proof.
  intros Hwf Hsm Hmin Hx Q Hcnt E Ha.
  destruct (alloc_range_nid_ok size align start end_ nid m) as (a0&m0&E0&F&S); auto.
  { left. unfold room. simpl. lia. }
  rewrite E in E0. injection E0 as <- <-. destruct S as [[? _]|(_&t'&->&R)]; [done|].
  destruct (alloc_bounds _ _ _ _ _ _ _ Q F Ha) as [? ?]. unfold PAGE_SIZE in *.
  assert (Hr : phys_range a size) by (destruct Q; unfold phys_range; lia).
  destruct (add_range_roomy Reserved a size MAX_NUMNODES 0 m) as (t1&E1&R1&C1); auto; [simpl; lia|].
  simpl in R1. assert (t' = t1) as ->.
  { eapply refines_unique; eauto; [done|]. destruct Hx as [x Hx]. exists x. unfold add_attrs.
    by destruct (attr_at _ x). }
  pose proof R as (W1&M1&_).
  destruct (remove_range_refines (memblock_double_array double_fuel) Reserved a size (set_type Reserved t1 m))
    as (t2&E2&R2); unfold room; rewrite ?get_set_type in *; auto with kernel; [simpl in *; lia|].
  unfold memblock_free, memblock_remove_range. rewrite E2, set_set_type.
  rewrite <- (set_get_type Reserved m) at 2. do 3 f_equal. simpl.
  apply (add_remove_id a size MAX_NUMNODES 0 (reserved m) t1); auto; [apply Hwf|].
  intros x Ei. apply in_range_spec in Ei. unfold range_end in Ei.
  apply (alloc_was_free size align start end_ nid m a); auto. lia.
Qed.

(** the allocation direction has no effect: [kernel_end] is set to [end], so
    the bottom-up branch is never taken and the search is always top-down. *)
Theorem memblock_bottom_up_ineffective size align start end_ nid flags m enable :
  memblock_find_in_range_node size align start end_ nid flags (memblock_set_bottom_up enable m)
  = memblock_find_in_range_node size align start end_ nid flags m.
Proof. unfold memblock_find_in_range_node. by rewrite !Z.ltb_irrefl, !andb_false_r. Qed.

(** ** The bottom-up search

    [memblock_find_in_range_node] never reaches it in this build (see
    [memblock_bottom_up_ineffective]); on its own it finds the lowest block. *)

Lemma round_up_spec x k :
  0 < x < 4294967296 -> 0 <= k <= 31 -> round_up x (2 ^ k) = u32 (2 ^ k * ((x - 1) / 2 ^ k + 1)).
Proof.
  intros Hx Hk. unfold round_up. rewrite pow2_mask by done. rewrite (u32_small (x - 1)) by lia. f_equal.
  pose proof (Z.add_lor_land (x - 1) (Z.ones k)) as E. rewrite Z.land_ones, Z.ones_equiv in E by lia.
  pose proof (pow2_range k Hk). pose proof (Z.div_mod (x - 1) (2 ^ k)). rewrite Z.ones_equiv. lia.
Qed.

Lemma round_up_best x k :
  0 < x < 4294967296 -> 0 <= k <= 31 ->
  (round_up x (2 ^ k) = 0 /\ forall a, (2 ^ k | a) -> x <= a -> 4294967296 <= a)
  \/ ((2 ^ k | round_up x (2 ^ k)) /\ x <= round_up x (2 ^ k) < 4294967296
      /\ forall a, (2 ^ k | a) -> x <= a -> round_up x (2 ^ k) <= a).
Proof.
  intros Hx Hk. rewrite round_up_spec by done. pose proof (pow2_range k Hk) as Hp.
  pose proof (Z.div_mod (x - 1) (2 ^ k) ltac:(lia)) as E.
  pose proof (Z.mod_pos_bound (x - 1) (2 ^ k) ltac:(lia)).
  set (q := (x - 1) / 2 ^ k) in *. set (c := 2 ^ k * (q + 1)).
  assert (Hleast : forall a, (2 ^ k | a) -> x <= a -> c <= a).
  { intros a [d ->] Ha. unfold c. rewrite (Z.mul_comm d) in *. apply Z.mul_le_mono_nonneg_l; nia. }
  assert (Hc : x <= c) by (unfold c; lia).
  assert (Hc' : c <= 4294967296).
  { apply Hleast; [|lia]. change 4294967296 with (2 ^ 32). replace 32 with (32 - k + k) by lia.
    rewrite Z.pow_add_r by lia. by exists (2 ^ (32 - k)). }
  destruct (Z.eq_dec c 4294967296) as [->|Hne]; [left|right].
  - split; [done|]. intros a Hd Ha. exact (Hleast a Hd Ha).
  - rewrite u32_small by lia. split; [exists (q + 1); unfold c; lia|]. split; [lia|done].
Qed.

Definition lowest (P : Z -> Prop) (a : Z) : Prop :=
  (a = 0 /\ forall a', ~ P a') \/ (a <> 0 /\ P a /\ forall a', P a' -> a <= a').

Lemma fits_cons s e n l size align lo hi a :
  fits ((s, e, n) :: l) size align lo hi a
  <-> ((align | a) /\ lo <= a /\ a + size <= hi /\ s <= a /\ a + size <= e)
      \/ fits l size align lo hi a.
Proof.
  unfold fits. split.
  - intros (?&?&?&s'&e'&n'&Hin&?&?). apply elem_of_cons in Hin as [[= -> -> ->]|Hin]; [by left|].
    right. eauto 10.
  - intros [(?&?&?&?&?)|(?&?&?&s'&e'&n'&Hin&?&?)]; repeat split; auto.
    + exists s, e, n. split; [by left|done].
    + exists s', e', n'. split; [by right|done].
Qed.

Lemma bottom_up_loop_lowest l0 l size k lo hi :
  asc l0 l -> 0 < size -> 0 <= k <= 31 -> 0 < lo <= hi -> hi <= PHYS_ADDR_MAX ->
  lowest (fits l size (2 ^ k) lo hi) (bottom_up_loop l lo hi size (2 ^ k)).
Proof.
  intros Hl Hs Hk Hlo Hhi. unfold PHYS_ADDR_MAX in *.
  revert l0 Hl. induction l as [|[[s e] n] l IH]; intros l0 Hl; simpl.
  { left. split; [done|]. intros a (_&_&_&?&?&?&Hin&_). by apply elem_of_nil in Hin. }
  destruct Hl as (_&Hse&Hl). specialize (IH _ Hl).
  set (ts := clamp s lo hi). set (te := clamp e lo hi).
  destruct (round_up_best ts k ltac:(unfold ts, clamp; lia) Hk) as [[-> Hno]|(Hd&Hc&Hleast)].
  { (* the alignment step wraps to 0: no block at or above [ts] *)
    assert (Hnone : forall a, ~ fits ((s, e, n) :: l) size (2 ^ k) lo hi a).
    { intros a Ha. apply fits_cons in Ha as [(Hd&?)|(Hd&?&?&s'&e'&n'&Hin&?&?)];
        specialize (Hno a Hd); unfold ts, clamp in Hno; [lia|]. apply (asc_elem _ _ _ _ _ Hl) in Hin. lia. }
    destruct (_ && _); [by left|]. left. destruct IH as [[-> _]|(_&H&_)]; [done|].
    exfalso. eapply Hnone. apply fits_cons. right. exact H. }
  set (cand := round_up ts (2 ^ k)) in *.
  assert (Hte : 0 < ts /\ 0 <= te < 4294967296) by (unfold ts, te, clamp; lia).
  assert (Etest : ((cand <? te) && (size <=? u32 (te - cand))) = (cand + size <=? te)).
  { destruct (Z.ltb_spec cand te); [rewrite u32_small by lia|]; simpl; zcase; done. }
  rewrite Etest. destruct (Z.leb_spec (cand + size) te).
  - right. split; [lia|]. split.
    + apply fits_cons. left. unfold ts, te, clamp in *. repeat split; [done|lia..].
    + intros a Ha. apply fits_cons in Ha as [(Hd'&?)|(Hd'&?&?&s'&e'&n'&Hin&?&?)];
        apply (Hleast a Hd'); unfold ts, clamp; [lia|]. apply (asc_elem _ _ _ _ _ Hl) in Hin. lia.
  - assert (Hskip : forall a, (2 ^ k | a) -> ~ (lo <= a /\ a + size <= hi /\ s <= a /\ a + size <= e)).
    { intros a Hda Ha. specialize (Hleast a Hda). unfold ts, te, clamp in *. lia. }
    destruct IH as [[-> IH]|(H0&IH&Hmin)]; [left|right].
    + split; [done|]. intros a Ha. apply fits_cons in Ha as [(Hda&Ha)|Ha]; [by eapply Hskip|by eapply IH].
    + split; [done|]. split; [apply fits_cons; by right|]. intros a Ha.
      apply fits_cons in Ha as [(Hda&Ha)|Ha]; [exfalso; by eapply Hskip|by apply Hmin].
Qed.

(** the bottom-up search returns the lowest aligned free block between its
    limits, and 0 exactly when there is none, including when aligning the start
    of a range wraps around the end of the address space. *)
Theorem memblock_find_range_bottom_up_lowest start end_ size align nid flags m :
  wf m -> small m -> 0 < size -> pow2_align align -> 0 < start <= end_ -> end_ <= PHYS_ADDR_MAX ->
  exists a, __memblock_find_range_bottom_up start end_ size align nid flags m = Ok a
    /\ lowest (candidate (fix_nid nid) flags size align start end_ m) a.
Proof.
  intros Hwf Hsm Hs (k&Hk&->) Hlo Hhi. unfold __memblock_find_range_bottom_up.
  pose proof (wf_iterable Memory m Hwf Hsm) as Im. pose proof (wf_iterable Reserved m Hwf Hsm) as Ir.
  simpl in Im, Ir. rewrite for_each_mem_range_inter by done. cbn [res_bind]. eexists. split; [done|].
  assert (F : forall a, fits (inter (fix_nid nid) flags (regions (memory m)) (gaps 0 (regions (reserved m))))
                          size (2 ^ k) start end_ a
                        <-> candidate (fix_nid nid) flags size (2 ^ k) start end_ m a).
  { intros a. apply fits_candidate; auto; lia. }
  assert (B := bottom_up_loop_lowest 0 _ size k start end_
                 (inter_asc (fix_nid nid) flags 0 _ _ (wf_regions_ord _ (proj1 Im)) (wf_regions_ord _ (proj1 Ir)) ltac:(done))
                 Hs Hk Hlo Hhi).
  destruct B as [[-> B]|(H0&B&Hmin)]; [left|right].
  - split; [done|]. intros a Ha. by apply F in Ha; apply B in Ha.
  - split; [done|]. split; [by apply F|]. intros a Ha. by apply Hmin, F.
Qed.

(** ** Instances *)

(** [boot] after the allocation of one page: the highest page is reserved. *)
Definition boot_page : memblock :=
  set_type Reserved
    (MkType [MkRegion 4096 8192 0 MAX_NUMNODES; MkRegion 1044480 4096 0 MAX_NUMNODES]
       INIT_MEMBLOCK_REGIONS 12288 InitRegions) boot.

(** ... and after the allocation of 10000 bytes below it. *)
Definition boot_pages : memblock :=
  set_type Reserved
    (MkType [MkRegion 4096 8192 0 MAX_NUMNODES; MkRegion 1034464 10000 0 MAX_NUMNODES;
             MkRegion 1044480 4096 0 MAX_NUMNODES]
       INIT_MEMBLOCK_REGIONS 22288 InitRegions) boot.

Lemma boot_small : small boot.
Proof. by split. Qed.

Lemma boot_request size align : (0 <? size) = true -> pow2_align align -> request size align 0 0 boot.
Proof. intros H ?. zbool. unfold request, PHYS_ADDR_MAX. simpl. unfold MEMBLOCK_ALLOC_ANYWHERE, PHYS_ADDR_MAX. auto with lia. Qed.

Lemma pow2_page : pow2_align 4096.
Proof. by exists 12. Qed.

Lemma pow2_line : pow2_align 32.
Proof. by exists 5. Qed.

Lemma memblock_find_in_range_node_highest_witness :
  exists a, memblock_find_in_range_node 4096 4096 0 0 NUMA_NO_NODE 0 boot = Ok a
    /\ best (candidate (fix_nid NUMA_NO_NODE) 0 4096 4096 (eff_start 0) (eff_end boot 0 0) boot) a.
Proof.
  apply memblock_find_in_range_node_highest; [apply boot_wf|apply boot_small|by apply boot_request, pow2_page].
Defined.


Lemma memblock_alloc_disjoint_witness :
  (1044480 + 4096 <= 1034464 \/ 1034464 + 10000 <= 1044480)
  /\ forall x, 1044480 <= x < 1044480 + 4096 \/ 1034464 <= x < 1034464 + 10000 ->
      attr_at (regions (reserved boot_pages)) x <> None.
Proof.
  apply (memblock_alloc_disjoint 4096 4096 0 0 NUMA_NO_NODE 10000 32 0 0 NUMA_NO_NODE boot 1044480 boot_page
           1034464 boot_pages);
    [apply boot_wf|apply boot_small|by vm_compute|by vm_compute|by apply boot_request, pow2_page
    |by apply boot_request, pow2_line|by vm_compute|done|by vm_compute|done].
Defined.

Lemma memblock_alloc_free_roundtrip_witness : memblock_free 1044480 4096 boot_page = Ok (0, boot).
Proof.
  apply (memblock_alloc_free_roundtrip 4096 4096 0 0 NUMA_NO_NODE);
    [apply boot_wf|apply boot_small|done|by exists 4096|by apply boot_request, pow2_page|by vm_compute
    |by vm_compute|done].
Defined.

Lemma memblock_find_range_bottom_up_lowest_witness :
  exists a, __memblock_find_range_bottom_up 4096 65536 100 32 NUMA_NO_NODE 0 boot = Ok a
    /\ lowest (candidate (fix_nid NUMA_NO_NODE) 0 100 32 4096 65536 boot) a.
Proof.
  apply memblock_find_range_bottom_up_lowest;
    [apply boot_wf|apply boot_small|done|apply pow2_line|done|by vm_compute].
Defined.
