(* ===== verification/MemblockApi.v ===== *)
(** * memblock: queries, limits and the release of free memory (mm/memblock.c)

    The binary search and the queries built on it, the iterators over reserved
    regions and page frames, the operations that limit, cap and trim memory, and
    the walk that hands the free pages over. *)

From S2P Require Import Prelude Bitops MemblockTypes MemblockRegions MemblockIter MemblockRange MemblockSpec MemblockAlloc.
Local Open Scope res_scope.

(** [PFN_UP], [PFN_DOWN] and [PFN_PHYS]: [PAGE_SIZE] is an [unsigned long], so
    the sum in [PFN_UP] does not wrap at 32 bits; [PFN_PHYS] shifts a [phys_addr_t]. *)
Definition PFN_UP (x : Z) : Z := Z.shiftr (u64 (x + PAGE_SIZE - 1)) PAGE_SHIFT.
Definition PFN_DOWN (x : Z) : Z := Z.shiftr x PAGE_SHIFT.
Definition PFN_PHYS (x : Z) : Z := u32 (Z.shiftl (u32 x) PAGE_SHIFT).

(** ** Searching *)

(** The [do ... while (left < right)] loop: each pass halves the interval. *)
Fixpoint search_loop (fuel : nat) (rs : list memblock_region) (addr : Z) (left right : nat) : res Z :=
  match fuel with
  | O => Fault NoFuel
  | S fuel =>
    let mid := ((right + left) / 2)%nat in
    r <-- array_get rs mid;
    if addr <? r_base r then
      if (left <? mid)%nat then search_loop fuel rs addr left mid else Ok (-1)
    else if rgn_end r <=? addr then
      if (S mid <? right)%nat then search_loop fuel rs addr (S mid) right else Ok (-1)
    else Ok (Z.of_nat mid)
  end.

(** At most [log2 cnt + 1] probes. *)
Definition memblock_search (t : memblock_type) (addr : Z) : res Z :=
  search_loop (S (Nat.log2 (cnt t))) (regions t) addr 0 (cnt t).

Definition memblock_is_reserved (addr : Z) (m : memblock) : res bool :=
  i <-- memblock_search (reserved m) addr; Ok (negb (i =? -1)).

Definition memblock_is_memory (addr : Z) (m : memblock) : res bool :=
  i <-- memblock_search (memory m) addr; Ok (negb (i =? -1)).

Definition memblock_is_map_memory (addr : Z) (m : memblock) : res bool :=
  i <-- memblock_search (memory m) addr;
  if i =? -1 then Ok false
  else r <-- array_get (regions (memory m)) (Z.to_nat i); Ok (negb (memblock_is_nomap r)).

(** The node, with the page frames of the region; -1 and nothing when not found. *)
Definition memblock_search_pfn_nid (pfn : Z) (m : memblock) : res (Z * option (Z * Z)) :=
  mid <-- memblock_search (memory m) (PFN_PHYS pfn);
  if mid =? -1 then Ok (-1, None)
  else
    r <-- array_get (regions (memory m)) (Z.to_nat mid);
    Ok (r_nid r, Some (PFN_DOWN (r_base r), PFN_DOWN (rgn_end r))).

Definition memblock_is_region_memory (base size : Z) (m : memblock) : res bool :=
  idx <-- memblock_search (memory m) base;
  let end_ := u32 (base + memblock_cap_size base size) in
  if idx =? -1 then Ok false
  else r <-- array_get (regions (memory m)) (Z.to_nat idx); Ok (end_ <=? rgn_end r).

Definition memblock_is_region_reserved (base size : Z) (m : memblock) : bool :=
  memblock_overlaps_region (reserved m) base (memblock_cap_size base size).

(** ** Iterating over reserved regions and page frames *)

Definition __next_reserved_mem_region (idx : Z) (m : memblock) : res (Z * option (Z * Z)) :=
  if idx <? Z.of_nat (cnt (reserved m)) then
    r <-- array_get (regions (reserved m)) (Z.to_nat idx);
    Ok (u64 (idx + 1), Some (r_base r, u32 (r_base r + r_size r - 1)))
  else Ok (ULLONG_MAX, None).

Fixpoint reserved_loop (fuel : nat) (idx : Z) (m : memblock) : res (list (Z * Z)) :=
  match fuel with
  | O => Fault NoFuel
  | S fuel =>
    '(idx, out) <-- __next_reserved_mem_region idx m;
    if idx =? ULLONG_MAX then Ok []
    else
      rest <-- reserved_loop fuel idx m;
      Ok (match out with Some p => p :: rest | None => rest end)
  end.

Definition for_each_reserved_mem_region (m : memblock) : res (list (Z * Z)) :=
  reserved_loop (S (cnt (reserved m))) 0 m.

(** [while (++*idx < type->cnt)]: the next non-empty region on the node. *)
Fixpoint pfn_scan (fuel : nat) (idx nid : Z) (rs : list memblock_region) : res (Z * option (Z * Z * Z)) :=
  match fuel with
  | O => Fault NoFuel
  | S fuel =>
    let idx := idx + 1 in
    if idx <? Z.of_nat (length rs) then
      r <-- array_get rs (Z.to_nat idx);
      if PFN_DOWN (rgn_end r) <=? PFN_UP (r_base r) then pfn_scan fuel idx nid rs
      else if (nid =? MAX_NUMNODES) || (nid =? r_nid r)
      then Ok (idx, Some (PFN_UP (r_base r), PFN_DOWN (rgn_end r), r_nid r))
      else pfn_scan fuel idx nid rs
    else Ok (-1, None)
  end.

Definition __next_mem_pfn_range (idx nid : Z) (m : memblock) : res (Z * option (Z * Z * Z)) :=
  pfn_scan (S (cnt (memory m))) idx nid (regions (memory m)).

Fixpoint pfn_loop (fuel : nat) (idx nid : Z) (m : memblock) : res (list (Z * Z * Z)) :=
  match fuel with
  | O => Fault NoFuel
  | S fuel =>
    '(idx, out) <-- __next_mem_pfn_range idx nid m;
    if 0 <=? idx then
      rest <-- pfn_loop fuel idx nid m;
      Ok (match out with Some p => p :: rest | None => rest end)
    else Ok []
  end.

Definition for_each_mem_pfn_range (nid : Z) (m : memblock) : res (list (Z * Z * Z)) :=
  pfn_loop (S (cnt (memory m))) (-1) nid m.

(** ** Sizes and limits *)

Definition memblock_phys_mem_size (m : memblock) : Z := total_size (memory m).
Definition memblock_reserved_size (m : memblock) : Z := total_size (reserved m).

Definition memblock_region_memory_base_pfn (r : memblock_region) : Z := PFN_UP (r_base r).
Definition memblock_region_memory_end_pfn (r : memblock_region) : Z := PFN_DOWN (rgn_end r).
Definition memblock_region_reserved_base_pfn (r : memblock_region) : Z := PFN_DOWN (r_base r).
Definition memblock_region_reserved_end_pfn (r : memblock_region) : Z := PFN_UP (rgn_end r).

Fixpoint mem_pages (rs : list memblock_region) (limit_pfn pages : Z) : Z :=
  match rs with
  | [] => pages
  | r :: rs =>
    let start_pfn := Z.min (memblock_region_memory_base_pfn r) limit_pfn in
    let end_pfn := Z.min (memblock_region_memory_end_pfn r) limit_pfn in
    mem_pages rs limit_pfn (u64 (pages + u64 (end_pfn - start_pfn)))
  end.

Definition memblock_mem_size (limit_pfn : Z) (m : memblock) : Z :=
  PFN_PHYS (mem_pages (regions (memory m)) limit_pfn 0).

Definition memblock_start_of_DRAM (m : memblock) : res Z :=
  r <-- array_get (regions (memory m)) 0; Ok (r_base r).

Definition memblock_end_of_DRAM (m : memblock) : res Z :=
  r <-- array_get (regions (memory m)) (cnt (memory m) - 1); Ok (rgn_end r).

Fixpoint find_max_loop (rs : list memblock_region) (limit : Z) : Z :=
  match rs with
  | [] => PHYS_ADDR_MAX
  | r :: rs => if limit <=? r_size r then u32 (r_base r + limit)
               else find_max_loop rs (u32 (limit - r_size r))
  end.

Definition __find_max_addr (limit : Z) (m : memblock) : Z := find_max_loop (regions (memory m)) limit.

Definition memblock_enforce_memory_limit (limit : Z) (m : memblock) : res memblock :=
  if limit =? 0 then Ok m
  else
    let max_addr := __find_max_addr limit m in
    if max_addr =? PHYS_ADDR_MAX then Ok m
    else
      '(_, m) <-- memblock_remove_range Memory max_addr PHYS_ADDR_MAX m;
      '(_, m) <-- memblock_remove_range Reserved max_addr PHYS_ADDR_MAX m;
      Ok m.

(** [for (i = k + n - 1; i >= k; i--)] of the removal of the mapped regions. *)
Fixpoint cap_loop (n k : nat) (t : memblock_type) : res memblock_type :=
  match n with
  | O => Ok t
  | S n =>
    r <-- array_get (regions t) (k + n);
    t' <-- (if negb (memblock_is_nomap r) then memblock_remove_region t (k + n) else Ok t);
    cap_loop n k t'
  end.

Definition memblock_cap_memory_range (base size : Z) (m : memblock) : res memblock :=
  if size =? 0 then Ok m
  else
    '(ret, m, start_rgn, end_rgn) <-- memblock_isolate_range Memory base size m;
    if negb (ret =? 0) then Ok m
    else
      t <-- cap_loop (cnt (memory m) - end_rgn) end_rgn (memory m);
      t <-- cap_loop start_rgn 0 t;
      let m := set_type Memory t m in
      '(_, m) <-- memblock_remove_range Reserved 0 base m;
      '(_, m) <-- memblock_remove_range Reserved (u32 (base + size)) PHYS_ADDR_MAX m;
      Ok m.

Definition memblock_mem_limit_remove_map (limit : Z) (m : memblock) : res memblock :=
  if limit =? 0 then Ok m
  else
    let max_addr := __find_max_addr limit m in
    if max_addr =? PHYS_ADDR_MAX then Ok m
    else memblock_cap_memory_range 0 max_addr m.

(** The walk of [memblock_trim_memory]; after a removal the same index is
    visited again. *)
Fixpoint trim_loop (fuel i : nat) (align : Z) (t : memblock_type) : res memblock_type :=
  match fuel with
  | O => Fault NoFuel
  | S fuel =>
    match regions t !! i with
    | None => Ok t
    | Some r =>
      let orig_start := r_base r in
      let orig_end := rgn_end r in
      let start := round_up orig_start align in
      let end_ := round_down orig_end align in
      if (start =? orig_start) && (end_ =? orig_end) then trim_loop fuel (S i) align t
      else if start <? end_ then
        trim_loop fuel (S i) align
          (set_regions t (<[i := MkRegion start (u32 (end_ - start)) (r_flags r) (r_nid r)]> (regions t))
             (total_size t))
      else
        t' <-- memblock_remove_region t i;
        trim_loop fuel i align t'
    end
  end.

(** Every pass moves on or removes a region, and the dummy left by the last
    removal is passed over: [cnt + 2] passes. *)
Definition memblock_trim_memory (align : Z) (m : memblock) : res memblock :=
  t <-- trim_loop (cnt (memory m) + 2) 0 align (memory m);
  Ok (set_type Memory t m).

Definition memblock_set_current_limit (limit : Z) (m : memblock) : memblock :=
  MkMemblock (bottom_up m) limit (memory m) (reserved m) (system_has_some_mirror m)
    (memblock_can_resize m) (memblock_memory_in_slab m) (memblock_reserved_in_slab m).
Definition memblock_get_current_limit (m : memblock) : Z := current_limit m.

Definition memblock_allow_resize (m : memblock) : memblock :=
  MkMemblock (bottom_up m) (current_limit m) (memory m) (reserved m) (system_has_some_mirror m)
    true (memblock_memory_in_slab m) (memblock_reserved_in_slab m).

(** ** Releasing the free memory *)

Definition MAX_ORDER : Z := 11.

(** [while (start + (1UL << order) > end) order--;] with [order] counting down. *)
Fixpoint fit_order (fuel : nat) (order start end_ : Z) : res Z :=
  match fuel with
  | O => Fault NoFuel
  | S fuel => if end_ <? u64 (start + u64 (Z.shiftl 1 order)) then fit_order fuel (order - 1) start end_
              else Ok order
  end.

(** The blocks the walk visits, as (first frame, order) pairs: what is handed to
    the page allocator. *)
Fixpoint free_pages_loop (fuel : nat) (start end_ : Z) : res (list (Z * Z)) :=
  match fuel with
  | O => Fault NoFuel
  | S fuel =>
    if start <? end_ then
      order <-- fit_order 12 (Z.min (MAX_ORDER - 1) (__ffs start)) start end_;
      rest <-- free_pages_loop fuel (u64 (start + u64 (Z.shiftl 1 order))) end_;
      Ok ((start, order) :: rest)
    else Ok []
  end.

(** Each block holds at least one frame. *)
Definition __free_pages_memory (start end_ : Z) : res (list (Z * Z)) :=
  free_pages_loop (S (Z.to_nat (end_ - start))) start end_.

Section release.
Context (max_low_pfn : Z).

Definition __free_memory_core (start end_ : Z) : res Z :=
  let start_pfn := PFN_UP start in
  let end_pfn := Z.min (PFN_DOWN end_) max_low_pfn in
  if end_pfn <=? start_pfn then Ok 0
  else
    _ <-- __free_pages_memory start_pfn end_pfn;
    Ok (end_pfn - start_pfn).

Fixpoint free_core_loop (l : list (Z * Z * Z)) (count : Z) : res Z :=
  match l with
  | [] => Ok count
  | (s, e, _) :: l => n <-- __free_memory_core s e; free_core_loop l (u64 (count + n))
  end.

Definition free_low_memory_core_early (m : memblock) : res (Z * memblock) :=
  '(_, m) <-- memblock_clear_hotplug 0 4294967295 m;
  l <-- for_each_mem_range (regions (memory m)) (Some (regions (reserved m))) NUMA_NO_NODE MEMBLOCK_NONE;
  count <-- free_core_loop l 0;
  Ok (count, m).

Definition memblock_free_all : memblock -> res (Z * memblock) := free_low_memory_core_early.
End release.

(** ** Searching is exact *)

Lemma ord_attr_None lo rs x :
  ord_from lo rs -> (forall i r, rs !! i = Some r -> ~ (r_base r <= x < r_base r + r_size r)) ->
  attr_at rs x = None.
Proof.
  revert lo. induction rs as [|r rs IH]; intros lo H Hno; simpl; [done|].
  destruct H as (?&?&?&H). pose proof (Hno 0%nat r eq_refl).
  unfold rgn_has. zcase; simpl; try lia; apply (IH _ H); intros i r' E; apply (Hno (S i) r' E).
Qed.

Lemma ord_attr_Some lo rs i r x :
  ord_from lo rs -> rs !! i = Some r -> r_base r <= x < r_base r + r_size r ->
  attr_at rs x = Some (r_flags r, r_nid r).
Proof.
  revert lo i. induction rs as [|r0 rs IH]; intros lo [|i] H E Hx; simplify_eq/=.
  - unfold rgn_has. zcase; done.
  - destruct H as (?&?&?&H). pose proof (ord_lookup _ _ _ _ H E). unfold rgn_has.
    zcase; simpl; try lia; by apply (IH _ i H).
Qed.

Lemma ord_end lo rs i r : 0 <= lo -> ord_from lo rs -> rs !! i = Some r -> rgn_end r = r_base r + r_size r.
Proof.
  intros Hlo H E. pose proof (ord_lookup _ _ _ _ H E). unfold rgn_end, PHYS_ADDR_MAX in *. by wrap.
Qed.

(** The answer of a search: an index whose region has the address, or -1. *)
Definition search_spec (rs : list memblock_region) (addr i : Z) : Prop :=
  (i = -1 /\ attr_at rs addr = None)
  \/ (0 <= i /\ exists r, rs !! Z.to_nat i = Some r /\ r_base r <= addr < r_base r + r_size r
                          /\ attr_at rs addr = Some (r_flags r, r_nid r)).

Lemma search_loop_ok fuel rs addr left right :
  ord_from 0 rs -> (left < right <= length rs)%nat -> (right - left < 2 ^ fuel)%nat ->
  (forall j r, rs !! j = Some r -> (j < left)%nat -> r_base r + r_size r <= addr) ->
  (forall j r, rs !! j = Some r -> (right <= j)%nat -> addr < r_base r) ->
  exists i, search_loop fuel rs addr left right = Ok i /\ search_spec rs addr i.
Proof.
  intros H. revert left right. induction fuel as [|fuel IH]; intros left right Hlr Hf Hl Hr.
  { simpl in Hf. lia. }
  cbn [search_loop]. set (mid := ((right + left) / 2)%nat).
  assert (Hmid : (left <= mid < right)%nat).
  { unfold mid. split; [apply Nat.div_le_lower_bound|apply Nat.Div0.div_lt_upper_bound]; lia. }
  assert (Hhalf : (mid - left < 2 ^ fuel /\ right - S mid < 2 ^ fuel)%nat).
  { rewrite Nat.pow_succ_r' in Hf. pose proof (Nat.div_mod_eq (right + left) 2).
    pose proof (Nat.mod_upper_bound (right + left) 2). fold mid in H0. lia. }
  destruct (lookup_lt_is_Some_2 rs mid ltac:(lia)) as [r Er]. rewrite (array_get_Some _ _ _ Er). cbn [res_bind].
  rewrite (ord_end 0 rs mid r) by (done || lia).
  assert (Hlo : addr < r_base r -> forall j r', rs !! j = Some r' -> (mid <= j)%nat -> addr < r_base r').
  { intros Ha j r' Ej Hj. destruct (decide (j = mid)) as [->|Hne]; [by simplify_eq|].
    pose proof (ord_lt _ _ _ _ _ _ H (ltac:(lia) : (mid < j)%nat) Er Ej). pose proof (ord_lookup _ _ _ _ H Er). lia. }
  assert (Hhi : r_base r + r_size r <= addr ->
            forall j r', rs !! j = Some r' -> (j < S mid)%nat -> r_base r' + r_size r' <= addr).
  { intros Ha j r' Ej Hj. destruct (decide (j = mid)) as [->|Hne]; [by simplify_eq|].
    pose proof (ord_lt _ _ _ _ _ _ H (ltac:(lia) : (j < mid)%nat) Ej Er). pose proof (ord_lookup _ _ _ _ H Er). lia. }
  destruct (Z.ltb_spec addr (r_base r)) as [Ha|Ha]; [|destruct (Z.leb_spec (r_base r + r_size r) addr) as [Hb|Hb]].
  - destruct (Nat.ltb_spec left mid); [apply IH; [lia|lia|done|by apply Hlo]|].
    exists (-1). split; [done|]. left. split; [done|]. apply (ord_attr_None 0); [done|].
    intros i r' E Hx. destruct (decide (i < mid)%nat); [specialize (Hl _ _ E); lia|]. specialize (Hlo Ha _ _ E); lia.
  - destruct (Nat.ltb_spec (S mid) right); [apply IH; [lia|lia|by apply Hhi|done]|].
    exists (-1). split; [done|]. left. split; [done|]. apply (ord_attr_None 0); [done|].
    intros i r' E Hx. destruct (decide (i < S mid)%nat); [specialize (Hhi Hb _ _ E); lia|]. specialize (Hr _ _ E); lia.
  - eexists. split; [done|]. right. split; [lia|]. exists r. rewrite Nat2Z.id. repeat split; auto.
    by apply (ord_attr_Some 0 _ mid).
Qed.

Lemma wf_cnt_pos t : wf_type t -> (0 < cnt t)%nat.
Proof. intros H. destruct (wf_head t H) as (r&E&_). by apply lookup_lt_Some in E. Qed.

Lemma search_ok t addr : wf_type t ->
  exists i, memblock_search t addr = Ok i /\ search_spec (regions t) addr i.
Proof.
  intros Hwf. pose proof (wf_cnt_pos t Hwf) as Hc. unfold memblock_search. apply search_loop_ok.
  - apply wf_regions_ord, Hwf.
  - unfold cnt in *. lia.
  - pose proof (Nat.log2_spec (cnt t) Hc). lia.
  - lia.
  - intros j r E Hj. apply lookup_lt_Some in E. unfold cnt in Hj. lia.
Qed.

(** [memblock_search] finds, in at most [log2 cnt + 1] probes and without
    leaving the array, the region that holds the address, and returns -1 exactly
    when no region does. *)
Theorem memblock_search_correct t addr :
  wf_type t -> exists i, memblock_search t addr = Ok i /\ search_spec (regions t) addr i.
Proof. apply search_ok. Qed.

Lemma memblock_search_correct_witness :
  exists i, memblock_search (reserved boot_pages) 1044481 = Ok i
    /\ search_spec (regions (reserved boot_pages)) 1044481 i.
Proof. apply memblock_search_correct. by split; [right; vm_compute|]. Defined.

Definition covered (rs : list memblock_region) (x : Z) : bool :=
  match attr_at rs x with Some _ => true | None => false end.

(** the address queries answer from the attributes: [memblock_is_memory] and
    [memblock_is_reserved] tell whether an array covers the address, and
    [memblock_is_map_memory] also that the region is not marked no-map. *)
Theorem memblock_queries_correct addr m :
  wf m ->
  memblock_is_memory addr m = Ok (covered (regions (memory m)) addr)
  /\ memblock_is_reserved addr m = Ok (covered (regions (reserved m)) addr)
  /\ memblock_is_map_memory addr m
     = Ok (match attr_at (regions (memory m)) addr with
           | Some (fl, _) => Z.land fl MEMBLOCK_NOMAP =? 0
           | None => false
           end).
Proof.
  intros [Hm Hr]. unfold covered, memblock_is_memory, memblock_is_reserved, memblock_is_map_memory.
  destruct (search_ok _ addr Hm) as (i&->&[(->&->)|(Hi&r&Er&_&->)]);
    destruct (search_ok _ addr Hr) as (j&->&[(->&->)|(Hj&r'&_&_&->)]); cbn [res_bind];
    try (destruct (Z.eqb_spec i (-1)); [lia|]); try (destruct (Z.eqb_spec j (-1)); [lia|]);
    rewrite ?(array_get_Some _ _ _ Er); cbn [res_bind]; unfold memblock_is_nomap; rewrite ?negb_involutive; done.
Qed.

Lemma memblock_queries_correct_witness :
  memblock_is_memory 5000 boot = Ok true /\ memblock_is_reserved 5000 boot = Ok true
  /\ memblock_is_map_memory 5000 boot = Ok true.
Proof. apply (memblock_queries_correct 5000 boot boot_wf). Defined.

Lemma wf_pos lo rs r : wf_from lo rs -> r ∈ rs -> 0 < r_size r.
Proof.
  revert lo. induction rs as [|r' rs IH]; intros lo H Hin; [by apply elem_of_nil in Hin|].
  destruct H as (?&?&?&H). apply elem_of_cons in Hin as [->|Hin]; [done|]. by apply (IH _ H).
Qed.

Lemma overlaps_list_spec lo rs b e :
  ord_from lo rs -> 0 <= lo -> 0 <= b < e -> e <= PHYS_ADDR_MAX ->
  (forall r, r ∈ rs -> 0 < r_size r) ->
  memblock_overlaps_list rs b (e - b) = true <-> exists x, b <= x < e /\ attr_at rs x <> None.
Proof.
  revert lo. induction rs as [|r rs IH]; intros lo H Hlo Hbe He Hpos; simpl.
  { split; [done|]. by intros (x&_&?). }
  destruct H as (?&?&?&H). specialize (IH _ H ltac:(lia) Hbe He ltac:(intros; apply Hpos; by right)).
  pose proof (Hpos r ltac:(by left)). unfold memblock_addrs_overlap, PHYS_ADDR_MAX in *.
  rewrite !u32_small by lia. replace (b + (e - b)) with e by lia. unfold rgn_has.
  destruct ((b <? r_base r + r_size r) && (r_base r <? e)) eqn:Eo.
  - split; [|done]. intros _. zbool. exists (Z.max b (r_base r)). split; [lia|].
    zcase; simpl; done.
  - rewrite IH. apply andb_false_iff in Eo.
    split; intros (x&Hx&Ha); exists x; (split; [done|]); revert Ha; destruct Eo; zbool; zcase; simpl; done.
Qed.

(** [memblock_is_region_memory] holds exactly when the (capped) range starts
    in a memory region that contains all of it, and
    [memblock_is_region_reserved] exactly when an address of the range is
    reserved, for non-empty ranges. *)
Theorem memblock_region_queries_correct base size m :
  wf m -> phys_range base size -> base < range_end base size ->
  (exists b, memblock_is_region_memory base size m = Ok b
     /\ (b = true <-> exists r, r ∈ regions (memory m) /\ r_base r <= base
                                /\ range_end base size <= r_base r + r_size r))
  /\ (memblock_is_region_reserved base size m = true
      <-> exists x, in_range base size x = true /\ attr_at (regions (reserved m)) x <> None).
Proof.
  intros [Hm Hr] Hp Hne. destruct (cap_size_eq base size Hp) as (Ec&Ee&He).
  pose proof (wf_regions_ord _ (proj1 Hm)) as Om. split.
  - unfold memblock_is_region_memory. rewrite Ee.
    destruct (search_ok _ base Hm) as (i&->&[(->&Hno)|(Hi&r&Er&Hb&_)]); cbn [res_bind].
    + exists false. split; [done|]. split; [done|]. intros (r&Hin&?&?).
      apply list_elem_of_lookup in Hin as [j Ej].
      rewrite (ord_attr_Some 0 _ j r base Om Ej ltac:(lia)) in Hno. done.
    + destruct (Z.eqb_spec i (-1)); [lia|]. rewrite (array_get_Some _ _ _ Er). cbn [res_bind].
      rewrite (ord_end 0 _ _ _ ltac:(lia) Om Er). eexists. split; [done|]. rewrite Z.leb_le. split.
      * intros. exists r. split; [by eapply list_elem_of_lookup_2|lia].
      * intros (r'&Hin&?&?). apply list_elem_of_lookup in Hin as [j Ej].
        destruct (Nat.lt_total (Z.to_nat i) j) as [Hlt|[<-|Hlt]]; [|by simplify_eq|].
        -- pose proof (ord_lt _ _ _ _ _ _ Om Hlt Er Ej). lia.
        -- pose proof (ord_lt _ _ _ _ _ _ Om Hlt Ej Er). lia.
  - unfold memblock_is_region_reserved, memblock_overlaps_region. rewrite Ec.
    setoid_rewrite in_range_spec. unfold phys_range in Hp.
    destruct Hr as ([(fl&n&->)|[_ Hw]]&_).
    + cbn [memblock_overlaps_list r_base r_size]. unfold memblock_addrs_overlap.
      rewrite (u32_small (0 + 0)) by lia. destruct (Z.ltb_spec base (0 + 0)); [lia|]. cbn [andb].
      split; [done|]. intros (x&_&Hx). by rewrite (attr_at_dummy [MkRegion 0 0 fl n]) in Hx by (by exists fl, n).
    + apply (overlaps_list_spec 0); auto using wf_ord; try lia.
      intros r. by apply (wf_pos 0).
Qed.

Lemma memblock_region_queries_correct_witness :
  (exists b, memblock_is_region_memory 8192 4096 boot = Ok b
     /\ (b = true <-> exists r, r ∈ regions (memory boot) /\ r_base r <= 8192
                                /\ range_end 8192 4096 <= r_base r + r_size r))
  /\ (memblock_is_region_reserved 8192 4096 boot = true
      <-> exists x, in_range 8192 4096 x = true /\ attr_at (regions (reserved boot)) x <> None).
Proof. apply memblock_region_queries_correct; [apply boot_wf|by apply boot_phys|done]. Defined.

(** ** Limiting the memory *)

(** The part of the regions below [a]. *)
Fixpoint upto (a : Z) (rs : list memblock_region) : list memblock_region :=
  match rs with
  | [] => []
  | r :: rs =>
    if r_base r + r_size r <=? a then r :: upto a rs
    else if r_base r <? a then [clip r (r_base r) a] else []
  end.

Definition below_attrs (a : Z) (f : attrs) : attrs := fun x => if x <? a then f x else None.

Lemma upto_wf lo a rs : wf_from lo rs -> wf_from lo (upto a rs).
Proof.
  revert lo. induction rs as [|r rs IH]; intros lo H; simpl; [done|]. destruct H as (?&?&?&H).
  zcase; simpl; repeat split; auto; lia.
Qed.

Lemma upto_attr lo a rs x : wf_from lo rs -> attr_at (upto a rs) x = below_attrs a (attr_at rs) x.
Proof.
  unfold below_attrs. revert lo. induction rs as [|r rs IH]; intros lo H; simpl; [by destruct (x <? a)|].
  destruct H as (?&?&?&H). specialize (IH _ H). pose proof (attr_at_below _ rs x H) as Hb. revert IH.
  zcase; simpl; unfold rgn_has; simpl; intros IH; zcase; simpl; auto; apply Hb || (symmetry; apply Hb); lia.
Qed.

(** The size of a well-formed list is determined by its attributes. *)
Lemma sum_attr rs1 rs2 : wf_from 0 rs1 -> wf_from 0 rs2 ->
  (forall x, attr_at rs1 x = attr_at rs2 x) -> sum_size rs1 = sum_size rs2.
Proof.
  intros H1 H2 E. rewrite <- (merge_list_sum rs1), <- (merge_list_sum rs2). f_equal.
  apply (canonical 0); auto using merge_list_wf, merge_list_minimal.
  intros x. by rewrite !(merge_list_attr 0).
Qed.

Lemma sum_attr_wf t rs : wf_type t -> wf_from 0 rs ->
  (forall x, attr_at (regions t) x = attr_at rs x) -> total_size t = sum_size rs.
Proof.
  intros ([Hd|[_ Hw]]&->&_) Hrs E; [|by apply sum_attr].
  destruct rs as [|r rs]; [by destruct Hd as (?&?&->)|]. exfalso. destruct Hrs as (?&?&_).
  specialize (E (r_base r)). rewrite (attr_at_dummy _ _ Hd) in E. simpl in E. unfold rgn_has in E.
  revert E. zcase; done.
Qed.

Lemma find_max_ok lo rs limit :
  wf_from lo rs -> 0 <= lo -> 0 < limit <= PHYS_ADDR_MAX ->
  let a := find_max_loop rs limit in
  if limit <=? sum_size rs then lo <= a <= PHYS_ADDR_MAX /\ sum_size (upto a rs) = limit
  else a = PHYS_ADDR_MAX.
Proof.
  unfold PHYS_ADDR_MAX. revert lo limit. induction rs as [|r rs IH]; intros lo limit H Hlo Hl; simpl.
  { zcase; done. }
  destruct H as (?&?&?&H). unfold PHYS_ADDR_MAX in *.
  destruct (Z.leb_spec limit (r_size r)).
  - pose proof (wf_from_bound _ _ H). rewrite u32_small by lia.
    destruct (Z.leb_spec limit (r_size r + sum_size rs)); [|lia]. split; [lia|].
    assert (Hup : r_base r + r_size r = r_base r + limit -> sum_size (upto (r_base r + limit) rs) = 0).
    { intros <-. destruct rs as [|r' rs]; [done|]. simpl. destruct H as (?&?&_). zcase; simpl; lia. }
    zcase; simpl; lia.
  - rewrite u32_small by lia. specialize (IH _ (limit - r_size r) H ltac:(lia) ltac:(lia)). simpl in IH. revert IH.
    zcase; intros IH; try done. destruct IH as [? E]. split; [lia|]. zcase; simpl; lia.
Qed.

Lemma upto_all rs : wf_from 0 rs -> upto PHYS_ADDR_MAX rs = rs.
Proof.
  generalize 0. induction rs as [|r rs IH]; intros lo H; simpl; [done|]. destruct H as (?&?&?&H).
  zcase. f_equal. by eapply IH.
Qed.

Lemma below_max_attrs rs x : wf_regions rs -> below_attrs PHYS_ADDR_MAX (attr_at rs) x = attr_at rs x.
Proof.
  unfold below_attrs. intros H. destruct (Z.ltb_spec x PHYS_ADDR_MAX); [done|].
  destruct H as [Hd|[_ H]]; [by rewrite attr_at_dummy|].
  destruct (attr_at rs x) eqn:E; [|done]. pose proof (attr_at_range 0 rs x H ltac:(by rewrite E)). lia.
Qed.

(** Removing everything from [a] up, as [memblock_remove_range] does it. *)
Lemma remove_above w a m :
  wf m -> 0 <= a <= PHYS_ADDR_MAX -> room w 2 m ->
  exists t', memblock_remove_range w a PHYS_ADDR_MAX m = Ok (0, set_type w t' m)
    /\ refines (get_type w m) t' (below_attrs a).
Proof.
  intros Hwf Ha Hroom.
  destruct (remove_range_refines (memblock_double_array double_fuel) w a PHYS_ADDR_MAX m)
    as (t'&E&R); auto with kernel; [unfold phys_range, PHYS_ADDR_MAX in *; lia|].
  exists t'. split; [done|]. destruct R as (W&M&A&At&Mi). repeat split; auto; try apply W.
  intros x. rewrite At. unfold remove_attrs, below_attrs, in_range, range_end.
  pose proof (below_max_attrs _ x (proj1 (wf_get w m Hwf))) as Hmax. unfold below_attrs in Hmax. revert Hmax.
  zcase; simpl; intros; done.
Qed.

(** [memblock_enforce_memory_limit] keeps the lowest [limit] bytes of
    memory: the total becomes the smaller of [limit] and the old total, and both
    arrays lose exactly the addresses at or above one cut. *)
Theorem memblock_enforce_memory_limit_correct limit m :
  wf m -> 0 < limit <= PHYS_ADDR_MAX -> room Memory 2 m -> room Reserved 2 m ->
  exists m' a, memblock_enforce_memory_limit limit m = Ok m' /\ wf m'
    /\ memblock_phys_mem_size m' = Z.min limit (memblock_phys_mem_size m)
    /\ (forall x, attr_at (regions (memory m')) x = below_attrs a (attr_at (regions (memory m))) x)
    /\ (forall x, attr_at (regions (reserved m')) x = below_attrs a (attr_at (regions (reserved m))) x).
Proof.
  intros Hwf Hl Rm Rr. unfold memblock_enforce_memory_limit, __find_max_addr, memblock_phys_mem_size.
  destruct (Z.eqb_spec limit 0); [lia|]. pose proof Hwf as [Wm Wr]. set (a := find_max_loop _ limit).
  assert (Hnoop : memblock_phys_mem_size m <= limit ->
    exists m' a, Ok m = Ok m' /\ wf m' /\ total_size (memory m') = Z.min limit (total_size (memory m))
      /\ (forall x, attr_at (regions (memory m')) x = below_attrs a (attr_at (regions (memory m))) x)
      /\ (forall x, attr_at (regions (reserved m')) x = below_attrs a (attr_at (regions (reserved m))) x)).
  { unfold memblock_phys_mem_size. intros. exists m, PHYS_ADDR_MAX. split; [done|]. split; [done|]. split; [lia|].
    split; intros x; symmetry; apply below_max_attrs; [apply Wm|apply Wr]. }
  assert (Wm' := Wm). destruct Wm' as ([(fl&nn&Ed)|[_ Hw]]&Et&Hc).
  { assert (a = PHYS_ADDR_MAX) as ->.
    { unfold a. rewrite Ed. cbn [find_max_loop r_size]. destruct (Z.leb_spec limit 0); [lia|done]. }
    rewrite Z.eqb_refl. apply Hnoop. unfold memblock_phys_mem_size. rewrite Et, Ed. simpl. lia. }
  pose proof (find_max_ok 0 _ limit Hw ltac:(lia) Hl) as Hmax. fold a in Hmax. simpl in Hmax.
  destruct (Z.eqb_spec a PHYS_ADDR_MAX) as [Ea|Ea].
  { apply Hnoop. unfold memblock_phys_mem_size. rewrite Et. destruct (Z.leb_spec limit (sum_size (regions (memory m)))); [|lia].
    destruct Hmax as [_ E]. rewrite Ea, upto_all in E by done. lia. }
  destruct (Z.leb_spec limit (sum_size (regions (memory m)))) as [Hle|?]; [|done]. destruct Hmax as [Ha Hsum].
  destruct (remove_above Memory a m) as (t1&->&R1); auto. cbn [res_bind].
  pose proof R1 as (W1&M1&_&At1&_).
  destruct (remove_above Reserved a (set_type Memory t1 m)) as (t2&->&R2); auto with kernel. cbn [res_bind].
  pose proof R2 as (W2&_&_&At2&_).
  eexists _, a. split; [done|]. split; [by apply wf_set; [apply wf_set|]|]. split; [|split; [exact At1|exact At2]].
  simpl. rewrite (sum_attr_wf t1 (upto a (regions (memory m)))); [lia|done|by apply upto_wf|].
  intros x. rewrite At1. symmetry. by apply (upto_attr 0).
Qed.

Lemma memblock_enforce_memory_limit_correct_witness :
  exists m' a, memblock_enforce_memory_limit 65536 boot = Ok m' /\ wf m'
    /\ memblock_phys_mem_size m' = Z.min 65536 (memblock_phys_mem_size boot)
    /\ (forall x, attr_at (regions (memory m')) x = below_attrs a (attr_at (regions (memory boot))) x)
    /\ (forall x, attr_at (regions (reserved m')) x = below_attrs a (attr_at (regions (reserved boot))) x).
Proof.
  apply memblock_enforce_memory_limit_correct; [apply boot_wf|by vm_compute|by vm_compute|by vm_compute].
Defined.

(** *** Capping the memory to one range *)

Definition nomaps (rs : list memblock_region) : list memblock_region := List.filter memblock_is_nomap rs.

(** Outside the range only no-map memory stays. *)
Definition cap_attrs (base size : Z) (f : attrs) : attrs :=
  fun x => if in_range base size x then f x
           else match f x with
                | Some (fl, n) => if Z.land fl MEMBLOCK_NOMAP =? 0 then None else Some (fl, n)
                | None => None
                end.

Lemma nomaps_wf lo rs : wf_from lo rs -> wf_from lo (nomaps rs).
Proof.
  revert lo. induction rs as [|r rs IH]; intros lo H; simpl; [done|]. destruct H as (?&?&?&H).
  specialize (IH _ H). destruct (memblock_is_nomap r); [by repeat split|]. eapply wf_from_weaken; [|done]. lia.
Qed.

Lemma nomaps_end lo rs : wf_from lo rs -> end_of lo (nomaps rs) <= end_of lo rs.
Proof.
  revert lo. induction rs as [|r rs IH]; intros lo H; simpl; [lia|]. destruct H as (?&?&?&H).
  specialize (IH _ H). destruct (memblock_is_nomap r); simpl; [done|].
  assert (K : forall l l' l0, l' <= l -> end_of l' l0 <= end_of l l0) by (intros ?? [|??]; simpl; lia).
  pose proof (K (r_base r + r_size r) lo (nomaps rs)). lia.
Qed.

Lemma nomaps_attr lo rs x : wf_from lo rs ->
  attr_at (nomaps rs) x = match attr_at rs x with
                          | Some (fl, n) => if Z.land fl MEMBLOCK_NOMAP =? 0 then None else Some (fl, n)
                          | None => None
                          end.
Proof.
  revert lo. induction rs as [|r rs IH]; intros lo H; simpl; [done|]. destruct H as (?&?&?&H).
  specialize (IH _ H). unfold memblock_is_nomap at 1.
  destruct (Z.eqb_spec (Z.land (r_flags r) MEMBLOCK_NOMAP) 0) as [E|E]; simpl;
    destruct (rgn_has r x) eqn:Ex; auto.
  - rewrite IH. unfold rgn_has in Ex. zbool. rewrite (attr_at_below _ rs x H) by lia. by rewrite E.
  - by destruct (Z.eqb_spec (Z.land (r_flags r) MEMBLOCK_NOMAP) 0).
Qed.

Lemma nomaps_app rs1 rs2 : nomaps (rs1 ++ rs2) = nomaps rs1 ++ nomaps rs2.
Proof. apply List.filter_app. Qed.

Lemma cap_loop_ok t pre mid post :
  regions t = pre ++ mid ++ post -> regions t <> [] -> counted t ->
  cap_loop (length mid) (length pre) t = Ok (set_counted t (or_dummy (pre ++ nomaps mid ++ post))).
Proof.
  revert t post. induction mid as [|r mid IH] using rev_ind; intros t post E Hne Hc.
  { simpl in *. rewrite <- E. destruct (regions t) eqn:Er; [done|]. simpl. by rewrite <- Er, set_counted_id. }
  rewrite length_app, Nat.add_comm. cbn [length Nat.add cap_loop].
  assert (E' : regions t = (pre ++ mid) ++ r :: post) by (rewrite E, <- !app_assoc; done).
  rewrite <- length_app.
  rewrite (array_get_Some _ _ r) by (rewrite E'; apply lookup_app_mid). cbn [res_bind].
  rewrite nomaps_app. simpl nomaps. destruct (memblock_is_nomap r) eqn:En; cbn [negb].
  - cbn [res_bind]. rewrite (IH t (r :: post)); [|by rewrite E', <- app_assoc|done|done].
    by rewrite <- app_assoc.
  - rewrite (remove_region_ok t (pre ++ mid) r post) by done. cbn [res_bind]. rewrite app_nil_r.
    destruct ((pre ++ mid) ++ post) as [|x l] eqn:Epost.
    + apply app_eq_nil in Epost as [Ep ->]. apply app_eq_nil in Ep as [-> ->]. done.
    + rewrite (IH _ post); [done| |done|apply counted_set]. simpl. by rewrite app_assoc, Epost.
Qed.

Lemma isolated_regions_ne lo b e rs : rs <> [] -> wf_from lo rs -> b < e -> isolated b e rs <> [].
Proof.
  intros Hne H Hbe E. destruct (isolated_length lo b e rs H Hbe) as [[Hl _] _]. rewrite E in Hl.
  destruct rs; [done|]. simpl in Hl. lia.
Qed.

(** The two removal loops after the isolation of [b, e). *)
Lemma cap_loops_ok t b e s en :
  wf_from 0 (regions t) -> regions t <> [] -> b < e ->
  (en - s)%nat = length (inside b e (regions t)) ->
  (inside b e (regions t) <> [] -> s = length (below b e (regions t))) ->
  (inside b e (regions t) = [] -> s = 0%nat /\ en = 0%nat) ->
  let t1 := set_counted t (isolated b e (regions t)) in
  (t2 <-- cap_loop (cnt t1 - en) en t1; cap_loop s 0 t2)
  = Ok (set_counted t (or_dummy (nomaps (below b e (regions t)) ++ inside b e (regions t)
                                  ++ nomaps (above b e (regions t))))).
Proof.
  intros Hw Hne Hbe En Es Ez t1. pose proof (isolated_regions_ne 0 b e _ Hne Hw Hbe) as Hi.
  unfold t1, isolated in *. set (lo := below b e (regions t)) in *. set (mid := inside b e (regions t)) in *.
  set (hi := above b e (regions t)) in *. destruct mid as [|r mid'] eqn:Em.
  - destruct Ez as [-> ->]; [done|]. unfold cnt. simpl regions. rewrite Nat.sub_0_r. simpl app in *.
    change 0%nat with (length (@nil memblock_region)) at 1.
    rewrite (cap_loop_ok _ [] (lo ++ hi) []); [|by rewrite app_nil_r|done|apply counted_set].
    simpl. rewrite nomaps_app, app_nil_r. done.
  - rewrite <- Em in *. assert (Hmid : mid <> []) by (by rewrite Em). clear Em Ez.
    assert (s = length lo) as -> by (by apply Es).
    assert (en = length (lo ++ mid)) as ->.
    { rewrite length_app. destruct mid; [done|]. simpl length in *. lia. }
    unfold cnt. simpl regions. rewrite !length_app.
    replace (length lo + (length mid + length hi) - (length lo + length mid))%nat with (length hi) by lia.
    rewrite <- length_app.
    rewrite (cap_loop_ok _ (lo ++ mid) hi []); [|by rewrite app_nil_r, <- app_assoc|done|apply counted_set].
    cbn [res_bind]. rewrite app_nil_r.
    assert (Hd : or_dummy ((lo ++ mid) ++ nomaps hi) = lo ++ mid ++ nomaps hi).
    { rewrite <- app_assoc. destruct lo; [destruct mid; done|done]. }
    rewrite Hd. change 0%nat with (length (@nil memblock_region)).
    rewrite (cap_loop_ok _ [] lo (mid ++ nomaps hi)); [done|done| |apply counted_set].
    simpl. destruct lo; [destruct mid; done|done].
Qed.

(** The regions that stay after capping to [b, e). *)
Definition capped (b e : Z) (rs : list memblock_region) : list memblock_region :=
  nomaps (below b e rs) ++ inside b e rs ++ nomaps (above b e rs).

Lemma capped_wf b e rs : wf_from 0 rs -> b < e -> wf_from 0 (capped b e rs).
Proof.
  intros H Hbe. pose proof (isolated_wf 0 b e rs H Hbe) as Hi. unfold isolated in Hi. unfold capped.
  rewrite wf_from_app in Hi. destruct Hi as [Hl Hi]. rewrite wf_from_app in Hi. destruct Hi as [Hm Hh].
  pose proof (nomaps_end 0 _ Hl) as Hle.
  rewrite wf_from_app. split; [by apply nomaps_wf|]. rewrite wf_from_app.
  split; [by eapply wf_from_weaken|]. eapply wf_from_weaken; [|by apply nomaps_wf].
  destruct (inside b e rs); simpl; [done|lia].
Qed.

Lemma capped_attr b e rs x : wf_from 0 rs -> b < e ->
  attr_at (capped b e rs) x
  = if (b <=? x) && (x <? e) then attr_at rs x
    else match attr_at rs x with
         | Some (fl, n) => if Z.land fl MEMBLOCK_NOMAP =? 0 then None else Some (fl, n)
         | None => None
         end.
Proof.
  intros H Hbe. pose proof (capped_wf b e rs H Hbe) as Hc. pose proof (isolated_wf 0 b e rs H Hbe) as Hi.
  unfold isolated in Hi. rewrite wf_from_app in Hi. destruct Hi as [Hl Hi]. rewrite wf_from_app in Hi.
  destruct Hi as [Hm Hh]. unfold capped in *. rewrite (attr_at_app 0) by done.
  rewrite wf_from_app in Hc. destruct Hc as [_ Hc]. rewrite (attr_at_app _ _ _ _ Hc).
  rewrite (nomaps_attr _ _ x Hl), (nomaps_attr _ _ x Hh).
  destruct (attr_parts 0 b e rs x H Hbe) as (->&->&->).
  zcase; simpl; try done; by destruct (attr_at rs x) as [[fl n]|]; try destruct (Z.land fl MEMBLOCK_NOMAP =? 0).
Qed.

Lemma capped_length b e rs : wf_from 0 rs -> b < e -> (length (capped b e rs) <= length rs + 2)%nat.
Proof.
  intros H Hbe. destruct (isolated_length 0 b e rs H Hbe) as [[_ Hl] _]. unfold capped, isolated, nomaps in *.
  rewrite !length_app in *. pose proof (List.filter_length_le memblock_is_nomap (below b e rs)).
  pose proof (List.filter_length_le memblock_is_nomap (above b e rs)). lia.
Qed.

Lemma cap_memory_ok base size m :
  wf m -> phys_range base size -> base < range_end base size -> room Memory 2 m ->
  exists t', ('(ret, m1, s, en) <-- memblock_isolate_range Memory base size m;
              t <-- cap_loop (cnt (memory m1) - en) en (memory m1);
              t <-- cap_loop s 0 t;
              Ok (ret, set_type Memory t m1)) = Ok (0, set_type Memory t' m)
    /\ wf_type t' /\ max t' = max (memory m)
    /\ forall x, attr_at (regions t') x = cap_attrs base size (attr_at (regions (memory m))) x.
Proof.
  intros Hwf Hr Hne Hroom. unfold memblock_isolate_range.
  pose proof (wf_get Memory m Hwf) as Wm. pose proof (wf_max _ Wm) as Hmax. simpl in Wm, Hmax.
  assert (Hin : forall x, in_range base size x = (base <=? x) && (x <? range_end base size)) by done.
  destruct (isolate_cases (memblock_double_array double_fuel) Memory base size m Wm Hr Hroom)
    as [(->&[Hd|Hz])|(s&en&->&En&Es&Hne'&Hw&Hbe&He&Ez)]; simpl get_type in *; cbn [res_bind].
  - pose proof Hd as (fl&n&Ed). pose proof (wf_counted _ Wm) as Hc.
    assert (E1 : cnt (memory m) = length (regions (memory m))) by done. rewrite Nat.sub_0_r, E1.
    change 0%nat with (length (@nil memblock_region)) at 1.
    rewrite (cap_loop_ok (memory m) [] (regions (memory m)) []); [|by rewrite app_nil_r|by rewrite Ed|done].
    cbn [res_bind cap_loop]. eexists. split; [done|].
    assert (Wn : wf_type (set_counted (memory m) (or_dummy ([] ++ nomaps (regions (memory m)) ++ [])))).
    { rewrite Ed. simpl. unfold set_counted. destruct (memblock_is_nomap _); simpl.
      - split; [left; by exists fl, n|]. split; [done|exact Hmax].
      - split; [left; by exists 0, MAX_NUMNODES|]. split; [done|exact Hmax]. }
    split; [done|]. split; [done|]. intros x. unfold cap_attrs. rewrite (attr_at_dummy _ x Hd).
    destruct (in_range base size x); rewrite attr_at_dummy; try done; rewrite Ed; simpl;
      destruct (memblock_is_nomap _); simpl; (by exists fl, n) || (by exists 0, MAX_NUMNODES).
  - lia.
  - pose proof (cap_loops_ok (memory m) base (range_end base size) s en Hw Hne' ltac:(lia) En Es Ez) as E.
    simpl in E. destruct (cap_loop _ en _) as [t2|]; [|done]. cbn [res_bind] in E |- *. rewrite E. cbn [res_bind].
    fold (capped base (range_end base size) (regions (memory m))).
    eexists. split; [done|]. split; [|split; [done|]].
    + apply or_dummy_wf; [apply capped_wf; [done|lia]| |done].
      pose proof (capped_length base (range_end base size) _ Hw ltac:(lia)). unfold room, cnt in Hroom. simpl in Hroom. lia.
    + intros x. simpl regions. rewrite or_dummy_attr, capped_attr by (done || lia). unfold cap_attrs. by rewrite Hin.
Qed.

(** Dropping the reservations below and above the range. *)
Lemma cap_reserved_ok base size m :
  wf m -> 0 <= base -> 0 < size -> base + size <= PHYS_ADDR_MAX -> room Reserved 4 m ->
  exists t', ('(_, m) <-- memblock_remove_range Reserved 0 base m;
              '(_, m) <-- memblock_remove_range Reserved (u32 (base + size)) PHYS_ADDR_MAX m;
              Ok m) = Ok (set_type Reserved t' m)
    /\ wf_type t'
    /\ forall x, 0 <= x -> attr_at (regions t') x
                  = if in_range base size x then attr_at (regions (reserved m)) x else None.
Proof.
  intros Hwf Hb Hs Hend Rr.
  assert (Hend' : base + size <= 4294967295) by exact Hend.
  destruct (remove_range_refines_cnt (memblock_double_array double_fuel) Reserved 0 base m)
    as (t3&E3&(W3&M3&_&At3&_)&C3); auto with kernel.
  { unfold phys_range, PHYS_ADDR_MAX. lia. } { unfold room in *. lia. }
  unfold memblock_remove_range at 1. rewrite E3. cbn [res_bind]. rewrite u32_small by lia.
  destruct (remove_above Reserved (base + size) (set_type Reserved t3 m)) as (t4&->&W4&_&_&At4&_); auto with kernel.
  { lia. }
  { unfold room in *. rewrite get_set_type, M3. simpl in *. lia. }
  cbn [res_bind]. rewrite set_set_type. rewrite get_set_type in At4. exists t4. split; [done|]. split; [done|].
  intros x Hx. rewrite At4. unfold below_attrs. rewrite At3. unfold remove_attrs. simpl get_type.
  unfold in_range, range_end, PHYS_ADDR_MAX. zcase; simpl; done.
Qed.

(** [memblock_cap_memory_range] keeps the memory inside the range and the
    no-map memory outside it, and drops every reservation outside the range, for
    ranges that end in the address space. *)
Theorem memblock_cap_memory_range_correct base size m :
  wf m -> phys_range base size -> 0 < size -> base + size <= PHYS_ADDR_MAX ->
  room Memory 2 m -> room Reserved 4 m ->
  exists m', memblock_cap_memory_range base size m = Ok m' /\ wf m'
    /\ (forall x, attr_at (regions (memory m')) x = cap_attrs base size (attr_at (regions (memory m))) x)
    /\ (forall x, 0 <= x -> attr_at (regions (reserved m')) x
                  = if in_range base size x then attr_at (regions (reserved m)) x else None).
Proof.
  intros Hwf Hr Hs Hend Rm Rr. unfold memblock_cap_memory_range. destruct (Z.eqb_spec size 0); [lia|].
  assert (Hre : base < range_end base size) by (unfold range_end; lia).
  destruct (cap_memory_ok base size m Hwf Hr Hre Rm) as (t'&E&Wt&_&At).
  destruct (memblock_isolate_range Memory base size m) as [[[[ret m1] s] en]|]; [|done]. cbn [res_bind] in *.
  destruct (cap_loop _ en _) as [t1|]; [|done]. cbn [res_bind] in *.
  destruct (cap_loop s 0 t1) as [t2|]; [|done]. cbn [res_bind] in *.
  assert (Er : ret = 0) by congruence. assert (Em : set_type Memory t2 m1 = set_type Memory t' m) by congruence.
  rewrite Er, Em, Z.eqb_refl. cbn [negb].
  destruct (cap_reserved_ok base size (set_type Memory t' m)) as (t4&->&W4&At4); auto using wf_set.
  { unfold phys_range in Hr. lia. }
  eexists. split; [done|]. split; [by apply wf_set; [apply wf_set|]|]. by split.
Qed.

Lemma memblock_cap_memory_range_correct_witness :
  exists m', memblock_cap_memory_range 8192 65536 boot = Ok m' /\ wf m'
    /\ (forall x, attr_at (regions (memory m')) x = cap_attrs 8192 65536 (attr_at (regions (memory boot))) x)
    /\ (forall x, 0 <= x -> attr_at (regions (reserved m')) x
                  = if in_range 8192 65536 x then attr_at (regions (reserved boot)) x else None).
Proof.
  apply memblock_cap_memory_range_correct;
    [apply boot_wf|by apply boot_phys|done|by vm_compute|by vm_compute|by vm_compute].
Defined.

(** *** Trimming the memory to an alignment *)

Section trim.
Context (k : Z) (Hk : 0 <= k <= 31).

(** The address range of a region rounded inwards. *)
Definition rup (x : Z) : Z := 2 ^ k * ((x + 2 ^ k - 1) / 2 ^ k).
Definition rdown (x : Z) : Z := 2 ^ k * (x / 2 ^ k).

Definition trim1 (r : memblock_region) : list memblock_region :=
  let s := rup (r_base r) in let e := rdown (r_base r + r_size r) in
  if s <? e then [clip r s e] else [].

Definition trimmed (rs : list memblock_region) : list memblock_region := flat_map trim1 rs.

(** The sizes of the regions that vanish. *)
Fixpoint dropped (rs : list memblock_region) : Z :=
  match rs with
  | [] => 0
  | r :: rs => (if rup (r_base r) <? rdown (r_base r + r_size r) then 0 else r_size r) + dropped rs
  end.

(** No base so close to the end of the address space that rounding it up wraps. *)
Definition no_wrap (rs : list memblock_region) : Prop :=
  Forall (fun r => r_base r + 2 ^ k <= 4294967296) rs.

Lemma rup_ge x : x <= rup x < x + 2 ^ k.
Proof.
  unfold rup. pose proof (pow2_range k Hk). pose proof (Z.div_mod (x + 2 ^ k - 1) (2 ^ k) ltac:(lia)).
  pose proof (Z.mod_pos_bound (x + 2 ^ k - 1) (2 ^ k) ltac:(lia)). lia.
Qed.

Lemma rdown_le x : x - 2 ^ k < rdown x <= x.
Proof.
  unfold rdown. pose proof (pow2_range k Hk). pose proof (Z.div_mod x (2 ^ k) ltac:(lia)).
  pose proof (Z.mod_pos_bound x (2 ^ k) ltac:(lia)). lia.
Qed.

Lemma round_up_rup x : 0 <= x -> x + 2 ^ k <= 4294967296 -> round_up x (2 ^ k) = rup x.
Proof.
  intros Hx Hw. pose proof (pow2_range k Hk). destruct (Z.eq_dec x 0) as [->|Hne].
  - unfold rup. rewrite Z.div_small by lia. unfold round_up. rewrite pow2_mask by done.
    change (u32 (0 - 1)) with (Z.ones 32).
    replace (Z.lor (Z.ones 32) (Z.ones k)) with (Z.ones 32); [rewrite Z.mul_0_r; done|].
    pose proof (Z.add_lor_land (Z.ones 32) (Z.ones k)) as E. rewrite Z.land_comm, Z.land_ones in E by lia.
    rewrite Z.mod_small in E; [lia|]. rewrite Z.ones_equiv. assert (2 ^ k <= 2 ^ 32) by (apply Z.pow_le_mono_r; lia). lia.
  - rewrite round_up_spec by lia. unfold rup. rewrite <- (Z.div_add (x - 1) 1 (2 ^ k)) by lia.
    replace (x - 1 + 1 * 2 ^ k) with (x + 2 ^ k - 1) by lia. pose proof (rup_ge x) as Hr. unfold rup in Hr.
    apply u32_small. lia.
Qed.

Lemma round_down_rdown x : 0 <= x < 4294967296 -> round_down x (2 ^ k) = rdown x.
Proof. intros. by apply round_down_spec. Qed.

(** A region kept as it is trims to itself. *)
Lemma trim1_same r : 0 < r_size r -> rup (r_base r) = r_base r -> rdown (r_base r + r_size r) = r_base r + r_size r ->
  trim1 r = [r].
Proof.
  intros Hs E1 E2. unfold trim1. rewrite E1, E2. destruct (Z.ltb_spec (r_base r) (r_base r + r_size r)); [|lia].
  destruct r as [b s fl n]. unfold clip. simpl. do 2 f_equal. lia.
Qed.

Lemma trim_loop_dummy fuel align t fl n :
  regions t = [MkRegion 0 0 fl n] -> align = 2 ^ k -> (1 < fuel)%nat -> trim_loop fuel 0 align t = Ok t.
Proof.
  intros E -> Hf. destruct fuel as [|[|fuel]]; [lia|lia|]. pose proof (pow2_range k Hk).
  cbn [trim_loop]. rewrite E. cbn [lookup list_lookup r_base].
  change (rgn_end (MkRegion 0 0 fl n)) with 0.
  assert (rup 0 = 0) as R0 by (unfold rup; rewrite Z.div_small; lia).
  assert (rdown 0 = 0) as R1 by (unfold rdown; rewrite Z.div_0_l; lia).
  rewrite (round_up_rup 0), (round_down_rdown 0), R0, R1 by lia. done.
Qed.

(** What the walk leaves: the trimmed regions; the size counter only loses the
    regions that vanish. *)
Definition trim_result (t t' : memblock_type) (pre post : list memblock_region) : Prop :=
  regions t' = or_dummy (pre ++ trimmed post) /\ max t' = max t /\ array t' = array t
  /\ total_size t' = u32 (total_size t - dropped post).

Lemma remove_region_raw t pre r post :
  regions t = pre ++ r :: post ->
  memblock_remove_region t (length pre)
  = Ok (set_regions t (or_dummy (pre ++ post)) (u32 (total_size t - r_size r))).
Proof.
  intros E. unfold memblock_remove_region. rewrite (array_get_Some _ _ r) by (rewrite E; apply lookup_app_mid).
  cbn [res_bind]. rewrite E, delete_app_mid. by destruct (pre ++ post).
Qed.

Lemma trim_loop_ok fuel t pre post lo :
  regions t = pre ++ post -> pre ++ post <> [] -> wf_from lo post -> 0 <= lo -> no_wrap post ->
  total_size t = u32 (total_size t) -> (length post + 1 < fuel)%nat ->
  exists t', trim_loop fuel (length pre) (2 ^ k) t = Ok t' /\ trim_result t t' pre post.
Proof.
  revert t pre lo fuel. induction post as [|r post IH]; intros t pre lo fuel E Hne H Hlo Hw Ht Hf;
    (destruct fuel as [|fuel]; [lia|]); cbn [trim_loop]; rewrite E.
  { rewrite app_nil_r in *. rewrite lookup_ge_None_2 by lia. exists t. split; [done|].
    unfold trim_result. simpl. rewrite app_nil_r, Z.sub_0_r. repeat split; auto. rewrite E. by destruct pre. }
  rewrite lookup_app_mid. pose proof H as (?&?&?&H'). apply Forall_cons in Hw as [Hw1 Hw].
  rewrite (rgn_end_wf lo r post) by done. unfold PHYS_ADDR_MAX in *.
  rewrite round_up_rup, round_down_rdown by lia. simpl length in Hf.
  set (s := rup (r_base r)). set (e := rdown (r_base r + r_size r)).
  assert (Hnext : forall r' t1, trim1 r = [r'] -> regions t1 = (pre ++ [r']) ++ post -> max t1 = max t ->
            array t1 = array t -> total_size t1 = total_size t ->
            exists t', trim_loop fuel (S (length pre)) (2 ^ k) t1 = Ok t' /\ trim_result t t' pre (r :: post)).
  { intros r' t1 E1 Er Em Ea Et. replace (S (length pre)) with (length (pre ++ [r'])) by (rewrite length_app; simpl; lia).
    destruct (IH t1 (pre ++ [r']) (r_base r + r_size r) fuel) as (t'&Ex&R1&R2&R3&R4); auto; try lia.
    { by destruct pre. } { by rewrite Et. }
    exists t'. split; [done|]. unfold trim_result. unfold trimmed in *. simpl. rewrite E1, R1, R2, R3, R4, Em, Ea, Et.
    rewrite <- app_assoc. repeat split; auto. do 2 f_equal. unfold trim1 in E1. by destruct (_ <? _). }
  destruct ((s =? r_base r) && (e =? r_base r + r_size r)) eqn:Esame.
  - zbool. apply (Hnext r t); auto; [by apply trim1_same|by rewrite <- app_assoc].
  - destruct (Z.ltb_spec s e) as [Hse|Hse].
    + pose proof (rup_ge (r_base r)). pose proof (rdown_le (r_base r + r_size r)). fold s in H3. fold e in H4.
      rewrite u32_small by lia. apply (Hnext (clip r s e)); auto.
      * unfold trim1. fold s e. by destruct (Z.ltb_spec s e); [|lia].
      * simpl. by rewrite insert_app_mid, <- app_assoc.
    + rewrite (remove_region_raw t pre r post) by done. cbn [res_bind].
      assert (Hres : forall t', trim_result (set_regions t (or_dummy (pre ++ post)) (u32 (total_size t - r_size r))) t' pre post ->
                trim_result t t' pre (r :: post)).
      { intros t' (R1&R2&R3&R4). simpl in R2, R3, R4. unfold trim_result, trimmed in *. simpl.
        unfold trim1 at 1. fold s e. destruct (Z.ltb_spec s e); [lia|]. repeat split; auto.
        rewrite R4, u32_sub_l. f_equal. lia. }
      destruct (pre ++ post) as [|x l] eqn:Epp.
      * apply app_eq_nil in Epp as [-> ->]. simpl length. eexists.
        split; [by eapply trim_loop_dummy; [|done|lia]|]. apply Hres. split; [done|]. repeat split. simpl.
        by rewrite Z.sub_0_r, u32_u32.
      * destruct (IH (set_regions t (or_dummy (x :: l)) (u32 (total_size t - r_size r))) pre
                    (r_base r + r_size r) fuel) as (t'&Ex&R); auto; try lia.
        { by rewrite Epp. } { simpl. by rewrite u32_u32. }
        exists t'. split; [done|]. by apply Hres.
Qed.

Lemma trimmed_wf lo rs : wf_from lo rs -> wf_from lo (trimmed rs).
Proof.
  revert lo. induction rs as [|r rs IH]; intros lo H; simpl; [done|]. destruct H as (?&?&?&H).
  pose proof (rup_ge (r_base r)). pose proof (rdown_le (r_base r + r_size r)). specialize (IH _ H).
  unfold trim1. destruct (Z.ltb_spec (rup (r_base r)) (rdown (r_base r + r_size r))); simpl.
  - repeat split; try lia. eapply wf_from_weaken; [|done]. lia.
  - eapply wf_from_weaken; [|done]. lia.
Qed.

(** Rounding inwards keeps an address exactly when its whole block fits. *)
Lemma inward_block b e x : rup b <= x < rdown e <-> b <= rdown x /\ rdown x + 2 ^ k <= e.
Proof.
  pose proof (pow2_range k Hk). unfold rup, rdown.
  pose proof (Z.div_mod (b + 2 ^ k - 1) (2 ^ k) ltac:(lia)). pose proof (Z.mod_pos_bound (b + 2 ^ k - 1) (2 ^ k) ltac:(lia)).
  pose proof (Z.div_mod x (2 ^ k) ltac:(lia)). pose proof (Z.mod_pos_bound x (2 ^ k) ltac:(lia)).
  pose proof (Z.div_mod e (2 ^ k) ltac:(lia)). pose proof (Z.mod_pos_bound e (2 ^ k) ltac:(lia)).
  set (p := 2 ^ k) in *. set (q := (b + p - 1) / p) in *. set (qx := x / p) in *. set (qe := e / p) in *.
  assert (Hm : forall u v, p * u <= p * v <-> u <= v) by (intros; symmetry; apply Z.mul_le_mono_pos_l; lia).
  pose proof (Hm q qx). pose proof (Hm (qx + 1) qe). pose proof (Hm (qx + 1) q). pose proof (Hm qe qx). split; lia.
Qed.

Lemma trimmed_attr lo rs x v : wf_from lo rs ->
  attr_at (trimmed rs) x = Some v
  <-> exists r, r ∈ rs /\ r_base r <= rdown x /\ rdown x + 2 ^ k <= r_base r + r_size r
                /\ v = (r_flags r, r_nid r).
Proof.
  pose proof (pow2_range k Hk). pose proof (rdown_le x).
  revert lo. induction rs as [|r rs IH]; intros lo H'; simpl.
  { split; [done|]. intros (r&Hin&_). by apply elem_of_nil in Hin. }
  destruct H' as (?&?&?&H'). specialize (IH _ H').
  assert (E1 : attr_at (trim1 r ++ trimmed rs) x
               = if (r_base r <=? rdown x) && (rdown x + 2 ^ k <=? r_base r + r_size r)
                 then Some (r_flags r, r_nid r) else attr_at (trimmed rs) x).
  { pose proof (inward_block (r_base r) (r_base r + r_size r) x) as [Hib1 Hib2]. unfold trim1.
    destruct (Z.ltb_spec (rup (r_base r)) (rdown (r_base r + r_size r))); simpl; unfold rgn_has; simpl;
      zcase; simpl; try done; exfalso; (destruct Hib1; [lia|]) || (destruct Hib2; [lia|]); lia. }
  rewrite E1. setoid_rewrite elem_of_cons. destruct (_ && _) eqn:Eb.
  - zbool. split.
    + intros [= <-]. exists r. auto.
    + intros (r'&[->|Hin]&?&?&->); [done|]. exfalso. apply list_elem_of_lookup in Hin as [i Ei].
      pose proof (ord_lookup _ _ _ _ (wf_ord _ _ H') Ei). lia.
  - rewrite IH. split; intros (r'&Hin&?&?&->).
    + exists r'. auto.
    + exists r'. destruct Hin as [->|Hin]; [|auto]. exfalso. apply andb_false_iff in Eb. destruct Eb; zbool; lia.
Qed.
End trim.

(** [memblock_trim_memory] with a power-of-two alignment keeps exactly the
    memory addresses whose aligned block lies inside their region, as long as no
    region base is within one alignment unit of the end of the address space;
    the regions stay sorted and disjoint. *)
Theorem memblock_trim_memory_correct k m :
  wf m -> ~ dummy (regions (memory m)) -> 0 <= k <= 31 -> no_wrap k (regions (memory m)) ->
  exists t', memblock_trim_memory (2 ^ k) m = Ok (set_type Memory t' m)
    /\ wf_regions (regions t')
    /\ forall x v, attr_at (regions t') x = Some v
         <-> exists r, r ∈ regions (memory m) /\ r_base r <= 2 ^ k * (x / 2 ^ k)
                       /\ 2 ^ k * (x / 2 ^ k) + 2 ^ k <= r_base r + r_size r /\ v = (r_flags r, r_nid r).
Proof.
  intros [Wm _] Hd Hk Hw. pose proof (wf_total _ Wm) as Htot. destruct Wm as ([?|[Hne Hwf]]&Et&_); [done|].
  unfold memblock_trim_memory.
  destruct (trim_loop_ok k Hk (cnt (memory m) + 2) (memory m) [] (regions (memory m)) 0) as (t'&E&R&_); auto.
  { lia. } { unfold PHYS_ADDR_MAX in *. rewrite Et. by wrap. } { unfold cnt. lia. }
  simpl length in E. rewrite E. cbn [res_bind]. exists t'. split; [done|]. rewrite R. simpl app.
  pose proof (trimmed_wf k Hk 0 _ Hwf) as Wt. split.
  - destruct (trimmed k (regions (memory m))) eqn:Ed; [left; by exists 0, MAX_NUMNODES|]. by right.
  - intros x v. rewrite or_dummy_attr. by apply (trimmed_attr k Hk 0).
Qed.

Lemma memblock_trim_memory_correct_witness :
  exists t', memblock_trim_memory (2 ^ 12) boot = Ok (set_type Memory t' boot)
    /\ wf_regions (regions t')
    /\ forall x v, attr_at (regions t') x = Some v
         <-> exists r, r ∈ regions (memory boot) /\ r_base r <= 2 ^ 12 * (x / 2 ^ 12)
                       /\ 2 ^ 12 * (x / 2 ^ 12) + 2 ^ 12 <= r_base r + r_size r /\ v = (r_flags r, r_nid r).
Proof.
  apply memblock_trim_memory_correct;
    [apply boot_wf|by intros (?&?&?)|lia|by repeat constructor].
Defined.

(** A machine whose memory does not start on a page boundary, and one whose last
    region lies in the last page of the address space. *)
Definition boot_odd : memblock :=
  set_type Memory (MkType [MkRegion 100 1048576 0 0] INIT_MEMBLOCK_REGIONS 1048576 InitRegions) boot.
Definition boot_top : memblock :=
  set_type Memory (MkType [MkRegion 4294965248 1024 0 0] INIT_MEMBLOCK_REGIONS 1024 InitRegions) boot.

(** trimming does not update [total_size] when it shrinks a region: after
    trimming a machine of 1 MiB at address 100 to pages, the reported size is
    still 1 MiB although the region is one page smaller. *)
Theorem memblock_trim_memory_stale_size :
  exists m', memblock_trim_memory PAGE_SIZE boot_odd = Ok m'
    /\ memblock_phys_mem_size m' = 1048576 /\ sum_size (regions (memory m')) = 1044480.
Proof. eexists. by split; [vm_compute; reflexivity|]. Qed.

(** rounding up wraps in the last page of the address space, and trimming
    then grows the region: 1 KiB of memory in the last page becomes all of the
    address space below that page. *)
Theorem memblock_trim_memory_wraps :
  exists m', memblock_trim_memory PAGE_SIZE boot_top = Ok m'
    /\ regions (memory m') = [MkRegion 0 4294963200 0 0].
Proof. eexists. by split; [vm_compute; reflexivity|]. Qed.

(** ** Releasing the free memory: the blocks tile the range *)

(** Consecutive blocks from [s] to [e], each aligned to its size and of an order
    the page allocator accepts. *)
Fixpoint tiles (l : list (Z * Z)) (s e : Z) : Prop :=
  match l with
  | [] => s = e
  | (p, o) :: l => p = s /\ 0 <= o < MAX_ORDER /\ (2 ^ o | p) /\ s + 2 ^ o <= e /\ tiles l (s + 2 ^ o) e
  end.

Lemma order_pow o : 0 <= o <= 10 -> u64 (Z.shiftl 1 o) = 2 ^ o /\ 1 <= 2 ^ o <= 1024.
Proof.
  intros H. assert (1 <= 2 ^ o <= 2 ^ 10) by (split; [apply (Z.pow_le_mono_r 2 0)|apply Z.pow_le_mono_r]; lia).
  rewrite Z.shiftl_1_l, u64_small by lia. done.
Qed.

Lemma fit_order_ok fuel o s e :
  0 <= o <= 10 -> 0 <= s < e -> e <= 4503599627370496 -> (Z.to_nat o < fuel)%nat ->
  exists o', fit_order fuel o s e = Ok o' /\ 0 <= o' <= o /\ s + 2 ^ o' <= e.
Proof.
  intros Ho Hs He. revert o Ho. induction fuel as [|fuel IH]; intros o Ho Hf; [lia|]. cbn [fit_order].
  destruct (order_pow o Ho) as [-> Hp]. rewrite u64_small by lia.
  destruct (Z.ltb_spec e (s + 2 ^ o)).
  - assert (o <> 0) by (intros ->; simpl in *; lia).
    destruct (IH (o - 1)) as (o'&->&?&?); [lia|lia|]. exists o'. repeat split; auto; lia.
  - exists o. repeat split; auto; lia.
Qed.

Lemma ffs_divides w : 0 <= w < 18446744073709551616 -> 0 <= __ffs w /\ (2 ^ __ffs w | w).
Proof.
  intros Hw. destruct (Z.eq_dec w 0) as [->|Hnz]; [split; [done|apply Z.divide_0_r]|].
  destruct (ffs_ok w Hw Hnz) as ((H0&_&Hlow)&_). split; [done|].
  apply Z.mod_divide; [pose proof (Z.pow_pos_nonneg 2 (__ffs w)); lia|]. by apply mod_pow2_bits.
Qed.

Lemma free_pages_loop_ok fuel s e :
  0 <= s <= e -> e <= 4503599627370496 -> (Z.to_nat (e - s) < fuel)%nat ->
  exists l, free_pages_loop fuel s e = Ok l /\ tiles l s e.
Proof.
  revert s. induction fuel as [|fuel IH]; intros s Hs He Hf; [lia|]. cbn [free_pages_loop].
  destruct (Z.ltb_spec s e); [|exists []; split; [done|simpl; lia]].
  destruct (ffs_divides s) as [H0 Hd]; [lia|]. unfold MAX_ORDER. change (11 - 1) with 10.
  destruct (fit_order_ok 12 (Z.min 10 (__ffs s)) s e) as (o&->&Ho&Hfit); [lia..|]. cbn [res_bind].
  destruct (order_pow o) as [-> Hp]; [lia|]. rewrite u64_small by lia.
  destruct (IH (s + 2 ^ o)) as (l&->&Hl); [lia|lia|lia|]. cbn [res_bind]. eexists. split; [done|].
  simpl. repeat split; auto; try (unfold MAX_ORDER; lia).
  eapply Z.divide_trans; [|exact Hd]. exists (2 ^ (__ffs s - o)). rewrite <- Z.pow_add_r by lia. f_equal. lia.
Qed.

(** [__free_pages_memory] terminates and walks over the page frames of its
    range in consecutive blocks, each of at most the largest buddy order,
    aligned to its size and inside the range, that together are the range. *)
Theorem free_pages_memory_tiles start end_ :
  0 <= start <= end_ -> end_ <= 4503599627370496 ->
  exists l, __free_pages_memory start end_ = Ok l /\ tiles l start end_.
Proof. intros. apply free_pages_loop_ok; lia. Qed.

Lemma free_pages_memory_tiles_witness :
  exists l, __free_pages_memory 3 2001 = Ok l /\ tiles l 3 2001.
Proof. apply free_pages_memory_tiles; lia. Defined.
